(* ===== verification/_CoqProject ===== *)
-Q . S2P
Prelude.v
Floats.v
Json.v
JsonTypes.v
Bits.v
IqStream.v
RelayRing.v
Scanner.v
Ingest.v
Demod.v
Daemon.v
RelayControl.v
SdrDriver.v
Pipeline.v
Varint.v
Ctype.v
IntArith.v
IntText.v
Utf.v
Like.v
RadioDb.v
Gateway.v
LogsApi.v
Agent.v
Worker.v
Broadcast.v
Bitvec.v
RowSet.v
MemJournal.v
Complete.v
Random.v
Hash.v
UnixLock.v
WalIndex.v
Wal.v
WalDurable.v
WalCheckpoint.v
WalShared.v
WalIsolation.v
Record.v
MemCompare.v
Collation.v
RecordCompare.v
Keywords.v
Tokenizer.v
ParserTables.v
ParserCheck.v
Lalr.v
RunParser.v
