(* ===== verification/Prelude.v ===== *)
(** * AetherGuard: a verification development

    AetherGuard listens to FM radio with an SDRplay receiver, finds stations,
    records and streams them, transcribes and summarises what was recorded, and
    keeps a log.  This library models its C and C++ code in Rocq and proves the
    theorems that make it correct.

    ** The program and how its parts interact

    - The _relay_ ([src/sdr-relay]) runs on the host.  The vendor's API calls
      the stream callback with samples; they go through a lock-free ring to a
      sender thread, which frames them for the data connection (TCP).  On the
      control connection it takes lines of JSON (TUNE, CONFIGURE, SCAN) and
      answers with events.
    - The _daemon_ ([src/sdr-daemon]) reads the frames, stages the samples into
      fixed chunks, demodulates them into PCM slots, and writes these to a WAV
      file or publishes them on the Redis channel [live_audio].  A command
      listener on the channel [sdr_commands] starts recorders, live listening
      and scans; what the relay reports is published on [ws_updates].
    - The _API_ ([src/api-core]) answers HTTP requests: it publishes commands,
      waits for scans, keeps the log database (SQLite), forwards Redis messages
      to WebSocket clients, and lets a language model search the logs.
    - The _AI worker_ ([src/ai-worker]) takes the channel [ai_commands], runs
      Whisper, llama.cpp or OpenAI, and publishes the result on [ws_updates].
    - _SQLite_ ([src/api-core/src/db/sqlite3.c]) is compiled into the API; all
      messages are written and read by the JSON code of [src/include/crow.h].

    ** Which file models what

    Shared: this file (machine integers as [Z] with their wrap-around, byte
    buffers, C strings, the notation [let*] for computations that may fail, the
    tactics [buf_simpl] and [if_cases], the hint database [width]);
    [Bits] (a decision procedure for masks and shifts); [Floats] (IEEE
    binary32 and binary64 operations and their rounding).

    Radio: [SdrDriver] ([sdr_handler.cpp] and the hardware part of the relay's
    [main.cpp]); [RelayRing] ([broadcastAudio], [dataSenderThread]);
    [IqStream] (framing, [recvExact], the read loop of [tcpReaderThread]);
    [Scanner] (the scan thread of [handleCommand]); [RelayControl]
    ([controlServerThread], [handleCommand]); [Ingest] ([feedIQToPool]);
    [Pipeline] (their composition); [Demod] ([demodThread], [outputThread]);
    [Daemon] ([commandListener], recorder and live threads,
    [ctrlReaderThread]).

    Services: [Json] and [JsonTypes] ([crow::json]); [Gateway] (the handlers
    that publish commands, and how the daemon reads them); [RadioDb]
    ([dbcorefunctions.cpp], [dbcorefilter.cpp]); [LogsApi] (the handlers of the
    log database, from request to response text); [Agent] (the chat handler);
    [Broadcast] (Redis to WebSocket); [Worker] (the AI worker).

    SQLite: [Varint], [Ctype], [IntArith], [IntText], [Utf], [Like], [Bitvec],
    [RowSet], [MemJournal], [Complete], [Random], [Hash], [UnixLock], each one
    source file of the amalgamation or a part of it; the opening comment of each
    names the functions.  The write-ahead log has six: [WalIndex] (the hash tables
    in shared memory), [Wal] (frames, [walFrames], recovery), [WalDurable] (the
    log as a map of pages, crashes), [WalCheckpoint] (the sort, the iterator and
    [walCheckpoint]), [WalShared] (connections that share a log, as programs of
    accesses) and [WalIsolation] (all their interleavings).  Records have four:
    [Record] (the record format, [OP_MakeRecord] and reading back), [MemCompare]
    ([sqlite3MemCompare] and the order of values), [Collation] (the collating
    functions and their laws) and [RecordCompare] (the comparison of records with
    keys and its fast paths).  The front end has six: [Keywords] (the perfect hash),
    [Tokenizer] ([sqlite3GetToken]), [ParserTables] (the tables and the grammar of
    the generated parser), [ParserCheck] (a certificate for the tables, checked by
    computation, and the facts about the automaton that follow), [Lalr] (the
    parser engine and its stack) and [RunParser] ([sqlite3RunParser]).

    ** How state and operations correspond to the code

    Definitions have the names of the C functions, variables and members.  A
    function that changes state takes and returns a record with the members of
    the C structure; histories that the code does not keep (what was stored,
    sent, delivered) are marked as such.  Threads are events: one event is one
    access to the shared state (or one pass under a mutex), and a run is any
    list of events, so that a theorem about all lists is about all
    interleavings.  Three models are coarser: [Ingest] has whole calls of
    [feedIQToPool] and of the demodulator as events, [WalIndex] whole appends
    and rollbacks of a writer, [Broadcast] whole messages.  Errors are values: [None] for an exception or undefined
    behaviour, a result code where the code returns one.  Integers are kept at
    their width where overflow matters; floating-point numbers are IEEE numbers.

    What is not in the repository is a parameter with laws: the SQL engine
    ([RadioDb.Sql], [RadioDb.SqlLaws]), the vendor's update call, which may
    fail ([SdrDriver.UpdateLaw]), number formatting ([Json.PrintedNumber]),
    [std::sort] ([Json.KeySort]), the traversal of a hash map
    ([Gateway.Iteration]), a collating function ([Collation.Collation], with the
    three built-in functions as instances), the semantic actions of the SQL
    grammar ([Lalr.ParserEnv], [RunParser.Actions] with [ActionLaws]: they report an error
    with a result code and keep what they do not own), a virtual file system ([MemJournal.Vfs]), the record
    locks of the operating system ([UnixLock.RecordLockLaws]), the models,
    [libm].  Each law has an instance, with which the witnesses run.  The results
    of locks and interrupts in a checkpoint ([WalCheckpoint.World]), the bytes that
    a crash leaves and the errors of locks ([WalShared.exec]) are arguments over
    which the theorems quantify.

    ** What the theorems show

    - The sample path: [Pipeline.iq_alignment] (the chunks in the daemon hold
      whole blocks of hardware pairs, in order; the demodulator gets those chunks
      that found a free slot), from [RelayRing.relay_ring_fifo],
      [relay_ring_drains], [relay_to_daemon], [IqStream.tcp_reader_exact],
      [Ingest.ingest_stream]; then [Demod.pcm_stream] (up to a
      sample that is not a number) and [resample_rate].
    - Control: [Daemon.daemon_modes], [record_complete_run];
      [RelayControl.ctrl_lines_chunking]; [SdrDriver.hardware_in_sync] (for
      parameters whose last update succeeded), [validated_power_fresh],
      [driver_lifecycle]; [Scanner.scan_complete] (exactly the strongest channel
      of each cluster).
    - Messages: [Json.json_roundtrip] (up to the exponents that the writer
      mangles), [json_load_terminates],
      [JsonTypes.json_load_typed]; between services
      [Gateway.gateway_daemon_alive], [gateway_record], [wideband_scan],
      [Worker.worker_answers], [Broadcast.ws_delivery].
    - The log: [LogsApi.http_save_list], [logs_api_typed],
      [RadioDb.api_search_text], [Agent.agent_protocol],
      [agent_served].
    - SQLite: refinement of a set, a file, a map, a pattern semantics; round
      trips of the encodings; exactness of the conversions; mutual exclusion of
      the file locks between processes and threads
      ([UnixLock.unix_lock_exclusion], for runs without the race of [unixClose]);
      [Complete.sqlite3_complete_correct] against a grammar of tokens.
    - The write-ahead log: [WalIndex.wal_index_refines] and
      [wal_reader_concurrent] (the index finds the newest frame, also when whole
      events of writers come between the loads of a reader); [Wal.recovery_exact]; [WalDurable.wal_refines] and
      [crash_keeps_commits] (a map of pages, through crashes);
      [WalCheckpoint.mergesort_insertion], [checkpoint_preserves] and
      [checkpoint_complete] (of a log that is not restarted meanwhile); [WalIsolation.wal_snapshot_isolation] (every
      transaction reads its snapshot, for all interleavings of connections that
      read, write, restart the log and checkpoint).
    - Records: [Record.record_roundtrip] (with the exact size of a record); [Collation.mem_compare_order] (a total
      preorder of values, with integers and doubles compared exactly);
      [RecordCompare.record_compare_order] (the lexicographic order of the values),
      [find_compare_correct] (the fast paths) and
      [compare_agrees_with_reference] (the assertions of the code).
    - SQL texts: [Keywords.keyword_code_correct]; [Tokenizer.get_token_safe],
      [get_token_word], [quoted_token]; [Lalr.parser_correct] (no assertion of the
      parser fails, no access is out of bounds, the stack stands for the tokens
      consumed); [RunParser.run_parser_sound] and [run_parser_terminates] (the
      tokens fed are those of the text, up to the limit or an error, what is
      accepted is a sentence, and no assertion of [sqlite3RunParser] fails).
    - Defects: [WalShared.wal_reset_race] and [restart_killed] (pages of committed
      transactions are lost), [UnixLock.unix_close_race], [Daemon.scan_without_relay],
      [Gateway.wideband_refused] and the end of [wideband_scan] (an answer that is
      missed), [SdrDriver.update_error_ignored], [Keywords.keyword_check_del],
      [Complete.create_trigger_semi], the end of [SdrDriver.driver_lifecycle],
      [Json.json_number_trim], [Worker.read_wav_defined],
      [RelayRing.relay_counter_wraps], [RadioDb.search_drops_log],
      [Daemon.record_overlap].

    ** Bounds and fuel

    Loops that are not structural have fuel, and a theorem or lemma that the
    fuel given is enough: [Json.load_fuel] is twice the length of the text
    ([json_load_terminates]); [Scanner.sweep] has 1000 steps for 199 channels;
    the generation of [Worker] has one step per token of the context
    ([summary_terminates]); the loops of SQLite run over buffers and have the
    length as fuel.  In the write-ahead log, probes of a hash table are bounded by
    the code's own limit on collisions; padding has the sector size
    ([WalDurable.pad_frames_fuel]), an iteration one step more than the log has
    frames ([WalCheckpoint.iterate_ends]), a merge the sum of its lengths, the
    sort 13 sublists for 4096 frames ([mergesort_insertion]); the attempts to
    begin a transaction end at [WAL_RETRY_PROTOCOL_LIMIT].  A chain of keywords has
    no more links than [aKWNext] has entries; a call of the parser reduces at most
    once for every entry of the stack and sixteen times more, by the ranks of the
    states in [ParserCheck]; a run of the parser has a round for each byte and
    three at the end.  Headers come back after
    2^32 commits, which bounds the runs of [WalIsolation].  Runs of the rings are bounded by 2^31 events because the
    counters are [int]s, which overflow after that ([relay_counter_wraps]).

    ** Not modelled

    Sockets, files, Redis and HTTPS transfers (I/O); the vendored HTTP server,
    Asio, nlohmann::json and ollama.hpp; the inference libraries; the overload
    acknowledgement of [EventCallback]; console output; of SQLite the
    semantic actions of the grammar, the code generator, virtual machine, B-tree, pager, most of the OS layer and the
    extensions; of its write-ahead log the syncs, errors of the operating system,
    the two copies of the shared header, the locks of recovery, read-only and
    exclusive modes; of its records the affinities that are applied before one is
    made; parses that run within the actions of another.

    ** What could follow

    The affinities and the date functions of SQLite; the stores of an append in
    [WalIndex] as separate events; a bound on the filters of [Demod], which would
    exclude samples that are not numbers. *)

From Stdlib Require Import ZArith List Lia Bool.
From Stdlib Require Ascii String.
Import Ascii(ascii_of_nat, nat_of_ascii, ascii_nat_embedding).
Import String(string, EmptyString, String).
Import ListNotations.
#[local] Open Scope Z_scope.

(** ** Fixed-width integers *)

Definition u8 (x : Z) : Z := x mod 2 ^ 8.
Definition u16 (x : Z) : Z := x mod 2 ^ 16.
Definition u32 (x : Z) : Z := x mod 2 ^ 32.
Definition u64 (x : Z) : Z := x mod 2 ^ 64.
Definition i8 (x : Z) : Z := (x + 2 ^ 7) mod 2 ^ 8 - 2 ^ 7.
Definition i16 (x : Z) : Z := (x + 2 ^ 15) mod 2 ^ 16 - 2 ^ 15.
Definition i32 (x : Z) : Z := (x + 2 ^ 31) mod 2 ^ 32 - 2 ^ 31.
Definition i64 (x : Z) : Z := (x + 2 ^ 63) mod 2 ^ 64 - 2 ^ 63.

Definition is_u8 (x : Z) : Prop := 0 <= x < 2 ^ 8.
Definition is_u32 (x : Z) : Prop := 0 <= x < 2 ^ 32.
Definition is_u64 (x : Z) : Prop := 0 <= x < 2 ^ 64.
Definition is_i32 (x : Z) : Prop := - 2 ^ 31 <= x < 2 ^ 31.
Definition is_i64 (x : Z) : Prop := - 2 ^ 63 <= x < 2 ^ 63.

(** ** Byte buffers *)

(** [rd p i] is the C expression [p[i]] for a buffer of bytes; the byte after
    the last one is the terminating NUL. *)
Definition rd (p : list Z) (i : Z) : Z := nth (Z.to_nat i) p 0.

(** [wr p i b] is the C assignment [p[i] = b]. *)
Fixpoint wr_nat (p : list Z) (i : nat) (b : Z) : list Z :=
  match p, i with
  | [], _ => []
  | _ :: p', O => b :: p'
  | x :: p', S i' => x :: wr_nat p' i' b
  end.
Definition wr (p : list Z) (i : Z) (b : Z) : list Z := wr_nat p (Z.to_nat i) b.

Definition bytes (p : list Z) : Prop := Forall is_u8 p.

(** ** Bytes and their bits *)

Lemma byte_testbit_high x n : is_u8 x -> 8 <= n -> Z.testbit x n = false.
Proof.
  unfold is_u8; intros [H0 H1] Hn.
  rewrite <- (Z.mod_small x (2 ^ 8)) by lia. now apply Z.mod_pow2_bits_high.
Qed.

Lemma land_bit x k : 0 <= k -> (Z.land x (Z.shiftl 1 k) =? 0) = negb (Z.testbit x k).
Proof.
  intros Hk. rewrite Z.shiftl_1_l. destruct (Z.testbit x k) eqn:E; cbn [negb].
  - apply Z.eqb_neq. intros H. apply (f_equal (fun y => Z.testbit y k)) in H.
    rewrite Z.land_spec, E, Z.pow2_bits_true, Z.testbit_0_l in H by lia. discriminate.
  - apply Z.eqb_eq. apply Z.bits_inj'. intros n Hn. rewrite Z.land_spec, Z.testbit_0_l.
    destruct (Z.eq_dec n k) as [->|Hne]; [now rewrite E|].
    rewrite (Z.pow2_bits_false k n) by lia. apply andb_false_r.
Qed.

Lemma land_0x80 x : (Z.land x 0x80 =? 0) = negb (Z.testbit x 7).
Proof. exact (land_bit x 7 ltac:(lia)). Qed.

Lemma byte_top_bit x : is_u8 x -> Z.testbit x 7 = (0x80 <=? x).
Proof.
  intros H. unfold is_u8 in H. rewrite Z.testbit_eqb by lia.
  destruct (0x80 <=? x) eqn:E; [apply Z.leb_le in E|apply Z.leb_gt in E].
  - replace (x / 2 ^ 7) with 1 by (apply Z.div_unique with (x - 2 ^ 7); lia). reflexivity.
  - rewrite Z.div_small by lia. reflexivity.
Qed.

Lemma rd_u8 p i : bytes p -> is_u8 (rd p i).
Proof.
  intros H. unfold rd. destruct (nth_in_or_default (Z.to_nat i) p 0) as [Hin|Hd].
  - unfold bytes in H. rewrite Forall_forall in H. auto.
  - rewrite Hd. unfold is_u8. lia.
Qed.

(** A byte whose top bit is clear is its own low seven bits. *)
Lemma byte_low7 x : is_u8 x -> Z.testbit x 7 = false -> exists y, is_u8 y /\ x = Z.land y 0x7f.
Proof.
  intros H E. exists x. split; [exact H|]. rewrite (byte_top_bit x H) in E.
  apply Z.leb_gt in E. unfold is_u8 in H.
  change 0x7f with (Z.ones 7). rewrite Z.land_ones, Z.mod_small by lia. reflexivity.
Qed.

(** ** Buffers: reading and writing *)

Lemma rd_app_exact (pre : list Z) x post i : i = Z.of_nat (length pre) ->
  rd (pre ++ x :: post) i = x.
Proof. intros ->. unfold rd. rewrite Nat2Z.id, app_nth2, Nat.sub_diag by lia. reflexivity. Qed.

Lemma rd_0 x (l : list Z) : rd (x :: l) 0 = x.
Proof. reflexivity. Qed.

Lemma wr_app_exact (pre : list Z) x y post i : i = Z.of_nat (length pre) ->
  wr (pre ++ x :: post) i y = pre ++ y :: post.
Proof.
  intros ->. unfold wr. rewrite Nat2Z.id. induction pre as [|a pre IH]; cbn; congruence.
Qed.

Lemma length_wr p i b : length (wr p i b) = length p.
Proof.
  unfold wr. generalize (Z.to_nat i). induction p as [|x p IH]; intros [|k]; cbn; auto.
Qed.

Lemma rd_wr p i b j : 0 <= i < Z.of_nat (length p) -> 0 <= j ->
  rd (wr p i b) j = if j =? i then b else rd p j.
Proof.
  intros Hi Hj. unfold rd, wr.
  replace (j =? i) with (Nat.eqb (Z.to_nat j) (Z.to_nat i))
    by (destruct (Z.eqb_spec j i) as [->|]; [apply Nat.eqb_refl|apply Nat.eqb_neq; lia]).
  assert (Hl : (Z.to_nat i < length p)%nat) by lia. clear Hi Hj. revert Hl.
  generalize (Z.to_nat i) as n, (Z.to_nat j) as m. clear i j.
  induction p as [|x p IH]; intros [|n] [|m] Hl; cbn in *; try lia; try reflexivity. apply IH. lia.
Qed.

Lemma rd_In p j : 0 <= j < Z.of_nat (length p) -> In (rd p j) p.
Proof. intros H. unfold rd. apply nth_In. lia. Qed.

Lemma In_rd p x : In x p -> exists j, 0 <= j < Z.of_nat (length p) /\ rd p j = x.
Proof.
  intros H. apply (In_nth _ _ 0) in H as (n & Hn & E). exists (Z.of_nat n). unfold rd. rewrite Nat2Z.id. split; [lia|exact E].
Qed.

Lemma split_at_nat {A} (n : nat) (l : list A) : (n < length l)%nat ->
  exists x, l = firstn n l ++ x :: skipn (S n) l.
Proof.
  revert l. induction n as [|n IH]; intros [|a l] H; cbn in H; try lia.
  - exists a. reflexivity.
  - destruct (IH l) as [x Hx]; [lia|]. exists x. cbn. f_equal. exact Hx.
Qed.

(** [buf_simpl] evaluates reads and writes at constant indices. *)
Ltac buf_simpl :=
  unfold rd, wr; change (Z.to_nat 0) with O;
  repeat match goal with
  | |- context [Z.to_nat (Zpos ?q)] =>
      let r := eval vm_compute in (Z.to_nat (Zpos q)) in change (Z.to_nat (Zpos q)) with r
  end;
  cbn [nth wr_nat].

(** [if_cases] splits on the conditions of the goal. *)
Ltac if_cases := repeat match goal with |- context [if ?b then _ else _] => destruct b eqn:? end.

(** ** Machine arithmetic as arithmetic on [Z] *)

Lemma land_low (k x : Z) : 0 <= k -> Z.land x (2 ^ k - 1) = x mod 2 ^ k.
Proof. intros H. rewrite <- Z.land_ones by lia. now rewrite Z.ones_equiv. Qed.

(** A mask that clears the low [k] of [n] bits. *)
Lemma land_high (n k x : Z) : 0 <= k <= n -> 0 <= x < 2 ^ n ->
  Z.land x (2 ^ n - 2 ^ k) = x / 2 ^ k * 2 ^ k.
Proof.
  intros Hk Hx. rewrite <- Z.shiftl_mul_pow2, <- Z.shiftr_div_pow2 by lia.
  replace (2 ^ n - 2 ^ k) with (Z.shiftl (Z.ones (n - k)) k).
  2:{ rewrite Z.shiftl_mul_pow2, Z.ones_equiv by lia. rewrite <- Z.sub_1_r, Z.mul_sub_distr_r, <- Z.pow_add_r by lia.
      replace (n - k + k) with n by lia. lia. }
  apply Z.bits_inj'. intros m Hm. rewrite Z.land_spec, !Z.shiftl_spec by lia.
  destruct (Z_lt_ge_dec m k).
  - rewrite !(Z.testbit_neg_r _ (m - k)) by lia. apply andb_false_r.
  - rewrite Z.shiftr_spec by lia. replace (m - k + k) with m by lia.
    destruct (Z_lt_ge_dec m n).
    + rewrite Z.ones_spec_low by lia. apply andb_true_r.
    + rewrite Z.ones_spec_high by lia. rewrite andb_false_r. symmetry.
      rewrite <- (Z.mod_small x (2 ^ n)) by lia. apply Z.mod_pow2_bits_high. lia.
Qed.

(** A mask that keeps the bits [k .. n-1]. *)
Lemma land_mid (n k x : Z) : 0 <= k <= n ->
  Z.land x (2 ^ n - 2 ^ k) = (x mod 2 ^ n) / 2 ^ k * 2 ^ k.
Proof.
  intros Hk. rewrite <- (land_high n) by (try apply Z.mod_pos_bound; lia).
  rewrite <- Z.land_ones, <- Z.land_assoc by lia. f_equal. symmetry.
  rewrite Z.land_comm, Z.land_ones by lia. apply Z.mod_small.
  pose proof (Z.pow_le_mono_r 2 k n). pose proof (Z.pow_pos_nonneg 2 k). lia.
Qed.

Lemma lor_shiftl_add a k b : 0 <= k -> 0 <= b < 2 ^ k ->
  Z.lor (Z.shiftl a k) b = a * 2 ^ k + b.
Proof.
  intros Hk Hb. rewrite <- Z.shiftl_mul_pow2 by lia. symmetry.
  rewrite <- Z.lxor_lor, <- Z.add_nocarry_lxor; [reflexivity| |];
    apply Z.bits_inj'; intros n Hn; rewrite Z.land_spec, Z.testbit_0_l, Z.shiftl_spec by lia;
    (destruct (Z_lt_ge_dec n k);
     [ now rewrite Z.testbit_neg_r by lia
     | rewrite <- (Z.mod_small b (2 ^ k)) by lia; rewrite Z.mod_pow2_bits_high by lia;
       apply andb_false_r ]).
Qed.

(** A 32-bit integer from its four bytes. *)
Lemma u32_split v : is_u32 v -> exists a b c d, is_u8 a /\ is_u8 b /\ is_u8 c /\ is_u8 d /\
  v = Z.lor (Z.lor (Z.lor (Z.shiftl a 24) (Z.shiftl b 16)) (Z.shiftl c 8)) d.
Proof.
  unfold is_u32, is_u8. intros Hv.
  exists (v / 2 ^ 24), (v / 2 ^ 16 mod 2 ^ 8), (v / 2 ^ 8 mod 2 ^ 8), (v mod 2 ^ 8).
  repeat split; try (apply Z.mod_pos_bound; lia); try (apply Z.div_pos; lia).
  - apply Z.div_lt_upper_bound; lia.
  - rewrite <- !Z.lor_assoc.
    assert (H8 : forall x k, 0 <= k -> x mod 2 ^ k = x - 2 ^ k * (x / 2 ^ k)) by (intros; rewrite Z.mod_eq; lia).
    pose proof (Z.mod_pos_bound (v / 2 ^ 8) (2 ^ 8) ltac:(lia)).
    pose proof (Z.mod_pos_bound (v / 2 ^ 16) (2 ^ 8) ltac:(lia)).
    pose proof (Z.mod_pos_bound v (2 ^ 8) ltac:(lia)).
    rewrite (lor_shiftl_add _ 8), (lor_shiftl_add _ 16), (lor_shiftl_add _ 24) by lia.
    rewrite !H8, !Z.div_div by lia. change (2 ^ 16 * 2 ^ 8) with (2 ^ 24). change (2 ^ 8 * 2 ^ 8) with (2 ^ 16). lia.
Qed.

(** ** Checking all bytes *)

Lemma byte_forall (f : Z -> bool) :
  forallb f (map Z.of_nat (seq 0 256)) = true -> forall x, is_u8 x -> f x = true.
Proof.
  rewrite forallb_forall. intros H x Hx. apply H. unfold is_u8 in Hx.
  apply in_map_iff. exists (Z.to_nat x). split; [lia|]. apply in_seq. lia.
Qed.

Lemma u8_small x : is_u8 x -> u8 x = x.
Proof. unfold is_u8, u8. intros. apply Z.mod_small. lia. Qed.

(** A C string: bytes, none of them the terminator. *)
Definition cstring (z : list Z) : Prop := Forall (fun c => is_u8 c /\ c <> 0) z.

Lemma cstring_bytes z : cstring z -> bytes z.
Proof. unfold cstring, bytes. intros H. eapply Forall_impl; [|exact H]. intros c [Hc _]; exact Hc. Qed.

(** Lexicographic order on lists of integers. *)
Fixpoint lex (a b : list Z) : comparison :=
  match a with
  | [] => match b with [] => Eq | _ => Lt end
  | x :: a' =>
      match b with
      | [] => Gt
      | y :: b' => match x ?= y with Eq => lex a' b' | c => c end
      end
  end.

Lemma lex_eq a b : lex a b = Eq <-> a = b.
Proof.
  revert b. induction a as [|x a IH]; intros [|y b]; cbn; try (split; congruence).
  destruct (Z.compare_spec x y) as [->|H|H].
  - rewrite IH. split; congruence.
  - split; [discriminate|]. intros E; injection E; lia.
  - split; [discriminate|]. intros E; injection E; lia.
Qed.

Lemma lex_antisym a b : lex b a = CompOpp (lex a b).
Proof.
  revert b. induction a as [|x a IH]; intros [|y b]; cbn; try reflexivity.
  rewrite (Z.compare_antisym x y). destruct (x ?= y); cbn; auto.
Qed.

Lemma i32_small x : 0 <= x < 2 ^ 31 -> i32 x = x.
Proof. intros H. unfold i32. rewrite Z.mod_small by lia. lia. Qed.

Create HintDb width.
#[export] Hint Resolve u8_small i32_small rd_u8 cstring_bytes : width.

(** ** Lists *)

Lemma firstn_snoc {A} (l : list A) n d : (n < length l)%nat -> firstn n l ++ [nth n l d] = firstn (S n) l.
Proof. revert n. induction l as [|x l IH]; intros [|n] H; cbn in *; try lia; auto. f_equal. apply IH. lia. Qed.

(** ** Strings *)

(** A [std::string] bound or read as a C string ends at its first NUL. *)
Fixpoint c_str (s : list Z) : list Z :=
  match s with [] => [] | c :: s' => if c =? 0 then [] else c :: c_str s' end.

Lemma c_str_id s : Forall (fun c => c <> 0) s -> c_str s = s.
Proof. induction 1 as [|c s Hc _ IH]; cbn [c_str]; [reflexivity|]. apply Z.eqb_neq in Hc. now rewrite Hc, IH. Qed.

(** The bytes of a string literal, and back. *)
Fixpoint txt (s : string) : list Z :=
  match s with EmptyString => [] | String c s' => Z.of_nat (nat_of_ascii c) :: txt s' end.
Definition to_string_ascii (l : list Z) : string := fold_right (fun c s => String (ascii_of_nat (Z.to_nat c)) s) EmptyString l.

Lemma to_string_txt s : to_string_ascii (txt s) = s.
Proof.
  induction s as [|c s IH]; [reflexivity|]. cbn [txt to_string_ascii fold_right]. rewrite Nat2Z.id, ascii_nat_embedding.
  unfold to_string_ascii in IH. now rewrite IH.
Qed.

(** ** Computations that may fail *)

Declare Scope ag_scope.
Delimit Scope ag_scope with ag.
Notation "'let*' x := m 'in' k" := (match m with Some x => k | None => None end)
  (at level 10, x name, m at level 200, k at level 200) : ag_scope.

(** A position in a ring of thirty-two slots. *)
Lemma mod32 i : 0 <= i mod 32 < 32.
Proof. apply Z.mod_pos_bound. reflexivity. Qed.
