(* ===== verification/Floats.v ===== *)
(** * Floats: IEEE binary32 and binary64 arithmetic

    The C++ [float] and [double] of the DSP code, as the binary formats of the
    Standard Library's [SpecFloat]: the operations, the conversions between
    the two formats and to integers, and what rounding does to the value of a
    result.

    The library defines rounding by shifting one bit at a time; [round_aux_spec]
    gives its result in closed form, with [rne], the division by a power of two
    rounded to nearest even. *)

From Stdlib Require Import ZArith List Lia Bool SpecFloat.
From S2P Require Import Prelude.
#[local] Open Scope Z_scope.

Abbreviation float := spec_float.
Abbreviation double := spec_float.

Definition fadd : float -> float -> float := SFadd 24 128.
Definition fsub : float -> float -> float := SFsub 24 128.
Definition fmul : float -> float -> float := SFmul 24 128.
Definition fdiv : float -> float -> float := SFdiv 24 128.
Definition dadd : double -> double -> double := SFadd 53 1024.
Definition dsub : double -> double -> double := SFsub 53 1024.
Definition dmul : double -> double -> double := SFmul 53 1024.
Definition ddiv : double -> double -> double := SFdiv 53 1024.

(** Conversions: [static_cast<float>(int)], [static_cast<double>(float)] and
    [static_cast<float>(double)]. *)
Definition float_of_int (z : Z) : float := binary_normalize 24 128 z 0 false.
Definition double_of_int (z : Z) : double := binary_normalize 53 1024 z 0 false.
Definition convert (prec emax : Z) (x : spec_float) : spec_float :=
  match x with
  | S754_finite s m e => binary_normalize prec emax (cond_Zopp s (Zpos m)) e s
  | _ => x
  end.
Definition double_of_float : float -> double := convert 53 1024.
Definition float_of_double : double -> float := convert 24 128.

(** A float toward zero as an integer; NaN and the infinities have none. *)
Definition truncate (x : spec_float) : option Z :=
  match x with
  | S754_zero _ => Some 0
  | S754_finite s m e => Some (cond_Zopp s (if 0 <=? e then Zpos m * 2 ^ e else Zpos m / 2 ^ (- e)))
  | _ => None
  end.
(** [static_cast<int16_t>(float)]; undefined when the value does not fit. *)
Definition to_int16 (x : float) : option Z :=
  match truncate x with
  | Some z => if (- 2 ^ 15 <=? z) && (z <? 2 ^ 15) then Some z else None
  | None => None
  end.

(** ** Rounding to nearest, ties to even *)

Definition rne (m k : Z) : Z :=
  let q := m / 2 ^ k in
  let r := m mod 2 ^ k in
  match 2 * r ?= 2 ^ k with
  | Lt => q
  | Eq => if Z.even q then q else q + 1
  | Gt => q + 1
  end.

Lemma rne_0 m : rne m 0 = m.
Proof. unfold rne. rewrite Z.pow_0_r, Z.mod_1_r, Z.div_1_r. reflexivity. Qed.

Lemma rne_between m k : 0 <= k -> m / 2 ^ k <= rne m k <= m / 2 ^ k + 1.
Proof. intros _. unfold rne. destruct (_ ?= _); [destruct (Z.even _)|..]; lia. Qed.

(** Rounding keeps the multiples of the unit, so it never passes one. *)
Lemma rne_le m k c : 0 <= k -> m <= c * 2 ^ k -> rne m k <= c.
Proof.
  intros Hk H. assert (Hp : 0 < 2 ^ k) by (apply Z.pow_pos_nonneg; lia).
  pose proof (Z.div_mod m (2 ^ k) ltac:(lia)) as E. pose proof (Z.mod_pos_bound m (2 ^ k) Hp).
  destruct (Z.eq_dec (m / 2 ^ k) c) as [D|D].
  - assert (m mod 2 ^ k = 0) by nia. unfold rne. rewrite H1.
    destruct (Z.compare_spec (2 * 0) (2 ^ k)); lia.
  - pose proof (rne_between m k Hk). nia.
Qed.

Lemma rne_ge m k c : 0 <= k -> c * 2 ^ k <= m -> c <= rne m k.
Proof.
  intros Hk H. assert (Hp : 0 < 2 ^ k) by (apply Z.pow_pos_nonneg; lia).
  pose proof (rne_between m k Hk). assert (c <= m / 2 ^ k) by (apply Z.div_le_lower_bound; lia). lia.
Qed.

Lemma rne_mono m m' k : 0 <= k -> m <= m' -> rne m k <= rne m' k.
Proof.
  intros Hk H. assert (Hp : 0 < 2 ^ k) by (apply Z.pow_pos_nonneg; lia).
  pose proof (Z.div_le_mono m m' (2 ^ k) Hp H) as Hq.
  pose proof (rne_between m k Hk). pose proof (rne_between m' k Hk).
  destruct (Z.eq_dec (m / 2 ^ k) (m' / 2 ^ k)) as [D|D]; [|lia].
  pose proof (Z.div_mod m (2 ^ k) ltac:(lia)). pose proof (Z.div_mod m' (2 ^ k) ltac:(lia)).
  unfold rne. rewrite <- D. set (q := m / 2 ^ k) in *.
  destruct (Z.compare_spec (2 * (m mod 2 ^ k)) (2 ^ k)), (Z.compare_spec (2 * (m' mod 2 ^ k)) (2 ^ k));
    try (destruct (Z.even q)); nia.
Qed.

(** Scaling both by a power of two. *)
Lemma rne_scale m k j : 0 <= k -> 0 <= j -> rne (m * 2 ^ j) (k + j) = rne m k.
Proof.
  intros Hk Hj. assert (Hp : 0 < 2 ^ k) by (apply Z.pow_pos_nonneg; lia). assert (Hq : 0 < 2 ^ j) by (apply Z.pow_pos_nonneg; lia).
  unfold rne. rewrite Z.pow_add_r by lia. rewrite Z.div_mul_cancel_r, Z.mul_mod_distr_r by lia.
  rewrite Z.mul_assoc. rewrite <- (Zmult_compare_compat_r (2 * (m mod 2 ^ k)) (2 ^ k) (2 ^ j)) by lia. reflexivity.
Qed.

(** ** The bits shifted out *)

Definition record_of (m k : Z) : shr_record :=
  let r := m mod 2 ^ k in
  {| shr_m := m / 2 ^ k;
     shr_r := (0 <? k) && (2 ^ k <=? 2 * r);
     shr_s := (0 <? k) && negb (r mod 2 ^ (k - 1) =? 0) |}.

Lemma shr_1_div m r s : 0 <= m -> shr_1 {| shr_m := m; shr_r := r; shr_s := s |} =
  {| shr_m := m / 2; shr_r := Z.odd m; shr_s := r || s |}.
Proof.
  intros H. rewrite <- Z.div2_div. destruct m as [|[p|p|]|p]; try reflexivity; lia.
Qed.

Lemma record_step m k : 0 <= m -> 0 <= k -> shr_1 (record_of m k) = record_of m (k + 1).
Proof.
  intros Hm Hk. assert (Hp : 0 < 2 ^ k) by (apply Z.pow_pos_nonneg; lia).
  unfold record_of. rewrite shr_1_div by (apply Z.div_pos; lia).
  replace (k + 1 - 1) with k by lia. rewrite Z.pow_add_r, Z.pow_1_r by lia.
  rewrite <- Z.div_div by lia. rewrite Z.rem_mul_r by lia.
  set (q := m / 2 ^ k). pose proof (Z.mod_pos_bound m (2 ^ k) Hp) as Hr. set (r := m mod 2 ^ k) in *.
  replace (0 <? k + 1) with true by (symmetry; apply Z.ltb_lt; lia). cbn [andb]. f_equal.
  - rewrite Zmod_odd. destruct (Z.odd q); symmetry; [apply Z.leb_le|apply Z.leb_gt]; nia.
  - rewrite (Z.mul_comm (2 ^ k)), Z.mod_add, (Z.mod_small r (2 ^ k)) by lia.
    destruct (Z.ltb_spec 0 k) as [H|H]; cbn [andb orb].
    + assert (E : 2 ^ k = 2 * 2 ^ (k - 1)) by (rewrite <- Z.pow_succ_r by lia; f_equal; lia).
      assert (0 < 2 ^ (k - 1)) by (apply Z.pow_pos_nonneg; lia).
      destruct (Z.leb_spec (2 ^ k) (2 * r)); cbn [orb].
      * symmetry. apply negb_true_iff, Z.eqb_neq. lia.
      * rewrite Z.mod_small by lia. reflexivity.
    + assert (k = 0) by lia. subst k. rewrite Z.pow_0_r in *. assert (r = 0) by lia. rewrite H0. reflexivity.
Qed.

Lemma iter_pos_iter {A} (f : A -> A) p x : iter_pos f p x = Pos.iter f x p.
Proof.
  revert x. induction p as [p IH|p IH|]; intros x; cbn; rewrite ?IH; try reflexivity.
  now rewrite !Pos.iter_swap.
Qed.

Lemma shr_record m p : 0 <= m -> iter_pos shr_1 p {| shr_m := m; shr_r := false; shr_s := false |} = record_of m (Zpos p).
Proof.
  intros Hm. rewrite iter_pos_iter.
  replace {| shr_m := m; shr_r := false; shr_s := false |} with (record_of m 0).
  - induction p as [|p IH] using Pos.peano_ind; [exact (record_step m 0 Hm (Z.le_refl 0))|].
    rewrite Pos.iter_succ, IH, record_step by lia. f_equal. lia.
  - unfold record_of. now rewrite Z.pow_0_r, Z.div_1_r.
Qed.

Lemma record_round m k : 0 <= k -> round_nearest_even (shr_m (record_of m k)) (loc_of_shr_record (record_of m k)) = rne m k.
Proof.
  intros Hk. assert (Hp : 0 < 2 ^ k) by (apply Z.pow_pos_nonneg; lia).
  unfold record_of, rne. cbn [shr_m loc_of_shr_record]. pose proof (Z.mod_pos_bound m (2 ^ k) Hp) as Hr.
  set (r := m mod 2 ^ k) in *. destruct (Z.ltb_spec 0 k) as [H|H]; cbn [andb].
  - assert (E : 2 ^ k = 2 * 2 ^ (k - 1)) by (rewrite <- Z.pow_succ_r by lia; f_equal; lia).
    assert (0 < 2 ^ (k - 1)) by (apply Z.pow_pos_nonneg; lia).
    destruct (Z.leb_spec (2 ^ k) (2 * r)) as [L|L].
    + replace (r mod 2 ^ (k - 1)) with (r - 2 ^ (k - 1)) by (apply Z.mod_unique with 1; lia).
      destruct (Z.eqb_spec (r - 2 ^ (k - 1)) 0), (Z.compare_spec (2 * r) (2 ^ k)); try lia; reflexivity.
    + rewrite Z.mod_small by lia.
      destruct (Z.eqb_spec r 0), (Z.compare_spec (2 * r) (2 ^ k)); try lia; reflexivity.
  - assert (k = 0) by lia. subst k. rewrite Z.pow_0_r in *. assert (r = 0) by lia. rewrite H0. reflexivity.
Qed.

(** ** Results of rounding *)

Section Format.
Variables prec emax : Z.
Hypothesis Hprec : 1 < prec.
Hypothesis Hemax : prec < emax.

Abbreviation emin := (3 - emax - prec).
Definition pack (sx : bool) (m e : Z) : spec_float :=
  match m with
  | Zpos m => if e <=? emax - prec then S754_finite sx m e else S754_infinity sx
  | _ => S754_zero sx
  end.

Lemma digits_log2 p : Zpos (digits2_pos p) = Z.log2 (Zpos p) + 1.
Proof.
  induction p as [p IH|p IH|]; [| |reflexivity]; cbn [digits2_pos]; rewrite Pos2Z.inj_succ, IH.
  - rewrite Pos2Z.inj_xI, Z.log2_succ_double by lia. lia.
  - rewrite Pos2Z.inj_xO, Z.log2_double by lia. lia.
Qed.

Lemma digits2_log2 m : 0 < m -> Zdigits2 m = Z.log2 m + 1.
Proof. destruct m; try lia. intros _. apply digits_log2. Qed.

(** The exponent of the result. *)
Definition exp_of (m e : Z) : Z := Z.max (Z.log2 m + 1 + e - prec) emin.

Lemma fexp_of m e : 0 < m -> fexp prec emax (Zdigits2 m + e) = exp_of m e.
Proof. intros H. rewrite digits2_log2 by lia. reflexivity. Qed.

(** Shifting right to the exponent of the result, and rounding. *)
Lemma shr_fexp_exact m e : 0 < m ->
  exists rec, shr_fexp prec emax m e loc_Exact = (rec, Z.max e (exp_of m e)) /\
    shr_m rec = m / 2 ^ Z.max 0 (exp_of m e - e) /\
    round_nearest_even (shr_m rec) (loc_of_shr_record rec) = rne m (Z.max 0 (exp_of m e - e)).
Proof.
  intros Hm. unfold shr_fexp. rewrite fexp_of by lia. cbn [shr_record_of_loc].
  destruct (exp_of m e - e) as [|p|p] eqn:E; cbn [shr].
  - exists {| shr_m := m; shr_r := false; shr_s := false |}. rewrite !Z.max_l by lia.
    cbn [shr_m loc_of_shr_record]. rewrite rne_0, Z.pow_0_r, Z.div_1_r. auto.
  - exists (record_of m (Zpos p)). rewrite shr_record, !Z.max_r by lia. repeat split; [f_equal; lia|].
    now apply record_round.
  - exists {| shr_m := m; shr_r := false; shr_s := false |}. rewrite !Z.max_l by lia.
    cbn [shr_m loc_of_shr_record]. rewrite rne_0, Z.pow_0_r, Z.div_1_r. auto.
Qed.

(** The rounded mantissa has at most [prec] bits, or is the next power of two. *)
Lemma rne_bound m e : 0 < m -> 0 <= rne m (Z.max 0 (exp_of m e - e)) <= 2 ^ prec.
Proof.
  intros Hm. split; [apply rne_ge; lia|]. apply rne_le; [lia|].
  pose proof (Z.log2_spec m Hm) as [_ H]. rewrite <- Z.pow_add_r by lia.
  apply Z.le_trans with (2 ^ Z.succ (Z.log2 m)); [lia|]. apply Z.pow_le_mono_r; [lia|]. unfold exp_of. lia.
Qed.

Definition round_to (sx : bool) (m e : Z) : spec_float :=
  let e' := Z.max e (exp_of m e) in
  let r := rne m (e' - e) in
  if r =? 2 ^ prec then pack sx (2 ^ (prec - 1)) (e' + 1) else pack sx r e'.

Lemma round_aux_spec sx m e : 0 < m -> binary_round_aux prec emax sx m e loc_Exact = round_to sx m e.
Proof.
  intros Hm. unfold binary_round_aux, round_to.
  destruct (shr_fexp_exact m e Hm) as (rec & -> & _ & ->). pose proof (rne_bound m e Hm) as Hb.
  replace (Z.max e (exp_of m e) - e) with (Z.max 0 (exp_of m e - e)) by lia.
  set (r := rne m _) in *. set (e' := Z.max e (exp_of m e)).
  assert (He : emin <= e') by (unfold e', exp_of; lia).
  destruct (Z.eqb_spec r (2 ^ prec)) as [->|Hr].
  - assert (Hp : 0 < 2 ^ prec) by (apply Z.pow_pos_nonneg; lia).
    destruct (shr_fexp_exact (2 ^ prec) e' Hp) as (rec2 & -> & -> & _).
    assert (Ex : exp_of (2 ^ prec) e' = e' + 1) by (unfold exp_of; rewrite Z.log2_pow2 by lia; lia).
    rewrite Ex, !Z.max_r by lia. replace (e' + 1 - e') with 1 by lia. rewrite Z.pow_1_r.
    replace (2 ^ prec / 2) with (2 ^ (prec - 1)).
    + unfold pack. assert (0 < 2 ^ (prec - 1)) by (apply Z.pow_pos_nonneg; lia). destruct (2 ^ (prec - 1)); [lia|reflexivity|lia].
    + rewrite Z.pow_sub_r, Z.pow_1_r by lia. reflexivity.
  - destruct (Z.eq_dec r 0) as [->|H0].
    + unfold shr_fexp. cbn [shr_record_of_loc Zdigits2].
      assert (fexp prec emax (0 + e') - e' <= 0) by (unfold fexp, SpecFloat.emin; lia).
      destruct (fexp prec emax (0 + e') - e'); [reflexivity|lia|reflexivity].
    + destruct (shr_fexp_exact r e' ltac:(lia)) as (rec2 & -> & -> & _).
      assert (Ex : exp_of r e' <= e').
      { unfold exp_of. assert (Z.log2 r < prec) by (apply Z.log2_lt_pow2; lia). lia. }
      rewrite !Z.max_l by lia. rewrite Z.pow_0_r, Z.div_1_r. unfold pack. destruct r; try reflexivity. lia.
Qed.

(** [binary_round] in closed form: the mantissa at the exponent of the result,
    exact when that is the smaller exponent. *)
Definition mantissa (m e : Z) : Z :=
  let e' := exp_of m e in if e <=? e' then rne m (e' - e) else m * 2 ^ (e - e').
Definition normal (sx : bool) (m e : Z) : spec_float :=
  if mantissa m e =? 2 ^ prec then pack sx (2 ^ (prec - 1)) (exp_of m e + 1)
  else pack sx (mantissa m e) (exp_of m e).

Lemma iter_xO p d : Zpos (Pos.iter xO p d) = Zpos p * 2 ^ Zpos d.
Proof.
  induction d as [|d IH] using Pos.peano_ind; [rewrite Z.pow_1_r; cbn; lia|].
  rewrite Pos.iter_succ, Pos2Z.inj_xO, IH, Pos2Z.inj_succ, Z.pow_succ_r by lia. lia.
Qed.

Lemma shl_align_le p e e' : e' <= e -> Zpos (fst (shl_align p e e')) = Zpos p * 2 ^ (e - e') /\ snd (shl_align p e e') = e'.
Proof.
  intros H. unfold shl_align. destruct (e' - e) as [|d|d] eqn:E; cbn [fst snd].
  - replace (e - e') with 0 by lia. rewrite Z.pow_0_r. lia.
  - lia.
  - rewrite iter_xO. replace (e - e') with (Zpos d) by lia. auto.
Qed.

Lemma shl_align_ge p e e' : e <= e' -> shl_align p e e' = (p, e).
Proof. intros H. unfold shl_align. destruct (e' - e) as [|d|d] eqn:E; try reflexivity. lia. Qed.

Lemma exp_of_scale m e j : 0 < m -> 0 <= j -> exp_of (m * 2 ^ j) (e - j) = exp_of m e.
Proof. intros Hm Hj. unfold exp_of. rewrite Z.log2_mul_pow2 by lia. f_equal. lia. Qed.

Lemma mantissa_scale m e j : 0 < m -> 0 <= j -> mantissa (m * 2 ^ j) (e - j) = mantissa m e.
Proof.
  intros Hm Hj. unfold mantissa. rewrite exp_of_scale by lia. set (e' := exp_of m e).
  destruct (Z.leb_spec (e - j) e') as [H|H], (Z.leb_spec e e') as [H'|H']; try lia.
  - replace (e' - (e - j)) with (e' - e + j) by lia. apply rne_scale; lia.
  - replace (m * 2 ^ j) with (m * 2 ^ (e - e') * 2 ^ (e' - (e - j))).
    + rewrite <- (rne_0 (m * 2 ^ (e - e'))) at 2. rewrite <- (rne_scale (m * 2 ^ (e - e')) 0 (e' - (e - j))) by lia. reflexivity.
    + rewrite <- Z.mul_assoc, <- Z.pow_add_r by lia. do 2 f_equal. lia.
  - rewrite <- Z.mul_assoc, <- Z.pow_add_r by lia. do 2 f_equal. lia.
Qed.

Lemma round_spec sx p e : binary_round prec emax sx p e = normal sx (Zpos p) e.
Proof.
  unfold binary_round.
  change (Zpos (digits2_pos p)) with (Zdigits2 (Zpos p)). rewrite fexp_of by lia.
  destruct (Z.le_gt_cases e (exp_of (Zpos p) e)) as [H|H].
  - rewrite shl_align_ge, round_aux_spec by lia. unfold round_to, normal, mantissa.
    rewrite Z.max_r by lia. replace (e <=? exp_of (Zpos p) e) with true by (symmetry; apply Z.leb_le; lia). reflexivity.
  - destruct (shl_align_le p e (exp_of (Zpos p) e) ltac:(lia)) as [Hf Hs].
    destruct (shl_align p e (exp_of (Zpos p) e)) as [mz ez]. cbn [fst snd] in *. rewrite Hs, round_aux_spec, Hf by lia.
    unfold round_to, normal. set (e' := exp_of (Zpos p) e) in *.
    assert (E : exp_of (Zpos p * 2 ^ (e - e')) e' = e').
    { replace e' with (e - (e - e')) at 2 by lia. rewrite exp_of_scale by lia. reflexivity. }
    rewrite E, Z.max_id, Z.sub_diag, rne_0. unfold mantissa. fold e'.
    replace (e <=? e') with false by (symmetry; apply Z.leb_gt; lia). reflexivity.
Qed.

Lemma normalize_spec m e sz : 0 < m -> binary_normalize prec emax m e sz = normal false m e.
Proof. intros Hm. destruct m as [|p|p]; try lia. apply round_spec. Qed.

Lemma normalize_scale m e j sz : 0 <= m -> 0 <= j -> binary_normalize prec emax (m * 2 ^ j) (e - j) sz = binary_normalize prec emax m e sz.
Proof.
  intros Hm Hj. destruct (Z.eq_dec m 0) as [->|]; [reflexivity|].
  assert (0 < 2 ^ j) by (apply Z.pow_pos_nonneg; lia).
  rewrite !normalize_spec by lia. unfold normal. now rewrite exp_of_scale, mantissa_scale by lia.
Qed.

(** Results of rounding are in the format. *)
Lemma pack_valid sx m e : 0 <= m < 2 ^ prec -> emin <= e -> (emin = e \/ 2 ^ (prec - 1) <= m) ->
  valid_binary prec emax (pack sx m e) = true.
Proof.
  intros Hm He Hn. unfold pack. destruct m as [|p|p]; try reflexivity. destruct (Z.leb_spec e (emax - prec)) as [Hb|]; [|reflexivity].
  cbn [valid_binary]. unfold bounded, canonical_mantissa. apply andb_true_iff. split; [|now apply Z.leb_le].
  apply Z.eqb_eq. rewrite digits_log2. unfold fexp, SpecFloat.emin.
  assert (Z.log2 (Zpos p) < prec) by (apply Z.log2_lt_pow2; lia).
  destruct Hn as [<-|Hn]; [lia|].
  assert (prec - 1 <= Z.log2 (Zpos p)) by (apply Z.log2_le_pow2; lia). lia.
Qed.

Lemma shr_1_m rec : 0 <= shr_m rec -> shr_m (shr_1 rec) = shr_m rec / 2.
Proof. destruct rec as [m r s]. intros H. rewrite shr_1_div by exact H. reflexivity. Qed.

Lemma iter_shr_m rec p : 0 <= shr_m rec -> shr_m (iter_pos shr_1 p rec) = shr_m rec / 2 ^ Zpos p.
Proof.
  intros H. rewrite iter_pos_iter. induction p as [|p IH] using Pos.peano_ind; [now apply shr_1_m|].
  assert (0 < 2 ^ Zpos p) by (apply Z.pow_pos_nonneg; lia).
  rewrite Pos.iter_succ, shr_1_m by (rewrite IH; apply Z.div_pos; lia). rewrite IH, Z.div_div by lia.
  f_equal. rewrite Pos2Z.inj_succ, Z.pow_succ_r by lia. lia.
Qed.

Lemma nearest_between m l : m <= round_nearest_even m l <= m + 1.
Proof. destruct l as [|[| |]]; cbn; try destruct (Z.even m); lia. Qed.

Lemma shr_m_of_loc m l : shr_m (shr_record_of_loc m l) = m.
Proof. destruct l as [|[| |]]; reflexivity. Qed.

Lemma digits_bounds m : 0 <= m -> m < 2 ^ Zdigits2 m /\ (0 < m -> 2 ^ (Zdigits2 m - 1) <= m).
Proof.
  intros H. destruct (Z.eq_dec m 0) as [->|]; [cbn; lia|]. rewrite digits2_log2 by lia.
  pose proof (Z.log2_spec m ltac:(lia)) as [A B]. replace (Z.log2 m + 1 - 1) with (Z.log2 m) by lia.
  rewrite <- Z.add_1_r in B. lia.
Qed.

Lemma round_again_valid sx r e : 0 <= r <= 2 ^ prec -> emin <= e -> (emin = e \/ 2 ^ (prec - 1) <= r) ->
  valid_binary prec emax
    (let '(rec, e'') := shr_fexp prec emax r e loc_Exact in
     match shr_m rec with
     | Z0 => S754_zero sx
     | Zpos m => if e'' <=? emax - prec then S754_finite sx m e'' else S754_infinity sx
     | Zneg _ => S754_nan
     end) = true.
Proof.
  intros Hr He Hn. destruct (Z.eq_dec r 0) as [->|H0].
  { unfold shr_fexp. cbn [shr_record_of_loc Zdigits2].
    assert (fexp prec emax (0 + e) - e <= 0) by (unfold fexp, SpecFloat.emin; lia).
    destruct (fexp prec emax (0 + e) - e); [reflexivity|lia|reflexivity]. }
  destruct (shr_fexp_exact r e ltac:(lia)) as (rec & -> & -> & _). assert (Hp : 0 < 2 ^ (prec - 1)) by (apply Z.pow_pos_nonneg; lia).
  assert (Ep : 2 ^ prec = 2 * 2 ^ (prec - 1)) by (rewrite <- Z.pow_succ_r by lia; f_equal; lia).
  destruct (Z.eq_dec r (2 ^ prec)) as [->|Hne].
  - assert (Ex : exp_of (2 ^ prec) e = e + 1) by (unfold exp_of; rewrite Z.log2_pow2 by lia; lia).
    rewrite Ex, !Z.max_r by lia. replace (e + 1 - e) with 1 by lia. rewrite Z.pow_1_r, Ep, Z.mul_comm, Z.div_mul by lia.
    pose proof (pack_valid sx (2 ^ (prec - 1)) (e + 1)) as V. unfold pack in V. destruct (2 ^ (prec - 1)); [lia| |lia]. apply V; lia.
  - assert (Ex : exp_of r e <= e).
    { unfold exp_of. assert (Z.log2 r < prec) by (apply Z.log2_lt_pow2; lia). lia. }
    rewrite !Z.max_l by lia. rewrite Z.pow_0_r, Z.div_1_r.
    pose proof (pack_valid sx r e) as V. unfold pack in V. destruct r; [lia| |lia]. apply V; lia.
Qed.

Lemma round_aux_valid sx m e l : 0 <= m -> e <= fexp prec emax (Zdigits2 m + e) ->
  valid_binary prec emax (binary_round_aux prec emax sx m e l) = true.
Proof.
  intros Hm He. unfold binary_round_aux, shr_fexp at 1. set (e' := fexp prec emax (Zdigits2 m + e)) in *.
  pose proof (digits_bounds m Hm) as [Hd1 Hd2]. assert (Hx : 0 <= Zdigits2 m) by (destruct m; cbn; lia).
  assert (Hs : exists rec, shr (shr_record_of_loc m l) e (e' - e) = (rec, e') /\ shr_m rec = m / 2 ^ (e' - e)).
  { destruct (e' - e) as [|p|p] eqn:E; [| |lia].
    - exists (shr_record_of_loc m l). cbn [shr]. rewrite shr_m_of_loc, Z.pow_0_r, Z.div_1_r. split; [f_equal; lia|reflexivity].
    - eexists. cbn [shr]. split; [f_equal; lia|]. rewrite iter_shr_m, shr_m_of_loc by (rewrite shr_m_of_loc; lia). reflexivity. }
  destruct Hs as (rec & -> & Hq). assert (Hp : 0 < 2 ^ (e' - e)) by (apply Z.pow_pos_nonneg; lia).
  assert (Hf : e' = Z.max (Zdigits2 m + e - prec) emin) by reflexivity.
  pose proof (nearest_between (shr_m rec) (loc_of_shr_record rec)) as Hn.
  assert (0 <= m / 2 ^ (e' - e) < 2 ^ prec).
  { split; [apply Z.div_pos; lia|]. apply Z.div_lt_upper_bound; [lia|]. rewrite <- Z.pow_add_r by lia.
    eapply Z.lt_le_trans; [exact Hd1|]. apply Z.pow_le_mono_r; lia. }
  apply round_again_valid; [lia|lia|]. destruct (Z.eq_dec emin e') as [|Hne]; [auto|right].
  assert (2 ^ (prec - 1) <= m / 2 ^ (e' - e)); [|lia].
  assert (Hpos : 0 < m) by (destruct (Z.eq_dec m 0) as [E|]; [rewrite E in Hf; cbn [Zdigits2] in Hf; lia|lia]).
  apply Z.div_le_lower_bound; [lia|]. rewrite <- Z.pow_add_r by lia.
  etransitivity; [|apply Hd2; exact Hpos]. apply Z.pow_le_mono_r; lia.
Qed.

End Format.

(** ** Results of the operations are in the format *)

Section Valid.
Variables prec emax : Z.
Hypothesis Hprec : 1 < prec.
Hypothesis Hemax : prec < emax.
Abbreviation valid := (fun x => valid_binary prec emax x = true).

Lemma round_valid sx p e : valid (binary_round prec emax sx p e).
Proof.
  unfold binary_round. set (e' := fexp prec emax (Zpos (digits2_pos p) + e)).
  destruct (Z.le_gt_cases e e') as [H|H].
  - rewrite shl_align_ge by lia. apply round_aux_valid; [assumption..|lia|exact H].
  - destruct (shl_align_le p e e' ltac:(lia)) as [Hf Hs]. destruct (shl_align p e e') as [mz ez]. cbn [fst snd] in *. subst ez.
    apply round_aux_valid; [assumption..|lia|]. rewrite Hf, digits2_log2 by (apply Z.mul_pos_pos; [|apply Z.pow_pos_nonneg]; lia).
    rewrite Z.log2_mul_pow2 by lia. unfold e'. rewrite digits_log2. apply Z.eq_le_incl. f_equal. lia.
Qed.

Lemma normalize_valid m e sz : valid (binary_normalize prec emax m e sz).
Proof. destruct m; [reflexivity|apply round_valid..]. Qed.

Lemma add_valid x y : valid x -> valid y -> valid (SFadd prec emax x y).
Proof.
  intros Hx Hy. destruct x as [sx|sx| |sx mx ex], y as [sy|sy| |sy my ey]; cbn [SFadd]; try assumption; try reflexivity;
    try (destruct sx, sy; reflexivity). apply normalize_valid.
Qed.

Lemma sub_valid x y : valid x -> valid y -> valid (SFsub prec emax x y).
Proof.
  intros Hx Hy. destruct x as [sx|sx| |sx mx ex], y as [sy|sy| |sy my ey]; cbn [SFsub]; try assumption; try reflexivity;
    try (destruct sx, sy; reflexivity). apply normalize_valid.
Qed.

Lemma valid_finite s m e : valid (S754_finite s m e) -> e = Z.max (Z.log2 (Zpos m) + 1 + e - prec) (3 - emax - prec).
Proof.
  cbn [valid_binary]. unfold bounded, canonical_mantissa. rewrite andb_true_iff, Z.eqb_eq, digits_log2. intros [H _].
  symmetry. exact H.
Qed.

Lemma mul_valid x y : valid x -> valid y -> valid (SFmul prec emax x y).
Proof.
  intros Hx Hy. destruct x as [sx|sx| |sx mx ex], y as [sy|sy| |sy my ey]; cbn [SFmul]; try reflexivity.
  apply valid_finite in Hx, Hy. apply round_aux_valid; [assumption..|lia|]. rewrite digits2_log2 by lia.
  rewrite Pos2Z.inj_mul. pose proof (Z.log2_mul_below (Zpos mx) (Zpos my) ltac:(lia) ltac:(lia)).
  pose proof (Z.log2_nonneg (Zpos mx)). pose proof (Z.log2_nonneg (Zpos my)). unfold fexp, SpecFloat.emin. lia.
Qed.

Lemma div_digits m1 m2 s : 0 < m1 -> 0 < m2 -> 0 <= s -> Zdigits2 m1 + s - Zdigits2 m2 <= Zdigits2 (m1 * 2 ^ s / m2).
Proof.
  intros H1 H2 Hs. set (q := m1 * 2 ^ s / m2). assert (Hp : 0 < 2 ^ s) by (apply Z.pow_pos_nonneg; lia).
  assert (Hq : 0 <= q) by (apply Z.div_pos; nia).
  pose proof (digits_bounds m1 ltac:(lia)) as [_ A]. pose proof (digits_bounds m2 ltac:(lia)) as [B _].
  pose proof (digits_bounds q Hq) as [D _]. specialize (A H1). rewrite !digits2_log2 in * by lia.
  assert (Hqd : 0 <= Zdigits2 q) by (destruct q; cbn; lia).
  pose proof (Z.log2_nonneg m1). pose proof (Z.log2_nonneg m2).
  destruct (Z.le_gt_cases (Z.log2 m1 + 1 + s - (Z.log2 m2 + 1)) (Zdigits2 q)) as [|Hc]; [assumption|exfalso].
  assert (q + 1 <= 2 ^ (Z.log2 m1 + s - Z.log2 m2 - 1)).
  { etransitivity; [|apply Z.pow_le_mono_r with (b := Zdigits2 q); lia]. lia. }
  assert (m1 * 2 ^ s < (q + 1) * m2).
  { unfold q. pose proof (Z.mul_succ_div_gt (m1 * 2 ^ s) m2 H2). lia. }
  assert (2 ^ (Z.log2 m1 + s) <= m1 * 2 ^ s).
  { rewrite Z.pow_add_r by lia. replace (Z.log2 m1 + 1 - 1) with (Z.log2 m1) in A by lia. nia. }
  assert ((q + 1) * m2 <= 2 ^ (Z.log2 m1 + s - Z.log2 m2 - 1) * 2 ^ (Z.log2 m2 + 1)) by nia.
  rewrite <- Z.pow_add_r in * by lia. replace (Z.log2 m1 + s - Z.log2 m2 - 1 + (Z.log2 m2 + 1)) with (Z.log2 m1 + s) in * by lia. lia.
Qed.

Lemma div_valid x y : valid (SFdiv prec emax x y).
Proof.
  destruct x as [sx|sx| |sx mx ex], y as [sy|sy| |sy my ey]; cbn [SFdiv]; try reflexivity.
  unfold SFdiv_core_binary.
  set (e' := Z.min (fexp prec emax (Zdigits2 (Zpos mx) + ex - (Zdigits2 (Zpos my) + ey))) (ex - ey)).
  assert (Hs : 0 <= ex - ey - e') by (unfold e'; lia).
  assert (Em : match ex - ey - e' with 0 => Zpos mx | Zpos _ => Z.shiftl (Zpos mx) (ex - ey - e') | Zneg _ => 0 end
               = Zpos mx * 2 ^ (ex - ey - e')).
  { destruct (ex - ey - e'); [rewrite Z.pow_0_r; lia| |lia]. now rewrite Z.shiftl_mul_pow2 by lia. }
  rewrite Em. assert (Hp : 0 < 2 ^ (ex - ey - e')) by (apply Z.pow_pos_nonneg; lia).
  destruct (Z.div_eucl (Zpos mx * 2 ^ (ex - ey - e')) (Zpos my)) as [q r] eqn:E.
  assert (Eq : q = Zpos mx * 2 ^ (ex - ey - e') / Zpos my) by (unfold Z.div; now rewrite E).
  apply round_aux_valid; [assumption..|rewrite Eq; apply Z.div_pos; lia|].
  pose proof (div_digits (Zpos mx) (Zpos my) (ex - ey - e') ltac:(lia) ltac:(lia) Hs) as Hd. rewrite <- Eq in Hd.
  unfold e' in *. unfold fexp, SpecFloat.emin in *. lia.
Qed.

Lemma convert_valid x : valid (convert prec emax x).
Proof. destruct x; try reflexivity. apply normalize_valid. Qed.

End Valid.
