(* ===== verification/Json.v ===== *)
(** * Json: the messages between the services

    Models the JSON reader and writer of [src/include/crow.h], with which the
    gateway, the daemon and the AI worker read and write every message:
    [load] with its recursive-descent parser, the accessors of [rvalue]
    ([has], [operator[]], [d], [s], [unescape]), and [wvalue::dump] with
    [escape].

    The text is a list of bytes, ended by its end or by a NUL.  The parser
    keeps a number as its text and a string as it is written, with a flag that
    says whether it has escapes.  [fmt_g] is [snprintf] with [%.*g] and
    [DECIMAL_DIG], [fmt_f] is [snprintf] with [%f]; what they write is described
    by [PrintedNumber].  The map of an object is a list of its members in the
    order of iteration. *)

From Stdlib Require Import ZArith List Lia Bool SpecFloat Permutation Sorted.
Import ListNotations.
From S2P Require Import Prelude.
#[local] Open Scope Z_scope.

(** ** Values that were read *)

Inductive rvalue :=
| JNull | JFalse | JTrue
| JNum (text : list Z)
| JStr (raw : list Z) (has_escaping : bool)
| JList (l : list rvalue)
| JObj (l : list (list Z * rvalue)).

(** The result of a parsing function: a value and what follows it, an error,
    or not enough fuel. *)
Inductive res (A : Type) := Ok (a : A) (rest : list Z) | Error | Fuel.
Arguments Ok {A} a rest.
Arguments Error {A}.
Arguments Fuel {A}.
Definition bind {A B} (r : res A) (k : A -> list Z -> res B) : res B :=
  match r with Ok a rest => k a rest | Error => Error | Fuel => Fuel end.

(** [*data] *)
Definition peek (l : list Z) : Z := match l with [] => 0 | c :: _ => c end.
Definition consume (c : Z) (l : list Z) : option (list Z) :=
  match l with x :: l' => if x =? c then Some l' else None | [] => None end.
Definition is_ws (c : Z) : bool := (c =? 32) || (c =? 9) || (c =? 13) || (c =? 10).
Fixpoint ws_skip (l : list Z) : list Z :=
  match l with c :: l' => if is_ws c then ws_skip l' else l | [] => [] end.

(** ** Strings *)

Definition is_hex (c : Z) : bool :=
  ((48 <=? c) && (c <=? 57)) || ((97 <=? c) && (c <=? 102)) || ((65 <=? c) && (c <=? 70)).
(** The characters that may follow a backslash, other than [u]. *)
Definition is_escape (c : Z) : bool :=
  (c =? 34) || (c =? 92) || (c =? 47) || (c =? 98) || (c =? 102) || (c =? 110) || (c =? 114) || (c =? 116).

(** From after the opening quote: the text up to the closing one, whether it
    has escapes, and what follows. *)
Fixpoint string_body (l : list Z) : option (list Z * bool * list Z) :=
  match l with
  | [] => None
  | c :: l1 =>
      if negb (c =? 34) && negb (c =? 92) && negb (c =? 0) then
        match string_body l1 with Some (s, e, rest) => Some (c :: s, e, rest) | None => None end
      else if c =? 34 then Some ([], false, l1)
      else if c =? 92 then
        match l1 with
        | [] => None
        | e :: l2 =>
            if e =? 117 then
              match l2 with
              | h1 :: h2 :: h3 :: h4 :: l6 =>
                  if is_hex h1 && is_hex h2 && is_hex h3 && is_hex h4 then
                    match string_body l6 with
                    | Some (s, _, rest) => Some (c :: e :: h1 :: h2 :: h3 :: h4 :: s, true, rest)
                    | None => None
                    end
                  else None
              | _ => None
              end
            else if is_escape e then
              match string_body l2 with Some (s, _, rest) => Some (c :: e :: s, true, rest) | None => None end
            else None
        end
      else None
  end.
Definition decode_string (l : list Z) : res (list Z * bool) :=
  match consume 34 l with
  | None => Error
  | Some l => match string_body l with Some (s, e, rest) => Ok (s, e) rest | None => Error end
  end.

Definition from_hex (c : Z) : Z := if 97 <=? c then c - 97 + 10 else if 65 <=? c then c - 65 + 10 else c - 48.
Definition utf8_of_code (code : Z) : list Z :=
  if 0x800 <=? code then
    [u8 (Z.lor 0xE0 (Z.shiftr code 12)); u8 (Z.lor 0x80 (Z.land (Z.shiftr code 6) 0x3F)); u8 (Z.lor 0x80 (Z.land code 0x3F))]
  else if 0x80 <=? code then [u8 (Z.lor 0xC0 (Z.shiftr code 6)); u8 (Z.lor 0x80 (Z.land code 0x3F))]
  else [u8 code].
Definition unescape_char (c : Z) : list Z :=
  if c =? 34 then [34] else if c =? 92 then [92] else if c =? 47 then [47] else if c =? 98 then [8]
  else if c =? 102 then [12] else if c =? 110 then [10] else if c =? 114 then [13] else if c =? 116 then [9] else [].
Fixpoint unescape_loop (l : list Z) : list Z :=
  match l with
  | [] => []
  | c :: l1 =>
      if c =? 92 then
        match l1 with
        | [] => []
        | e :: l2 =>
            if e =? 117 then
              match l2 with
              | h1 :: h2 :: h3 :: h4 :: l6 =>
                  utf8_of_code (Z.shiftl (from_hex h1) 12 + Z.shiftl (from_hex h2) 8 + Z.shiftl (from_hex h3) 4 + from_hex h4)
                    ++ unescape_loop l6
              | _ => []
              end
            else unescape_char e ++ unescape_loop l2
        end
      else c :: unescape_loop l1
  end.
Definition unescape (raw : list Z) (has_escaping : bool) : list Z := if has_escaping then unescape_loop raw else raw.

(** ** Numbers *)

Inductive NumberParsingState := Minus | AfterMinus | ZeroFirst | Digits | DigitsAfterPoints | NE | DigitsAfterE | Invalid.

Definition is_digit19 (c : Z) : bool := (49 <=? c) && (c <=? 57).
Definition is_digit (c : Z) : bool := (48 <=? c) && (c <=? 57).

(** The transition strings; [None] is the [default] case. *)
Definition transition (state : NumberParsingState) (c : Z) : option NumberParsingState :=
  if c =? 48 then
    Some match state with Minus | AfterMinus => ZeroFirst | ZeroFirst => Invalid | Digits => Digits
         | DigitsAfterPoints => DigitsAfterPoints | NE | DigitsAfterE => DigitsAfterE | Invalid => Invalid end
  else if is_digit19 c then
    Some match state with Minus | AfterMinus => Digits | ZeroFirst => Invalid | Digits => Digits
         | DigitsAfterPoints => DigitsAfterPoints | NE | DigitsAfterE => DigitsAfterE | Invalid => Invalid end
  else if c =? 46 then Some match state with ZeroFirst | Digits => DigitsAfterPoints | _ => Invalid end
  else if c =? 45 then Some match state with Minus => AfterMinus | NE => DigitsAfterE | _ => Invalid end
  else if c =? 43 then Some match state with NE => DigitsAfterE | _ => Invalid end
  else if (c =? 101) || (c =? 69) then Some match state with Digits | DigitsAfterPoints => NE | _ => Invalid end
  else None.
Definition accepting (state : NumberParsingState) : bool :=
  match state with ZeroFirst | Digits | DigitsAfterPoints | DigitsAfterE => true | _ => false end.

(** [run] after a digit from 1 to 9: the inner loop that passes the digits
    which follow. *)
Fixpoint number_loop (state : NumberParsingState) (run : bool) (l : list Z) : option (list Z * list Z) :=
  match l with
  | [] => if accepting state then Some ([], []) else None
  | c :: l' =>
      if run && is_digit c then
        match number_loop state true l' with Some (t, rest) => Some (c :: t, rest) | None => None end
      else
        match transition state c with
        | None => if accepting state then Some ([], l) else None
        | Some Invalid => None
        | Some state => match number_loop state (is_digit19 c) l' with Some (t, rest) => Some (c :: t, rest) | None => None end
        end
  end.
Definition decode_number (l : list Z) : res rvalue :=
  match number_loop Minus false l with Some (t, rest) => Ok (JNum t) rest | None => Error end.

(** ** Lists and objects *)

Definition max_depth : Z := 10000.

Fixpoint starts_with (w l : list Z) : option (list Z) :=
  match w with
  | [] => Some l
  | x :: w' => match l with y :: l' => if y =? x then starts_with w' l' else None | [] => None end
  end.
Definition literal (w : list Z) (v : rvalue) (l : list Z) : res rvalue :=
  match starts_with w l with Some rest => Ok v rest | None => Error end.

(** [decode_value], with [decode_list] and [decode_object] in its first two
    cases; [decode_items] and [decode_members] are their loops. *)
Fixpoint decode_value (fuel : nat) (depth : Z) (l : list Z) : res rvalue :=
  match fuel with
  | O => Fuel
  | S fuel' =>
      if peek l =? 91 then
        match consume 91 l with
        | None => Error
        | Some l =>
            if max_depth <? depth + 1 then Error
            else
              let l := ws_skip l in
              if peek l =? 93 then Ok (JList []) (tl l)
              else bind (decode_items fuel' (depth + 1) l) (fun vs rest => Ok (JList vs) rest)
        end
      else if peek l =? 123 then
        match consume 123 l with
        | None => Error
        | Some l =>
            if max_depth <? depth + 1 then Error
            else
              let l := ws_skip l in
              if peek l =? 125 then Ok (JObj []) (tl l)
              else bind (decode_members fuel' (depth + 1) l) (fun vs rest => Ok (JObj vs) rest)
        end
      else if peek l =? 34 then bind (decode_string l) (fun '(s, e) rest => Ok (JStr s e) rest)
      else if peek l =? 116 then literal [116; 114; 117; 101] JTrue l
      else if peek l =? 102 then literal [102; 97; 108; 115; 101] JFalse l
      else if peek l =? 110 then literal [110; 117; 108; 108] JNull l
      else decode_number l
  end
with decode_items (fuel : nat) (depth : Z) (l : list Z) : res (list rvalue) :=
  match fuel with
  | O => Fuel
  | S fuel' =>
      bind (decode_value fuel' (depth + 1) l) (fun v l =>
        let l := ws_skip l in
        if peek l =? 93 then Ok [v] (tl l)
        else match consume 44 l with
             | None => Error
             | Some l => bind (decode_items fuel' depth (ws_skip l)) (fun vs rest => Ok (v :: vs) rest)
             end)
  end
with decode_members (fuel : nat) (depth : Z) (l : list Z) : res (list (list Z * rvalue)) :=
  match fuel with
  | O => Fuel
  | S fuel' =>
      bind (decode_string l) (fun '(s, e) l =>
        match consume 58 (ws_skip l) with
        | None => Error
        | Some l =>
            let key := unescape s e in
            bind (decode_value fuel' (depth + 1) (ws_skip l)) (fun v l =>
              let l := ws_skip l in
              if peek l =? 125 then Ok [(key, v)] (tl l)
              else match consume 44 l with
                   | None => Error
                   | Some l => bind (decode_members fuel' depth (ws_skip l)) (fun vs rest => Ok ((key, v) :: vs) rest)
                   end)
        end)
  end.

Definition parse (fuel : nat) (data : list Z) : res rvalue :=
  bind (decode_value fuel 0 (ws_skip data)) (fun v l => if peek (ws_skip l) =? 0 then Ok v (ws_skip l) else Error).
(** Enough for every text. *)
Definition load_fuel (data : list Z) : nat := 2 * length data + 2.
Definition load (data : list Z) : option rvalue :=
  match parse (load_fuel data) data with Ok v _ => Some v | _ => None end.

(** ** Values to write *)

Inductive wvalue :=
| WNull | WFalse | WTrue
| WFloat (d : spec_float)
| WDouble (d : spec_float)
| WInt (si : Z)
| WUint (ui : Z)
| WStr (s : list Z)
| WList (l : list wvalue)
| WObj (o : list (list Z * wvalue)).

Definition to_hex (c : Z) : Z := let c := Z.land c 0xf in if c <? 10 then 48 + c else 97 + c - 10.
Definition escape_char (c : Z) : list Z :=
  if c =? 34 then [92; 34] else if c =? 92 then [92; 92] else if c =? 10 then [92; 110] else if c =? 8 then [92; 98]
  else if c =? 12 then [92; 102] else if c =? 13 then [92; 114] else if c =? 9 then [92; 116]
  else if (0 <=? i8 c) && (i8 c <? 0x20) then [92; 117; 48; 48; to_hex (c / 16); to_hex (c mod 16)]
  else [c].
Definition escape (s : list Z) : list Z := flat_map escape_char s.
Definition dump_string (s : list Z) : list Z := [34] ++ escape s ++ [34].

(** [std::to_string] of an integer. *)
Fixpoint decimal (fuel : nat) (n : Z) (acc : list Z) : list Z :=
  match fuel with
  | O => acc
  | S fuel' => let acc := (48 + n mod 10) :: acc in if n <? 10 then acc else decimal fuel' (n / 10) acc
  end.
Definition to_string (z : Z) : list Z := if z <? 0 then 45 :: decimal 20 (- z) [] else decimal 20 z [].

(** The trailing zeros after the decimal point: [i] is the position of [p],
    [o] that of the first trailing zero. *)
Inductive FState := f_start | f_decp | f_zero.
Fixpoint trim_loop (state : FState) (i : nat) (o : option nat) (l : list Z) : option nat :=
  match l with
  | [] => o
  | ch :: l' =>
      match state with
      | f_start =>
          if ch =? 46 then
            match l' with
            | fch :: l'' => if fch =? 48 then trim_loop f_decp (i + 2) o l'' else trim_loop f_decp (i + 1) o l'
            | [] => o
            end
          else trim_loop f_start (i + 1) o l'
      | f_decp => if ch =? 48 then trim_loop f_zero (i + 1) (Some i) l' else trim_loop f_decp (i + 1) o l'
      | f_zero => if negb (ch =? 48) then trim_loop f_decp (i + 1) None l' else trim_loop f_zero (i + 1) o l'
      end
  end.
Definition trim (outbuf : list Z) : list Z :=
  match trim_loop f_start 0 None outbuf with Some o => firstn o outbuf | None => outbuf end.

Definition null_text : list Z := [110; 117; 108; 108].
Definition not_number (d : spec_float) : bool := match d with S754_nan | S754_infinity _ => true | _ => false end.

(** The elements with a comma between them. *)
Fixpoint join (l : list (list Z)) : list Z :=
  match l with
  | [] => []
  | [x] => x
  | x :: l' => x ++ [44] ++ join l'
  end.

Section Writer.
Variables fmt_g fmt_f : spec_float -> list Z.

Fixpoint dump (v : wvalue) : list Z :=
  match v with
  | WNull => null_text
  | WFalse => [102; 97; 108; 115; 101]
  | WTrue => [116; 114; 117; 101]
  | WFloat d => if not_number d then null_text else trim (fmt_f d)
  | WDouble d => if not_number d then null_text else trim (fmt_g d)
  | WInt z => to_string z
  | WUint z => to_string z
  | WStr s => dump_string s
  | WList l => [91] ++ join (map dump l) ++ [93]
  | WObj o => [123] ++ join (map (fun kv => dump_string (fst kv) ++ [58] ++ dump (snd kv)) o) ++ [125]
  end.
End Writer.

(** ** Termination *)

Lemma ws_skip_length l : (length (ws_skip l) <= length l)%nat.
Proof. induction l as [|c l IH]; cbn [ws_skip length]; [lia|]. destruct (is_ws c); cbn [length]; lia. Qed.

Lemma consume_length c l l' : consume c l = Some l' -> length l = S (length l').
Proof. destruct l as [|x l]; cbn [consume]; [discriminate|]. destruct (x =? c); [|discriminate]. intros E. injection E as <-. reflexivity. Qed.

Lemma string_body_length l : forall s e rest, string_body l = Some (s, e, rest) -> (length rest < length l)%nat.
Proof.
  induction l as [l IH] using (induction_ltof1 _ (@length Z)); unfold ltof in IH. intros s e rest. destruct l as [|c l1]; cbn [string_body]; [discriminate|].
  assert (Hrec : forall l', (length l' < length (c :: l1))%nat -> forall s e rest, string_body l' = Some (s, e, rest) -> (length rest < length l')%nat)
    by (intros l' Hl; now apply IH).
  destruct (negb (c =? 34) && negb (c =? 92) && negb (c =? 0)).
  { destruct (string_body l1) as [[[s1 e1] r1]|] eqn:E; [|discriminate]. intros H. injection H as <- <- <-.
    apply Hrec in E; cbn [length] in *; lia. }
  destruct (c =? 34); [intros H; injection H as <- <- <-; cbn [length]; lia|]. destruct (c =? 92); [|discriminate].
  destruct l1 as [|x l2]; [discriminate|]. destruct (x =? 117).
  - destruct l2 as [|h1 [|h2 [|h3 [|h4 l6]]]]; try discriminate. destruct (is_hex h1 && is_hex h2 && is_hex h3 && is_hex h4); [|discriminate].
    destruct (string_body l6) as [[[s1 e1] r1]|] eqn:E; [|discriminate]. intros H. injection H as <- <- <-.
    apply Hrec in E; cbn [length] in *; lia.
  - destruct (is_escape x); [|discriminate]. destruct (string_body l2) as [[[s1 e1] r1]|] eqn:E; [|discriminate].
    intros H. injection H as <- <- <-. apply Hrec in E; cbn [length] in *; lia.
Qed.

Lemma number_loop_app l : forall state run t rest, number_loop state run l = Some (t, rest) ->
  l = t ++ rest /\ (accepting state = false -> t <> []).
Proof.
  induction l as [|c l IH]; intros state run t rest; cbn [number_loop].
  { destruct (accepting state) eqn:Ea; [|discriminate]. intros E. injection E as <- <-. split; [reflexivity|congruence]. }
  destruct (run && is_digit c).
  { destruct (number_loop state true l) as [[t' r']|] eqn:E; [|discriminate]. intros H. injection H as <- <-.
    apply IH in E as [-> _]. split; [reflexivity|discriminate]. }
  destruct (transition state c) as [st'|].
  - assert (Hgo : match number_loop st' (is_digit19 c) l with Some (t, rest) => Some (c :: t, rest) | None => None end = Some (t, rest) ->
      c :: l = t ++ rest /\ (accepting state = false -> t <> [])).
    { destruct (number_loop st' (is_digit19 c) l) as [[t' r']|] eqn:E; [|discriminate]. intros H. injection H as <- <-.
      apply IH in E as [-> _]. split; [reflexivity|discriminate]. }
    destruct st'; try exact Hgo. discriminate.
  - destruct (accepting state) eqn:Ea; [|discriminate]. intros E. injection E as <- <-. split; [reflexivity|congruence].
Qed.

Lemma starts_with_app w l rest : starts_with w l = Some rest <-> l = w ++ rest.
Proof.
  revert l. induction w as [|x w IH]; intros l; cbn [starts_with app]; [split; congruence|].
  destruct l as [|y l]; [split; discriminate|]. destruct (Z.eqb_spec y x) as [->|H].
  - rewrite IH. split; congruence.
  - split; [discriminate|]. congruence.
Qed.

(** A parsing function gives an answer, and what it leaves is shorter. *)
Definition settled {A} (l : list Z) (r : res A) : Prop :=
  match r with Ok _ rest => (length rest < length l)%nat | Error => True | Fuel => False end.

Lemma settled_shorter {A} l l' (r : res A) : settled l' r -> (length l' <= length l)%nat -> settled l r.
Proof. destruct r; cbn [settled]; auto; lia. Qed.

Lemma bind_settled {A B} l (r : res A) (k : A -> list Z -> res B) :
  settled l r -> (forall a rest, (length rest < length l)%nat -> settled l (k a rest)) -> settled l (bind r k).
Proof. destruct r; cbn [bind settled]; auto. Qed.

Lemma decode_string_settled l : settled l (decode_string l).
Proof.
  unfold decode_string. destruct (consume 34 l) as [l1|] eqn:E; [|exact I]. apply consume_length in E.
  destruct (string_body l1) as [[[s e] rest]|] eqn:Es; [|exact I]. apply string_body_length in Es. cbn [settled]. lia.
Qed.

Lemma decode_number_settled l : settled l (decode_number l).
Proof.
  unfold decode_number. destruct (number_loop Minus false l) as [[t rest]|] eqn:E; [|exact I].
  apply number_loop_app in E as [-> Ht]. cbn [settled]. rewrite length_app. destruct t; [now elim (Ht eq_refl)|cbn [length]; lia].
Qed.

Lemma literal_settled x w v l : settled l (literal (x :: w) v l).
Proof.
  unfold literal. destruct (starts_with (x :: w) l) as [rest|] eqn:E; [|exact I]. apply starts_with_app in E as ->.
  cbn [settled app length]. rewrite length_app. lia.
Qed.

Lemma tl_settled {A} (a : A) l l' c : (peek l' =? c) = true -> c <> 0 -> (length l' <= length l)%nat -> settled l (Ok a (tl l')).
Proof. destruct l' as [|x l']; cbn [peek]; [intros E%Z.eqb_eq Hc; congruence|]. intros _ _ H. cbn [settled tl length] in *. lia. Qed.

Lemma decode_settled fuel :
  (forall depth l, (2 * length l + 1 <= fuel)%nat -> settled l (decode_value fuel depth l)) /\
  (forall depth l, (2 * length l + 2 <= fuel)%nat -> settled l (decode_items fuel depth l)) /\
  (forall depth l, (2 * length l + 2 <= fuel)%nat -> settled l (decode_members fuel depth l)).
Proof.
  induction fuel as [|fuel (IHv & IHi & IHm)]; [repeat split; intros; lia|]. repeat split; intros depth l Hf.
  - cbn [decode_value]. destruct (peek l =? 91).
    { destruct (consume 91 l) as [l1|] eqn:E; [|exact I]. apply consume_length in E. destruct (max_depth <? depth + 1); [exact I|].
      pose proof (ws_skip_length l1). destruct (peek (ws_skip l1) =? 93) eqn:Ep; [eapply tl_settled; [exact Ep|discriminate|lia]|].
      apply bind_settled; [|cbn [settled]; auto]. eapply settled_shorter; [apply IHi|]; lia. }
    destruct (peek l =? 123).
    { destruct (consume 123 l) as [l1|] eqn:E; [|exact I]. apply consume_length in E. destruct (max_depth <? depth + 1); [exact I|].
      pose proof (ws_skip_length l1). destruct (peek (ws_skip l1) =? 125) eqn:Ep; [eapply tl_settled; [exact Ep|discriminate|lia]|].
      apply bind_settled; [|cbn [settled]; auto]. eapply settled_shorter; [apply IHm|]; lia. }
    destruct (peek l =? 34); [apply bind_settled; [apply decode_string_settled|intros [s e]; cbn [settled]; auto]|].
    destruct (peek l =? 116); [apply literal_settled|]. destruct (peek l =? 102); [apply literal_settled|].
    destruct (peek l =? 110); [apply literal_settled|]. apply decode_number_settled.
  - cbn [decode_items]. apply bind_settled; [apply IHv; lia|]. intros v l1 Hl1. cbn zeta. pose proof (ws_skip_length l1).
    destruct (peek (ws_skip l1) =? 93) eqn:Ep; [eapply tl_settled; [exact Ep|discriminate|lia]|].
    destruct (consume 44 (ws_skip l1)) as [l2|] eqn:E; [|exact I]. apply consume_length in E. pose proof (ws_skip_length l2).
    apply bind_settled; [|cbn [settled]; auto]. eapply settled_shorter; [apply IHi|]; lia.
  - cbn [decode_members]. apply bind_settled; [apply decode_string_settled|]. intros [s e] l1 Hl1. pose proof (ws_skip_length l1).
    destruct (consume 58 (ws_skip l1)) as [l2|] eqn:E; [|exact I]. apply consume_length in E. pose proof (ws_skip_length l2). cbn zeta.
    apply bind_settled; [eapply settled_shorter; [apply IHv|]; lia|]. intros v l3 Hl3. pose proof (ws_skip_length l3).
    destruct (peek (ws_skip l3) =? 125) eqn:Ep; [eapply tl_settled; [exact Ep|discriminate|lia]|].
    destruct (consume 44 (ws_skip l3)) as [l4|] eqn:E'; [|exact I]. apply consume_length in E'. pose proof (ws_skip_length l4).
    apply bind_settled; [|cbn [settled]; auto]. eapply settled_shorter; [apply IHm|]; lia.
Qed.

(** More fuel does not change an answer. *)
Lemma bind_more {A B} (r r' : res A) (k k' : A -> list Z -> res B) :
  (r <> Fuel -> r' = r) -> (forall a rest, k a rest <> Fuel -> k' a rest = k a rest) -> bind r k <> Fuel -> bind r' k' = bind r k.
Proof. intros Hr Hk. destruct r; cbn [bind]; intros H; try (rewrite Hr by discriminate; cbn [bind]; auto). congruence. Qed.

Lemma decode_more fuel : forall fuel', (fuel <= fuel')%nat ->
  (forall depth l, decode_value fuel depth l <> Fuel -> decode_value fuel' depth l = decode_value fuel depth l) /\
  (forall depth l, decode_items fuel depth l <> Fuel -> decode_items fuel' depth l = decode_items fuel depth l) /\
  (forall depth l, decode_members fuel depth l <> Fuel -> decode_members fuel' depth l = decode_members fuel depth l).
Proof.
  induction fuel as [|fuel IH]; intros fuel' Hle; [repeat split; intros depth l H; now elim H|].
  destruct fuel' as [|fuel']; [lia|]. destruct (IH fuel' ltac:(lia)) as (IHv & IHi & IHm). repeat split; intros depth l.
  - cbn [decode_value]. destruct (peek l =? 91).
    { destruct (consume 91 l); [|reflexivity]. destruct (max_depth <? depth + 1); [reflexivity|]. cbn zeta.
      destruct (peek _ =? 93); [reflexivity|]. apply bind_more; auto. }
    destruct (peek l =? 123); [|reflexivity].
    destruct (consume 123 l); [|reflexivity]. destruct (max_depth <? depth + 1); [reflexivity|]. cbn zeta.
    destruct (peek _ =? 125); [reflexivity|]. apply bind_more; auto.
  - cbn [decode_items]. apply bind_more; [auto|]. intros v l1. cbn zeta. destruct (peek _ =? 93); [reflexivity|].
    destruct (consume 44 _); [|reflexivity]. apply bind_more; auto.
  - cbn [decode_members]. apply bind_more; [reflexivity|]. intros [s e] l1. destruct (consume 58 _); [|reflexivity]. cbn zeta.
    apply bind_more; [auto|]. intros v l2. destruct (peek _ =? 125); [reflexivity|].
    destruct (consume 44 _); [|reflexivity]. apply bind_more; auto.
Qed.

(** The JSON parser terminates on every text: with fuel
    [2 * length data + 2] it gives a value or an error, and more fuel gives the
    same answer, so the fuel of [load] is no restriction. *)
Theorem json_load_terminates data fuel :
  (load_fuel data <= fuel)%nat -> parse fuel data = parse (load_fuel data) data /\ parse fuel data <> Fuel.
Proof.
  intros Hf. assert (Hs : settled (ws_skip data) (decode_value (load_fuel data) 0 (ws_skip data))).
  { apply (decode_settled (load_fuel data)). unfold load_fuel. pose proof (ws_skip_length data). lia. }
  assert (Hne : decode_value (load_fuel data) 0 (ws_skip data) <> Fuel) by (intros E; rewrite E in Hs; exact Hs).
  destruct (decode_more _ _ Hf) as (Hv & _ & _). unfold parse. rewrite Hv by exact Hne. split; [reflexivity|].
  destruct (decode_value _ _ _) as [v l| |]; cbn [bind]; [|discriminate|congruence]. destruct (peek _ =? 0); discriminate.
Qed.

Lemma json_load_terminates_witness :
  parse 100 [91; 49; 44; 91; 93; 93] = Ok (JList [JNum [49]; JList []]) [].
Proof.
  destruct (json_load_terminates [91; 49; 44; 91; 93; 93] 100) as [-> _].
  - vm_compute. repeat constructor.
  - reflexivity.
Defined.

(** ** Strings: reading what was written *)

Definition byte (c : Z) : Prop := 0 <= c < 256.
Definition needs_escape (s : list Z) : bool := existsb (fun c => negb (Nat.eqb (length (escape_char c)) 1)) s.

Lemma eqb_false a b : a <> b -> (a =? b) = false.
Proof. apply Z.eqb_neq. Qed.

(** The characters of [escape_char]: plain, a letter after a backslash, or a
    code. *)
Lemma escape_char_cases c : byte c ->
  (escape_char c = [c] /\ c <> 34 /\ c <> 92 /\ c <> 0) \/
  (exists e, escape_char c = [92; e] /\ is_escape e = true /\ e <> 117 /\ unescape_char e = [c]) \/
  (exists h l, escape_char c = [92; 117; 48; 48; h; l] /\ is_hex h = true /\ is_hex l = true /\
    utf8_of_code (Z.shiftl (from_hex 48) 12 + Z.shiftl (from_hex 48) 8 + Z.shiftl (from_hex h) 4 + from_hex l) = [c]).
Proof.
  intros Hc. unfold escape_char.
  destruct (Z.eqb_spec c 34) as [->|H1]; [right; left; exists 34; repeat split; discriminate|].
  destruct (Z.eqb_spec c 92) as [->|H2]; [right; left; exists 92; repeat split; discriminate|].
  destruct (Z.eqb_spec c 10) as [->|H3]; [right; left; exists 110; repeat split; discriminate|].
  destruct (Z.eqb_spec c 8) as [->|H4]; [right; left; exists 98; repeat split; discriminate|].
  destruct (Z.eqb_spec c 12) as [->|H5]; [right; left; exists 102; repeat split; discriminate|].
  destruct (Z.eqb_spec c 13) as [->|H6]; [right; left; exists 114; repeat split; discriminate|].
  destruct (Z.eqb_spec c 9) as [->|H7]; [right; left; exists 116; repeat split; discriminate|].
  destruct ((0 <=? i8 c) && (i8 c <? 0x20)) eqn:E.
  - right; right. exists (to_hex (c / 16)), (to_hex (c mod 16)). split; [reflexivity|].
    assert (Hr : 0 <= c < 32).
    { apply andb_true_iff in E as [A%Z.leb_le B%Z.ltb_lt]. unfold byte in Hc. unfold i8 in A, B. change (2 ^ 7) with 128 in *. change (2 ^ 8) with 256 in *.
      Z.div_mod_to_equations. lia. }
    clear -Hr. assert (Hin : In c (map Z.of_nat (seq 0 32))) by (apply in_map_iff; exists (Z.to_nat c); rewrite in_seq; lia).
    revert c Hr Hin. cbn [map seq Z.of_nat Pos.of_succ_nat Pos.succ In]. intros c _ Hin.
    repeat (destruct Hin as [<-|Hin]; [repeat split; reflexivity|]). contradiction.
  - left. repeat split; auto. intros ->. discriminate E.
Qed.

Lemma escape_cons c s : escape (c :: s) = escape_char c ++ escape s.
Proof. reflexivity. Qed.

Lemma needs_cons c s : needs_escape (c :: s) = negb (Nat.eqb (length (escape_char c)) 1) || needs_escape s.
Proof. reflexivity. Qed.

Lemma string_body_escape s rest : Forall byte s -> string_body (escape s ++ 34 :: rest) = Some (escape s, needs_escape s, rest).
Proof.
  induction 1 as [|c s Hc _ IH]; [reflexivity|]. rewrite escape_cons, needs_cons, <- app_assoc.
  destruct (escape_char_cases c Hc) as [(-> & H1 & H2 & H3)|[(e & -> & He & Hu & _)|(h & l & -> & Hh & Hl & _)]].
  - cbn [app string_body length Nat.eqb negb orb]. rewrite !eqb_false by assumption. cbn [negb andb]. rewrite IH. reflexivity.
  - cbn [app string_body length Nat.eqb negb orb]. cbn [Z.eqb Pos.eqb negb andb]. rewrite (eqb_false e 117 Hu), He, IH. reflexivity.
  - cbn [app string_body length Nat.eqb negb orb]. cbn [Z.eqb Pos.eqb negb andb]. rewrite Hh, Hl. cbn [is_hex Z.leb Z.compare Pos.compare Pos.compare_cont andb orb]. rewrite IH. reflexivity.
Qed.

Lemma unescape_escape s : Forall byte s -> unescape (escape s) (needs_escape s) = s.
Proof.
  intros H. assert (Hl : unescape_loop (escape s) = s).
  { induction H as [|c s Hc _ IH]; [reflexivity|]. rewrite escape_cons.
    destruct (escape_char_cases c Hc) as [(-> & H1 & H2 & H3)|[(e & -> & He & Hu & Hc')|(h & l & -> & Hh & Hl & Hc')]].
    - cbn [app unescape_loop]. rewrite (eqb_false c 92 H2), IH. reflexivity.
    - cbn [app unescape_loop Z.eqb Pos.eqb]. rewrite (eqb_false e 117 Hu), Hc', IH. reflexivity.
    - cbn [app unescape_loop Z.eqb Pos.eqb]. rewrite Hc', IH. reflexivity. }
  unfold unescape. destruct (needs_escape s) eqn:E; [exact Hl|]. clear Hl.
  induction H as [|c s Hc _ IH]; [reflexivity|]. rewrite needs_cons in E. apply orb_false_iff in E as [E1 E2]. rewrite escape_cons, IH by exact E2.
  destruct (escape_char_cases c Hc) as [(-> & _)|[(e & Ee & _)|(h & l & Ee & _)]]; [reflexivity|rewrite Ee in E1; discriminate..].
Qed.

(** ** Numbers: reading what was written *)

Definition digits (l : list Z) : Prop := Forall (fun c => is_digit c = true) l.
(** [-123.450e+67]: an integer part without leading zeros, a fraction and an
    exponent. *)
Definition number_text (neg : bool) (ip : list Z) (fp : option (list Z)) (ex : option (Z * list Z)) : list Z :=
  (if neg then [45] else []) ++ ip ++ match fp with Some f => 46 :: f | None => [] end
    ++ match ex with Some (sign, ds) => 101 :: sign :: ds | None => [] end.
Definition integer_part (ip : list Z) : Prop := ip = [48] \/ exists c l, ip = c :: l /\ is_digit19 c = true /\ digits l.
Definition exponent (ex : option (Z * list Z)) : Prop :=
  match ex with Some (sign, ds) => (sign = 43 \/ sign = 45) /\ digits ds | None => True end.

(** What the parser takes as a number. *)
Definition json_number (t : list Z) : Prop :=
  exists neg ip fp ex, t = number_text neg ip fp ex /\ integer_part ip /\ match fp with Some f => digits f | None => True end /\
    exponent ex /\ (ip = [48] -> fp = None -> ex = None).

(** What [%g] and [%f] write for a number: the same, with digits after the
    point, and with an exponent only after a digit from 1 to 9. *)
Definition printed_number (t : list Z) : Prop :=
  exists neg ip fp ex, t = number_text neg ip fp ex /\ integer_part ip /\ match fp with Some f => digits f /\ f <> [] | None => True end /\
    exponent ex /\ (ip = [48] -> ex = None).
Class PrintedNumber (fmt : spec_float -> list Z) : Prop :=
  printed : forall d, not_number d = false -> printed_number (fmt d).

(** What follows a value: nothing, a comma or a closing bracket. *)
Definition ends (rest : list Z) : bool :=
  match rest with [] => true | c :: _ => (c =? 44) || (c =? 93) || (c =? 125) end.

Lemma ends_transition c r state : ends (c :: r) = true -> transition state c = None /\ is_digit c = false.
Proof.
  cbn [ends]. rewrite !orb_true_iff, !Z.eqb_eq. intros [[->| ->]| ->]; split; destruct state; reflexivity.
Qed.

Lemma loop_ends state run rest : ends rest = true -> accepting state = true -> number_loop state run rest = Some ([], rest).
Proof.
  intros He Ha. destruct rest as [|c r]; cbn [number_loop]; rewrite Ha; [reflexivity|].
  destruct (ends_transition c r state He) as [-> ->]. rewrite andb_false_r. reflexivity.
Qed.

Definition prepend (l : list Z) (r : option (list Z * list Z)) : option (list Z * list Z) :=
  match r with Some (t, rest) => Some (l ++ t, rest) | None => None end.
Definition no_digit (rest : list Z) : Prop := match rest with [] => True | c :: _ => is_digit c = false end.
Definition in_digits (state : NumberParsingState) : bool :=
  match state with Digits | DigitsAfterPoints | DigitsAfterE => true | _ => false end.

Lemma loop_run state run rest : no_digit rest -> number_loop state run rest = number_loop state false rest.
Proof. destruct rest as [|c r]; [reflexivity|]. cbn [no_digit number_loop]. intros ->. now rewrite andb_false_r. Qed.

Lemma loop_digits ds : forall state run rest, in_digits state = true -> digits ds -> no_digit rest ->
  number_loop state run (ds ++ rest) = prepend ds (number_loop state false rest).
Proof.
  induction ds as [|c ds IH]; intros state run rest Hs Hd Hn; cbn [app].
  { rewrite loop_run by exact Hn. destruct (number_loop state false rest) as [[t r]|]; reflexivity. }
  inversion Hd as [|? ? Hc Hd']; subst. cbn [number_loop]. rewrite Hc.
  assert (Ht : transition state c = Some state).
  { unfold is_digit in Hc. unfold transition, is_digit19. apply andb_true_iff in Hc as [A B]. destruct (Z.eqb_spec c 48).
    - destruct state; try discriminate Hs; reflexivity.
    - replace (49 <=? c) with true by (symmetry; apply Z.leb_le; apply Z.leb_le in A; lia). rewrite B. cbn [andb].
      destruct state; try discriminate Hs; reflexivity. }
  rewrite andb_true_r. destruct run.
  - rewrite IH by assumption. destruct (number_loop state false rest) as [[t r]|]; reflexivity.
  - rewrite Ht, IH by assumption. destruct state; try discriminate Hs; destruct (number_loop _ false rest) as [[t r]|]; reflexivity.
Qed.

(** From the exponent on, and from the point on. *)
Lemma loop_exponent state ex rest : in_digits state = true -> state <> DigitsAfterE -> exponent ex -> ends rest = true ->
  number_loop state false (match ex with Some (sign, ds) => 101 :: sign :: ds | None => [] end ++ rest) =
  Some (match ex with Some (sign, ds) => 101 :: sign :: ds | None => [] end, rest).
Proof.
  intros Hs Hne Hx He. destruct ex as [[sign ds]|]; cbn [app].
  - destruct Hx as [Hsign Hds]. cbn [number_loop andb].
    replace (transition state 101) with (Some NE) by (destruct state; try discriminate Hs; try congruence; reflexivity).
    replace (transition NE sign) with (Some DigitsAfterE) by (destruct Hsign as [-> | ->]; reflexivity).
    replace (is_digit19 sign) with false by (destruct Hsign as [-> | ->]; reflexivity). cbn [is_digit19 Z.leb Z.compare Pos.compare Pos.compare_cont andb].
    rewrite loop_digits; [|reflexivity|exact Hds|destruct rest as [|c r]; [exact I|apply (ends_transition c r DigitsAfterE He)]].
    rewrite loop_ends by (exact He || reflexivity). cbn [prepend]. rewrite app_nil_r. reflexivity.
  - apply loop_ends; [exact He|]. destruct state; try discriminate Hs; reflexivity.
Qed.

Lemma exponent_no_digit ex rest : ends rest = true ->
  no_digit (match ex with Some (sign, ds) => 101 :: sign :: ds | None => [] end ++ rest).
Proof. intros He. destruct ex as [[sign ds]|]; [reflexivity|]. destruct rest as [|c r]; [exact I|]. apply (ends_transition c r Digits He). Qed.

Lemma loop_fraction state fp ex rest : state = Digits \/ (state = ZeroFirst /\ (fp = None -> ex = None)) ->
  match fp with Some f => digits f | None => True end -> exponent ex -> ends rest = true ->
  number_loop state false (match fp with Some f => 46 :: f | None => [] end ++
    match ex with Some (sign, ds) => 101 :: sign :: ds | None => [] end ++ rest) =
  Some (match fp with Some f => 46 :: f | None => [] end ++ match ex with Some (sign, ds) => 101 :: sign :: ds | None => [] end, rest).
Proof.
  intros Hs Hf Hx He. destruct fp as [f|].
  - cbn [app number_loop andb]. replace (transition state 46) with (Some DigitsAfterPoints) by (destruct Hs as [->|[-> _]]; reflexivity).
    cbn [is_digit19 Z.leb Z.compare Pos.compare Pos.compare_cont andb].
    rewrite loop_digits, loop_exponent by (reflexivity || discriminate || assumption || now apply exponent_no_digit). reflexivity.
  - cbn [app]. destruct Hs as [->|[-> Hn]]; [now apply loop_exponent|]. rewrite (Hn eq_refl). now apply loop_ends.
Qed.

Lemma number_loop_number t rest : json_number t -> ends rest = true -> number_loop Minus false (t ++ rest) = Some (t, rest).
Proof.
  intros (neg & ip & fp & ex & -> & Hip & Hfp & Hx & H0) He. unfold number_text. rewrite <- !app_assoc.
  set (tail := match fp with Some f => 46 :: f | None => [] end ++ match ex with Some (sign, ds) => 101 :: sign :: ds | None => [] end).
  assert (Hno : no_digit (tail ++ rest)).
  { unfold tail. destruct fp; [reflexivity|]. apply (exponent_no_digit ex rest He). }
  assert (Hmain : forall st, st = Minus \/ st = AfterMinus -> number_loop st false (ip ++ tail ++ rest) = Some (ip ++ tail, rest)).
  { intros st Hst. destruct Hip as [-> | (c & l & -> & Hc & Hl)]; cbn [app number_loop andb].
    - replace (transition st 48) with (Some ZeroFirst) by (destruct Hst as [-> | ->]; reflexivity). cbn [is_digit19 Z.leb Z.compare Pos.compare Pos.compare_cont andb].
      unfold tail. rewrite <- app_assoc, loop_fraction by (auto; right; auto). reflexivity.
    - assert (Ht : transition st c = Some Digits).
      { unfold transition. rewrite Hc. unfold is_digit19 in Hc. apply andb_true_iff in Hc as [A%Z.leb_le _].
        rewrite eqb_false by lia. destruct Hst as [-> | ->]; reflexivity. }
      rewrite Ht, loop_digits by (reflexivity || assumption). unfold tail. rewrite <- app_assoc, loop_fraction by auto. reflexivity. }
  fold tail. replace (match fp with Some f => 46 :: f | None => [] end ++ match ex with Some (sign, ds) => 101 :: sign :: ds | None => [] end ++ rest)
    with (tail ++ rest) by (unfold tail; now rewrite <- app_assoc).
  destruct neg; cbn [app].
  - cbn [number_loop andb]. change (transition Minus 45) with (Some AfterMinus). change (is_digit19 45) with false. cbv iota. rewrite Hmain by auto. reflexivity.
  - apply Hmain. auto.
Qed.

(** Removing the trailing zeros. *)
Fixpoint strip (l : list Z) : list Z :=
  match l with
  | [] => []
  | c :: l' => match strip l' with [] => if c =? 48 then [] else [c] | s => c :: s end
  end.

Definition cut (i : nat) (r : option nat) (l : list Z) : Prop :=
  match r with Some o => (i <= o)%nat /\ firstn (o - i) l = strip l | None => strip l = l end.

Lemma cut_cons i r c l : strip l <> [] -> cut (i + 1) r l -> cut i r (c :: l).
Proof.
  intros Hne. unfold cut. cbn [strip]. destruct (strip l) as [|x s] eqn:E; [congruence|]. destruct r as [o|].
  - intros [Hi Hf]. split; [lia|]. replace (o - i)%nat with (S (o - (i + 1))) by lia. cbn [firstn]. now rewrite Hf.
  - intros <-. reflexivity.
Qed.

Lemma trim_loop_cut l : forall i,
  cut i (trim_loop f_decp i None l) l /\
  (forall j, (strip l = [] -> trim_loop f_zero i (Some j) l = Some j) /\ (strip l <> [] -> cut i (trim_loop f_zero i (Some j) l) l)).
Proof.
  induction l as [|c l IH]; intros i; [split; [reflexivity|intros j; split; [reflexivity|intros H; now elim H]]|].
  destruct (IH (i + 1)%nat) as [Hd Hz]. split.
  - cbn [trim_loop]. destruct (Z.eqb_spec c 48) as [->|Hc].
    + destruct (Hz i) as [Hz0 Hz1]. destruct (strip l) as [|x s] eqn:E.
      * rewrite Hz0 by reflexivity. unfold cut. cbn [strip]. rewrite E, Nat.sub_diag. split; [lia|reflexivity].
      * apply cut_cons; [congruence|apply Hz1; congruence].
    + destruct (strip l) as [|x s] eqn:E; [|apply cut_cons; [congruence|exact Hd]].
      unfold cut in *. cbn [strip]. rewrite E in *. rewrite (eqb_false c 48 Hc). destruct (trim_loop f_decp (i + 1) None l) as [o|].
      * destruct Hd as [Hi Hf]. split; [lia|]. replace (o - i)%nat with (S (o - (i + 1))) by lia. cbn [firstn]. now rewrite Hf.
      * now rewrite <- Hd.
  - intros j. cbn [trim_loop]. destruct (Z.eqb_spec c 48) as [->|Hc]; cbn [negb].
    + destruct (Hz j) as [Hz0 Hz1]. split; intros H; cbn [strip] in H.
      * apply Hz0. destruct (strip l); [reflexivity|discriminate].
      * assert (strip l <> []) by (destruct (strip l); [now elim H|discriminate]). apply cut_cons; auto.
    + split; intros H; [cbn [strip] in H; destruct (strip l); [rewrite (eqb_false c 48 Hc) in H|]; discriminate|].
      destruct (strip l) as [|x s] eqn:E; [|apply cut_cons; [congruence|exact Hd]].
      unfold cut in *. cbn [strip]. rewrite E in *. rewrite (eqb_false c 48 Hc). destruct (trim_loop f_decp (i + 1) None l) as [o|].
      * destruct Hd as [Hi Hf]. split; [lia|]. replace (o - i)%nat with (S (o - (i + 1))) by lia. cbn [firstn]. now rewrite Hf.
      * now rewrite <- Hd.
Qed.

Definition strip_fraction (f : list Z) : list Z := match f with c :: f' => if c =? 48 then 48 :: strip f' else strip f | [] => [] end.

Lemma trim_start a : Forall (fun c => c <> 46) a -> forall i f,
  trim_loop f_start i None (a ++ f) = trim_loop f_start (i + length a) None f.
Proof.
  induction 1 as [|c a Hc _ IH]; intros i f; cbn [app length]; [now rewrite Nat.add_0_r|].
  cbn [trim_loop]. rewrite (eqb_false c 46 Hc), IH. f_equal. lia.
Qed.

Lemma trim_point a f : Forall (fun c => c <> 46) a -> trim (a ++ 46 :: f) = a ++ 46 :: strip_fraction f.
Proof.
  intros Ha. unfold trim. rewrite trim_start by exact Ha. cbn [Nat.add trim_loop Z.eqb Pos.eqb].
  assert (Hgo : forall b g, match trim_loop f_decp (length a + length b) None g with Some o => firstn o (a ++ b ++ g) | None => a ++ b ++ g end = a ++ b ++ strip g).
  { intros b g. destruct (trim_loop_cut g (length a + length b)) as [Hc _]. unfold cut in Hc. destruct (trim_loop _ _ _ g) as [o|].
    - destruct Hc as [Hi <-]. rewrite firstn_app, (firstn_all2 a) by lia. f_equal. rewrite firstn_app, (firstn_all2 b) by lia. do 2 f_equal. lia.
    - now rewrite Hc. }
  destruct f as [|c f]; [reflexivity|]. cbn [strip_fraction]. destruct (Z.eqb_spec c 48) as [->|Hc].
  - exact (Hgo [46; 48] f).
  - exact (Hgo [46] (c :: f)).
Qed.

Lemma trim_plain a : Forall (fun c => c <> 46) a -> trim a = a.
Proof. intros Ha. unfold trim. rewrite <- (app_nil_r a) at 1. rewrite trim_start by exact Ha. reflexivity. Qed.

Lemma strip_digits l : digits l -> digits (strip l).
Proof.
  induction 1 as [|c l Hc _ IH]; cbn [strip]; [constructor|]. destruct (strip l) as [|x s]; [destruct (c =? 48); repeat constructor; exact Hc|].
  constructor; assumption.
Qed.

Lemma strip_keep g c s : c <> 48 -> strip (g ++ c :: s) = g ++ c :: strip s.
Proof.
  intros Hc. induction g as [|x g IH]; cbn [app strip].
  - destruct (strip s); [now rewrite (eqb_false c 48 Hc)|reflexivity].
  - rewrite IH. destruct g; reflexivity.
Qed.

Lemma digit_not_point c : is_digit c = true -> c <> 46.
Proof. unfold is_digit. rewrite andb_true_iff, !Z.leb_le. lia. Qed.

Lemma digit19_digit c : is_digit19 c = true -> is_digit c = true.
Proof. unfold is_digit19, is_digit. rewrite !andb_true_iff, !Z.leb_le. lia. Qed.

Lemma integer_part_digits ip : integer_part ip -> digits ip.
Proof. intros [-> |(c & l & -> & Hc & Hl)]; [repeat constructor|constructor; [now apply digit19_digit|exact Hl]]. Qed.

Lemma no_point_digits l : digits l -> Forall (fun c => c <> 46) l.
Proof. apply Forall_impl. exact digit_not_point. Qed.

Lemma no_point_head (neg : bool) ip : integer_part ip -> Forall (fun c => c <> 46) ((if neg then [45] else []) ++ ip).
Proof. intros H. apply Forall_app. split; [destruct neg; repeat constructor; discriminate|now apply no_point_digits, integer_part_digits]. Qed.

(** Without an exponent, the zeros at the end of the fraction go, except one
    right after the point; with an exponent, the zeros at its end. *)
Lemma trim_fraction neg ip f : integer_part ip -> trim (number_text neg ip (Some f) None) = number_text neg ip (Some (strip_fraction f)) None.
Proof. intros Hip. unfold number_text. rewrite !app_nil_r, !app_assoc. now apply trim_point, no_point_head. Qed.

Lemma trim_exponent neg ip f sign ds : integer_part ip -> f <> [] -> sign <> 48 ->
  trim (number_text neg ip (Some f) (Some (sign, ds))) = number_text neg ip (Some f) (Some (sign, strip ds)).
Proof.
  intros Hip Hf Hs. unfold number_text. rewrite !app_assoc. rewrite <- (app_assoc _ (46 :: f)).
  cbn [app]. rewrite trim_point by now apply no_point_head. rewrite <- !app_assoc. cbn [app]. do 3 f_equal.
  assert (E : forall g, strip (g ++ 101 :: sign :: ds) = g ++ 101 :: sign :: strip ds).
  { intros g. rewrite strip_keep by discriminate. change (sign :: ds) with ([] ++ sign :: ds). now rewrite strip_keep by exact Hs. }
  destruct f as [|c f]; [congruence|]. cbn [app strip_fraction]. destruct (Z.eqb_spec c 48) as [->|Hc]; [now rewrite E|exact (E (c :: f))].
Qed.

Lemma strip_fraction_digits f : digits f -> digits (strip_fraction f).
Proof.
  intros H. destruct H as [|c f Hc Hf]; [constructor|]. cbn [strip_fraction]. destruct (c =? 48).
  - constructor; [reflexivity|now apply strip_digits].
  - apply strip_digits. constructor; assumption.
Qed.

(** The value of an unsigned decimal text, as an integer and a power of ten. *)
Fixpoint digits_value (acc : Z) (l : list Z) : Z := match l with [] => acc | c :: l' => digits_value (10 * acc + (c - 48)) l' end.

Lemma digits_value_app a l l' : digits_value a (l ++ l') = digits_value (digits_value a l) l'.
Proof. revert a. induction l as [|c l IH]; intros a; cbn [app digits_value]; auto. Qed.

Lemma digits_value_strip l : forall a, exists k, Z.of_nat (length l) = Z.of_nat (length (strip l)) + Z.of_nat k /\
  digits_value a l = digits_value a (strip l) * 10 ^ Z.of_nat k.
Proof.
  induction l as [|c l IH]; intros a; cbn [strip length]; [exists 0%nat; split; [reflexivity|cbn; lia]|].
  destruct (IH (10 * a + (c - 48))) as (k & Hk & Hv). destruct (strip l) as [|x s] eqn:E; [destruct (Z.eqb_spec c 48) as [->|Hc]|].
  - exists (S k). cbn [length digits_value] in *. split; [lia|]. rewrite Hv, Nat2Z.inj_succ, Z.pow_succ_r by lia. cbn [digits_value]. lia.
  - exists k. cbn [length digits_value] in *. split; [lia|exact Hv].
  - exists k. cbn [length digits_value] in *. split; [lia|exact Hv].
Qed.

(** Two texts of the same number: the same sign, integer part and exponent, and
    fractions of the same value. *)
Definition same_number (t t' : list Z) : Prop :=
  exists neg ip fp fp' ex, t = number_text neg ip fp ex /\ t' = number_text neg ip fp' ex /\
    let frac o := match o with Some f => f | None => [] end in
    digits_value 0 (frac fp) * 10 ^ Z.of_nat (length (frac fp')) = digits_value 0 (frac fp') * 10 ^ Z.of_nat (length (frac fp)).

Lemma strip_fraction_value f :
  digits_value 0 f * 10 ^ Z.of_nat (length (strip_fraction f)) = digits_value 0 (strip_fraction f) * 10 ^ Z.of_nat (length f).
Proof.
  destruct f as [|c f]; [reflexivity|]. cbn [strip_fraction]. destruct (Z.eqb_spec c 48) as [->|Hc].
  - destruct (digits_value_strip f 0) as (k & Hk & Hv). change (digits_value 0 (48 :: ?x)) with (digits_value 0 x). cbn [length]. rewrite Hv, !Nat2Z.inj_succ, Hk, !Z.pow_succ_r, Z.pow_add_r by lia. lia.
  - destruct (digits_value_strip (c :: f) 0) as (k & Hk & Hv). rewrite Hv, Hk, Z.pow_add_r by lia. lia.
Qed.

(** The texts that lose digits of the exponent: a fraction, and an exponent that
    ends in zero. *)
Definition mangled (t : list Z) : bool := existsb (Z.eqb 46) t && existsb (Z.eqb 101) t && (last t 0 =? 48).

Lemma strip_last l : last l 0 <> 48 -> strip l = l.
Proof.
  induction l as [|c l IH]; intros H; [reflexivity|]. cbn [strip]. destruct l as [|d l].
  - cbn [strip]. cbn [last] in H. now rewrite (eqb_false c 48 H).
  - rewrite IH by exact H. reflexivity.
Qed.

Lemma last_app_cons {A} (a : list A) c l d : last (a ++ c :: l) d = last (c :: l) d.
Proof. induction a as [|x a IH]; [reflexivity|]. cbn [app]. rewrite <- IH. destruct a; reflexivity. Qed.

Lemma trim_same t : printed_number t -> mangled t = false -> same_number t (trim t).
Proof.
  intros (neg & ip & fp & ex & -> & Hip & Hfp & Hx & _) HM. destruct fp as [f|].
  - destruct Hfp as [Hf Hne]. destruct ex as [[sign ds]|].
    + destruct Hx as [Hs Hd]. rewrite trim_exponent by (auto; destruct Hs; lia).
      exists neg, ip, (Some f), (Some f), (Some (sign, ds)). split; [reflexivity|]. split; [|reflexivity].
      unfold number_text. do 5 f_equal. apply strip_last. intros HL. unfold mangled, number_text in HM.
      rewrite !existsb_app in HM. cbn [existsb Z.eqb Pos.eqb orb] in HM. rewrite !orb_true_r in HM. cbn [andb] in HM.
      rewrite !app_assoc in HM. rewrite last_app_cons in HM. destruct ds as [|c ds]; [discriminate HL|].
      change (last (101 :: sign :: c :: ds) 0) with (last (c :: ds) 0) in HM. rewrite HL in HM. discriminate HM.
    + rewrite trim_fraction by exact Hip. exists neg, ip, (Some f), (Some (strip_fraction f)), None. split; [reflexivity|]. split; [reflexivity|].
      apply strip_fraction_value.
  - rewrite trim_plain; [now exists neg, ip, None, None, ex|]. unfold number_text. rewrite app_nil_l, app_assoc.
    apply Forall_app. split; [now apply no_point_head|]. destruct ex as [[sign ds]|]; [|constructor]. destruct Hx as [Hs Hd].
    repeat constructor; [discriminate|destruct Hs; lia|now apply no_point_digits].
Qed.

Lemma printed_trim t : printed_number t -> json_number (trim t).
Proof.
  intros (neg & ip & fp & ex & -> & Hip & Hfp & Hx & H0). destruct fp as [f|].
  - destruct Hfp as [Hd Hf]. destruct ex as [[sign ds]|].
    + destruct Hx as [Hs Hds]. rewrite trim_exponent by (auto; destruct Hs; lia). exists neg, ip, (Some f), (Some (sign, strip ds)).
      repeat split; auto; try discriminate. now apply strip_digits.
    + rewrite trim_fraction by exact Hip. exists neg, ip, (Some (strip_fraction f)), None.
      repeat split; auto. now apply strip_fraction_digits.
  - rewrite trim_plain.
    + exists neg, ip, None, ex. repeat split; auto.
    + unfold number_text. rewrite app_assoc. apply Forall_app. split; [now apply no_point_head|]. cbn [app].
      destruct ex as [[sign ds]|]; [|constructor]. destruct Hx as [Hs Hds]. constructor; [discriminate|].
      constructor; [destruct Hs; lia|now apply no_point_digits].
Qed.

(** Integers. *)
Lemma decimal_digits fuel : forall n acc, 0 <= n < 10 ^ Z.of_nat (S fuel) ->
  exists c p, decimal (S fuel) n acc = c :: p ++ acc /\ digits (c :: p) /\ (n = 0 -> c = 48 /\ p = []) /\ (n <> 0 -> c <> 48).
Proof.
  induction fuel as [|fuel IH]; intros n acc Hn.
  - assert (Hlt : n < 10) by exact (proj2 Hn). cbn [decimal]. replace (n <? 10) with true by (symmetry; apply Z.ltb_lt; lia).
    rewrite Z.mod_small by lia. exists (48 + n), []. repeat split; try lia. repeat constructor. unfold is_digit. apply andb_true_iff. rewrite !Z.leb_le. lia.
  - remember (S fuel) as k eqn:Ek. cbn [decimal]. destruct (Z.ltb_spec n 10) as [Hlt|Hge].
    + rewrite Z.mod_small by lia. exists (48 + n), []. repeat split; try lia. repeat constructor. unfold is_digit. apply andb_true_iff. rewrite !Z.leb_le. lia.
    + rewrite Nat2Z.inj_succ, Z.pow_succ_r in Hn by lia. subst k.
      destruct (IH (n / 10) ((48 + n mod 10) :: acc)) as (c & p & E & Hd & _ & Hc).
      { split; [apply Z.div_pos; lia|]. apply Z.div_lt_upper_bound; lia. }
      exists c, (p ++ [48 + n mod 10]). rewrite E, <- app_assoc. split; [reflexivity|]. split; [|split; [lia|]].
      * inversion Hd; subst. constructor; [assumption|]. apply Forall_app. split; [assumption|]. repeat constructor.
        pose proof (Z.mod_pos_bound n 10). unfold is_digit. apply andb_true_iff. rewrite !Z.leb_le. lia.
      * intros _. apply Hc. assert (1 <= n / 10) by (apply Z.div_le_lower_bound; lia). lia.
Qed.

Lemma decimal_integer n : 0 <= n < 10 ^ 20 -> integer_part (decimal 20 n []).
Proof.
  intros Hn. destruct (decimal_digits 19 n [] Hn) as (c & p & E & Hd & H0 & Hc). change 20%nat with (S 19). rewrite E, app_nil_r.
  destruct (Z.eq_dec n 0) as [->|Hne]; [left; now destruct (H0 eq_refl) as [-> ->]|right].
  exists c, p. split; [reflexivity|]. inversion Hd as [|? ? Hdc Hdp]; subst. split; [|exact Hdp]. specialize (Hc Hne).
  unfold is_digit in Hdc. unfold is_digit19. rewrite andb_true_iff, !Z.leb_le in *. lia.
Qed.

Lemma to_string_number z : - 2 ^ 64 < z < 2 ^ 64 -> json_number (to_string z).
Proof.
  intros Hz. unfold to_string. destruct (Z.ltb_spec z 0).
  - exists true, (decimal 20 (- z) []), None, None. unfold number_text. rewrite !app_nil_r. repeat split; auto. apply decimal_integer. lia.
  - exists false, (decimal 20 z []), None, None. unfold number_text. rewrite !app_nil_r. repeat split; auto. apply decimal_integer. lia.
Qed.

(** ** The round trip *)

Lemma wvalue_nested (P : wvalue -> Prop) :
  P WNull -> P WFalse -> P WTrue -> (forall d, P (WFloat d)) -> (forall d, P (WDouble d)) -> (forall z, P (WInt z)) -> (forall z, P (WUint z)) ->
  (forall s, P (WStr s)) -> (forall l, Forall P l -> P (WList l)) -> (forall o, Forall (fun kv => P (snd kv)) o -> P (WObj o)) -> forall w, P w.
Proof.
  intros Hn Hf Ht Hfl Hd Hi Hu Hs Hl Ho. fix IH 1. intros [| | |d|d|z|z|s|l|o];
    [exact Hn|exact Hf|exact Ht|apply Hfl|apply Hd|apply Hi|apply Hu|apply Hs| |].
  - apply Hl. induction l as [|w l IHl]; constructor; [apply IH|exact IHl].
  - apply Ho. induction o as [|[k w] o IHo]; constructor; [apply IH|exact IHo].
Qed.

(** Strings are bytes, integers fit in 64 bits. *)
Fixpoint well_formed (w : wvalue) : Prop :=
  match w with
  | WInt z => is_i64 z
  | WUint z => is_u64 z
  | WStr s => Forall byte s
  | WList l => fold_right and True (map well_formed l)
  | WObj o => fold_right and True (map (fun kv => Forall byte (fst kv) /\ well_formed (snd kv)) o)
  | _ => True
  end.
Fixpoint levels (w : wvalue) : Z :=
  match w with
  | WList l => 1 + fold_right Z.max 0 (map levels l)
  | WObj o => 1 + fold_right Z.max 0 (map (fun kv => levels (snd kv)) o)
  | _ => 0
  end.

Section RoundTrip.
Variables fmt_g fmt_f : spec_float -> list Z.
Context `{!PrintedNumber fmt_g} `{!PrintedNumber fmt_f}.
Abbreviation dump := (dump fmt_g fmt_f).

(** What a value is after it has been written and read. *)
Fixpoint image (w : wvalue) : rvalue :=
  match w with
  | WNull => JNull
  | WFalse => JFalse
  | WTrue => JTrue
  | WFloat d => if not_number d then JNull else JNum (trim (fmt_f d))
  | WDouble d => if not_number d then JNull else JNum (trim (fmt_g d))
  | WInt z => JNum (to_string z)
  | WUint z => JNum (to_string z)
  | WStr s => JStr (escape s) (needs_escape s)
  | WList l => JList (map image l)
  | WObj o => JObj (map (fun kv => (fst kv, image (snd kv))) o)
  end.

(** A value starts with a character that is neither white space nor a closing
    bracket. *)
Definition starts (l : list Z) : Prop := exists c l', l = c :: l' /\ is_ws c = false /\ c <> 93 /\ c <> 125 /\ c <> 0.

Lemma number_starts t : json_number t -> exists c l, t = c :: l /\ (c = 45 \/ is_digit c = true).
Proof.
  intros (neg & ip & fp & ex & -> & Hip & _). unfold number_text. destruct neg; [eexists; eexists; split; [reflexivity|auto]|].
  apply integer_part_digits in Hip as Hd. destruct ip as [|c ip]; [destruct Hip as [?|(? & ? & ? & _)]; discriminate|].
  inversion Hd; subst. eexists; eexists; split; [reflexivity|auto].
Qed.

Lemma digit_starts c l : c = 45 \/ is_digit c = true -> starts (c :: l).
Proof.
  intros H. exists c, l. split; [reflexivity|]. assert (45 <= c <= 57) by (destruct H as [->|H]; [lia|unfold is_digit in H; rewrite andb_true_iff, !Z.leb_le in H; lia]).
  repeat split; try lia. unfold is_ws. rewrite !eqb_false by lia. reflexivity.
Qed.

Lemma dump_number w : well_formed w ->
  match w with WFloat _ | WDouble _ | WInt _ | WUint _ => (image w = JNull /\ dump w = null_text) \/ (image w = JNum (dump w) /\ json_number (dump w)) | _ => True end.
Proof.
  destruct w as [| | |d|d|z|z|s|l|o]; intros H; try exact I; cbn [image Json.dump].
  - destruct (not_number d) eqn:E; [auto|right]. split; [reflexivity|]. apply printed_trim, printed, E.
  - destruct (not_number d) eqn:E; [auto|right]. split; [reflexivity|]. apply printed_trim, printed, E.
  - right. split; [reflexivity|]. apply to_string_number. unfold well_formed, is_i64 in H. lia.
  - right. split; [reflexivity|]. apply to_string_number. unfold well_formed, is_u64 in H. lia.
Qed.

Lemma dump_starts w rest : well_formed w -> starts (dump w ++ rest).
Proof.
  intros H. pose proof (dump_number w H) as Hn.
  assert (Hnum : (image w = JNull /\ dump w = null_text) \/ (image w = JNum (dump w) /\ json_number (dump w)) -> starts (dump w ++ rest)).
  { intros [[_ ->]|[_ Hj]]; [eexists; eexists; repeat split; discriminate|].
    destruct (number_starts _ Hj) as (c & l & -> & Hc). now apply digit_starts. }
  destruct w; try (exact (Hnum Hn)); eexists; eexists; repeat split; discriminate.
Qed.

Lemma starts_skip l : starts l -> ws_skip l = l /\ (peek l =? 93) = false /\ (peek l =? 125) = false.
Proof. intros (c & l' & -> & Hw & H1 & H2 & _). cbn [ws_skip peek]. rewrite Hw. rewrite !eqb_false by assumption. auto. Qed.

Definition reads_back (w : wvalue) : Prop :=
  forall fuel depth rest, well_formed w -> 0 <= depth -> depth + 2 * levels w <= 10001 -> ends rest = true ->
    (2 * length (dump w ++ rest) + 1 <= fuel)%nat -> decode_value fuel depth (dump w ++ rest) = Ok (image w) rest.

Lemma number_value fuel depth t rest : json_number t -> ends rest = true -> (1 <= fuel)%nat ->
  decode_value fuel depth (t ++ rest) = Ok (JNum t) rest.
Proof.
  intros Hj He Hf. destruct fuel as [|fuel]; [lia|]. destruct (number_starts t Hj) as (c & l & E & Hc).
  assert (45 <= c <= 57) by (destruct Hc as [->|Hc]; [lia|unfold is_digit in Hc; rewrite andb_true_iff, !Z.leb_le in Hc; lia]).
  assert (Ep : peek (t ++ rest) = c) by (rewrite E; reflexivity).
  cbn [decode_value]. rewrite Ep, !eqb_false by lia.
  unfold decode_number. now rewrite number_loop_number.
Qed.

Lemma null_value fuel depth rest : (1 <= fuel)%nat -> decode_value fuel depth (null_text ++ rest) = Ok JNull rest.
Proof. intros Hf. destruct fuel; [lia|reflexivity]. Qed.

Lemma max_nonneg l : 0 <= fold_right Z.max 0 l.
Proof. induction l as [|y l IH]; cbn [fold_right]; lia. Qed.

Lemma items_back l : Forall reads_back l -> l <> [] -> forall fuel depth rest,
  fold_right and True (map well_formed l) -> 0 <= depth -> depth + 1 + 2 * fold_right Z.max 0 (map levels l) <= 10001 ->
  (2 * length (join (map dump l) ++ 93%Z :: rest) + 2 <= fuel)%nat ->
  decode_items fuel depth (join (map dump l) ++ 93 :: rest) = Ok (map image l) rest.
Proof.
  induction 1 as [|w l Hw _ IH]; intros Hne fuel depth rest Hwf Hd Hl Hf; [congruence|]. clear Hne.
  destruct fuel as [|fuel]; [lia|]. cbn [map fold_right] in Hwf, Hl. destruct Hwf as [Hw1 Hwl]. cbn [decode_items].
  destruct l as [|w' l].
  - cbn [map join] in *. rewrite Hw by (auto; cbn [fold_right map] in *; lia || (rewrite length_app in *; cbn [length] in *; lia)). reflexivity.
  - change (join (map dump (w :: w' :: l))) with (dump w ++ [44] ++ join (map dump (w' :: l))) in *.
    rewrite <- !app_assoc in *. cbn [app] in *.
    rewrite Hw by (auto; lia). cbn [bind ws_skip is_ws Z.eqb Pos.eqb orb peek consume].
    assert (Hs : starts (join (map dump (w' :: l)) ++ 93 :: rest)).
    { cbn [map fold_right] in Hwl. destruct Hwl as [Hw' _]. destruct l as [|w'' l]; cbn [map join]; [now apply dump_starts|].
      rewrite <- app_assoc. now apply dump_starts. }
    destruct (starts_skip _ Hs) as (-> & _). rewrite IH; [reflexivity|discriminate|exact Hwl|lia|lia|].
    rewrite length_app in Hf. cbn [length] in Hf. lia.
Qed.

Definition member_text (kv : list Z * wvalue) : list Z := dump_string (fst kv) ++ [58] ++ dump (snd kv).

Lemma members_back o : Forall (fun kv => reads_back (snd kv)) o -> o <> [] -> forall fuel depth rest,
  fold_right and True (map (fun kv => Forall byte (fst kv) /\ well_formed (snd kv)) o) -> 0 <= depth ->
  depth + 1 + 2 * fold_right Z.max 0 (map (fun kv => levels (snd kv)) o) <= 10001 ->
  (2 * length (join (map member_text o) ++ 125%Z :: rest) + 2 <= fuel)%nat ->
  decode_members fuel depth (join (map member_text o) ++ 125 :: rest) = Ok (map (fun kv => (fst kv, image (snd kv))) o) rest.
Proof.
  induction 1 as [|[k w] o Hw _ IH]; intros Hne fuel depth rest Hwf Hd Hl Hf; [congruence|]. clear Hne. cbn [fst snd] in *.
  destruct fuel as [|fuel]; [lia|]. cbn [map fold_right fst snd] in Hwf, Hl. destruct Hwf as [[Hk Hw1] Hwo]. cbn [decode_members].
  assert (Hmember : forall tail, member_text (k, w) ++ tail = 34 :: escape k ++ 34 :: 58 :: dump w ++ tail).
  { intros tail. unfold member_text, dump_string. cbn [fst snd app]. rewrite <- !app_assoc. reflexivity. }
  assert (Hstr : forall tail, decode_string (34 :: escape k ++ 34 :: tail) = Ok (escape k, needs_escape k) tail).
  { intros tail. unfold decode_string. cbn [consume Z.eqb Pos.eqb]. now rewrite string_body_escape. }
  destruct o as [|kv o].
  - cbn [map join] in *. rewrite Hmember, Hstr in *. cbn [bind ws_skip is_ws Z.eqb Pos.eqb orb consume]. rewrite unescape_escape by exact Hk.
    destruct (starts_skip _ (dump_starts w (125 :: rest) Hw1)) as (-> & _). cbn [fold_right map] in Hl.
    rewrite Hw; [reflexivity|exact Hw1|lia|lia|reflexivity|]. cbn [length] in Hf. rewrite length_app in Hf. cbn [length] in Hf. lia.
  - change (join (map member_text ((k, w) :: kv :: o))) with (member_text (k, w) ++ [44] ++ join (map member_text (kv :: o))) in *.
    rewrite <- !app_assoc in *. cbn [app] in *. rewrite Hmember, Hstr in *. cbn [bind ws_skip is_ws Z.eqb Pos.eqb orb consume]. rewrite unescape_escape by exact Hk.
    destruct (starts_skip _ (dump_starts w (44 :: join (map member_text (kv :: o)) ++ 125 :: rest) Hw1)) as (-> & _).
    cbn [length] in Hf. rewrite length_app in Hf. cbn [length] in Hf.
    rewrite Hw; [|exact Hw1|lia|lia|reflexivity|lia]. cbn [bind ws_skip is_ws Z.eqb Pos.eqb orb peek consume].
    assert (Hs : ws_skip (join (map member_text (kv :: o)) ++ 125 :: rest) = join (map member_text (kv :: o)) ++ 125 :: rest).
    { destruct kv as [k' w']. destruct o; reflexivity. }
    rewrite Hs, IH; [reflexivity|discriminate|exact Hwo|lia|lia|]. rewrite length_app in Hf. cbn [length] in Hf. lia.
Qed.

Lemma dump_reads_back w : reads_back w.
Proof.
  induction w as [| | |d|d|z|z|s|l Hl|o Ho] using wvalue_nested; intros fuel depth rest Hwf Hd Hlev He Hf.
  - now apply null_value; lia.
  - destruct fuel; [lia|reflexivity].
  - destruct fuel; [lia|reflexivity].
  - destruct (dump_number (WFloat d) Hwf) as [[-> ->]|[-> Hj]]; [apply null_value; lia|now apply number_value; auto; lia].
  - destruct (dump_number (WDouble d) Hwf) as [[-> ->]|[-> Hj]]; [apply null_value; lia|now apply number_value; auto; lia].
  - destruct (dump_number (WInt z) Hwf) as [[-> ->]|[-> Hj]]; [apply null_value; lia|now apply number_value; auto; lia].
  - destruct (dump_number (WUint z) Hwf) as [[-> ->]|[-> Hj]]; [apply null_value; lia|now apply number_value; auto; lia].
  - destruct fuel; [lia|]. cbn [Json.dump]. unfold dump_string. rewrite <- !app_assoc. cbn [app decode_value peek Z.eqb Pos.eqb].
    unfold decode_string. cbn [consume Z.eqb Pos.eqb]. rewrite string_body_escape by exact Hwf. reflexivity.
  - destruct fuel as [|fuel]; [lia|]. change (levels (WList l)) with (1 + fold_right Z.max 0 (map levels l)) in Hlev. cbn [Json.dump image well_formed] in *. rewrite <- !app_assoc in *. cbn [app] in *.
    cbn [decode_value peek consume Z.eqb Pos.eqb]. replace (max_depth <? depth + 1) with false.
    2:{ symmetry. apply Z.ltb_ge. unfold max_depth. pose proof (max_nonneg (map levels l)). lia. }
    cbn zeta. destruct l as [|w l]; [reflexivity|].
    assert (Hs : starts (join (map dump (w :: l)) ++ 93 :: rest)).
    { cbn [map fold_right] in Hwf. destruct Hwf as [Hw _]. destruct l; cbn [map join]; [now apply dump_starts|].
      rewrite <- app_assoc. now apply dump_starts. }
    destruct (starts_skip _ Hs) as (-> & -> & _). rewrite items_back; [reflexivity|exact Hl|discriminate|exact Hwf|lia|lia|].
    cbn [length] in Hf. lia.
  - destruct fuel as [|fuel]; [lia|]. change (levels (WObj o)) with (1 + fold_right Z.max 0 (map (fun kv => levels (snd kv)) o)) in Hlev.
    change (dump (WObj o)) with ([123] ++ join (map member_text o) ++ [125]) in *. cbn [image well_formed] in *. rewrite <- !app_assoc in *. cbn [app] in *.
    cbn [decode_value peek consume Z.eqb Pos.eqb]. replace (max_depth <? depth + 1) with false.
    2:{ symmetry. apply Z.ltb_ge. unfold max_depth. pose proof (max_nonneg (map (fun kv => levels (snd kv)) o)). lia. }
    cbn zeta. destruct o as [|kv o]; [reflexivity|].
    assert (Hs : ws_skip (join (map member_text (kv :: o)) ++ 125 :: rest) = join (map member_text (kv :: o)) ++ 125 :: rest
      /\ (peek (join (map member_text (kv :: o)) ++ 125 :: rest) =? 125) = false) by (destruct o; split; reflexivity).
    destruct Hs as [-> ->]. rewrite members_back; [reflexivity|exact Ho|discriminate|exact Hwf|lia|lia|].
    cbn [length] in Hf. lia.
Qed.

(** [r] reads as the number printed as [t]: it is the text without trailing
    zeros, and has the same value unless it lost digits of its exponent. *)
Definition reads_number (t : list Z) (r : rvalue) : Prop := r = JNum (trim t) /\ (mangled t = false -> same_number t (trim t)).

(** [r] reads as [w]: the same structure, keys, strings and integers; a finite
    double reads as the number that is printed for it, and null stands for
    infinity and what is not a number. *)
Fixpoint reads (w : wvalue) (r : rvalue) : Prop :=
  match w, r with
  | WNull, JNull | WFalse, JFalse | WTrue, JTrue => True
  | WFloat d, r => if not_number d then r = JNull else reads_number (fmt_f d) r
  | WDouble d, r => if not_number d then r = JNull else reads_number (fmt_g d) r
  | WInt z, r | WUint z, r => r = JNum (to_string z)
  | WStr s, JStr raw e => unescape raw e = s
  | WList l, JList l' =>
      (fix go l l' := match l, l' with [], [] => True | w :: l, r :: l' => reads w r /\ go l l' | _, _ => False end) l l'
  | WObj o, JObj o' =>
      (fix go o o' := match o, o' with
                      | [], [] => True
                      | (k, w) :: o, (k', r) :: o' => k' = k /\ reads w r /\ go o o'
                      | _, _ => False
                      end) o o'
  | _, _ => False
  end.

Lemma reads_printed fmt d : PrintedNumber fmt -> not_number d = false -> reads_number (fmt d) (JNum (trim (fmt d))).
Proof. intros HP Hd. split; [reflexivity|]. apply trim_same. now apply HP. Qed.

Lemma reads_image w : well_formed w -> reads w (image w).
Proof.
  induction w as [| | |d|d|z|z|s|l Hl|o Ho] using wvalue_nested; cbn [well_formed]; intros Hwf; try exact I; try reflexivity.
  - cbn [image reads]. destruct (not_number d) eqn:E; [reflexivity|now apply reads_printed].
  - cbn [image reads]. destruct (not_number d) eqn:E; [reflexivity|now apply reads_printed].
  - now apply unescape_escape.
  - cbn [image reads]. induction Hl as [|w l Hw _ IH]; [exact I|]. destruct Hwf as [H1 H2]. exact (conj (Hw H1) (IH H2)).
  - cbn [image reads]. induction Ho as [|[k w] o Hw _ IH]; [exact I|]. destruct Hwf as [[_ H1] H2]. cbn [fst snd] in *.
    exact (conj eq_refl (conj (Hw H1) (IH H2))).
Qed.

Lemma load_dump w : well_formed w -> levels w <= 5000 -> load (dump w) = Some (image w).
Proof.
  intros Hwf Hl. unfold load, parse, load_fuel.
  pose proof (dump_starts w [] Hwf) as Hs. rewrite app_nil_r in Hs. destruct (starts_skip _ Hs) as (-> & _).
  rewrite <- (app_nil_r (dump w)) at 2.
  rewrite dump_reads_back; [reflexivity|exact Hwf|lia|lia|reflexivity|]. rewrite app_nil_r. lia.
Qed.

(** C33: what is written is read back, as far as the writer keeps it.  For every
    value whose strings are bytes and whose integers fit in 64 bits, nested at
    most 5000 levels deep, [load] of [dump] succeeds and gives the same
    structure, the same keys and strings after [unescape], whatever characters
    they hold, and the same integers; a finite double is read as a number of the
    same sign, integer part and exponent as the text that is printed for it, with
    a fraction of the same value, except where the writer cuts zeros off an
    exponent after a fraction (1.5e+30), and what is not finite is read as null. *)
Theorem json_roundtrip w : well_formed w -> levels w <= 5000 -> exists r, load (dump w) = Some r /\ reads w r.
Proof.
  intros Hwf Hl. exists (image w). split; [now apply load_dump|now apply reads_image].
Qed.

End RoundTrip.

(** ** Written texts have no NUL *)

Abbreviation nonzero := (Forall (fun c => c <> 0)).

Lemma digits_nonzero l : digits l -> nonzero l.
Proof. apply Forall_impl. intros c. unfold is_digit. rewrite andb_true_iff, !Z.leb_le. lia. Qed.

Lemma number_nonzero t : json_number t -> nonzero t.
Proof.
  intros (neg & ip & fp & ex & -> & Hip & Hfp & Hx & _). unfold number_text. repeat (apply Forall_app; split).
  - destruct neg; repeat constructor. discriminate.
  - now apply digits_nonzero, integer_part_digits.
  - destruct fp; [constructor; [discriminate|now apply digits_nonzero]|constructor].
  - destruct ex as [[sign ds]|]; [|constructor]. destruct Hx as [Hs Hd]. constructor; [discriminate|].
    constructor; [destruct Hs; lia|now apply digits_nonzero].
Qed.

Lemma escape_nonzero s : Forall byte s -> nonzero (escape s).
Proof.
  induction 1 as [|c s Hc _ IH]; [constructor|]. rewrite escape_cons. apply Forall_app. split; [|exact IH].
  destruct (escape_char_cases c Hc) as [(-> & _ & _ & H0)|[(e & -> & He & _)|(h & l & -> & Hh & Hl & _)]]; repeat constructor; try lia.
  - intros ->. discriminate He.
  - intros ->. discriminate Hh.
  - intros ->. discriminate Hl.
Qed.

Lemma dump_string_nonzero s : Forall byte s -> nonzero (dump_string s).
Proof. intros H. unfold dump_string. repeat (apply Forall_app; split); [repeat constructor; discriminate|now apply escape_nonzero|repeat constructor; discriminate]. Qed.

Lemma join_nonzero l : Forall nonzero l -> nonzero (join l).
Proof.
  induction 1 as [|x l Hx _ IH]; [constructor|]. cbn [join]. destruct l; [exact Hx|].
  apply Forall_app. split; [exact Hx|]. constructor; [discriminate|exact IH].
Qed.

Lemma dump_nonzero fmt_g fmt_f `{!PrintedNumber fmt_g} `{!PrintedNumber fmt_f} w : well_formed w -> nonzero (dump fmt_g fmt_f w).
Proof.
  induction w as [| | |d|d|z|z|s|l Hl|o Ho] using wvalue_nested; intros Hwf;
    try (repeat constructor; discriminate);
    try (match goal with |- nonzero (dump _ _ ?w) => destruct (dump_number fmt_g fmt_f w Hwf) as [[_ ->]|[_ Hj]];
           [repeat constructor; discriminate|now apply number_nonzero] end).
  - now apply dump_string_nonzero.
  - cbn [dump]. repeat (apply Forall_app; split); [repeat constructor; discriminate| |repeat constructor; discriminate].
    apply join_nonzero. cbn [well_formed] in Hwf. induction Hl as [|w l Hw _ IH]; [constructor|]. destruct Hwf. constructor; auto.
  - cbn [dump]. repeat (apply Forall_app; split); [repeat constructor; discriminate| |repeat constructor; discriminate].
    apply join_nonzero. cbn [well_formed] in Hwf. induction Ho as [|[k w] o Hw _ IH]; [constructor|]. destruct Hwf as [[Hk H1] H2]. cbn [fst snd] in *.
    constructor; [|auto]. cbn [fst snd]. apply Forall_app. split; [now apply dump_string_nonzero|]. constructor; [discriminate|auto].
Qed.

(** A printer of small integers, and the rest as 0.5. *)
Definition demo_fmt (d : spec_float) : list Z := match d with S754_zero _ => [48] | _ => [48; 46; 53; 48] end.
#[export] Instance demo_printed : PrintedNumber demo_fmt.
Proof.
  intros d _. destruct d.
  1: exists false, [48], None, None. 2-4: exists false, [48], (Some [53; 48]), None.
  all: repeat split; try (left; reflexivity); try discriminate; repeat constructor.
Qed.

Definition demo_value : wvalue :=
  WObj [([34; 10], WList [WDouble (S754_finite false 1 (-1)); WStr [9; 92; 200]; WInt (-5)]); ([107], WNull)].
Lemma json_roundtrip_witness : exists r, load (dump demo_fmt demo_fmt demo_value) = Some r /\ reads demo_fmt demo_fmt demo_value r.
Proof.
  apply (json_roundtrip demo_fmt demo_fmt demo_value).
  - cbn. unfold byte, is_i64. repeat split; repeat constructor; lia.
  - cbn. lia.
Defined.

(** ** Numbers with an exponent *)

(** Trailing zeros.  Without an exponent, removing the trailing zeros keeps
    the value: [ip.f] and the text written have the same integer part, and
    fractions that are equal as decimal fractions.  With an exponent the zeros
    at the end of the exponent are removed, so that 1.5e+30 is written as
    1.5e+3. *)
Theorem json_number_trim :
  (forall neg ip f, integer_part ip -> digits f ->
     exists f', trim (number_text neg ip (Some f) None) = number_text neg ip (Some f') None /\
       digits_value 0 f * 10 ^ Z.of_nat (length f') = digits_value 0 f' * 10 ^ Z.of_nat (length f)) /\
  (forall neg ip f sign ds, integer_part ip -> f <> [] -> sign <> 48 ->
     trim (number_text neg ip (Some f) (Some (sign, ds))) = number_text neg ip (Some f) (Some (sign, strip ds))) /\
  trim [49; 46; 53; 101; 43; 51; 48] = [49; 46; 53; 101; 43; 51].
Proof.
  split; [|split; [exact trim_exponent|reflexivity]]. intros neg ip f Hip Hd. exists (strip_fraction f).
  split; [now apply trim_fraction|apply strip_fraction_value].
Qed.

(** ** Members of an object *)

(** [std::lexicographical_compare] on [char]s, which are signed. *)
Definition key_compare (a b : list Z) : comparison := lex (map i8 a) (map i8 b).
Definition key_less (a b : list Z) : bool := match key_compare a b with Lt => true | _ => false end.
(** [r_string::equals] *)
Definition key_equal (a b : list Z) : bool := match lex a b with Eq => true | _ => false end.
(** [std::lower_bound]: the first element that is not less. *)
Definition lower_bound (o : list (list Z * rvalue)) (key : list Z) : option (list Z * rvalue) :=
  find (fun m => negb (key_less (fst m) key)) o.

Section Members.
(** [std::sort] on the members. *)
Variable sort : list (list Z * rvalue) -> list (list Z * rvalue).

Definition member (o : list (list Z * rvalue)) (key : list Z) : option rvalue :=
  match lower_bound (sort o) key with
  | Some (k, v) => if key_equal k key then Some v else None
  | None => None
  end.
(** [has] throws on a value that is not a container; the members of a list have
    no keys. *)
Definition has (v : rvalue) (key : list Z) : option bool :=
  match v with
  | JObj o => Some (match member o key with Some _ => true | None => false end)
  | JList l => Some (match l, key with _ :: _, [] => true | _, _ => false end)
  | _ => None
  end.
(** [operator[]]; [None] when it throws. *)
Definition index (v : rvalue) (key : list Z) : option rvalue := match v with JObj o => member o key | _ => None end.
End Members.

(** [operator[](int)] *)
Definition at_index (v : rvalue) (i : Z) : option rvalue :=
  match v with JList l => if (Z.of_nat (length l) <=? i) || (i <? 0) then None else nth_error l (Z.to_nat i) | _ => None end.
(** [s()] *)
Definition str (v : rvalue) : option (list Z) := match v with JStr raw e => Some (unescape raw e) | _ => None end.
(** [d()] and [i()], with [std::stringstream] as a parameter. *)
Definition number (to_double : list Z -> spec_float) (v : rvalue) : option spec_float :=
  match v with JNum t => Some (to_double t) | _ => None end.
Definition integer (to_int64 : list Z -> Z) (v : rvalue) : option Z :=
  match v with JNum t => Some (to_int64 t) | JStr raw _ => Some (to_int64 raw) | _ => None end.

(** The order that [std::sort] establishes, by the comparison of [Pred]. *)
Class KeySort (sort : list (list Z * rvalue) -> list (list Z * rvalue)) : Prop := {
  sort_perm : forall o, Permutation (sort o) o;
  sort_sorted : forall o, StronglySorted (fun a b => key_compare (fst a) (fst b) <> Gt) (sort o) }.

Lemma i8_inj a b : byte a -> byte b -> i8 a = i8 b -> a = b.
Proof. unfold byte, i8. change (2 ^ 7) with 128. change (2 ^ 8) with 256. intros. Z.div_mod_to_equations. lia. Qed.

Lemma key_compare_eq a b : Forall byte a -> Forall byte b -> key_compare a b = Eq <-> a = b.
Proof.
  intros Ha Hb. unfold key_compare. rewrite lex_eq. split; [|congruence]. revert b Hb.
  induction Ha as [|x a Hx _ IH]; intros [|y b] Hb E; try discriminate; [reflexivity|].
  inversion Hb; subst. cbn [map] in E. injection E as E1 E2. f_equal; [now apply i8_inj|now apply IH].
Qed.

Lemma key_equal_eq a b : key_equal a b = true <-> a = b.
Proof. unfold key_equal. rewrite <- lex_eq. destruct (lex a b); split; congruence. Qed.

(** The reference: the member with this key. *)
Definition assoc (o : list (list Z * rvalue)) (key : list Z) : option rvalue :=
  option_map snd (find (fun m => key_equal (fst m) key) o).

Lemma assoc_in o key v : NoDup (map fst o) -> assoc o key = Some v <-> In (key, v) o.
Proof.
  induction o as [|[k w] o IH]; cbn [map fst]; intros Hd; [split; [discriminate|contradiction]|].
  inversion Hd as [|? ? Hk Hd']; subst. unfold assoc in *. cbn [find fst]. destruct (key_equal k key) eqn:E.
  - apply key_equal_eq in E as ->. cbn [option_map snd In]. split; [intros H; injection H as ->; auto|].
    intros [H|H]; [injection H as ->; reflexivity|]. elim Hk. apply in_map_iff. exists (key, v). auto.
  - rewrite (IH Hd'). cbn [In]. split; [auto|]. intros [H|H]; [|exact H]. injection H as -> ->.
    assert (key_equal key key = true) by now apply key_equal_eq. congruence.
Qed.

Lemma sorted_lower_bound o key v : StronglySorted (fun a b => key_compare (fst a) (fst b) <> Gt) o ->
  Forall (fun m => Forall byte (fst m)) o -> Forall byte key -> NoDup (map fst o) -> In (key, v) o -> lower_bound o key = Some (key, v).
Proof.
  intros Hs Hb Hk Hd Hin. unfold lower_bound. induction Hs as [|[k w] o Hs IH Hall]; [contradiction|].
  cbn [map fst] in Hd. inversion Hd as [|? ? Hkn Hd']; subst. inversion Hb as [|? ? Hbk Hb']; subst. cbn [find fst] in *.
  destruct Hin as [E|Hin].
  - injection E as -> ->. unfold key_less. replace (key_compare key key) with Eq by (symmetry; now apply key_compare_eq). reflexivity.
  - rewrite Forall_forall in Hall. specialize (Hall _ Hin). cbn [fst] in Hall. unfold key_less.
    destruct (key_compare k key) eqn:E; [|now apply IH|congruence].
    apply key_compare_eq in E as ->; auto. elim Hkn. apply in_map_iff. exists (key, v). auto.
Qed.

Lemma member_assoc sort `{HS : KeySort sort} o key :
  Forall (fun m => Forall byte (fst m)) o -> Forall byte key -> NoDup (map fst o) ->
  member sort o key = assoc o key.
Proof.
  intros Hb Hk Hd. pose proof (sort_perm o) as Hp.
  assert (Hb' : Forall (fun m => Forall byte (fst m)) (sort o)) by (eapply Permutation_Forall; [symmetry; exact Hp|exact Hb]).
  assert (Hd' : NoDup (map fst (sort o))) by (eapply Permutation_NoDup; [apply Permutation_map; symmetry; exact Hp|exact Hd]).
  unfold member. destruct (assoc o key) as [v|] eqn:E.
  - apply assoc_in in E; [|exact Hd]. rewrite (sorted_lower_bound (sort o) key v); auto using sort_sorted.
    + now replace (key_equal key key) with true by (symmetry; now apply key_equal_eq).
    + eapply Permutation_in; [symmetry; exact Hp|exact E].
  - destruct (lower_bound (sort o) key) as [[k v]|] eqn:El; [|reflexivity]. destruct (key_equal k key) eqn:Ek; [exfalso|reflexivity].
    apply key_equal_eq in Ek as ->. apply find_some in El as [Hin _]. assert (assoc o key = Some v); [|congruence].
    apply assoc_in; [exact Hd|]. eapply Permutation_in; [exact Hp|exact Hin].
Qed.

(** Looking up a member.  In an object whose keys are distinct strings of
    bytes, [operator[]] and [has], which sort the members and search them by
    [lower_bound], find exactly the member with that key, whichever way
    [std::sort] orders them. *)
Theorem json_member sort (HS : KeySort sort) o key :
  Forall (fun m => Forall byte (fst m)) o -> Forall byte key -> NoDup (map fst o) ->
  member sort o key = assoc o key.
Proof. intros Hb Hk Hd. now apply member_assoc. Qed.

(** Insertion sort is such a sort. *)
Fixpoint insert_member (m : list Z * rvalue) (o : list (list Z * rvalue)) : list (list Z * rvalue) :=
  match o with
  | [] => [m]
  | x :: o' => if key_less (fst x) (fst m) then x :: insert_member m o' else m :: o
  end.
Definition insertion_sort (o : list (list Z * rvalue)) : list (list Z * rvalue) := fold_right insert_member [] o.

Lemma lex_trans a b c : lex a b <> Gt -> lex b c <> Gt -> lex a c <> Gt.
Proof.
  revert b c. induction a as [|x a IH]; intros [|y b] [|z c]; cbn [lex]; try congruence; try discriminate.
  destruct (Z.compare_spec x y), (Z.compare_spec y z); try congruence; intros H1 H2; destruct (Z.compare_spec x z); try lia; try discriminate.
  eapply IH; eassumption.
Qed.

#[export] Instance insertion_key_sort : KeySort insertion_sort.
Proof.
  assert (Hp : forall m o, Permutation (insert_member m o) (m :: o)).
  { intros m o. induction o as [|x o IH]; cbn [insert_member]; [reflexivity|]. destruct (key_less _ _); [|reflexivity]. rewrite IH. apply perm_swap. }
  split; intros o.
  - induction o as [|m o IH]; cbn [insertion_sort fold_right]; [reflexivity|]. fold (insertion_sort o). now rewrite Hp, IH.
  - induction o as [|m o IH]; cbn [insertion_sort fold_right]; [constructor|]. fold (insertion_sort o). induction IH as [|x s Hs IHs Hall]; cbn [insert_member]; [repeat constructor|].
    destruct (key_less (fst x) (fst m)) eqn:E; unfold key_less in E.
    + constructor; [exact IHs|]. eapply Permutation_Forall; [symmetry; apply Hp|]. constructor; [destruct (key_compare (fst x) (fst m)); congruence|exact Hall].
    + assert (Hmx : key_compare (fst m) (fst x) <> Gt).
      { unfold key_compare in *. rewrite lex_antisym. destruct (lex (map i8 (fst x)) (map i8 (fst m))); cbn; congruence. }
      constructor; [constructor; assumption|]. constructor; [exact Hmx|]. eapply Forall_impl; [|exact Hall].
      intros y Hy. unfold key_compare in *. eapply lex_trans; eassumption.
Qed.

Lemma json_member_witness : member insertion_sort [([98], JTrue); ([97], JNull)] [97] = Some JNull.
Proof.
  rewrite (json_member insertion_sort insertion_key_sort [([98], JTrue); ([97], JNull)] [97]); [reflexivity|..].
  - repeat constructor; unfold byte; cbn [fst]; repeat constructor; lia.
  - repeat constructor; unfold byte; lia.
  - repeat constructor; cbn [In map fst]; intuition discriminate.
Defined.
