(* ===== verification/JsonTypes.v ===== *)
(** * JsonTypes: what the JSON reader returns

    The values that [load] of [src/include/crow.h] returns are well typed:
    numbers are texts of a grammar, strings have complete escapes and a flag
    that is right, nesting is bounded.  This is what the accessors rely on:
    [unescape] decodes a string in place, without passing its end. *)

From Stdlib Require Import String.
From Stdlib Require Import ZArith List Lia Bool Permutation Sorted.
Import ListNotations.
From S2P Require Import Prelude Json.
#[local] Open Scope Z_scope.

(** ** Strings *)

(** A string as it is written, without its quotes. *)
Inductive escaped : list Z -> Prop :=
| escaped_nil : escaped []
| escaped_char c s : c <> 34 -> c <> 92 -> c <> 0 -> escaped s -> escaped (c :: s)
| escaped_simple e s : is_escape e = true -> escaped s -> escaped (92 :: e :: s)
| escaped_unicode h1 h2 h3 h4 s : is_hex h1 = true -> is_hex h2 = true -> is_hex h3 = true -> is_hex h4 = true -> escaped s ->
    escaped (92 :: 117 :: h1 :: h2 :: h3 :: h4 :: s).

Definition flagged (raw : list Z) (e : bool) : Prop := escaped raw /\ e = existsb (Z.eqb 92) raw /\ Forall byte raw.
(** A result and what is left, all bytes. *)
Definition kept {A} (P : A -> Prop) (a : A) (rest : list Z) : Prop := P a /\ Forall byte rest.

Lemma ws_skip_bytes l : Forall byte l -> Forall byte (ws_skip l).
Proof. induction 1 as [|c l Hc Hl IH]; cbn [ws_skip]; [constructor|]. destruct (is_ws c); [exact IH|now constructor]. Qed.
Lemma consume_bytes c l l' : consume c l = Some l' -> Forall byte l -> Forall byte l'.
Proof. destruct l as [|x l]; cbn [consume]; [discriminate|]. destruct (x =? c); [|discriminate]. intros [= <-]. now inversion 1. Qed.
Lemma tl_bytes l : Forall byte l -> Forall byte (tl l).
Proof. destruct 1; [constructor|assumption]. Qed.
Create HintDb json.
#[export] Hint Resolve ws_skip_bytes consume_bytes tl_bytes : json.

Lemma string_body_flagged n : forall l s e rest, (length l <= n)%nat -> Forall byte l -> string_body l = Some (s, e, rest) ->
  flagged s e /\ Forall byte rest.
Proof.
  induction n as [|n IH]; intros l s e rest Hn Hb; (destruct Hb as [|c l Hc Hl]; [discriminate|]; cbn [length] in Hn); [lia|]. cbn [string_body].
  destruct (negb (c =? 34) && negb (c =? 92) && negb (c =? 0)) eqn:Ec.
  { rewrite !andb_true_iff, !negb_true_iff, !Z.eqb_neq in Ec. destruct Ec as [[A B] C].
    destruct (string_body l) as [[[s' e'] rest']|] eqn:E; [|discriminate]. intros [= <- <- <-].
    destruct (IH l s' e' rest' ltac:(lia) Hl E) as [(H1 & -> & H3) H4]. repeat split; [now constructor| |now constructor|exact H4].
    cbn [existsb]. now rewrite (eqb_false 92 c) by congruence. }
  destruct (c =? 34); [intros [= <- <- <-]; repeat split; (constructor || assumption)|]. destruct (Z.eqb_spec c 92) as [->|]; [|discriminate].
  destruct Hl as [|x l Hx Hl]; [discriminate|]. destruct (Z.eqb_spec x 117) as [->|].
  - destruct Hl as [|h1 ? B1 [|h2 ? B2 [|h3 ? B3 [|h4 l' B4 Hl]]]]; try discriminate.
    destruct (is_hex h1 && is_hex h2 && is_hex h3 && is_hex h4) eqn:Eh; [|discriminate].
    rewrite !andb_true_iff in Eh. destruct Eh as [[[A B] C] D].
    destruct (string_body l') as [[[s' e'] rest']|] eqn:E; [|discriminate]. intros [= <- <- <-].
    cbn [length] in Hn. destruct (IH l' s' e' rest' ltac:(lia) Hl E) as [(H1 & _ & H3) H4].
    repeat split; [now constructor|repeat (constructor; [assumption|]); exact H3|exact H4].
  - destruct (is_escape x) eqn:Ex; [|discriminate]. destruct (string_body l) as [[[s' e'] rest']|] eqn:E; [|discriminate]. intros [= <- <- <-].
    cbn [length] in Hn. destruct (IH l s' e' rest' ltac:(lia) Hl E) as [(H1 & _ & H3) H4].
    repeat split; [now constructor|repeat (constructor; [assumption|]); exact H3|exact H4].
Qed.

Lemma decode_string_flagged l s e rest : Forall byte l -> decode_string l = Ok (s, e) rest -> flagged s e /\ Forall byte rest.
Proof.
  intros Hl. unfold decode_string. destruct (consume 34 l) as [l'|] eqn:Ec; [|discriminate].
  destruct (string_body l') as [[[s' e'] rest']|] eqn:E; [|discriminate]. intros [= <- <- <-].
  apply (string_body_flagged (length l') l' s' e' rest'); eauto with json.
Qed.

Lemma u8_byte z : byte (u8 z).
Proof. apply Z.mod_pos_bound. reflexivity. Qed.
Lemma utf8_of_code_bytes code : Forall byte (utf8_of_code code).
Proof. unfold utf8_of_code. destruct (_ <=? _); [|destruct (_ <=? _)]; repeat (constructor; [apply u8_byte|]); constructor. Qed.
Lemma unescape_char_bytes c : Forall byte (unescape_char c).
Proof. unfold unescape_char. repeat (destruct (_ =? _); [repeat constructor; discriminate|]). constructor. Qed.
Lemma unescape_bytes raw e : flagged raw e -> Forall byte (unescape raw e).
Proof.
  intros (Hr & _ & Hb). destruct e; [|exact Hb]. cbn [unescape].
  induction Hr as [|c s H34 H92 H0 _ IH|e s He _ IH|h1 h2 h3 h4 s _ _ _ _ _ IH]; [constructor|..].
  - cbn [unescape_loop]. rewrite (eqb_false c 92) by assumption. inversion Hb; subst. constructor; auto.
  - cbn [unescape_loop Z.eqb Pos.eqb]. replace (e =? 117) with false by (symmetry; apply Z.eqb_neq; intros ->; discriminate He).
    inversion Hb as [|? ? _ Hb1]; subst. inversion Hb1; subst. apply Forall_app. split; [apply unescape_char_bytes|auto].
  - cbn [unescape_loop Z.eqb Pos.eqb]. apply Forall_app. split; [apply utf8_of_code_bytes|]. apply IH. now do 6 (inversion Hb as [|? ? _ Hb']; subst; clear Hb; rename Hb' into Hb).
Qed.

Lemma utf8_of_code_length code : (length (utf8_of_code code) <= 3)%nat.
Proof. unfold utf8_of_code. destruct (_ <=? _); [auto|]. destruct (_ <=? _); cbn [length]; lia. Qed.
Lemma unescape_char_length c : (length (unescape_char c) <= 1)%nat.
Proof. unfold unescape_char. repeat (destruct (_ =? _); [cbn [length]; lia|]). cbn [length]. lia. Qed.

(** Where the writing head is when the reading head has passed a prefix: never
    ahead of it. *)
Lemma unescape_loop_length raw : escaped raw -> (length (unescape_loop raw) <= length raw)%nat.
Proof.
  induction 1 as [|c s H34 H92 H0 _ IH|e s He _ IH|h1 h2 h3 h4 s _ _ _ _ _ IH]; [auto|..].
  - cbn [unescape_loop]. rewrite (eqb_false c 92) by assumption. cbn [length]. lia.
  - cbn [unescape_loop Z.eqb Pos.eqb]. replace (e =? 117) with false by (symmetry; apply Z.eqb_neq; intros ->; discriminate He).
    rewrite length_app. pose proof (unescape_char_length e). cbn [length]. lia.
  - cbn [unescape_loop Z.eqb Pos.eqb]. rewrite length_app. match goal with |- context [utf8_of_code ?x] => pose proof (utf8_of_code_length x) end.
    cbn [length]. lia.
Qed.

Lemma unescape_length raw e : escaped raw -> (length (unescape raw e) <= length raw)%nat.
Proof. destruct e; [apply unescape_loop_length|auto]. Qed.

(** ** Numbers *)

(** What may follow in each state: the grammar of the numbers from there on. *)
Definition exponent_text (t : list Z) : Prop := exists s ds, t = s :: ds /\ (s = 43 \/ s = 45 \/ is_digit s = true) /\ digits ds.
Definition tail_text (fraction : bool) (t : list Z) : Prop :=
  exists ds u, t = ds ++ u /\ digits ds /\
    (u = [] \/ (exists e x, u = e :: x /\ (e = 101 \/ e = 69) /\ exponent_text x) \/
     (fraction = true /\ exists f v, u = 46 :: f ++ v /\ digits f /\ (v = [] \/ exists e x, v = e :: x /\ (e = 101 \/ e = 69) /\ exponent_text x))).
Definition zero_text (t : list Z) : Prop := t = [] \/ exists u, t = 46 :: u /\ tail_text false u.
Definition unsigned_text (t : list Z) : Prop :=
  (exists u, t = 48 :: u /\ zero_text u) \/ (exists c u, t = c :: u /\ is_digit19 c = true /\ tail_text true u).
(** The grammar: an optional minus, an integer without leading zeros, a
    fraction that may be empty, an exponent (not directly after a zero). *)
Definition read_number (t : list Z) : Prop := unsigned_text t \/ exists u, t = 45 :: u /\ unsigned_text u.

Definition residual (state : NumberParsingState) (t : list Z) : Prop :=
  match state with
  | Minus => read_number t
  | AfterMinus => unsigned_text t
  | ZeroFirst => zero_text t
  | Digits => tail_text true t
  | DigitsAfterPoints => tail_text false t
  | NE => exponent_text t
  | DigitsAfterE => digits t
  | Invalid => False
  end.

Lemma residual_nil state : accepting state = true -> residual state [].
Proof.
  destruct state; cbn [accepting residual]; try discriminate; intros _.
  - now left.
  - exists [], []. repeat split; auto. constructor.
  - exists [], []. repeat split; auto. constructor.
  - constructor.
Qed.

Lemma tail_digit fraction c t : is_digit c = true -> tail_text fraction t -> tail_text fraction (c :: t).
Proof. intros Hc (ds & u & -> & Hd & H). exists (c :: ds), u. repeat split; [now constructor|exact H]. Qed.
Lemma tail_exponent fraction e t : e = 101 \/ e = 69 -> exponent_text t -> tail_text fraction (e :: t).
Proof. intros He Ht. exists [], (e :: t). repeat split; [constructor|]. right; left. now exists e, t. Qed.
Lemma tail_point t : tail_text false t -> tail_text true (46 :: t).
Proof.
  intros (ds & u & -> & Hd & H). exists [], (46 :: ds ++ u). repeat split; [constructor|]. right; right. split; [reflexivity|].
  exists ds, u. destruct H as [H|[H|[[=] _]]]; auto.
Qed.

Lemma residual_digit state c t : in_digits state = true -> is_digit c = true -> residual state t -> residual state (c :: t).
Proof. destruct state; cbn [in_digits residual]; try discriminate; intros _ Hc; [now apply tail_digit..|now constructor]. Qed.

(** One character. *)
Lemma residual_cons state c state' t : transition state c = Some state' -> state' <> Invalid -> residual state' t -> residual state (c :: t).
Proof.
  unfold transition. destruct (Z.eqb_spec c 48) as [->|N0].
  { intros [= <-]. destruct state; try congruence; cbn [residual]; intros _ H.
    - left. left. now exists t.
    - left. now exists t.
    - now apply tail_digit.
    - now apply tail_digit.
    - exists 48, t. auto.
    - now constructor. }
  destruct (is_digit19 c) eqn:E19.
  { assert (Hc : is_digit c = true) by (unfold is_digit, is_digit19 in *; lia).
    intros [= <-]. destruct state; try congruence; cbn [residual]; intros _ H.
    - left. right. now exists c, t.
    - right. now exists c, t.
    - now apply tail_digit.
    - now apply tail_digit.
    - exists c, t. auto.
    - now constructor. }
  destruct (Z.eqb_spec c 46) as [->|N46].
  { intros [= <-]. destruct state; try congruence; cbn [residual]; intros _ H; [right; now exists t|now apply tail_point]. }
  destruct (Z.eqb_spec c 45) as [->|N45].
  { intros [= <-]. destruct state; try congruence; cbn [residual]; intros _ H; [right; now exists t|exists 45, t; auto]. }
  destruct (Z.eqb_spec c 43) as [->|N43].
  { intros [= <-]. destruct state; try congruence; cbn [residual]; intros _ H; exists 43, t; auto. }
  destruct ((c =? 101) || (c =? 69)) eqn:Ee; [|discriminate]. rewrite orb_true_iff, !Z.eqb_eq in Ee.
  intros [= <-]. destruct state; try congruence; cbn [residual]; intros _ H; now apply tail_exponent.
Qed.

Lemma number_loop_residual l : forall state run t rest, (run = true -> in_digits state = true) ->
  number_loop state run l = Some (t, rest) -> residual state t.
Proof.
  induction l as [|c l IH]; intros state run t rest Hr; cbn [number_loop].
  { destruct (accepting state) eqn:Ea; [|discriminate]. intros [= <- <-]. now apply residual_nil. }
  destruct (run && is_digit c) eqn:Ed.
  { apply andb_true_iff in Ed as [-> Hc]. destruct (number_loop state true l) as [[t' rest']|] eqn:E; [|discriminate]. intros [= <- <-].
    apply residual_digit; auto. now apply (IH state true t' rest'). }
  destruct (transition state c) as [state'|] eqn:Et.
  - assert (Hi : is_digit19 c = true -> state' <> Invalid -> in_digits state' = true).
    { intros H19. unfold transition in Et. rewrite H19 in Et. replace (c =? 48) with false in Et by (unfold is_digit19 in H19; lia).
      intros Hs. destruct state; injection Et as <-; try reflexivity; now elim Hs. }
    destruct (number_loop state' (is_digit19 c) l) as [[t' rest']|] eqn:E.
    + intros H. assert (Hs : state' <> Invalid /\ t = c :: t') by (destruct state'; try discriminate H; split; congruence).
      destruct Hs as [Hs ->]. apply (residual_cons state c state' t' Et Hs). apply (IH state' (is_digit19 c) t' rest'); auto.
    + destruct state'; discriminate.
  - destruct (accepting state) eqn:Ea; [|discriminate]. intros [= <- <-]. now apply residual_nil.
Qed.

Lemma decode_number_read l v rest : Forall byte l -> decode_number l = Ok v rest -> (exists t, v = JNum t /\ read_number t) /\ Forall byte rest.
Proof.
  intros Hl. unfold decode_number. destruct (number_loop Minus false l) as [[t rest']|] eqn:E; [|discriminate]. intros [= <- <-].
  split; [|apply number_loop_app in E as [-> _]; now apply Forall_app in Hl].
  exists t. split; [reflexivity|]. apply (number_loop_residual l Minus false t rest'); [discriminate|exact E].
Qed.

(** ** Values *)

Inductive typed : rvalue -> Prop :=
| typed_null : typed JNull
| typed_false : typed JFalse
| typed_true : typed JTrue
| typed_num t : read_number t -> typed (JNum t)
| typed_str raw e : flagged raw e -> typed (JStr raw e)
| typed_list l : Forall typed l -> typed (JList l)
| typed_obj l : Forall (fun kv => (exists raw e, flagged raw e /\ fst kv = unescape raw e) /\ typed (snd kv)) l -> typed (JObj l).

Fixpoint nesting (v : rvalue) : Z :=
  match v with
  | JList l => 1 + fold_right Z.max 0 (map nesting l)
  | JObj l => 1 + fold_right Z.max 0 (map (fun kv => nesting (snd kv)) l)
  | _ => 0
  end.
Definition fits (depth : Z) (v : rvalue) : Prop := typed v /\ (nesting v = 0 \/ depth + 2 * nesting v <= 10001).

Lemma max_fits {A} (f : A -> Z) depth l : Forall (fun x => f x = 0 \/ depth + 2 * f x <= 10001) l ->
  fold_right Z.max 0 (map f l) = 0 \/ depth + 2 * fold_right Z.max 0 (map f l) <= 10001.
Proof. induction 1 as [|x l Hx _ IH]; cbn [map fold_right]; lia. Qed.

Lemma list_fits depth l : depth + 1 <= 10000 -> Forall (fits (depth + 2)) l -> fits depth (JList l).
Proof.
  intros Hd H. split; [constructor; eapply Forall_impl; [|exact H]; now intros v []|]. right. cbn [nesting].
  assert (Hm : Forall (fun x => nesting x = 0 \/ depth + 2 + 2 * nesting x <= 10001) l) by (eapply Forall_impl; [|exact H]; now intros v []).
  apply max_fits in Hm. lia.
Qed.

Definition member_fits (depth : Z) (kv : list Z * rvalue) : Prop :=
  (exists raw e, flagged raw e /\ fst kv = unescape raw e) /\ fits depth (snd kv).
Lemma object_fits depth l : depth + 1 <= 10000 -> Forall (member_fits (depth + 2)) l -> fits depth (JObj l).
Proof.
  intros Hd H. split; [constructor; eapply Forall_impl; [|exact H]; now intros v [? []]|]. right. cbn [nesting].
  assert (Hm : Forall (fun kv => nesting (snd kv) = 0 \/ depth + 2 + 2 * nesting (snd kv) <= 10001) l) by (eapply Forall_impl; [|exact H]; now intros v [_ []]).
  apply (max_fits (fun kv => nesting (snd kv))) in Hm. lia.
Qed.

Lemma bind_ok {A B} (r : res A) (k : A -> list Z -> res B) b rest : bind r k = Ok b rest -> exists a l, r = Ok a l /\ k a l = Ok b rest.
Proof. destruct r as [a l| |]; cbn [bind]; try discriminate. intros H. now exists a, l. Qed.

Lemma literal_fits w u depth l v rest : typed u -> nesting u = 0 -> Forall byte l -> literal w u l = Ok v rest -> kept (fits depth) v rest.
Proof.
  unfold literal. destruct (starts_with w l) as [l'|] eqn:E; [|discriminate]. intros Hu Hn Hl [= <- <-]. split; [split; auto|].
  apply starts_with_app in E as ->. now apply Forall_app in Hl.
Qed.

Lemma decode_fits fuel :
  (forall depth l v rest, Forall byte l -> decode_value fuel depth l = Ok v rest -> kept (fits depth) v rest) /\
  (forall depth l vs rest, Forall byte l -> decode_items fuel depth l = Ok vs rest -> kept (Forall (fits (depth + 1))) vs rest) /\
  (forall depth l kvs rest, Forall byte l -> decode_members fuel depth l = Ok kvs rest -> kept (Forall (member_fits (depth + 1))) kvs rest).
Proof.
  induction fuel as [|fuel (IHv & IHi & IHm)]; [repeat split; discriminate|]. split; [|split]; intros depth l v rest Hl.
  - cbn [decode_value]. destruct (peek l =? 91).
    { destruct (consume 91 l) as [l1|] eqn:E1; [|discriminate]. destruct (Z.ltb_spec max_depth (depth + 1)) as [|Hd]; [discriminate|]. cbn zeta.
      change max_depth with 10000 in Hd.
      destruct (peek (ws_skip l1) =? 93); [intros [= <- <-]; split; [apply list_fits; [exact Hd|constructor]|eauto with json]|].
      intros (vs & l2 & E & [= <- <-])%bind_ok. apply IHi in E as [E Hr]; [|eauto with json]. split; [|exact Hr].
      apply list_fits; [exact Hd|]. replace (depth + 2) with (depth + 1 + 1) by lia. exact E. }
    destruct (peek l =? 123).
    { destruct (consume 123 l) as [l1|] eqn:E1; [|discriminate]. destruct (Z.ltb_spec max_depth (depth + 1)) as [|Hd]; [discriminate|]. cbn zeta.
      change max_depth with 10000 in Hd.
      destruct (peek (ws_skip l1) =? 125); [intros [= <- <-]; split; [apply object_fits; [exact Hd|constructor]|eauto with json]|].
      intros (vs & l2 & E & [= <- <-])%bind_ok. apply IHm in E as [E Hr]; [|eauto with json]. split; [|exact Hr].
      apply object_fits; [exact Hd|]. replace (depth + 2) with (depth + 1 + 1) by lia. exact E. }
    destruct (peek l =? 34).
    { intros ([s e] & l2 & E & [= <- <-])%bind_ok. apply decode_string_flagged in E as [E Hr]; [|exact Hl]. split; [split; [now constructor|now left]|exact Hr]. }
    destruct (peek l =? 116); [apply literal_fits; [constructor|reflexivity|exact Hl]|].
    destruct (peek l =? 102); [apply literal_fits; [constructor|reflexivity|exact Hl]|].
    destruct (peek l =? 110); [apply literal_fits; [constructor|reflexivity|exact Hl]|].
    intros ((t & -> & Ht) & Hr)%decode_number_read; [|exact Hl]. split; [split; [now constructor|now left]|exact Hr].
  - cbn [decode_items]. intros (x & l1 & E & H)%bind_ok. apply IHv in E as [E Hl1]; [|exact Hl]. cbn zeta in H.
    destruct (peek (ws_skip l1) =? 93); [injection H as <- <-; split; [constructor; [assumption|constructor]|auto with json]|].
    destruct (consume 44 (ws_skip l1)) as [l2|] eqn:E2; [|discriminate]. apply bind_ok in H as (vs & l3 & E' & [= <- <-]).
    apply IHi in E' as [E' Hr]; [|eauto with json]. split; [now constructor|exact Hr].
  - cbn [decode_members]. intros ([s e] & l1 & E & H)%bind_ok. apply decode_string_flagged in E as [E Hl1]; [|exact Hl].
    destruct (consume 58 (ws_skip l1)) as [l2|] eqn:E2; [|discriminate]. cbn zeta in H. apply bind_ok in H as (x & l3 & Ex & H).
    apply IHv in Ex as [Ex Hl3]; [|eauto with json].
    assert (Hx : member_fits (depth + 1) (unescape s e, x)) by (split; [now exists s, e|exact Ex]).
    destruct (peek (ws_skip l3) =? 125); [injection H as <- <-; split; [constructor; [assumption|constructor]|auto with json]|].
    destruct (consume 44 (ws_skip l3)) as [l4|] eqn:E4; [|discriminate]. apply bind_ok in H as (vs & l5 & E' & [= <- <-]).
    apply IHm in E' as [E' Hr]; [|eauto with json]. split; [now constructor|exact Hr].
Qed.

Lemma load_typed data v : Forall byte data -> load data = Some v -> fits 0 v.
Proof.
  unfold load, parse. intros Hb H. destruct (decode_value (load_fuel data) 0 (ws_skip data)) as [u l| |] eqn:E; cbn [bind] in H; try discriminate.
  destruct (peek (ws_skip l) =? 0); [|discriminate]. injection H as ->. destruct (decode_fits (load_fuel data)) as [Hv _].
  apply Hv in E as [E _]; [exact E|auto with json].
Qed.

(** The strings of a loaded value are bytes. *)
Lemma str_bytes v s : typed v -> str v = Some s -> Forall byte s.
Proof. destruct 1 as [| | | |raw e Hf| |]; try discriminate. intros [= <-]. now apply unescape_bytes. Qed.

Lemma member_typed sort `{HS : KeySort sort} o key v : typed (JObj o) -> member sort o key = Some v -> typed v.
Proof.
  intros Ht. unfold member. destruct (lower_bound (sort o) key) as [[k w]|] eqn:E; [|discriminate]. destruct (key_equal k key); [|discriminate].
  intros [= ->]. apply find_some in E as [Hin _]. apply (Permutation_in _ (sort_perm o)) in Hin.
  inversion Ht as [| | | | | |? Hl]; subst. rewrite Forall_forall in Hl. exact (proj2 (Hl _ Hin)).
Qed.

Lemma index_typed sort `{HS : KeySort sort} v key u : typed v -> index sort v key = Some u -> typed u.
Proof. destruct v; try discriminate. intros Ht. cbn [index]. now apply (member_typed sort). Qed.

(** C34: what the JSON reader returns is well typed, for every text: each
    number is a text of the grammar, each string is made of bytes and has complete
    escapes and the
    flag that says whether it has any, each key is the decoding of such a
    string, and values are nested at most 5000 deep (the limit of 10000 counts
    every level twice).  Decoding such a string in place writes no more bytes
    than it reads, so it stays inside the string. *)
Theorem json_load_typed data v : Forall byte data -> load data = Some v ->
  typed v /\ nesting v <= 5000 /\ (forall raw e, typed (JStr raw e) -> (length (unescape raw e) <= length raw)%nat).
Proof.
  intros Hb H. destruct (load_typed data v Hb H) as [Ht Hn]. split; [exact Ht|]. split; [lia|].
  intros raw e He. inversion He as [| | | |? ? [Hr _]| |]; subst. now apply unescape_length.
Qed.

Lemma json_load_typed_witness : load (txt "[-0.5e+3,{}]") = Some (JList [JNum (txt "-0.5e+3"); JObj []]) /\ nesting (JList [JNum (txt "-0.5e+3"); JObj []]) <= 5000.
Proof.
  assert (H : load (txt "[-0.5e+3,{}]") = Some (JList [JNum (txt "-0.5e+3"); JObj []])) by reflexivity.
  assert (Hb : Forall byte (txt "[-0.5e+3,{}]")) by (vm_compute; repeat constructor; discriminate).
  split; [exact H|]. destruct (json_load_typed _ _ Hb H) as (_ & Hn & _). exact Hn.
Defined.
