(* ===== verification/Bits.v ===== *)
(** * Bits: deciding equations between masked and shifted bytes

    The decoders of [src/api-core/src/db/sqlite3.c] (varints, big-endian
    integers, UTF-8) assemble integers from bytes with [&] by a constant mask,
    [|], [<<], [>>] and truncation to a machine width.  This file holds a
    reflexive decision procedure for equations between such expressions: each
    bit of the result is a disjunction of input bits, which is computed and
    compared.  The tactic is [bitwise]. *)

From Stdlib Require Import ZArith List Lia Bool Btauto.
Import ListNotations.
From S2P Require Import Prelude.
#[local] Open Scope Z_scope.

(** Expressions over byte variables. *)
Inductive bx : Set :=
| BVar (i : nat)
| BCst (c : Z)
| BAnd (a : bx) (c : Z)
| BOr (a b : bx)
| BShl (a : bx) (k : Z)
| BShr (a : bx) (k : Z)
| BMod (a : bx) (k : Z).

Section Denotation.
Variable env : list Z.
Definition var (i : nat) : Z := nth i env 0.

Fixpoint denote (e : bx) : Z :=
  match e with
  | BVar i => var i
  | BCst c => c
  | BAnd a c => Z.land (denote a) c
  | BOr a b => Z.lor (denote a) (denote b)
  | BShl a k => Z.shiftl (denote a) k
  | BShr a k => Z.shiftr (denote a) k
  | BMod a k => denote a mod 2 ^ k
  end.

(** Bit [n] of an expression: a constant and a list of input bits whose
    disjunction it is. *)
Fixpoint obits (e : bx) (n : Z) : bool * list (nat * Z) :=
  match e with
  | BVar i => (false, if n <? 8 then [(i, n)] else [])
  | BCst c => (Z.testbit c n, [])
  | BAnd a c => if Z.testbit c n then obits a n else (false, [])
  | BOr a b => let (ca, la) := obits a n in let (cb, lb) := obits b n in (ca || cb, la ++ lb)
  | BShl a k => if n <? k then (false, []) else obits a (n - k)
  | BShr a k => obits a (n + k)
  | BMod a k => if n <? k then obits a n else (false, [])
  end.

Definition bits_true (r : bool * list (nat * Z)) : bool :=
  fst r || existsb (fun im => Z.testbit (var (fst im)) (snd im)) (snd r).

(** Constants are natural numbers and shift amounts are not negative. *)
Fixpoint wf (e : bx) : bool :=
  match e with
  | BVar _ => true
  | BCst c => 0 <=? c
  | BAnd a c => wf a && (0 <=? c)
  | BOr a b => wf a && wf b
  | BShl a k | BShr a k | BMod a k => wf a && (0 <=? k)
  end.

(** Every bit from [width e] on is clear. *)
Fixpoint width (e : bx) : Z :=
  match e with
  | BVar _ => 8
  | BCst c => Z.log2 c + 1
  | BAnd a _ => width a
  | BOr a b => Z.max (width a) (width b)
  | BShl a k => width a + k
  | BShr a k => width a
  | BMod a k => width a
  end.

Hypothesis env_bytes : bytes env.

Lemma var_u8 i : is_u8 (var i).
Proof.
  unfold var. destruct (nth_in_or_default i env 0) as [H|H].
  - unfold bytes in env_bytes. rewrite Forall_forall in env_bytes. auto.
  - rewrite H. unfold is_u8. lia.
Qed.

Lemma obits_sound e : wf e = true -> forall n, 0 <= n ->
  Z.testbit (denote e) n = bits_true (obits e n).
Proof.
  unfold bits_true. induction e; cbn [wf denote obits]; intros Hwf m Hm;
    rewrite ?andb_true_iff, ?Z.leb_le in Hwf.
  - destruct (Z.ltb_spec m 8); cbn; rewrite ?orb_false_r; [reflexivity|].
    apply byte_testbit_high; [apply var_u8|lia].
  - cbn. now rewrite orb_false_r.
  - rewrite Z.land_spec, IHe by tauto.
    destruct (Z.testbit c m); [apply andb_true_r|apply andb_false_r].
  - rewrite Z.lor_spec, IHe1, IHe2 by tauto.
    destruct (obits e1 m), (obits e2 m); cbn. rewrite existsb_app. btauto.
  - rewrite Z.shiftl_spec by lia. destruct (Z.ltb_spec m k).
    + now rewrite Z.testbit_neg_r by lia.
    + now rewrite IHe by (tauto || lia).
  - rewrite Z.shiftr_spec by lia. now rewrite IHe by (tauto || lia).
  - destruct (Z.ltb_spec m k).
    + rewrite Z.mod_pow2_bits_low by lia. now rewrite IHe by tauto.
    + now rewrite Z.mod_pow2_bits_high by lia.
Qed.

Lemma width_sound e : wf e = true -> forall n, width e <= n -> 0 <= n ->
  Z.testbit (denote e) n = false.
Proof.
  induction e; cbn [wf denote width]; intros Hwf m Hm H0;
    rewrite ?andb_true_iff, ?Z.leb_le in Hwf.
  - apply byte_testbit_high; [apply var_u8|lia].
  - apply Z.bits_above_log2; lia.
  - rewrite Z.land_spec, IHe by (tauto || lia). reflexivity.
  - rewrite Z.lor_spec, IHe1, IHe2 by (tauto || lia). reflexivity.
  - rewrite Z.shiftl_spec by lia. destruct (Z_lt_ge_dec m k).
    + now rewrite Z.testbit_neg_r by lia.
    + apply IHe; [tauto|lia|lia].
  - rewrite Z.shiftr_spec by lia. apply IHe; [tauto|lia|lia].
  - destruct (Z_lt_ge_dec m k).
    + rewrite Z.mod_pow2_bits_low by lia. apply IHe; [tauto|lia|lia].
    + now rewrite Z.mod_pow2_bits_high by lia.
Qed.

Definition pair_eqb (a b : nat * Z) : bool := Nat.eqb (fst a) (fst b) && (snd a =? snd b).
Definition subset (l1 l2 : list (nat * Z)) : bool :=
  forallb (fun a => existsb (pair_eqb a) l2) l1.
Definition same_bit (r1 r2 : bool * list (nat * Z)) : bool :=
  (fst r1 && fst r2) ||
  (eqb (fst r1) (fst r2) && subset (snd r1) (snd r2) && subset (snd r2) (snd r1)).

Lemma subset_sound l1 l2 : subset l1 l2 = true ->
  existsb (fun im => Z.testbit (var (fst im)) (snd im)) l1 = true ->
  existsb (fun im => Z.testbit (var (fst im)) (snd im)) l2 = true.
Proof.
  unfold subset. rewrite forallb_forall, !existsb_exists.
  intros H ([i m] & Hin & Ht). specialize (H _ Hin). rewrite existsb_exists in H.
  destruct H as ([i' m'] & Hin' & Heq). unfold pair_eqb in Heq. cbn in *.
  rewrite andb_true_iff, Nat.eqb_eq, Z.eqb_eq in Heq. destruct Heq; subst. eauto.
Qed.

Lemma same_bit_sound r1 r2 : same_bit r1 r2 = true -> bits_true r1 = bits_true r2.
Proof.
  unfold same_bit, bits_true. rewrite orb_true_iff, !andb_true_iff, eqb_true_iff.
  intros [[-> ->]|[[-> H1] H2]]; [reflexivity|]. f_equal.
  apply eq_true_iff_eq; split; now apply subset_sound.
Qed.

Definition check_eq (e1 e2 : bx) : bool :=
  wf e1 && wf e2 &&
  forallb (fun k => same_bit (obits e1 (Z.of_nat k)) (obits e2 (Z.of_nat k)))
    (seq 0 (Z.to_nat (Z.max (width e1) (width e2)))).

Lemma check_eq_sound e1 e2 : check_eq e1 e2 = true -> denote e1 = denote e2.
Proof.
  unfold check_eq. rewrite !andb_true_iff, forallb_forall. intros [[W1 W2] H].
  apply Z.bits_inj'. intros n Hn.
  destruct (Z_lt_ge_dec n (Z.max (width e1) (width e2))) as [Hlt|Hge].
  - rewrite !obits_sound by assumption. apply same_bit_sound.
    specialize (H (Z.to_nat n)). rewrite Z2Nat.id in H by lia. apply H.
    apply in_seq. lia.
  - rewrite !width_sound by (assumption || lia). reflexivity.
Qed.

(** One bit of an expression is one bit of one byte. *)
Lemma single_bit e n i m : wf e && (0 <=? n) = true -> obits e n = (false, [(i, m)]) ->
  Z.testbit (denote e) n = Z.testbit (var i) m.
Proof.
  rewrite andb_true_iff, Z.leb_le. intros [Hwf Hn] Ho. rewrite obits_sound, Ho by assumption.
  unfold bits_true. cbn. apply orb_false_r.
Qed.
End Denotation.

(** Reification: byte variables are the subterms [x] with [is_u8 x] in the
    context. *)
Ltac bx_env acc :=
  match goal with
  | H : is_u8 ?x |- _ =>
      lazymatch acc with context [cons x _] => fail | _ => bx_env (cons x acc) end
  | _ => acc
  end.

Ltac bx_index x env :=
  lazymatch env with
  | cons x _ => O
  | cons _ ?t => let i := bx_index x t in constr:(S i)
  end.

Ltac bx_reify env t :=
  lazymatch t with
  | Z.land ?a ?c => let a' := bx_reify env a in constr:(BAnd a' c)
  | Z.lor ?a ?b => let a' := bx_reify env a in let b' := bx_reify env b in constr:(BOr a' b')
  | Z.shiftl ?a ?k => let a' := bx_reify env a in constr:(BShl a' k)
  | Z.shiftr ?a ?k => let a' := bx_reify env a in constr:(BShr a' k)
  | ?a mod 2 ^ ?k => let a' := bx_reify env a in constr:(BMod a' k)
  | u8 ?a => let a' := bx_reify env a in constr:(BMod a' 8)
  | u16 ?a => let a' := bx_reify env a in constr:(BMod a' 16)
  | u32 ?a => let a' := bx_reify env a in constr:(BMod a' 32)
  | u64 ?a => let a' := bx_reify env a in constr:(BMod a' 64)
  | Z0 => constr:(BCst t)
  | Zpos _ => constr:(BCst t)
  | _ => let i := bx_index t env in constr:(BVar i)
  end.

Ltac bx_bytes := unfold bytes; repeat (apply Forall_cons; [assumption|]); apply Forall_nil.

Ltac bitwise :=
  lazymatch goal with
  | |- ?l = ?r =>
      let env := bx_env (@nil Z) in
      let el := bx_reify env l in
      let er := bx_reify env r in
      change (denote env el = denote env er);
      apply check_eq_sound; [bx_bytes | vm_compute; reflexivity]
  end.

(** [single_bits] replaces [Z.testbit e n] by the input bit it equals. *)
Ltac single_bits :=
  repeat match goal with
  | |- context [Z.testbit (Z.lor ?a ?b) ?n] =>
      let env := bx_env (@nil Z) in
      let e := bx_reify env (Z.lor a b) in
      lazymatch eval vm_compute in (obits e n) with
      | (false, [(?i, ?m)]) =>
          let x := eval cbv [nth] in (nth i env 0) in
          let H := fresh in
          assert (H : bytes env) by bx_bytes;
          replace (Z.testbit (Z.lor a b) n) with (Z.testbit x m)
            by exact (eq_sym (single_bit env H e n i m eq_refl eq_refl));
          clear H
      end
  end.
