(* ===== verification/IqStream.v ===== *)
(** * IqStream: the framed IQ stream between the relay and the daemon

    Models [src/include/iq_protocol.hpp], the framing of [dataSenderThread] in
    [src/sdr-relay/main.cpp], and [recvExact] and the read loop of
    [tcpReaderThread] in [src/sdr-daemon/src/main.cpp].

    A connection is the list of the pieces in which TCP delivers the stream:
    one call of [recv] returns one piece, or the part of it that fits.  No
    piece left is a closed or failed connection ([recv] returns 0 or less). *)

From Stdlib Require Import ZArith List Lia Bool.
Import ListNotations.
From S2P Require Import Prelude.
#[local] Open Scope Z_scope.

Definition MAGIC : Z := 0x49515043.
Definition MAX_SAMPLES_PER_FRAME : Z := 65536.
Definition SLOT_SAMPLES : Z := 16384.

(** [htonl]: the bytes of a 32-bit number in network order. *)
Definition htonl (x : Z) : list Z :=
  [u8 (Z.shiftr x 24); u8 (Z.shiftr x 16); u8 (Z.shiftr x 8); u8 x].

(** [ntohl] of the four bytes at the start of a buffer. *)
Definition ntohl (p : list Z) : Z :=
  Z.lor (Z.lor (Z.shiftl (rd p 0) 24) (Z.shiftl (rd p 1) 16)) (Z.lor (Z.shiftl (rd p 2) 8) (rd p 3)).

(** The bytes of an [int16_t] in memory, and back: both ends copy the samples
    in host order, which is little endian on the supported hosts. *)
Definition i16_bytes (x : Z) : list Z := [u8 x; u8 (Z.shiftr x 8)].

Fixpoint i16_of_bytes (p : list Z) : list Z :=
  match p with
  | a :: b :: p' => i16 (Z.lor a (Z.shiftl b 8)) :: i16_of_bytes p'
  | _ => []
  end.

(** The frame that [dataSenderThread] builds from a slot. *)
Definition build_frame (num_samples : Z) (data : list Z) : list Z :=
  htonl 0x49515043 ++ htonl num_samples ++ flat_map i16_bytes (firstn (Z.to_nat (num_samples * 2)) data).

(** [recvExact]: the bytes read and the rest of the connection. *)
Fixpoint recv_loop (conn : list (list Z)) (left : nat) (buf : list Z) : option (list Z * list (list Z)) :=
  match left with
  | O => Some (buf, conn)
  | _ =>
      match conn with
      | [] => None
      | [] :: _ => None
      | piece :: conn' =>
          if Nat.leb (length piece) left
          then recv_loop conn' (left - length piece) (buf ++ piece)
          else Some (buf ++ firstn left piece, skipn left piece :: conn')
      end
  end.
Definition recvExact (conn : list (list Z)) (n : Z) : option (list Z * list (list Z)) := recv_loop conn (Z.to_nat n) [].

(** Why the read loop left the connection. *)
Inductive Exit := HeaderRead | BadMagic | BadCount | PayloadRead.

(** Whether it sets [g_stream_gap]. *)
Definition stream_gap (e : Exit) : bool :=
  match e with HeaderRead | BadMagic | PayloadRead => true | BadCount => false end.

(** The read loop on a connection: the buffers handed to [feedIQToPool], and
    why it ended.  A round reads at least eight bytes. *)
Fixpoint read_frames (fuel : nat) (conn : list (list Z)) : list (list Z) * option Exit :=
  match fuel with
  | O => ([], None)
  | S fuel' =>
      match recvExact conn 8 with
      | None => ([], Some HeaderRead)
      | Some (header, conn) =>
          let magic := ntohl header in
          let num_samples := ntohl (skipn 4 header) in
          if negb (magic =? MAGIC) then ([], Some BadMagic)
          else if (num_samples =? 0) || (65536 <? num_samples) then ([], Some BadCount)
          else
            let payload_ints := num_samples * 2 in
            match recvExact conn (payload_ints * 2) with
            | None => ([], Some PayloadRead)
            | Some (payload, conn) =>
                let '(bufs, e) := read_frames fuel' conn in
                (i16_of_bytes payload :: bufs, e)
            end
      end
  end.
Definition stream_length (conn : list (list Z)) : nat := length (concat conn).
Definition tcpReader (conn : list (list Z)) : list (list Z) * option Exit := read_frames (S (stream_length conn)) conn.

Example reader_example :
  tcpReader [[0x49; 0x51]; [0x50; 0x43; 0; 0; 0]; [1; 0xff]; [0xff; 2; 0; 0x49; 9]]
  = ([[-1; 2]], Some HeaderRead).
Proof. vm_compute. reflexivity. Qed.

(** ** Bytes and numbers *)

Ltac pow_consts :=
  change (2 ^ 7) with 128 in *; change (2 ^ 8) with 256 in *; change (2 ^ 15) with 32768 in *;
  change (2 ^ 16) with 65536 in *; change (2 ^ 24) with 16777216 in *; change (2 ^ 32) with 4294967296 in *.

Lemma htonl_bytes x : bytes (htonl x).
Proof. unfold htonl, u8. repeat constructor; apply Z.mod_pos_bound; lia. Qed.

Lemma ntohl_htonl x p : is_u32 x -> ntohl (htonl x ++ p) = x.
Proof.
  unfold is_u32. intros Hx. unfold ntohl, htonl, u8, rd. cbn [app nth Z.to_nat Pos.to_nat Pos.iter_op Init.Nat.add].
  rewrite !Z.shiftr_div_pow2 by lia.
  assert (Hb : forall y, 0 <= y mod 2 ^ 8 < 2 ^ 8) by (intros y; apply Z.mod_pos_bound; lia).
  pose proof (Hb (x / 2 ^ 24)) as H1. pose proof (Hb (x / 2 ^ 16)) as H2. pose proof (Hb (x / 2 ^ 8)) as H3. pose proof (Hb x) as H4.
  assert (E : ((x / 2 ^ 24) mod 2 ^ 8 * 2 ^ 8 + (x / 2 ^ 16) mod 2 ^ 8) * 2 ^ 16 + ((x / 2 ^ 8) mod 2 ^ 8 * 2 ^ 8 + x mod 2 ^ 8) = x).
  { replace (x / 2 ^ 24) with (x / 2 ^ 8 / 2 ^ 8 / 2 ^ 8) by (now rewrite !Z.div_div by lia).
    replace (x / 2 ^ 16) with (x / 2 ^ 8 / 2 ^ 8) by (now rewrite !Z.div_div by lia).
    pose proof (Z.div_mod x (2 ^ 8) ltac:(lia)). pose proof (Z.div_mod (x / 2 ^ 8) (2 ^ 8) ltac:(lia)).
    pose proof (Z.div_mod (x / 2 ^ 8 / 2 ^ 8) (2 ^ 8) ltac:(lia)).
    rewrite (Z.mod_small (x / 2 ^ 8 / 2 ^ 8 / 2 ^ 8)); [lia|].
    split; [repeat apply Z.div_pos; lia|]. repeat (apply Z.div_lt_upper_bound; [lia|]). lia. }
  revert E H1 H2 H3 H4. generalize ((x / 2 ^ 24) mod 2 ^ 8), ((x / 2 ^ 16) mod 2 ^ 8), ((x / 2 ^ 8) mod 2 ^ 8), (x mod 2 ^ 8).
  intros a b c d E Ha Hb' Hc Hd. replace (Z.shiftl a 24) with (Z.shiftl (Z.shiftl a 8) 16) by (rewrite Z.shiftl_shiftl; [reflexivity|lia]).
  change (Pos.to_nat 1) with 1%nat. change (Pos.to_nat 2) with 2%nat. change (Pos.to_nat 3) with 3%nat. cbv iota.
  rewrite <- Z.shiftl_lor. rewrite (lor_shiftl_add c 8 d), (lor_shiftl_add a 8 b) by lia.
  rewrite (lor_shiftl_add _ 16) by lia. exact E.
Qed.

Definition is_i16 (x : Z) : Prop := - 2 ^ 15 <= x < 2 ^ 15.

Lemma i16_of_two x : is_i16 x -> i16 (Z.lor (u8 x) (Z.shiftl (u8 (Z.shiftr x 8)) 8)) = x.
Proof.
  unfold is_i16, i16, u8. intros H. rewrite Z.shiftr_div_pow2, Z.lor_comm by lia.
  rewrite lor_shiftl_add by (try apply Z.mod_pos_bound; lia). pow_consts. Z.div_mod_to_equations. lia.
Qed.

Lemma i16_roundtrip l : Forall is_i16 l -> i16_of_bytes (flat_map i16_bytes l) = l.
Proof.
  induction 1 as [|x l Hx _ IH]; [reflexivity|]. cbn [flat_map i16_bytes app i16_of_bytes]. now rewrite i16_of_two, IH.
Qed.

Lemma i16_bytes_length l : length (flat_map i16_bytes l) = (2 * length l)%nat.
Proof. induction l as [|x l IH]; [reflexivity|]. cbn [flat_map i16_bytes app length]. rewrite IH. lia. Qed.

Lemma bytes_of_two a b : is_u8 a -> is_u8 b -> i16_bytes (i16 (Z.lor a (Z.shiftl b 8))) = [a; b].
Proof.
  unfold is_u8, i16_bytes, i16, u8. intros Ha Hb. rewrite Z.lor_comm, lor_shiftl_add, Z.shiftr_div_pow2 by lia.
  pow_consts. f_equal; [|f_equal]; Z.div_mod_to_equations; lia.
Qed.

(** Every even number of bytes is a buffer of samples. *)
Lemma bytes_roundtrip n p : bytes p -> length p = (2 * n)%nat ->
  flat_map i16_bytes (i16_of_bytes p) = p /\ length (i16_of_bytes p) = n /\ Forall is_i16 (i16_of_bytes p).
Proof.
  revert p. induction n as [|n IH]; intros p Hp Hl.
  - destruct p; [|cbn in Hl; lia]. cbn. auto.
  - destruct p as [|a [|b p]]; cbn [length] in Hl; try lia.
    apply Forall_cons_iff in Hp as [Ha Hp]. apply Forall_cons_iff in Hp as [Hb Hp].
    destruct (IH p Hp ltac:(lia)) as (E1 & E2 & E3). cbn [i16_of_bytes flat_map length].
    rewrite bytes_of_two, E1, E2 by assumption. split; [reflexivity|]. split; [reflexivity|]. constructor; [|exact E3].
    unfold is_i16, i16. pow_consts. Z.div_mod_to_equations. lia.
Qed.

(** ** Reading an exact number of bytes *)

Definition pieces_ok (conn : list (list Z)) : Prop := Forall (fun p => p <> []) conn.

(** [recvExact] depends on the bytes of the connection only, not on how they
    were cut. *)
Lemma recv_loop_ok conn left buf : pieces_ok conn ->
  if Nat.leb left (stream_length conn)
  then exists conn', recv_loop conn left buf = Some (buf ++ firstn left (concat conn), conn') /\
         concat conn' = skipn left (concat conn) /\ pieces_ok conn'
  else recv_loop conn left buf = None.
Proof.
  unfold stream_length. intros Hok. revert left buf.
  induction Hok as [|piece conn Hne Hok IH]; intros left buf; cbn [concat].
  - destruct left as [|left]; cbn; [|reflexivity]. exists []. rewrite app_nil_r. repeat split. constructor.
  - destruct left as [|left].
    { cbn [Nat.leb firstn skipn recv_loop]. exists (piece :: conn). rewrite app_nil_r. repeat split. now constructor. }
    cbn [recv_loop]. destruct piece as [|x piece]; [congruence|]. remember (x :: piece) as pc.
    rewrite length_app. destruct (Nat.leb_spec (length pc) (S left)) as [Hle|Hlt].
    + assert (Hpos : (0 < length pc)%nat) by (subst pc; cbn; lia).
      specialize (IH (S left - length pc)%nat (buf ++ pc)).
      replace (Nat.leb (S left) (length pc + length (concat conn))) with (Nat.leb (S left - length pc) (length (concat conn)))
        by (destruct (Nat.leb_spec (S left - length pc) (length (concat conn)));
            destruct (Nat.leb_spec (S left) (length pc + length (concat conn))); lia).
      destruct (Nat.leb (S left - length pc) (length (concat conn))); [|exact IH].
      destruct IH as (conn' & E & Ec & Hok'). exists conn'. rewrite E.
      rewrite firstn_app, skipn_app, (firstn_all2 pc), (skipn_all2 pc) by lia. rewrite <- app_assoc. auto.
    + destruct (Nat.leb_spec (S left) (length pc + length (concat conn))); [|lia].
      exists (skipn (S left) pc :: conn). rewrite firstn_app, skipn_app.
      replace (S left - length pc)%nat with 0%nat by lia. rewrite firstn_O, skipn_O, app_nil_r.
      split; [reflexivity|]. split; [reflexivity|]. constructor; [|exact Hok].
      intros E. apply (f_equal (@length Z)) in E. rewrite length_skipn in E. cbn in E. lia.
Qed.

Lemma recvExact_app conn a b n : pieces_ok conn -> concat conn = a ++ b -> length a = Z.to_nat n ->
  exists conn', recvExact conn n = Some (a, conn') /\ concat conn' = b /\ pieces_ok conn'.
Proof.
  intros Hok E Hl. pose proof (recv_loop_ok conn (Z.to_nat n) [] Hok) as H. unfold stream_length in H. rewrite E in H.
  destruct (Nat.leb_spec (Z.to_nat n) (length (a ++ b))) as [_|Hlt]; [|rewrite length_app in Hlt; lia].
  destruct H as (conn' & E' & Ec & Hok'). exists conn'. unfold recvExact. rewrite E', Ec. cbn [app].
  rewrite <- Hl, firstn_app, skipn_app, Nat.sub_diag, firstn_all, skipn_all, firstn_O, skipn_O, app_nil_r. auto.
Qed.

Lemma recvExact_short conn n : pieces_ok conn -> (stream_length conn < Z.to_nat n)%nat -> recvExact conn n = None.
Proof.
  intros Hok Hl. pose proof (recv_loop_ok conn (Z.to_nat n) [] Hok) as H.
  destruct (Nat.leb_spec (Z.to_nat n) (stream_length conn)); [lia|exact H].
Qed.

(** ** What the read loop makes of a stream of bytes *)

(** A stream is frames, then what ends the loop. *)
Inductive Stream : list Z -> list (list Z) -> Exit -> Prop :=
| Stream_header s : Z.of_nat (length s) < 8 -> Stream s [] HeaderRead
| Stream_magic m n s : is_u32 m -> is_u32 n -> m <> MAGIC -> Stream (htonl m ++ htonl n ++ s) [] BadMagic
| Stream_count n s : is_u32 n -> ~ 0 < n <= MAX_SAMPLES_PER_FRAME -> Stream (htonl MAGIC ++ htonl n ++ s) [] BadCount
| Stream_payload n s : 0 < n <= MAX_SAMPLES_PER_FRAME -> Z.of_nat (length s) < n * 4 ->
    Stream (htonl MAGIC ++ htonl n ++ s) [] PayloadRead
| Stream_frame n data s bufs e : 0 < n <= MAX_SAMPLES_PER_FRAME -> Z.of_nat (length data) = n * 2 -> Forall is_i16 data ->
    Stream s bufs e -> Stream (build_frame n data ++ s) (data :: bufs) e.

Lemma header_split s : bytes s -> (8 <= length s)%nat ->
  exists m n s', s = htonl m ++ htonl n ++ s' /\ is_u32 m /\ is_u32 n /\ bytes s'.
Proof.
  intros Hs Hl. do 8 (destruct s as [|? s]; [cbn in Hl; lia|]; apply Forall_cons_iff in Hs as [? Hs]).
  assert (Hword : forall a b c d, is_u8 a -> is_u8 b -> is_u8 c -> is_u8 d ->
    let x := a * 2 ^ 24 + b * 2 ^ 16 + c * 2 ^ 8 + d in is_u32 x /\ htonl x = [a; b; c; d]).
  { clear. unfold is_u8, is_u32, htonl, u8. intros a b c d Ha Hb Hc Hd. cbv zeta. rewrite !Z.shiftr_div_pow2 by lia.
    pow_consts. split; [lia|]. repeat f_equal; Z.div_mod_to_equations; lia. }
  match goal with |- exists m n s', ?a :: ?b :: ?c :: ?d :: ?e :: ?f :: ?g :: ?i :: _ = _ /\ _ =>
    destruct (Hword a b c d) as [U1 E1]; [assumption..|]; destruct (Hword e f g i) as [U2 E2]; [assumption..|] end.
  eexists _, _, s. rewrite E1, E2. cbn [app]. auto.
Qed.

Lemma read_frames_ok fuel conn : pieces_ok conn -> bytes (concat conn) -> (stream_length conn < fuel)%nat ->
  exists bufs e, read_frames fuel conn = (bufs, Some e) /\ Stream (concat conn) bufs e.
Proof.
  revert conn. induction fuel as [|fuel IH]; intros conn Hok Hb Hf; [lia|]. cbn [read_frames].
  destruct (Nat.le_gt_cases 8 (stream_length conn)) as [H8|H8].
  2:{ rewrite recvExact_short by (auto; lia). exists [], HeaderRead. split; [reflexivity|]. constructor. unfold stream_length in H8. lia. }
  destruct (header_split _ Hb H8) as (m & n & s & E & Hm & Hn & Hs).
  destruct (recvExact_app conn (htonl m ++ htonl n) s 8 Hok) as (conn1 & -> & E1 & Hok1); [now rewrite <- app_assoc|reflexivity|].
  rewrite ntohl_htonl by exact Hm. replace (skipn 4 (htonl m ++ htonl n)) with (htonl n ++ []) by reflexivity.
  rewrite ntohl_htonl by exact Hn. rewrite E. cbv zeta.
  destruct (Z.eqb_spec m MAGIC) as [->|Hne]; cbn [negb]; [|eexists _, _; split; [reflexivity|now constructor]].
  destruct ((n =? 0) || (65536 <? n)) eqn:Ec.
  { eexists _, _. split; [reflexivity|]. constructor; [exact Hn|]. unfold MAX_SAMPLES_PER_FRAME. lia. }
  assert (Hn' : 0 < n <= MAX_SAMPLES_PER_FRAME) by (unfold MAX_SAMPLES_PER_FRAME, is_u32 in *; lia).
  destruct (Z.lt_ge_cases (Z.of_nat (length s)) (n * 4)) as [Hlt|Hge].
  { rewrite recvExact_short by (auto; unfold stream_length; rewrite E1; lia).
    eexists _, _. split; [reflexivity|]. now constructor. }
  rewrite <- (firstn_skipn (Z.to_nat (n * 4)) s) in E1.
  assert (Hlen : length (firstn (Z.to_nat (n * 4)) s) = (2 * Z.to_nat (n * 2))%nat) by (rewrite length_firstn; lia).
  destruct (recvExact_app conn1 _ _ (n * 2 * 2) Hok1 E1 ltac:(rewrite Hlen; lia)) as (conn2 & -> & E2 & Hok2).
  assert (Hbs : bytes (firstn (Z.to_nat (n * 4)) s) /\ bytes (skipn (Z.to_nat (n * 4)) s))
    by (apply Forall_app; now rewrite firstn_skipn).
  destruct Hbs as [Hb1 Hb2]. destruct (bytes_roundtrip _ _ Hb1 Hlen) as (R1 & R2 & R3).
  destruct (IH conn2 Hok2) as (bufs & e & -> & HS).
  { now rewrite E2. }
  { unfold stream_length in *. rewrite E in Hf. rewrite E2, length_skipn. rewrite !length_app in Hf. cbn [htonl length] in Hf. lia. }
  eexists _, _. split; [reflexivity|].
  replace (htonl MAGIC ++ htonl n ++ s) with (build_frame n (i16_of_bytes (firstn (Z.to_nat (n * 4)) s)) ++ concat conn2).
  - constructor; auto. rewrite R2. lia.
  - unfold build_frame. rewrite (firstn_all2 (i16_of_bytes _)) by (rewrite R2; lia).
    rewrite R1, E2, <- !app_assoc, firstn_skipn. reflexivity.
Qed.

Lemma app_same_length {A} (a b a' b' : list A) : length a = length a' -> a ++ b = a' ++ b' -> a = a' /\ b = b'.
Proof.
  revert a'. induction a as [|x a IH]; intros [|x' a'] Hl E; cbn in *; try lia; auto.
  injection E as -> E. apply IH in E as [-> ->]; auto.
Qed.

Lemma htonl_inj x y : is_u32 x -> is_u32 y -> htonl x = htonl y -> x = y.
Proof. intros Hx Hy E. rewrite <- (ntohl_htonl x [] Hx), <- (ntohl_htonl y [] Hy). now rewrite E. Qed.

Lemma two_headers m n s m' n' s' : is_u32 m -> is_u32 n -> is_u32 m' -> is_u32 n' ->
  htonl m ++ htonl n ++ s = htonl m' ++ htonl n' ++ s' -> m = m' /\ n = n' /\ s = s'.
Proof.
  intros Hm Hn Hm' Hn' E. apply app_same_length in E as [E1 E]; [|reflexivity].
  apply app_same_length in E as [E2 E]; [|reflexivity]. auto using htonl_inj.
Qed.

(** The frames that the relay sends for a sequence of slots. *)
Definition slot_ok (slot : list Z) : Prop :=
  (exists n, 0 < n <= SLOT_SAMPLES /\ Z.of_nat (length slot) = n * 2) /\ Forall is_i16 slot.
Definition slot_frame (slot : list Z) : list Z := build_frame (Z.of_nat (length slot) / 2) slot.

Lemma Stream_inv_frame n data s bufs e : 0 < n <= MAX_SAMPLES_PER_FRAME -> Z.of_nat (length data) = n * 2 -> Forall is_i16 data ->
  Stream (build_frame n data ++ s) bufs e -> exists bufs', bufs = data :: bufs' /\ Stream s bufs' e.
Proof.
  intros Hn Hl Hd H. assert (Un : is_u32 n) by (unfold MAX_SAMPLES_PER_FRAME, is_u32 in *; lia).
  assert (Um : is_u32 MAGIC) by (unfold is_u32, MAGIC; lia). unfold build_frame in H. rewrite firstn_all2 in H by lia.
  change 0x49515043 with MAGIC in H. rewrite <- !app_assoc in H. remember (htonl MAGIC ++ _) as str eqn:Es.
  destruct H as [s0 H|m n0 s0 Hm Hn0 Hne|n0 s0 Hn0 Hr|n0 s0 Hr Hs|n0 d0 s0 bufs e Hr Hl0 Hd0 H].
  - subst s0. rewrite !length_app in H. cbn [htonl length] in H. lia.
  - apply two_headers in Es as (E & _); auto. congruence.
  - apply two_headers in Es as (_ & -> & _); auto. contradiction.
  - assert (is_u32 n0) by (unfold MAX_SAMPLES_PER_FRAME, is_u32 in *; lia).
    apply two_headers in Es as (_ & -> & ->); auto. rewrite length_app, i16_bytes_length in Hs. lia.
  - assert (is_u32 n0) by (unfold MAX_SAMPLES_PER_FRAME, is_u32 in *; lia). unfold build_frame in Es. rewrite <- !app_assoc in Es.
    apply two_headers in Es as (_ & -> & E); auto. rewrite firstn_all2 in E by lia.
    apply app_same_length in E as [E ->]; [|rewrite !i16_bytes_length; lia].
    apply (f_equal i16_of_bytes) in E. rewrite !i16_roundtrip in E by assumption. subst d0. eauto.
Qed.

Lemma Stream_slots slots bufs e : Forall slot_ok slots -> Stream (concat (map slot_frame slots)) bufs e ->
  bufs = slots /\ e = HeaderRead.
Proof.
  intros Hok. revert bufs. induction Hok as [|slot slots [(n & Hn & Hl) Hd] Hok IH]; intros bufs H; cbn [map concat] in H.
  - inversion H as [s0 H0 Es|m n s0 Hm Hn Hne Es|n s0 Hn Hr Es|n s0 Hr Hs Es|n d0 s0 bufs0 e0 Hr Hl Hd H0 Es]; subst;
      [auto|discriminate Es..].
  - unfold slot_frame in H at 1. replace (Z.of_nat (length slot) / 2) with n in H by (rewrite Hl, Z.div_mul; lia).
    apply Stream_inv_frame in H as (bufs' & -> & H); auto; [|unfold SLOT_SAMPLES, MAX_SAMPLES_PER_FRAME in *; lia].
    destruct (IH bufs' H) as [-> ->]. auto.
Qed.

Lemma build_frame_bytes n d : bytes (build_frame n d).
Proof.
  unfold bytes, build_frame. rewrite !Forall_app. split; [apply htonl_bytes|]. split; [apply htonl_bytes|].
  generalize (firstn (Z.to_nat (n * 2)) d). intros l. induction l as [|x l IH]; [constructor|]. cbn [flat_map i16_bytes app].
  unfold u8. repeat constructor; try (apply Z.mod_pos_bound; lia). exact IH.
Qed.

Lemma slots_delivered slots conn : Forall slot_ok slots -> pieces_ok conn ->
  concat conn = concat (map slot_frame slots) -> tcpReader conn = (slots, Some HeaderRead).
Proof.
  intros Hs Hok E. assert (Hb : bytes (concat conn)).
  { rewrite E. clear. induction slots as [|sl slots IH]; [constructor|]. cbn [map concat]. apply Forall_app.
    split; [unfold slot_frame; apply build_frame_bytes|exact IH]. }
  destruct (read_frames_ok (S (stream_length conn)) conn Hok Hb ltac:(lia)) as (bufs & e & Er & HS).
  rewrite E in HS. apply Stream_slots in HS as [-> ->]; auto.
Qed.

(** ** Theorems *)

(** C24: on every byte stream, and however TCP cuts it into pieces, the read
    loop of the daemon ends, and hands on exactly the samples of the complete,
    well-formed frames at the front of the stream, in order; it leaves the
    connection at the first bad magic, the first sample count outside 1 to
    65536, or where a header or a payload is cut short. *)
Theorem tcp_reader_exact conn : pieces_ok conn -> bytes (concat conn) ->
  exists bufs e, tcpReader conn = (bufs, Some e) /\ Stream (concat conn) bufs e.
Proof. intros Hok Hb. apply read_frames_ok; auto. Qed.

Lemma tcp_reader_exact_witness :
  exists bufs e, tcpReader [[0x49; 0x51; 0x50]; [0x43; 0; 0; 0; 0]] = (bufs, Some e) /\
    Stream (concat [[0x49; 0x51; 0x50]; [0x43; 0; 0; 0; 0]]) bufs e.
Proof. apply tcp_reader_exact; repeat constructor; try discriminate; unfold is_u8; lia. Defined.

(** End to end over the data port: whatever slots the relay frames and
    sends, the daemon recovers exactly their samples, in order, for every
    fragmentation of the stream. *)
Theorem iq_frames_delivered slots conn : Forall slot_ok slots -> pieces_ok conn ->
  concat conn = concat (map slot_frame slots) -> tcpReader conn = (slots, Some HeaderRead).
Proof. apply slots_delivered. Qed.

Lemma iq_frames_delivered_witness :
  tcpReader [[0x49; 0x51; 0x50]; [0x43; 0; 0; 0; 1; 0xfe]; [0xff; 7; 0]] = ([[-2; 7]], Some HeaderRead).
Proof.
  apply iq_frames_delivered.
  - constructor; [|constructor]. split; [exists 1; unfold SLOT_SAMPLES; cbn; lia|].
    constructor; [|constructor; [|constructor]]; unfold is_i16; lia.
  - repeat constructor; discriminate.
  - vm_compute. reflexivity.
Defined.
