(* ===== verification/RelayRing.v ===== *)
(** * RelayRing: the ring buffer between the SDR callback and the TCP sender

    Models [broadcastAudio], [addDataClient], [removeDataClient] and
    [dataSenderThread] of [src/sdr-relay/main.cpp].  The SDR callback (the
    producer) and the sender thread (the consumer) run concurrently; one event
    of the model is one access of one of them to the shared slots and counters,
    and a run is any interleaving of events.  The ready flags are accessed with
    acquire and release order, which makes the interleavings of the model the
    behaviours of the code.

    [stored] and [sent] are histories that the code does not keep: the buffers
    stored, and the frames handed to the clients. *)

From Stdlib Require Import ZArith List Lia Bool.
Import ListNotations.
From S2P Require Import Prelude IqStream.
#[local] Open Scope Z_scope.

Inductive DeviceMode := IDLE | SCANNING | RECORDING | LIVE_LISTEN.
Definition POOL_SIZE : Z := 64.

Record RelaySlot := mkSlot { data : list Z; num_samples : Z; ready : bool }.

(** Where the producer is in [broadcastAudio]. *)
Inductive Prod :=
| PIdle
| PCheck (buf : list Z) (n idx : Z)
| PCopy (buf : list Z) (n idx : Z)
| PCount (n idx : Z) (buf : list Z)
| PReady (idx : Z) (buf : list Z)
| PAdvance.

(** Where the consumer is in [dataSenderThread]. *)
Inductive Cons :=
| CIdle
| CCheck (idx : Z)
| CCount (idx : Z)
| CFrame (n idx : Z)
| CRelease (idx : Z) (frame : list Z)
| CAdvance (frame : list Z)
| CSend (frame : list Z).

Record Relay := mkRelay {
  g_mode : DeviceMode;
  g_heartbeat_count : Z;
  g_relay_pool : list RelaySlot;
  g_relay_write : Z;
  g_relay_read : Z;
  g_data_clients : list Z;
  prod : Prod;
  cons : Cons;
  stored : list (list Z);
  sent : list (list Z);
  oob : bool }.

Definition set_mode (m : DeviceMode) (s : Relay) : Relay :=
  mkRelay m (g_heartbeat_count s) (g_relay_pool s) (g_relay_write s) (g_relay_read s) (g_data_clients s)
    (prod s) (cons s) (stored s) (sent s) (oob s).
Definition beat (s : Relay) : Relay :=
  mkRelay (g_mode s) (i64 (g_heartbeat_count s + 1)) (g_relay_pool s) (g_relay_write s) (g_relay_read s) (g_data_clients s)
    (prod s) (cons s) (stored s) (sent s) (oob s).
Definition set_pool (p : list RelaySlot) (s : Relay) : Relay :=
  mkRelay (g_mode s) (g_heartbeat_count s) p (g_relay_write s) (g_relay_read s) (g_data_clients s)
    (prod s) (cons s) (stored s) (sent s) (oob s).
Definition set_write (w : Z) (s : Relay) : Relay :=
  mkRelay (g_mode s) (g_heartbeat_count s) (g_relay_pool s) w (g_relay_read s) (g_data_clients s)
    (prod s) (cons s) (stored s) (sent s) (oob s).
Definition set_read (r : Z) (s : Relay) : Relay :=
  mkRelay (g_mode s) (g_heartbeat_count s) (g_relay_pool s) (g_relay_write s) r (g_data_clients s)
    (prod s) (cons s) (stored s) (sent s) (oob s).
Definition set_clients (c : list Z) (s : Relay) : Relay :=
  mkRelay (g_mode s) (g_heartbeat_count s) (g_relay_pool s) (g_relay_write s) (g_relay_read s) c
    (prod s) (cons s) (stored s) (sent s) (oob s).
Definition set_prod (p : Prod) (s : Relay) : Relay :=
  mkRelay (g_mode s) (g_heartbeat_count s) (g_relay_pool s) (g_relay_write s) (g_relay_read s) (g_data_clients s)
    p (cons s) (stored s) (sent s) (oob s).
Definition set_cons (c : Cons) (s : Relay) : Relay :=
  mkRelay (g_mode s) (g_heartbeat_count s) (g_relay_pool s) (g_relay_write s) (g_relay_read s) (g_data_clients s)
    (prod s) c (stored s) (sent s) (oob s).
Definition add_stored (b : list Z) (s : Relay) : Relay :=
  mkRelay (g_mode s) (g_heartbeat_count s) (g_relay_pool s) (g_relay_write s) (g_relay_read s) (g_data_clients s)
    (prod s) (cons s) (stored s ++ [b]) (sent s) (oob s).
Definition add_sent (f : list Z) (s : Relay) : Relay :=
  mkRelay (g_mode s) (g_heartbeat_count s) (g_relay_pool s) (g_relay_write s) (g_relay_read s) (g_data_clients s)
    (prod s) (cons s) (stored s) (sent s ++ [f]) (oob s).
Definition set_oob (s : Relay) : Relay :=
  mkRelay (g_mode s) (g_heartbeat_count s) (g_relay_pool s) (g_relay_write s) (g_relay_read s) (g_data_clients s)
    (prod s) (cons s) (stored s) (sent s) true.

(** [counter % POOL_SIZE]: the remainder of C, of an [int]. *)
Definition slot_index (counter : Z) : Z := Z.rem counter POOL_SIZE.

(** An access to [g_relay_pool[idx]] outside the pool is undefined behaviour. *)
Definition slot_at (s : Relay) (idx : Z) : option RelaySlot :=
  if idx <? 0 then None else nth_error (g_relay_pool s) (Z.to_nat idx).
Definition with_slot (s : Relay) (idx : Z) (k : RelaySlot -> Relay) : Relay :=
  match slot_at s idx with Some slot => k slot | None => set_oob s end.

Fixpoint update {A} (l : list A) (i : nat) (x : A) : list A :=
  match l, i with
  | [], _ => []
  | _ :: l', O => x :: l'
  | y :: l', S i' => y :: update l' i' x
  end.
Definition set_slot (s : Relay) (idx : Z) (slot : RelaySlot) : Relay :=
  set_pool (update (g_relay_pool s) (Z.to_nat idx) slot) s.

(** The number of IQ pairs taken from a buffer, and those samples. *)
Definition num_iq_pairs (iqBuffer : list Z) : Z :=
  let n := u32 (Z.of_nat (length iqBuffer) / 2) in
  if SLOT_SAMPLES <? n then SLOT_SAMPLES else n.
Definition taken (iqBuffer : list Z) : list Z := firstn (Z.to_nat (num_iq_pairs iqBuffer * 2)) iqBuffer.

(** One access of the producer; [iqBuffer] is the buffer of the next call. *)
Definition broadcastAudio (iqBuffer : list Z) (s : Relay) : Relay :=
  match prod s with
  | PIdle =>
      let s := beat s in
      if match g_mode s with SCANNING => true | _ => false end || match iqBuffer with [] => true | _ => false end then s
      else set_prod (PCheck iqBuffer (num_iq_pairs iqBuffer) (slot_index (g_relay_write s))) s
  | PCheck buf n idx =>
      with_slot s idx (fun slot => if ready slot then set_prod PIdle s else set_prod (PCopy buf n idx) s)
  | PCopy buf n idx =>
      with_slot s idx (fun slot =>
        let k := Z.to_nat (n * 2) in
        set_prod (PCount n idx buf)
          (set_slot s idx (mkSlot (firstn k buf ++ skipn k (data slot)) (num_samples slot) (ready slot))))
  | PCount n idx buf =>
      with_slot s idx (fun slot => set_prod (PReady idx buf) (set_slot s idx (mkSlot (data slot) n (ready slot))))
  | PReady idx buf =>
      with_slot s idx (fun slot =>
        set_prod PAdvance (add_stored (taken buf) (set_slot s idx (mkSlot (data slot) (num_samples slot) true))))
  | PAdvance => set_prod PIdle (set_write (i32 (g_relay_write s + 1)) s)
  end.

Definition addDataClient (fd : Z) (s : Relay) : Relay := set_clients (g_data_clients s ++ [fd]) s.
Definition removeDataClient (s : Relay) (fd : Z) : Relay :=
  set_clients (filter (fun x => negb (x =? fd)) (g_data_clients s)) s.

(** One access of the consumer; [send_ok fd] says whether the whole frame goes
    to the client [fd]. *)
Definition dataSenderThread (send_ok : Z -> bool) (s : Relay) : Relay :=
  match cons s with
  | CIdle => set_cons (CCheck (slot_index (g_relay_read s))) s
  | CCheck idx => with_slot s idx (fun slot => if negb (ready slot) then set_cons CIdle s else set_cons (CCount idx) s)
  | CCount idx => with_slot s idx (fun slot => set_cons (CFrame (num_samples slot) idx) s)
  | CFrame n idx => with_slot s idx (fun slot => set_cons (CRelease idx (build_frame n (data slot))) s)
  | CRelease idx frame =>
      with_slot s idx (fun slot =>
        set_cons (CAdvance frame) (set_slot s idx (mkSlot (data slot) (num_samples slot) false)))
  | CAdvance frame => set_cons (CSend frame) (set_read (i32 (g_relay_read s + 1)) s)
  | CSend frame =>
      let dead_fds := filter (fun fd => negb (send_ok fd)) (g_data_clients s) in
      fold_left removeDataClient dead_fds (set_cons CIdle (add_sent frame s))
  end.

(** The events of a run. *)
Inductive Event :=
| Callback (iqBuffer : list Z)
| Sender (send_ok : Z -> bool)
| Accept (fd : Z)
| Mode (m : DeviceMode).
Definition step (s : Relay) (e : Event) : Relay :=
  match e with
  | Callback buf => broadcastAudio buf s
  | Sender ok => dataSenderThread ok s
  | Accept fd => addDataClient fd s
  | Mode m => set_mode m s
  end.
Definition run (es : list Event) (s : Relay) : Relay := fold_left step es s.

Definition init : Relay :=
  mkRelay IDLE 0 (repeat (mkSlot (repeat 0 (Z.to_nat (SLOT_SAMPLES * 2))) 0 false) (Z.to_nat POOL_SIZE)) 0 0 []
    PIdle CIdle [] [] false.

(** ** Slots *)

Lemma update_length {A} (l : list A) i x : length (update l i x) = length l.
Proof. revert i. induction l as [|y l IH]; intros [|i]; cbn; auto. Qed.

Lemma update_same {A} (l : list A) i x : (i < length l)%nat -> nth_error (update l i x) i = Some x.
Proof. revert i. induction l as [|y l IH]; intros [|i] H; cbn in *; try lia; auto. apply IH. lia. Qed.

Lemma update_other {A} (l : list A) i j x : i <> j -> nth_error (update l i x) j = nth_error l j.
Proof. revert i j. induction l as [|y l IH]; intros [|i] [|j] H; cbn; auto; try congruence. Qed.

Lemma slot_index_mod c : 0 <= c -> slot_index c = c mod 64.
Proof. intros H. unfold slot_index, POOL_SIZE. apply Z.rem_mod_nonneg; lia. Qed.

(** Two counters less than a lap apart that share a slot are equal. *)
Lemma same_slot b i j : b <= i < b + 64 -> b <= j < b + 64 -> Z.to_nat (i mod 64) = Z.to_nat (j mod 64) -> i = j.
Proof.
  intros Hi Hj E. apply Z2Nat.inj in E; [|apply Z.mod_pos_bound; lia..].
  Z.div_mod_to_equations. lia.
Qed.

Definition slot_for (p : list RelaySlot) (i : Z) (P : RelaySlot -> Prop) : Prop :=
  exists slot, nth_error p (Z.to_nat (i mod 64)) = Some slot /\ P slot.

Lemma slot_for_update_other p i j slot P : Z.to_nat (j mod 64) <> Z.to_nat (i mod 64) ->
  slot_for p i P -> slot_for (update p (Z.to_nat (j mod 64)) slot) i P.
Proof. intros Hne (x & E & H). exists x. rewrite update_other by exact Hne. auto. Qed.

Lemma slot_for_update_same p i slot (P : RelaySlot -> Prop) : length p = 64%nat -> P slot ->
  slot_for (update p (Z.to_nat (i mod 64)) slot) i P.
Proof.
  intros Hl H. exists slot. split; [|exact H]. apply update_same. rewrite Hl.
  pose proof (Z.mod_pos_bound i 64). lia.
Qed.

Lemma with_slot_at s i k (P : RelaySlot -> Prop) : slot_for (g_relay_pool s) i P ->
  exists slot, P slot /\ nth_error (g_relay_pool s) (Z.to_nat (i mod 64)) = Some slot /\ with_slot s (i mod 64) k = k slot.
Proof.
  intros (slot & E & H). exists slot. split; [exact H|]. split; [exact E|]. unfold with_slot, slot_at.
  pose proof (Z.mod_pos_bound i 64). destruct (Z.ltb_spec (i mod 64) 0); [lia|]. now rewrite E.
Qed.

(** What a slot holds. *)
Definition filled (b : list Z) (slot : RelaySlot) : Prop :=
  0 <= num_samples slot /\ num_samples slot * 2 = Z.of_nat (length b) /\ firstn (length b) (data slot) = b.
Definition holds (b : list Z) (slot : RelaySlot) : Prop := ready slot = true /\ filled b slot.
Definition copied (b : list Z) (slot : RelaySlot) : Prop := ready slot = false /\ firstn (length b) (data slot) = b.

Lemma num_iq_pairs_bound b : 0 <= num_iq_pairs b <= SLOT_SAMPLES.
Proof.
  unfold num_iq_pairs. pose proof (Z.mod_pos_bound (Z.of_nat (length b) / 2) (2 ^ 32) ltac:(lia)).
  unfold u32. destruct (Z.ltb_spec SLOT_SAMPLES ((Z.of_nat (length b) / 2) mod 2 ^ 32)); unfold SLOT_SAMPLES in *; lia.
Qed.

Lemma taken_length b : Z.of_nat (length (taken b)) = num_iq_pairs b * 2.
Proof.
  unfold taken. pose proof (num_iq_pairs_bound b) as Hb.
  assert (Hle : num_iq_pairs b * 2 <= Z.of_nat (length b)).
  { unfold num_iq_pairs, u32. pose proof (Z.mod_le (Z.of_nat (length b) / 2) (2 ^ 32)).
    assert (0 <= Z.of_nat (length b) / 2) by (apply Z.div_pos; lia).
    assert (Z.of_nat (length b) / 2 * 2 <= Z.of_nat (length b)) by (pose proof (Z.mul_div_le (Z.of_nat (length b)) 2); lia).
    destruct (Z.ltb_spec SLOT_SAMPLES ((Z.of_nat (length b) / 2) mod 2 ^ 32)); lia. }
  rewrite length_firstn. lia.
Qed.

Lemma frame_of_slot b slot : filled b slot -> build_frame (num_samples slot) (data slot) = slot_frame b.
Proof.
  intros (H0 & Hn & Hd). unfold slot_frame. rewrite <- Hn, Z.div_mul by lia. unfold build_frame.
  replace (Z.to_nat (num_samples slot * 2)) with (length b) by lia. now rewrite Hd, firstn_all.
Qed.

(** ** The invariant *)

Definition nth_stored (s : Relay) (i : Z) : list Z := nth (Z.to_nat i) (stored s) [].
Definition n_stored (s : Relay) : Z := Z.of_nat (length (stored s)).
Definition advancing (s : Relay) : Z := match prod s with PAdvance => 1 | _ => 0 end.
Definition released (s : Relay) : Z := g_relay_read s + match cons s with CAdvance _ => 1 | _ => 0 end.
Definition n_sent (s : Relay) : Z := g_relay_read s - match cons s with CSend _ => 1 | _ => 0 end.

Definition prod_ok (s : Relay) : Prop :=
  let w := g_relay_write s in
  let room := w < released s + 64 in
  match prod s with
  | PIdle | PAdvance => True
  | PCheck buf n idx => idx = w mod 64 /\ n = num_iq_pairs buf
  | PCopy buf n idx => idx = w mod 64 /\ n = num_iq_pairs buf /\ room
  | PCount n idx buf => idx = w mod 64 /\ n = num_iq_pairs buf /\ room /\ slot_for (g_relay_pool s) w (copied (taken buf))
  | PReady idx buf => idx = w mod 64 /\ room /\ slot_for (g_relay_pool s) w (filled (taken buf))
  end.

Definition cons_ok (s : Relay) : Prop :=
  let r := g_relay_read s in
  match cons s with
  | CIdle => True
  | CCheck idx => idx = r mod 64
  | CCount idx => idx = r mod 64 /\ r < n_stored s
  | CFrame n idx => idx = r mod 64 /\ r < n_stored s /\ n * 2 = Z.of_nat (length (nth_stored s r))
  | CRelease idx frame => idx = r mod 64 /\ r < n_stored s /\ frame = slot_frame (nth_stored s r)
  | CAdvance frame => frame = slot_frame (nth_stored s r)
  | CSend frame => 1 <= r /\ frame = slot_frame (nth_stored s (r - 1))
  end.

Record Inv (k : Z) (s : Relay) : Prop := {
  inv_oob : oob s = false;
  inv_len : length (g_relay_pool s) = 64%nat;
  inv_count : n_stored s = g_relay_write s + advancing s;
  inv_k : n_stored s <= k;
  inv_window : 0 <= g_relay_read s /\ released s <= n_stored s <= released s + 64 /\ 0 <= g_relay_write s;
  inv_holds : forall i, released s <= i < n_stored s -> slot_for (g_relay_pool s) i (holds (nth_stored s i));
  inv_free : forall i, n_stored s <= i < released s + 64 -> slot_for (g_relay_pool s) i (fun slot => ready slot = false);
  inv_sent : sent s = map slot_frame (firstn (Z.to_nat (n_sent s)) (stored s));
  inv_prod : prod_ok s;
  inv_cons : cons_ok s }.

Lemma relay_inv_init : Inv 0 init.
Proof.
  constructor; try reflexivity; try exact I.
  - unfold n_stored, released. cbn [stored init g_relay_read g_relay_write cons length]. lia.
  - intros i Hi. unfold n_stored, released in Hi. cbn in Hi. lia.
  - intros i Hi. exists (mkSlot (repeat 0 (Z.to_nat (SLOT_SAMPLES * 2))) 0 false). split; [|reflexivity].
    cbn [g_relay_pool init]. apply nth_error_repeat. change (Z.to_nat POOL_SIZE) with 64%nat.
    pose proof (Z.mod_pos_bound i 64). lia.
Qed.

(** Rewriting the slot at the write position, which no stored buffer uses. *)
Lemma holds_update s i slot P : released s <= i < n_stored s -> n_stored s <= g_relay_write s < released s + 64 ->
  slot_for (g_relay_pool s) i P -> slot_for (update (g_relay_pool s) (Z.to_nat (g_relay_write s mod 64)) slot) i P.
Proof.
  intros Hi Hw. apply slot_for_update_other. intros E. apply (same_slot (released s)) in E; lia.
Qed.

Lemma free_update s i slot : length (g_relay_pool s) = 64%nat -> released s <= n_stored s ->
  n_stored s <= i < released s + 64 -> n_stored s <= g_relay_write s < released s + 64 ->
  ready slot = false -> (forall i, n_stored s <= i < released s + 64 -> slot_for (g_relay_pool s) i (fun slot => ready slot = false)) ->
  slot_for (update (g_relay_pool s) (Z.to_nat (g_relay_write s mod 64)) slot) i (fun slot => ready slot = false).
Proof.
  intros Hl Hrel Hi Hw Hr Hf. destruct (Z.eq_dec i (g_relay_write s)) as [->|Hne]; [now apply slot_for_update_same|].
  apply slot_for_update_other; [|auto]. intros E. apply (same_slot (released s)) in E; lia.
Qed.

Ltac unfold_state :=
  unfold prod_ok, cons_ok, n_stored, nth_stored, advancing, released, n_sent, set_prod, set_cons, set_slot, set_pool,
    set_write, set_read, add_stored, add_sent, beat, set_mode, addDataClient, set_clients in *;
  cbn [g_mode g_heartbeat_count g_relay_pool g_relay_write g_relay_read g_data_clients prod cons stored sent oob] in *.

Lemma prod_inv k s buf : Inv k s -> k < 2 ^ 31 - 1 -> Inv (k + 1) (broadcastAudio buf s).
Proof.
  intros [Ho Hl Hc Hk Hw Hh Hf Hs Hp Hcs] Hb. unfold broadcastAudio. unfold prod_ok in Hp. unfold advancing in Hc.
  assert (Hrel0 : 0 <= released s) by (unfold released; destruct (cons s); lia).
  destruct (prod s) as [|b n idx|b n idx|n idx b|idx b|] eqn:Ep.
  - cbv zeta. destruct (_ || _); constructor; unfold_state; rewrite ?Ep; auto; try lia.
    rewrite slot_index_mod by lia. auto.
  - destruct Hp as [-> ->]. destruct (Z.eq_dec (n_stored s) (released s + 64)) as [Efull|Hne].
    + assert (Hslot : slot_for (g_relay_pool s) (g_relay_write s) (holds (nth_stored s (released s)))).
      { destruct (Hh (released s) ltac:(lia)) as (sl & E & H). exists sl. split; [|exact H].
        rewrite <- E. f_equal. f_equal. replace (g_relay_write s) with (released s + 1 * 64) by lia. apply Z.mod_add. lia. }
      destruct (with_slot_at s (g_relay_write s) (fun slot => if ready slot then set_prod PIdle s else set_prod (PCopy b (num_iq_pairs b) (g_relay_write s mod 64)) s) _ Hslot)
        as (slot & [Hr _] & _ & ->). rewrite Hr. constructor; unfold_state; auto; lia.
    + destruct (with_slot_at s (g_relay_write s) (fun slot => if ready slot then set_prod PIdle s else set_prod (PCopy b (num_iq_pairs b) (g_relay_write s mod 64)) s) _ (Hf (g_relay_write s) ltac:(lia)))
        as (slot & Hr & _ & ->). rewrite Hr. constructor; unfold_state; auto; try lia.
  - destruct Hp as (-> & -> & Hroom).
    match goal with |- context [with_slot s _ ?k] => destruct (with_slot_at s (g_relay_write s) k _ (Hf (g_relay_write s) ltac:(lia))) as (slot & Hr & _ & ->) end.
    assert (Hcp : copied (taken b) (mkSlot (firstn (Z.to_nat (num_iq_pairs b * 2)) b ++ skipn (Z.to_nat (num_iq_pairs b * 2)) (data slot)) (num_samples slot) (ready slot))).
    { split; [exact Hr|]. cbn [data]. fold (taken b). now rewrite firstn_app, firstn_all, Nat.sub_diag, firstn_O, app_nil_r. }
    cbv zeta. constructor; try (unfold_state; rewrite ?update_length; auto; lia).
    + intros i Hi. unfold_state. apply (holds_update s); unfold_state; auto; lia.
    + intros i Hi. unfold_state. apply (free_update s); unfold_state; auto; lia.
    + unfold_state. repeat split; auto. now apply slot_for_update_same.
  - destruct Hp as (-> & -> & Hroom & Hcp).
    match goal with |- context [with_slot s _ ?k] => destruct (with_slot_at s (g_relay_write s) k _ Hcp) as (slot & [Hr Hd] & _ & ->) end.
    assert (Hfl : filled (taken b) (mkSlot (data slot) (num_iq_pairs b) (ready slot))).
    { pose proof (num_iq_pairs_bound b). pose proof (taken_length b). repeat split; cbn [num_samples data]; auto; lia. }
    constructor; try (unfold_state; rewrite ?update_length; auto; lia).
    + intros i Hi. unfold_state. apply (holds_update s); unfold_state; auto; lia.
    + intros i Hi. unfold_state. apply (free_update s); unfold_state; auto; lia.
    + unfold_state. split; [auto|]. split; [auto|]. now apply slot_for_update_same.
  - destruct Hp as (-> & Hroom & Hfl).
    match goal with |- context [with_slot s _ ?k] => destruct (with_slot_at s (g_relay_write s) k _ Hfl) as (slot & Hfs & _ & ->) end.
    assert (Hnth : forall i, 0 <= i < n_stored s -> nth (Z.to_nat i) (stored s ++ [taken b]) [] = nth_stored s i).
    { intros i Hi. unfold n_stored, nth_stored in *. apply app_nth1. lia. }
    constructor; try (unfold_state; rewrite ?update_length, ?length_app; cbn [length]; auto; lia).
    + intros i Hi. unfold_state. rewrite length_app in Hi. cbn [length] in Hi. destruct (Z.eq_dec i (g_relay_write s)) as [->|Hne].
      * apply slot_for_update_same; [exact Hl|]. replace (Z.to_nat (g_relay_write s)) with (length (stored s)) by lia.
        rewrite app_nth2, Nat.sub_diag by lia. split; [reflexivity|exact Hfs].
      * rewrite Hnth by lia. apply (holds_update s); unfold_state; try lia. apply Hh. lia.
    + intros i Hi. unfold_state. rewrite length_app in Hi. cbn [length] in Hi. apply slot_for_update_other; [|apply Hf; lia].
      intros E. apply (same_slot (released s)) in E; unfold_state; lia.
    + unfold_state. rewrite firstn_app. rewrite Hs. f_equal. symmetry.
      match goal with |- ?a ++ ?b = _ => replace b with (@nil (list Z)); [apply app_nil_r|] end.
      match goal with |- _ = firstn ?n _ => replace n with 0%nat; [reflexivity|] end. destruct (cons s); lia.
    + unfold_state. destruct (cons s); auto; rewrite ?length_app; cbn [length]; rewrite ?Hnth by lia; intuition lia.
  - constructor; unfold_state; auto; try lia; rewrite ?i32_small by lia; auto; lia.
Qed.

Lemma inv_clients k s c : Inv k s -> Inv k (set_clients c s).
Proof. intros [Ho Hl Hc Hk Hw Hh Hf Hs Hp Hcs]. constructor; unfold_state; auto. Qed.

Lemma inv_remove k s dead : Inv k s -> Inv k (fold_left removeDataClient dead s).
Proof. revert s. induction dead as [|fd dead IH]; intros s H; cbn [fold_left]; auto. apply IH. now apply inv_clients. Qed.

(** The consumer is at a stored buffer. *)
Ltac at_slot Hh :=
  match goal with |- context [with_slot ?s (g_relay_read ?s mod 64) ?k] =>
    destruct (with_slot_at s (g_relay_read s) k _ (Hh (g_relay_read s) ltac:(unfold_state; lia))) as (slot & Hr & _ & ->) end.

Lemma cons_inv k s ok : Inv k s -> k < 2 ^ 31 -> Inv k (dataSenderThread ok s).
Proof.
  intros [Ho Hl Hc Hk Hw Hh Hf Hs Hp Hcs] Hb. unfold dataSenderThread. unfold cons_ok in Hcs. unfold released, n_sent in *.
  destruct (cons s) as [|idx|idx|n idx|idx f|f|f] eqn:Ec.
  - rewrite slot_index_mod by lia. constructor; unfold_state; auto; rewrite Ec in *; auto.
  - subst idx. destruct (Z.eq_dec (g_relay_read s) (n_stored s)) as [E|E].
    + at_slot Hf. rewrite Hr. cbn [negb]. constructor; unfold_state; auto; rewrite Ec in *; auto.
    + at_slot Hh. destruct Hr as [Hr _]. rewrite Hr. cbn [negb]. constructor; unfold_state; auto; rewrite Ec in *; auto. split; [reflexivity|lia].
  - destruct Hcs as [-> Hlt]. at_slot Hh. destruct Hr as (_ & _ & Hn & _).
    constructor; unfold_state; auto; rewrite Ec in *; auto.
  - destruct Hcs as (-> & Hlt & Hn). at_slot Hh. destruct Hr as (_ & Hfl). assert (En : n = num_samples slot) by (destruct Hfl as (_ & ? & _); lia).
    rewrite En, (frame_of_slot _ _ Hfl). constructor; unfold_state; auto; rewrite Ec in *; auto.
  - destruct Hcs as (-> & Hlt & Hfr). at_slot Hh.
    assert (Hoth : forall i P, g_relay_read s < i < g_relay_read s + 64 -> slot_for (g_relay_pool s) i P ->
      slot_for (update (g_relay_pool s) (Z.to_nat (g_relay_read s mod 64)) (mkSlot (data slot) (num_samples slot) false)) i P).
    { intros i P Hi. apply slot_for_update_other. intros E. apply (same_slot (g_relay_read s)) in E; lia. }
    constructor; try (unfold_state; rewrite ?update_length; auto; lia).
    + intros i Hi. unfold_state. apply Hoth; [lia|]. apply Hh. lia.
    + intros i Hi. unfold_state. destruct (Z.eq_dec i (g_relay_read s + 64)) as [->|Hne].
      * replace ((g_relay_read s + 64) mod 64) with (g_relay_read s mod 64).
        2:{ replace (g_relay_read s + 64) with (g_relay_read s + 1 * 64) by lia. symmetry. apply Z.mod_add. lia. }
        assert (Hsame := slot_for_update_same (g_relay_pool s) (g_relay_read s) (mkSlot (data slot) (num_samples slot) false)
          (fun slot => ready slot = false) Hl eq_refl). destruct Hsame as (x & Ex & Hx). exists x. split; [|exact Hx].
        replace ((g_relay_read s + 64) mod 64) with (g_relay_read s mod 64); [exact Ex|].
        replace (g_relay_read s + 64) with (g_relay_read s + 1 * 64) by lia. symmetry. apply Z.mod_add. lia.
      * apply Hoth; [lia|]. apply Hf. lia.
    + unfold_state. rewrite Ec in *. destruct (prod s); auto; intuition (try lia); apply Hoth; auto; lia.
  - constructor; unfold_state; rewrite ?i32_small by lia; rewrite Ec in *; auto; try lia.
    + intros i Hi. apply Hh. lia.
    + intros i Hi. apply Hf. lia.
    + rewrite Hs. do 2 f_equal. lia.
    + destruct (prod s); auto; intuition lia.
    + split; [lia|]. rewrite Hcs. do 3 f_equal. lia.
  - destruct Hcs as [H1 Hfr]. apply inv_remove. constructor; unfold_state; rewrite Ec in *; auto; try lia.
    rewrite Hs, Hfr. replace (g_relay_read s - 0) with (Z.succ (g_relay_read s - 1)) by lia.
    rewrite Z2Nat.inj_succ, <- (firstn_snoc _ _ []), map_app by lia. reflexivity.
Qed.

(** ** Runs *)

Definition is_callback (e : Event) : bool := match e with Callback _ => true | _ => false end.
Definition callbacks (es : list Event) : Z := Z.of_nat (length (filter is_callback es)).

Lemma relay_step_inv k s e : Inv k s -> k < 2 ^ 31 - 1 -> Inv (k + callbacks [e]) (step s e).
Proof.
  intros H Hk. destruct e as [buf|ok|fd|m]; unfold callbacks; cbn [filter is_callback length Z.of_nat step].
  - now apply prod_inv.
  - rewrite Z.add_0_r. apply cons_inv; [exact H|lia].
  - rewrite Z.add_0_r. now apply inv_clients.
  - rewrite Z.add_0_r. destruct H as [Ho Hl Hc Hk' Hw Hh Hf Hs Hp Hcs]. constructor; unfold_state; auto.
Qed.

Lemma callbacks_cons e es : callbacks (e :: es) = callbacks [e] + callbacks es.
Proof. unfold callbacks. cbn [filter]. destruct (is_callback e); cbn [length]; lia. Qed.

Lemma relay_run_inv k s es : Inv k s -> k + callbacks es < 2 ^ 31 -> Inv (k + callbacks es) (run es s).
Proof.
  revert k s. induction es as [|e es IH]; intros k s H Hk; [now rewrite Z.add_0_r|].
  rewrite callbacks_cons in Hk |- *. unfold run. cbn [fold_left]. fold (run es (step s e)). rewrite Z.add_assoc.
  apply IH; [|lia]. assert (Hc : callbacks [e] = 0 \/ callbacks [e] = 1) by (destruct e; auto).
  assert (0 <= callbacks es) by (unfold callbacks; lia).
  destruct (Z.lt_ge_cases k (2 ^ 31 - 1)) as [Hlt|Hge]; [now apply relay_step_inv|].
  destruct e as [buf|ok|fd|m]; [change (callbacks [Callback buf]) with 1 in *; lia|..]; cbn [step]; change (callbacks _) with 0; rewrite Z.add_0_r.
  - apply cons_inv; [exact H|lia].
  - now apply inv_clients.
  - destruct H as [Ho Hl Hcc Hk' Hw Hh Hf Hs Hp Hcs]. constructor; unfold_state; auto.
Qed.

(** *** What was stored was offered, in order *)

Inductive subseq {A} : list A -> list A -> Prop :=
| subseq_nil l : subseq [] l
| subseq_take x a l : subseq a l -> subseq (x :: a) (x :: l)
| subseq_skip x a l : subseq a l -> subseq a (x :: l).

Lemma subseq_snoc {A} (a l : list A) x : subseq a l -> subseq (a ++ [x]) (l ++ [x]).
Proof.
  induction 1 as [l|y a l _ IH|y a l _ IH]; cbn [app]; [|now constructor..].
  induction l as [|z l IHl]; cbn; [constructor; constructor|now constructor].
Qed.

Lemma subseq_app_r {A} (a l m : list A) : subseq a l -> subseq a (l ++ m).
Proof. induction 1; cbn [app]; now constructor. Qed.

Lemma subseq_app_l {A} (a b l : list A) : subseq (a ++ b) l -> subseq a l.
Proof.
  remember (a ++ b) as c eqn:E. intros H. revert a b E. induction H as [l|x c l H IH|x c l H IH]; intros a b E.
  - symmetry in E. apply app_eq_nil in E as [-> _]. constructor.
  - destruct a as [|y a]; [constructor|]. injection E as -> E. constructor. eapply IH, E.
  - constructor. eapply IH, E.
Qed.

Lemma subseq_Forall {A} (P : A -> Prop) a l : subseq a l -> Forall P l -> Forall P a.
Proof. induction 1; intros H1; auto; inversion H1; subst; auto. Qed.

(** The buffer being stored. *)
Definition pending (s : Relay) : list (list Z) :=
  match prod s with
  | PIdle | PAdvance => []
  | PCheck b _ _ | PCopy b _ _ | PCount _ _ b | PReady _ b => [taken b]
  end.
Definition offered (es : list Event) : list (list Z) :=
  flat_map (fun e => match e with Callback ([] as b) => [] | Callback b => [taken b] | _ => [] end) es.

Lemma stored_remove dead s : stored (fold_left removeDataClient dead s) = stored s /\ prod (fold_left removeDataClient dead s) = prod s.
Proof. revert s. induction dead as [|fd dead IH]; intros s; cbn [fold_left]; [auto|]. destruct (IH (removeDataClient s fd)) as [-> ->]. auto. Qed.

Lemma sender_stored ok s : stored (dataSenderThread ok s) = stored s /\ prod (dataSenderThread ok s) = prod s.
Proof.
  unfold dataSenderThread, with_slot. destruct (cons s); try (split; reflexivity);
    try (destruct (slot_at s idx) as [slot|]; [try (destruct (negb (ready slot)))|]; split; reflexivity).
  cbv zeta. destruct (stored_remove (filter (fun fd => negb (ok fd)) (g_data_clients s)) (set_cons CIdle (add_sent frame s))) as [-> ->]. auto.
Qed.

Lemma callback_offered buf s bs : subseq (stored s ++ pending s) bs ->
  subseq (stored (broadcastAudio buf s) ++ pending (broadcastAudio buf s)) (bs ++ offered [Callback buf]).
Proof.
  intros H. assert (Hk := subseq_app_r _ _ (offered [Callback buf]) H). unfold broadcastAudio, with_slot. unfold pending in H, Hk.
  destruct (prod s) eqn:Ep; cbv zeta.
  - destruct buf as [|x buf]; [rewrite orb_true_r; unfold pending; cbn [prod beat]; rewrite Ep; exact Hk|].
    rewrite orb_false_r. destruct (g_mode (beat s)); unfold pending; cbn [prod beat set_prod stored];
      rewrite ?Ep; try exact Hk; rewrite app_nil_r in H; now apply subseq_snoc.
  - destruct (slot_at s idx) as [slot|]; [destruct (ready slot)|]; unfold pending; cbn [prod set_prod set_oob stored]; rewrite ?Ep; auto.
    rewrite app_nil_r. now apply subseq_app_l in Hk.
  - destruct (slot_at s idx) as [slot|]; unfold pending; cbn [prod set_prod set_slot set_pool set_oob stored]; rewrite ?Ep; auto.
  - destruct (slot_at s idx) as [slot|]; unfold pending; cbn [prod set_prod set_slot set_pool set_oob stored]; rewrite ?Ep; auto.
  - destruct (slot_at s idx) as [slot|]; unfold pending; cbn [prod set_prod add_stored set_slot set_pool set_oob stored]; rewrite ?Ep; auto.
    now rewrite app_nil_r.
  - unfold pending. cbn [prod set_prod set_write stored]. exact Hk.
Qed.

Lemma run_offered es s bs : subseq (stored s ++ pending s) bs ->
  subseq (stored (run es s) ++ pending (run es s)) (bs ++ offered es).
Proof.
  revert s bs. induction es as [|e es IH]; intros s bs H; [cbn; now rewrite app_nil_r|].
  unfold run. cbn [fold_left]. fold (run es (step s e)).
  replace (bs ++ offered (e :: es)) with ((bs ++ offered [e]) ++ offered es)
    by (unfold offered; cbn [flat_map]; now rewrite app_nil_r, app_assoc).
  apply IH. destruct e as [buf|ok|fd|m]; [now apply callback_offered|..]; cbn [step]; unfold offered at 1; cbn [flat_map]; rewrite app_nil_r; auto.
  unfold pending. destruct (sender_stored ok s) as [-> ->]. exact H.
Qed.

(** *** Draining the ring *)

(** How many accesses of the consumer are left until the ring is empty. *)
Definition rank (s : Relay) : Z :=
  let left := 7 * (n_stored s - g_relay_read s) in
  match cons s with
  | CIdle => left
  | CCheck _ => if g_relay_read s <? n_stored s then left - 1 else 1
  | CCount _ => left - 2
  | CFrame _ _ => left - 3
  | CRelease _ _ => left - 4
  | CAdvance _ => left - 5
  | CSend _ => left + 1
  end.

Lemma rank_remove dead s : rank (fold_left removeDataClient dead s) = rank s.
Proof. revert s. induction dead as [|fd dead IH]; intros s; cbn [fold_left]; [reflexivity|]. now rewrite IH. Qed.

Lemma rank_step k s ok : Inv k s -> k < 2 ^ 31 ->
  (cons s = CIdle /\ g_relay_read s = n_stored s) \/ rank (dataSenderThread ok s) = rank s - 1.
Proof.
  intros [Ho Hl Hc Hk Hw Hh Hf Hs Hp Hcs] Hb. unfold dataSenderThread. unfold cons_ok in Hcs. unfold released, n_sent in *.
  unfold rank at 2. destruct (cons s) as [|idx|idx|n idx|idx f|f|f] eqn:Ec; rewrite ?Z.add_0_r in *.
  - destruct (Z.eq_dec (g_relay_read s) (n_stored s)) as [E|E]; [now left|right]. unfold rank, set_cons, n_stored in *.
    cbn [cons g_relay_read stored]. destruct (Z.ltb_spec (g_relay_read s) (Z.of_nat (length (stored s)))); lia.
  - subst idx. right. destruct (Z.ltb_spec (g_relay_read s) (n_stored s)) as [E|E].
    + at_slot Hh. destruct Hr as [Hr _]. rewrite Hr. unfold rank, set_cons, n_stored in *. cbn [negb cons g_relay_read stored]. lia.
    + at_slot Hf. rewrite Hr. unfold rank, set_cons, n_stored in *. cbn [negb cons g_relay_read stored]. lia.
  - right. destruct Hcs as [-> Hlt]. at_slot Hh. unfold rank, set_cons, n_stored in *. cbn [cons g_relay_read stored]. lia.
  - right. destruct Hcs as (-> & Hlt & _). at_slot Hh. unfold rank, set_cons, n_stored in *. cbn [cons g_relay_read stored]. lia.
  - right. destruct Hcs as (-> & Hlt & _). at_slot Hh. unfold rank, set_cons, set_slot, set_pool, n_stored in *. cbn [cons g_relay_read stored]. lia.
  - right. unfold rank, set_cons, set_read, n_stored in *. cbn [cons g_relay_read stored]. rewrite i32_small by lia. lia.
  - right. rewrite rank_remove. unfold rank, set_cons, add_sent, n_stored in *. cbn [cons g_relay_read stored]. lia.
Qed.

Lemma rank_nonneg k s : Inv k s -> 0 <= rank s.
Proof.
  intros [_ _ _ _ Hw _ _ _ _ Hcs]. unfold rank, released, cons_ok, n_stored in *.
  destruct (cons s); try lia. destruct (Z.ltb_spec (g_relay_read s) (Z.of_nat (length (stored s)))); lia.
Qed.

Lemma drain k s ok n : Inv k s -> k < 2 ^ 31 -> Z.of_nat n = rank s ->
  let s' := run (repeat (Sender ok) n) s in Inv k s' /\ stored s' = stored s /\ g_relay_read s' = n_stored s /\ cons s' = CIdle.
Proof.
  revert s. induction n as [|n IH]; intros s H Hk Hn.
  - cbn. split; [exact H|]. split; [reflexivity|]. destruct H as [_ _ _ _ Hw _ _ _ _ Hcs]. unfold rank, released, cons_ok, n_stored in *.
    destruct (cons s); try lia; [split; [lia|reflexivity]|]. destruct (Z.ltb_spec (g_relay_read s) (Z.of_nat (length (stored s)))); lia.
  - cbn [repeat]. unfold run. cbn [fold_left step]. fold (run (repeat (Sender ok) n) (dataSenderThread ok s)).
    destruct (rank_step k s ok H Hk) as [[Ec Er]|E].
    + exfalso. unfold rank in Hn. rewrite Ec in Hn. lia.
    + destruct (IH (dataSenderThread ok s)) as (A & B & C & D); [now apply cons_inv|exact Hk|lia|].
      destruct (sender_stored ok s) as [Es _]. unfold n_stored in *. rewrite Es in *. auto.
Qed.

(** ** Theorems *)

(** C2: in every interleaving of the SDR callback and the sender thread, with
    fewer than 2^31 accesses of the callback, no access is outside the pool,
    the frames sent are the frames of the stored buffers, complete and in the
    order they were stored, none skipped, repeated or torn; at most 65 stored
    buffers are unsent; and the stored buffers are, in order, buffers that the
    SDR offered, cut to the size of a slot. *)
Theorem relay_ring_fifo es : callbacks es < 2 ^ 31 ->
  let s := run es init in
  oob s = false /\
  sent s = map slot_frame (firstn (length (sent s)) (stored s)) /\
  (length (sent s) <= length (stored s) <= length (sent s) + 65)%nat /\
  subseq (stored s) (offered es).
Proof.
  intros Hk s. pose proof (relay_run_inv 0 init es relay_inv_init Hk) as H. fold s in H. destruct H as [Ho _ _ _ Hw _ _ Hs _ Hcs].
  split; [exact Ho|].
  assert (Hb : 0 <= n_sent s <= n_stored s /\ n_stored s <= n_sent s + 65)
    by (unfold n_sent, released, n_stored, cons_ok in *; destruct (cons s); lia).
  assert (Hlen : length (sent s) = Z.to_nat (n_sent s)) by (rewrite Hs at 1; rewrite length_map, length_firstn; unfold n_stored in *; lia).
  split; [now rewrite Hlen|]. split; [rewrite Hlen; unfold n_stored in *; lia|].
  apply (subseq_app_l _ (pending s)). apply (run_offered es init []). constructor.
Qed.

Definition demo : list Event :=
  Accept 5 :: concat (repeat [Callback [1; -2; 3; 4]; Sender (fun _ => true)] 30).

Lemma relay_ring_fifo_witness :
  callbacks demo < 2 ^ 31 /\ oob (run demo init) = false /\ subseq (stored (run demo init)) (offered demo).
Proof.
  assert (H : callbacks demo < 2 ^ 31) by (vm_compute; reflexivity). split; [exact H|].
  destruct (relay_ring_fifo demo H) as (A & _ & _ & B). split; [exact A|exact B].
Defined.

(** C27: The sender makes progress: from every state that a run reaches, the
    sender thread alone, after a number of its accesses that is known from the
    state, has sent the frame of every stored buffer. *)
Theorem relay_ring_drains es ok : callbacks es < 2 ^ 31 ->
  let s := run es init in
  let s' := run (repeat (Sender ok) (Z.to_nat (rank s))) s in
  sent s' = map slot_frame (stored s) /\ rank s <= 7 * 65.
Proof.
  intros Hk s s'. pose proof (relay_run_inv 0 init es relay_inv_init Hk) as H. fold s in H.
  pose proof (rank_nonneg _ _ H) as Hr.
  destruct (drain _ s ok (Z.to_nat (rank s)) H ltac:(lia) ltac:(lia)) as (H' & Es & Er & Ec). fold s' in H', Es, Er, Ec.
  split.
  - destruct H' as [_ _ _ _ _ _ _ Hs _ _]. rewrite Hs. unfold n_sent. rewrite Ec, Er, Es, Z.sub_0_r. f_equal.
    apply firstn_all2. unfold n_stored. lia.
  - destruct H as [_ _ _ _ Hw _ _ _ _ Hcs]. unfold rank, released, cons_ok, n_stored in *. destruct (cons s); try lia.
    destruct (Z.ltb_spec (g_relay_read s) (Z.of_nat (length (stored s)))); lia.
Qed.

Lemma relay_ring_drains_witness :
  let s := run demo init in
  sent (run (repeat (Sender (fun _ => true)) (Z.to_nat (rank s))) s) = map slot_frame (stored s) /\ rank s <= 7 * 65.
Proof. apply (relay_ring_drains demo (fun _ => true)). vm_compute. reflexivity. Defined.

Lemma taken_slot_ok b : (2 <= length b)%nat -> Z.of_nat (length b) < 2 ^ 33 -> Forall is_i16 b -> slot_ok (taken b).
Proof.
  intros Hl Hb Hi. split.
  - exists (num_iq_pairs b). pose proof (num_iq_pairs_bound b). rewrite taken_length. split; [|reflexivity].
    assert (0 < num_iq_pairs b); [|lia]. unfold num_iq_pairs, u32. assert (1 <= Z.of_nat (length b) / 2 < 2 ^ 32).
    { split; [apply Z.div_le_lower_bound; lia|apply Z.div_lt_upper_bound; lia]. }
    rewrite Z.mod_small by lia. destruct (Z.ltb_spec SLOT_SAMPLES (Z.of_nat (length b) / 2)); unfold SLOT_SAMPLES in *; lia.
  - unfold taken. apply Forall_forall. intros x Hx. rewrite Forall_forall in Hi. apply Hi.
    rewrite <- (firstn_skipn (Z.to_nat (num_iq_pairs b * 2)) b). apply in_or_app. now left.
Qed.

Lemma relay_delivers es conn : callbacks es < 2 ^ 31 ->
  (forall buf, In (Callback buf) es -> buf = [] \/ ((2 <= length buf)%nat /\ Z.of_nat (length buf) < 2 ^ 33 /\ Forall is_i16 buf)) ->
  pieces_ok conn -> concat conn = concat (sent (run es init)) ->
  tcpReader conn = (firstn (length (sent (run es init))) (stored (run es init)), Some HeaderRead).
Proof.
  intros Hk Hbufs Hok E. pose proof (relay_run_inv 0 init es relay_inv_init Hk) as H. destruct H as [_ _ _ _ Hw _ _ Hs _ Hcs].
  set (s := run es init) in *.
  assert (Hlen : length (sent s) = Z.to_nat (n_sent s)).
  { rewrite Hs at 1. rewrite length_map, length_firstn. unfold n_sent, released, n_stored, cons_ok in *. destruct (cons s); lia. }
  apply slots_delivered; [|exact Hok|rewrite Hlen; now rewrite <- Hs].
  assert (Hall : Forall slot_ok (stored s)).
  { apply (subseq_Forall slot_ok _ (offered es)).
    - apply (subseq_app_l _ (pending s)). apply (run_offered es init []). constructor.
    - apply Forall_forall. intros x Hx. apply in_flat_map in Hx as (e & He & Hx). destruct e as [[|y b]|ok|fd|m]; try contradiction.
      destruct Hx as [<-|[]]. destruct (Hbufs _ He) as [Hn|(H1 & H2 & H3)]; [discriminate|]. now apply taken_slot_ok. }
  apply Forall_forall. intros x Hx. rewrite Forall_forall in Hall. apply Hall.
  rewrite <- (firstn_skipn (length (sent s)) (stored s)). apply in_or_app. now left.
Qed.

(** The whole path from the SDR callback to the daemon: whatever the
    interleaving in the relay, a daemon that receives the frames sent so far,
    cut by TCP in any way, hands on exactly the oldest stored buffers, in order
    and complete. *)
Theorem relay_to_daemon es conn : callbacks es < 2 ^ 31 ->
  (forall buf, In (Callback buf) es -> buf = [] \/ ((2 <= length buf)%nat /\ Z.of_nat (length buf) < 2 ^ 33 /\ Forall is_i16 buf)) ->
  pieces_ok conn -> concat conn = concat (sent (run es init)) ->
  tcpReader conn = (firstn (length (sent (run es init))) (stored (run es init)), Some HeaderRead).
Proof. apply relay_delivers. Qed.

Lemma relay_to_daemon_witness :
  tcpReader (sent (run demo init)) = (firstn (length (sent (run demo init))) (stored (run demo init)), Some HeaderRead).
Proof.
  apply relay_to_daemon.
  - vm_compute. reflexivity.
  - intros buf Hin. right. assert (buf = [1; -2; 3; 4]) as ->.
    { unfold demo in Hin. cbn [repeat concat app In] in Hin. repeat destruct Hin as [Hin|Hin]; try discriminate Hin; try contradiction; now injection Hin as <-. }
    split; [cbn; lia|]. split; [cbn; lia|]. repeat constructor; unfold is_i16; lia.
  - assert (E : forallb (fun p => match p with [] => false | _ => true end) (sent (run demo init)) = true) by (vm_compute; reflexivity).
    rewrite forallb_forall in E. apply Forall_forall. intros p Hp En. rewrite En in Hp. discriminate (E _ Hp).
  - reflexivity.
Defined.

(** The counters are of type int and wrap: the store after counter value
    2^31 - 1 makes the counter negative, and the second callback after that
    indexes the pool with a negative remainder, outside of it. *)
Theorem relay_counter_wraps s b1 b2 b3 : prod s = PAdvance -> g_mode s <> SCANNING -> b2 <> [] ->
  (g_relay_write s = 2 ^ 31 - 1 -> g_relay_write (step s (Callback b1)) = - 2 ^ 31) /\
  (g_relay_write s = - 2 ^ 31 -> oob (run [Callback b1; Callback b2; Callback b3] s) = true).
Proof.
  intros Ep Hm Hb. cbn [run fold_left step]. unfold broadcastAudio at 1. rewrite Ep. split; intros E.
  - cbn [set_prod set_write g_relay_write]. now rewrite E.
  - unfold broadcastAudio at 3. rewrite Ep, E. unfold broadcastAudio at 2. cbn [set_prod set_write prod]. cbv zeta.
    cbn [beat set_prod set_write g_mode g_relay_write].
    destruct (g_mode s); try congruence; (destruct b2; [congruence|]); reflexivity.
Qed.

Lemma relay_counter_wraps_witness :
  oob (run [Callback []; Callback [1; 2]; Callback []]
    (set_prod PAdvance (set_write (- 2 ^ 31) init))) = true.
Proof. apply relay_counter_wraps; [reflexivity|discriminate|discriminate|reflexivity]. Defined.
