(* ===== verification/Scanner.v ===== *)
(** * Scanner: the FM band scan of the relay

    Models the worker that the SCAN command starts in [handleCommand] of
    [src/sdr-relay/main.cpp] and its constants in [relay_config.hpp].
    Frequencies are [double]s and signal levels are [float]s, with the IEEE
    arithmetic of the Standard Library's [SpecFloat].  The levels are what
    [getValidatedPower] returns: a parameter. *)

From Stdlib Require Import ZArith List Lia Bool SpecFloat.
Import ListNotations.
From S2P Require Import Prelude.
#[local] Open Scope Z_scope.

Abbreviation double := spec_float.
Abbreviation float := spec_float.
Definition dadd : double -> double -> double := SFadd 53 1024.
Definition dmul : double -> double -> double := SFmul 53 1024.

(** 88.1, 107.9, 0.1 and 10.0 as doubles. *)
Definition SCAN_START_MHZ : double := S754_finite false 6199486362052198 (-46).
Definition SCAN_END_MHZ : double := S754_finite false 7592787496769946 (-46).
Definition SCAN_STEP_MHZ : double := S754_finite false 7205759403792794 (-56).
Definition ten : double := S754_finite false 5629499534213120 (-49).
Definition f_m85 : float := S754_finite true 11141120 (-17).
Definition f_m999 : float := S754_finite true 16367616 (-14).

(** [static_cast<int>(std::round(x))]: halves away from zero. *)
Definition round_int (x : double) : Z :=
  match x with
  | S754_finite s m e =>
      let r := if 0 <=? e then Z.shiftl (Zpos m) e
               else (2 * Zpos m + 2 ^ (- e)) / (2 * 2 ^ (- e)) in
      if s then - r else r
  | _ => 0
  end.
Definition freq10 (freqMHz : double) : Z := round_int (dmul freqMHz ten).

(** The frequencies of the [for] loop. *)
Fixpoint scan_freqs (fuel : nat) (freqMHz : double) : option (list double) :=
  match fuel with
  | O => None
  | S fuel' =>
      if SFleb freqMHz SCAN_END_MHZ
      then option_map (cons freqMHz) (scan_freqs fuel' (dadd freqMHz SCAN_STEP_MHZ))
      else Some []
  end.
Definition sweep : option (list double) := scan_freqs 1000 SCAN_START_MHZ.

(** The local variables of the loop. *)
Record Scan := mkScan { bestFreq : double; bestRssi : float; inCluster : bool; clusterSteps : Z; found_stations : list double }.

Definition push_station (s : Scan) : list double :=
  if (2 <=? clusterSteps s) && SFltb (S754_zero false) (bestFreq s) then found_stations s ++ [bestFreq s] else found_stations s.

Definition scan_step (squelchThreshold : float) (s : Scan) (m : double * float) : Scan :=
  let '(freqMHz, currentRssi) := m in
  if SFleb squelchThreshold currentRssi then
    let s := mkScan (bestFreq s) (bestRssi s) true (clusterSteps s + 1) (found_stations s) in
    if negb (Z.rem (freq10 freqMHz) 2 =? 0) then
      if SFltb (bestRssi s) currentRssi
      then mkScan freqMHz currentRssi (inCluster s) (clusterSteps s) (found_stations s)
      else s
    else s
  else if inCluster s then mkScan (S754_zero false) f_m999 false 0 (push_station s)
  else s.

Definition scan_loop (squelchThreshold : float) (ms : list (double * float)) : list double :=
  let s := fold_left (scan_step squelchThreshold) ms (mkScan (S754_zero false) f_m999 false 0 []) in
  if inCluster s then push_station s else found_stations s.



(** [std::to_string] of a non-negative double: six decimals, rounded to nearest
    even; as ASCII codes. *)
Definition micro (x : double) : Z :=
  match x with
  | S754_finite false m e =>
      if 0 <=? e then Z.shiftl (Zpos m) e * 10 ^ 6
      else
        let d := 2 ^ (- e) in
        let q := Zpos m * 10 ^ 6 / d in
        let r := Zpos m * 10 ^ 6 mod d in
        if (d <? 2 * r) || ((2 * r =? d) && Z.odd q) then q + 1 else q
  | _ => 0
  end.
Fixpoint dec_digits (fuel : nat) (n : Z) (acc : list Z) : list Z :=
  match fuel with
  | O => acc
  | S fuel' => let acc := (48 + n mod 10) :: acc in if n <? 10 then acc else dec_digits fuel' (n / 10) acc
  end.
Fixpoint fixed_digits (k : nat) (n : Z) (acc : list Z) : list Z :=
  match k with O => acc | S k' => fixed_digits k' (n / 10) ((48 + n mod 10) :: acc) end.
Definition to_string (x : double) : list Z :=
  let u := micro x in dec_digits 20 (u / 10 ^ 6) [] ++ 46 :: fixed_digits 6 (u mod 10 ^ 6) [].
Definition station_name (bestFreq : double) : list Z := [70; 77; 32] ++ firstn 5 (to_string bestFreq).

(** ** The order of floating-point numbers *)

Definition key (x : spec_float) : Z * Z * Z :=
  match x with
  | S754_zero _ => (0, 0, 0)
  | S754_infinity s => (if s then -2 else 2, 0, 0)
  | S754_nan => (0, 0, 0)
  | S754_finite s m e => if s then (-1, - e, Z.neg m) else (1, e, Zpos m)
  end.
Definition key_lt (a b : Z * Z * Z) : Prop :=
  let '(a1, a2, a3) := a in let '(b1, b2, b3) := b in a1 < b1 \/ (a1 = b1 /\ (a2 < b2 \/ (a2 = b2 /\ a3 < b3))).
Definition is_nan (x : spec_float) : bool := match x with S754_nan => true | _ => false end.

Lemma ltb_key a b : SFltb a b = true <-> is_nan a = false /\ is_nan b = false /\ key_lt (key a) (key b).
Proof.
  unfold SFltb, SFcompare, key_lt.
  destruct a as [sa|sa| |sa ma ea], b as [sb|sb| |sb mb eb]; try destruct sa; try destruct sb; cbn [is_nan key];
    try (split; [discriminate|intros (? & ? & ?); discriminate]);
    try (split; [intros; repeat split; lia|reflexivity]);
    try (split; [discriminate|lia]).
  - change (Pos.compare_cont Eq ma mb) with (Pos.compare ma mb).
    destruct (Z.compare_spec ea eb) as [E|E|E]; [|split; [discriminate|lia]|split; [intros; repeat split; lia|reflexivity]].
    destruct (Pos.compare_spec ma mb); cbn [CompOpp]; split; try discriminate; try reflexivity; lia.
  - change (Pos.compare_cont Eq ma mb) with (Pos.compare ma mb).
    destruct (Z.compare_spec ea eb) as [E|E|E]; [|split; [intros; repeat split; lia|reflexivity]|split; [discriminate|lia]].
    destruct (Pos.compare_spec ma mb); split; try discriminate; try reflexivity; lia.
Qed.

Lemma ltb_trans a b c : SFltb a b = true -> SFltb b c = true -> SFltb a c = true.
Proof.
  rewrite !ltb_key. intros (A & B & H) (_ & C & H'). repeat split; auto.
  destruct (key a) as [[a1 a2] a3], (key b) as [[b1 b2] b3], (key c) as [[c1 c2] c3]. cbn in *. lia.
Qed.


(** ** Clusters: maximal runs of steps above the squelch *)

Abbreviation meas := (double * float)%type.
Definition above (thr : float) (m : meas) : bool := SFleb thr (snd m).
Definition odd_channel (m : meas) : bool := negb (Z.rem (freq10 (fst m)) 2 =? 0).

Definition flush (cur : list meas) : list (list meas) := match cur with [] => [] | _ => [cur] end.
Fixpoint runs (thr : float) (ms cur : list meas) : list (list meas) :=
  match ms with
  | [] => flush cur
  | m :: ms' => if above thr m then runs thr ms' (cur ++ [m]) else flush cur ++ runs thr ms' []
  end.
Definition clusters (thr : float) (ms : list meas) : list (list meas) := runs thr ms [].

(** The strongest odd channel of a cluster, the first of equals. *)
Definition pick (b : option meas) (m : meas) : option meas :=
  if odd_channel m then
    if SFltb (match b with Some b => snd b | None => f_m999 end) (snd m) then Some m else b
  else b.
Definition best (run : list meas) : option meas := fold_left pick run None.
Definition station_of (run : list meas) : list double :=
  if 2 <=? Z.of_nat (length run) then match best run with Some m => [fst m] | None => [] end else [].

Definition positive (f : double) : Prop := SFltb (S754_zero false) f = true.

(** The loop variables for the cluster read so far. *)
Definition at_cluster (cur : list meas) (found : list double) : Scan :=
  mkScan (match best cur with Some m => fst m | None => S754_zero false end)
    (match best cur with Some m => snd m | None => f_m999 end)
    (match cur with [] => false | _ => true end) (Z.of_nat (length cur)) found.

Lemma best_snoc cur m : best (cur ++ [m]) = pick (best cur) m.
Proof. unfold best. now rewrite fold_left_app. Qed.

Lemma best_In run m : best run = Some m -> In m run /\ odd_channel m = true.
Proof.
  revert m. induction run as [|x run IH] using rev_ind; intros m; [discriminate|]. rewrite best_snoc. unfold pick.
  destruct (odd_channel x) eqn:Eo; [destruct (SFltb _ _)|]; intros E.
  - injection E as <-. split; [apply in_or_app; right; now left|exact Eo].
  - apply IH in E as [E1 E2]. split; [apply in_or_app; now left|exact E2].
  - apply IH in E as [E1 E2]. split; [apply in_or_app; now left|exact E2].
Qed.

Lemma push_cluster cur found : Forall (fun m => positive (fst m)) cur ->
  push_station (at_cluster cur found) = found ++ station_of cur.
Proof.
  intros Hp. unfold push_station, station_of, at_cluster. cbn [clusterSteps bestFreq found_stations].
  destruct (2 <=? Z.of_nat (length cur)); cbn [andb]; [|now rewrite app_nil_r].
  destruct (best cur) as [m|] eqn:Eb; [|cbn; now rewrite app_nil_r].
  apply best_In in Eb as [Hin _]. rewrite Forall_forall in Hp. now rewrite (Hp m Hin).
Qed.

Lemma step_above thr cur found m : above thr m = true -> scan_step thr (at_cluster cur found) m = at_cluster (cur ++ [m]) found.
Proof.
  intros Ha. destruct m as [f r]. unfold scan_step, above in *. cbn [snd] in Ha. rewrite Ha. cbv zeta.
  unfold at_cluster. cbn [bestFreq bestRssi inCluster clusterSteps found_stations]. rewrite best_snoc. unfold pick, odd_channel. cbn [fst snd]. rewrite length_app. cbn [length].
  replace (Z.of_nat (length cur + 1)) with (Z.of_nat (length cur) + 1) by lia.
  replace (match cur ++ [(f, r)] with [] => false | _ => true end) with true by (destruct cur; reflexivity).
  destruct (negb _); [|reflexivity]. destruct (best cur) as [b|]; cbn [fst snd]; destruct (SFltb _ r); reflexivity.
Qed.

Lemma step_below thr cur found m : above thr m = false -> Forall (fun m => positive (fst m)) cur ->
  scan_step thr (at_cluster cur found) m = at_cluster [] (found ++ flat_map station_of (flush cur)).
Proof.
  intros Ha Hp. destruct m as [f r]. unfold scan_step, above in *. cbn [snd] in Ha. rewrite Ha.
  destruct cur as [|x cur]; [cbn; now rewrite app_nil_r|]. cbn [inCluster at_cluster].
  rewrite push_cluster by exact Hp. cbn [flush flat_map]. now rewrite app_nil_r.
Qed.

Lemma scan_runs thr ms cur found : Forall (fun m => positive (fst m)) (cur ++ ms) ->
  let s := fold_left (scan_step thr) ms (at_cluster cur found) in
  (if inCluster s then push_station s else found_stations s) = found ++ flat_map station_of (runs thr ms cur).
Proof.
  revert cur found. induction ms as [|m ms IH]; intros cur found Hp; cbn [fold_left runs].
  - rewrite app_nil_r in Hp. destruct cur as [|x cur]; [cbn; now rewrite app_nil_r|]. cbn [inCluster at_cluster].
    rewrite push_cluster by exact Hp. cbn [flush flat_map]. now rewrite app_nil_r.
  - destruct (above thr m) eqn:Ea.
    + rewrite step_above by exact Ea. apply IH. now rewrite <- app_assoc.
    + apply Forall_app in Hp as [Hc Hm]. rewrite step_below by assumption.
      cbv zeta. etransitivity; [apply IH; now apply Forall_cons_iff in Hm|]. now rewrite flat_map_app, app_assoc.
Qed.

Lemma scan_loop_runs thr ms : Forall (fun m => positive (fst m)) ms ->
  scan_loop thr ms = flat_map station_of (clusters thr ms).
Proof. intros Hp. exact (scan_runs thr ms [] [] Hp). Qed.

(** A run is a maximal stretch above the threshold. *)
Definition stops_before (thr : float) (pre : list meas) : Prop := pre = [] \/ exists p m, pre = p ++ [m] /\ above thr m = false.
Definition stops_after (thr : float) (post : list meas) : Prop := post = [] \/ exists m p, post = m :: p /\ above thr m = false.
Definition maximal (thr : float) (ms run : list meas) : Prop :=
  exists pre post, ms = pre ++ run ++ post /\ run <> [] /\ forallb (above thr) run = true /\
    stops_before thr pre /\ stops_after thr post.

Lemma runs_maximal thr ms cur pre run : stops_before thr pre -> forallb (above thr) cur = true ->
  In run (runs thr ms cur) -> maximal thr (pre ++ cur ++ ms) run.
Proof.
  assert (Hflush : forall cur pre post, In run (flush cur) -> stops_before thr pre -> forallb (above thr) cur = true ->
    stops_after thr post -> maximal thr (pre ++ cur ++ post) run).
  { intros c p q Hin Hp Hc Hq. destruct c as [|x c]; [contradiction|]. destruct Hin as [<-|[]].
    exists p, q. repeat split; auto. discriminate. }
  revert cur pre. induction ms as [|m ms IH]; intros cur pre Hp Hc Hin; cbn [runs] in Hin.
  - apply Hflush; auto. now left.
  - destruct (above thr m) eqn:Ea.
    + replace (pre ++ cur ++ m :: ms) with (pre ++ (cur ++ [m]) ++ ms) by now rewrite <- app_assoc.
      apply IH; auto. rewrite forallb_app, Hc. cbn. now rewrite Ea.
    + apply in_app_or in Hin as [Hin|Hin].
      * apply Hflush; auto. right. now exists m, ms.
      * replace (pre ++ cur ++ m :: ms) with ((pre ++ cur ++ [m]) ++ [] ++ ms) by now rewrite <- !app_assoc.
        apply IH; auto. right. exists (pre ++ cur), m. now rewrite <- app_assoc.
Qed.

(** Nothing above the threshold is left out of the runs. *)
Lemma runs_all thr ms cur : forallb (above thr) cur = true -> concat (runs thr ms cur) = cur ++ filter (above thr) ms.
Proof.
  revert cur. induction ms as [|m ms IH]; intros cur Hc; cbn [runs filter].
  - rewrite app_nil_r. destruct cur; [reflexivity|]. cbn. now rewrite app_nil_r.
  - destruct (above thr m) eqn:Ea.
    + rewrite IH by (rewrite forallb_app, Hc; cbn; now rewrite Ea). now rewrite <- app_assoc.
    + rewrite concat_app, IH by reflexivity. cbn [app]. f_equal. destruct cur; [reflexivity|]. cbn. now rewrite app_nil_r.
Qed.

Lemma leb_not_nan a b : SFleb a b = true -> is_nan b = false.
Proof. destruct b, a; try reflexivity; try discriminate; cbn; destruct s; discriminate. Qed.

Lemma best_none run : best run = None -> forall y, In y run -> odd_channel y = true -> SFltb f_m999 (snd y) = false.
Proof.
  induction run as [|z run IH] using rev_ind; [contradiction|]. rewrite best_snoc. unfold pick.
  destruct (best run) as [b|]; [destruct (odd_channel z); [destruct (SFltb _ _)|]; discriminate|].
  intros Eb y Hy Hyo. apply in_app_or in Hy as [Hy|[<-|[]]]; [apply IH; auto|].
  rewrite Hyo in Eb. destruct (SFltb f_m999 (snd z)); [discriminate|reflexivity].
Qed.

(** No odd channel of the cluster is stronger than the chosen one. *)
Lemma best_max run m : Forall (fun m => is_nan (snd m) = false) run -> best run = Some m ->
  SFltb f_m999 (snd m) = true /\ forall x, In x run -> odd_channel x = true -> SFltb (snd m) (snd x) = false.
Proof.
  revert m. induction run as [|x run IH] using rev_ind; intros m Hn; [discriminate|]. rewrite best_snoc. unfold pick.
  apply Forall_app in Hn as [Hn Hx]. apply Forall_cons_iff in Hx as [Hx _].
  assert (Hirr : forall a, SFltb a a = false).
  { intros a. destruct (SFltb a a) eqn:E; [|reflexivity]. apply ltb_key in E as (_ & _ & E).
    destruct (key a) as [[a1 a2] a3]. cbn in E. lia. }
  destruct (best run) as [b|] eqn:Eb.
  - destruct (IH b Hn eq_refl) as [I1 I2]. cbv iota. destruct (odd_channel x) eqn:Eo; [destruct (SFltb (snd b) (snd x)) eqn:El|]; intros E; injection E as E; subst m.
    + split; [now apply (ltb_trans _ (snd b))|]. intros y Hy Hyo. apply in_app_or in Hy as [Hy|[<-|[]]]; [|apply Hirr].
      destruct (SFltb (snd x) (snd y)) eqn:E; [|reflexivity]. rewrite <- (I2 y Hy Hyo). symmetry. now apply (ltb_trans _ (snd x)).
    + split; [exact I1|]. intros y Hy Hyo. apply in_app_or in Hy as [Hy|[<-|[]]]; auto.
    + split; [exact I1|]. intros y Hy Hyo. apply in_app_or in Hy as [Hy|[<-|[]]]; [auto|congruence].
  - pose proof (best_none run Eb) as Hlow.
    cbv iota. destruct (odd_channel x) eqn:Eo; [|discriminate]. destruct (SFltb f_m999 (snd x)) eqn:El; [|discriminate]. intros E; injection E as E; subst m.
    split; [exact El|]. intros y Hy Hyo. apply in_app_or in Hy as [Hy|[<-|[]]]; [|apply Hirr].
    destruct (SFltb (snd x) (snd y)) eqn:E; [|reflexivity]. rewrite <- (Hlow y Hy Hyo). symmetry. now apply (ltb_trans _ (snd x)).
Qed.



(** ** The sweep *)

(** The name of the station on a channel, in tenths of a MHz. *)
Definition channel_name (k : Z) : list Z :=
  let d n := 48 + n mod 10 in
  if k <? 1000 then [70; 77; 32; d (k / 100); d (k / 10); 46; d k; 48]
  else [70; 77; 32; d (k / 1000); d (k / 100); d (k / 10); 46; d k].

(** What is computed of the sweep, in one evaluation. *)
Definition sweep_check (o : option (list double)) : bool :=
  match o with
  | Some fs =>
      forallb (SFltb (S754_zero false)) fs &&
      (if list_eq_dec Z.eq_dec (map freq10 fs) (map (fun k => 881 + Z.of_nat k) (seq 0 199)) then true else false) &&
      forallb (fun f => if list_eq_dec Z.eq_dec (station_name f) (channel_name (freq10 f)) then true else false) fs
  | None => false
  end.

Lemma sweep_check_true : sweep_check sweep = true.
Proof. vm_cast_no_check (eq_refl true). Qed.

Lemma sweep_checked o : sweep_check o = true -> exists fs, o = Some fs /\ Forall positive fs /\
  map freq10 fs = map (fun k => 881 + Z.of_nat k) (seq 0 199) /\
  Forall (fun f => station_name f = channel_name (freq10 f)) fs.
Proof.
  unfold sweep_check. destruct o as [fs|]; [|discriminate]. intros H. exists fs. split; [reflexivity|].
  apply andb_true_iff in H as [H H3]. apply andb_true_iff in H as [H1 H2].
  rewrite forallb_forall in H1, H3. split; [now apply Forall_forall|].
  destruct (list_eq_dec Z.eq_dec (map freq10 fs) _) as [E|]; [|discriminate]. split; [exact E|].
  apply Forall_forall. intros f Hf. specialize (H3 f Hf). destruct (list_eq_dec _ _ _); [assumption|discriminate].
Qed.

Lemma sweep_ok : exists fs, sweep = Some fs /\ Forall positive fs /\
  map freq10 fs = map (fun k => 881 + Z.of_nat k) (seq 0 199) /\
  Forall (fun f => station_name f = channel_name (freq10 f)) fs.
Proof. exact (sweep_checked sweep sweep_check_true). Qed.




(** ** Theorems *)

(** Whatever the levels measured, the scan loop reports, in order, one
    station for each cluster that has one: the clusters are the maximal
    stretches of steps at or above the squelch, they hold every such step, and
    the station of a cluster of two steps or more is on an odd channel of the
    cluster than which no odd channel of the cluster is stronger. *)
Theorem scan_reports_clusters thr ms : Forall (fun m => positive (fst m)) ms ->
  scan_loop thr ms = flat_map station_of (clusters thr ms) /\
  concat (clusters thr ms) = filter (above thr) ms /\
  (forall run, In run (clusters thr ms) -> maximal thr ms run) /\
  (forall run f, In run (clusters thr ms) -> In f (station_of run) ->
     (2 <= length run)%nat /\
     exists r, In (f, r) run /\ odd_channel (f, r) = true /\
       forall x, In x run -> odd_channel x = true -> SFltb r (snd x) = false).
Proof.
  intros Hp. split; [now apply scan_loop_runs|]. split; [exact (runs_all thr ms [] eq_refl)|].
  assert (Hmax : forall run, In run (clusters thr ms) -> maximal thr ms run)
    by (intros run; apply (runs_maximal thr ms [] []); [now left|reflexivity]).
  split; [exact Hmax|]. intros run f Hr Hf. unfold station_of in Hf.
  destruct (Z.leb_spec 2 (Z.of_nat (length run))); [|contradiction]. split; [lia|].
  destruct (best run) as [m|] eqn:Eb; [|contradiction]. destruct Hf as [<-|[]]. exists (snd m).
  destruct (best_In _ _ Eb) as [Hin Ho]. destruct m as [f r]. split; [exact Hin|]. split; [exact Ho|].
  apply (best_max run (f, r)); [|exact Eb]. destruct (Hmax run Hr) as (_ & _ & _ & _ & Ha & _).
  rewrite forallb_forall in Ha. apply Forall_forall. intros x Hx. exact (leb_not_nan _ _ (Ha x Hx)).
Qed.

Lemma scan_reports_clusters_witness :
  scan_loop f_m85 [(SCAN_START_MHZ, f_m85); (SCAN_END_MHZ, f_m85)] =
    flat_map station_of (clusters f_m85 [(SCAN_START_MHZ, f_m85); (SCAN_END_MHZ, f_m85)]).
Proof. apply scan_reports_clusters. repeat constructor. Defined.

(** The sweep ends, and despite the rounding of the repeated addition of
    0.1 it visits each of the 199 channels from 88.1 to 107.9 MHz once, in
    order; the name of a station is FM and five characters of its frequency,
    so below 100 MHz it has a second decimal (FM 88.10). *)
Theorem scan_sweep_channels : exists fs, sweep = Some fs /\
  map freq10 fs = map (fun k => 881 + Z.of_nat k) (seq 0 199) /\
  Forall (fun f => station_name f = channel_name (freq10 f)) fs.
Proof. destruct sweep_ok as (fs & E & _ & H1 & H2). eauto. Qed.




