(* ===== verification/Ingest.v ===== *)
(** * Ingest: from the relay's frames to the demodulator's chunks

    Models [feedIQToPool] of [src/sdr-daemon/src/main.cpp], with the part of
    [demodThread] that takes chunks from the pool and gives the slots back.
    Frames have any length; the demodulator works on chunks of
    [IQ_CHUNK_SIZE] pairs, so the samples are staged.  A chunk for which the
    ring has no free slot is dropped, and [g_stream_gap] tells the demodulator
    to reset its filters.

    An event is a whole call of [feedIQToPool], or a whole round of the
    demodulator; in the code the two overlap, and share a slot only through its
    flags, which the reader sets before and clears after it uses the data.
    [chunks] is a history: every full chunk, with whether it was stored. *)

From Stdlib Require Import ZArith List Lia Bool.
Import ListNotations.
From S2P Require Import Prelude.
#[local] Open Scope Z_scope.

Definition POOL_SIZE : Z := 32.
Definition IQ_CHUNK_SIZE : Z := 16384.
Definition DIAG_IQ_PERIOD : Z := 500000.

Record IQSlot := mkIQSlot { data : list Z; len : Z; in_use : bool; ready : bool }.

Record Ingest := mkIngest {
  g_scanning : bool;
  g_heartbeat_count : Z;
  staging_buf : list Z;
  staging_len : Z;
  iq_pool : list IQSlot;
  iq_write_idx : Z;
  iq_read_idx : Z;
  g_stream_gap : bool;
  diag_iq_rx : Z;
  diag_iq_drop : Z;
  chunks : list (bool * list Z) }.

Definition slot0 : IQSlot := mkIQSlot [] 0 false false.
Definition get_slot (pool : list IQSlot) (idx : Z) : IQSlot := nth (Z.to_nat idx) pool slot0.
Fixpoint set_slot (pool : list IQSlot) (idx : nat) (x : IQSlot) : list IQSlot :=
  match pool, idx with
  | [], _ => []
  | _ :: pool', O => x :: pool'
  | y :: pool', S idx' => y :: set_slot pool' idx' x
  end.

(** [memcpy(dst + at, src, n)] on arrays of samples. *)
Definition copy_in (dst : list Z) (at_ : Z) (src : list Z) : list Z :=
  firstn (Z.to_nat at_) dst ++ src ++ skipn (Z.to_nat at_ + length src) dst.

(** The staged chunk goes to the pool, or is dropped. *)
Definition push_chunk (s : Ingest) : Ingest :=
  let idx := Z.rem (iq_write_idx s) POOL_SIZE in
  let chunk := staging_buf s in
  if in_use (get_slot (iq_pool s) idx) then
    mkIngest (g_scanning s) (g_heartbeat_count s) (staging_buf s) 0 (iq_pool s) (iq_write_idx s) (iq_read_idx s)
      true (diag_iq_rx s) (i32 (diag_iq_drop s + IQ_CHUNK_SIZE)) (chunks s ++ [(false, chunk)])
  else
    mkIngest (g_scanning s) (g_heartbeat_count s) (staging_buf s) 0
      (set_slot (iq_pool s) (Z.to_nat idx) (mkIQSlot chunk IQ_CHUNK_SIZE true true))
      (i32 (iq_write_idx s + 1)) (iq_read_idx s)
      (g_stream_gap s) (diag_iq_rx s) (diag_iq_drop s) (chunks s ++ [(true, chunk)]).

(** The copy loop; [rest] is the part of the buffer from [offset] on. *)
Fixpoint feed_loop (fuel : nat) (rest : list Z) (s : Ingest) : Ingest :=
  match fuel, rest with
  | O, _ => s
  | _, [] => s
  | S fuel', _ =>
      let space := IQ_CHUNK_SIZE * 2 - staging_len s in
      let to_copy := Z.min space (Z.of_nat (length rest)) in
      let piece := firstn (Z.to_nat to_copy) rest in
      let s := mkIngest (g_scanning s) (g_heartbeat_count s) (copy_in (staging_buf s) (staging_len s) piece)
                 (staging_len s + to_copy) (iq_pool s) (iq_write_idx s) (iq_read_idx s) (g_stream_gap s)
                 (diag_iq_rx s) (diag_iq_drop s) (chunks s) in
      if staging_len s <? IQ_CHUNK_SIZE * 2 then s
      else feed_loop fuel' (skipn (Z.to_nat to_copy) rest) (push_chunk s)
  end.

Definition feedIQToPool (iqBuffer : list Z) (s : Ingest) : Ingest :=
  let s := mkIngest (g_scanning s) (i64 (g_heartbeat_count s + 1)) (staging_buf s) (staging_len s) (iq_pool s)
             (iq_write_idx s) (iq_read_idx s) (g_stream_gap s) (diag_iq_rx s) (diag_iq_drop s) (chunks s) in
  if g_scanning s || match iqBuffer with [] => true | _ => false end then s
  else
    let s := mkIngest (g_scanning s) (g_heartbeat_count s) (staging_buf s) (staging_len s) (iq_pool s)
               (iq_write_idx s) (iq_read_idx s) (g_stream_gap s)
               (i32 (diag_iq_rx s + Z.of_nat (length iqBuffer) / 2)) (diag_iq_drop s) (chunks s) in
    feed_loop (S (length iqBuffer)) iqBuffer s.

(** One round of [demodThread] around its signal processing: whether the
    filters are reset, the chunk it processes, if one is ready, and the state
    with the slot released. *)
Definition demod_round (s : Ingest) : bool * option (list Z) * Ingest :=
  let reset := g_stream_gap s in
  let idx := Z.rem (iq_read_idx s) POOL_SIZE in
  let slot := get_slot (iq_pool s) idx in
  if negb (ready slot) then
    (reset, None,
     mkIngest (g_scanning s) (g_heartbeat_count s) (staging_buf s) (staging_len s) (iq_pool s) (iq_write_idx s)
       (iq_read_idx s) false (diag_iq_rx s) (diag_iq_drop s) (chunks s))
  else
    let chunk := firstn (Z.to_nat (len slot * 2)) (data slot) in
    let pool := set_slot (iq_pool s) (Z.to_nat idx) (mkIQSlot (data slot) (len slot) false false) in
    let '(rx, drop) := if DIAG_IQ_PERIOD <=? diag_iq_rx s then (i32 (diag_iq_rx s - DIAG_IQ_PERIOD), 0)
                       else (diag_iq_rx s, diag_iq_drop s) in
    (reset, Some chunk,
     mkIngest (g_scanning s) (g_heartbeat_count s) (staging_buf s) (staging_len s) pool (iq_write_idx s)
       (i32 (iq_read_idx s + 1)) false rx drop (chunks s)).

(** Runs: what the demodulator has processed, and the state. *)
Inductive Event := Feed (iqBuffer : list Z) | Demod | Scanning (b : bool).
Definition set_scanning (b : bool) (s : Ingest) : Ingest :=
  mkIngest b (g_heartbeat_count s) (staging_buf s) (staging_len s) (iq_pool s) (iq_write_idx s) (iq_read_idx s)
    (g_stream_gap s) (diag_iq_rx s) (diag_iq_drop s) (chunks s).
Definition step (st : list (list Z) * Ingest) (e : Event) : list (list Z) * Ingest :=
  let '(done, s) := st in
  match e with
  | Feed buf => (done, feedIQToPool buf s)
  | Demod => let '(_, c, s) := demod_round s in (match c with Some c => done ++ [c] | None => done end, s)
  | Scanning b => (done, set_scanning b s)
  end.
Definition init : Ingest :=
  mkIngest false 0 (repeat 0 (Z.to_nat (IQ_CHUNK_SIZE * 2))) 0
    (repeat (mkIQSlot (repeat 0 (Z.to_nat (IQ_CHUNK_SIZE * 2))) 0 false false) (Z.to_nat POOL_SIZE)) 0 0 false 0 0 [].
Definition run (es : list Event) : list (list Z) * Ingest := fold_left step es ([], init).

(** ** The ring *)

Lemma set_slot_length pool i x : length (set_slot pool i x) = length pool.
Proof. revert i. induction pool as [|y pool IH]; intros [|i]; cbn; auto. Qed.

Lemma get_set pool i j x : (i < length pool)%nat -> 0 <= j ->
  get_slot (set_slot pool i x) j = if Nat.eqb i (Z.to_nat j) then x else get_slot pool j.
Proof.
  unfold get_slot. intros Hi _. generalize (Z.to_nat j) as n. clear j. revert i Hi.
  induction pool as [|y pool IH]; intros [|i] Hi [|n]; cbn in *; try lia; auto. apply IH. lia.
Qed.

Lemma ring_index c : 0 <= c -> Z.rem c POOL_SIZE = c mod 32.
Proof. intros H. unfold POOL_SIZE. apply Z.rem_mod_nonneg; lia. Qed.

Lemma same_index b i j : b <= i < b + 32 -> b <= j < b + 32 -> Z.to_nat (i mod 32) = Z.to_nat (j mod 32) -> i = j.
Proof.
  intros Hi Hj E. apply Z2Nat.inj in E; [|apply Z.mod_pos_bound; lia..]. Z.div_mod_to_equations. lia.
Qed.

Definition full_len : nat := Z.to_nat (IQ_CHUNK_SIZE * 2).
Definition stored (s : Ingest) : list (list Z) := map snd (filter fst (chunks s)).
Definition staged (s : Ingest) : list Z := firstn (Z.to_nat (staging_len s)) (staging_buf s).
Definition free_slot (slot : IQSlot) : Prop := in_use slot = false /\ ready slot = false.
Definition full_slot (c : list Z) (slot : IQSlot) : Prop :=
  in_use slot = true /\ ready slot = true /\ len slot = IQ_CHUNK_SIZE /\ data slot = c.

(** The pool holds the stored chunks that the demodulator has not taken. *)
Record Ring (s : Ingest) (done : list (list Z)) : Prop := {
  ring_len : length (iq_pool s) = 32%nat;
  ring_write : iq_write_idx s = Z.of_nat (length (stored s));
  ring_read : iq_read_idx s = Z.of_nat (length done);
  ring_window : Z.of_nat (length done) <= Z.of_nat (length (stored s)) <= Z.of_nat (length done) + 32;
  ring_full : forall i, Z.of_nat (length done) <= i < Z.of_nat (length (stored s)) ->
    full_slot (nth (Z.to_nat i) (stored s) []) (get_slot (iq_pool s) (i mod 32));
  ring_free : forall i, Z.of_nat (length (stored s)) <= i < Z.of_nat (length done) + 32 ->
    free_slot (get_slot (iq_pool s) (i mod 32));
  ring_done : done = firstn (length done) (stored s) }.

Record Staging (s : Ingest) (stream : list Z) : Prop := {
  st_len : length (staging_buf s) = full_len;
  st_range : 0 <= staging_len s < IQ_CHUNK_SIZE * 2;
  st_chunks : Forall (fun c => length (snd c) = full_len) (chunks s);
  st_stream : concat (map snd (chunks s)) ++ staged s = stream }.

Lemma stored_snoc s b c cs : chunks s = cs ++ [(b, c)] ->
  stored s = map snd (filter fst cs) ++ (if b then [c] else []).
Proof. intros E. unfold stored. rewrite E, filter_app, map_app. destruct b; reflexivity. Qed.

(** Pushing a chunk. *)
Lemma push_ring s done : Ring s done -> Z.of_nat (length (stored s)) < 2 ^ 31 - 1 -> Ring (push_chunk s) done.
Proof.
  intros [Hl Hw Hr Hwin Hfull Hfree Hd] Hb. unfold push_chunk. rewrite ring_index by lia. rewrite Hw in *.
  set (w := Z.of_nat (length (stored s))) in *.
  destruct (in_use (get_slot (iq_pool s) (w mod 32))) eqn:Eu.
  - set (s' := mkIngest _ _ _ _ _ _ _ _ _ _ _). assert (Es : stored s' = stored s).
    { rewrite (stored_snoc s' false (staging_buf s) (chunks s) eq_refl). apply app_nil_r. }
    constructor; rewrite ?Es; cbn [s' iq_pool iq_write_idx iq_read_idx]; auto.
  - set (s' := mkIngest _ _ _ _ _ _ _ _ _ _ _). assert (Es : stored s' = stored s ++ [staging_buf s])
      by exact (stored_snoc s' true (staging_buf s) (chunks s) eq_refl).
    assert (Hroom : w < Z.of_nat (length done) + 32).
    { destruct (Z.eq_dec w (Z.of_nat (length done) + 32)) as [E|]; [|lia]. exfalso.
      destruct (Hfull (Z.of_nat (length done)) ltac:(lia)) as [Hu _]. rewrite E in Eu.
      replace ((Z.of_nat (length done) + 32) mod 32) with (Z.of_nat (length done) mod 32) in Eu; [congruence|].
      replace (Z.of_nat (length done) + 32) with (Z.of_nat (length done) + 1 * 32) by lia. symmetry. apply Z.mod_add. lia. }
    assert (Hget : forall i, Z.of_nat (length done) <= i < Z.of_nat (length done) + 32 ->
      get_slot (iq_pool s') (i mod 32) = if i =? w then mkIQSlot (staging_buf s) IQ_CHUNK_SIZE true true else get_slot (iq_pool s) (i mod 32)).
    { intros i Hi. cbn [s' iq_pool]. pose proof (mod32 i). pose proof (mod32 w). rewrite get_set by lia.
      destruct (Nat.eqb_spec (Z.to_nat (w mod 32)) (Z.to_nat (i mod 32))) as [E|E].
      - apply (same_index (Z.of_nat (length done))) in E; [|lia..]. now rewrite E, Z.eqb_refl.
      - destruct (Z.eqb_spec i w) as [->|]; [congruence|reflexivity]. }
    constructor; rewrite ?Es, ?length_app; cbn [length].
    + cbn [s' iq_pool]. now rewrite set_slot_length.
    + cbn [s' iq_write_idx]. rewrite i32_small; lia.
    + exact Hr.
    + lia.
    + intros i Hi. rewrite Hget by lia. destruct (Z.eqb_spec i w) as [->|Hne].
      * unfold w. rewrite Nat2Z.id, app_nth2, Nat.sub_diag by lia. now repeat split.
      * rewrite app_nth1 by lia. apply Hfull. lia.
    + intros i Hi. rewrite Hget by lia. destruct (Z.eqb_spec i w); [lia|]. apply Hfree. lia.
    + rewrite firstn_app. replace (length done - length (stored s))%nat with 0%nat by lia. now rewrite firstn_O, app_nil_r.
Qed.

(** The demodulator takes the oldest chunk. *)
Lemma demod_ring s done : Ring s done -> Z.of_nat (length (stored s)) < 2 ^ 31 ->
  Forall (fun c => length (snd c) = full_len) (chunks s) ->
  let '(_, c, s') := demod_round s in
  Ring s' (match c with Some c => done ++ [c] | None => done end) /\
  (c = None <-> length done = length (stored s)) /\
  staging_buf s' = staging_buf s /\ staging_len s' = staging_len s /\ chunks s' = chunks s /\ g_scanning s' = g_scanning s.
Proof.
  intros [Hl Hw Hr Hwin Hfull Hfree Hd] Hb Hlen. unfold demod_round. rewrite ring_index by lia. rewrite Hr.
  set (r := Z.of_nat (length done)) in *.
  destruct (Z.eq_dec r (Z.of_nat (length (stored s)))) as [E|E].
  - destruct (Hfree r ltac:(lia)) as [_ Hrd]. rewrite Hrd. cbn [negb]. split; [|split; [split; [lia|reflexivity]|auto]].
    constructor; auto.
  - destruct (Hfull r ltac:(lia)) as (Hu & Hrd & Hln & Hdt). rewrite Hrd. cbn [negb]. cbv zeta.
    set (c := firstn _ _). assert (Ec : c = nth (length done) (stored s) []).
    { unfold c. rewrite Hln, Hdt. unfold r. rewrite Nat2Z.id. apply firstn_all2.
      assert (Hin : In (nth (length done) (stored s) []) (stored s)) by (apply nth_In; lia).
      apply in_map_iff in Hin as (x & <- & Hx). apply filter_In in Hx as [Hx _]. rewrite Forall_forall in Hlen.
      rewrite (Hlen x Hx). unfold full_len. lia. }
    destruct (if DIAG_IQ_PERIOD <=? diag_iq_rx s then _ else _) as [rx drop].
    split; [|split; [split; [discriminate|intros; lia]|auto]].
    set (s' := mkIngest _ _ _ _ _ _ _ _ _ _ _). assert (Es : stored s' = stored s) by reflexivity.
    assert (Hget : forall i, r <= i < r + 33 ->
      get_slot (iq_pool s') (i mod 32) = if (i =? r) || (i =? r + 32) then mkIQSlot (data (get_slot (iq_pool s) (r mod 32))) (len (get_slot (iq_pool s) (r mod 32))) false false else get_slot (iq_pool s) (i mod 32)).
    { intros i Hi. cbn [s' iq_pool]. pose proof (mod32 i). pose proof (mod32 r). rewrite get_set by lia.
      assert (E32 : (r + 32) mod 32 = r mod 32) by (replace (r + 32) with (r + 1 * 32) by lia; apply Z.mod_add; lia).
      destruct (Z.eq_dec i (r + 32)) as [->|Hne].
      - now rewrite E32, Nat.eqb_refl, Z.eqb_refl, orb_true_r.
      - replace (i =? r + 32) with false by lia. rewrite orb_false_r.
        destruct (Nat.eqb_spec (Z.to_nat (r mod 32)) (Z.to_nat (i mod 32))) as [Ei|Ei].
        + apply (same_index r) in Ei; [|lia..]. now rewrite Ei, Z.eqb_refl.
        + destruct (Z.eqb_spec i r) as [->|]; [congruence|reflexivity]. }
    constructor; rewrite ?Es, ?length_app; cbn [length].
    + cbn [s' iq_pool]. now rewrite set_slot_length.
    + exact Hw.
    + cbn [s' iq_read_idx]. rewrite i32_small; lia.
    + lia.
    + intros i Hi. rewrite Hget by lia. replace (i =? r) with false by lia. replace (i =? r + 32) with false by lia. apply Hfull. lia.
    + intros i Hi. rewrite Hget by lia. replace (i =? r) with false by lia. destruct (Z.eqb_spec i (r + 32)); [now split|]. apply Hfree. lia.
    + rewrite Ec, Hd at 1. replace (length done + 1)%nat with (S (length done)) by lia.
      clear - Hwin E. assert (Hlt : (length done < length (stored s))%nat) by lia. revert Hlt. clear. generalize (length done) as n, (stored s) as l.
      intros n l. revert n. induction l as [|x l IH]; intros [|n] H; cbn in *; try lia; auto. f_equal. apply IH. lia.
Qed.

(** ** Staging *)

Lemma copy_in_ok dst at_ src : 0 <= at_ -> (Z.to_nat at_ + length src <= length dst)%nat ->
  length (copy_in dst at_ src) = length dst /\
  firstn (Z.to_nat at_ + length src) (copy_in dst at_ src) = firstn (Z.to_nat at_) dst ++ src.
Proof.
  intros Ha Hl. unfold copy_in. assert (Hf : length (firstn (Z.to_nat at_) dst) = Z.to_nat at_) by (rewrite length_firstn; lia).
  split.
  - rewrite !length_app, Hf, length_skipn. lia.
  - rewrite firstn_app, Hf. rewrite (firstn_all2 (firstn (Z.to_nat at_) dst)) by lia. f_equal.
    replace (Z.to_nat at_ + length src - Z.to_nat at_)%nat with (length src) by lia.
    now rewrite firstn_app, firstn_all, Nat.sub_diag, firstn_O, app_nil_r.
Qed.

Lemma feed_chunks fuel rest s : exists more, chunks (feed_loop fuel rest s) = chunks s ++ more.
Proof.
  revert rest s. induction fuel as [|fuel IH]; intros rest s; [exists []; now rewrite app_nil_r|].
  destruct rest as [|x rest]; [exists []; now rewrite app_nil_r|]. cbn [feed_loop]. cbv zeta. cbn [staging_len].
  match goal with |- context [if ?b then _ else _] => destruct b end; [exists []; cbn; now rewrite app_nil_r|].
  match goal with |- context [feed_loop fuel ?r ?s'] => destruct (IH r s') as (more & ->) end. unfold push_chunk.
  match goal with |- context [if ?b then _ else _] => destruct b end; cbn [chunks]; rewrite <- app_assoc; eauto.
Qed.

Lemma stored_le s : (length (stored s) <= length (chunks s))%nat.
Proof. unfold stored. rewrite length_map. apply filter_length_le. Qed.

(** One piece copied into the staging buffer. *)
Definition copied (s : Ingest) (piece : list Z) : Ingest :=
  mkIngest (g_scanning s) (g_heartbeat_count s) (copy_in (staging_buf s) (staging_len s) piece)
    (staging_len s + Z.of_nat (length piece)) (iq_pool s) (iq_write_idx s) (iq_read_idx s) (g_stream_gap s)
    (diag_iq_rx s) (diag_iq_drop s) (chunks s).

Lemma copied_staging s stream piece : Staging s stream -> staging_len s + Z.of_nat (length piece) < IQ_CHUNK_SIZE * 2 ->
  Staging (copied s piece) (stream ++ piece).
Proof.
  intros [Hl Hr Hc Hs] Hp. destruct (copy_in_ok (staging_buf s) (staging_len s) piece) as [C1 C2]; [lia|unfold full_len in *; lia|].
  constructor; cbn [copied staging_buf staging_len chunks]; auto; [congruence|lia|].
  rewrite <- Hs, <- app_assoc. f_equal. unfold staged. cbn [copied staging_buf staging_len].
  rewrite <- C2. f_equal. lia.
Qed.

Lemma copied_push s stream piece : Staging s stream -> staging_len s + Z.of_nat (length piece) = IQ_CHUNK_SIZE * 2 ->
  Staging (push_chunk (copied s piece)) (stream ++ piece).
Proof.
  intros [Hl Hr Hc Hs] Hp. destruct (copy_in_ok (staging_buf s) (staging_len s) piece) as [C1 C2]; [lia|unfold full_len in *; lia|].
  rewrite firstn_all2 in C2 by (unfold full_len in *; lia).
  assert (Hst : forall s', staging_buf s' = copy_in (staging_buf s) (staging_len s) piece -> staging_len s' = 0 ->
    (exists b, chunks s' = chunks s ++ [(b, copy_in (staging_buf s) (staging_len s) piece)]) -> Staging s' (stream ++ piece)).
  { intros s' E1 E2 (b & E3). constructor.
    - rewrite E1. congruence.
    - rewrite E2. unfold IQ_CHUNK_SIZE. lia.
    - rewrite E3. apply Forall_app. split; [exact Hc|]. constructor; [cbn [snd]; congruence|constructor].
    - unfold staged. rewrite E2, E3, map_app, concat_app. cbn [map concat snd Z.to_nat firstn]. rewrite !app_nil_r, C2, app_assoc.
      f_equal. exact Hs. }
  unfold push_chunk. match goal with |- context [if ?b then _ else _] => destruct b end; apply Hst; try reflexivity; cbn; eauto.
Qed.

Lemma feed_loop_ok fuel rest s stream done : Staging s stream -> Ring s done -> (length rest < fuel)%nat ->
  Z.of_nat (length (chunks (feed_loop fuel rest s))) < 2 ^ 31 ->
  Staging (feed_loop fuel rest s) (stream ++ rest) /\ Ring (feed_loop fuel rest s) done /\
  g_scanning (feed_loop fuel rest s) = g_scanning s.
Proof.
  revert rest s stream. induction fuel as [|fuel IH]; intros rest s stream HS HR Hf Hb; [lia|].
  destruct rest as [|x rest]; [cbn [feed_loop]; rewrite app_nil_r; auto|]. remember (x :: rest) as l eqn:El.
  assert (Hl : l <> []) by (subst; discriminate). assert (E : feed_loop (S fuel) l s =
    let to_copy := Z.min (IQ_CHUNK_SIZE * 2 - staging_len s) (Z.of_nat (length l)) in
    let s1 := copied s (firstn (Z.to_nat to_copy) l) in
    if staging_len s1 <? IQ_CHUNK_SIZE * 2 then s1 else feed_loop fuel (skipn (Z.to_nat to_copy) l) (push_chunk s1)).
  { pose proof (st_range _ _ HS) as Hr. subst l. cbn [feed_loop]. cbv zeta.
    set (k := Z.min _ _). unfold copied. rewrite !length_firstn.
    replace (Z.of_nat (Nat.min (Z.to_nat k) (length (x :: rest)))) with k by (unfold k; cbn [length]; lia). reflexivity. }
  rewrite E in *. clear E. cbv zeta in *. set (k := Z.min _ _) in *. pose proof (st_range _ _ HS) as Hr.
  assert (Hk : 0 < k) by (unfold k; destruct l; [congruence|cbn [length]; lia]).
  assert (Hfl : Z.of_nat (length (firstn (Z.to_nat k) l)) = k) by (rewrite length_firstn; unfold k; lia).
  cbn [copied staging_len] in Hb |- *. rewrite Hfl in Hb |- *.
  destruct (Z.ltb_spec (staging_len s + k) (IQ_CHUNK_SIZE * 2)) as [Hlt|Hge].
  - assert (Hall : firstn (Z.to_nat k) l = l) by (apply firstn_all2; unfold k in *; lia).
    rewrite Hall. split; [apply copied_staging; auto; rewrite Hall in Hfl; lia|]. split; [|reflexivity].
    destruct HR as [R1 R2 R3 R4 R5 R6 R7]. constructor; auto.
  - replace (stream ++ l) with ((stream ++ firstn (Z.to_nat k) l) ++ skipn (Z.to_nat k) l) by (now rewrite <- app_assoc, firstn_skipn).
    destruct (feed_chunks fuel (skipn (Z.to_nat k) l) (push_chunk (copied s (firstn (Z.to_nat k) l)))) as (more & Em).
    assert (Hpc : exists c, chunks (push_chunk (copied s (firstn (Z.to_nat k) l))) = chunks s ++ [c])
      by (unfold push_chunk; match goal with |- context [if ?b then _ else _] => destruct b end; eexists; reflexivity).
    destruct Hpc as (c & Epc).
    assert (Hring : Ring (push_chunk (copied s (firstn (Z.to_nat k) l))) done).
    { apply push_ring; [destruct HR as [R1 R2 R3 R4 R5 R6 R7]; constructor; auto|].
      change (stored (copied s (firstn (Z.to_nat k) l))) with (stored s). pose proof (stored_le s).
      rewrite Em, Epc, !length_app in Hb. cbn [length] in Hb. lia. }
    destruct (IH (skipn (Z.to_nat k) l) (push_chunk (copied s (firstn (Z.to_nat k) l))) (stream ++ firstn (Z.to_nat k) l)) as (A & B & C); auto.
    + apply copied_push; auto. unfold k in *. lia.
    + rewrite length_skipn. lia.
    + split; [exact A|]. split; [exact B|]. rewrite C. unfold push_chunk.
      match goal with |- context [if ?b then _ else _] => destruct b end; reflexivity.
Qed.

(** ** Runs *)

(** The samples that reach the staging buffer: those fed outside a scan. *)
Fixpoint accepted (scanning : bool) (es : list Event) : list Z :=
  match es with
  | [] => []
  | Feed buf :: es' => (if scanning then [] else buf) ++ accepted scanning es'
  | Demod :: es' => accepted scanning es'
  | Scanning b :: es' => accepted b es'
  end.

Definition Inv (st : list (list Z) * Ingest) (stream : list Z) : Prop :=
  Staging (snd st) stream /\ Ring (snd st) (fst st).

Lemma step_chunks st e : exists more, chunks (snd (step st e)) = chunks (snd st) ++ more.
Proof.
  destruct st as [done s]. destruct e as [buf| |b]; cbn [step snd].
  - unfold feedIQToPool. cbv zeta. match goal with |- context [if ?b then _ else _] => destruct b end; [exists []; cbn; now rewrite app_nil_r|].
    match goal with |- context [feed_loop ?f ?r ?s'] => exact (feed_chunks f r s') end.
  - exists []. rewrite app_nil_r. unfold demod_round. destruct (negb _); [reflexivity|]. cbv zeta.
    destruct (DIAG_IQ_PERIOD <=? diag_iq_rx s); reflexivity.
  - exists []. now rewrite app_nil_r.
Qed.

Lemma ingest_step_inv st e stream : Inv st stream -> Z.of_nat (length (chunks (snd (step st e)))) < 2 ^ 31 ->
  Inv (step st e) (stream ++ accepted (g_scanning (snd st)) [e]) /\
  g_scanning (snd (step st e)) = match e with Scanning b => b | _ => g_scanning (snd st) end.
Proof.
  intros [HS HR] Hb. destruct st as [done s]. cbn [fst snd] in *. destruct e as [buf| |b]; cbn [step snd fst accepted] in *.
  - rewrite app_nil_r. unfold feedIQToPool in *. cbv zeta in *. cbn [g_scanning] in *.
    destruct (g_scanning s || match buf with [] => true | _ => false end) eqn:Eg.
    + assert (Hn : (if g_scanning s then [] else buf) = @nil Z) by (destruct (g_scanning s); [reflexivity|destruct buf; [reflexivity|discriminate]]).
      rewrite Hn, app_nil_r. split; [|reflexivity]. destruct HS as [S1 S2 S3 S4], HR as [R1 R2 R3 R4 R5 R6 R7].
      split; constructor; auto.
    + apply orb_false_iff in Eg as [Eg _]. replace (if g_scanning s then [] else buf) with buf by (now rewrite Eg).
      match goal with |- context [feed_loop ?f ?r ?s'] => destruct (feed_loop_ok f r s' stream done) as (A & B & C) end.
      * destruct HS as [S1 S2 S3 S4]. constructor; auto.
      * destruct HR as [R1 R2 R3 R4 R5 R6 R7]. constructor; auto.
      * lia.
      * exact Hb.
      * split; [now split|exact C].
  - rewrite app_nil_r. pose proof (demod_ring s done HR) as H.
    assert (Hst : Z.of_nat (length (stored s)) < 2 ^ 31).
    { pose proof (stored_le s). unfold demod_round in Hb. destruct (negb _) in Hb; cbn [chunks snd] in Hb; [lia|].
      destruct (DIAG_IQ_PERIOD <=? diag_iq_rx s) in Hb; cbn [chunks snd] in Hb; lia. }
    specialize (H Hst (st_chunks _ _ HS)). destruct (demod_round s) as [[rs c] s']. destruct H as (A & _ & B1 & B2 & B3 & B4).
    split; [|exact B4]. split; [|destruct c; exact A]. cbn [snd]. destruct HS as [S1 S2 S3 S4].
    constructor; rewrite ?B1, ?B2, ?B3; auto. unfold staged. now rewrite B1, B2.
  - rewrite app_nil_r. split; [|reflexivity]. destruct HS as [S1 S2 S3 S4], HR as [R1 R2 R3 R4 R5 R6 R7]. split; constructor; auto.
Qed.

Lemma fold_chunks es st : exists more, chunks (snd (fold_left step es st)) = chunks (snd st) ++ more.
Proof.
  revert st. induction es as [|e es IH]; intros st; cbn [fold_left]; [exists []; now rewrite app_nil_r|].
  destruct (IH (step st e)) as (m2 & E2). destruct (step_chunks st e) as (m1 & E1). exists (m1 ++ m2). rewrite E2, E1. apply eq_sym, app_assoc.
Qed.

Lemma fold_inv es st stream : Inv st stream -> Z.of_nat (length (chunks (snd (fold_left step es st)))) < 2 ^ 31 ->
  Inv (fold_left step es st) (stream ++ accepted (g_scanning (snd st)) es).
Proof.
  revert st stream. induction es as [|e es IH]; intros st stream HI Hb; cbn [fold_left] in *; [now rewrite app_nil_r|].
  destruct (fold_chunks es (step st e)) as (more & Em).
  destruct (ingest_step_inv st e stream HI) as [HI' Hg]; [rewrite Em, length_app in Hb; lia|].
  specialize (IH _ _ HI' Hb). rewrite Hg in IH. rewrite <- app_assoc in IH.
  destruct e; cbn [accepted] in *; rewrite ?app_nil_r in IH; exact IH.
Qed.

Lemma ingest_inv_init : Inv ([], init) [].
Proof.
  assert (Hget : forall i, get_slot (iq_pool init) (i mod 32) = mkIQSlot (repeat 0 (Z.to_nat (IQ_CHUNK_SIZE * 2))) 0 false false).
  { intros i. unfold get_slot. cbn [iq_pool init]. change (Z.to_nat POOL_SIZE) with 32%nat.
    apply nth_repeat_lt. pose proof (mod32 i). lia. }
  split; constructor; cbn [fst snd].
  - apply repeat_length.
  - cbn [staging_len init]. unfold IQ_CHUNK_SIZE. lia.
  - constructor.
  - reflexivity.
  - apply repeat_length.
  - reflexivity.
  - reflexivity.
  - cbn. lia.
  - intros i Hi. cbn in Hi. lia.
  - intros i _. rewrite Hget. now split.
  - reflexivity.
Qed.

Lemma ingest_conserves es : Z.of_nat (length (chunks (snd (run es)))) < 2 ^ 31 ->
  let '(done, s) := run es in
  concat (map snd (chunks s)) ++ staged s = accepted false es /\
  Forall (fun c => Z.of_nat (length (snd c)) = IQ_CHUNK_SIZE * 2) (chunks s) /\
  0 <= staging_len s < IQ_CHUNK_SIZE * 2 /\
  done = firstn (length done) (stored s) /\
  (length done <= length (stored s) <= length done + 32)%nat.
Proof.
  intros Hb. pose proof (fold_inv es ([], init) [] ingest_inv_init Hb) as [[S1 S2 S3 S4] [R1 R2 R3 R4 R5 R6 R7]].
  fold (run es) in *. destruct (run es) as [done s]. cbn [fst snd] in *.
  split; [exact S4|]. split; [|split; [exact S2|split; [exact R7|lia]]].
  eapply Forall_impl; [|exact S3]. intros c Hc. rewrite Hc. unfold full_len. lia.
Qed.

(** C25: however the frames cut the sample stream and whatever the timing of the
    demodulator, the full chunks, stored and dropped, with the staged rest are
    exactly the samples fed outside scans, in order; every chunk has
    IQ_CHUNK_SIZE pairs; the demodulator processes the stored chunks, in order,
    none twice, and at most 32 of them wait in the pool. *)
Theorem ingest_stream es : Z.of_nat (length (chunks (snd (run es)))) < 2 ^ 31 ->
  let '(done, s) := run es in
  concat (map snd (chunks s)) ++ staged s = accepted false es /\
  Forall (fun c => Z.of_nat (length (snd c)) = IQ_CHUNK_SIZE * 2) (chunks s) /\
  0 <= staging_len s < IQ_CHUNK_SIZE * 2 /\
  done = firstn (length done) (stored s) /\
  (length done <= length (stored s) <= length done + 32)%nat.
Proof. apply ingest_conserves. Qed.

Lemma ingest_stream_witness :
  let es := [Feed [1; 2; 3; 4]; Scanning true; Feed [9; 9]; Scanning false; Demod; Feed [5; 6]] in
  concat (map snd (chunks (snd (run es)))) ++ staged (snd (run es)) = accepted false es.
Proof.
  cbv zeta. pose proof (ingest_stream [Feed [1; 2; 3; 4]; Scanning true; Feed [9; 9]; Scanning false; Demod; Feed [5; 6]]) as H.
  destruct (run [Feed [1; 2; 3; 4]; Scanning true; Feed [9; 9]; Scanning false; Demod; Feed [5; 6]]) as [done s] eqn:E.
  apply H. cbn [snd]. apply (f_equal (fun p => length (chunks (snd p)))) in E. cbn [snd] in E. rewrite <- E. vm_compute. reflexivity.
Defined.
