(* ===== verification/Demod.v ===== *)
(** * Demod: from IQ samples to PCM slots

    Models [Biquad], [demodThread] and the slot protocol of [outputThread] of
    [src/sdr-daemon/src/main.cpp].

    Each IQ sample goes through the channel filters, the phase discriminator,
    the audio filters and the de-emphasis, in the IEEE arithmetic of
    [Floats.v]; [sin], [cos], [exp] and [atan2f] of the C library are
    parameters.  A phase accumulator picks about one sample in 31.25, which is
    interpolated, clamped, converted and written to the PCM slot being filled.
    Full slots go to the output thread through a ring of [POOL_SIZE] slots,
    whose flags the two threads share; without a free slot samples are dropped.

    An event is one pass of one of the loops: the start or the end of a round
    of [demodThread], one IQ sample, or the output thread taking and giving back
    a slot.  [None] is undefined behaviour: an index out of range, or a
    conversion of a number that does not fit. *)

From Stdlib Require Import ZArith List Lia Bool SpecFloat.
Import ListNotations.
From S2P Require Import Prelude Floats.
#[local] Open Scope Z_scope.

(** ** Biquad filters *)

Record Biquad := mkBiquad { b0 : double; b1 : double; b2 : double; a1 : double; a2 : double;
                            x1 : double; x2 : double; y1 : double; y2 : double }.
Definition d0 : double := S754_zero false.

Definition process (bq : Biquad) (in_ : double) : double * Biquad :=
  let out := dsub (dsub (dadd (dadd (dmul (b0 bq) in_) (dmul (b1 bq) (x1 bq))) (dmul (b2 bq) (x2 bq)))
                        (dmul (a1 bq) (y1 bq))) (dmul (a2 bq) (y2 bq)) in
  (out, mkBiquad (b0 bq) (b1 bq) (b2 bq) (a1 bq) (a2 bq) in_ (x1 bq) out (y1 bq)).
Definition reset (bq : Biquad) : Biquad := mkBiquad (b0 bq) (b1 bq) (b2 bq) (a1 bq) (a2 bq) d0 d0 d0 d0.

(** Constants: doubles 1, 2, pi, the rates, the cut-off frequencies and
    qualities; floats 1, -1, 2 and 32767. *)
Definition d_1 : double := double_of_int 1.
Definition d_2 : double := double_of_int 2.
Definition M_PI : double := S754_finite false 7074237752028440 (-51).
Definition IQ_RATE : double := double_of_int 500000.
Definition AUDIO_RATE : double := double_of_int 16000.
Definition Q1 : double := S754_finite false 4874696236665825 (-53).
Definition Q2 : double := S754_finite false 5884403273122290 (-52).
Definition tau : double := S754_finite false 5534023222112865 (-66).
Definition f_0 : float := S754_zero false.
Definition f_1 : float := float_of_int 1.
Definition f_m1 : float := float_of_int (-1).
Definition FM_GAIN : float := float_of_int 2.
Definition f_32767 : float := float_of_int 32767.
Definition RESAMP_RATIO : float := float_of_double (ddiv AUDIO_RATE IQ_RATE).

Definition POOL_SIZE : Z := 32.
Definition PCM_CHUNK_SIZE : Z := 2048.

(** ** State *)

Record Dsp := mkDsp { ch_i1 : Biquad; ch_i2 : Biquad; ch_q1 : Biquad; ch_q2 : Biquad; aud1 : Biquad; aud2 : Biquad;
                      prev_phase : float; de_state : double; resamp_phase : float; prev_audio : float }.

Record PCMSlot := mkPCMSlot { data : list Z; len : Z; in_use : bool; ready : bool }.

Record Demod := mkDemod {
  dsp : Dsp;
  pcm_idx : Z;
  out_len : Z;
  pcm_acquired : bool;
  pcm_pool : list PCMSlot;
  pcm_write_idx : Z;
  pcm_read_idx : Z;
  diag_pcm_gen : Z;
  diag_pcm_drop : Z;
  diag_pcm_write : Z }.

Section Libm.
Variables sin cos exp : double -> double.
Variable atan2f : float -> float -> float.

Definition lowPass (fc fs Q : double) : Biquad :=
  let w0 := ddiv (dmul (dmul d_2 M_PI) fc) fs in
  let alpha := ddiv (sin w0) (dmul d_2 Q) in
  let cosw0 := cos w0 in
  let a0 := dadd d_1 alpha in
  mkBiquad (ddiv (ddiv (dsub d_1 cosw0) d_2) a0) (ddiv (dsub d_1 cosw0) a0) (ddiv (ddiv (dsub d_1 cosw0) d_2) a0)
    (ddiv (dmul (SFopp d_2) cosw0) a0) (ddiv (dsub d_1 alpha) a0) d0 d0 d0 d0.

Definition de_d : double := exp (ddiv (SFopp d_1) (dmul tau IQ_RATE)).

Definition init_dsp : Dsp :=
  let ch1 := lowPass (double_of_int 100000) IQ_RATE Q1 in
  let ch2 := lowPass (double_of_int 100000) IQ_RATE Q2 in
  mkDsp ch1 ch2 ch1 ch2 (lowPass (double_of_int 15000) IQ_RATE Q1) (lowPass (double_of_int 15000) IQ_RATE Q2)
    f_0 d0 f_0 f_0.

(** The reset after a gap in the stream; the resampler keeps its phase. *)
Definition reset_dsp (s : Dsp) : Dsp :=
  mkDsp (reset (ch_i1 s)) (reset (ch_i2 s)) (reset (ch_q1 s)) (reset (ch_q2 s)) (reset (aud1 s)) (reset (aud2 s))
    f_0 d0 (resamp_phase s) f_0.

(** The phase discriminator: the difference brought back to [-pi, pi]; the
    comparisons and the corrections are in double precision. *)
Definition wrap_phase (phase_diff : float) : float :=
  let phase_diff :=
    if SFltb M_PI (double_of_float phase_diff)
    then float_of_double (dsub (double_of_float phase_diff) (dmul d_2 M_PI)) else phase_diff in
  if SFltb (double_of_float phase_diff) (SFopp M_PI)
  then float_of_double (dadd (double_of_float phase_diff) (dmul d_2 M_PI)) else phase_diff.

(** The phase accumulator: its new value, and whether an output is due. *)
Definition resample (resamp_phase : float) : float * bool :=
  let resamp_phase := fadd resamp_phase RESAMP_RATIO in
  if SFleb f_1 resamp_phase then (fsub resamp_phase f_1, true) else (resamp_phase, false).

Definition interpolate (resamp_phase prev_audio current_audio : float) : float :=
  let t := fdiv resamp_phase RESAMP_RATIO in
  fadd (fmul prev_audio (fsub f_1 t)) (fmul current_audio t).
Definition clamp (sample : float) : float :=
  let sample := if SFltb f_1 sample then f_1 else sample in
  if SFltb sample f_m1 then f_m1 else sample.

(** One IQ sample: the sample for the output, if one is due. *)
Definition dsp_step (s : Dsp) (iq : Z * Z) : Dsp * option float :=
  let raw_i := float_of_int (fst iq) in
  let raw_q := float_of_int (snd iq) in
  let '(i1, ch_i1) := process (ch_i1 s) (double_of_float raw_i) in
  let '(fi, ch_i2) := process (ch_i2 s) i1 in
  let '(q1, ch_q1) := process (ch_q1 s) (double_of_float raw_q) in
  let '(fq, ch_q2) := process (ch_q2 s) q1 in
  let current_phase := atan2f (float_of_double fq) (float_of_double fi) in
  let phase_diff := wrap_phase (fsub current_phase (prev_phase s)) in
  let '(au1, aud1) := process (aud1 s) (double_of_float phase_diff) in
  let '(audio, aud2) := process (aud2 s) au1 in
  let de_state := dadd (dmul (dsub d_1 de_d) audio) (dmul de_d (de_state s)) in
  let current_audio := fmul (float_of_double de_state) FM_GAIN in
  let '(resamp_phase, due) := resample (resamp_phase s) in
  (mkDsp ch_i1 ch_i2 ch_q1 ch_q2 aud1 aud2 current_phase de_state resamp_phase current_audio,
   if due then Some (clamp (interpolate resamp_phase (prev_audio s) current_audio)) else None).

(** ** The PCM pool *)

Definition get_slot (pool : list PCMSlot) (idx : Z) : option PCMSlot :=
  if 0 <=? idx then nth_error pool (Z.to_nat idx) else None.
Fixpoint set_slot (pool : list PCMSlot) (idx : nat) (x : PCMSlot) : list PCMSlot :=
  match pool, idx with
  | [], _ => []
  | _ :: pool', O => x :: pool'
  | y :: pool', S idx' => y :: set_slot pool' idx' x
  end.
Definition put_slot (idx : Z) (x : PCMSlot) (d : Demod) : Demod :=
  mkDemod (dsp d) (pcm_idx d) (out_len d) (pcm_acquired d) (set_slot (pcm_pool d) (Z.to_nat idx) x) (pcm_write_idx d)
    (pcm_read_idx d) (diag_pcm_gen d) (diag_pcm_drop d) (diag_pcm_write d).
Definition set_local (idx ol : Z) (acq : bool) (d : Demod) : Demod :=
  mkDemod (dsp d) idx ol acq (pcm_pool d) (pcm_write_idx d) (pcm_read_idx d) (diag_pcm_gen d) (diag_pcm_drop d) (diag_pcm_write d).
Definition set_dsp (s : Dsp) (d : Demod) : Demod :=
  mkDemod s (pcm_idx d) (out_len d) (pcm_acquired d) (pcm_pool d) (pcm_write_idx d) (pcm_read_idx d)
    (diag_pcm_gen d) (diag_pcm_drop d) (diag_pcm_write d).
Definition set_write (w : Z) (d : Demod) : Demod :=
  mkDemod (dsp d) (pcm_idx d) (out_len d) (pcm_acquired d) (pcm_pool d) w (pcm_read_idx d)
    (diag_pcm_gen d) (diag_pcm_drop d) (diag_pcm_write d).
Definition set_diag (gen drop wr : Z) (d : Demod) : Demod :=
  mkDemod (dsp d) (pcm_idx d) (out_len d) (pcm_acquired d) (pcm_pool d) (pcm_write_idx d) (pcm_read_idx d) gen drop wr.

(** Taking the next slot of the ring, if it is free. *)
Definition acquire (d : Demod) : option Demod :=
  let idx := Z.rem (pcm_write_idx d) POOL_SIZE in
  match get_slot (pcm_pool d) idx with
  | None => None
  | Some slot =>
      if in_use slot then Some (set_local idx (out_len d) false d)
      else Some (set_local idx 0 true (put_slot idx (mkPCMSlot (data slot) (len slot) true (ready slot)) d))
  end.

(** [pcm_pool[pcm_idx].data[out_len++] = ...] *)
Definition write_sample (x : Z) (d : Demod) : option Demod :=
  match get_slot (pcm_pool d) (pcm_idx d) with
  | None => None
  | Some slot =>
      if (0 <=? out_len d) && (out_len d <? PCM_CHUNK_SIZE)
      then Some (set_local (pcm_idx d) (out_len d + 1) (pcm_acquired d)
                  (put_slot (pcm_idx d) (mkPCMSlot (wr (data slot) (out_len d) x) (len slot) (in_use slot) (ready slot)) d))
      else None
  end.
Definition publish_slot (d : Demod) : option Demod :=
  match get_slot (pcm_pool d) (pcm_idx d) with
  | None => None
  | Some slot =>
      Some (set_write (i32 (pcm_write_idx d + 1))
             (put_slot (pcm_idx d) (mkPCMSlot (data slot) (out_len d) (in_use slot) true)
               (set_diag (i32 (diag_pcm_gen d + out_len d)) (diag_pcm_drop d) (diag_pcm_write d) d)))
  end.

(** What is done with a sample; the result says whether it was stored. *)
Definition emit (sample : float) (d : Demod) : option (bool * Demod) :=
  if pcm_acquired d then
    match to_int16 (fmul sample f_32767) with
    | None => None
    | Some x =>
        match write_sample x d with
        | None => None
        | Some d =>
            if PCM_CHUNK_SIZE - 10 <=? out_len d then
              match publish_slot d with
              | None => None
              | Some d => option_map (pair true) (acquire d)
              end
            else Some (true, d)
        end
    end
  else
    option_map (pair false) (acquire (set_diag (diag_pcm_gen d) (i32 (diag_pcm_drop d + 1)) (diag_pcm_write d) d)).

(** ** The threads *)

Inductive Event :=
| Begin (gap : bool)
| Sample (iq : Z * Z)
| End (report : bool)
| Take
| Release.

(** The start of a round of [demodThread] that has a chunk: [gap] is
    [g_stream_gap]. *)
Definition begin_round (gap : bool) (d : Demod) : option Demod :=
  let d := if gap then set_dsp (reset_dsp (dsp d)) d else d in
  if pcm_acquired d then Some d else acquire d.
(** Its end: [report] when the diagnostic period is over. *)
Definition end_round (report : bool) (d : Demod) : Demod := if report then set_diag 0 0 0 d else d.

(** The slot the output thread takes, when it is ready. *)
Definition take (d : Demod) : option (option (list Z)) :=
  match get_slot (pcm_pool d) (Z.rem (pcm_read_idx d) POOL_SIZE) with
  | Some slot => Some (if ready slot then Some (firstn (Z.to_nat (len slot)) (data slot)) else None)
  | None => None
  end.
Definition release (d : Demod) : option Demod :=
  let idx := Z.rem (pcm_read_idx d) POOL_SIZE in
  match get_slot (pcm_pool d) idx with
  | None => None
  | Some slot =>
      let d := put_slot idx (mkPCMSlot (data slot) (len slot) false false) d in
      Some (mkDemod (dsp d) (pcm_idx d) (out_len d) (pcm_acquired d) (pcm_pool d) (pcm_write_idx d)
              (i32 (pcm_read_idx d + 1)) (diag_pcm_gen d) (diag_pcm_drop d) (i32 (diag_pcm_write d + len slot)))
  end.

(** The state of a run: the shared state, whether the output thread holds a
    slot, the samples that were due with whether they were stored, and the
    slots that the output thread has taken. *)
Record Run := mkRun { demod : Demod; holding : bool; log : list (bool * float); delivered : list (list Z) }.

Definition step (r : Run) (e : Event) : option Run :=
  let d := demod r in
  match e with
  | Begin gap => option_map (fun d => mkRun d (holding r) (log r) (delivered r)) (begin_round gap d)
  | Sample iq =>
      let '(s, due) := dsp_step (dsp d) iq in
      let d := set_dsp s d in
      match due with
      | None => Some (mkRun d (holding r) (log r) (delivered r))
      | Some sample =>
          option_map (fun '(b, d) => mkRun d (holding r) (log r ++ [(b, sample)]) (delivered r)) (emit sample d)
      end
  | End report => Some (mkRun (end_round report d) (holding r) (log r) (delivered r))
  | Take =>
      if holding r then Some r
      else match take d with
           | Some (Some pcm) => Some (mkRun d true (log r) (delivered r ++ [pcm]))
           | Some None => Some r
           | None => None
           end
  | Release => if holding r then option_map (fun d => mkRun d false (log r) (delivered r)) (release d) else Some r
  end.

Fixpoint run (es : list Event) (r : Run) : option Run :=
  match es with
  | [] => Some r
  | e :: es' => match step r e with Some r => run es' r | None => None end
  end.

Definition init : Run :=
  mkRun (mkDemod init_dsp 0 0 false
           (repeat (mkPCMSlot (repeat 0 (Z.to_nat PCM_CHUNK_SIZE)) 0 false false) (Z.to_nat POOL_SIZE)) 0 0 0 0 0)
    false [] [].

(** ** Samples fit *)

Definition is_nan (x : spec_float) : bool := match x with S754_nan => true | _ => false end.
Abbreviation valid32 x := (valid_binary 24 128 x = true).

(** 32767 times a number of magnitude at most 1. *)
Lemma mul_32767 s m e : e <= 0 -> Zpos m <= 2 ^ (- e) ->
  exists z, truncate (fmul (S754_finite s m e) f_32767) = Some z /\ -32767 <= z <= 32767.
Proof.
  intros He Hm. change f_32767 with (S754_finite false 16776704 (-9)).
  unfold fmul. cbn [SFmul]. rewrite xorb_false_r. set (p := Zpos (m * 16776704)).
  assert (Ep : p = Zpos m * 16776704) by (unfold p; lia).
  rewrite round_aux_spec by lia. unfold round_to, pack.
  assert (Hl : Z.log2 p + 1 <= 24 - e).
  { assert (Z.log2 p < 24 - e); [|lia]. apply Z.log2_lt_pow2; [lia|]. replace (24 - e) with (24 + - e) by lia.
    rewrite Z.pow_add_r by lia. lia. }
  set (e' := Z.max (e + -9) (exp_of 24 128 p (e + -9))).
  assert (He' : e + -9 <= e' <= -9) by (unfold e', exp_of; lia).
  set (r := rne p (e' - (e + -9))).
  assert (Hr0 : 0 <= r) by (apply rne_ge; lia).
  assert (Hr : r <= 32767 * 2 ^ (- e')).
  { apply rne_le; [lia|]. rewrite <- Z.mul_assoc, <- Z.pow_add_r by lia. replace (- e' + (e' - (e + -9))) with (9 + - e) by lia.
    rewrite Z.pow_add_r by lia. lia. }
  assert (Hp : 0 < 2 ^ (- e' - 1)) by (apply Z.pow_pos_nonneg; lia).
  assert (E2 : 2 ^ (- e') = 2 * 2 ^ (- e' - 1)) by (rewrite <- Z.pow_succ_r by lia; f_equal; lia).
  destruct (Z.eqb_spec r (2 ^ 24)) as [E|E].
  - rewrite E in Hr. change (2 ^ (24 - 1)) with (Zpos 8388608).
    replace (e' + 1 <=? 128 - 24) with true by (symmetry; apply Z.leb_le; lia). cbn [truncate].
    replace (0 <=? e' + 1) with false by (symmetry; apply Z.leb_gt; lia). eexists; split; [reflexivity|].
    replace (- (e' + 1)) with (- e' - 1) by lia.
    assert (0 <= 8388608 / 2 ^ (- e' - 1) <= 32767).
    { split; [apply Z.div_pos; lia|]. apply Z.div_le_upper_bound; lia. }
    destruct s; cbn [cond_Zopp]; lia.
  - destruct r as [|q|q] eqn:Eq; [|clear E|lia].
    + exists 0. split; [reflexivity|lia].
    + replace (e' <=? 128 - 24) with true by (symmetry; apply Z.leb_le; lia). cbn [truncate].
      replace (0 <=? e') with false by (symmetry; apply Z.leb_gt; lia). eexists; split; [reflexivity|].
      assert (0 <= Zpos q / 2 ^ (- e') <= 32767).
      { split; [apply Z.div_pos; lia|]. apply Z.div_le_upper_bound; lia. }
      destruct s; cbn [cond_Zopp]; lia.
Qed.

(** Between -1 and 1. *)
Definition small (x : float) : Prop :=
  match x with
  | S754_zero _ => True
  | S754_finite _ m e => e <= 0 /\ Zpos m <= 2 ^ (- e)
  | _ => False
  end.

Lemma above_one s m e : SFltb f_1 (S754_finite s m e) = negb s && ((-23 <? e) || ((e =? -23) && (8388608 <? Zpos m))).
Proof.
  change f_1 with (S754_finite false 8388608 (-23)). unfold SFltb, SFcompare. destruct s; [reflexivity|].
  destruct (Z.compare_spec (-23) e) as [E|E|E], (Z.ltb_spec (-23) e), (Z.eqb_spec e (-23)); try lia; try reflexivity.
Qed.

Lemma compare_cont c m : Pos.compare_cont Eq c m = Pos.compare c m.
Proof. reflexivity. Qed.

Lemma leb_pos c m : (c <= m)%positive -> match Pos.compare c m with Gt => false | _ => true end = true.
Proof. unfold Pos.le. destruct (Pos.compare c m); congruence. Qed.

Lemma compare_opp c m : CompOpp (Pos.compare_cont Eq m c) = Pos.compare c m.
Proof. symmetry. apply Pos.compare_antisym. Qed.

Lemma below_minus_one s m e : SFltb (S754_finite s m e) f_m1 = s && ((-23 <? e) || ((e =? -23) && (8388608 <? Zpos m))).
Proof.
  change f_m1 with (S754_finite true 8388608 (-23)). unfold SFltb, SFcompare. destruct s; [|reflexivity].
  destruct (Z.compare_spec e (-23)) as [E|E|E], (Z.ltb_spec (-23) e), (Z.eqb_spec e (-23)); try lia; try reflexivity.
  rewrite compare_opp. unfold Z.ltb. cbn [Z.compare orb andb]. destruct (Pos.compare 8388608 m); reflexivity.
Qed.

Lemma small_one : small f_1 /\ small f_m1.
Proof.
  change f_1 with (S754_finite false 8388608 (-23)). change f_m1 with (S754_finite true 8388608 (-23)).
  cbn [small]. change (2 ^ (- (-23))) with 8388608. lia.
Qed.

Lemma small_finite s m e : valid32 (S754_finite s m e) -> (-23 <? e) || ((e =? -23) && (8388608 <? Zpos m)) = false ->
  small (S754_finite s m e).
Proof.
  intros Hv H. apply orb_false_iff in H as [H1 H2]. apply Z.ltb_ge in H1. split; [lia|].
  destruct (Z.eqb_spec e (-23)) as [->|E]; [apply Z.ltb_ge in H2; exact H2|].
  apply valid_finite in Hv. pose proof (Z.log2_spec (Zpos m) ltac:(lia)) as [_ Hl].
  transitivity (2 ^ Z.succ (Z.log2 (Zpos m))); [lia|]. apply Z.pow_le_mono_r; lia.
Qed.

Lemma clamp_range x : valid32 x -> is_nan x = false -> small (clamp x).
Proof.
  intros Hv Hn. destruct small_one as [S1 S2]. unfold clamp.
  destruct x as [sx|[|]| |sx mx ex]; try discriminate; try exact S1; try exact S2; [exact I|].
  rewrite above_one. destruct sx; cbn [negb andb].
  - rewrite below_minus_one. cbn [andb]. destruct (_ || _) eqn:E; [exact S2|now apply small_finite].
  - destruct (_ || _) eqn:E; [exact S1|]. rewrite below_minus_one. now apply small_finite.
Qed.

(** The value written to the slot. *)
Definition pcm (sample : float) : Z := match to_int16 (fmul sample f_32767) with Some x => x | None => 0 end.

Lemma pcm_defined x : small x -> to_int16 (fmul x f_32767) = Some (pcm x) /\ -32767 <= pcm x <= 32767.
Proof.
  intros H. unfold pcm, to_int16.
  assert (E : exists z, truncate (fmul x f_32767) = Some z /\ -32767 <= z <= 32767).
  { destruct x as [s|s| |s m e]; try contradiction; [|destruct H; now apply mul_32767].
    exists 0. split; [destruct s; reflexivity|lia]. }
  destruct E as (z & -> & Hz). replace ((- 2 ^ 15 <=? z) && (z <? 2 ^ 15)) with true; [auto|].
  symmetry. apply andb_true_iff. split; [apply Z.leb_le|apply Z.ltb_lt]; lia.
Qed.

Lemma clamp_nan x : is_nan (clamp x) = is_nan x.
Proof. unfold clamp. destruct x as [s|[|]| |s m e]; try reflexivity. destruct (SFltb f_1 _); [reflexivity|]. destruct (SFltb _ f_m1); reflexivity. Qed.

Lemma valid_one : valid32 f_1.
Proof. reflexivity. Qed.
Lemma valid_gain : valid32 FM_GAIN.
Proof. reflexivity. Qed.

(** A sample that is due, and is a number, fits in a PCM sample. *)
Lemma dsp_step_small s iq s' due : valid32 (prev_audio s) -> dsp_step s iq = (s', due) ->
  valid32 (prev_audio s') /\ match due with Some x => is_nan x = false -> small x | None => True end.
Proof.
  intros Hv. unfold dsp_step, process, resample, float_of_double. cbn zeta beta iota.
  set (cur := fmul _ FM_GAIN). assert (Hc : valid32 cur) by (apply mul_valid; [lia..|apply convert_valid; lia|exact valid_gain]).
  destruct (SFleb _ _); intros E; inversion E; subst; clear E; (split; [exact Hc|]); [|exact I].
  rewrite clamp_nan. apply clamp_range. unfold interpolate. apply add_valid; [lia..| |]; apply mul_valid; try lia; try assumption.
  - apply sub_valid; [lia..|exact valid_one|]. apply div_valid; lia.
  - apply div_valid; lia.
Qed.

(** ** The ring of slots *)

Lemma pcm_set_slot_length pool i x : length (set_slot pool i x) = length pool.
Proof. revert i. induction pool as [|y pool IH]; intros [|i]; cbn; auto. Qed.

Lemma nth_set_slot pool i j x : (i < length pool)%nat ->
  nth_error (set_slot pool i x) j = if Nat.eqb i j then Some x else nth_error pool j.
Proof.
  revert i j. induction pool as [|y pool IH]; intros [|i] [|j] Hi; cbn in *; try lia; auto. apply IH. lia.
Qed.

Definition at_ (d : Demod) (i : Z) : option PCMSlot := get_slot (pcm_pool d) (i mod 32).

Lemma pcm_ring_index c : 0 <= c -> Z.rem c POOL_SIZE = c mod 32.
Proof. intros H. apply Z.rem_mod_nonneg; [exact H|reflexivity]. Qed.

Lemma at_put b d i j x : length (pcm_pool d) = 32%nat -> b <= i < b + 32 -> b <= j < b + 32 ->
  at_ (put_slot (i mod 32) x d) j = if j =? i then Some x else at_ d j.
Proof.
  intros Hl Hi Hj. unfold at_, get_slot, put_slot. cbn [pcm_pool]. pose proof (mod32 i). pose proof (mod32 j).
  replace (0 <=? j mod 32) with true by (symmetry; apply Z.leb_le; lia). rewrite nth_set_slot by lia.
  destruct (Nat.eqb_spec (Z.to_nat (i mod 32)) (Z.to_nat (j mod 32))) as [E|E].
  - apply Z2Nat.inj in E; [|lia..]. assert (i = j) by (Z.div_mod_to_equations; lia). subst. now rewrite Z.eqb_refl.
  - destruct (Z.eqb_spec j i) as [->|]; [congruence|reflexivity].
Qed.

Definition free_slot (s : option PCMSlot) : Prop :=
  exists x, s = Some x /\ in_use x = false /\ ready x = false /\ length (data x) = 2048%nat.
Definition full_slot (block : list Z) (s : option PCMSlot) : Prop :=
  exists x, s = Some x /\ in_use x = true /\ ready x = true /\ length (data x) = 2048%nat /\
    len x = 2038 /\ firstn 2038 (data x) = block.
Definition filling_slot (part : list Z) (s : option PCMSlot) : Prop :=
  exists x, s = Some x /\ in_use x = true /\ ready x = false /\ length (data x) = 2048%nat /\
    firstn (length part) (data x) = part.

(** [blocks] are the slots published so far, [part] the samples of the slot
    being filled; [b] is the number of slots given back. *)
Record Ring (d : Demod) (b : Z) (blocks : list (list Z)) (part : list Z) : Prop := {
  ring_len : length (pcm_pool d) = 32%nat;
  ring_read : pcm_read_idx d = b;
  ring_write : pcm_write_idx d = Z.of_nat (length blocks);
  ring_window : 0 <= b /\ b <= Z.of_nat (length blocks) <= b + 32;
  ring_blocks : Forall (fun c => length c = 2038%nat) blocks;
  ring_full : forall i, b <= i < Z.of_nat (length blocks) -> full_slot (nth (Z.to_nat i) blocks []) (at_ d i);
  ring_part : (length part < 2038)%nat;
  ring_local : if pcm_acquired d
    then Z.of_nat (length blocks) < b + 32 /\ pcm_idx d = Z.of_nat (length blocks) mod 32 /\
         out_len d = Z.of_nat (length part) /\ filling_slot part (at_ d (Z.of_nat (length blocks)))
    else part = [];
  ring_free : forall i, Z.of_nat (length blocks) <= i < b + 32 -> (pcm_acquired d = true -> i <> Z.of_nat (length blocks)) ->
    free_slot (at_ d i) }.

Lemma ring_dsp d b blocks part s : Ring d b blocks part -> Ring (set_dsp s d) b blocks part.
Proof. intros []; constructor; assumption. Qed.
Lemma ring_diag d b blocks part x y z : Ring d b blocks part -> Ring (set_diag x y z d) b blocks part.
Proof. intros []; constructor; assumption. Qed.

(** A slot of the ring that is not in use is not published. *)
Lemma ring_room d b blocks part x : Ring d b blocks part -> at_ d (Z.of_nat (length blocks)) = Some x -> in_use x = false ->
  Z.of_nat (length blocks) < b + 32 /\ pcm_acquired d = false.
Proof.
  intros H Ex Eu. destruct H as [_ _ _ Hwin _ Hfull _ Hloc _]. set (w := Z.of_nat (length blocks)) in *. split.
  - destruct (Z.eq_dec w (b + 32)) as [E|]; [|lia]. exfalso. destruct (Hfull b ltac:(lia)) as (y & Ey & Huse & _).
    assert (at_ d w = at_ d b) by (unfold at_; f_equal; rewrite E; Z.div_mod_to_equations; lia).
    congruence.
  - destruct (pcm_acquired d); [|reflexivity]. destruct Hloc as (_ & _ & _ & y & Ey & Huse & _). congruence.
Qed.

Lemma ring_at d b blocks part : Ring d b blocks part -> exists x, at_ d (Z.of_nat (length blocks)) = Some x.
Proof.
  intros [Hl _ _ _ _ _ _ _ _]. unfold at_, get_slot. pose proof (mod32 (Z.of_nat (length blocks))).
  replace (0 <=? _) with true by (symmetry; apply Z.leb_le; lia).
  destruct (nth_error _ _) eqn:E; [eauto|]. apply nth_error_None in E. lia.
Qed.

Lemma acquire_ring d b blocks : Ring d b blocks [] -> pcm_acquired d = false ->
  exists d', acquire d = Some d' /\ Ring d' b blocks [].
Proof.
  intros H Ha. destruct (ring_at _ _ _ _ H) as [x Ex]. unfold acquire.
  rewrite (ring_write _ _ _ _ H), pcm_ring_index by lia. fold (at_ d (Z.of_nat (length blocks))). rewrite Ex.
  destruct (in_use x) eqn:Eu; (eexists; split; [reflexivity|]).
  - destruct H. rewrite Ha in *. constructor; auto.
  - destruct (ring_room _ _ _ _ _ H Ex Eu) as [Hroom _].
    destruct H as [Hl Hr Hw Hwin Hb Hfull Hp Hloc Hfree]. set (w := Z.of_nat (length blocks)) in *.
    destruct (Hfree w ltac:(lia) ltac:(congruence)) as (x' & Ex' & _ & Hrd & Hdl). rewrite Ex in Ex'. injection Ex' as <-.
    assert (Hat : forall j, b <= j < b + 32 -> at_ (set_local (w mod 32) 0 true (put_slot (w mod 32) (mkPCMSlot (data x) (len x) true (ready x)) d)) j
       = if j =? w then Some (mkPCMSlot (data x) (len x) true (ready x)) else at_ d j).
    { intros j Hj. change (at_ (set_local ?i ?o ?a ?e) j) with (at_ e j). apply (at_put b); lia. }
    constructor; auto.
    + cbn [pcm_pool set_local put_slot]. now rewrite pcm_set_slot_length.
    + intros i Hi. rewrite Hat by lia. replace (i =? w) with false by (symmetry; apply Z.eqb_neq; lia). now apply Hfull.
    + cbn [pcm_acquired set_local]. repeat split; auto. rewrite Hat, Z.eqb_refl by lia. eexists; split; [reflexivity|].
      cbn [in_use ready data length firstn]. auto.
    + intros i Hi Hne. cbn [pcm_acquired set_local] in Hne. fold w in Hi, Hne. rewrite Hat by lia.
      replace (i =? w) with false by (symmetry; apply Z.eqb_neq; apply Hne; reflexivity). apply Hfree; [lia|congruence].
Qed.

Lemma wr_length p i x : length (wr p i x) = length p.
Proof. unfold wr. generalize (Z.to_nat i) as n. induction p as [|y p IH]; intros [|n]; cbn; auto. Qed.

Lemma wr_snoc p l x : firstn (length l) p = l -> (length l < length p)%nat ->
  firstn (length (l ++ [x])) (wr p (Z.of_nat (length l)) x) = l ++ [x].
Proof.
  unfold wr. rewrite Nat2Z.id. revert p. induction l as [|y l IH]; intros [|z p] E Hl; cbn in *; try lia; [reflexivity|].
  injection E as -> E. f_equal. apply IH; [exact E|lia].
Qed.

(** A sample goes to the slot being filled. *)
Lemma write_ring d b blocks part x : Ring d b blocks part -> pcm_acquired d = true ->
  exists d', write_sample x d = Some d' /\ out_len d' = Z.of_nat (length (part ++ [x])) /\
    pcm_idx d' = Z.of_nat (length blocks) mod 32 /\ pcm_acquired d' = true /\
    length (pcm_pool d') = 32%nat /\ pcm_read_idx d' = b /\ pcm_write_idx d' = Z.of_nat (length blocks) /\
    filling_slot (part ++ [x]) (at_ d' (Z.of_nat (length blocks))) /\
    (forall j, b <= j < b + 32 -> j <> Z.of_nat (length blocks) -> at_ d' j = at_ d j).
Proof.
  intros [Hl Hr Hw Hwin Hb Hfull Hp Hloc Hfree] Ha. rewrite Ha in Hloc. destruct Hloc as (Hroom & Hidx & Hol & y & Ey & Hu & Hrd & Hdl & Hf).
  set (w := Z.of_nat (length blocks)) in *. unfold write_sample. rewrite Hidx. fold (at_ d w). rewrite Ey, Hol.
  replace ((0 <=? Z.of_nat (length part)) && (Z.of_nat (length part) <? PCM_CHUNK_SIZE)) with true
    by (symmetry; apply andb_true_iff; split; [apply Z.leb_le|apply Z.ltb_lt]; unfold PCM_CHUNK_SIZE; lia).
  eexists; split; [reflexivity|]. set (slot := mkPCMSlot _ _ _ _).
  assert (Hat : forall j, b <= j < b + 32 -> at_ (put_slot (w mod 32) slot d) j = if j =? w then Some slot else at_ d j)
    by (intros j Hj; apply (at_put b); lia).
  cbn [out_len pcm_idx pcm_acquired pcm_pool pcm_read_idx pcm_write_idx set_local put_slot].
  rewrite length_app. cbn [length]. repeat split; auto; try lia.
  - now rewrite pcm_set_slot_length.
  - change (at_ (set_local ?i ?o ?a ?e) w) with (at_ e w). rewrite Hat, Z.eqb_refl by lia. exists slot.
    split; [reflexivity|]. cbn [slot in_use ready data]. repeat split; auto.
    + now rewrite wr_length.
    + apply wr_snoc; [exact Hf|lia].
  - intros j Hj Hne. change (at_ (set_local ?i ?o ?a ?e) j) with (at_ e j). rewrite Hat by lia.
    now replace (j =? w) with false by (symmetry; apply Z.eqb_neq; lia).
Qed.

(** A slot that is full goes to the ring. *)
Lemma publish_ring d b blocks part : length (pcm_pool d) = 32%nat -> pcm_read_idx d = b ->
  pcm_write_idx d = Z.of_nat (length blocks) -> 0 <= b /\ b <= Z.of_nat (length blocks) < b + 32 ->
  pcm_idx d = Z.of_nat (length blocks) mod 32 -> out_len d = 2038 -> length part = 2038%nat ->
  Forall (fun c => length c = 2038%nat) blocks -> Z.of_nat (length blocks) < 2 ^ 31 - 1 ->
  filling_slot part (at_ d (Z.of_nat (length blocks))) ->
  (forall i, b <= i < Z.of_nat (length blocks) -> full_slot (nth (Z.to_nat i) blocks []) (at_ d i)) ->
  (forall i, Z.of_nat (length blocks) < i < b + 32 -> free_slot (at_ d i)) ->
  exists d', publish_slot d = Some d' /\ Ring (set_local (pcm_idx d') (out_len d') false d') b (blocks ++ [part]) [].
Proof.
  intros Hl Hr Hw Hwin Hidx Hol Hpl Hb Hbound (y & Ey & Hu & Hrd & Hdl & Hf) Hfull Hfree.
  set (w := Z.of_nat (length blocks)) in *. unfold publish_slot. rewrite Hidx. fold (at_ d w). rewrite Ey.
  eexists; split; [reflexivity|]. set (slot := mkPCMSlot _ _ _ _).
  match goal with |- Ring ?x _ _ _ => set (d' := x) end.
  assert (Hat : forall j, b <= j < b + 32 -> at_ d' j = if j =? w then Some slot else at_ d j).
  { intros j Hj. change (at_ d' j) with (at_ (put_slot (w mod 32) slot (set_diag (i32 (diag_pcm_gen d + out_len d)) (diag_pcm_drop d) (diag_pcm_write d) d)) j).
    rewrite (at_put b) by (auto; lia). reflexivity. }
  assert (Hlen : Z.of_nat (length (blocks ++ [part])) = w + 1) by (rewrite length_app; cbn [length]; lia).
  constructor; rewrite ?Hlen; auto; try lia.
  - cbn [d' pcm_pool set_local put_slot set_write set_diag]. now rewrite pcm_set_slot_length.
  - cbn [d' pcm_write_idx set_local put_slot set_write set_diag]. rewrite Hw. apply i32_small. lia.
  - apply Forall_app. auto.
  - intros i Hi. rewrite Hat by lia. destruct (Z.eqb_spec i w) as [->|Hne].
    + exists slot. split; [reflexivity|]. cbn [slot in_use ready data len]. repeat split; auto.
      unfold w. rewrite Nat2Z.id, app_nth2, Nat.sub_diag by lia. cbn [nth]. rewrite <- Hpl. exact Hf.
    + rewrite app_nth1 by lia. apply Hfull. lia.
  - cbn [length]. lia.
  - reflexivity.
  - intros i Hi _. rewrite Hat by lia. replace (i =? w) with false by (symmetry; apply Z.eqb_neq; lia). apply Hfree. lia.
Qed.

Lemma acquire_local d : acquire (set_local (pcm_idx d) (out_len d) false d) = acquire d.
Proof. unfold acquire. cbn [pcm_write_idx pcm_pool out_len set_local]. destruct (get_slot _ _) as [x|]; [|reflexivity]. destruct (in_use x); reflexivity. Qed.

(** The samples stored, in order. *)
Definition stored (l : list (bool * float)) : list Z := map (fun p => pcm (snd p)) (filter fst l).

Lemma pcm_stored_snoc l b x : stored (l ++ [(b, x)]) = stored l ++ (if b then [pcm x] else []).
Proof. unfold stored. rewrite filter_app, map_app. destruct b; reflexivity. Qed.

Lemma concat_length_blocks (blocks : list (list Z)) : Forall (fun c => length c = 2038%nat) blocks ->
  length (concat blocks) = (2038 * length blocks)%nat.
Proof. induction 1 as [|c blocks Hc _ IH]; [reflexivity|]. cbn [concat length]. rewrite length_app, Hc, IH. lia. Qed.

Lemma emit_ring d b blocks part sample : Ring d b blocks part -> (pcm_acquired d = true -> small sample) -> Z.of_nat (length blocks) < 2 ^ 31 - 1 ->
  exists stored d' blocks' part', emit sample d = Some (stored, d') /\ Ring d' b blocks' part' /\
    stored = pcm_acquired d /\ concat blocks' ++ part' = concat blocks ++ part ++ (if stored then [pcm sample] else []) /\
    (exists more, blocks' = blocks ++ more /\ (length more <= 1)%nat) /\ dsp d' = dsp d.
Proof.
  intros HR Hs Hb. unfold emit. destruct (pcm_acquired d) eqn:Ea.
  - destruct (pcm_defined sample (Hs eq_refl)) as [Ex _]. rewrite Ex. destruct (write_ring _ _ _ _ (pcm sample) HR Ea) as (d1 & E1 & Hol & Hidx & Ha & Hl & Hr & Hw & Hfs & Hoth).
    rewrite E1. destruct HR as [_ _ _ Hwin Hbl Hfull Hp Hloc Hfree]. rewrite Ea in Hloc. destruct Hloc as (Hroom & _).
    assert (Ed1 : dsp d1 = dsp d).
    { unfold write_sample in E1. destruct (get_slot _ _); [|discriminate]. destruct (_ && _); [|discriminate]. now injection E1 as <-. }
    assert (Hfull1 : forall i, b <= i < Z.of_nat (length blocks) -> full_slot (nth (Z.to_nat i) blocks []) (at_ d1 i))
      by (intros i Hi; rewrite Hoth by lia; apply Hfull; lia).
    assert (Hfree1 : forall i, Z.of_nat (length blocks) < i < b + 32 -> free_slot (at_ d1 i))
      by (intros i Hi; rewrite Hoth by lia; apply Hfree; lia).
    rewrite Hol, length_app. cbn [length]. destruct (Z.leb_spec (PCM_CHUNK_SIZE - 10) (Z.of_nat (length part + 1))) as [Hge|Hlt];
      unfold PCM_CHUNK_SIZE in *.
    + rewrite length_app in Hol. cbn [length] in Hol.
      destruct (publish_ring d1 b blocks (part ++ [pcm sample])) as (d2 & E2 & HR2); auto; try lia.
      { rewrite length_app. cbn [length]. lia. }
      rewrite E2. destruct (acquire_ring _ _ _ HR2 eq_refl) as (d3 & E3 & HR3). rewrite acquire_local in E3. rewrite E3.
      exists true, d3, (blocks ++ [part ++ [pcm sample]]), []. split; [reflexivity|]. split; [exact HR3|]. split; [reflexivity|]. split.
      { rewrite concat_app. cbn [concat]. rewrite !app_nil_r. reflexivity. }
      split; [exists [part ++ [pcm sample]]; auto|].
      transitivity (dsp d1); [|exact Ed1]. transitivity (dsp d2).
      * unfold acquire in E3. destruct (get_slot _ _) as [y|]; [|discriminate]. destruct (in_use y); now injection E3 as <-.
      * unfold publish_slot in E2. destruct (get_slot _ _); [|discriminate]. now injection E2 as <-.
    + exists true, d1, blocks, (part ++ [pcm sample]). split; [reflexivity|]. split; [|split; [reflexivity|]; split; [reflexivity|split; [exists []; rewrite app_nil_r; auto|exact Ed1]]].
      constructor; auto.
      * rewrite length_app. cbn [length]. lia.
      * rewrite Ha. auto.
      * intros i Hi Hne. rewrite Ha in Hne. apply Hfree1. specialize (Hne eq_refl). lia.
  - assert (part = []) as -> by (destruct HR as [_ _ _ _ _ _ _ Hloc _]; rewrite Ea in Hloc; exact Hloc).
    destruct (acquire_ring _ _ _ (ring_diag _ _ _ _ (diag_pcm_gen d) (i32 (diag_pcm_drop d + 1)) (diag_pcm_write d) HR) Ea) as (d' & E & HR').
    rewrite E. exists false, d', blocks, []. split; [reflexivity|]. split; [exact HR'|]. split; [reflexivity|]. split; [reflexivity|].
    split; [exists []; rewrite app_nil_r; auto|].
    unfold acquire in E. destruct (get_slot _ _) as [y|]; [|discriminate]. destruct (in_use y); now injection E as <-.
Qed.

(** Giving a slot back. *)
Lemma release_ring d b blocks part : Ring d b blocks part -> b < Z.of_nat (length blocks) -> Z.of_nat (length blocks) < 2 ^ 31 ->
  exists d', release d = Some d' /\ Ring d' (b + 1) blocks part /\ dsp d' = dsp d.
Proof.
  intros [Hl Hr Hw Hwin Hb Hfull Hp Hloc Hfree] Hlt Hbound. unfold release. rewrite Hr, pcm_ring_index by lia.
  fold (at_ d b). destruct (Hfull b ltac:(lia)) as (x & Ex & _ & _ & Hdl & _). rewrite Ex.
  eexists; split; [reflexivity|]. split; [|reflexivity]. set (slot := mkPCMSlot _ _ _ _).
  match goal with |- Ring ?x _ _ _ => set (d' := x) end. set (w := Z.of_nat (length blocks)) in *.
  assert (Hat : forall j, b <= j < b + 32 -> at_ d' j = if j =? b then Some slot else at_ d j)
    by (intros j Hj; change (at_ d' j) with (at_ (put_slot (b mod 32) slot d) j); apply (at_put b); lia).
  assert (Hback : at_ d' (b + 32) = Some slot).
  { replace (at_ d' (b + 32)) with (at_ d' b) by (unfold at_; f_equal; Z.div_mod_to_equations; lia). rewrite Hat, Z.eqb_refl by lia. reflexivity. }
  assert (Hoth : forall j, b < j < b + 32 -> at_ d' j = at_ d j)
    by (intros j Hj; rewrite Hat by lia; now replace (j =? b) with false by (symmetry; apply Z.eqb_neq; lia)).
  constructor; auto; try (fold w; lia).
  - cbn [d' pcm_pool put_slot]. now rewrite pcm_set_slot_length.
  - cbn [d' pcm_read_idx put_slot]. rewrite Hr. apply i32_small. lia.
  - fold w. intros i Hi. rewrite Hoth by lia. apply Hfull. lia.
  - fold w. change (pcm_acquired d') with (pcm_acquired d). destruct (pcm_acquired d); [|exact Hloc].
    destruct Hloc as (Hroom & Hi & Ho & Hs). repeat split; auto; try lia. rewrite Hoth by lia. exact Hs.
  - fold w. intros i Hi Hne. change (pcm_acquired d') with (pcm_acquired d) in Hne. destruct (Z.eq_dec i (b + 32)) as [->|Hd].
    + rewrite Hback. exists slot. cbn [slot in_use ready data]. auto.
    + rewrite Hoth by lia. apply Hfree; [lia|exact Hne].
Qed.

(** ** Runs *)

(** The samples due in a run: signal processing alone. *)
Fixpoint due_samples (es : list Event) (s : Dsp) : list float :=
  match es with
  | [] => []
  | Begin gap :: es' => due_samples es' (if gap then reset_dsp s else s)
  | Sample iq :: es' =>
      let '(s, due) := dsp_step s iq in
      match due with Some x => x :: due_samples es' s | None => due_samples es' s end
  | _ :: es' => due_samples es' s
  end.

Record Inv (r : Run) (n : Z) : Prop := {
  inv_ring : exists blocks part,
    Ring (demod r) (Z.of_nat (length (delivered r)) - (if holding r then 1 else 0)) blocks part /\
    Z.of_nat (length (delivered r)) <= Z.of_nat (length blocks) <= n /\
    delivered r = firstn (length (delivered r)) blocks /\
    concat blocks ++ part = stored (log r);
  inv_held : holding r = true -> delivered r <> [];
  inv_audio : valid32 (prev_audio (dsp (demod r)));
  inv_small : Forall (fun p => fst p = true -> small (snd p)) (log r) }.

(** The ring and the samples stored are as before. *)
Ltac ring_same := split; [assumption|split; [lia|split; assumption]].

Lemma firstn_more {A} (l a more : list A) : a = firstn (length a) l -> a = firstn (length a) (l ++ more).
Proof.
  intros E. rewrite firstn_app. assert (length a <= length l)%nat by (rewrite E, length_firstn; lia).
  replace (length a - length l)%nat with 0%nat by lia. cbn [firstn]. now rewrite app_nil_r.
Qed.

Lemma step_begin r n gap : Inv r n -> exists r', step r (Begin gap) = Some r' /\ Inv r' (n + 1) /\ log r' = log r /\
  dsp (demod r') = if gap then reset_dsp (dsp (demod r)) else dsp (demod r).
Proof.
  intros [(blocks & part & HR & Hlen & Hd & Hc) Hh Ha Hs]. cbn [step]. unfold begin_round.
  set (d := if gap then set_dsp (reset_dsp (dsp (demod r))) (demod r) else demod r).
  assert (HRd : Ring d (Z.of_nat (length (delivered r)) - (if holding r then 1 else 0)) blocks part)
    by (unfold d; destruct gap; [now apply ring_dsp|exact HR]).
  assert (Hv : valid32 (prev_audio (dsp d))) by (unfold d; destruct gap; [reflexivity|exact Ha]).
  assert (E : exists d', (if pcm_acquired d then Some d else acquire d) = Some d' /\
     Ring d' (Z.of_nat (length (delivered r)) - (if holding r then 1 else 0)) blocks part /\ dsp d' = dsp d).
  { destruct (pcm_acquired d) eqn:Ea; [eauto|].
    assert (part = []) as -> by (destruct HRd as [_ _ _ _ _ _ _ Hloc _]; rewrite Ea in Hloc; exact Hloc).
    destruct (acquire_ring _ _ _ HRd Ea) as (d' & Ed & HR'). exists d'. split; [exact Ed|split; [exact HR'|]].
    unfold acquire in Ed. destruct (get_slot _ _) as [y|]; [|discriminate]. destruct (in_use y); now injection Ed as <-. }
  destruct E as (d' & -> & HR' & Ed). cbn [option_map]. eexists; split; [reflexivity|]. split; [|split; [reflexivity|]].
  - constructor; cbn [demod holding log delivered]; auto; [|now rewrite Ed]. exists blocks, part. ring_same.
  - cbn [demod]. rewrite Ed. unfold d. destruct gap; reflexivity.
Qed.

(** A sample that cannot be converted: it is due, goes to a slot, and is not a
    number. *)
Definition unconvertible (r : Run) (iq : Z * Z) : Prop :=
  pcm_acquired (demod r) = true /\ snd (dsp_step (dsp (demod r)) iq) = Some S754_nan.

Lemma unconvertible_dec r iq : unconvertible r iq \/
  (pcm_acquired (demod r) = true -> match snd (dsp_step (dsp (demod r)) iq) with Some x => is_nan x = false | None => True end).
Proof.
  unfold unconvertible. destruct (pcm_acquired _); [|right; discriminate].
  destruct (snd _) as [[| | |]|]; auto.
Qed.

Lemma step_unconvertible r iq : unconvertible r iq -> step r (Sample iq) = None.
Proof.
  intros [Ha En]. cbn [step]. destruct (dsp_step (dsp (demod r)) iq) as [s due]. cbn [snd] in En. subst due.
  unfold emit. cbn [pcm_acquired set_dsp]. now rewrite Ha.
Qed.

Lemma step_sample r n iq : Inv r n -> n < 2 ^ 31 - 1 -> ~ unconvertible r iq ->
  exists r', step r (Sample iq) = Some r' /\ Inv r' (n + 1) /\ dsp (demod r') = fst (dsp_step (dsp (demod r)) iq) /\
    map snd (log r') = map snd (log r) ++ match snd (dsp_step (dsp (demod r)) iq) with Some x => [x] | None => [] end.
Proof.
  intros [(blocks & part & HR & Hlen & Hd & Hc) Hh Ha Hs] Hn Hu. destruct (unconvertible_dec r iq) as [|Hnan]; [contradiction|]. cbn [step].
  destruct (dsp_step (dsp (demod r)) iq) as [s due] eqn:Es. cbn [fst snd] in *.
  destruct (dsp_step_small _ _ _ _ Ha Es) as [Ha' Hsm]. apply (ring_dsp _ _ _ _ s) in HR. destruct due as [x|].
  - destruct (emit_ring _ _ _ _ x HR (fun Hq => Hsm (Hnan Hq)) ltac:(lia)) as (b & d' & blocks' & part' & -> & HR' & Eb0 & Hc' & (more & Eb & Hm) & Ed).
    cbn [option_map]. eexists; split; [reflexivity|]. split; [|split; [exact Ed|cbn [log]; rewrite map_app; reflexivity]].
    constructor; cbn [demod holding log delivered]; auto.
    + exists blocks', part'. split; [exact HR'|]. rewrite Eb, length_app. split; [lia|]. split; [now apply firstn_more|].
      rewrite <- Eb, Hc', pcm_stored_snoc, <- Hc, <- app_assoc. reflexivity.
    + rewrite Ed. exact Ha'.
    + apply Forall_app. split; [exact Hs|]. constructor; [|constructor]. cbn [fst snd]. intros ->. auto.
  - eexists; split; [reflexivity|]. split; [|split; [reflexivity|cbn [log]; now rewrite app_nil_r]].
    constructor; cbn [demod holding log delivered]; auto. exists blocks, part. ring_same.
Qed.

Lemma step_take r n : Inv r n -> exists r', step r Take = Some r' /\ Inv r' (n + 1) /\ dsp (demod r') = dsp (demod r) /\ log r' = log r.
Proof.
  intros Hinv. cbn [step]. destruct (holding r) eqn:Eh.
  { exists r. split; [reflexivity|]. split; [|auto]. destruct Hinv as [(blocks & part & HR & Hlen & Hd & Hc) Hh Ha Hs].
    constructor; auto. exists blocks, part. ring_same. }
  destruct Hinv as [(blocks & part & HR & Hlen & Hd & Hc) Hh Ha Hs]. rewrite Eh, Z.sub_0_r in HR. unfold take.
  rewrite (ring_read _ _ _ _ HR), pcm_ring_index by lia. set (b := Z.of_nat (length (delivered r))) in *. fold (at_ (demod r) b).
  destruct (Z.eq_dec b (Z.of_nat (length blocks))) as [E|E].
  - assert (En : exists x, at_ (demod r) b = Some x /\ ready x = false).
    { rewrite E. destruct HR as [_ _ _ Hwin _ _ _ Hloc Hfree]. destruct (pcm_acquired (demod r)) eqn:Ea.
      - destruct Hloc as (_ & _ & _ & x & Ex & _ & Hr & _). eauto.
      - destruct (Hfree (Z.of_nat (length blocks)) ltac:(lia) ltac:(congruence)) as (x & Ex & _ & Hr & _). eauto. }
    destruct En as (x & -> & ->). exists r. split; [reflexivity|]. split; [|auto].
    constructor; auto. exists blocks, part. rewrite Eh, Z.sub_0_r. ring_same.
  - destruct (ring_full _ _ _ _ HR b ltac:(lia)) as (x & -> & _ & -> & _ & -> & Hf). eexists; split; [reflexivity|].
    split; [|auto]. constructor; cbn [demod holding log delivered]; auto.
    + exists blocks, part. rewrite length_app. cbn [length].
      replace (Z.of_nat (length (delivered r) + 1) - 1) with b by (unfold b; lia). split; [exact HR|]. split; [lia|]. split; [|exact Hc].
      change (Z.to_nat 2038) with 2038%nat. rewrite Hf. unfold b. rewrite Nat2Z.id.
      rewrite Nat.add_1_r, <- (firstn_snoc blocks _ []) by lia. now rewrite <- Hd.
    + intros _. apply not_eq_sym, app_cons_not_nil.
Qed.

Lemma step_release r n : Inv r n -> n < 2 ^ 31 - 1 ->
  exists r', step r Release = Some r' /\ Inv r' (n + 1) /\ dsp (demod r') = dsp (demod r) /\ log r' = log r.
Proof.
  intros [(blocks & part & HR & Hlen & Hd & Hc) Hh Ha Hs] Hn. cbn [step]. destruct (holding r) eqn:Eh.
  - specialize (Hh eq_refl). assert (0 < Z.of_nat (length (delivered r))) by (destruct (delivered r); [congruence|cbn [length]; lia]).
    destruct (release_ring _ _ _ _ HR ltac:(lia) ltac:(lia)) as (d' & -> & HR' & Ed). eexists; split; [reflexivity|]. split; [|auto].
    constructor; cbn [demod holding log delivered]; rewrite ?Ed; auto; try discriminate.
    exists blocks, part. rewrite Z.sub_0_r. replace (Z.of_nat (length (delivered r)) - 1 + 1) with (Z.of_nat (length (delivered r))) in HR' by lia.
    ring_same.
  - exists r. split; [reflexivity|]. split; [|auto]. constructor; auto; try congruence.
    exists blocks, part. rewrite Eh. ring_same.
Qed.

(** A run meets a sample that cannot be converted. *)
Definition meets_nan (es : list Event) (r : Run) : Prop :=
  exists before iq after r1, es = before ++ Sample iq :: after /\ run before r = Some r1 /\ unconvertible r1 iq.
Lemma meets_later e es r r1 : step r e = Some r1 -> run es r1 = None /\ meets_nan es r1 -> run (e :: es) r = None /\ meets_nan (e :: es) r.
Proof.
  intros E [Er (before & iq & after & r2 & -> & Eb & Hu)]. cbn [run]. rewrite E. split; [exact Er|].
  exists (e :: before), iq, after, r2. cbn [run]. rewrite E. auto.
Qed.

Lemma run_inv es : forall r n, Inv r n -> n + Z.of_nat (length es) < 2 ^ 31 - 1 ->
  (exists r', run es r = Some r' /\ Inv r' (n + Z.of_nat (length es)) /\ map snd (log r') = map snd (log r) ++ due_samples es (dsp (demod r))) \/
  (run es r = None /\ meets_nan es r).
Proof.
  induction es as [|e es IH]; intros r n Hinv Hn.
  { left. exists r. cbn [run due_samples length]. rewrite Z.add_0_r, app_nil_r. auto. }
  assert (Hstep : (exists iq, e = Sample iq /\ unconvertible r iq) \/ exists r1, step r e = Some r1 /\ Inv r1 (n + 1) /\
    map snd (log r1) ++ due_samples es (dsp (demod r1)) = map snd (log r) ++ due_samples (e :: es) (dsp (demod r))).
  { cbn [length] in Hn. destruct e as [gap|iq|report| |]; cbn [due_samples].
    - right. destruct (step_begin r n gap Hinv) as (r1 & E & H1 & El & Ed). rewrite <- Ed, <- El. eauto.
    - destruct (unconvertible_dec r iq) as [Hu|Hnan]; [left; eauto|right].
      destruct (step_sample r n iq Hinv ltac:(lia)) as (r1 & E & H1 & Ed & El).
      { intros [Ha En]. specialize (Hnan Ha). rewrite En in Hnan. discriminate. }
      exists r1. split; [exact E|]. split; [exact H1|]. rewrite El, Ed, <- app_assoc.
      destruct (dsp_step (dsp (demod r)) iq) as [s [x|]]; reflexivity.
    - right. destruct Hinv as [(blocks & part & HR & Hlen & Hd & Hc) Hh Ha Hs]. cbn [step]. eexists; split; [reflexivity|].
      assert (Ed : dsp (end_round report (demod r)) = dsp (demod r)) by (destruct report; reflexivity).
      cbn [demod log]. rewrite Ed. split; [|reflexivity]. constructor; cbn [demod holding log delivered]; rewrite ?Ed; auto.
      exists blocks, part. split; [destruct report; [now apply ring_diag|exact HR]|split; [lia|split; assumption]].
    - right. destruct (step_take r n Hinv) as (r1 & E & H1 & Ed & El). rewrite <- Ed, <- El. eauto.
    - right. destruct (step_release r n Hinv ltac:(lia)) as (r1 & E & H1 & Ed & El). rewrite <- Ed, <- El. eauto. }
  destruct Hstep as [(iq & -> & Hu)|(r1 & E & H1 & El)].
  { right. cbn [run]. rewrite (step_unconvertible r iq Hu). split; [reflexivity|]. exists [], iq, es, r. auto. }
  cbn [length] in Hn. destruct (IH r1 (n + 1) H1 ltac:(lia)) as [(r' & E' & H' & El')|H']; [left|right; eapply meets_later; eauto].
  cbn [run]. rewrite E. exists r'. split; [exact E'|]. rewrite El', El. split; [|reflexivity].
  replace (n + Z.of_nat (length (e :: es))) with (n + 1 + Z.of_nat (length es)) by (cbn [length]; lia). exact H'.
Qed.

Lemma init_inv : Inv init 0.
Proof.
  constructor; cbn [init demod holding log delivered]; auto; try discriminate.
  exists [], []. cbn [length Z.of_nat]. split; [|repeat split; lia].
  assert (Hfree : forall i, free_slot (at_ (demod init) i)).
  { intros i. pose proof (mod32 i). unfold at_, get_slot. replace (0 <=? i mod 32) with true by (symmetry; apply Z.leb_le; lia).
    exists (mkPCMSlot (repeat 0 (Z.to_nat PCM_CHUNK_SIZE)) 0 false false). cbn [init demod pcm_pool].
    rewrite nth_error_repeat by (unfold POOL_SIZE; lia). repeat split. }
  constructor; cbn [length Z.of_nat]; auto; try lia. reflexivity.
Qed.

(** C8: the PCM path is lossless up to counted drops, and in range.  For every
    interleaving of fewer than 2^31 - 1 events of the demodulator and the output
    thread, no index is out of range, and the run goes through unless it comes to
    a sample that is not a number and would be stored: the conversion of that
    one is the only undefined operation.  A run that goes through has stored or
    dropped all samples that are due; each stored one is between -32767 and
    32767 as a PCM sample; and the slots that the output thread has taken, each
    of 2038 samples, are in order the samples that were stored, up to what the
    ring and the slot being filled still hold. *)
Theorem pcm_stream es :
  Z.of_nat (length es) < 2 ^ 31 - 1 ->
  match run es init with
  | Some r =>
      map snd (log r) = due_samples es init_dsp /\
      Forall (fun p => fst p = true -> to_int16 (fmul (snd p) f_32767) = Some (pcm (snd p)) /\ -32767 <= pcm (snd p) <= 32767) (log r) /\
      Forall (fun slot => length slot = 2038%nat) (delivered r) /\
      exists rest, concat (delivered r) ++ rest = stored (log r) /\ (length rest <= 33 * 2038)%nat
  | None => meets_nan es init
  end.
Proof.
  intros Hn. destruct (run_inv es init 0 init_inv Hn) as [(r & -> & [Hring _ _ Hs] & El)|[-> H]]; [|exact H].
  destruct Hring as (blocks & part & HR & Hlen & Hd & Hc). split; [exact El|]. split.
  { eapply Forall_impl; [|exact Hs]. intros p Hp Hb. apply pcm_defined. auto. }
  destruct HR as [_ _ _ Hwin Hb _ Hp _ _]. rewrite <- (firstn_skipn (length (delivered r)) blocks), <- Hd in Hb, Hc. split.
  { apply Forall_app in Hb. apply Hb. }
  exists (concat (skipn (length (delivered r)) blocks) ++ part). split.
  { rewrite <- Hc, concat_app, <- app_assoc. reflexivity. }
  apply Forall_app in Hb as [_ Hb]. rewrite length_app, (concat_length_blocks _ Hb), length_skipn.
  destruct (holding r); lia.
Qed.

(** ** The resampler

    The phase accumulator is a float that is added to and rounded at every
    sample.  All its values are multiples of 2^-28: [Form f v] says that the
    float [f] is [v * 2^-28]. *)

Definition fl (m : Z) : float := binary_normalize 24 128 m (-28) false.
Definition rnd (x : Z) : Z := let k := Z.max 0 (Z.log2 x - 23) in rne x k * 2 ^ k.
Definition Form (f : float) (v : Z) : Prop :=
  match f with
  | S754_zero false => v = 0
  | S754_finite false m e => 0 < v /\ e = Z.log2 v - 51 /\ forall z, z <= e -> z <= -28 -> Zpos m * 2 ^ (e - z) = v * 2 ^ (-28 - z)
  | _ => False
  end.

Lemma rnd_bounds x : 0 < x -> 2 ^ Z.log2 x <= rnd x <= 2 ^ (Z.log2 x + 1).
Proof.
  intros Hx. unfold rnd. pose proof (Z.log2_spec x Hx) as [A B]. pose proof (Z.log2_nonneg x) as Hn.
  rewrite <- Z.add_1_r in B. destruct (Z.le_gt_cases (Z.log2 x) 23) as [H|H].
  - rewrite Z.max_l, Z.pow_0_r, rne_0 by lia. lia.
  - rewrite Z.max_r by lia. set (k := Z.log2 x - 23). assert (0 < 2 ^ k) by (apply Z.pow_pos_nonneg; lia).
    assert (Ea : 2 ^ Z.log2 x = 2 ^ 23 * 2 ^ k) by (rewrite <- Z.pow_add_r by lia; f_equal; lia).
    assert (Eb : 2 ^ (Z.log2 x + 1) = 2 ^ 24 * 2 ^ k) by (rewrite <- Z.pow_add_r by lia; f_equal; lia).
    assert (2 ^ 23 <= rne x k) by (apply rne_ge; lia). assert (rne x k <= 2 ^ 24) by (apply rne_le; lia). nia.
Qed.

Lemma rnd_mono x y : 0 < x -> x <= y -> rnd x <= rnd y.
Proof.
  intros Hx H. pose proof (Z.log2_le_mono x y H) as Hl. destruct (Z.eq_dec (Z.log2 x) (Z.log2 y)) as [E|E].
  - unfold rnd. rewrite E. apply Z.mul_le_mono_nonneg_r; [apply Z.pow_nonneg; lia|]. apply rne_mono; lia.
  - pose proof (rnd_bounds x Hx). pose proof (rnd_bounds y ltac:(lia)).
    assert (2 ^ (Z.log2 x + 1) <= 2 ^ Z.log2 y) by (apply Z.pow_le_mono_r; lia). lia.
Qed.

Lemma rnd_small x : 0 <= x < 2 ^ 24 -> rnd x = x.
Proof.
  intros H. unfold rnd. assert (Z.log2 x <= 23).
  { destruct (Z.eq_dec x 0) as [->|]; [cbn; lia|]. assert (Z.log2 x < 24) by (apply Z.log2_lt_pow2; lia). lia. }
  rewrite Z.max_l, Z.pow_0_r, rne_0 by lia. lia.
Qed.

Lemma pow_scale m a b c : 0 <= a -> 0 <= b -> a + b = c -> m * 2 ^ a * 2 ^ b = m * 2 ^ c.
Proof. intros Ha Hb <-. rewrite Z.pow_add_r by lia. lia. Qed.

(** Rounding a multiple of 2^-28. *)
Lemma form_fl x : 0 <= x < 2 ^ 29 -> Form (fl x) (rnd x).
Proof.
  intros Hx. destruct (Z.eq_dec x 0) as [->|Hne]; [reflexivity|]. unfold fl. rewrite normalize_spec by lia.
  assert (Hl : 0 <= Z.log2 x < 29) by (split; [apply Z.log2_nonneg|apply Z.log2_lt_pow2; lia]).
  assert (Ee : exp_of 24 128 x (-28) = Z.log2 x - 51) by (unfold exp_of; lia).
  pose proof (rnd_bounds x ltac:(lia)) as Hb. assert (Hp : 0 < 2 ^ Z.log2 x) by (apply Z.pow_pos_nonneg; lia).
  assert (Em : forall z, z <= Z.log2 x - 51 -> z <= -28 ->
    mantissa 24 128 x (-28) * 2 ^ (Z.log2 x - 51 - z) = rnd x * 2 ^ (-28 - z)).
  { intros z Hz Hz'. unfold mantissa. rewrite Ee. destruct (Z.leb_spec (-28) (Z.log2 x - 51)) as [H|H]; unfold rnd.
    - rewrite Z.max_r by lia. replace (Z.log2 x - 51 - -28) with (Z.log2 x - 23) by lia. symmetry. apply pow_scale; lia.
    - rewrite Z.max_l, rne_0 by lia. rewrite Z.pow_0_r, Z.mul_1_r. apply pow_scale; lia. }
  unfold normal, pack. rewrite Ee. destruct (Z.eqb_spec (mantissa 24 128 x (-28)) (2 ^ 24)) as [E|E].
  - rewrite E in Em. replace (Z.log2 x - 51 + 1 <=? 128 - 24) with true by (symmetry; apply Z.leb_le; lia).
    change (2 ^ (24 - 1)) with (Zpos 8388608). cbn [Form].
    assert (Er : rnd x = 2 ^ (Z.log2 x + 1)).
    { specialize (Em (-60 - 28) ltac:(lia) ltac:(lia)). rewrite <- Z.pow_add_r in Em by lia.
      apply (Z.mul_reg_r _ _ (2 ^ (-28 - (-60 - 28)))); [discriminate|]. rewrite <- Em, <- Z.pow_add_r by lia. f_equal. lia. }
    split; [lia|]. split; [rewrite Er, Z.log2_pow2; lia|]. intros z Hz Hz'.
    rewrite Er. change (Zpos 8388608) with (2 ^ 23). rewrite <- !Z.pow_add_r by lia. f_equal. lia.
  - assert (Hm : 0 < mantissa 24 128 x (-28)).
    { specialize (Em (-88) ltac:(lia) ltac:(lia)). assert (0 < 2 ^ (Z.log2 x - 51 - -88)) by (apply Z.pow_pos_nonneg; lia).
      assert (0 < rnd x * 2 ^ (-28 - -88)) by (apply Z.mul_pos_pos; lia). nia. }
    assert (Hr : rnd x < 2 ^ (Z.log2 x + 1)).
    { destruct (Z.eq_dec (rnd x) (2 ^ (Z.log2 x + 1))) as [Er|]; [exfalso|lia]. apply E.
      specialize (Em (-88) ltac:(lia) ltac:(lia)). apply (Z.mul_reg_r _ _ (2 ^ (Z.log2 x - 51 - -88))); [apply Z.pow_nonzero; lia|].
      rewrite Em, Er, <- !Z.pow_add_r by lia. f_equal. lia. }
    destruct (mantissa 24 128 x (-28)) as [|m|m] eqn:Eq; [lia| |lia].
    replace (Z.log2 x - 51 <=? 128 - 24) with true by (symmetry; apply Z.leb_le; lia). cbn [Form].
    split; [lia|]. split; [|exact Em]. f_equal. symmetry. apply Z.log2_unique; [lia|]. rewrite <- Z.add_1_r. lia.
Qed.

(** Sums and differences at any common exponent. *)
Lemma normalize_sum s e v : 0 <= s -> (forall z, z <= e -> z <= -28 -> s * 2 ^ (e - z) = v * 2 ^ (-28 - z)) -> 0 <= v ->
  binary_normalize 24 128 s e false = fl v.
Proof.
  intros Hs H Hv. set (z := Z.min e (-28)). unfold fl.
  rewrite <- (normalize_scale 24 128 ltac:(lia) s e (e - z)), <- (normalize_scale 24 128 ltac:(lia) v (-28) (-28 - z)) by lia.
  replace (e - (e - z)) with z by lia. replace (-28 - (-28 - z)) with z by lia. rewrite H by lia. reflexivity.
Qed.

Lemma align m e ez v z : (forall z, z <= e -> z <= -28 -> Zpos m * 2 ^ (e - z) = v * 2 ^ (-28 - z)) ->
  ez <= e -> z <= ez -> z <= -28 -> Zpos (fst (shl_align m e ez)) * 2 ^ (ez - z) = v * 2 ^ (-28 - z).
Proof.
  intros H He Hz Hz'. destruct (shl_align_le m e ez He) as [-> _]. rewrite <- H by lia. apply pow_scale; lia.
Qed.

Lemma fadd_form f g v u : Form f v -> Form g u -> 0 < v -> 0 < u -> fadd f g = fl (v + u).
Proof.
  unfold fadd. destruct f as [[|]|?| |[|] m e], g as [[|]|?| |[|] m' e']; cbn [Form]; try contradiction; try lia.
  intros (Hv & Ee & H) (Hu & Ee' & H') _ _. cbn [SFadd cond_Zopp]. set (ez := Z.min e e').
  apply normalize_sum; [lia| |lia]. intros z Hz Hz'.
  rewrite !Z.mul_add_distr_r, (align m e ez v), (align m' e' ez u) by (assumption || lia). reflexivity.
Qed.

Lemma fsub_form f g v u : Form f v -> Form g u -> 0 < u <= v -> fsub f g = fl (v - u).
Proof.
  unfold fsub. destruct f as [[|]|?| |[|] m e], g as [[|]|?| |[|] m' e']; cbn [Form]; try contradiction; try lia.
  intros (Hv & Ee & H) (Hu & Ee' & H') Hle. cbn [SFsub cond_Zopp]. set (ez := Z.min e e').
  assert (Hd : forall z, z <= ez -> z <= -28 ->
    (Zpos (fst (shl_align m e ez)) - Zpos (fst (shl_align m' e' ez))) * 2 ^ (ez - z) = (v - u) * 2 ^ (-28 - z)).
  { intros z Hz Hz'. rewrite !Z.mul_sub_distr_r, (align m e ez v), (align m' e' ez u) by (assumption || lia). reflexivity. }
  apply normalize_sum; [|exact Hd|lia]. specialize (Hd (Z.min ez (-28)) ltac:(lia) ltac:(lia)).
  assert (0 < 2 ^ (ez - Z.min ez (-28))) by (apply Z.pow_pos_nonneg; lia).
  assert (0 < 2 ^ (-28 - Z.min ez (-28))) by (apply Z.pow_pos_nonneg; lia). nia.
Qed.

(** The phase is at least 1. *)
Lemma leb_form f v : Form f v -> 0 <= v < 2 ^ 29 -> SFleb f_1 f = (2 ^ 28 <=? v).
Proof.
  change f_1 with (S754_finite false 8388608 (-23)). unfold SFleb, SFcompare.
  destruct f as [[|]|?| |[|] m e]; cbn [Form]; try contradiction.
  - intros -> _. reflexivity.
  - intros (Hv & He & H) Hb. assert (Hl : Z.log2 v < 29) by (apply Z.log2_lt_pow2; lia).
    destruct (Z.leb_spec (2 ^ 28) v) as [Hge|Hlt].
    + assert (28 <= Z.log2 v) by (apply Z.log2_le_pow2; lia). assert (e = -23) as -> by lia. rewrite Z.compare_refl.
      specialize (H (-28) ltac:(lia) ltac:(lia)). change (2 ^ (-23 - -28)) with 32 in H. change (2 ^ (-28 - -28)) with 1 in H.
      assert (Hc : (8388608 <= m)%positive) by lia. rewrite compare_cont. apply leb_pos. exact Hc.
    + assert (Z.log2 v < 28) by (apply Z.log2_lt_pow2; lia). destruct (Z.compare_spec (-23) e); lia.
Qed.

(** One step of the accumulator, on the multiples. *)
Definition ratio : Z := 8589935.
Definition phase_step (v : Z) : Z := rnd (v + ratio).

Lemma ratio_form : Form RESAMP_RATIO ratio.
Proof.
  replace RESAMP_RATIO with (fl ratio) by (vm_compute; reflexivity). rewrite <- (rnd_small ratio) by (unfold ratio; lia).
  apply form_fl. unfold ratio. lia.
Qed.
Lemma one_form : Form f_1 (2 ^ 28).
Proof. replace f_1 with (fl (2 ^ 28)) by (vm_compute; reflexivity). replace (2 ^ 28) with (rnd (2 ^ 28)) at 2 by reflexivity. apply form_fl. lia. Qed.

Lemma phase_step_bound v : 0 <= v < 2 ^ 28 -> 0 < phase_step v <= 2 ^ 28 + 8589920.
Proof.
  intros Hv. unfold phase_step. pose proof (rnd_bounds (v + ratio) ltac:(unfold ratio; lia)).
  assert (0 < 2 ^ Z.log2 (v + ratio)) by (apply Z.pow_pos_nonneg; [lia|apply Z.log2_nonneg]).
  pose proof (rnd_mono (v + ratio) (2 ^ 28 - 1 + ratio) ltac:(unfold ratio; lia) ltac:(lia)).
  assert (rnd (2 ^ 28 - 1 + ratio) = 2 ^ 28 + 8589920) by reflexivity. lia.
Qed.

Lemma resample_form f v : Form f v -> 0 <= v < 2 ^ 28 ->
  exists f', resample f = (f', 2 ^ 28 <=? phase_step v) /\
    Form f' (if 2 ^ 28 <=? phase_step v then phase_step v - 2 ^ 28 else phase_step v).
Proof.
  intros Hf Hv. unfold resample. pose proof (phase_step_bound v Hv) as Hb.
  assert (E : fadd f RESAMP_RATIO = fl (v + ratio)).
  { destruct (Z.eq_dec v 0) as [->|Hne].
    - destruct f as [[|]|?| |[|] m e]; cbn [Form] in Hf; try contradiction; [vm_compute; reflexivity|lia].
    - apply fadd_form; [exact Hf|exact ratio_form|lia|unfold ratio; lia]. }
  rewrite E. assert (HF : Form (fl (v + ratio)) (phase_step v)) by (apply form_fl; unfold ratio; lia).
  rewrite (leb_form _ _ HF) by lia. destruct (Z.leb_spec (2 ^ 28) (phase_step v)); [|eauto]. eexists; split; [reflexivity|].
  rewrite (fsub_form _ _ _ _ HF one_form) by lia. rewrite <- (rnd_small (phase_step v - 2 ^ 28)) at 2 by lia. apply form_fl. lia.
Qed.

(** Steps without an output. *)
Fixpoint phases (j : nat) (v : Z) : Z := match j with O => v | S j' => phase_step (phases j' v) end.

Lemma phases_S j v : phases (S j) v = phase_step (phases j v).
Proof. reflexivity. Qed.

Lemma phases_mono j v u : 0 <= v <= u -> 0 <= phases j v <= phases j u.
Proof.
  intros H. induction j as [|j IH]; cbn [phases]; [exact H|]. unfold phase_step.
  pose proof (rnd_mono (phases j v + ratio) (phases j u + ratio) ltac:(unfold ratio; lia) ltac:(lia)).
  pose proof (rnd_bounds (phases j v + ratio) ltac:(unfold ratio; lia)).
  assert (0 < 2 ^ Z.log2 (phases j v + ratio)) by (apply Z.pow_pos_nonneg; [lia|apply Z.log2_nonneg]). lia.
Qed.

(** From a phase below the ratio, 1 is reached by the 32nd step and not before
    the 31st. *)
Lemma phases_early j v : 0 <= v <= ratio -> (j <= 30)%nat -> phases j v < 2 ^ 28.
Proof.
  intros Hv Hj. apply Z.le_lt_trans with (phases j ratio); [apply phases_mono; lia|].
  assert (C : forallb (fun j => phases j ratio <? 2 ^ 28) (seq 0 31) = true) by (vm_compute; reflexivity).
  rewrite forallb_forall in C. apply Z.ltb_lt, C, in_seq. lia.
Qed.
Lemma phases_late v : 0 <= v -> 2 ^ 28 <= phases 32 v.
Proof.
  intros Hv. transitivity (phases 32 0); [|apply phases_mono; lia].
  apply Z.leb_le. vm_compute. reflexivity.
Qed.

(** The accumulator after [n] samples and [k] outputs: [j] samples after the
    last output. *)
Definition Rate (n k : Z) (f : float) : Prop :=
  exists j v0, Form f (phases j v0) /\ phases j v0 < 2 ^ 28 /\ 0 <= v0 <= ratio /\
    (j <= 31)%nat /\ 31 * k <= n - Z.of_nat j <= 32 * k.

Lemma rate_step n k f : Rate n k f ->
  Rate (n + 1) (k + if snd (resample f) then 1 else 0) (fst (resample f)).
Proof.
  intros (j & v0 & HF & Hlt & Hv0 & Hj & Hk). pose proof (phases_mono j v0 v0 ltac:(lia)) as H0.
  destruct (resample_form f _ HF ltac:(lia)) as (f' & -> & HF'). cbn [fst snd].
  pose proof (phase_step_bound (phases j v0) ltac:(lia)) as Hb.
  destruct (Z.leb_spec (2 ^ 28) (phase_step (phases j v0))) as [Hge|Hno].
  - assert (30 <= j)%nat.
    { destruct (Nat.le_gt_cases 30 j) as [|Hc]; [assumption|exfalso].
      pose proof (phases_early (S j) v0 Hv0 ltac:(lia)) as He. rewrite phases_S in He. lia. }
    exists 0%nat, (phase_step (phases j v0) - 2 ^ 28). cbn [phases]. unfold ratio. repeat split; auto; lia.
  - assert (j <> 31)%nat.
    { intros ->. pose proof (phases_late v0 ltac:(lia)) as Hl. rewrite phases_S in Hl. lia. }
    exists (S j), v0. rewrite phases_S. repeat split; auto; lia.
Qed.

Definition is_sample (e : Event) : bool := match e with Sample _ => true | _ => false end.

Lemma dsp_step_resample s iq : resamp_phase (fst (dsp_step s iq)) = fst (resample (resamp_phase s)) /\
  match snd (dsp_step s iq) with Some _ => true | None => false end = snd (resample (resamp_phase s)).
Proof.
  unfold dsp_step, process. cbn zeta beta iota. destruct (resample (resamp_phase s)) as [p due]. destruct due; split; reflexivity.
Qed.

Lemma rate_run es : forall s n k, Rate n k (resamp_phase s) ->
  exists f, Rate (n + Z.of_nat (length (filter is_sample es))) (k + Z.of_nat (length (due_samples es s))) f.
Proof.
  induction es as [|e es IH]; intros s n k HR.
  { exists (resamp_phase s). cbn [filter due_samples length]. now rewrite !Z.add_0_r. }
  destruct e as [gap|iq|report| |]; cbn [filter is_sample due_samples]; try exact (IH s n k HR).
  - apply IH. destruct gap; exact HR.
  - pose proof (dsp_step_resample s iq) as [Ep Ed]. apply rate_step in HR. destruct (dsp_step s iq) as [s' due]. cbn [fst snd] in *.
    rewrite <- Ep, <- Ed in HR. destruct (IH s' _ _ HR) as [f Hf]. exists f.
    destruct due; cbn [length]; eapply (eq_ind _ (fun x => x) Hf); f_equal; lia.
Qed.

(** C40: the resampling rate.  In every run, [n] IQ samples give [k] PCM samples
    with [31 k <= n <= 32 k + 31], whatever the signal and the gaps: although
    the accumulator is a binary32 float that is rounded at every sample, two
    consecutive outputs are 31 or 32 samples apart, for 500000 samples in and
    16000 out per second. *)
Theorem resample_rate es :
  let n := Z.of_nat (length (filter is_sample es)) in
  let k := Z.of_nat (length (due_samples es init_dsp)) in
  31 * k <= n <= 32 * k + 31.
Proof.
  cbn zeta. destruct (rate_run es init_dsp 0 0) as (f & j & v0 & _ & _ & _ & Hj & Hk).
  - exists 0%nat, 0. cbn [phases]. repeat split; try reflexivity; unfold ratio; lia.
  - cbn [Z.add] in Hk. lia.
Qed.

End Libm.

(** ** A concrete run *)

(** A signal chain that gives silence: no phase ever differs. *)
Definition demo_sin (x : double) : double := d0.
Definition demo_cos (x : double) : double := d_1.
Definition demo_atan2 (y x : float) : float := f_0.
Definition demo_events : list Event := Begin false :: repeat (Sample (0, 0)) (Z.to_nat 63700) ++ [Take; End true; Release].

(** In silence only the phase of the resampler changes. *)
Definition silent : Dsp := Eval vm_compute in init_dsp demo_sin demo_cos.
Definition quiet (p : float) : Dsp :=
  mkDsp (ch_i1 silent) (ch_i2 silent) (ch_q1 silent) (ch_q2 silent) (aud1 silent) (aud2 silent) f_0 d0 p f_0.
Definition quick_step (r : Run) : option Run :=
  let '(p, due) := resample (resamp_phase (dsp (demod r))) in
  let d := set_dsp (quiet p) (demod r) in
  if due then
    option_map (fun '(b, d) => mkRun d (holding r) (log r ++ [(b, clamp (interpolate p f_0 f_0))]) (delivered r))
      (emit (clamp (interpolate p f_0 f_0)) d)
  else Some (mkRun d (holding r) (log r) (delivered r)).
Fixpoint quick (n : nat) (r : Run) : option Run :=
  match n with O => Some r | S n' => match quick_step r with Some r => quick n' r | None => None end end.

Lemma acquire_dsp d d' : acquire d = Some d' -> dsp d' = dsp d.
Proof. unfold acquire. destruct (get_slot _ _) as [x|]; [|discriminate]. destruct (in_use x); intros [= <-]; reflexivity. Qed.
Lemma emit_dsp x d b d' : emit x d = Some (b, d') -> dsp d' = dsp d.
Proof.
  unfold emit, write_sample, publish_slot. destruct (pcm_acquired d).
  - destruct (to_int16 _); [|discriminate]. destruct (get_slot _ _); [|discriminate]. destruct (_ && _); [|discriminate].
    destruct (_ <=? _); [|intros [= <- <-]; reflexivity]. destruct (get_slot _ _); [|discriminate].
    match goal with |- option_map _ (acquire ?e) = _ -> _ => destruct (acquire e) eqn:E; [|discriminate] end.
    intros [= <- <-]. now apply acquire_dsp in E.
  - match goal with |- option_map _ (acquire ?e) = _ -> _ => destruct (acquire e) eqn:E; [|discriminate] end.
    intros [= <- <-]. now apply acquire_dsp in E.
Qed.

Ltac closed_value t := let v := eval vm_compute in t in replace t with v by (vm_compute; reflexivity).
Ltac run_filter := match goal with |- context [process ?b ?x] => closed_value (process b x); cbv beta iota end.
Lemma quiet_step p : dsp_step demo_sin demo_atan2 (quiet p) (0, 0) =
  let '(p', due) := resample p in (quiet p', if due then Some (clamp (interpolate p' f_0 f_0)) else None).
Proof.
  unfold dsp_step. cbn [quiet resamp_phase prev_audio prev_phase de_state ch_i1 ch_i2 ch_q1 ch_q2 aud1 aud2 fst snd].
  do 4 run_filter. unfold demo_atan2. do 2 run_filter.
  closed_value (dadd (dmul (dsub d_1 (de_d demo_sin)) (S754_zero false)) (dmul (de_d demo_sin) d0)).
  closed_value (fmul (float_of_double (S754_zero false)) FM_GAIN).
  destruct (resample p) as [p' due]. reflexivity.
Qed.

Lemma quick_run n : forall es r, dsp (demod r) = quiet (resamp_phase (dsp (demod r))) ->
  run demo_sin demo_atan2 (repeat (Sample (0, 0)) n ++ es) r = match quick n r with Some r => run demo_sin demo_atan2 es r | None => None end.
Proof.
  induction n as [|n IH]; intros es r Hq; [reflexivity|]. cbn [repeat app run quick step]. unfold quick_step.
  rewrite Hq, quiet_step. cbn [quiet resamp_phase]. destruct (resample _) as [p due]. destruct due; [|apply IH; reflexivity].
  destruct (emit _ _) as [[b d]|] eqn:E; [|reflexivity]. cbn [option_map]. apply IH. cbn [demod]. apply emit_dsp in E. rewrite E. reflexivity.
Qed.

Lemma demo_delivered :
  option_map delivered (run demo_sin demo_atan2 demo_events (init demo_sin demo_cos)) = Some [repeat 0 (Z.to_nat 2038)].
Proof.
  unfold demo_events. set (tail := [Take; End true; Release]). set (n := Z.to_nat 63700). cbn [run].
  assert (Ed : option_map (fun r => dsp (demod r)) (step demo_sin demo_atan2 (init demo_sin demo_cos) (Begin false)) = Some (quiet f_0)) by (vm_compute; reflexivity).
  assert (E : option_map delivered
    match step demo_sin demo_atan2 (init demo_sin demo_cos) (Begin false) with
    | Some r => match quick n r with Some r => run demo_sin demo_atan2 tail r | None => None end
    | None => None
    end = Some [repeat 0 (Z.to_nat 2038)]) by (vm_compute; reflexivity).
  destruct (step _ _ _ (Begin false)) as [r|]; [|exact E]. injection Ed as Ed. rewrite quick_run; [exact E|]. now rewrite Ed.
Qed.

(** On 63700 samples, a block of 2038 due samples is delivered. *)
Lemma pcm_stream_witness :
  exists r, run demo_sin demo_atan2 demo_events (init demo_sin demo_cos) = Some r /\ delivered r = [repeat 0 (Z.to_nat 2038)] /\
    exists rest, concat (delivered r) ++ rest = stored (log r).
Proof.
  pose proof (pcm_stream demo_sin demo_cos demo_sin demo_atan2 demo_events ltac:(reflexivity)) as H. pose proof demo_delivered as E.
  destruct (run _ _ demo_events _) as [r|]; [|discriminate E]. injection E as E. destruct H as (_ & _ & _ & rest & Hc & _).
  exists r. split; [reflexivity|]. split; [exact E|]. exists rest. exact Hc.
Defined.
