(* ===== verification/Daemon.v ===== *)
(** * Daemon: the command state machine of the SDR daemon

    Models [commandListener] with the recorder and live-listen threads that it
    starts, [sendCtrlCommand], [ctrlReaderThread] (the handling of a line),
    [outputThread] and [mockCommandListener] of [src/sdr-daemon/src/main.cpp].

    The threads share the flags [g_scanning], [g_recording] and
    [g_live_listen], the WAV file and the control socket.  One event is one
    step of one thread, and a run is any interleaving.  A message of the
    [sdr_commands] channel is what [crow::json::load] makes of it; [stod] is
    [std::stod] ([None] when it throws). *)

From Stdlib Require Import ZArith List Lia Bool String SpecFloat.
Import ListNotations.
From S2P Require Import Prelude.
#[local] Open Scope Z_scope.

Abbreviation double := spec_float.

(** The [freq] member of a message. *)
Inductive FreqField := FreqAbsent | FreqNumber (d : double) | FreqString (s : string) | FreqOther.
(** [command] is [None] when the member is missing or not a string. *)
Inductive Message := NotMessage | BadJson | Parsed (command : option string) (freq : FreqField).

(** Commands on the control socket. *)
Inductive RelayCmd :=
| RelayTune (freq : double)
| RelayConfigure (freq : double) (bw if_mode agc : string) (lna : Z)
| RelayScan.

(** Messages on the Redis channels [ws_updates] and [live_audio]. *)
Inductive Update := WsLine (line : string) | RecordComplete (freq : double) (file : string) | LiveAudio (pcm : list Z).

(** Where a recorder thread is. *)
Inductive RecPc := RStart | ROpen | RCheck | RSleep | RClear | RClose | RPublish | RDone.
Record Recorder := mkRec { rec_freq : double; pc : RecPc }.
(** Where a live-listen thread is: before it reads [g_recording], with the
    command it then sends, or past it. *)
Inductive LiveThread := LStart (freq : double) | LSend (c : RelayCmd) | LDone.

Record Daemon := mkDaemon {
  terminated : bool;
  g_scanning : bool;
  g_recording : bool;
  g_live_listen : bool;
  g_current_freq : double;
  g_ctrl_fd : Z;
  g_wav_file : option nat;
  g_wav_write_active : bool;
  open_files : list nat;
  next_file : nat;
  recorders : list Recorder;
  live_threads : list LiveThread;
  sent : list RelayCmd;
  published : list Update;
  written : list (nat * list Z) }.

Definition set_flags (s r l : bool) (d : Daemon) : Daemon :=
  mkDaemon (terminated d) s r l (g_current_freq d) (g_ctrl_fd d) (g_wav_file d) (g_wav_write_active d) (open_files d)
    (next_file d) (recorders d) (live_threads d) (sent d) (published d) (written d).
Definition set_scanning (b : bool) (d : Daemon) : Daemon := set_flags b (g_recording d) (g_live_listen d) d.
Definition set_recording (b : bool) (d : Daemon) : Daemon := set_flags (g_scanning d) b (g_live_listen d) d.
Definition set_live (b : bool) (d : Daemon) : Daemon := set_flags (g_scanning d) (g_recording d) b d.
Definition set_freq (f : double) (d : Daemon) : Daemon :=
  mkDaemon (terminated d) (g_scanning d) (g_recording d) (g_live_listen d) f (g_ctrl_fd d) (g_wav_file d)
    (g_wav_write_active d) (open_files d) (next_file d) (recorders d) (live_threads d) (sent d) (published d) (written d).
Definition set_fd (fd : Z) (d : Daemon) : Daemon :=
  mkDaemon (terminated d) (g_scanning d) (g_recording d) (g_live_listen d) (g_current_freq d) fd (g_wav_file d)
    (g_wav_write_active d) (open_files d) (next_file d) (recorders d) (live_threads d) (sent d) (published d) (written d).
Definition set_wav (f : option nat) (active : bool) (files : list nat) (next : nat) (d : Daemon) : Daemon :=
  mkDaemon (terminated d) (g_scanning d) (g_recording d) (g_live_listen d) (g_current_freq d) (g_ctrl_fd d) f
    active files next (recorders d) (live_threads d) (sent d) (published d) (written d).
Definition set_threads (rs : list Recorder) (ls : list LiveThread) (d : Daemon) : Daemon :=
  mkDaemon (terminated d) (g_scanning d) (g_recording d) (g_live_listen d) (g_current_freq d) (g_ctrl_fd d) (g_wav_file d)
    (g_wav_write_active d) (open_files d) (next_file d) rs ls (sent d) (published d) (written d).
Definition set_logs (s : list RelayCmd) (p : list Update) (w : list (nat * list Z)) (d : Daemon) : Daemon :=
  mkDaemon (terminated d) (g_scanning d) (g_recording d) (g_live_listen d) (g_current_freq d) (g_ctrl_fd d) (g_wav_file d)
    (g_wav_write_active d) (open_files d) (next_file d) (recorders d) (live_threads d) s p w.
Definition terminate (d : Daemon) : Daemon :=
  mkDaemon true (g_scanning d) (g_recording d) (g_live_listen d) (g_current_freq d) (g_ctrl_fd d) (g_wav_file d)
    (g_wav_write_active d) (open_files d) (next_file d) (recorders d) (live_threads d) (sent d) (published d) (written d).

(** [sendCtrlCommand]: whether there is a socket, and the command handed to it. *)
Definition sendCtrlCommand (c : RelayCmd) (d : Daemon) : bool * Daemon :=
  if g_ctrl_fd d <? 0 then (false, d) else (true, set_logs (sent d ++ [c]) (published d) (written d) d).
Definition publish (u : Update) (d : Daemon) : Daemon := set_logs (sent d) (published d ++ [u]) (written d) d.

(** The hardware set-up of a recording or of a live stream: a full
    configuration, unless the other activity already configured the relay. *)
Definition hw_cmd (other : bool) (targetFreq : double) : RelayCmd :=
  if negb other then RelayConfigure targetFreq "BW_0_300" "IF_Zero" "off" 4 else RelayTune targetFreq.

Section Listener.
Variable stod : string -> option double.

(** One message of [commandListener]. *)
Definition commandListener (m : Message) (d : Daemon) : Daemon :=
  match m with
  | NotMessage | BadJson => d
  | Parsed None _ => terminate d
  | Parsed (Some cmd) freq =>
      let freqProvided := match freq with FreqAbsent => false | _ => true end in
      match
        match freq with
        | FreqAbsent | FreqOther => Some (g_current_freq d)
        | FreqNumber f => Some f
        | FreqString s => stod s
        end
      with
      | None => terminate d
      | Some targetFreq =>
          let d := set_freq targetFreq d in
          if (String.eqb cmd "TUNE") && negb (g_scanning d) then snd (sendCtrlCommand (RelayTune targetFreq) d)
          else if (String.eqb cmd "RECORD") && negb (g_scanning d) && negb (g_recording d) then
            set_threads (recorders d ++ [mkRec targetFreq RStart]) (live_threads d) (set_recording true d)
          else if (String.eqb cmd "LIVE_LISTEN") && negb (g_scanning d) then
            if negb freqProvided then d
            else if g_live_listen d then snd (sendCtrlCommand (RelayTune targetFreq) d)
            else set_threads (recorders d) (live_threads d ++ [LStart targetFreq]) (set_live true d)
          else if (String.eqb cmd "STOP_LIVE") && g_live_listen d then set_live false d
          else if (String.eqb cmd "SCAN") && negb (g_scanning d) && negb (g_recording d) && negb (g_live_listen d) then
            snd (sendCtrlCommand RelayScan (set_scanning true d))
          else d
      end
  end.
End Listener.

(** One step of the [i]-th recorder; [open_ok] says whether [sf_open] succeeds. *)
Fixpoint update_rec (l : list Recorder) (i : nat) (p : RecPc) : list Recorder :=
  match l, i with
  | [], _ => []
  | r :: l', O => mkRec (rec_freq r) p :: l'
  | r :: l', S i' => r :: update_rec l' i' p
  end.
Definition set_rec (i : nat) (p : RecPc) (d : Daemon) : Daemon :=
  set_threads (update_rec (recorders d) i p) (live_threads d) d.
Definition wav_filename : string := "/app/shared/audio/audio.wav".
Definition recorder_step (i : nat) (open_ok : bool) (d : Daemon) : Daemon :=
  match nth_error (recorders d) i with
  | None => d
  | Some r =>
      match pc r with
      | RStart => set_rec i ROpen (snd (sendCtrlCommand (hw_cmd (g_live_listen d) (rec_freq r)) d))
      | ROpen =>
          set_rec i RCheck
            (if open_ok then set_wav (Some (next_file d)) true (next_file d :: open_files d) (S (next_file d)) d
             else set_wav None (g_wav_write_active d) (open_files d) (next_file d) d)
      | RCheck =>
          match g_wav_file d with
          | None => set_rec i RDone (set_recording false d)
          | Some _ => set_rec i RSleep d
          end
      | RSleep => set_rec i RClear (set_wav (g_wav_file d) false (open_files d) (next_file d) d)
      | RClear => set_rec i RClose (set_recording false d)
      | RClose =>
          set_rec i RPublish
            (match g_wav_file d with
             | Some f => set_wav None (g_wav_write_active d) (filter (fun x => negb (Nat.eqb x f)) (open_files d)) (next_file d) d
             | None => d
             end)
      | RPublish => set_rec i RDone (publish (RecordComplete (rec_freq r) wav_filename) d)
      | RDone => d
      end
  end.

(** One step of the [i]-th live-listen thread. *)
Definition set_live_thread (i : nat) (t : LiveThread) (d : Daemon) : Daemon :=
  set_threads (recorders d) (firstn i (live_threads d) ++ t :: skipn (S i) (live_threads d)) d.
Definition live_step (i : nat) (d : Daemon) : Daemon :=
  match nth_error (live_threads d) i with
  | Some (LStart f) => set_live_thread i (LSend (hw_cmd (g_recording d) f)) d
  | Some (LSend c) => set_live_thread i LDone (snd (sendCtrlCommand c d))
  | Some LDone | None => d
  end.

(** What the reader makes of a line from the relay: no JSON, an exception of
    [json.has("event")] or [json["event"].s()], which nothing catches, or the
    event, empty when there is none. *)
Inductive LineEvent := LineBadJson | LineThrows | LineIs (event : string).
Definition ctrl_line (event : LineEvent) (line : string) (d : Daemon) : Daemon :=
  match event with
  | LineBadJson => d
  | LineThrows => terminate d
  | LineIs event =>
      if String.eqb event "scan_complete" then publish (WsLine line) (set_scanning false d)
      else if String.eqb event "configure_ack" then d
      else if negb (String.eqb event "") then publish (WsLine line) d
      else d
  end.

(** One PCM slot through [outputThread]; [redis_ok] is the state of its
    connection. *)
Definition outputThread (pcm : list Z) (redis_ok : bool) (d : Daemon) : Daemon :=
  let d :=
    if g_wav_write_active d then
      match g_wav_file d with
      | Some f => set_logs (sent d) (published d) (written d ++ [(f, pcm)]) d
      | None => d
      end
    else d in
  if g_live_listen d && redis_ok then publish (LiveAudio pcm) d else d.

Inductive Event :=
| Command (m : Message)
| RecStep (i : nat) (open_ok : bool)
| LiveStep (i : nat)
| CtrlUp (fd : Z)
| CtrlDown
| CtrlLine (event : LineEvent) (line : string)
| Output (pcm : list Z) (redis_ok : bool).

Definition step (stod : string -> option double) (d : Daemon) (e : Event) : Daemon :=
  if terminated d then d
  else
    match e with
    | Command m => commandListener stod m d
    | RecStep i ok => recorder_step i ok d
    | LiveStep i => live_step i d
    | CtrlUp fd => set_fd fd d
    | CtrlDown => set_fd (-1) d
    | CtrlLine ev line => ctrl_line ev line d
    | Output pcm ok => outputThread pcm ok d
    end.
Definition run (stod : string -> option double) (es : list Event) (d : Daemon) : Daemon := fold_left (step stod) es d.

(** 88.1 *)
Definition init : Daemon :=
  mkDaemon false false false false (S754_finite false 6199486362052198 (-46)) (-1) None false [] 0 [] [] [] [] [].

(** ** Mock mode *)

Inductive MockAction := MockScan | MockRecord (freq : double) | MockLiveThread.
(** [None]: an exception ends the listener. *)
Definition mockCommandListener (m : Message) (g_mock_live_active : bool) : option (list MockAction * bool) :=
  match m with
  | NotMessage | BadJson => Some ([], g_mock_live_active)
  | Parsed None _ => None
  | Parsed (Some cmd) freq =>
      let freq_d :=
        match freq with FreqAbsent => Some (S754_zero false) | FreqNumber d => Some d | _ => None end in
      if String.eqb cmd "TUNE" then option_map (fun _ => ([], g_mock_live_active)) freq_d
      else if String.eqb cmd "SCAN" then Some ([MockScan], g_mock_live_active)
      else if String.eqb cmd "RECORD" then option_map (fun f => ([MockRecord f], g_mock_live_active)) freq_d
      else if String.eqb cmd "LIVE_LISTEN" then
        option_map (fun _ => if negb g_mock_live_active then ([MockLiveThread], true) else ([], g_mock_live_active)) freq_d
      else if String.eqb cmd "STOP_LIVE" then Some ([], false)
      else Some ([], g_mock_live_active)
  end.

(** ** The invariant *)

Ltac fields :=
  unfold set_scanning, set_recording, set_live, set_rec, publish, set_flags, set_freq, set_fd, set_wav, set_threads, set_logs, terminate;
  cbn [terminated g_scanning g_recording g_live_listen g_current_freq g_ctrl_fd g_wav_file g_wav_write_active open_files
       next_file recorders live_threads sent published written fst snd].

(** The recorder has not given the recording flag back yet. *)
Definition holds_flag (p : RecPc) : bool :=
  match p with RStart | ROpen | RCheck | RSleep | RClear => true | RClose | RPublish | RDone => false end.
Definition owners (l : list Recorder) : nat := List.length (filter (fun r => holds_flag (pc r)) l).

Record Inv (d : Daemon) : Prop := {
  inv_scan : g_scanning d = true -> g_recording d = false /\ g_live_listen d = false;
  inv_file : forall f, g_wav_file d = Some f -> In f (open_files d);
  inv_fresh : forall f, In f (open_files d) -> (f < next_file d)%nat;
  inv_owner : owners (recorders d) = if g_recording d then 1%nat else 0%nat }.

Lemma owners_update l i r p : nth_error l i = Some r ->
  (owners (update_rec l i p) + (if holds_flag (pc r) then 1 else 0) = owners l + (if holds_flag p then 1 else 0))%nat.
Proof.
  revert i. induction l as [|x l IH]; intros [|i] E; cbn in E; try discriminate.
  - injection E as ->. unfold owners. cbn [update_rec filter pc]. destruct (holds_flag p), (holds_flag (pc r)); cbn [List.length]; lia.
  - specialize (IH i E). unfold owners in *. cbn [update_rec filter]. destruct (holds_flag (pc x)); cbn [List.length]; lia.
Qed.

Lemma owners_snoc l r : owners (l ++ [r]) = (owners l + (if holds_flag (pc r) then 1 else 0))%nat.
Proof. unfold owners. rewrite filter_app, length_app. cbn [filter]. destruct (holds_flag (pc r)); reflexivity. Qed.

Lemma sent_inv d c : Inv d -> Inv (snd (sendCtrlCommand c d)).
Proof. intros [A B C D]. unfold sendCtrlCommand. destruct (_ <? 0); constructor; auto. Qed.

Lemma listener_inv stod m d : Inv d -> Inv (commandListener stod m d).
Proof.
  intros H. pose proof H as [A B C D]. unfold commandListener. destruct m as [| |[cmd|] freq]; auto; [|constructor; auto].
  destruct (match freq with FreqAbsent | FreqOther => _ | FreqNumber f => _ | FreqString s => _ end) as [f|]; [|constructor; auto].
  assert (Hf : Inv (set_freq f d)) by (constructor; auto). cbv zeta. cbn [set_freq g_scanning g_recording g_live_listen].
  destruct (String.eqb cmd "TUNE" && negb (g_scanning d)); [now apply sent_inv|].
  destruct (String.eqb cmd "RECORD" && negb (g_scanning d) && negb (g_recording d)) eqn:E2.
  { apply andb_true_iff in E2 as [E2 Er]. apply andb_true_iff in E2 as [_ Es]. apply negb_true_iff in Er, Es.
    constructor; fields; auto; [intros Hs; congruence|]. rewrite owners_snoc, D, Er. reflexivity. }
  destruct (String.eqb cmd "LIVE_LISTEN" && negb (g_scanning d)) eqn:E3.
  { apply andb_true_iff in E3 as [_ Es]. apply negb_true_iff in Es.
    match goal with |- Inv (if negb ?b then _ else _) => destruct b end; cbn [negb]; [|exact Hf].
    destruct (g_live_listen d); [now apply sent_inv|]. constructor; fields; auto. intros Hs; congruence. }
  destruct (String.eqb cmd "STOP_LIVE" && g_live_listen d).
  { constructor; fields; auto. intros Hs. now destruct (A Hs). }
  destruct (String.eqb cmd "SCAN" && negb (g_scanning d) && negb (g_recording d) && negb (g_live_listen d)) eqn:E5; [|exact Hf].
  apply andb_true_iff in E5 as [E5 El]. apply andb_true_iff in E5 as [E5 Er]. apply negb_true_iff in Er, El.
  apply sent_inv. constructor; fields; auto.
Qed.

Lemma rec_inv d i r p : Inv d -> nth_error (recorders d) i = Some r -> holds_flag (pc r) = holds_flag p -> Inv (set_rec i p d).
Proof.
  intros [A B C D] E Ep. constructor; fields; auto. pose proof (owners_update (recorders d) i r p E). rewrite Ep in *. lia.
Qed.

Lemma recorder_inv i ok d : Inv d -> Inv (recorder_step i ok d).
Proof.
  intros H. pose proof H as [A B C D]. unfold recorder_step. destruct (nth_error (recorders d) i) as [r|] eqn:Er; [|exact H].
  pose proof (owners_update (recorders d) i r) as Ho.
  destruct (pc r) eqn:Ep; auto.
  - apply (rec_inv _ i r); [now apply sent_inv| |now rewrite Ep].
    unfold sendCtrlCommand. destruct (_ <? 0); exact Er.
  - apply (rec_inv _ i r); [|destruct ok; exact Er|now rewrite Ep]. destruct ok; constructor; fields; auto.
    + intros f [= <-]. now left.
    + intros f [<-|Hf]; [lia|]. apply C in Hf. lia.
    + discriminate.
  - destruct (g_wav_file d) eqn:Ef.
    + apply (rec_inv _ i r); [exact H|exact Er|now rewrite Ep].
    + constructor; fields; auto; [intros Hs; destruct (A Hs); auto|rewrite Ef; exact B|]. specialize (Ho RDone Er). cbn in Ho. destruct (g_recording d); lia.
  - apply (rec_inv _ i r); [constructor; fields; auto|exact Er|now rewrite Ep].
  - constructor; fields; auto; [intros Hs; destruct (A Hs); auto|]. specialize (Ho RClose Er). cbn in Ho. destruct (g_recording d); lia.
  - apply (rec_inv _ i r); [|destruct (g_wav_file d); exact Er|now rewrite Ep]. destruct (g_wav_file d) as [f|] eqn:Ef; [|exact H].
    constructor; fields; auto; [discriminate|]. intros g Hg. apply filter_In in Hg as [Hg _]. auto.
  - apply (rec_inv _ i r); [constructor; fields; auto|exact Er|now rewrite Ep].
Qed.

Lemma daemon_step_inv stod d e : Inv d -> Inv (step stod d e).
Proof.
  intros H. pose proof H as [A B C D]. unfold step. destruct (terminated d); [exact H|]. destruct e as [m|i ok|i|fd| |ev line|pcm ok].
  - now apply listener_inv.
  - now apply recorder_inv.
  - unfold live_step. destruct (nth_error _ i) as [[f|c|]|]; try exact H; [constructor; auto|].
    unfold sendCtrlCommand. destruct (_ <? 0); constructor; auto.
  - constructor; auto.
  - constructor; auto.
  - unfold ctrl_line. destruct ev as [| |ev]; [exact H|constructor; auto|]. destruct (String.eqb ev "scan_complete"); [constructor; fields; auto; discriminate|].
    destruct (String.eqb ev "configure_ack"); [exact H|]. destruct (negb _); [constructor; auto|exact H].
  - unfold outputThread. cbv zeta. destruct (g_wav_write_active d), (g_wav_file d) eqn:Ef;
      match goal with |- Inv (if ?b then _ else _) => destruct b end; constructor; fields; auto; rewrite ?Ef; auto.
Qed.

Lemma daemon_run_inv stod es d : Inv d -> Inv (run stod es d).
Proof. revert d. induction es as [|e es IH]; intros d H; [exact H|]. apply IH. now apply daemon_step_inv. Qed.

Lemma daemon_inv_init : Inv init.
Proof. constructor; fields; auto; discriminate || contradiction. Qed.

(** ** Scanning *)

Definition is_scan_complete (e : Event) : bool :=
  match e with CtrlLine (LineIs ev) _ => String.eqb ev "scan_complete" | _ => false end.

Lemma sent_flags d c : let d' := snd (sendCtrlCommand c d) in
  g_scanning d' = g_scanning d /\ g_recording d' = g_recording d /\ g_live_listen d' = g_live_listen d /\ recorders d' = recorders d.
Proof. unfold sendCtrlCommand. destruct (_ <? 0); auto. Qed.

(** While a scan runs, no command changes the flags or starts a thread. *)
Lemma listener_scanning stod m d : Inv d -> g_scanning d = true ->
  let d' := commandListener stod m d in
  g_scanning d' = true /\ recorders d' = recorders d /\ live_threads d' = live_threads d /\ sent d' = sent d.
Proof.
  intros [A _ _ _] Hs. destruct (A Hs) as [Hr Hl]. unfold commandListener. destruct m as [| |[cmd|] freq]; auto.
  destruct (match freq with FreqAbsent | FreqOther => _ | FreqNumber f => _ | FreqString s => _ end) as [f|]; [|auto].
  cbv zeta. cbn [set_freq g_scanning g_recording g_live_listen]. rewrite Hs, Hr, Hl. cbn [negb].
  rewrite !andb_false_r. cbn [andb]. auto.
Qed.

Lemma recorder_scanning i ok d : g_scanning (recorder_step i ok d) = g_scanning d.
Proof.
  unfold recorder_step. destruct (nth_error (recorders d) i) as [r|]; [|reflexivity].
  destruct (pc r); try reflexivity; [|destruct ok; reflexivity|destruct (g_wav_file d); reflexivity|destruct (g_wav_file d); reflexivity].
  unfold sendCtrlCommand. destruct (_ <? 0); reflexivity.
Qed.

Lemma step_scanning stod d e : Inv d -> g_scanning d = true -> is_scan_complete e = false -> g_scanning (step stod d e) = true.
Proof.
  intros H Hs He. unfold step. destruct (terminated d); [exact Hs|]. destruct e as [m|i ok|i|fd| |ev line|pcm ok]; auto.
  - now apply listener_scanning.
  - now rewrite recorder_scanning.
  - unfold live_step. destruct (nth_error _ i) as [[f|c|]|]; try exact Hs. unfold sendCtrlCommand. destruct (_ <? 0); exact Hs.
  - unfold ctrl_line. destruct ev as [| |ev]; try exact Hs. cbn in He. rewrite He.
    destruct (String.eqb ev "configure_ack"); [exact Hs|]. destruct (negb _); exact Hs.
  - unfold outputThread. cbv zeta. destruct (g_wav_write_active d), (g_wav_file d);
      match goal with |- context [if ?b && _ then _ else _] => destruct (b && ok) end; exact Hs.
Qed.

(** ** Theorems *)

(** C3: in every interleaving of the threads, a scan excludes recording and
    live listening; at most one recorder holds the recording flag, and exactly
    one does while it is set; and the file that the output thread would write
    to is open: no write after close. *)
Theorem daemon_modes stod es :
  let d := run stod es init in
  (g_scanning d = true -> g_recording d = false /\ g_live_listen d = false) /\
  owners (recorders d) = (if g_recording d then 1 else 0)%nat /\
  (forall f, g_wav_file d = Some f -> In f (open_files d)).
Proof. destruct (daemon_run_inv stod es init daemon_inv_init) as [A B C D]. auto. Qed.

(** A SCAN that arrives while there is no control connection is not sent
    to the relay, yet the daemon goes into scanning, and stays there whatever
    commands arrive and whatever the other threads do, until a relay that never
    got the command reports a finished scan: recording and live listening are
    refused all the time. *)
Theorem scan_without_relay stod es d : Inv d -> terminated d = false -> g_ctrl_fd d < 0 ->
  g_scanning d = false -> g_recording d = false -> g_live_listen d = false ->
  existsb is_scan_complete es = false ->
  let d1 := step stod d (Command (Parsed (Some "SCAN"%string) FreqAbsent)) in
  sent d1 = sent d /\
  g_scanning (run stod es d1) = true /\ g_recording (run stod es d1) = false /\ g_live_listen (run stod es d1) = false.
Proof.
  intros H Ht Hfd Hs Hr Hl He d1.
  assert (H1 : Inv d1) by now apply daemon_step_inv.
  assert (Hd1 : g_scanning d1 = true /\ sent d1 = sent d).
  { unfold d1, step. rewrite Ht. cbn [commandListener]. cbv zeta. cbn [set_freq g_scanning g_recording g_live_listen String.eqb Ascii.eqb Bool.eqb].
    rewrite Hs, Hr, Hl. cbn [negb andb]. unfold sendCtrlCommand. cbn [set_scanning set_flags g_ctrl_fd set_freq].
    destruct (Z.ltb_spec (g_ctrl_fd d) 0); [split; reflexivity|lia]. }
  destruct Hd1 as [Hs1 Hsent]. split; [exact Hsent|].
  assert (Hrun : Inv (run stod es d1) /\ g_scanning (run stod es d1) = true).
  { clear - H1 Hs1 He. revert H1 Hs1. generalize d1 as x. clear d1. induction es as [|e es IH]; intros x H1 Hs1; [auto|].
    cbn [existsb] in He. apply orb_false_iff in He as [He He']. unfold run. cbn [fold_left]. apply IH; auto.
    - now apply daemon_step_inv.
    - now apply step_scanning. }
  destruct Hrun as [[A _ _ _] E]. destruct (A E). auto.
Qed.

Lemma scan_without_relay_witness :
  let stod := fun _ => None in
  let d1 := step stod init (Command (Parsed (Some "SCAN"%string) FreqAbsent)) in
  let es := [CtrlUp 3; Command (Parsed (Some "RECORD"%string) FreqAbsent)] in
  sent d1 = sent init /\
  g_scanning (run stod es d1) = true /\ g_recording (run stod es d1) = false /\ g_live_listen (run stod es d1) = false.
Proof.
  apply (scan_without_relay (fun _ => None) [CtrlUp 3; Command (Parsed (Some "RECORD"%string) FreqAbsent)] init daemon_inv_init); reflexivity.
Defined.

(** A recorder gives the recording flag back before it closes the file, so
    a second recording can open its file in between; the first recorder then
    closes the file of the second, whose audio is not written although it runs
    to the end, and the first file is never closed. *)
Theorem record_overlap stod f1 f2 : exists es,
  let d := run stod es init in
  recorders d = [mkRec f1 RPublish; mkRec f2 RSleep] /\ g_recording d = true /\ g_wav_write_active d = true /\
  open_files d = [0%nat] /\ g_wav_file d = None /\
  forall pcm ok, written (step stod d (Output pcm ok)) = written d.
Proof.
  exists ([Command (Parsed (Some "RECORD"%string) (FreqNumber f1)); RecStep 0 true; RecStep 0 true; RecStep 0 true; RecStep 0 true;
    RecStep 0 true; Command (Parsed (Some "RECORD"%string) (FreqNumber f2)); RecStep 1 true; RecStep 1 true; RecStep 1 true; RecStep 0 true]).
  vm_compute. do 5 (split; [reflexivity|]). intros pcm ok. reflexivity.
Qed.

(** *** A recording that does not overlap *)

Lemma update_last l r p : update_rec (l ++ [r]) (List.length l) p = l ++ [mkRec (rec_freq r) p].
Proof. induction l as [|x l IH]; [reflexivity|]. cbn [app List.length update_rec]. now rewrite IH. Qed.

Lemma nth_last {A} (l : list A) r : nth_error (l ++ [r]) (List.length l) = Some r.
Proof. rewrite nth_error_app2, Nat.sub_diag; [reflexivity|lia]. Qed.

(** The part of the state that a recording uses; its recorder is the last. *)
Record Phase (l : list Recorder) (f : double) (p : RecPc) (file : option nat) (active recording : bool) (files : list nat)
  (next : nat) (pub : list Update) (wr : list (nat * list Z)) (d : Daemon) : Prop := {
  ph_run : terminated d = false;
  ph_rec : recorders d = l ++ [mkRec f p];
  ph_file : g_wav_file d = file;
  ph_active : g_wav_write_active d = active;
  ph_recording : g_recording d = recording;
  ph_files : open_files d = files;
  ph_next : next_file d = next;
  ph_pub : published d = pub;
  ph_written : written d = wr;
  ph_live : g_live_listen d = false }.

Ltac phase_step :=
  intros [P1 P2 P3 P4 P5 P6 P7 P8 P9 P10]; unfold step; rewrite P1; unfold recorder_step; rewrite P2, nth_last; cbn [pc rec_freq];
  rewrite ?P3, ?P7; try (unfold sendCtrlCommand; destruct (_ <? 0)); constructor; fields; rewrite ?P2, ?update_last, ?P6, ?P7, ?P8, ?P9; auto.

Section Phases.
Variables (stod : string -> option double) (l : list Recorder) (f : double).
Let rec_step (d : Daemon) : Daemon := step stod d (RecStep (List.length l) true).

Lemma phase_start file a r fs n pub wr d : Phase l f RStart file a r fs n pub wr d -> Phase l f ROpen file a r fs n pub wr (rec_step d).
Proof. unfold rec_step. phase_step. Qed.
Lemma phase_open file a r fs n pub wr d : Phase l f ROpen file a r fs n pub wr d ->
  Phase l f RCheck (Some n) true r (n :: fs) (S n) pub wr (rec_step d).
Proof. unfold rec_step. phase_step. Qed.
Lemma phase_check n a r fs k pub wr d : Phase l f RCheck (Some n) a r fs k pub wr d -> Phase l f RSleep (Some n) a r fs k pub wr (rec_step d).
Proof. unfold rec_step. phase_step. Qed.
Lemma phase_sleep file a r fs n pub wr d : Phase l f RSleep file a r fs n pub wr d -> Phase l f RClear file false r fs n pub wr (rec_step d).
Proof. unfold rec_step. phase_step. Qed.
Lemma phase_clear file a r fs n pub wr d : Phase l f RClear file a r fs n pub wr d -> Phase l f RClose file a false fs n pub wr (rec_step d).
Proof. unfold rec_step. phase_step. Qed.
Lemma phase_close n a r fs k pub wr d : Phase l f RClose (Some n) a r fs k pub wr d ->
  Phase l f RPublish None a r (filter (fun x => negb (Nat.eqb x n)) fs) k pub wr (rec_step d).
Proof. unfold rec_step. phase_step. Qed.
Lemma phase_publish file a r fs n pub wr d : Phase l f RPublish file a r fs n pub wr d ->
  Phase l f RDone file a r fs n (pub ++ [RecordComplete f wav_filename]) wr (rec_step d).
Proof. unfold rec_step. phase_step. Qed.

(** The output thread while the recording runs. *)
Lemma phase_output n r fs k pub wr pcms d : Phase l f RSleep (Some n) true r fs k pub wr d ->
  Phase l f RSleep (Some n) true r fs k pub (wr ++ map (fun p => (n, p)) pcms) (run stod (map (fun p => Output p true) pcms) d).
Proof.
  revert d wr. induction pcms as [|p pcms IH]; intros d wr H; [now rewrite app_nil_r|]. cbn [map]. unfold run. cbn [fold_left].
  replace (wr ++ (n, p) :: map (fun p => (n, p)) pcms) with ((wr ++ [(n, p)]) ++ map (fun p => (n, p)) pcms) by now rewrite <- app_assoc.
  apply IH. destruct H as [P1 P2 P3 P4 P5 P6 P7 P8 P9 P10]. unfold step. rewrite P1. unfold outputThread. rewrite P4, P3. cbv zeta.
  fields. rewrite P10. cbn [andb]. constructor; fields; congruence.
Qed.
End Phases.

(** A RECORD with no other activity, whose steps are not interleaved with
    another recording: every block that the output thread handles between the
    opening of the file and the end of the thirty seconds is written to that
    file, in order, and nothing else; at the end the file is closed, the flag is
    given back, and the completion is announced once. *)
Theorem record_complete_run stod f pcms d : Inv d -> terminated d = false ->
  g_scanning d = false -> g_recording d = false -> g_live_listen d = false ->
  let i := List.length (recorders d) in
  let d' := run stod ([Command (Parsed (Some "RECORD"%string) (FreqNumber f)); RecStep i true; RecStep i true; RecStep i true] ++
                      map (fun p => Output p true) pcms ++
                      [RecStep i true; RecStep i true; RecStep i true; RecStep i true]) d in
  written d' = written d ++ map (fun p => (next_file d, p)) pcms /\
  published d' = published d ++ [RecordComplete f wav_filename] /\
  g_recording d' = false /\ g_wav_file d' = None /\ g_wav_write_active d' = false /\
  ~ In (next_file d) (open_files d') /\ recorders d' = recorders d ++ [mkRec f RDone].
Proof.
  intros H Ht Hs Hr Hl i d'. unfold d', run. rewrite !fold_left_app. cbn [fold_left].
  set (d1 := step stod d _).
  assert (E1 : Phase (recorders d) f RStart (g_wav_file d) (g_wav_write_active d) true (open_files d) (next_file d) (published d) (written d) d1).
  { unfold d1, step. rewrite Ht. cbn [commandListener]. cbv zeta. cbn [set_freq g_scanning g_recording g_live_listen String.eqb Ascii.eqb Bool.eqb].
    rewrite Hs, Hr. cbn [negb andb]. constructor; fields; auto. }
  apply (phase_start stod) in E1. apply (phase_open stod) in E1. apply (phase_check stod) in E1.
  apply (phase_output stod _ _ _ _ _ _ _ _ pcms) in E1. apply (phase_sleep stod) in E1. apply (phase_clear stod) in E1.
  apply (phase_close stod) in E1. apply (phase_publish stod) in E1. unfold run in E1. fold i in E1.
  destruct E1 as [P1 P2 P3 P4 P5 P6 P7 P8 P9 P10]. rewrite P2, P3, P4, P5, P6, P8, P9.
  do 5 (split; [reflexivity|]). split; [|reflexivity]. rewrite filter_In, Nat.eqb_refl. intros [_ Hc]. discriminate.
Qed.

Lemma record_complete_run_witness :
  let d' := run (fun _ => None) ([Command (Parsed (Some "RECORD"%string) (FreqNumber (S754_zero false))); RecStep 0 true; RecStep 0 true; RecStep 0 true] ++
                      map (fun p => Output p true) [[1; 2]; [3]] ++
                      [RecStep 0 true; RecStep 0 true; RecStep 0 true; RecStep 0 true]) init in
  written d' = written init ++ map (fun p => (next_file init, p)) [[1; 2]; [3]] /\
  published d' = published init ++ [RecordComplete (S754_zero false) wav_filename] /\
  g_recording d' = false /\ g_wav_file d' = None /\ g_wav_write_active d' = false /\
  ~ In (next_file init) (open_files d') /\ recorders d' = recorders init ++ [mkRec (S754_zero false) RDone].
Proof. apply (record_complete_run (fun _ => None) (S754_zero false) [[1; 2]; [3]] init daemon_inv_init); reflexivity. Defined.
