(* ===== verification/RelayControl.v ===== *)
(** * RelayControl: the control channel

    Models [controlServerThread], [handleCommand], [setBandwidth],
    [TuneFrequency] and [sendCtrlResponse] of [src/sdr-relay], and the line
    loop of [ctrlReaderThread] in [src/sdr-daemon/src/main.cpp], which is the
    same code.

    The two ends exchange lines of JSON.  A parsed command is the values of its
    members; reading a member of the wrong type throws, which the server
    answers.  The hardware is the list of the calls made to it; [device] says
    whether the SDR API gives the parameters of the device. *)

From Stdlib Require Import ZArith List Lia Bool String SpecFloat.
Import ListNotations.
From S2P Require Import Prelude.
#[local] Open Scope Z_scope.

Abbreviation double := spec_float.
Abbreviation len := List.length.
Abbreviation concat := List.concat.

(** ** Lines *)

(** [line_buf.find('\n')], [substr] and [erase]: the first line and the rest. *)
Fixpoint take_line (line_buf : list Z) : option (list Z * list Z) :=
  match line_buf with
  | [] => None
  | c :: l =>
      if c =? 10 then Some ([], l)
      else match take_line l with Some (line, rest) => Some (c :: line, rest) | None => None end
  end.

(** The inner loop: the lines handled, and what stays in [line_buf]. *)
Fixpoint lines_loop (fuel : nat) (line_buf : list Z) : list (list Z) * list Z :=
  match fuel with
  | O => ([], line_buf)
  | S fuel' =>
      match take_line line_buf with
      | None => ([], line_buf)
      | Some (line, rest) =>
          let '(ls, rest) := lines_loop fuel' rest in
          (match line with [] => ls | _ => line :: ls end, rest)
      end
  end.
Definition recv_chunk (line_buf chunk : list Z) : list (list Z) * list Z :=
  let line_buf := line_buf ++ chunk in lines_loop (S (len line_buf)) line_buf.

(** A connection that delivers these chunks. *)
Fixpoint session (line_buf : list Z) (chunks : list (list Z)) : list (list Z) * list Z :=
  match chunks with
  | [] => ([], line_buf)
  | chunk :: chunks' =>
      let '(ls, line_buf) := recv_chunk line_buf chunk in
      let '(ls', line_buf) := session line_buf chunks' in
      (ls ++ ls', line_buf)
  end.

(** What the other end sends: [json_str + "\n"]. *)
Definition send_line (line : list Z) : list Z := line ++ [10].

(** ** Commands *)

Inductive Member (A : Type) := Missing | Value (a : A) | WrongType.
Arguments Missing {A}.
Arguments Value {A} a.
Arguments WrongType {A}.
Record CmdObject := mkCmd { command : Member string; freq : Member double; bw : Member string; agc : Member string; lna : Member Z }.

(** A line, parsed: no JSON, JSON that is not an object, or an object. *)
Inductive Json := NotJson | NotObject | Object (o : CmdObject).

Inductive Bw := BW_0_200 | BW_0_300 | BW_0_600 | BW_1_536.
Inductive HwCall :=
| UpdateBw (b : Bw)
| UpdateDecimation (factor : Z)
| UpdateAgcLna (lna : Z) (agc_disabled : bool)
| UpdateFreq (hz : double)
| StartScan.

(** The events sent back: the empty string, [configure_ack], and the two
    errors. *)
Inductive Response := NoResponse | ConfigureAck | BadJson | UnknownCommand (command : string).

Record Relay := mkRelay { g_scanning : bool; calls : list HwCall; ctrl_fd : Z; responses : list Response }.

(** Computations that change the relay and may throw. *)
Definition M (A : Type) : Type := Relay -> Relay * option A.
Definition ret {A} (a : A) : M A := fun s => (s, Some a).
Definition bind {A B} (m : M A) (k : A -> M B) : M B :=
  fun s => match m s with (s', Some a) => k a s' | (s', None) => (s', None) end.
Definition throw {A} : M A := fun s => (s, None).
Definition hw (c : HwCall) : M unit := fun s => (mkRelay (g_scanning s) (calls s ++ [c]) (ctrl_fd s) (responses s), Some tt).
Definition set_mode (scanning : bool) : M unit := fun s => (mkRelay scanning (calls s) (ctrl_fd s) (responses s), Some tt).

Declare Scope relay_scope.
Delimit Scope relay_scope with relay.
Notation "x <- m ;; k" := (bind m (fun x => k)) (at level 61, m at next level, right associativity) : relay_scope.
Notation "m ;;; k" := (bind m (fun _ => k)) (at level 61, right associativity) : relay_scope.
#[local] Open Scope relay_scope.

(** [cmd.value(key, default)] *)
Definition value {A} (m : Member A) (default : A) : M A :=
  match m with Missing => ret default | Value a => ret a | WrongType => throw end.

(** 1000000.0 and 88.1 *)
Definition million : double := S754_finite false 8589934592000000 (-33).
Definition f_88_1 : double := S754_finite false 6199486362052198 (-46).

Definition DECIMATION_FACTOR : Z := 4.

Section Commands.
Variable device : bool.

Definition TuneFrequency (hz : double) : M unit := if negb device then ret tt else hw (UpdateFreq hz).
Definition setBandwidth (b : Bw) : M unit :=
  if negb device then ret tt else hw (UpdateBw b) ;;; hw (UpdateDecimation DECIMATION_FACTOR).

Definition bwEnum (b : string) : Bw :=
  if String.eqb b "BW_1_536" then BW_1_536
  else if String.eqb b "BW_0_600" then BW_0_600
  else if String.eqb b "BW_0_300" then BW_0_300
  else BW_0_200.

Definition handleCommand (cmd : Json) : M Response :=
  match cmd with
  | NotJson | NotObject => throw
  | Object o =>
      c <- value (command o) ""%string ;;
      if String.eqb c "TUNE" then
        f <- value (freq o) f_88_1 ;;
        TuneFrequency (SFmul 53 1024 f million) ;;;
        ret NoResponse
      else if String.eqb c "CONFIGURE" then
        f <- value (freq o) f_88_1 ;;
        b <- value (bw o) "BW_0_200"%string ;;
        a <- value (agc o) "off"%string ;;
        n <- value (lna o) 4 ;;
        setBandwidth (bwEnum b) ;;;
        (if device then hw (UpdateAgcLna n (String.eqb a "off")) else ret tt) ;;;
        TuneFrequency (SFmul 53 1024 f million) ;;;
        ret ConfigureAck
      else if String.eqb c "SCAN" then
        set_mode true ;;;
        hw StartScan ;;;
        ret NoResponse
      else ret (UnknownCommand c)
  end.

Definition sendCtrlResponse (r : Response) (s : Relay) : Relay :=
  if ctrl_fd s =? -1 then s else mkRelay (g_scanning s) (calls s) (ctrl_fd s) (responses s ++ [r]).

(** One line in [controlServerThread]. *)
Definition handle_line (cmd : Json) (s : Relay) : Relay :=
  match handleCommand cmd s with
  | (s', Some NoResponse) => s'
  | (s', Some response) => sendCtrlResponse response s'
  | (s', None) => sendCtrlResponse BadJson s'
  end.

(** A connection: [parse] is the JSON parser. *)
Definition controlServer (parse : list Z -> Json) (client_fd : Z) (chunks : list (list Z)) (s : Relay) : Relay :=
  let s := mkRelay (g_scanning s) (calls s) client_fd (responses s) in
  let s := fold_left (fun s line => handle_line (parse line) s) (fst (session [] chunks)) s in
  mkRelay (g_scanning s) (calls s) (-1) (responses s).
End Commands.

(** ** Lines do not depend on the chunks *)

Lemma take_line_rest b line rest : take_line b = Some (line, rest) -> b = line ++ 10 :: rest /\ ~ In 10 line.
Proof.
  revert line. induction b as [|c b IH]; intros line E; cbn in E; [discriminate|].
  destruct (Z.eqb_spec c 10) as [->|Hc]; [injection E as <- <-; auto|].
  destruct (take_line b) as [[l r]|]; [|discriminate]. injection E as <- <-. destruct (IH l eq_refl) as [-> Hn].
  split; [reflexivity|]. cbn. intros [H|H]; [lia|auto].
Qed.

Lemma take_line_app b x : take_line (b ++ x) =
  match take_line b with
  | Some (line, rest) => Some (line, rest ++ x)
  | None => match take_line x with Some (line, rest) => Some (b ++ line, rest) | None => None end
  end.
Proof.
  induction b as [|c b IH]; cbn [app take_line]; [now destruct (take_line x) as [[l r]|]|].
  destruct (c =? 10); [reflexivity|]. rewrite IH. destruct (take_line b) as [[l r]|]; [reflexivity|].
  destruct (take_line x) as [[l r]|]; reflexivity.
Qed.

Lemma lines_fuel f1 f2 b : (len b < f1)%nat -> (len b < f2)%nat -> lines_loop f1 b = lines_loop f2 b.
Proof.
  revert f2 b. induction f1 as [|f1 IH]; intros [|f2] b H1 H2; try lia. cbn [lines_loop].
  destruct (take_line b) as [[l r]|] eqn:E; [|reflexivity]. apply take_line_rest in E as [-> _].
  rewrite length_app in *. cbn [List.length] in *. rewrite (IH f2 r) by lia. reflexivity.
Qed.

Definition all_lines (b : list Z) : list (list Z) * list Z := lines_loop (S (len b)) b.

Lemma all_lines_step b : all_lines b =
  match take_line b with
  | None => ([], b)
  | Some (line, rest) => let '(ls, r) := all_lines rest in (match line with [] => ls | _ => line :: ls end, r)
  end.
Proof.
  unfold all_lines. cbn [lines_loop]. destruct (take_line b) as [[l r]|] eqn:E; [|reflexivity].
  apply take_line_rest in E as [-> _]. rewrite (lines_fuel _ (S (len r)) r); [reflexivity| |lia]. rewrite length_app. cbn [List.length]. lia.
Qed.

Lemma all_lines_app b x : all_lines (b ++ x) =
  let '(l1, r1) := all_lines b in let '(l2, r2) := all_lines (r1 ++ x) in (l1 ++ l2, r2).
Proof.
  induction b as [b IH] using (induction_ltof1 _ (@List.length Z)); unfold ltof in IH.
  rewrite (all_lines_step (b ++ x)), (all_lines_step b), take_line_app. destruct (take_line b) as [[l r]|] eqn:E.
  - assert (Hlt : (len r < len b)%nat) by (apply take_line_rest in E as [-> _]; rewrite length_app; cbn [List.length]; lia).
    rewrite (IH r Hlt). destruct (all_lines r) as [l1 r1]. destruct (all_lines (r1 ++ x)) as [l2 r2]. destruct l; reflexivity.
  - rewrite (all_lines_step (b ++ x)), take_line_app, E. destruct (take_line x) as [[l r]|]; [|reflexivity].
    destruct (all_lines r); reflexivity.
Qed.

Lemma session_all line_buf chunks : take_line line_buf = None -> session line_buf chunks = all_lines (line_buf ++ concat chunks).
Proof.
  revert line_buf. induction chunks as [|c cs IH]; intros lb Hl; cbn [session concat].
  - rewrite app_nil_r, all_lines_step, Hl. reflexivity.
  - change (recv_chunk lb c) with (all_lines (lb ++ c)). rewrite app_assoc, (all_lines_app (lb ++ c)).
    destruct (all_lines (lb ++ c)) as [l1 r1] eqn:E1.
    assert (Hr : take_line r1 = None).
    { clear - E1. revert l1 E1. generalize (lb ++ c) as b. intros b.
      induction b as [b IH] using (induction_ltof1 _ (@List.length Z)); unfold ltof in IH. intros l1 E. rewrite all_lines_step in E.
      destruct (take_line b) as [[l r]|] eqn:Et; [|injection E as _ <-; exact Et].
      assert (Hlt : (len r < len b)%nat) by (apply take_line_rest in Et as [-> _]; rewrite length_app; cbn [List.length]; lia).
      destruct (all_lines r) as [l2 r2] eqn:E2. injection E as _ <-. exact (IH r Hlt l2 E2). }
    rewrite (IH r1 Hr). reflexivity.
Qed.

Lemma all_lines_sent lines : Forall (fun l => ~ In 10 l) lines ->
  all_lines (concat (map send_line lines)) = (filter (fun l => match l with [] => false | _ => true end) lines, []).
Proof.
  induction 1 as [|l lines Hl _ IH]; [reflexivity|]. cbn [map concat filter]. rewrite all_lines_step.
  assert (E : take_line (send_line l ++ concat (map send_line lines)) = Some (l, concat (map send_line lines))).
  { unfold send_line. rewrite <- app_assoc. cbn [app]. clear - Hl. induction l as [|c l IHl]; cbn [app take_line]; [reflexivity|].
    destruct (Z.eqb_spec c 10) as [->|]; [exfalso; apply Hl; now left|]. rewrite IHl; [reflexivity|]. intros H. apply Hl. now right. }
  rewrite E, IH. destruct l; reflexivity.
Qed.

(** ** Theorems *)

(** C36: the lines that either end handles depend on the bytes of the
    connection only, not on how they arrive: cutting the stream into any chunks
    gives the lines of the whole stream, and whatever non-empty lines without a
    newline the peer sent come out once each and in order. *)
Theorem ctrl_lines_chunking chunks :
  session [] chunks = all_lines (concat chunks) /\
  (forall lines, Forall (fun l => ~ In 10 l /\ l <> []) lines -> concat chunks = concat (map send_line lines) ->
     session [] chunks = (lines, [])).
Proof.
  split; [now apply session_all|]. intros lines Hl E. rewrite session_all, E by reflexivity. cbn [app]. rewrite all_lines_sent.
  - f_equal. clear E. induction Hl as [|l lines [_ Hne] _ IH]; [reflexivity|]. cbn [filter]. destruct l; [congruence|]. now rewrite IH.
  - eapply Forall_impl; [|exact Hl]. now intros l [H _].
Qed.

Lemma ctrl_lines_chunking_witness : session [] [[1; 2; 10; 3]; [4]; [10]] = ([[1; 2]; [3; 4]], []).
Proof.
  apply (proj2 (ctrl_lines_chunking [[1; 2; 10; 3]; [4]; [10]])); [|reflexivity].
  repeat constructor; try discriminate; cbn; lia.
Defined.

Lemma bind_calls {A B} (m : M A) (k : A -> M B) s s' : bind m k s = (s', None) ->
  m s = (s', None) \/ exists s1 a, m s = (s1, Some a) /\ k a s1 = (s', None).
Proof. unfold bind. destruct (m s) as [s1 [a|]]; [right; eauto|left; congruence]. Qed.

Lemma value_throw {A} (m : Member A) d s s' : value m d s = (s', None) -> s' = s.
Proof. destruct m; cbn; intros E; inversion E; reflexivity. Qed.
Lemma value_state {A} (m : Member A) d s s' a : value m d s = (s', Some a) -> s' = s.
Proof. destruct m; cbn; intros E; inversion E; reflexivity. Qed.

Lemma tune_total device hz s : exists s', TuneFrequency device hz s = (s', Some tt).
Proof. unfold TuneFrequency. destruct device; eexists; reflexivity. Qed.
Lemma bandwidth_total device b s : exists s', setBandwidth device b s = (s', Some tt).
Proof. unfold setBandwidth. destruct device; eexists; reflexivity. Qed.

(** A command is all or nothing: if a member has the wrong type, or the
    line is no JSON object, nothing is done to the device and the mode, and the
    client gets exactly one error message. *)
Theorem relay_command_atomic device cmd s s' : handleCommand device cmd s = (s', None) ->
  s' = s /\ handle_line device cmd s = sendCtrlResponse BadJson s.
Proof.
  intros H. assert (E : s' = s).
  { unfold handleCommand in H. destruct cmd as [| |o]; [injection H as H; now symmetry..|].
    apply bind_calls in H as [H|(s1 & c & Hc & H)]; [now apply value_throw in H|]. apply value_state in Hc as ->.
    destruct (String.eqb c "TUNE").
    { apply bind_calls in H as [H|(s1 & f & Hf & H)]; [now apply value_throw in H|]. apply value_state in Hf as ->.
      destruct (tune_total device (SFmul 53 1024 f million) s) as (s2 & E2). unfold bind in H. rewrite E2 in H. discriminate. }
    destruct (String.eqb c "CONFIGURE").
    { do 4 (apply bind_calls in H as [H|(s1 & ? & Hf & H)]; [now apply value_throw in H|]; apply value_state in Hf as ->).
      exfalso. destruct (bandwidth_total device (bwEnum x0) s) as (s2 & E2). unfold bind in H. rewrite E2 in H.
      destruct device; cbn in H; discriminate. }
    destruct (String.eqb c "SCAN"); cbn in H; discriminate. }
  split; [exact E|]. unfold handle_line. rewrite H, E. reflexivity.
Qed.

Lemma relay_command_atomic_witness :
  let s := mkRelay false [] 5 [] in
  let cmd := Object (mkCmd (Value "CONFIGURE"%string) Missing WrongType Missing Missing) in
  s = s /\ handle_line true cmd s = sendCtrlResponse BadJson s.
Proof.
  apply (relay_command_atomic true (Object (mkCmd (Value "CONFIGURE"%string) Missing WrongType Missing Missing)) (mkRelay false [] 5 [])).
  reflexivity.
Defined.
