(* ===== verification/SdrDriver.v ===== *)
(** * SdrDriver: the SDR hardware driver

    Models [SdrHandler] of [src/sdr-relay/sdr_handler.cpp] with the hardware
    part of [src/sdr-relay/main.cpp]: the calls of the SDRplay API from start to
    end, the parameters of the device and how they reach the hardware, the
    stream callback, and the measurement of power that the scanner uses.

    What the API answers is a parameter ([Api]); [update] is the API function
    that makes parameters effective, with [UpdateLaw] as its documentation.
    [log10] is the C library's. *)

From Stdlib Require Import String.
From Stdlib Require Import ZArith List Lia Bool SpecFloat.
Import ListNotations.
From S2P Require Import Prelude Floats RelayControl Demod.
#[local] Open Scope Z_scope.

(** ** Life of the driver *)

Record Device := mkDevice { hwVer : Z; SerNo : Z }.
Inductive ApiCall :=
| Open | Close | LockDeviceApi | UnlockDeviceApi | GetDevices
| SelectDevice (d : option Device) | GetDeviceParams | Init | Uninit | ReleaseDevice (d : option Device).

(** What the API answers. *)
Record Api := mkApi { open_ok : bool; devices : list Device; select_ok : bool; init_ok : bool }.

Record SdrHandler := mkHandler { chosenDevice : option Device; deviceParams : bool; isStreaming : bool; trace : list ApiCall }.
Definition call (c : ApiCall) (h : SdrHandler) : SdrHandler := mkHandler (chosenDevice h) (deviceParams h) (isStreaming h) (trace h ++ [c]).
Definition choose (d : option Device) (h : SdrHandler) : SdrHandler := mkHandler d (deviceParams h) (isStreaming h) (trace h).
Definition set_params (h : SdrHandler) : SdrHandler := mkHandler (chosenDevice h) true (isStreaming h) (trace h).
Definition set_streaming (b : bool) (h : SdrHandler) : SdrHandler := mkHandler (chosenDevice h) (deviceParams h) b (trace h).
Definition new_handler : SdrHandler := mkHandler None false false [].

Section Life.
(** [SDRPLAY_RSPdx_ID] *)
Variable RSPdx_ID : Z.

Definition is_rspdx (d : Device) : bool := (hwVer d =? RSPdx_ID) || (hwVer d =? 7).

Definition InitializeAPI (api : Api) (h : SdrHandler) : bool * SdrHandler :=
  let h := call Open h in
  if negb (open_ok api) then (false, h)
  else
    let h := call GetDevices (call LockDeviceApi h) in
    match devices api with
    | [] => (false, call Close (call UnlockDeviceApi h))
    | d0 :: _ =>
        let h := match find is_rspdx (devices api) with Some d => choose (Some d) h | None => choose (Some d0) h end in
        (true, call UnlockDeviceApi h)
    end.

Definition StartStream (api : Api) (h : SdrHandler) : bool * SdrHandler :=
  let h := call (SelectDevice (chosenDevice h)) h in
  if negb (select_ok api) then (false, h)
  else
    let h := set_params (call GetDeviceParams h) in
    let h := call Init h in
    if negb (init_ok api) then (false, h)
    else (true, set_streaming true (call GetDeviceParams h)).

Definition ShutdownSDR (h : SdrHandler) : SdrHandler :=
  let h := if isStreaming h then set_streaming false (call Uninit h) else h in
  call (ReleaseDevice (chosenDevice h)) h.

(** [main], whose handler is destroyed at the end; [controlServerThread] makes
    no calls of these. *)
Definition relay_main (api : Api) : Z * SdrHandler :=
  let '(ok, h) := InitializeAPI api new_handler in
  if negb ok then (1, ShutdownSDR h)
  else
    let '(ok, h) := StartStream api h in
    if negb ok then (1, ShutdownSDR h)
    else (0, ShutdownSDR (ShutdownSDR h)).

Definition is_lock (c : ApiCall) : bool := match c with LockDeviceApi => true | _ => false end.
Definition is_unlock (c : ApiCall) : bool := match c with UnlockDeviceApi => true | _ => false end.
Definition is_uninit (c : ApiCall) : bool := match c with Uninit => true | _ => false end.
Definition is_init (c : ApiCall) : bool := match c with Init => true | _ => false end.
Definition is_release (c : ApiCall) : bool := match c with ReleaseDevice _ => true | _ => false end.
Definition count (p : ApiCall -> bool) (t : list ApiCall) : nat := length (filter p t).

(** The device that should be used. *)
Definition preferred (ds : list Device) (d : Device) : Prop :=
  (exists pre post, ds = pre ++ d :: post /\ is_rspdx d = true /\ forallb (fun x => negb (is_rspdx x)) pre = true) \/
  (forallb (fun x => negb (is_rspdx x)) ds = true /\ exists post, ds = d :: post).

Lemma find_preferred ds d : find is_rspdx ds = Some d -> preferred ds d.
Proof.
  intros H. left. induction ds as [|x ds IH]; [discriminate|]. cbn [find] in H. destruct (is_rspdx x) eqn:E.
  - injection H as ->. exists [], ds. auto.
  - destruct (IH H) as (pre & post & -> & Hd & Hp). exists (x :: pre), post. cbn [forallb]. rewrite E. auto.
Qed.
Lemma find_none_preferred d ds : find is_rspdx (d :: ds) = None -> preferred (d :: ds) d.
Proof.
  intros H. right. split; [|now exists ds]. apply forallb_forall. intros x Hx. now rewrite (find_none _ _ H x Hx).
Qed.

(** The life of the driver, for every answer of the API.  The lock of the
    API is taken and given back equally often; a device is initialised only
    after it was selected, and uninitialised exactly when initialising it
    succeeded; the device selected is the first RSPdx of those found, or the
    first device when there is none.  The exit code is 0 exactly when the
    stream was started.  But the device is released twice in that case, once
    by [main] and once by the destructor. *)
Theorem driver_lifecycle api : let '(rc, h) := relay_main api in
  count is_lock (trace h) = count is_unlock (trace h) /\
  count is_uninit (trace h) = (if open_ok api && match devices api with [] => false | _ => true end && select_ok api && init_ok api then 1 else 0)%nat /\
  (rc = 0 <-> count is_uninit (trace h) = 1%nat) /\
  isStreaming h = false /\
  (forall d, In (SelectDevice d) (trace h) -> exists d', d = Some d' /\ preferred (devices api) d') /\
  (In Init (trace h) -> select_ok api = true /\ exists pre post d, trace h = pre ++ SelectDevice d :: post /\ In Init post) /\
  (rc = 0 -> count is_release (trace h) = 2%nat).
Proof.
  unfold relay_main, InitializeAPI, StartStream, ShutdownSDR, new_handler, call, choose, set_params, set_streaming.
  destruct api as [[] ds sel ini]; cbn [open_ok devices select_ok init_ok negb andb chosenDevice deviceParams isStreaming trace app].
  2:{ repeat split; try discriminate; cbn [In] in *; intros; repeat match goal with H : _ \/ _ |- _ => destruct H as [H|H] end; discriminate || contradiction. }
  destruct ds as [|d0 ds]; cbn [negb andb chosenDevice deviceParams isStreaming trace app].
  { repeat split; try discriminate; cbn [In] in *; intros; repeat match goal with H : _ \/ _ |- _ => destruct H as [H|H] end; discriminate || contradiction. }
  assert (Hp : exists d, preferred (d0 :: ds) d /\
    match find is_rspdx (d0 :: ds) with
    | Some d => mkHandler (Some d) false false [Open; LockDeviceApi; GetDevices]
    | None => mkHandler (Some d0) false false [Open; LockDeviceApi; GetDevices]
    end = mkHandler (Some d) false false [Open; LockDeviceApi; GetDevices]).
  { destruct (find is_rspdx (d0 :: ds)) as [d|] eqn:E; [exists d|exists d0]; (split; [|reflexivity]); [now apply find_preferred|now apply find_none_preferred]. }
  destruct Hp as (d & Hp & ->).
  destruct sel, ini; cbn [negb andb chosenDevice deviceParams isStreaming trace app]; repeat split; try discriminate; try reflexivity;
    try (intros x H; cbn [In] in H; repeat destruct H as [H|H]; try discriminate; try contradiction; injection H as <-; now eauto);
    try (exists [Open; LockDeviceApi; GetDevices; UnlockDeviceApi]; eexists; eexists; split; [reflexivity|]; cbn [In]; tauto);
    try (cbn [In] in *; repeat match goal with H : _ \/ _ |- _ => destruct H as [H|H] end; try discriminate; contradiction).
Qed.
End Life.

(** ** Parameters and the hardware *)

Inductive IfMode := IF_Zero | IF_Other.
Record Params := mkParams {
  fsHz : double; rfHz : double; bwType : Bw; ifType : IfMode; LNAstate : Z;
  agc_enable : bool; setPoint_dBfs : Z; DCenable : Z; IQenable : Z;
  dec_enable : Z; decimationFactor : Z; wideBandSignal : Z }.

(** The reasons for an update. *)
Inductive Reason := Update_Tuner_Frf | Update_Tuner_BwType | Update_Tuner_IfType | Update_Tuner_Gr | Update_Ctrl_Agc | Update_Ctrl_Decimation.
Definition Reason_eq_dec (a b : Reason) : {a = b} + {a <> b}.
Proof. decide equality. Defined.

(** The parameters that a reason stands for are the same. *)
Definition agree (r : Reason) (p q : Params) : Prop :=
  match r with
  | Update_Tuner_Frf => rfHz p = rfHz q
  | Update_Tuner_BwType => bwType p = bwType q
  | Update_Tuner_IfType => ifType p = ifType q
  | Update_Tuner_Gr => LNAstate p = LNAstate q
  | Update_Ctrl_Agc => agc_enable p = agc_enable q /\ setPoint_dBfs p = setPoint_dBfs q
  | Update_Ctrl_Decimation => dec_enable p = dec_enable q /\ decimationFactor p = decimationFactor q /\ wideBandSignal p = wideBandSignal q
  end.
(** The parameters that no update of this program changes. *)
Definition fixed (p q : Params) : Prop := fsHz p = fsHz q /\ DCenable p = DCenable q /\ IQenable p = IQenable q.

(** [sdrplay_api_Update], which returns an error code that the program ignores;
    the first argument says whether the call succeeds.  The hardware takes over
    exactly the parameters that the reasons name; when the call fails, each of
    them may also keep its value. *)
Class UpdateLaw (update : bool -> list Reason -> Params -> Params -> Params) : Prop := {
  update_named rs p active r : In r rs -> agree r p (update true rs p active);
  update_failed rs p active r : In r rs -> agree r p (update false rs p active) \/ agree r active (update false rs p active);
  update_other ok rs p active r : ~ In r rs -> agree r active (update ok rs p active);
  update_fixed ok rs p active : fixed active (update ok rs p active) }.

(** The parameter block that the API shares with the program, and what is
    effective in the hardware. *)
Record Hardware := mkHardware { params : Params; active : Params }.

(** One access: a member of the block is set, or an update is made. *)
Inductive Op := SetFreq (hz : double) | SetBw (b : Bw) | SetIf (m : IfMode) | SetLna (n : Z) | SetAgc (enabled : bool) | SetDecimation (factor : Z) | Update (rs : list Reason).

(** [LNAstate] is an [unsigned char]. *)
Definition set_param (op : Op) (p : Params) : Params :=
  match op with
  | SetFreq hz => mkParams (fsHz p) hz (bwType p) (ifType p) (LNAstate p) (agc_enable p) (setPoint_dBfs p) (DCenable p) (IQenable p) (dec_enable p) (decimationFactor p) (wideBandSignal p)
  | SetBw b => mkParams (fsHz p) (rfHz p) b (ifType p) (LNAstate p) (agc_enable p) (setPoint_dBfs p) (DCenable p) (IQenable p) (dec_enable p) (decimationFactor p) (wideBandSignal p)
  | SetIf m => mkParams (fsHz p) (rfHz p) (bwType p) m (LNAstate p) (agc_enable p) (setPoint_dBfs p) (DCenable p) (IQenable p) (dec_enable p) (decimationFactor p) (wideBandSignal p)
  | SetLna n => mkParams (fsHz p) (rfHz p) (bwType p) (ifType p) (u8 n) (agc_enable p) (setPoint_dBfs p) (DCenable p) (IQenable p) (dec_enable p) (decimationFactor p) (wideBandSignal p)
  | SetAgc e => mkParams (fsHz p) (rfHz p) (bwType p) (ifType p) (LNAstate p) e (setPoint_dBfs p) (DCenable p) (IQenable p) (dec_enable p) (decimationFactor p) (wideBandSignal p)
  | SetDecimation f => mkParams (fsHz p) (rfHz p) (bwType p) (ifType p) (LNAstate p) (agc_enable p) (setPoint_dBfs p) (DCenable p) (IQenable p) 1 f 0
  | Update _ => p
  end.

(** [TuneFrequency], [setBandwidth] and the gain settings of CONFIGURE and of
    the scanner, access by access. *)
Definition tune_ops (hz : double) : list Op := [SetFreq hz; Update [Update_Tuner_Frf]].
Definition bandwidth_ops (b : Bw) : list Op := [SetBw b; SetIf IF_Zero; Update [Update_Tuner_BwType; Update_Tuner_IfType]].
Definition decimation_ops (factor : Z) : list Op := [SetDecimation factor; Update [Update_Ctrl_Decimation]].
Definition gain_ops (lna : Z) (agc_disabled : bool) : list Op := [SetLna lna; SetAgc (negb agc_disabled); Update [Update_Ctrl_Agc; Update_Tuner_Gr]].
Definition call_ops (c : HwCall) : list Op :=
  match c with
  | UpdateBw b => bandwidth_ops b
  | UpdateDecimation f => decimation_ops f
  | UpdateAgcLna n off => gain_ops n off
  | UpdateFreq hz => tune_ops hz
  | StartScan => []
  end.

(** 87.9 *)
Definition f_87_9 : double := S754_finite false 6185412613216666 (-46).
(** The scanner's thread: each channel is tuned and measured; a measurement
    that times out makes the update again. *)
Definition measure_ops (hz : double) (timeout : bool) : list Op := tune_ops hz ++ if timeout then [Update [Update_Tuner_Frf]] else [].
Definition scan_ops (noise_timeout : bool) (channels : list (double * bool)) : list Op :=
  bandwidth_ops BW_0_200 ++ decimation_ops DECIMATION_FACTOR ++ gain_ops 8 true ++ measure_ops (dmul f_87_9 million) noise_timeout ++
  flat_map (fun c => measure_ops (dmul (fst c) million) (snd c)) channels.

(** [StartStream]: what is written before [sdrplay_api_Init], which makes the
    whole block effective. *)
Definition d_2e6 : double := double_of_int 2000000.
Definition start_params (initialFreq : double) : Params := mkParams d_2e6 initialFreq BW_0_600 IF_Zero 4 true (-30) 1 1 1 4 0.
Definition started (initialFreq : double) : Hardware := mkHardware (start_params initialFreq) (start_params initialFreq).

(** Threads interleave between accesses. *)
Inductive interleave {A} : list (list A) -> list A -> Prop :=
| interleave_done ps : Forall (eq []) ps -> interleave ps []
| interleave_step ps1 x p ps2 m : interleave (ps1 ++ p :: ps2) m -> interleave (ps1 ++ (x :: p) :: ps2) (x :: m).

(** The rate of the samples that the hardware delivers. *)
Definition output_rate (p : Params) : double := if dec_enable p =? 1 then ddiv (fsHz p) (double_of_int (decimationFactor p)) else fsHz p.

Section Hardware.
Variable update : bool -> list Reason -> Params -> Params -> Params.

(** An access, with the result of the call when it is an update. *)
Definition exec (h : Hardware) (x : Op * bool) : Hardware :=
  match x with
  | (Update rs, ok) => mkHardware (params h) (update ok rs (params h) (active h))
  | (op, _) => mkHardware (set_param op (params h)) (active h)
  end.
Definition exec_all (run : list (Op * bool)) (h : Hardware) : Hardware := fold_left exec run h.

Context {Law : UpdateLaw update}.

(** Which parameters an access changes; an access that writes is followed by
    an update that names them. *)
Definition writes (r : Reason) (op : Op) : bool :=
  match op, r with
  | SetFreq _, Update_Tuner_Frf | SetBw _, Update_Tuner_BwType | SetIf _, Update_Tuner_IfType | SetLna _, Update_Tuner_Gr
  | SetAgc _, Update_Ctrl_Agc | SetDecimation _, Update_Ctrl_Decimation => true
  | _, _ => false
  end.
Definition updates (r : Reason) (op : Op) : Prop := match op with Update rs => In r rs | _ => False end.
Definition clean (r : Reason) (ops : list Op) : Prop :=
  forall pre w post, ops = pre ++ w :: post -> writes r w = true -> Exists (updates r) post.

(** Every failed update is followed by one that succeeds. *)
Definition succeeded (r : Reason) (x : Op * bool) : Prop := updates r (fst x) /\ snd x = true.
Definition failed (r : Reason) (x : Op * bool) : Prop := updates r (fst x) /\ snd x = false.
Definition made_good (r : Reason) (run : list (Op * bool)) : Prop :=
  forall pre x post, run = pre ++ x :: post -> failed r x -> Exists (succeeded r) post.

Lemma agree_refl r p : agree r p p.
Proof. destruct r; cbn; auto. Qed.
Lemma agree_trans r p q s : agree r p q -> agree r q s -> agree r p s.
Proof. destruct r; cbn; intuition congruence. Qed.
Lemma set_param_agree r op p : writes r op = false -> agree r p (set_param op p).
Proof. destruct op, r; cbn; try discriminate; auto. Qed.
Lemma agree_sym r p q : agree r p q -> agree r q p.
Proof. destruct r; cbn; intuition congruence. Qed.

Lemma clean_tail r op ops : clean r (op :: ops) -> clean r ops.
Proof. intros H pre w post ->. apply (H (op :: pre) w post). reflexivity. Qed.

Lemma made_good_tail r x run : made_good r (x :: run) -> made_good r run.
Proof. intros H pre y post ->. apply (H (x :: pre) y post). reflexivity. Qed.

Lemma made_good_success r run : made_good r run -> Exists (updates r) (map fst run) -> Exists (succeeded r) run.
Proof.
  induction run as [|x run IH]; intros HG H; [inversion H|]. cbn [map] in H. inversion H as [? ? Hx|? ? Hx]; subst.
  - destruct (snd x) eqn:E; [left; now split|right]. now apply (HG [] x run).
  - right. apply IH; [now apply made_good_tail in HG|exact Hx].
Qed.

(** After the last update, the hardware has what was written. *)
Lemma exec_agree r run : forall h, clean r (map fst run) -> made_good r run -> agree r (params h) (active h) \/ Exists (succeeded r) run ->
  agree r (params (exec_all run h)) (active (exec_all run h)).
Proof.
  induction run as [|x run IH]; intros h Hc Hg H.
  - destruct H as [H|H]; [exact H|inversion H].
  - cbn [exec_all fold_left]. cbn [map] in Hc. pose proof (made_good_tail _ _ _ Hg) as Hg'. apply IH; [now apply clean_tail in Hc|exact Hg'|].
    destruct x as [op ok]. cbn [fst] in Hc.
    destruct (writes r op) eqn:Ew; [right; apply made_good_success; [exact Hg'|now apply (Hc [] op (map fst run))]|].
    assert (Hcase : (exists rs, op = Update rs) \/ exec h (op, ok) = mkHardware (set_param op (params h)) (active h) /\ ~ updates r op)
      by (destruct op; [right; split; [reflexivity|exact (fun H => H)]..|left; eauto]).
    destruct Hcase as [(rs & ->)|[-> Hu]]; cbn [exec params active].
    + destruct (in_dec Reason_eq_dec r rs) as [Hr|Hr].
      { destruct ok; [left; now apply update_named|right]. now apply (Hg [] (Update rs, false) run). }
      destruct H as [H|H]; [left; eapply agree_trans; [exact H|now apply update_other]|right]. inversion H as [? ? [H0 _]|]; [now elim Hr|assumption].
    + destruct H as [H|H]; [left; eapply agree_trans; [apply agree_sym, set_param_agree, Ew|exact H]|right].
      inversion H as [? ? [H0 _]|]; [now elim Hu|assumption].
Qed.

Lemma interleave_in {A} ps m (x : A) p : interleave ps m -> In p ps -> In x p -> In x m.
Proof.
  intros H. revert p. induction H as [ps Hn|ps1 y q ps2 m _ IH]; intros p Hp Hx.
  - rewrite Forall_forall in Hn. specialize (Hn p Hp). subst p. contradiction.
  - apply in_app_or in Hp as [Hp|[<-|Hp]].
    + right. apply (IH p); [apply in_or_app; now left|exact Hx].
    + destruct Hx as [->|Hx]; [now left|right]. apply (IH q); [apply in_or_app; right; now left|exact Hx].
    + right. apply (IH p); [apply in_or_app; right; now right|exact Hx].
Qed.

Lemma interleave_clean r ps m : interleave ps m -> Forall (clean r) ps -> clean r m.
Proof.
  induction 1 as [ps Hn|ps1 x p ps2 m Hi IH]; intros Hc; [intros [|? pre] w post; discriminate|].
  apply Forall_app in Hc as [Hc1 Hc2]. inversion Hc2 as [|? ? Hxp Hc3]; subst.
  assert (Hm : clean r m) by (apply IH, Forall_app; split; [exact Hc1|constructor; [now apply clean_tail in Hxp|exact Hc3]]).
  intros [|y pre] w post E Hw; injection E as -> E; [|now apply (Hm pre w post)]. subst post.
  specialize (Hxp [] w p eq_refl Hw). apply Exists_exists in Hxp as (u & Hu & Hr). apply Exists_exists. exists u. split; [|exact Hr].
  apply (interleave_in _ _ u p Hi); [apply in_or_app; right; now left|exact Hu].
Qed.

Lemma clean_app r a b : clean r a -> clean r b -> clean r (a ++ b).
Proof.
  intros Ha Hb. induction a as [|x a IH]; [exact Hb|]. cbn [app]. intros [|y pre] w post E Hw; injection E as -> E.
  - subst post. apply Exists_app. left. now apply (Ha [] w a).
  - apply (IH (clean_tail _ _ _ Ha) pre w post E Hw).
Qed.
Lemma clean_nil r : clean r [].
Proof. intros [|? pre] w post E; discriminate E. Qed.
Lemma clean_flat_map {A} r (f : A -> list Op) l : (forall a, clean r (f a)) -> clean r (flat_map f l).
Proof. intros H. induction l as [|a l IH]; cbn [flat_map]; [apply clean_nil|]. now apply clean_app. Qed.

Ltac clean_ops r := intros [|? [|? [|? [|? ?]]]] w post E Hw; inversion E; subst; destruct r; cbn in Hw; try discriminate Hw;
  repeat (try (apply Exists_cons_hd; cbn; tauto); apply Exists_cons_tl).
Lemma tune_clean r hz : clean r (tune_ops hz).
Proof. clean_ops r. Qed.
Lemma bandwidth_clean r b : clean r (bandwidth_ops b).
Proof. clean_ops r. Qed.
Lemma decimation_clean r f : clean r (decimation_ops f).
Proof. clean_ops r. Qed.
Lemma gain_clean r n off : clean r (gain_ops n off).
Proof. clean_ops r. Qed.
Lemma measure_clean r hz t : clean r (measure_ops hz t).
Proof. apply clean_app; [apply tune_clean|]. destruct t; [|apply clean_nil]. intros [|? [|? ?]] w post E Hw; inversion E; subst. discriminate Hw. Qed.
Lemma call_clean r c : clean r (call_ops c).
Proof. destruct c; [apply bandwidth_clean|apply decimation_clean|apply gain_clean|apply tune_clean|apply clean_nil]. Qed.
Lemma scan_clean r t channels : clean r (scan_ops t channels).
Proof.
  unfold scan_ops. apply clean_app; [apply bandwidth_clean|]. apply clean_app; [apply decimation_clean|].
  apply clean_app; [apply gain_clean|]. apply clean_app; [apply measure_clean|]. apply clean_flat_map. intros c. apply measure_clean.
Qed.

(** The decimation is never set to another factor. *)
Definition keeps_rate (op : Op) : Prop := match op with SetDecimation f => f = 4 | _ => True end.
Definition rate_ok (p : Params) : Prop := fsHz p = d_2e6 /\ dec_enable p = 1 /\ decimationFactor p = 4.

Lemma exec_rate run : forall h, Forall keeps_rate (map fst run) -> rate_ok (params h) /\ rate_ok (active h) ->
  rate_ok (params (exec_all run h)) /\ rate_ok (active (exec_all run h)).
Proof.
  induction run as [|[op ok] run IH]; intros h Hk H; [exact H|]. cbn [map fst] in Hk. inversion Hk as [|? ? Hop Hops]; subst. cbn [exec_all fold_left]. apply IH; [exact Hops|].
  destruct H as [Hp Ha]. assert (Hs : rate_ok (set_param op (params h))) by (destruct Hp as (? & ? & ?), op; repeat split; auto).
  destruct op as [| | | | | |rs]; try (split; [exact Hs|exact Ha]). split; [exact Hp|]. cbn [exec active].
  destruct Hp as (P1 & P2 & P3), Ha as (A1 & A2 & A3). destruct (update_fixed ok rs (params h) (active h)) as [F _].
  assert (H : agree Update_Ctrl_Decimation (params h) (update ok rs (params h) (active h)) \/ agree Update_Ctrl_Decimation (active h) (update ok rs (params h) (active h))).
  { destruct (in_dec Reason_eq_dec Update_Ctrl_Decimation rs) as [Hr|Hr]; [|right; now apply update_other].
    destruct ok; [left; now apply update_named|now apply update_failed]. }
  destruct H as [(H1 & H2 & _)|(H1 & H2 & _)]; repeat split; congruence.
Qed.

Lemma interleave_Forall {A} (P : A -> Prop) ps m : interleave ps m -> Forall (Forall P) ps -> Forall P m.
Proof.
  induction 1 as [ps _|ps1 x p ps2 m _ IH]; intros H; [constructor|]. apply Forall_app in H as [H1 H2]. inversion H2 as [|? ? Hx H3]; subst.
  inversion Hx; subst. constructor; [assumption|]. apply IH, Forall_app. split; [exact H1|now constructor].
Qed.

(** The calls that commands make on the hardware set the decimation to 4. *)
Definition call_rate (c : HwCall) : Prop := match c with UpdateDecimation f => f = 4 | _ => True end.
Definition rated (s : Relay) : Prop := Forall call_rate (calls s).

Lemma hw_rated c s : call_rate c -> rated s -> rated (fst (hw c s)).
Proof. intros Hc Hs. unfold rated, hw. cbn [fst calls]. apply Forall_app. split; [exact Hs|now constructor]. Qed.
Lemma bind_rated {A B} (m : M A) (k : A -> M B) s : rated (fst (m s)) -> (forall a s', rated s' -> rated (fst (k a s'))) -> rated (fst (bind m k s)).
Proof. unfold bind. destruct (m s) as [s' [a|]]; cbn [fst]; auto. Qed.
Lemma value_rated {A} (x : Member A) d s : rated s -> rated (fst (value x d s)).
Proof. destruct x; auto. Qed.
Lemma tune_rated dev hz s : rated s -> rated (fst (TuneFrequency dev hz s)).
Proof. unfold TuneFrequency. destruct dev; [now apply hw_rated|auto]. Qed.
Lemma bandwidth_rated dev b s : rated s -> rated (fst (setBandwidth dev b s)).
Proof.
  unfold setBandwidth. destruct dev; cbn [negb]; [|auto]. intros H. apply bind_rated; [now apply hw_rated|]. intros _ s' H'. now apply hw_rated.
Qed.

Lemma command_rated dev cmd s : rated s -> rated (fst (handleCommand dev cmd s)).
Proof.
  intros H. unfold handleCommand. destruct cmd as [| |o]; [exact H|exact H|]. apply bind_rated; [now apply value_rated|]. intros c s1 H1.
  destruct (String.eqb c "TUNE").
  { apply bind_rated; [now apply value_rated|]. intros f s2 H2. apply bind_rated; [now apply tune_rated|]. auto. }
  destruct (String.eqb c "CONFIGURE").
  { do 4 (apply bind_rated; [now apply value_rated|]; intros ? ? ?). apply bind_rated; [now apply bandwidth_rated|]. intros _ s6 H6.
    apply bind_rated; [destruct dev; [now apply hw_rated|exact H6]|]. intros _ s7 H7. apply bind_rated; [now apply tune_rated|auto]. }
  destruct (String.eqb c "SCAN"); [|exact H1]. apply bind_rated; [exact H1|]. intros _ s2 H2. apply bind_rated; [now apply hw_rated|auto].
Qed.

Lemma line_rated dev cmd s : rated s -> rated (handle_line dev cmd s).
Proof.
  intros H. pose proof (command_rated dev cmd s H) as H'. unfold handle_line, sendCtrlResponse. destruct (handleCommand dev cmd s) as [s' [[| | |c]|]]; cbn [fst] in H'; try exact H';
    destruct (ctrl_fd s' =? -1); exact H'.
Qed.

Lemma ops_rate c : call_rate c -> Forall keeps_rate (call_ops c).
Proof. destruct c; cbn; intros H; repeat constructor; exact H. Qed.
Lemma measure_rate hz t : Forall keeps_rate (measure_ops hz t).
Proof. destruct t; repeat constructor. Qed.
Lemma scan_rate t channels : Forall keeps_rate (scan_ops t channels).
Proof.
  unfold scan_ops. do 3 (apply Forall_app; split; [repeat constructor|]). apply Forall_app; split; [apply measure_rate|].
  induction channels as [|c l IH]; cbn [flat_map]; [constructor|]. apply Forall_app. split; [apply measure_rate|exact IH].
Qed.

(** C9: the hardware follows the commands, as far as the updates succeed.  After
    the stream was started at any frequency, whatever lines arrive on the control
    connection, however the accesses of the control thread interleave with those
    of any number of scanner threads and whichever updates fail: when all have
    ended, every parameter written is effective in the hardware, if each failed
    update of it was followed by one that succeeded; and whatever failed, the
    hardware delivers samples at the rate of 500 kHz that the demodulator
    assumes. *)
Theorem hardware_in_sync initialFreq lines fd scans run :
  let cs := calls (fold_left (fun s cmd => handle_line true cmd s) lines (mkRelay false [] fd [])) in
  interleave (flat_map call_ops cs :: map (fun sc => scan_ops (fst sc) (snd sc)) scans) (map fst run) ->
  let h := exec_all run (started initialFreq) in
  (forall r, made_good r run -> agree r (params h) (active h)) /\ output_rate (active h) = IQ_RATE.
Proof.
  cbv zeta. set (cs := calls _). intros Hi.
  assert (Hcs : Forall call_rate cs).
  { unfold cs. assert (H : forall l s, rated s -> rated (fold_left (fun s cmd => handle_line true cmd s) l s)) by (induction l as [|c l IH]; intros s H; [exact H|apply IH, line_rated, H]).
    apply H. constructor. }
  split.
  - intros r Hg. apply exec_agree; [|exact Hg|left; apply agree_refl]. apply (interleave_clean r _ _ Hi). constructor; [apply clean_flat_map; intros c; apply call_clean|].
    apply Forall_map, Forall_forall. intros sc _. apply scan_clean.
  - destruct (exec_rate run (started initialFreq)) as [_ (H1 & H2 & H3)].
    + apply (interleave_Forall keeps_rate _ _ Hi). constructor.
      * clear Hi. induction Hcs as [|c cs Hc _ IH]; cbn [flat_map]; [constructor|]. apply Forall_app. split; [now apply ops_rate|exact IH].
      * apply Forall_map, Forall_forall. intros sc _. apply scan_rate.
    + repeat split.
    + unfold output_rate. rewrite H1, H2, H3. vm_compute. reflexivity.
Qed.
End Hardware.

(** An update that does what its law says; one that fails changes nothing. *)
Definition named (r : Reason) (rs : list Reason) : bool := if in_dec Reason_eq_dec r rs then true else false.
Definition demo_update (ok : bool) (rs : list Reason) (p a : Params) : Params :=
  if ok then
    mkParams (fsHz a) (if named Update_Tuner_Frf rs then rfHz p else rfHz a) (if named Update_Tuner_BwType rs then bwType p else bwType a)
      (if named Update_Tuner_IfType rs then ifType p else ifType a) (if named Update_Tuner_Gr rs then LNAstate p else LNAstate a)
      (if named Update_Ctrl_Agc rs then agc_enable p else agc_enable a) (if named Update_Ctrl_Agc rs then setPoint_dBfs p else setPoint_dBfs a)
      (DCenable a) (IQenable a) (if named Update_Ctrl_Decimation rs then dec_enable p else dec_enable a)
      (if named Update_Ctrl_Decimation rs then decimationFactor p else decimationFactor a)
      (if named Update_Ctrl_Decimation rs then wideBandSignal p else wideBandSignal a)
  else a.
#[export] Instance demo_update_law : UpdateLaw demo_update.
Proof.
  split.
  - intros rs p a r H. assert (E : named r rs = true) by (unfold named; destruct (in_dec Reason_eq_dec r rs); tauto). destruct r; cbn [agree demo_update rfHz bwType ifType LNAstate agc_enable setPoint_dBfs dec_enable decimationFactor wideBandSignal]; rewrite E; auto.
  - intros rs p a r _. right. apply agree_refl.
  - intros ok rs p a r H. destruct ok; [|apply agree_refl]. assert (E : named r rs = false) by (unfold named; destruct (in_dec Reason_eq_dec r rs); tauto). destruct r; cbn [agree demo_update rfHz bwType ifType LNAstate agc_enable setPoint_dBfs dec_enable decimationFactor wideBandSignal]; rewrite E; auto.
  - intros ok rs p a. destruct ok; repeat split.
Qed.

(** A tuning command whose update fails, and the scanner's update, made again
    after its measurement timed out. *)
Definition demo_run : list (Op * bool) :=
  [(SetFreq (dmul f_88_1 million), true); (Update [Update_Tuner_Frf], false); (SetFreq (dmul f_88_1 million), true); (Update [Update_Tuner_Frf], true)].

Lemma hardware_in_sync_witness :
  let h := exec_all demo_update demo_run (started f_87_9) in
  rfHz (active h) = dmul f_88_1 million /\ output_rate (active h) = IQ_RATE.
Proof.
  destruct (hardware_in_sync demo_update f_87_9
    [Object (mkCmd (Value "TUNE"%string) (Value f_88_1) Missing Missing Missing); Object (mkCmd (Value "TUNE"%string) (Value f_88_1) Missing Missing Missing)] 5 []
    demo_run) as [H1 H2].
  - do 4 apply (interleave_step []). constructor. repeat constructor.
  - split; [symmetry; apply (H1 Update_Tuner_Frf)|exact H2]. intros [|? [|? [|? [|? ?]]]] x post E [Hu Hf]; inversion E; subst; cbn in Hu, Hf; try contradiction; try discriminate.
    + right. left. split; [now left|reflexivity].
    + destruct l; discriminate.
Defined.

(** The error of a failed update is ignored: the relay goes on as if it were
    tuned, and the hardware stays at its frequency. *)
Lemma update_error_ignored :
  let h := exec_all demo_update [(SetFreq (dmul f_88_1 million), true); (Update [Update_Tuner_Frf], false)] (started f_87_9) in
  rfHz (params h) = dmul f_88_1 million /\ rfHz (active h) = f_87_9.
Proof. split; reflexivity. Qed.

(** ** The stream callback *)

Record Stream := mkStream { stream_gap : bool; cb_first_call : bool; cb_sample_count : Z; fast_power : float }.

Definition f_10 : float := float_of_int 10.
Definition f_1em10 : float := S754_finite false 14411519 (-57).
Definition f_m100 : float := float_of_int (-100).

(** [t_iq_buffer]: the two arrays, one sample of each in turn. *)
Fixpoint iq_buffer (xi xq : list Z) : list Z :=
  match xi, xq with
  | i :: xi', q :: xq' => i :: q :: iq_buffer xi' xq'
  | _, _ => []
  end.

Section Callback.
Variable log10 : float -> float.

Definition sum_mag_sq (xi xq : list Z) : float :=
  fold_left (fun sum iq => let i_val := float_of_int (fst iq) in let q_val := float_of_int (snd iq) in
    fadd sum (fadd (fmul i_val i_val) (fmul q_val q_val))) (combine xi xq) f_0.
Definition dbFS (xi xq : list Z) : float :=
  fmul f_10 (log10 (fadd (fdiv (fdiv (sum_mag_sq xi xq) (float_of_int (Z.of_nat (length xi)))) (fmul f_32767 f_32767)) f_1em10)).

(** [t_iq_buffer.resize(numSamples * 2)] in [unsigned int] and the loop that
    fills it; [None] when the loop writes past the end, because the product has
    wrapped around. *)
Definition fill_buffer (xi xq : list Z) : option (list Z) :=
  let numSamples := Z.of_nat (length xi) in
  if 2 * numSamples <=? u32 (numSamples * 2) then Some (iq_buffer xi xq) else None.

(** The buffer given to [broadcastAudio], if any, and the state; [None] where the
    behaviour is undefined: the sum of counts does not fit in an [int], or the
    buffer is too small. *)
Definition StreamACallback (streaming : bool) (xi xq : list Z) (reset : bool) (s : Stream) : option (option (list Z) * Stream) :=
  if negb streaming then Some (None, s)
  else
    let numSamples := Z.of_nat (length xi) in
    let gap := if reset then true else stream_gap s in
    let prev := if cb_first_call s then 0 else cb_sample_count s in
    let total := prev + i32 numSamples in
    if negb (total =? i32 total) then None
    else
      let sample_count := if 250000 <=? total then 0 else total in
      match fill_buffer xi xq with
      | Some buf => Some (Some buf, mkStream gap false sample_count (dbFS xi xq))
      | None => None
      end.
End Callback.

(** The pairs of a buffer, as the demodulator reads them. *)
Fixpoint iq_pairs (l : list Z) : list (Z * Z) :=
  match l with
  | i :: q :: l' => (i, q) :: iq_pairs l'
  | _ => []
  end.

(** A callback that hands a buffer on has fewer than 2^31 samples. *)
Lemma callback_buffer log10 x y reset st buf st' : Z.of_nat (length x) < 2 ^ 32 ->
  StreamACallback log10 true x y reset st = Some (Some buf, st') -> buf = iq_buffer x y /\ Z.of_nat (length x) < 2 ^ 31.
Proof.
  intros HL. unfold StreamACallback. cbn [negb]. cbv zeta. destruct (negb _); [discriminate|]. unfold fill_buffer.
  destruct (Z.leb_spec (2 * Z.of_nat (length x)) (u32 (Z.of_nat (length x) * 2))) as [H|H]; [|discriminate]. intros [= <- _].
  split; [reflexivity|]. unfold u32 in H. change (2 ^ 32) with 4294967296 in *. change (2 ^ 31) with 2147483648. Z.div_mod_to_equations. lia.
Qed.

Lemma iq_buffer_pairs xi : forall xq, iq_pairs (iq_buffer xi xq) = combine xi xq.
Proof. induction xi as [|i xi IH]; intros [|q xq]; cbn [iq_buffer iq_pairs combine]; [reflexivity..|]. now rewrite IH. Qed.
Lemma iq_buffer_length xi : forall xq, length xi = length xq -> length (iq_buffer xi xq) = (2 * length xi)%nat.
Proof. induction xi as [|i xi IH]; intros [|q xq]; cbn [iq_buffer length]; intros H; try discriminate; [reflexivity|]. rewrite IH by congruence. lia. Qed.
Lemma iq_buffer_firstn k : forall xi xq, firstn (2 * k) (iq_buffer xi xq) = iq_buffer (firstn k xi) (firstn k xq).
Proof.
  induction k as [|k IH]; intros xi xq; [reflexivity|]. replace (2 * S k)%nat with (S (S (2 * k))) by lia.
  destruct xi as [|i xi]; [reflexivity|]. destruct xq as [|q xq]; [reflexivity|]. cbn [iq_buffer firstn]. now rewrite IH.
Qed.
Lemma iq_pairs_app n : forall a b, length a = (2 * n)%nat -> iq_pairs (a ++ b) = iq_pairs a ++ iq_pairs b.
Proof.
  induction n as [|n IH]; intros a b Ha; [destruct a; [reflexivity|discriminate]|].
  destruct a as [|x [|y a]]; cbn [length] in Ha; [lia|lia|]. cbn [app iq_pairs]. rewrite IH by lia. reflexivity.
Qed.

(** ** Validated power *)

(** What the callback thread does between the steps of the scanner: the level
    is stored, then the heartbeat is counted in [broadcastAudio]. *)
Inductive CbEvent := Store (p : float) | Beat.
Record Meter := mkMeter { power : float; heartbeat : Z }.
Definition cb_step (m : Meter) (e : CbEvent) : Meter :=
  match e with Store p => mkMeter p (heartbeat m) | Beat => mkMeter (power m) (i64 (heartbeat m + 1)) end.
Definition cb_run (es : list CbEvent) (m : Meter) : Meter := fold_left cb_step es m.

(** [getValidatedPower]: [clearing], [waiting] and [reading] are what happens
    after the level is cleared, during the wait, and before the level is
    read; the wait ends without success when the time is up. *)
Definition getValidatedPower (clearing waiting reading : list CbEvent) (m : Meter) : float * Meter :=
  let m := mkMeter f_m100 (heartbeat m) in
  let m := cb_run clearing m in
  let start_count := heartbeat m in
  let m := cb_run waiting m in
  let success := 4 <=? i64 (heartbeat m - start_count) in
  if negb success then (f_m100, m)
  else let m := cb_run reading m in (power m, m).

(** The callback thread alternates; [stored] says that it has stored a level
    that is not yet counted. *)
Fixpoint alternates (stored : bool) (es : list CbEvent) : bool :=
  match es with
  | [] => true
  | Store _ :: es' => negb stored && alternates true es'
  | Beat :: es' => stored && alternates false es'
  end.
Definition beats (es : list CbEvent) : Z := Z.of_nat (length (filter (fun e => match e with Beat => true | _ => false end) es)).
Definition levels_stored (es : list CbEvent) : list float := flat_map (fun e => match e with Store p => [p] | _ => [] end) es.

Lemma last_cons {A} (a : A) l d : last (a :: l) d = last l a.
Proof. revert a d. induction l as [|b l IH]; intros a d; [reflexivity|]. change (last (b :: l) d = last (b :: l) a). now rewrite !IH. Qed.

Lemma cb_run_power es : forall m, power (cb_run es m) = last (levels_stored es) (power m).
Proof.
  induction es as [|[p|] es IH]; intros m; cbn [cb_run fold_left levels_stored flat_map app]; [reflexivity| |exact (IH _)].
  fold (cb_run es (cb_step m (Store p))) (levels_stored es). rewrite IH. cbn [cb_step power]. symmetry. apply last_cons.
Qed.

Lemma cb_run_beats es : forall m, (heartbeat (cb_run es m) - heartbeat m - beats es) mod 2 ^ 64 = 0.
Proof.
  induction es as [|[p|] es IH]; intros m; cbn [cb_run fold_left]; [now rewrite Z.sub_diag|exact (IH _)|].
  specialize (IH (cb_step m Beat)). fold (cb_run es (cb_step m Beat)). cbn [cb_step heartbeat] in IH. set (h := heartbeat (cb_run es _)) in *.
  unfold beats in *. cbn [filter length]. rewrite Nat2Z.inj_succ. set (n := Z.of_nat _) in *. set (h0 := heartbeat m) in *. unfold i64 in IH.
  change (2 ^ 63) with 9223372036854775808 in IH. change (2 ^ 64) with 18446744073709551616 in *. Z.div_mod_to_equations. lia.
Qed.

Lemma i64_beats a b n : (a - b - n) mod 2 ^ 64 = 0 -> 0 <= n < 2 ^ 63 -> i64 (a - b) = n.
Proof.
  unfold i64. change (2 ^ 63) with 9223372036854775808. change (2 ^ 64) with 18446744073709551616. intros H Hn. Z.div_mod_to_equations. lia.
Qed.

(** With two beats there is a level stored in between. *)
Lemma beats_store es : forall stored, alternates stored es = true -> beats es <= Z.of_nat (length (levels_stored es)) + (if stored then 1 else 0).
Proof.
  unfold beats. induction es as [|[p|] es IH]; intros stored; cbn [alternates filter levels_stored flat_map app length]; [destruct stored; lia|..]; rewrite andb_true_iff.
  - intros [H1 H2]. apply IH in H2. destruct stored; [discriminate|]. fold (levels_stored es). lia.
  - intros [-> H2]. apply IH in H2. fold (levels_stored es). lia.
Qed.

Lemma alternates_app a b : forall stored, alternates stored (a ++ b) = true -> exists stored', alternates stored a = true /\ alternates stored' b = true.
Proof.
  induction a as [|e a IH]; intros stored H; [exists stored; auto|]. destruct e; cbn [app alternates] in *; apply andb_true_iff in H as [-> H];
    destruct (IH _ H) as (s' & -> & H'); eauto.
Qed.

(** A level that the scanner uses is fresh.  However the callbacks
    interleave with the measurement, the result is -100 dBFS when fewer than
    four callbacks ended during the wait, and otherwise the last level stored
    by a callback after the old level was cleared, never the cleared value or
    a level from before. *)
Theorem validated_power_fresh stored clearing waiting reading m :
  alternates stored (clearing ++ waiting ++ reading) = true -> beats waiting < 2 ^ 63 ->
  let result := fst (getValidatedPower clearing waiting reading m) in
  (beats waiting < 4 /\ result = f_m100) \/
  (4 <= beats waiting /\ exists before p, levels_stored (clearing ++ waiting ++ reading) = before ++ [p] /\ result = p).
Proof.
  intros Ha Hb. cbv zeta. unfold getValidatedPower. set (m0 := mkMeter f_m100 (heartbeat m)). set (m1 := cb_run clearing m0).
  assert (Hn : 0 <= beats waiting) by (unfold beats; lia).
  rewrite (i64_beats _ _ (beats waiting) (cb_run_beats waiting m1) (conj Hn Hb)).
  destruct (Z.leb_spec 4 (beats waiting)) as [H4|H4]; cbn [negb fst]; [right|left; auto]. split; [exact H4|].
  assert (Hs : levels_stored (clearing ++ waiting ++ reading) <> []).
  { destruct (alternates_app _ _ _ Ha) as (s1 & _ & H1). destruct (alternates_app _ _ _ H1) as (s2 & H2 & _).
    pose proof (beats_store waiting s1 H2) as Hw. unfold levels_stored in *. rewrite !flat_map_app. intros E. apply app_eq_nil in E as [_ E].
    apply app_eq_nil in E as [E _]. rewrite E in Hw. cbn [length] in Hw. destruct s1; lia. }
  destruct (exists_last Hs) as (before & p & E). exists before, p. split; [exact E|].
  assert (Er : cb_run reading (cb_run waiting m1) = cb_run (clearing ++ waiting ++ reading) m0) by (unfold m1, cb_run; now rewrite !fold_left_app).
  rewrite Er, cb_run_power, E, last_last. reflexivity.
Qed.

Lemma validated_power_fresh_witness :
  fst (getValidatedPower [Beat] [Store f_0; Beat; Store f_1; Beat; Store f_0; Beat; Store f_1; Beat] [Store f_32767] (mkMeter f_0 7)) = f_32767.
Proof.
  destruct (validated_power_fresh true [Beat] [Store f_0; Beat; Store f_1; Beat; Store f_0; Beat; Store f_1; Beat] [Store f_32767] (mkMeter f_0 7))
    as [[H _]|(_ & before & p & E & ->)]; [reflexivity|reflexivity|discriminate H|].
  apply (f_equal (fun l => last l f_0)) in E. rewrite last_last in E. exact (eq_sym E).
Defined.
