(* ===== verification/Pipeline.v ===== *)
(** * Pipeline: from the hardware to the demodulator

    Composes the stream callback ([SdrDriver]), the ring and the sender of the
    relay ([RelayRing]), the TCP reader ([IqStream]) and the staging of the
    daemon ([Ingest]): the pairs of samples that the demodulator processes are
    pairs that the hardware delivered. *)

From Stdlib Require Import ZArith List Lia Bool SpecFloat.
Import ListNotations.
From S2P Require Import Prelude IqStream RelayRing Ingest SdrDriver.
#[local] Open Scope Z_scope.

(** A call of the stream callback. *)
Record Block := mkBlock { xi : list Z; xq : list Z }.
Definition block_ok (b : Block) : Prop :=
  length (xi b) = length (xq b) /\ (1 <= length (xi b))%nat /\ Z.of_nat (length (xi b)) < 2 ^ 32 /\ Forall is_i16 (xi b) /\ Forall is_i16 (xq b).
(** The pairs of a block that fit in a slot of the ring. *)
Definition block_pairs (b : Block) : list (Z * Z) := firstn (Z.to_nat SLOT_SAMPLES) (combine (xi b) (xq b)).

(** The callbacks of the relay are those of the hardware, with blocks for which
    the stream callback is defined. *)
Definition from_hardware (log10 : spec_float -> spec_float) (es : list RelayRing.Event) : Prop :=
  forall buf, In (Callback buf) es -> exists b reset s s', block_ok b /\ StreamACallback log10 true (xi b) (xq b) reset s = Some (Some buf, s').

(** The frames that a run of the daemon is fed, and those outside a scan. *)
Definition feeds (es : list Ingest.Event) : list (list Z) := flat_map (fun e => match e with Feed buf => [buf] | _ => [] end) es.
Fixpoint fed (scanning : bool) (es : list Ingest.Event) : list (list Z) :=
  match es with
  | [] => []
  | Feed buf :: es' => (if scanning then [] else [buf]) ++ fed scanning es'
  | Demod :: es' => fed scanning es'
  | Scanning b :: es' => fed b es'
  end.

Lemma fed_accepted es : forall scanning, accepted scanning es = concat (fed scanning es).
Proof.
  induction es as [|[buf| |b] es IH]; intros scanning; cbn [accepted fed]; [reflexivity| |apply IH|apply IH].
  rewrite IH, concat_app. destruct scanning; cbn [concat app]; [reflexivity|]. now rewrite app_nil_r.
Qed.
Lemma fed_subseq es : forall scanning, subseq (fed scanning es) (feeds es).
Proof.
  induction es as [|[buf| |b] es IH]; intros scanning; cbn [fed feeds flat_map app]; [constructor| |apply IH|apply IH].
  destruct scanning; cbn [app]; constructor; apply IH.
Qed.

Lemma subseq_trans {A} (a b c : list A) : subseq a b -> subseq b c -> subseq a c.
Proof.
  intros H1 H2. revert a H1. induction H2 as [l|x b c _ IH|x b c _ IH]; intros a H1.
  - inversion H1; subst. constructor.
  - inversion H1; subst; constructor; auto.
  - constructor. auto.
Qed.
Lemma subseq_firstn {A} n (l : list A) : subseq (firstn n l) l.
Proof. revert n. induction l as [|x l IH]; intros [|n]; cbn [firstn]; constructor. apply IH. Qed.

(** *** A buffer in the ring *)

Lemma is_i16_buffer x y : Forall is_i16 x -> Forall is_i16 y -> Forall is_i16 (iq_buffer x y).
Proof.
  intros H. revert y. induction H as [|a x Ha _ IH]; intros y Hy; [constructor|]. destruct Hy as [|b y Hb Hy]; [constructor|].
  cbn [iq_buffer]. constructor; [exact Ha|]. constructor; [exact Hb|]. now apply IH.
Qed.

Lemma taken_block b : block_ok b -> taken (iq_buffer (xi b) (xq b)) = iq_buffer (firstn (Z.to_nat SLOT_SAMPLES) (xi b)) (firstn (Z.to_nat SLOT_SAMPLES) (xq b)).
Proof.
  intros (He & H1 & H2 & _). unfold taken, num_iq_pairs. rewrite iq_buffer_length by exact He.
  replace (Z.of_nat (2 * length (xi b)) / 2) with (Z.of_nat (length (xi b))) by (rewrite Nat2Z.inj_mul, Z.mul_comm, Z.div_mul by lia; reflexivity).
  unfold u32. rewrite Z.mod_small by lia. destruct (Z.ltb_spec SLOT_SAMPLES (Z.of_nat (length (xi b)))) as [H|H].
  - replace (Z.to_nat (SLOT_SAMPLES * 2)) with (2 * Z.to_nat SLOT_SAMPLES)%nat by (unfold SLOT_SAMPLES; lia). apply iq_buffer_firstn.
  - replace (Z.to_nat (Z.of_nat (length (xi b)) * 2)) with (2 * length (xi b))%nat by lia. rewrite iq_buffer_firstn, !firstn_all2 by lia. reflexivity.
Qed.

Lemma firstn_combine {A B} n (x : list A) : forall y : list B, combine (firstn n x) (firstn n y) = firstn n (combine x y).
Proof. revert n. induction x as [|a x IH]; intros [|n] [|b y]; cbn [firstn combine]; try reflexivity; now rewrite IH. Qed.

(** A buffer as it is stored: the pairs of a block. *)
Definition whole (buf : list Z) : Prop := exists b, block_ok b /\ iq_pairs buf = block_pairs b /\ length buf = (2 * length (block_pairs b))%nat.

Lemma taken_whole log10 es buf : from_hardware log10 es -> In (Callback buf) es -> whole (taken buf).
Proof.
  intros Hh Hin. destruct (Hh buf Hin) as (b & reset & s & s' & Hb & E). apply callback_buffer in E as [-> _]; [|apply Hb]. exists b.
  split; [exact Hb|]. unfold block_pairs. rewrite (taken_block b Hb), iq_buffer_pairs, firstn_combine. split; [reflexivity|].
  rewrite <- firstn_combine. destruct Hb as (He & _). rewrite iq_buffer_length, length_combine, !length_firstn, He by (rewrite !length_firstn; congruence). lia.
Qed.

Lemma offered_whole log10 es : from_hardware log10 es -> Forall whole (offered es).
Proof.
  intros Hh. apply Forall_forall. intros buf Hin. apply in_flat_map in Hin as ([[|x b]|ok|fd|m] & He & Hb); try contradiction.
  destruct Hb as [<-|[]]. eapply taken_whole; eassumption.
Qed.

Lemma pairs_concat bufs : Forall whole bufs -> iq_pairs (concat bufs) = concat (map iq_pairs bufs).
Proof.
  induction 1 as [|buf bufs (b & _ & _ & Hl) _ IH]; [reflexivity|]. cbn [concat map]. now rewrite (iq_pairs_app _ _ _ Hl), IH.
Qed.

Lemma chunks_pairs (cs : list (list Z)) rest : Forall (fun c => Z.of_nat (length c) = IQ_CHUNK_SIZE * 2) cs ->
  iq_pairs (concat cs ++ rest) = concat (map iq_pairs cs) ++ iq_pairs rest.
Proof.
  induction 1 as [|c cs Hc _ IH]; [reflexivity|]. cbn [concat map]. rewrite <- app_assoc, (iq_pairs_app (Z.to_nat IQ_CHUNK_SIZE)), IH, app_assoc; [reflexivity|].
  unfold IQ_CHUNK_SIZE in *. lia.
Qed.

Lemma pairs_length n : forall l, length l = (2 * n)%nat -> length (iq_pairs l) = n.
Proof. induction n as [|n IH]; intros l H; [destruct l; [reflexivity|discriminate]|]. destruct l as [|x [|y l]]; cbn [length] in H; [lia|lia|]. cbn [iq_pairs length]. rewrite IH; lia. Qed.

(** C1: the samples keep their alignment from the hardware to the
    demodulator.  For every run of the relay on callbacks of the hardware
    (fewer than 2^31, with blocks for which the callback is defined), every
    fragmentation by TCP and every run of the daemon, in whole calls of
    [feedIQToPool] and of the demodulator, that is fed the frames it received,
    the pairs of the chunks, stored and dropped, with the pairs that wait to be
    staged, are exactly the pairs of some of the blocks that the hardware
    delivered, whole (up to 16384 pairs each) and in order; the demodulator
    processes some of the chunks, in order, each of 16384 pairs.  So no sample
    of the I channel is ever taken for one of the Q channel. *)
Theorem iq_alignment log10 es conn ies :
  callbacks es < 2 ^ 31 -> from_hardware log10 es ->
  pieces_ok conn -> concat conn = concat (sent (RelayRing.run es RelayRing.init)) ->
  feeds ies = fst (tcpReader conn) -> Z.of_nat (length (chunks (snd (Ingest.run ies)))) < 2 ^ 31 ->
  let '(done, s) := Ingest.run ies in
  exists bufs blocks, subseq bufs (offered es) /\ Forall2 (fun buf b => block_ok b /\ iq_pairs buf = block_pairs b) bufs blocks /\
    concat (map (fun c => iq_pairs (snd c)) (chunks s)) ++ iq_pairs (staged s) = concat (map block_pairs blocks) /\
    subseq done (map snd (chunks s)) /\ Forall (fun c => length (iq_pairs c) = Z.to_nat IQ_CHUNK_SIZE) done.
Proof.
  intros Hk Hh Hok E Ef Hc. pose proof (ingest_conserves ies Hc) as Hi. destruct (Ingest.run ies) as [done s].
  destruct Hi as (Hs & Hl & _ & Hd & _). pose proof (offered_whole log10 es Hh) as Hw.
  assert (Hfed : subseq (fed false ies) (offered es)).
  { eapply subseq_trans; [apply fed_subseq|]. rewrite Ef, (relay_delivers es conn Hk); [| |exact Hok|exact E].
    - cbn [fst]. eapply subseq_trans; [apply subseq_firstn|]. apply (subseq_app_l _ (pending (RelayRing.run es RelayRing.init))).
      apply (run_offered es RelayRing.init []). constructor.
    - intros buf Hin. right. destruct (Hh buf Hin) as (b & reset & st & st' & (He & H1 & H2 & Hi1 & Hq1) & Eb). apply callback_buffer in Eb as [-> _]; [|exact H2].
      rewrite iq_buffer_length by exact He. split; [lia|]. split; [lia|]. now apply is_i16_buffer. }
  assert (Hfw : Forall whole (fed false ies)) by (eapply subseq_Forall; eassumption).
  assert (Hb : exists blocks, Forall2 (fun buf b => block_ok b /\ iq_pairs buf = block_pairs b) (fed false ies) blocks).
  { clear -Hfw. induction Hfw as [|buf bufs (b & H1 & H2 & _) _ (bs & IH)]; [exists []; constructor|]. exists (b :: bs). constructor; auto. }
  destruct Hb as (blocks & Hb). exists (fed false ies), blocks. split; [exact Hfed|]. split; [exact Hb|].
  assert (Hl' : Forall (fun c => Z.of_nat (length c) = IQ_CHUNK_SIZE * 2) (map snd (chunks s))) by now apply Forall_map.
  split.
  { rewrite <- map_map, <- chunks_pairs by exact Hl'. rewrite Hs, fed_accepted, pairs_concat by exact Hfw. f_equal.
    clear -Hb. induction Hb as [|? ? ? ? [_ H] _ IH]; cbn [map]; [reflexivity|]. now rewrite H, IH. }
  assert (Hds : subseq done (map snd (chunks s))).
  { rewrite Hd. eapply subseq_trans; [apply subseq_firstn|]. unfold stored. clear. induction (chunks s) as [|[[] c] cs IH]; cbn [filter map fst snd]; constructor; exact IH. }
  split; [exact Hds|]. apply (subseq_Forall (fun c => Z.of_nat (length c) = IQ_CHUNK_SIZE * 2) done _ Hds) in Hl'. eapply Forall_impl; [|exact Hl'].
  intros c Hcl. apply pairs_length. unfold IQ_CHUNK_SIZE in *. lia.
Qed.

Definition demo_block : Block := mkBlock [1; 3] [-2; 4].
Definition demo_feeds : list Ingest.Event := map Feed (fst (tcpReader (sent (RelayRing.run demo RelayRing.init)))).
Lemma iq_alignment_witness : exists bufs, subseq bufs (offered demo) /\
  concat (map (fun c => iq_pairs (snd c)) (chunks (snd (Ingest.run demo_feeds)))) ++ iq_pairs (staged (snd (Ingest.run demo_feeds))) = concat (map iq_pairs bufs).
Proof.
  assert (H1 : callbacks demo < 2 ^ 31) by (vm_compute; reflexivity).
  assert (H2 : from_hardware (fun x => x) demo).
  { intros buf Hin. exists demo_block, false, (mkStream false false 0 f_m100). eexists. split.
    - repeat split; try (cbn; lia); repeat constructor; unfold is_i16; lia.
    - assert (buf = [1; -2; 3; 4]) as ->; [|reflexivity].
      unfold demo in Hin. cbn [repeat concat app In] in Hin. repeat destruct Hin as [Hin|Hin]; try discriminate Hin; try contradiction; now injection Hin as <-. }
  assert (H3 : pieces_ok (sent (RelayRing.run demo RelayRing.init))).
  { assert (E : forallb (fun p => match p with [] => false | _ => true end) (sent (RelayRing.run demo RelayRing.init)) = true) by (vm_compute; reflexivity).
    rewrite forallb_forall in E. apply Forall_forall. intros p Hp En. rewrite En in Hp. discriminate (E _ Hp). }
  assert (H5 : feeds demo_feeds = fst (tcpReader (sent (RelayRing.run demo RelayRing.init)))).
  { unfold demo_feeds. induction (fst (tcpReader _)) as [|b l IH]; [reflexivity|]. cbn [map feeds flat_map app]. f_equal. exact IH. }
  assert (H6 : Z.of_nat (length (chunks (snd (Ingest.run demo_feeds)))) < 2 ^ 31) by (vm_compute; reflexivity).
  pose proof (iq_alignment (fun x => x) demo (sent (RelayRing.run demo RelayRing.init)) demo_feeds H1 H2 H3 eq_refl H5 H6) as H.
  destruct (Ingest.run demo_feeds) as [done s]. destruct H as (bufs & blocks & Hs & Hb & E & _). exists bufs. split; [exact Hs|]. cbn [snd]. rewrite E. f_equal.
  clear -Hb. induction Hb as [|? ? ? ? [_ H] _ IH]; cbn [map]; [reflexivity|]. now rewrite H, IH.
Defined.
