(* ===== verification/Varint.v ===== *)
(** * Varint: variable-length integers

    Models the encoding and decoding of varints and of 4-byte big-endian
    integers of [util.c] in [src/api-core/src/db/sqlite3.c], with the decoder
    unrolled as in the code. *)

From Stdlib Require Import ZArith List Lia Bool.
Import ListNotations.
From S2P Require Import Prelude Bits.
#[local] Open Scope Z_scope.

Definition SLOT_2_0 : Z := 0x001fc07f.
Definition SLOT_4_2_0 : Z := 0xf01fc07f.

(** [sqlite3GetVarint p] returns the decoded value and the byte count. *)
Definition sqlite3GetVarint (p : list Z) : Z * Z :=
  if 0 <=? i8 (rd p 0) then (rd p 0, 1)
  else if 0 <=? i8 (rd p 1) then
    (Z.lor (u32 (Z.shiftl (Z.land (rd p 0) 0x7f) 7)) (rd p 1), 2)
  else
  let a := u32 (Z.shiftl (rd p 0) 14) in
  let b := rd p 1 in
  let a := Z.lor a (rd p 2) in
  if Z.land a 0x80 =? 0 then
    let a := Z.land a SLOT_2_0 in
    let b := Z.land b 0x7f in
    let b := u32 (Z.shiftl b 7) in
    (Z.lor a b, 3)
  else
  let a := Z.land a SLOT_2_0 in
  let b := u32 (Z.shiftl b 14) in
  let b := Z.lor b (rd p 3) in
  if Z.land b 0x80 =? 0 then
    let b := Z.land b SLOT_2_0 in
    let a := u32 (Z.shiftl a 7) in
    (Z.lor a b, 4)
  else
  let b := Z.land b SLOT_2_0 in
  let s := a in
  let a := u32 (Z.shiftl a 14) in
  let a := Z.lor a (rd p 4) in
  if Z.land a 0x80 =? 0 then
    let b := u32 (Z.shiftl b 7) in
    let a := Z.lor a b in
    let s := Z.shiftr s 18 in
    (Z.lor (u64 (Z.shiftl s 32)) a, 5)
  else
  let s := u32 (Z.shiftl s 7) in
  let s := Z.lor s b in
  let b := u32 (Z.shiftl b 14) in
  let b := Z.lor b (rd p 5) in
  if Z.land b 0x80 =? 0 then
    let a := Z.land a SLOT_2_0 in
    let a := u32 (Z.shiftl a 7) in
    let a := Z.lor a b in
    let s := Z.shiftr s 18 in
    (Z.lor (u64 (Z.shiftl s 32)) a, 6)
  else
  let a := u32 (Z.shiftl a 14) in
  let a := Z.lor a (rd p 6) in
  if Z.land a 0x80 =? 0 then
    let a := Z.land a SLOT_4_2_0 in
    let b := Z.land b SLOT_2_0 in
    let b := u32 (Z.shiftl b 7) in
    let a := Z.lor a b in
    let s := Z.shiftr s 11 in
    (Z.lor (u64 (Z.shiftl s 32)) a, 7)
  else
  let a := Z.land a SLOT_2_0 in
  let b := u32 (Z.shiftl b 14) in
  let b := Z.lor b (rd p 7) in
  if Z.land b 0x80 =? 0 then
    let b := Z.land b SLOT_4_2_0 in
    let a := u32 (Z.shiftl a 7) in
    let a := Z.lor a b in
    let s := Z.shiftr s 4 in
    (Z.lor (u64 (Z.shiftl s 32)) a, 8)
  else
  let a := u32 (Z.shiftl a 15) in
  let a := Z.lor a (rd p 8) in
  let b := Z.land b SLOT_2_0 in
  let b := u32 (Z.shiftl b 8) in
  let a := Z.lor a b in
  let s := u32 (Z.shiftl s 4) in
  let b := rd p 4 in
  let b := Z.land b 0x7f in
  let b := Z.shiftr b 3 in
  let s := Z.lor s b in
  (Z.lor (u64 (Z.shiftl s 32)) a, 9).

(** The [for(i=7; i>=0; i--)] loop of [putVarint64]. *)
Fixpoint put9_loop (i : nat) (p : list Z) (v : Z) : list Z :=
  let p := wr p (Z.of_nat i) (u8 (Z.lor (Z.land v 0x7f) 0x80)) in
  match i with
  | O => p
  | S i' => put9_loop i' p (Z.shiftr v 7)
  end.

(** The [do ... while( v!=0 )] loop of [putVarint64]; [buf] has ten bytes, so
    ten rounds at most. *)
Fixpoint buf_loop (fuel : nat) (buf : list Z) (v : Z) : list Z :=
  match fuel with
  | O => buf
  | S fuel' =>
      let buf := buf ++ [u8 (Z.lor (Z.land v 0x7f) 0x80)] in
      let v := Z.shiftr v 7 in
      if v =? 0 then buf else buf_loop fuel' buf v
  end.

(** The loop [for(i=0, j=n-1; j>=0; j--, i++) p[i] = buf[j]], with [k = j+1]. *)
Fixpoint copy_loop (k : nat) (i : Z) (buf p : list Z) : list Z :=
  match k with
  | O => p
  | S j => copy_loop j (i + 1) buf (wr p i (rd buf (Z.of_nat j)))
  end.

(** Encoders return the buffer after the writes and the number of bytes. *)
Definition putVarint64 (p : list Z) (v : Z) : list Z * Z :=
  if negb (Z.land v (Z.shiftl 0xff000000 32) =? 0) then
    let p := wr p 8 (u8 v) in
    let v := Z.shiftr v 8 in
    (put9_loop 7 p v, 9)
  else
    let buf := buf_loop 10 [] v in
    let n := Z.of_nat (length buf) in
    let buf := wr buf 0 (Z.land (rd buf 0) 0x7f) in
    (copy_loop (Z.to_nat n) 0 buf p, n).

Definition sqlite3PutVarint (p : list Z) (v : Z) : list Z * Z :=
  if v <=? 0x7f then (wr p 0 (Z.land v 0x7f), 1)
  else if v <=? 0x3fff then
    let p := wr p 0 (u8 (Z.lor (Z.land (Z.shiftr v 7) 0x7f) 0x80)) in
    (wr p 1 (u8 (Z.land v 0x7f)), 2)
  else putVarint64 p v.

Definition sqlite3GetVarint32 (p : list Z) : Z * Z :=
  if Z.land (rd p 1) 0x80 =? 0 then
    (Z.lor (Z.shiftl (Z.land (rd p 0) 0x7f) 7) (rd p 1), 2)
  else if Z.land (rd p 2) 0x80 =? 0 then
    (Z.lor (Z.lor (Z.shiftl (Z.land (rd p 0) 0x7f) 14) (Z.shiftl (Z.land (rd p 1) 0x7f) 7))
       (rd p 2), 3)
  else
    let '(v64, n) := sqlite3GetVarint p in
    if negb (Z.land v64 0xffffffff =? v64) then (0xffffffff, n) else (u32 v64, n).

(** The macro [getVarint32], which inlines the one-byte case. *)
Definition getVarint32 (p : list Z) : Z * Z :=
  if rd p 0 <? 0x80 then (rd p 0, 1) else sqlite3GetVarint32 p.

(** [for(i=1; (v >>= 7)!=0; i++)]; a 64-bit [v] is zero after ten shifts. *)
Fixpoint varintlen_loop (fuel : nat) (i : Z) (v : Z) : Z :=
  match fuel with
  | O => i
  | S fuel' =>
      let v := Z.shiftr v 7 in
      if v =? 0 then i else varintlen_loop fuel' (i + 1) v
  end.

Definition sqlite3VarintLen (v : Z) : Z := varintlen_loop 10 1 v.

(** The byte-order independent branch of the two routines. *)
Definition sqlite3Get4byte (p : list Z) : Z :=
  Z.lor (Z.lor (Z.lor (u32 (Z.shiftl (rd p 0) 24)) (Z.shiftl (rd p 1) 16)) (Z.shiftl (rd p 2) 8))
    (rd p 3).

Definition sqlite3Put4byte (p : list Z) (v : Z) : list Z :=
  let p := wr p 0 (u8 (Z.shiftr v 24)) in
  let p := wr p 1 (u8 (Z.shiftr v 16)) in
  let p := wr p 2 (u8 (Z.shiftr v 8)) in
  wr p 3 (u8 v).

(** Reference decoder: [k] seven-bit bytes may still come before the
    eight-bit ninth one. *)
Fixpoint varint_ref (k : nat) (acc : Z) (p : list Z) (i : Z) : Z * Z :=
  match k with
  | O => (Z.lor (Z.shiftl acc 8) (rd p i), i + 1)
  | S k' =>
      let acc' := Z.lor (Z.shiftl acc 7) (Z.land (rd p i) 0x7f) in
      if rd p i <? 0x80 then (acc', i + 1) else varint_ref k' acc' p (i + 1)
  end.

Lemma byte_signed_nonneg x : is_u8 x -> (0 <=? i8 x) = negb (Z.testbit x 7).
Proof.
  intros H. rewrite (byte_top_bit x H). unfold is_u8, i8 in *.
  destruct (0x80 <=? x) eqn:E; [apply Z.leb_le in E|apply Z.leb_gt in E]; cbn [negb].
  - apply Z.leb_gt. replace ((x + 2 ^ 7) mod 2 ^ 8) with (x - 2 ^ 7); [lia|].
    apply Z.mod_unique with 1; lia.
  - apply Z.leb_le. rewrite Z.mod_small; lia.
Qed.

Lemma byte_ltb_0x80 x : is_u8 x -> (x <? 0x80) = negb (Z.testbit x 7).
Proof. intros H. rewrite (byte_top_bit x H). now rewrite Z.leb_antisym, negb_involutive. Qed.

Ltac last_byte :=
  try match goal with
  | H : is_u8 ?x, E : Z.testbit ?x 7 = false |- _ =>
      let y := fresh "y" in destruct (byte_low7 x H E) as (y & ? & ->); clear E H
  end.

Lemma sqlite3GetVarint_ref p : bytes p -> sqlite3GetVarint p = varint_ref 8 0 p 0.
Proof.
  intros Hp.
  unfold sqlite3GetVarint. cbn [varint_ref].
  cbn [Z.add Pos.add Pos.succ].
  pose proof (rd_u8 p 0 Hp). pose proof (rd_u8 p 1 Hp). pose proof (rd_u8 p 2 Hp).
  pose proof (rd_u8 p 3 Hp). pose proof (rd_u8 p 4 Hp). pose proof (rd_u8 p 5 Hp).
  pose proof (rd_u8 p 6 Hp). pose proof (rd_u8 p 7 Hp). pose proof (rd_u8 p 8 Hp).
  rewrite !byte_ltb_0x80, !byte_signed_nonneg by assumption.
  generalize dependent (rd p 0). intros p0. generalize dependent (rd p 1). intros p1.
  generalize dependent (rd p 2). intros p2. generalize dependent (rd p 3). intros p3.
  generalize dependent (rd p 4). intros p4. generalize dependent (rd p 5). intros p5.
  generalize dependent (rd p 6). intros p6. generalize dependent (rd p 7). intros p7.
  generalize dependent (rd p 8). intros p8. intros.
  cbv zeta. rewrite !land_0x80. unfold SLOT_2_0, SLOT_4_2_0. single_bits.
  repeat match goal with |- context [negb ?x] => destruct x eqn:?; cbn [negb] end;
    (apply f_equal2; [|reflexivity]); last_byte; bitwise.
Qed.

(** ** The encoder *)

(** [m] seven-bit groups of [v], most significant first, each with its
    continuation bit. *)
Fixpoint enc_cont (m : nat) (v : Z) : list Z :=
  match m with
  | O => []
  | S m' => enc_cont m' (v / 128) ++ [v mod 128 + 128]
  end.

(** The encoding of [v] in [n] bytes, as the comment in the source defines
    it: [n-1] bytes B and one byte A, or eight bytes B and one byte C. *)
Definition encoding (n : nat) (v : Z) : list Z :=
  if (n =? 9)%nat then enc_cont 8 (v / 256) ++ [v mod 256]
  else enc_cont (n - 1) (v / 128) ++ [v mod 128].

Lemma length_enc_cont m v : length (enc_cont m v) = m.
Proof. revert v; induction m; intros v; cbn; rewrite ?length_app, ?IHm; cbn; lia. Qed.

Lemma cont_byte v : 0 <= v -> u8 (Z.lor (Z.land v 0x7f) 0x80) = v mod 128 + 128.
Proof.
  intros Hv. change 0x7f with (2 ^ 7 - 1). rewrite land_low by lia.
  change (2 ^ 7) with 128. pose proof (Z.mod_pos_bound v 128 ltac:(lia)).
  rewrite Z.lor_comm. change (Z.lor 0x80 (v mod 128)) with (Z.lor (Z.shiftl 1 7) (v mod 128)).
  rewrite (lor_shiftl_add 1 7 (v mod 128)) by lia.
  unfold u8. rewrite Z.mod_small; lia.
Qed.

Lemma shiftr7 v : Z.shiftr v 7 = v / 128.
Proof. now rewrite Z.shiftr_div_pow2 by lia. Qed.

Lemma put9_loop_spec i pre rest v : length pre = S i -> 0 <= v ->
  put9_loop i (pre ++ rest) v = enc_cont (S i) v ++ rest.
Proof.
  revert pre rest v. induction i as [|i IH]; intros pre rest v Hl Hv.
  - destruct pre as [|x [|? ?]]; try discriminate. cbn. now rewrite cont_byte.
  - destruct (exists_last (l := pre)) as (pre' & x & ->); [now destruct pre|].
    rewrite length_app in Hl. cbn in Hl. cbn [put9_loop].
    rewrite <- app_assoc. cbn [app]. rewrite wr_app_exact by lia. rewrite cont_byte, shiftr7 by lia.
    rewrite IH by (lia || (apply Z.div_pos; lia)). cbn [enc_cont]. now rewrite <- !app_assoc.
Qed.

(** The buffer loop yields the groups of [v], least significant first. *)
Lemma buf_loop_spec fuel buf v : 0 <= v < 128 ^ Z.of_nat fuel -> (0 < fuel)%nat ->
  exists n, (0 < n <= fuel)%nat /\ v < 128 ^ Z.of_nat n /\
    (n = 1%nat \/ 128 ^ (Z.of_nat n - 1) <= v) /\
    buf_loop fuel buf v = buf ++ rev (enc_cont n v).
Proof.
  revert buf v. induction fuel as [|fuel IH]; intros buf v Hv Hf; [lia|].
  cbn [buf_loop]. rewrite cont_byte, shiftr7 by lia.
  destruct (Z.eqb_spec (v / 128) 0) as [E|E].
  - exists 1%nat. apply Z.div_small_iff in E; [|lia]. cbn [enc_cont rev app].
    repeat split; lia.
  - assert (Hd : 0 <= v / 128) by (apply Z.div_pos; lia).
    assert (Hp : 128 ^ Z.of_nat (S fuel) = 128 * 128 ^ Z.of_nat fuel)
      by (rewrite Nat2Z.inj_succ, Z.pow_succ_r; lia).
    assert (Hlt : v / 128 < 128 ^ Z.of_nat fuel) by (apply Z.div_lt_upper_bound; lia).
    assert (fuel <> O) by (intros ->; cbn in Hlt; lia).
    destruct (IH (buf ++ [v mod 128 + 128]) (v / 128)) as (n & Hn & Hlt' & Hge & Heq); [lia|lia|].
    exists (S n). rewrite Nat2Z.inj_succ, Z.pow_succ_r by lia.
    pose proof (Z.div_mod v 128 ltac:(lia)). pose proof (Z.mod_pos_bound v 128 ltac:(lia)).
    repeat split; try lia.
    + right. replace (Z.succ (Z.of_nat n) - 1) with (Z.succ (Z.of_nat n - 1)) by lia.
      rewrite Z.pow_succ_r by lia. destruct Hge as [->|Hge]; [cbn|]; lia.
    + cbn [enc_cont]. rewrite Heq, rev_app_distr, <- app_assoc. reflexivity.
Qed.

Lemma copy_loop_spec buf k pre mid rest i :
  (k <= length buf)%nat -> length mid = k -> i = Z.of_nat (length pre) ->
  copy_loop k i buf (pre ++ mid ++ rest) = pre ++ rev (firstn k buf) ++ rest.
Proof.
  revert pre mid i. induction k as [|k IH]; intros pre mid i Hk Hm ->.
  - destruct mid; [reflexivity|discriminate].
  - destruct mid as [|x mid]; [discriminate|]. cbn [copy_loop]. cbn [app].
    rewrite wr_app_exact by reflexivity.
    destruct (split_at_nat k buf) as [y Hy]; [lia|].
    replace (rd buf (Z.of_nat k)) with y
      by (rewrite Hy; symmetry; apply rd_app_exact; rewrite length_firstn; lia).
    replace (pre ++ y :: mid ++ rest) with ((pre ++ [y]) ++ mid ++ rest) by now rewrite <- app_assoc.
    rewrite IH by (rewrite ?length_app; cbn in *; lia).
    assert (Hf : firstn (S k) buf = firstn k buf ++ [y]).
    { rewrite Hy at 1. rewrite firstn_app, length_firstn.
      replace (Nat.min k (length buf)) with k by lia.
      rewrite firstn_firstn, Nat.min_r by lia. replace (S k - k)%nat with 1%nat by lia. reflexivity. }
    rewrite Hf, rev_app_distr. cbn. now rewrite <- app_assoc.
Qed.

(** The mask test of [putVarint64] asks whether the value needs nine bytes. *)
Lemma nine_byte_test v : is_u64 v ->
  (Z.land v (Z.shiftl 0xff000000 32) =? 0) = (v <? 2 ^ 56).
Proof.
  unfold is_u64. intros Hv. change (Z.shiftl 0xff000000 32) with (2 ^ 64 - 2 ^ 56).
  rewrite land_high by lia. destruct (Z.ltb_spec v (2 ^ 56)).
  - rewrite Z.div_small by lia. reflexivity.
  - apply Z.eqb_neq. assert (1 <= v / 2 ^ 56) by (apply Z.div_le_lower_bound; lia). lia.
Qed.

(** [encodes n p v r]: [r] is buffer [p] with the [n]-byte encoding of [v]
    written at its start, and [n] is the least length that can hold [v]. *)
Definition encodes (n : nat) (p : list Z) (v : Z) (r : list Z * Z) : Prop :=
  (1 <= n <= 9)%nat /\ r = (encoding n v ++ skipn n p, Z.of_nat n) /\
  v < (if (n =? 9)%nat then 2 ^ 64 else 128 ^ Z.of_nat n) /\
  (n = 1%nat \/ 128 ^ (Z.of_nat n - 1) <= v).

Lemma putVarint64_short p v : 0 <= v < 2 ^ 56 -> (9 <= length p)%nat ->
  exists n, encodes n p v (putVarint64 p v).
Proof.
  intros Hv Hp. unfold putVarint64. rewrite nine_byte_test by (unfold is_u64; lia).
  destruct (Z.ltb_spec v (2 ^ 56)); [cbn [negb]|lia].
  destruct (buf_loop_spec 10 [] v) as (n & Hn & Hlt & Hge & ->);
    [change (128 ^ Z.of_nat 10) with (2 ^ 70); lia|lia|].
  exists n. unfold encodes.
  assert (n <= 8)%nat.
  { destruct Hge as [->|Hge]; [lia|]. destruct (Nat.le_gt_cases n 8); [assumption|].
    assert (128 ^ 8 <= 128 ^ (Z.of_nat n - 1)) by (apply Z.pow_le_mono_r; lia).
    change (128 ^ 8) with (2 ^ 56) in *. lia. }
  cbn [app]. rewrite length_rev, length_enc_cont, Nat2Z.id.
  destruct n as [|m]; [lia|]. cbn [enc_cont]. rewrite rev_app_distr. cbn [rev app].
  unfold encoding. replace (S m =? 9)%nat with false by (symmetry; apply Nat.eqb_neq; lia).
  rewrite <- (firstn_skipn (S m) p) at 1.
  change (firstn (S m) p ++ skipn (S m) p) with ([] ++ firstn (S m) p ++ skipn (S m) p).
  rewrite (copy_loop_spec _ (S m) [] (firstn (S m) p)); cbn [app]; [| | |reflexivity].
  - unfold rd, wr. cbn [Z.to_nat nth wr_nat]. change 0x7f with (2 ^ 7 - 1). rewrite land_low by lia.
    replace ((v mod 128 + 128) mod 2 ^ 7) with (v mod 128)
      by (change (2 ^ 7) with 128; rewrite <- Zplus_mod_idemp_r, Z_mod_same_full, Z.add_0_r, Z.mod_mod; lia).
    rewrite firstn_all2 by (cbn; rewrite length_rev, length_enc_cont; lia).
    cbn [rev]. rewrite rev_involutive. replace (S m - 1)%nat with m by lia.
    repeat split; (lia || assumption).
  - rewrite length_wr. cbn. rewrite length_rev, length_enc_cont. lia.
  - rewrite length_firstn. lia.
Qed.

Lemma putVarint64_long p v : 2 ^ 56 <= v < 2 ^ 64 -> (9 <= length p)%nat ->
  encodes 9 p v (putVarint64 p v).
Proof.
  intros Hv Hp. unfold putVarint64. rewrite nine_byte_test by (unfold is_u64; lia).
  destruct (Z.ltb_spec v (2 ^ 56)); [lia|cbn [negb]].
  unfold encodes, encoding. cbn [Nat.eqb].
  do 9 (destruct p as [|? p]; [cbn in Hp; lia|]).
  change (wr _ 8 (u8 v)) with ([z; z0; z1; z2; z3; z4; z5; z6] ++ u8 v :: p).
  rewrite Z.shiftr_div_pow2 by lia.
  rewrite put9_loop_spec by (try reflexivity; apply Z.div_pos; lia).
  cbn [skipn]. rewrite <- app_assoc. repeat split; lia.
Qed.

Lemma sqlite3PutVarint_encodes p v : is_u64 v -> (9 <= length p)%nat ->
  exists n, encodes n p v (sqlite3PutVarint p v).
Proof.
  intros Hv Hp. unfold is_u64 in Hv. unfold sqlite3PutVarint.
  destruct (Z.leb_spec v 0x7f) as [H1|H1]; [|destruct (Z.leb_spec v 0x3fff) as [H2|H2]].
  - exists 1%nat. destruct p as [|x p]; [cbn in Hp; lia|].
    change 0x7f with (2 ^ 7 - 1). rewrite land_low by lia.
    unfold encodes; cbn; repeat split; lia.
  - exists 2%nat. destruct p as [|x [|y p]]; [cbn in Hp; lia|cbn in Hp; lia|].
    rewrite cont_byte, shiftr7 by (rewrite Z.shiftr_div_pow2 by lia; apply Z.div_pos; lia).
    change 0x7f with (2 ^ 7 - 1). rewrite land_low by lia. unfold u8.
    rewrite (Z.mod_small (v mod 2 ^ 7)) by (pose proof (Z.mod_pos_bound v (2 ^ 7)); lia).
    unfold encodes; cbn; repeat split; lia.
  - destruct (Z_lt_ge_dec v (2 ^ 56)).
    + apply putVarint64_short; lia.
    + exists 9%nat. apply putVarint64_long; lia.
Qed.

(** ** Decoding what was encoded *)

Lemma varint_ref_cont m k acc v pre rest : 0 <= acc -> 0 <= v ->
  varint_ref (m + k) acc (pre ++ enc_cont m v ++ rest) (Z.of_nat (length pre)) =
  varint_ref k (acc * 128 ^ Z.of_nat m + v mod 128 ^ Z.of_nat m) (pre ++ enc_cont m v ++ rest)
    (Z.of_nat (length pre) + Z.of_nat m).
Proof.
  revert k acc v rest. induction m as [|m IH]; intros k acc v rest Ha Hv.
  - cbn [Nat.add Z.of_nat]. rewrite Z.pow_0_r, Z.mod_1_r. f_equal; lia.
  - cbn [enc_cont]. rewrite <- app_assoc. replace (S m + k)%nat with (m + S k)%nat by lia.
    pose proof (Z.div_pos v 128 Hv ltac:(lia)) as Hd.
    rewrite IH by lia. cbn [app varint_ref].
    set (p := pre ++ enc_cont m (v / 128) ++ v mod 128 + 128 :: rest).
    assert (Hr : rd p (Z.of_nat (length pre) + Z.of_nat m) = v mod 128 + 128).
    { subst p. rewrite app_assoc. apply rd_app_exact. rewrite length_app, length_enc_cont. lia. }
    pose proof (Z.mod_pos_bound v 128 ltac:(lia)) as Hm.
    rewrite Hr. destruct (Z.ltb_spec (v mod 128 + 128) 0x80); [lia|].
    rewrite (land_low 7) by lia. change (2 ^ 7) with 128.
    rewrite <- (Zplus_mod_idemp_r 128), Z_mod_same_full, Z.add_0_r, Z.mod_mod by lia.
    rewrite (lor_shiftl_add _ 7) by lia. change (2 ^ 7) with 128.
    f_equal; [|lia].
    rewrite Nat2Z.inj_succ, Z.pow_succ_r by lia.
    rewrite (Z.rem_mul_r v 128) by (try apply Z.pow_nonzero; try apply Z.pow_pos_nonneg; lia). lia.
Qed.

Lemma varint_ref_encoding n v rest : (1 <= n <= 9)%nat ->
  0 <= v < (if (n =? 9)%nat then 2 ^ 64 else 128 ^ Z.of_nat n) ->
  varint_ref 8 0 (encoding n v ++ rest) 0 = (v, Z.of_nat n).
Proof.
  intros Hn Hv. unfold encoding. destruct (Nat.eqb_spec n 9) as [->|Hne].
  - rewrite <- app_assoc.
    pose proof (varint_ref_cont 8 0 0 (v / 256) [] ([v mod 256] ++ rest)) as Hc.
    cbn [Nat.add app length Z.of_nat] in Hc. cbn [app]. rewrite Hc by (try apply Z.div_pos; lia).
    cbn [varint_ref]. rewrite rd_app_exact by (rewrite length_enc_cont; reflexivity).
    pose proof (Z.mod_pos_bound v 256 ltac:(lia)).
    rewrite (lor_shiftl_add _ 8) by lia. rewrite (Z.mod_small (v / 256)); cbn [length app].
    + f_equal. change (2 ^ 8) with 256. pose proof (Z.div_mod v 256). lia.
    + split; [apply Z.div_pos; lia|]. apply Z.div_lt_upper_bound; [lia|].
      change (256 * 128 ^ Z.of_nat 8) with (2 ^ 64). lia.
  - destruct n as [|m]; [lia|]. replace (S m - 1)%nat with m by lia.
    rewrite <- app_assoc. replace 8%nat with (m + S (7 - m))%nat by lia.
    pose proof (varint_ref_cont m (S (7 - m)) 0 (v / 128) [] ([v mod 128] ++ rest)) as Hc.
    cbn [app length Z.of_nat] in Hc. cbn [app]. rewrite Hc by (try apply Z.div_pos; lia).
    cbn [varint_ref]. rewrite rd_app_exact by (rewrite length_enc_cont; lia).
    pose proof (Z.mod_pos_bound v 128 ltac:(lia)).
    destruct (Z.ltb_spec (v mod 128) 0x80); [|lia].
    rewrite (land_low 7) by lia. change (2 ^ 7) with 128. rewrite Z.mod_mod by lia.
    rewrite (lor_shiftl_add _ 7) by lia. rewrite (Z.mod_small (v / 128)).
    + f_equal; [|lia]. change (2 ^ 7) with 128. pose proof (Z.div_mod v 128). lia.
    + split; [apply Z.div_pos; lia|]. apply Z.div_lt_upper_bound; [lia|].
      rewrite Nat2Z.inj_succ, Z.pow_succ_r in Hv; lia.
Qed.

Lemma varintlen_loop_spec fuel i v : 0 <= v < 128 ^ Z.of_nat fuel -> (0 < fuel)%nat ->
  exists n, (0 < n)%nat /\ varintlen_loop fuel i v = i + Z.of_nat n - 1 /\
    v < 128 ^ Z.of_nat n /\ (n = 1%nat \/ 128 ^ (Z.of_nat n - 1) <= v).
Proof.
  revert i v. induction fuel as [|fuel IH]; intros i v Hv Hf; [lia|].
  cbn [varintlen_loop]. rewrite shiftr7.
  assert (Hp : 128 ^ Z.of_nat (S fuel) = 128 * 128 ^ Z.of_nat fuel)
    by (rewrite Nat2Z.inj_succ, Z.pow_succ_r; lia).
  pose proof (Z.div_mod v 128 ltac:(lia)). pose proof (Z.mod_pos_bound v 128 ltac:(lia)).
  destruct (Z.eqb_spec (v / 128) 0) as [E|E].
  - exists 1%nat. repeat split; lia.
  - assert (Hlt : v / 128 < 128 ^ Z.of_nat fuel) by (apply Z.div_lt_upper_bound; lia).
    assert (fuel <> O) by (intros ->; cbn in Hlt; pose proof (Z.div_pos v 128); lia).
    destruct (IH (i + 1) (v / 128)) as (n & Hn & -> & Hlt' & Hge);
      [split; [apply Z.div_pos|]; lia|lia|].
    exists (S n). rewrite Nat2Z.inj_succ, Z.pow_succ_r by lia. repeat split; try lia.
    right. replace (Z.succ (Z.of_nat n) - 1) with (Z.succ (Z.of_nat n - 1)) by lia.
    rewrite Z.pow_succ_r by lia. destruct Hge as [->|Hge]; [cbn|]; lia.
Qed.

(** Two lengths that both are least for [v] agree. *)
Lemma least_length_unique m n v :
  v < 128 ^ Z.of_nat n -> (m = 1%nat \/ 128 ^ (Z.of_nat m - 1) <= v) -> (0 < n)%nat -> (m <= n)%nat.
Proof.
  intros Hlt [->|Hge] Hn; [lia|]. destruct (Nat.le_gt_cases m n); [assumption|].
  assert (128 ^ Z.of_nat n <= 128 ^ (Z.of_nat m - 1)) by (apply Z.pow_le_mono_r; lia). lia.
Qed.

Lemma bytes_enc_cont m v : bytes (enc_cont m v).
Proof.
  revert v; induction m as [|m IH]; intros v; cbn; [constructor|]. apply Forall_app. split; [apply IH|].
  repeat constructor; unfold is_u8; pose proof (Z.mod_pos_bound v 128 ltac:(lia)); lia.
Qed.

Lemma bytes_encoding n v : bytes (encoding n v).
Proof.
  unfold encoding. destruct (n =? 9)%nat; apply Forall_app; (split; [apply bytes_enc_cont|]);
    repeat constructor; unfold is_u8;
    pose proof (Z.mod_pos_bound v 128 ltac:(lia)); pose proof (Z.mod_pos_bound v 256 ltac:(lia)); lia.
Qed.

Lemma length_encoding n v : (1 <= n <= 9)%nat -> length (encoding n v) = n.
Proof.
  intros H. unfold encoding. destruct (Nat.eqb_spec n 9) as [->|];
    rewrite length_app, length_enc_cont; cbn; lia.
Qed.

Lemma bytes_app p q : bytes (p ++ q) <-> bytes p /\ bytes q.
Proof. apply Forall_app. Qed.

Lemma bytes_skipn n p : bytes p -> bytes (skipn n p).
Proof. unfold bytes. rewrite !Forall_forall. intros H x Hx. apply H. rewrite <- (firstn_skipn n p). apply in_or_app; auto. Qed.

(** The bounds of the least length, for the nine-byte case too. *)
Lemma encodes_length n p v r : encodes n p v r -> v < 2 ^ 63 ->
  (1 <= n <= 9)%nat /\ v < 128 ^ Z.of_nat n /\ (n = 1%nat \/ 128 ^ (Z.of_nat n - 1) <= v).
Proof.
  intros (Hn & _ & Hlt & Hge) Hv. repeat split; try lia; try assumption.
  destruct (Nat.eqb_spec n 9) as [->|]; [|assumption]. change (128 ^ Z.of_nat 9) with (2 ^ 63). lia.
Qed.

(** ** Properties *)

(** The hand-unrolled decoder [sqlite3GetVarint] returns, for every buffer
    of bytes, exactly the value and the length that the byte-at-a-time reading
    of the format in the source's comment gives. *)
Theorem sqlite3GetVarint_correct p : bytes p -> sqlite3GetVarint p = varint_ref 8 0 p 0.
Proof. apply sqlite3GetVarint_ref. Qed.

Lemma sqlite3GetVarint_correct_witness :
  sqlite3GetVarint [0x81; 0xff; 0x03] = (32643, 3).
Proof.
  rewrite (sqlite3GetVarint_correct [0x81; 0xff; 0x03]); [reflexivity|].
  repeat constructor; unfold is_u8; lia.
Defined.

(** Writing any 64-bit value with [sqlite3PutVarint] into a buffer with nine
    bytes of room and reading it back with [sqlite3GetVarint] returns the value
    and the same length, between 1 and 9, and the bytes after the varint are
    left as they were. *)
Theorem varint_roundtrip p v : is_u64 v -> bytes p -> (9 <= length p)%nat ->
  let (p', n) := sqlite3PutVarint p v in
  sqlite3GetVarint p' = (v, n) /\ 1 <= n <= 9 /\ bytes p' /\ length p' = length p /\
  skipn (Z.to_nat n) p' = skipn (Z.to_nat n) p.
Proof.
  intros Hv Hb Hp. destruct (sqlite3PutVarint_encodes p v Hv Hp) as (n & Hn & -> & Hlt & Hge).
  pose proof (length_encoding n v Hn) as Hl.
  assert (Hb' : bytes (encoding n v ++ skipn n p))
    by (apply bytes_app; split; [apply bytes_encoding|now apply bytes_skipn]).
  rewrite Nat2Z.id. repeat split; try lia; try assumption.
  - rewrite (sqlite3GetVarint_ref _ Hb'). apply varint_ref_encoding; unfold is_u64 in Hv; lia.
  - rewrite length_app, Hl, length_skipn. lia.
  - rewrite skipn_app, Hl, Nat.sub_diag, skipn_all2 by lia. reflexivity.
Qed.

Lemma varint_roundtrip_witness :
  sqlite3GetVarint (fst (sqlite3PutVarint (repeat 0 10) 123456789012)) = (123456789012, 6).
Proof.
  pose proof (varint_roundtrip (repeat 0 10) 123456789012) as H.
  assert (H1 : is_u64 123456789012) by (unfold is_u64; lia).
  assert (H2 : bytes (repeat 0 10)) by (repeat constructor; unfold is_u8; lia).
  destruct (H H1 H2 ltac:(cbn; lia)) as [H3 _]. exact H3.
Defined.

(** [sqlite3VarintLen] is the number of bytes [sqlite3PutVarint] writes for
    every value below 2^63; from 2^63 on it says ten where nine are written. *)
Theorem varintlen_correct p v : is_u64 v -> (9 <= length p)%nat ->
  (v < 2 ^ 63 -> sqlite3VarintLen v = snd (sqlite3PutVarint p v)) /\
  (2 ^ 63 <= v -> sqlite3VarintLen v = 10 /\ snd (sqlite3PutVarint p v) = 9).
Proof.
  intros Hv Hp. destruct (sqlite3PutVarint_encodes p v Hv Hp) as (n & He).
  destruct (varintlen_loop_spec 10 1 v) as (m & Hm & Hlen & Hlt & Hge);
    [unfold is_u64 in Hv; change (128 ^ Z.of_nat 10) with (2 ^ 70); lia|lia|].
  unfold sqlite3VarintLen. rewrite Hlen. assert (E := He). destruct E as (Hn & -> & Hlt' & Hge'). cbn [snd].
  split; intros H63.
  - destruct (encodes_length _ _ _ _ He H63) as (_ & Hlt2 & _).
    pose proof (least_length_unique m n v Hlt2 Hge ltac:(lia)).
    pose proof (least_length_unique n m v Hlt Hge' ltac:(lia)). lia.
  - unfold is_u64 in Hv.
    assert (m <= 10)%nat by (apply (least_length_unique m 10 v); try assumption; change (128 ^ Z.of_nat 10) with (2 ^ 70); lia).
    assert (9 < m)%nat.
    { destruct (Nat.le_gt_cases m 9); [|assumption].
      assert (128 ^ Z.of_nat m <= 128 ^ 9) by (apply Z.pow_le_mono_r; lia).
      change (128 ^ 9) with (2 ^ 63) in *. lia. }
    destruct (Nat.eqb_spec n 9); [lia|].
    assert (128 ^ Z.of_nat n <= 128 ^ 8) by (apply Z.pow_le_mono_r; lia).
    change (128 ^ 8) with (2 ^ 56) in *. lia.
Qed.

Lemma varintlen_correct_witness :
  sqlite3VarintLen 300 = 2 /\ sqlite3VarintLen (2 ^ 63) = 10.
Proof.
  assert (H1 : is_u64 300) by (unfold is_u64; lia).
  assert (H2 : is_u64 (2 ^ 63)) by (unfold is_u64; lia).
  split.
  - rewrite (proj1 (varintlen_correct (repeat 0 9) 300 H1 ltac:(cbn; lia))); [reflexivity|lia].
  - exact (proj1 (proj2 (varintlen_correct (repeat 0 9) (2 ^ 63) H2 ltac:(cbn; lia)) ltac:(lia))).
Defined.

Lemma varint_ref_nonneg k acc p i : bytes p -> 0 <= acc -> 0 <= fst (varint_ref k acc p i).
Proof.
  intros Hp. revert acc i. induction k as [|k IH]; intros acc i Ha; cbn [varint_ref];
    pose proof (rd_u8 p i Hp) as Hb; unfold is_u8 in Hb.
  - cbn [fst]. apply Z.lor_nonneg. split; [apply Z.shiftl_nonneg|]; lia.
  - assert (0 <= Z.lor (Z.shiftl acc 7) (Z.land (rd p i) 127)).
    { apply Z.lor_nonneg. split; [apply Z.shiftl_nonneg|apply Z.land_nonneg]; lia. }
    destruct (rd p i <? 0x80); [assumption|]. apply IH. assumption.
Qed.

(** One more seven-bit group keeps a value below the next power of 128. *)
Lemma group_bound a b k : 0 <= a < 2 ^ k -> 0 <= k -> is_u8 b ->
  0 <= Z.lor (Z.shiftl a 7) (Z.land b 0x7f) < 2 ^ (k + 7).
Proof.
  unfold is_u8. intros Ha Hk Hb. rewrite (land_low 7), lor_shiftl_add by (try apply Z.mod_pos_bound; lia).
  pose proof (Z.mod_pos_bound b (2 ^ 7) ltac:(lia)). rewrite Z.pow_add_r by lia. nia.
Qed.

Lemma getVarint32_min v (n : Z) : 0 <= v ->
  (if negb (Z.land v 0xffffffff =? v) then (0xffffffff, n) else (u32 v, n)) =
  (Z.min v 0xffffffff, n).
Proof.
  intros Hv. rewrite (land_low 32) by lia. unfold u32.
  destruct (Z_lt_ge_dec v (2 ^ 32)).
  - rewrite Z.mod_small, Z.eqb_refl by lia. cbn. f_equal. lia.
  - pose proof (Z.mod_pos_bound v (2 ^ 32) ltac:(lia)).
    destruct (Z.eqb_spec (v mod 2 ^ 32) v); [lia|]. cbn. f_equal. lia.
Qed.

(** [getVarint32] reads the same number of bytes as [sqlite3GetVarint] and
    returns its value, or 0xffffffff when the value does not fit in 32 bits. *)
Theorem getVarint32_saturates p : bytes p ->
  getVarint32 p = let (v, n) := sqlite3GetVarint p in (Z.min v 0xffffffff, n).
Proof.
  intros Hp. unfold getVarint32, sqlite3GetVarint32.
  pose proof (rd_u8 p 0 Hp) as H0. pose proof (rd_u8 p 1 Hp) as H1. pose proof (rd_u8 p 2 Hp) as H2.
  pose proof (varint_ref_nonneg 8 0 p 0 Hp ltac:(lia)) as Hn.
  rewrite (sqlite3GetVarint_ref p Hp).
  destruct (varint_ref 8 0 p 0) as [v n] eqn:E. cbn [fst] in Hn. cbn [varint_ref Z.add] in E.
  assert (Hz : 0 <= 0 < 2 ^ 0) by lia.
  pose proof (group_bound 0 _ 0 Hz ltac:(lia) H0) as B0.
  pose proof (group_bound _ _ 7 B0 ltac:(lia) H1) as B1.
  pose proof (group_bound _ _ 14 B1 ltac:(lia) H2) as B2. cbn [Z.add Pos.add Pos.succ] in *.
  rewrite byte_ltb_0x80, !land_0x80 in * by assumption.
  rewrite !byte_ltb_0x80 in E by assumption.
  destruct (Z.testbit (rd p 0) 7) eqn:T0; cbn [negb] in *;
    [destruct (Z.testbit (rd p 1) 7) eqn:T1; cbn [negb] in *;
       [destruct (Z.testbit (rd p 2) 7) eqn:T2; cbn [negb] in *|]|];
    [now apply getVarint32_min|..]; apply pair_equal_spec in E; destruct E as [<- <-];
    (apply f_equal2; [|reflexivity]).
  all: rewrite Z.min_l by lia; clear - H0 H1 H2 T0 T1 T2 || clear - H0 H1 T0 T1 || clear - H0 T0.
  all: generalize dependent (rd p 0); try (generalize dependent (rd p 1));
    try (generalize dependent (rd p 2)); intros; last_byte; bitwise.
Qed.

Lemma getVarint32_saturates_witness :
  getVarint32 [0xff; 0xff; 0xff; 0xff; 0x7f] = (0xffffffff, 5).
Proof.
  rewrite (getVarint32_saturates [0xff; 0xff; 0xff; 0xff; 0x7f]);
    [reflexivity|repeat constructor; unfold is_u8; lia].
Defined.

(** Four-byte big-endian integers: what [sqlite3Put4byte] stores
    [sqlite3Get4byte] returns, and storing the value read leaves the buffer
    unchanged; so the two routines are mutually inverse. *)
Theorem fourbyte_roundtrip p v : is_u32 v -> bytes p -> (4 <= length p)%nat ->
  sqlite3Get4byte (sqlite3Put4byte p v) = v /\
  sqlite3Put4byte p (sqlite3Get4byte p) = p /\ is_u32 (sqlite3Get4byte p).
Proof.
  intros Hv Hb Hp. do 4 (destruct p as [|? p]; [cbn in Hp; lia|]).
  unfold bytes in Hb. rewrite !Forall_cons_iff in Hb. destruct Hb as (B0 & B1 & B2 & B3 & _).
  unfold sqlite3Get4byte, sqlite3Put4byte. buf_simpl.
  split; [|split].
  - destruct (u32_split v Hv) as (a & b & c & d & ? & ? & ? & ? & ->). clear Hv. bitwise.
  - repeat f_equal; bitwise.
  - match goal with |- is_u32 ?x => replace x with (u32 x) by bitwise end.
    unfold u32, is_u32. apply Z.mod_pos_bound. lia.
Qed.

Lemma fourbyte_roundtrip_witness :
  sqlite3Get4byte (sqlite3Put4byte [1; 2; 3; 4; 5] 0xdeadbeef) = 0xdeadbeef.
Proof.
  assert (H1 : is_u32 0xdeadbeef) by (unfold is_u32; lia).
  assert (H2 : bytes [1; 2; 3; 4; 5]) by (repeat constructor; unfold is_u8; lia).
  exact (proj1 (fourbyte_roundtrip [1; 2; 3; 4; 5] 0xdeadbeef H1 H2 ltac:(cbn; lia))).
Defined.
