(* ===== verification/Ctype.v ===== *)
(** * Ctype: SQLite's character tables and case-insensitive comparison

    Models the two tables of [global.c] in [src/api-core/src/db/sqlite3.c]
    ([sqlite3UpperToLower] with the comparison-result tables appended to it,
    [sqlite3CtypeMap]), the macros that consult them, and the string
    comparison and hashing routines of [util.c] built on them. *)

From Stdlib Require Import ZArith List Lia Bool.
Import ListNotations.
From S2P Require Import Prelude.
#[local] Open Scope Z_scope.

(** ** The tables *)

Definition sqlite3UpperToLower : list Z :=
  [  0;   1;   2;   3;   4;   5;   6;   7;   8;   9;  10;  11;  12;  13;  14;  15;
    16;  17;  18;  19;  20;  21;  22;  23;  24;  25;  26;  27;  28;  29;  30;  31;
    32;  33;  34;  35;  36;  37;  38;  39;  40;  41;  42;  43;  44;  45;  46;  47;
    48;  49;  50;  51;  52;  53;  54;  55;  56;  57;  58;  59;  60;  61;  62;  63;
    64;  97;  98;  99; 100; 101; 102; 103; 104; 105; 106; 107; 108; 109; 110; 111;
   112; 113; 114; 115; 116; 117; 118; 119; 120; 121; 122;  91;  92;  93;  94;  95;
    96;  97;  98;  99; 100; 101; 102; 103; 104; 105; 106; 107; 108; 109; 110; 111;
   112; 113; 114; 115; 116; 117; 118; 119; 120; 121; 122; 123; 124; 125; 126; 127;
   128; 129; 130; 131; 132; 133; 134; 135; 136; 137; 138; 139; 140; 141; 142; 143;
   144; 145; 146; 147; 148; 149; 150; 151; 152; 153; 154; 155; 156; 157; 158; 159;
   160; 161; 162; 163; 164; 165; 166; 167; 168; 169; 170; 171; 172; 173; 174; 175;
   176; 177; 178; 179; 180; 181; 182; 183; 184; 185; 186; 187; 188; 189; 190; 191;
   192; 193; 194; 195; 196; 197; 198; 199; 200; 201; 202; 203; 204; 205; 206; 207;
   208; 209; 210; 211; 212; 213; 214; 215; 216; 217; 218; 219; 220; 221; 222; 223;
   224; 225; 226; 227; 228; 229; 230; 231; 232; 233; 234; 235; 236; 237; 238; 239;
   240; 241; 242; 243; 244; 245; 246; 247; 248; 249; 250; 251; 252; 253; 254; 255;
   (* NE  EQ  GT  LE  LT  GE *)
     1;   0;   0;   1;   1;   0;
     0;   1;   0;   1;   0;   1;
     1;   0;   1;   0;   0;   1].

Definition sqlite3CtypeMap : list Z :=
  [0; 0; 0; 0; 0; 0; 0; 0;
   0; 1; 1; 1; 1; 1; 0; 0;
   0; 0; 0; 0; 0; 0; 0; 0;
   0; 0; 0; 0; 0; 0; 0; 0;
   1; 0; 128; 0; 64; 0; 0; 128;
   0; 0; 0; 0; 0; 0; 0; 0;
   12; 12; 12; 12; 12; 12; 12; 12;
   12; 12; 0; 0; 0; 0; 0; 0;
   0; 10; 10; 10; 10; 10; 10; 2;
   2; 2; 2; 2; 2; 2; 2; 2;
   2; 2; 2; 2; 2; 2; 2; 2;
   2; 2; 2; 128; 0; 0; 0; 64;
   128; 42; 42; 42; 42; 42; 42; 34;
   34; 34; 34; 34; 34; 34; 34; 34;
   34; 34; 34; 34; 34; 34; 34; 34;
   34; 34; 34; 0; 0; 0; 0; 0;
   64; 64; 64; 64; 64; 64; 64; 64;
   64; 64; 64; 64; 64; 64; 64; 64;
   64; 64; 64; 64; 64; 64; 64; 64;
   64; 64; 64; 64; 64; 64; 64; 64;
   64; 64; 64; 64; 64; 64; 64; 64;
   64; 64; 64; 64; 64; 64; 64; 64;
   64; 64; 64; 64; 64; 64; 64; 64;
   64; 64; 64; 64; 64; 64; 64; 64;
   64; 64; 64; 64; 64; 64; 64; 64;
   64; 64; 64; 64; 64; 64; 64; 64;
   64; 64; 64; 64; 64; 64; 64; 64;
   64; 64; 64; 64; 64; 64; 64; 64;
   64; 64; 64; 64; 64; 64; 64; 64;
   64; 64; 64; 64; 64; 64; 64; 64;
   64; 64; 64; 64; 64; 64; 64; 64;
   64; 64; 64; 64; 64; 64; 64; 64].

Definition OP_Ne : Z := 53.
Definition OP_Eq : Z := 54.
Definition OP_Gt : Z := 55.
Definition OP_Le : Z := 56.
Definition OP_Lt : Z := 57.
Definition OP_Ge : Z := 58.

(** The three pointers into the tail of [sqlite3UpperToLower]. *)
Definition sqlite3aLTb (op : Z) : Z := rd sqlite3UpperToLower (256 - OP_Ne + op).
Definition sqlite3aEQb (op : Z) : Z := rd sqlite3UpperToLower (256 + 6 - OP_Ne + op).
Definition sqlite3aGTb (op : Z) : Z := rd sqlite3UpperToLower (256 + 12 - OP_Ne + op).

(** ** The macros *)

Definition sqlite3Toupper (x : Z) : Z :=
  Z.land x (Z.lnot (Z.land (rd sqlite3CtypeMap (u8 x)) 0x20)).
Definition sqlite3Isspace (x : Z) : bool := negb (Z.land (rd sqlite3CtypeMap (u8 x)) 0x01 =? 0).
Definition sqlite3Isalnum (x : Z) : bool := negb (Z.land (rd sqlite3CtypeMap (u8 x)) 0x06 =? 0).
Definition sqlite3Isalpha (x : Z) : bool := negb (Z.land (rd sqlite3CtypeMap (u8 x)) 0x02 =? 0).
Definition sqlite3Isdigit (x : Z) : bool := negb (Z.land (rd sqlite3CtypeMap (u8 x)) 0x04 =? 0).
Definition sqlite3Isxdigit (x : Z) : bool := negb (Z.land (rd sqlite3CtypeMap (u8 x)) 0x08 =? 0).
Definition sqlite3Tolower (x : Z) : Z := rd sqlite3UpperToLower (u8 x).
Definition sqlite3Isquote (x : Z) : bool := negb (Z.land (rd sqlite3CtypeMap (u8 x)) 0x80 =? 0).
Definition IdChar (x : Z) : bool := negb (Z.land (rd sqlite3CtypeMap (u8 x)) 0x46 =? 0).

(** ** Comparison and hashing

    A C string is the list of its bytes without the terminator; the walk over
    [a] and [b] reads 0 past their ends. *)

(** The [for(;;)] loop of [sqlite3StrICmp]; the walk stops at the latest at
    the first terminator, so one round more than the shorter length is enough. *)
Fixpoint stricmp_loop (fuel : nat) (a b : list Z) : Z :=
  match fuel with
  | O => 0
  | S fuel' =>
      let c := rd a 0 in
      let x := rd b 0 in
      if c =? x then
        if c =? 0 then c else stricmp_loop fuel' (tl a) (tl b)
      else
        let c := rd sqlite3UpperToLower c - rd sqlite3UpperToLower x in
        if negb (c =? 0) then c else stricmp_loop fuel' (tl a) (tl b)
  end.

Definition sqlite3StrICmp (zLeft zRight : list Z) : Z :=
  stricmp_loop (S (Nat.min (length zLeft) (length zRight))) zLeft zRight.

(** [None] is the NULL pointer. *)
Definition sqlite3_stricmp (zLeft zRight : option (list Z)) : Z :=
  match zLeft, zRight with
  | None, Some _ => -1
  | None, None => 0
  | Some _, None => 1
  | Some l, Some r => sqlite3StrICmp l r
  end.

(** [while( N-- > 0 && *a!=0 && UpperToLower[*a]==UpperToLower[*b]){ a++; b++; }]:
    returns the final [N], [a] and [b]. *)
Fixpoint strnicmp_loop (fuel : nat) (N : Z) (a b : list Z) : Z * list Z * list Z :=
  match fuel with
  | O => (N, a, b)
  | S fuel' =>
      if (0 <? N) && negb (rd a 0 =? 0)
         && (rd sqlite3UpperToLower (rd a 0) =? rd sqlite3UpperToLower (rd b 0))
      then strnicmp_loop fuel' (N - 1) (tl a) (tl b)
      else (N - 1, a, b)
  end.

Definition sqlite3_strnicmp (zLeft zRight : option (list Z)) (N : Z) : Z :=
  match zLeft, zRight with
  | None, Some _ => -1
  | None, None => 0
  | Some _, None => 1
  | Some l, Some r =>
      let '(N, a, b) := strnicmp_loop (S (length l)) N l r in
      if N <? 0 then 0
      else rd sqlite3UpperToLower (rd a 0) - rd sqlite3UpperToLower (rd b 0)
  end.

Fixpoint strihash_loop (h : Z) (z : list Z) : Z :=
  match z with
  | [] => h
  | c :: z' => if c =? 0 then h else strihash_loop (u8 (h + rd sqlite3UpperToLower c)) z'
  end.

Definition sqlite3StrIHash (z : option (list Z)) : Z :=
  match z with None => 0 | Some z => strihash_loop 0 z end.

(** ** What the tables say *)

Definition in_range (lo hi x : Z) : bool := (lo <=? x) && (x <=? hi).
Definition lower (x : Z) : Z := if in_range 65 90 x then x + 32 else x.
Definition upper (x : Z) : Z := if in_range 97 122 x then x - 32 else x.
Definition is_alpha (x : Z) : bool := in_range 65 90 x || in_range 97 122 x.

Lemma ctype_table x : is_u8 x ->
  sqlite3Isspace x = in_range 9 13 x || (x =? 32) /\
  sqlite3Isdigit x = in_range 48 57 x /\
  sqlite3Isxdigit x = in_range 48 57 x || in_range 65 70 x || in_range 97 102 x /\
  sqlite3Isalpha x = is_alpha x /\
  sqlite3Isalnum x = is_alpha x || in_range 48 57 x /\
  IdChar x = is_alpha x || in_range 48 57 x || (x =? 36) || (x =? 95) || (128 <=? x) /\
  sqlite3Isquote x = (x =? 34) || (x =? 39) || (x =? 91) || (x =? 96) /\
  sqlite3Tolower x = lower x /\ sqlite3Toupper x = upper x.
Proof.
  intros Hx.
  repeat split;
    match goal with
    | |- ?l = ?r :> bool =>
        apply eqb_prop; revert x Hx;
        lazymatch goal with |- forall x, _ -> @?f x = true => apply (byte_forall f) end
    | |- ?l = ?r :> Z =>
        apply Z.eqb_eq; revert x Hx;
        lazymatch goal with |- forall x, _ -> @?f x = true => apply (byte_forall f) end
    end; vm_compute; reflexivity.
Qed.

Lemma ctype_case x : is_u8 x -> sqlite3Tolower x = lower x /\ sqlite3Toupper x = upper x.
Proof. intros Hx. repeat apply (ctype_table x Hx). Qed.

(** For every byte the character macros answer what their names say:
    the classes are the ASCII ones, identifier characters are the
    alphanumerics, [$], [_] and all bytes from 0x80 on, the quotes are the
    four that SQL accepts, and case mapping touches the ASCII letters only. *)
Theorem ctype_correct x : is_u8 x ->
  sqlite3Isspace x = in_range 9 13 x || (x =? 32) /\
  sqlite3Isdigit x = in_range 48 57 x /\
  sqlite3Isxdigit x = in_range 48 57 x || in_range 65 70 x || in_range 97 102 x /\
  sqlite3Isalpha x = is_alpha x /\
  sqlite3Isalnum x = is_alpha x || in_range 48 57 x /\
  IdChar x = is_alpha x || in_range 48 57 x || (x =? 36) || (x =? 95) || (128 <=? x) /\
  sqlite3Isquote x = (x =? 34) || (x =? 39) || (x =? 91) || (x =? 96) /\
  sqlite3Tolower x = lower x /\ sqlite3Toupper x = upper x.
Proof. exact (ctype_table x). Qed.

Lemma ctype_correct_witness : sqlite3Isdigit 53 = true /\ sqlite3Tolower 65 = 97.
Proof.
  pose proof (ctype_correct 53 ltac:(unfold is_u8; lia)) as (_ & H & _).
  pose proof (ctype_correct 65 ltac:(unfold is_u8; lia)) as (_ & _ & _ & _ & _ & _ & _ & H' & _).
  split; [exact H | exact H'].
Defined.

(** The comparison opcodes and the relation each one tests. *)
Inductive cmp_op := NE | EQ | GT | LE | LT | GE.
Definition opcode (o : cmp_op) : Z :=
  match o with NE => OP_Ne | EQ => OP_Eq | GT => OP_Gt | LE => OP_Le | LT => OP_Lt | GE => OP_Ge end.
Definition relation (o : cmp_op) (c : Z) : bool :=
  match o with
  | NE => negb (c =? 0) | EQ => c =? 0 | GT => 0 <? c
  | LE => c <=? 0 | LT => c <? 0 | GE => 0 <=? c
  end.

(** The choice that the comparison opcodes make on the result [c] of the
    value comparison. *)
Definition compare_result (op c : Z) : Z :=
  if c <? 0 then sqlite3aLTb op else if c =? 0 then sqlite3aEQb op else sqlite3aGTb op.

Lemma compare_result_correct o c : compare_result (opcode o) c = Z.b2z (relation o c).
Proof.
  unfold compare_result.
  destruct (Z.ltb_spec c 0), (Z.eqb_spec c 0); try lia; destruct o; cbn [opcode relation];
    repeat match goal with |- context [?a <? ?b] => destruct (Z.ltb_spec a b); try lia end;
    repeat match goal with |- context [?a <=? ?b] => destruct (Z.leb_spec a b); try lia end;
    repeat match goal with |- context [?a =? 0] => destruct (Z.eqb_spec a 0); try lia end;
    reflexivity.
Qed.

(** ** Case-insensitive comparison *)

Lemma low_table x : is_u8 x -> rd sqlite3UpperToLower x = lower x.
Proof.
  intros Hx. apply Z.eqb_eq. revert x Hx.
  apply (byte_forall (fun x => rd sqlite3UpperToLower x =? lower x)). vm_compute. reflexivity.
Qed.

Lemma lower_pos x : is_u8 x -> x <> 0 -> 0 < lower x.
Proof. unfold lower, is_u8, in_range. destruct ((65 <=? x) && (x <=? 90)); lia. Qed.

Lemma stricmp_loop_lex fuel a b : cstring a -> cstring b ->
  (Nat.min (length a) (length b) < fuel)%nat ->
  (stricmp_loop fuel a b ?= 0) = lex (map lower a) (map lower b).
Proof.
  revert a b. induction fuel as [|fuel IH]; intros a b Ha Hb Hf; [lia|].
  destruct a as [|x a], b as [|y b]; cbn [stricmp_loop map lex].
  - reflexivity.
  - apply Forall_cons_iff in Hb as [[Hy Hy0] Hb]. change (rd [] 0) with 0. change (rd (y :: b) 0) with y.
    destruct (Z.eqb_spec 0 y); [lia|]. rewrite (low_table y Hy), (low_table 0) by (unfold is_u8; lia).
    change (lower 0) with 0. pose proof (lower_pos y Hy Hy0).
    destruct (Z.eqb_spec (0 - lower y) 0); [lia|]. cbn [negb]. apply Z.compare_lt_iff. lia.
  - apply Forall_cons_iff in Ha as [[Hx Hx0] Ha]. change (rd [] 0) with 0. change (rd (x :: a) 0) with x.
    destruct (Z.eqb_spec x 0); [lia|]. rewrite (low_table x Hx), (low_table 0) by (unfold is_u8; lia).
    change (lower 0) with 0. pose proof (lower_pos x Hx Hx0).
    destruct (Z.eqb_spec (lower x - 0) 0); [lia|]. cbn [negb]. apply Z.compare_gt_iff. lia.
  - apply Forall_cons_iff in Ha as [[Hx Hx0] Ha]. apply Forall_cons_iff in Hb as [[Hy Hy0] Hb].
    change (rd (x :: a) 0) with x. change (rd (y :: b) 0) with y. cbn [tl length Nat.min] in *.
    rewrite !low_table by assumption.
    destruct (Z.eqb_spec x y) as [->|Hne].
    + destruct (Z.eqb_spec y 0); [lia|]. rewrite Z.compare_refl. apply IH; auto; lia.
    + destruct (Z.eqb_spec (lower x - lower y) 0) as [E|E]; cbn [negb].
      * replace (lower y) with (lower x) by lia. rewrite Z.compare_refl. apply IH; auto; lia.
      * destruct (Z.compare_spec (lower x) (lower y)); [lia|apply Z.compare_lt_iff|apply Z.compare_gt_iff]; lia.
Qed.

Lemma stricmp_zero a b : cstring a -> cstring b -> sqlite3StrICmp a b = 0 <-> map lower a = map lower b.
Proof.
  intros Ha Hb. assert (H : (sqlite3StrICmp a b ?= 0) = lex (map lower a) (map lower b))
    by (apply stricmp_loop_lex; auto; lia).
  rewrite <- lex_eq, <- H. symmetry. apply Z.compare_eq_iff.
Qed.

(** [sqlite3StrICmp] orders two C strings as the lexicographic order of
    their lower-case forms does; in particular it returns 0 exactly when the
    strings are equal up to ASCII case. *)
Theorem sqlite3StrICmp_correct a b : cstring a -> cstring b ->
  (sqlite3StrICmp a b ?= 0) = lex (map lower a) (map lower b) /\
  (sqlite3StrICmp a b = 0 <-> map lower a = map lower b).
Proof.
  intros Ha Hb. split; [apply stricmp_loop_lex; auto; lia|now apply stricmp_zero].
Qed.

Lemma sqlite3StrICmp_correct_witness :
  sqlite3StrICmp [82; 97; 100] [114; 65; 68] = 0.
Proof.
  assert (H1 : cstring [82; 97; 100]) by (repeat constructor; unfold is_u8; lia).
  assert (H2 : cstring [114; 65; 68]) by (repeat constructor; unfold is_u8; lia).
  apply (proj2 (sqlite3StrICmp_correct _ _ H1 H2)). reflexivity.
Defined.

Lemma strihash_lower h z : cstring z ->
  strihash_loop h z = fold_left (fun h c => u8 (h + c)) (map lower z) h.
Proof.
  intros Hz. revert h. induction Hz as [|c z [Hc H0] _ IH]; intros h; cbn [strihash_loop map fold_left]; [reflexivity|].
  destruct (Z.eqb_spec c 0); [lia|]. rewrite low_table by assumption. apply IH.
Qed.

(** Strings that compare equal have the same hash. *)
Lemma sqlite3StrIHash_compat a b : cstring a -> cstring b -> sqlite3StrICmp a b = 0 ->
  sqlite3StrIHash (Some a) = sqlite3StrIHash (Some b).
Proof.
  intros Ha Hb H. assert (E : map lower a = map lower b).
  { apply lex_eq. rewrite <- (stricmp_loop_lex (S (Nat.min (length a) (length b)))) by (auto; lia).
    apply Z.compare_eq_iff. exact H. }
  cbn [sqlite3StrIHash]. rewrite !strihash_lower by assumption. now rewrite E.
Qed.

Lemma strnicmp_loop_lex fuel N a b : cstring a -> cstring b -> (length a < fuel)%nat ->
  let '(N', a', b') := strnicmp_loop fuel N a b in
  ((if N' <? 0 then 0 else rd sqlite3UpperToLower (rd a' 0) - rd sqlite3UpperToLower (rd b' 0)) ?= 0) =
  lex (firstn (Z.to_nat N) (map lower a)) (firstn (Z.to_nat N) (map lower b)).
Proof.
  revert N a b. induction fuel as [|fuel IH]; intros N a b Ha Hb Hf; [lia|].
  cbn [strnicmp_loop]. destruct (Z.ltb_spec 0 N) as [HN|HN]; cbn [andb].
  2:{ replace (Z.to_nat N) with O by lia. cbn. destruct (Z.ltb_spec (N - 1) 0); [reflexivity|lia]. }
  replace (Z.to_nat N) with (S (Z.to_nat (N - 1))) by lia.
  destruct a as [|x a].
  - change (rd [] 0) with 0. cbn [Z.eqb negb andb map firstn].
    destruct (Z.ltb_spec (N - 1) 0); [lia|]. change (rd [] 0) with 0.
    rewrite (low_table 0) by (unfold is_u8; lia). change (lower 0) with 0.
    destruct b as [|y b].
    + change (rd [] 0) with 0. rewrite (low_table 0) by (unfold is_u8; lia). reflexivity.
    + apply Forall_cons_iff in Hb as [[Hy Hy0] Hb]. change (rd (y :: b) 0) with y.
      rewrite low_table by assumption. pose proof (lower_pos y Hy Hy0). cbn. apply Z.compare_lt_iff. lia.
  - apply Forall_cons_iff in Ha as [[Hx Hx0] Ha]. change (rd (x :: a) 0) with x.
    destruct (Z.eqb_spec x 0); [lia|]. cbn [negb andb]. rewrite (low_table x Hx).
    assert (Hy : is_u8 (rd b 0)) by (apply rd_u8, cstring_bytes, Hb). rewrite (low_table _ Hy).
    destruct (Z.eqb_spec (lower x) (lower (rd b 0))) as [E|E].
    + destruct b as [|y b]; [exfalso; change (rd [] 0) with 0 in E; pose proof (lower_pos x Hx Hx0);
        change (lower 0) with 0 in E; lia|].
      apply Forall_cons_iff in Hb as [_ Hb]. change (rd (y :: b) 0) with y in *. cbn [tl map firstn lex].
      rewrite E, Z.compare_refl. apply IH; auto. cbn in Hf. lia.
    + destruct (Z.ltb_spec (N - 1) 0); [lia|]. change (rd (x :: a) 0) with x.
      rewrite (low_table x Hx), (low_table _ Hy).
      destruct b as [|y b]; cbn [map firstn lex].
      * change (rd [] 0) with 0 in *. change (lower 0) with 0. pose proof (lower_pos x Hx Hx0).
        apply Z.compare_gt_iff. lia.
      * change (rd (y :: b) 0) with y in *.
        destruct (Z.compare_spec (lower x) (lower y)); [lia|apply Z.compare_lt_iff|apply Z.compare_gt_iff]; lia.
Qed.

(** [sqlite3_strnicmp] compares the first [N] characters in the same order. *)
Lemma sqlite3_strnicmp_correct a b N : cstring a -> cstring b ->
  (sqlite3_strnicmp (Some a) (Some b) N ?= 0) =
  lex (firstn (Z.to_nat N) (map lower a)) (firstn (Z.to_nat N) (map lower b)).
Proof.
  intros Ha Hb. unfold sqlite3_strnicmp.
  pose proof (strnicmp_loop_lex (S (length a)) N a b Ha Hb ltac:(lia)) as H.
  destruct (strnicmp_loop _ _ _ _) as [[N' a'] b']. exact H.
Qed.
