(* ===== verification/IntArith.v ===== *)
(** * IntArith: overflow-checked 64-bit arithmetic and logarithmic estimates

    Models the arithmetic helpers of [util.c] in
    [src/api-core/src/db/sqlite3.c]: [sqlite3AddInt64], [sqlite3SubInt64],
    [sqlite3MulInt64] in both of their compile-time branches, [sqlite3AbsInt32]
    and the [LogEst] functions.  An in-out parameter [i64 *pA] is an argument
    and a component of the result: [(rc, *pA)]. *)

From Stdlib Require Import ZArith List Lia Bool Zquot.
Import ListNotations.
From S2P Require Import Prelude.
#[local] Open Scope Z_scope.

Definition LARGEST_INT64 : Z := 9223372036854775807.
Definition SMALLEST_INT64 : Z := -1 - LARGEST_INT64.

Module Portable.
(** The branch for compilers without the overflow builtins.  All
    intermediate values are 64-bit signed; each is written with its
    wrap-around [i64]. *)
Definition sqlite3AddInt64 (pA iB : Z) : Z * Z :=
  let iA := pA in
  if 0 <=? iB then
    if (0 <? iA) && (i64 (LARGEST_INT64 - iA) <? iB) then (1, pA) else (0, i64 (pA + iB))
  else
    if (iA <? 0) && (i64 (iB + 1) <? i64 (- i64 (iA + LARGEST_INT64))) then (1, pA)
    else (0, i64 (pA + iB)).

Definition sqlite3SubInt64 (pA iB : Z) : Z * Z :=
  if iB =? SMALLEST_INT64 then
    if 0 <=? pA then (1, pA) else (0, i64 (pA - iB))
  else sqlite3AddInt64 pA (i64 (- iB)).

(** C division truncates: [Z.quot]. *)
Definition sqlite3MulInt64 (pA iB : Z) : Z * Z :=
  let iA := pA in
  if 0 <? iB then
    if Z.quot LARGEST_INT64 iB <? iA then (1, pA)
    else if iA <? Z.quot SMALLEST_INT64 iB then (1, pA)
    else (0, i64 (iA * iB))
  else if iB <? 0 then
    if 0 <? iA then
      if iB <? Z.quot SMALLEST_INT64 iA then (1, pA) else (0, i64 (iA * iB))
    else if iA <? 0 then
      if iB =? SMALLEST_INT64 then (1, pA)
      else if iA =? SMALLEST_INT64 then (1, pA)
      else if Z.quot LARGEST_INT64 (i64 (- iB)) <? i64 (- iA) then (1, pA)
      else (0, i64 (iA * iB))
    else (0, i64 (iA * iB))
  else (0, i64 (iA * iB)).
End Portable.

Module Builtin.
(** The branch for GCC: [__builtin_add_overflow] and its siblings store the
    wrapped result at [pA] and return whether it wrapped. *)
Definition overflow_op (exact : Z) : Z * Z :=
  ((if i64 exact =? exact then 0 else 1), i64 exact).
Definition sqlite3AddInt64 (pA iB : Z) : Z * Z := overflow_op (pA + iB).
Definition sqlite3SubInt64 (pA iB : Z) : Z * Z := overflow_op (pA - iB).
Definition sqlite3MulInt64 (pA iB : Z) : Z * Z := overflow_op (pA * iB).
End Builtin.

Definition sqlite3AbsInt32 (x : Z) : Z :=
  if 0 <=? x then x
  else if x =? i32 0x80000000 then 0x7fffffff
  else i32 (- x).

(** ** LogEst: [10*log2(x)] in 16 bits *)

Definition logest_add_table : list Z :=
  [10; 10; 9; 9; 8; 8; 7; 7; 7; 6; 6; 6; 5; 5; 5; 4; 4; 4; 4; 3; 3; 3; 3; 3; 3;
   2; 2; 2; 2; 2; 2; 2].

Definition sqlite3LogEstAdd (a b : Z) : Z :=
  if b <=? a then
    if b + 49 <? a then a
    else if b + 31 <? a then i16 (a + 1)
    else i16 (a + rd logest_add_table (a - b))
  else
    if a + 49 <? b then b
    else if a + 31 <? b then i16 (b + 1)
    else i16 (b + rd logest_add_table (b - a)).

Definition logest_table : list Z := [0; 2; 3; 5; 6; 7; 8; 9].

(** [while( x<8 ){ y -= 10; x <<= 1; }] *)
Fixpoint logest_up (fuel : nat) (x y : Z) : Z * Z :=
  match fuel with
  | O => (x, y)
  | S fuel' => if x <? 8 then logest_up fuel' (u64 (Z.shiftl x 1)) (i16 (y - 10)) else (x, y)
  end.

(** [while( x>255 ){ y += 40; x >>= 4; }] *)
Fixpoint logest_down4 (fuel : nat) (x y : Z) : Z * Z :=
  match fuel with
  | O => (x, y)
  | S fuel' => if 255 <? x then logest_down4 fuel' (Z.shiftr x 4) (i16 (y + 40)) else (x, y)
  end.

(** [while( x>15 ){ y += 10; x >>= 1; }] *)
Fixpoint logest_down1 (fuel : nat) (x y : Z) : Z * Z :=
  match fuel with
  | O => (x, y)
  | S fuel' => if 15 <? x then logest_down1 fuel' (Z.shiftr x 1) (i16 (y + 10)) else (x, y)
  end.

(** A 64-bit [x] is at most 255 after 14 shifts by 4, and at most 15 after
    four more by 1; a positive [x] reaches 8 in at most two doublings. *)
Definition sqlite3LogEst (x : Z) : Z :=
  let y := 40 in
  if x <? 8 then
    if x <? 2 then 0
    else
      let '(x, y) := logest_up 2 x y in
      i16 (rd logest_table (Z.land x 7) + y - 10)
  else
    let '(x, y) := logest_down4 14 x y in
    let '(x, y) := logest_down1 4 x y in
    i16 (rd logest_table (Z.land x 7) + y - 10).

(** The GCC branch: [__builtin_clzll(x)] is the number of leading zeros. *)
Definition sqlite3LogEst_builtin (x : Z) : Z :=
  let y := 40 in
  if x <? 8 then
    if x <? 2 then 0
    else
      let '(x, y) := logest_up 2 x y in
      i16 (rd logest_table (Z.land x 7) + y - 10)
  else
    let i := 60 - (63 - Z.log2 x) in
    let y := i16 (y + i * 10) in
    let x := Z.shiftr x i in
    i16 (rd logest_table (Z.land x 7) + y - 10).

(** [x] is a non-negative [LogEst]. *)
Definition sqlite3LogEstToInt (x : Z) : Z :=
  let n := u64 (Z.rem x 10) in
  let x := Z.quot x 10 in
  let n := if 5 <=? n then n - 2 else if 1 <=? n then n - 1 else n in
  if 60 <? x then LARGEST_INT64
  else if 3 <=? x then u64 (Z.shiftl (n + 8) (x - 3)) else Z.shiftr (n + 8) (3 - x).

(** ** Properties *)

Lemma i64_id x : is_i64 x -> i64 x = x.
Proof. unfold is_i64, i64. intros. rewrite Z.mod_small; lia. Qed.

Lemma i64_range x : is_i64 (i64 x).
Proof. unfold is_i64, i64. pose proof (Z.mod_pos_bound (x + 2 ^ 63) (2 ^ 64) ltac:(lia)). lia. Qed.

Lemma i64_fits x : (i64 x =? x) = (SMALLEST_INT64 <=? x) && (x <=? LARGEST_INT64).
Proof.
  destruct (Z.eqb_spec (i64 x) x) as [E|E].
  - pose proof (i64_range x) as H. rewrite E in H. unfold is_i64 in H. symmetry.
    apply andb_true_iff. unfold SMALLEST_INT64, LARGEST_INT64. lia.
  - symmetry. apply andb_false_iff. unfold SMALLEST_INT64, LARGEST_INT64.
    destruct (Z_lt_ge_dec x (- 2 ^ 63)); [left; lia|].
    destruct (Z_lt_ge_dec x (2 ^ 63)); [|right; lia]. exfalso. apply E. apply i64_id. unfold is_i64. lia.
Qed.

(** What the comment above the three functions promises: the exact result if
    it is representable, and otherwise [*pA] unchanged with return code 1. *)
Definition checked (pA exact : Z) : Z * Z :=
  if (SMALLEST_INT64 <=? exact) && (exact <=? LARGEST_INT64) then (0, exact) else (1, pA).

Ltac ltb_cases :=
  repeat match goal with
  | |- context [?a <=? ?b] => destruct (Z.leb_spec a b)
  | |- context [?a <? ?b] => destruct (Z.ltb_spec a b)
  | |- context [?a =? ?b] => destruct (Z.eqb_spec a b)
  end.

Lemma add_checked a b : is_i64 a -> is_i64 b -> Portable.sqlite3AddInt64 a b = checked a (a + b).
Proof.
  unfold is_i64, Portable.sqlite3AddInt64, checked. intros Ha Hb.
  assert (HL : LARGEST_INT64 = 2 ^ 63 - 1) by reflexivity.
  assert (HS : SMALLEST_INT64 = - 2 ^ 63) by reflexivity. rewrite HL, HS in *.
  assert (HI : forall x, - 2 ^ 63 <= x < 2 ^ 63 -> i64 x = x) by exact i64_id.
  destruct (Z.leb_spec 0 b).
  - destruct (Z.ltb_spec 0 a); cbn [andb].
    + rewrite (HI (2 ^ 63 - 1 - a)) by lia. ltb_cases; cbn [andb]; try lia; try reflexivity; rewrite HI by lia; reflexivity.
    + rewrite HI by lia. ltb_cases; cbn [andb]; try lia; reflexivity.
  - destruct (Z.ltb_spec a 0); cbn [andb].
    + rewrite (HI (b + 1)), (HI (a + (2 ^ 63 - 1))), (HI (- (a + (2 ^ 63 - 1)))) by lia.
      ltb_cases; cbn [andb]; try lia; try reflexivity; rewrite HI by lia; reflexivity.
    + rewrite HI by lia. ltb_cases; cbn [andb]; try lia; reflexivity.
Qed.

Lemma sub_checked a b : is_i64 a -> is_i64 b -> Portable.sqlite3SubInt64 a b = checked a (a - b).
Proof.
  intros Ha Hb. unfold Portable.sqlite3SubInt64. unfold is_i64 in *.
  assert (HS : SMALLEST_INT64 = - 2 ^ 63) by reflexivity.
  destruct (Z.eqb_spec b SMALLEST_INT64) as [->|Hne].
  - unfold checked. rewrite HS. replace LARGEST_INT64 with (2 ^ 63 - 1) by reflexivity.
    destruct (Z.leb_spec 0 a); ltb_cases; cbn [andb]; try lia; try reflexivity.
    rewrite i64_id by (unfold is_i64; lia). reflexivity.
  - rewrite HS in Hne. rewrite (i64_id (- b)) by (unfold is_i64; lia).
    rewrite add_checked by (unfold is_i64; lia). f_equal; lia.
Qed.

(** Truncating division of a bound by a positive number, as a test. *)
Lemma quot_upper m b a : 0 <= m -> 0 < b -> (Z.quot m b <? a) = (m <? a * b).
Proof.
  intros Hm Hb. rewrite Z.quot_div_nonneg by lia.
  apply eq_true_iff_eq. rewrite !Z.ltb_lt. split; intros H.
  - apply Z.lt_nge. intros H'. rewrite Z.mul_comm in H'.
    apply (Z.div_le_lower_bound m b a) in H'; lia.
  - apply Z.lt_nge. intros H'. pose proof (Z.mul_div_le m b Hb). nia.
Qed.

Lemma quot_lower m b a : 0 <= m -> 0 < b -> (a <? Z.quot (- m) b) = (a * b <? - m).
Proof.
  intros Hm Hb. rewrite Z.quot_opp_l by lia.
  replace (a <? - Z.quot m b) with (Z.quot m b <? - a) by (apply eq_true_iff_eq; rewrite !Z.ltb_lt; lia).
  rewrite quot_upper by lia. apply eq_true_iff_eq; rewrite !Z.ltb_lt; lia.
Qed.

Lemma mul_checked a b : is_i64 a -> is_i64 b -> Portable.sqlite3MulInt64 a b = checked a (a * b).
Proof.
  intros Ha Hb. unfold Portable.sqlite3MulInt64, checked. unfold is_i64 in *.
  assert (HL : LARGEST_INT64 = 2 ^ 63 - 1) by reflexivity.
  assert (HS : SMALLEST_INT64 = - 2 ^ 63) by reflexivity. rewrite HL, HS in *.
  assert (HI : forall x, - 2 ^ 63 <= x < 2 ^ 63 -> i64 x = x) by exact i64_id.
  destruct (Z.ltb_spec 0 b); [|destruct (Z.ltb_spec b 0)].
  - rewrite quot_upper, quot_lower by lia.
    ltb_cases; cbn [andb]; try lia; try reflexivity. now rewrite HI by lia.
  - destruct (Z.ltb_spec 0 a); [|destruct (Z.ltb_spec a 0)].
    + rewrite quot_lower by lia. rewrite (Z.mul_comm b a).
      ltb_cases; cbn [andb]; try nia; try reflexivity. now rewrite HI by lia.
    + destruct (Z.eqb_spec b (- 2 ^ 63)); [|destruct (Z.eqb_spec a (- 2 ^ 63))].
      * ltb_cases; cbn [andb]; try nia; reflexivity.
      * ltb_cases; cbn [andb]; try nia; reflexivity.
      * rewrite (HI (- b)), (HI (- a)), quot_upper by lia. replace (- a * - b) with (a * b) by lia.
        ltb_cases; cbn [andb]; try nia; try reflexivity. now rewrite HI by nia.
    + replace a with 0 by lia. reflexivity.
  - replace b with 0 by lia. rewrite Z.mul_0_r. reflexivity.
Qed.

(** The portable branches of the three checked operations do what their
    comment promises for all 64-bit arguments: the exact result and 0, or
    [*pA] unchanged and 1 when the result does not fit. *)
Theorem portable_arith_correct a b : is_i64 a -> is_i64 b ->
  Portable.sqlite3AddInt64 a b = checked a (a + b) /\
  Portable.sqlite3SubInt64 a b = checked a (a - b) /\
  Portable.sqlite3MulInt64 a b = checked a (a * b).
Proof. intros Ha Hb. auto using add_checked, sub_checked, mul_checked. Qed.

Lemma portable_arith_correct_witness :
  Portable.sqlite3AddInt64 LARGEST_INT64 1 = (1, LARGEST_INT64) /\
  Portable.sqlite3MulInt64 (-4) 5 = (0, -20).
Proof.
  assert (H1 : is_i64 LARGEST_INT64) by (unfold is_i64, LARGEST_INT64; lia).
  assert (H2 : is_i64 1) by (unfold is_i64; lia).
  assert (H3 : is_i64 (-4)) by (unfold is_i64; lia).
  assert (H4 : is_i64 5) by (unfold is_i64; lia).
  split.
  - exact (proj1 (portable_arith_correct _ _ H1 H2)).
  - exact (proj2 (proj2 (portable_arith_correct _ _ H3 H4))).
Defined.

(** The two compile-time branches always return the same code, and store
    the same value when it is 0; on overflow the GCC branch stores the wrapped
    result, which the portable one and the comment never do. *)
Theorem builtin_vs_portable a b : is_i64 a -> is_i64 b ->
  forall pf bf exact,
    In (pf, bf, exact)
      [(Portable.sqlite3AddInt64, Builtin.sqlite3AddInt64, a + b);
       (Portable.sqlite3SubInt64, Builtin.sqlite3SubInt64, a - b);
       (Portable.sqlite3MulInt64, Builtin.sqlite3MulInt64, a * b)] ->
    fst (pf a b) = fst (bf a b) /\
    (fst (pf a b) = 0 -> snd (pf a b) = snd (bf a b)) /\
    (fst (pf a b) = 1 -> snd (pf a b) = a /\ snd (bf a b) = i64 exact).
Proof.
  intros Ha Hb pf bf exact Hin. cbn [In] in Hin.
  assert (Hg : forall e, fst (checked a e) = fst (Builtin.overflow_op e) /\
    (fst (checked a e) = 0 -> snd (checked a e) = snd (Builtin.overflow_op e)) /\
    (fst (checked a e) = 1 -> snd (checked a e) = a /\ snd (Builtin.overflow_op e) = i64 e)).
  { intros e. unfold checked, Builtin.overflow_op. rewrite <- i64_fits.
    destruct (Z.eqb_spec (i64 e) e) as [E|E]; cbn; repeat split; try congruence; lia. }
  destruct Hin as [E|[E|[E|[]]]]; injection E as <- <- <-.
  - rewrite add_checked by assumption. apply Hg.
  - rewrite sub_checked by assumption. apply Hg.
  - rewrite mul_checked by assumption. apply Hg.
Qed.

Lemma builtin_vs_portable_witness :
  snd (Portable.sqlite3AddInt64 LARGEST_INT64 1) = LARGEST_INT64 /\
  snd (Builtin.sqlite3AddInt64 LARGEST_INT64 1) = SMALLEST_INT64.
Proof.
  assert (H1 : is_i64 LARGEST_INT64) by (unfold is_i64, LARGEST_INT64; lia).
  assert (H2 : is_i64 1) by (unfold is_i64; lia).
  destruct (builtin_vs_portable _ _ H1 H2 _ _ _ (or_introl eq_refl)) as (_ & _ & H).
  exact (H eq_refl).
Defined.

Lemma sqlite3AbsInt32_correct x : is_i32 x ->
  sqlite3AbsInt32 x = Z.min (Z.abs x) 0x7fffffff.
Proof.
  unfold is_i32, sqlite3AbsInt32. intros H. change (i32 0x80000000) with (- 2 ^ 31).
  ltb_cases; try lia. unfold i32. rewrite Z.mod_small; lia.
Qed.

(** ** LogEst *)

Lemma i16_id x : - 2 ^ 15 <= x < 2 ^ 15 -> i16 x = x.
Proof. unfold i16. intros. rewrite Z.mod_small; lia. Qed.

Lemma shiftr_bound x a lo hi : 0 <= a -> lo * 2 ^ a <= x < hi * 2 ^ a -> lo <= Z.shiftr x a < hi.
Proof.
  intros Ha H. rewrite Z.shiftr_div_pow2 by lia. pose proof (Z.pow_pos_nonneg 2 a).
  split; [apply Z.div_le_lower_bound|apply Z.div_lt_upper_bound]; lia.
Qed.

Lemma logest_down4_spec fuel x y : 8 <= x < 2 ^ (4 * Z.of_nat fuel + 8) ->
  0 <= y -> y + 40 * Z.of_nat fuel < 2 ^ 15 ->
  exists t, 0 <= t <= Z.of_nat fuel /\ logest_down4 fuel x y = (Z.shiftr x (4 * t), y + 40 * t) /\
    8 <= Z.shiftr x (4 * t) < 256.
Proof.
  revert x y. induction fuel as [|fuel IH]; intros x y Hx Hy Hb.
  - exists 0. cbn [logest_down4]. change (4 * 0) with 0. rewrite Z.shiftr_0_r.
    change (2 ^ (4 * Z.of_nat 0 + 8)) with 256 in Hx. repeat split; try lia. f_equal; lia.
  - cbn [logest_down4]. destruct (Z.ltb_spec 255 x).
    + assert (Hs : 16 <= Z.shiftr x 4 < 2 ^ (4 * Z.of_nat fuel + 8)).
      { apply shiftr_bound; [lia|]. rewrite <- Z.pow_add_r by lia.
        replace (4 * Z.of_nat fuel + 8 + 4) with (4 * Z.of_nat (S fuel) + 8) by lia. lia. }
      rewrite i16_id by lia.
      destruct (IH (Z.shiftr x 4) (y + 40)) as (t & Ht & -> & Hr); [lia|lia|lia|].
      exists (t + 1). rewrite Z.shiftr_shiftr in * by lia.
      replace (4 * (t + 1)) with (4 + 4 * t) by lia. repeat split; try lia. f_equal; lia.
    + exists 0. change (4 * 0) with 0. rewrite Z.shiftr_0_r. repeat split; try lia. f_equal; lia.
Qed.

Lemma logest_down1_spec fuel x y : 8 <= x < 2 ^ (Z.of_nat fuel + 4) ->
  0 <= y -> y + 10 * Z.of_nat fuel < 2 ^ 15 ->
  exists t, 0 <= t <= Z.of_nat fuel /\ logest_down1 fuel x y = (Z.shiftr x t, y + 10 * t) /\
    8 <= Z.shiftr x t < 16.
Proof.
  revert x y. induction fuel as [|fuel IH]; intros x y Hx Hy Hb.
  - exists 0. cbn [logest_down1]. rewrite Z.shiftr_0_r.
    change (2 ^ (Z.of_nat 0 + 4)) with 16 in Hx. repeat split; try lia. f_equal; lia.
  - cbn [logest_down1]. destruct (Z.ltb_spec 15 x).
    + assert (Hs : 8 <= Z.shiftr x 1 < 2 ^ (Z.of_nat fuel + 4)).
      { apply shiftr_bound; [lia|]. rewrite <- Z.pow_add_r by lia.
        replace (Z.of_nat fuel + 4 + 1) with (Z.of_nat (S fuel) + 4) by lia. lia. }
      rewrite i16_id by lia.
      destruct (IH (Z.shiftr x 1) (y + 10)) as (t & Ht & -> & Hr); [lia|lia|lia|].
      exists (t + 1). rewrite Z.shiftr_shiftr in * by lia.
      replace (t + 1) with (1 + t) by lia. repeat split; try lia. f_equal; lia.
    + exists 0. rewrite Z.shiftr_0_r. repeat split; try lia. f_equal; lia.
Qed.

(** The shift that leaves four bits is the logarithm less three. *)
Lemma shiftr_top4 x s : 0 <= s -> 8 <= Z.shiftr x s < 16 -> Z.log2 x = s + 3.
Proof.
  intros Hs H. rewrite Z.shiftr_div_pow2 in H by lia.
  pose proof (Z.pow_pos_nonneg 2 s ltac:(lia) Hs).
  assert (8 * 2 ^ s <= x) by (pose proof (Z.mul_div_le x (2 ^ s)); nia).
  assert (x < 16 * 2 ^ s) by (pose proof (Z.mul_succ_div_gt x (2 ^ s)); nia).
  apply Z.log2_unique; [lia|]. rewrite <- Z.add_succ_r, !Z.pow_add_r by lia. cbn. lia.
Qed.

(** The estimate as a function of the binary logarithm and of the three bits
    after the leading one. *)
Definition logest_ref (x : Z) : Z :=
  if x <? 2 then 0 else 10 * Z.log2 x + rd logest_table (8 * x / 2 ^ Z.log2 x - 8).

Lemma rd_logest_range i : 0 <= i < 8 -> 0 <= rd logest_table i <= 9.
Proof.
  intros H. assert (In i (map Z.of_nat (seq 0 8))) as Hin
    by (apply in_map_iff; exists (Z.to_nat i); split; [lia|apply in_seq; lia]).
  cbn in Hin. repeat destruct Hin as [<-|Hin]; try contradiction; vm_compute; split; discriminate.
Qed.

(** Both branches for [x >= 8] end in this expression. *)
Lemma logest_finish x s : 0 <= s <= 60 -> 8 <= Z.shiftr x s < 16 ->
  i16 (rd logest_table (Z.land (Z.shiftr x s) 7) + (40 + 10 * s) - 10) = logest_ref x.
Proof.
  intros Hs H. pose proof (shiftr_top4 x s ltac:(lia) H) as Hl. unfold logest_ref.
  assert (8 <= x).
  { rewrite Z.shiftr_div_pow2 in H by lia. pose proof (Z.pow_pos_nonneg 2 s).
    pose proof (Z.mul_div_le x (2 ^ s)). nia. }
  destruct (Z.ltb_spec x 2); [lia|]. rewrite Hl, Z.pow_add_r, (Z.mul_comm 8 x) by lia.
  change (2 ^ 3) with 8. rewrite Z.div_mul_cancel_r by (lia || (apply Z.pow_nonzero; lia)).
  rewrite (land_low 3) by lia. change (2 ^ 3) with 8. rewrite Z.shiftr_div_pow2 in * by lia.
  replace ((x / 2 ^ s) mod 8) with (x / 2 ^ s - 8) by (apply Z.mod_unique with 1; lia).
  pose proof (rd_logest_range (x / 2 ^ s - 8)). rewrite i16_id; lia.
Qed.

Lemma logest_small x : 2 <= x < 8 ->
  (let '(x, y) := logest_up 2 x 40 in i16 (rd logest_table (Z.land x 7) + y - 10)) = logest_ref x.
Proof.
  intros H. assert (In x [2; 3; 4; 5; 6; 7]) as Hin by (cbn; lia).
  cbn [In] in Hin. repeat destruct Hin as [<-|Hin]; try contradiction; reflexivity.
Qed.

Lemma sqlite3LogEst_ref x : is_u64 x ->
  sqlite3LogEst x = logest_ref x /\ sqlite3LogEst_builtin x = logest_ref x.
Proof.
  unfold is_u64. intros Hx. unfold sqlite3LogEst, sqlite3LogEst_builtin.
  destruct (Z.ltb_spec x 8) as [H8|H8].
  - destruct (Z.ltb_spec x 2) as [H2|H2].
    + unfold logest_ref. destruct (Z.ltb_spec x 2); [split; reflexivity|lia].
    + rewrite logest_small by lia. split; reflexivity.
  - split.
    + destruct (logest_down4_spec 14 x 40) as (t & Ht & -> & Hr);
        [change (4 * Z.of_nat 14 + 8) with 64; lia|lia|lia|].
      destruct (logest_down1_spec 4 (Z.shiftr x (4 * t)) (40 + 40 * t)) as (t' & Ht' & -> & Hr');
        [change (2 ^ (Z.of_nat 4 + 4)) with 256; lia|lia|lia|].
      rewrite Z.shiftr_shiftr in * by lia.
      replace (40 + 40 * t + 10 * t') with (40 + 10 * (4 * t + t')) by lia.
      apply logest_finish; [|assumption].
      pose proof (shiftr_top4 x (4 * t + t') ltac:(lia) Hr') as Hl.
      assert (Z.log2 x < 64) by (apply Z.log2_lt_pow2; lia). lia.
    + assert (3 <= Z.log2 x < 64) by (split; [change 3 with (Z.log2 8); apply Z.log2_le_mono; lia|apply Z.log2_lt_pow2; lia]).
      replace (60 - (63 - Z.log2 x)) with (Z.log2 x - 3) by lia. rewrite (i16_id (40 + _)) by lia.
      rewrite (Z.mul_comm _ 10). apply logest_finish; [lia|].
      pose proof (Z.log2_spec x ltac:(lia)) as Hl. apply shiftr_bound; [lia|].
      change 8 with (2 ^ 3). change 16 with (2 ^ 4). rewrite <- !Z.pow_add_r by lia.
      replace (3 + (Z.log2 x - 3)) with (Z.log2 x) by lia.
      replace (4 + (Z.log2 x - 3)) with (Z.succ (Z.log2 x)) by lia. lia.
Qed.

(** The table against the tenth powers of the mantissas. *)
Lemma logest_table_accurate m : 8 <= m < 16 ->
  2 ^ (rd logest_table (m - 8) + 29) <= m ^ 10 /\ (m + 1) ^ 10 <= 2 ^ (rd logest_table (m - 8) + 32).
Proof.
  intros H. assert (In m [8; 9; 10; 11; 12; 13; 14; 15]) as Hin by (cbn; lia).
  cbn [In] in Hin. repeat destruct Hin as [<-|Hin]; try contradiction; vm_compute; split; discriminate.
Qed.

(** [sqlite3LogEst] is [10*log2(x)] to within one below and two above, for
    every positive 64-bit [x]: [x^10] lies between [2^(L-1)] and [2^(L+2)]; the
    branch with the leading-zero builtin computes the same function. *)
Theorem logest_accurate x : is_u64 x -> 1 <= x ->
  sqlite3LogEst_builtin x = sqlite3LogEst x /\
  2 ^ sqlite3LogEst x <= 2 * x ^ 10 /\ x ^ 10 < 2 ^ (sqlite3LogEst x + 2) /\
  0 <= sqlite3LogEst x < 640.
Proof.
  intros Hx H1. destruct (sqlite3LogEst_ref x Hx) as [-> ->]. split; [reflexivity|].
  unfold logest_ref, is_u64 in *. destruct (Z.ltb_spec x 2) as [H2|H2].
  { replace x with 1 by lia. vm_compute. repeat split; discriminate. }
  pose proof (Z.log2_spec x ltac:(lia)) as Hl. set (k := Z.log2 x) in *.
  assert (0 < k < 64) by (subst k; split; [apply Z.log2_pos; lia|apply Z.log2_lt_pow2; lia]).
  pose proof (Z.pow_pos_nonneg 2 k ltac:(lia) ltac:(lia)) as Hk.
  rewrite Z.pow_succ_r in Hl by lia.
  assert (Hm : 8 <= 8 * x / 2 ^ k < 16) by (split; [apply Z.div_le_lower_bound|apply Z.div_lt_upper_bound]; lia).
  pose proof (Z.mul_div_le (8 * x) (2 ^ k) Hk). pose proof (Z.mul_succ_div_gt (8 * x) (2 ^ k) Hk).
  set (m := 8 * x / 2 ^ k) in *. destruct (logest_table_accurate m Hm) as [Hlo Hhi].
  pose proof (rd_logest_range (m - 8) ltac:(lia)) as Ha. set (a := rd logest_table (m - 8)) in *.
  assert (E1 : (2 ^ k * m) ^ 10 <= (8 * x) ^ 10) by (apply Z.pow_le_mono_l; lia).
  assert (E2 : (8 * x) ^ 10 < (2 ^ k * Z.succ m) ^ 10) by (apply Z.pow_lt_mono_l; lia).
  rewrite !Z.pow_mul_l in E1, E2. rewrite <- !Z.pow_mul_r in E1, E2 by lia.
  replace (k * 10) with (10 * k) in * by lia. change (8 ^ 10) with (2 ^ 30) in *.
  change (Z.succ m) with (m + 1) in *.
  assert (Hp : 0 < 2 ^ (10 * k)) by (apply Z.pow_pos_nonneg; lia).
  assert (F1 : 2 ^ (10 * k + a) * 2 ^ 29 <= 2 ^ 30 * x ^ 10).
  { rewrite <- Z.pow_add_r, <- Z.add_assoc, Z.pow_add_r by lia. nia. }
  assert (F2 : 2 ^ 30 * x ^ 10 < 2 ^ (10 * k + a + 2) * 2 ^ 30).
  { rewrite <- Z.pow_add_r by lia. replace (10 * k + a + 2 + 30) with (10 * k + (a + 32)) by lia.
    rewrite Z.pow_add_r by lia. nia. }
  change (2 ^ 30) with (2 * 2 ^ 29) in F1. repeat split; lia.
Qed.

Lemma logest_accurate_witness : 2 ^ 99 <= 1000 ^ 10 /\ 1000 ^ 10 < 2 ^ 102.
Proof.
  destruct (logest_accurate 1000 ltac:(unfold is_u64; lia) ltac:(lia)) as (_ & H1 & H2 & _).
  change (sqlite3LogEst 1000) with 99 in *. split; lia.
Defined.
