(* ===== verification/IntText.v ===== *)
(** * IntText: integers and text

    Models the conversions between 64- and 32-bit integers and their text of
    [util.c] in [src/api-core/src/db/sqlite3.c]: [sqlite3Int64ToText],
    [compare2pow63], [sqlite3Atoi64] in its three encodings,
    [sqlite3DecOrHexToI64], [sqlite3GetInt32], [sqlite3Atoi],
    [sqlite3GetUInt32], the hexadecimal helpers and [sqlite3Dequote].
    Text is a list of bytes; reading past its end gives the terminator. *)

From Stdlib Require Import ZArith List Lia Bool.
Import ListNotations.
From S2P Require Import Prelude Ctype IntArith.
#[local] Open Scope Z_scope.

Definition SQLITE_UTF8 : Z := 1.
Definition SQLITE_UTF16LE : Z := 2.
Definition SQLITE_UTF16BE : Z := 3.

(** ** From integers to text *)

(** The digit loop: writes [zTemp[i]], [zTemp[i-1]], ... and returns the last
    index written.  A 64-bit value has at most twenty digits. *)
Fixpoint int64text_loop (fuel : nat) (zTemp : list Z) (i x : Z) : list Z * Z :=
  let zTemp := wr zTemp i (Z.rem x 10 + 48) in
  let x := Z.quot x 10 in
  if x =? 0 then (zTemp, i)
  else match fuel with
       | O => (zTemp, i)
       | S fuel' => int64text_loop fuel' zTemp (i - 1) x
       end.

(** Returns the bytes stored at [zOut], terminator included, and the length. *)
Definition sqlite3Int64ToText (v : Z) : list Z * Z :=
  let x := if v <? 0 then (if v =? SMALLEST_INT64 then u64 (Z.shiftl 1 63) else u64 (- v)) else v in
  let zTemp := wr (repeat 0 22) 21 0 in
  let '(zTemp, i) := int64text_loop 19 zTemp 20 x in
  let '(zTemp, i) := if v <? 0 then (wr zTemp (i - 1) 45, i - 1) else (zTemp, i) in
  (skipn (Z.to_nat i) zTemp, 22 - 1 - i).

(** ** From text to integers *)

Definition pow63 : list Z := [57; 50; 50; 51; 51; 55; 50; 48; 51; 54; 56; 53; 52; 55; 55; 53; 56; 48].

(** The loop [for(i=0; c==0 && i<18; i++)], over the rest of [pow63]. *)
Fixpoint compare2pow63_loop (c : Z) (zNum pow : list Z) : Z :=
  match pow with
  | [] => c
  | d :: pow' =>
      if c =? 0 then compare2pow63_loop ((rd zNum 0 - d) * 10) (tl zNum) pow' else c
  end.

(** [zNum] is the list of the characters [zNum[0]], [zNum[incr]], ... *)
Definition compare2pow63 (zNum : list Z) : Z :=
  let c := compare2pow63_loop 0 zNum pow63 in
  if c =? 0 then rd zNum 18 - 56 else c.

(** The bytes [z[k]], [z[k+incr]], ... before index [zEnd]. *)
Fixpoint stride (fuel : nat) (z : list Z) (k zEnd incr : Z) : list Z :=
  match fuel with
  | O => []
  | S fuel' => if k <? zEnd then rd z k :: stride fuel' z (k + incr) zEnd incr else []
  end.

(** [for(i=3-enc; i<length && zNum[i]==0; i+=2){}] *)
Fixpoint utf16_scan (fuel : nat) (z : list Z) (i length : Z) : Z :=
  match fuel with
  | O => i
  | S fuel' => if (i <? length) && (rd z i =? 0) then utf16_scan fuel' z (i + 2) length else i
  end.

(** The characters between [zNum] and [zEnd] after the encoding set-up, and
    the flag [nonNum]. *)
Definition atoi64_region (z : list Z) (len enc : Z) : list Z * bool :=
  if enc =? SQLITE_UTF8 then (stride (length z) z 0 len 1, false)
  else
    let len := Z.land len (Z.lnot 1) in
    let i := utf16_scan (S (length z)) z (3 - enc) len in
    (stride (length z) z (Z.land enc 1) (Z.lxor i 1) 2, i <? len).

Fixpoint skip_while (f : Z -> bool) (z : list Z) : list Z :=
  match z with
  | [] => []
  | c :: z' => if f c then skip_while f z' else z
  end.

(** The digit loop: the accumulated 64-bit value, the number of digits and
    the rest of the text. *)
Fixpoint atoi64_digits (u : Z) (i : Z) (z : list Z) : Z * Z * list Z :=
  match z with
  | [] => (u, i, [])
  | c :: z' =>
      if (48 <=? c) && (c <=? 57) then atoi64_digits (u64 (u * 10 + c - 48)) (i + 1) z'
      else (u, i, z)
  end.

(** The optional sign: [neg] and the text after it. *)
Definition atoi64_sign (z : list Z) : bool * list Z :=
  match z with
  | c :: z' => if c =? 45 then (true, z') else if c =? 43 then (false, z') else (false, z)
  | [] => (false, z)
  end.

(** Returns [(return code, *pNum)]. *)
Definition sqlite3Atoi64 (zNum : list Z) (len enc : Z) : Z * Z :=
  let '(z, nonNum) := atoi64_region zNum len enc in
  let z := skip_while sqlite3Isspace z in
  let '(neg, z) := atoi64_sign z in
  let zStart := z in
  let z := skip_while (fun c => c =? 48) z in
  let '(u, i, rest) := atoi64_digits 0 0 z in
  let pNum :=
    if LARGEST_INT64 <? u then (if neg then SMALLEST_INT64 else LARGEST_INT64)
    else if neg then - u else u in
  let rc :=
    if (i =? 0) && (length zStart =? length z)%nat then -1
    else if nonNum then 1
    else if forallb sqlite3Isspace rest then 0 else 1 in
  if i <? 19 then (rc, pNum)
  else
    let c := if 19 <? i then 1 else compare2pow63 z in
    if c <? 0 then (rc, pNum)
    else
      let pNum := if neg then SMALLEST_INT64 else LARGEST_INT64 in
      if 0 <? c then (2, pNum) else (if neg then rc else 3, pNum).

(** ** Hexadecimal *)

Definition sqlite3HexToInt (h : Z) : Z :=
  let h := h + 9 * Z.land 1 (Z.shiftr h 6) in
  u8 (Z.land h 0xf).

(** [zBlob] for a literal of which [n] bytes, closing quote included, are at
    [z]; the last byte is the terminator. *)
Fixpoint hexblob_loop (fuel : nat) (z : list Z) (i n : Z) : list Z :=
  match fuel with
  | O => [0]
  | S fuel' =>
      if i <? n then
        u8 (Z.lor (Z.shiftl (sqlite3HexToInt (rd z i)) 4) (sqlite3HexToInt (rd z (i + 1))))
        :: hexblob_loop fuel' z (i + 2) n
      else [0]
  end.

Definition sqlite3HexToBlob (z : list Z) (n : Z) : list Z :=
  let n := n - 1 in hexblob_loop (Z.to_nat n) z 0 n.

(** ** C strings to integers *)

(** [for(k=i; sqlite3Isxdigit(z[k]); k++) u = u*16 + sqlite3HexToInt(z[k])] *)
Fixpoint hex64_digits (u k : Z) (z : list Z) : Z * Z * list Z :=
  match z with
  | [] => (u, k, [])
  | c :: z' =>
      if sqlite3Isxdigit c then hex64_digits (u64 (u * 16 + sqlite3HexToInt c)) (k + 1) z'
      else (u, k, z)
  end.

(** The set "+- \n\t0123456789" of the [strspn] call. *)
Definition int_span_char (c : Z) : bool :=
  (c =? 43) || (c =? 45) || (c =? 32) || (c =? 10) || (c =? 9) || in_range 48 57 c.

Fixpoint span_len (f : Z -> bool) (z : list Z) : Z :=
  match z with
  | [] => 0
  | c :: z' => if f c then 1 + span_len f z' else 0
  end.

Definition sqlite3DecOrHexToI64 (z : list Z) : Z * Z :=
  if (rd z 0 =? 48) && ((rd z 1 =? 120) || (rd z 1 =? 88)) then
    let z := skip_while (fun c => c =? 48) (skipn 2 z) in
    let '(u, k, rest) := hex64_digits 0 0 z in
    let pOut := i64 u in
    if 16 <? k then (2, pOut)
    else if negb (rd rest 0 =? 0) then (1, pOut)
    else (0, pOut)
  else
    let n := Z.land 0x3fffffff (span_len int_span_char z) in
    let n := if negb (rd z n =? 0) then n + 1 else n in
    sqlite3Atoi64 z n SQLITE_UTF8.

(** [for(i=0; i<8 && sqlite3Isxdigit(zNum[i]); i++)] with a 32-bit [u]. *)
Fixpoint hex32_digits (fuel : nat) (u : Z) (z : list Z) : Z * list Z :=
  match fuel, z with
  | S fuel', c :: z' =>
      if sqlite3Isxdigit c then hex32_digits fuel' (u32 (u * 16 + sqlite3HexToInt c)) z' else (u, z)
  | _, _ => (u, z)
  end.

(** [for(i=0; i<11 && (c = zNum[i] - '0')>=0 && c<=9; i++) v = v*10 + c] *)
Fixpoint getint32_digits (fuel : nat) (v i : Z) (z : list Z) : Z * Z :=
  match fuel, z with
  | S fuel', ch :: z' =>
      let c := ch - 48 in
      if (0 <=? c) && (c <=? 9) then getint32_digits fuel' (i64 (v * 10 + c)) (i + 1) z' else (v, i)
  | _, _ => (v, i)
  end.

(** [Some v] is return code 1 with [*pValue = v]; [None] is return code 0
    with [*pValue] untouched. *)
Definition sqlite3GetInt32 (zNum : list Z) : option Z :=
  let decimal (neg : bool) (zNum : list Z) : option Z :=
    if negb (sqlite3Isdigit (rd zNum 0)) then None
    else
      let zNum := skip_while (fun c => c =? 48) zNum in
      let '(v, i) := getint32_digits 11 0 0 zNum in
      if 10 <? i then None
      else if 2147483647 <? v - Z.b2z neg then None
      else
        let v := if neg then - v else v in
        Some (i32 v) in
  if rd zNum 0 =? 45 then decimal true (tl zNum)
  else if rd zNum 0 =? 43 then decimal false (tl zNum)
  else if (rd zNum 0 =? 48) && ((rd zNum 1 =? 120) || (rd zNum 1 =? 88))
          && sqlite3Isxdigit (rd zNum 2) then
    let zNum := skip_while (fun c => c =? 48) (skipn 2 zNum) in
    let '(u, rest) := hex32_digits 8 0 zNum in
    if (Z.land u 0x80000000 =? 0) && negb (sqlite3Isxdigit (rd rest 0)) then Some (i32 u) else None
  else decimal false zNum.

Definition sqlite3Atoi (z : list Z) : Z :=
  match sqlite3GetInt32 z with Some x => x | None => 0 end.

(** The loop of [sqlite3GetUInt32]: [None] is its early return. *)
Fixpoint getuint32_loop (v : Z) (i : Z) (z : list Z) : option (Z * Z * list Z) :=
  match z with
  | [] => Some (v, i, [])
  | c :: z' =>
      if sqlite3Isdigit c then
        let v := u64 (v * 10 + c - 48) in
        if 4294967296 <? v then None else getuint32_loop v (i + 1) z'
      else Some (v, i, z)
  end.

(** Returns [(return code, *pI)]. *)
Definition sqlite3GetUInt32 (z : list Z) : Z * Z :=
  match getuint32_loop 0 0 z with
  | None => (0, 0)
  | Some (v, i, rest) =>
      if (i =? 0) || negb (rd rest 0 =? 0) then (0, 0) else (1, u32 v)
  end.

(** ** Dequoting *)

(** The loop of [sqlite3Dequote] over [z[i]], [z[i+1]], ...: the bytes stored
    at [z[0]], ..., [z[j-1]]. *)
Fixpoint dequote_loop (fuel : nat) (quote : Z) (z : list Z) : list Z :=
  match fuel with
  | O => []
  | S fuel' =>
      if rd z 0 =? quote then
        if rd z 1 =? quote then quote :: dequote_loop fuel' quote (skipn 2 z) else []
      else
        match z with
        | [] => []
        | c :: z' => c :: dequote_loop fuel' quote z'
        end
  end.

(** The string after the call, up to its new terminator. *)
Definition sqlite3Dequote (z : option (list Z)) : option (list Z) :=
  match z with
  | None => None
  | Some z =>
      let quote := rd z 0 in
      if negb (sqlite3Isquote quote) then Some z
      else
        let quote := if quote =? 91 then 93 else quote in
        Some (dequote_loop (length z) quote (tl z))
  end.

Example int64text_ex : sqlite3Int64ToText (-9223372036854775808) =
  ([45; 57; 50; 50; 51; 51; 55; 50; 48; 51; 54; 56; 53; 52; 55; 55; 53; 56; 48; 56; 0], 20).
Proof. vm_compute. reflexivity. Qed.

Example atoi64_ex1 : sqlite3Atoi64 [32; 45; 49; 50; 51; 32] 6 SQLITE_UTF8 = (0, -123).
Proof. reflexivity. Qed.

Example atoi64_ex2 : sqlite3Atoi64 [45; 0; 49; 0; 50; 0] 6 SQLITE_UTF16LE = (0, -12).
Proof. reflexivity. Qed.

Example atoi64_ex3 : sqlite3Atoi64 [0; 49; 0; 50; 1; 50] 6 SQLITE_UTF16BE = (1, 12).
Proof. reflexivity. Qed.

(** ** Digits and their value *)

Definition is_digit (c : Z) : Prop := 48 <= c <= 57.
Definition digits (l : list Z) : Prop := Forall is_digit l.
Definition dval (acc : Z) (l : list Z) : Z := fold_left (fun a c => a * 10 + c - 48) l acc.

Lemma dval_app acc l1 l2 : dval acc (l1 ++ l2) = dval (dval acc l1) l2.
Proof. apply fold_left_app. Qed.

Lemma dval_acc acc l : dval acc l = acc * 10 ^ Z.of_nat (length l) + dval 0 l.
Proof.
  revert acc. induction l as [|c l IH]; intros acc; cbn [dval fold_left length].
  - change (10 ^ Z.of_nat 0) with 1. lia.
  - change (fold_left (fun a c => a * 10 + c - 48) l (acc * 10 + c - 48)) with (dval (acc * 10 + c - 48) l).
    change (fold_left (fun a c => a * 10 + c - 48) l (0 * 10 + c - 48)) with (dval (0 * 10 + c - 48) l).
    rewrite (IH (acc * 10 + c - 48)), (IH (0 * 10 + c - 48)).
    rewrite Nat2Z.inj_succ, Z.pow_succ_r by lia. lia.
Qed.

Lemma dval_cons c l : dval 0 (c :: l) = (c - 48) * 10 ^ Z.of_nat (length l) + dval 0 l.
Proof. change (dval 0 (c :: l)) with (dval (0 * 10 + c - 48) l). rewrite dval_acc. f_equal. Qed.

Lemma dval_bound l : digits l -> 0 <= dval 0 l < 10 ^ Z.of_nat (length l).
Proof.
  induction 1 as [|c l Hc _ IH]; [cbn; lia|].
  rewrite dval_cons. cbn [length]. rewrite Nat2Z.inj_succ, Z.pow_succ_r by lia.
  unfold is_digit in Hc. nia.
Qed.

(** The first difference of two digit strings decides their order. *)
Lemma compare2pow63_loop_spec a p : digits a -> digits p -> length a = length p -> forall rest,
  (compare2pow63_loop 0 (a ++ rest) p ?= 0) = (dval 0 a ?= dval 0 p).
Proof.
  intros Ha. revert p. induction Ha as [|c a Hc Ha IH]; intros p Hp Hl rest.
  - destruct p; [reflexivity|discriminate].
  - destruct p as [|d p]; [discriminate|]. injection Hl as Hl. apply Forall_cons_iff in Hp as [Hd Hp].
    cbn [compare2pow63_loop app tl]. change (0 =? 0) with true. cbv iota.
    change (rd (c :: a ++ rest) 0) with c. rewrite !dval_cons, Hl.
    pose proof (dval_bound a Ha) as Ba. pose proof (dval_bound p Hp) as Bp. rewrite Hl in Ba.
    assert (Hpow : 0 < 10 ^ Z.of_nat (length p)) by (apply Z.pow_pos_nonneg; lia).
    destruct (Z.compare_spec c d) as [->|Hlt|Hgt].
    + rewrite Z.sub_diag, Z.mul_0_l, IH by assumption.
      now rewrite Z.add_compare_mono_l.
    + destruct p as [|d' p']; cbn [compare2pow63_loop];
        [|destruct (Z.eqb_spec ((c - d) * 10) 0); [lia|]];
        transitivity Lt; [apply Z.compare_lt_iff; lia|symmetry; apply Z.compare_lt_iff; nia|
                          apply Z.compare_lt_iff; lia|symmetry; apply Z.compare_lt_iff; nia].
    + destruct p as [|d' p']; cbn [compare2pow63_loop];
        [|destruct (Z.eqb_spec ((c - d) * 10) 0); [lia|]];
        transitivity Gt; [apply Z.compare_gt_iff; lia|symmetry; apply Z.compare_gt_iff; nia|
                          apply Z.compare_gt_iff; lia|symmetry; apply Z.compare_gt_iff; nia].
Qed.

Lemma compare2pow63_spec a rest : digits a -> length a = 19%nat ->
  (compare2pow63 (a ++ rest) ?= 0) = (dval 0 a ?= 2 ^ 63).
Proof.
  intros Ha Hl. destruct (split_at_nat 18 a) as [d Hd]; [lia|].
  set (b := firstn 18 a) in *. assert (Hb : length b = 18%nat) by (subst b; rewrite length_firstn; lia).
  assert (Hs : skipn 19 a = []) by (apply skipn_all2; lia). rewrite Hs in Hd.
  rewrite Hd in Ha |- *. apply Forall_app in Ha as [Hbd Hdd]. apply Forall_cons_iff in Hdd as [Hdd _].
  unfold compare2pow63. rewrite <- app_assoc. cbn [app].
  pose proof (compare2pow63_loop_spec b pow63 Hbd) as Hc.
  assert (Hp : digits pow63) by (repeat constructor; unfold is_digit; lia).
  specialize (Hc Hp Hb (d :: rest)).
  rewrite (rd_app_exact b d rest) by lia.
  rewrite dval_app. change (dval (dval 0 b) [d]) with (dval 0 b * 10 + d - 48).
  change (dval 0 pow63) with 922337203685477580 in Hc. unfold is_digit in Hdd.
  destruct (Z.eqb_spec (compare2pow63_loop 0 (b ++ d :: rest) pow63) 0) as [E|E].
  - rewrite E in Hc. change (0 ?= 0) with Eq in Hc. symmetry in Hc. apply Z.compare_eq_iff in Hc.
    rewrite Hc. change (2 ^ 63) with (922337203685477580 * 10 + 8).
    destruct (Z.compare_spec (d - 56) 0); symmetry;
      [apply Z.compare_eq_iff|apply Z.compare_lt_iff|apply Z.compare_gt_iff]; lia.
  - destruct (Z.lt_trichotomy (dval 0 b) 922337203685477580) as [H|[H|H]].
    + rewrite (proj2 (Z.compare_lt_iff _ _) H) in Hc. rewrite Hc. symmetry. apply Z.compare_lt_iff. lia.
    + rewrite H, Z.compare_refl in Hc. apply Z.compare_eq_iff in Hc. lia.
    + rewrite (proj2 (Z.compare_gt_iff _ _) H) in Hc. rewrite Hc. symmetry. apply Z.compare_gt_iff. lia.
Qed.

Lemma u64_small x : is_u64 x -> u64 x = x.
Proof. unfold is_u64, u64. intros. apply Z.mod_small. lia. Qed.

(** The digit loop of [sqlite3Atoi64]: the value is right while it fits, and
    the number of digits always is. *)
Lemma atoi64_digits_spec ds tr u i : digits ds ->
  match tr with [] => True | c :: _ => ~ is_digit c end -> 0 <= u ->
  exists w, atoi64_digits u i (ds ++ tr) = (w, i + Z.of_nat (length ds), tr) /\
    (dval u ds < 2 ^ 64 -> w = dval u ds).
Proof.
  intros Hd Htr. revert u i. induction Hd as [|c ds Hc Hds IH]; intros u i Hu; cbn [app].
  - exists u. destruct tr as [|c tr]; cbn [atoi64_digits].
    + split; [f_equal; f_equal; cbn; lia|reflexivity].
    + unfold is_digit in Htr. replace ((48 <=? c) && (c <=? 57)) with false
        by (symmetry; apply andb_false_iff; lia).
      split; [f_equal; f_equal; cbn; lia|reflexivity].
  - cbn [atoi64_digits]. unfold is_digit in Hc.
    replace ((48 <=? c) && (c <=? 57)) with true by (symmetry; apply andb_true_iff; lia).
    assert (Hn : 0 <= u64 (u * 10 + c - 48)) by (apply Z.mod_pos_bound; lia).
    destruct (IH (u64 (u * 10 + c - 48)) (i + 1) Hn) as (w & -> & Hw). exists w. split.
    + f_equal; f_equal. cbn [length]. lia.
    + change (dval u (c :: ds)) with (dval (u * 10 + c - 48) ds). intros Hlt.
      assert (E : u64 (u * 10 + c - 48) = u * 10 + c - 48).
      { apply u64_small. unfold is_u64. split; [lia|]. rewrite dval_acc in Hlt.
        pose proof (Z.pow_pos_nonneg 10 (Z.of_nat (length ds))). pose proof (dval_bound ds Hds). nia. }
      rewrite E in Hw. auto.
Qed.

Lemma stride_suffix post pre k e : k = Z.of_nat (length pre) ->
  e = k + Z.of_nat (length post) -> stride (length post) (pre ++ post) k e 1 = post.
Proof.
  revert pre k. induction post as [|x post IH]; intros pre k Hk He; [reflexivity|].
  cbn [length stride] in *. destruct (Z.ltb_spec k e); [|lia].
  rewrite rd_app_exact by assumption. f_equal.
  replace (pre ++ x :: post) with ((pre ++ [x]) ++ post) by now rewrite <- app_assoc.
  apply IH; rewrite ?length_app; cbn; lia.
Qed.

Lemma stride_all z : stride (length z) z 0 (Z.of_nat (length z)) 1 = z.
Proof. apply (stride_suffix z []); reflexivity. Qed.

Lemma skip_while_app f a b : Forall (fun c => f c = true) a -> skip_while f (a ++ b) = skip_while f b.
Proof. induction 1 as [|c a Hc _ IH]; cbn; [reflexivity|now rewrite Hc]. Qed.

Lemma skip_while_stop f c b : f c = false -> skip_while f (c :: b) = c :: b.
Proof. intros H. cbn. now rewrite H. Qed.

Definition spaces (l : list Z) : Prop := Forall (fun c => is_u8 c /\ sqlite3Isspace c = true) l.

Lemma space_char c : is_u8 c -> sqlite3Isspace c = in_range 9 13 c || (c =? 32).
Proof.
  intros Hc. apply eqb_prop. revert c Hc.
  apply (byte_forall (fun c => eqb (sqlite3Isspace c) (in_range 9 13 c || (c =? 32)))).
  vm_compute. reflexivity.
Qed.

Lemma space_not_digit c : is_u8 c -> sqlite3Isspace c = true -> ~ is_digit c.
Proof.
  intros Hc. rewrite space_char by assumption. unfold in_range, is_digit.
  rewrite orb_true_iff, andb_true_iff, !Z.leb_le, Z.eqb_eq. lia.
Qed.

Lemma not_space c : 33 <= c <= 57 -> sqlite3Isspace c = false.
Proof.
  intros Hc. rewrite space_char by (unfold is_u8; lia). unfold in_range.
  apply orb_false_iff. rewrite andb_false_iff, !Z.leb_gt, Z.eqb_neq. lia.
Qed.

(** Leading zeros do not change the value, and what follows them does not
    start with a zero. *)
Lemma skip_zeros ds tr : digits ds -> match tr with [] => True | c :: _ => ~ is_digit c end ->
  exists zs ds', ds = zs ++ ds' /\ skip_while (fun c => c =? 48) (ds ++ tr) = ds' ++ tr /\
    dval 0 ds' = dval 0 ds /\ match ds' with [] => True | c :: _ => 49 <= c <= 57 end.
Proof.
  intros Hd Htr. induction Hd as [|c ds Hc Hds IH].
  - exists [], []. repeat split; cbn; auto. destruct tr as [|c tr]; [reflexivity|]. cbn.
    unfold is_digit in Htr. destruct (Z.eqb_spec c 48); [lia|reflexivity].
  - cbn [app skip_while]. destruct (Z.eqb_spec c 48) as [->|Hne].
    + destruct IH as (zs & ds' & -> & -> & Hv & Hh). exists (48 :: zs), ds'.
      repeat split; try assumption; rewrite Hv; cbn; reflexivity.
    + exists [], (c :: ds). unfold is_digit in Hc. repeat split; lia.
Qed.

(** What the return code and the value must be for the integer [n]. *)
Definition atoi64_spec (neg : bool) (n : Z) : Z * Z :=
  if neg then (if n <=? 2 ^ 63 then (0, - n) else (2, SMALLEST_INT64))
  else (if n <=? LARGEST_INT64 then (0, n)
        else if n =? 2 ^ 63 then (3, LARGEST_INT64) else (2, LARGEST_INT64)).

Definition sign_text (neg : bool) (plus : bool) : list Z :=
  if neg then [45] else if plus then [43] else [].

Lemma digits_bytes ds : digits ds -> forall c, In c ds -> is_digit c.
Proof. intros H c Hin. unfold digits in H. rewrite Forall_forall in H. auto. Qed.

(** Spaces and the sign are consumed. *)
Lemma atoi64_prefix sp neg plus ds tr : spaces sp -> digits ds -> ds <> [] ->
  skip_while sqlite3Isspace (sp ++ sign_text neg plus ++ ds ++ tr) = sign_text neg plus ++ ds ++ tr /\
  atoi64_sign (sign_text neg plus ++ ds ++ tr) = (neg, ds ++ tr).
Proof.
  intros Hsp Hd Hne. destruct ds as [|d ds]; [congruence|].
  apply Forall_cons_iff in Hd as [Hd _]. unfold is_digit in Hd.
  assert (Hns : sqlite3Isspace d = false) by (apply not_space; lia).
  rewrite skip_while_app by (eapply Forall_impl; [|exact Hsp]; cbn; tauto).
  unfold atoi64_sign.
  destruct neg; [|destruct plus]; cbn [sign_text app skip_while]; rewrite ?Hns;
    (split; [reflexivity|]); try reflexivity.
  destruct (Z.eqb_spec d 45), (Z.eqb_spec d 43); try lia. reflexivity.
Qed.

(** The decision at the end, from the digits after the leading zeros. *)
Lemma atoi64_decide neg ds rest w c0 :
  digits ds -> match ds with [] => True | c :: _ => 49 <= c <= 57 end ->
  (dval 0 ds < 2 ^ 64 -> w = dval 0 ds) ->
  c0 = (if 19 <? Z.of_nat (length ds) then 1 else compare2pow63 (ds ++ rest)) ->
  (let pNum := if LARGEST_INT64 <? w then (if neg : bool then SMALLEST_INT64 else LARGEST_INT64)
               else if neg then - w else w in
   if Z.of_nat (length ds) <? 19 then (0, pNum)
   else if c0 <? 0 then (0, pNum)
   else let pNum := if neg then SMALLEST_INT64 else LARGEST_INT64 in
        if 0 <? c0 then (2, pNum) else (if neg then 0 else 3, pNum)) = atoi64_spec neg (dval 0 ds).
Proof.
  intros Hd Hh Hw Hc. pose proof (dval_bound ds Hd) as Hb. unfold atoi64_spec.
  assert (HL : LARGEST_INT64 = 2 ^ 63 - 1) by reflexivity.
  assert (HS : SMALLEST_INT64 = - 2 ^ 63) by reflexivity. rewrite HL, HS.
  destruct (Z.ltb_spec (Z.of_nat (length ds)) 19) as [Hl|Hl].
  - assert (10 ^ Z.of_nat (length ds) <= 10 ^ 18) by (apply Z.pow_le_mono_r; lia).
    change (10 ^ 18) with 1000000000000000000 in *. rewrite Hw by lia.
    destruct neg; ltb_cases; try lia; f_equal; lia.
  - destruct (Z.ltb_spec 19 (Z.of_nat (length ds))) as [Hl2|Hl2].
    + assert (2 ^ 63 < dval 0 ds).
      { destruct ds as [|d ds]; [cbn in Hl; lia|]. rewrite dval_cons.
        apply Forall_cons_iff in Hd as [_ Hd]. pose proof (dval_bound ds Hd).
        assert (10 ^ 19 <= 10 ^ Z.of_nat (length ds)) by (apply Z.pow_le_mono_r; cbn in Hl2; lia).
        change (10 ^ 19) with 10000000000000000000 in *. nia. }
      rewrite Hc. destruct neg; ltb_cases; try lia; reflexivity.
    + assert (Hlen : length ds = 19%nat) by lia.
      pose proof (compare2pow63_spec ds rest Hd Hlen) as Hcmp. rewrite <- Hc in Hcmp.
      rewrite Hlen in Hb. change (10 ^ Z.of_nat 19) with 10000000000000000000 in Hb.
      rewrite Hw by lia.
      destruct (Z.compare_spec (dval 0 ds) (2 ^ 63)) as [E|E|E];
        [rewrite Z.compare_eq_iff in Hcmp|rewrite Z.compare_lt_iff in Hcmp|rewrite Z.compare_gt_iff in Hcmp];
        destruct neg; ltb_cases; try lia; f_equal; lia.
Qed.

Lemma sqlite3Atoi64_text sp neg plus ds tr : spaces sp -> digits ds -> ds <> [] -> spaces tr ->
  let z := sp ++ sign_text neg plus ++ ds ++ tr in
  sqlite3Atoi64 z (Z.of_nat (length z)) SQLITE_UTF8 = atoi64_spec neg (dval 0 ds).
Proof.
  intros Hsp Hd Hne Htr z. unfold sqlite3Atoi64, atoi64_region.
  change (SQLITE_UTF8 =? SQLITE_UTF8) with true. cbv iota. rewrite stride_all. subst z.
  destruct (atoi64_prefix sp neg plus ds tr Hsp Hd Hne) as [-> ->].
  assert (Hend : match tr with [] => True | c :: _ => ~ is_digit c end).
  { destruct Htr as [|c tr [Hc Hs] _]; [exact I|]. now apply space_not_digit. }
  destruct (skip_zeros ds tr Hd Hend) as (zs & ds' & Hds & -> & Hval & Hh).
  assert (Hd' : digits ds') by (rewrite Hds in Hd; apply Forall_app in Hd; tauto).
  destruct (atoi64_digits_spec ds' tr 0 0 Hd' Hend ltac:(lia)) as (w & -> & Hw).
  replace (forallb sqlite3Isspace tr) with true.
  2:{ symmetry. apply forallb_forall. intros c Hin. unfold spaces in Htr. rewrite Forall_forall in Htr. now apply Htr. }
  rewrite Z.add_0_l. rewrite <- Hval.
  replace ((Z.of_nat (length ds') =? 0) && (length (ds ++ tr) =? length (ds' ++ tr))%nat) with false.
  - apply (atoi64_decide neg ds' tr w); auto.
  - symmetry. apply andb_false_iff. rewrite !length_app, Hds, length_app, Z.eqb_neq, Nat.eqb_neq.
    destruct zs; [|cbn; lia]. cbn in Hds. subst ds'. left. destruct ds; [congruence|cbn; lia].
Qed.

(** The digit loop of [sqlite3Int64ToText] leaves the decimal digits of [x],
    without leading zeros, from the returned index up to the old suffix. *)
Lemma int64text_loop_spec fuel pre y suf x : 0 <= x < 10 ^ (Z.of_nat fuel + 1) ->
  (fuel <= length pre)%nat ->
  exists ds pre', int64text_loop fuel (pre ++ y :: suf) (Z.of_nat (length pre)) x =
      (pre' ++ ds ++ suf, Z.of_nat (length pre')) /\
    digits ds /\ ds <> [] /\ dval 0 ds = x /\ (length pre - fuel <= length pre')%nat /\
    (length pre' + length ds = length pre + 1)%nat /\
    (length ds = 1%nat \/ 10 ^ (Z.of_nat (length ds) - 1) <= x).
Proof.
  revert pre y suf x. induction fuel as [|fuel IH]; intros pre y suf x Hx Hl; cbn [int64text_loop];
    rewrite wr_app_exact by reflexivity; rewrite Z.rem_mod_nonneg, Z.quot_div_nonneg by lia;
    pose proof (Z.mod_pos_bound x 10 ltac:(lia)) as Hm; pose proof (Z.div_mod x 10 ltac:(lia)) as Hdm.
  - change (10 ^ (Z.of_nat 0 + 1)) with 10 in Hx. rewrite Z.div_small by lia.
    exists [x mod 10 + 48], pre. cbn [app].
    repeat split; try lia; try discriminate; try (left; reflexivity);
      first [ constructor; [unfold is_digit; lia|constructor] | cbn; rewrite ?Z.mod_small; lia ].
  - destruct (Z.eqb_spec (x / 10) 0) as [E|E].
    + exists [x mod 10 + 48], pre. cbn [app].
      repeat split; try lia; try discriminate; try (left; reflexivity);
        first [ constructor; [unfold is_digit; lia|constructor] | cbn; lia ].
    + destruct (exists_last (l := pre)) as (pre0 & y0 & ->); [intros ->; cbn in Hl; lia|].
      rewrite length_app in *. cbn [length] in *.
      replace (Z.of_nat (length pre0 + 1) - 1) with (Z.of_nat (length pre0)) by lia.
      rewrite <- app_assoc. cbn [app].
      destruct (IH pre0 y0 (x mod 10 + 48 :: suf) (x / 10)) as (ds & pre' & -> & Hd & Hne & Hv & Hl1 & Hl2 & Hmin).
      * split; [apply Z.div_pos; lia|]. apply Z.div_lt_upper_bound; [lia|].
        replace (10 * 10 ^ (Z.of_nat fuel + 1)) with (10 ^ (Z.of_nat (S fuel) + 1)); [lia|].
        replace (Z.of_nat (S fuel) + 1) with (Z.succ (Z.of_nat fuel + 1)) by lia. rewrite Z.pow_succ_r; lia.
      * lia.
      * exists (ds ++ [x mod 10 + 48]), pre'. rewrite <- app_assoc. cbn [app]. repeat split; try lia.
        -- apply Forall_app. split; [assumption|]. repeat constructor; unfold is_digit; lia.
        -- now destruct ds.
        -- rewrite dval_app, Hv. cbn. lia.
        -- rewrite length_app. cbn. lia.
        -- right. rewrite length_app, Nat2Z.inj_add. cbn [length Z.of_nat Pos.of_succ_nat].
           destruct ds as [|d ds]; [congruence|]. cbn [length] in *.
           replace (Z.of_nat (S (length ds)) + 1 - 1) with (Z.succ (Z.of_nat (length ds))) by lia.
           rewrite Z.pow_succ_r by lia.
           replace (Z.of_nat (S (length ds)) - 1) with (Z.of_nat (length ds)) in Hmin by lia.
           destruct Hmin as [Hmin|Hmin]; [|lia]. injection Hmin as ->. cbn. lia.
Qed.

(** The text is an optional minus sign, the digits of the absolute value and
    the terminator. *)
Lemma sqlite3Int64ToText_spec v : is_i64 v ->
  exists ds, sqlite3Int64ToText v =
      (sign_text (v <? 0) false ++ ds ++ [0], Z.of_nat (length (sign_text (v <? 0) false ++ ds))) /\
    digits ds /\ ds <> [] /\ dval 0 ds = Z.abs v /\ (length ds <= 19)%nat.
Proof.
  unfold is_i64. intros Hv. unfold sqlite3Int64ToText.
  assert (Hx : (if v <? 0 then if v =? SMALLEST_INT64 then u64 (Z.shiftl 1 63) else u64 (- v) else v) = Z.abs v).
  { assert (HS : SMALLEST_INT64 = - 2 ^ 63) by reflexivity. rewrite HS.
    ltb_cases; try lia.
    - subst v. reflexivity.
    - rewrite u64_small by (unfold is_u64; lia). lia. }
  rewrite Hx. change (wr (repeat 0 22) 21 0) with (repeat 0 20 ++ 0 :: [0]).
  destruct (int64text_loop_spec 19 (repeat 0 20) 0 [0] (Z.abs v)) as (ds & pre & Heq & Hd & Hne & Hval & Hl1 & Hl2 & Hmin).
  { change (10 ^ (Z.of_nat 19 + 1)) with 100000000000000000000. lia. }
  { cbn. lia. }
  change (Z.of_nat (length (repeat 0 20))) with 20 in Heq. rewrite Heq.
  assert (Hlen : (length ds <= 19)%nat).
  { destruct Hmin as [->|Hmin]; [lia|]. destruct (Nat.le_gt_cases (length ds) 19); [assumption|].
    assert (10 ^ 19 <= 10 ^ (Z.of_nat (length ds) - 1)) by (apply Z.pow_le_mono_r; lia).
    change (10 ^ 19) with 10000000000000000000 in *. lia. }
  exists ds. cbn [length repeat] in Hl1, Hl2. split; [|repeat split; assumption].
  destruct (Z.ltb_spec v 0); cbn [sign_text app].
  - destruct (exists_last (l := pre)) as (pre0 & y0 & ->); [intros ->; cbn in Hl1; lia|].
    rewrite length_app in *. cbn [length] in *.
    replace (Z.of_nat (length pre0 + 1) - 1) with (Z.of_nat (length pre0)) by lia.
    rewrite <- app_assoc. cbn [app]. rewrite wr_app_exact by reflexivity.
    rewrite Nat2Z.id, skipn_app, skipn_all2, Nat.sub_diag by lia. cbn [app skipn]. f_equal. lia.
  - rewrite Nat2Z.id, skipn_app, skipn_all2, Nat.sub_diag by lia. cbn [app skipn]. f_equal. lia.
Qed.

(** ** Properties *)

(** [sqlite3Atoi64] on UTF-8 text made of spaces, an optional sign, any
    number of digits and trailing spaces returns the integer and 0 when it
    fits in 64 bits, 3 for +9223372036854775808, and 2 with the value clamped
    to the nearest bound for everything larger; leading zeros do not count. *)
Theorem sqlite3Atoi64_correct sp neg plus ds tr : spaces sp -> digits ds -> ds <> [] -> spaces tr ->
  let z := sp ++ sign_text neg plus ++ ds ++ tr in
  sqlite3Atoi64 z (Z.of_nat (length z)) SQLITE_UTF8 = atoi64_spec neg (dval 0 ds).
Proof. apply sqlite3Atoi64_text. Qed.

Lemma sqlite3Atoi64_correct_witness :
  sqlite3Atoi64 ([32] ++ [45] ++ [48; 52; 50] ++ [10]) 6 SQLITE_UTF8 = (0, -42).
Proof.
  assert (H1 : spaces [32]) by (repeat constructor; unfold is_u8; lia).
  assert (H2 : digits [48; 52; 50]) by (repeat constructor; unfold is_digit; lia).
  assert (H3 : spaces [10]) by (repeat constructor; unfold is_u8; lia).
  exact (sqlite3Atoi64_correct [32] true false [48; 52; 50] [10] H1 H2 ltac:(discriminate) H3).
Defined.

(** Converting any 64-bit integer to text and back is the identity: for
    the text and length that [sqlite3Int64ToText] stores, [sqlite3Atoi64]
    returns 0 and the integer. *)
Theorem int64_text_roundtrip v : is_i64 v ->
  let (z, n) := sqlite3Int64ToText v in
  sqlite3Atoi64 (firstn (Z.to_nat n) z) n SQLITE_UTF8 = (0, v) /\ 1 <= n <= 20.
Proof.
  intros Hv. destruct (sqlite3Int64ToText_spec v Hv) as (ds & -> & Hd & Hne & Hval & Hlen).
  rewrite Nat2Z.id, app_assoc, firstn_app, firstn_all, Nat.sub_diag. cbn [firstn]. rewrite app_nil_r.
  assert (Hsp : spaces []) by constructor.
  pose proof (sqlite3Atoi64_text [] (v <? 0) false ds [] Hsp Hd Hne Hsp) as H.
  cbv zeta in H. rewrite !app_nil_r in H. cbn [app] in H. rewrite H, Hval.
  unfold is_i64 in Hv. split.
  - unfold atoi64_spec, LARGEST_INT64. destruct (Z.ltb_spec v 0); ltb_cases; try lia; f_equal; lia.
  - rewrite length_app. destruct ds as [|d ds]; [congruence|].
    destruct (v <? 0); cbn [sign_text length] in *; lia.
Qed.

Lemma int64_text_roundtrip_witness :
  sqlite3Atoi64 [45; 55] 2 SQLITE_UTF8 = (0, -7).
Proof. exact (proj1 (int64_text_roundtrip (-7) ltac:(unfold is_i64; lia))). Defined.

Lemma digit_char c : is_digit c -> sqlite3Isdigit c = true.
Proof.
  unfold is_digit. intros H. assert (Hc : is_u8 c) by (unfold is_u8; lia).
  assert (E : sqlite3Isdigit c = in_range 48 57 c).
  { apply eqb_prop. revert c H Hc. intros c _. revert c.
    apply (byte_forall (fun c => eqb (sqlite3Isdigit c) (in_range 48 57 c))). vm_compute. reflexivity. }
  rewrite E. unfold in_range. apply andb_true_iff. lia.
Qed.

Lemma getuint32_loop_spec ds v i : digits ds -> 0 <= v <= 2 ^ 32 ->
  getuint32_loop v i ds =
  if 2 ^ 32 <? dval v ds then None else Some (dval v ds, i + Z.of_nat (length ds), []).
Proof.
  intros Hd. revert v i. induction Hd as [|c ds Hc Hds IH]; intros v i Hv; cbn [getuint32_loop].
  - cbn [dval fold_left length]. destruct (Z.ltb_spec (2 ^ 32) v); [lia|]. f_equal; f_equal; f_equal; cbn; lia.
  - rewrite (digit_char c Hc). unfold is_digit in Hc.
    rewrite u64_small by (unfold is_u64; lia). change 4294967296 with (2 ^ 32).
    change (dval v (c :: ds)) with (dval (v * 10 + c - 48) ds).
    destruct (Z.ltb_spec (2 ^ 32) (v * 10 + c - 48)).
    + rewrite dval_acc. pose proof (dval_bound ds Hds). pose proof (Z.pow_pos_nonneg 10 (Z.of_nat (length ds))).
      destruct (Z.ltb_spec (2 ^ 32) ((v * 10 + c - 48) * 10 ^ Z.of_nat (length ds) + dval 0 ds)); [reflexivity|nia].
    + rewrite IH by lia. destruct (2 ^ 32 <? dval (v * 10 + c - 48) ds); [reflexivity|].
      f_equal; f_equal; f_equal. cbn [length]. lia.
Qed.

(** [sqlite3GetUInt32] accepts a decimal number that fits in 32 bits with
    its value and refuses one above 2^32; but 2^32 itself, which does not fit,
    is accepted with value 0. *)
Theorem sqlite3GetUInt32_decimal ds : digits ds -> ds <> [] ->
  (dval 0 ds < 2 ^ 32 -> sqlite3GetUInt32 ds = (1, dval 0 ds)) /\
  (dval 0 ds = 2 ^ 32 -> sqlite3GetUInt32 ds = (1, 0)) /\
  (2 ^ 32 < dval 0 ds -> sqlite3GetUInt32 ds = (0, 0)).
Proof.
  intros Hd Hne. unfold sqlite3GetUInt32. rewrite getuint32_loop_spec by (assumption || lia).
  pose proof (dval_bound ds Hd) as Hb.
  assert (Hl : (0 + Z.of_nat (length ds) =? 0) = false) by (apply Z.eqb_neq; destruct ds; [congruence|cbn; lia]).
  destruct (Z.ltb_spec (2 ^ 32) (dval 0 ds)); rewrite ?Hl; cbn [orb negb rd nth Z.to_nat Z.eqb];
    repeat split; intros H'; try lia; try reflexivity.
  - unfold u32. now rewrite Z.mod_small by lia.
  - now rewrite H'.
Qed.

Lemma sqlite3GetUInt32_decimal_witness :
  sqlite3GetUInt32 [52; 50; 57; 52; 57; 54; 55; 50; 57; 54] = (1, 0).
Proof.
  apply (proj1 (proj2 (sqlite3GetUInt32_decimal [52; 50; 57; 52; 57; 54; 55; 50; 57; 54]
    ltac:(repeat constructor; unfold is_digit; lia) ltac:(discriminate)))).
  reflexivity.
Defined.

(** The digit loop of [sqlite3GetInt32]: at most eleven digits are read. *)
Lemma getint32_digits_spec fuel ds tr v i : digits ds ->
  match tr with [] => True | c :: _ => ~ is_digit c end -> 0 <= v ->
  v * 10 ^ Z.of_nat fuel + 10 ^ Z.of_nat fuel <= 2 ^ 63 ->
  exists w, getint32_digits fuel v i (ds ++ tr) = (w, i + Z.of_nat (Nat.min fuel (length ds))) /\
    ((length ds <= fuel)%nat -> w = dval v ds).
Proof.
  intros Hd Htr. revert fuel v i. induction Hd as [|c ds Hc Hds IH]; intros fuel v i Hv Hb; cbn [app].
  - exists v. rewrite Nat.min_0_r. split; [|reflexivity].
    destruct fuel as [|fuel], tr as [|c tr]; cbn [getint32_digits]; try (f_equal; lia).
    unfold is_digit in Htr. replace ((0 <=? c - 48) && (c - 48 <=? 9)) with false
      by (symmetry; apply andb_false_iff; lia). f_equal. lia.
  - destruct fuel as [|fuel]; cbn [getint32_digits].
    + exists v. split; [f_equal; cbn; lia|cbn; lia].
    + unfold is_digit in Hc. replace ((0 <=? c - 48) && (c - 48 <=? 9)) with true
        by (symmetry; apply andb_true_iff; lia).
      rewrite Nat2Z.inj_succ, Z.pow_succ_r in Hb by lia.
      pose proof (Z.pow_pos_nonneg 10 (Z.of_nat fuel) ltac:(lia) ltac:(lia)) as Hp.
      rewrite i64_id by (unfold is_i64; nia).
      destruct (IH fuel (v * 10 + (c - 48)) (i + 1)) as (w & -> & Hw); [lia|nia|].
      exists w. split; [f_equal; cbn [length Nat.min]; lia|].
      change (dval v (c :: ds)) with (dval (v * 10 + c - 48) ds). cbn [length]. intros Hle.
      rewrite Hw by lia. f_equal. lia.
Qed.

(** [sqlite3GetInt32] on a decimal integer with an optional sign, followed
    by anything that is neither a digit nor makes a hexadecimal prefix, returns
    its value exactly when it fits in 32 bits. *)
Theorem sqlite3GetInt32_decimal (neg plus : bool) ds tr : digits ds -> ds <> [] ->
  match tr with [] => True | c :: _ => ~ is_digit c /\ c <> 120 /\ c <> 88 end ->
  let n := if neg then - dval 0 ds else dval 0 ds in
  sqlite3GetInt32 (sign_text neg plus ++ ds ++ tr) =
  if (- 2 ^ 31 <=? n) && (n <=? 2 ^ 31 - 1) then Some n else None.
Proof.
  intros Hd Hne Htr.
  assert (Hend : match tr with [] => True | c :: _ => ~ is_digit c end) by (destruct tr; tauto).
  assert (Hcore : forall neg' : bool, (if negb (sqlite3Isdigit (rd (ds ++ tr) 0)) then None else
      let zNum := skip_while (fun c => c =? 48) (ds ++ tr) in
      let '(v, i) := getint32_digits 11 0 0 zNum in
      if 10 <? i then None else if 2147483647 <? v - Z.b2z neg' then None
      else let v := if neg' then - v else v in Some (i32 v)) =
    let n := if neg' then - dval 0 ds else dval 0 ds in
    if (- 2 ^ 31 <=? n) && (n <=? 2 ^ 31 - 1) then Some n else None).
  { intros neg'. destruct (skip_zeros ds tr Hd Hend) as (zs & ds' & Hds & -> & Hval & Hh).
    replace (sqlite3Isdigit (rd (ds ++ tr) 0)) with true
      by (destruct ds as [|d ds]; [congruence|]; symmetry; apply digit_char; now inversion Hd).
    assert (Hd' : digits ds') by (rewrite Hds in Hd; apply Forall_app in Hd; tauto).
    cbv zeta. cbn [negb].
    destruct (getint32_digits_spec 11 ds' tr 0 0 Hd' Hend ltac:(lia) ltac:(cbn; lia)) as (w & -> & Hw).
    rewrite <- Hval. pose proof (dval_bound ds' Hd') as Hb.
    destruct (Z.ltb_spec 10 (0 + Z.of_nat (Nat.min 11 (length ds')))).
    - assert (10 ^ 10 <= dval 0 ds').
      { destruct ds' as [|d ds']; [cbn in *; lia|]. rewrite dval_cons.
        apply Forall_cons_iff in Hd' as [_ Hd']. pose proof (dval_bound ds' Hd').
        assert (10 ^ 10 <= 10 ^ Z.of_nat (length ds')) by (apply Z.pow_le_mono_r; cbn [length] in *; lia).
        change (10 ^ 10) with 10000000000 in *. nia. }
      change (10 ^ 10) with 10000000000 in *. destruct neg'; ltb_cases; cbn [andb]; try lia; reflexivity.
    - rewrite Hw by lia. destruct neg'; cbn [Z.b2z]; ltb_cases; cbn [andb]; try lia; try reflexivity;
        unfold i32; rewrite Z.mod_small by lia; f_equal; lia. }
  destruct ds as [|d ds0] eqn:Eds; [congruence|]. rewrite <- Eds in *.
  assert (Hdd : is_digit d) by (rewrite Eds in Hd; now inversion Hd). unfold is_digit in Hdd.
  intros n. unfold sqlite3GetInt32. destruct neg; [|destruct plus]; cbn [sign_text app].
  - change (rd (45 :: ds ++ tr) 0) with 45. cbn [Z.eqb Pos.eqb tl]. apply (Hcore true).
  - change (rd (43 :: ds ++ tr) 0) with 43. cbn [Z.eqb Pos.eqb tl]. apply (Hcore false).
  - assert (H0 : rd (ds ++ tr) 0 = d) by (rewrite Eds; reflexivity). rewrite H0.
    destruct (Z.eqb_spec d 45); [lia|]. destruct (Z.eqb_spec d 43); [lia|].
    replace ((d =? 48) && _ && _) with false; [rewrite <- H0; apply (Hcore false)|].
    symmetry. apply andb_false_iff. left. apply andb_false_iff. right.
    assert (H1 : rd (ds ++ tr) 1 <> 120 /\ rd (ds ++ tr) 1 <> 88).
    { rewrite Eds in Hd |- *. apply Forall_cons_iff in Hd as [_ Hd0].
      destruct ds0 as [|d1 ds0]; cbn [app]; buf_simpl.
      - destruct tr as [|c tr]; cbn [nth]; [lia|tauto].
      - apply Forall_cons_iff in Hd0 as [Hd1 _]. unfold is_digit in Hd1. lia. }
    apply orb_false_iff. rewrite !Z.eqb_neq. tauto.
Qed.

Lemma sqlite3GetInt32_decimal_witness :
  sqlite3GetInt32 ([45] ++ [50; 49] ++ [32]) = Some (-21).
Proof.
  assert (H1 : digits [50; 49]) by (repeat constructor; unfold is_digit; lia).
  exact (sqlite3GetInt32_decimal true false [50; 49] [32] H1 ltac:(discriminate)
    ltac:(unfold is_digit; lia)).
Defined.

(** ** Quoting *)

Definition closing (q : Z) : Z := if q =? 91 then 93 else q.

(** SQL quoting: the closing character is doubled inside the text. *)
Fixpoint escape (q : Z) (s : list Z) : list Z :=
  match s with
  | [] => []
  | c :: s' => if c =? q then c :: c :: escape q s' else c :: escape q s'
  end.

Lemma dequote_loop_escape q s fuel : q <> 0 -> (length s < fuel)%nat ->
  dequote_loop fuel q (escape q s ++ [q]) = s.
Proof.
  intros Hq. revert fuel. induction s as [|c s IH]; intros fuel Hf; (destruct fuel as [|fuel]; [lia|]);
    cbn [escape app dequote_loop].
  - change (rd [q] 0) with q. rewrite Z.eqb_refl. change (rd [q] 1) with 0.
    destruct (Z.eqb_spec 0 q); [lia|reflexivity].
  - cbn [length] in Hf. destruct (Z.eqb_spec c q) as [->|Hne]; cbn [app].
    + change (rd (q :: q :: escape q s ++ [q]) 0) with q. change (rd (q :: q :: escape q s ++ [q]) 1) with q.
      rewrite Z.eqb_refl. cbn [skipn]. now rewrite IH by lia.
    + change (rd (c :: escape q s ++ [q]) 0) with c. destruct (Z.eqb_spec c q); [lia|]. now rewrite IH by lia.
Qed.

Lemma length_escape q s : (length s <= length (escape q s))%nat.
Proof. induction s as [|c s IH]; cbn; [lia|]. destruct (c =? q); cbn; lia. Qed.

(** [sqlite3Dequote] undoes SQL quoting: for each of the four opening
    quotes, the quoted form of a text, with the closing character doubled,
    becomes the text again, and a string that does not start with a quote is
    left alone. *)
Theorem sqlite3Dequote_correct q s :
  (In q [34; 39; 91; 96] -> sqlite3Dequote (Some (q :: escape (closing q) s ++ [closing q])) = Some s) /\
  (sqlite3Isquote (rd s 0) = false -> sqlite3Dequote (Some s) = Some s).
Proof.
  split.
  - intros Hq. unfold sqlite3Dequote.
    change (rd (q :: _) 0) with q.
    assert (Hi : sqlite3Isquote q = true)
      by (cbn in Hq; destruct Hq as [<-|[<-|[<-|[<-|[]]]]]; reflexivity).
    rewrite Hi. cbn [negb]. fold (closing q).
    assert (closing q <> 0) by (cbn in Hq; destruct Hq as [<-|[<-|[<-|[<-|[]]]]]; discriminate).
    cbn [tl]. rewrite dequote_loop_escape; [reflexivity|assumption|].
    cbn [length]. rewrite length_app. pose proof (length_escape (closing q) s). lia.
  - intros H. unfold sqlite3Dequote. rewrite H. reflexivity.
Qed.

Lemma sqlite3Dequote_correct_witness :
  sqlite3Dequote (Some [39; 105; 39; 39; 109; 39]) = Some [105; 39; 109].
Proof. exact (proj1 (sqlite3Dequote_correct 39 [105; 39; 109]) ltac:(cbn; tauto)). Defined.
