(* ===== verification/Utf.v ===== *)
(** * Utf: UTF-8 and UTF-16

    Models [utf.c] of [src/api-core/src/db/sqlite3.c]: reading and writing one
    character in each encoding, the conversion of a value between encodings
    ([sqlite3VdbeMemTranslate]), byte-order marks and the character-count
    functions.  A pointer into text is the list of the bytes from there to the
    end of the text; reading at the end gives the terminator 0. *)

From Stdlib Require Import ZArith List Lia Bool.
Import ListNotations.
From S2P Require Import Prelude IntArith IntText.
#[local] Open Scope Z_scope.

Definition sqlite3Utf8Trans1 : list Z :=
  [0; 1; 2; 3; 4; 5; 6; 7;
   8; 9; 10; 11; 12; 13; 14; 15;
   16; 17; 18; 19; 20; 21; 22; 23;
   24; 25; 26; 27; 28; 29; 30; 31;
   0; 1; 2; 3; 4; 5; 6; 7;
   8; 9; 10; 11; 12; 13; 14; 15;
   0; 1; 2; 3; 4; 5; 6; 7;
   0; 1; 2; 3; 0; 1; 0; 0].

(** ** Writing one character *)

(** The bytes that the macro stores. *)
Definition WRITE_UTF8 (c : Z) : list Z :=
  if c <? 0x00080 then [u8 (Z.land c 0xFF)]
  else if c <? 0x00800 then
    [0xC0 + u8 (Z.land (Z.shiftr c 6) 0x1F); 0x80 + u8 (Z.land c 0x3F)]
  else if c <? 0x10000 then
    [0xE0 + u8 (Z.land (Z.shiftr c 12) 0x0F); 0x80 + u8 (Z.land (Z.shiftr c 6) 0x3F);
     0x80 + u8 (Z.land c 0x3F)]
  else
    [0xF0 + u8 (Z.land (Z.shiftr c 18) 0x07); 0x80 + u8 (Z.land (Z.shiftr c 12) 0x3F);
     0x80 + u8 (Z.land (Z.shiftr c 6) 0x3F); 0x80 + u8 (Z.land c 0x3F)].

Definition WRITE_UTF16LE (c : Z) : list Z :=
  if c <=? 0xFFFF then [u8 (Z.land c 0x00FF); u8 (Z.land (Z.shiftr c 8) 0x00FF)]
  else
    [u8 (Z.land (Z.shiftr c 10) 0x003F + Z.land (Z.shiftr (c - 0x10000) 10) 0x00C0);
     u8 (0x00D8 + Z.land (Z.shiftr (c - 0x10000) 18) 0x03);
     u8 (Z.land c 0x00FF); u8 (0x00DC + Z.land (Z.shiftr c 8) 0x03)].

Definition WRITE_UTF16BE (c : Z) : list Z :=
  if c <=? 0xFFFF then [u8 (Z.land (Z.shiftr c 8) 0x00FF); u8 (Z.land c 0x00FF)]
  else
    [u8 (0x00D8 + Z.land (Z.shiftr (c - 0x10000) 18) 0x03);
     u8 (Z.land (Z.shiftr c 10) 0x003F + Z.land (Z.shiftr (c - 0x10000) 10) 0x00C0);
     u8 (0x00DC + Z.land (Z.shiftr c 8) 0x03); u8 (Z.land c 0x00FF)].

(** The bytes stored at [zOut] and the return value. *)
Definition sqlite3AppendOneUtf8Character (v : Z) : list Z * Z :=
  if v <? 0x00080 then ([u8 (Z.land v 0xff)], 1)
  else if v <? 0x00800 then
    ([0xc0 + u8 (Z.land (Z.shiftr v 6) 0x1f); 0x80 + u8 (Z.land v 0x3f)], 2)
  else if v <? 0x10000 then
    ([0xe0 + u8 (Z.land (Z.shiftr v 12) 0x0f); 0x80 + u8 (Z.land (Z.shiftr v 6) 0x3f);
      0x80 + u8 (Z.land v 0x3f)], 3)
  else
    ([0xf0 + u8 (Z.land (Z.shiftr v 18) 0x07); 0x80 + u8 (Z.land (Z.shiftr v 12) 0x3f);
      0x80 + u8 (Z.land (Z.shiftr v 6) 0x3f); 0x80 + u8 (Z.land v 0x3f)], 4).

(** ** Reading one character *)

Definition is_cont (b : Z) : bool := Z.land b 0xc0 =? 0x80.

(** [while( zIn<zTerm && (zIn[0] & 0xc0)==0x80 ) c = (c<<6) + (0x3f & zIn[0])];
    the terminator 0 of a C string ends it as [zTerm] does. *)
Fixpoint read_cont (c : Z) (z : list Z) : Z * list Z :=
  match z with
  | [] => (c, [])
  | b :: z' => if is_cont b then read_cont (u32 (u32 (Z.shiftl c 6) + Z.land 0x3f b)) z' else (c, z)
  end.

(** The substitution of malformed characters. *)
Definition fix_char (c : Z) : Z :=
  if (c <? 0x80) || (Z.land c 0xFFFFF800 =? 0xD800) || (Z.land c 0xFFFFFFFE =? 0xFFFE)
  then 0xFFFD else c.

(** [READ_UTF8] on the text up to [zTerm], and [sqlite3Utf8Read] on the text
    up to the terminator: the character and the text after it. *)
Definition READ_UTF8 (z : list Z) : Z * list Z :=
  let c := rd z 0 in
  let z := tl z in
  if 0xc0 <=? c then
    let '(c, z) := read_cont (rd sqlite3Utf8Trans1 (c - 0xc0)) z in (fix_char c, z)
  else (c, z).

Definition sqlite3Utf8Read (z : list Z) : Z * list Z :=
  let c := rd z 0 in
  let z := tl z in
  if 0xc0 <=? c then
    let '(c, z) := read_cont (rd sqlite3Utf8Trans1 (c - 0xc0)) z in (fix_char c, z)
  else (c, z).

(** [while( i<n && (z[i] & 0xc0)==0x80 )] with at most three rounds. *)
Fixpoint read_limited (fuel : nat) (c i n : Z) (z : list Z) : Z * Z :=
  match fuel with
  | O => (c, i)
  | S fuel' =>
      if (i <? n) && is_cont (rd z i)
      then read_limited fuel' (u32 (u32 (Z.shiftl c 6) + Z.land 0x3f (rd z i))) (i + 1) n z
      else (c, i)
  end.

(** Returns [(return value, *piOut)]. *)
Definition sqlite3Utf8ReadLimited (z : list Z) (n : Z) : Z * Z :=
  let c := rd z 0 in
  if 0xc0 <=? c then
    let n := if 4 <? n then 4 else n in
    let '(c, i) := read_limited 3 (rd sqlite3Utf8Trans1 (c - 0xc0)) 1 n z in (i, c)
  else (1, c).

Fixpoint skip_cont (z : list Z) : list Z :=
  match z with
  | [] => []
  | b :: z' => if is_cont b then skip_cont z' else z
  end.

Definition SQLITE_SKIP_UTF8 (z : list Z) : list Z :=
  if 0xc0 <=? rd z 0 then skip_cont (tl z) else tl z.

(** [while( z[0]!=0 && z<zTerm ){ SQLITE_SKIP_UTF8(z); r++; }] where [n] bytes
    are left before [zTerm], or [None] for no limit. *)
Fixpoint charlen_loop (fuel : nat) (r : Z) (z : list Z) (n : option Z) : Z :=
  match fuel with
  | O => r
  | S fuel' =>
      if negb (rd z 0 =? 0) && match n with None => true | Some k => 0 <? k end then
        let z' := SQLITE_SKIP_UTF8 z in
        charlen_loop fuel' (r + 1) z'
          (match n with None => None | Some k => Some (k - Z.of_nat (length z - length z')) end)
      else r
  end.

Definition sqlite3Utf8CharLen (z : list Z) (nByte : Z) : Z :=
  charlen_loop (length z) 0 z (if 0 <=? nByte then Some nByte else None).

(** [sqlite3Utf16ByteLen] on a little-endian machine: [k] is [z - zIn]. *)
Fixpoint utf16bytelen_loop (fuel : nat) (z : list Z) (nByte nChar k n : Z) : Z :=
  match fuel with
  | O => k
  | S fuel' =>
      if (n <? nChar) && (k <=? nByte - 1) then
        let c := rd z k in
        let k := k + 2 in
        let k := if (0xd8 <=? c) && (c <? 0xdc) && (k <=? nByte - 1)
                    && (0xdc <=? rd z k) && (rd z k <? 0xe0) then k + 2 else k in
        utf16bytelen_loop fuel' z nByte nChar k (n + 1)
      else k
  end.

Definition sqlite3Utf16ByteLen (z : list Z) (nByte nChar : Z) : Z :=
  utf16bytelen_loop (Z.to_nat nChar) z nByte nChar 1 0 - 1.

(** ** Converting a value *)

Definition MEM_Str : Z := 0x0002.
Definition MEM_Term : Z := 0x0200.
Definition MEM_AffMask : Z := 0x003f.
Definition MEM_Subtype : Z := 0x0800.

(** The fields of a [Mem] that the routines use: [mem_z] holds the bytes
    [z[0..n-1]]. *)
Record Mem := mkMem { mem_z : list Z; mem_flags : Z; mem_enc : Z }.

Definition SQLITE_OK : Z := 0.
Definition SQLITE_NOMEM : Z := 7.

(** The swap loop, up to [zTerm = &z[n&~1]]. *)
Fixpoint swap_bytes (z : list Z) : list Z :=
  match z with
  | a :: b :: z' => b :: a :: swap_bytes z'
  | _ => z
  end.

(** [while( zIn<zTerm ){ READ_UTF8(zIn, zTerm, c); WRITE(z, c); }] *)
Fixpoint from_utf8_loop (fuel : nat) (write : Z -> list Z) (z : list Z) : list Z :=
  match fuel with
  | O => []
  | S fuel' =>
      match z with
      | [] => []
      | _ => let '(c, z) := READ_UTF8 z in write c ++ from_utf8_loop fuel' write z
      end
  end.

(** A surrogate [c] and the code unit [c2] after it. *)
Definition join_surrogates (c c2 : Z) : Z :=
  Z.land c2 0x03FF + Z.shiftl (Z.land c 0x003F) 10 + Z.shiftl (Z.land c 0x03C0 + 0x0040) 10.

Section FromUtf16.
(** [unit b0 b1] is the code unit stored in two bytes. *)
Variable unit : Z -> Z -> Z.

Fixpoint from_utf16_loop (fuel : nat) (z : list Z) : list Z :=
  match fuel with
  | O => []
  | S fuel' =>
      match z with
      | b0 :: b1 :: z =>
          let c := unit b0 b1 in
          if (0xd800 <=? c) && (c <? 0xe000) then
            match z with
            | b2 :: b3 :: z => WRITE_UTF8 (join_surrogates c (unit b2 b3)) ++ from_utf16_loop fuel' z
            | _ => WRITE_UTF8 c ++ from_utf16_loop fuel' z
            end
          else WRITE_UTF8 c ++ from_utf16_loop fuel' z
      | _ => []
      end
  end.
End FromUtf16.

Definition unit_le (b0 b1 : Z) : Z := b0 + Z.shiftl b1 8.
Definition unit_be (b0 b1 : Z) : Z := Z.shiftl b0 8 + b1.

(** [malloc_ok] tells whether the allocation (or [sqlite3VdbeMemMakeWriteable])
    succeeds. *)
Definition sqlite3VdbeMemTranslate (malloc_ok : bool) (pMem : Mem) (desiredEnc : Z) : Z * Mem :=
  if negb (mem_enc pMem =? SQLITE_UTF8) && negb (desiredEnc =? SQLITE_UTF8) then
    if negb malloc_ok then (SQLITE_NOMEM, pMem)
    else (SQLITE_OK, mkMem (swap_bytes (mem_z pMem)) (mem_flags pMem) desiredEnc)
  else
    let n := length (mem_z pMem) in
    let z :=
      if desiredEnc =? SQLITE_UTF8 then firstn (n - n mod 2) (mem_z pMem) else mem_z pMem in
    if negb malloc_ok then (SQLITE_NOMEM, mkMem z (mem_flags pMem) (mem_enc pMem))
    else
      let zOut :=
        if mem_enc pMem =? SQLITE_UTF8 then
          if desiredEnc =? SQLITE_UTF16LE then from_utf8_loop n WRITE_UTF16LE z
          else from_utf8_loop n WRITE_UTF16BE z
        else
          if mem_enc pMem =? SQLITE_UTF16LE then from_utf16_loop unit_le n z
          else from_utf16_loop unit_be n z in
      let flags := Z.lor (Z.lor MEM_Str MEM_Term)
                     (Z.land (mem_flags pMem) (Z.lor MEM_AffMask MEM_Subtype)) in
      (SQLITE_OK, mkMem zOut flags desiredEnc).

Definition sqlite3VdbeMemHandleBom (writeable_ok : bool) (pMem : Mem) : Z * Mem :=
  let bom :=
    if (1 <? Z.of_nat (length (mem_z pMem))) then
      let b1 := rd (mem_z pMem) 0 in
      let b2 := rd (mem_z pMem) 1 in
      let bom := if (b1 =? 0xFE) && (b2 =? 0xFF) then SQLITE_UTF16BE else 0 in
      if (b1 =? 0xFF) && (b2 =? 0xFE) then SQLITE_UTF16LE else bom
    else 0 in
  if negb (bom =? 0) then
    if negb writeable_ok then (SQLITE_NOMEM, pMem)
    else (SQLITE_OK, mkMem (skipn 2 (mem_z pMem)) (Z.lor (mem_flags pMem) MEM_Term) bom)
  else (SQLITE_OK, pMem).

(** ** Bytes of a character *)

(** Code points that [WRITE_UTF8] can store. *)
Definition codepoint (c : Z) : Prop := 0 <= c < 0x110000.

(** What reading turns a stored code point into: surrogates and the two
    non-characters become U+FFFD. *)
Definition canon (c : Z) : Z :=
  if ((0xD800 <=? c) && (c <=? 0xDFFF)) || (c =? 0xFFFE) || (c =? 0xFFFF) then 0xFFFD else c.

Definition utf8_bytes (c : Z) : list Z :=
  if c <? 0x80 then [c]
  else if c <? 0x800 then [192 + c / 64; 128 + c mod 64]
  else if c <? 0x10000 then [224 + c / 4096; 128 + c / 64 mod 64; 128 + c mod 64]
  else [240 + c / 262144; 128 + c / 4096 mod 64; 128 + c / 64 mod 64; 128 + c mod 64].

Lemma u8_land c k m : 0 <= k <= 8 -> m = 2 ^ k - 1 -> u8 (Z.land c m) = c mod 2 ^ k.
Proof.
  intros Hk ->. rewrite land_low by lia. unfold u8. apply Z.mod_small.
  pose proof (Z.mod_pos_bound c (2 ^ k) ltac:(apply Z.pow_pos_nonneg; lia)).
  pose proof (Z.pow_le_mono_r 2 k 8). lia.
Qed.

Lemma WRITE_UTF8_bytes c : codepoint c -> WRITE_UTF8 c = utf8_bytes c.
Proof.
  unfold codepoint, WRITE_UTF8, utf8_bytes. intros Hc.
  rewrite !Z.shiftr_div_pow2 by lia.
  rewrite (u8_land c 8 0xFF), (u8_land _ 5 0x1F), (u8_land _ 4 0x0F), (u8_land _ 3 0x07),
    !(u8_land _ 6 0x3F) by (reflexivity || lia).
  change (2 ^ 6) with 64. change (2 ^ 12) with 4096. change (2 ^ 18) with 262144.
  change (2 ^ 8) with 256. change (2 ^ 5) with 32. change (2 ^ 4) with 16. change (2 ^ 3) with 8.
  ltb_cases; repeat apply (f_equal2 cons); try reflexivity; Z.to_euclidean_division_equations; lia.
Qed.

Lemma append_is_write v :
  sqlite3AppendOneUtf8Character v = (WRITE_UTF8 v, Z.of_nat (length (WRITE_UTF8 v))).
Proof. unfold sqlite3AppendOneUtf8Character, WRITE_UTF8. ltb_cases; reflexivity. Qed.

Lemma is_cont_range b : is_u8 b -> is_cont b = (128 <=? b) && (b <? 192).
Proof.
  intros Hb. apply eqb_prop. revert b Hb.
  apply (byte_forall (fun b => eqb (is_cont b) ((128 <=? b) && (b <? 192)))). vm_compute. reflexivity.
Qed.

Lemma cont_step c x z : 0 <= c -> c * 64 + 63 < 2 ^ 32 -> 0 <= x < 64 ->
  read_cont c (128 + x :: z) = read_cont (c * 64 + x) z.
Proof.
  intros Hc Hb Hx. cbn [read_cont]. rewrite is_cont_range by (unfold is_u8; lia).
  replace ((128 <=? 128 + x) && (128 + x <? 192)) with true by (symmetry; apply andb_true_iff; lia).
  rewrite Z.land_comm, (land_low 6), Z.shiftl_mul_pow2 by lia. unfold u32.
  replace ((128 + x) mod 2 ^ 6) with x by (Z.to_euclidean_division_equations; lia).
  rewrite (Z.mod_small (c * 2 ^ 6)), Z.mod_small by lia. reflexivity.
Qed.

Definition no_cont (z : list Z) : Prop := match z with [] => True | b :: _ => is_cont b = false end.

Lemma cont_stop c z : no_cont z -> read_cont c z = (c, z).
Proof. destruct z as [|b z]; cbn; [reflexivity|]. now intros ->. Qed.

Lemma trans1 x : 192 <= x < 248 ->
  rd sqlite3Utf8Trans1 (x - 0xc0) =
  if x <? 224 then x - 192 else if x <? 240 then x - 224 else x - 240.
Proof.
  intros Hx. assert (H : is_u8 x) by (unfold is_u8; lia). revert Hx. revert x H.
  assert (Hf : forall x, is_u8 x -> ((192 <=? x) && (x <? 248)) = true ->
    (rd sqlite3Utf8Trans1 (x - 0xc0) =? if x <? 224 then x - 192 else if x <? 240 then x - 224 else x - 240) = true).
  { intros x Hx Hr. pose proof (byte_forall (fun x => implb ((192 <=? x) && (x <? 248))
      (rd sqlite3Utf8Trans1 (x - 0xc0) =? if x <? 224 then x - 192 else if x <? 240 then x - 224 else x - 240))
      ltac:(vm_compute; reflexivity) x Hx) as H. cbv beta in H. rewrite Hr in H. exact H. }
  intros x Hx Hr. apply Z.eqb_eq, Hf; [exact Hx|]. apply andb_true_iff. lia.
Qed.

Lemma fix_char_canon c : 0x80 <= c < 0x110000 -> fix_char c = canon c.
Proof.
  intros Hc. unfold fix_char, canon.
  change 0xFFFFF800 with (2 ^ 32 - 2 ^ 11). change 0xFFFFFFFE with (2 ^ 32 - 2 ^ 1).
  rewrite !land_high by lia. change (2 ^ 11) with 2048. change (2 ^ 1) with 2.
  destruct (Z.ltb_spec c 0x80); [lia|]. cbn [orb].
  replace (c / 2048 * 2048 =? 0xD800) with ((0xD800 <=? c) && (c <=? 0xDFFF))
    by (apply eq_true_iff_eq; rewrite andb_true_iff, !Z.leb_le, Z.eqb_eq; Z.to_euclidean_division_equations; lia).
  replace (c / 2 * 2 =? 0xFFFE) with ((c =? 0xFFFE) || (c =? 0xFFFF))
    by (apply eq_true_iff_eq; rewrite orb_true_iff, !Z.eqb_eq; Z.to_euclidean_division_equations; lia).
  now rewrite orb_assoc.
Qed.

Lemma read_utf8_bytes c rest : codepoint c -> no_cont rest ->
  sqlite3Utf8Read (utf8_bytes c ++ rest) = (canon c, rest).
Proof.
  unfold codepoint, utf8_bytes. intros Hc Hr. unfold sqlite3Utf8Read.
  assert (Hdiv : 0 <= c / 64 mod 64 < 64 /\ 0 <= c mod 64 < 64 /\ 0 <= c / 4096 mod 64 < 64)
    by (repeat split; apply Z.mod_pos_bound; lia).
  destruct (Z.ltb_spec c 0x80); [|destruct (Z.ltb_spec c 0x800); [|destruct (Z.ltb_spec c 0x10000)]];
    cbn [app tl]; rewrite rd_0; cbv zeta.
  - destruct (Z.leb_spec 0xc0 c); [lia|]. f_equal. unfold canon.
    replace (((0xD800 <=? c) && (c <=? 0xDFFF)) || (c =? 0xFFFE) || (c =? 0xFFFF)) with false; [reflexivity|].
    lia.
  - assert (2 <= c / 64 < 32) by (Z.to_euclidean_division_equations; lia).
    destruct (Z.leb_spec 0xc0 (192 + c / 64)); [|lia]. rewrite trans1 by lia. destruct (Z.ltb_spec (192 + c / 64) 224); [|lia].
    rewrite cont_step by lia. rewrite cont_stop by assumption.
    replace ((192 + c / 64 - 192) * 64 + c mod 64) with c by (Z.to_euclidean_division_equations; lia).
    now rewrite fix_char_canon by lia.
  - assert (0 <= c / 4096 < 16) by (Z.to_euclidean_division_equations; lia).
    destruct (Z.leb_spec 0xc0 (224 + c / 4096)); [|lia]. rewrite trans1 by lia. ltb_cases; try lia.
    rewrite !cont_step by lia. rewrite cont_stop by assumption.
    replace (((224 + c / 4096 - 224) * 64 + c / 64 mod 64) * 64 + c mod 64) with c
      by (Z.to_euclidean_division_equations; lia).
    now rewrite fix_char_canon by lia.
  - assert (0 <= c / 262144 < 5) by (Z.to_euclidean_division_equations; lia).
    destruct (Z.leb_spec 0xc0 (240 + c / 262144)); [|lia]. rewrite trans1 by lia. ltb_cases; try lia.
    rewrite !cont_step by lia. rewrite cont_stop by assumption.
    replace ((((240 + c / 262144 - 240) * 64 + c / 4096 mod 64) * 64 + c / 64 mod 64) * 64 + c mod 64) with c
      by (Z.to_euclidean_division_equations; lia).
    now rewrite fix_char_canon by lia.
Qed.

(** ** UTF-16 code units *)

(** Code points that survive a round trip. *)
Definition scalar (c : Z) : Prop := codepoint c /\ canon c = c.

Lemma scalar_range c : scalar c -> 0 <= c < 0x110000 /\ ~ (0xD800 <= c < 0xE000).
Proof. unfold scalar, codepoint, canon. intros [H E]. split; [exact H|]. intros Hs. destruct (_ || _) eqn:Eb in E; lia. Qed.

(** One or two code units. *)
Definition units (c : Z) : list Z :=
  if c <=? 0xFFFF then [c] else [0xD800 + (c - 0x10000) / 1024; 0xDC00 + c mod 1024].

Definition le_bytes (u : Z) : list Z := [u mod 256; u / 256].
Definition be_bytes (u : Z) : list Z := [u / 256; u mod 256].

Lemma high_surrogate_low_byte c : 0x10000 <= c < 0x110000 ->
  Z.land (Z.shiftr c 10) 0x003F + Z.land (Z.shiftr (c - 0x10000) 10) 0x00C0
  = (c - 0x10000) / 1024 mod 256.
Proof.
  intros Hc. change 0x3F with (2 ^ 6 - 1). change 0xC0 with (2 ^ 8 - 2 ^ 6).
  rewrite land_low, land_mid, !Z.shiftr_div_pow2 by lia.
  change (2 ^ 10) with 1024. change (2 ^ 8) with 256. change (2 ^ 6) with 64.
  Z.to_euclidean_division_equations; lia.
Qed.

Lemma utf16_stores c : codepoint c ->
  WRITE_UTF16LE c = flat_map le_bytes (units c) /\ WRITE_UTF16BE c = flat_map be_bytes (units c).
Proof.
  unfold codepoint. intros Hc. unfold WRITE_UTF16LE, WRITE_UTF16BE, units.
  destruct (Z.leb_spec c 0xFFFF).
  - rewrite !(u8_land _ 8 0xFF), Z.shiftr_div_pow2 by (reflexivity || lia).
    change (2 ^ 8) with 256. rewrite (Z.mod_small (c / 256)) by (Z.to_euclidean_division_equations; lia).
    split; reflexivity.
  - rewrite high_surrogate_low_byte, (u8_land c 8 0xFF) by (reflexivity || lia).
    change 0x03 with (2 ^ 2 - 1). rewrite !land_low, !Z.shiftr_div_pow2 by lia. unfold u8.
    change (2 ^ 18) with 262144. change (2 ^ 8) with 256. change (2 ^ 2) with 4.
    split; cbn [flat_map le_bytes be_bytes app]; repeat apply (f_equal2 cons); try reflexivity;
      Z.to_euclidean_division_equations; lia.
Qed.

Lemma join_units c : 0x10000 <= c < 0x110000 ->
  join_surrogates (0xD800 + (c - 0x10000) / 1024) (0xDC00 + c mod 1024) = c.
Proof.
  intros Hc. unfold join_surrogates. change 0x03FF with (2 ^ 10 - 1). change 0x3F with (2 ^ 6 - 1).
  change 0x03C0 with (2 ^ 10 - 2 ^ 6). rewrite !land_low, land_mid, !Z.shiftl_mul_pow2 by lia.
  change (2 ^ 10) with 1024. change (2 ^ 6) with 64.
  Z.to_euclidean_division_equations; lia.
Qed.

(** ** Whole texts *)

Definition utf8 (cps : list Z) : list Z := flat_map utf8_bytes cps.

Lemma utf8_bytes_no_cont c rest : codepoint c -> no_cont (utf8_bytes c ++ rest).
Proof.
  unfold codepoint, utf8_bytes, no_cont. intros Hc.
  ltb_cases; cbn [app]; rewrite is_cont_range by (unfold is_u8; Z.to_euclidean_division_equations; lia);
    Z.to_euclidean_division_equations; lia.
Qed.

Lemma utf8_no_cont cps : Forall codepoint cps -> no_cont (utf8 cps).
Proof. intros [|c l Hc Hl]; [exact I|]. apply utf8_bytes_no_cont. exact Hc. Qed.

Lemma utf8_bytes_cons c : exists b t, utf8_bytes c = b :: t.
Proof. unfold utf8_bytes. ltb_cases; eauto. Qed.

Lemma utf8_length cps : (length cps <= length (utf8 cps))%nat.
Proof.
  induction cps as [|c cps IH]; cbn [utf8 flat_map length]; [lia|].
  rewrite length_app. destruct (utf8_bytes_cons c) as (b & t & ->). cbn [length]. unfold utf8 in IH. lia.
Qed.

Lemma from_utf8_text write cps fuel : Forall codepoint cps -> (length cps <= fuel)%nat ->
  from_utf8_loop fuel write (utf8 cps) = flat_map write (map canon cps).
Proof.
  intros H. revert fuel. induction H as [|c cps Hc H IH]; intros fuel Hf.
  - destruct fuel; reflexivity.
  - destruct fuel as [|fuel]; [cbn in Hf; lia|]. cbn [length] in Hf.
    cbn [map flat_map utf8]. fold (utf8 cps).
    assert (E : READ_UTF8 (utf8_bytes c ++ utf8 cps) = (canon c, utf8 cps))
      by exact (read_utf8_bytes c (utf8 cps) Hc (utf8_no_cont cps H)).
    destruct (utf8_bytes_cons c) as (b & t & Eb). cbn [from_utf8_loop].
    rewrite E, IH by lia. rewrite Eb. reflexivity.
Qed.

Section Units.
Variables (unit : Z -> Z -> Z) (store : Z -> list Z).
Hypothesis store_unit : forall u, 0 <= u < 0x10000 ->
  exists b0 b1, store u = [b0; b1] /\ unit b0 b1 = u.

Lemma from_utf16_text cps fuel : Forall scalar cps -> (length cps <= fuel)%nat ->
  from_utf16_loop unit fuel (flat_map store (flat_map units cps)) = utf8 cps.
Proof.
  intros H. revert fuel. induction H as [|c cps Hc H IH]; intros fuel Hf.
  - destruct fuel; reflexivity.
  - destruct fuel as [|fuel]; [cbn in Hf; lia|]. cbn [length] in Hf.
    pose proof (scalar_range c Hc) as [Hr Hs]. cbn [utf8 flat_map]. fold (utf8 cps).
    rewrite flat_map_app. unfold units at 1. destruct (Z.leb_spec c 0xFFFF).
    + destruct (store_unit c) as (b0 & b1 & E & Eu); [lia|].
      cbn [flat_map]. rewrite E. cbn [app from_utf16_loop]. rewrite Eu.
      replace ((0xd800 <=? c) && (c <? 0xe000)) with false by lia.
      rewrite IH by lia. now rewrite WRITE_UTF8_bytes by apply Hc.
    + set (h := 0xD800 + _). set (l := 0xDC00 + _).
      assert (Hh : 0xD800 <= h < 0xDC00) by (subst h; Z.to_euclidean_division_equations; lia).
      assert (Hl : 0xDC00 <= l < 0xE000) by (subst l; Z.to_euclidean_division_equations; lia).
      destruct (store_unit h) as (b0 & b1 & E & Eu); [lia|].
      destruct (store_unit l) as (b2 & b3 & E' & Eu'); [lia|].
      cbn [flat_map]. rewrite E, E'. cbn [app from_utf16_loop]. rewrite Eu, Eu'.
      replace ((0xd800 <=? h) && (h <? 0xe000)) with true by lia.
      subst h l. rewrite join_units, IH by lia. now rewrite WRITE_UTF8_bytes by apply Hc.
Qed.
End Units.

Lemma le_unit u : 0 <= u < 0x10000 -> exists b0 b1, le_bytes u = [b0; b1] /\ unit_le b0 b1 = u.
Proof.
  intros Hu. eexists _, _. split; [reflexivity|]. unfold unit_le. rewrite Z.shiftl_mul_pow2 by lia.
  change (2 ^ 8) with 256. Z.to_euclidean_division_equations; lia.
Qed.

Lemma be_unit u : 0 <= u < 0x10000 -> exists b0 b1, be_bytes u = [b0; b1] /\ unit_be b0 b1 = u.
Proof.
  intros Hu. eexists _, _. split; [reflexivity|]. unfold unit_be. rewrite Z.shiftl_mul_pow2 by lia.
  change (2 ^ 8) with 256. Z.to_euclidean_division_equations; lia.
Qed.

(** ** Sizes *)

Lemma read_cont_spec c z : is_u32 c -> bytes z -> let '(c', z') := read_cont c z in
  is_u32 c' /\ (length z' <= length z)%nat /\ (length z' = length z -> c' = c) /\ bytes z' /\ no_cont z'.
Proof.
  revert c. induction z as [|b z IH]; intros c Hc Hb; cbn [read_cont]; [repeat split; try apply Hc; auto; constructor|].
  apply Forall_cons_iff in Hb as [Hb0 Hb]. destruct (is_cont b) eqn:E.
  - assert (Hu : is_u32 (u32 (u32 (Z.shiftl c 6) + Z.land 0x3f b)))
      by (unfold is_u32, u32; apply Z.mod_pos_bound; lia).
    specialize (IH _ Hu ltac:(assumption)). destruct (read_cont _ z) as [c' z'].
    destruct IH as (H1 & H3 & H4 & H5 & H6). repeat split; try apply H1; try assumption; cbn [length]; lia.
  - repeat split; try apply Hc; auto. now constructor.
Qed.

Lemma fix_char_safe c : is_u32 c ->
  0x80 <= fix_char c < 2 ^ 32 /\ ~ (0xD800 <= fix_char c < 0xE000) /\ fix_char c <> 0xFFFE /\ fix_char c <> 0xFFFF.
Proof.
  intros Hc. unfold is_u32 in Hc. unfold fix_char.
  change 0xFFFFF800 with (2 ^ 32 - 2 ^ 11). change 0xFFFFFFFE with (2 ^ 32 - 2 ^ 1).
  rewrite !land_high by lia. change (2 ^ 11) with 2048. change (2 ^ 1) with 2.
  destruct (Z.ltb_spec c 0x80); [cbn; lia|]. cbn [orb].
  destruct (Z.eqb_spec (c / 2048 * 2048) 0xD800); [cbn; lia|]. cbn [orb].
  destruct (Z.eqb_spec (c / 2 * 2) 0xFFFE); [cbn; lia|]. Z.to_euclidean_division_equations; lia.
Qed.

Lemma trans1_u32 x : 0xc0 <= x < 256 -> 0 <= rd sqlite3Utf8Trans1 (x - 0xc0) < 64.
Proof.
  intros Hx. pose proof (byte_forall (fun x => implb (192 <=? x)
      ((0 <=? rd sqlite3Utf8Trans1 (x - 0xc0)) && (rd sqlite3Utf8Trans1 (x - 0xc0) <? 64)))
      ltac:(vm_compute; reflexivity) x ltac:(unfold is_u8; lia)) as H.
  cbv beta in H. replace (192 <=? x) with true in H by lia. cbn [implb] in H. lia.
Qed.

(** What one read of arbitrary bytes gives. *)
Lemma read_utf8_safe b z : bytes (b :: z) -> let '(c, z') := READ_UTF8 (b :: z) in
  0 <= c < 2 ^ 32 /\ ~ (0xD800 <= c < 0xE000) /\ c <> 0xFFFE /\ c <> 0xFFFF /\
  (c < 0x80 -> c = b /\ z' = z) /\ (length z' <= length z)%nat /\
  (length z' = length z -> c <= 0xFFFF) /\ bytes z'.
Proof.
  intros Hb. inversion Hb as [|? ? Hbb Hbz]; subst. unfold READ_UTF8. rewrite rd_0. cbn [tl].
  unfold is_u8 in Hbb. destruct (Z.leb_spec 0xc0 b); [|repeat split; auto; lia].
  pose proof (trans1_u32 b ltac:(lia)) as Ht.
  pose proof (read_cont_spec (rd sqlite3Utf8Trans1 (b - 0xc0)) z ltac:(unfold is_u32; lia) Hbz) as Hr.
  destruct (read_cont _ z) as [c' z']. destruct Hr as (H1 & H3 & H4 & H5 & H6).
  pose proof (fix_char_safe c' H1). repeat split; auto; try lia.
  intros El. rewrite H4 by lia. unfold fix_char.
  replace (rd sqlite3Utf8Trans1 (b - 0xc0) <? 0x80) with true by lia. cbn. lia.
Qed.

Lemma utf16_write_length c : 
  length (WRITE_UTF16LE c) = (if c <=? 0xFFFF then 2%nat else 4%nat) /\
  length (WRITE_UTF16BE c) = (if c <=? 0xFFFF then 2%nat else 4%nat).
Proof. unfold WRITE_UTF16LE, WRITE_UTF16BE. destruct (c <=? 0xFFFF); split; reflexivity. Qed.

Lemma from_utf8_length write z fuel : bytes z ->
  (forall c, length (write c) = (if c <=? 0xFFFF then 2%nat else 4%nat)) ->
  (length (from_utf8_loop fuel write z) <= 2 * length z)%nat.
Proof.
  intros Hb Hw. revert z Hb. induction fuel as [|fuel IH]; intros z Hb; cbn [from_utf8_loop]; [cbn; lia|].
  destruct z as [|b z]; [cbn; lia|]. pose proof (read_utf8_safe b z Hb) as Hr.
  destruct (READ_UTF8 (b :: z)) as [c z']. destruct Hr as (_ & _ & _ & _ & _ & Hl & H1 & Hb').
  rewrite length_app, Hw. specialize (IH z' Hb'). cbn [length].
  destruct (Z.leb_spec c 0xFFFF); lia.
Qed.

Lemma write_utf8_length c : (length (WRITE_UTF8 c) <= (if (c <? 0x10000)%Z then 3 else 4))%nat.
Proof. unfold WRITE_UTF8. ltb_cases; cbn; lia. Qed.

Lemma from_utf16_length unit fuel z : bytes z ->
  (forall a b, is_u8 a -> is_u8 b -> unit a b < 0x10000) ->
  (length (from_utf16_loop unit fuel z) <= 2 * length z)%nat.
Proof.
  intros Hb Hu. revert z Hb. induction fuel as [|fuel IH]; intros z Hb; cbn [from_utf16_loop]; [cbn; lia|].
  destruct z as [|b0 [|b1 z]]; try (cbn; lia).
  inversion Hb as [|? ? B0 Hb1]; subst. inversion Hb1 as [|? ? B1 Hbz]; subst.
  pose proof (Hu b0 b1 B0 B1) as H01. pose proof (write_utf8_length (unit b0 b1)) as Hw.
  replace (unit b0 b1 <? 0x10000) with true in Hw by lia.
  pose proof (IH z Hbz) as IHz.
  destruct (_ && _).
  - destruct z as [|b2 [|b3 z]]; try (rewrite length_app; cbn [length] in *; lia).
    inversion Hbz as [|? ? B2 Hb3]; subst. inversion Hb3 as [|? ? B3 Hbz']; subst.
    rewrite length_app. specialize (IH z Hbz').
    pose proof (write_utf8_length (join_surrogates (unit b0 b1) (unit b2 b3))).
    destruct (_ <? 0x10000); cbn [length] in *; lia.
  - rewrite length_app. cbn [length] in *. lia.
Qed.

Lemma unit_bound a b : is_u8 a -> is_u8 b -> unit_le a b < 0x10000 /\ unit_be a b < 0x10000.
Proof. unfold is_u8, unit_le, unit_be. rewrite !Z.shiftl_mul_pow2 by lia. lia. Qed.

Lemma swap_bytes_length z : length (swap_bytes z) = length z.
Proof.
  enough (H : forall n z, (length z <= n)%nat -> length (swap_bytes z) = length z) by (apply (H (length z)); lia).
  induction n as [|n IH]; intros [|a [|b l]] Hl; cbn in *; try lia. rewrite IH; lia.
Qed.

Lemma swap_units us : swap_bytes (flat_map le_bytes us) = flat_map be_bytes us /\
  swap_bytes (flat_map be_bytes us) = flat_map le_bytes us.
Proof.
  induction us as [|u us [IH1 IH2]]; [split; reflexivity|].
  split; cbn [flat_map le_bytes be_bytes app swap_bytes]; congruence.
Qed.

(** ** The component's claims *)

(** Reading back a stored character. For every code point below 0x110000,
    whatever follows it, [sqlite3Utf8Read] of the bytes that [WRITE_UTF8] (and
    [sqlite3AppendOneUtf8Character]) stores returns that code point and stops
    right after those bytes; surrogates and U+FFFE, U+FFFF come back as U+FFFD. *)
Theorem utf8_read_write c rest : codepoint c -> no_cont rest ->
  sqlite3Utf8Read (WRITE_UTF8 c ++ rest) = (canon c, rest) /\
  sqlite3AppendOneUtf8Character c = (WRITE_UTF8 c, Z.of_nat (length (WRITE_UTF8 c))).
Proof.
  intros Hc Hr. split; [|apply append_is_write]. rewrite WRITE_UTF8_bytes by exact Hc. now apply read_utf8_bytes.
Qed.

Lemma utf8_read_write_witness :
  sqlite3Utf8Read (WRITE_UTF8 0x1F600 ++ [0x41]) = (0x1F600, [0x41]) /\
  sqlite3AppendOneUtf8Character 0x1F600 = ([0xF0; 0x9F; 0x98; 0x80], 4).
Proof. apply (utf8_read_write 0x1F600 [0x41]); [split; [discriminate|reflexivity]|reflexivity]. Defined.

(** Reading arbitrary bytes. Whatever the bytes are, the character read is
    never a UTF-16 surrogate, U+FFFE or U+FFFF, a value below 0x80 is read only
    from the single byte of that value (no over-long form of an ASCII
    character is accepted), and the read advances by at least one byte. *)
Theorem utf8_read_safe b z : bytes (b :: z) ->
  let '(c, z') := sqlite3Utf8Read (b :: z) in
  0 <= c < 2 ^ 32 /\ ~ (0xD800 <= c < 0xE000) /\ c <> 0xFFFE /\ c <> 0xFFFF /\
  (c < 0x80 -> c = b /\ z' = z) /\ (length z' < length (b :: z))%nat.
Proof.
  intros Hb. pose proof (read_utf8_safe b z Hb) as H.
  change (sqlite3Utf8Read (b :: z)) with (READ_UTF8 (b :: z)).
  destruct (READ_UTF8 (b :: z)) as [c z']. destruct H as (H1 & H2 & H3 & H4 & H5 & H6 & _).
  cbn [length]. repeat split; try apply H5; try assumption; lia.
Qed.

Lemma utf8_read_safe_witness :
  sqlite3Utf8Read [0xC0; 0xAF; 0x41] = (0xFFFD, [0x41]) /\ (1 < 3)%nat.
Proof.
  split; [reflexivity|]. pose proof (utf8_read_safe 0xC0 [0xAF; 0x41]) as H. cbn in H.
  apply H. repeat constructor; discriminate.
Defined.

Definition utf16 (enc : Z) (cps : list Z) : list Z :=
  flat_map (if enc =? SQLITE_UTF16LE then le_bytes else be_bytes) (flat_map units cps).

Lemma utf16_length_even enc cps : Nat.modulo (length (utf16 enc cps)) 2 = 0%nat /\
  (length cps <= length (utf16 enc cps))%nat.
Proof.
  unfold utf16. induction cps as [|c cps [IH1 IH2]]; [split; reflexivity|].
  cbn [flat_map]. rewrite flat_map_app, length_app.
  assert (H : exists k, length (flat_map (if enc =? SQLITE_UTF16LE then le_bytes else be_bytes) (units c)) = (2 * S k)%nat)
    by (unfold units; destruct (c <=? 0xFFFF), (enc =? SQLITE_UTF16LE); [exists 0%nat|exists 0%nat|exists 1%nat|exists 1%nat]; reflexivity).
  destruct H as [k ->]. split; [|cbn [length]; lia].
  rewrite Nat.add_comm, Nat.mul_comm, Nat.Div0.mod_add. exact IH1.
Qed.

Lemma to_utf16_text cps fuel enc : enc = SQLITE_UTF16LE \/ enc = SQLITE_UTF16BE ->
  Forall scalar cps -> (length cps <= fuel)%nat ->
  (if enc =? SQLITE_UTF16LE then from_utf8_loop fuel WRITE_UTF16LE (utf8 cps)
   else from_utf8_loop fuel WRITE_UTF16BE (utf8 cps)) = utf16 enc cps.
Proof.
  intros He H Hf. assert (Hc : Forall codepoint cps) by (eapply Forall_impl; [|exact H]; now intros ? [? ?]).
  rewrite !from_utf8_text by assumption. unfold utf16.
  replace (map canon cps) with cps by (symmetry; rewrite <- (map_id cps) at 2; apply map_ext_Forall;
    eapply Forall_impl; [|exact H]; now intros ? [? ?]).
  clear H Hf. induction Hc as [|c cps Hc _ IH]; [now destruct (enc =? SQLITE_UTF16LE)|].
  cbn [flat_map]. rewrite flat_map_app. pose proof (utf16_stores c Hc) as [EL EB].
  destruct (enc =? SQLITE_UTF16LE); [rewrite EL|rewrite EB]; f_equal; exact IH.
Qed.

(** Translation between encodings loses nothing. A UTF-8 text of code
    points (no surrogates or U+FFFE/U+FFFF) is translated by
    [sqlite3VdbeMemTranslate] to exactly its UTF-16 form in the requested byte
    order, translating the result to the other byte order gives the text's
    form in that order, and translating it back gives the original bytes. *)
Theorem mem_translate_roundtrip cps enc flags :
  Forall scalar cps -> enc = SQLITE_UTF16LE \/ enc = SQLITE_UTF16BE ->
  exists flags16 flags8,
  sqlite3VdbeMemTranslate true (mkMem (utf8 cps) flags SQLITE_UTF8) enc
    = (SQLITE_OK, mkMem (utf16 enc cps) flags16 enc) /\
  sqlite3VdbeMemTranslate true (mkMem (utf16 enc cps) flags16 enc) SQLITE_UTF8
    = (SQLITE_OK, mkMem (utf8 cps) flags8 SQLITE_UTF8) /\
  (let other := if enc =? SQLITE_UTF16LE then SQLITE_UTF16BE else SQLITE_UTF16LE in
   sqlite3VdbeMemTranslate true (mkMem (utf16 enc cps) flags16 enc) other
    = (SQLITE_OK, mkMem (utf16 other cps) flags16 other)).
Proof.
  intros H He. eexists _, _. unfold sqlite3VdbeMemTranslate. cbn [mem_enc mem_z mem_flags negb].
  replace (enc =? SQLITE_UTF8) with false by (destruct He as [-> | ->]; reflexivity).
  rewrite Z.eqb_refl. cbn [negb andb].
  pose proof (utf16_length_even enc cps) as [He2 Hl].
  rewrite He2, Nat.sub_0_r, firstn_all, to_utf16_text by (try assumption; apply utf8_length).
  split; [reflexivity|]. split.
  - do 2 f_equal. destruct He as [-> | ->]; cbn [Z.eqb Pos.eqb SQLITE_UTF16LE SQLITE_UTF16BE utf16] in *.
    + exact (from_utf16_text unit_le le_bytes le_unit cps _ H Hl).
    + exact (from_utf16_text unit_be be_bytes be_unit cps _ H Hl).
  - destruct He as [-> | ->]; cbn; unfold utf16; do 2 f_equal; apply swap_units.
Qed.

Lemma mem_translate_roundtrip_witness : exists flags16 flags8,
  sqlite3VdbeMemTranslate true (mkMem (utf8 [0x41; 0x1F600]) MEM_Str SQLITE_UTF8) SQLITE_UTF16LE
    = (SQLITE_OK, mkMem [0x41; 0; 0x3D; 0xD8; 0; 0xDE] flags16 SQLITE_UTF16LE) /\
  sqlite3VdbeMemTranslate true (mkMem [0x41; 0; 0x3D; 0xD8; 0; 0xDE] flags16 SQLITE_UTF16LE) SQLITE_UTF8
    = (SQLITE_OK, mkMem (utf8 [0x41; 0x1F600]) flags8 SQLITE_UTF8) /\
  sqlite3VdbeMemTranslate true (mkMem [0x41; 0; 0x3D; 0xD8; 0; 0xDE] flags16 SQLITE_UTF16LE) SQLITE_UTF16BE
    = (SQLITE_OK, mkMem [0; 0x41; 0xD8; 0x3D; 0xDE; 0] flags16 SQLITE_UTF16BE).
Proof.
  apply (mem_translate_roundtrip [0x41; 0x1F600] SQLITE_UTF16LE MEM_Str); [|now left].
  repeat (constructor; [repeat split; discriminate|]). constructor.
Defined.

(** The buffer size [len] that [sqlite3VdbeMemTranslate] allocates. *)
Definition translate_len (n desiredEnc : Z) : Z :=
  if desiredEnc =? SQLITE_UTF8 then 2 * Z.land n (-2) + 1 else 2 * n + 2.

Lemma trim_odd n : Z.of_nat (n - n mod 2) = Z.land (Z.of_nat n) (-2).
Proof.
  change (-2) with (Z.shiftl (-1) 1).
  replace (Z.land (Z.of_nat n) (Z.shiftl (-1) 1)) with (Z.shiftl (Z.shiftr (Z.of_nat n) 1) 1).
  - rewrite Z.shiftl_mul_pow2, Z.shiftr_div_pow2 by lia. change (2 ^ 1) with 2.
    pose proof (Nat2Z.inj_mod n 2). pose proof (Nat.Div0.mod_le n 2).
    rewrite Nat2Z.inj_sub by assumption. Z.to_euclidean_division_equations; lia.
  - apply Z.bits_inj'. intros k Hk. rewrite Z.land_spec, !Z.shiftl_spec by lia.
    destruct (Z_lt_ge_dec k 1).
    + rewrite !(Z.testbit_neg_r _ (k - 1)) by lia. now rewrite andb_false_r.
    + rewrite Z.shiftr_spec by lia. rewrite Z.bits_m1 by lia.
      rewrite andb_true_r. f_equal. lia.
Qed.

(** Translation never overruns its buffer. For any bytes at all, the text
    that [sqlite3VdbeMemTranslate] writes and its terminator fit in the [len]
    bytes it allocated, the routine's closing assertion; and a failed
    allocation leaves the encoding and flags alone. *)
Theorem mem_translate_fits pMem desiredEnc : bytes (mem_z pMem) -> mem_enc pMem <> desiredEnc ->
  mem_enc pMem = SQLITE_UTF8 \/ desiredEnc = SQLITE_UTF8 ->
  let '(rc, m) := sqlite3VdbeMemTranslate true pMem desiredEnc in
  rc = SQLITE_OK /\ mem_enc m = desiredEnc /\
  Z.of_nat (length (mem_z m)) + (if desiredEnc =? SQLITE_UTF8 then 1 else 2)
    <= translate_len (Z.of_nat (length (mem_z pMem))) desiredEnc /\
  (let '(rc', m') := sqlite3VdbeMemTranslate false pMem desiredEnc in
   rc' = SQLITE_NOMEM /\ mem_enc m' = mem_enc pMem /\ mem_flags m' = mem_flags pMem).
Proof.
  intros Hb Hne He. unfold sqlite3VdbeMemTranslate, translate_len.
  replace (negb (mem_enc pMem =? SQLITE_UTF8) && negb (desiredEnc =? SQLITE_UTF8)) with false
    by (destruct He as [-> | ->]; rewrite Z.eqb_refl; cbn; rewrite ?andb_false_r; reflexivity).
  cbn [negb]. destruct (Z.eqb_spec desiredEnc SQLITE_UTF8) as [Ed|Ed].
  - replace (mem_enc pMem =? SQLITE_UTF8) with false by lia. cbn [mem_enc mem_z].
    split; [reflexivity|]. split; [reflexivity|]. split; [|repeat split; reflexivity].
    set (n := length (mem_z pMem)). set (z := firstn _ _).
    assert (Hz : Z.of_nat (length z) = Z.land (Z.of_nat n) (-2)).
    { subst z. rewrite length_firstn. fold n. rewrite <- trim_odd. lia. }
    assert (Hbz : bytes z) by (unfold bytes in *; rewrite <- (firstn_skipn (n - n mod 2) (mem_z pMem)) in Hb; apply Forall_app in Hb; apply Hb).
    rewrite <- Hz. destruct (_ =? SQLITE_UTF16LE).
    + pose proof (from_utf16_length unit_le n z Hbz ltac:(apply unit_bound)). lia.
    + pose proof (from_utf16_length unit_be n z Hbz ltac:(apply unit_bound)). lia.
  - replace (mem_enc pMem =? SQLITE_UTF8) with true by lia. cbn [mem_enc mem_z].
    split; [reflexivity|]. split; [reflexivity|]. split; [|repeat split; reflexivity].
    destruct (_ =? SQLITE_UTF16LE).
    + pose proof (from_utf8_length WRITE_UTF16LE _ (length (mem_z pMem)) Hb ltac:(apply utf16_write_length)). lia.
    + pose proof (from_utf8_length WRITE_UTF16BE _ (length (mem_z pMem)) Hb ltac:(apply utf16_write_length)). lia.
Qed.

Lemma mem_translate_fits_witness :
  let '(rc, m) := sqlite3VdbeMemTranslate true (mkMem [0x00; 0xD8; 0x41] MEM_Str SQLITE_UTF16LE) SQLITE_UTF8 in
  rc = SQLITE_OK /\ mem_enc m = SQLITE_UTF8 /\ Z.of_nat (length (mem_z m)) + 1 <= translate_len 3 SQLITE_UTF8 /\
  (let '(rc', m') := sqlite3VdbeMemTranslate false (mkMem [0x00; 0xD8; 0x41] MEM_Str SQLITE_UTF16LE) SQLITE_UTF8 in
   rc' = SQLITE_NOMEM /\ mem_enc m' = SQLITE_UTF16LE /\ mem_flags m' = MEM_Str).
Proof.
  apply (mem_translate_fits (mkMem [0x00; 0xD8; 0x41] MEM_Str SQLITE_UTF16LE) SQLITE_UTF8);
    [repeat (constructor; [split; [discriminate|reflexivity]|]); constructor|discriminate|now right].
Defined.

(** ** Counting characters *)

Lemma skip_utf8 c rest : codepoint c -> no_cont rest ->
  SQLITE_SKIP_UTF8 (utf8_bytes c ++ rest) = rest.
Proof.
  unfold codepoint. intros Hc Hr. unfold SQLITE_SKIP_UTF8.
  assert (Hs : skip_cont rest = rest) by (destruct rest; cbn; [reflexivity|]; cbn in Hr; now rewrite Hr).
  assert (Hk : forall x z, 0 <= x < 64 -> skip_cont (128 + x :: z) = skip_cont z).
  { intros x z Hx. cbn [skip_cont]. rewrite is_cont_range by (unfold is_u8; lia).
    now replace ((128 <=? 128 + x) && (128 + x <? 192)) with true by lia. }
  unfold utf8_bytes.
  destruct (Z.ltb_spec c 0x80); [|destruct (Z.ltb_spec c 0x800); [|destruct (Z.ltb_spec c 0x10000)]];
    cbn [app tl]; rewrite rd_0; ltb_cases; rewrite ?Hk by (apply Z.mod_pos_bound; lia);
    try (assumption || reflexivity); Z.to_euclidean_division_equations; lia.
Qed.

Lemma charlen_text cps fuel r k : Forall (fun c => codepoint c /\ c <> 0) cps -> (length cps <= fuel)%nat ->
  k = None \/ k = Some (Z.of_nat (length (utf8 cps))) ->
  charlen_loop fuel r (utf8 cps) k = r + Z.of_nat (length cps).
Proof.
  intros H. revert fuel r k. induction H as [|c cps [Hc Hnz] H IH]; intros fuel r k Hf Hk.
  - destruct fuel; cbn; lia.
  - destruct fuel as [|fuel]; [cbn in Hf; lia|]. cbn [length] in *. cbn [charlen_loop].
    cbn [utf8 flat_map] in *. fold (utf8 cps) in *.
    assert (Hcps : Forall codepoint cps) by (eapply Forall_impl; [|exact H]; now intros ? [? ?]).
    rewrite skip_utf8 by (try assumption; now apply utf8_no_cont).
    assert (Hrd : rd (utf8_bytes c ++ utf8 cps) 0 <> 0).
    { unfold utf8_bytes. ltb_cases; cbn [app]; rewrite rd_0; Z.to_euclidean_division_equations; lia. }
    replace (rd (utf8_bytes c ++ utf8 cps) 0 =? 0) with false by lia. cbn [negb andb].
    destruct (utf8_bytes_cons c) as (b & t & Eb).
    destruct Hk as [-> | ->].
    + rewrite IH by (auto; lia). lia.
    + assert (Hlt : (0 < length (utf8_bytes c))%nat) by (rewrite Eb; cbn; lia).
      rewrite length_app. destruct (Z.ltb_spec 0 (Z.of_nat (length (utf8_bytes c) + length (utf8 cps)))); [|lia].
      rewrite IH; [lia|lia|]. right. f_equal. lia.
Qed.

(** [sqlite3Utf8CharLen] counts characters. On a text of code points none
    of which is NUL, it returns how many there are, whether the byte count or
    -1 is passed. *)
Theorem utf8_charlen cps : Forall (fun c => codepoint c /\ c <> 0) cps ->
  sqlite3Utf8CharLen (utf8 cps) (-1) = Z.of_nat (length cps) /\
  sqlite3Utf8CharLen (utf8 cps) (Z.of_nat (length (utf8 cps))) = Z.of_nat (length cps).
Proof.
  intros H. unfold sqlite3Utf8CharLen. change (0 <=? -1) with false.
  destruct (Z.leb_spec 0 (Z.of_nat (length (utf8 cps)))); [|lia].
  rewrite !charlen_text by (auto; apply utf8_length). split; lia.
Qed.

Lemma utf8_charlen_witness :
  sqlite3Utf8CharLen [0x41; 0xC3; 0xA9; 0xF0; 0x9F; 0x98; 0x80] (-1) = 3 /\
  sqlite3Utf8CharLen [0x41; 0xC3; 0xA9; 0xF0; 0x9F; 0x98; 0x80] 7 = 3.
Proof.
  apply (utf8_charlen [0x41; 0xE9; 0x1F600]).
  repeat (constructor; [split; [split; [discriminate|reflexivity]|discriminate]|]). constructor.
Defined.
