(* ===== verification/Like.v ===== *)
(** * Like: the LIKE and GLOB operators

    Models [patternCompare], [sqlite3_strglob], [sqlite3_strlike] and
    [likeFunc] of [src/api-core/src/db/sqlite3.c] ([func.c]).  The patterns of
    the database searches ([SearchLogs]) are evaluated by this code.  A
    pointer into a text is the list of bytes from there to its end, so two
    pointers into one text are equal when the lists have the same length. *)

From Stdlib Require Import ZArith List Lia Bool.
Import ListNotations.
From S2P Require Import Prelude Ctype IntArith Utf.
#[local] Open Scope Z_scope.

(** ** The operation *)

Record compareInfo := mkCompareInfo { matchAll : Z; matchOne : Z; matchSet : Z; noCase : bool }.

Definition globInfo : compareInfo := mkCompareInfo 42 63 91 false.
Definition likeInfoNorm : compareInfo := mkCompareInfo 37 95 0 true.
Definition likeInfoAlt : compareInfo := mkCompareInfo 37 95 0 false.

Definition SQLITE_MATCH : Z := 0.
Definition SQLITE_NOMATCH : Z := 1.
Definition SQLITE_NOWILDCARDMATCH : Z := 2.

Definition Utf8Read (z : list Z) : Z * list Z :=
  if rd z 0 <? 0x80 then (rd z 0, tl z) else sqlite3Utf8Read z.

(** The loop that skips the wildcards after a [matchAll]: [inl] when it
    returns, [inr (c, zPattern, zString)] after it. *)
Fixpoint skip_wildcards (fuel : nat) (pInfo : compareInfo) (zPattern zString : list Z)
  : Z + Z * list Z * list Z :=
  match fuel with
  | O => inr (0, zPattern, zString)
  | S fuel' =>
      let '(c, zPattern) := Utf8Read zPattern in
      if (c =? matchAll pInfo) || ((c =? matchOne pInfo) && negb (matchOne pInfo =? 0)) then
        if c =? matchOne pInfo then
          let '(c2, zString) := sqlite3Utf8Read zString in
          if c2 =? 0 then inl SQLITE_NOWILDCARDMATCH
          else skip_wildcards fuel' pInfo zPattern zString
        else skip_wildcards fuel' pInfo zPattern zString
      else inr (c, zPattern, zString)
  end.

Section Search.
(** The recursive call of [patternCompare] on a rest of the string. *)
Variable compare_rest : list Z -> Z.

(** [while( *zString ){ bMatch = ...; SQLITE_SKIP_UTF8(zString); }] *)
Fixpoint set_search (fuel : nat) (zString : list Z) : Z :=
  match fuel with
  | O => SQLITE_NOWILDCARDMATCH
  | S fuel' =>
      if rd zString 0 =? 0 then SQLITE_NOWILDCARDMATCH
      else
        let bMatch := compare_rest zString in
        if negb (bMatch =? SQLITE_NOMATCH) then bMatch
        else set_search fuel' (SQLITE_SKIP_UTF8 zString)
  end.

(** [zString += strcspn(zString, zStop)] and the recursive call, until the
    end of the string. *)
Fixpoint stop_search (zStop : list Z) (zString : list Z) : Z :=
  match zString with
  | [] => SQLITE_NOWILDCARDMATCH
  | b :: zString' =>
      if b =? 0 then SQLITE_NOWILDCARDMATCH
      else if existsb (Z.eqb b) zStop then
        let bMatch := compare_rest zString' in
        if negb (bMatch =? SQLITE_NOMATCH) then bMatch else stop_search zStop zString'
      else stop_search zStop zString'
  end.

(** [while( (c2 = Utf8Read(zString))!=0 ){ if( c2!=c ) continue; ... }] *)
Fixpoint char_search (fuel : nat) (c : Z) (zString : list Z) : Z :=
  match fuel with
  | O => SQLITE_NOWILDCARDMATCH
  | S fuel' =>
      let '(c2, zString) := Utf8Read zString in
      if c2 =? 0 then SQLITE_NOWILDCARDMATCH
      else if negb (c2 =? c) then char_search fuel' c zString
      else
        let bMatch := compare_rest zString in
        if negb (bMatch =? SQLITE_NOMATCH) then bMatch else char_search fuel' c zString
  end.
End Search.

(** [while( c2 && c2!=']' )] inside a set: the final [c2], [seen] and
    [zPattern]. *)
Fixpoint set_loop (fuel : nat) (c c2 prior_c : Z) (seen : bool) (zPattern : list Z)
  : Z * bool * list Z :=
  match fuel with
  | O => (0, seen, zPattern)
  | S fuel' =>
      if negb (c2 =? 0) && negb (c2 =? 93) then
        if (c2 =? 45) && negb (rd zPattern 0 =? 93) && negb (rd zPattern 0 =? 0) && (0 <? prior_c) then
          let '(c2, zPattern) := sqlite3Utf8Read zPattern in
          let seen := if (prior_c <=? c) && (c <=? c2) then true else seen in
          let '(c2, zPattern) := sqlite3Utf8Read zPattern in
          set_loop fuel' c c2 0 seen zPattern
        else
          let seen := if c =? c2 then true else seen in
          let prior_c := c2 in
          let '(c2, zPattern) := sqlite3Utf8Read zPattern in
          set_loop fuel' c c2 prior_c seen zPattern
      else (c2, seen, zPattern)
  end.

(** One character against a set: [None] for [return SQLITE_NOMATCH], or the
    pattern and the string to continue with. *)
Definition match_set (zPattern zString : list Z) : option (list Z * list Z) :=
  let '(c, zString) := sqlite3Utf8Read zString in
  if c =? 0 then None
  else
    let '(c2, zPattern) := sqlite3Utf8Read zPattern in
    let '(invert, (c2, zPattern)) :=
      if c2 =? 94 then (true, sqlite3Utf8Read zPattern) else (false, (c2, zPattern)) in
    let '(seen, (c2, zPattern)) :=
      if c2 =? 93 then (c =? 93, sqlite3Utf8Read zPattern) else (false, (c2, zPattern)) in
    let '(c2, seen, zPattern) := set_loop (S (length zPattern)) c c2 0 seen zPattern in
    if (c2 =? 0) || negb (xorb seen invert) then None else Some (zPattern, zString).

Definition stop_chars (noCase : bool) (c : Z) : list Z :=
  if noCase then [sqlite3Toupper c; sqlite3Tolower c] else [c].

(** One iteration of the outer loop per unit of fuel; [zEscaped] is the rest
    of the pattern after the last escaped character. *)
Fixpoint patternCompare_loop (fuel : nat) (pInfo : compareInfo) (matchOther : Z)
  (zEscaped : option (list Z)) (zPattern zString : list Z) : Z :=
  match fuel with
  | O => SQLITE_NOMATCH
  | S fuel' =>
      let '(c, zPattern) := Utf8Read zPattern in
      if c =? 0 then (if rd zString 0 =? 0 then SQLITE_MATCH else SQLITE_NOMATCH)
      else if c =? matchAll pInfo then
        match skip_wildcards (S (length zPattern)) pInfo zPattern zString with
        | inl rc => rc
        | inr (c, zPattern', zString) =>
            if c =? 0 then SQLITE_MATCH
            else if (c =? matchOther) && negb (matchSet pInfo =? 0) then
              (* &zPattern[-1]: the one-byte '[' and what follows it *)
              set_search (patternCompare_loop fuel' pInfo matchOther None (matchOther :: zPattern'))
                (length zString) zString
            else
              let '(c, zPattern') :=
                if c =? matchOther then sqlite3Utf8Read zPattern' else (c, zPattern') in
              if c =? 0 then SQLITE_NOWILDCARDMATCH
              else if c <? 0x80 then
                stop_search (patternCompare_loop fuel' pInfo matchOther None zPattern')
                  (stop_chars (noCase pInfo) c) zString
              else
                char_search (patternCompare_loop fuel' pInfo matchOther None zPattern')
                  (length zString) c zString
        end
      else if (c =? matchOther) && negb (matchSet pInfo =? 0) then
        match match_set zPattern zString with
        | None => SQLITE_NOMATCH
        | Some (zPattern, zString) =>
            patternCompare_loop fuel' pInfo matchOther zEscaped zPattern zString
        end
      else
        let '(c, zPattern, zEscaped) :=
          if c =? matchOther then
            let '(c, zPattern) := sqlite3Utf8Read zPattern in (c, zPattern, Some zPattern)
          else (c, zPattern, zEscaped) in
        if c =? 0 then SQLITE_NOMATCH
        else
          let '(c2, zString) := Utf8Read zString in
          if c =? c2 then patternCompare_loop fuel' pInfo matchOther zEscaped zPattern zString
          else if noCase pInfo && (sqlite3Tolower c =? sqlite3Tolower c2) && (c <? 0x80) && (c2 <? 0x80)
          then patternCompare_loop fuel' pInfo matchOther zEscaped zPattern zString
          else if (c =? matchOne pInfo)
               && negb (match zEscaped with
                        | None => false
                        | Some z => Nat.eqb (length z) (length zPattern)
                        end)
               && negb (c2 =? 0)
          then patternCompare_loop fuel' pInfo matchOther zEscaped zPattern zString
          else SQLITE_NOMATCH
  end.

(** Every iteration and every recursive call consumes a byte of the pattern. *)
Definition patternCompare (zPattern zString : list Z) (pInfo : compareInfo) (matchOther : Z) : Z :=
  patternCompare_loop (S (length zPattern)) pInfo matchOther None zPattern zString.

(** [None] is a null pointer. *)
Definition sqlite3_strglob (zGlobPattern zString : option (list Z)) : Z :=
  match zString, zGlobPattern with
  | None, p => match p with None => 0 | Some _ => 1 end
  | Some _, None => 1
  | Some s, Some p => patternCompare p s globInfo 91
  end.

Definition sqlite3_strlike (zPattern zStr : option (list Z)) (esc : Z) : Z :=
  match zStr, zPattern with
  | None, p => match p with None => 0 | Some _ => 1 end
  | Some _, None => 1
  | Some s, Some p => patternCompare p s likeInfoNorm esc
  end.

(** What [likeFunc] leaves in the function context: nothing (SQL NULL), an
    integer or an error. *)
Inductive like_result := LikeNull | LikeInt (i : Z) | LikePatternTooComplex | LikeBadEscape.

(** The arguments as text, [None] for NULL; [aLimit] is
    [db->aLimit[SQLITE_LIMIT_LIKE_PATTERN_LENGTH]]; [argv2] is [None] when
    [argc] is 2. *)
Definition likeFunc (aLimit : Z) (pInfo : compareInfo) (argv0 argv1 : option (list Z))
  (argv2 : option (option (list Z))) : like_result :=
  let nPat := match argv0 with None => 0 | Some z => Z.of_nat (length z) end in
  if aLimit <? nPat then LikePatternTooComplex
  else
    let run (pInfo : compareInfo) (escape : Z) :=
      match argv1, argv0 with
      | Some zA, Some zB =>
          LikeInt (if patternCompare zB zA pInfo escape =? SQLITE_MATCH then 1 else 0)
      | _, _ => LikeNull
      end in
    match argv2 with
    | None => run pInfo (matchSet pInfo)
    | Some None => LikeNull
    | Some (Some zEsc) =>
        if negb (sqlite3Utf8CharLen zEsc (-1) =? 1) then LikeBadEscape
        else
          let '(escape, _) := sqlite3Utf8Read zEsc in
          let pInfo :=
            if (escape =? matchAll pInfo) || (escape =? matchOne pInfo) then
              mkCompareInfo (if escape =? matchAll pInfo then 0 else matchAll pInfo)
                (if escape =? matchOne pInfo then 0 else matchOne pInfo)
                (matchSet pInfo) (noCase pInfo)
            else pInfo in
          run pInfo escape
    end.

(** ** Specification *)

(** The elements of a pattern. [TBad] is an escape character or a set that the
    pattern ends inside. *)
Inductive tok := TAll | TOne | TChar (c : Z) | TSet (invert : bool) (items : list (Z * Z)) | TBad.

(** The members of a set as ranges, and the pattern after its bracket. *)
Fixpoint parse_items (fuel : nat) (prior_c : Z) (p : list Z) : option (list (Z * Z) * list Z) :=
  match fuel, p with
  | S fuel', c2 :: p' =>
      if c2 =? 93 then Some ([], p')
      else
        match (c2 =? 45) && (0 <? prior_c), p' with
        | true, hi :: p'' =>
            if hi =? 93 then
              option_map (fun '(l, r) => ((c2, c2) :: l, r)) (parse_items fuel' c2 p')
            else option_map (fun '(l, r) => ((prior_c, hi) :: l, r)) (parse_items fuel' 0 p'')
        | _, _ => option_map (fun '(l, r) => ((c2, c2) :: l, r)) (parse_items fuel' c2 p')
        end
  | _, _ => None
  end.

Definition take_char (c : Z) (p : list Z) : bool * list Z :=
  match p with
  | x :: p' => if x =? c then (true, p') else (false, p)
  | [] => (false, [])
  end.

Definition parse_set (p : list Z) : option (bool * list (Z * Z) * list Z) :=
  let '(invert, p) := take_char 94 p in
  let '(bracket, p) := take_char 93 p in
  option_map (fun '(l, r) => (invert, (if bracket then [(93, 93)] else []) ++ l, r))
    (parse_items (length p) 0 p).

Section Spec.
Variables (pInfo : compareInfo) (esc : Z).

(** The elements of a pattern of code points. *)
Fixpoint parse (fuel : nat) (p : list Z) : list tok :=
  match fuel, p with
  | S fuel', c :: p' =>
      if c =? matchAll pInfo then TAll :: parse fuel' p'
      else if c =? esc then
        if matchSet pInfo =? 0 then
          match p' with [] => [TBad] | d :: p'' => TChar d :: parse fuel' p'' end
        else
          match parse_set p' with
          | None => [TBad]
          | Some (invert, items, r) => TSet invert items :: parse fuel' r
          end
      else if c =? matchOne pInfo then TOne :: parse fuel' p'
      else TChar c :: parse fuel' p'
  | _, _ => []
  end.

Definition char_eq (c x : Z) : bool :=
  (c =? x) || (noCase pInfo && (c <? 0x80) && (x <? 0x80) && (lower c =? lower x)).

Definition in_items (x : Z) (items : list (Z * Z)) : bool :=
  existsb (fun '(lo, hi) => (lo <=? x) && (x <=? hi)) items.

(** Which strings of characters a pattern matches. *)
Inductive matches : list tok -> list Z -> Prop :=
| m_nil : matches [] []
| m_all p s1 s2 : matches p s2 -> matches (TAll :: p) (s1 ++ s2)
| m_one p x s : matches p s -> matches (TOne :: p) (x :: s)
| m_char p c x s : char_eq c x = true -> matches p s -> matches (TChar c :: p) (x :: s)
| m_set p invert items x s : xorb (in_items x items) invert = true ->
    matches p s -> matches (TSet invert items :: p) (x :: s).
End Spec.

(** The characters of a text, as [sqlite3Utf8Read] reads them. *)
Fixpoint decode (fuel : nat) (z : list Z) : list Z :=
  match fuel, z with
  | S fuel', _ :: _ => let '(c, z') := sqlite3Utf8Read z in c :: decode fuel' z'
  | _, _ => []
  end.

Definition chars (z : list Z) : list Z := decode (length z) z.

(** ** Reading a text character by character *)

Lemma read_cont_suffix c z : exists pre, z = pre ++ snd (read_cont c z).
Proof.
  revert c. induction z as [|b z IH]; intros c; cbn [read_cont]; [now exists []|].
  destruct (is_cont b); [|now exists []]. destruct (IH (u32 (u32 (Z.shiftl c 6) + Z.land 0x3f b))) as [pre Hp].
  exists (b :: pre). cbn [app]. f_equal. exact Hp.
Qed.

Lemma read_suffix z : exists pre, z = pre ++ snd (sqlite3Utf8Read z).
Proof.
  destruct z as [|b z]; [now exists []|]. unfold sqlite3Utf8Read. rewrite rd_0. cbn [tl].
  destruct (0xc0 <=? b); [|now exists [b]].
  destruct (read_cont_suffix (rd sqlite3Utf8Trans1 (b - 0xc0)) z) as [pre Hp].
  destruct (read_cont _ z) as [c' z']. exists (b :: pre). cbn in *. now rewrite <- Hp.
Qed.

Lemma cstring_suffix pre z : cstring (pre ++ z) -> cstring z.
Proof. intros H. apply Forall_app in H. apply H. Qed.

Lemma read_cons b z : cstring (b :: z) -> let '(c, z') := sqlite3Utf8Read (b :: z) in
  c <> 0 /\ cstring z' /\ (length z' <= length z)%nat.
Proof.
  intros H. pose proof (read_utf8_safe b z (cstring_bytes _ H)) as Hs.
  change (READ_UTF8 (b :: z)) with (sqlite3Utf8Read (b :: z)) in Hs.
  destruct (read_suffix (b :: z)) as [pre Hp]. destruct (sqlite3Utf8Read (b :: z)) as [c z'].
  destruct Hs as (H1 & _ & _ & _ & H5 & H6 & _). cbn [snd] in Hp.
  pose proof (Forall_inv H) as [_ Hb].
  split; [intros ->; destruct H5 as [E _]; [lia|congruence]|].
  split; [|exact H6]. apply (cstring_suffix pre). now rewrite <- Hp.
Qed.

Lemma decode_fuel f1 f2 z : cstring z -> (length z <= f1)%nat -> (length z <= f2)%nat -> decode f1 z = decode f2 z.
Proof.
  revert f2 z. induction f1 as [|f1 IH]; intros f2 [|b z] Hc H1 H2; cbn [length] in *; try lia;
    try (destruct f2; reflexivity).
  destruct f2 as [|f2]; [lia|]. cbn [decode]. pose proof (read_cons b z Hc) as H.
  destruct (sqlite3Utf8Read (b :: z)) as [c z']. destruct H as (_ & Hc' & Hl). f_equal. apply IH; [exact Hc'|lia|lia].
Qed.

(** The next character of a non-empty text. *)
Lemma chars_cons b z : cstring (b :: z) -> exists c z',
  sqlite3Utf8Read (b :: z) = (c, z') /\ chars (b :: z) = c :: chars z' /\
  c <> 0 /\ cstring z' /\ (length z' <= length z)%nat.
Proof.
  intros Hc. pose proof (read_cons b z Hc) as H. unfold chars at 1. cbn [length decode].
  destruct (sqlite3Utf8Read (b :: z)) as [c z']. exists c, z'. destruct H as (H1 & H2 & H3).
  repeat split; try assumption. f_equal. apply decode_fuel; [assumption|lia|lia].
Qed.

Lemma Utf8Read_eq z : Utf8Read z = sqlite3Utf8Read z.
Proof.
  unfold Utf8Read. destruct (Z.ltb_spec (rd z 0) 0x80); [|reflexivity]. unfold sqlite3Utf8Read.
  destruct (Z.leb_spec 0xc0 (rd z 0)); [lia|reflexivity].
Qed.

Lemma skip_eq_read z : SQLITE_SKIP_UTF8 z = snd (sqlite3Utf8Read z).
Proof.
  assert (H : forall l c, skip_cont l = snd (read_cont c l)).
  { induction l as [|b l IH]; intros c; cbn; [reflexivity|]. destruct (is_cont b); [apply IH|reflexivity]. }
  unfold SQLITE_SKIP_UTF8, sqlite3Utf8Read. destruct (0xc0 <=? rd z 0); [|reflexivity].
  rewrite (H _ (rd sqlite3Utf8Trans1 (rd z 0 - 0xc0))). now destruct (read_cont _ (tl z)).
Qed.

Lemma rd_cstring b z : cstring (b :: z) -> (rd (b :: z) 0 =? 0) = false.
Proof. intros H. rewrite rd_0. apply Z.eqb_neq, (Forall_inv H). Qed.

(** A byte below 0x80 is a character of its own. *)
Lemma ascii_char b z c z' : cstring (b :: z) -> sqlite3Utf8Read (b :: z) = (c, z') ->
  (b < 0x80 -> c = b /\ z' = z) /\ (0x80 <= b -> 0x80 <= c).
Proof.
  intros H E. pose proof (read_utf8_safe b z (cstring_bytes _ H)) as Hs.
  change (READ_UTF8 (b :: z)) with (sqlite3Utf8Read (b :: z)) in Hs. rewrite E in Hs.
  destruct Hs as (H1 & _ & _ & _ & H5 & _). split.
  - intros Hb. unfold sqlite3Utf8Read in E. rewrite rd_0 in E. destruct (Z.leb_spec 0xc0 b); [lia|].
    cbn in E. now inversion E.
  - intros Hb. destruct (Z_lt_ge_dec c 0x80) as [Hlt|]; [|lia]. destruct (H5 Hlt) as [-> _]. lia.
Qed.

(** ** Patterns *)

Lemma parse_items_length f prior p l r : parse_items f prior p = Some (l, r) -> (length r < length p)%nat.
Proof.
  revert prior p l r. induction f as [|f IH]; intros prior [|c2 p] l r E; try discriminate.
  cbn [parse_items] in E. destruct (c2 =? 93); [injection E as _ <-; cbn; lia|].
  assert (Hplain : forall q prior', option_map (fun '(l, r) => (q :: l, r)) (parse_items f prior' p) = Some (l, r)
            -> (length r < length (c2 :: p))%nat).
  { intros q prior' E'. destruct (parse_items f prior' p) as [[l' r']|] eqn:Er; [|discriminate].
    apply IH in Er. injection E' as _ <-. cbn. lia. }
  destruct (_ && _); [|eapply Hplain; exact E].
  destruct p as [|hi p]; [eapply Hplain; exact E|]. destruct (hi =? 93); [eapply Hplain; exact E|].
  destruct (parse_items f 0 p) as [[l' r']|] eqn:Er; [|discriminate]. apply IH in Er. injection E as _ <-. cbn. lia.
Qed.

Lemma parse_items_fuel f1 f2 prior p : (length p <= f1)%nat -> (length p <= f2)%nat ->
  parse_items f1 prior p = parse_items f2 prior p.
Proof.
  revert f2 prior p. induction f1 as [|f1 IH]; intros f2 prior [|c2 p] H1 H2; cbn [length] in *; try lia;
    try (destruct f2; reflexivity).
  destruct f2 as [|f2]; [lia|]. cbn [parse_items]. destruct (c2 =? 93); [reflexivity|].
  rewrite (IH f2 c2 p) by lia. destruct (_ && _); [|reflexivity]. destruct p as [|hi p]; [reflexivity|].
  cbn [length] in *. rewrite (IH f2 0 p) by lia. reflexivity.
Qed.

Lemma take_char_length c p : (length (snd (take_char c p)) <= length p)%nat.
Proof. destruct p as [|x p]; cbn; [lia|]. destruct (x =? c); cbn; lia. Qed.

Lemma parse_set_length p b l r : parse_set p = Some (b, l, r) -> (length r < length p)%nat.
Proof.
  unfold parse_set. intros E. pose proof (take_char_length 94 p) as H1.
  destruct (take_char 94 p) as [inv p1]. pose proof (take_char_length 93 p1) as H2.
  destruct (take_char 93 p1) as [br p2]. cbn [snd] in *.
  destruct (parse_items (length p2) 0 p2) as [[l' r']|] eqn:Er; [|discriminate].
  apply parse_items_length in Er. injection E as _ _ <-. lia.
Qed.

Section Verdict.
Variables (pInfo : compareInfo) (esc : Z).
#[local] Abbreviation parse := (parse pInfo esc).
#[local] Abbreviation matches := (matches pInfo).

Lemma parse_fuel f1 f2 p : (length p <= f1)%nat -> (length p <= f2)%nat -> parse f1 p = parse f2 p.
Proof.
revert f2 p. induction f1 as [|f1 IH]; intros f2 [|c p] H1 H2; cbn [length] in *; try lia;
  try (destruct f2; reflexivity).
destruct f2 as [|f2]; [lia|]. cbn [Like.parse]. rewrite (IH f2 p) by lia.
destruct (c =? matchAll pInfo); [reflexivity|]. destruct (c =? esc); [|reflexivity].
destruct (matchSet pInfo =? 0).
- destruct p as [|d p]; [reflexivity|]. cbn [length] in *. now rewrite (IH f2 p) by lia.
- destruct (parse_set p) as [[[b l] r]|] eqn:Es; [|reflexivity].
  apply parse_set_length in Es. now rewrite (IH f2 r) by lia.
Qed.

Definition toks (p : list Z) : list tok := parse (length p) p.

(** A pattern's elements, one step at a time. *)
Lemma toks_cons c p : toks (c :: p) =
if c =? matchAll pInfo then TAll :: toks p
else if c =? esc then
  if matchSet pInfo =? 0 then
    match p with [] => [TBad] | d :: p'' => TChar d :: toks p'' end
  else
    match parse_set p with
    | None => [TBad]
    | Some (invert, items, r) => TSet invert items :: toks r
    end
else if c =? matchOne pInfo then TOne :: toks p
else TChar c :: toks p.
Proof.
unfold toks at 1. cbn [length Like.parse]. fold (toks p).
destruct (c =? matchAll pInfo); [reflexivity|]. destruct (c =? esc); [|reflexivity].
destruct (matchSet pInfo =? 0).
- destruct p as [|d p]; [reflexivity|]. unfold toks. now rewrite (parse_fuel _ (length p) p) by (cbn [length]; lia).
- destruct (parse_set p) as [[[b l] r]|] eqn:Es; [|reflexivity].
  apply parse_set_length in Es. unfold toks. now rewrite (parse_fuel _ (length r) r) by lia.
Qed.

(** Whether an element other than [TAll] accepts a character. *)
Definition accepts (t : tok) (x : Z) : bool :=
match t with
| TAll | TBad => false
| TOne => true
| TChar c => char_eq pInfo c x
| TSet invert items => xorb (in_items x items) invert
end.

Lemma matches_cons t p s : t <> TAll ->
(matches (t :: p) s <-> exists x s', s = x :: s' /\ accepts t x = true /\ matches p s').
Proof.
intros Ht. split.
- intros H. inversion H; subst; try congruence; eexists _, _; repeat split; eauto.
- intros (x & s' & -> & Ha & Hm). destruct t; cbn in Ha; try congruence; now constructor.
Qed.

Lemma matches_all p s : matches (TAll :: p) s <-> exists s1 s2, s = s1 ++ s2 /\ matches p s2.
Proof.
split.
- intros H. inversion H; subst. eauto.
- intros (s1 & s2 & -> & H). now constructor.
Qed.

Lemma matches_all_cons p x s : matches (TAll :: p) (x :: s) <-> matches p (x :: s) \/ matches (TAll :: p) s.
Proof.
rewrite !matches_all. split.
- intros ([|y s1] & s2 & E & H); [left; cbn in E; now subst|]. right. injection E as <- ->. eauto.
- intros [H|(s1 & s2 & -> & H)]; [exists [], (x :: s); auto|]. exists (x :: s1), s2. auto.
Qed.

Lemma matches_all_nil p : matches (TAll :: p) [] <-> matches p [].
Proof.
rewrite matches_all. split.
- intros (s1 & s2 & E & H). destruct s1, s2; try discriminate. exact H.
- intros H. now exists [], [].
Qed.

(** What a return code of [patternCompare] promises about the pattern [p]
  and the string [s]; after [SQLITE_NOWILDCARDMATCH] no later start in the
  string can match either. *)
Definition verdict (p : list tok) (s : list Z) (rc : Z) : Prop :=
(rc = SQLITE_MATCH /\ matches p s) \/
(rc = SQLITE_NOMATCH /\ ~ matches p s) \/
(rc = SQLITE_NOWILDCARDMATCH /\ ~ matches (TAll :: p) s).

Definition star_verdict (p : list tok) (s : list Z) (rc : Z) : Prop :=
(rc = SQLITE_MATCH /\ matches (TAll :: p) s) \/
(rc = SQLITE_NOWILDCARDMATCH /\ ~ matches (TAll :: p) s).

Lemma all_all p s : matches (TAll :: TAll :: p) s <-> matches (TAll :: p) s.
Proof.
split; [|intros H; apply matches_all; now exists [], s].
rewrite !matches_all. intros (s1 & s2 & -> & H). apply matches_all in H as (s3 & s4 & -> & H).
exists (s1 ++ s3), s4. now rewrite app_assoc.
Qed.

Lemma star_verdict_all p s rc : star_verdict p s rc -> verdict (TAll :: p) s rc.
Proof. unfold star_verdict, verdict. rewrite all_all. tauto. Qed.

Lemma verdict_step t p x s rc : t <> TAll -> accepts t x = true ->
verdict p s rc -> verdict (t :: p) (x :: s) rc.
Proof.
intros Ht Ha [[-> H]|[[-> H]|[-> H]]].
- left. split; [reflexivity|]. apply matches_cons; eauto.
- right; left. split; [reflexivity|]. rewrite matches_cons by exact Ht.
  intros (y & s' & E & _ & Hm). injection E as <- <-. auto.
- right; right. split; [reflexivity|]. rewrite matches_all_cons, matches_all. intros [Hm|(s1 & s2 & -> & Hm)].
  + apply matches_cons in Hm as (y & s' & E & _ & Hm); [|exact Ht]. injection E as <- <-.
    apply H, matches_all. now exists [], s.
  + apply matches_cons in Hm as (y & s' & -> & _ & Hm); [|exact Ht].
    apply H, matches_all. exists (s1 ++ [y]), s'. now rewrite <- app_assoc.
Qed.

Lemma verdict_reject t p x s : t <> TAll -> accepts t x = false -> verdict (t :: p) (x :: s) SQLITE_NOMATCH.
Proof.
intros Ht Ha. right; left. split; [reflexivity|]. rewrite matches_cons by exact Ht.
intros (y & s' & E & Hy & _). injection E as <- <-. congruence.
Qed.

Lemma not_matches_nil t p : t <> TAll -> ~ matches (t :: p) [].
Proof. intros Ht. rewrite matches_cons by exact Ht. now intros (? & ? & ? & _). Qed.

Lemma verdict_end t p : t <> TAll -> verdict (t :: p) [] SQLITE_NOMATCH.
Proof. intros Ht. right; left. split; [reflexivity|]. now apply not_matches_nil. Qed.

(** Trying the positions of a string one after the other. *)
Lemma search_step p x s a rc : verdict p (x :: s) a ->
(a = SQLITE_NOMATCH -> star_verdict p s rc) ->
star_verdict p (x :: s) (if negb (a =? SQLITE_NOMATCH) then a else rc).
Proof.
intros [[-> H]|[[-> H]|[-> H]]] Hrc; cbn.
- left. split; [reflexivity|]. apply matches_all. now exists [], (x :: s).
- destruct (Hrc eq_refl) as [[-> Hm]|[-> Hm]]; [left|right]; (split; [reflexivity|]);
    rewrite matches_all_cons; tauto.
- right. auto.
Qed.

Lemma search_end t p : t <> TAll -> star_verdict (t :: p) [] SQLITE_NOWILDCARDMATCH.
Proof. intros Ht. right. split; [reflexivity|]. rewrite matches_all_nil. now apply not_matches_nil. Qed.

Lemma star_verdict_one p x s rc : star_verdict p s rc -> star_verdict (TOne :: p) (x :: s) rc.
Proof.
assert (E : matches (TAll :: TOne :: p) (x :: s) <-> matches (TAll :: p) s).
{ rewrite !matches_all. split.
  - intros (s1 & s2 & E & H). apply matches_cons in H as (y & s' & -> & _ & H); [|discriminate].
    destruct s1 as [|z s1]; injection E as -> ->; [now exists [], s'|]. exists (s1 ++ [y]), s'.
    now rewrite <- app_assoc.
  - intros (s1 & s2 & -> & H). destruct (exists_last (l := x :: s1) ltac:(discriminate)) as (a & y & Ea).
    exists a, (y :: s2). split; [change (x :: s1 ++ s2) with ((x :: s1) ++ s2); now rewrite Ea, <- app_assoc|].
    apply matches_cons; [discriminate|]. eexists _, _. repeat split. exact H. }
unfold star_verdict. now rewrite E.
Qed.

Lemma star_verdict_star p s rc : star_verdict p s rc -> star_verdict (TAll :: p) s rc.
Proof. unfold star_verdict. now rewrite all_all. Qed.

(** The conditions on the wildcard and escape characters that the callers
  of [patternCompare] establish. *)
Definition wf_info : Prop :=
(matchOne pInfo = matchAll pInfo -> matchOne pInfo = 0) /\
(esc = matchOne pInfo -> esc = 0) /\
(matchSet pInfo <> 0 -> 0 < esc < 0x80).

(** The next character of a text, or its end. *)
Lemma next_char z : cstring z ->
(z = [] /\ chars z = [] /\ sqlite3Utf8Read z = (0, [])) \/
(exists c z', sqlite3Utf8Read z = (c, z') /\ chars z = c :: chars z' /\ c <> 0 /\ cstring z' /\
   (length z' < length z)%nat /\ (rd z 0 =? 0) = false).
Proof.
intros H. destruct z as [|b z]; [left; repeat split; reflexivity|]. right.
destruct (chars_cons b z H) as (c & z' & E & Ec & Hc & Hz & Hl). exists c, z'. cbn [length].
repeat split; try assumption; [lia|]. now apply rd_cstring.
Qed.

Lemma chars_pos z c cs : cstring z -> chars z = c :: cs -> 0 < c.
Proof.
intros H E. destruct z as [|b z]; [discriminate|].
destruct (chars_cons b z H) as (c' & z' & Er & Ec & Hc & _). rewrite E in Ec. injection Ec as <- _.
pose proof (read_utf8_safe b z (cstring_bytes _ H)) as Hs.
change (READ_UTF8 (b :: z)) with (sqlite3Utf8Read (b :: z)) in Hs. rewrite Er in Hs. lia.
Qed.

Hypothesis Hwf : wf_info.

Lemma skip_ok fuel zP zS : matchAll pInfo <> 0 -> cstring zP -> cstring zS -> (length zP < fuel)%nat ->
match skip_wildcards fuel pInfo zP zS with
| inl rc => star_verdict (toks (chars zP)) (chars zS) rc
| inr (c, zP', zS') =>
    cstring zP' /\ cstring zS' /\ c <> matchAll pInfo /\ (c <> 0 -> c <> matchOne pInfo) /\
    exists q, (c = 0 /\ q = [] \/ 0 < c /\ q = c :: chars zP' /\ (length zP' < length zP)%nat) /\
    forall rc, star_verdict (toks q) (chars zS') rc -> star_verdict (toks (chars zP)) (chars zS) rc
end.
Proof.
destruct Hwf as (Hone & Hesc & Hset). intros Hall. revert zP zS.
induction fuel as [|fuel IH]; intros zP zS HP HS Hf; [lia|]. cbn [skip_wildcards]. rewrite Utf8Read_eq.
destruct (next_char zP HP) as [(-> & E & ->)|(c & zP' & E & Ec & Hc & HP' & Hl & _)].
{ destruct (Z.eqb_spec 0 (matchAll pInfo)); [congruence|].
  destruct (Z.eqb_spec 0 (matchOne pInfo)) as [E0|E0]; [rewrite <- E0|]; cbn;
    (repeat split; [constructor|exact HS|lia|lia|]; exists []; split; [auto|]; auto). }
rewrite E. destruct (Z.eqb_spec c (matchAll pInfo)) as [Ea|Na]; cbn [orb].
- destruct (Z.eqb_spec c (matchOne pInfo)) as [Eo|No]; [exfalso; apply Hc; rewrite Eo; apply Hone; congruence|].
  specialize (IH zP' zS HP' HS ltac:(lia)). rewrite Ec, toks_cons, (proj2 (Z.eqb_eq _ _) Ea).
  destruct (skip_wildcards fuel pInfo zP' zS) as [rc|[[c2 zP2] zS2]].
  + now apply star_verdict_star.
  + destruct IH as (A1 & A2 & A3 & A4 & q & Hq & Hrc). repeat split; try assumption. exists q. split.
    * destruct Hq as [Hq|(? & ? & ?)]; [left; exact Hq|right; repeat split; try assumption; lia].
    * intros rc Hv. apply star_verdict_star, Hrc, Hv.
- destruct (Z.eqb_spec c (matchOne pInfo)) as [Eo|No]; cbn [andb].
  + replace (matchOne pInfo =? 0) with false by lia. cbn [negb].
    assert (Et : toks (chars zP) = TOne :: toks (chars zP')).
    { rewrite Ec, toks_cons. replace (c =? matchAll pInfo) with false by lia.
      replace (c =? esc) with false by (symmetry; apply Z.eqb_neq; intros ->; auto).
      now replace (c =? matchOne pInfo) with true by lia. }
    destruct (next_char zS HS) as [(-> & ES & ->)|(x & zS' & -> & ES & Hx & HS' & Hls & _)].
    * cbn. rewrite Et. apply search_end. discriminate.
    * replace (x =? 0) with false by lia. specialize (IH zP' zS' HP' HS' ltac:(lia)). rewrite Et, ES.
      destruct (skip_wildcards fuel pInfo zP' zS') as [rc|[[c2 zP2] zS2]].
      { now apply star_verdict_one. }
      destruct IH as (A1 & A2 & A3 & A4 & q & Hq & Hrc). repeat split; try assumption. exists q. split.
      { destruct Hq as [Hq|(? & ? & ?)]; [left; exact Hq|right; repeat split; try assumption; lia]. }
      intros rc Hv. apply star_verdict_one, Hrc, Hv.
  + repeat split; try assumption; try lia. exists (chars zP). pose proof (chars_pos zP c _ HP Ec). rewrite Ec. split; [right; auto|auto].
Qed.

Section Searches.
Variables (rest : list Z -> Z) (p : list tok).

Lemma set_search_ok t fuel zS : t <> TAll -> (forall z, cstring z -> verdict (t :: p) (chars z) (rest z)) ->
  cstring zS -> (length zS <= fuel)%nat -> star_verdict (t :: p) (chars zS) (set_search rest fuel zS).
Proof.
  intros Ht Hr. revert zS. induction fuel as [|fuel IH]; intros zS HS Hf.
  - destruct zS; [|cbn in Hf; lia]. now apply search_end.
  - cbn [set_search]. destruct (next_char zS HS) as [(-> & E & _)|(x & zS' & E & Ex & Hx & HS' & Hl & E0)].
    + now apply search_end.
    + rewrite E0, skip_eq_read, E. cbn [snd]. pose proof (Hr zS HS) as Hv. rewrite Ex in *.
      apply search_step; [exact Hv|]. intros _. apply IH; [exact HS'|lia].
Qed.

Lemma char_search_ok c fuel zS : (forall z, cstring z -> verdict p (chars z) (rest z)) ->
  (noCase pInfo = true -> 0x80 <= c) -> c <> 0 ->
  cstring zS -> (length zS <= fuel)%nat -> star_verdict (TChar c :: p) (chars zS) (char_search rest fuel c zS).
Proof.
  intros Hr Hc H0. revert zS. induction fuel as [|fuel IH]; intros zS HS Hf.
  - destruct zS; [|cbn in Hf; lia]. apply search_end. discriminate.
  - cbn [char_search]. rewrite Utf8Read_eq.
    destruct (next_char zS HS) as [(-> & _ & ->)|(x & zS' & -> & Ex & Hx & HS' & Hl & _)].
    + apply search_end. discriminate.
    + replace (x =? 0) with false by lia. rewrite Ex.
      assert (Ea : accepts (TChar c) x = (x =? c)).
      { cbn [accepts]. unfold char_eq. destruct (Z.eqb_spec c x) as [<-|Hne]; [symmetry; apply Z.eqb_refl|].
        replace (x =? c) with false by lia. destruct (noCase pInfo); [|reflexivity].
        specialize (Hc eq_refl). now replace (c <? 0x80) with false by lia. }
      destruct (x =? c) eqn:Exc; cbn [negb].
      * apply search_step; [apply verdict_step; [discriminate|exact Ea|apply Hr, HS']|].
        intros _. apply IH; [exact HS'|lia].
      * pose proof (search_step (TChar c :: p) x (chars zS') SQLITE_NOMATCH (char_search rest fuel c zS')) as Hs.
        apply Hs; [now apply verdict_reject|]. intros _. apply IH; [exact HS'|lia].
Qed.

(** The bytes of one character that is not ASCII hold no stop character. *)
Lemma stop_search_skip zStop b z c z' : cstring (b :: z) -> Forall (fun x => 0 <= x < 0x80) zStop ->
  0x80 <= b -> sqlite3Utf8Read (b :: z) = (c, z') -> stop_search rest zStop (b :: z) = stop_search rest zStop z'.
Proof.
  intros Hcs Hst Hb E.
  assert (Hn : forall x, 0x80 <= x -> existsb (Z.eqb x) zStop = false).
  { intros x Hx. apply not_true_iff_false. rewrite existsb_exists. intros (y & Hy & Ey).
    rewrite Forall_forall in Hst. specialize (Hst y Hy). lia. }
  assert (Hk : forall l c0, bytes l -> stop_search rest zStop l = stop_search rest zStop (snd (read_cont c0 l))).
  { induction l as [|x l IH]; intros c0 Hl; [reflexivity|]. cbn [read_cont].
    apply Forall_cons_iff in Hl as [Hx Hl]. destruct (is_cont x) eqn:Ex; [|reflexivity].
    rewrite is_cont_range in Ex by exact Hx. cbn [stop_search]. replace (x =? 0) with false by lia.
    rewrite Hn by lia. now apply IH. }
  cbn [stop_search]. replace (b =? 0) with false by lia. rewrite Hn by exact Hb.
  unfold sqlite3Utf8Read in E. rewrite rd_0 in E. cbn [tl] in E.
  apply Forall_cons_iff in Hcs as [_ Hz]. apply cstring_bytes in Hz.
  destruct (0xc0 <=? b); [|now inversion E]. rewrite (Hk z (rd sqlite3Utf8Trans1 (b - 0xc0)) Hz).
  destruct (read_cont _ z). now inversion E.
Qed.

Lemma stop_chars_eq c x : 0 < c < 0x80 -> 0 < x < 0x80 ->
  existsb (Z.eqb x) (stop_chars (noCase pInfo) c) = char_eq pInfo c x.
Proof.
  intros Hc Hx. unfold stop_chars, char_eq. replace (c <? 0x80) with true by lia. replace (x <? 0x80) with true by lia.
  destruct (noCase pInfo); cbn [existsb andb]; [|rewrite !orb_false_r; apply Z.eqb_sym].
  destruct (ctype_case c ltac:(unfold is_u8; lia)) as [-> ->]. unfold lower, upper, in_range.
  if_cases; lia.
Qed.

Lemma stop_chars_ascii c : 0 < c < 0x80 -> Forall (fun x => 0 <= x < 0x80) (stop_chars (noCase pInfo) c).
Proof.
  intros Hc. unfold stop_chars. destruct (ctype_case c ltac:(unfold is_u8; lia)) as [-> ->].
  unfold lower, upper, in_range. destruct (noCase pInfo); repeat constructor;
    if_cases; lia.
Qed.

Lemma stop_search_ok c zS : (forall z, cstring z -> verdict p (chars z) (rest z)) -> 0 < c < 0x80 ->
  cstring zS -> star_verdict (TChar c :: p) (chars zS) (stop_search rest (stop_chars (noCase pInfo) c) zS).
Proof.
  intros Hr Hc. remember (length zS) as n eqn:Hn. assert (Hle : (length zS <= n)%nat) by lia. clear Hn.
  revert zS Hle. induction n as [|n IH]; intros [|b z] Hl HS; cbn [length] in Hl; try lia;
    try (apply search_end; discriminate).
  destruct (chars_cons b z HS) as (x & z' & E & Ex & Hx & HS' & Hl'). rewrite Ex.
  destruct (ascii_char b z x z' HS E) as [Hlow Hhigh].
  pose proof (Forall_inv HS) as [Hb Hb0]. unfold is_u8 in Hb.
  destruct (Z_lt_ge_dec b 0x80) as [Hlt|Hge].
  - destruct (Hlow Hlt) as [-> ->]. cbn [stop_search]. replace (b =? 0) with false by lia.
    rewrite stop_chars_eq by lia. destruct (char_eq pInfo c b) eqn:Ec.
    + apply search_step; [apply verdict_step; [discriminate|exact Ec|apply Hr, HS']|]. intros _. apply IH; [lia|exact HS'].
    + apply (search_step (TChar c :: p) b (chars z) SQLITE_NOMATCH); [apply verdict_reject; [discriminate|exact Ec]|].
      intros _. apply IH; [lia|exact HS'].
  - rewrite (stop_search_skip _ b z x z' HS (stop_chars_ascii c Hc) ltac:(lia) E).
    specialize (Hhigh ltac:(lia)).
    apply (search_step (TChar c :: p) x (chars z') SQLITE_NOMATCH).
    + apply verdict_reject; [discriminate|]. cbn [accepts]. unfold char_eq.
      replace (c =? x) with false by lia. replace (x <? 0x80) with false by lia. now rewrite !andb_false_r.
    + intros _. apply IH; [lia|exact HS'].
Qed.
End Searches.

Lemma next_byte z k : cstring z -> 0 < k < 0x80 ->
(rd z 0 =? k) = match chars z with [] => false | c :: _ => c =? k end.
Proof.
intros H Hk. destruct z as [|b z]; [change (rd [] 0) with 0; apply Z.eqb_neq; lia|].
destruct (chars_cons b z H) as (c & z' & E & -> & Hc & _). rewrite rd_0.
destruct (ascii_char b z c z' H E) as [H1 H2].
destruct (Z_lt_ge_dec b 0x80) as [Hb|Hb]; [destruct (H1 Hb) as [-> _]; reflexivity|].
specialize (H2 ltac:(lia)). lia.
Qed.

Lemma next_byte_end z : cstring z -> (rd z 0 =? 0) = match chars z with [] => true | _ :: _ => false end.
Proof.
intros H. destruct (next_char z H) as [(-> & -> & _)|(c & z' & _ & -> & _ & _ & _ & ->)]; reflexivity.
Qed.

Lemma in_items_cons x lo hi l : in_items x ((lo, hi) :: l) = (lo <=? x) && (x <=? hi) || in_items x l.
Proof. reflexivity. Qed.

(** The members of a set: the loop computes what [parse_items] describes. *)
Lemma set_loop_ok fuel f x prior seen z : cstring z -> (length (snd (sqlite3Utf8Read z)) < fuel)%nat ->
(length (chars z) <= f)%nat ->
let '(c2, zP) := sqlite3Utf8Read z in
match parse_items f prior (chars z) with
| None => fst (fst (set_loop fuel x c2 prior seen zP)) = 0
| Some (l, r) => exists zP', set_loop fuel x c2 prior seen zP = (93, seen || in_items x l, zP') /\
    cstring zP' /\ chars zP' = r /\ (length zP' <= length zP)%nat
end.
Proof.
revert f prior seen z. induction fuel as [|fuel IH]; intros f prior seen z Hz Hf Hq; [lia|].
destruct (next_char z Hz) as [(-> & Ez & E)|(c2 & zP & E & Ez & Hc & HP & Hl & _)]; rewrite E.
{ rewrite Ez. destruct f; reflexivity. }
rewrite E in Hf. cbn [snd] in Hf. rewrite Ez in *. cbn [length] in Hq. destruct f as [|f]; [lia|].
cbn [set_loop parse_items]. replace (c2 =? 0) with false by lia. cbn [negb andb].
destruct (Z.eqb_spec c2 93) as [->|H93]; cbn [negb].
{ exists zP. cbn. rewrite orb_false_r. auto. }
assert (Hplain : forall seen', seen' = (if x =? c2 then true else seen) ->
  match option_map (fun '(l, r) => ((c2, c2) :: l, r)) (parse_items f c2 (chars zP)) with
  | None => fst (fst (let '(c3, zP3) := sqlite3Utf8Read zP in set_loop fuel x c3 c2 seen' zP3)) = 0
  | Some (l, r) => exists zP', (let '(c3, zP3) := sqlite3Utf8Read zP in set_loop fuel x c3 c2 seen' zP3)
        = (93, seen || in_items x l, zP') /\ cstring zP' /\ chars zP' = r /\ (length zP' <= length zP)%nat
  end).
{ intros seen' Es. assert (Hl' : (length (snd (sqlite3Utf8Read zP)) <= length zP)%nat)
    by (destruct (read_suffix zP) as [pre Hp]; rewrite Hp at 2; rewrite length_app; lia).
  assert (Hn : zP = [] \/ (length (snd (sqlite3Utf8Read zP)) < length zP)%nat)
    by (destruct (next_char zP HP) as [(-> & _)|(? & ? & -> & _ & _ & _ & ? & _)]; [now left|right; assumption]).
  destruct Hn as [->|Hn]; [destruct fuel, f; reflexivity|].
  specialize (IH f c2 seen' zP HP ltac:(lia) ltac:(lia)).
  destruct (sqlite3Utf8Read zP) as [c3 zP3]. destruct (parse_items f c2 (chars zP)) as [[l r]|]; cbn [option_map]; [|exact IH].
  destruct IH as (zP' & -> & H1 & H2 & H3). exists zP'. rewrite in_items_cons, Es. cbn [snd] in *.
  replace ((c2 <=? x) && (x <=? c2)) with (x =? c2) by lia.
  repeat split; try assumption; [|lia]. do 2 f_equal. destruct (x =? c2), seen; reflexivity. }
specialize (Hplain _ eq_refl). rewrite next_byte, next_byte_end by (assumption || lia).
destruct (Z.eqb_spec c2 45) as [->|H45]; cbn [andb]; [|exact Hplain].
destruct (next_char zP HP) as [(-> & Ep & Er)|(hi & zP2 & Er & Ep & Hhi & HP2 & Hl2 & _)]; rewrite Ep in *; cbn [negb andb].
{ destruct (0 <? prior); exact Hplain. }
destruct (hi =? 93) eqn:Ehi; cbn [negb andb]; [destruct (0 <? prior); exact Hplain|].
destruct (0 <? prior) eqn:Epr; [|exact Hplain]. rewrite Er. cbn [length] in Hq.
destruct (next_char zP2 HP2) as [(-> & E2 & Er2)|(c3 & zP3 & Er2 & E2 & _ & _ & Hl3 & _)].
{ rewrite Er2. destruct fuel, f; reflexivity. }
specialize (IH f 0 (if (prior <=? x) && (x <=? hi) then true else seen) zP2 HP2).
rewrite Er2 in *. cbn [snd] in IH. specialize (IH ltac:(lia) ltac:(lia)).
destruct (parse_items f 0 (chars zP2)) as [[l r]|]; cbn [option_map]; [|exact IH].
destruct IH as (zP' & -> & H1 & H2 & H3). exists zP'. rewrite in_items_cons.
repeat split; try assumption; [|lia]. do 2 f_equal. destruct ((prior <=? x) && (x <=? hi)), seen; reflexivity.
Qed.

Lemma take_ok (v : bool) k z : cstring z -> k <> 0 -> exists z',
(let '(c2, z1) := sqlite3Utf8Read z in
 if c2 =? k then (v, sqlite3Utf8Read z1) else (false, (c2, z1)))
= (if fst (take_char k (chars z)) then v else false, sqlite3Utf8Read z') /\
chars z' = snd (take_char k (chars z)) /\ cstring z' /\ (length z' <= length z)%nat.
Proof.
intros Hz Hk. destruct (next_char z Hz) as [(-> & E & Er)|(c & z1 & Er & E & Hc & H1 & Hl & _)].
- exists []. rewrite Er. replace (0 =? k) with false by lia. repeat split; auto.
- rewrite Er, E. cbn [take_char]. destruct (c =? k).
  + exists z1. repeat split; auto. lia.
  + exists z. rewrite Er, E. repeat split; auto.
Qed.

(** A set in the pattern and one character of the string. *)
Lemma match_set_ok zP zS : cstring zP -> cstring zS ->
match chars zS, parse_set (chars zP) with
| x :: s, Some (inv, items, r) =>
    if xorb (in_items x items) inv then
      exists zP' zS', match_set zP zS = Some (zP', zS') /\ cstring zP' /\ cstring zS' /\
        chars zP' = r /\ chars zS' = s /\ (length zP' <= length zP)%nat
    else match_set zP zS = None
| _, _ => match_set zP zS = None
end.
Proof.
intros HP HS. unfold match_set.
destruct (next_char zS HS) as [(-> & -> & ->)|(x & zS' & -> & -> & Hx & HS' & _ & _)]; [reflexivity|].
replace (x =? 0) with false by lia. unfold parse_set.
destruct (take_ok true 94 zP HP ltac:(lia)) as (z1 & E1 & C1 & H1 & L1).
destruct (sqlite3Utf8Read zP) as [c2 zP1]. rewrite E1.
destruct (take_char 94 (chars zP)) as [inv p1]. cbn [fst snd] in *. subst p1.
destruct (take_ok (x =? 93) 93 z1 H1 ltac:(lia)) as (z2 & E2 & C2 & H2 & L2).
destruct (sqlite3Utf8Read z1) as [c2' zP2]. rewrite E2.
destruct (take_char 93 (chars z1)) as [br p2]. cbn [fst snd] in *. subst p2.
pose proof (fun f seen => set_loop_ok f (length (chars z2)) x 0 seen z2 H2) as Hloop.
destruct (read_suffix z2) as [pre Hpre].
destruct (sqlite3Utf8Read z2) as [c3 zP3]. cbn [snd] in Hpre, Hloop.
specialize (Hloop (S (length zP3)) (if br then x =? 93 else false) ltac:(lia) ltac:(lia)).
destruct (parse_items (length (chars z2)) 0 (chars z2)) as [[l r]|]; cbn [option_map].
- destruct Hloop as (zP' & -> & A1 & A2 & A3). change (93 =? 0) with false. cbn [orb].
  assert (Ein : in_items x ((if br then [(93, 93)] else []) ++ l) = (if br then x =? 93 else false) || in_items x l).
  { destruct br; cbn [app]; [|reflexivity]. rewrite in_items_cons. f_equal. lia. }
  rewrite Ein. replace (if inv then true else false) with inv by now destruct inv.
  destruct (xorb _ inv); cbn [negb]; [|reflexivity].
  exists zP', zS'. repeat split; try assumption. subst z2. rewrite length_app in *. lia.
- destruct (set_loop _ _ _ _ _ _) as [[c4 sn] zP4]. cbn in Hloop. subst c4. reflexivity.
Qed.

(** One character of the pattern that is not a wildcard or a set. *)
Lemma literal_ok (rest : list Z -> Z) p c (escaped : bool) zS :
0 < c -> cstring zS -> (forall z, cstring z -> verdict p (chars z) (rest z)) ->
verdict ((if (c =? matchOne pInfo) && negb escaped then TOne else TChar c) :: p) (chars zS)
  (let '(c2, zS) := Utf8Read zS in
   if c =? c2 then rest zS
   else if noCase pInfo && (sqlite3Tolower c =? sqlite3Tolower c2) && (c <? 0x80) && (c2 <? 0x80)
   then rest zS
   else if (c =? matchOne pInfo) && negb escaped && negb (c2 =? 0) then rest zS
   else SQLITE_NOMATCH).
Proof.
intros Hc HS Hr. set (t := if (c =? matchOne pInfo) && negb escaped then TOne else TChar c).
assert (Ht : t <> TAll) by (subst t; destruct (_ && _); discriminate).
rewrite Utf8Read_eq.
assert (Hlow : forall x, 0 <= x -> (x <? 0x80) = true -> sqlite3Tolower x = lower x)
  by (intros x H0 Hx; apply ctype_case; unfold is_u8; lia).
destruct (next_char zS HS) as [(-> & -> & ->)|(x & zS' & -> & Ex & Hx & HS' & _ & _)].
- replace (c =? 0) with false by lia. cbn [negb andb Z.eqb]. rewrite andb_false_r.
  assert (En : noCase pInfo && (sqlite3Tolower c =? sqlite3Tolower 0) && (c <? 0x80) && (0 <? 0x80) = false);
    [|rewrite En; now apply verdict_end].
  destruct (c <? 0x80) eqn:E; [|now rewrite !andb_false_r].
  rewrite !Hlow by (lia || reflexivity). unfold lower, in_range.
  destruct (noCase pInfo); [cbn [andb]|reflexivity].
  if_cases; lia.
- pose proof (chars_pos zS x (chars zS') HS Ex) as Hxp. rewrite Ex. replace (x =? 0) with false by lia.
  cbn [negb]. rewrite andb_true_r.
  assert (Heq : char_eq pInfo c x = (c =? x) || noCase pInfo && (sqlite3Tolower c =? sqlite3Tolower x) && (c <? 0x80) && (x <? 0x80)).
  { unfold char_eq. f_equal. destruct (c <? 0x80) eqn:E1, (x <? 0x80) eqn:E2; rewrite ?andb_false_r; try reflexivity.
    rewrite !Hlow by (lia || assumption). now rewrite !andb_true_r. }
  assert (Hacc : accepts t x = (c =? x) || noCase pInfo && (sqlite3Tolower c =? sqlite3Tolower x) && (c <? 0x80) && (x <? 0x80)
                             || (c =? matchOne pInfo) && negb escaped).
  { subst t. destruct (_ && negb escaped); cbn [accepts]; [now rewrite orb_true_r|]. now rewrite orb_false_r. }
  destruct (c =? x); [apply verdict_step; auto|]. cbn [orb] in Hacc.
  destruct (_ && (x <? 0x80)); [apply verdict_step; auto|]. cbn [orb] in Hacc.
  destruct (_ && negb escaped); [apply verdict_step; auto|now apply verdict_reject].
Qed.

(** The search for a character after a [matchAll]. *)
Lemma literal_search_ok (rest : list Z -> Z) p c zS : 0 < c -> cstring zS ->
(forall z, cstring z -> verdict p (chars z) (rest z)) ->
star_verdict (TChar c :: p) (chars zS)
  (if c <? 0x80 then stop_search rest (stop_chars (noCase pInfo) c) zS
   else char_search rest (length zS) c zS).
Proof.
intros Hc HS Hr. destruct (Z.ltb_spec c 0x80).
- apply stop_search_ok; auto.
- apply char_search_ok; auto; lia.
Qed.

Lemma bad_verdict s : verdict [TBad] s SQLITE_NOMATCH.
Proof. destruct s; [now apply verdict_end|now apply verdict_reject]. Qed.

Lemma bad_star s : star_verdict [TBad] s SQLITE_NOWILDCARDMATCH.
Proof.
right. split; [reflexivity|]. rewrite matches_all. intros (s1 & s2 & _ & H).
apply matches_cons in H as (x & s' & _ & Ha & _); discriminate.
Qed.

Lemma chars_ascii b z : 0 < b < 0x80 -> cstring z -> cstring (b :: z) /\ chars (b :: z) = b :: chars z.
Proof.
intros Hb Hz. assert (H : cstring (b :: z)) by (constructor; [unfold is_u8; lia|exact Hz]).
split; [exact H|]. destruct (chars_cons b z H) as (c & z' & E & -> & _).
destruct (ascii_char b z c z' H E) as [H1 _]. destruct (H1 ltac:(lia)) as [-> ->]. reflexivity.
Qed.

Section Step.
(** The recursive calls, on patterns of at most [n] bytes. *)
Variables (n : nat) (rec : option (list Z) -> list Z -> list Z -> Z).
Hypothesis Hrec : forall zE z zS, cstring z -> cstring zS -> (length z < n)%nat ->
  (forall e, zE = Some e -> (length z <= length e)%nat) ->
  verdict (toks (chars z)) (chars zS) (rec zE z zS).

Lemma star_step c zP zS : 0 < c -> c <> matchAll pInfo -> c <> matchOne pInfo ->
  cstring zP -> cstring zS -> (S (length zP) < n)%nat ->
  star_verdict (toks (c :: chars zP)) (chars zS)
    (if (c =? esc) && negb (matchSet pInfo =? 0) then
       set_search (rec None (esc :: zP)) (length zS) zS
     else
       let '(c, zP) := if c =? esc then sqlite3Utf8Read zP else (c, zP) in
       if c =? 0 then SQLITE_NOWILDCARDMATCH
       else if c <? 0x80 then stop_search (rec None zP) (stop_chars (noCase pInfo) c) zS
       else char_search (rec None zP) (length zS) c zS).
Proof.
  destruct Hwf as (Hone & Hesc & Hset). intros Hc Na No HP HS Hn.
  assert (Hr : forall z, cstring z -> (length z < n)%nat ->
    forall zS', cstring zS' -> verdict (toks (chars z)) (chars zS') (rec None z zS'))
    by (intros; apply Hrec; auto; discriminate).
  pose proof (toks_cons c (chars zP)) as Et.
  replace (c =? matchAll pInfo) with false in Et by lia. replace (c =? matchOne pInfo) with false in Et by lia.
  destruct (Z.eqb_spec c esc) as [->|Ne]; cbn [andb].
  - destruct (matchSet pInfo =? 0) eqn:Es; cbn [negb].
    + rewrite Et. destruct (next_char zP HP) as [(-> & -> & ->)|(d & zP' & -> & E & Hd & HP' & Hl & _)].
      * apply bad_star.
      * rewrite E. replace (d =? 0) with false by lia.
        apply literal_search_ok; [exact (chars_pos zP d _ HP E)|exact HS|]. apply Hr; [exact HP'|lia].
    + destruct (chars_ascii esc zP ltac:(lia) HP) as [HcP EP].
      assert (Hh : exists t p, toks (esc :: chars zP) = t :: p /\ t <> TAll).
      { rewrite Et. destruct (parse_set (chars zP)) as [[[inv items] r]|]; eexists _, _; split; try reflexivity; discriminate. }
      destruct Hh as (t & p & Etp & Ht). rewrite Etp.
      apply set_search_ok; [exact Ht| |exact HS|lia].
      intros z Hz. rewrite <- Etp, <- EP. apply Hr; [exact HcP|cbn [length]; lia|exact Hz].
  - rewrite Et. replace (c =? 0) with false by lia.
    apply literal_search_ok; [exact Hc|exact HS|]. apply Hr; [exact HP|lia].
Qed.

Lemma plain_step c zE zP zS : 0 < c -> c <> matchAll pInfo -> cstring zP -> cstring zS ->
  (S (length zP) <= n)%nat -> (forall e, zE = Some e -> (length zP < length e)%nat) ->
  verdict (toks (c :: chars zP)) (chars zS)
    (if (c =? esc) && negb (matchSet pInfo =? 0) then
       match match_set zP zS with
       | None => SQLITE_NOMATCH
       | Some (zP, zS) => rec zE zP zS
       end
     else
       let '(c, zP, zE) :=
         if c =? esc then let '(c, zP) := sqlite3Utf8Read zP in (c, zP, Some zP) else (c, zP, zE) in
       if c =? 0 then SQLITE_NOMATCH
       else
         let '(c2, zS) := Utf8Read zS in
         if c =? c2 then rec zE zP zS
         else if noCase pInfo && (sqlite3Tolower c =? sqlite3Tolower c2) && (c <? 0x80) && (c2 <? 0x80)
         then rec zE zP zS
         else if (c =? matchOne pInfo)
              && negb (match zE with None => false | Some z => Nat.eqb (length z) (length zP) end)
              && negb (c2 =? 0)
         then rec zE zP zS
         else SQLITE_NOMATCH).
Proof.
  destruct Hwf as (Hone & Hesc & Hset). intros Hc Na HP HS Hn HE.
  rewrite toks_cons. replace (c =? matchAll pInfo) with false by lia.
  destruct (Z.eqb_spec c esc) as [->|Ne]; cbn [andb].
  - destruct (matchSet pInfo =? 0) eqn:Es; cbn [negb].
    + destruct (next_char zP HP) as [(-> & -> & ->)|(d & zP' & -> & E & Hd & HP' & Hl & _)]; [apply bad_verdict|].
      rewrite E. replace (d =? 0) with false by lia. rewrite Nat.eqb_refl.
      pose proof (literal_ok (rec (Some zP') zP') (toks (chars zP')) d true zS) as H.
      cbn [negb] in *. rewrite andb_false_r in H. rewrite andb_false_r.
      apply H; [exact (chars_pos zP d _ HP E)|exact HS|].
      intros z Hz. apply Hrec; [exact HP'|exact Hz|lia|]. intros e Ee. injection Ee as <-. lia.
    + pose proof (match_set_ok zP zS HP HS) as H. pose proof (parse_set_length (chars zP)) as Hlen.
      destruct (chars zS) as [|x s].
      { rewrite H. destruct (parse_set (chars zP)) as [[[inv items] r]|]; now apply verdict_end. }
      destruct (parse_set (chars zP)) as [[[inv items] r]|]; [|rewrite H; now apply verdict_reject].
      destruct (xorb (in_items x items) inv) eqn:Ex; [|rewrite H; now apply verdict_reject].
      destruct H as (zP' & zS' & -> & A1 & A2 & <- & <- & A5).
      apply verdict_step; [discriminate|exact Ex|]. apply Hrec; [exact A1|exact A2|lia|].
      intros e Ee. specialize (HE e Ee). lia.
  - replace (c =? 0) with false by lia.
    assert (Hne : match zE with None => false | Some z => Nat.eqb (length z) (length zP) end = false).
    { destruct zE as [e|]; [|reflexivity]. specialize (HE e eq_refl). apply Nat.eqb_neq. lia. }
    rewrite Hne.
    pose proof (literal_ok (rec zE zP) (toks (chars zP)) c false zS Hc HS) as H. cbn [negb] in *.
    rewrite andb_true_r in *. destruct (c =? matchOne pInfo); (apply H; intros z Hz; apply Hrec; [exact HP|exact Hz|lia|];
      intros e Ee; specialize (HE e Ee); lia).
Qed.
End Step.

(** The whole comparison. *)
Lemma patternCompare_ok fuel zEscaped zP zS : cstring zP -> cstring zS -> (length zP < fuel)%nat ->
(forall e, zEscaped = Some e -> (length zP <= length e)%nat) ->
verdict (toks (chars zP)) (chars zS) (patternCompare_loop fuel pInfo esc zEscaped zP zS).
Proof.
revert zEscaped zP zS. induction fuel as [|fuel IH]; intros zE zP zS HP HS Hf HE; [lia|].
cbn [patternCompare_loop]. rewrite Utf8Read_eq.
destruct (next_char zP HP) as [(-> & Ep & Er)|(c & zP' & Er & Ep & Hc & HP' & Hl & _)]; rewrite Er, Ep.
{ cbn [Z.eqb]. rewrite next_byte_end by exact HS. destruct (chars zS) as [|x s].
  - left. split; [reflexivity|constructor].
  - right; left. split; [reflexivity|]. intros H; inversion H. }
pose proof (chars_pos zP c (chars zP') HP Ep) as Hpos. replace (c =? 0) with false by lia.
destruct (c =? matchAll pInfo) eqn:Eall.
- rewrite toks_cons, Eall. apply star_verdict_all.
  pose proof (skip_ok (S (length zP')) zP' zS ltac:(lia) HP' HS ltac:(lia)) as Hs.
  destruct (skip_wildcards (S (length zP')) pInfo zP' zS) as [rc|[[c1 zP1] zS1]]; [exact Hs|].
  destruct Hs as (HP1 & HS1 & Na & No & q & Hq & Hrc). apply Hrc. clear Hrc.
  destruct Hq as [[-> ->]|(Hc1 & -> & Hl1)].
  + left. split; [reflexivity|]. apply matches_all. exists (chars zS1), []. rewrite app_nil_r. split; [reflexivity|constructor].
  + replace (c1 =? 0) with false by lia.
    apply (star_step fuel (patternCompare_loop fuel pInfo esc)); auto; lia.
- apply (plain_step fuel (patternCompare_loop fuel pInfo esc)); auto; try lia.
  intros e Ee. specialize (HE e Ee). lia.
Qed.
End Verdict.

(** ** Texts built around ASCII characters *)

(** [f] keeps every byte and may put an ASCII byte before an ASCII byte. *)
Definition ascii_prefixing (f : Z -> list Z) : Prop :=
  forall b, f b = [b] \/ (0 < b < 0x80 /\ exists e, 0 < e < 0x80 /\ f b = [e; b]).

Lemma flat_map_cstring f z : ascii_prefixing f -> cstring z -> cstring (flat_map f z).
Proof.
  intros Hf H. induction H as [|b z Hb Hz IH]; [constructor|]. cbn [flat_map]. apply Forall_app. split; [|exact IH].
  destruct (Hf b) as [->|(_ & e & He & ->)]; repeat constructor; try apply Hb; unfold is_u8; lia.
Qed.

Lemma read_cont_flat_map f c l : ascii_prefixing f -> bytes l ->
  read_cont c (flat_map f l) = (fst (read_cont c l), flat_map f (snd (read_cont c l))).
Proof.
  intros Hf. revert c. induction l as [|x l IH]; intros c Hl; [reflexivity|].
  apply Forall_cons_iff in Hl as [Hx Hl]. cbn [flat_map read_cont].
  destruct (is_cont x) eqn:Ex.
  - destruct (Hf x) as [->|(Ha & _)]; [|rewrite is_cont_range in Ex by exact Hx; lia].
    cbn [app read_cont]. rewrite Ex. now apply IH.
  - cbn [fst snd flat_map]. destruct (Hf x) as [->|(Ha & e & He & ->)]; cbn [app read_cont]; [now rewrite Ex|].
    rewrite is_cont_range by (unfold is_u8; lia). now replace ((128 <=? e) && (e <? 192)) with false by lia.
Qed.

Lemma chars_flat_map f z : ascii_prefixing f -> cstring z -> chars (flat_map f z) = flat_map f (chars z).
Proof.
  intros Hf. remember (length z) as n eqn:Hn. assert (Hle : (length z <= n)%nat) by lia. clear Hn.
  revert z Hle. induction n as [|n IH]; intros [|b z] Hl H; try reflexivity; cbn [length] in Hl; [lia|].
  pose proof H as H'. apply Forall_cons_iff in H' as [[Hb Hb0] Hz].
  destruct (chars_cons b z H) as (c & z' & E & Ec & Hc & Hz' & Hl'). rewrite Ec. cbn [flat_map].
  destruct (ascii_char b z c z' H E) as [Hlow Hhigh]. unfold is_u8 in Hb.
  destruct (Z_lt_ge_dec b 0x80) as [Hlt|Hge].
  - destruct (Hlow Hlt) as [-> ->]. pose proof (flat_map_cstring f z Hf Hz) as Hzf.
    destruct (Hf b) as [->|(_ & e & He & ->)]; cbn [app].
    + rewrite (proj2 (chars_ascii b _ ltac:(lia) Hzf)). f_equal. apply IH; [lia|exact Hz].
    + destruct (chars_ascii b _ ltac:(lia) Hzf) as [Hbz Eb].
      rewrite (proj2 (chars_ascii e _ He Hbz)), Eb. do 2 f_equal. apply IH; [lia|exact Hz].
  - specialize (Hhigh ltac:(lia)).
    destruct (Hf c) as [Efc|(? & _)]; [rewrite Efc|lia]. destruct (Hf b) as [Efb|(? & _)]; [rewrite Efb|lia].
    cbn [app]. rewrite <- (IH z') by (lia || assumption).
    assert (Hcs : cstring (b :: flat_map f z)) by (constructor; [split; [exact Hb|lia]|now apply flat_map_cstring]).
    destruct (chars_cons b (flat_map f z) Hcs) as (c1 & z1 & E1 & -> & _).
    assert (Er : sqlite3Utf8Read (b :: flat_map f z) = (c, flat_map f z')).
    { unfold sqlite3Utf8Read in *. rewrite rd_0 in *. cbn [tl] in *. destruct (0xc0 <=? b); [|now inversion E].
      rewrite read_cont_flat_map by (assumption || now apply cstring_bytes).
      destruct (read_cont _ z) as [c2 z2]. cbn [fst snd]. now inversion E. }
    rewrite Er in E1. now injection E1 as <- <-.
Qed.

Lemma chars_app_ascii z b w : 0 < b < 0x80 -> cstring z -> cstring w ->
  chars (z ++ b :: w) = chars z ++ b :: chars w.
Proof.
  intros Hb Hz Hw. destruct (chars_ascii b w Hb Hw) as [Hbw Eb].
  remember (length z) as n eqn:Hn. assert (Hle : (length z <= n)%nat) by lia. clear Hn.
  revert z Hle Hz. induction n as [|n IH]; intros [|a z] Hl H; cbn [length] in Hl; try lia; try exact Eb.
  destruct (chars_cons a z H) as (c & z' & E & -> & Hc & Hz' & Hl'). cbn [app].
  rewrite <- (IH z') by (lia || assumption).
  assert (Hcs : cstring (a :: z ++ b :: w)) by (change (cstring ((a :: z) ++ b :: w)); now apply Forall_app).
  destruct (chars_cons a _ Hcs) as (c1 & z1 & E1 & -> & _).
  assert (Hk : forall l c0, bytes l -> read_cont c0 (l ++ b :: w) = (fst (read_cont c0 l), snd (read_cont c0 l) ++ b :: w)).
  { induction l as [|x l IHl]; intros c0 Hlb; cbn [app read_cont].
    - rewrite is_cont_range by (unfold is_u8; lia). now replace ((128 <=? b) && (b <? 192)) with false by lia.
    - apply Forall_cons_iff in Hlb as [Hx Hlb]. destruct (is_cont x); [now apply IHl|reflexivity]. }
  assert (Er : sqlite3Utf8Read (a :: z ++ b :: w) = (c, z' ++ b :: w)).
  { unfold sqlite3Utf8Read in *. rewrite rd_0 in *. cbn [tl] in *. destruct (0xc0 <=? a); [|now inversion E].
    apply Forall_cons_iff in H as [_ Hz]. rewrite Hk by now apply cstring_bytes.
    destruct (read_cont _ z) as [c2 z2]. cbn [fst snd]. now inversion E. }
  rewrite Er in E1. now injection E1 as <- <-.
Qed.

(** ** The component's claims *)

Lemma wf_like esc : esc <> 95 -> wf_info likeInfoNorm esc.
Proof. intros H. unfold wf_info, likeInfoNorm; cbn. repeat split; try lia; congruence. Qed.

(** C37: [patternCompare] decides the pattern language. On any two NUL-free
    byte strings it returns [SQLITE_MATCH] exactly when the characters of the
    string match the elements of the pattern (wildcards, escapes, sets), and
    it returns [SQLITE_NOWILDCARDMATCH], which makes its callers give up their
    own search, only when the pattern matches no rest of the string either. *)
Theorem patternCompare_correct pInfo esc zPattern zString :
  wf_info pInfo esc -> cstring zPattern -> cstring zString ->
  let rc := patternCompare zPattern zString pInfo esc in
  (rc = SQLITE_MATCH <-> matches pInfo (toks pInfo esc (chars zPattern)) (chars zString)) /\
  (rc = SQLITE_NOWILDCARDMATCH -> forall s1 s2, chars zString = s1 ++ s2 ->
     ~ matches pInfo (toks pInfo esc (chars zPattern)) s2) /\
  (rc = SQLITE_MATCH \/ rc = SQLITE_NOMATCH \/ rc = SQLITE_NOWILDCARDMATCH).
Proof.
  intros Hwf HP HS rc.
  assert (Hv : verdict pInfo (toks pInfo esc (chars zPattern)) (chars zString) rc)
    by (apply patternCompare_ok; auto; discriminate).
  unfold verdict in Hv. rewrite matches_all in Hv.
  assert (Hs : forall s1 s2, chars zString = s1 ++ s2 -> matches pInfo (toks pInfo esc (chars zPattern)) s2 ->
    exists s1 s2, chars zString = s1 ++ s2 /\ matches pInfo (toks pInfo esc (chars zPattern)) s2) by eauto.
  destruct Hv as [[-> Hm]|[[-> Hm]|[-> Hm]]].
  - split; [tauto|]. split; [discriminate|auto].
  - split; [split; [discriminate|tauto]|]. split; [discriminate|auto].
  - split; [split; [discriminate|intros H; exfalso; apply Hm; now exists [], (chars zString)]|].
    split; [eauto|auto].
Qed.

Lemma patternCompare_correct_witness :
  (patternCompare [42; 91; 97; 45; 99; 93; 63] [120; 98; 122] globInfo 91 = SQLITE_MATCH
   <-> matches globInfo [TAll; TSet false [(97, 97); (97, 99)]; TOne] [120; 98; 122]) /\
  patternCompare [42; 91; 97; 45; 99; 93; 63] [120; 98; 122] globInfo 91 = SQLITE_MATCH.
Proof.
  assert (Hcs : forall l, forallb (fun c => (0 <? c) && (c <? 256)) l = true -> cstring l).
  { intros l H. rewrite forallb_forall in H. apply Forall_forall. intros x Hx. specialize (H x Hx). unfold is_u8. lia. }
  pose proof (patternCompare_correct globInfo 91 [42; 91; 97; 45; 99; 93; 63] [120; 98; 122]) as H.
  destruct H as [H _]; [unfold wf_info; cbn; lia|now apply Hcs|now apply Hcs|].
  split; [exact H|reflexivity].
Defined.

(** The text occurs in the string, ASCII letters compared without case. *)
Definition contains_nocase (t s : list Z) : Prop :=
  exists pre mid post, s = pre ++ mid ++ post /\ Forall2 (fun c x => char_eq likeInfoNorm c x = true) t mid.

Lemma toks_literal esc t q : Forall (fun c => c <> 37 /\ c <> 95 /\ c <> esc) t ->
  toks likeInfoNorm esc (t ++ q) = map TChar t ++ toks likeInfoNorm esc q.
Proof.
  intros H. induction H as [|c t (H1 & H2 & H3) _ IH]; [reflexivity|]. cbn [app map].
  rewrite toks_cons. cbn [matchAll matchOne matchSet likeInfoNorm].
  replace (c =? 37) with false by lia. replace (c =? esc) with false by lia.
  replace (c =? 95) with false by lia. now rewrite IH.
Qed.

Lemma matches_literal pInfo t p s : matches pInfo (map TChar t ++ p) s <->
  exists mid post, s = mid ++ post /\ Forall2 (fun c x => char_eq pInfo c x = true) t mid /\ matches pInfo p post.
Proof.
  revert s. induction t as [|c t IH]; intros s; cbn [map app].
  - split; [intros H; exists [], s; auto|]. intros (mid & post & -> & H & Hm). now inversion H.
  - rewrite matches_cons by discriminate. split.
    + intros (x & s' & -> & Ha & Hm). apply IH in Hm as (mid & post & -> & H & Hm).
      exists (x :: mid), post. repeat split; auto.
    + intros (mid & post & -> & H & Hm). inversion H as [|? x ? mid' Hx Ht]; subst.
      exists x, (mid' ++ post). repeat split; auto. apply IH. eauto.
Qed.

Lemma like_contains t s : cstring t -> cstring s -> Forall (fun c => c <> 37 /\ c <> 95) (chars t) ->
  sqlite3_strlike (Some (37 :: t ++ [37])) (Some s) 0 = 0 <-> contains_nocase (chars t) (chars s).
Proof.
  intros Ht Hs Hn. cbn [sqlite3_strlike]. change 0 with SQLITE_MATCH at 2.
  assert (Htp : cstring (t ++ [37])) by (apply Forall_app; split; [exact Ht|repeat constructor; discriminate]).
  destruct (chars_ascii 37 (t ++ [37]) ltac:(lia) Htp) as [HP EP].
  assert (Ep : toks likeInfoNorm 0 (chars (37 :: t ++ [37])) = TAll :: map TChar (chars t) ++ [TAll]).
  { rewrite EP, chars_app_ascii by (try assumption; try lia; constructor).
    rewrite toks_cons. cbn [matchAll likeInfoNorm Z.eqb Pos.eqb]. f_equal. apply toks_literal.
    apply Forall_forall. intros c Hc. rewrite Forall_forall in Hn. specialize (Hn c Hc).
    split; [tauto|]. split; [tauto|]. apply in_split in Hc as (l1 & l2 & Hc).
    clear - Ht Hc. intros ->. revert t Ht Hc. induction l1 as [|x l1 IH]; intros t Ht Hc; destruct t as [|b t]; try discriminate;
      destruct (chars_cons b t Ht) as (c & z' & _ & Ec & H0 & Hz' & _); rewrite Ec in Hc; injection Hc as ? Hr; [congruence|eauto]. }
  assert (Hv : verdict likeInfoNorm (toks likeInfoNorm 0 (chars (37 :: t ++ [37]))) (chars s)
     (patternCompare (37 :: t ++ [37]) s likeInfoNorm 0))
    by (apply patternCompare_ok; auto; try discriminate; apply wf_like; lia).
  rewrite Ep in Hv.
  assert (Hm : matches likeInfoNorm (TAll :: map TChar (chars t) ++ [TAll]) (chars s) <-> contains_nocase (chars t) (chars s)).
  { rewrite matches_all. unfold contains_nocase. split.
    - intros (pre & s2 & E & H). apply matches_literal in H as (mid & post & -> & H & _). eauto 6.
    - intros (pre & mid & post & -> & H). exists pre, (mid ++ post). split; [reflexivity|].
      apply matches_literal. exists mid, post. repeat split; auto. apply matches_all. exists post, [].
      rewrite app_nil_r. split; [reflexivity|constructor]. }
  rewrite <- Hm. destruct Hv as [[-> H]|[[-> H]|[-> H]]]; [tauto| |].
  - split; [discriminate|tauto].
  - rewrite all_all in H. split; [discriminate|tauto].
Qed.

(** A search pattern finds substrings. For a text without [%] and [_],
    the pattern made of the text between two percent signs, as the database
    searches build it, matches exactly the strings that contain the text, with
    ASCII letters compared without case. *)
Theorem like_substring t s : cstring t -> cstring s -> Forall (fun c => c <> 37 /\ c <> 95) (chars t) ->
  sqlite3_strlike (Some (37 :: t ++ [37])) (Some s) 0 = 0 <-> contains_nocase (chars t) (chars s).
Proof. apply like_contains. Qed.

Lemma like_substring_witness :
  sqlite3_strlike (Some [37; 116; 79; 87; 110; 37]) (Some [85; 112; 84; 111; 119; 110; 33]) 0 = 0 <->
  contains_nocase [116; 79; 87; 110] [85; 112; 84; 111; 119; 110; 33].
Proof.
  apply (like_substring [116; 79; 87; 110] [85; 112; 84; 111; 119; 110; 33]).
  - repeat constructor; discriminate.
  - repeat constructor; discriminate.
  - cbn. repeat constructor; discriminate.
Defined.

(** Escaping the characters that a pattern would give a meaning to. *)
Definition escape_char (e b : Z) : list Z :=
  if (b =? 37) || (b =? 95) || (b =? e) then [e; b] else [b].
Definition escape_pattern (e : Z) (t : list Z) : list Z := flat_map (escape_char e) t.

(** The comparison of [likeFunc] after its adjustment for the escape [e]. *)
Definition escape_info (e : Z) : compareInfo :=
  mkCompareInfo (if e =? 37 then 0 else 37) (if e =? 95 then 0 else 95) 0 true.

Lemma toks_escaped e t : 0 < e < 0x80 -> Forall (fun c => 0 < c) t ->
  toks (escape_info e) e (escape_pattern e t) = map TChar t.
Proof.
  intros He H. induction H as [|c t Hc _ IH]; [reflexivity|].
  cbn [escape_pattern flat_map map]. fold (escape_pattern e t). unfold escape_char.
  destruct (_ || _ || _) eqn:Eb; cbn [app]; rewrite toks_cons; unfold escape_info in *; cbn [matchAll matchOne matchSet] in *.
  - replace (e =? (if e =? 37 then 0 else 37)) with false by (if_cases; lia).
    rewrite Z.eqb_refl. cbn [Z.eqb]. now rewrite IH.
  - replace (c =? (if e =? 37 then 0 else 37)) with false by (if_cases; lia).
    replace (c =? e) with false by lia.
    replace (c =? (if e =? 95 then 0 else 95)) with false by (if_cases; lia). now rewrite IH.
Qed.

Lemma chars_all_pos z : cstring z -> Forall (fun c => 0 < c) (chars z).
Proof.
  remember (length z) as n eqn:Hn. assert (Hle : (length z <= n)%nat) by lia. clear Hn.
  revert z Hle. induction n as [|n IH]; intros [|b z] Hl H; cbn [length] in Hl; try lia; try constructor.
  destruct (chars_cons b z H) as (c & z' & E & Ec & Hc & Hz' & Hl'). rewrite Ec.
  constructor; [exact (chars_pos _ c _ H Ec)|]. apply IH; [lia|exact Hz'].
Qed.

Lemma escape_wf e : 0 < e < 0x80 -> wf_info (escape_info e) e.
Proof. intros He. unfold wf_info, escape_info; cbn. repeat split; try lia; if_cases; lia. Qed.

Lemma escape_prefixing e : 0 < e < 0x80 -> ascii_prefixing (escape_char e).
Proof.
  intros He b. unfold escape_char. destruct (_ || _ || _) eqn:E; [right|now left]. split; [lia|]. now exists e.
Qed.

Lemma escape_adjust e :
  (if (e =? matchAll likeInfoNorm) || (e =? matchOne likeInfoNorm) then
     mkCompareInfo (if e =? matchAll likeInfoNorm then 0 else matchAll likeInfoNorm)
       (if e =? matchOne likeInfoNorm then 0 else matchOne likeInfoNorm)
       (matchSet likeInfoNorm) (noCase likeInfoNorm)
   else likeInfoNorm) = escape_info e.
Proof.
  cbn [matchAll matchOne matchSet noCase likeInfoNorm]. unfold escape_info, likeInfoNorm.
  destruct (e =? 37), (e =? 95); reflexivity.
Qed.

(** Escaping makes [like] literal. For every ASCII escape character,
    including the wildcards themselves, [likeFunc] applied to the escaped form
    of a text answers 1 exactly on the strings that are that text up to the
    case of ASCII letters, and 0 on the others; a pattern above the length
    limit is an error and no answer. *)
Theorem likeFunc_escape aLimit e t s : 0 < e < 0x80 -> cstring t -> cstring s ->
  let pat := escape_pattern e t in
  (Z.of_nat (length pat) <= aLimit ->
     exists r, likeFunc aLimit likeInfoNorm (Some pat) (Some s) (Some (Some [e])) = LikeInt r /\
       (r = 1 <-> Forall2 (fun c x => char_eq likeInfoNorm c x = true) (chars t) (chars s)) /\ (r = 0 \/ r = 1)) /\
  (aLimit < Z.of_nat (length pat) ->
     likeFunc aLimit likeInfoNorm (Some pat) (Some s) (Some (Some [e])) = LikePatternTooComplex).
Proof.
  intros He Ht Hs pat. unfold likeFunc. split; intros Hlim.
  2:{ now replace (aLimit <? Z.of_nat (length pat)) with true by lia. }
  replace (aLimit <? Z.of_nat (length pat)) with false by lia.
  assert (Elen : sqlite3Utf8CharLen [e] (-1) = 1).
  { unfold sqlite3Utf8CharLen. cbn [Z.leb length charlen_loop]. rewrite rd_0. now replace (e =? 0) with false by lia. }
  assert (Eread : sqlite3Utf8Read [e] = (e, [])).
  { unfold sqlite3Utf8Read. rewrite rd_0. now replace (0xc0 <=? e) with false by lia. }
  rewrite Elen, Eread, escape_adjust. cbn [Z.eqb Pos.eqb negb].
  assert (Hpat : cstring pat) by (apply flat_map_cstring; [now apply escape_prefixing|exact Ht]).
  assert (Hv : verdict (escape_info e) (toks (escape_info e) e (chars pat)) (chars s) (patternCompare pat s (escape_info e) e))
    by (apply patternCompare_ok; auto; try discriminate; now apply escape_wf).
  unfold pat in Hv at 1. unfold escape_pattern in Hv. rewrite chars_flat_map in Hv by (assumption || now apply escape_prefixing).
  fold (escape_pattern e (chars t)) in Hv. rewrite toks_escaped in Hv by (assumption || now apply chars_all_pos).
  assert (Hm : matches (escape_info e) (map TChar (chars t)) (chars s) <->
    Forall2 (fun c x => char_eq likeInfoNorm c x = true) (chars t) (chars s)).
  { rewrite <- (app_nil_r (map TChar (chars t))), matches_literal. split.
    - intros (mid & post & -> & H & Hn). inversion Hn; subst. now rewrite app_nil_r.
    - intros H. exists (chars s), []. rewrite app_nil_r. repeat split; auto. constructor. }
  eexists. split; [reflexivity|].
  destruct Hv as [[-> H]|[[-> H]|[-> H]]]; cbn [Z.eqb SQLITE_MATCH SQLITE_NOMATCH SQLITE_NOWILDCARDMATCH].
  - rewrite <- Hm. tauto.
  - rewrite <- Hm. split; [|auto]. split; [discriminate|tauto].
  - rewrite <- Hm. split; [|auto]. split; [discriminate|]. intros Hx. exfalso. apply H, matches_all. now exists [], (chars s).
Qed.

Lemma likeFunc_escape_witness :
  (exists r, likeFunc 50000 likeInfoNorm (Some [53; 92; 37]) (Some [53; 37]) (Some (Some [92])) = LikeInt r /\
     (r = 1 <-> Forall2 (fun c x => char_eq likeInfoNorm c x = true) [53; 37] [53; 37]) /\ (r = 0 \/ r = 1)).
Proof.
  apply (likeFunc_escape 50000 92 [53; 37] [53; 37]); [lia| | |discriminate];
    repeat constructor; discriminate.
Defined.
