(* ===== verification/RadioDb.v ===== *)
(** * RadioDb: the log database of the API

    Models [src/api-core/src/dbfunction] ([dbcorefunctions.cpp],
    [dbcorefilter.cpp]) and the handlers of [src/api-core/src/main.cpp] that
    use it: search, save, delete and clear.

    The SQL engine is an interface: the class [Sql] has the statements that
    the code runs on the table RadioLogs, with their WHERE condition as a
    function of a row, and [SqlLaws] states what SQL defines of them.  The
    conditions use the LIKE operator of [Like] and IEEE doubles.  [opens] says
    whether [sqlite3_open] succeeds; [stod] and [stoll] are the standard
    library's conversions, [None] when they throw. *)

From Stdlib Require Import ZArith List Lia Bool Permutation Sorted SpecFloat.
Import ListNotations.
From S2P Require Import Prelude Like.
#[local] Open Scope Z_scope.

Abbreviation double := spec_float.

Record RadioLog := mkLog {
  freq : double; time : Z; location : list Z; rawT : list Z; summary : list Z; channelName : list Z; audioFilePath : list Z }.

Inductive Order := ByTimeAsc | ByTimeDesc.

(** A condition on a row; [None] is an error that ends the statement. *)
Definition Where : Type := RadioLog -> option bool.

Class Sql := {
  DB : Type;
  rows : DB -> list RadioLog;
  (** SELECT ... WHERE ... ORDER BY time; an error leaves no row. *)
  select : DB -> Where -> Order -> list RadioLog;
  (** INSERT OR REPLACE with the primary key (freq, time, location). *)
  insert_or_replace : DB -> RadioLog -> DB;
  (** DELETE ... WHERE ..., and the number of rows deleted. *)
  delete : DB -> Where -> DB * Z;
  (** DROP TABLE and CREATE TABLE. *)
  recreate : DB -> DB }.

Definition same_key (a b : RadioLog) : bool :=
  SFeqb (freq a) (freq b) && (time a =? time b) && (if list_eq_dec Z.eq_dec (location a) (location b) then true else false).

Definition holds (w : Where) (r : RadioLog) : bool := match w r with Some b => b | None => false end.
Definition no_error (w : Where) (l : list RadioLog) : Prop := forall r, In r l -> w r <> None.
Definition ordered (o : Order) (a b : RadioLog) : Prop :=
  match o with ByTimeAsc => time a <= time b | ByTimeDesc => time b <= time a end.

Class SqlLaws (S : Sql) := {
  select_rows db w o : no_error w (rows db) -> Permutation (select db w o) (filter (holds w) (rows db));
  select_order db w o : StronglySorted (ordered o) (select db w o);
  select_error db w o r : In r (rows db) -> w r = None -> select db w o = [];
  replace_rows db r :
    Permutation (rows (insert_or_replace db r)) (r :: filter (fun x => negb (same_key r x)) (rows db));
  delete_rows db w : no_error w (rows db) ->
    Permutation (rows (fst (delete db w))) (filter (fun r => negb (holds w r)) (rows db)) /\
    snd (delete db w) = Z.of_nat (length (filter (holds w) (rows db)));
  recreate_rows db : rows (recreate db) = [] }.

(** ** Conditions *)

(** 0.01 and 0.005 *)
Definition d_0_01 : double := S754_finite false 5764607523034235 (-59).
Definition d_0_005 : double := S754_finite false 5764607523034235 (-60).
Definition dadd : double -> double -> double := SFadd 53 1024.
Definition dsub : double -> double -> double := SFsub 53 1024.

Definition like_pattern (s : list Z) : list Z := c_str ([37] ++ s ++ [37]).
Definition SQLITE_MAX_LIKE_PATTERN_LENGTH : Z := 50000.
Definition like (column : list Z) (pattern : list Z) : option bool :=
  match likeFunc SQLITE_MAX_LIKE_PATTERN_LENGTH likeInfoNorm (Some pattern) (Some column) None with
  | LikeInt i => Some (negb (i =? 0))
  | LikeNull => Some false
  | _ => None
  end.
Definition or_else (a b : option bool) : option bool :=
  match a with None => None | Some true => Some true | Some false => b end.
Definition and_also (a b : option bool) : option bool :=
  match a with None => None | Some false => Some false | Some true => b end.

Definition abs_diff_lt (f target : double) : bool := SFltb (SFabs (dsub f target)) d_0_005.

Section Core.
Context {S : Sql}.
Variable opens : bool.

Definition insertLog (db : DB) (freq : double) (time : Z) (location rawT summary channelName audioFilePath : list Z) : DB :=
  if negb opens then db
  else insert_or_replace db
         (mkLog freq time (c_str location) (c_str rawT) (c_str summary) (c_str channelName) (c_str audioFilePath)).

Definition getAllLogs (db : DB) : list RadioLog :=
  if negb opens then [] else select db (fun _ => Some true) ByTimeDesc.

Definition removeLog (db : DB) (f : double) (t : Z) (loc : list Z) : Z * DB :=
  if negb opens then (0, db)
  else
    let '(db, changes) :=
      delete db (fun r => Some (abs_diff_lt (freq r) f && (time r =? t) &&
                                (if list_eq_dec Z.eq_dec (location r) (c_str loc) then true else false))) in
    (if 0 <? changes then 1 else 0, db).

Definition filterByFrequency (db : DB) (f : double) : list RadioLog :=
  if negb opens then []
  else select db (fun r => Some (SFleb (dsub f d_0_01) (freq r) && SFleb (freq r) (dadd f d_0_01))) ByTimeDesc.

Definition filterByLocation (db : DB) (loc : list Z) : list RadioLog :=
  if negb opens then [] else select db (fun r => like (location r) (like_pattern loc)) ByTimeDesc.

Definition filterByTime (db : DB) (unixTime : Z) : list RadioLog :=
  if negb opens then []
  else select db (fun r => Some ((unixTime <=? time r) && (time r <=? i64 (unixTime + 59)))) ByTimeAsc.

Definition filterByChannelName (db : DB) (channel : list Z) : list RadioLog :=
  if negb opens then [] else select db (fun r => like (channelName r) (like_pattern channel)) ByTimeDesc.

Definition filterByTimeRange (db : DB) (startTimestamp endTimestamp : Z) : list RadioLog :=
  if negb opens then []
  else select db (fun r => Some ((startTimestamp <=? time r) && (time r <=? endTimestamp))) ByTimeDesc.

(** LIMIT with a negative number is no limit. *)
Definition searchDatabaseKeywords (db : DB) (keyword : list Z) (limit : Z) : list RadioLog :=
  if negb opens then []
  else
    let rs := select db (fun r => or_else (like (summary r) (like_pattern keyword)) (like (rawT r) (like_pattern keyword))) ByTimeDesc in
    if limit <? 0 then rs else firstn (Z.to_nat limit) rs.

(** The optional clauses of [advancedSearch]; [None]: a conversion throws. *)
Definition advancedSearch (stod : list Z -> option double) (stoll : list Z -> option Z)
  (db : DB) (freqStr loc keyword startStr endStr : list Z) : option (list RadioLog) :=
  if negb opens then Some []
  else
    let given (s : list Z) := match s with [] => false | _ => true end in
    let ranged := given startStr && given endStr in
    match
      (if given freqStr then option_map Some (stod freqStr) else Some None),
      (if ranged then match stoll startStr, stoll endStr with Some a, Some b => Some (Some (a, b)) | _, _ => None end else Some None)
    with
    | Some f, Some range =>
        Some (select db (fun r =>
          and_also (Some (match f with Some f => abs_diff_lt (freq r) f | None => true end))
            (and_also (if given loc then like (location r) (like_pattern loc) else Some true)
              (and_also (if given keyword then
                           or_else (like (summary r) (like_pattern keyword))
                             (or_else (like (rawT r) (like_pattern keyword)) (like (channelName r) (like_pattern keyword)))
                         else Some true)
                (Some (match range with Some (a, b) => (a <=? time r) && (time r <=? b) | None => true end)))))
          ByTimeDesc)
    | _, _ => None
    end.

(** ** Handlers *)

(** The loop that joins the two result lists of [/api/search]. *)
Definition is_duplicate (logs : list RadioLog) (chanLog : RadioLog) : bool :=
  existsb (fun existingLog => (time existingLog =? time chanLog) && SFeqb (freq existingLog) (freq chanLog)) logs.
Definition merge_logs (locLogs chanLogs : list RadioLog) : list RadioLog :=
  fold_left (fun logs chanLog => if is_duplicate logs chanLog then logs else logs ++ [chanLog]) chanLogs locLogs.

Definition api_search (stod : list Z -> option double) (db : DB) (q : list Z) : list RadioLog :=
  match q with
  | [] => getAllLogs db
  | _ =>
      match stod q with
      | Some f => filterByFrequency db f
      | None => merge_logs (filterByLocation db q) (filterByChannelName db q)
      end
  end.

(** ["/api/audio/audio.wav"] *)
Definition default_audio : list Z := [47; 97; 112; 105; 47; 97; 117; 100; 105; 111; 47; 97; 117; 100; 105; 111; 46; 119; 97; 118].
Definition api_save (db : DB) (freq : double) (time : Z) (location rawT summary channelName : list Z) : DB :=
  insertLog db freq time location rawT summary channelName default_audio.

(** The status code, and the database. *)
Definition api_delete (db : DB) (freq : double) (time : Z) (location : list Z) : Z * DB :=
  let '(removed, db) := removeLog db freq time location in ((if removed =? 0 then 404 else 200), db).

Definition api_clear (db : DB) : DB := if opens then recreate db else db.
End Core.

(** ** An engine: the table as a list *)

Definition before (o : Order) (a b : RadioLog) : bool :=
  match o with ByTimeAsc => time a <=? time b | ByTimeDesc => time b <=? time a end.
Fixpoint insert_sorted (o : Order) (r : RadioLog) (l : list RadioLog) : list RadioLog :=
  match l with [] => [r] | x :: l' => if before o r x then r :: l else x :: insert_sorted o r l' end.
Definition sort_rows (o : Order) (l : list RadioLog) : list RadioLog := fold_right (insert_sorted o) [] l.
Definition has_error (w : Where) (l : list RadioLog) : bool := existsb (fun r => match w r with None => true | _ => false end) l.

#[export] Instance list_sql : Sql := {
  DB := list RadioLog;
  rows db := db;
  select db w o := if has_error w db then [] else sort_rows o (filter (holds w) db);
  insert_or_replace db r := r :: filter (fun x => negb (same_key r x)) db;
  delete db w := if has_error w db then (db, 0) else (filter (fun r => negb (holds w r)) db, Z.of_nat (length (filter (holds w) db)));
  recreate _ := [] }.

Lemma insert_perm o r l : Permutation (insert_sorted o r l) (r :: l).
Proof. induction l as [|x l IH]; cbn; [reflexivity|]. destruct (before o r x); [reflexivity|]. rewrite IH. apply perm_swap. Qed.

Lemma insert_ordered o r l : StronglySorted (ordered o) l -> StronglySorted (ordered o) (insert_sorted o r l).
Proof.
  assert (Hb : forall a b, before o a b = true -> ordered o a b) by (intros a b; destruct o; cbn; lia).
  assert (Hn : forall a b, before o a b = false -> ordered o b a) by (intros a b; destruct o; cbn; lia).
  assert (Ht : forall a b c, ordered o a b -> ordered o b c -> ordered o a c) by (intros a b c; destruct o; cbn; lia).
  induction 1 as [|x l Hs IH Hf]; cbn; [repeat constructor|]. destruct (before o r x) eqn:E.
  - constructor; [now constructor|]. constructor; [auto|]. eapply Forall_impl; [|exact Hf]. intros y. apply Ht. auto.
  - constructor; [exact IH|]. apply (Permutation_Forall (Permutation_sym (insert_perm o r l))). constructor; auto.
Qed.

Lemma has_error_spec w l : has_error w l = false <-> no_error w l.
Proof.
  unfold has_error, no_error. split.
  - intros H r Hr E. assert (Ht : existsb (fun r => match w r with None => true | _ => false end) l = true)
      by (apply existsb_exists; exists r; rewrite E; auto). congruence.
  - intros H. destruct (existsb _ l) eqn:E; [|reflexivity]. apply existsb_exists in E as (r & Hr & Hw).
    specialize (H r Hr). destruct (w r); congruence.
Qed.

#[export] Instance list_sql_laws : SqlLaws list_sql.
Proof.
  constructor; cbn [rows select insert_or_replace delete recreate list_sql fst snd DB].
  - intros db w o Hn. apply has_error_spec in Hn. rewrite Hn. unfold sort_rows. induction (filter (holds w) db) as [|x l IH]; cbn; [reflexivity|].
    rewrite insert_perm. now constructor.
  - intros db w o. destruct (has_error w db); [constructor|]. unfold sort_rows. induction (filter (holds w) db) as [|x l IH]; cbn; [constructor|].
    now apply insert_ordered.
  - intros db w o r Hr Hw. assert (has_error w db = true) as ->; [|reflexivity]. apply existsb_exists. exists r. now rewrite Hw.
  - intros db r. reflexivity.
  - intros db w Hn. apply has_error_spec in Hn. rewrite Hn. split; reflexivity.
  - reflexivity.
Qed.

(** ** What the searches return *)

Section Laws.
Context {S : Sql} {L : SqlLaws S}.

Lemma select_In db w o r : no_error w (rows db) -> In r (select db w o) <-> In r (rows db) /\ holds w r = true.
Proof.
  intros Hn. pose proof (select_rows db w o Hn) as P. rewrite <- filter_In. split; intros H.
  - exact (Permutation_in _ P H).
  - exact (Permutation_in _ (Permutation_sym P) H).
Qed.

Lemma cut_id s : cstring s -> c_str s = s.
Proof. induction 1 as [|c s [_ Hc] _ IH]; [reflexivity|]. cbn. destruct (Z.eqb_spec c 0); [congruence|]. now rewrite IH. Qed.

Lemma pattern_id s : cstring s -> like_pattern s = 37 :: s ++ [37].
Proof.
  intros H. unfold like_pattern. apply cut_id. constructor; [unfold is_u8; lia|]. apply Forall_app. split; [exact H|].
  repeat constructor; unfold is_u8; lia.
Qed.

(** A plain search text: no wildcard, not too long. *)
Definition plain (s : list Z) : Prop :=
  cstring s /\ Forall (fun c => c <> 37 /\ c <> 95) (chars s) /\ Z.of_nat (length s) <= SQLITE_MAX_LIKE_PATTERN_LENGTH - 2.

Lemma like_plain column s : cstring column -> plain s ->
  exists b, like column (like_pattern s) = Some b /\ (b = true <-> contains_nocase (chars s) (chars column)).
Proof.
  intros Hc (Hs & Hp & Hl). rewrite pattern_id by exact Hs. unfold like, likeFunc.
  destruct (Z.ltb_spec SQLITE_MAX_LIKE_PATTERN_LENGTH (Z.of_nat (length (37 :: s ++ [37])))) as [Hlt|_].
  { cbn [length] in Hlt. rewrite length_app in Hlt. cbn [length] in Hlt. lia. }
  eexists. split; [reflexivity|]. rewrite <- (like_contains s column Hs Hc Hp). cbn [sqlite3_strlike matchSet likeInfoNorm].
  destruct (Z.eqb_spec (patternCompare (37 :: s ++ [37]) column likeInfoNorm 0) SQLITE_MATCH) as [E|E]; cbn [negb Z.eqb]; unfold SQLITE_MATCH in E;
    (split; intros H; [congruence || discriminate H|congruence || contradiction]).
Qed.

(** A search on one text column. *)
Lemma text_search db (col : RadioLog -> list Z) q r : plain q -> (forall x, In x (rows db) -> cstring (col x)) ->
  In r (select db (fun r => like (col r) (like_pattern q)) ByTimeDesc) <->
  In r (rows db) /\ contains_nocase (chars q) (chars (col r)).
Proof.
  intros Hq Hc. rewrite select_In.
  - split; intros [Hr H]; split; auto; destruct (like_plain (col r) q (Hc r Hr) Hq) as (b & E & Hb); unfold holds in *; rewrite E in *; now apply Hb.
  - intros x Hx E. destruct (like_plain (col x) q (Hc x Hx) Hq) as (b & E' & _). congruence.
Qed.

Lemma merge_In locLogs chanLogs r : In r (merge_logs locLogs chanLogs) -> In r locLogs \/ In r chanLogs.
Proof.
  unfold merge_logs. revert locLogs. induction chanLogs as [|c cs IH]; intros ls H; [now left|]. cbn [fold_left] in H.
  apply IH in H as [H|H]; [|right; now right]. destruct (is_duplicate ls c); [now left|].
  apply in_app_or in H as [H|[<-|[]]]; [now left|right; now left].
Qed.

Lemma merge_keeps locLogs chanLogs r : In r locLogs -> In r (merge_logs locLogs chanLogs).
Proof.
  unfold merge_logs. revert locLogs. induction chanLogs as [|c cs IH]; intros ls H; [exact H|]. cbn [fold_left]. apply IH.
  destruct (is_duplicate ls c); [exact H|]. apply in_or_app. now left.
Qed.

Definition same_time_freq (a b : RadioLog) : bool := (time a =? time b) && SFeqb (freq a) (freq b).

Lemma eqb_refl_num f : f <> S754_nan -> SFeqb f f = true.
Proof.
  destruct f as [s|s| |s m e]; try congruence; intros _; [destruct s; reflexivity..|].
  unfold SFeqb, SFcompare. rewrite Z.compare_refl. change (Pos.compare_cont Eq m m) with (Pos.compare m m). rewrite Pos.compare_refl.
  destruct s; reflexivity.
Qed.

Lemma merge_covers locLogs chanLogs r : In r chanLogs -> freq r <> S754_nan ->
  exists x, In x (merge_logs locLogs chanLogs) /\ same_time_freq x r = true.
Proof.
  unfold merge_logs. revert locLogs. induction chanLogs as [|c cs IH]; intros ls H Hn; [contradiction|]. cbn [fold_left].
  destruct H as [->|H]; [|now apply IH]. fold (merge_logs (if is_duplicate ls r then ls else ls ++ [r]) cs).
  destruct (is_duplicate ls r) eqn:E.
  - apply existsb_exists in E as (x & Hx & Ex). exists x. split; [now apply merge_keeps|exact Ex].
  - exists r. split; [apply merge_keeps, in_or_app; right; now left|]. unfold same_time_freq. now rewrite Z.eqb_refl, eqb_refl_num.
Qed.

(** The joined list adds nothing that has the time and frequency of a row
    before it. *)
Lemma merge_distinct locLogs chanLogs : exists added, merge_logs locLogs chanLogs = locLogs ++ added /\
  forall a x b, locLogs ++ added = a ++ x :: b -> (length locLogs <= length a)%nat -> is_duplicate a x = false.
Proof.
  unfold merge_logs. revert locLogs. induction chanLogs as [|c cs IH]; intros ls; cbn [fold_left].
  - exists []. rewrite app_nil_r. split; [reflexivity|]. intros a x b E Hl. apply (f_equal (@length RadioLog)) in E.
    rewrite length_app in E. cbn [length] in E. lia.
  - destruct (is_duplicate ls c) eqn:Ed; [apply IH|]. destruct (IH (ls ++ [c])) as (added & E & H). exists (c :: added).
    rewrite <- app_assoc in E. split; [exact E|]. intros a x b E2 Hl. destruct (Nat.eq_dec (length a) (length ls)) as [El|El].
    + assert (a = ls /\ x = c) as [-> ->]; [|exact Ed]. apply (f_equal (firstn (length ls))) in E2 as E3.
      rewrite !firstn_app, !Nat.sub_diag, El, Nat.sub_diag, firstn_all, !firstn_O, !app_nil_r in E3. rewrite <- El, firstn_all in E3.
      split; [now symmetry|]. subst a. apply app_inv_head in E2. now injection E2 as ->.
    + apply (H a x b); [now rewrite <- app_assoc|]. rewrite length_app. cbn [length]. lia.
Qed.
End Laws.

Definition finite (f : double) : Prop := match f with S754_zero _ | S754_finite _ _ _ => True | _ => False end.

Lemma abs_diff_self f : finite f -> abs_diff_lt f f = true.
Proof.
  destruct f as [s|s| |s m e]; cbn [finite]; try contradiction; intros _; unfold abs_diff_lt.
  - destruct s; reflexivity.
  - replace (dsub (S754_finite s m e) (S754_finite s m e)) with (S754_zero false); [reflexivity|].
    unfold dsub, SFsub. cbn [negb]. rewrite Z.sub_diag. reflexivity.
Qed.

Lemma finite_not_nan f : finite f -> f <> S754_nan.
Proof. intros H ->. exact H. Qed.

Section Theorems.
Context {S : Sql} {L : SqlLaws S}.

Lemma all_logs db : Permutation (getAllLogs true db) (rows db).
Proof.
  unfold getAllLogs. cbn [negb]. rewrite (select_rows db (fun _ => Some true) ByTimeDesc) by discriminate.
  rewrite (filter_ext _ (fun _ => true)) by reflexivity. rewrite filter_true. reflexivity.
Qed.

Lemma filter_perm (f : RadioLog -> bool) l l' : Permutation l l' -> Permutation (filter f l) (filter f l').
Proof.
  induction 1 as [|x l l' _ IH|x y l|l l1 l2 _ IH1 _ IH2]; cbn; auto.
  - destruct (f x); auto.
  - destruct (f x), (f y); auto. apply perm_swap.
  - now rewrite IH1.
Qed.

Lemma save_listed db f t loc raw sum ch :
  let r := mkLog f t (c_str loc) (c_str raw) (c_str sum) (c_str ch) default_audio in
  let logs := getAllLogs true (api_save true db f t loc raw sum ch) in
  Permutation logs (r :: filter (fun x => negb (same_key r x)) (getAllLogs true db)) /\
  StronglySorted (ordered ByTimeDesc) logs.
Proof.
  intros r logs. split; [|apply select_order]. unfold logs. rewrite all_logs. unfold api_save, insertLog. cbn [negb].
  change (c_str default_audio) with default_audio. rewrite replace_rows. fold r. constructor. apply filter_perm. symmetry. apply all_logs.
Qed.

(** Saving a log and listing the logs: the list has the new log once,
    replaces the log with the same frequency, time and location if there was
    one, has every other log as before, and is sorted, newest first. *)
Theorem save_then_list db f t loc raw sum ch :
  let r := mkLog f t (c_str loc) (c_str raw) (c_str sum) (c_str ch) default_audio in
  let logs := getAllLogs true (api_save true db f t loc raw sum ch) in
  Permutation logs (r :: filter (fun x => negb (same_key r x)) (getAllLogs true db)) /\
  StronglySorted (ordered ByTimeDesc) logs.
Proof. apply save_listed. Qed.

(** The location and channel searches return exactly the stored logs
    whose location, or channel name, contains the text, ASCII letters compared
    without case, newest first. *)
Theorem text_filters_exact db q : plain q ->
  (forall x, In x (rows db) -> cstring (location x) /\ cstring (channelName x)) ->
  (forall r, In r (filterByLocation true db q) <-> In r (rows db) /\ contains_nocase (chars q) (chars (location r))) /\
  (forall r, In r (filterByChannelName true db q) <-> In r (rows db) /\ contains_nocase (chars q) (chars (channelName r))) /\
  StronglySorted (ordered ByTimeDesc) (filterByLocation true db q) /\
  StronglySorted (ordered ByTimeDesc) (filterByChannelName true db q).
Proof.
  intros Hq Hc. unfold filterByLocation, filterByChannelName. cbn [negb]. split; [|split; [|split; apply select_order]].
  - intros r. apply (text_search db location); [exact Hq|]. intros x Hx. now apply Hc.
  - intros r. apply (text_search db channelName); [exact Hq|]. intros x Hx. now apply Hc.
Qed.

(** A search for a text that is no number returns only stored logs that
    contain it in the location or the channel name; all that contain it in the
    location, and for each that contains it in the channel name a log with
    its time and frequency; and no channel match is added whose time and
    frequency an earlier result has. *)
Theorem api_search_text stod db q : stod q = None -> q <> [] -> plain q ->
  (forall x, In x (rows db) -> cstring (location x) /\ cstring (channelName x) /\ freq x <> S754_nan) ->
  let res := api_search true stod db q in
  let in_loc := fun r => contains_nocase (chars q) (chars (location r)) in
  let in_chan := fun r => contains_nocase (chars q) (chars (channelName r)) in
  (forall r, In r res -> In r (rows db) /\ (in_loc r \/ in_chan r)) /\
  (forall r, In r (rows db) -> in_loc r -> In r res) /\
  (forall r, In r (rows db) -> in_chan r -> exists x, In x res /\ same_time_freq x r = true) /\
  (forall a x b, res = a ++ x :: b -> (length (filterByLocation true db q) <= length a)%nat -> is_duplicate a x = false).
Proof.
  intros Hs Hne Hq Hc res in_loc in_chan.
  assert (Er : res = merge_logs (filterByLocation true db q) (filterByChannelName true db q))
    by (unfold res, api_search; destruct q; [congruence|now rewrite Hs]).
  assert (Hl : forall r, In r (filterByLocation true db q) <-> In r (rows db) /\ in_loc r)
    by (intros r; apply (text_search db location); [exact Hq|]; intros x Hx; now apply Hc).
  assert (Hn : forall r, In r (filterByChannelName true db q) <-> In r (rows db) /\ in_chan r)
    by (intros r; apply (text_search db channelName); [exact Hq|]; intros x Hx; now apply Hc).
  rewrite Er. split; [|split; [|split]].
  - intros r Hr. apply merge_In in Hr as [Hr|Hr]; [apply Hl in Hr|apply Hn in Hr]; tauto.
  - intros r Hr Hi. apply merge_keeps, Hl. auto.
  - intros r Hr Hi. apply merge_covers; [now apply Hn|now apply Hc].
  - destruct (merge_distinct (filterByLocation true db q) (filterByChannelName true db q)) as (added & E & H).
    intros a x b E2 Hlen. apply (H a x b); [|exact Hlen]. now rewrite <- E.
Qed.

(** Deleting a log that was just saved: the answer is 200, and what is
    left is what was there before without the logs that have the time and the
    location and a frequency less than 0.005 MHz away. *)
Theorem save_then_delete db f t loc raw sum ch : finite f ->
  let near := fun x => abs_diff_lt (freq x) f && (time x =? t) && (if list_eq_dec Z.eq_dec (location x) (c_str loc) then true else false) in
  let '(code, db') := api_delete true (api_save true db f t loc raw sum ch) f t loc in
  code = 200 /\ Permutation (rows db') (filter (fun x => negb (near x) &&
    negb (same_key (mkLog f t (c_str loc) (c_str raw) (c_str sum) (c_str ch) default_audio) x)) (rows db)).
Proof.
  intros Hf near. unfold api_delete, removeLog. cbn [negb].
  set (db1 := api_save true db f t loc raw sum ch). set (w := fun r => Some _).
  set (r := mkLog f t (c_str loc) (c_str raw) (c_str sum) (c_str ch) default_audio).
  assert (P1 : Permutation (rows db1) (r :: filter (fun x => negb (same_key r x)) (rows db))).
  { unfold db1, api_save, insertLog. cbn [negb]. change (c_str default_audio) with default_audio. apply replace_rows. }
  destruct (delete_rows db1 w) as [P2 E2]; [discriminate|]. destruct (delete db1 w) as [db2 changes]. cbn [fst snd] in P2, E2.
  assert (Hr : holds w r = true).
  { unfold holds, w, r. cbn [freq time location]. rewrite abs_diff_self, Z.eqb_refl by exact Hf.
    destruct (list_eq_dec Z.eq_dec (c_str loc) (c_str loc)); [reflexivity|congruence]. }
  assert (Hpos : 0 < changes).
  { rewrite E2. rewrite (Permutation_length (filter_perm (holds w) _ _ P1)). cbn [filter]. rewrite Hr. cbn [length]. lia. }
  destruct (Z.ltb_spec 0 changes); [|lia]. split; [reflexivity|]. rewrite P2.
  rewrite (filter_perm (fun r => negb (holds w r)) _ _ P1). cbn [filter]. rewrite Hr. cbn [negb].
  fold r. change (holds w) with near. clear. induction (rows db) as [|x l IH]; [reflexivity|]. cbn [filter].
  destruct (negb (same_key r x)) eqn:Es; cbn [filter]; rewrite ?andb_true_r, ?andb_false_r; [|exact IH].
  destruct (negb (near x)); [now constructor|exact IH].
Qed.
End Theorems.

(** Two logs of the same moment and frequency, heard at two places. *)
Definition f_100 : double := S754_finite false 7036874417766400 (-46).
Definition log_a : RadioLog := mkLog f_100 7 [80; 111; 114; 116] [] [] [67; 72] default_audio.
Definition log_b : RadioLog := mkLog f_100 7 [72; 105; 108; 108] [] [] [80; 111; 114; 116] default_audio.

Lemma save_then_list_witness :
  let r := mkLog f_100 7 (c_str [72; 105]) (c_str []) (c_str []) (c_str []) default_audio in
  let logs := getAllLogs true (api_save (S := list_sql) true [log_a] f_100 7 [72; 105] [] [] []) in
  Permutation logs (r :: filter (fun x => negb (same_key r x)) (getAllLogs true [log_a])) /\
  StronglySorted (ordered ByTimeDesc) logs.
Proof. apply (save_then_list (S := list_sql)). Defined.

Lemma plain_port : plain [80; 111; 114; 116].
Proof.
  split; [repeat constructor; unfold is_u8; lia|]. split; [|cbn; unfold SQLITE_MAX_LIKE_PATTERN_LENGTH; lia].
  vm_compute. repeat constructor; discriminate.
Qed.

Lemma demo_rows x : In x [log_a; log_b] -> cstring (location x) /\ cstring (channelName x) /\ freq x <> S754_nan.
Proof. intros [<-|[<-|[]]]; (split; [|split; [|discriminate]]); repeat constructor; unfold is_u8; cbn; lia. Qed.

Lemma text_filters_exact_witness :
  In log_a (filterByLocation (S := list_sql) true [log_a; log_b] [80; 111; 114; 116]) <->
  In log_a [log_a; log_b] /\ contains_nocase (chars [80; 111; 114; 116]) (chars (location log_a)).
Proof.
  destruct (text_filters_exact (S := list_sql) [log_a; log_b] [80; 111; 114; 116] plain_port) as [H _].
  - intros x Hx. destruct (demo_rows x Hx) as (A & B & _). auto.
  - exact (H log_a).
Defined.

Lemma api_search_text_witness :
  exists x, In x (api_search (S := list_sql) true (fun _ => None) [log_a; log_b] [80; 111; 114; 116]) /\ same_time_freq x log_b = true.
Proof.
  destruct (api_search_text (S := list_sql) (fun _ => None) [log_a; log_b] [80; 111; 114; 116] eq_refl ltac:(discriminate) plain_port demo_rows)
    as (_ & _ & H & _). apply H; [right; now left|].
  exists [], (chars [80; 111; 114; 116]), []. split; [reflexivity|]. vm_compute. repeat constructor.
Defined.

Lemma save_then_delete_witness :
  let near := fun x => abs_diff_lt (freq x) f_100 && (time x =? 7) && (if list_eq_dec Z.eq_dec (location x) (c_str [72; 105]) then true else false) in
  let '(code, db') := api_delete (S := list_sql) true (api_save (S := list_sql) true [log_a] f_100 7 [72; 105] [] [] []) f_100 7 [72; 105] in
  code = 200 /\ Permutation (rows db') (filter (fun x => negb (near x) &&
    negb (same_key (mkLog f_100 7 (c_str [72; 105]) (c_str []) (c_str []) (c_str []) default_audio) x)) (rows [log_a])).
Proof. apply (save_then_delete (S := list_sql)). exact I. Defined.

(** The search drops logs that are not duplicates: the primary key has the
    location, but the loop that joins the results compares time and frequency
    only, so a log that the channel search finds is missing from the answer when
    another place heard the same frequency at the same second. *)
Theorem search_drops_log : exists (db : list RadioLog) q lost,
  In lost (filterByChannelName (S := list_sql) true db q) /\
  ~ In lost (api_search (S := list_sql) true (fun _ => None) db q) /\
  forallb (fun x => negb (same_key x lost)) (api_search (S := list_sql) true (fun _ => None) db q) = true.
Proof.
  exists [log_a; log_b], [80; 111; 114; 116], log_b. split; [|split].
  - vm_compute. now left.
  - vm_compute. intros [H|[]]. discriminate H.
  - vm_compute. reflexivity.
Qed.
