(* ===== verification/Gateway.v ===== *)
(** * Gateway: HTTP requests and Redis messages

    Models the handlers of [src/api-core/src/main.cpp] that talk to the other
    services: tune, live, record, wideband scan, transcribe and summarize, with
    [makeCorsResponse], and how [commandListener] of
    [src/sdr-daemon/src/main.cpp] reads what they publish.

    A handler takes the body of its request and gives the messages it publishes
    and its response; an exception ([None] inside) is answered by the server
    with status 500.  Messages are JSON texts, written and read by [Json].
    [iteration] is the order in which a [std::unordered_map] is traversed,
    [sort] is [std::sort]; [to_double], [to_int64] and [to_uint64] are the stream
    extraction of a number. *)

From Stdlib Require Import ZArith List Lia Bool SpecFloat Permutation.
From Stdlib Require Import String.
Import ListNotations.
From S2P Require Import Prelude Json Daemon RadioDb.
#[local] Open Scope Z_scope.
#[local] Open Scope ag_scope.

Abbreviation double := spec_float.
Abbreviation text := (list Z).
Abbreviation len := List.length.
Abbreviation concat := List.concat.

Inductive Body := NoBody | Written (w : wvalue).
Record Response := mkResponse { code : Z; cors : bool; body : Body }.

(** [crow::response(code)], [makeCorsResponse], and the answer to an
    exception. *)
Definition plain (code : Z) : Response := mkResponse code false NoBody.
Definition makeCorsResponse (w : wvalue) (code : Z) : Response := mkResponse code true (Written w).
Definition server_error : Response := plain 500.

Definition field (k : string) (w : wvalue) : text * wvalue := (txt k, w).
Definition status (s : string) : wvalue := WObj [field "status" (WStr (txt s))].

(** A channel and a payload. *)
Inductive Channel := sdr_commands | ai_commands | ws_updates | live_audio.
Abbreviation Message := (Channel * text)%type.
Abbreviation Outcome := (list Message * Response)%type.

(** The server catches what a handler throws. *)
Definition serve (r : option Outcome) : Outcome := match r with Some o => o | None => ([], server_error) end.

(** The order of traversal of a map. *)
Class Iteration (iteration : list (text * wvalue) -> list (text * wvalue)) : Prop :=
  iteration_perm : forall o, Permutation (iteration o) o.

(** ** Objects to publish *)

(** Members with distinct keys and plain values. *)
Definition members (o : list (text * wvalue)) : Prop :=
  Forall (fun kv => (Forall byte (fst kv) /\ well_formed (snd kv)) /\ levels (snd kv) = 0) o /\ NoDup (map fst o).

Lemma txt_bytes s : Forall byte (txt s).
Proof.
  induction s as [|c s IH]; cbn [txt]; constructor; [|exact IH]. unfold byte. pose proof (Ascii.nat_ascii_bounded c). lia.
Qed.

Ltac object_members :=
  split; [repeat (apply Forall_cons; [cbn [fst snd field well_formed levels];
                    split; [split; [apply txt_bytes|first [exact I|apply txt_bytes|assumption]]|reflexivity]|]); apply Forall_nil
         |cbn [map fst field]; repeat constructor; vm_compute; intuition discriminate].

Lemma find_here k w o : find (fun m => key_equal (fst m) (txt k)) (field k w :: o) = Some (field k w).
Proof. cbn [find field fst]. replace (key_equal (txt k) (txt k)) with true by (symmetry; now apply key_equal_eq). reflexivity. Qed.
Lemma find_later k k' w o : key_equal (txt k') (txt k) = false ->
  find (fun m => key_equal (fst m) (txt k)) (field k' w :: o) = find (fun m => key_equal (fst m) (txt k)) o.
Proof. intros H. cbn [find field fst]. now rewrite H. Qed.
(** Looks a literal key up in literal fields. *)
Ltac find_field := repeat first [rewrite find_here | rewrite find_later by reflexivity].

Section Handlers.
Variables fmt_g fmt_f : double -> text.
Variable to_double : text -> double.
Variables to_int64 to_uint64 : text -> Z.
Variable sort : list (text * rvalue) -> list (text * rvalue).
Variable iteration : list (text * wvalue) -> list (text * wvalue).
Abbreviation dump := (dump fmt_g fmt_f).

(** [redisCommand(..., "PUBLISH channel %s", cmd.dump().c_str())] *)
Definition publish (c : Channel) (o : list (text * wvalue)) : Message := (c, c_str (dump (WObj (iteration o)))).

(** [x["freq"].d()] and [x["text"].s()] *)
Definition get_number (x : rvalue) (key : string) : option double :=
  let* v := index sort x (txt key) in number to_double v.
Definition get_string (x : rvalue) (key : string) : option text := let* v := index sort x (txt key) in str v.

(** [/api/scan/tune] and [/api/scan/record]; a body that is no JSON is refused
    without the CORS header. *)
Definition freq_command (command reply : string) (req : text) : Outcome :=
  match load req with
  | None => ([], plain 400)
  | Some x =>
      serve (let* freq := get_number x "freq" in
             Some ([publish sdr_commands [field "command" (WStr (txt command)); field "freq" (WDouble freq)]],
                   makeCorsResponse (status reply) 200))
  end.
Definition tune : text -> Outcome := freq_command "TUNE" "tuned".
Definition record : text -> Outcome := freq_command "RECORD" "recording_started".

(** [/api/scan/live] *)
Definition live (req : text) : Outcome :=
  match load req with
  | None => ([], plain 400)
  | Some x =>
      serve (let* action := get_string x "action" in
             let start := if list_eq_dec Z.eq_dec action (txt "start") then true else false in
             let command := field "command" (WStr (txt (if start then "LIVE_LISTEN" else "STOP_LIVE"))) in
             let reply := makeCorsResponse (status (if start then "live_started" else "live_stopped")) 200 in
             let* given := (if start then has sort x (txt "freq") else Some false) in
             if given then
               let* freq := get_number x "freq" in
               Some ([publish sdr_commands [command; field "freq" (WDouble freq)]], reply)
             else Some ([publish sdr_commands [command]], reply))
  end.

(** [/api/transcribe/*] and [/api/summarize/*] *)
Definition transcribe (command : string) (req : text) : Outcome :=
  match load req with
  | None => ([], makeCorsResponse (status "error") 400)
  | Some x =>
      serve (let* freq := get_number x "freq" in
             Some ([publish ai_commands [field "command" (WStr (txt command)); field "freq" (WDouble freq)]],
                   makeCorsResponse (status "transcribing") 200))
  end.
Definition summarize (command : string) (req : text) : Outcome :=
  match load req with
  | None => ([], makeCorsResponse (status "error") 400)
  | Some x =>
      serve (let* freq := get_number x "freq" in
             let* t := get_string x "text" in
             Some ([publish ai_commands [field "command" (WStr (txt command)); field "freq" (WDouble freq); field "text" (WStr t)]],
                   makeCorsResponse (status "summarizing") 200))
  end.
Definition transcribe_local : text -> Outcome := transcribe "TRANSCRIBE_LOCAL".
Definition transcribe_openai : text -> Outcome := transcribe "TRANSCRIBE_OPENAI".
Definition summarize_local : text -> Outcome := summarize "SUMMARIZE_LOCAL".
Definition summarize_openai : text -> Outcome := summarize "SUMMARIZE_OPENAI".

(** ** [/api/scan/wideband] *)

(** The command, published before the subscription. *)
Definition wideband_command : Message := publish sdr_commands [field "command" (WStr (txt "SCAN"))].

(** [wvalue(const rvalue&)]: a number with a point or an exponent is a double,
    another one with a sign is signed; [emplace] keeps the first of the members
    with one key. *)
Definition number_value (t : text) : wvalue :=
  if existsb (fun c => (c =? 46) || (c =? 101) || (c =? 69)) t then WFloat (to_double t)
  else if existsb (fun c => c =? 45) t then WInt (to_int64 t)
  else WUint (to_uint64 t).
Definition emplace (o : list (text * wvalue)) (kv : text * wvalue) : list (text * wvalue) :=
  if existsb (fun m => key_equal (fst m) (fst kv)) o then o else o ++ [kv].
Fixpoint of_rvalue (v : rvalue) : wvalue :=
  match v with
  | JNull => WNull
  | JFalse => WFalse
  | JTrue => WTrue
  | JNum t => number_value t
  | JStr raw e => WStr (unescape raw e)
  | JList l => WList (map of_rvalue l)
  | JObj o => WObj (fold_left emplace (map (fun kv => (fst kv, of_rvalue (snd kv))) o) [])
  end.

(** A reply on the subscription: an array of three with its type and payload,
    something else, or the end of the connection. *)
Inductive Reply := Array3 (msg_type payload : text) | OtherReply | ConnectionLost.
(** The loop: still waiting, a response, or an exception. *)
Inductive Wait := Waiting | Done (r : Response) | Threw.
Definition stations_response (final_stations : wvalue) : Response :=
  mkResponse 200 true (Written (WObj [field "stations" final_stations])).

Fixpoint wideband_wait (replies : list Reply) : Wait :=
  match replies with
  | [] => Waiting
  | ConnectionLost :: _ => Done (stations_response WNull)
  | OtherReply :: replies' => wideband_wait replies'
  | Array3 msg_type payload :: replies' =>
      if list_eq_dec Z.eq_dec msg_type (txt "message") then
        match load (c_str payload) with
        | None => wideband_wait replies'
        | Some data =>
            match get_string data "event" with
            | None => Threw
            | Some event =>
                if list_eq_dec Z.eq_dec event (txt "scan_complete") then
                  match index sort data (txt "stations") with
                  | None => Threw
                  | Some stations => Done (stations_response (of_rvalue stations))
                  end
                else wideband_wait replies'
            end
        end
      else wideband_wait replies'
  end.
(** The handler gets the replies from its subscription on: [missed] of those
    that follow the command come before it. *)
Definition wideband (missed : nat) (replies : list Reply) : Wait := wideband_wait (skipn missed replies).

(** What [ctrlReaderThread] makes of a line of the relay. *)
Definition line_event (line : text) : LineEvent :=
  match load line with
  | None => LineBadJson
  | Some json =>
      match has sort json (txt "event") with
      | None => LineThrows
      | Some false => LineIs ""
      | Some true => match get_string json "event" with Some e => LineIs (to_string_ascii e) | None => LineThrows end
      end
  end.

(** ** What the daemon makes of a message *)

Variable stod : string -> option double.

Definition freq_field (v : rvalue) : option FreqField :=
  let* given := has sort v (txt "freq") in
  if given then
    let* f := index sort v (txt "freq") in
    Some match f with
         | JNum t => FreqNumber (to_double t)
         | JStr raw e => FreqString (to_string_ascii (unescape raw e))
         | _ => FreqOther
         end
  else Some FreqAbsent.
(** [json["command"].s()] and the frequency; reading a member of a value that
    is no object throws. *)
Definition daemon_message (payload : text) : Daemon.Message :=
  match load (c_str payload) with
  | None => BadJson
  | Some v =>
      match get_string v "command" with
      | None => Parsed None FreqAbsent
      | Some c => match freq_field v with Some f => Parsed (Some (to_string_ascii c)) f | None => Parsed None FreqAbsent end
      end
  end.

(** The messages on the daemon's channel, one after the other. *)
Definition daemon_receive (ms : list Message) (d : Daemon) : Daemon :=
  fold_left (fun d m => match fst m with sdr_commands => commandListener stod (daemon_message (snd m)) d | _ => d end) ms d.

(** ** Messages arrive as they were meant *)

Context `{!PrintedNumber fmt_g} `{!PrintedNumber fmt_f} `{!KeySort sort} `{!Iteration iteration}.

Lemma well_formed_members o : fold_right and True (map (fun kv : text * wvalue => Forall byte (fst kv) /\ well_formed (snd kv)) o) <->
  Forall (fun kv => Forall byte (fst kv) /\ well_formed (snd kv)) o.
Proof. induction o as [|kv o IH]; cbn [map fold_right]; [split; auto|]. rewrite IH. split; [intros [? ?]; auto|inversion 1; auto]. Qed.

Abbreviation image := (image fmt_g fmt_f).
Lemma flat_levels o : Forall (fun kv : text * wvalue => levels (snd kv) = 0) o -> levels (WObj o) = 1.
Proof.
  intros H. cbn [levels]. assert (fold_right Z.max 0 (map (fun kv : text * wvalue => levels (snd kv)) o) = 0); [|lia].
  induction H as [|kv o Hkv _ IH]; cbn [map fold_right]; [reflexivity|]. rewrite Hkv, IH. reflexivity.
Qed.

(** A member of an object that was written and read. *)
Lemma image_member o key : Forall (fun kv => Forall byte (fst kv)) o -> NoDup (map fst o) -> Forall byte key ->
  member sort (map (fun kv => (fst kv, image (snd kv))) (iteration o)) key =
  option_map image (option_map snd (find (fun m => key_equal (fst m) key) o)).
Proof.
  intros Hf Hd Hk. set (o1 := iteration o). pose proof (iteration_perm o) as Hp. fold o1 in Hp.
  assert (Hd1 : NoDup (map fst o1)) by (eapply Permutation_NoDup; [apply Permutation_map; symmetry; exact Hp|exact Hd]).
  assert (Em : map fst (map (fun kv => (fst kv, image (snd kv))) o1) = map fst o1) by (rewrite map_map; reflexivity).
  assert (Hb1 : Forall (fun m => Forall byte (fst m)) (map (fun kv => (fst kv, image (snd kv))) o1))
    by (apply Forall_map; eapply Permutation_Forall; [symmetry; exact Hp|exact Hf]).
  rewrite member_assoc by (assumption || now rewrite Em).
  assert (Hin : forall v, assoc (map (fun kv => (fst kv, image (snd kv))) o1) key = Some v <-> exists w, v = image w /\ In (key, w) o).
  { intros v. rewrite assoc_in by now rewrite Em. rewrite in_map_iff. split.
    - intros ([k w] & E & Hin). injection E as <- <-. exists w. split; [reflexivity|]. eapply Permutation_in; [exact Hp|exact Hin].
    - intros (w & -> & Hin). exists (key, w). split; [reflexivity|]. eapply Permutation_in; [symmetry; exact Hp|exact Hin]. }
  destruct (find (fun m => key_equal (fst m) key) o) as [[k w]|] eqn:Ef; cbn [option_map snd].
  - apply find_some in Ef as [Hi Hk']. apply key_equal_eq in Hk'. cbn [fst] in Hk'. subst k. apply Hin. eauto.
  - destruct (assoc _ key) as [v|] eqn:Ea; [exfalso|reflexivity]. destruct (proj1 (Hin v) eq_refl) as (w & _ & Hi).
    pose proof (find_none _ _ Ef _ Hi) as Hn. cbn [fst] in Hn. assert (key_equal key key = true) by now apply key_equal_eq. congruence.
Qed.

(** What is published is an object with these members, in some order. *)
Lemma load_published c o : members o ->
  exists o', load (c_str (snd (publish c o))) = Some (JObj o') /\
    (forall key, Forall byte key -> member sort o' key = option_map image (option_map snd (find (fun m => key_equal (fst m) key) o))).
Proof.
  intros [Hf Hd]. cbn [publish snd]. set (o1 := iteration o). pose proof (iteration_perm o) as Hp. fold o1 in Hp.
  assert (Hf1 : Forall (fun kv => (Forall byte (fst kv) /\ well_formed (snd kv)) /\ levels (snd kv) = 0) o1)
    by (eapply Permutation_Forall; [symmetry; exact Hp|exact Hf]).
  assert (Hwf : well_formed (WObj o1)) by (apply well_formed_members; eapply Forall_impl; [|exact Hf1]; intros kv H; apply H).
  pose proof (dump_nonzero fmt_g fmt_f (WObj o1) Hwf) as Hnz. rewrite (c_str_id _ Hnz), (c_str_id _ Hnz).
  exists (map (fun kv => (fst kv, image (snd kv))) o1). split.
  { apply (load_dump fmt_g fmt_f); [exact Hwf|]. rewrite flat_levels; [lia|]. eapply Forall_impl; [|exact Hf1]. intros kv H. apply H. }
  intros key Hk. apply image_member; [|exact Hd|exact Hk]. eapply Forall_impl; [|exact Hf]. intros kv H. apply H.
Qed.

(** Commands with and without a frequency, as the daemon reads them. *)
Definition sent_freq (f : double) : FreqField := if not_number f then FreqOther else FreqNumber (to_double (trim (fmt_g f))).

Lemma daemon_reads_freq c f : daemon_message (snd (publish sdr_commands [field "command" (WStr (txt c)); field "freq" (WDouble f)])) =
  Parsed (Some c) (sent_freq f).
Proof.
  assert (Hmem : members [field "command" (WStr (txt c)); field "freq" (WDouble f)]) by object_members.
  destruct (load_published sdr_commands _ Hmem) as (o' & E & Hm).
  unfold daemon_message. rewrite E. unfold get_string, freq_field, has, index. rewrite !Hm by apply txt_bytes.
  find_field. cbn [option_map snd field Json.image str]. rewrite unescape_escape, to_string_txt by apply txt_bytes. unfold sent_freq. now destruct (not_number f).
Qed.

Lemma daemon_reads_command c : daemon_message (snd (publish sdr_commands [field "command" (WStr (txt c))])) = Parsed (Some c) FreqAbsent.
Proof.
  assert (Hmem : members [field "command" (WStr (txt c))]) by object_members.
  destruct (load_published sdr_commands _ Hmem) as (o' & E & Hm).
  unfold daemon_message. rewrite E. unfold get_string, freq_field, has, index. rewrite !Hm by apply txt_bytes.
  find_field. cbn [find option_map snd field Json.image str]. now rewrite unescape_escape, to_string_txt by apply txt_bytes.
Qed.

(** A message that a handler publishes for the daemon. *)
Definition good_message (m : Message) : Prop :=
  fst m = sdr_commands -> exists c f, daemon_message (snd m) = Parsed (Some c) f /\ (forall s, f <> FreqString s).

Lemma sent_freq_number f s : sent_freq f <> FreqString s.
Proof. unfold sent_freq. destruct (not_number f); discriminate. Qed.

Lemma listener_alive c f d : (forall s, f <> FreqString s) -> terminated (commandListener stod (Parsed (Some c) f) d) = terminated d.
Proof.
  intros Hf. cbn [commandListener]. destruct f as [|x|s|]; [| |now elim (Hf s)|];
    unfold sendCtrlCommand; repeat (match goal with |- context [if ?b then _ else _] => destruct b end); reflexivity.
Qed.

Lemma receive_alive ms d : Forall good_message ms -> terminated (daemon_receive ms d) = terminated d.
Proof.
  unfold daemon_receive. revert d. induction ms as [|[c p] ms IH]; intros d H; [reflexivity|]. inversion H as [|? ? Hm Hms]; subst.
  cbn [fold_left fst snd]. rewrite IH by exact Hms. destruct c; try reflexivity.
  destruct (Hm eq_refl) as (cmd & f & E & Hf). cbn [snd] in E. rewrite E. now apply listener_alive.
Qed.

Lemma good_freq c f : good_message (publish sdr_commands [field "command" (WStr (txt c)); field "freq" (WDouble f)]).
Proof. intros _. exists c, (sent_freq f). split; [apply daemon_reads_freq|apply sent_freq_number]. Qed.
Lemma good_command c : good_message (publish sdr_commands [field "command" (WStr (txt c))]).
Proof. intros _. exists c, FreqAbsent. split; [apply daemon_reads_command|discriminate]. Qed.
Lemma good_ai o : good_message (publish ai_commands o).
Proof. discriminate. Qed.

Ltac handler_good :=
  repeat match goal with
  | |- Forall good_message (fst match ?x with _ => _ end) => destruct x
  | |- Forall good_message (fst (serve match ?x with _ => _ end)) => destruct x
  | |- Forall good_message (fst (serve (if ?x then _ else _))) => destruct x
  end; cbn [serve fst]; repeat constructor; auto using good_freq, good_command, good_ai.

(** No HTTP request can stop the daemon.  Whatever the body of a request
    to the tune, record, live, scan, transcribe or summarize handlers, the
    messages published are read by the daemon's [commandListener] without an
    exception, which would end it. *)
Theorem gateway_daemon_alive handler req d :
  In handler [tune; record; live; transcribe_local; transcribe_openai; summarize_local; summarize_openai; (fun _ => ([wideband_command], plain 200))] ->
  terminated (daemon_receive (fst (handler req)) d) = terminated d.
Proof.
  intros Hin. apply receive_alive. cbn [In] in Hin.
  repeat (destruct Hin as [<-|Hin]; [|]); [..|contradiction];
    unfold tune, record, freq_command, live, transcribe_local, transcribe_openai, summarize_local, summarize_openai, transcribe, summarize, wideband_command;
    handler_good.
Qed.

(** A recording, from the request to the daemon.  For a body with a finite
    frequency, the handler answers 200 with CORS, and the daemon, when it is
    neither scanning nor recording, starts one recorder at that frequency, as
    it is read back from the text written for it, and changes nothing else but
    the current frequency; a live stream goes on. *)
Theorem gateway_record req x f d :
  load req = Some x -> get_number x "freq" = Some f -> not_number f = false ->
  g_scanning d = false -> g_recording d = false ->
  let f' := to_double (trim (fmt_g f)) in
  snd (record req) = makeCorsResponse (status "recording_started") 200 /\
  daemon_receive (fst (record req)) d =
    set_threads (recorders d ++ [mkRec f' RStart]) (live_threads d) (set_recording true (set_freq f' d)).
Proof.
  intros El Ef Hn Hs Hr. cbn zeta. unfold record, freq_command. rewrite El, Ef. cbn [serve fst snd]. split; [reflexivity|].
  unfold daemon_receive. cbn [fold_left]. change (fst (publish sdr_commands ?o)) with sdr_commands. cbn iota.
  rewrite daemon_reads_freq. unfold sent_freq. rewrite Hn. cbn [commandListener].
  change (g_scanning (set_freq ?f d)) with (g_scanning d). change (g_recording (set_freq ?f d)) with (g_recording d).
  rewrite Hs, Hr. reflexivity.
Qed.

(** ** The wideband scan *)

(** A reply that the waiting handler passes over: no message, no JSON, or
    another event. *)
Definition other_update (r : Reply) : Prop :=
  match r with
  | ConnectionLost => False
  | OtherReply => True
  | Array3 t p => t <> txt "message" \/ load (c_str p) = None \/
      exists data event, load (c_str p) = Some data /\ get_string data "event" = Some event /\ event <> txt "scan_complete"
  end.

Lemma wait_others rs rs' : Forall other_update rs -> wideband_wait (rs ++ rs') = wideband_wait rs'.
Proof.
  induction 1 as [|r rs Hr _ IH]; [reflexivity|]. cbn [app wideband_wait]. destruct r as [t p| |]; [|exact IH|contradiction].
  destruct (list_eq_dec Z.eq_dec t (txt "message")) as [Et|]; [|exact IH].
  destruct Hr as [H|[->|(data & event & -> & -> & He)]]; [contradiction|exact IH|].
  destruct (list_eq_dec Z.eq_dec event (txt "scan_complete")); [contradiction|exact IH].
Qed.

(** The line with which the relay ends a scan. *)
Lemma line_event_of line data event : load line = Some data -> get_string data "event" = Some event ->
  line_event line = LineIs (to_string_ascii event).
Proof.
  intros El Ee. unfold line_event, has. rewrite El. pose proof Ee as Ei. unfold get_string, index in Ei. destruct data; try discriminate Ei.
  destruct (member _ _ _); [|discriminate Ei]. now rewrite Ee.
Qed.

Lemma wait_answered others line data stations after :
  load (c_str line) = Some data -> get_string data "event" = Some (txt "scan_complete") ->
  index sort data (txt "stations") = Some stations -> Forall other_update others ->
  wideband_wait (others ++ Array3 (txt "message") line :: after) = Done (stations_response (of_rvalue stations)).
Proof.
  intros El Ee Es Ho. rewrite wait_others by exact Ho. cbn [wideband_wait]. destruct (list_eq_dec Z.eq_dec _ (txt "message")); [|congruence].
  rewrite El, Ee. destruct (list_eq_dec Z.eq_dec _ (txt "scan_complete")); [|congruence]. now rewrite Es.
Qed.

(** What the daemon makes of the command, idle with a connection to the relay
    or busy. *)
Lemma wideband_idle d : g_scanning d = false -> g_recording d = false -> g_live_listen d = false -> 0 <= g_ctrl_fd d ->
  daemon_receive [wideband_command] d = set_logs (sent d ++ [RelayScan]) (published d) (written d) (set_scanning true (set_freq (g_current_freq d) d)).
Proof.
  intros Hs Hr Hl Hfd. unfold daemon_receive, wideband_command. cbn [fold_left]. change (fst (publish sdr_commands ?o)) with sdr_commands. cbn iota.
  rewrite daemon_reads_command. cbn [commandListener]. change (g_scanning (set_freq ?f d)) with (g_scanning d).
  change (g_recording (set_freq ?f d)) with (g_recording d). change (g_live_listen (set_freq ?f d)) with (g_live_listen d).
  rewrite Hs, Hr, Hl. cbn [negb andb String.eqb Ascii.eqb Bool.eqb]. unfold sendCtrlCommand.
  change (g_ctrl_fd (set_scanning true (set_freq (g_current_freq d) d))) with (g_ctrl_fd d).
  replace (g_ctrl_fd d <? 0) with false by (symmetry; apply Z.ltb_ge; lia). reflexivity.
Qed.
Lemma wideband_busy d : g_scanning d || g_recording d || g_live_listen d = true ->
  daemon_receive [wideband_command] d = set_freq (g_current_freq d) d.
Proof.
  intros Hb. unfold daemon_receive, wideband_command. cbn [fold_left]. change (fst (publish sdr_commands ?o)) with sdr_commands. cbn iota.
  rewrite daemon_reads_command. cbn [commandListener]. change (g_scanning (set_freq ?f d)) with (g_scanning d).
  change (g_recording (set_freq ?f d)) with (g_recording d). change (g_live_listen (set_freq ?f d)) with (g_live_listen d).
  destruct (g_scanning d), (g_recording d), (g_live_listen d); try discriminate Hb; reflexivity.
Qed.

(** C7: a scan, from the request to the response.  When the daemon is idle and
    connected to the relay, the command of the wideband handler puts it in
    scanning mode and is passed on to the relay once; the line with which the
    relay ends the scan clears the mode and is published unchanged.  The handler
    subscribes after it has published the command, so it misses the first
    updates that follow.  If its subscription comes before that line, and the
    updates in between are no messages, no JSON, or have another event, it
    answers with the stations of the line; if the line is among the missed
    ones, it waits through all such updates that follow.  (A JSON update
    without an event text is an exception in the handler.) *)
Theorem wideband_scan d line data stations before after missed :
  g_scanning d = false -> g_recording d = false -> g_live_listen d = false -> 0 <= g_ctrl_fd d ->
  c_str (txt line) = txt line ->
  load (txt line) = Some data -> get_string data "event" = Some (txt "scan_complete") ->
  index sort data (txt "stations") = Some stations -> Forall other_update (skipn missed before) ->
  let d1 := daemon_receive [wideband_command] d in
  let d2 := ctrl_line (line_event (txt line)) line d1 in
  let answer := wideband missed (before ++ Array3 (txt "message") (txt line) :: after) in
  (g_scanning d1 = true /\ sent d1 = sent d ++ [RelayScan]) /\
  (g_scanning d2 = false /\ published d2 = published d1 ++ [WsLine line]) /\
  ((missed <= len before)%nat -> answer = Done (stations_response (of_rvalue stations))) /\
  ((len before < missed)%nat -> Forall other_update after -> answer = Waiting).
Proof.
  intros Hs Hr Hl Hfd Hc El Ee Es Ho. cbn zeta. rewrite (wideband_idle d Hs Hr Hl Hfd), (line_event_of _ _ _ El Ee).
  split; [split; reflexivity|]. split; [split; reflexivity|]. unfold wideband. rewrite skipn_app. split; intros Hm.
  - replace (missed - len before)%nat with 0%nat by lia. cbn [skipn]. rewrite (wait_answered _ (txt line) data stations) by (rewrite ?Hc; assumption). reflexivity.
  - intros Ha. replace (missed - len before)%nat with (S (missed - len before - 1)) by lia. cbn [skipn].
    rewrite wait_others by exact Ho. rewrite <- (app_nil_r (skipn _ after)), wait_others; [reflexivity|].
    apply Forall_forall. intros x Hx. eapply Forall_forall; [exact Ha|]. rewrite <- (firstn_skipn (missed - len before - 1) after).
    apply in_or_app. now right.
Qed.

(** A scan that is refused.  When the daemon records, streams or scans, it
    ignores the command: it sends nothing to the relay and publishes nothing.
    The handler, which is not told, waits through every update that is not a
    [scan_complete], such as that of a scan which already runs. *)
Theorem wideband_refused d others missed :
  g_scanning d || g_recording d || g_live_listen d = true -> Forall other_update others ->
  let d1 := daemon_receive [wideband_command] d in
  sent d1 = sent d /\ published d1 = published d /\ g_scanning d1 = g_scanning d /\ wideband missed others = Waiting.
Proof.
  intros Hb Ho. cbn zeta. rewrite (wideband_busy d Hb). repeat (split; [reflexivity|]). unfold wideband.
  rewrite <- (app_nil_r (skipn missed others)), wait_others; [reflexivity|]. apply Forall_forall. intros x Hx. eapply Forall_forall; [exact Ho|].
  rewrite <- (firstn_skipn missed others). apply in_or_app. now right.
Qed.

End Handlers.

(** ** Concrete requests *)

Definition demo_to_double (t : text) : double := if list_eq_dec Z.eq_dec t (txt "0.5") then S754_finite false 1 (-1) else S754_zero false.
#[export] Instance demo_iteration : Iteration (fun o => o).
Proof. intros o. reflexivity. Qed.

(** Text with apostrophes for quotes. *)
Definition quoted (s : string) : text := map (fun c => if c =? 39 then 34 else c) (txt s).

Lemma gateway_daemon_alive_witness :
  terminated (daemon_receive demo_to_double insertion_sort (fun _ => None)
    (fst (tune demo_fmt demo_fmt demo_to_double insertion_sort (fun o => o) (quoted "{'freq':[1]}"))) Daemon.init) = false.
Proof.
  rewrite (gateway_daemon_alive demo_fmt demo_fmt demo_to_double insertion_sort (fun o => o) (fun _ => None)); [reflexivity|left; reflexivity].
Defined.

Lemma gateway_record_witness :
  recorders (daemon_receive demo_to_double insertion_sort (fun _ => None)
    (fst (record demo_fmt demo_fmt demo_to_double insertion_sort (fun o => o) (quoted "{'freq': 0.5}"))) Daemon.init)
  = [mkRec (S754_finite false 1 (-1)) RStart].
Proof.
  destruct (gateway_record demo_fmt demo_fmt demo_to_double insertion_sort (fun o => o) (fun _ => None) (quoted "{'freq': 0.5}")
    (JObj [(txt "freq", JNum (txt "0.5"))]) (S754_finite false 1 (-1)) Daemon.init) as [_ ->]; vm_compute; reflexivity.
Defined.

Definition demo_line : string := to_string_ascii (quoted "{'event':'scan_complete','stations':[{'freq':88.5,'name':'FM'}]}").
Definition demo_data : rvalue :=
  JObj [(txt "event", JStr (txt "scan_complete") false);
        (txt "stations", JList [JObj [(txt "freq", JNum (txt "88.5")); (txt "name", JStr (txt "FM") false)]])].
Definition demo_stations : rvalue := JList [JObj [(txt "freq", JNum (txt "88.5")); (txt "name", JStr (txt "FM") false)]].
(** An update with another event, missed, and one that is no JSON. *)
Definition demo_updates : list Reply := [Array3 (txt "message") (quoted "{'x':1}"); Array3 (txt "message") (txt "no json")].
Lemma wideband_scan_witness :
  wideband demo_to_double (fun _ => 0) (fun _ => 0) insertion_sort 1 (demo_updates ++ [Array3 (txt "message") (txt demo_line)])
  = Done (stations_response (WList [WObj [(txt "freq", WFloat (S754_zero false)); (txt "name", WStr (txt "FM"))]])).
Proof.
  assert (H0 : 0 <= 3) by lia.
  assert (Hc : c_str (txt demo_line) = txt demo_line) by (vm_compute; reflexivity).
  assert (H1 : load (txt demo_line) = Some demo_data) by (vm_compute; reflexivity).
  assert (H2 : get_string insertion_sort demo_data "event" = Some (txt "scan_complete")) by (vm_compute; reflexivity).
  assert (H3 : index insertion_sort demo_data (txt "stations") = Some demo_stations) by (vm_compute; reflexivity).
  assert (H4 : Forall (other_update insertion_sort) (skipn 1 demo_updates))
    by (constructor; [right; left; vm_compute; reflexivity|constructor]).
  destruct (wideband_scan demo_fmt demo_fmt demo_to_double (fun _ => 0) (fun _ => 0) insertion_sort (fun o => o) (fun _ => None)
    (set_fd 3 Daemon.init) demo_line demo_data demo_stations demo_updates [] 1 eq_refl eq_refl eq_refl H0 Hc H1 H2 H3 H4) as (_ & _ & H & _).
  rewrite H; [vm_compute; reflexivity|cbn; lia].
Defined.

Lemma wideband_refused_witness :
  let d := set_recording true Daemon.init in
  sent (daemon_receive demo_to_double insertion_sort (fun _ => None) [wideband_command demo_fmt demo_fmt (fun o => o)] d) = [] /\
  wideband demo_to_double (fun _ => 0) (fun _ => 0) insertion_sort 0 [OtherReply] = Waiting.
Proof.
  destruct (wideband_refused demo_fmt demo_fmt demo_to_double (fun _ => 0) (fun _ => 0) insertion_sort (fun o => o) (fun _ => None)
    (set_recording true Daemon.init) [OtherReply] 0) as (H1 & _ & _ & H); [reflexivity|repeat constructor|split; [exact H1|exact H]].
Defined.
