(* ===== verification/LogsApi.v ===== *)
(** * LogsApi: the log database over HTTP

    Models the handlers of [src/api-core/src/main.cpp] that read and change the
    log database, from the request to the text of the response: [/api/logs],
    [/api/filter/channel], [/api/search], [/api/search/advanced],
    [/api/logs/save], [/api/logs/delete], [/api/dev/clear], [/api/dev/seed]
    (with [seedDatabase]) and [/stations].

    A request carries its body, or its URL parameters as C strings; a handler
    gives a response and the database after it.  The database functions are
    those of [RadioDb], JSON is read and written by [Json].  [to_int64] is the
    stream extraction of an [int64_t]; the time of seeding is part of the
    request. *)

From Stdlib Require Import String.
From Stdlib Require Import ZArith List Lia Bool SpecFloat Permutation Sorted.
Import ListNotations.
From S2P Require Import Prelude Json JsonTypes RadioDb Gateway.
#[local] Open Scope Z_scope.
#[local] Open Scope ag_scope.

Inductive Request :=
| GetLogs
| FilterChannel (name : option text)
| Search (q : option text)
| Advanced (freq loc keyword start end_ : option text)
| PostDelete (req : text)
| PostSave (req : text)
| Clear
| Seed (now : Z)
| GetStations.

(** [req.url_params.get("q") ? req.url_params.get("q") : ""] *)
Definition url_param (p : option text) : text := match p with Some s => c_str s | None => [] end.

(** 154.280, 462.562 and 160.230 *)
Definition d_154_280 : double := S754_finite false 5428244925865001 (-45).
Definition d_462_562 : double := S754_finite false 8137476761077154 (-44).
Definition d_160_230 : double := S754_finite false 5637591939793551 (-45).
Definition seed_rows (now : Z) : list RadioLog :=
  let row f t loc raw sum ch := mkLog f t (txt loc) (txt raw) (txt sum) (txt ch) default_audio in
  [row d_154_280 now "North Precinct"%string "Officer needs assistance."%string "Officer request"%string "Bham Police 1"%string;
   row d_462_562 (now - 300) "Greystone"%string "Order is ready at window two."%string "Drive-thru comms"%string "Fast Food Ops"%string;
   row d_160_230 (now - 3600) "Rail Yard"%string "Train 42 is cleared on track 3."%string "Train clearance"%string "Railroad Ch 1"%string].

Definition failure (message : string) : wvalue := WObj [field "status" (WStr (txt "error")); field "message" (WStr (txt message))].

Section Api.
Context {S : Sql}.
Variable opens : bool.
Variables fmt_g fmt_f : double -> text.
Variable to_double : text -> double.
Variable to_int64 : text -> Z.
Variable stod : text -> option double.
Variable stoll : text -> option Z.
Variable sort : list (text * rvalue) -> list (text * rvalue).
Variable iteration : list (text * wvalue) -> list (text * wvalue).

(** The fields of a log; the search names the transcript [text], and only some
    answers have the audio file. *)
Definition log_fields (raw_key : string) (audio : bool) (r : RadioLog) : list (text * wvalue) :=
  [field "freq" (WDouble (freq r)); field "time" (WInt (time r)); field "location" (WStr (location r));
   field "name" (WStr (channelName r)); field "summary" (WStr (summary r)); field raw_key (WStr (rawT r))]
  ++ if audio then [field "audioFilePath" (WStr (audioFilePath r))] else [].
Definition logs_json (raw_key : string) (audio : bool) (logs : list RadioLog) : wvalue :=
  WList (map (fun r => WObj (iteration (log_fields raw_key audio r))) logs).

Definition get_logs (db : DB) : Response := makeCorsResponse (logs_json "rawT" true (getAllLogs opens db)) 200.
Definition filter_channel (name : option text) (db : DB) : Response :=
  match url_param name with
  | [] => makeCorsResponse (WList []) 200
  | channel => makeCorsResponse (logs_json "rawT" false (filterByChannelName opens db channel)) 200
  end.
Definition search (q : option text) (db : DB) : Response :=
  makeCorsResponse (logs_json "text" false (api_search opens stod db (url_param q))) 200.
(** The conversions of the parameters throw. *)
Definition advanced (freq loc keyword start end_ : option text) (db : DB) : Response :=
  match advancedSearch opens stod stoll db (url_param freq) (url_param loc) (url_param keyword) (url_param start) (url_param end_) with
  | Some logs => makeCorsResponse (logs_json "rawT" true logs) 200
  | None => server_error
  end.

(** [body["time"].i()] *)
Definition get_integer (x : rvalue) (key : string) : option Z := let* v := index sort x (txt key) in integer to_int64 v.
Abbreviation get_number := (get_number to_double sort).
Abbreviation get_string := (get_string sort).

Definition post_delete (req : text) (db : DB) : Response * DB :=
  match load req with
  | None => (makeCorsResponse (failure "Invalid JSON") 400, db)
  | Some x =>
      match (let* f := get_number x "freq" in let* t := get_integer x "time" in let* loc := get_string x "location" in Some (f, t, loc)) with
      | None => (server_error, db)
      | Some (f, t, loc) =>
          let '(code, db) := api_delete opens db f t loc in
          (if code =? 200 then makeCorsResponse (status "success") 200 else makeCorsResponse (failure "Log not found") 404, db)
      end
  end.

(** The members of the body of a save request. *)
Definition save_body (x : rvalue) : option RadioLog :=
  let* f := get_number x "freq" in let* t := get_integer x "time" in let* loc := get_string x "location" in
  let* raw := get_string x "rawT" in let* sum := get_string x "summary" in let* ch := get_string x "channelName" in
  Some (mkLog f t loc raw sum ch default_audio).
Definition post_save (req : text) (db : DB) : Response * DB :=
  match load req with
  | None => (makeCorsResponse (failure "Invalid JSON") 400, db)
  | Some x =>
      match save_body x with
      | None => (server_error, db)
      | Some r => (makeCorsResponse (status "success") 200, api_save opens db (freq r) (time r) (location r) (rawT r) (summary r) (channelName r))
      end
  end.

(** INSERT INTO an empty table. *)
Definition seedDatabase (now : Z) (db : DB) : DB :=
  match getAllLogs opens db with
  | [] => if opens then fold_left insert_or_replace (seed_rows now) db else db
  | _ => db
  end.

Definition handle (req : Request) (db : DB) : Response * DB :=
  match req with
  | GetLogs => (get_logs db, db)
  | FilterChannel name => (filter_channel name db, db)
  | Search q => (search q db, db)
  | Advanced f l k s e => (advanced f l k s e db, db)
  | PostDelete b => post_delete b db
  | PostSave b => post_save b db
  | Clear => (makeCorsResponse (status "database_wiped_and_recreated") 200, api_clear opens db)
  | Seed now => (makeCorsResponse (status "database_seeded_successfully") 200, seedDatabase now db)
  | GetStations => (makeCorsResponse (WList []) 200, db)
  end.
(** Requests one after the other. *)
Fixpoint session (reqs : list Request) (db : DB) : list Response * DB :=
  match reqs with
  | [] => ([], db)
  | req :: reqs' =>
      let '(res, db) := handle req db in
      let '(rest, db) := session reqs' db in (res :: rest, db)
  end.

(** ** The type of the data *)

Definition wf_log (r : RadioLog) : Prop :=
  is_i64 (time r) /\ Forall byte (location r) /\ Forall byte (rawT r) /\ Forall byte (summary r) /\ Forall byte (channelName r) /\
  Forall byte (audioFilePath r).
Definition wf_db (db : DB) : Prop := Forall wf_log (rows db).
Definition wf_request (req : Request) : Prop :=
  match req with
  | PostDelete b | PostSave b => Forall byte b
  | Seed now => 0 <= now < 2 ^ 62
  | _ => True
  end.
(** The text that the server sends: [Connection::complete_request] of crow puts
    the status where the body of an error is empty. *)
Definition status_text (code : Z) : text :=
  if code =? 400 then txt "400 Bad Request" ++ [13; 10]
  else if code =? 500 then txt "500 Internal Server Error" ++ [13; 10]
  else [].
Definition sent_text (r : Response) : text :=
  match body r with
  | Written w => dump fmt_g fmt_f w
  | _ => if 400 <=? code r then status_text (code r) else []
  end.

(** The text of a response is JSON that can be read; an error may also have the
    text of its status. *)
Definition readable (r : Response) : Prop :=
  (exists v, load (sent_text r) = Some v) \/ ((code r = 400 \/ code r = 500) /\ sent_text r = status_text (code r)).

Context {L : SqlLaws S} `{!PrintedNumber fmt_g} `{!PrintedNumber fmt_f} `{!KeySort sort} `{!Iteration iteration}.
Hypothesis to_int64_range : forall t, is_i64 (to_int64 t).

Lemma c_str_bytes l : Forall byte l -> Forall byte (c_str l).
Proof. induction 1 as [|c l Hc _ IH]; cbn [c_str]; [constructor|]. destruct (c =? 0); [constructor|now constructor]. Qed.

Lemma select_incl db w o r : In r (select db w o) -> In r (rows db).
Proof.
  destruct (has_error w (rows db)) eqn:E.
  - unfold has_error in E. apply existsb_exists in E as (x & Hx & Ex). rewrite (select_error db w o x Hx); [contradiction|]. destruct (w x); congruence.
  - intros H. apply select_In in H; [apply H|]. now apply has_error_spec.
Qed.

(** Every list of logs that a search returns comes from the table. *)
Lemma search_incl db q r : In r (api_search opens stod db q) -> In r (rows db).
Proof.
  unfold api_search, getAllLogs, filterByFrequency, filterByLocation, filterByChannelName.
  destruct q as [|c q]; [|destruct (stod (c :: q))]; [| |intros [H|H]%merge_In; revert H];
    (destruct opens; cbn [negb]; [apply select_incl|contradiction]).
Qed.
Lemma advanced_incl db f l k s e logs r : advancedSearch opens stod stoll db f l k s e = Some logs -> In r logs -> In r (rows db).
Proof.
  unfold advancedSearch. destruct opens; cbn [negb]; [|intros [= <-]; contradiction].
  destruct (if match f with [] => false | _ => true end then _ else _) as [fr|]; [|discriminate].
  destruct (if _ && _ then _ else _) as [range|]; [|discriminate]. intros [= <-]. apply select_incl.
Qed.

Lemma fields_ok raw_key audio r : wf_log r -> Forall (fun kv => (Forall byte (fst kv) /\ well_formed (snd kv)) /\ levels (snd kv) = 0) (log_fields raw_key audio r).
Proof.
  intros (Ht & Hl & Hr & Hs & Hc & Ha). unfold log_fields. apply Forall_app.
  split; [|destruct audio; [|constructor]]; repeat (apply Forall_cons; [cbn [fst snd field well_formed levels];
    split; [split; [apply txt_bytes|first [exact I|assumption]]|reflexivity]|]); constructor.
Qed.

Lemma logs_json_ok raw_key audio logs : Forall wf_log logs -> well_formed (logs_json raw_key audio logs) /\ levels (logs_json raw_key audio logs) <= 2.
Proof.
  intros H. unfold logs_json. cbn [well_formed levels]. rewrite !map_map.
  assert (Ho : forall r, wf_log r -> well_formed (WObj (iteration (log_fields raw_key audio r))) /\ levels (WObj (iteration (log_fields raw_key audio r))) = 1).
  { intros r Hr. assert (Hf : Forall (fun kv => (Forall byte (fst kv) /\ well_formed (snd kv)) /\ levels (snd kv) = 0) (iteration (log_fields raw_key audio r)))
      by (eapply Permutation_Forall; [symmetry; apply iteration_perm|now apply fields_ok]).
    split; [apply well_formed_members|apply flat_levels]; (eapply Forall_impl; [|exact Hf]); intros kv Hkv; apply Hkv. }
  induction H as [|r logs Hr _ [IH1 IH2]]; cbn [map fold_right]; [split; [exact I|lia]|].
  destruct (Ho r Hr) as [H1 H2]. split; [now split|]. lia.
Qed.

Lemma written_readable w code : well_formed w -> levels w <= 5000 -> readable (makeCorsResponse w code).
Proof. intros H1 H2. left. exists (image fmt_g fmt_f w). now apply load_dump. Qed.

Lemma error_readable : readable server_error.
Proof. right. split; [now right|reflexivity]. Qed.

Lemma logs_readable raw_key audio logs code : Forall wf_log logs -> readable (makeCorsResponse (logs_json raw_key audio logs) code).
Proof. intros H. destruct (logs_json_ok raw_key audio logs H). apply written_readable; [assumption|lia]. Qed.

Lemma incl_wf db logs : wf_db db -> (forall r, In r logs -> In r (rows db)) -> Forall wf_log logs.
Proof. unfold wf_db. rewrite !Forall_forall. auto. Qed.

Lemma all_logs_incl db r : In r (getAllLogs opens db) -> In r (rows db).
Proof. unfold getAllLogs. destruct opens; [apply select_incl|contradiction]. Qed.
Lemma channel_incl db q r : In r (filterByChannelName opens db q) -> In r (rows db).
Proof. unfold filterByChannelName. destruct opens; [apply select_incl|contradiction]. Qed.

Lemma status_readable s code : readable (makeCorsResponse (status s) code).
Proof. apply written_readable; cbn; [|lia]. repeat split; repeat constructor; apply txt_bytes || discriminate. Qed.
Lemma failure_readable s code : readable (makeCorsResponse (failure s) code).
Proof. apply written_readable; cbn; [|lia]. repeat split; repeat constructor; apply txt_bytes || discriminate. Qed.

Lemma filter_Forall {A} (P : A -> Prop) f l : Forall P l -> Forall P (filter f l).
Proof. rewrite !Forall_forall. intros H x [Hx _]%filter_In. auto. Qed.

Lemma insert_wf db r : wf_db db -> wf_log r -> wf_db (insert_or_replace db r).
Proof.
  intros Hdb Hr. unfold wf_db. eapply Permutation_Forall; [symmetry; apply replace_rows|]. constructor; [exact Hr|].
  apply filter_Forall. exact Hdb.
Qed.

Lemma get_string_bytes x key s : typed x -> get_string x key = Some s -> Forall byte s.
Proof.
  unfold Gateway.get_string. destruct (index sort x (txt key)) as [v|] eqn:E; [|discriminate]. intros Hx. apply str_bytes. eapply index_typed; eassumption.
Qed.
Lemma get_integer_range x key t : get_integer x key = Some t -> is_i64 t.
Proof.
  unfold get_integer. destruct (index sort x (txt key)) as [v|]; [|discriminate]. destruct v; try discriminate; intros [= <-]; apply to_int64_range.
Qed.

Lemma save_body_wf x r : typed x -> save_body x = Some r -> wf_log r.
Proof.
  intros Hx. unfold save_body. destruct (get_number x "freq"); [|discriminate]. destruct (get_integer x "time") eqn:E1; [|discriminate].
  destruct (get_string x "location") eqn:E2; [|discriminate]. destruct (get_string x "rawT") eqn:E3; [|discriminate].
  destruct (get_string x "summary") eqn:E4; [|discriminate]. destruct (get_string x "channelName") eqn:E5; [|discriminate].
  intros [= <-]. repeat split; cbn [time location rawT summary channelName audioFilePath]; try (now apply (get_integer_range x "time"));
    try (eapply get_string_bytes; eassumption). repeat constructor; discriminate.
Qed.

Lemma seed_wf now db : 0 <= now < 2 ^ 62 -> wf_db db -> wf_db (seedDatabase now db).
Proof.
  intros Hn Hdb. unfold seedDatabase. destruct (getAllLogs opens db); [|exact Hdb]. destruct opens; [|exact Hdb].
  unfold seed_rows. cbn [fold_left].
  do 3 (apply insert_wf; [|repeat split; cbn [time location rawT summary channelName audioFilePath]; try apply txt_bytes; try lia; repeat constructor; discriminate]).
  exact Hdb.
Qed.

Lemma handle_typed req db : wf_request req -> wf_db db -> readable (fst (handle req db)) /\ wf_db (snd (handle req db)).
Proof.
  intros Hreq Hdb. destruct req as [|name|q|f l k s e|b|b| |now|]; cbn [handle fst snd wf_request] in *; try (split; [|exact Hdb]).
  - apply logs_readable. apply (incl_wf db); [exact Hdb|]. apply all_logs_incl.
  - unfold filter_channel. destruct (url_param name); [apply (logs_readable "rawT" false []); constructor|]. apply logs_readable, (incl_wf db); [exact Hdb|]. apply channel_incl.
  - apply logs_readable, (incl_wf db); [exact Hdb|]. apply search_incl.
  - unfold advanced. destruct (advancedSearch _ _ _ _ _ _ _ _ _) as [logs|] eqn:E; [|exact error_readable]. apply logs_readable, (incl_wf db); [exact Hdb|].
    intros r. apply (advanced_incl _ _ _ _ _ _ _ _ E).
  - unfold post_delete. destruct (load b) as [x|]; cbn [fst snd]; [|split; [apply failure_readable|exact Hdb]].
    destruct (let* f := _ in _) as [[[f t] loc]|]; cbn [fst snd]; [|split; [exact error_readable|exact Hdb]].
    unfold api_delete, removeLog. destruct opens; cbn [negb]; [|split; [apply failure_readable|exact Hdb]].
    set (w := fun r => Some _). destruct (delete_rows db w) as [P _]; [discriminate|]. destruct (delete db w) as [db' n]. cbn [fst snd] in P.
    assert (Hdb' : wf_db db') by (unfold wf_db; eapply Permutation_Forall; [symmetry; exact P|]; now apply filter_Forall).
    destruct (0 <? n); cbn [Z.eqb Pos.eqb fst snd]; (split; [|exact Hdb']); [apply status_readable|apply failure_readable].
  - unfold post_save. destruct (load b) as [x|] eqn:El; cbn [fst snd]; [|split; [apply failure_readable|exact Hdb]].
    destruct (save_body x) as [r|] eqn:Er; cbn [fst snd]; [|split; [exact error_readable|exact Hdb]]. split; [apply status_readable|].
    destruct (load_typed b x Hreq El) as [Hx _]. destruct (save_body_wf x r Hx Er) as (Ht & Hl & Hr & Hs & Hc & Ha).
    unfold api_save, insertLog. destruct opens; cbn [negb]; [|exact Hdb]. apply insert_wf; [exact Hdb|].
    repeat split; cbn [time location rawT summary channelName audioFilePath]; try apply Ht; auto using c_str_bytes. repeat constructor; discriminate.
  - split; [apply status_readable|]. unfold api_clear. destruct opens; [|exact Hdb]. unfold wf_db. rewrite recreate_rows. constructor.
  - split; [apply status_readable|]. now apply seed_wf.
  - apply (logs_readable "rawT" false []). constructor.
Qed.

(** C28: the log API is well typed.  Whatever requests arrive, in whatever
    order, with bodies that are any bytes, the table holds only well-formed
    rows (64-bit times, byte strings) when it did so before, and the text of
    every response is JSON that a client can read, whatever the strings in the
    rows hold, or, for status 400 and 500, the text of the status that the server
    fills in. *)
Theorem logs_api_typed reqs db : Forall wf_request reqs -> wf_db db ->
  Forall readable (fst (session reqs db)) /\ wf_db (snd (session reqs db)).
Proof.
  intros H. revert db. induction H as [|req reqs Hreq _ IH]; intros db Hdb; [split; [constructor|exact Hdb]|]. cbn [session].
  destruct (handle_typed req db Hreq Hdb) as [H1 H2]. destruct (handle req db) as [res db1]. cbn [fst snd] in H1, H2.
  destruct (IH db1 H2) as [H3 H4]. destruct (session reqs db1) as [rest db2]. cbn [fst snd] in *. split; [now constructor|exact H4].
Qed.

(** ** What a client sees *)

(** [item] shows the log [r]: each field is read back, the frequency as the
    number printed for it (see [Json.reads]). *)
Definition shows (item : rvalue) (r : RadioLog) : Prop :=
  (exists v, index sort item (txt "freq") = Some v /\ reads fmt_g fmt_f (WDouble (freq r)) v) /\
  index sort item (txt "time") = Some (JNum (to_string (time r))) /\
  get_string item "location" = Some (location r) /\ get_string item "name" = Some (channelName r) /\
  get_string item "summary" = Some (summary r) /\ get_string item "rawT" = Some (rawT r) /\
  get_string item "audioFilePath" = Some (audioFilePath r).

Lemma full_fields r : Forall (fun kv => Forall byte (fst kv)) (log_fields "rawT" true r) /\ NoDup (map fst (log_fields "rawT" true r)).
Proof.
  split; [unfold log_fields; cbn [app]; repeat (apply Forall_cons; [apply txt_bytes|]); apply Forall_nil|]. cbn [log_fields map fst field app].
  repeat constructor; vm_compute; intuition discriminate.
Qed.

Lemma log_shows r : wf_log r -> shows (image fmt_g fmt_f (WObj (iteration (log_fields "rawT" true r)))) r.
Proof.
  intros (_ & Hl & Hr & Hs & Hc & Ha). destruct (full_fields r) as [Hb Hd]. unfold shows, Gateway.get_string. cbn [image index].
  rewrite !(image_member fmt_g fmt_f sort iteration) by (exact Hb || exact Hd || apply txt_bytes).
  unfold log_fields. cbn [app]. find_field. cbn [option_map snd field image str]. rewrite !unescape_escape by assumption.
  split; [eexists; split; [reflexivity|exact (reads_image fmt_g fmt_f (WDouble (freq r)) I)]|]. repeat split.
Qed.

Lemma get_logs_shows db : wf_db db ->
  exists items, load (dump fmt_g fmt_f (logs_json "rawT" true (getAllLogs opens db))) = Some (JList items) /\ Forall2 shows items (getAllLogs opens db).
Proof.
  intros Hdb. assert (Hw : Forall wf_log (getAllLogs opens db)) by (apply (incl_wf db); [exact Hdb|apply all_logs_incl]).
  destruct (logs_json_ok "rawT" true _ Hw) as [H1 H2].
  exists (map (image fmt_g fmt_f) (map (fun r => WObj (iteration (log_fields "rawT" true r))) (getAllLogs opens db))).
  split; [apply (load_dump fmt_g fmt_f (logs_json "rawT" true (getAllLogs opens db))); [exact H1|lia]|].
  rewrite map_map. clear H1 H2. induction Hw as [|r logs Hr _ IH]; cbn [map]; constructor; [now apply log_shows|exact IH].
Qed.

End Api.

Section SaveAndList.
Context {S : Sql} {L : SqlLaws S}.
Variables fmt_g fmt_f : double -> text.
Variable to_double : text -> double.
Variable to_int64 : text -> Z.
Variable sort : list (text * rvalue) -> list (text * rvalue).
Variable iteration : list (text * wvalue) -> list (text * wvalue).
Context `{!PrintedNumber fmt_g} `{!PrintedNumber fmt_f} `{!KeySort sort} `{!Iteration iteration}.
Hypothesis to_int64_range : forall t, is_i64 (to_int64 t).

(** What is stored of a log: each text up to its first null byte. *)
Definition stored_log (r : RadioLog) : RadioLog :=
  mkLog (freq r) (time r) (c_str (location r)) (c_str (rawT r)) (c_str (summary r)) (c_str (channelName r)) default_audio.

(** C4: saving a log over HTTP and listing the logs.  A request with a complete
    body is answered 200; the text of the next answer of [/api/logs] is read
    as a list with one item per row, newest first, in which the time and every
    text of the row are read back, and the frequency as the number printed for it
    (the same value, unless the writer cuts zeros off its exponent; null for what
    is not finite); and the rows are the saved log and those that were there
    before, except one with the same frequency, time and location. *)
Theorem http_save_list req x r db : Forall byte req -> load req = Some x -> save_body to_double to_int64 sort x = Some r -> wf_db db ->
  let '(res, db') := post_save true to_double to_int64 sort req db in
  let logs := getAllLogs true db' in
  res = makeCorsResponse (status "success") 200 /\
  (exists items, load (dump fmt_g fmt_f (logs_json iteration "rawT" true logs)) = Some (JList items) /\ Forall2 (shows fmt_g fmt_f sort) items logs) /\
  Permutation logs (stored_log r :: filter (fun y => negb (same_key (stored_log r) y)) (getAllLogs true db)) /\
  StronglySorted (ordered ByTimeDesc) logs.
Proof.
  intros Hb El Er Hdb. unfold post_save. rewrite El, Er. cbn zeta. split; [reflexivity|].
  assert (Hdb' : wf_db (api_save true db (freq r) (time r) (location r) (rawT r) (summary r) (channelName r))).
  { destruct (load_typed req x Hb El) as [Hx _]. destruct (save_body_wf to_double to_int64 sort to_int64_range x r Hx Er) as (Ht & Hl & Hr & Hs & Hc & Ha).
    unfold api_save, insertLog. cbn [negb]. apply insert_wf; [exact Hdb|].
    repeat split; cbn [time location rawT summary channelName audioFilePath]; try apply Ht; auto using c_str_bytes. repeat constructor; discriminate. }
  split; [now apply get_logs_shows|]. apply save_listed.
Qed.

End SaveAndList.

(** ** A session *)

Definition demo_save : text :=
  quoted "{'freq': 0.5, 'time': 7, 'location': 'Hill', 'rawT': 'a\nb', 'summary': '', 'channelName': 'X'}".
Definition demo_to_int64 (t : text) : Z := 7.
Lemma demo_range : forall t, is_i64 (demo_to_int64 t).
Proof. intros t. unfold demo_to_int64, is_i64. lia. Qed.

Lemma logs_api_typed_witness :
  Forall (readable demo_fmt demo_fmt) (fst (session (S := list_sql) true demo_to_double demo_to_int64 (fun _ => None) (fun _ => None) insertion_sort
    (fun o => o) [PostSave demo_save; Seed 100; GetLogs; PostDelete [0]; Clear] [])).
Proof.
  assert (Hr : Forall wf_request [PostSave demo_save; Seed 100; GetLogs; PostDelete [0]; Clear])
    by (repeat constructor; cbn; discriminate).
  assert (Hdb : wf_db (S := list_sql) []) by constructor.
  apply (logs_api_typed (S := list_sql) true demo_fmt demo_fmt demo_to_double demo_to_int64 (fun _ => None) (fun _ => None) insertion_sort (fun o => o)
    demo_range _ _ Hr Hdb).
Defined.

Definition demo_saved : RadioLog := mkLog (S754_finite false 1 (-1)) 7 (txt "Hill") [97; 10; 98] [] (txt "X") default_audio.
Lemma http_save_list_witness :
  let '(res, db') := post_save (S := list_sql) true demo_to_double demo_to_int64 insertion_sort demo_save [] in
  let logs := getAllLogs true db' in
  res = makeCorsResponse (status "success") 200 /\ Permutation logs [stored_log demo_saved].
Proof.
  assert (Hb : Forall byte demo_save) by (vm_compute; repeat constructor; discriminate).
  assert (Hdb : wf_db (S := list_sql) []) by constructor.
  destruct (load demo_save) as [x|] eqn:El; [|discriminate El].
  assert (Er : save_body demo_to_double demo_to_int64 insertion_sort x = Some demo_saved) by (vm_compute in El; injection El as <-; vm_compute; reflexivity).
  pose proof (http_save_list (S := list_sql) demo_fmt demo_fmt demo_to_double demo_to_int64 insertion_sort (fun o => o) demo_range demo_save x demo_saved [] Hb El Er Hdb) as H.
  destruct (post_save _ _ _ _ _ _) as [res db']. destruct H as (H1 & _ & H3 & _). exact (conj H1 H3).
Defined.
