(* ===== verification/Agent.v ===== *)
(** * Agent: the database agent

    Models the [/api/agent/chat] handler of [src/api-core/src/main.cpp]: the
    conversation is sent to OpenAI with a description of the search tool, the
    searches it asks for are run on the log database, and their results are
    sent in a second request, whose answer is returned.

    [openai] is [callOpenAI]: the text of an answer, given the texts of the
    requests so far, the last one included.  A handler gives the texts it sent
    and its response; [None] inside is an exception.  [apiKey] is the value of
    the environment variable. *)

From Stdlib Require Import String.
From Stdlib Require Import ZArith List Lia Bool SpecFloat Permutation Sorted.
Import ListNotations.
From S2P Require Import Prelude Json JsonTypes RadioDb Gateway LogsApi.
#[local] Open Scope Z_scope.
#[local] Open Scope ag_scope.

(** ** Values *)

(** What a range-based [for] visits; it throws on a value that is no container. *)
Definition children (v : rvalue) : option (list rvalue) :=
  match v with JList l => Some l | JObj o => Some (map snd o) | _ => None end.
Fixpoint traverse {A B} (f : A -> option B) (l : list A) : option (list B) :=
  match l with
  | [] => Some []
  | a :: l' => let* b := f a in let* bs := traverse f l' in Some (b :: bs)
  end.

Record ToolCall := mkCall { call_id : text; call_type : text; call_name : text; call_arguments : text }.

Definition system_prompt : text :=
  txt "You are the AetherGuard Database Agent, a strict, highly analytical radio intelligence assistant. Your SOLE purpose is to query the SQLite database to answer questions about intercepted radio transmissions. " ++ [10; 10] ++
  txt "CRITICAL RULE: You are completely forbidden from answering general knowledge questions, giving lifestyle advice, or discussing topics outside the AetherGuard database. If a user asks an unrelated question (e.g., restaurants, weather, general trivia) or a question you cannot answer using your database search tools, do not use your general knowledge. You MUST reply exactly with: 'This query is outside my operational scope. I can only provide intelligence based on intercepted radio logs.'".

Definition no_results : text := txt "No results found.".
Definition is_search (name : text) : bool :=
  (if list_eq_dec Z.eq_dec name (txt "searchDatabase") then true else false) ||
  (if list_eq_dec Z.eq_dec name (txt "searchDatabaseKeywords") then true else false).

Section Agent.
Context {S : Sql}.
Variable opens : bool.
Variables fmt_g fmt_f : double -> text.
Variable stod : text -> option double.
Variable stoll : text -> option Z.
Variable sort : list (text * rvalue) -> list (text * rvalue).
Variable iteration : list (text * wvalue) -> list (text * wvalue).
Variable apiKey : text.
Variable openai : list text -> text.
Abbreviation dump := (dump fmt_g fmt_f).
Abbreviation get_string := (get_string sort).

Definition obj (o : list (text * wvalue)) : wvalue := WObj (iteration o).
Definition sfield (k : string) (s : text) : text * wvalue := field k (WStr s).

(** ** The first request *)

Definition parameter (description : string) : wvalue := obj [sfield "type" (txt "string"); sfield "description" (txt description)].
Definition tool : wvalue :=
  obj [sfield "type" (txt "function");
       field "function" (obj [sfield "name" (txt "searchDatabase");
         sfield "description" (txt "Search the intercepted radio database by frequency or keyword. Use this to find any requested logs.");
         field "parameters" (obj [sfield "type" (txt "object");
           field "properties" (obj [field "freq" (parameter "Frequency in MHz (e.g. '154.280')");
             field "keyword" (parameter "Keyword to search in summaries or raw text")])])])].
Definition message (role content : text) : wvalue := obj [sfield "role" role; sfield "content" content].
Definition system_message : wvalue := message (txt "system") system_prompt.
Definition user_message (msg : rvalue) : option wvalue :=
  let* role := get_string msg "role" in let* content := get_string msg "content" in Some (message role content).
Definition conversation (body : rvalue) : option (list wvalue) :=
  let* ms := index sort body (txt "messages") in let* l := children ms in traverse user_message l.
Definition first_payload (ms : list wvalue) : wvalue :=
  obj [sfield "model" (txt "gpt-4o-mini"); field "tools" (WList [tool]); sfield "tool_choice" (txt "auto");
       field "messages" (WList (system_message :: ms))].

(** ** Tool calls *)

Definition tool_call (tc : rvalue) : option ToolCall :=
  let* id := get_string tc "id" in let* type := get_string tc "type" in
  let* f := index sort tc (txt "function") in
  let* name := get_string f "name" in let* arguments := get_string f "arguments" in
  Some (mkCall id type name arguments).
Definition tool_calls (message : rvalue) : option (list ToolCall) :=
  let* tcs := index sort message (txt "tool_calls") in let* l := children tcs in traverse tool_call l.

Definition log_line (log : RadioLog) : text :=
  txt "- [" ++ to_string (time log) ++ txt "] " ++ channelName log ++ txt " (" ++ fmt_f (freq log) ++ txt " MHz): " ++ summary log ++ [10].
Definition report (logs : list RadioLog) : text :=
  match logs with
  | [] => no_results
  | _ => txt "Found " ++ to_string (Z.of_nat (len logs)) ++ txt " logs:" ++ [10] ++ concat (map log_line (firstn 10 logs))
  end.

(** [if (args.has(key)) value = args[key].s();] *)
Definition optional_string (args : rvalue) (key : string) : option text :=
  let* given := has sort args (txt key) in if given then get_string args key else Some [].
Definition run_tool (db : DB) (tc : ToolCall) : option text :=
  if is_search (call_name tc) then
    let* args := load (call_arguments tc) in
    let* f := optional_string args "freq" in
    let* keyword := optional_string args "keyword" in
    let* logs := advancedSearch opens stod stoll db f [] keyword [] [] in
    Some (report logs)
  else Some no_results.

(** ** The second request *)

Definition call_json (tc : ToolCall) : wvalue :=
  obj [sfield "id" (call_id tc); sfield "type" (call_type tc);
       field "function" (obj [sfield "name" (call_name tc); sfield "arguments" (call_arguments tc)])].
Definition assistant_message (calls : list ToolCall) : wvalue :=
  obj [sfield "role" (txt "assistant"); field "tool_calls" (WList (map call_json calls))].
Definition tool_message (tc : ToolCall) (result : text) : wvalue :=
  obj [sfield "role" (txt "tool"); sfield "tool_call_id" (call_id tc); sfield "content" result].
Definition tool_messages (calls : list ToolCall) (results : list text) : list wvalue :=
  map (fun p => tool_message (fst p) (snd p)) (combine calls results).
Definition second_payload (ms : list wvalue) (calls : list ToolCall) (results : list text) : wvalue :=
  obj [sfield "model" (txt "gpt-4o-mini");
       field "messages" (WList (system_message :: ms ++ assistant_message calls :: tool_messages calls results))].

(** ** The handler *)

Definition say (key s : string) : Response := makeCorsResponse (WObj [sfield key (txt s)]) 200.
Definition answer (t : text) : Response := makeCorsResponse (WObj [sfield "answer" t]) 200.
(** [json["choices"][0]["message"]] *)
Definition choice (v : rvalue) : option rvalue :=
  let* cs := index sort v (txt "choices") in let* c := at_index cs 0 in index sort c (txt "message").

Definition second_call (ms : list wvalue) (calls : list ToolCall) (results : list text) (p1 : text) : list text * Response :=
  let p2 := dump (second_payload ms calls results) in
  let sent := [p1; p2] in
  match load (openai sent) with
  | None => (sent, say "answer" "Error: OpenAI second API failure.")
  | Some final =>
      match has sort final (txt "choices") with
      | None => (sent, server_error)
      | Some false => (sent, say "answer" "Error: OpenAI second API failure.")
      | Some true => (sent, match (let* m := choice final in get_string m "content") with Some t => answer t | None => server_error end)
      end
  end.

Definition chat (req : text) (db : DB) : list text * Response :=
  match load req with
  | None => ([], say "error" "Invalid JSON")
  | Some body =>
      match apiKey with
      | [] => ([], say "error" "OpenAI API key missing")
      | _ =>
          match conversation body with
          | None => ([], server_error)
          | Some ms =>
              let p1 := dump (first_payload ms) in
              match load (openai [p1]) with
              | None => ([p1], say "answer" "Error: OpenAI API failure.")
              | Some first =>
                  match has sort first (txt "choices") with
                  | None => ([p1], server_error)
                  | Some false => ([p1], say "answer" "Error: OpenAI API failure.")
                  | Some true =>
                      match choice first with
                      | None => ([p1], server_error)
                      | Some messageNode =>
                          match has sort messageNode (txt "tool_calls") with
                          | None => ([p1], server_error)
                          | Some true =>
                              match (let* calls := tool_calls messageNode in let* results := traverse (run_tool db) calls in Some (calls, results)) with
                              | None => ([p1], server_error)
                              | Some (calls, results) => second_call ms calls results p1
                              end
                          | Some false =>
                              ([p1], match get_string messageNode "content" with Some t => answer t | None => server_error end)
                          end
                      end
                  end
              end
          end
      end
  end.

(** ** Requests that OpenAI can read *)

Context {L : SqlLaws S} `{!PrintedNumber fmt_g} `{!PrintedNumber fmt_f} `{!KeySort sort} `{!Iteration iteration}.
Hypothesis fmt_f_bytes : forall d, Forall byte (fmt_f d).

(** A value that can be written and read, nested at most [n] deep. *)
Definition fine (n : Z) (w : wvalue) : Prop := well_formed w /\ levels w <= n.
Definition fine_member (n : Z) (kv : text * wvalue) : Prop := Forall byte (fst kv) /\ fine n (snd kv).

Lemma fine_mono n n' w : n <= n' -> fine n w -> fine n' w.
Proof. intros H [? ?]. split; [assumption|lia]. Qed.
Lemma fine_str n s : 0 <= n -> Forall byte s -> fine n (WStr s).
Proof. intros Hn H. split; [exact H|exact Hn]. Qed.
Lemma sfield_fine n k s : 0 <= n -> Forall byte s -> fine_member n (sfield k s).
Proof. intros Hn H. split; [apply txt_bytes|now apply fine_str]. Qed.
Lemma field_fine n k w : fine n w -> fine_member n (field k w).
Proof. intros H. split; [apply txt_bytes|exact H]. Qed.

Lemma list_fine n l : 0 <= n -> Forall (fine n) l -> fine (n + 1) (WList l).
Proof.
  intros Hn H. unfold fine. cbn [well_formed levels]. induction H as [|w l [H1 H2] _ [IH1 IH2]]; cbn [map fold_right]; [split; [exact I|lia]|].
  split; [now split|lia].
Qed.
Lemma obj_fine n o : 0 <= n -> Forall (fine_member n) o -> fine (n + 1) (obj o).
Proof.
  intros Hn H. assert (H' : Forall (fine_member n) (iteration o)) by (eapply Permutation_Forall; [symmetry; apply iteration_perm|exact H]).
  unfold fine, obj. cbn [well_formed levels]. induction H' as [|kv l (H0 & H1 & H2) _ [IH1 IH2]]; cbn [map fold_right]; [split; [exact I|lia]|].
  split; [now repeat split|lia].
Qed.

Lemma fine_load n w : n <= 5000 -> fine n w -> load (dump w) = Some (image fmt_g fmt_f w).
Proof. intros Hn [H1 H2]. apply (load_dump fmt_g fmt_f); [exact H1|lia]. Qed.

Create HintDb fine.
#[local] Hint Resolve sfield_fine field_fine txt_bytes : fine.
Ltac fine_object := apply obj_fine; [lia|]; repeat (apply Forall_cons; [solve [auto with fine zarith]|]); try apply Forall_nil.

Lemma message_fine role content : Forall byte role -> Forall byte content -> fine 1 (message role content).
Proof. intros H1 H2. change 1 with (0 + 1). unfold message. fine_object. Qed.

Lemma system_prompt_bytes : Forall byte system_prompt.
Proof. unfold system_prompt. repeat (apply Forall_app; split); try apply txt_bytes. repeat constructor; discriminate. Qed.

Lemma parameter_fine d : fine 1 (parameter d).
Proof. change 1 with (0 + 1). unfold parameter. fine_object. Qed.
Lemma tool_fine : fine 5 tool.
Proof.
  assert (H2 : fine 2 (obj [field "freq" (parameter "Frequency in MHz (e.g. '154.280')"); field "keyword" (parameter "Keyword to search in summaries or raw text")])).
  { change 2 with (1 + 1). apply obj_fine; [lia|]. repeat (apply Forall_cons; [apply field_fine, parameter_fine|]). constructor. }
  unfold tool. apply (obj_fine 4); [lia|]. apply Forall_cons; [auto with fine zarith|]. apply Forall_cons; [|constructor].
  apply field_fine, (obj_fine 3); [lia|]. do 2 (apply Forall_cons; [auto with fine zarith|]). apply Forall_cons; [|constructor].
  apply field_fine, (obj_fine 2); [lia|]. apply Forall_cons; [auto with fine zarith|]. apply Forall_cons; [|constructor]. apply field_fine, H2.
Qed.

(** ** What is read of the request and of the answers *)

Lemma traverse_Forall {A B} (f : A -> option B) (P : A -> Prop) (Q : B -> Prop) l bs :
  (forall a b, P a -> f a = Some b -> Q b) -> Forall P l -> traverse f l = Some bs -> Forall Q bs.
Proof.
  intros Hf H. revert bs. induction H as [|a l Ha _ IH]; intros bs; cbn [traverse]; [intros [= <-]; constructor|].
  destruct (f a) as [b|] eqn:E; [|discriminate]. destruct (traverse f l) as [bs'|]; [|discriminate]. intros [= <-]. constructor; eauto.
Qed.
Lemma traverse_Forall2 {A B} (f : A -> option B) l bs : traverse f l = Some bs -> Forall2 (fun a b => f a = Some b) l bs.
Proof.
  revert bs. induction l as [|a l IH]; intros bs; cbn [traverse]; [intros [= <-]; constructor|].
  destruct (f a) as [b|] eqn:E; [|discriminate]. destruct (traverse f l) as [bs'|]; [|discriminate]. intros [= <-]. constructor; auto.
Qed.
Lemma traverse_map {A B} (f : A -> option B) (g : B -> A) l : Forall (fun b => f (g b) = Some b) l -> traverse f (map g l) = Some l.
Proof. induction 1 as [|b l Hb _ IH]; cbn [map traverse]; [reflexivity|]. now rewrite Hb, IH. Qed.

Lemma children_typed v l : typed v -> children v = Some l -> Forall typed l.
Proof.
  destruct 1 as [| | | | |l' H|o H]; try discriminate; intros [= <-]; [exact H|]. apply Forall_map. eapply Forall_impl; [|exact H]. intros kv Hkv. apply Hkv.
Qed.
Lemma get_bytes v k s : typed v -> get_string v k = Some s -> Forall byte s.
Proof. exact (get_string_bytes sort v k s). Qed.

(** A user message is a message of bytes. *)
Definition chat_message (w : wvalue) : Prop := exists role content, w = message role content /\ Forall byte role /\ Forall byte content.
Lemma chat_message_fine w : chat_message w -> fine 1 w.
Proof. intros (role & content & -> & H1 & H2). now apply message_fine. Qed.

Lemma user_message_chat v w : typed v -> user_message v = Some w -> chat_message w.
Proof.
  intros Hv. unfold user_message. destruct (get_string v "role") as [role|] eqn:E1; [|discriminate].
  destruct (get_string v "content") as [content|] eqn:E2; [|discriminate]. intros [= <-]. exists role, content. eauto using get_bytes.
Qed.
Lemma conversation_chat body ms : typed body -> conversation body = Some ms -> Forall chat_message ms.
Proof.
  intros Hb. unfold conversation. destruct (index sort body (txt "messages")) as [v|] eqn:E; [|discriminate].
  destruct (children v) as [l|] eqn:El; [|discriminate]. apply traverse_Forall with (P := typed); [apply user_message_chat|].
  eapply children_typed; [eapply index_typed; eassumption|exact El].
Qed.

Definition call_bytes (tc : ToolCall) : Prop :=
  Forall byte (call_id tc) /\ Forall byte (call_type tc) /\ Forall byte (call_name tc) /\ Forall byte (call_arguments tc).
Lemma tool_call_bytes v tc : typed v -> tool_call v = Some tc -> call_bytes tc.
Proof.
  intros Hv. unfold tool_call. destruct (get_string v "id") eqn:E1; [|discriminate]. destruct (get_string v "type") eqn:E2; [|discriminate].
  destruct (index sort v (txt "function")) as [f|] eqn:E3; [|discriminate]. destruct (get_string f "name") eqn:E4; [|discriminate].
  destruct (get_string f "arguments") eqn:E5; [|discriminate]. intros [= <-]. assert (Hf : typed f) by (eapply index_typed; eassumption).
  repeat split; cbn; eauto using get_bytes.
Qed.
Lemma tool_calls_bytes v calls : typed v -> tool_calls v = Some calls -> Forall call_bytes calls.
Proof.
  intros Hv. unfold tool_calls. destruct (index sort v (txt "tool_calls")) as [u|] eqn:E; [|discriminate].
  destruct (children u) as [l|] eqn:El; [|discriminate]. apply traverse_Forall with (P := typed); [apply tool_call_bytes|].
  eapply children_typed; [eapply index_typed; eassumption|exact El].
Qed.
Lemma choice_typed v m : typed v -> choice v = Some m -> typed m.
Proof.
  intros Hv. unfold choice. destruct (index sort v (txt "choices")) as [cs|] eqn:E; [|discriminate].
  destruct (at_index cs 0) as [c|] eqn:Ec; [|discriminate]. apply (index_typed sort).
  assert (Hcs : typed cs) by (eapply index_typed; eassumption). destruct cs as [| | | | |l|]; try discriminate Ec. cbn [at_index] in Ec.
  destruct (_ || _); [discriminate|]. apply nth_error_In in Ec. inversion Hcs as [| | | | |? Hl|]; subst. rewrite Forall_forall in Hl. auto.
Qed.

(** ** Reports *)

Lemma to_string_bytes z : - 2 ^ 63 <= z < 2 ^ 64 -> Forall byte (to_string z).
Proof.
  intros Hz. assert (H : json_number (to_string z)) by (apply to_string_number; lia).
  destruct H as (neg & ip & fp & ex & -> & Hip & Hfp & Hx & _). assert (Hd : forall ds, digits ds -> Forall byte ds).
  { intros ds. apply Forall_impl. intros c. unfold is_digit, byte. rewrite andb_true_iff, !Z.leb_le. lia. }
  unfold number_text. repeat (apply Forall_app; split).
  - destruct neg; repeat constructor; discriminate.
  - now apply Hd, integer_part_digits.
  - destruct fp; [constructor; [unfold byte; lia|now apply Hd]|constructor].
  - destruct ex as [[sign ds]|]; [|constructor]. destruct Hx as [Hs Hds]. constructor; [unfold byte; lia|]. constructor; [unfold byte; lia|now apply Hd].
Qed.

Lemma report_bytes logs : Z.of_nat (len logs) < 2 ^ 64 -> Forall wf_log logs -> Forall byte (report logs).
Proof.
  intros Hn H. assert (Hc : Forall byte (concat (map log_line (firstn 10 logs)))).
  { assert (H10 : Forall wf_log (firstn 10 logs)) by (rewrite <- (firstn_skipn 10 logs) in H; now apply Forall_app in H).
    induction H10 as [|r l (Ht & Hl & Hr & Hs & Hch & _) _ IH]; [constructor|]. cbn [map List.concat]. apply Forall_app. split; [|exact IH].
    unfold log_line. repeat (apply Forall_app; split); try apply txt_bytes; auto; [|repeat constructor; discriminate].
    apply to_string_bytes. unfold is_i64 in Ht. lia. }
  unfold report. destruct logs; [apply txt_bytes|].
  apply Forall_app; split; [apply txt_bytes|]. apply Forall_app; split; [apply to_string_bytes; lia|].
  apply Forall_app; split; [apply txt_bytes|]. apply Forall_app; split; [repeat constructor; discriminate|exact Hc].
Qed.

(** A table that fits in memory. *)
Definition small_db (db : DB) : Prop := Z.of_nat (len (rows db)) < 2 ^ 64.

Lemma select_length db w o : (len (select db w o) <= len (rows db))%nat.
Proof.
  destruct (has_error w (rows db)) eqn:E.
  - unfold has_error in E. apply existsb_exists in E as (x & Hx & Ex). rewrite (select_error db w o x Hx); [cbn [List.length]; lia|]. destruct (w x); congruence.
  - apply has_error_spec in E. rewrite (Permutation_length (select_rows db w o E)). apply filter_length_le.
Qed.

Lemma advanced_length db f l k s e logs : advancedSearch opens stod stoll db f l k s e = Some logs -> (len logs <= len (rows db))%nat.
Proof.
  unfold advancedSearch. destruct opens; cbn [negb]; [|intros [= <-]; cbn [List.length]; lia].
  destruct (if match f with [] => false | _ => true end then _ else _) as [fr|]; [|discriminate].
  destruct (if _ && _ then _ else _) as [range|]; [|discriminate]. intros [= <-]. apply select_length.
Qed.

(** What a tool call is answered: a search reports stored logs, found by its
    arguments. *)
Definition tool_answer (db : DB) (tc : ToolCall) (t : text) : Prop :=
  if is_search (call_name tc) then
    exists args f keyword logs, load (call_arguments tc) = Some args /\ optional_string args "freq" = Some f /\
      optional_string args "keyword" = Some keyword /\ advancedSearch opens stod stoll db f [] keyword [] [] = Some logs /\
      (forall r, In r logs -> In r (rows db)) /\ t = report logs
  else t = no_results.

Lemma run_tool_answer db tc t : run_tool db tc = Some t -> tool_answer db tc t.
Proof.
  unfold run_tool, tool_answer. destruct (is_search (call_name tc)); [|now intros [= <-]].
  destruct (load (call_arguments tc)) as [args|]; [|discriminate]. destruct (optional_string args "freq") as [f|] eqn:Ef; [|discriminate].
  destruct (optional_string args "keyword") as [k|] eqn:Ek; [|discriminate]. destruct (advancedSearch _ _ _ _ _ _ _ _ _) as [logs|] eqn:E; [|discriminate].
  intros [= <-]. exists args, f, k, logs. repeat split; auto. intros r. apply (advanced_incl _ _ _ _ _ _ _ _ _ _ _ E).
Qed.

Lemma run_tool_bytes db tc t : wf_db db -> small_db db -> run_tool db tc = Some t -> Forall byte t.
Proof.
  intros Hdb Hs H%run_tool_answer. unfold tool_answer in H. destruct (is_search (call_name tc)); [|subst; apply txt_bytes].
  destruct H as (args & f & k & logs & _ & _ & _ & E & Hin & ->). apply report_bytes.
  - apply advanced_length in E. unfold small_db in Hs. lia.
  - apply (incl_wf db); auto.
Qed.

Lemma results_bytes db calls results : wf_db db -> small_db db -> Forall2 (fun tc t => run_tool db tc = Some t) calls results -> Forall (Forall byte) results.
Proof. intros Hdb Hs. induction 1 as [|tc t ? ? Ht _ IH]; constructor; [now apply (run_tool_bytes db tc)|exact IH]. Qed.

(** ** The two requests *)

Lemma system_fine : fine 1 system_message.
Proof. apply message_fine; [apply txt_bytes|exact system_prompt_bytes]. Qed.

Lemma first_fine ms : Forall chat_message ms -> fine 7 (first_payload ms).
Proof.
  intros H. unfold first_payload. apply (obj_fine 6); [lia|]. apply Forall_cons; [auto with fine zarith|].
  apply Forall_cons; [apply field_fine, (list_fine 5); [lia|]; constructor; [exact tool_fine|constructor]|]. apply Forall_cons; [auto with fine zarith|].
  apply Forall_cons; [|constructor]. apply field_fine, (list_fine 5); [lia|]. constructor; [apply (fine_mono 1); [lia|exact system_fine]|].
  eapply Forall_impl; [|exact H]. intros w Hw. apply (fine_mono 1); [lia|now apply chat_message_fine].
Qed.

Lemma call_fine tc : call_bytes tc -> fine 2 (call_json tc).
Proof.
  intros (H1 & H2 & H3 & H4). unfold call_json. apply (obj_fine 1); [lia|]. do 2 (apply Forall_cons; [auto with fine zarith|]).
  apply Forall_cons; [|constructor]. apply field_fine. apply (obj_fine 0); [lia|]. do 2 (apply Forall_cons; [auto with fine zarith|]). constructor.
Qed.
Lemma assistant_fine calls : Forall call_bytes calls -> fine 4 (assistant_message calls).
Proof.
  intros H. unfold assistant_message. apply (obj_fine 3); [lia|]. apply Forall_cons; [auto with fine zarith|]. apply Forall_cons; [|constructor].
  apply field_fine, (list_fine 2); [lia|]. apply Forall_map. eapply Forall_impl; [|exact H]. exact call_fine.
Qed.
Lemma tool_messages_fine calls results : Forall call_bytes calls -> Forall (Forall byte) results -> Forall (fine 1) (tool_messages calls results).
Proof.
  intros H. unfold tool_messages. revert results. induction H as [|tc calls (H1 & _) _ IH]; intros results Hr; [constructor|].
  destruct Hr as [|t results Ht Hr]; cbn [combine map]; constructor; [|now apply IH].
  unfold tool_message. apply (obj_fine 0); [lia|]. cbn [fst snd]. do 3 (apply Forall_cons; [auto with fine zarith|]). constructor.
Qed.
Lemma second_fine ms calls results : Forall chat_message ms -> Forall call_bytes calls -> Forall (Forall byte) results -> fine 6 (second_payload ms calls results).
Proof.
  intros Hm Hc Hr. unfold second_payload. apply (obj_fine 5); [lia|]. apply Forall_cons; [auto with fine zarith|]. apply Forall_cons; [|constructor].
  apply field_fine, (list_fine 4); [lia|]. constructor; [apply (fine_mono 1); [lia|exact system_fine]|]. apply Forall_app. split.
  - eapply Forall_impl; [|exact Hm]. intros w Hw. apply (fine_mono 1); [lia|now apply chat_message_fine].
  - constructor; [now apply assistant_fine|]. eapply Forall_impl; [|apply tool_messages_fine; eassumption]. intros w. apply fine_mono. lia.
Qed.

(** ** Reading the second request *)

Abbreviation image := (image fmt_g fmt_f).
Ltac distinct_keys := cbn [map fst field sfield]; repeat constructor; vm_compute; intuition discriminate.
Lemma obj_index o k : Forall (fun kv => Forall byte (fst kv)) o -> NoDup (map fst o) ->
  index sort (image (obj o)) (txt k) = option_map image (option_map snd (find (fun m => key_equal (fst m) (txt k)) o)).
Proof. intros Hb Hd. apply (image_member fmt_g fmt_f sort iteration o); [exact Hb|exact Hd|apply txt_bytes]. Qed.
Ltac read_object := rewrite obj_index by first [solve [repeat (apply Forall_cons; [apply txt_bytes|]); apply Forall_nil] | distinct_keys];
  unfold sfield; find_field; cbn [option_map snd field].

Lemma get_image_str v k s : index sort v (txt k) = Some (image (WStr s)) -> Forall byte s -> get_string v k = Some s.
Proof. intros E Hs. unfold Gateway.get_string. rewrite E. cbn [Json.image str]. now rewrite unescape_escape. Qed.

Lemma read_message w : chat_message w -> user_message (image w) = Some w.
Proof.
  intros (role & content & -> & H1 & H2). unfold user_message. unfold message at 1 2.
  rewrite (get_image_str _ "role" role), (get_image_str _ "content" content) by (assumption || (read_object; reflexivity)). reflexivity.
Qed.

Lemma read_call tc : call_bytes tc -> tool_call (image (call_json tc)) = Some tc.
Proof.
  intros (H1 & H2 & H3 & H4). unfold tool_call, call_json.
  rewrite (get_image_str _ "id" (call_id tc)), (get_image_str _ "type" (call_type tc)) by (assumption || (read_object; reflexivity)).
  replace (index sort _ (txt "function")) with (Some (image (obj [sfield "name" (call_name tc); sfield "arguments" (call_arguments tc)])))
    by (symmetry; read_object; reflexivity).
  rewrite (get_image_str _ "name" (call_name tc)), (get_image_str _ "arguments" (call_arguments tc)) by (assumption || (read_object; reflexivity)).
  now destruct tc.
Qed.

(** The message that answers a tool call. *)
Definition answered (db : DB) (tc : ToolCall) (m : rvalue) : Prop :=
  get_string m "role" = Some (txt "tool") /\ get_string m "tool_call_id" = Some (call_id tc) /\
  exists t, get_string m "content" = Some t /\ tool_answer db tc t.

Lemma read_tool_message db tc t : call_bytes tc -> Forall byte t -> tool_answer db tc t -> answered db tc (image (tool_message tc t)).
Proof.
  intros (H1 & _) Ht Ha. unfold answered, tool_message.
  rewrite (get_image_str _ "role" (txt "tool")), (get_image_str _ "tool_call_id" (call_id tc)), (get_image_str _ "content" t)
    by (assumption || apply txt_bytes || (read_object; reflexivity)).
  repeat split. now exists t.
Qed.

Lemma read_tool_messages db calls results : wf_db db -> small_db db -> Forall call_bytes calls -> Forall2 (fun tc t => run_tool db tc = Some t) calls results ->
  Forall2 (answered db) calls (map image (tool_messages calls results)).
Proof.
  intros Hdb Hs Hc H. induction H as [|tc t calls results Ht _ IH]; [constructor|]. inversion Hc; subst. cbn [tool_messages combine map].
  constructor; [|now apply IH]. apply read_tool_message; [assumption|now apply (run_tool_bytes db tc)|now apply run_tool_answer].
Qed.

(** C5: the agent's protocol.  When OpenAI asks for tools, the handler sends a
    second request which is read as: the system message, the user's messages
    unchanged, the assistant's message with exactly the calls that were asked
    for, and then one tool message per call, in order, each with the id of its
    call.  The content for a search reports the logs that the database has for
    the arguments given, and only stored logs; a call of an unknown tool is
    told that there are no results. *)
Theorem agent_protocol req body ms first node calls results db :
  Forall byte req -> Forall byte (openai [dump (first_payload ms)]) -> wf_db db -> small_db db -> apiKey <> [] ->
  load req = Some body -> conversation body = Some ms ->
  load (openai [dump (first_payload ms)]) = Some first -> has sort first (txt "choices") = Some true -> choice first = Some node ->
  has sort node (txt "tool_calls") = Some true -> tool_calls node = Some calls -> traverse (run_tool db) calls = Some results ->
  exists p2 v us assistant answers,
    fst (chat req db) = [dump (first_payload ms); p2] /\ load p2 = Some v /\
    index sort v (txt "messages") = Some (JList (image system_message :: us ++ assistant :: answers)) /\
    traverse user_message us = Some ms /\ tool_calls assistant = Some calls /\ Forall2 (answered db) calls answers.
Proof.
  intros Hb1 Hb2 Hdb Hs Hk El Ec Ef Hf En Hn Et Er.
  destruct (load_typed req body Hb1 El) as [Tb _]. destruct (load_typed _ first Hb2 Ef) as [Tf _].
  pose proof (conversation_chat body ms Tb Ec) as Hms. pose proof (tool_calls_bytes node calls (choice_typed first node Tf En) Et) as Hcs.
  apply traverse_Forall2 in Er as Hr2.
  assert (Hrs : Forall (Forall byte) results) by now apply (results_bytes db calls).
  exists (dump (second_payload ms calls results)), (image (second_payload ms calls results)), (map image ms), (image (assistant_message calls)),
    (map image (tool_messages calls results)).
  split.
  { unfold chat. rewrite El. destruct apiKey as [|k key]; [congruence|]. rewrite Ec. cbn zeta. rewrite Ef, Hf, En, Hn, Et, Er. cbn zeta.
    unfold second_call. cbn zeta. destruct (load (openai [_; _])) as [final|]; [|reflexivity]. destruct (has sort final _) as [[]|]; reflexivity. }
  split; [apply (fine_load 6); [lia|now apply second_fine]|]. split.
  { unfold second_payload at 1. read_object. cbn [Json.image]. rewrite map_cons, map_app. reflexivity. }
  split; [apply traverse_map; eapply Forall_impl; [|exact Hms]; exact read_message|]. split; [|now apply read_tool_messages].
  unfold tool_calls. replace (index sort _ (txt "tool_calls")) with (Some (image (WList (map call_json calls)))) by (symmetry; unfold assistant_message; read_object; reflexivity).
  cbn [Json.image children]. rewrite map_map. apply traverse_map. eapply Forall_impl; [|exact Hcs]. exact read_call.
Qed.

(** ** Every request *)

Lemma answer_readable k t : Forall byte t -> readable fmt_g fmt_f (makeCorsResponse (WObj [sfield k t]) 200).
Proof. intros H. apply (written_readable fmt_g fmt_f); [split; [split; [apply txt_bytes|exact H]|exact I]|discriminate]. Qed.
Lemma say_readable k t : readable fmt_g fmt_f (say k t).
Proof. apply answer_readable, txt_bytes. Qed.
#[local] Hint Resolve error_readable : core.

Lemma content_readable v k : typed v -> readable fmt_g fmt_f match get_string v k with Some t => answer t | None => server_error end.
Proof. intros Hv. destruct (get_string v k) as [t|] eqn:E; [|apply error_readable]. apply answer_readable. eapply get_bytes; eassumption. Qed.

(** What a run of the handler did. *)
Definition served (o : list text * Response) : Prop :=
  (len (fst o) <= 2)%nat /\ Forall (fun p => exists v, load p = Some v) (fst o) /\ readable fmt_g fmt_f (snd o) /\ (code (snd o) = 200 \/ code (snd o) = 500).

Lemma readable_payload n w : n <= 5000 -> fine n w -> exists v, load (dump w) = Some v.
Proof. intros H1 H2. eexists. now apply (fine_load n). Qed.

Lemma served_code (r : option text) : code match r with Some t => answer t | None => server_error end = 200 \/ code match r with Some t => answer t | None => server_error end = 500.
Proof. destruct r; auto. Qed.

Lemma second_served ms calls results : (forall h, Forall byte (openai h)) -> Forall chat_message ms -> Forall call_bytes calls -> Forall (Forall byte) results ->
  served (second_call ms calls results (dump (first_payload ms))).
Proof.
  intros Ho Hm Hc Hr. assert (Hp : Forall (fun p => exists v, load p = Some v) [dump (first_payload ms); dump (second_payload ms calls results)]).
  { constructor; [apply (readable_payload 7); [lia|now apply first_fine]|]. constructor; [apply (readable_payload 6); [lia|now apply second_fine]|constructor]. }
  unfold second_call. cbn zeta. destruct (load (openai _)) as [final|] eqn:E; [|repeat split; auto; apply say_readable].
  destruct (load_typed _ final (Ho _) E) as [Tf _].
  destruct (has sort final (txt "choices")) as [[]|]; [|repeat split; auto; apply say_readable|repeat split; auto].
  repeat split; auto; cbn [snd]; [|apply served_code]. destruct (choice final) as [m|] eqn:Em; [|apply error_readable].
  apply content_readable. now apply (choice_typed final).
Qed.

(** C6: Every conversation is served.  For every request body and all answers
    of OpenAI, whatever bytes they are, the handler ends with a response of
    status 200 whose text is readable JSON, or 500; it sends at most two
    requests, each of them valid JSON, whatever the messages and the logs
    hold. *)
Theorem agent_served req db : Forall byte req -> (forall h, Forall byte (openai h)) -> wf_db db -> small_db db -> served (chat req db).
Proof.
  intros Hreq Ho Hdb Hs. unfold chat. destruct (load req) as [body|] eqn:El; [|repeat split; auto; apply say_readable].
  destruct apiKey; [repeat split; auto; apply say_readable|]. destruct (load_typed req body Hreq El) as [Tb _].
  destruct (conversation body) as [ms|] eqn:Ec; [|repeat split; auto]. cbn zeta. pose proof (conversation_chat body ms Tb Ec) as Hms.
  assert (Hp : Forall (fun p => exists v, load p = Some v) [dump (first_payload ms)])
    by (constructor; [apply (readable_payload 7); [lia|now apply first_fine]|constructor]).
  destruct (load (openai _)) as [first|] eqn:Ef; [|repeat split; auto; apply say_readable]. destruct (load_typed _ first (Ho _) Ef) as [Tf _].
  destruct (has sort first (txt "choices")) as [[]|]; [|repeat split; auto; apply say_readable|repeat split; auto].
  destruct (choice first) as [node|] eqn:En; [|repeat split; auto]. pose proof (choice_typed first node Tf En) as Tn.
  destruct (has sort node (txt "tool_calls")) as [[]|]; [| |repeat split; auto].
  - destruct (tool_calls node) as [calls|] eqn:Et; [|repeat split; auto]. destruct (traverse (run_tool db) calls) as [results|] eqn:Er; [|repeat split; auto].
    apply second_served; [exact Ho|exact Hms|eapply tool_calls_bytes; eassumption|]. apply traverse_Forall2 in Er. now apply (results_bytes db calls).
  - repeat split; auto; cbn [snd]; [now apply content_readable|apply served_code].
Qed.
End Agent.

(** ** A conversation *)

Definition demo_request : text := quoted "{'messages':[{'role':'user','content':'any news?'}]}".
Definition demo_openai (sent : list text) : text :=
  match sent with
  | [_] => quoted "{'choices':[{'message':{'content':null,'tool_calls':[{'id':'c1','type':'function','function':{'name':'searchDatabase','arguments':'{}'}}]}}]}"
  | _ => quoted "{'choices':[{'message':{'content':'nothing'}}]}"
  end.
Definition demo_db : list RadioLog := [demo_saved].

Lemma demo_fmt_bytes d : Forall byte (demo_fmt d).
Proof. destruct d; repeat constructor; discriminate. Qed.
Lemma demo_openai_bytes h : Forall byte (demo_openai h).
Proof. destruct h as [|p [|q h]]; vm_compute; repeat constructor; discriminate. Qed.
Lemma demo_request_bytes : Forall byte demo_request.
Proof. vm_compute. repeat constructor; discriminate. Qed.
Lemma demo_db_ok : wf_db (S := list_sql) demo_db /\ small_db (S := list_sql) demo_db.
Proof. split; [|reflexivity]. constructor; [|constructor]. repeat split; cbn; try lia; repeat constructor; discriminate. Qed.

Definition demo_calls : list ToolCall := [mkCall (txt "c1") (txt "function") (txt "searchDatabase") (txt "{}")].
Lemma agent_protocol_witness : exists p1 p2,
  fst (chat (S := list_sql) true demo_fmt demo_fmt (fun _ => None) (fun _ => None) insertion_sort (fun o => o) [75] demo_openai demo_request demo_db) = [p1; p2].
Proof.
  destruct demo_db_ok as [H1 H2].
  destruct (load demo_request) as [body|] eqn:El; [|discriminate El].
  destruct (conversation insertion_sort (fun o => o) body) as [ms|] eqn:Ec; [|vm_compute in El; injection El as <-; discriminate Ec].
  set (p1 := dump demo_fmt demo_fmt (first_payload (fun o => o) ms)).
  destruct (load (demo_openai [p1])) as [first|] eqn:Ef; [|discriminate Ef].
  assert (Hf : has insertion_sort first (txt "choices") = Some true) by (vm_compute in Ef; injection Ef as <-; reflexivity).
  destruct (choice insertion_sort first) as [node|] eqn:En; [|vm_compute in Ef; injection Ef as <-; discriminate En].
  assert (Hn : has insertion_sort node (txt "tool_calls") = Some true) by (vm_compute in Ef; injection Ef as <-; vm_compute in En; injection En as <-; reflexivity).
  assert (Et : tool_calls insertion_sort node = Some demo_calls) by (vm_compute in Ef; injection Ef as <-; vm_compute in En; injection En as <-; reflexivity).
  destruct (traverse (run_tool (S := list_sql) true demo_fmt (fun _ => None) (fun _ => None) insertion_sort demo_db) demo_calls) as [results|] eqn:Er; [|discriminate Er].
  destruct (agent_protocol (S := list_sql) true demo_fmt demo_fmt (fun _ => None) (fun _ => None) insertion_sort (fun o => o) [75] demo_openai demo_fmt_bytes
    demo_request body ms first node demo_calls results demo_db demo_request_bytes (demo_openai_bytes _) H1 H2 ltac:(discriminate) El Ec Ef Hf En Hn Et Er)
    as (p2 & _ & _ & _ & _ & H & _).
  exists p1, p2. exact H.
Defined.

Lemma agent_served_witness :
  served demo_fmt demo_fmt (chat (S := list_sql) true demo_fmt demo_fmt (fun _ => None) (fun _ => None) insertion_sort (fun o => o) [75] demo_openai demo_request demo_db).
Proof.
  destruct demo_db_ok as [H1 H2].
  exact (agent_served (S := list_sql) true demo_fmt demo_fmt (fun _ => None) (fun _ => None) insertion_sort (fun o => o) [75] demo_openai demo_fmt_bytes
    demo_request demo_db demo_request_bytes demo_openai_bytes H1 H2).
Defined.
