(* ===== verification/Worker.v ===== *)
(** * Worker: the AI worker

    Models [src/ai-worker/src]: the command loop of [main.cpp], [read_wav] and
    [transcribe] of [whispertinytest.cpp], the generation loop of
    [GenerateSummary] in [ollamatest.cpp], and [loadEnv] of [openai.cpp].

    Whisper, llama.cpp and the OpenAI calls are parameters.  An undefined
    behaviour of the C++ code (a division by zero, a write past the end of the
    batch, the use of bytes that were not read) is [Undefined]. *)

From Stdlib Require Import ZArith List Lia Bool SpecFloat.
From Stdlib Require Import String.
Import ListNotations.
From S2P Require Import Prelude Floats Json Gateway.
#[local] Open Scope Z_scope.
#[local] Open Scope ag_scope.

Abbreviation len := List.length.
Abbreviation concat := List.concat.

(** ** WAV files *)

Record wav_header := mkHeader {
  riff : list Z; overall_size : Z; wave : list Z; fmt_chunk_marker : list Z; length_of_fmt : Z; format_type : Z;
  channels : Z; sample_rate : Z; byterate : Z; block_align : Z; bits_per_sample : Z; data_chunk_header : list Z; data_size : Z }.

Definition le16 (l : list Z) : Z := rd l 0 + 256 * rd l 1.
Definition le32 (l : list Z) : Z := le16 l + 65536 * le16 (skipn 2 l).
Definition s16 (l : list Z) : Z := i16 (le16 l).

(** [file.read((char* )&header, sizeof(header))] on a little-endian machine: the
    structure has no padding. *)
Definition read_header (l : list Z) : option (wav_header * list Z) :=
  if (len l <? 44)%nat then None
  else
    let at_ n := skipn n l in
    Some (mkHeader (firstn 4 l) (le32 (at_ 4%nat)) (firstn 4 (at_ 8%nat)) (firstn 4 (at_ 12%nat)) (le32 (at_ 16%nat))
            (le16 (at_ 20%nat)) (le16 (at_ 22%nat)) (le32 (at_ 24%nat)) (le32 (at_ 28%nat)) (le16 (at_ 32%nat)) (le16 (at_ 34%nat))
            (firstn 4 (at_ 36%nat)) (le32 (at_ 40%nat)), skipn 44 l).

Inductive Result (A : Type) := Returned (a : A) | Undefined.
Arguments Returned {A} a.
Arguments Undefined {A}.

(** (float)sample / 32768.0f *)
Definition f_32768 : float := float_of_int 32768.
Definition to_float (sample : Z) : float := fdiv (float_of_int sample) f_32768.

(** The sample loop; with two channels the second sample is skipped. *)
Fixpoint read_samples (n : nat) (stereo : bool) (l : list Z) : Result (list float) :=
  match n with
  | O => Returned []
  | S n' =>
      match l with
      | a :: b :: l' =>
          let l' := if stereo then skipn 2 l' else l' in
          match read_samples n' stereo l' with
          | Returned fs => Returned (to_float (s16 [a; b]) :: fs)
          | Undefined => Undefined
          end
      | _ => Undefined
      end
  end.

(** [None] for the file: it does not open; [Returned None]: false. *)
Definition read_wav (file : option (list Z)) : Result (option (list float)) :=
  match file with
  | None => Returned None
  | Some l =>
      match read_header l with
      | None => Undefined
      | Some (h, l) =>
          let divisor := channels h * (bits_per_sample h / 8) in
          if divisor =? 0 then Undefined
          else
            let num_samples := i32 (data_size h / divisor) in
            if negb (bits_per_sample h =? 16) then Returned None
            else
              match read_samples (Z.to_nat num_samples) (channels h =? 2) l with
              | Returned fs => Returned (Some fs)
              | Undefined => Undefined
              end
      end
  end.

(** ** Reading a recording back *)

Definition bytes16 (z : Z) : list Z := [z mod 256; z / 256 mod 256].
Definition bytes32 (z : Z) : list Z := bytes16 z ++ bytes16 (z / 65536).
(** The file that [sf_open] and [sf_write_short] make for the daemon: 16-bit
    PCM, one channel, 16000 Hz. *)
Definition wav_file (samples : list Z) : list Z :=
  let n := 2 * Z.of_nat (len samples) in
  txt "RIFF" ++ bytes32 (36 + n) ++ txt "WAVE" ++ txt "fmt " ++ bytes32 16 ++ bytes16 1 ++ bytes16 1 ++ bytes32 16000 ++
  bytes32 32000 ++ bytes16 2 ++ bytes16 16 ++ txt "data" ++ bytes32 n ++ concat (map bytes16 samples).

Lemma le16_pair a b l : le16 (a :: b :: l) = a + 256 * b.
Proof. reflexivity. Qed.

Lemma le16_bytes z l : 0 <= z < 65536 -> le16 (bytes16 z ++ l) = z.
Proof. intros H. unfold bytes16. cbn [app]. rewrite le16_pair. Z.div_mod_to_equations. lia. Qed.

Lemma le32_bytes z l : 0 <= z < 2 ^ 32 -> le32 (bytes32 z ++ l) = z.
Proof.
  change (2 ^ 32) with 4294967296. intros H. unfold le32, bytes32. rewrite <- app_assoc. change (skipn 2 (bytes16 z ++ bytes16 (z / 65536) ++ l)) with (bytes16 (z / 65536) ++ l).
  rewrite (le16_bytes (z / 65536)) by (Z.div_mod_to_equations; lia). unfold bytes16. cbn [app]. rewrite le16_pair. Z.div_mod_to_equations. lia.
Qed.

Definition int16 (s : Z) : Prop := - 2 ^ 15 <= s < 2 ^ 15.

Lemma s16_bytes s : int16 s -> s16 (bytes16 s) = s.
Proof.
  unfold int16, s16, i16, bytes16. rewrite le16_pair. change (2 ^ 15) with 32768. change (2 ^ 16) with 65536.
  intros H. Z.div_mod_to_equations. lia.
Qed.

Lemma read_samples_back samples l : Forall int16 samples ->
  read_samples (len samples) false (concat (map bytes16 samples) ++ l) = Returned (map to_float samples).
Proof.
  induction 1 as [|s samples Hs _ IH]; [reflexivity|]. cbn [List.length map concat bytes16 app read_samples]. rewrite IH.
  fold (bytes16 s). now rewrite s16_bytes.
Qed.

(** A recording is read back exactly.  For every list of 16-bit samples
    that fits in a WAV file, [read_wav] of the file written by the daemon gives
    these samples, in order, each divided by 32768. *)
Theorem wav_roundtrip samples : Forall int16 samples -> Z.of_nat (len samples) < 2 ^ 30 ->
  read_wav (Some (wav_file samples)) = Returned (Some (map to_float samples)).
Proof.
  intros Hs Hn. unfold read_wav, wav_file. set (n := 2 * Z.of_nat (len samples)). set (data := concat (map bytes16 samples)).
  assert (Hh : exists h, read_header (txt "RIFF" ++ bytes32 (36 + n) ++ txt "WAVE" ++ txt "fmt " ++ bytes32 16 ++ bytes16 1 ++ bytes16 1 ++ bytes32 16000 ++
    bytes32 32000 ++ bytes16 2 ++ bytes16 16 ++ txt "data" ++ bytes32 n ++ data) = Some (h, data) /\ channels h = 1 /\ bits_per_sample h = 16 /\ data_size h = n).
  { eexists; split; [reflexivity|]. cbn [channels bits_per_sample data_size]. split; [reflexivity|]. split; [reflexivity|]. apply (le32_bytes n data). lia. }
  destruct Hh as (h & -> & -> & -> & ->). change (1 * (16 / 8)) with 2. change (2 =? 0) with false. change (negb (16 =? 16)) with false. change (1 =? 2) with false. cbv iota.
  replace (n / 2) with (Z.of_nat (len samples)) by (unfold n; rewrite Z.mul_comm, Z.div_mul; lia).
  rewrite i32_small, Nat2Z.id by lia. rewrite <- (app_nil_r data). unfold data. now rewrite read_samples_back.
Qed.

Lemma wav_roundtrip_witness : read_wav (Some (wav_file [1000; -32768])) = Returned (Some [to_float 1000; to_float (-32768)]).
Proof.
  apply (wav_roundtrip [1000; -32768]).
  - repeat constructor; lia.
  - reflexivity.
Defined.

(** When the data are long enough. *)
Lemma read_samples_defined n stereo l :
  read_samples n stereo l <> Undefined <-> (n = 0%nat \/ if stereo then (4 * n <= len l + 2)%nat else (2 * n <= len l)%nat).
Proof.
  revert l. induction n as [|n IH]; intros l; cbn [read_samples]; [split; [auto|discriminate]|].
  destruct l as [|a [|b l]]; [split; [congruence|cbn [List.length]; destruct stereo; lia]..|]. cbn [List.length].
  assert (E : match read_samples n stereo (if stereo then skipn 2 l else l) with Returned fs => Returned (to_float (s16 [a; b]) :: fs) | Undefined => Undefined end <> Undefined
    <-> read_samples n stereo (if stereo then skipn 2 l else l) <> Undefined) by (destruct (read_samples n stereo _); split; congruence).
  rewrite E, IH. destruct stereo; [rewrite length_skipn|]; lia.
Qed.

(** When [read_wav] is defined.  On a file with a header, it has a result
    exactly when the number of bytes per sample is not zero, and, for 16-bit
    files, the data are as long as the header says.  The test for 16 bits comes
    after the division, so that a header with fewer than 8 bits per sample or
    no channel divides by zero instead of being refused. *)
Theorem read_wav_defined l h data : read_header l = Some (h, data) ->
  (read_wav (Some l) <> Undefined <->
   channels h * (bits_per_sample h / 8) <> 0 /\
   (bits_per_sample h = 16 ->
    let n := Z.to_nat (i32 (data_size h / (channels h * (bits_per_sample h / 8)))) in
    n = 0%nat \/ if channels h =? 2 then (4 * n <= len data + 2)%nat else (2 * n <= len data)%nat)).
Proof.
  intros E. unfold read_wav. rewrite E. cbn zeta. destruct (Z.eqb_spec (channels h * (bits_per_sample h / 8)) 0) as [Hd|Hd].
  { split; [congruence|intros [H _]; congruence]. }
  destruct (Z.eqb_spec (bits_per_sample h) 16) as [Hb|Hb]; cbn [negb]; [|split; [intros _; split; [exact Hd|contradiction]|discriminate]].
  rewrite <- read_samples_defined. destruct (read_samples _ _ data) as [fs|]; split; try congruence; intuition congruence.
Qed.

Lemma read_wav_defined_witness : read_wav (Some (repeat 0 44)) = Undefined.
Proof.
  destruct (read_wav (Some (repeat 0 44))) eqn:E; [exfalso|reflexivity].
  destruct (read_wav_defined (repeat 0 44) (mkHeader [0; 0; 0; 0] 0 [0; 0; 0; 0] [0; 0; 0; 0] 0 0 0 0 0 0 0 [0; 0; 0; 0] 0) [] eq_refl) as [H _].
  destruct H as [H _]; [rewrite E; discriminate|]. apply H. reflexivity.
Defined.

Section Transcribe.
(** The whisper model: whether it loads, and [whisper_full] with the text of
    the segments. *)
Variable whisper_loaded : bool.
Variable whisper_full : list float -> option (list text).

Definition transcribe (wav_path : text) (file : option (list Z)) : Result text :=
  if negb whisper_loaded then Returned (txt "Error: Whisper context not initialized.")
  else
    match read_wav file with
    | Undefined => Undefined
    | Returned None => Returned (txt "Error: Failed to read WAV file '" ++ wav_path ++ txt "'")
    | Returned (Some pcmf32) =>
        match whisper_full pcmf32 with
        | None => Returned (txt "Error: failed to process audio")
        | Some segments => Returned (concat segments)
        end
    end.
End Transcribe.

(** ** The summary *)

Abbreviation token := Z.

Section Llama.
(** llama.cpp: whether the model loads, the tokenizer, the evaluation of the
    tokens given so far, the scores of the next token, the end-of-generation
    tokens and the text of a token. *)
Variable model_loaded : bool.
Variable tokenize : text -> list token.
Variable decode : list token -> list token -> bool.
Variable logits : list token -> list float.
Variable is_eog : token -> bool.
Variable piece : token -> text.

Definition n_ctx : Z := 2048.

(** The greedy choice: [i] is the index of the head of [l]. *)
Fixpoint argmax (l : list float) (i new_token_id : Z) (max_logit : float) : Z :=
  match l with
  | [] => new_token_id
  | x :: l' => if SFltb max_logit x then argmax l' (i + 1) i x else argmax l' (i + 1) new_token_id max_logit
  end.
(** -1e9 *)
Definition f_m1e9 : float := S754_finite true 15625000 6.
Definition greedy (l : list float) : token := argmax l 0 0 f_m1e9.

(** [while (n_cur <= 2048)]; [ctx] are the tokens the context has seen. *)
Fixpoint generate (fuel : nat) (n_cur : Z) (ctx : list token) (result : text) : option text :=
  match fuel with
  | O => None
  | S fuel' =>
      if n_cur <=? n_ctx then
        let new_token_id := greedy (logits ctx) in
        if is_eog new_token_id then Some result
        else
          let result := result ++ piece new_token_id in
          if negb (decode ctx [new_token_id]) then Some result
          else generate fuel' (n_cur + 1) (ctx ++ [new_token_id]) result
      else Some result
  end.

Definition prompt (transcript : text) : text :=
  txt "<|user|>" ++ [10] ++
  txt "Analyze the following intercepted radio transcript. Categorize it using exactly one of these labels: [News, Sports, Music, Religion, Talk Radio, Emergency, Advertisement, Unknown]. Provide a strict 1-2 sentence summary of the core subject. Do not include conversational filler. Format your exact response like this: [Category] - [Summary]." ++ [10; 10] ++
  txt "Transcript: " ++ transcript ++ txt "<|end|>" ++ [10] ++ txt "<|assistant|>" ++ [10].

(** The batch has room for 2048 tokens; with none, [logits[-1]] is written. *)
Definition GenerateSummary (transcript : text) : Result (option text) :=
  if negb model_loaded then Returned (Some (txt "[Error] Failed to load Phi-3 model."))
  else
    let tokens_list := tokenize (prompt transcript) in
    if (len tokens_list =? 0)%nat || (n_ctx <? Z.of_nat (len tokens_list)) then Undefined
    else if negb (decode [] tokens_list) then Returned (Some (txt "[Error] Engine decode failed."))
    else Returned (generate (Z.to_nat n_ctx + 2) (Z.of_nat (len tokens_list)) tokens_list []).

(** The tokens generated: each the greedy choice after the ones before it,
    none of them an end of generation. *)
Inductive Greedy : list token -> list token -> Prop :=
| greedy_nil ctx : Greedy ctx []
| greedy_cons ctx t ts : t = greedy (logits ctx) -> is_eog t = false -> Greedy (ctx ++ [t]) ts -> Greedy ctx (t :: ts).

Lemma generate_ends fuel : forall n_cur ctx result, 0 <= n_cur -> n_ctx + 1 - n_cur < Z.of_nat fuel -> (0 < fuel)%nat ->
  exists ts, generate fuel n_cur ctx result = Some (result ++ concat (map piece ts)) /\
    Greedy ctx ts /\ Z.of_nat (len ts) <= Z.max 0 (n_ctx + 1 - n_cur).
Proof.
  induction fuel as [|fuel IH]; intros n_cur ctx result H0 Hf Hp; [lia|]. cbn [generate].
  destruct (Z.leb_spec n_cur n_ctx) as [Hle|Hgt]; [|exists []; rewrite app_nil_r; repeat split; [constructor|cbn [List.length]; lia]].
  set (t := greedy (logits ctx)). destruct (is_eog t) eqn:Ee; [exists []; rewrite app_nil_r; repeat split; [constructor|cbn [List.length]; lia]|].
  destruct (decode ctx [t]); cbn [negb].
  - destruct (IH (n_cur + 1) (ctx ++ [t]) (result ++ piece t)) as (ts & E & Hg & Hl); try lia.
    exists (t :: ts). rewrite E, <- app_assoc. split; [reflexivity|]. split; [now constructor|]. cbn [List.length]. lia.
  - exists [t]. cbn [map concat]. rewrite app_nil_r. split; [reflexivity|]. split; [repeat constructor; auto|]. cbn [List.length]. lia.
Qed.

(** The summary terminates.  When the model is loaded, the prompt has 1 to
    2048 tokens and is decoded, [GenerateSummary] returns: the text is that of
    at most 2049 minus the prompt's tokens, each the greedy choice after the
    ones before, none an end of generation.  A prompt of more than 2048 tokens
    is written past the end of the batch. *)
Theorem summary_terminates transcript :
  model_loaded = true ->
  let n := Z.of_nat (len (tokenize (prompt transcript))) in
  (1 <= n <= n_ctx -> decode [] (tokenize (prompt transcript)) = true ->
   exists ts, GenerateSummary transcript = Returned (Some (concat (map piece ts))) /\
     Greedy (tokenize (prompt transcript)) ts /\ Z.of_nat (len ts) <= n_ctx + 1 - n) /\
  (n_ctx < n -> GenerateSummary transcript = Undefined).
Proof.
  intros Hm. cbn zeta. unfold GenerateSummary. rewrite Hm. cbn [negb]. set (toks := tokenize (prompt transcript)). split.
  - intros Hn Hd. replace ((len toks =? 0)%nat || (n_ctx <? Z.of_nat (len toks))) with false.
    2:{ symmetry. apply orb_false_iff. split; [apply Nat.eqb_neq; lia|apply Z.ltb_ge; lia]. }
    rewrite Hd. cbn [negb]. destruct (generate_ends (Z.to_nat n_ctx + 2) (Z.of_nat (len toks)) toks []) as (ts & -> & Hg & Hl);
      [lia|unfold n_ctx in *; lia|lia|]. exists ts. repeat split; auto. lia.
  - intros Hn. replace (n_ctx <? Z.of_nat (len toks)) with true by (symmetry; apply Z.ltb_lt; lia). now rewrite orb_true_r.
Qed.
End Llama.

(** A tokenizer that makes one token of everything, a model that always
    answers token 1 until six tokens are there. *)
Definition demo_logits (ctx : list token) : list float :=
  if (len ctx <? 6)%nat then [S754_zero false; float_of_int 1] else [float_of_int 1; S754_zero false].
Lemma summary_terminates_witness :
  exists ts : list token, GenerateSummary true (fun _ => [5]) (fun _ _ => true) demo_logits (fun t => t =? 0) (fun _ => [97]) [] = Returned (Some (concat (map (fun _ => [97]) ts))) /\
    Z.of_nat (len ts) <= 2048.
Proof.
  destruct (summary_terminates true (fun _ => [5]) (fun _ _ => true) demo_logits (fun t => t =? 0) (fun _ => [97]) [] eq_refl) as [H _].
  destruct H as (ts & E & _ & Hl); [cbn; unfold n_ctx; lia|reflexivity|]. exists ts. split; [exact E|exact Hl].
Defined.

(** ** The .env file *)

(** [std::getline]: the lines of a file; a last line without a newline counts
    if it is not empty. *)
Fixpoint lines (l : text) (cur : text) : list text :=
  match l with
  | [] => match cur with [] => [] | _ => [cur] end
  | c :: l' => if c =? 10 then cur :: lines l' [] else lines l' (cur ++ [c])
  end.
(** [find('=')] and the two [substr]. *)
Fixpoint split_at (d : Z) (l : text) : option (text * text) :=
  match l with
  | [] => None
  | c :: l' => if c =? d then Some ([], l') else match split_at d l' with Some (a, b) => Some (c :: a, b) | None => None end
  end.
Definition unquote (value : text) : text :=
  match value with
  | [] => []
  | c :: l => if (c =? 34) && (last value 0 =? 34) then firstn (len l - 1) l else value
  end.
(** [envVars[key] = value]: a later line replaces an earlier one. *)
Fixpoint set_var (k v : text) (m : list (text * text)) : list (text * text) :=
  match m with
  | [] => [(k, v)]
  | (k', v') :: m' => if list_eq_dec Z.eq_dec k k' then (k, v) :: m' else (k', v') :: set_var k v m'
  end.
Definition load_line (m : list (text * text)) (line : text) : list (text * text) :=
  match line with
  | [] => m
  | c :: _ =>
      if c =? 35 then m
      else match split_at 61 line with Some (k, v) => set_var k (unquote v) m | None => m end
  end.
(** A file that does not open has no lines. *)
Definition loadEnv (file : option text) : list (text * text) :=
  match file with Some l => fold_left load_line (lines l []) [] | None => [] end.
Definition get_var (m : list (text * text)) (k : text) : option text :=
  option_map snd (find (fun kv => if list_eq_dec Z.eq_dec (fst kv) k then true else false) m).

(** ** The command loop *)

(** What one message leads to: messages published, the end of the process by
    an exception, or undefined behaviour. *)
Inductive Step := Replies (ms : list Message) | Terminated | UndefinedStep.

Section Main.
Variables fmt_g fmt_f : double -> text.
Variable to_double : text -> double.
Variable sort : list (text * rvalue) -> list (text * rvalue).
Variable iteration : list (text * wvalue) -> list (text * wvalue).
(** The four engines: the transcription of the audio file and the summary of a
    text, local and by OpenAI. *)
Variable whisper : Result text.
Variable phi3 : text -> Result text.
Variable openai_transcribe : text.
Variable openai_summarize : text -> text.

Abbreviation publish := (publish fmt_g fmt_f iteration).
Definition update (event key : string) (t : text) (targetFreq : double) : Step :=
  Replies [publish ws_updates [field "event" (WStr (txt event)); field key (WStr t); field "freq" (WDouble targetFreq)]].
Definition finish (event key : string) (r : Result text) (targetFreq : double) : Step :=
  match r with Returned t => update event key t targetFreq | Undefined => UndefinedStep end.

Definition worker_message (payload : text) : Step :=
  match load (c_str payload) with
  | None => Replies []
  | Some json =>
      match get_string sort json "command", get_number to_double sort json "freq" with
      | Some cmd, Some targetFreq =>
          let cmd_is (c : string) := if list_eq_dec Z.eq_dec cmd (txt c) then true else false in
          if cmd_is "TRANSCRIBE_LOCAL"%string then finish "transcription_complete" "text" whisper targetFreq
          else if cmd_is "SUMMARIZE_LOCAL"%string then
            match get_string sort json "text" with
            | Some t => finish "summary_complete" "summary" (phi3 t) targetFreq
            | None => Terminated
            end
          else if cmd_is "TRANSCRIBE_OPENAI"%string then update "transcription_complete" "text" openai_transcribe targetFreq
          else if cmd_is "SUMMARIZE_OPENAI"%string then
            match get_string sort json "text" with
            | Some t => update "summary_complete" "summary" (openai_summarize t) targetFreq
            | None => Terminated
            end
          else Replies []
      | _, _ => Terminated
      end
  end.

Context `{!PrintedNumber fmt_g} `{!PrintedNumber fmt_f} `{!KeySort sort} `{!Iteration iteration}.

(** What a client reads of an update. *)
Definition reads_update (m : Message) (event key : string) (t : text) (freq : text) : Prop :=
  exists o, fst m = ws_updates /\ load (c_str (snd m)) = Some (JObj o) /\
    get_string sort (JObj o) "event" = Some (txt event) /\ get_string sort (JObj o) key = Some t /\
    index sort (JObj o) (txt "freq") = Some (JNum freq).

Lemma update_read event key t f : Forall byte t -> not_number f = false ->
  (key = "text" \/ key = "summary")%string ->
  exists m, update event key t f = Replies [m] /\ reads_update m event key t (trim (fmt_g f)).
Proof.
  intros Ht Hf Hk. eexists; split; [reflexivity|].
  assert (Hmem : members [field "event" (WStr (txt event)); field key (WStr t); field "freq" (WDouble f)])
    by (destruct Hk as [-> | ->]; object_members).
  destruct (load_published fmt_g fmt_f sort iteration ws_updates _ Hmem) as (o & E & Hm). exists o. split; [reflexivity|]. split; [exact E|].
  unfold get_string, index. rewrite !Hm by apply txt_bytes.
  destruct Hk as [-> | ->]; find_field; cbn [option_map snd field Json.image str]; rewrite Hf, !unescape_escape by (assumption || apply txt_bytes); auto.
Qed.

(** The gateway's commands, as the worker reads them. *)
Lemma worker_reads_freq c f : not_number f = false ->
  exists o, load (c_str (snd (publish ai_commands [field "command" (WStr (txt c)); field "freq" (WDouble f)]))) = Some (JObj o) /\
    get_string sort (JObj o) "command" = Some (txt c) /\ get_number to_double sort (JObj o) "freq" = Some (to_double (trim (fmt_g f))).
Proof.
  intros Hf. assert (Hmem : members [field "command" (WStr (txt c)); field "freq" (WDouble f)]) by object_members.
  destruct (load_published fmt_g fmt_f sort iteration ai_commands _ Hmem) as (o & E & Hm). exists o. split; [exact E|].
  unfold get_string, get_number, index. rewrite !Hm by apply txt_bytes. find_field. cbn [option_map snd field Json.image str number].
  rewrite Hf, unescape_escape by apply txt_bytes. auto.
Qed.

Lemma worker_reads_text c f t : not_number f = false -> Forall byte t ->
  exists o, load (c_str (snd (publish ai_commands [field "command" (WStr (txt c)); field "freq" (WDouble f); field "text" (WStr t)]))) = Some (JObj o) /\
    get_string sort (JObj o) "command" = Some (txt c) /\ get_number to_double sort (JObj o) "freq" = Some (to_double (trim (fmt_g f))) /\
    get_string sort (JObj o) "text" = Some t.
Proof.
  intros Hf Ht. assert (Hmem : members [field "command" (WStr (txt c)); field "freq" (WDouble f); field "text" (WStr t)]) by object_members.
  destruct (load_published fmt_g fmt_f sort iteration ai_commands _ Hmem) as (o & E & Hm). exists o. split; [exact E|].
  unfold get_string, get_number, index. rewrite !Hm by apply txt_bytes. find_field. cbn [option_map snd field Json.image str number].
  rewrite Hf, !unescape_escape by (assumption || apply txt_bytes). auto.
Qed.
(** The four requests, with their events and engines. *)
Inductive Route := TranscribeLocal | TranscribeOpenai | SummarizeLocal | SummarizeOpenai.
Definition request (r : Route) : text -> Outcome :=
  match r with
  | TranscribeLocal => transcribe_local fmt_g fmt_f to_double sort iteration
  | TranscribeOpenai => transcribe_openai fmt_g fmt_f to_double sort iteration
  | SummarizeLocal => summarize_local fmt_g fmt_f to_double sort iteration
  | SummarizeOpenai => summarize_openai fmt_g fmt_f to_double sort iteration
  end.
Definition takes_text (r : Route) : bool := match r with SummarizeLocal | SummarizeOpenai => true | _ => false end.
Definition event_of (r : Route) : string := (if takes_text r then "summary_complete" else "transcription_complete")%string.
Definition key_of (r : Route) : string := (if takes_text r then "summary" else "text")%string.
Definition engine (r : Route) (t : text) : Result text :=
  match r with
  | TranscribeLocal => whisper
  | TranscribeOpenai => Returned openai_transcribe
  | SummarizeLocal => phi3 t
  | SummarizeOpenai => Returned (openai_summarize t)
  end.

(** Every accepted request is answered.  A transcribe or summarize request
    with a finite frequency (and a text) publishes one command; the worker
    takes it without an exception, runs the engine of that request on that
    text, and publishes one update on [ws_updates], from which a client reads
    the event, the engine's text and the frequency. *)
Theorem worker_answers r req x f t a :
  load req = Some x -> get_number to_double sort x "freq" = Some f -> not_number f = false ->
  not_number (to_double (trim (fmt_g f))) = false ->
  (if takes_text r then get_string sort x "text" = Some t else t = []) -> Forall byte t ->
  engine r t = Returned a -> Forall byte a ->
  exists m u, fst (request r req) = [m] /\ fst m = ai_commands /\ worker_message (snd m) = Replies [u] /\
    reads_update u (event_of r) (key_of r) a (trim (fmt_g (to_double (trim (fmt_g f))))).
Proof.
  intros El Ef Hf Hf' Ht Hb Ea Ha.
  assert (Hk : (key_of r = "text" \/ key_of r = "summary")%string) by (unfold key_of; destruct (takes_text r); auto).
  destruct (update_read (event_of r) (key_of r) a _ Ha Hf' Hk) as (u & Eu & Hu).
  destruct r; cbn [takes_text engine event_of key_of request] in *;
    unfold transcribe_local, transcribe_openai, summarize_local, summarize_openai, Gateway.transcribe, summarize; rewrite El, Ef, ?Ht; cbn [serve fst];
    (eexists; exists u; split; [reflexivity|]; split; [reflexivity|]; split; [|exact Hu]).
  - destruct (worker_reads_freq "TRANSCRIBE_LOCAL" f Hf) as (o & E & Ec & Efr). unfold worker_message. rewrite E, Ec, Efr. cbn -[txt update].
    rewrite Ea. exact Eu.
  - destruct (worker_reads_freq "TRANSCRIBE_OPENAI" f Hf) as (o & E & Ec & Efr). unfold worker_message. rewrite E, Ec, Efr. injection Ea as <-. exact Eu.
  - destruct (worker_reads_text "SUMMARIZE_LOCAL" f t Hf Hb) as (o & E & Ec & Efr & Et). unfold worker_message. rewrite E, Ec, Efr, Et, Ea. exact Eu.
  - destruct (worker_reads_text "SUMMARIZE_OPENAI" f t Hf Hb) as (o & E & Ec & Efr & Et). unfold worker_message. rewrite E, Ec, Efr, Et. injection Ea as <-. exact Eu.
Qed.
End Main.

(** A summary request with an engine that returns its text. *)
Lemma worker_answers_witness :
  exists m u, fst (request demo_fmt demo_fmt demo_to_double insertion_sort (fun o => o) SummarizeLocal (quoted "{'freq':0.5,'text':'hi'}")) = [m] /\
    worker_message demo_fmt demo_fmt demo_to_double insertion_sort (fun o => o) Undefined (fun t => Returned t) [] (fun t => t) (snd m) = Replies [u].
Proof.
  assert (H1 : load (quoted "{'freq':0.5,'text':'hi'}") = Some (JObj [(txt "freq", JNum (txt "0.5")); (txt "text", JStr (txt "hi") false)]))
    by (vm_compute; reflexivity).
  assert (H2 : Forall byte (txt "hi")) by apply txt_bytes.
  destruct (worker_answers demo_fmt demo_fmt demo_to_double insertion_sort (fun o => o) Undefined (fun t => Returned t) [] (fun t => t)
    SummarizeLocal _ _ (S754_finite false 1 (-1)) (txt "hi") (txt "hi") H1 eq_refl eq_refl eq_refl eq_refl H2 eq_refl H2) as (m & u & E & _ & Eu & _).
  exists m, u. split; [exact E|exact Eu].
Defined.
