(* ===== verification/Broadcast.v ===== *)
(** * Broadcast: from Redis to the WebSocket clients

    Models [redisListenerThread] of [src/api-core/src/main.cpp] with the
    [onopen] and [onclose] callbacks of its two WebSocket routes.

    The sets of clients are [std::unordered_set]s of connections, traversed in
    no particular order under a mutex, so that an event is atomic.  What a
    client has been sent is a map from connections to lists of payloads. *)

From stdpp Require Import gmap sets list fin_sets strings.
From Stdlib Require Import ZArith.
From S2P Require Import Prelude.

Abbreviation conn := positive.
Abbreviation payload := (list Z).

(** A reply on the subscription: an array of elements, each a null pointer or a
    string with its length, or something else. *)
Inductive Reply := Array (elements : list (option payload)) | OtherReply.

Record Gateway := mkGateway {
  audio_clients : gset conn;
  status_clients : gset conn;
  sent_binary : gmap conn (list payload);
  sent_text : gmap conn (list payload) }.

Definition send (p : payload) (c : conn) (sent : gmap conn (list payload)) : gmap conn (list payload) :=
  <[c := (sent !!! c) ++ [p]]> sent.
Definition broadcast (p : payload) (clients : gset conn) (sent : gmap conn (list payload)) : gmap conn (list payload) :=
  set_fold (send p) sent clients.

(** [std::string type = e->str ? e->str : ""]: up to the first null byte. *)
Definition element_str (e : option payload) : payload := match e with Some s => c_str s | None => [] end.
(** [std::string payload(e->str, e->len)]: all the bytes. *)
Definition element_bytes (e : option payload) : payload := match e with Some s => s | None => [] end.

Definition redis_reply (r : Reply) (g : Gateway) : Gateway :=
  match r with
  | Array [e0; e1; e2] =>
      if bool_decide (element_str e0 = txt "message") then
        let channel := element_str e1 in
        if bool_decide (channel = txt "live_audio") then
          mkGateway (audio_clients g) (status_clients g) (broadcast (element_bytes e2) (audio_clients g) (sent_binary g)) (sent_text g)
        else if bool_decide (channel = txt "ws_updates") then
          mkGateway (audio_clients g) (status_clients g) (sent_binary g) (broadcast (element_bytes e2) (status_clients g) (sent_text g))
        else g
      else g
  | _ => g
  end.

Inductive Event := OpenAudio (c : conn) | CloseAudio (c : conn) | OpenStatus (c : conn) | CloseStatus (c : conn) | Redis (r : Reply).

Definition step (g : Gateway) (e : Event) : Gateway :=
  match e with
  | OpenAudio c => mkGateway ({[c]} ∪ audio_clients g) (status_clients g) (sent_binary g) (sent_text g)
  | CloseAudio c => mkGateway (audio_clients g ∖ {[c]}) (status_clients g) (sent_binary g) (sent_text g)
  | OpenStatus c => mkGateway (audio_clients g) ({[c]} ∪ status_clients g) (sent_binary g) (sent_text g)
  | CloseStatus c => mkGateway (audio_clients g) (status_clients g ∖ {[c]}) (sent_binary g) (sent_text g)
  | Redis r => redis_reply r g
  end.
Definition init : Gateway := mkGateway ∅ ∅ ∅ ∅.
Definition run (es : list Event) : Gateway := fold_left step es init.

(** ** What each client hears *)

Lemma if_same {A} (b : bool) (x : A) : (if b then x else x) = x.
Proof. by destruct b. Qed.

Lemma broadcast_lookup (p : payload) (clients : gset conn) (sent : gmap conn (list payload)) (c : conn) :
  (c ∈ clients → broadcast p clients sent !!! c = sent !!! c ++ [p]) ∧ (c ∉ clients → broadcast p clients sent !!! c = sent !!! c).
Proof.
  unfold broadcast.
  apply (set_fold_ind_L (C := gset conn) (λ (r : gmap conn (list payload)) (X : gset conn),
    (c ∈ X → r !!! c = sent !!! c ++ [p]) ∧ (c ∉ X → r !!! c = sent !!! c))); [set_solver|].
  intros x X r Hx [IH1 IH2]. unfold send. destruct (decide (c = x)) as [->|Hne].
  - rewrite lookup_total_insert_eq, IH2 by done. set_solver.
  - rewrite lookup_total_insert_ne by done. set_solver.
Qed.

(** The message a server publishes on a channel, as a subscriber gets it. *)
Definition publication (channel p : payload) : Reply := Array [Some (txt "message"); Some channel; Some p].

(** The payload a reply carries on a channel. *)
Definition carried (channel : payload) (r : Reply) : list payload :=
  match r with
  | Array [e0; e1; e2] => if bool_decide (element_str e0 = txt "message") && bool_decide (element_str e1 = channel) then [element_bytes e2] else []
  | _ => []
  end.

(** The payloads of the audio and status channels while client [c] is
    connected: [on] says whether it is. *)
Fixpoint audio_heard (c : conn) (on : bool) (es : list Event) : list payload :=
  match es with
  | [] => []
  | OpenAudio c' :: es' => audio_heard c (bool_decide (c = c') || on) es'
  | CloseAudio c' :: es' => audio_heard c (negb (bool_decide (c = c')) && on) es'
  | Redis r :: es' => (if on then carried (txt "live_audio") r else []) ++ audio_heard c on es'
  | _ :: es' => audio_heard c on es'
  end.
Fixpoint status_heard (c : conn) (on : bool) (es : list Event) : list payload :=
  match es with
  | [] => []
  | OpenStatus c' :: es' => status_heard c (bool_decide (c = c') || on) es'
  | CloseStatus c' :: es' => status_heard c (negb (bool_decide (c = c')) && on) es'
  | Redis r :: es' => (if on then carried (txt "ws_updates") r else []) ++ status_heard c on es'
  | _ :: es' => status_heard c on es'
  end.

Lemma member_open (c c' : conn) (X : gset conn) : bool_decide (c ∈ {[c']} ∪ X) = bool_decide (c = c') || bool_decide (c ∈ X).
Proof. repeat case_bool_decide; set_solver. Qed.
Lemma member_close (c c' : conn) (X : gset conn) : bool_decide (c ∈ X ∖ {[c']}) = negb (bool_decide (c = c')) && bool_decide (c ∈ X).
Proof. repeat case_bool_decide; set_solver. Qed.

Lemma broadcast_heard (p : payload) (clients : gset conn) (sent : gmap conn (list payload)) (c : conn) :
  broadcast p clients sent !!! c = sent !!! c ++ (if bool_decide (c ∈ clients) then [p] else []).
Proof. destruct (broadcast_lookup p clients sent c) as [H1 H2]. case_bool_decide; [auto|rewrite app_nil_r; auto]. Qed.

Lemma reply_heard r g c :
  sent_binary (redis_reply r g) !!! c = sent_binary g !!! c ++ (if bool_decide (c ∈ audio_clients g) then carried (txt "live_audio") r else []) ∧
  sent_text (redis_reply r g) !!! c = sent_text g !!! c ++ (if bool_decide (c ∈ status_clients g) then carried (txt "ws_updates") r else []) ∧
  audio_clients (redis_reply r g) = audio_clients g ∧ status_clients (redis_reply r g) = status_clients g.
Proof.
  destruct r as [[|e0 [|e1 [|e2 [|e3 es]]]]|]; cbn [redis_reply carried]; rewrite ?if_same, ?app_nil_r; try done.
  destruct (bool_decide (element_str e0 = _)); cbn [andb]; [|by rewrite !if_same, !app_nil_r].
  destruct (decide (element_str e1 = txt "live_audio")) as [E|Ha]; [|destruct (decide (element_str e1 = txt "ws_updates")) as [E|Hs]].
  - rewrite E, (bool_decide_true (txt "live_audio" = _)), (bool_decide_false (txt "live_audio" = txt "ws_updates")) by done.
    cbn [sent_binary sent_text audio_clients status_clients]. by rewrite broadcast_heard, if_same, app_nil_r.
  - rewrite E, (bool_decide_false (txt "ws_updates" = txt "live_audio")), (bool_decide_true (txt "ws_updates" = _)) by done.
    cbn [sent_binary sent_text audio_clients status_clients]. by rewrite broadcast_heard, if_same, app_nil_r.
  - by rewrite !bool_decide_false, !if_same, !app_nil_r by done.
Qed.

Lemma run_heard es c : ∀ g,
  sent_binary (fold_left step es g) !!! c = sent_binary g !!! c ++ audio_heard c (bool_decide (c ∈ audio_clients g)) es ∧
  sent_text (fold_left step es g) !!! c = sent_text g !!! c ++ status_heard c (bool_decide (c ∈ status_clients g)) es.
Proof.
  induction es as [|e es IH]; intros g; [by rewrite !app_nil_r|]. cbn [fold_left].
  destruct (IH (step g e)) as [-> ->].
  destruct e as [c'|c'|c'|c'|r]; cbn [step audio_clients status_clients sent_binary sent_text audio_heard status_heard];
    rewrite ?member_open, ?member_close; try done.
  destruct (reply_heard r g c) as (-> & -> & -> & ->). by rewrite <- !app_assoc.
Qed.

(** C35: every client hears exactly its channel.  Whatever the order in which
    clients connect and leave and replies arrive, and in which the sets are
    traversed, each audio client has been sent exactly the payloads of the
    three-element message replies of channel [live_audio] while it was
    connected, each status client those of [ws_updates], every one once and in
    order; a published message is such a reply, null bytes included. *)
Theorem ws_delivery es c :
  sent_binary (run es) !!! c = audio_heard c false es ∧ sent_text (run es) !!! c = status_heard c false es ∧
  (∀ p, carried (txt "live_audio") (publication (txt "live_audio") p) = [p] ∧ carried (txt "ws_updates") (publication (txt "ws_updates") p) = [p]).
Proof. destruct (run_heard es c init) as [H1 H2]. split; [exact H1|]. split; [exact H2|]. done. Qed.
