(* ===== verification/Bitvec.v ===== *)
(** * Bitvec: the fixed-length bitmap of the pager

    Models [bitvec.c] of [src/api-core/src/db/sqlite3.c] with 8-byte pointers:
    a bitmap for few bits, a hash table of the set bits for more, and an array
    of sub-bitmaps once the table is too full.  The union [u] is the member
    that [iSize] and [iDivisor] select.  [malloc k] tells whether the [k]-th
    allocation succeeds; the operations that allocate thread the counter. *)

From Stdlib Require Import ZArith List Lia Bool.
Import ListNotations.
From S2P Require Import Prelude IntArith.
#[local] Open Scope Z_scope.

Definition BITVEC_SZ : Z := 512.
Definition BITVEC_USIZE : Z := (BITVEC_SZ - 3 * 4) / 8 * 8.
Definition BITVEC_SZELEM : Z := 8.
Definition BITVEC_NELEM : Z := BITVEC_USIZE / 1.
Definition BITVEC_NBIT : Z := BITVEC_NELEM * BITVEC_SZELEM.
Definition BITVEC_NINT : Z := BITVEC_USIZE / 4.
Definition BITVEC_MXHASH : Z := BITVEC_NINT / 2.
Definition BITVEC_HASH (X : Z) : Z := (X * 1) mod BITVEC_NINT.
Definition BITVEC_NPTR : Z := BITVEC_USIZE / 8.

Definition SQLITE_OK : Z := 0.
Definition SQLITE_NOMEM : Z := 7.

Inductive Bitvec : Type := mkBitvec (iSize nSet iDivisor : Z) (u : bitvec_u)
with bitvec_u : Type :=
| aBitmap (l : list Z)
| aHash (l : list Z)
| apSub (l : list (option Bitvec)).

Definition iSize (p : Bitvec) : Z := let '(mkBitvec n _ _ _) := p in n.
Definition nSet (p : Bitvec) : Z := let '(mkBitvec _ n _ _) := p in n.
Definition iDivisor (p : Bitvec) : Z := let '(mkBitvec _ _ n _) := p in n.
Definition u_aBitmap (p : Bitvec) : list Z :=
  match p with mkBitvec _ _ _ (aBitmap l) => l | _ => [] end.
Definition u_aHash (p : Bitvec) : list Z :=
  match p with mkBitvec _ _ _ (aHash l) => l | _ => [] end.
Definition u_apSub (p : Bitvec) : list (option Bitvec) :=
  match p with mkBitvec _ _ _ (apSub l) => l | _ => [] end.

(** ** Operations *)

Definition zeros (n : Z) : list Z := repeat 0 (Z.to_nat n).

Definition sqlite3BitvecCreate (n : Z) : Bitvec :=
  mkBitvec n 0 0 (if n <=? BITVEC_NBIT then aBitmap (zeros BITVEC_NELEM) else aHash (zeros BITVEC_NINT)).

(** [while( aHash[h] ){ if( aHash[h]==i ) return 1; h = (h+1) % BITVEC_NINT; } return 0] *)
Fixpoint test_probe (fuel : nat) (l : list Z) (h i : Z) : bool :=
  match fuel with
  | O => false
  | S fuel' =>
      if rd l h =? 0 then false
      else if rd l h =? i then true
      else test_probe fuel' l ((h + 1) mod BITVEC_NINT) i
  end.

(** The loop of [sqlite3BitvecTestNotNull] on the zero-based [i]. *)
Fixpoint test_loop (fuel : nat) (p : Bitvec) (i : Z) : bool :=
  match fuel with
  | O => false
  | S fuel' =>
      if negb (iDivisor p =? 0) then
        let bin := i / iDivisor p in
        let i := i mod iDivisor p in
        match nth (Z.to_nat bin) (u_apSub p) None with
        | None => false
        | Some q => test_loop fuel' q i
        end
      else if iSize p <=? BITVEC_NBIT then
        negb (Z.land (rd (u_aBitmap p) (i / BITVEC_SZELEM))
                (Z.shiftl 1 (Z.land i (BITVEC_SZELEM - 1))) =? 0)
      else test_probe (Z.to_nat BITVEC_NINT) (u_aHash p) (BITVEC_HASH i) (i + 1)
  end.

(** Five levels are enough for a 32-bit [iSize]. *)
Definition BITVEC_DEPTH : nat := 5.

Definition sqlite3BitvecTestNotNull (p : Bitvec) (i : Z) : bool :=
  let i := u32 (i - 1) in
  if iSize p <=? i then false else test_loop BITVEC_DEPTH p i.

Definition sqlite3BitvecTest (p : option Bitvec) (i : Z) : bool :=
  match p with None => false | Some p => sqlite3BitvecTestNotNull p i end.

(** [do { if( aHash[h]==i ) return SQLITE_OK; h++; ... } while( aHash[h] )]:
    [None] for the return, or the free slot. *)
Fixpoint set_probe (fuel : nat) (l : list Z) (h i : Z) : option Z :=
  match fuel with
  | O => Some h
  | S fuel' =>
      if rd l h =? i then None
      else
        let h := h + 1 in
        let h := if BITVEC_NINT <=? h then 0 else h in
        if negb (rd l h =? 0) then set_probe fuel' l h i else Some h
  end.

Fixpoint set_nth {A} (n : nat) (x : A) (l : list A) : list A :=
  match n, l with
  | _, [] => []
  | O, _ :: l' => x :: l'
  | S n', y :: l' => y :: set_nth n' x l'
  end.

(** [p->iDivisor] after a table of [iSize] bits is subdivided. *)
Definition divisor (n : Z) : Z :=
  let d := n / BITVEC_NPTR in
  let d := if negb (n mod BITVEC_NPTR =? 0) then d + 1 else d in
  if d <? BITVEC_NBIT then BITVEC_NBIT else d.

Section Set_.
Variable malloc : nat -> bool.

(** [sqlite3BitvecSet] from its loop on, on the zero-based [i]: the result
    code, the bitmap and the number of allocations so far. *)
Fixpoint set_loop (fuel : nat) (k : nat) (p : Bitvec) (i : Z) : Z * Bitvec * nat :=
  match fuel with
  | O => (SQLITE_NOMEM, p, k)
  | S fuel' =>
      if (BITVEC_NBIT <? iSize p) && negb (iDivisor p =? 0) then
        let bin := i / iDivisor p in
        let i := i mod iDivisor p in
        let store (q : Bitvec) :=
          mkBitvec (iSize p) (nSet p) (iDivisor p) (apSub (set_nth (Z.to_nat bin) (Some q) (u_apSub p))) in
        match nth (Z.to_nat bin) (u_apSub p) None with
        | None =>
            if malloc k then
              let '(rc, q, k) := set_loop fuel' (S k) (sqlite3BitvecCreate (iDivisor p)) i in
              (rc, store q, k)
            else (SQLITE_NOMEM, p, S k)
        | Some q =>
            let '(rc, q, k) := set_loop fuel' k q i in (rc, store q, k)
        end
      else if iSize p <=? BITVEC_NBIT then
        let j := i / BITVEC_SZELEM in
        (SQLITE_OK,
         mkBitvec (iSize p) (nSet p) (iDivisor p)
           (aBitmap (wr (u_aBitmap p) j
              (Z.lor (rd (u_aBitmap p) j) (Z.shiftl 1 (Z.land i (BITVEC_SZELEM - 1)))))), k)
      else
        let h := BITVEC_HASH i in
        let i := i + 1 in
        let set_end (h : Z) :=
          (SQLITE_OK,
           mkBitvec (iSize p) (nSet p + 1) (iDivisor p) (aHash (wr (u_aHash p) h i)), k) in
        let set_rehash (h : Z) :=
          if BITVEC_MXHASH <=? nSet p then
            if negb (malloc k) then (SQLITE_NOMEM, p, S k)
            else
              let aiValues := u_aHash p in
              let p := mkBitvec (iSize p) (nSet p) (divisor (iSize p))
                         (apSub (repeat None (Z.to_nat BITVEC_NPTR))) in
              fold_left
                (fun '(rc, p, k) v =>
                   if negb (v =? 0) then
                     let '(rc', p, k) := set_loop fuel' k p (v - 1) in (Z.lor rc rc', p, k)
                   else (rc, p, k))
                aiValues (set_loop fuel' (S k) p (i - 1))
          else set_end h in
        if rd (u_aHash p) h =? 0 then
          if nSet p <? BITVEC_NINT - 1 then set_end h else set_rehash h
        else
          match set_probe (Z.to_nat BITVEC_NINT) (u_aHash p) h i with
          | None => (SQLITE_OK, p, k)
          | Some h => set_rehash h
          end
  end.

(** A level is subdivided and then descended into: two steps per level. *)
Definition BITVEC_SET_FUEL : nat := 9.

Definition sqlite3BitvecSet (k : nat) (p : option Bitvec) (i : Z) : Z * option Bitvec * nat :=
  match p with
  | None => (SQLITE_OK, None, k)
  | Some p =>
      let '(rc, p, k) := set_loop BITVEC_SET_FUEL k p (i - 1) in (rc, Some p, k)
  end.
End Set_.

(** [while( aHash[h] ){ h++; if( h>=BITVEC_NINT ) h = 0; }] *)
Fixpoint free_probe (fuel : nat) (l : list Z) (h : Z) : Z :=
  match fuel with
  | O => h
  | S fuel' =>
      if negb (rd l h =? 0) then
        let h := h + 1 in
        free_probe fuel' l (if BITVEC_NINT <=? h then 0 else h)
      else h
  end.

(** The loop of [sqlite3BitvecClear] over the values: [(nSet, aHash)]. *)
Definition rebuild (aiValues : list Z) (i : Z) : Z * list Z :=
  fold_left
    (fun '(n, l) v =>
       if negb (v =? 0) && negb (v =? i + 1) then
         let h := free_probe (Z.to_nat BITVEC_NINT) l (BITVEC_HASH (v - 1)) in
         (n + 1, wr l h v)
       else (n, l))
    aiValues (0, zeros BITVEC_NINT).

Fixpoint clear_loop (fuel : nat) (p : Bitvec) (i : Z) : Bitvec :=
  match fuel with
  | O => p
  | S fuel' =>
      if negb (iDivisor p =? 0) then
        let bin := i / iDivisor p in
        let i := i mod iDivisor p in
        match nth (Z.to_nat bin) (u_apSub p) None with
        | None => p
        | Some q =>
            mkBitvec (iSize p) (nSet p) (iDivisor p)
              (apSub (set_nth (Z.to_nat bin) (Some (clear_loop fuel' q i)) (u_apSub p)))
        end
      else if iSize p <=? BITVEC_NBIT then
        let j := i / BITVEC_SZELEM in
        mkBitvec (iSize p) (nSet p) (iDivisor p)
          (aBitmap (wr (u_aBitmap p) j
             (Z.land (rd (u_aBitmap p) j) (Z.lnot (u8 (Z.shiftl 1 (Z.land i (BITVEC_SZELEM - 1))))))))
      else
        let '(n, l) := rebuild (u_aHash p) i in
        mkBitvec (iSize p) n (iDivisor p) (aHash l)
  end.

Definition sqlite3BitvecClear (p : option Bitvec) (i : Z) : option Bitvec :=
  match p with None => None | Some p => Some (clear_loop BITVEC_DEPTH p (i - 1)) end.

Definition sqlite3BitvecSize (p : Bitvec) : Z := iSize p.

(** A value of each representation: values that collide fill the table of a
    large bitmap until it is subdivided. *)
Example bitvec_example :
  let all := fun _ => true in
  let set p i := match sqlite3BitvecSet all 0 (Some p) i with (_, Some q, _) => q | _ => p end in
  let p := fold_left set (map (fun n => 124 * Z.of_nat n + 1) (seq 0 70)) (sqlite3BitvecCreate 1000000) in
  (sqlite3BitvecTest (Some p) 125, sqlite3BitvecTest (Some p) 126, iDivisor p,
   sqlite3BitvecTest (sqlite3BitvecClear (Some p) 125) 125)
  = (true, false, 16130, false).
Proof. vm_compute. reflexivity. Qed.

(** ** Hash tables with linear probing *)

Section Table.
(** The number of slots. *)
Abbreviation N := BITVEC_NINT.

Definition at_ (l : list Z) (h : Z) (k : nat) : Z := rd l ((h + Z.of_nat k) mod N).

(** [d] steps from [h] is the first free slot. *)
Definition first_free (l : list Z) (h : Z) (d : nat) : Prop :=
  at_ l h d = 0 /\ forall k, (k < d)%nat -> at_ l h k <> 0.

Definition nonzeros (l : list Z) : nat := length (filter (fun v => negb (v =? 0)) l).

(** Every value is found by probing from its hash. *)
Definition reach (l : list Z) : Prop :=
  forall j, 0 <= j < N -> rd l j <> 0 ->
  exists d, j = (rd l j - 1 + Z.of_nat d) mod N /\ forall k, (k < d)%nat -> at_ l (rd l j - 1) k <> 0.

Lemma N_pos : N = 124. Proof. reflexivity. Qed.

Lemma at_mod l h k : at_ l (h mod N) k = at_ l h k.
Proof. unfold at_. now rewrite Zplus_mod_idemp_l. Qed.

Lemma at_S l h k : at_ l ((h + 1) mod N) k = at_ l h (S k).
Proof. rewrite at_mod. unfold at_. f_equal. f_equal. lia. Qed.

Lemma step_wrap h : 0 <= h < N -> (if N <=? h + 1 then 0 else h + 1) = (h + 1) mod N.
Proof.
  rewrite N_pos. intros H. destruct (Z.leb_spec 124 (h + 1)); [|now rewrite Z.mod_small by lia].
  replace (h + 1) with 124 by lia. reflexivity.
Qed.

Lemma step_range h : 0 <= h mod N < N.
Proof. apply Z.mod_pos_bound. now rewrite N_pos. Qed.

Lemma first_free_S l h d : at_ l h 0 <> 0 -> first_free l ((h + 1) mod N) d -> first_free l h (S d).
Proof.
  intros H0 [He Hk]. rewrite at_S in He. split; [exact He|]. intros [|k] Hlt; [exact H0|].
  rewrite <- at_S. apply Hk. lia.
Qed.

Lemma first_free_inv l h d : first_free l h (S d) -> at_ l h 0 <> 0 /\ first_free l ((h + 1) mod N) d.
Proof.
  intros [He Hk]. split; [apply Hk; lia|]. split; [now rewrite at_S|]. intros k Hlt. rewrite at_S. apply Hk. lia.
Qed.

Lemma at_0 l h : 0 <= h < N -> at_ l h 0 = rd l h.
Proof. intros H. unfold at_. rewrite Z.add_0_r, Z.mod_small by exact H. reflexivity. Qed.

Lemma test_probe_ok fuel l h v d : 0 <= h < N -> v <> 0 -> first_free l h d -> (d < fuel)%nat ->
  test_probe fuel l h v = true <-> exists k, (k < d)%nat /\ at_ l h k = v.
Proof.
  intros Hh Hv. revert fuel h Hh. induction d as [|d IH]; intros fuel h Hh Hf Hlt; (destruct fuel as [|fuel]; [lia|]); cbn [test_probe].
  - destruct Hf as [H0 _]. rewrite at_0 in H0 by exact Hh. rewrite H0. cbn. split; [discriminate|intros (k & Hk & _); lia].
  - apply first_free_inv in Hf as [H0 Hf]. pose proof H0 as H0'. rewrite at_0 in H0' by exact Hh.
    replace (rd l h =? 0) with false by lia. destruct (Z.eqb_spec (rd l h) v) as [E|E].
    + split; [|reflexivity]. intros _. exists 0%nat. rewrite at_0 by exact Hh. split; [lia|exact E].
    + rewrite (IH fuel ((h + 1) mod N) (step_range _) Hf) by lia. split.
      * intros (k & Hk & Ek). exists (S k). rewrite <- at_S. split; [lia|exact Ek].
      * intros ([|k] & Hk & Ek); [rewrite at_0 in Ek by exact Hh; contradiction|].
        exists k. rewrite at_S. split; [lia|exact Ek].
Qed.

Lemma free_probe_ok fuel l h d : 0 <= h < N -> first_free l h d -> (d < fuel)%nat ->
  free_probe fuel l h = (h + Z.of_nat d) mod N.
Proof.
  revert fuel h. induction d as [|d IH]; intros fuel h Hh Hf Hlt; (destruct fuel as [|fuel]; [lia|]); cbn [free_probe].
  - destruct Hf as [H0 _]. rewrite at_0 in H0 by exact Hh. rewrite H0. cbn.
    now rewrite Z.add_0_r, Z.mod_small by exact Hh.
  - apply first_free_inv in Hf as [H0 Hf]. rewrite at_0 in H0 by exact Hh.
    replace (rd l h =? 0) with false by lia. cbn [negb]. rewrite step_wrap by exact Hh.
    rewrite (IH fuel) by (assumption || apply step_range || lia). rewrite Zplus_mod_idemp_l. f_equal. lia.
Qed.

Lemma set_probe_ok fuel l h v d : 0 <= h < N -> first_free l h (S d) -> (d < fuel)%nat ->
  match set_probe fuel l h v with
  | None => exists k, (k < S d)%nat /\ at_ l h k = v
  | Some h' => h' = (h + Z.of_nat (S d)) mod N /\ forall k, (k < S d)%nat -> at_ l h k <> v
  end.
Proof.
  revert fuel h. induction d as [|d IH]; intros fuel h Hh Hf Hlt; (destruct fuel as [|fuel]; [lia|]); cbn [set_probe];
    apply first_free_inv in Hf as [H0 Hf]; pose proof H0 as H0'; rewrite at_0 in H0' by exact Hh;
    rewrite step_wrap by exact Hh; (destruct (Z.eqb_spec (rd l h) v) as [E|E];
    [exists 0%nat; rewrite at_0 by exact Hh; split; [lia|exact E]|]).
  - destruct Hf as [Hf _]. rewrite at_0 in Hf by apply step_range. rewrite Hf. cbn [negb Z.eqb].
    split; [reflexivity|]. intros [|k] Hk; [now rewrite at_0|lia].
  - pose proof Hf as Hf'. apply first_free_inv in Hf' as [H1 _]. rewrite at_0 in H1 by apply step_range.
    replace (rd l ((h + 1) mod N) =? 0) with false by lia. cbn [negb].
    specialize (IH fuel ((h + 1) mod N) (step_range _) Hf ltac:(lia)).
    destruct (set_probe fuel l ((h + 1) mod N) v) as [h'|].
    + destruct IH as [-> IH]. split; [rewrite Zplus_mod_idemp_l; f_equal; lia|].
      intros [|k] Hk; [now rewrite at_0|]. rewrite <- at_S. apply IH. lia.
    + destruct IH as (k & Hk & Ek). exists (S k). rewrite <- at_S. split; [lia|exact Ek].
Qed.

(** A table with a free slot has a first one from any start. *)
Lemma first_free_ex l h e : 0 <= e < N -> rd l e = 0 -> exists d, (d < Z.to_nat N)%nat /\ first_free l h d.
Proof.
  intros He H0. set (n := Z.to_nat ((e - h) mod N)).
  assert (Hn : at_ l h n = 0).
  { unfold at_, n. rewrite Z2Nat.id by apply step_range. rewrite Zplus_mod_idemp_r.
    replace (h + (e - h)) with e by lia. now rewrite Z.mod_small by exact He. }
  assert (Hlt : (n < Z.to_nat N)%nat) by (pose proof (step_range (e - h)); unfold n; lia).
  clearbody n. revert Hn Hlt. induction n as [n IH] using lt_wf_ind. intros Hn Hlt.
  destruct (existsb (fun k => at_ l h k =? 0) (seq 0 n)) eqn:Ex.
  - apply existsb_exists in Ex as (k & Hk & Ek). apply in_seq in Hk. apply (IH k); lia.
  - exists n. split; [exact Hlt|]. split; [exact Hn|]. intros k Hk Ek.
    apply (f_equal negb) in Ex. cbn in Ex. apply negb_true_iff in Ex. rewrite <- not_true_iff_false in Ex.
    apply Ex, existsb_exists. exists k. split; [apply in_seq; lia|]. lia.
Qed.
End Table.

(** A table in use: its size, how full it is, and that probing finds every
    value. *)
Definition table (m : Z) (n : Z) (l : list Z) : Prop :=
  length l = Z.to_nat BITVEC_NINT /\ Z.of_nat (nonzeros l) = n /\ n < BITVEC_NINT /\
  reach l /\ Forall (fun v => 0 <= v <= m) l.

Lemma nonzeros_wr l i v : 0 <= i < Z.of_nat (length l) -> rd l i = 0 -> v <> 0 ->
  nonzeros (wr l i v) = S (nonzeros l).
Proof.
  intros Hi. unfold rd, wr. assert (Hn : (Z.to_nat i < length l)%nat) by lia. clear Hi. revert Hn.
  generalize (Z.to_nat i). clear i. unfold nonzeros.
  induction l as [|x l IH]; intros [|n] Hn Hz Hv; cbn in *; try lia.
  - subst x. cbn. now replace (v =? 0) with false by lia.
  - destruct (x =? 0); cbn [negb length]; rewrite IH by (lia || assumption); reflexivity.
Qed.

Lemma In_wr l i v w : 0 <= i < Z.of_nat (length l) -> rd l i = 0 -> w <> 0 ->
  In w (wr l i v) <-> w = v \/ In w l.
Proof.
  intros Hi Hz Hw. split.
  - intros H. apply In_rd in H as (j & Hj & E). rewrite length_wr in Hj. rewrite rd_wr in E by lia.
    destruct (j =? i); [left; congruence|right]. subst w. now apply rd_In.
  - intros [->|H].
    + replace v with (rd (wr l i v) i) at 1 by (rewrite rd_wr by lia; now rewrite Z.eqb_refl).
      apply rd_In. now rewrite length_wr.
    + apply In_rd in H as (j & Hj & E). rewrite <- E. replace (rd l j) with (rd (wr l i v) j).
      * apply rd_In. now rewrite length_wr.
      * rewrite rd_wr by lia. destruct (Z.eqb_spec j i) as [->|]; [congruence|reflexivity].
Qed.

Lemma table_free m n l h : table m n l -> exists d, (d < Z.to_nat BITVEC_NINT)%nat /\ first_free l h d.
Proof.
  intros (Hl & Hc & Hn & _). assert (He : exists e, 0 <= e < BITVEC_NINT /\ rd l e = 0).
  { destruct (existsb (Z.eqb 0) l) eqn:E.
    - apply existsb_exists in E as (x & Hx & Ex). apply In_rd in Hx as (j & Hj & Ej). exists j. rewrite N_pos in *. lia.
    - exfalso. assert (Hall : nonzeros l = length l); [|rewrite N_pos in *; lia].
      unfold nonzeros. clear - E. induction l as [|x l IH]; [reflexivity|]. cbn in E |- *.
      destruct x; cbn in *; try discriminate; now rewrite IH. }
  destruct He as (e & He & E0). exact (first_free_ex l h e He E0).
Qed.

(** A value is in the table when probing meets it before a free slot. *)
Lemma table_In m n l v d : table m n l -> 0 < v -> first_free l (v - 1) d ->
  In v l <-> exists k, (k < d)%nat /\ at_ l (v - 1) k = v.
Proof.
  intros (Hl & _ & _ & Hr & _) Hv [Hz Hnz]. split.
  - intros H. apply In_rd in H as (j & Hj & E). rewrite Hl, Z2Nat.id in Hj by (rewrite N_pos; lia).
    destruct (Hr j Hj ltac:(lia)) as (d' & Ej & Hk). rewrite E in Ej, Hk. exists d'.
    assert (Ed : at_ l (v - 1) d' = v) by (unfold at_; rewrite <- Ej; exact E).
    split; [|exact Ed]. destruct (lt_eq_lt_dec d' d) as [[H| ->]|H]; [exact H|lia|].
    exfalso. apply (Hk d H Hz).
  - intros (k & _ & E). rewrite <- E. unfold at_. apply rd_In. rewrite Hl, Z2Nat.id by (rewrite N_pos; lia).
    apply step_range.
Qed.

Lemma table_insert m n l v d : table m n l -> 0 < v <= m -> first_free l (v - 1) d -> n + 1 < BITVEC_NINT ->
  let l' := wr l ((v - 1 + Z.of_nat d) mod BITVEC_NINT) v in
  table m (n + 1) l' /\ (forall w, w <> 0 -> In w l' <-> w = v \/ In w l).
Proof.
  intros (Hl & Hc & Hn & Hr & Hb) Hv [Hz Hnz] Hn1. set (h := (v - 1 + Z.of_nat d) mod BITVEC_NINT).
  assert (HL : Z.of_nat (length l) = BITVEC_NINT) by (rewrite Hl, Z2Nat.id by (rewrite N_pos; lia); reflexivity).
  assert (Hh : 0 <= h < Z.of_nat (length l)) by (rewrite HL; apply step_range).
  assert (H0 : rd l h = 0) by exact Hz. intros l'.
  split; [|intros w Hw; now apply In_wr].
  assert (Hmono : forall a k, at_ l a k <> 0 -> at_ l' a k <> 0).
  { intros a k Ha. unfold at_, l' in *. pose proof (step_range (a + Z.of_nat k)).
    rewrite rd_wr by lia. destruct (_ =? h); [lia|exact Ha]. }
  repeat split.
  - unfold l'. rewrite length_wr. exact Hl.
  - unfold l'. rewrite nonzeros_wr by (assumption || lia). lia.
  - exact Hn1.
  - intros j Hj Hnj. unfold l' in Hnj |- *. rewrite rd_wr in * by lia. fold l'.
    destruct (Z.eqb_spec j h) as [->|Hne].
    + exists d. split; [reflexivity|]. auto.
    + destruct (Hr j Hj Hnj) as (d' & Ej & Hk). exists d'. split; [exact Ej|]. auto.
  - apply Forall_forall. intros w Hw. destruct (Z.eq_dec w 0) as [->|Hw0]; [lia|].
    apply In_wr in Hw as [->|Hw]; [lia| |assumption|assumption|assumption].
    rewrite Forall_forall in Hb. auto.
Qed.

Lemma rd_zeros n j : rd (zeros n) j = 0.
Proof. unfold rd, zeros. apply nth_repeat. Qed.

Lemma table_empty m : 0 <= m -> table m 0 (zeros BITVEC_NINT).
Proof.
  intros Hm. repeat split; try reflexivity.
  - intros j _ H. now rewrite rd_zeros in H.
  - apply Forall_forall. intros v Hv. apply repeat_spec in Hv. lia.
Qed.

(** Clearing a value rebuilds the table from the others. *)
Lemma rebuild_ok m n l i : table m n l -> 0 <= i ->
  let '(n', l') := rebuild l i in table m n' l' /\ n' <= n /\ forall w, w <> 0 -> In w l' <-> In w l /\ w <> i + 1.
Proof.
  intros Ht Hi. unfold rebuild.
  assert (Hgen : forall vs n0 l0, table m n0 l0 -> Forall (fun v => 0 <= v <= m) vs ->
    n0 + Z.of_nat (nonzeros vs) < BITVEC_NINT ->
    let '(n', l') := fold_left (fun '(n, l) v =>
       if negb (v =? 0) && negb (v =? i + 1) then
         let h := free_probe (Z.to_nat BITVEC_NINT) l (BITVEC_HASH (v - 1)) in
         (n + 1, wr l h v)
       else (n, l)) vs (n0, l0) in
    table m n' l' /\ n' <= n0 + Z.of_nat (nonzeros vs) /\
    forall w, w <> 0 -> In w l' <-> In w l0 \/ In w vs /\ w <> i + 1).
  { induction vs as [|v vs IH]; intros n0 l0 H0 Hb Hlt; cbn [fold_left].
    - split; [exact H0|]. split; [lia|]. intros w Hw. cbn. tauto.
    - apply Forall_cons_iff in Hb as [Hv Hb]. unfold nonzeros in Hlt |- *. cbn [filter] in Hlt |- *.
      destruct (Z.eqb_spec v 0) as [Ev|Ev]; cbn [negb andb length] in *.
      + specialize (IH n0 l0 H0 Hb Hlt). destruct (fold_left _ vs (n0, l0)) as [n' l'].
        destruct IH as (A1 & A2 & A3). split; [exact A1|]. split; [exact A2|].
        intros w Hw. rewrite (A3 w Hw). cbn. intuition congruence.
      + destruct (Z.eqb_spec v (i + 1)) as [Evi|Evi]; cbn [negb].
        * specialize (IH n0 l0 H0 Hb ltac:(unfold nonzeros; lia)). destruct (fold_left _ vs (n0, l0)) as [n' l'].
          destruct IH as (A1 & A2 & A3). split; [exact A1|]. split; [unfold nonzeros in A2; lia|].
          intros w Hw. rewrite (A3 w Hw). cbn. intuition congruence.
        * destruct (table_free m n0 l0 (v - 1) H0) as (d & Hd & Hf).
          assert (Hf' : first_free l0 ((v - 1) mod BITVEC_NINT) d)
            by (destruct Hf as [F1 F2]; split; [now rewrite at_mod|intros k Hk; rewrite at_mod; auto]).
          assert (Ep : free_probe (Z.to_nat BITVEC_NINT) l0 (BITVEC_HASH (v - 1)) = (v - 1 + Z.of_nat d) mod BITVEC_NINT).
          { unfold BITVEC_HASH. rewrite Z.mul_1_r, (free_probe_ok _ _ _ d) by (assumption || apply step_range).
            apply Zplus_mod_idemp_l. }
          cbv zeta. rewrite Ep.
          destruct (table_insert m n0 l0 v d H0 ltac:(lia) Hf ltac:(lia)) as [T1 T2].
          specialize (IH (n0 + 1) _ T1 Hb ltac:(unfold nonzeros; lia)).
          destruct (fold_left _ vs _) as [n' l']. destruct IH as (A1 & A2 & A3).
          split; [exact A1|]. split; [unfold nonzeros in A2; lia|].
          intros w Hw. rewrite (A3 w Hw), (T2 w Hw). cbn. intuition congruence. }
  assert (Hm : 0 <= m).
  { destruct Ht as (Hl & _ & _ & _ & Hb). destruct l as [|x l]; [discriminate|]. apply Forall_inv in Hb. lia. }
  pose proof Ht as (Hl & Hc & Hn & Hr & Hb).
  specialize (Hgen l 0 (zeros BITVEC_NINT) (table_empty m Hm) Hb ltac:(lia)).
  destruct (fold_left _ l _) as [n' l']. destruct Hgen as (A1 & A2 & A3).
  split; [exact A1|]. split; [lia|]. intros w Hw. rewrite (A3 w Hw). split; [|tauto].
  intros [H|H]; [|exact H]. apply repeat_spec in H. contradiction.
Qed.

(** ** Well-formed bitmaps *)

Definition bitmap_ok (p : Bitvec) : Prop :=
  0 <= iSize p <= BITVEC_NBIT /\ iDivisor p = 0 /\
  exists l, p = mkBitvec (iSize p) (nSet p) 0 (aBitmap l) /\ length l = Z.to_nat BITVEC_NELEM.

Definition hash_ok (p : Bitvec) : Prop :=
  BITVEC_NBIT < iSize p /\ exists l, p = mkBitvec (iSize p) (nSet p) 0 (aHash l) /\ table (iSize p) (nSet p) l.

(** [d] bounds the number of levels below a bitmap. *)
Definition level_size (d : nat) : Z := BITVEC_NBIT * BITVEC_NPTR ^ Z.of_nat d.

Fixpoint wf (d : nat) (p : Bitvec) : Prop :=
  bitmap_ok p \/
  match d with
  | O => False
  | S d' => iSize p <= level_size d /\
      (hash_ok p \/
       (BITVEC_NBIT < iSize p /\ exists l,
          p = mkBitvec (iSize p) (nSet p) (divisor (iSize p)) (apSub l) /\ length l = Z.to_nat BITVEC_NPTR /\
          forall q, In (Some q) l -> wf d' q /\ iSize q = divisor (iSize p)))
  end.

Definition divided (p : Bitvec) : bool := negb (iDivisor p =? 0).

(** Whether the zero-based bit [i] is set. *)
Definition bit (d : nat) (p : Bitvec) (i : Z) : bool := test_loop (S d) p i.

Lemma NBIT_eq : BITVEC_NBIT = 3968. Proof. reflexivity. Qed.
Lemma NPTR_eq : BITVEC_NPTR = 62. Proof. reflexivity. Qed.

Lemma level_size_S d : level_size (S d) = 62 * level_size d.
Proof. unfold level_size. rewrite Nat2Z.inj_succ, Z.pow_succ_r, NPTR_eq by lia. lia. Qed.

Lemma level_size_ge d : 3968 <= level_size d.
Proof.
  unfold level_size. rewrite NBIT_eq, NPTR_eq. pose proof (Z.pow_pos_nonneg 62 (Z.of_nat d)). lia.
Qed.

Lemma divisor_spec n d : 3968 < n <= level_size (S d) ->
  3968 <= divisor n <= level_size d /\ n <= 62 * divisor n /\ divisor n < 2 * n.
Proof.
  rewrite level_size_S. intros H. pose proof (level_size_ge d).
  unfold divisor. rewrite NPTR_eq, NBIT_eq.
  destruct (Z.eqb_spec (n mod 62) 0); cbn [negb].
  - destruct (Z.ltb_spec (n / 62) 3968); Z.to_euclidean_division_equations; lia.
  - destruct (Z.ltb_spec (n / 62 + 1) 3968); Z.to_euclidean_division_equations; lia.
Qed.

(** Where the sub-bitmap of bit [i] is. *)
Lemma bin_range n d i : 3968 < n <= level_size (S d) -> 0 <= i < n ->
  (Z.to_nat (i / divisor n) < 62)%nat /\ 0 <= i mod divisor n < divisor n.
Proof.
  intros Hn Hi. destruct (divisor_spec n d Hn) as (H1 & H2 & _). split; [|apply Z.mod_pos_bound; lia].
  assert (i / divisor n < 62) by (apply Z.div_lt_upper_bound; lia).
  assert (0 <= i / divisor n) by (apply Z.div_pos; lia). lia.
Qed.

Lemma nth_set_nth {A} n m (x d : A) l : (n < length l)%nat ->
  nth m (set_nth n x l) d = if Nat.eqb m n then x else nth m l d.
Proof.
  revert n m. induction l as [|y l IH]; intros [|n] [|m] H; cbn in *; try lia; try reflexivity. apply IH. lia.
Qed.

Lemma length_set_nth {A} n (x : A) l : length (set_nth n x l) = length l.
Proof. revert n. induction l as [|y l IH]; intros [|n]; cbn; auto. Qed.

Lemma In_set_nth {A} n (x y : A) l : In y (set_nth n x l) -> y = x \/ In y l.
Proof.
  revert n. induction l as [|z l IH]; intros [|n] H; cbn in *; try tauto.
  - destruct H as [<-|H]; auto.
  - destruct H as [<-|H]; auto. destruct (IH n H); auto.
Qed.

(** Same sub-bitmap or not. *)
Lemma same_bit m i j : 0 < m -> 0 <= i -> 0 <= j ->
  (j =? i) = Nat.eqb (Z.to_nat (j / m)) (Z.to_nat (i / m)) && (j mod m =? i mod m).
Proof.
  intros Hm Hi Hj. pose proof (Z.div_pos i m Hi Hm). pose proof (Z.div_pos j m Hj Hm).
  destruct (Nat.eqb_spec (Z.to_nat (j / m)) (Z.to_nat (i / m))) as [E|E]; cbn [andb].
  - assert (Eq : j / m = i / m) by lia. pose proof (Z.div_mod i m). pose proof (Z.div_mod j m).
    rewrite Eq in *. lia.
  - apply Z.eqb_neq. intros ->. contradiction.
Qed.

Lemma wf_S d p : wf d p -> wf (S d) p.
Proof.
  revert p. induction d as [|d IH]; intros p.
  - intros [H|[]]. now left.
  - intros [H|(Hs & H)]; [now left|]. right. split.
    + rewrite level_size_S in Hs |- *. rewrite level_size_S. pose proof (level_size_ge d). lia.
    + destruct H as [H|(Hn & l & E & Hl & Hq)]; [now left|]. right. split; [exact Hn|].
      exists l. split; [exact E|]. split; [exact Hl|]. intros q Hin. split; [apply IH|]; now apply Hq.
Qed.

(** More fuel gives the same answer. *)
Lemma test_fuel d f1 f2 p i : wf d p -> (d < f1)%nat -> (d < f2)%nat -> test_loop f1 p i = test_loop f2 p i.
Proof.
  revert f1 f2 p i. induction d as [|d IH]; intros [|f1] [|f2] p i Hw H1 H2; try lia; cbn [test_loop].
  - destruct Hw as [(_ & E & _)|[]]. now rewrite E.
  - destruct Hw as [(_ & E & _)|(Hs & [(_ & l & E & _)|(Hn & l & E & Hl & Hq)])].
    + now rewrite E.
    + rewrite E. reflexivity.
    + rewrite E. cbn [iDivisor u_apSub iSize]. destruct (_ =? 0); [reflexivity|]. cbn [negb].
      destruct (nth _ l None) as [q|] eqn:En; [|reflexivity].
      apply IH; [|lia|lia]. apply Hq. rewrite <- En.
      destruct (nth_in_or_default (Z.to_nat (i / divisor (iSize p))) l None) as [Hin|Hd]; [exact Hin|congruence].
Qed.

Lemma bit_S d p i : wf d p -> bit (S d) p i = bit d p i.
Proof. intros H. apply (test_fuel d); [exact H|lia|lia]. Qed.

(** ** Reading each representation *)

Lemma bit_bitmap d p l i : p = mkBitvec (iSize p) (nSet p) 0 (aBitmap l) -> iSize p <= BITVEC_NBIT -> 0 <= i ->
  bit d p i = Z.testbit (rd l (i / 8)) (i mod 8).
Proof.
  intros E Hs Hi. unfold bit. cbn [test_loop]. rewrite E. cbn [iDivisor iSize u_aBitmap].
  replace (iSize p <=? BITVEC_NBIT) with true by lia. cbn [negb Z.eqb].
  change (BITVEC_SZELEM - 1) with (2 ^ 3 - 1). rewrite land_low by lia. change (2 ^ 3) with 8.
  rewrite land_bit by (apply Z.mod_pos_bound; lia). apply negb_involutive.
Qed.

Lemma bit_hash d p l i : p = mkBitvec (iSize p) (nSet p) 0 (aHash l) -> BITVEC_NBIT < iSize p ->
  table (iSize p) (nSet p) l -> 0 <= i -> bit d p i = true <-> In (i + 1) l.
Proof.
  intros E Hs Ht Hi. unfold bit. cbn [test_loop]. rewrite E. cbn [iDivisor iSize u_aHash].
  replace (iSize p <=? BITVEC_NBIT) with false by lia. cbn [negb Z.eqb].
  destruct (table_free _ _ _ i Ht) as (d0 & Hd & Hf).
  assert (Hf' : first_free l (i mod BITVEC_NINT) d0)
    by (destruct Hf as [F1 F2]; split; [now rewrite at_mod|intros k Hk; rewrite at_mod; auto]).
  unfold BITVEC_HASH. rewrite Z.mul_1_r.
  rewrite (test_probe_ok _ l _ (i + 1) d0 (step_range i) ltac:(lia) Hf' Hd).
  rewrite (table_In _ _ _ (i + 1) d0 Ht ltac:(lia)) by (replace (i + 1 - 1) with i by lia; exact Hf).
  replace (i + 1 - 1) with i by lia. split; intros (k & Hk & Ek); exists k; (split; [exact Hk|]);
    rewrite at_mod in *; exact Ek.
Qed.

Lemma bit_sub d p l i : p = mkBitvec (iSize p) (nSet p) (divisor (iSize p)) (apSub l) -> divisor (iSize p) <> 0 ->
  bit (S d) p i = match nth (Z.to_nat (i / divisor (iSize p))) l None with
                  | None => false
                  | Some q => bit d q (i mod divisor (iSize p))
                  end.
Proof.
  intros E Hd. unfold bit at 1. remember (S d) as d' eqn:Ed. cbn [test_loop]. rewrite E. cbn [iDivisor u_apSub].
  replace (divisor (iSize p) =? 0) with false by lia. cbn [negb]. now subst d'.
Qed.

Lemma create_ok d n : 0 <= n <= level_size d ->
  wf d (sqlite3BitvecCreate n) /\ iSize (sqlite3BitvecCreate n) = n /\
  forall i, 0 <= i -> bit d (sqlite3BitvecCreate n) i = false.
Proof.
  intros Hn. split; [|split; [reflexivity|]].
  - unfold sqlite3BitvecCreate. destruct (Z.leb_spec n BITVEC_NBIT) as [H|H].
    + destruct d; left; (split; [cbn [iSize]; lia|]); split; try reflexivity; eexists; split; reflexivity.
    + destruct d as [|d]; [unfold level_size in Hn; rewrite NBIT_eq in *; cbn in Hn; lia|].
      right. split; [cbn [iSize]; lia|]. left. split; [exact H|]. eexists. split; [reflexivity|].
      apply table_empty. cbn [iSize]. lia.
  - intros i Hi. unfold sqlite3BitvecCreate. destruct (Z.leb_spec n BITVEC_NBIT) as [H|H].
    + rewrite (bit_bitmap d (mkBitvec n 0 0 (aBitmap (zeros BITVEC_NELEM))) (zeros BITVEC_NELEM) i eq_refl H Hi), rd_zeros. apply Z.testbit_0_l.
    + apply not_true_iff_false. rewrite (bit_hash d (mkBitvec n 0 0 (aHash (zeros BITVEC_NINT))) (zeros BITVEC_NINT) i eq_refl H (table_empty n ltac:(lia)) Hi).
      intros Hin. apply repeat_spec in Hin. lia.
Qed.

(** ** Setting a bit *)

(** What setting bit [i] of [p] may leave: only when it succeeds is the bit
    guaranteed, and never is any other bit gained. *)
Definition set_result (d : nat) (p : Bitvec) (i rc : Z) (p' : Bitvec) : Prop :=
  wf d p' /\ iSize p' = iSize p /\ (rc = SQLITE_OK \/ rc = SQLITE_NOMEM) /\
  (divided p = true -> divided p' = true) /\
  (forall j, 0 <= j < iSize p -> bit d p' j = true -> j = i \/ bit d p j = true) /\
  (rc = SQLITE_OK -> forall j, 0 <= j < iSize p -> j = i \/ bit d p j = true -> bit d p' j = true).

Section SetOk.
Variable malloc : nat -> bool.

(** The induction hypothesis: [set_loop] with fuel [f] works at level [d]. *)
Definition set_good (d f : nat) : Prop := forall k p i, wf d p -> 0 <= i < iSize p ->
  let '(rc, p', _) := set_loop malloc f k p i in
  set_result d p i rc p' /\ ((forall n, malloc n = true) -> rc = SQLITE_OK).

Lemma set_bitmap d f k p i : bitmap_ok p -> 0 <= i < iSize p ->
  let '(rc, p', _) := set_loop malloc (S f) k p i in set_result d p i rc p' /\ rc = SQLITE_OK.
Proof.
  intros (Hs & _ & l & E & Hl) Hi. cbn [set_loop].
  replace (BITVEC_NBIT <? iSize p) with false by lia. replace (iSize p <=? BITVEC_NBIT) with true by lia.
  cbn [andb]. split; [|reflexivity]. rewrite E. cbn [iSize nSet iDivisor u_aBitmap] in *.
  change (BITVEC_SZELEM - 1) with (2 ^ 3 - 1). rewrite land_low by lia. change (2 ^ 3) with 8. change BITVEC_SZELEM with 8.
  set (l' := wr l (i / 8) _). set (p' := mkBitvec _ _ _ (aBitmap l')).
  assert (HL : Z.of_nat (length l) = 496) by (rewrite Hl; reflexivity). rewrite NBIT_eq in Hs.
  assert (Hj : 0 <= i / 8 < Z.of_nat (length l)) by (split; [apply Z.div_pos; lia|apply Z.div_lt_upper_bound; lia]).
  assert (Hb : forall j, 0 <= j < iSize p -> bit d p' j = (j =? i) || bit d p j).
  { intros j Hjr. rewrite (bit_bitmap d p' l' j eq_refl) by (cbn [iSize p']; rewrite ?NBIT_eq; lia). unfold l'.
    rewrite (bit_bitmap d p l j E) by (rewrite ?NBIT_eq; lia).
    assert (0 <= j / 8) by (apply Z.div_pos; lia). rewrite rd_wr by lia.
    rewrite (same_bit 8 i j) by lia.
    replace (Nat.eqb (Z.to_nat (j / 8)) (Z.to_nat (i / 8))) with (j / 8 =? i / 8)
      by (destruct (Z.eqb_spec (j / 8) (i / 8)) as [->|]; symmetry; [apply Nat.eqb_refl|apply Nat.eqb_neq; lia]).
    destruct (Z.eqb_spec (j / 8) (i / 8)) as [Ej|]; [|reflexivity]. cbn [andb].
    pose proof (Z.mod_pos_bound i 8). pose proof (Z.mod_pos_bound j 8).
    rewrite Z.lor_spec, Z.shiftl_1_l, Z.pow2_bits_eqb, Ej by lia. rewrite orb_comm. f_equal. apply Z.eqb_sym. }
  split; [|split; [reflexivity|split; [now left|split; [rewrite E; discriminate|]]]].
  - destruct d; left; (split; [cbn [iSize p']; rewrite NBIT_eq; lia|]); split; try reflexivity;
      exists l'; (split; [reflexivity|]); unfold l'; rewrite length_wr; exact Hl.
  - split.
    + intros j Hjr. cbn [iSize] in Hjr. rewrite <- E, Hb by exact Hjr. rewrite orb_true_iff, Z.eqb_eq. tauto.
    + intros _ j Hjr H. cbn [iSize] in Hjr. rewrite <- E in H. rewrite Hb by exact Hjr.
      apply orb_true_iff. rewrite Z.eqb_eq. exact H.
Qed.

(** Replacing the sub-bitmap that bit [i] falls in. *)
Lemma store_sub d p l i q q' rc : BITVEC_NBIT < iSize p -> iSize p <= level_size (S d) ->
  p = mkBitvec (iSize p) (nSet p) (divisor (iSize p)) (apSub l) -> length l = Z.to_nat BITVEC_NPTR ->
  (forall q, In (Some q) l -> wf d q /\ iSize q = divisor (iSize p)) -> 0 <= i < iSize p ->
  (nth (Z.to_nat (i / divisor (iSize p))) l None = Some q \/
   nth (Z.to_nat (i / divisor (iSize p))) l None = None /\ iSize q = divisor (iSize p) /\ forall j, 0 <= j -> bit d q j = false) ->
  set_result d q (i mod divisor (iSize p)) rc q' ->
  set_result (S d) p i rc
    (mkBitvec (iSize p) (nSet p) (divisor (iSize p))
       (apSub (set_nth (Z.to_nat (i / divisor (iSize p))) (Some q') l))).
Proof.
  rewrite NBIT_eq. intros Hn Hs E Hl Hq Hi Hold (W & Hsz & Hrc & _ & Hsound & Hcomp).
  destruct (divisor_spec (iSize p) d ltac:(lia)) as (HD & _).
  destruct (bin_range (iSize p) d i ltac:(lia) Hi) as [Hbin Hmod].
  set (p' := mkBitvec _ _ _ _). set (bin := Z.to_nat (i / divisor (iSize p))) in *.
  assert (Hbl : (bin < length l)%nat) by (rewrite Hl, NPTR_eq; lia).
  assert (Hqs : iSize q = divisor (iSize p)).
  { destruct Hold as [Hnth|(_ & H & _)]; [|exact H]. apply Hq. rewrite <- Hnth. apply nth_In. exact Hbl. }
  assert (Hbq : forall j, 0 <= j < iSize p -> Z.to_nat (j / divisor (iSize p)) = bin ->
             bit (S d) p j = bit d q (j mod divisor (iSize p))).
  { intros j Hj Ej. rewrite (bit_sub d p l j E) by lia. rewrite Ej. destruct Hold as [->|(-> & _ & H)]; [reflexivity|].
    symmetry. apply H. apply Z.mod_pos_bound. lia. }
  assert (Hbp : forall j, 0 <= j < iSize p -> bit (S d) p' j =
            if Nat.eqb (Z.to_nat (j / divisor (iSize p))) bin then bit d q' (j mod divisor (iSize p)) else bit (S d) p j).
  { intros j Hj. rewrite (bit_sub d p' (set_nth bin (Some q') l) j eq_refl) by (cbn; lia). cbn [iSize p'].
    rewrite nth_set_nth by exact Hbl. destruct (Nat.eqb _ bin); [reflexivity|]. rewrite (bit_sub d p l j E) by lia. reflexivity. }
  split; [|split; [reflexivity|split; [exact Hrc|split]]].
  - right. split; [exact Hs|]. right. split; [exact Hn|]. exists (set_nth bin (Some q') l).
    split; [reflexivity|]. split; [now rewrite length_set_nth|]. intros r Hr. apply In_set_nth in Hr as [Er|Hr]; [|now apply Hq].
    injection Er as ->. split; [exact W|]. now rewrite Hsz.
  - intros _. unfold divided. cbn. now replace (divisor (iSize p) =? 0) with false by lia.
  - split.
    + intros j Hj. rewrite Hbp by exact Hj. destruct (Nat.eqb_spec (Z.to_nat (j / divisor (iSize p))) bin) as [Ej|Ej]; [|auto].
      intros H. apply Hsound in H; [|rewrite Hqs; apply Z.mod_pos_bound; lia].
      rewrite (Hbq j Hj Ej). destruct H as [H|H]; [left|now right].
      apply Z.eqb_eq. rewrite (same_bit (divisor (iSize p)) i j) by lia. fold bin. rewrite Ej, Nat.eqb_refl. cbn. lia.
    + intros Hok j Hj H. rewrite Hbp by exact Hj.
      destruct (Nat.eqb_spec (Z.to_nat (j / divisor (iSize p))) bin) as [Ej|Ej].
      * apply Hcomp; [exact Hok|rewrite Hqs; apply Z.mod_pos_bound; lia|].
        destruct H as [->|H]; [now left|right]. now rewrite <- Hbq.
      * destruct H as [->|H]; [contradiction|exact H].
Qed.

Lemma set_sub d f k p i : set_good d f -> wf (S d) p -> divided p = true -> 0 <= i < iSize p ->
  let '(rc, p', _) := set_loop malloc (S f) k p i in
  set_result (S d) p i rc p' /\ ((forall n, malloc n = true) -> rc = SQLITE_OK).
Proof.
  intros IH Hw Hdiv Hi. unfold divided in Hdiv.
  destruct Hw as [(_ & E & _)|(Hs & [(_ & l & E & _)|(Hn & l & E & Hl & Hq)])];
    [rewrite E in Hdiv; discriminate|rewrite E in Hdiv; discriminate|].
  cbn [set_loop]. rewrite Hdiv. replace (BITVEC_NBIT <? iSize p) with true by lia. cbn [andb].
  assert (Ed : iDivisor p = divisor (iSize p)) by (rewrite E; reflexivity).
  assert (El : u_apSub p = l) by (rewrite E; reflexivity). rewrite Ed, El.
  destruct (divisor_spec (iSize p) d ltac:(rewrite NBIT_eq in Hn; lia)) as (HD & _).
  destruct (bin_range (iSize p) d i ltac:(rewrite NBIT_eq in Hn; lia) Hi) as [Hbin Hmod].
  destruct (nth (Z.to_nat (i / divisor (iSize p))) l None) as [q|] eqn:En.
  - assert (Hin : In (Some q) l) by (rewrite <- En; apply nth_In; rewrite Hl, NPTR_eq; lia).
    destruct (Hq q Hin) as [Wq Sq].
    specialize (IH k q (i mod divisor (iSize p)) Wq ltac:(lia)).
    destruct (set_loop malloc f k q _) as [[rc q'] k']. destruct IH as [Hr Hok]. split; [|exact Hok].
    apply (store_sub d p l i q q' rc); auto.
  - destruct (malloc k) eqn:Em.
    + destruct (create_ok d (divisor (iSize p)) ltac:(lia)) as (Wq & Sq & Bq).
      specialize (IH (S k) _ (i mod divisor (iSize p)) Wq ltac:(rewrite Sq; lia)).
      destruct (set_loop malloc f (S k) _ _) as [[rc q'] k']. destruct IH as [Hr Hok]. split; [|exact Hok].
      eapply (store_sub d p l i); eauto.
    + split; [|intros Hall; rewrite Hall in Em; discriminate].
      assert (Hw : wf (S d) p) by (right; split; [exact Hs|right; split; [exact Hn|eauto]]).
      repeat split; auto; [discriminate].
Qed.

(** Setting the values of the old table one after the other. *)
Lemma fold_sets d F n vs :
  (forall k p i, wf d p -> divided p = true -> 0 <= i < iSize p ->
     let '(rc, p', _) := set_loop malloc F k p i in
     set_result d p i rc p' /\ ((forall n, malloc n = true) -> rc = SQLITE_OK)) ->
  Forall (fun v => 0 <= v <= n) vs ->
  forall rc0 p0 k0, wf d p0 -> divided p0 = true -> iSize p0 = n -> rc0 = SQLITE_OK \/ rc0 = SQLITE_NOMEM ->
  let '(rc', p', _) := fold_left
      (fun '(rc, p, k) v =>
         if negb (v =? 0) then
           let '(rc', p, k) := set_loop malloc F k p (v - 1) in (Z.lor rc rc', p, k)
         else (rc, p, k)) vs (rc0, p0, k0) in
  wf d p' /\ iSize p' = n /\ (rc' = SQLITE_OK \/ rc' = SQLITE_NOMEM) /\ divided p' = true /\
  (forall j, 0 <= j < n -> bit d p' j = true -> bit d p0 j = true \/ In (j + 1) vs) /\
  (rc' = SQLITE_OK -> rc0 = SQLITE_OK /\
     forall j, 0 <= j < n -> bit d p0 j = true \/ In (j + 1) vs -> bit d p' j = true) /\
  ((forall n, malloc n = true) -> rc0 = SQLITE_OK -> rc' = SQLITE_OK).
Proof.
  intros Hstep. induction vs as [|v vs IH]; intros Hb rc0 p0 k0 Hw Hd Hs Hrc; cbn [fold_left].
  - do 4 (split; [assumption|]). split; [auto|]. split; [|auto]. intros Hok. split; [exact Hok|].
    intros j Hj [H|[]]. exact H.
  - apply Forall_cons_iff in Hb as [Hv Hb]. destruct (Z.eqb_spec v 0) as [Ev|Ev]; cbn [negb].
    + specialize (IH Hb rc0 p0 k0 Hw Hd Hs Hrc). destruct (fold_left _ vs _) as [[rc' p'] k'].
      destruct IH as (A1 & A2 & A3 & A4 & A5 & A6 & A7). do 4 (split; [assumption|]). split; [|split; [|exact A7]].
      * intros j Hj Hbit. destruct (A5 j Hj Hbit); [now left|right; now right].
      * intros Hok. destruct (A6 Hok) as [Hok0 Hc]. split; [exact Hok0|].
        intros j Hj [Hbit|[He|Hin]]; [|lia|]; apply Hc; auto.
    + specialize (Hstep k0 p0 (v - 1) Hw Hd ltac:(lia)).
      destruct (set_loop malloc F k0 p0 (v - 1)) as [[rc1 p1] k1].
      destruct Hstep as [(W1 & S1 & R1 & D1 & So1 & Co1) M1].
      assert (Hlor : (Z.lor rc0 rc1 = SQLITE_OK \/ Z.lor rc0 rc1 = SQLITE_NOMEM) /\
                (Z.lor rc0 rc1 = SQLITE_OK <-> rc0 = SQLITE_OK /\ rc1 = SQLITE_OK)).
      { destruct Hrc as [-> | ->], R1 as [-> | ->]; cbn; split; auto; split; try tauto; try discriminate; intros [? ?]; discriminate. }
      destruct Hlor as [Hl1 Hl2].
      specialize (IH Hb (Z.lor rc0 rc1) p1 k1 W1 (D1 Hd) ltac:(lia) Hl1).
      destruct (fold_left _ vs _) as [[rc' p'] k'].
      destruct IH as (A1 & A2 & A3 & A4 & A5 & A6 & A7). do 4 (split; [assumption|]). split; [|split].
      * intros j Hj Hbit. destruct (A5 j Hj Hbit) as [H|H]; [|right; now right].
        destruct (So1 j ltac:(lia) H) as [Hjv|H']; [right; left; lia|now left].
      * intros Hok. destruct (A6 Hok) as [Hok1 Hc]. apply Hl2 in Hok1 as [Hok0 Hok1]. split; [exact Hok0|].
        intros j Hj Hj2. apply Hc; [exact Hj|].
        destruct Hj2 as [Hbit|[He|Hin]]; [left|left|now right]; apply (Co1 Hok1 j ltac:(lia)); [now right|left; lia].
      * intros Hall Hok. apply (A7 Hall). apply Hl2. split; [exact Hok|now apply M1].
Qed.

(** The table after it is subdivided. *)
Lemma subdivided d p : BITVEC_NBIT < iSize p <= level_size (S d) ->
  let p1 := mkBitvec (iSize p) (nSet p) (divisor (iSize p)) (apSub (repeat None (Z.to_nat BITVEC_NPTR))) in
  wf (S d) p1 /\ divided p1 = true /\ forall j, bit (S d) p1 j = false.
Proof.
  rewrite NBIT_eq. intros Hn p1. destruct (divisor_spec (iSize p) d Hn) as (HD & _). split; [|split].
  - right. split; [exact (proj2 Hn)|]. right. split; [exact (proj1 Hn)|]. eexists. split; [reflexivity|].
    split; [apply repeat_length|]. intros q Hq. apply repeat_spec in Hq. discriminate.
  - unfold divided. cbn [iDivisor p1]. lia.
  - intros j. rewrite (bit_sub d p1 (repeat None (Z.to_nat BITVEC_NPTR)) j eq_refl) by (cbn [iSize p1]; lia).
    now rewrite nth_repeat.
Qed.

Lemma rehash_ok d f k p l i : set_good d f ->
  p = mkBitvec (iSize p) (nSet p) 0 (aHash l) -> table (iSize p) (nSet p) l ->
  BITVEC_NBIT < iSize p <= level_size (S d) -> 0 <= i < iSize p -> wf (S d) p ->
  let '(rc, p', _) :=
    fold_left
      (fun '(rc, p, k) v =>
         if negb (v =? 0) then
           let '(rc', p, k) := set_loop malloc (S f) k p (v - 1) in (Z.lor rc rc', p, k)
         else (rc, p, k))
      l (set_loop malloc (S f) k
           (mkBitvec (iSize p) (nSet p) (divisor (iSize p)) (apSub (repeat None (Z.to_nat BITVEC_NPTR)))) i) in
  set_result (S d) p i rc p' /\ ((forall n, malloc n = true) -> rc = SQLITE_OK).
Proof.
  intros IH E Ht Hn Hi Hw. destruct (subdivided d p Hn) as (W1 & D1 & B1).
  set (p1 := mkBitvec _ _ _ (apSub _)) in *.
  pose proof (fun k p i => set_sub d f k p i IH) as Hstep.
  pose proof (Hstep k p1 i W1 D1 Hi) as H0. destruct (set_loop malloc (S f) k p1 i) as [[rc0 p0] k0].
  destruct H0 as [(W0 & S0 & R0 & D0 & So0 & Co0) M0].
  assert (Hb : Forall (fun v => 0 <= v <= iSize p) l) by apply Ht.
  pose proof (fold_sets (S d) (S f) (iSize p) l Hstep Hb rc0 p0 k0 W0 (D0 D1) S0 R0) as Hfold.
  destruct (fold_left _ l _) as [[rc' p'] k']. destruct Hfold as (A1 & A2 & A3 & A4 & A5 & A6 & A7).
  assert (Hbit : forall j, 0 <= j -> bit (S d) p j = true <-> In (j + 1) l)
    by (intros j Hj; apply bit_hash; auto; lia).
  split; [|intros Hall; apply (A7 Hall), M0, Hall].
  split; [exact A1|]. split; [exact A2|]. split; [exact A3|]. split; [intros _; exact A4|]. split.
  - intros j Hj H. destruct (A5 j Hj H) as [H'|H'].
    + destruct (So0 j Hj H') as [->|H'']; [now left|]. rewrite B1 in H''. discriminate.
    + right. apply Hbit; [lia|exact H'].
  - intros Hok j Hj H. destruct (A6 Hok) as [Hok0 Hc]. apply Hc; [exact Hj|].
    destruct H as [->|H]; [left; apply (Co0 Hok0 i Hj); now left|right; apply Hbit; [lia|exact H]].
Qed.

(** Adding the value to the table at its first free slot. *)
Lemma insert_ok d p l i d0 : p = mkBitvec (iSize p) (nSet p) 0 (aHash l) -> table (iSize p) (nSet p) l ->
  BITVEC_NBIT < iSize p <= level_size (S d) -> 0 <= i < iSize p -> first_free l i d0 -> nSet p + 1 < BITVEC_NINT ->
  set_result (S d) p i SQLITE_OK
    (mkBitvec (iSize p) (nSet p + 1) (iDivisor p) (aHash (wr l ((i + Z.of_nat d0) mod BITVEC_NINT) (i + 1)))).
Proof.
  intros E Ht Hn Hi Hf Hfull. replace (iDivisor p) with 0 by (rewrite E; reflexivity).
  assert (Ei : i = i + 1 - 1) by lia.
  destruct (table_insert _ _ _ (i + 1) d0 Ht ltac:(lia) ltac:(rewrite <- Ei; exact Hf) Hfull) as [T1 T2].
  rewrite <- Ei in T1, T2. set (l' := wr l _ _) in *. set (p' := mkBitvec _ _ _ _).
  assert (Hb : forall j, 0 <= j -> bit (S d) p j = true <-> In (j + 1) l) by (intros j Hj; apply bit_hash; auto; lia).
  assert (Hb' : forall j, 0 <= j -> bit (S d) p' j = true <-> In (j + 1) l')
    by (intros j Hj; apply (bit_hash (S d) p'); [reflexivity|cbn [iSize p']; lia|exact T1|exact Hj]).
  split; [|split; [reflexivity|split; [now left|split; [rewrite E; discriminate|split]]]].
  - right. split; [exact (proj2 Hn)|]. left. split; [exact (proj1 Hn)|]. exists l'. split; [reflexivity|exact T1].
  - intros j Hj H. apply Hb' in H; [|lia]. apply T2 in H; [|lia]. rewrite Hb by lia. destruct H as [H|H]; [left; lia|now right].
  - intros _ j Hj H. apply Hb'; [lia|]. apply T2; [lia|]. rewrite Hb in H by lia. destruct H as [->|H]; [now left|now right].
Qed.

Lemma set_hash d f k p i : set_good d f -> wf (S d) p -> hash_ok p -> iSize p <= level_size (S d) -> 0 <= i < iSize p ->
  let '(rc, p', _) := set_loop malloc (S (S f)) k p i in
  set_result (S d) p i rc p' /\ ((forall n, malloc n = true) -> rc = SQLITE_OK).
Proof.
  intros IH Hw (Hn & l & E & Ht) Hs Hi. remember (S f) as F eqn:EF. cbn [set_loop].
  assert (Hd : iDivisor p = 0) by (rewrite E; reflexivity).
  assert (Hl : u_aHash p = l) by (rewrite E; reflexivity).
  rewrite Hd, Hl. replace (iSize p <=? BITVEC_NBIT) with false by lia. cbn [Z.eqb negb]. rewrite andb_false_r.
  cbv zeta. replace (i + 1 - 1) with i by lia. unfold BITVEC_HASH. rewrite Z.mul_1_r.
  pose proof (rehash_ok d f (S k) p l i IH E Ht ltac:(lia) Hi Hw) as Hre. rewrite <- EF in Hre.
  assert (Hnomem : set_result (S d) p i SQLITE_NOMEM p) by (repeat split; auto; discriminate).
  destruct (table_free _ _ _ i Ht) as (d0 & Hd0 & Hf).
  assert (Hf' : first_free l (i mod BITVEC_NINT) d0)
    by (destruct Hf as [F1 F2]; split; [now rewrite at_mod|intros k' Hk'; rewrite at_mod; auto]).
  pose proof (step_range i) as Hsr.
  pose proof (fun H => insert_ok d p l i d0 E Ht ltac:(lia) Hi Hf H) as Hins. rewrite Hd in Hins.
  destruct d0 as [|d0].
  - destruct Hf' as [Hz _]. rewrite at_0 in Hz by exact Hsr. rewrite Hz. cbn [Z.eqb].
    cbn [Z.of_nat] in Hins. rewrite Z.add_0_r in Hins.
    destruct (Z.ltb_spec (nSet p) (BITVEC_NINT - 1)); [split; [apply Hins; lia|auto]|].
    replace (BITVEC_MXHASH <=? nSet p) with true by (change BITVEC_MXHASH with 62; rewrite N_pos in *; lia).
    destruct (malloc k) eqn:Em; cbn [negb]; [exact Hre|]. split; [exact Hnomem|]. intros Hall. now rewrite Hall in Em.
  - pose proof Hf' as Hf2. apply first_free_inv in Hf2 as [Hz _]. rewrite at_0 in Hz by exact Hsr.
    replace (rd l (i mod BITVEC_NINT) =? 0) with false by lia.
    pose proof (set_probe_ok (Z.to_nat BITVEC_NINT) l _ (i + 1) d0 Hsr Hf' ltac:(lia)) as Hp.
    destruct (set_probe _ l _ _) as [h|].
    + destruct Hp as [-> _]. rewrite Zplus_mod_idemp_l.
      destruct (Z.leb_spec BITVEC_MXHASH (nSet p)) as [Hm|Hm].
      * destruct (malloc k) eqn:Em; cbn [negb]; [exact Hre|]. split; [exact Hnomem|]. intros Hall. now rewrite Hall in Em.
      * split; [|auto]. apply Hins. change BITVEC_MXHASH with 62 in Hm. rewrite N_pos. lia.
    + destruct Hp as (k' & Hk' & Ek). rewrite at_mod in Ek.
      assert (Hin : In (i + 1) l).
      { apply (table_In _ _ _ (i + 1) (S d0) Ht); [lia| |]; replace (i + 1 - 1) with i by lia; eauto. }
      split; [|auto]. repeat split; auto. intros _ j Hj [->|H]; [|exact H]. apply (bit_hash (S d) p l); auto; lia.
Qed.

(** Fuel [2 d + 1] is enough at level [d]. *)
Lemma set_ok d f : (2 * d + 1 <= f)%nat -> set_good d f.
Proof.
  revert f. induction d as [|d IH]; intros f Hf k p i Hw Hi.
  - destruct f as [|f]; [lia|]. destruct Hw as [Hb|[]].
    pose proof (set_bitmap 0 f k p i Hb Hi) as H. destruct (set_loop malloc (S f) k p i) as [[rc p'] k']. tauto.
  - destruct f as [|[|f]]; try lia. pose proof Hw as [Hb|(Hs & [Hh|Hsub])].
    + pose proof (set_bitmap (S d) (S f) k p i Hb Hi) as H. destruct (set_loop malloc (S (S f)) k p i) as [[rc p'] k']. tauto.
    + apply set_hash; auto. apply IH. lia.
    + apply set_sub; auto; [apply IH; lia|]. destruct Hsub as (Hn & l & E & _). rewrite NBIT_eq in Hn.
      destruct (divisor_spec (iSize p) d ltac:(lia)) as (HD & _). unfold divided. rewrite E. cbn [iDivisor]. lia.
Qed.
End SetOk.

(** ** Clearing a bit *)

Lemma clear_bitmap d p i : bitmap_ok p -> 0 <= i < iSize p ->
  let p' := clear_loop 1 p i in
  bitmap_ok p' /\ iSize p' = iSize p /\ forall j, 0 <= j < iSize p -> bit d p' j = negb (j =? i) && bit d p j.
Proof.
  intros (Hs & Hd & l & E & Hl) Hi. cbn [clear_loop]. rewrite Hd. replace (iSize p <=? BITVEC_NBIT) with true by lia.
  cbn [Z.eqb negb]. replace (u_aBitmap p) with l by (rewrite E; reflexivity).
  change (BITVEC_SZELEM - 1) with (2 ^ 3 - 1). rewrite land_low by lia. change (2 ^ 3) with 8. change BITVEC_SZELEM with 8.
  set (l' := wr l (i / 8) _). set (p' := mkBitvec _ _ _ (aBitmap l')). rewrite NBIT_eq in Hs.
  assert (HL : Z.of_nat (length l) = 496) by (rewrite Hl; reflexivity).
  assert (Hj : 0 <= i / 8 < Z.of_nat (length l)) by (split; [apply Z.div_pos; lia|apply Z.div_lt_upper_bound; lia]).
  split; [|split; [reflexivity|]].
  - split; [cbn [iSize p']; rewrite NBIT_eq; lia|]. split; [reflexivity|]. exists l'. split; [reflexivity|].
    unfold l'. now rewrite length_wr.
  - intros j Hjr. rewrite (bit_bitmap d p' l' j eq_refl) by (cbn [iSize p']; rewrite ?NBIT_eq; lia).
    rewrite (bit_bitmap d p l j E) by (rewrite ?NBIT_eq; lia). unfold l'.
    assert (0 <= j / 8) by (apply Z.div_pos; lia). rewrite rd_wr by lia. rewrite (same_bit 8 i j) by lia.
    replace (Nat.eqb (Z.to_nat (j / 8)) (Z.to_nat (i / 8))) with (j / 8 =? i / 8)
      by (destruct (Z.eqb_spec (j / 8) (i / 8)) as [->|]; symmetry; [apply Nat.eqb_refl|apply Nat.eqb_neq; lia]).
    destruct (Z.eqb_spec (j / 8) (i / 8)) as [Ej|]; [|reflexivity]. cbn [andb].
    pose proof (Z.mod_pos_bound i 8 ltac:(lia)) as Hi8. pose proof (Z.mod_pos_bound j 8 ltac:(lia)) as Hj8.
    pose proof (Z.pow_lt_mono_r 2 (i mod 8) 8 ltac:(lia) ltac:(lia) ltac:(lia)) as Hp8.
    rewrite Z.shiftl_1_l. unfold u8. rewrite Z.mod_small by (split; [apply Z.pow_nonneg; lia|exact Hp8]).
    rewrite Z.land_spec, Z.lnot_spec, Z.pow2_bits_eqb, Ej, andb_comm by lia. f_equal. f_equal. apply Z.eqb_sym.
Qed.

Lemma clear_ok d f p i : wf d p -> (d < f)%nat -> 0 <= i < iSize p ->
  let p' := clear_loop f p i in
  wf d p' /\ iSize p' = iSize p /\ forall j, 0 <= j < iSize p -> bit d p' j = negb (j =? i) && bit d p j.
Proof.
  revert f p i. induction d as [|d IH]; intros f p i Hw Hf Hi; (destruct f as [|f]; [lia|]).
  - destruct Hw as [Hb|[]]. pose proof Hb as (_ & Hd & _).
    pose proof (clear_bitmap 0 p i Hb Hi) as (B & S1 & Hj). cbn [clear_loop] in *. rewrite Hd in *. cbn [Z.eqb negb] in *.
    replace (iSize p <=? BITVEC_NBIT) with true in * by (destruct Hb as (Hs & _); lia).
    split; [now left|]. now split.
  - pose proof Hw as [Hb|(Hs & [(Hn & l & E & Ht)|(Hn & l & E & Hl & Hq)])].
    + pose proof Hb as (_ & Hd & _).
      pose proof (clear_bitmap (S d) p i Hb Hi) as (B & S1 & Hj). cbn [clear_loop] in *. rewrite Hd in *. cbn [Z.eqb negb] in *.
      replace (iSize p <=? BITVEC_NBIT) with true in * by (destruct Hb as (Hsz & _); lia).
      split; [now left|]. now split.
    + cbn [clear_loop]. replace (iDivisor p) with 0 by (rewrite E; reflexivity). cbn [Z.eqb negb].
      replace (iSize p <=? BITVEC_NBIT) with false by lia. replace (u_aHash p) with l by (rewrite E; reflexivity).
      pose proof (rebuild_ok _ _ _ i Ht ltac:(lia)) as Hr. destruct (rebuild l i) as [n' l'].
      destruct Hr as (T & _ & Hin). set (p' := mkBitvec (iSize p) n' 0 (aHash l')). split; [|split; [reflexivity|]].
      * right. split; [exact Hs|]. left. split; [exact Hn|]. exists l'. split; [reflexivity|exact T].
      * intros j Hj. apply eq_true_iff_eq. rewrite andb_true_iff, negb_true_iff, Z.eqb_neq.
        rewrite (bit_hash (S d) p l j E) by (assumption || lia).
        rewrite (bit_hash (S d) p' l' j eq_refl) by (cbn [iSize p']; assumption || lia).
        rewrite Hin by lia. intuition lia.
    + rewrite NBIT_eq in Hn. destruct (divisor_spec (iSize p) d ltac:(lia)) as (HD & _).
      destruct (bin_range (iSize p) d i ltac:(lia) Hi) as [Hbin Hmod].
      cbn [clear_loop]. replace (iDivisor p) with (divisor (iSize p)) by (rewrite E; reflexivity).
      replace (divisor (iSize p) =? 0) with false by lia. cbn [negb].
      replace (u_apSub p) with l by (rewrite E; reflexivity).
      set (bin := Z.to_nat (i / divisor (iSize p))) in *.
      assert (Hbl : (bin < length l)%nat) by (rewrite Hl, NPTR_eq; lia).
      assert (Hsame : forall j, 0 <= j < iSize p -> (j =? i) =
         Nat.eqb (Z.to_nat (j / divisor (iSize p))) bin && (j mod divisor (iSize p) =? i mod divisor (iSize p)))
        by (intros j Hj; apply same_bit; lia).
      destruct (nth bin l None) as [q|] eqn:En.
      * destruct (Hq q) as [Wq Sq]; [rewrite <- En; now apply nth_In|].
        destruct (IH f q (i mod divisor (iSize p)) Wq ltac:(lia) ltac:(lia)) as (W' & S' & Hb').
        set (q' := clear_loop f q _) in *. set (p' := mkBitvec _ _ _ (apSub _)). split; [|split; [reflexivity|]].
        { right. split; [exact Hs|]. right. split; [rewrite NBIT_eq; exact Hn|]. exists (set_nth bin (Some q') l).
          split; [reflexivity|]. split; [now rewrite length_set_nth|]. intros r Hr. apply In_set_nth in Hr as [Er|Hr]; [|now apply Hq].
          injection Er as ->. split; [exact W'|]. now rewrite S'. }
        intros j Hj. rewrite (bit_sub d p' (set_nth bin (Some q') l) j eq_refl) by (cbn [iSize p']; lia).
        cbn [iSize p']. rewrite nth_set_nth by exact Hbl. rewrite (bit_sub d p l j E) by lia. rewrite (Hsame j Hj).
        destruct (Nat.eqb_spec (Z.to_nat (j / divisor (iSize p))) bin) as [Ej|]; [|reflexivity].
        rewrite Ej, En. cbn [andb]. apply Hb'. rewrite Sq. apply Z.mod_pos_bound. lia.
      * cbv zeta. split; [exact Hw|]. split; [reflexivity|]. intros j Hj.
        rewrite (Hsame j Hj), (bit_sub d p l j E) by lia.
        destruct (Nat.eqb_spec (Z.to_nat (j / divisor (iSize p))) bin) as [Ej|]; [|reflexivity].
        rewrite Ej, En. now rewrite andb_false_r.
Qed.

(** ** The component's claims *)

(** Bitmaps for a 32-bit size; [level_size 4] exceeds [2 ^ 32]. *)
Definition valid (p : Bitvec) : Prop := wf 4 p /\ 0 <= iSize p < 2 ^ 32.

Lemma test_bit p i : 1 <= i <= iSize p -> iSize p < 2 ^ 32 -> sqlite3BitvecTest (Some p) i = bit 4 p (i - 1).
Proof.
  intros Hi Hs. cbn [sqlite3BitvecTest]. unfold sqlite3BitvecTestNotNull, u32. rewrite Z.mod_small by lia.
  now replace (iSize p <=? i - 1) with false by lia.
Qed.

Lemma create_valid n : 0 <= n < 2 ^ 32 -> valid (sqlite3BitvecCreate n) /\
  forall i, sqlite3BitvecTest (Some (sqlite3BitvecCreate n)) i = false.
Proof.
  intros Hn. destruct (create_ok 4 n) as (W & S0 & B); [change (level_size 4) with 58632501248; lia|].
  split; [split; [exact W|now rewrite S0]|]. intros i. cbn [sqlite3BitvecTest]. unfold sqlite3BitvecTestNotNull.
  destruct (_ <=? _); [reflexivity|]. apply B. unfold u32. apply Z.mod_pos_bound. lia.
Qed.

Lemma set_valid malloc k p i : valid p -> 1 <= i <= iSize p ->
  exists rc p' k', sqlite3BitvecSet malloc k (Some p) i = (rc, Some p', k') /\
  valid p' /\ iSize p' = iSize p /\ (rc = SQLITE_OK \/ rc = SQLITE_NOMEM) /\
  (forall j, 1 <= j <= iSize p -> sqlite3BitvecTest (Some p') j = true -> j = i \/ sqlite3BitvecTest (Some p) j = true) /\
  (rc = SQLITE_OK -> forall j, 1 <= j <= iSize p ->
     j = i \/ sqlite3BitvecTest (Some p) j = true -> sqlite3BitvecTest (Some p') j = true) /\
  ((forall n, malloc n = true) -> rc = SQLITE_OK).
Proof.
  intros [Hw Hs] Hi. unfold sqlite3BitvecSet.
  pose proof (set_ok malloc 4 BITVEC_SET_FUEL ltac:(unfold BITVEC_SET_FUEL; lia) k p (i - 1) Hw ltac:(lia)) as H.
  destruct (set_loop malloc BITVEC_SET_FUEL k p (i - 1)) as [[rc p'] k'].
  destruct H as [(W & S' & R & _ & So & Co) M]. exists rc, p', k'. split; [reflexivity|].
  split; [split; [exact W|lia]|]. split; [exact S'|]. split; [exact R|]. split; [|split; [|exact M]].
  - intros j Hj. rewrite !test_bit by lia. intros H. destruct (So (j - 1) ltac:(lia) H) as [E|E]; [left; lia|now right].
  - intros Hok j Hj. rewrite !test_bit by lia. intros H. apply (Co Hok); [lia|].
    destruct H as [->|H]; [now left|now right].
Qed.

Lemma clear_valid p i : valid p -> 1 <= i <= iSize p ->
  exists p', sqlite3BitvecClear (Some p) i = Some p' /\ valid p' /\ iSize p' = iSize p /\
  forall j, 1 <= j <= iSize p -> sqlite3BitvecTest (Some p') j = negb (j =? i) && sqlite3BitvecTest (Some p) j.
Proof.
  intros [Hw Hs] Hi. eexists. split; [reflexivity|].
  destruct (clear_ok 4 BITVEC_DEPTH p (i - 1) Hw ltac:(unfold BITVEC_DEPTH; lia) ltac:(lia)) as (W & S' & B).
  split; [split; [exact W|lia]|]. split; [exact S'|]. intros j Hj. rewrite !test_bit by lia. rewrite B by lia.
  f_equal. f_equal. lia.
Qed.

(** Setting a bit, with or without memory. For every bitmap in any of its
    three representations and whatever allocations fail, [sqlite3BitvecSet]
    leaves a well-formed bitmap in which no bit appears that was not set
    before, other than the requested one; when it returns [SQLITE_OK] every
    earlier bit and the requested one test true; and it returns [SQLITE_OK]
    when no allocation fails. *)
Theorem bitvec_set_correct malloc k p i : valid p -> 1 <= i <= iSize p ->
  exists rc p' k', sqlite3BitvecSet malloc k (Some p) i = (rc, Some p', k') /\
  valid p' /\ iSize p' = iSize p /\ (rc = SQLITE_OK \/ rc = SQLITE_NOMEM) /\
  (forall j, 1 <= j <= iSize p -> sqlite3BitvecTest (Some p') j = true -> j = i \/ sqlite3BitvecTest (Some p) j = true) /\
  (rc = SQLITE_OK -> forall j, 1 <= j <= iSize p ->
     j = i \/ sqlite3BitvecTest (Some p) j = true -> sqlite3BitvecTest (Some p') j = true) /\
  ((forall n, malloc n = true) -> rc = SQLITE_OK).
Proof. exact (set_valid malloc k p i). Qed.

Lemma bitvec_set_correct_witness :
  exists rc p' k', sqlite3BitvecSet (fun _ => false) 0 (Some (sqlite3BitvecCreate 5000)) 4999 = (rc, Some p', k') /\
  valid p' /\ iSize p' = 5000 /\ (rc = SQLITE_OK \/ rc = SQLITE_NOMEM) /\
  (forall j, 1 <= j <= 5000 -> sqlite3BitvecTest (Some p') j = true ->
     j = 4999 \/ sqlite3BitvecTest (Some (sqlite3BitvecCreate 5000)) j = true) /\
  (rc = SQLITE_OK -> forall j, 1 <= j <= 5000 ->
     j = 4999 \/ sqlite3BitvecTest (Some (sqlite3BitvecCreate 5000)) j = true -> sqlite3BitvecTest (Some p') j = true) /\
  ((nat -> false = true) -> rc = SQLITE_OK).
Proof.
  apply (bitvec_set_correct (fun _ => false) 0 (sqlite3BitvecCreate 5000) 4999); [|cbn; lia].
  apply create_valid. lia.
Defined.

(** Sequences of operations, and what each does to a set of page numbers. *)
Inductive bv_op := OpSet (i : Z) | OpClear (i : Z).
Definition op_index (o : bv_op) : Z := match o with OpSet i | OpClear i => i end.

Definition bv_apply (p : option Bitvec) (o : bv_op) : option Bitvec :=
  match o with
  | OpSet i => let '(_, p', _) := sqlite3BitvecSet (fun _ => true) 0 p i in p'
  | OpClear i => sqlite3BitvecClear p i
  end.

Definition set_apply (s : Z -> bool) (o : bv_op) : Z -> bool :=
  match o with
  | OpSet i => fun j => (j =? i) || s j
  | OpClear i => fun j => negb (j =? i) && s j
  end.

(** A bitmap is a set of page numbers. Starting from a new bitmap of any
    32-bit size, after any sequence of set and clear operations in range, the
    test operation answers membership in the set that the same sequence builds
    on sets, through every change of representation. *)
Theorem bitvec_refines_set n ops : 0 <= n < 2 ^ 32 -> Forall (fun o => 1 <= op_index o <= n) ops ->
  forall j, 1 <= j <= n ->
  sqlite3BitvecTest (fold_left bv_apply ops (Some (sqlite3BitvecCreate n))) j
  = fold_left set_apply ops (fun _ => false) j.
Proof.
  intros Hn Hops.
  assert (Hgen : forall ops p s, Forall (fun o => 1 <= op_index o <= n) ops -> valid p -> iSize p = n ->
    (forall j, 1 <= j <= n -> sqlite3BitvecTest (Some p) j = s j) ->
    forall j, 1 <= j <= n -> sqlite3BitvecTest (fold_left bv_apply ops (Some p)) j = fold_left set_apply ops s j).
  { clear ops Hops. induction ops as [|o ops IH]; intros p s Ho Hv Hs Hj; [exact Hj|].
    apply Forall_cons_iff in Ho as [Ho Hr]. cbn [fold_left]. destruct o as [i|i]; cbn [op_index] in Ho.
    - destruct (set_valid (fun _ => true) 0 p i Hv ltac:(lia)) as (rc & p' & k' & E & V & S' & _ & So & Co & M).
      cbn [bv_apply set_apply]. rewrite E. apply IH; [exact Hr|exact V|lia|].
      intros j Hjr. apply eq_true_iff_eq. rewrite orb_true_iff, Z.eqb_eq, <- Hj by exact Hjr. split.
      + apply So. lia.
      + apply Co; [now apply M|lia].
    - destruct (clear_valid p i Hv ltac:(lia)) as (p' & E & V & S' & B).
      cbn [bv_apply set_apply]. rewrite E. apply IH; [exact Hr|exact V|lia|].
      intros j Hjr. rewrite B by lia. now rewrite Hj. }
  apply Hgen; auto; [now apply create_valid|]. intros j _. now apply create_valid.
Qed.

Lemma bitvec_refines_set_witness :
  sqlite3BitvecTest (fold_left bv_apply [OpSet 7; OpSet 4000; OpClear 7] (Some (sqlite3BitvecCreate 5000))) 4000
  = fold_left set_apply [OpSet 7; OpSet 4000; OpClear 7] (fun _ => false) 4000.
Proof.
  apply (bitvec_refines_set 5000); [lia| |lia]. repeat constructor; cbn; lia.
Defined.
