(* ===== verification/RowSet.v ===== *)
(** * RowSet: the set of rowids of a statement

    Models [rowset.c] of [src/api-core/src/db/sqlite3.c].  A list of entries
    linked by [pRight] is a list of rowids, a tree of entries is a [tree], and
    the forest is the list of its trees ([Leaf] for a null [pLeft]).  Every
    operation allocates at most once; its argument [malloc_ok] tells whether
    that allocation succeeds. *)

From Stdlib Require Import ZArith List Lia Bool Sorted.
Import ListNotations.
From S2P Require Import Prelude IntArith.
#[local] Open Scope Z_scope.

Inductive tree := Leaf | Node (pLeft : tree) (v : Z) (pRight : tree).

Definition ROWSET_ALLOCATION_SIZE : Z := 1024.
Definition ROWSET_ENTRY_PER_CHUNK : Z := (ROWSET_ALLOCATION_SIZE - 8) / 24.

Definition ROWSET_SORTED : Z := 0x01.
Definition ROWSET_NEXT : Z := 0x02.

(** [pLast] is the last entry of [pEntry]; [nChunk] counts the chunks on
    [pChunk]. *)
Record RowSet := mkRowSet {
  nChunk : Z;
  pEntry : list Z;
  pForest : list tree;
  nFresh : Z;
  rsFlags : Z;
  iBatch : Z }.

(** [N] is the size of the block that the allocator returned. *)
Definition sqlite3RowSetInit (N : Z) : RowSet :=
  mkRowSet 0 [] [] (u16 ((N - 56) / 24)) ROWSET_SORTED 0.

Definition sqlite3RowSetClear (p : RowSet) : RowSet :=
  mkRowSet 0 [] [] 0 ROWSET_SORTED (iBatch p).

(** [None] when no entry could be allocated. *)
Definition rowSetEntryAlloc (malloc_ok : bool) (p : RowSet) : option RowSet :=
  if nFresh p =? 0 then
    if negb malloc_ok then None
    else Some (mkRowSet (nChunk p + 1) (pEntry p) (pForest p) (ROWSET_ENTRY_PER_CHUNK - 1) (rsFlags p) (iBatch p))
  else Some (mkRowSet (nChunk p) (pEntry p) (pForest p) (nFresh p - 1) (rsFlags p) (iBatch p)).

Definition sqlite3RowSetInsert (malloc_ok : bool) (p : RowSet) (rowid : Z) : RowSet :=
  match rowSetEntryAlloc malloc_ok p with
  | None => p
  | Some p =>
      let rsFlags :=
        match pEntry p with
        | [] => rsFlags p
        | _ => if rowid <=? last (pEntry p) 0 then Z.land (rsFlags p) (Z.lnot ROWSET_SORTED) else rsFlags p
        end in
      mkRowSet (nChunk p) (pEntry p ++ [rowid]) (pForest p) (nFresh p) rsFlags (iBatch p)
  end.

Fixpoint rowSetEntryMerge (pA : list Z) : list Z -> list Z :=
  fix mergeB (pB : list Z) : list Z :=
    match pA, pB with
    | a :: pA', b :: pB' =>
        if a <=? b then
          let r := match pA' with [] => pB | _ => rowSetEntryMerge pA' pB end in
          if a <? b then a :: r else r
        else b :: match pB' with [] => pA | _ => mergeB pB' end
    | [], _ => pB
    | _, [] => pA
    end.

(** [for(i=0; aBucket[i]; i++){ pIn = merge(aBucket[i], pIn); aBucket[i] = 0; }
    aBucket[i] = pIn], [None] when [i] runs off the array. *)
Fixpoint bucket_add (aBucket : list (list Z)) (pIn : list Z) : option (list (list Z)) :=
  match aBucket with
  | [] => None
  | [] :: rest => Some (pIn :: rest)
  | l :: rest => option_map (cons []) (bucket_add rest (rowSetEntryMerge l pIn))
  end.

Fixpoint sort_loop (pIn : list Z) (aBucket : list (list Z)) : option (list (list Z)) :=
  match pIn with
  | [] => Some aBucket
  | v :: pNext =>
      match bucket_add aBucket [v] with
      | None => None
      | Some aBucket => sort_loop pNext aBucket
      end
  end.

(** The final loop over the buckets. *)
Definition merge_buckets (aBucket : list (list Z)) : list Z :=
  fold_left
    (fun pIn b =>
       match b with
       | [] => pIn
       | _ => match pIn with [] => b | _ => rowSetEntryMerge pIn b end
       end)
    (tl aBucket) (hd [] aBucket).

Definition rowSetEntrySort (pIn : list Z) : option (list Z) :=
  option_map merge_buckets (sort_loop pIn (repeat [] 40)).

Fixpoint rowSetTreeToList (pIn : tree) : list Z :=
  match pIn with
  | Leaf => []
  | Node pLeft v pRight => rowSetTreeToList pLeft ++ v :: rowSetTreeToList pRight
  end.

(** The tree and the entries left over. *)
Fixpoint rowSetNDeepTree (iDepth : nat) (ppList : list Z) : tree * list Z :=
  match ppList with
  | [] => (Leaf, [])
  | p :: rest =>
      match iDepth with
      | S ((S _) as d) =>
          let '(pLeft, l) := rowSetNDeepTree d ppList in
          match l with
          | [] => (pLeft, [])
          | p :: l => let '(pRight, l) := rowSetNDeepTree d l in (Node pLeft p pRight, l)
          end
      | _ => (Node Leaf p Leaf, rest)
      end
  end.

Fixpoint list_to_tree_loop (fuel : nat) (iDepth : nat) (p : tree) (pList : list Z) : tree :=
  match fuel with
  | O => p
  | S fuel' =>
      match pList with
      | [] => p
      | v :: l =>
          let '(pRight, l) := rowSetNDeepTree iDepth l in
          list_to_tree_loop fuel' (S iDepth) (Node p v pRight) l
      end
  end.

Definition rowSetListToTree (pList : list Z) : tree :=
  match pList with
  | [] => Leaf
  | v :: l => list_to_tree_loop (length l) 1 (Node Leaf v Leaf) l
  end.

(** Returns the rowid when the C function returns 1.  [None] in the first
    component: a sort of more than [2 ^ 40] entries. *)
Definition sqlite3RowSetNext (p : RowSet) : option (RowSet * option Z) :=
  let prepared :=
    if Z.land (rsFlags p) ROWSET_NEXT =? 0 then
      let flags := Z.lor (rsFlags p) (Z.lor ROWSET_SORTED ROWSET_NEXT) in
      if Z.land (rsFlags p) ROWSET_SORTED =? 0 then
        option_map (fun l => mkRowSet (nChunk p) l (pForest p) (nFresh p) flags (iBatch p)) (rowSetEntrySort (pEntry p))
      else Some (mkRowSet (nChunk p) (pEntry p) (pForest p) (nFresh p) flags (iBatch p))
    else Some p in
  match prepared with
  | None => None
  | Some p =>
      match pEntry p with
      | [] => Some (p, None)
      | v :: l =>
          let p := mkRowSet (nChunk p) l (pForest p) (nFresh p) (rsFlags p) (iBatch p) in
          Some (match l with [] => sqlite3RowSetClear p | _ => p end, Some v)
      end
  end.

(** The loop over the forest and the allocation after it. The boolean says
    whether the list needs a new tree at the end. *)
Fixpoint forest_insert (pForest : list tree) (p : list Z) : list tree * list Z * bool :=
  match pForest with
  | [] => ([], p, true)
  | Leaf :: rest => (rowSetListToTree p :: rest, p, false)
  | t :: rest =>
      let '(f, p, b) := forest_insert rest (rowSetEntryMerge (rowSetTreeToList t) p) in (Leaf :: f, p, b)
  end.

(** [while( p ){ ... }] *)
Fixpoint tree_search (p : tree) (iRowid : Z) : bool :=
  match p with
  | Leaf => false
  | Node pLeft v pRight =>
      if v <? iRowid then tree_search pRight iRowid
      else if iRowid <? v then tree_search pLeft iRowid
      else true
  end.

Definition sqlite3RowSetTest (malloc_ok : bool) (pRowSet : RowSet) (batch : Z) (iRowid : Z) : option (RowSet * bool) :=
  let prepared :=
    if negb (batch =? iBatch pRowSet) then
      match pEntry pRowSet with
      | [] => Some (mkRowSet (nChunk pRowSet) [] (pForest pRowSet) (nFresh pRowSet) (rsFlags pRowSet) batch)
      | _ =>
          match (if Z.land (rsFlags pRowSet) ROWSET_SORTED =? 0 then rowSetEntrySort (pEntry pRowSet)
                 else Some (pEntry pRowSet)) with
          | None => None
          | Some p =>
              let '(f, p, b) := forest_insert (pForest pRowSet) p in
              let s := mkRowSet (nChunk pRowSet) [] f (nFresh pRowSet) (Z.lor (rsFlags pRowSet) ROWSET_SORTED) batch in
              if b then
                match rowSetEntryAlloc malloc_ok s with
                | None => Some s
                | Some s => Some (mkRowSet (nChunk s) [] (f ++ [rowSetListToTree p]) (nFresh s) (rsFlags s) batch)
                end
              else Some s
          end
      end
    else Some pRowSet in
  match prepared with
  | None => None
  | Some s => Some (s, existsb (fun t => tree_search t iRowid) (pForest s))
  end.

Example rowset_example :
  let s := fold_left (sqlite3RowSetInsert true) [5; 3; 9; 3; 7] (sqlite3RowSetInit 512) in
  (option_map snd (sqlite3RowSetNext s), option_map snd (sqlite3RowSetTest true s 1 7), option_map snd (sqlite3RowSetTest true s 0 7))
  = (Some (Some 3), Some true, Some false).
Proof. vm_compute. reflexivity. Qed.

(** ** Sorted lists *)

Abbreviation sorted := (StronglySorted Z.lt).

Lemma merge_spec a b : sorted a -> sorted b ->
  sorted (rowSetEntryMerge a b) /\ forall x, In x (rowSetEntryMerge a b) <-> In x a \/ In x b.
Proof.
  intros Ha. revert b. induction Ha as [|x a Ha IHa Hx]; intros b Hb.
  - destruct b; cbn; (split; [exact Hb|]); intros; tauto.
  - induction Hb as [|y b Hb IHb Hy]; [cbn; split; [now constructor|intros; tauto]|].
    assert (EA : forall z, match a with [] => z :: b | _ => rowSetEntryMerge a (z :: b) end = rowSetEntryMerge a (z :: b))
      by (intros z; destruct a; reflexivity).
    assert (EB : match b with [] => x :: a | _ => rowSetEntryMerge (x :: a) b end = rowSetEntryMerge (x :: a) b)
      by (destruct b; reflexivity).
    assert (Hyb : sorted (y :: b)) by (now constructor).
    destruct (IHa (y :: b) Hyb) as [SA IA]. destruct IHb as [SB IB].
    change (rowSetEntryMerge (x :: a) (y :: b)) with
      (if x <=? y then
         let r := match a with [] => y :: b | _ => rowSetEntryMerge a (y :: b) end in if x <? y then x :: r else r
       else y :: match b with [] => x :: a | _ => rowSetEntryMerge (x :: a) b end).
    cbv zeta. rewrite EA, EB. rewrite Forall_forall in Hx, Hy.
    destruct (Z.leb_spec x y); [destruct (Z.ltb_spec x y)|].
    + split.
      * constructor; [exact SA|]. apply Forall_forall. intros z Hz. apply IA in Hz as [Hz|[<-|Hz]]; auto.
        specialize (Hy z Hz). lia.
      * intros z. cbn [In]. rewrite IA. cbn [In]. tauto.
    + assert (x = y) by lia. subst y. split; [exact SA|]. intros z. rewrite IA. cbn [In]. tauto.
    + split.
      * constructor; [exact SB|]. apply Forall_forall. intros z Hz. apply IB in Hz as [[<-|Hz]|Hz]; [lia|specialize (Hx z Hz); lia|auto].
      * intros z. cbn [In]. rewrite IB. cbn [In]. tauto.
Qed.

Lemma merge_nonempty a b : a <> [] -> sorted a -> sorted b -> rowSetEntryMerge a b <> [].
Proof.
  intros Ha Sa Sb E. destruct a as [|x a]; [congruence|]. destruct (merge_spec (x :: a) b Sa Sb) as [_ H].
  rewrite E in H. apply (H x). left. now left.
Qed.

(** ** Sorting with buckets *)

(** The number of entries that the buckets can have taken: bucket [i] is in
    use when bit [i] of the count is set. *)
Fixpoint bucket_count (b : list (list Z)) : Z :=
  match b with
  | [] => 0
  | l :: rest => (match l with [] => 0 | _ => 1 end) + 2 * bucket_count rest
  end.

Definition in_buckets (x : Z) (b : list (list Z)) : Prop := exists l, In l b /\ In x l.

Lemma bucket_count_bound b : 0 <= bucket_count b < 2 ^ Z.of_nat (length b).
Proof.
  induction b as [|l b IH]; [cbn; lia|]. cbn [bucket_count length]. rewrite Nat2Z.inj_succ, Z.pow_succ_r by lia.
  destruct l; lia.
Qed.

Lemma bucket_add_ok b p : Forall sorted b -> sorted p -> p <> [] -> bucket_count b + 1 < 2 ^ Z.of_nat (length b) ->
  exists b', bucket_add b p = Some b' /\ Forall sorted b' /\ length b' = length b /\
    bucket_count b' = bucket_count b + 1 /\ forall x, in_buckets x b' <-> In x p \/ in_buckets x b.
Proof.
  intros Hb. revert p. induction Hb as [|l b Hl Hb IH]; intros p Hp Hne Hc; cbn [bucket_count length] in *.
  - cbn in Hc. lia.
  - rewrite Nat2Z.inj_succ, Z.pow_succ_r in Hc by lia. destruct l as [|y l]; cbn [bucket_add].
    + exists (p :: b). split; [reflexivity|]. split; [now constructor|]. split; [reflexivity|]. split.
      * cbn [bucket_count]. destruct p; [congruence|]. lia.
      * intros x. unfold in_buckets. cbn [In]. split.
        -- intros (l & [<-|Hin] & Hx); [now left|right; eauto].
        -- intros [Hx|(l & [<-|Hin] & Hx)]; [eauto|destruct Hx|eauto].
    + destruct (merge_spec (y :: l) p Hl Hp) as [Sm Im].
      destruct (IH (rowSetEntryMerge (y :: l) p) Sm (merge_nonempty (y :: l) p ltac:(discriminate) Hl Hp) ltac:(lia))
        as (b' & E & Sb & Lb & Cb & Ib).
      exists ([] :: b'). rewrite E. split; [reflexivity|]. split; [constructor; [constructor|exact Sb]|].
      split; [cbn; lia|]. split; [cbn [bucket_count]; lia|].
      intros x. unfold in_buckets in *. cbn [In]. split.
      * intros (l' & [<-|Hin] & Hx); [destruct Hx|]. destruct (proj1 (Ib x)) as [Hm|(l2 & Hl2 & Hx2)]; [eauto| |right; eauto].
        apply Im in Hm as [Hm|Hm]; [right; eauto|now left].
      * intros H. assert (Hx : In x (rowSetEntryMerge (y :: l) p) \/ (exists l, In l b /\ In x l)).
        { destruct H as [Hx|(l' & [<-|Hin] & Hx)]; [left; apply Im; now right|left; apply Im; now left|right; eauto]. }
        apply Ib in Hx as (l' & Hin & Hx). eauto.
Qed.

Lemma sort_loop_ok l b : Forall sorted b -> bucket_count b + Z.of_nat (length l) < 2 ^ Z.of_nat (length b) ->
  exists b', sort_loop l b = Some b' /\ Forall sorted b' /\ forall x, in_buckets x b' <-> In x l \/ in_buckets x b.
Proof.
  revert b. induction l as [|v l IH]; intros b Hb Hc.
  - exists b. repeat split; auto. intros [[]|H]; exact H.
  - cbn [length] in Hc. destruct (bucket_add_ok b [v] Hb) as (b1 & E & S1 & L1 & C1 & I1);
      [repeat constructor|discriminate|lia|].
    destruct (IH b1 S1) as (b2 & E2 & S2 & I2); [rewrite L1, C1; lia|].
    exists b2. cbn [sort_loop]. rewrite E, E2. split; [reflexivity|]. split; [exact S2|].
    intros x. rewrite I2, I1. cbn [In]. tauto.
Qed.

Lemma merge_buckets_ok b : Forall sorted b -> b <> [] ->
  sorted (merge_buckets b) /\ forall x, In x (merge_buckets b) <-> in_buckets x b.
Proof.
  intros Hb Hne. destruct b as [|l b]; [congruence|]. apply Forall_cons_iff in Hb as [Hl Hb]. unfold merge_buckets. cbn [tl hd].
  assert (Hgen : forall b p, Forall sorted b -> sorted p ->
    let r := fold_left (fun pIn b => match b with [] => pIn | _ => match pIn with [] => b | _ => rowSetEntryMerge pIn b end end) b p in
    sorted r /\ forall x, In x r <-> In x p \/ in_buckets x b).
  { clear. induction b as [|c b IH]; intros p Hb Hp; cbn [fold_left].
    - split; [exact Hp|]. intros x. unfold in_buckets. split; [now left|]. intros [H|(l & [] & _)]. exact H.
    - apply Forall_cons_iff in Hb as [Hc Hb].
      set (p' := match c with [] => p | _ => match p with [] => c | _ => rowSetEntryMerge p c end end).
      assert (Hp' : sorted p' /\ forall x, In x p' <-> In x p \/ In x c).
      { subst p'. destruct c as [|y c]; [split; [exact Hp|]; intros; cbn; tauto|].
        destruct p as [|z p]; [split; [exact Hc|]; intros; cbn; tauto|]. now apply merge_spec. }
      destruct Hp' as [Sp Ip]. destruct (IH p' Hb Sp) as [Sr Ir]. split; [exact Sr|].
      intros x. rewrite Ir, Ip. unfold in_buckets. cbn [In]. split.
      + intros [[H|H]|(l & Hin & Hx)]; [now left|right; eauto|right; eauto].
      + intros [H|(l & [<-|Hin] & Hx)]; [auto|auto|right; eauto]. }
  destruct (Hgen b l Hb Hl) as [S0 I0]. split; [exact S0|]. intros x. rewrite I0. unfold in_buckets. cbn [In]. split.
  - intros [H|(l' & Hin & Hx)]; eauto.
  - intros (l' & [<-|Hin] & Hx); [now left|right; eauto].
Qed.

Lemma sort_ok l : Z.of_nat (length l) < 2 ^ 40 ->
  exists l', rowSetEntrySort l = Some l' /\ sorted l' /\ forall x, In x l' <-> In x l.
Proof.
  intros Hl. unfold rowSetEntrySort.
  assert (Hempty : forall n, Forall sorted (repeat [] n) /\ bucket_count (repeat [] n) = 0 /\
                     forall x, ~ in_buckets x (repeat [] n)).
  { induction n as [|n (I1 & I2 & I3)]; cbn [repeat bucket_count]; (split; [|split]).
    - constructor.
    - reflexivity.
    - intros x (l0 & [] & _).
    - constructor; [constructor|exact I1].
    - lia.
    - intros x (l0 & [<-|Hin] & Hx); [destruct Hx|]. apply (I3 x). exists l0. auto. }
  destruct (Hempty 40%nat) as (I1 & I2 & I3).
  destruct (sort_loop_ok l (repeat [] 40) I1) as (b & E & Sb & Ib); [rewrite I2, repeat_length; exact Hl|].
  rewrite E. cbn [option_map]. exists (merge_buckets b). split; [reflexivity|].
  destruct b as [|b0 b].
  - split; [constructor|]. intros x. cbn. split; [tauto|]. intros Hx. destruct (proj2 (Ib x)) as (l0 & [] & _). now left.
  - destruct (merge_buckets_ok (b0 :: b) Sb ltac:(discriminate)) as [S1 J1]. split; [exact S1|].
    intros x. rewrite J1, Ib. specialize (I3 x). tauto.
Qed.

(** ** Trees *)

Lemma ndeep_S d l : rowSetNDeepTree (S (S d)) l =
  match l with
  | [] => (Leaf, [])
  | _ => let '(pLeft, l1) := rowSetNDeepTree (S d) l in
         match l1 with
         | [] => (pLeft, [])
         | p :: l2 => let '(pRight, l3) := rowSetNDeepTree (S d) l2 in (Node pLeft p pRight, l3)
         end
  end.
Proof. destruct l; reflexivity. Qed.

Fixpoint height (t : tree) : nat :=
  match t with Leaf => 0 | Node a _ b => S (Nat.max (height a) (height b)) end.

(** A tree of depth [d] takes up to [2 ^ d - 1] entries in order. *)
Lemma ndeep_ok d l : let '(t, r) := rowSetNDeepTree (S d) l in
  rowSetTreeToList t ++ r = l /\ (height t <= S d)%nat /\
  (r <> [] -> Z.of_nat (length (rowSetTreeToList t)) = 2 ^ Z.of_nat (S d) - 1).
Proof.
  revert l. induction d as [|d IH]; intros l.
  - destruct l as [|v l]; cbn; repeat split; auto; congruence.
  - rewrite ndeep_S. destruct l as [|v l]; [cbn; repeat split; auto; try lia; congruence|].
    pose proof (IH (v :: l)) as H1. destruct (rowSetNDeepTree (S d) (v :: l)) as [t1 l1].
    destruct H1 as (E1 & Hh1 & Hc1). destruct l1 as [|p l2]; [repeat split; [exact E1|lia|congruence]|].
    pose proof (IH l2) as H2. destruct (rowSetNDeepTree (S d) l2) as [t2 l3]. destruct H2 as (E2 & Hh2 & Hc2).
    cbn [rowSetTreeToList height]. split; [rewrite <- app_assoc; cbn; now rewrite E2|]. split; [lia|].
    intros Hr. specialize (Hc1 ltac:(discriminate)). specialize (Hc2 Hr). rewrite length_app. cbn [length].
    rewrite (Nat2Z.inj_succ (S d)), Z.pow_succ_r by lia. lia.
Qed.

Lemma list_to_tree_loop_ok fuel d t l : (length l <= fuel)%nat -> (height t <= S d)%nat ->
  Z.of_nat (length (rowSetTreeToList t)) = 2 ^ Z.of_nat (S d) - 1 \/ l = [] ->
  2 ^ Z.of_nat d <= Z.of_nat (length (rowSetTreeToList t)) ->
  let t' := list_to_tree_loop fuel (S d) t l in
  rowSetTreeToList t' = rowSetTreeToList t ++ l /\
  exists h, (height t' <= S h)%nat /\ 2 ^ Z.of_nat h <= Z.of_nat (length (rowSetTreeToList t ++ l)).
Proof.
  revert d t l. induction fuel as [|fuel IH]; intros d t [|v l] Hf Hh Hfull Hmin; cbn [length] in Hf; try lia; cbn [list_to_tree_loop].
  - rewrite app_nil_r. split; [reflexivity|]. now exists d.
  - rewrite app_nil_r. split; [reflexivity|]. now exists d.
  - pose proof (ndeep_ok d l) as H. destruct (rowSetNDeepTree (S d) l) as [t2 l2]. destruct H as (E2 & Hh2 & Hc2).
    destruct Hfull as [Hfull|]; [|discriminate].
    assert (El : rowSetTreeToList t ++ v :: l = rowSetTreeToList (Node t v t2) ++ l2)
      by (cbn [rowSetTreeToList]; rewrite <- app_assoc; cbn; now rewrite E2).
    assert (Hlen : Z.of_nat (length (rowSetTreeToList (Node t v t2))) = 2 ^ Z.of_nat (S d) + Z.of_nat (length (rowSetTreeToList t2)))
      by (cbn [rowSetTreeToList]; rewrite length_app; cbn [length]; lia).
    destruct (IH (S d) (Node t v t2) l2) as [H1 H2].
    + rewrite <- E2 in Hf. rewrite length_app in Hf. lia.
    + cbn [height]. lia.
    + destruct l2 as [|w l2]; [now right|left]. rewrite Hlen, (Hc2 ltac:(discriminate)).
      rewrite (Nat2Z.inj_succ (S d)), Z.pow_succ_r by lia. lia.
    + rewrite Hlen. lia.
    + rewrite El. split; [exact H1|exact H2].
Qed.

Lemma list_to_tree_ok l : rowSetTreeToList (rowSetListToTree l) = l /\
  (l <> [] -> exists h, (height (rowSetListToTree l) <= S h)%nat /\ 2 ^ Z.of_nat h <= Z.of_nat (length l)).
Proof.
  destruct l as [|v l]; [split; [reflexivity|congruence]|]. unfold rowSetListToTree.
  destruct (list_to_tree_loop_ok (length l) 0 (Node Leaf v Leaf) l) as [H1 H2]; cbn; auto; try lia.
Qed.

Lemma search_ok t x : sorted (rowSetTreeToList t) -> tree_search t x = true <-> In x (rowSetTreeToList t).
Proof.
  induction t as [|a IHa v b IHb]; cbn [rowSetTreeToList tree_search]; [split; [discriminate|intros []]|].
  intros Hs. assert (Hsplit : sorted (rowSetTreeToList a) /\ sorted (rowSetTreeToList b) /\
    (forall y, In y (rowSetTreeToList a) -> y < v) /\ (forall y, In y (rowSetTreeToList b) -> v < y)).
  { clear - Hs. induction (rowSetTreeToList a) as [|y l IH]; cbn in Hs.
    - apply StronglySorted_inv in Hs as [Hb Hv]. rewrite Forall_forall in Hv. repeat split; auto; [constructor|intros y []].
    - apply StronglySorted_inv in Hs as [Hl Hy]. rewrite Forall_forall in Hy. destruct (IH Hl) as (I1 & I2 & I3 & I4).
      repeat split; auto.
      + constructor; [exact I1|]. apply Forall_forall. intros z Hz. apply Hy, in_or_app. now left.
      + intros z [<-|Hz]; [apply Hy, in_or_app; right; now left|auto]. }
  destruct Hsplit as (Sa & Sb & Ha & Hb). rewrite in_app_iff. cbn [In].
  destruct (Z.ltb_spec v x); [|destruct (Z.ltb_spec x v)].
  - rewrite (IHb Sb). split; [tauto|]. intros [H'|[->|H']]; [specialize (Ha x H'); lia|lia|exact H'].
  - rewrite (IHa Sa). split; [tauto|]. intros [H'|[->|H']]; [exact H'|lia|specialize (Hb x H'); lia].
  - assert (v = x) by lia. split; auto.
Qed.

(** ** The state of a rowset *)

(** The flag that says that the entries are sorted tells the truth. *)
Definition flags_ok (p : RowSet) : Prop :=
  (rsFlags p = 0 \/ rsFlags p = ROWSET_SORTED) /\ (rsFlags p = ROWSET_SORTED -> sorted (pEntry p)).

Lemma sorted_snoc l x : sorted l -> (l = [] \/ last l 0 < x) -> sorted (l ++ [x]).
Proof.
  intros Hl Hx. induction Hl as [|y l Hl IH Hy]; [repeat constructor|]. cbn [app]. destruct Hx as [Hx|Hx]; [discriminate|].
  assert (Hlast : l = [] \/ last l 0 < x) by (destruct l; [now left|right; exact Hx]).
  constructor; [now apply IH|]. apply Forall_app. split; [exact Hy|]. constructor; [|constructor].
  destruct l as [|z l]; [exact Hx|]. rewrite Forall_forall in Hy. destruct Hlast as [|Hlast]; [discriminate|].
  assert (Hin : In (last (z :: l) 0) (z :: l)).
  { destruct (exists_last (l := z :: l) ltac:(discriminate)) as (l' & a & E). rewrite E, last_last. apply in_or_app. right. now left. }
  specialize (Hy _ Hin). lia.
Qed.

Lemma alloc_some p : exists p', rowSetEntryAlloc true p = Some p' /\
  pEntry p' = pEntry p /\ pForest p' = pForest p /\ rsFlags p' = rsFlags p /\ iBatch p' = iBatch p.
Proof. unfold rowSetEntryAlloc. destruct (nFresh p =? 0); cbn; eexists; (split; [reflexivity|]); auto. Qed.

Lemma insert_spec p x : flags_ok p ->
  let p' := sqlite3RowSetInsert true p x in
  flags_ok p' /\ pEntry p' = pEntry p ++ [x] /\ pForest p' = pForest p /\ iBatch p' = iBatch p.
Proof.
  intros [Hf Hs]. unfold sqlite3RowSetInsert. destruct (alloc_some p) as (q & -> & Ee & Ef & Eg & Eb). cbv zeta.
  rewrite Ee, Ef, Eg, Eb. cbn [pEntry pForest iBatch]. split; [|auto]. unfold flags_ok. cbn [rsFlags pEntry].
  destruct (pEntry p) as [|y l] eqn:Ep.
  - split; [exact Hf|]. intros _. repeat constructor.
  - destruct (Z.leb_spec x (last (y :: l) 0)) as [Hle|Hgt].
    + split; [left; destruct Hf as [-> | ->]; reflexivity|]. destruct Hf as [-> | ->]; discriminate.
    + split; [exact Hf|]. intros H. apply sorted_snoc; auto.
Qed.

Lemma inserts_spec xs p : flags_ok p ->
  let p' := fold_left (sqlite3RowSetInsert true) xs p in
  flags_ok p' /\ pEntry p' = pEntry p ++ xs /\ pForest p' = pForest p /\ iBatch p' = iBatch p.
Proof.
  revert p. induction xs as [|x xs IH]; intros p Hp; cbn [fold_left]; [now rewrite app_nil_r|].
  destruct (insert_spec p x Hp) as (F & E1 & E2 & E3).
  destruct (IH _ F) as (G & G1 & G2 & G3). rewrite E1 in G1. rewrite <- app_assoc in G1. cbn in G1.
  cbv zeta. rewrite G1, G2, G3, E2, E3. auto.
Qed.

(** The entries in order, without duplicates, when the flag is consulted. *)
Lemma sorted_entries p : flags_ok p -> Z.of_nat (length (pEntry p)) < 2 ^ 40 ->
  exists l, (if Z.land (rsFlags p) ROWSET_SORTED =? 0 then rowSetEntrySort (pEntry p) else Some (pEntry p)) = Some l /\
    sorted l /\ forall x, In x l <-> In x (pEntry p).
Proof.
  intros [Hf Hs] Hl. destruct Hf as [E|E]; rewrite E.
  - cbn. destruct (sort_ok _ Hl) as (l & El & Sl & Il). eauto.
  - cbn. exists (pEntry p). split; [reflexivity|]. split; [now apply Hs|tauto].
Qed.

(** ** The component's claims *)

(** The values that repeated calls of [sqlite3RowSetNext] return. *)
Fixpoint drain (fuel : nat) (p : RowSet) : list Z :=
  match fuel with
  | O => []
  | S fuel' =>
      match sqlite3RowSetNext p with
      | Some (p, Some v) => v :: drain fuel' p
      | _ => []
      end
  end.

Lemma drain_sorted fuel p l : Z.land (rsFlags p) ROWSET_NEXT <> 0 -> pEntry p = l -> (length l < fuel)%nat -> drain fuel p = l.
Proof.
  revert p l. induction fuel as [|fuel IH]; intros p l Hf E Hl; [lia|]. cbn [drain]. unfold sqlite3RowSetNext.
  replace (Z.land (rsFlags p) ROWSET_NEXT =? 0) with false by lia. rewrite E.
  destruct l as [|v [|w l]]; [reflexivity| |].
  - f_equal. destruct fuel; reflexivity.
  - f_equal. apply IH; [exact Hf|reflexivity|cbn [length] in *; lia].
Qed.

(** A rowset hands out its rowids in order. After any inserts (fewer than
    [2 ^ 40], no allocation failing), the calls of [sqlite3RowSetNext] return
    the distinct inserted rowids in strictly increasing order and then report
    that the set is empty. *)
Theorem rowset_next_sorted N xs : Z.of_nat (length xs) < 2 ^ 40 ->
  exists l, sorted l /\ (forall x, In x l <-> In x xs) /\
  forall fuel, (length l < fuel)%nat -> drain fuel (fold_left (sqlite3RowSetInsert true) xs (sqlite3RowSetInit N)) = l.
Proof.
  intros Hl. set (p := fold_left _ xs _).
  assert (Hinit : flags_ok (sqlite3RowSetInit N)) by (split; [now right|constructor]).
  destruct (inserts_spec xs _ Hinit) as (F & E & _). fold p in F, E. cbn [sqlite3RowSetInit pEntry app] in E.
  destruct (sorted_entries p F) as (l & El & Sl & Il); [now rewrite E|]. rewrite E in Il.
  exists l. split; [exact Sl|]. split; [exact Il|]. intros [|fuel] Hf; [lia|]. cbn [drain]. unfold sqlite3RowSetNext.
  set (fl := Z.lor (rsFlags p) _).
  assert (Hfl : Z.land fl ROWSET_NEXT <> 0) by (unfold fl; destruct F as [[-> | ->] _]; discriminate).
  replace (Z.land (rsFlags p) ROWSET_NEXT =? 0) with true by (destruct F as [[-> | ->] _]; reflexivity).
  assert (Ep : (if Z.land (rsFlags p) ROWSET_SORTED =? 0
     then option_map (fun l => mkRowSet (nChunk p) l (pForest p) (nFresh p) fl (iBatch p)) (rowSetEntrySort (pEntry p))
     else Some (mkRowSet (nChunk p) (pEntry p) (pForest p) (nFresh p) fl (iBatch p)))
     = Some (mkRowSet (nChunk p) l (pForest p) (nFresh p) fl (iBatch p))).
  { destruct (Z.land (rsFlags p) ROWSET_SORTED =? 0); [now rewrite El|]. injection El as ->. reflexivity. }
  rewrite Ep. cbn [pEntry nChunk pForest nFresh rsFlags iBatch]. destruct l as [|v [|w l]]; [reflexivity| |].
  - f_equal. destruct fuel; reflexivity.
  - f_equal. apply drain_sorted; [exact Hfl|reflexivity|cbn [length] in *; lia].
Qed.

Lemma rowset_next_sorted_witness :
  exists l, sorted l /\ (forall x, In x l <-> In x [5; 3; 9; 3]) /\
  forall fuel, (length l < fuel)%nat ->
    drain fuel (fold_left (sqlite3RowSetInsert true) [5; 3; 9; 3] (sqlite3RowSetInit 512)) = l.
Proof. apply (rowset_next_sorted 512 [5; 3; 9; 3]). reflexivity. Defined.

(** Inserts and tests in any order. *)
Inductive rs_op := RsInsert (v : Z) | RsTest (batch v : Z).

(** The answers of the tests; [None] for a sort that is too large. *)
Fixpoint rs_run (p : RowSet) (ops : list rs_op) : option (list bool) :=
  match ops with
  | [] => Some []
  | RsInsert v :: ops => rs_run (sqlite3RowSetInsert true p v) ops
  | RsTest b v :: ops =>
      match sqlite3RowSetTest true p b v with
      | None => None
      | Some (p, r) => option_map (cons r) (rs_run p ops)
      end
  end.

(** The promise: a test sees the values inserted before the current batch
    began. *)
Fixpoint spec_run (seen pending : list Z) (batch : Z) (ops : list rs_op) : list bool :=
  match ops with
  | [] => []
  | RsInsert v :: ops => spec_run seen (pending ++ [v]) batch ops
  | RsTest b v :: ops =>
      if b =? batch then existsb (Z.eqb v) seen :: spec_run seen pending batch ops
      else existsb (Z.eqb v) (seen ++ pending) :: spec_run (seen ++ pending) [] b ops
  end.

Definition forest_ok (f : list tree) : Prop := Forall (fun t => sorted (rowSetTreeToList t)) f.
Definition in_forest (x : Z) (f : list tree) : Prop := exists t, In t f /\ In x (rowSetTreeToList t).

Lemma in_forest_cons x t f : in_forest x (t :: f) <-> In x (rowSetTreeToList t) \/ in_forest x f.
Proof.
  unfold in_forest. cbn [In]. split.
  - intros (t' & [<-|H] & Hx); [now left|right; eauto].
  - intros [H|(t' & H & Hx)]; eauto.
Qed.

Lemma in_forest_nil x : ~ in_forest x [].
Proof. intros (t & [] & _). Qed.

Lemma forest_insert_ok f p : forest_ok f -> sorted p ->
  let '(f', p', b) := forest_insert f p in
  let f2 := if b then f' ++ [rowSetListToTree p'] else f' in
  forest_ok f2 /\ forall x, in_forest x f2 <-> in_forest x f \/ In x p.
Proof.
  intros Hf. revert p. induction Hf as [|t f Ht Hf IH]; intros p Hp; cbn [forest_insert].
  - cbn. split.
    + constructor; [|constructor]. now rewrite (proj1 (list_to_tree_ok p)).
    + intros x. rewrite in_forest_cons, (proj1 (list_to_tree_ok p)). pose proof (in_forest_nil x). tauto.
  - destruct t as [|a v c].
    + split.
      * constructor; [|exact Hf]. now rewrite (proj1 (list_to_tree_ok p)).
      * intros x. rewrite !in_forest_cons, (proj1 (list_to_tree_ok p)). cbn. tauto.
    + set (t := Node a v c) in *. destruct (merge_spec _ p Ht Hp) as [Sm Im].
      specialize (IH _ Sm). destruct (forest_insert f _) as [[f' p'] b]. destruct IH as [F I].
      destruct b; cbn [app]; (split; [constructor; [constructor|exact F]|]);
        intros x; rewrite !in_forest_cons, I, Im; cbn [rowSetTreeToList]; cbn [In]; tauto.
Qed.

Definition simulates (p : RowSet) (seen pending : list Z) (batch : Z) : Prop :=
  flags_ok p /\ pEntry p = pending /\ iBatch p = batch /\ forest_ok (pForest p) /\
  forall x, in_forest x (pForest p) <-> In x seen.

Lemma forest_search f x : forest_ok f -> existsb (fun t => tree_search t x) f = true <-> in_forest x f.
Proof.
  intros Hf. rewrite existsb_exists. unfold forest_ok in Hf. rewrite Forall_forall in Hf. unfold in_forest. split.
  - intros (t & Hin & Ht). exists t. split; [exact Hin|]. now apply search_ok in Ht; [|apply Hf].
  - intros (t & Hin & Ht). exists t. split; [exact Hin|]. apply search_ok; auto.
Qed.

Lemma forest_search_eq f x seen : forest_ok f -> (forall y, in_forest y f <-> In y seen) ->
  existsb (fun t => tree_search t x) f = existsb (Z.eqb x) seen.
Proof.
  intros Hf Hs. apply eq_true_iff_eq. rewrite forest_search, Hs, existsb_exists by exact Hf. split.
  - intros H. exists x. split; [exact H|apply Z.eqb_refl].
  - intros (y & Hy & E). apply Z.eqb_eq in E. now subst.
Qed.

Lemma test_spec p seen pending batch b v : simulates p seen pending batch -> Z.of_nat (length pending) < 2 ^ 40 ->
  exists p', sqlite3RowSetTest true p b v =
    Some (p', existsb (Z.eqb v) (if b =? batch then seen else seen ++ pending)) /\
    (if b =? batch then simulates p' seen pending batch else simulates p' (seen ++ pending) [] b).
Proof.
  intros (Hf & Ep & Eb & Hforest & Hin) Hl. unfold sqlite3RowSetTest. rewrite Eb.
  destruct (Z.eqb_spec b batch) as [->|Hne]; cbn [negb].
  - exists p. rewrite (forest_search_eq _ v seen) by assumption. split; [reflexivity|]. repeat split; auto; apply Hf || apply Hin.
  - destruct (pEntry p) as [|y l] eqn:Ee.
    + eexists. subst pending. rewrite app_nil_r. cbn [pForest]. rewrite (forest_search_eq _ v seen) by assumption.
      split; [reflexivity|]. split; [|cbn; repeat split; auto; apply Hin].
      destruct Hf as [Hf _]. split; [exact Hf|]. intros _. constructor.
    + rewrite <- Ee in *. destruct (sorted_entries p Hf) as (l' & El & Sl & Il); [now rewrite Ep|].
      pose proof (forest_insert_ok (pForest p) l' Hforest Sl) as Hfi.
      rewrite El. destruct (forest_insert (pForest p) l') as [[f q] nb].
      set (f2 := if nb then f ++ [rowSetListToTree q] else f) in *. destruct Hfi as [F2 I2].
      assert (Hmem : forall x, in_forest x f2 <-> In x (seen ++ pending)).
      { intros x. rewrite I2, Hin, Il, Ep, in_app_iff. tauto. }
      assert (Hflags : Z.lor (rsFlags p) ROWSET_SORTED = ROWSET_SORTED) by (destruct Hf as [[-> | ->] _]; reflexivity).
      assert (Hgen : forall nc nf, simulates (mkRowSet nc [] f2 nf ROWSET_SORTED b) (seen ++ pending) [] b).
      { intros nc nf. repeat split; auto; try (now right); try constructor; apply Hmem. }
      rewrite Hflags. destruct nb; cbn [f2] in *.
      * destruct (alloc_some (mkRowSet (nChunk p) [] f (nFresh p) ROWSET_SORTED b)) as (s & Es & E1 & E2 & E3 & E4).
        rewrite Es. eexists. cbn [pForest]. fold f2. rewrite (forest_search_eq f2 v (seen ++ pending) F2 Hmem).
        split; [reflexivity|]. rewrite E3. cbn [rsFlags]. apply Hgen.
      * eexists. cbn [pForest]. fold f2. rewrite (forest_search_eq f2 v (seen ++ pending) F2 Hmem).
        split; [reflexivity|]. apply Hgen.
Qed.

Lemma rs_simulation ops p seen pending batch : simulates p seen pending batch ->
  Z.of_nat (length pending + length ops) < 2 ^ 40 -> rs_run p ops = Some (spec_run seen pending batch ops).
Proof.
  revert p seen pending batch. induction ops as [|[v|b v] ops IH]; intros p seen pending batch Hsim Hl; cbn [rs_run spec_run length] in *.
  - reflexivity.
  - apply IH; [|rewrite length_app; cbn; lia]. destruct Hsim as (Hf & Ep & Eb & Hfo & Hin).
    destruct (insert_spec p v Hf) as (F & E1 & E2 & E3). cbv zeta in E1, E2, E3.
    split; [exact F|]. split; [now rewrite E1, Ep|]. split; [now rewrite E3|]. rewrite E2. auto.
  - destruct (test_spec p seen pending batch b v Hsim ltac:(lia)) as (p' & -> & Hp').
    destruct (b =? batch).
    + rewrite (IH p' seen pending batch Hp') by lia. reflexivity.
    + rewrite (IH p' (seen ++ pending) [] b Hp') by (cbn; lia). reflexivity.
Qed.

(** Tests see exactly the earlier batches. For any interleaving of
    inserts and tests (fewer than [2 ^ 40] operations, no allocation failing),
    every test answers whether the rowid was inserted before the current batch
    number was first used, whatever sorting, merging and rebuilding of trees
    the earlier tests did. *)
Theorem rowset_test_batches N ops : Z.of_nat (length ops) < 2 ^ 40 ->
  rs_run (sqlite3RowSetInit N) ops = Some (spec_run [] [] 0 ops).
Proof.
  intros Hl. apply rs_simulation; [|exact Hl]. repeat split; auto; try (now right); try constructor; cbn; try tauto.
  intros H. now apply in_forest_nil in H.
Qed.

Lemma rowset_test_batches_witness :
  rs_run (sqlite3RowSetInit 512) [RsInsert 7; RsTest 0 7; RsTest 1 7; RsInsert 4; RsTest 1 4; RsTest 2 4]
  = Some [false; true; false; true].
Proof. apply (rowset_test_batches 512). reflexivity. Defined.

(** The trees are balanced. [rowSetListToTree] keeps the entries in order
    and builds a tree no higher than one more than the binary logarithm of
    their number, which bounds the steps of a test. *)
Theorem rowset_tree_balanced l : l <> [] ->
  rowSetTreeToList (rowSetListToTree l) = l /\
  (height (rowSetListToTree l) <= S (Nat.log2 (length l)))%nat.
Proof.
  intros Hl. destruct (list_to_tree_ok l) as [E H]. split; [exact E|]. destruct (H Hl) as (h & Hh & Hp).
  enough (h <= Nat.log2 (length l))%nat by lia. apply Nat.log2_le_pow2; [destruct l; cbn; [congruence|lia]|].
  apply Nat2Z.inj_le. rewrite Nat2Z.inj_pow. exact Hp.
Qed.

Lemma rowset_tree_balanced_witness :
  rowSetTreeToList (rowSetListToTree [1; 2; 3; 4; 5; 6; 7]) = [1; 2; 3; 4; 5; 6; 7] /\
  (height (rowSetListToTree [1; 2; 3; 4; 5; 6; 7]%Z) <= 3)%nat.
Proof. apply (rowset_tree_balanced [1; 2; 3; 4; 5; 6; 7]). discriminate. Defined.
