(* ===== verification/MemJournal.v ===== *)
(** * MemJournal: the in-memory rollback journal

    Models [memjournal.c] of [src/api-core/src/db/sqlite3.c].  The chunk list
    is a list of byte lists, a chunk pointer is an index into it; [endpoint]
    points at the last chunk.  A new chunk holds arbitrary bytes ([junk]), and
    [malloc k] tells whether the [k]-th allocation succeeds.  The real file
    that a large journal is spilled to is any instance of the interface
    [Vfs]. *)

From Stdlib Require Import ZArith List Lia Bool.
Import ListNotations.
From S2P Require Import Prelude IntArith.
#[local] Open Scope Z_scope.

Definition SQLITE_OK : Z := 0.
Definition SQLITE_IOERR : Z := 10.
Definition SQLITE_IOERR_NOMEM : Z := Z.lor SQLITE_IOERR (Z.shiftl 12 8).

Definition MEMJOURNAL_DFLT_FILECHUNKSIZE : Z := 1024.

(** [firstn] and [skipn] with the C integers. *)
Definition take (n : Z) (l : list Z) : list Z := firstn (Z.to_nat n) l.
Definition drop (n : Z) (l : list Z) : list Z := skipn (Z.to_nat n) l.
Definition len (l : list Z) : Z := Z.of_nat (length l).

(** [memcpy(&l[off], d, n)] for [d] of [n] bytes. *)
Definition patch (l : list Z) (off : Z) (d : list Z) : list Z := take off l ++ d ++ drop (off + len d) l.

(** ** The file below *)

(** [sqlite3OsOpen] and [sqlite3OsWrite] of the VFS of the journal, with the
    bytes of a file. *)
Class Vfs := {
  File : Type;
  sqlite3OsOpen : Z * File;
  sqlite3OsWrite : File -> list Z -> Z -> Z * File;
  contents : File -> list Z }.

(** A successful open gives an empty file; a successful write of bytes at or
    before the end of the file replaces or adds those bytes. *)
Class VfsLaws `{Vfs} := {
  open_empty : forall f, sqlite3OsOpen = (SQLITE_OK, f) -> contents f = [];
  write_patches : forall f d off f', 0 <= off <= len (contents f) ->
    sqlite3OsWrite f d off = (SQLITE_OK, f') -> contents f' = patch (contents f) off d }.

(** ** The journal *)

Record FilePoint := mkPoint { iOffset : Z; pChunk : option nat }.

Record MemJournal := mkJournal {
  nChunkSize : Z;
  nSpill : Z;
  pFirst : list (list Z);
  endpoint : FilePoint;
  readpoint : FilePoint }.

(** The file handle: a memory journal or a real file. *)
Inductive journal_file `{Vfs} := InMemory (p : MemJournal) | OnDisk (f : File).




(** [for(pIter=p->pFirst; ALWAYS(pIter) && iOff<size; pIter=pIter->pNext)]. *)
Fixpoint find_last (chunks : list (list Z)) (n : nat) (iOff sz size : Z) : option nat :=
  match chunks with
  | [] => None
  | _ :: rest => if iOff <? size then find_last rest (S n) (iOff + sz) sz size else Some n
  end.

Definition memjrnlTruncate (p : MemJournal) (size : Z) : MemJournal :=
  if size <? iOffset (endpoint p) then
    let '(chunks, pIter) :=
      if size =? 0 then ([], None)
      else
        match find_last (pFirst p) 0 (nChunkSize p) (nChunkSize p) size with
        | Some n => (firstn (S n) (pFirst p), Some n)
        | None => (pFirst p, None)
        end in
    mkJournal (nChunkSize p) (nSpill p) chunks (mkPoint size pIter) (mkPoint 0 None)
  else p.

Fixpoint replace_nth (n : nat) (c : list Z) (l : list (list Z)) : list (list Z) :=
  match n, l with
  | _, [] => []
  | O, _ :: l' => c :: l'
  | S n', x :: l' => x :: replace_nth n' c l'
  end.

Section Write.
Variables (malloc : nat -> bool) (junk : nat -> list Z).

(** [while( nWrite>0 )] of [memjrnlWrite]: the result code and the journal. *)
Fixpoint write_loop (fuel k : nat) (p : MemJournal) (zWrite : list Z) : Z * MemJournal :=
  match fuel with
  | O => (SQLITE_OK, p)
  | S fuel' =>
      let nWrite := len zWrite in
      if 0 <? nWrite then
        let iChunkOffset := iOffset (endpoint p) mod nChunkSize p in
        let iSpace := Z.min nWrite (nChunkSize p - iChunkOffset) in
        let extended :=
          if iChunkOffset =? 0 then
            if negb (malloc k) then None
            else Some (pFirst p ++ [junk k], Some (length (pFirst p)), S k)
          else Some (pFirst p, pChunk (endpoint p), k) in
        match extended with
        | Some (chunks, Some n, k) =>
            let c := nth n chunks [] in
            let chunks := replace_nth n (patch c iChunkOffset (take iSpace zWrite)) chunks in
            write_loop fuel' k
              (mkJournal (nChunkSize p) (nSpill p) chunks
                 (mkPoint (iOffset (endpoint p) + iSpace) (Some n)) (readpoint p))
              (drop iSpace zWrite)
        | Some (_, None, _) => (SQLITE_OK, p)
        | None => (SQLITE_IOERR_NOMEM, p)
        end
      else (SQLITE_OK, p)
  end.

(** The branch of [memjrnlWrite] that stores in memory. *)
Definition memjrnlWriteMem (p : MemJournal) (zBuf : list Z) (iOfst : Z) : Z * MemJournal :=
  let p :=
    if (0 <? iOfst) && negb (iOfst =? iOffset (endpoint p)) then memjrnlTruncate p iOfst else p in
  match pFirst p with
  | c :: rest =>
      if iOfst =? 0 then
        (SQLITE_OK, mkJournal (nChunkSize p) (nSpill p) (patch c 0 zBuf :: rest) (endpoint p) (readpoint p))
      else write_loop (S (length zBuf)) 0 p zBuf
  | [] => write_loop (S (length zBuf)) 0 p zBuf
  end.

Context `{Vfs}.

(** The loop of [memjrnlCreateFile]. *)
Fixpoint spill_loop (f : File) (chunks : list (list Z)) (nChunk iOff iEnd : Z) : Z * File :=
  match chunks with
  | [] => (SQLITE_OK, f)
  | c :: rest =>
      let nChunk := if iEnd <? iOff + nChunk then iEnd - iOff else nChunk in
      let '(rc, f) := sqlite3OsWrite f (take nChunk c) iOff in
      if negb (rc =? SQLITE_OK) then (rc, f) else spill_loop f rest nChunk (iOff + nChunk) iEnd
  end.

(** On an error the journal is the one in memory again. *)
Definition memjrnlCreateFile (p : MemJournal) : Z * journal_file :=
  let '(rc, f) := sqlite3OsOpen in
  let '(rc, f) :=
    if rc =? SQLITE_OK then spill_loop f (pFirst p) (nChunkSize p) 0 (iOffset (endpoint p)) else (rc, f) in
  if negb (rc =? SQLITE_OK) then (rc, InMemory p) else (rc, OnDisk f).

Definition memjrnlWrite (p : MemJournal) (zBuf : list Z) (iOfst : Z) : Z * journal_file :=
  if (0 <? nSpill p) && (nSpill p <? len zBuf + iOfst) then
    let '(rc, j) := memjrnlCreateFile p in
    if rc =? SQLITE_OK then
      match j with
      | OnDisk f => let '(rc, f) := sqlite3OsWrite f zBuf iOfst in (rc, OnDisk f)
      | InMemory _ => (rc, j)
      end
    else (rc, j)
  else
    let '(rc, p) := memjrnlWriteMem p zBuf iOfst in (rc, InMemory p).
End Write.


(** [sizeof(FileChunk)] is 16. *)
Definition sqlite3JournalOpen `{Vfs} (nSpill : Z) : Z * journal_file :=
  if nSpill =? 0 then let '(rc, f) := sqlite3OsOpen in (rc, OnDisk f)
  else
    let sz := if 0 <? nSpill then nSpill else 8 + MEMJOURNAL_DFLT_FILECHUNKSIZE - 16 in
    (SQLITE_OK, InMemory (mkJournal sz nSpill [] (mkPoint 0 None) (mkPoint 0 None))).

(** ** What a journal holds *)

Definition data (p : MemJournal) : list Z := take (iOffset (endpoint p)) (concat (pFirst p)).

Record wf (p : MemJournal) : Prop := {
  wf_size : 0 < nChunkSize p;
  wf_chunks : Forall (fun c => len c = nChunkSize p) (pFirst p);
  wf_end : (0 < iOffset (endpoint p) /\
              (Z.of_nat (length (pFirst p)) - 1) * nChunkSize p < iOffset (endpoint p) <= Z.of_nat (length (pFirst p)) * nChunkSize p)
           \/ (pFirst p = [] /\ iOffset (endpoint p) = 0);
  wf_endchunk : pChunk (endpoint p) = match pFirst p with [] => None | _ => Some (length (pFirst p) - 1)%nat end;
  wf_read : iOffset (readpoint p) = 0 \/
    (0 < iOffset (readpoint p) /\
     pChunk (readpoint p) = Some (Z.to_nat (iOffset (readpoint p) / nChunkSize p)) /\
     (Z.to_nat (iOffset (readpoint p) / nChunkSize p) < length (pFirst p))%nat) }.

(** ** Slices *)

Lemma len_nonneg l : 0 <= len l. Proof. unfold len. lia. Qed.
Lemma len_app a b : len (a ++ b) = len a + len b. Proof. unfold len. rewrite length_app. lia. Qed.
Lemma len_take n l : 0 <= n <= len l -> len (take n l) = n.
Proof. unfold len, take. intros H. rewrite length_firstn. lia. Qed.
Lemma len_drop n l : 0 <= n <= len l -> len (drop n l) = len l - n.
Proof. unfold len, drop. intros H. rewrite length_skipn. lia. Qed.
Lemma take_drop n l : take n l ++ drop n l = l. Proof. apply firstn_skipn. Qed.
Lemma take_all n l : len l <= n -> take n l = l.
Proof. unfold take, len. intros H. apply firstn_all2. lia. Qed.
Lemma take_0 l : take 0 l = []. Proof. reflexivity. Qed.
Lemma drop_all n l : len l <= n -> drop n l = [].
Proof. unfold drop, len. intros H. apply skipn_all2. lia. Qed.

Lemma take_app_l n a b : n <= len a -> take n (a ++ b) = take n a.
Proof. unfold take, len. intros H. rewrite firstn_app. replace (Z.to_nat n - length a)%nat with 0%nat by lia. now rewrite firstn_O, app_nil_r. Qed.
Lemma take_app_r n a b : len a <= n -> take n (a ++ b) = a ++ take (n - len a) b.
Proof.
  unfold take, len. intros H. rewrite firstn_app, firstn_all2 by lia. do 2 f_equal. lia.
Qed.
Lemma drop_app_l n a b : 0 <= n <= len a -> drop n (a ++ b) = drop n a ++ b.
Proof. unfold drop, len. intros H. rewrite skipn_app. replace (Z.to_nat n - length a)%nat with 0%nat by lia. reflexivity. Qed.
Lemma take_take m n l : m <= n -> take m (take n l) = take m l.
Proof. unfold take. intros H. rewrite firstn_firstn. f_equal. lia. Qed.

Lemma patch_end l d : patch l (len l) d = l ++ d.
Proof. unfold patch. rewrite take_all, drop_all by (pose proof (len_nonneg d); lia). now rewrite app_nil_r. Qed.

Lemma len_patch l off d : 0 <= off -> off + len d <= len l -> len (patch l off d) = len l.
Proof.
  intros Ho H. pose proof (len_nonneg d). unfold patch. rewrite !len_app, len_take, len_drop by lia. lia.
Qed.

Lemma take_patch l off d : 0 <= off <= len l -> take (off + len d) (patch l off d) = take off l ++ d.
Proof.
  intros Ho. pose proof (len_nonneg d). unfold patch. rewrite take_app_r by (rewrite len_take by lia; lia).
  rewrite len_take by lia. f_equal. rewrite take_app_l by lia. apply take_all. lia.
Qed.

(** ** Chunks of one size *)

Section Chunks.
Variable sz : Z.
Hypothesis Hsz : 0 < sz.
Abbreviation sized := (Forall (fun c => len c = sz)).

Lemma len_concat cs : sized cs -> len (concat cs) = Z.of_nat (length cs) * sz.
Proof. induction 1 as [|c cs Hc _ IH]; [reflexivity|]. cbn [concat length]. rewrite len_app, IH, Hc. lia. Qed.


Lemma take_concat n cs : sized cs -> (n <= length cs)%nat -> take (Z.of_nat n * sz) (concat cs) = concat (firstn n cs).
Proof.
  intros H. revert n. induction H as [|c cs Hc H IH]; intros n Hn.
  - destruct n; [reflexivity|cbn in Hn; lia].
  - destruct n as [|n]; [reflexivity|]. cbn [length] in Hn. cbn [concat firstn]. rewrite take_app_r by (rewrite Hc; lia).
    rewrite Hc, <- IH by lia. do 2 f_equal. lia.
Qed.


Lemma find_last_ok cs n iOff size : iOff - sz < size -> size <= iOff - sz + Z.of_nat (length cs) * sz ->
  find_last cs n iOff sz size = Some (n + Z.to_nat ((size - 1 - (iOff - sz)) / sz))%nat.
Proof.
  revert n iOff. induction cs as [|c cs IH]; intros n iOff H1 H2; cbn [length] in H2; [lia|]. cbn [find_last].
  destruct (Z.ltb_spec iOff size) as [H|H].
  - rewrite IH by lia. f_equal. replace (size - 1 - (iOff - sz)) with (size - 1 - (iOff + sz - sz) + 1 * sz) by lia.
    rewrite Z.div_add by lia. pose proof (Z.div_pos (size - 1 - (iOff + sz - sz)) sz). lia.
  - rewrite Z.div_small by lia. f_equal. lia.
Qed.

End Chunks.

(** ** Reading, truncating and writing *)

Lemma data_len p : wf p -> len (data p) = iOffset (endpoint p) /\ 0 <= iOffset (endpoint p).
Proof.
  intros [Hsz Hc He _ _]. unfold data.
  assert (H : 0 <= iOffset (endpoint p) <= Z.of_nat (length (pFirst p)) * nChunkSize p).
  { destruct He as [He|[-> ->]]; [lia|cbn; lia]. }
  rewrite len_take by (rewrite (len_concat _ _ Hc); lia). lia.
Qed.

Lemma end_bound p : wf p -> iOffset (endpoint p) <= Z.of_nat (length (pFirst p)) * nChunkSize p.
Proof. intros [Hsz Hc He _ _]. destruct He as [He|[-> ->]]; [lia|cbn; lia]. Qed.


Lemma truncate_ok p size : wf p -> 0 <= size <= iOffset (endpoint p) ->
  wf (memjrnlTruncate p size) /\ data (memjrnlTruncate p size) = take size (data p) /\
  iOffset (endpoint (memjrnlTruncate p size)) = size /\
  nChunkSize (memjrnlTruncate p size) = nChunkSize p /\ nSpill (memjrnlTruncate p size) = nSpill p.
Proof.
  intros Hw Hs. pose proof (end_bound p Hw) as Hend. pose proof (data_len p Hw) as [Hdl _]. pose proof Hw as [Hsz Hc He Hec Hr].
  unfold memjrnlTruncate. destruct (Z.ltb_spec size (iOffset (endpoint p))) as [Hlt|Hge].
  2:{ split; [exact Hw|]. rewrite take_all by lia. repeat split. lia. }
  destruct (Z.eqb_spec size 0) as [->|Hne].
  - split; [|repeat split]. constructor; cbn; auto.
  - set (sz := nChunkSize p) in *.
    rewrite (find_last_ok sz Hsz) by lia. set (n := (0 + Z.to_nat ((size - 1 - (sz - sz)) / sz))%nat).
    assert (Hnz : Z.of_nat n = (size - 1) / sz).
    { unfold n. pose proof (Z.div_pos (size - 1) sz ltac:(lia) Hsz). replace (size - 1 - (sz - sz)) with (size - 1) by lia. lia. }
    pose proof (Z.div_mod (size - 1) sz ltac:(lia)) as Hdm. pose proof (Z.mod_pos_bound (size - 1) sz Hsz) as Hm.
    assert (Hn : (S n <= length (pFirst p))%nat) by nia.
    assert (Hlf : length (firstn (S n) (pFirst p)) = S n) by (rewrite length_firstn; lia).
    assert (Hcf : Forall (fun c => len c = sz) (firstn (S n) (pFirst p)))
      by (rewrite <- (firstn_skipn (S n) (pFirst p)) in Hc; apply Forall_app in Hc; apply Hc).
    split; [constructor; cbn [pFirst endpoint readpoint nChunkSize iOffset pChunk]; auto|split; [|repeat split]].
    + left. rewrite Hlf. fold sz. split; [lia|]. nia.
    + rewrite Hlf. destruct (firstn (S n) (pFirst p)); [discriminate|]. f_equal. lia.
    + unfold data. cbn [pFirst endpoint iOffset]. rewrite take_take by lia.
      rewrite <- (take_concat sz Hsz (S n) (pFirst p) Hc Hn). apply take_take. nia.
Qed.

Lemma replace_nth_app a c x : replace_nth (length a) c (a ++ [x]) = a ++ [c].
Proof. induction a as [|y a IH]; cbn; congruence. Qed.

Lemma replace_nth_length n c l : length (replace_nth n c l) = length l.
Proof. revert n. induction l as [|x l IH]; intros [|n]; cbn; auto. Qed.

Lemma chunk_index n q sz off : 0 < sz -> 0 <= off < sz -> (n - 1) * sz < q * sz + off <= n * sz ->
  (off = 0 -> q = n) /\ (off <> 0 -> q = n - 1).
Proof.
  intros Hs Ho H. assert (Hq : n - 1 <= q <= n) by (split; apply Z.nlt_ge; intros Hlt; nia).
  split; intros E; assert (Hc : q = n - 1 \/ q = n) by lia; destruct Hc as [-> | ->]; nia.
Qed.

(** One round of the write loop: [w] goes after the data, into the last chunk
    or into a new one. *)
Lemma write_round p chunks init c off w : wf p ->
  off = iOffset (endpoint p) mod nChunkSize p -> len c = nChunkSize p -> chunks = init ++ [c] ->
  (off = 0 /\ pFirst p = init \/ off <> 0 /\ pFirst p = init ++ [c]) ->
  0 < len w -> off + len w <= nChunkSize p ->
  let p' := mkJournal (nChunkSize p) (nSpill p) (replace_nth (length init) (patch c off w) chunks)
              (mkPoint (iOffset (endpoint p) + len w) (Some (length init))) (readpoint p) in
  wf p' /\ data p' = data p ++ w.
Proof.
  intros Hw Hoff Hlc -> Hinit Hlw Hfit. pose proof (data_len p Hw) as [Hdl He0]. pose proof (end_bound p Hw) as Hend.
  pose proof Hw as [Hsz Hc He Hec Hr]. set (sz := nChunkSize p) in *. rewrite replace_nth_app.
  assert (Hci : Forall (fun c => len c = sz) init).
  { destruct Hinit as [[_ E]|[_ E]]; rewrite E in Hc; [exact Hc|]. apply Forall_app in Hc. apply Hc. }
  pose proof (len_concat sz init Hci) as Hli. pose proof (Z.mod_pos_bound (iOffset (endpoint p)) sz Hsz) as Hm.
  pose proof (Z.div_mod (iOffset (endpoint p)) sz ltac:(lia)) as Hdm.
  assert (Hbase : iOffset (endpoint p) = Z.of_nat (length init) * sz + off).
  { rewrite <- Hoff in Hdm. set (q := iOffset (endpoint p) / sz) in *. rewrite (Z.mul_comm sz) in Hdm.
    destruct Hinit as [[E0 E]|[E0 E]]; rewrite E in *.
    - destruct He as [(_ & He)|[He1 He2]]; [|rewrite He1, He2, E0; reflexivity].
      rewrite Hdm in He |- *. now rewrite (proj1 (chunk_index _ q sz off Hsz ltac:(lia) He) E0).
    - rewrite length_app in *. cbn [length] in *. destruct He as [(_ & He)|[He _]]; [|destruct init; discriminate].
      rewrite Hdm in He |- *. rewrite (proj2 (chunk_index _ q sz off Hsz ltac:(lia) He) E0). lia. }
  assert (Hdata : data p = concat init ++ take off c).
  { unfold data. destruct Hinit as [[E0 E]|[E0 E]]; rewrite E, Hbase.
    - rewrite E0, take_0, app_nil_r. apply take_all. lia.
    - rewrite concat_app. cbn [concat]. rewrite app_nil_r, take_app_r by lia. do 2 f_equal. lia. }
  assert (Hcs : Forall (fun c => len c = sz) (init ++ [patch c off w])).
  { apply Forall_app. split; [exact Hci|]. constructor; [|constructor]. rewrite len_patch by lia. exact Hlc. }
  intros p'. split.
  - constructor; cbn [pFirst endpoint readpoint nChunkSize iOffset pChunk p']; auto.
    + left. rewrite length_app. cbn [length]. fold sz. split; [lia|]. nia.
    + rewrite length_app. cbn [length]. destruct (init ++ [patch c off w]) eqn:E; [destruct init; discriminate|]. f_equal. lia.
    + destruct Hr as [Hr|(H1 & H2 & H3)]; [now left|right]. repeat split; auto. fold sz in H3 |- *.
      rewrite length_app. cbn [length]. destruct Hinit as [[_ E]|[_ E]]; rewrite E in H3; [lia|].
      rewrite length_app in H3. cbn [length] in H3. lia.
  - unfold data at 1. cbn [pFirst endpoint iOffset p']. rewrite concat_app. cbn [concat]. rewrite app_nil_r.
    rewrite take_app_r by lia. rewrite Hdata, <- app_assoc. f_equal. rewrite Hli, Hbase.
    replace (Z.of_nat (length init) * sz + off + len w - Z.of_nat (length init) * sz) with (off + len w) by lia.
    apply take_patch. lia.
Qed.

Section WriteOk.
Variables (malloc : nat -> bool) (junk : nat -> list Z).

Lemma write_loop_ok fuel k p z : wf p -> (forall j, len (junk j) = nChunkSize p) -> (length z < fuel)%nat ->
  let '(rc, p') := write_loop malloc junk fuel k p z in
  wf p' /\ nChunkSize p' = nChunkSize p /\ nSpill p' = nSpill p /\
  (exists w r, z = w ++ r /\ data p' = data p ++ w /\ (rc = SQLITE_OK /\ r = [] \/ rc = SQLITE_IOERR_NOMEM)) /\
  ((forall n, malloc n = true) -> rc = SQLITE_OK).
Proof.
  revert k p z. induction fuel as [|fuel IH]; intros k p z Hw Hj Hf; [lia|]. cbn [write_loop].
  pose proof Hw as [Hsz Hc He Hec Hr].
  destruct (Z.ltb_spec 0 (len z)) as [Hz|Hz].
  2:{ assert (z = []) by (unfold len in Hz; destruct z; [reflexivity|cbn [length] in Hz; lia]). subst z.
      split; [exact Hw|]. split; [reflexivity|]. split; [reflexivity|]. split; [|auto]. exists [], []. repeat split; auto. now rewrite app_nil_r. }
  set (off := iOffset (endpoint p) mod nChunkSize p).
  pose proof (Z.mod_pos_bound (iOffset (endpoint p)) (nChunkSize p) Hsz) as Hm. fold off in Hm.
  set (iSpace := Z.min (len z) (nChunkSize p - off)).
  assert (His : 0 < iSpace <= len z /\ iSpace <= nChunkSize p - off) by (unfold iSpace; lia).
  assert (Hlw : len (take iSpace z) = iSpace) by (apply len_take; lia).
  assert (Hround : forall chunks init c k',
    (off = 0 /\ pFirst p = init \/ off <> 0 /\ pFirst p = init ++ [c]) -> chunks = init ++ [c] -> len c = nChunkSize p ->
    let '(rc, p') := write_loop malloc junk fuel k'
       (mkJournal (nChunkSize p) (nSpill p) (replace_nth (length init) (patch c off (take iSpace z)) chunks)
          (mkPoint (iOffset (endpoint p) + iSpace) (Some (length init))) (readpoint p)) (drop iSpace z) in
    wf p' /\ nChunkSize p' = nChunkSize p /\ nSpill p' = nSpill p /\
    (exists w r, z = w ++ r /\ data p' = data p ++ w /\ (rc = SQLITE_OK /\ r = [] \/ rc = SQLITE_IOERR_NOMEM)) /\
    ((forall n, malloc n = true) -> rc = SQLITE_OK)).
  { intros chunks init c k' Hi Ec Hlc.
    pose proof (write_round p chunks init c off (take iSpace z) Hw eq_refl Hlc Ec Hi ltac:(lia) ltac:(lia)) as [W1 D1].
    rewrite Hlw in W1, D1. specialize (IH k' _ (drop iSpace z) W1 Hj).
    assert (Hlt : (length (drop iSpace z) < fuel)%nat).
    { pose proof (len_drop iSpace z ltac:(lia)) as Hd. unfold len in Hd, His, Hz. lia. }
    specialize (IH Hlt). destruct (write_loop malloc junk fuel k' _ _) as [rc p'].
    destruct IH as (A1 & A2 & A3 & (w & r & Ew & Ed & Hrc) & A5).
    split; [exact A1|]. split; [exact A2|]. split; [exact A3|]. split; [|exact A5].
    exists (take iSpace z ++ w), r. rewrite <- app_assoc, <- Ew, take_drop. split; [reflexivity|].
    split; [now rewrite Ed, D1, app_assoc|exact Hrc]. }
  destruct (Z.eqb_spec off 0) as [E0|E0].
  - destruct (malloc k) eqn:Em; cbn [negb].
    + rewrite (app_nth2 (pFirst p)), Nat.sub_diag by lia. cbn [nth]. apply Hround; auto.
    + split; [exact Hw|]. split; [reflexivity|]. split; [reflexivity|]. split; [|intros Ha; now rewrite Ha in Em].
      exists [], z. repeat split; auto. now rewrite app_nil_r.
  - destruct (pFirst p) as [|c0 cs] eqn:Ep.
    + exfalso. apply E0. unfold off. destruct He as [(H1 & H2)|[_ ->]]; [cbn in H2; lia|]. reflexivity.
    + rewrite Hec. destruct (exists_last (l := c0 :: cs) ltac:(discriminate)) as (init & c & E). rewrite E in *.
      rewrite length_app. cbn [length]. replace (length init + 1 - 1)%nat with (length init) by lia.
      rewrite (app_nth2 init), Nat.sub_diag by lia. cbn [nth]. apply Hround; auto.
      apply Forall_app in Hc as [_ Hc]. now apply Forall_inv in Hc.
Qed.

(** The branch that stores in memory, at the three kinds of offset. *)
Lemma write_mem_ok p z iOfst : wf p -> (forall j, len (junk j) = nChunkSize p) -> 0 <= iOfst <= iOffset (endpoint p) ->
  (iOfst = 0 -> pFirst p <> [] -> len z <= nChunkSize p /\ len z <= iOffset (endpoint p)) ->
  let '(rc, p') := memjrnlWriteMem malloc junk p z iOfst in
  wf p' /\ nChunkSize p' = nChunkSize p /\ nSpill p' = nSpill p /\
  (exists w r, z = w ++ r /\ (rc = SQLITE_OK /\ r = [] \/ rc = SQLITE_IOERR_NOMEM) /\
     data p' = if (iOfst =? 0) && negb (iOffset (endpoint p) =? 0) then patch (data p) 0 z else take iOfst (data p) ++ w) /\
  ((iOfst =? 0) && negb (iOffset (endpoint p) =? 0) = true -> rc = SQLITE_OK) /\
  ((forall n, malloc n = true) -> rc = SQLITE_OK).
Proof.
  intros Hw Hj Ho Hhead. pose proof (data_len p Hw) as [Hdl _]. pose proof (end_bound p Hw) as Hend.
  pose proof Hw as [Hsz Hc He Hec Hr]. unfold memjrnlWriteMem.
  destruct (Z.eqb_spec iOfst 0) as [->|Hne].
  - cbn [Z.ltb Z.compare andb]. destruct (pFirst p) as [|c cs] eqn:Ep.
    + assert (E0 : iOffset (endpoint p) = 0) by (destruct He as [(H1 & H2)|[_ H]]; [cbn in H2; lia|exact H]).
      pose proof (write_loop_ok (S (length z)) 0 p z Hw Hj ltac:(lia)) as H.
      destruct (write_loop malloc junk _ _ p z) as [rc p']. destruct H as (A1 & A2 & A3 & (w & r & Ew & Ed & Hrc) & A5).
      repeat (split; [assumption|]). split; [|split; [rewrite E0; discriminate|exact A5]]. exists w, r. rewrite E0. cbn [Z.eqb negb andb].
      rewrite take_0. repeat split; auto. rewrite Ed. unfold data. rewrite E0. reflexivity.
    + assert (E0 : iOffset (endpoint p) <> 0) by (destruct He as [(H1 & H2)|[H _]]; [lia|discriminate]).
      destruct (Hhead eq_refl ltac:(discriminate)) as [Hz1 Hz2]. pose proof (len_nonneg z) as Hz0.
      assert (Hlc : len c = nChunkSize p) by (apply Forall_inv in Hc; exact Hc).
      split; [|split; [reflexivity|split; [reflexivity|split; [|split; auto]]]].
      * constructor; cbn [pFirst endpoint readpoint nChunkSize iOffset pChunk].
        -- exact Hsz.
        -- apply Forall_cons_iff in Hc as [_ Hc]. constructor; [|exact Hc]. rewrite len_patch by lia. exact Hlc.
        -- destruct He as [He|[H _]]; [left; exact He|discriminate].
        -- exact Hec.
        -- exact Hr.
      * exists z, []. rewrite app_nil_r. split; [reflexivity|]. split; [auto|].
        replace (iOffset (endpoint p) =? 0) with false by lia. cbn [Z.eqb negb andb].
        unfold data. cbn [pFirst endpoint iOffset]. rewrite Ep. cbn [concat]. unfold patch. cbn [app]. rewrite !take_0. cbn [app].
        rewrite Z.add_0_l. rewrite <- app_assoc. rewrite take_app_r by lia. f_equal.
        rewrite <- drop_app_l by lia. clear - Hz2 Hz0 Hend Hc Ep Hsz.
        set (l := c ++ concat cs). set (e := iOffset (endpoint p)) in *. unfold take, drop, len in *.
        rewrite firstn_skipn_comm. f_equal. f_equal. lia.
  - assert (Hlt0 : 0 < iOfst) by lia. replace (0 <? iOfst) with true by lia. cbn [andb].
    set (p1 := if negb (iOfst =? iOffset (endpoint p)) then memjrnlTruncate p iOfst else p).
    assert (H1 : wf p1 /\ data p1 = take iOfst (data p) /\ nChunkSize p1 = nChunkSize p /\ nSpill p1 = nSpill p).
    { unfold p1. destruct (Z.eqb_spec iOfst (iOffset (endpoint p))) as [E|E]; cbn [negb].
      - rewrite take_all by lia. auto.
      - destruct (truncate_ok p iOfst Hw Ho) as (T1 & T2 & _ & T4 & T5). auto. }
    destruct H1 as (W1 & D1 & S1 & N1).
    assert (Hwl : (match pFirst p1 with [] | _ => write_loop malloc junk (S (length z)) 0 p1 z end) = write_loop malloc junk (S (length z)) 0 p1 z)
      by (destruct (pFirst p1); reflexivity).
    rewrite Hwl. pose proof (write_loop_ok (S (length z)) 0 p1 z W1 ltac:(intros j; rewrite S1; apply Hj) ltac:(lia)) as H.
    destruct (write_loop malloc junk _ _ p1 z) as [rc p']. destruct H as (A1 & A2 & A3 & (w & r & Ew & Ed & Hrc) & A5).
    split; [exact A1|]. split; [congruence|]. split; [congruence|]. split; [|split; [discriminate|exact A5]].
    exists w, r. split; [exact Ew|]. split; [exact Hrc|]. now rewrite Ed, D1.
Qed.
End WriteOk.

(** ** Spilling to disk *)

Section Spill.
Context `{VfsLaws}.

Lemma spill_loop_ok sz cs f iOff iEnd f' : 0 < sz -> Forall (fun c => len c = sz) cs ->
  len (contents f) = iOff -> (cs = [] -> iEnd = iOff) ->
  (cs <> [] -> (Z.of_nat (length cs) - 1) * sz < iEnd - iOff <= Z.of_nat (length cs) * sz) ->
  spill_loop f cs sz iOff iEnd = (SQLITE_OK, f') ->
  contents f' = contents f ++ take (iEnd - iOff) (concat cs).
Proof.
  intros Hsz Hc. revert f iOff. induction Hc as [|c cs Hlc Hc IH]; intros f iOff Hf He Hb E; cbn [spill_loop] in E.
  - injection E as <-. specialize (He eq_refl). now rewrite He, Z.sub_diag, take_0, app_nil_r.
  - specialize (Hb ltac:(discriminate)). cbn [length concat] in *. pose proof (len_nonneg (contents f)) as Hnn.
    destruct (Z.ltb_spec iEnd (iOff + sz)) as [Hlt|Hge].
    + assert (cs = []) by (destruct cs; [reflexivity|cbn [length] in *; nia]). subst cs. cbn [concat] in *.
      destruct (sqlite3OsWrite f (take (iEnd - iOff) c) iOff) as [rc f1] eqn:Ew.
      destruct (Z.eqb_spec rc SQLITE_OK) as [->|]; cbn [negb spill_loop] in E; [|congruence]. injection E as <-.
      rewrite (write_patches f _ iOff f1 ltac:(lia) Ew). rewrite <- Hf at 1. rewrite patch_end, app_nil_r. reflexivity.
    + rewrite take_all in E by lia. destruct (sqlite3OsWrite f c iOff) as [rc f1] eqn:Ew.
      destruct (Z.eqb_spec rc SQLITE_OK) as [->|]; cbn [negb] in E; [|congruence].
      pose proof (write_patches f c iOff f1 ltac:(lia) Ew) as Hp. rewrite <- Hf in Hp at 1. rewrite patch_end in Hp.
      rewrite (IH f1 (iOff + sz)); [rewrite Hp, <- app_assoc; f_equal| | | |exact E].
      * rewrite take_app_r by lia. rewrite Hlc. do 2 f_equal. lia.
      * rewrite Hp, len_app. lia.
      * intros ->. cbn [length] in Hb. lia.
      * intros _. lia.
Qed.

Lemma create_file_ok p : wf p -> let '(rc, j) := memjrnlCreateFile p in
  (rc = SQLITE_OK /\ exists f, j = OnDisk f /\ contents f = data p) \/ (rc <> SQLITE_OK /\ j = InMemory p).
Proof.
  intros Hw. pose proof Hw as [Hsz Hc He _ _]. unfold memjrnlCreateFile.
  destruct sqlite3OsOpen as [rc f] eqn:Eo. destruct (Z.eqb_spec rc SQLITE_OK) as [->|Hne].
  - destruct (spill_loop f _ _ _ _) as [rc' f'] eqn:Es. destruct (Z.eqb_spec rc' SQLITE_OK) as [->|Hne']; cbn [negb].
    + left. split; [reflexivity|]. exists f'. split; [reflexivity|].
      pose proof (open_empty f Eo) as Hf0.
      rewrite (spill_loop_ok (nChunkSize p) (pFirst p) f 0 (iOffset (endpoint p)) f'); auto.
      * rewrite Hf0. cbn [app]. unfold data. f_equal. lia.
      * now rewrite Hf0.
      * intros E. rewrite E in He. cbn in He. lia.
      * intros E. destruct He as [(_ & He)|[He _]]; [lia|contradiction].
    + right. auto.
  - replace (rc =? SQLITE_OK) with false by lia. right. auto.
Qed.
End Spill.

(** ** The component's claims *)

Definition journal_data `{Vfs} (j : journal_file) : list Z :=
  match j with InMemory p => data p | OnDisk f => contents f end.

(** The writes that the pager makes: at the end of the journal, or over its
    header. *)
Definition journal_write (p : MemJournal) (z : list Z) (iOfst : Z) : Prop :=
  iOfst = iOffset (endpoint p) \/
  (iOfst = 0 /\ len z <= iOffset (endpoint p) /\ len z <= nChunkSize p).

(** A journal write is a file write. Appending to a journal, or
    overwriting its header, through [memjrnlWrite] leaves exactly the bytes
    that the write leaves in a flat file, whether they stay in memory or this
    write is the one that spills the journal to disk; a failed spill keeps the
    journal in memory unchanged, and when memory runs out the journal keeps
    its bytes and a prefix of the new ones. *)
Theorem memjrnlWrite_correct `{VfsLaws} malloc junk p z iOfst :
  wf p -> (forall k, len (junk k) = nChunkSize p) -> journal_write p z iOfst ->
  let '(rc, j) := memjrnlWrite malloc junk p z iOfst in
  (rc = SQLITE_OK -> journal_data j = patch (data p) iOfst z) /\
  (forall p', j = InMemory p' -> wf p' /\ (rc <> SQLITE_OK -> exists w, data p' = data p ++ w)) /\
  ((forall k, malloc k = true) -> nSpill p <= 0 -> rc = SQLITE_OK).
Proof.
  intros Hw Hj Hjw. pose proof (data_len p Hw) as [Hdl Hd0]. pose proof (len_nonneg z) as Hz.
  assert (Ho : 0 <= iOfst <= iOffset (endpoint p)) by (destruct Hjw as [->|(-> & _)]; lia).
  unfold memjrnlWrite. destruct ((0 <? nSpill p) && (nSpill p <? len z + iOfst)) eqn:Esp.
  - pose proof (create_file_ok p Hw) as Hcf. destruct (memjrnlCreateFile p) as [rc j].
    destruct Hcf as [(-> & f & -> & Hf)|(Hne & ->)].
    + cbn [Z.eqb]. change (SQLITE_OK =? SQLITE_OK) with true. cbn iota.
      destruct (sqlite3OsWrite f z iOfst) as [rc f'] eqn:Ew. split; [|split; [discriminate|intros _ ?; lia]].
      intros ->. cbn [journal_data]. rewrite <- Hf. apply write_patches; [rewrite Hf; lia|exact Ew].
    + replace (rc =? SQLITE_OK) with false by lia. split; [congruence|]. split; [|intros _ ?; lia].
      intros p' E. injection E as <-. split; [exact Hw|]. intros _. exists []. now rewrite app_nil_r.
  - pose proof (write_mem_ok malloc junk p z iOfst Hw Hj Ho) as Hwm.
    assert (Hhead : iOfst = 0 -> pFirst p <> [] -> len z <= nChunkSize p /\ len z <= iOffset (endpoint p)).
    { intros E Hne. destruct Hjw as [He|(_ & ? & ?)]; [|lia]. exfalso. destruct Hw as [_ _ Hend _ _].
      destruct Hend as [(Hp & _)|[Hn _]]; [lia|contradiction]. }
    specialize (Hwm Hhead). destruct (memjrnlWriteMem malloc junk p z iOfst) as [rc p1].
    destruct Hwm as (W1 & S1 & N1 & (w & r & Ew & Hrc & Ed) & Hhok & Hall). cbn [journal_data].
    assert (Hat : (iOfst =? 0) && negb (iOffset (endpoint p) =? 0) = false -> iOfst = iOffset (endpoint p))
      by (intros Hb; destruct Hjw as [He|(-> & ? & _)]; [exact He|]; lia).
    split; [|split; [|intros Ha _; now apply Hall]].
    + intros ->. rewrite Ed. destruct ((iOfst =? 0) && negb (iOffset (endpoint p) =? 0)) eqn:Eb; [destruct (Z.eqb_spec iOfst 0) as [->|]; [reflexivity|discriminate]|].
      specialize (Hat eq_refl). destruct Hrc as [[_ ->]|Hrc]; [|discriminate]. rewrite app_nil_r in Ew. subst w.
      rewrite Hat, <- Hdl, patch_end, take_all by lia. reflexivity.
    + intros p' E. injection E as <-. split; [exact W1|]. intros Hne. destruct ((iOfst =? 0) && negb (iOffset (endpoint p) =? 0)) eqn:Eb.
      * exfalso. apply Hne. now apply Hhok.
      * exists w. rewrite Ed, (Hat eq_refl), <- Hdl, take_all by lia. reflexivity.
Qed.

(** A file that is a list of bytes, and whose operations never fail. *)
#[export] Instance byte_vfs : Vfs := {|
  File := list Z;
  sqlite3OsOpen := (SQLITE_OK, []);
  sqlite3OsWrite f d off := (SQLITE_OK, patch f off d);
  contents f := f |}.

#[export] Instance byte_vfs_laws : VfsLaws.
Proof.
  constructor.
  - intros f E. injection E as <-. reflexivity.
  - intros f d off f' _ E. injection E as <-. reflexivity.
Defined.

Definition empty_journal (sz spill : Z) : MemJournal := mkJournal sz spill [] (mkPoint 0 None) (mkPoint 0 None).

Lemma empty_wf sz spill : 0 < sz -> wf (empty_journal sz spill).
Proof. intros H. constructor; cbn; auto. Qed.

Lemma memjrnlWrite_correct_witness :
  let '(rc, j) := memjrnlWrite (fun _ => true) (fun _ => repeat 0 4) (empty_journal 4 6) [1; 2; 3; 4; 5; 6; 7] 0 in
  (rc = SQLITE_OK -> journal_data j = [1; 2; 3; 4; 5; 6; 7]) /\
  (forall p', j = InMemory p' -> wf p' /\ (rc <> SQLITE_OK -> exists w, data p' = data (empty_journal 4 6) ++ w)) /\
  ((nat -> true = true) -> 6 <= 0 -> rc = SQLITE_OK).
Proof.
  apply (memjrnlWrite_correct (fun _ => true) (fun _ => repeat 0 4) (empty_journal 4 6) [1; 2; 3; 4; 5; 6; 7] 0);
    [apply empty_wf; lia|reflexivity|now left].
Defined.










