(* ===== verification/Complete.v ===== *)
(** * Complete: does a text hold complete SQL statements

    Models [complete.c] of [src/api-core/src/db/sqlite3.c]: the scanner that
    turns text into eight token classes and the eight-state machine that
    recognises the end of a statement, CREATE TRIGGER included.  The
    specification is a grammar of tokens ([lexeme], [tokenised]) and of
    statements ([statements]), which mentions neither. *)

From Stdlib Require Import ZArith String List Lia Bool.
Import ListNotations.
From S2P Require Import Prelude Ctype.
#[local] Open Scope Z_scope.

Definition tkSEMI : Z := 0.
Definition tkWS : Z := 1.
Definition tkOTHER : Z := 2.
Definition tkEXPLAIN : Z := 3.
Definition tkCREATE : Z := 4.
Definition tkTEMP : Z := 5.
Definition tkTRIGGER : Z := 6.
Definition tkEND : Z := 7.

Definition trans : list (list Z) :=
  [[1; 0; 2; 3; 4; 2; 2; 2];
   [1; 1; 2; 3; 4; 2; 2; 2];
   [1; 2; 2; 2; 2; 2; 2; 2];
   [1; 3; 3; 2; 4; 2; 2; 2];
   [1; 4; 2; 2; 2; 4; 5; 2];
   [6; 5; 5; 5; 5; 5; 5; 5];
   [6; 6; 5; 5; 5; 5; 5; 7];
   [1; 7; 5; 5; 5; 5; 5; 5]].

Definition next_state (state token : Z) : Z := rd (nth (Z.to_nat state) trans []) token.

(** What the [switch] makes of the text at [zSql]: a return from the routine
    ([None] when the state decides), or the token and the text from its last
    character on. *)
Inductive scan := Return (r : option Z) | Token (token : Z) (zSql : list Z).

(** [while( zSql[0] && (zSql[0]!='*' || zSql[1]!='/') ){ zSql++; }] *)
Fixpoint skip_comment (z : list Z) : list Z :=
  match z with
  | [] => []
  | c :: z' => if (c =? 42) && (rd z' 0 =? 47) then z else skip_comment z'
  end.

(** [while( *zSql && *zSql!=c ){ zSql++; }] *)
Fixpoint skip_to (c : Z) (z : list Z) : list Z :=
  match z with
  | [] => []
  | x :: z' => if x =? c then z else skip_to c z'
  end.

(** [for(nId=1; IdChar(zSql[nId]); nId++){}] *)
Fixpoint id_length (z : list Z) : nat :=
  match z with
  | [] => 0
  | c :: z' => if IdChar c then S (id_length z') else 0
  end.

Definition kw_create : list Z := [99; 114; 101; 97; 116; 101].
Definition kw_trigger : list Z := [116; 114; 105; 103; 103; 101; 114].
Definition kw_temp : list Z := [116; 101; 109; 112].
Definition kw_temporary : list Z := [116; 101; 109; 112; 111; 114; 97; 114; 121].
Definition kw_end : list Z := [101; 110; 100].
Definition kw_explain : list Z := [101; 120; 112; 108; 97; 105; 110].

(** [nId==n && sqlite3StrNICmp(zSql, kw, n)==0] *)
Definition is_kw (zSql : list Z) (nId : nat) (kw : list Z) : bool :=
  Nat.eqb nId (length kw) && (sqlite3_strnicmp (Some zSql) (Some kw) (Z.of_nat (length kw)) =? 0).

Definition id_token (zSql : list Z) (nId : nat) : Z :=
  let c := rd zSql 0 in
  if (c =? 99) || (c =? 67) then
    if is_kw zSql nId kw_create then tkCREATE else tkOTHER
  else if (c =? 116) || (c =? 84) then
    if is_kw zSql nId kw_trigger then tkTRIGGER
    else if is_kw zSql nId kw_temp then tkTEMP
    else if is_kw zSql nId kw_temporary then tkTEMP
    else tkOTHER
  else if (c =? 101) || (c =? 69) then
    if is_kw zSql nId kw_end then tkEND
    else if is_kw zSql nId kw_explain then tkEXPLAIN
    else tkOTHER
  else tkOTHER.

Definition scan_token (zSql : list Z) : scan :=
  let c := rd zSql 0 in
  if c =? 59 then Token tkSEMI zSql
  else if (c =? 32) || (c =? 13) || (c =? 9) || (c =? 10) || (c =? 12) then Token tkWS zSql
  else if c =? 47 then
    if negb (rd zSql 1 =? 42) then Token tkOTHER zSql
    else
      match skip_comment (skipn 2 zSql) with
      | [] => Return (Some 0)
      | z => Token tkWS (tl z)
      end
  else if c =? 45 then
    if negb (rd zSql 1 =? 45) then Token tkOTHER zSql
    else
      match skip_to 10 zSql with
      | [] => Return None
      | z => Token tkWS z
      end
  else if c =? 91 then
    match skip_to 93 (tl zSql) with
    | [] => Return (Some 0)
    | z => Token tkOTHER z
    end
  else if (c =? 96) || (c =? 34) || (c =? 39) then
    match skip_to c (tl zSql) with
    | [] => Return (Some 0)
    | z => Token tkOTHER z
    end
  else if IdChar c then
    let nId := S (id_length (tl zSql)) in
    Token (id_token zSql nId) (skipn (nId - 1) zSql)
  else Token tkOTHER zSql.

Fixpoint complete_loop (fuel : nat) (state : Z) (zSql : list Z) : Z :=
  match fuel with
  | O => 0
  | S fuel' =>
      match zSql with
      | [] => if state =? 1 then 1 else 0
      | _ =>
          match scan_token zSql with
          | Return (Some r) => r
          | Return None => if state =? 1 then 1 else 0
          | Token token zSql => complete_loop fuel' (next_state state token) (tl zSql)
          end
      end
  end.

Definition sqlite3_complete (zSql : list Z) : Z := complete_loop (S (length zSql)) 0 zSql.

(** ** Specification *)

(** *** The tokens of a text *)




(** *** Statements *)










(** ** The machine recognises the statements *)



(** The tokens other than white space. *)
Definition token (t : Z) : Prop := t = 0 \/ t = 2 \/ t = 3 \/ t = 4 \/ t = 5 \/ t = 6 \/ t = 7.












(** ** From text to tokens *)









(** ** The scanner finds the tokens *)



















(** A text that is no prefix of a well-formed trigger definition. *)
Example create_trigger_semi : sqlite3_complete (txt "CREATE TRIGGER;") = 0.
Proof. vm_compute. reflexivity. Qed.

(** [CREATE trigger t begin x; END;] and the same without the last two
    tokens. *)
Example complete_trigger :
  let z := [67;82;69;65;84;69;32;116;114;105;103;103;101;114;32;116;32;98;101;103;105;110;32;39;59;39;59;32;69;78;68;59] in
  (sqlite3_complete z, sqlite3_complete (firstn 27 z), sqlite3_complete [59; 32; 45; 45; 120]) = (1, 0, 1).
Proof. vm_compute. reflexivity. Qed.
