(* ===== verification/Random.v ===== *)
(** * Random: the pseudo-random number generator

    Models [random.c] of [src/api-core/src/db/sqlite3.c]: the ChaCha20 block
    function and the buffer of bytes that [sqlite3_randomness] hands out.  The
    seed that [sqlite3OsRandomness] delivers is a parameter. *)

From Stdlib Require Import ZArith List Lia Bool Permutation.
Import ListNotations.
From S2P Require Import Prelude IntArith.
#[local] Open Scope Z_scope.

(** ** The block function *)

Definition ROTL (a b : Z) : Z := Z.lor (u32 (Z.shiftl a b)) (Z.shiftr a (32 - b)).

(** The new values of the four words. *)
Definition QR (a b c d : Z) : Z * Z * Z * Z :=
  let a := u32 (a + b) in let d := Z.lxor d a in let d := ROTL d 16 in
  let c := u32 (c + d) in let b := Z.lxor b c in let b := ROTL b 12 in
  let a := u32 (a + b) in let d := Z.lxor d a in let d := ROTL d 8 in
  let c := u32 (c + d) in let b := Z.lxor b c in let b := ROTL b 7 in
  (a, b, c, d).

(** [QR(x[i], x[j], x[k], x[l])] *)
Definition QRx (i j k l : Z) (x : list Z) : list Z :=
  let '(a, b, c, d) := QR (rd x i) (rd x j) (rd x k) (rd x l) in
  wr (wr (wr (wr x i a) j b) k c) l d.

Definition double_round (x : list Z) : list Z :=
  let x := QRx 0 4 8 12 x in
  let x := QRx 1 5 9 13 x in
  let x := QRx 2 6 10 14 x in
  let x := QRx 3 7 11 15 x in
  let x := QRx 0 5 10 15 x in
  let x := QRx 1 6 11 12 x in
  let x := QRx 2 7 8 13 x in
  QRx 3 4 9 14 x.

Definition chacha_block (inp : list Z) : list Z :=
  let x := Nat.iter 10 double_round inp in
  map (fun '(a, b) => u32 (a + b)) (combine x inp).

(** The bytes of little-endian words. *)
Definition word_bytes (w : Z) : list Z :=
  [w mod 256; w / 256 mod 256; w / 65536 mod 256; w / 16777216 mod 256].

Record sqlite3PrngType := mkPrng { s : list Z; out : list Z; n : Z }.

(** ** Handing out bytes *)

Definition chacha20_init : list Z := [0x61707865; 0x3320646e; 0x79622d32; 0x6b206574].

(** The first call seeds the state with eleven words. *)
Definition prng_seed (seed : list Z) (p : sqlite3PrngType) : sqlite3PrngType :=
  if rd (s p) 0 =? 0 then
    let w := chacha20_init ++ seed ++ [0] in
    let w := wr w 15 (rd w 12) in
    let w := wr w 12 0 in
    mkPrng w (out p) 0
  else p.

(** [while( 1 )]: the bytes and the state. *)
Fixpoint random_loop (fuel : nat) (N : Z) (p : sqlite3PrngType) : list Z * sqlite3PrngType :=
  match fuel with
  | O => ([], p)
  | S fuel' =>
      if N <=? n p then
        (firstn (Z.to_nat N) (skipn (Z.to_nat (n p - N)) (out p)), mkPrng (s p) (out p) (n p - N))
      else
        let '(z, N) := if 0 <? n p then (firstn (Z.to_nat (n p)) (out p), N - n p) else ([], N) in
        let s' := wr (s p) 12 (u32 (rd (s p) 12 + 1)) in
        let '(z', p') := random_loop fuel' N (mkPrng s' (flat_map word_bytes (chacha_block s')) 64) in
        (z ++ z', p')
  end.

(** [pBuf] is not null. *)
Definition sqlite3_randomness (seed : list Z) (N : Z) (p : sqlite3PrngType) : list Z * sqlite3PrngType :=
  if N <=? 0 then ([], mkPrng (wr (s p) 0 0) (out p) (n p))
  else random_loop (S (S (Z.to_nat (N / 64)))) N (prng_seed seed p).

(** ** The block function is the one of RFC 7539, section 2.3.2 *)

Definition rfc7539_input : list Z :=
  [1634760805; 857760878; 2036477234; 1797285236; 50462976; 117835012; 185207048; 252579084;
   319951120; 387323156; 454695192; 522067228; 1; 150994944; 1241513984; 0].

Example chacha_rfc7539 : chacha_block rfc7539_input =
  [3840405776; 358169553; 534581072; 3295748259; 3354710471; 57196595; 2594841092; 1315755203;
   1180992210; 162176775; 98026004; 2718075865; 3516666549; 3108902622; 3900952779; 1312575650].
Proof. vm_compute. reflexivity. Qed.

(** ** The rounds lose nothing *)

Definition is_words (x : list Z) : Prop := length x = 16%nat /\ Forall is_u32 x.

(** Rotation the other way. *)
Definition ROTR (a b : Z) : Z := ROTL a (32 - b).

Lemma ROTL_arith a b : is_u32 a -> 0 < b < 32 -> ROTL a b = a * 2 ^ b mod 2 ^ 32 + a / 2 ^ (32 - b).
Proof.
  unfold is_u32. intros Ha Hb. unfold ROTL, u32. rewrite Z.shiftl_mul_pow2, Z.shiftr_div_pow2 by lia.
  assert (Hlow : 0 <= a / 2 ^ (32 - b) < 2 ^ b).
  { split; [apply Z.div_pos; [lia|apply Z.pow_pos_nonneg; lia]|]. apply Z.div_lt_upper_bound; [apply Z.pow_pos_nonneg; lia|].
    rewrite <- Z.pow_add_r by lia. replace (32 - b + b) with 32 by lia. lia. }
  assert (Hmod : a * 2 ^ b mod 2 ^ 32 = (a mod 2 ^ (32 - b)) * 2 ^ b).
  { replace (2 ^ 32) with (2 ^ (32 - b) * 2 ^ b) by (rewrite <- Z.pow_add_r by lia; f_equal; lia).
    apply Z.mul_mod_distr_r; apply Z.pow_nonzero; lia. }
  rewrite Hmod. rewrite <- (Z.shiftl_mul_pow2 (a mod _)) by lia. rewrite lor_shiftl_add by lia.
  rewrite Z.shiftl_mul_pow2 by lia. reflexivity.
Qed.

Lemma ROTL_u32 a b : is_u32 a -> 0 < b < 32 -> is_u32 (ROTL a b).
Proof.
  intros Ha Hb. unfold is_u32, ROTL, u32 in *. split.
  - apply Z.lor_nonneg. split; [apply Z.mod_pos_bound; lia|]. apply Z.shiftr_nonneg. lia.
  - apply Z.log2_lt_cancel. rewrite Z.log2_pow2 by lia.
    pose proof (Z.mod_pos_bound (Z.shiftl a b) (2 ^ 32) ltac:(lia)) as H1.
    assert (H2 : 0 <= Z.shiftr a (32 - b) < 2 ^ 32).
    { rewrite Z.shiftr_div_pow2 by lia. split; [apply Z.div_pos; [lia|apply Z.pow_pos_nonneg; lia]|].
      pose proof (Z.pow_pos_nonneg 2 (32 - b) ltac:(lia) ltac:(lia)). apply Z.div_lt_upper_bound; nia. }
    assert (Hlog : forall x, 0 <= x < 2 ^ 32 -> Z.log2 x < 32).
    { intros x Hx. destruct (Z.eq_dec x 0) as [->|]; [cbn; lia|]. apply Z.log2_lt_pow2; lia. }
    rewrite Z.log2_lor by lia. pose proof (Hlog _ H1). pose proof (Hlog _ H2). lia.
Qed.

Lemma ROTR_ROTL a b : is_u32 a -> 0 < b < 32 -> ROTR (ROTL a b) b = a.
Proof.
  intros Ha Hb. pose proof (ROTL_u32 a b Ha Hb) as Hr. unfold ROTR. rewrite (ROTL_arith (ROTL a b)) by (assumption || lia).
  replace (32 - (32 - b)) with b by lia. rewrite (ROTL_arith a b Ha Hb). unfold is_u32 in Ha.
  set (P := 2 ^ b). set (Q := 2 ^ (32 - b)).
  assert (HPQ : P * Q = 2 ^ 32) by (unfold P, Q; rewrite <- Z.pow_add_r by lia; f_equal; lia).
  assert (HP : 0 < P) by (apply Z.pow_pos_nonneg; lia). assert (HQ : 0 < Q) by (apply Z.pow_pos_nonneg; lia).
  assert (E : a * P mod 2 ^ 32 = (a mod Q) * P) by (rewrite <- HPQ, (Z.mul_comm P Q); apply Z.mul_mod_distr_r; lia).
  rewrite E. pose proof (Z.div_mod a Q ltac:(lia)) as Hdm. pose proof (Z.mod_pos_bound a Q HQ) as Hm.
  assert (Hd : 0 <= a / Q < P) by (split; [apply Z.div_pos; lia|apply Z.div_lt_upper_bound; nia]).
  assert (Ediv : ((a mod Q) * P + a / Q) / P = a mod Q) by (rewrite Z.add_comm, Z.div_add, Z.div_small by lia; lia).
  rewrite Ediv. replace (((a mod Q) * P + a / Q) * Q) with (a / Q * Q + (a mod Q) * 2 ^ 32)
    by (rewrite <- HPQ; ring).
  rewrite Z.mod_add, Z.mod_small by nia. nia.
Qed.

Lemma lxor_u32 a b : is_u32 a -> is_u32 b -> is_u32 (Z.lxor a b).
Proof.
  unfold is_u32. intros Ha Hb.
  assert (H0 : 0 <= Z.lxor a b) by (apply Z.lxor_nonneg; split; lia). split; [exact H0|].
  destruct (Z.eq_dec (Z.lxor a b) 0) as [->|Hne]; [lia|]. apply Z.log2_lt_pow2; [lia|].
  assert (Hlog : forall x, 0 <= x < 2 ^ 32 -> Z.log2 x < 32).
  { intros x Hx. destruct (Z.eq_dec x 0) as [->|]; [cbn; lia|]. apply Z.log2_lt_pow2; lia. }
  pose proof (Z.log2_lxor a b). pose proof (Hlog a). pose proof (Hlog b). lia.
Qed.

Lemma u32_range x : is_u32 (u32 x).
Proof. unfold is_u32, u32. apply Z.mod_pos_bound. lia. Qed.

Lemma lxor_undo a b : Z.lxor (Z.lxor a b) b = a.
Proof. now rewrite Z.lxor_assoc, Z.lxor_nilpotent, Z.lxor_0_r. Qed.

Lemma add_undo a b : is_u32 a -> u32 (u32 (a + b) - b) = a.
Proof.
  unfold is_u32, u32. intros Ha. rewrite Zminus_mod_idemp_l. replace (a + b - b) with a by lia. apply Z.mod_small. lia.
Qed.

(** The quarter round backwards. *)
Definition QR_inv (a b c d : Z) : Z * Z * Z * Z :=
  let b := Z.lxor (ROTR b 7) c in let c := u32 (c - d) in
  let d := Z.lxor (ROTR d 8) a in let a := u32 (a - b) in
  let b := Z.lxor (ROTR b 12) c in let c := u32 (c - d) in
  let d := Z.lxor (ROTR d 16) a in let a := u32 (a - b) in
  (a, b, c, d).

Lemma QR_spec a b c d : is_u32 a -> is_u32 b -> is_u32 c -> is_u32 d ->
  let '(a', b', c', d') := QR a b c d in
  is_u32 a' /\ is_u32 b' /\ is_u32 c' /\ is_u32 d' /\ QR_inv a' b' c' d' = (a, b, c, d).
Proof.
  intros Ha Hb Hc Hd. unfold QR. cbv zeta.
  set (a1 := u32 (a + b)). assert (Ha1 : is_u32 a1) by apply u32_range.
  set (d1 := ROTL (Z.lxor d a1) 16). assert (Hd0 : is_u32 (Z.lxor d a1)) by now apply lxor_u32.
  assert (Hd1 : is_u32 d1) by (apply ROTL_u32; [assumption|lia]).
  set (c1 := u32 (c + d1)). assert (Hc1 : is_u32 c1) by apply u32_range.
  set (b1 := ROTL (Z.lxor b c1) 12). assert (Hb0 : is_u32 (Z.lxor b c1)) by now apply lxor_u32.
  assert (Hb1 : is_u32 b1) by (apply ROTL_u32; [assumption|lia]).
  set (a2 := u32 (a1 + b1)). assert (Ha2 : is_u32 a2) by apply u32_range.
  set (d2 := ROTL (Z.lxor d1 a2) 8). assert (Hd3 : is_u32 (Z.lxor d1 a2)) by now apply lxor_u32.
  assert (Hd2 : is_u32 d2) by (apply ROTL_u32; [assumption|lia]).
  set (c2 := u32 (c1 + d2)). assert (Hc2 : is_u32 c2) by apply u32_range.
  set (b2 := ROTL (Z.lxor b1 c2) 7). assert (Hb3 : is_u32 (Z.lxor b1 c2)) by now apply lxor_u32.
  assert (Hb2 : is_u32 b2) by (apply ROTL_u32; [assumption|lia]).
  repeat (split; [assumption|]). unfold QR_inv. cbv zeta.
  unfold b2. rewrite (ROTR_ROTL _ 7), lxor_undo by (assumption || lia).
  unfold c2. rewrite (add_undo c1 d2 Hc1).
  unfold d2. rewrite (ROTR_ROTL _ 8), lxor_undo by (assumption || lia).
  unfold a2. rewrite (add_undo a1 b1 Ha1).
  unfold b1. rewrite (ROTR_ROTL _ 12), lxor_undo by (assumption || lia).
  unfold c1. rewrite (add_undo c d1 Hc).
  unfold d1. rewrite (ROTR_ROTL _ 16), lxor_undo by (assumption || lia).
  unfold a1. rewrite (add_undo a b Ha). reflexivity.
Qed.

Lemma rd_u32 x i : is_words x -> is_u32 (rd x i).
Proof.
  intros [_ H]. unfold rd. destruct (nth_in_or_default (Z.to_nat i) x 0) as [Hin|Hd].
  - rewrite Forall_forall in H. auto.
  - rewrite Hd. unfold is_u32. lia.
Qed.

Lemma wr_words x i v : is_words x -> is_u32 v -> is_words (wr x i v).
Proof.
  intros [Hl H] Hv. split; [now rewrite length_wr|]. unfold wr. clear Hl. revert H. generalize (Z.to_nat i).
  induction x as [|y x IH]; intros [|k] H; cbn; auto; apply Forall_cons_iff in H as [Hy Hx]; constructor; auto.
Qed.

Lemma list_eq_rd (x y : list Z) : length x = length y -> (forall i, 0 <= i < Z.of_nat (length x) -> rd x i = rd y i) -> x = y.
Proof.
  intros Hl H. apply (nth_ext _ _ 0 0 Hl). intros k Hk. specialize (H (Z.of_nat k) ltac:(lia)).
  unfold rd in H. now rewrite Nat2Z.id in H.
Qed.

(** One quarter round on the state can be undone. *)
Lemma QRx_injective i j k l x y : 0 <= i < 16 -> 0 <= j < 16 -> 0 <= k < 16 -> 0 <= l < 16 ->
  i <> j -> i <> k -> i <> l -> j <> k -> j <> l -> k <> l -> is_words x -> is_words y ->
  is_words (QRx i j k l x) /\ (QRx i j k l x = QRx i j k l y -> x = y).
Proof.
  intros Hi Hj Hk Hl ? ? ? ? ? ? Wx Wy. unfold QRx.
  pose proof (QR_spec (rd x i) (rd x j) (rd x k) (rd x l) (rd_u32 _ _ Wx) (rd_u32 _ _ Wx) (rd_u32 _ _ Wx) (rd_u32 _ _ Wx)) as Sx.
  pose proof (QR_spec (rd y i) (rd y j) (rd y k) (rd y l) (rd_u32 _ _ Wy) (rd_u32 _ _ Wy) (rd_u32 _ _ Wy) (rd_u32 _ _ Wy)) as Sy.
  destruct (QR (rd x i) (rd x j) (rd x k) (rd x l)) as [[[a b] c] d]. destruct (QR (rd y i) (rd y j) (rd y k) (rd y l)) as [[[a' b'] c'] d'].
  destruct Sx as (A1 & A2 & A3 & A4 & Ex). destruct Sy as (_ & _ & _ & _ & Ey).
  split; [repeat apply wr_words; assumption|]. intros E. destruct Wx as [Lx _], Wy as [Ly _].
  assert (Hrd : forall z p q r t m, length z = 16%nat -> 0 <= m < 16 -> rd (wr (wr (wr (wr z i p) j q) k r) l t) m =
     if m =? l then t else if m =? k then r else if m =? j then q else if m =? i then p else rd z m)
    by (intros; rewrite !rd_wr; rewrite ?length_wr; try lia; reflexivity).
  assert (Hm : forall m, 0 <= m < 16 ->
     (if m =? l then d else if m =? k then c else if m =? j then b else if m =? i then a else rd x m) =
     (if m =? l then d' else if m =? k then c' else if m =? j then b' else if m =? i then a' else rd y m))
    by (intros m Hm; rewrite <- !Hrd by assumption; now rewrite E).
  assert (d = d') by (specialize (Hm l Hl); rewrite !Z.eqb_refl in Hm; exact Hm).
  assert (c = c') by (specialize (Hm k Hk); rewrite Z.eqb_refl in Hm; replace (k =? l) with false in Hm by lia; exact Hm).
  assert (b = b') by (specialize (Hm j Hj); rewrite Z.eqb_refl in Hm; replace (j =? l) with false in Hm by lia;
    replace (j =? k) with false in Hm by lia; exact Hm).
  assert (a = a') by (specialize (Hm i Hi); rewrite Z.eqb_refl in Hm; replace (i =? l) with false in Hm by lia;
    replace (i =? k) with false in Hm by lia; replace (i =? j) with false in Hm by lia; exact Hm).
  subst a' b' c' d'. rewrite Ex in Ey. apply pair_equal_spec in Ey as [Ey E4]. apply pair_equal_spec in Ey as [Ey E3].
  apply pair_equal_spec in Ey as [E1 E2].
  apply list_eq_rd; [congruence|]. rewrite Lx. intros m Hmr. specialize (Hm m Hmr).
  destruct (Z.eqb_spec m l) as [Em|_]; [rewrite Em; assumption|]. destruct (Z.eqb_spec m k) as [Em|_]; [rewrite Em; assumption|].
  destruct (Z.eqb_spec m j) as [Em|_]; [rewrite Em; assumption|]. destruct (Z.eqb_spec m i) as [Em|_]; [rewrite Em; assumption|]. exact Hm.
Qed.

Lemma double_round_injective x y : is_words x -> is_words y ->
  is_words (double_round x) /\ (double_round x = double_round y -> x = y).
Proof.
  intros Wx Wy. unfold double_round. cbv zeta.
  assert (Hstep : forall i j k l, 0 <= i < 16 -> 0 <= j < 16 -> 0 <= k < 16 -> 0 <= l < 16 ->
    i <> j -> i <> k -> i <> l -> j <> k -> j <> l -> k <> l -> forall x y, is_words x -> is_words y ->
    is_words (QRx i j k l x) /\ (QRx i j k l x = QRx i j k l y -> x = y)) by (intros; now apply QRx_injective).
  assert (W : forall i j k l, 0 <= i < 16 -> 0 <= j < 16 -> 0 <= k < 16 -> 0 <= l < 16 ->
    i <> j -> i <> k -> i <> l -> j <> k -> j <> l -> k <> l -> forall x, is_words x -> is_words (QRx i j k l x))
    by (intros; now apply (Hstep i j k l) with (y := x0)).
  split.
  - repeat (apply W; [lia..|]). exact Wx.
  - intros E. repeat (apply Hstep in E; [|lia..|repeat (apply W; [lia..|]); assumption|repeat (apply W; [lia..|]); assumption]).
    exact E.
Qed.

Lemma iter_S r (x : list Z) : Nat.iter (S r) double_round x = double_round (Nat.iter r double_round x).
Proof. reflexivity. Qed.

Lemma rounds_words r x : is_words x -> is_words (Nat.iter r double_round x).
Proof.
  intros Wx. induction r as [|r IH]; [exact Wx|]. rewrite iter_S. apply (double_round_injective _ _ IH IH).
Qed.

Lemma rounds_injective r x y : is_words x -> is_words y ->
  Nat.iter r double_round x = Nat.iter r double_round y -> x = y.
Proof.
  intros Wx Wy. induction r as [|r IH]; [trivial|]. rewrite !iter_S. intros E. apply IH.
  exact (proj2 (double_round_injective _ _ (rounds_words r x Wx) (rounds_words r y Wy)) E).
Qed.

(** ** The stream of bytes *)

Definition next_key (w : list Z) : list Z := wr w 12 (u32 (rd w 12 + 1)).
Definition key_bytes (w : list Z) : list Z := flat_map word_bytes (chacha_block w).

(** The bytes of the next [k] blocks. *)
Fixpoint stream (w : list Z) (k : nat) : list Z :=
  match k with O => [] | S k' => key_bytes (next_key w) ++ stream (next_key w) k' end.

(** The bytes of the current block that were not handed out yet. *)
Definition remaining (p : sqlite3PrngType) : list Z := firstn (Z.to_nat (n p)) (out p).

Definition prng_ok (p : sqlite3PrngType) : Prop :=
  length (s p) = 16%nat /\ 0 <= n p <= Z.of_nat (length (out p)) /\ n p <= 64.

Lemma QRx_length i j k l x : length (QRx i j k l x) = length x.
Proof. unfold QRx. destruct (QR _ _ _ _) as [[[a b] c] d]. now rewrite !length_wr. Qed.

#[local] Opaque QRx.

Lemma double_round_length x : length (double_round x) = length x.
Proof. unfold double_round. cbv zeta. do 8 (etransitivity; [apply QRx_length|]). reflexivity. Qed.

#[local] Opaque double_round.

Lemma key_bytes_length w : length w = 16%nat -> length (key_bytes w) = 64%nat.
Proof.
  intros Hw. unfold key_bytes. assert (Hl : length (chacha_block w) = 16%nat).
  { unfold chacha_block. rewrite length_map, length_combine, Hw.
    assert (Hr : forall r, length (Nat.iter r double_round w) = 16%nat).
    { induction r as [|r IH]; [exact Hw|]. rewrite iter_S. rewrite double_round_length. exact IH. }
    now rewrite Hr. }
  revert Hl. generalize (chacha_block w). intros l Hl.
  assert (H : length (flat_map word_bytes l) = (4 * length l)%nat) by (clear; induction l as [|x l IH]; [reflexivity|];
    cbn [flat_map]; rewrite length_app, IH; cbn [word_bytes length]; lia).
  lia.
Qed.

#[local] Opaque chacha_block.

Lemma firstn_split (a b : nat) (l : list Z) : firstn (a + b) l = firstn a l ++ firstn b (skipn a l).
Proof.
  revert l. induction a as [|a IH]; intros l; [reflexivity|]. destruct l as [|x l]; [now rewrite !firstn_nil|].
  cbn. now rewrite IH.
Qed.

Lemma random_loop_ok fuel N p : prng_ok p -> 0 < N <= n p + 64 * (Z.of_nat fuel - 1) ->
  let '(z, p') := random_loop fuel N p in
  prng_ok p' /\ Z.of_nat (length z) = N /\
  exists k, s p' = Nat.iter k next_key (s p) /\ Permutation (z ++ remaining p') (remaining p ++ stream (s p) k).
Proof.
  revert N p. induction fuel as [|fuel IH]; intros N p (Hs & Hn & Hn64) HN; [lia|]. cbn [random_loop].
  destruct (Z.leb_spec N (n p)) as [Hle|Hgt].
  - split; [repeat split; cbn; auto; lia|]. split.
    + rewrite length_firstn, length_skipn. lia.
    + exists 0%nat. split; [reflexivity|]. cbn [stream]. rewrite app_nil_r. unfold remaining. cbn [n out].
      replace (Z.to_nat (n p)) with (Z.to_nat (n p - N) + Z.to_nat N)%nat by lia. rewrite firstn_split. apply Permutation_app_comm.
  - fold (next_key (s p)). fold (key_bytes (next_key (s p))).
    set (z0 := if 0 <? n p then (firstn (Z.to_nat (n p)) (out p), N - n p) else ([], N)).
    assert (Hz0 : z0 = (remaining p, N - n p)).
    { unfold z0, remaining. destruct (Z.ltb_spec 0 (n p)); [reflexivity|]. replace (n p) with 0 by lia. f_equal. lia. }
    rewrite Hz0. set (p1 := mkPrng (next_key (s p)) (key_bytes (next_key (s p))) 64).
    assert (Hl : length (next_key (s p)) = 16%nat) by (unfold next_key; now rewrite length_wr).
    assert (Hp1 : prng_ok p1) by (repeat split; cbn [s n out p1]; rewrite ?key_bytes_length by exact Hl; lia).
    specialize (IH (N - n p) p1 Hp1 ltac:(cbn [n p1]; lia)).
    destruct (random_loop fuel (N - n p) p1) as [z' p']. destruct IH as (A1 & A2 & k & A3 & A4).
    split; [exact A1|]. split.
    + rewrite length_app. unfold remaining. rewrite length_firstn. lia.
    + exists (S k). split.
      * rewrite A3. cbn [s p1]. symmetry. apply Nat.iter_succ_r.
      * rewrite <- app_assoc. apply Permutation_app_head. rewrite A4. unfold remaining at 1. cbn [n out s p1 stream].
        rewrite firstn_all2 by (rewrite key_bytes_length by exact Hl; lia). reflexivity.
Qed.

Lemma seed_ok seed p : prng_ok p -> length seed = 11%nat -> prng_ok (prng_seed seed p).
Proof.
  intros (Hs & Hn & Hn64) Hl. unfold prng_seed. destruct (_ =? 0); [|repeat split; auto; lia].
  repeat split; cbn [s n out]; try lia. rewrite !length_wr, !length_app, Hl. reflexivity.
Qed.

(** ** The component's claims *)

(** The ChaCha20 rounds lose no information. On states of sixteen 32-bit
    words, the ten double rounds of [chacha_block] keep the words in range and
    never map two states to one. *)
Theorem chacha_rounds_injective x y : is_words x -> is_words y ->
  is_words (Nat.iter 10 double_round x) /\
  (Nat.iter 10 double_round x = Nat.iter 10 double_round y -> x = y).
Proof. intros Wx Wy. split; [now apply rounds_words|now apply rounds_injective]. Qed.

Lemma chacha_rounds_injective_witness :
  is_words (Nat.iter 10 double_round rfc7539_input) /\
  (Nat.iter 10 double_round rfc7539_input = Nat.iter 10 double_round rfc7539_input -> rfc7539_input = rfc7539_input).
Proof.
  apply (chacha_rounds_injective rfc7539_input rfc7539_input);
    (split; [reflexivity|]; repeat (constructor; [split; [discriminate|reflexivity]|]); constructor).
Defined.

(** Random bytes are handed out once. For every request of [N] bytes,
    [sqlite3_randomness] terminates with exactly [N] bytes, and these together
    with the bytes it keeps for later are, in some order, the bytes it had
    kept and those of the next blocks of the key stream: no byte is delivered
    twice and none is lost. *)
Theorem randomness_no_reuse seed N p : prng_ok p -> length seed = 11%nat -> 0 < N ->
  let '(z, p') := sqlite3_randomness seed N p in
  let p0 := prng_seed seed p in
  prng_ok p' /\ Z.of_nat (length z) = N /\
  exists k, s p' = Nat.iter k next_key (s p0) /\ Permutation (z ++ remaining p') (remaining p0 ++ stream (s p0) k).
Proof.
  intros Hp Hl HN. unfold sqlite3_randomness. destruct (Z.leb_spec N 0); [lia|].
  pose proof (seed_ok seed p Hp Hl) as Hs. apply random_loop_ok; [exact Hs|].
  destruct Hs as (_ & Hn & _). pose proof (Z.div_pos N 64 ltac:(lia) ltac:(lia)).
  pose proof (Z.mod_pos_bound N 64 ltac:(lia)). pose proof (Z.div_mod N 64 ltac:(lia)). lia.
Qed.

Lemma randomness_no_reuse_witness :
  let p := mkPrng (repeat 0 16) (repeat 0 64) 0 in
  let '(z, p') := sqlite3_randomness (repeat 7 11) 5 p in
  let p0 := prng_seed (repeat 7 11) p in
  prng_ok p' /\ Z.of_nat (length z) = 5 /\
  exists k, s p' = Nat.iter k next_key (s p0) /\ Permutation (z ++ remaining p') (remaining p0 ++ stream (s p0) k).
Proof.
  apply (randomness_no_reuse (repeat 7 11) 5 (mkPrng (repeat 0 16) (repeat 0 64) 0)); [|reflexivity|lia].
  repeat split; cbn; lia.
Defined.
