(* ===== verification/Hash.v ===== *)
(** * Hash: the case-insensitive hash table of the schema

    Models [hash.c] of [src/api-core/src/db/sqlite3.c].  All elements are on
    one doubly linked list, and the elements of a bucket are consecutive on
    it; a bucket holds their number and a pointer to the first.  The linked
    list is a list of elements, a pointer to an element is its [id], and
    [data] 0 is a null pointer.  [malloc_size n] is what an allocation of [n]
    buckets yields: nothing, or the number of buckets that fit. *)

From Stdlib Require Import ZArith List Lia Bool Permutation.
Import ListNotations.
From S2P Require Import Prelude Ctype.
#[local] Open Scope Z_scope.

Record HashElem := mkElem { id : nat; data : Z; pKey : list Z; h : Z }.
Record ht_entry := mkEntry { e_count : Z; chain : option nat }.
Record Hash := mkHash { htsize : Z; count : Z; first : list HashElem; ht : option (list ht_entry) }.

Definition sqlite3HashInit : Hash := mkHash 0 0 [] None.
Definition sqlite3HashClear (pH : Hash) : Hash := mkHash 0 0 [] None.

Fixpoint hash_loop (hv : Z) (z : list Z) : Z :=
  match z with
  | [] => hv
  | c :: z' =>
      if c =? 0 then hv
      else
        let hv := u32 (hv + Z.land 0xdf c) in
        hash_loop (u32 (hv * 0x9e3779b1)) z'
  end.
Definition strHash (z : list Z) : Z := hash_loop 0 z.

(** Linking [pNew] before the element [i]. *)
Fixpoint insert_before (i : nat) (pNew : HashElem) (l : list HashElem) : list HashElem :=
  match l with
  | [] => [pNew]
  | e :: l' => if Nat.eqb (id e) i then pNew :: l else e :: insert_before i pNew l'
  end.

Fixpoint set_entry (n : nat) (x : ht_entry) (l : list ht_entry) : list ht_entry :=
  match n, l with
  | _, [] => []
  | O, _ :: l' => x :: l'
  | S n', y :: l' => y :: set_entry n' x l'
  end.

Definition null_entry : ht_entry := mkEntry 0 None.
Definition entry (l : list ht_entry) (b : Z) : ht_entry := nth (Z.to_nat b) l null_entry.

(** [pEntry] is the index of the bucket, if there is a table. *)
Definition insertElement (pH : Hash) (pEntry : option Z) (pNew : HashElem) : Hash :=
  let '(pHead, tbl) :=
    match pEntry, ht pH with
    | Some b, Some tbl =>
        let e := entry tbl b in
        (if negb (e_count e =? 0) then chain e else None,
         Some (set_entry (Z.to_nat b) (mkEntry (e_count e + 1) (Some (id pNew))) tbl))
    | _, tbl => (None, tbl)
    end in
  match pHead with
  | Some i => mkHash (htsize pH) (count pH) (insert_before i pNew (first pH)) tbl
  | None => mkHash (htsize pH) (count pH) (pNew :: first pH) tbl
  end.

Definition SQLITE_MALLOC_SOFT_LIMIT : Z := 1024.
(** [sizeof(struct _ht)] *)
Definition sizeof_ht : Z := 16.

Definition rehash (malloc_size : Z -> option Z) (pH : Hash) (new_size : Z) : Hash :=
  let new_size :=
    if SQLITE_MALLOC_SOFT_LIMIT <? new_size * sizeof_ht then SQLITE_MALLOC_SOFT_LIMIT / sizeof_ht else new_size in
  if new_size =? htsize pH then pH
  else
    match malloc_size new_size with
    | None => pH
    | Some new_size =>
        fold_left (fun pH elem => insertElement pH (Some (h elem mod new_size)) elem)
          (first pH) (mkHash new_size (count pH) [] (Some (repeat null_entry (Z.to_nat new_size))))
    end.

(** The list from the element [i] on. *)
Fixpoint from_elem (i : nat) (l : list HashElem) : list HashElem :=
  match l with
  | [] => []
  | e :: l' => if Nat.eqb (id e) i then l else from_elem i l'
  end.

(** The element, if any, and the hash. *)
Definition findElementWithHash (pH : Hash) (key : list Z) : option HashElem * Z :=
  let hv := strHash key in
  let '(elem, cnt) :=
    match ht pH with
    | Some tbl =>
        let pEntry := entry tbl (hv mod htsize pH) in
        (match chain pEntry with Some i => from_elem i (first pH) | None => [] end, e_count pEntry)
    | None => (first pH, count pH)
    end in
  (find (fun e => (hv =? h e) && (sqlite3StrICmp (pKey e) key =? 0)) (firstn (Z.to_nat cnt) elem), hv).

Definition removeElement (pH : Hash) (elem : HashElem) : Hash :=
  let tbl :=
    match ht pH with
    | Some tbl =>
        let b := h elem mod htsize pH in
        let e := entry tbl b in
        let next := match tl (from_elem (id elem) (first pH)) with [] => None | x :: _ => Some (id x) end in
        let c :=
          if match chain e with Some i => Nat.eqb i (id elem) | None => false end then next else chain e in
        Some (set_entry (Z.to_nat b) (mkEntry (e_count e - 1) c) tbl)
    | None => None
    end in
  let l := filter (fun e => negb (Nat.eqb (id e) (id elem))) (first pH) in
  let pH := mkHash (htsize pH) (count pH - 1) l tbl in
  if count pH =? 0 then sqlite3HashClear pH else pH.

Definition sqlite3HashFind (pH : Hash) (key : list Z) : Z :=
  match fst (findElementWithHash pH key) with Some e => data e | None => 0 end.

(** [new_id] is the address that the allocation of an element returns, [None]
    if it fails.  The result and the table. *)
Definition sqlite3HashInsert (malloc_size : Z -> option Z) (new_id : option nat) (pH : Hash) (key : list Z) (d : Z)
  : Z * Hash :=
  let '(elem, hv) := findElementWithHash pH key in
  match match elem with Some e => if data e =? 0 then None else Some e | None => None end with
  | Some elem =>
      (data elem,
       if d =? 0 then removeElement pH elem
       else
         mkHash (htsize pH) (count pH)
           (map (fun e => if Nat.eqb (id e) (id elem) then mkElem (id e) d key (h e) else e) (first pH)) (ht pH))
  | None =>
      if d =? 0 then (0, pH)
      else
        match new_id with
        | None => (d, pH)
        | Some i =>
            let new_elem := mkElem i d key hv in
            let pH := mkHash (htsize pH) (count pH + 1) (first pH) (ht pH) in
            let pH :=
              if (5 <=? count pH) && (2 * htsize pH <? count pH) then rehash malloc_size pH (count pH * 3) else pH in
            (0, insertElement pH (match ht pH with Some _ => Some (hv mod htsize pH) | None => None end) new_elem)
        end
  end.

Example hash_example :
  let ms := fun n => Some n in
  let add '(pH, i) k := (snd (sqlite3HashInsert ms (Some i) pH [97 + Z.of_nat k] (Z.of_nat k + 1)), S i) in
  let '(pH, _) := fold_left add (seq 0 12) (sqlite3HashInit, 0%nat) in
  (htsize pH, count pH, sqlite3HashFind pH [65 + 3], sqlite3HashFind pH [120]) = (15, 12, 4, 0).
Proof. vm_compute. reflexivity. Qed.

(** ** Keys *)

Lemma mask_lower c : is_u8 c -> Z.land 0xdf c = Z.land 0xdf (lower c) /\ (c =? 0) = (lower c =? 0).
Proof.
  intros Hc. pose proof (byte_forall (fun c => (Z.land 0xdf c =? Z.land 0xdf (lower c)) && eqb (c =? 0) (lower c =? 0))
    ltac:(vm_compute; reflexivity) c Hc) as H. cbv beta in H. apply andb_true_iff in H as [H1 H2].
  split; [now apply Z.eqb_eq|now apply eqb_prop].
Qed.

Lemma strHash_lower z : bytes z -> strHash z = strHash (map lower z).
Proof.
  unfold strHash. generalize 0. intros hv Hz. revert hv. induction Hz as [|c z Hc _ IH]; intros hv; [reflexivity|].
  cbn [hash_loop map]. destruct (mask_lower c Hc) as [-> ->]. destruct (lower c =? 0); [reflexivity|apply IH].
Qed.

(** Keys that compare equal have the same hash. *)
Definition same (a b : list Z) : Prop := map lower a = map lower b.

Lemma same_hash a b : cstring a -> cstring b -> same a b -> strHash a = strHash b.
Proof. intros Ha Hb E. rewrite (strHash_lower a), (strHash_lower b) by now apply cstring_bytes. now rewrite E. Qed.

(** ** Buckets are consecutive elements *)

Definition seg (n b : Z) (l : list HashElem) : list HashElem := filter (fun e => h e mod n =? b) l.

Definition table_ok (n : Z) (l : list HashElem) (tbl : list ht_entry) : Prop :=
  0 < n /\ length tbl = Z.to_nat n /\
  forall b, 0 <= b < n ->
    e_count (entry tbl b) = Z.of_nat (length (seg n b l)) /\
    (seg n b l <> [] -> chain (entry tbl b) = option_map id (hd_error (seg n b l))) /\
    exists pre post, l = pre ++ seg n b l ++ post.

Record wf (pH : Hash) : Prop := {
  wf_ids : NoDup (map id (first pH));
  wf_elems : Forall (fun e => cstring (pKey e) /\ h e = strHash (pKey e) /\ data e <> 0) (first pH);
  wf_keys : NoDup (map (fun e => map lower (pKey e)) (first pH));
  wf_count : count pH = Z.of_nat (length (first pH));
  wf_table : match ht pH with None => True | Some tbl => table_ok (htsize pH) (first pH) tbl end }.

Lemma seg_app n b l1 l2 : seg n b (l1 ++ l2) = seg n b l1 ++ seg n b l2.
Proof. apply filter_app. Qed.

Lemma seg_cons_other n b e l : h e mod n <> b -> seg n b (e :: l) = seg n b l.
Proof. intros H. cbn. now replace (h e mod n =? b) with false by lia. Qed.

Lemma seg_cons_same n b e l : h e mod n = b -> seg n b (e :: l) = e :: seg n b l.
Proof. intros H. cbn. now replace (h e mod n =? b) with true by lia. Qed.

Lemma In_seg n b e l : In e (seg n b l) <-> In e l /\ h e mod n = b.
Proof. unfold seg. rewrite filter_In, Z.eqb_eq. reflexivity. Qed.

Lemma seg_idem n b l : seg n b (seg n b l) = seg n b l.
Proof.
  induction l as [|e l IH]; [reflexivity|]. destruct (Z.eq_dec (h e mod n) b) as [E|E].
  - rewrite (seg_cons_same n b e l E), (seg_cons_same n b e _ E). now rewrite IH.
  - now rewrite (seg_cons_other n b e l E).
Qed.

(** What surrounds the elements of a bucket is in other buckets. *)
Lemma seg_split n b l pre post : l = pre ++ seg n b l ++ post -> seg n b pre = [] /\ seg n b post = [].
Proof.
  intros E. pose proof (f_equal (seg n b) E) as E2. rewrite !seg_app, seg_idem in E2.
  apply (f_equal (@length HashElem)) in E2. rewrite !length_app in E2.
  split; apply length_zero_iff_nil; lia.
Qed.

Lemma from_elem_split pre e post : NoDup (map id (pre ++ e :: post)) -> from_elem (id e) (pre ++ e :: post) = e :: post.
Proof.
  induction pre as [|x pre IH]; cbn [app map from_elem]; [now rewrite Nat.eqb_refl|]. intros H.
  apply NoDup_cons_iff in H as [Hn H]. destruct (Nat.eqb_spec (id x) (id e)) as [E|E]; [|now apply IH].
  exfalso. apply Hn. rewrite E, map_app. apply in_or_app. right. now left.
Qed.

Lemma insert_before_split pre e post x : NoDup (map id (pre ++ e :: post)) ->
  insert_before (id e) x (pre ++ e :: post) = pre ++ x :: e :: post.
Proof.
  induction pre as [|y pre IH]; cbn [app map insert_before]; [now rewrite Nat.eqb_refl|]. intros H.
  apply NoDup_cons_iff in H as [Hn H]. destruct (Nat.eqb_spec (id y) (id e)) as [E|E]; [|now rewrite IH].
  exfalso. apply Hn. rewrite E, map_app. apply in_or_app. right. now left.
Qed.

Lemma filter_id_split pre e post : NoDup (map id (pre ++ e :: post)) ->
  filter (fun x => negb (Nat.eqb (id x) (id e))) (pre ++ e :: post) = pre ++ post.
Proof.
  intros H. rewrite map_app in H. cbn [map] in H. apply NoDup_remove in H as [_ H]. rewrite <- map_app in H.
  rewrite filter_app. cbn [filter]. rewrite Nat.eqb_refl. cbn [negb]. rewrite <- filter_app.
  assert (Hall : forall l, ~ In (id e) (map id l) -> filter (fun x => negb (Nat.eqb (id x) (id e))) l = l); [|now apply Hall].
  clear. induction l as [|x l IH]; intros Hn; [reflexivity|]. cbn in Hn |- *.
  replace (Nat.eqb (id x) (id e)) with false by (symmetry; apply Nat.eqb_neq; intros E; apply Hn; now left).
  cbn. f_equal. apply IH. tauto.
Qed.

Lemma set_entry_length n x l : length (set_entry n x l) = length l.
Proof. revert n. induction l as [|y l IH]; intros [|n]; cbn; auto. Qed.

Lemma entry_set tbl b c x : 0 <= b < Z.of_nat (length tbl) -> 0 <= c ->
  entry (set_entry (Z.to_nat b) x tbl) c = if c =? b then x else entry tbl c.
Proof.
  intros Hb Hc. unfold entry.
  replace (c =? b) with (Nat.eqb (Z.to_nat c) (Z.to_nat b))
    by (destruct (Z.eqb_spec c b) as [->|]; [apply Nat.eqb_refl|apply Nat.eqb_neq; lia]).
  assert (Hl : (Z.to_nat b < length tbl)%nat) by lia. clear Hb Hc. revert Hl.
  generalize (Z.to_nat b) as i, (Z.to_nat c) as j. clear b c.
  induction tbl as [|y tbl IH]; intros [|i] [|j] Hl; cbn in *; try lia; try reflexivity. apply IH. lia.
Qed.

(** Linking a new element keeps every bucket consecutive. *)
Lemma insert_table n cnt l tbl e : table_ok n l tbl -> NoDup (map id l) ->
  exists a c tbl', insertElement (mkHash n cnt l (Some tbl)) (Some (h e mod n)) e = mkHash n cnt (a ++ e :: c) (Some tbl') /\
    l = a ++ c /\ table_ok n (a ++ e :: c) tbl'.
Proof.
  intros (Hn & Hl & Hb) Hnd. set (b := h e mod n). pose proof (Z.mod_pos_bound (h e) n Hn) as Hbr. fold b in Hbr.
  destruct (Hb b Hbr) as (Hc & Hch & pre & post & El).
  set (tbl' := set_entry (Z.to_nat b) (mkEntry (e_count (entry tbl b) + 1) (Some (id e))) tbl).
  assert (Hent : forall c, 0 <= c -> entry tbl' c = if c =? b then mkEntry (e_count (entry tbl b) + 1) (Some (id e)) else entry tbl c)
    by (intros c Hc0; apply entry_set; lia).
  assert (Htbl : forall a c, l = a ++ c -> (seg n b (a ++ e :: c) = e :: seg n b l) ->
     (forall b', 0 <= b' < n -> exists p q, a ++ e :: c = p ++ seg n b' (a ++ e :: c) ++ q) -> table_ok n (a ++ e :: c) tbl').
  { intros a c E Es Hcon. split; [exact Hn|]. split; [unfold tbl'; now rewrite set_entry_length|].
    intros b' Hb'. rewrite Hent by lia. destruct (Z.eqb_spec b' b) as [->|Hne].
    - rewrite Es. cbn [e_count chain hd_error option_map length]. split; [lia|]. split; [reflexivity|].
      rewrite <- Es. auto.
    - destruct (Hb b' Hb') as (H1 & H2 & _).
      assert (Eo : seg n b' (a ++ e :: c) = seg n b' l) by (rewrite E, !seg_app, (seg_cons_other n b' e c) by (unfold b in Hne; lia); reflexivity).
      specialize (Hcon b' Hb'). rewrite Eo in *. auto. }
  unfold insertElement. cbn [ht first htsize count]. fold b. fold tbl'.
  destruct (seg n b l) as [|y ys] eqn:Es.
  - exists [], l, tbl'. rewrite Hc. cbn [length Z.of_nat Z.eqb negb]. split; [reflexivity|]. split; [reflexivity|].
    apply Htbl; [reflexivity|cbn [app]; rewrite seg_cons_same by reflexivity; now rewrite Es|].
    intros b' Hb'. cbn [app]. destruct (Z.eq_dec (h e mod n) b') as [E|E].
    + exists [], l. rewrite seg_cons_same by exact E. fold b in E. subst b'. now rewrite Es.
    + rewrite seg_cons_other by exact E. destruct (Hb b' Hb') as (_ & _ & p & q & Ep). exists (e :: p), q. cbn. now rewrite <- Ep.
  - rewrite (Hch ltac:(discriminate)), Hc. cbn [hd_error option_map length].
    destruct (Z.eqb_spec (Z.of_nat (S (length ys))) 0); [lia|]. cbn [negb].
    exists pre, (y :: ys ++ post), tbl'. cbn [app] in El. rewrite El in Hnd.
    assert (Ei : insert_before (id y) e l = pre ++ e :: y :: ys ++ post) by (rewrite El; now apply insert_before_split).
    rewrite Ei. split; [reflexivity|]. split; [exact El|].
    assert (Epre : seg n b pre = []) by (apply (seg_split n b l pre post); rewrite Es; exact El).
    apply Htbl; [exact El| |].
    + rewrite seg_app, Epre. cbn [app]. rewrite seg_cons_same by reflexivity. f_equal. rewrite <- Es, El, seg_app, Epre. reflexivity.
    + intros b' Hb'. destruct (Z.eq_dec b' b) as [->|Hne].
      * exists pre, post. rewrite seg_app, Epre. cbn [app]. rewrite seg_cons_same by reflexivity.
        replace (seg n b (y :: ys ++ post)) with (y :: ys) by (rewrite <- Es, El, seg_app, Epre; reflexivity). reflexivity.
      * rewrite seg_app, (seg_cons_other n b' e) by (unfold b in Hne; lia). rewrite <- seg_app, <- El.
        destruct (Hb b' Hb') as (_ & _ & p & q & Ep). rewrite <- Ei.
        assert (Hy : In y l /\ h y mod n = b) by (apply In_seg; rewrite Es; now left). destruct Hy as [Hy Hyb].
        rewrite Ep in Hy. apply in_app_or in Hy as [Hy|Hy]; [|apply in_app_or in Hy as [Hy|Hy]].
        -- apply in_split in Hy as (p1 & p2 & ->). exists (p1 ++ e :: y :: p2), q.
           rewrite Ep at 1. rewrite <- app_assoc. cbn [app]. rewrite insert_before_split.
           ++ rewrite <- app_assoc. reflexivity.
           ++ rewrite <- El in Hnd. rewrite Ep in Hnd. rewrite <- app_assoc in Hnd. exact Hnd.
        -- apply In_seg in Hy as [_ Hy]. lia.
        -- apply in_split in Hy as (q1 & q2 & ->). exists p, (q1 ++ e :: y :: q2).
           rewrite Ep at 1. rewrite !app_assoc. rewrite insert_before_split.
           ++ rewrite <- !app_assoc. reflexivity.
           ++ rewrite <- El in Hnd. rewrite Ep in Hnd. rewrite !app_assoc in Hnd. exact Hnd.
Qed.

(** Unlinking an element does too. *)
Lemma remove_table n l tbl e a c : table_ok n l tbl -> NoDup (map id l) -> l = a ++ e :: c ->
  let b := h e mod n in
  let next := match c with [] => None | x :: _ => Some (id x) end in
  let ch := if match chain (entry tbl b) with Some i => Nat.eqb i (id e) | None => false end then next else chain (entry tbl b) in
  table_ok n (a ++ c) (set_entry (Z.to_nat b) (mkEntry (e_count (entry tbl b) - 1) ch) tbl).
Proof.
  intros (Hn & Hl & Hb) Hnd El b next ch. pose proof (Z.mod_pos_bound (h e) n Hn) as Hbr. fold b in Hbr.
  split; [exact Hn|]. split; [now rewrite set_entry_length|]. intros b' Hb'. rewrite entry_set by lia.
  destruct (Hb b' Hb') as (Hc & Hch & p & q & Ep).
  destruct (Z.eqb_spec b' b) as [->|Hne].
  - assert (Es : seg n b l = seg n b a ++ e :: seg n b c) by (rewrite El, seg_app, (seg_cons_same n b e c) by reflexivity; reflexivity).
    assert (Es' : seg n b (a ++ c) = seg n b a ++ seg n b c) by apply seg_app.
    destruct (seg_split n b l p q Ep) as [Hp Hq].
    assert (Hac : a = p ++ seg n b a /\ c = seg n b c ++ q).
    { rewrite Es, El in Ep. 
      assert (Hin : NoDup (a ++ e :: c)) by (apply (NoDup_map_inv id); rewrite <- El; exact Hnd).
      assert (E2 : a ++ e :: c = (p ++ seg n b a) ++ e :: (seg n b c ++ q)) by (rewrite Ep at 1; rewrite <- !app_assoc; reflexivity).
      clear - Hin E2. set (a' := p ++ seg n b a) in *. set (c' := seg n b c ++ q) in *. clearbody a' c'.
      revert a' E2. induction a as [|x a IH]; intros [|x' a'] E2; cbn [app] in E2.
      - injection E2 as E2. auto.
      - injection E2 as Hx E2. exfalso. subst. apply NoDup_cons_iff in Hin as [Hin _]. apply Hin. apply in_or_app. right. now left.
      - injection E2 as Hx E2. exfalso. subst. cbn in Hin. apply NoDup_cons_iff in Hin as [Hin _]. apply Hin.
        apply in_or_app. right. now left.
      - injection E2 as Hx E2. subst x'. cbn in Hin. apply NoDup_cons_iff in Hin as [_ Hin]. destruct (IH Hin a' E2) as [-> ->]. auto. }
    destruct Hac as [Ha Hcc]. cbn [e_count chain]. rewrite Es'. split; [rewrite Hc, Es, !length_app; cbn [length]; lia|]. split.
    + intros Hne. rewrite Es in Hch. specialize (Hch ltac:(destruct (seg n b a); discriminate)). unfold ch. rewrite Hch.
      destruct (seg n b a) as [|y ys] eqn:Esa; cbn [app hd_error option_map].
      * rewrite Nat.eqb_refl. unfold next. cbn [app] in Hne. destruct (seg n b c) as [|z zs]; [congruence|]. rewrite Hcc. reflexivity.
      * replace (Nat.eqb (id y) (id e)) with false; [reflexivity|]. symmetry. apply Nat.eqb_neq. intros E.
        assert (Hy : In y a) by (apply (In_seg n b y a); rewrite Esa; now left).
        rewrite El, map_app in Hnd. cbn [map] in Hnd. apply NoDup_remove_2 in Hnd. apply Hnd, in_or_app. left. rewrite <- E. now apply in_map.
    + exists p, q. rewrite Ha at 1. rewrite Hcc at 1. rewrite <- !app_assoc. reflexivity.
  - assert (Eo : seg n b' (a ++ c) = seg n b' l) by (rewrite El, !seg_app, (seg_cons_other n b' e c) by (unfold b in Hne; lia); reflexivity).
    rewrite Eo. split; [exact Hc|]. split; [exact Hch|].
    assert (Ef : a ++ c = filter (fun x => negb (Nat.eqb (id x) (id e))) l) by (rewrite El in Hnd |- *; symmetry; now apply filter_id_split).
    rewrite Ef. assert (He : In e l) by (rewrite El; apply in_or_app; right; now left).
    rewrite Ep in He. apply in_app_or in He as [He|He]; [|apply in_app_or in He as [He|He]].
    + apply in_split in He as (p1 & p2 & ->). exists (p1 ++ p2), q. rewrite Ep in Hnd |- * at 1. rewrite <- app_assoc in *. cbn [app] in *.
      rewrite filter_id_split by exact Hnd. now rewrite <- app_assoc.
    + apply In_seg in He as [_ He]. unfold b in Hne. lia.
    + apply in_split in He as (q1 & q2 & ->). exists p, (q1 ++ q2). rewrite Ep in Hnd |- * at 1. rewrite !app_assoc in *.
      rewrite filter_id_split by exact Hnd. reflexivity.
Qed.

(** ** Finding an element *)

Definition hit (key : list Z) (e : HashElem) : bool := (strHash key =? h e) && (sqlite3StrICmp (pKey e) key =? 0).

Lemma find_app_none {A} (f : A -> bool) l1 l2 : (forall x, In x l1 -> f x = false) -> find f (l1 ++ l2) = find f l2.
Proof.
  induction l1 as [|x l1 IH]; intros H; [reflexivity|]. cbn. rewrite (H x) by now left. apply IH. intros y Hy. apply H. now right.
Qed.

Lemma find_app_left {A} (f : A -> bool) l1 l2 : (forall x, In x l2 -> f x = false) -> find f (l1 ++ l2) = find f l1.
Proof.
  intros H. induction l1 as [|x l1 IH]; cbn; [|now destruct (f x)].
  rewrite <- (app_nil_r l2). now rewrite find_app_none.
Qed.

Lemma find_all pH key : wf pH -> findElementWithHash pH key = (find (hit key) (first pH), strHash key).
Proof.
  intros [Hid _ _ Hcnt Ht]. unfold findElementWithHash. fold (hit key). destruct (ht pH) as [tbl|].
  - f_equal. destruct Ht as (Hn & Hl & Hb). set (b := strHash key mod htsize pH).
    destruct (Hb b (Z.mod_pos_bound _ _ Hn)) as (Hc & Hch & pre & post & El).
    destruct (seg_split _ _ _ _ _ El) as [Hp Hq]. rewrite Hc, Nat2Z.id.
    assert (Hout : forall l x, seg (htsize pH) b l = [] -> In x l -> hit key x = false).
    { intros l x Hs Hx. unfold hit. destruct (Z.eqb_spec (strHash key) (h x)) as [E|E]; [|reflexivity]. exfalso.
      assert (Hin : In x (seg (htsize pH) b l)) by (apply In_seg; split; [exact Hx|unfold b; now rewrite E]). rewrite Hs in Hin. exact Hin. }
    assert (Ef : find (hit key) (first pH) = find (hit key) (seg (htsize pH) b (first pH))).
    { rewrite El at 1. rewrite find_app_none by (intros x Hx; now apply (Hout pre)).
      now rewrite find_app_left by (intros x Hx; now apply (Hout post)). }
    rewrite Ef. clear Ef. destruct (seg (htsize pH) b (first pH)) as [|y ys] eqn:Es; [reflexivity|].
    rewrite (Hch ltac:(discriminate)). cbn [hd_error option_map app] in *. rewrite El in Hid |- * at 1.
    rewrite from_elem_split by exact Hid. now rewrite app_comm_cons, firstn_app, Nat.sub_diag, firstn_all, firstn_O, app_nil_r.
  - rewrite Hcnt, Nat2Z.id, firstn_all. reflexivity.
Qed.

(** The hit is the element with that key. *)
Lemma hit_same pH key e : wf pH -> cstring key -> In e (first pH) -> hit key e = true <-> same (pKey e) key.
Proof.
  intros [_ He _ _ _] Hk Hin. rewrite Forall_forall in He. destruct (He e Hin) as (Hc & Hh & _). unfold hit.
  rewrite andb_true_iff, !Z.eqb_eq, stricmp_zero by assumption. fold (same (pKey e) key). split; [tauto|].
  intros Hs. split; [|exact Hs]. rewrite Hh. symmetry. now apply same_hash.
Qed.

Lemma find_hit pH key e : wf pH -> cstring key -> In e (first pH) -> same (pKey e) key -> find (hit key) (first pH) = Some e.
Proof.
  intros Hw Hk Hin Hs. destruct (find (hit key) (first pH)) as [e'|] eqn:Ef.
  - apply find_some in Ef as [Hin' Hh]. apply (hit_same pH) in Hh; [|assumption..].
    f_equal. destruct Hw as [_ _ Hkeys _ _]. apply in_split in Hin as (a & c & El). rewrite El in *.
    rewrite map_app in Hkeys. cbn [map] in Hkeys. apply NoDup_remove_2 in Hkeys.
    apply in_app_or in Hin' as [Hi|[Hi|Hi]]; [exfalso|now symmetry|exfalso]; apply Hkeys;
      (replace (map lower (pKey e)) with (map lower (pKey e')) by (unfold same in *; congruence));
      apply in_or_app; [left|right]; now apply (in_map (fun e => map lower (pKey e))).
  - exfalso. pose proof (find_none _ _ Ef e Hin) as Hf. apply (hit_same pH) in Hs; [|assumption..]. congruence.
Qed.

(** What a table holds for a key. *)
Definition holds (l : list HashElem) (key : list Z) (d : Z) : Prop := exists e, In e l /\ same (pKey e) key /\ data e = d.

Lemma find_holds pH key d : wf pH -> cstring key -> holds (first pH) key d -> sqlite3HashFind pH key = d.
Proof.
  intros Hw Hk (e & Hin & Hs & Hd). unfold sqlite3HashFind. rewrite find_all by exact Hw. cbn [fst].
  now rewrite (find_hit pH key e).
Qed.

Lemma find_not_holds pH key : wf pH -> cstring key -> (forall d, ~ holds (first pH) key d) -> sqlite3HashFind pH key = 0.
Proof.
  intros Hw Hk Hn. unfold sqlite3HashFind. rewrite find_all by exact Hw. cbn [fst].
  destruct (find (hit key) (first pH)) as [e|] eqn:Ef; [|reflexivity]. exfalso.
  apply find_some in Ef as [Hin Hh]. apply (hit_same pH) in Hh; [|assumption..]. apply (Hn (data e)). now exists e.
Qed.

(** Two tables that hold the same find the same. *)
Lemma find_ext pH pH' key key' : wf pH -> wf pH' -> cstring key -> cstring key' ->
  (forall d, holds (first pH) key d <-> holds (first pH') key' d) -> sqlite3HashFind pH key = sqlite3HashFind pH' key'.
Proof.
  intros W W' K K' H. destruct (find (hit key) (first pH)) as [e|] eqn:Ef.
  - apply find_some in Ef as [Hin Hh]. apply (hit_same pH) in Hh; [|assumption..].
    assert (Hd : holds (first pH) key (data e)) by (now exists e).
    rewrite (find_holds pH key (data e)), (find_holds pH' key' (data e)); auto. now apply H.
  - assert (Hno : forall d, ~ holds (first pH) key d).
    { intros d (e & Hin & Hs & _). pose proof (find_none _ _ Ef e Hin) as Hf. apply (hit_same pH) in Hs; [|assumption..]. congruence. }
    rewrite (find_not_holds pH key), (find_not_holds pH' key'); auto. intros d Hd. apply (Hno d). now apply H.
Qed.

(** ** Every operation keeps the table well formed *)

Definition table_cond (n : Z) (l : list HashElem) (t : option (list ht_entry)) : Prop :=
  match t with None => True | Some tbl => table_ok n l tbl end.

Lemma empty_table n : 0 < n -> table_ok n [] (repeat null_entry (Z.to_nat n)).
Proof.
  intros Hn. split; [exact Hn|]. split; [apply repeat_length|]. intros b Hb. unfold entry. rewrite nth_repeat.
  split; [reflexivity|]. split; [intros H; now contradiction H|]. now exists [], [].
Qed.

Lemma fold_insert n cnt l l0 tbl0 : table_ok n l0 tbl0 -> NoDup (map id (l0 ++ l)) ->
  exists l' tbl', fold_left (fun pH elem => insertElement pH (Some (h elem mod n)) elem) l (mkHash n cnt l0 (Some tbl0))
    = mkHash n cnt l' (Some tbl') /\ Permutation (l0 ++ l) l' /\ table_ok n l' tbl'.
Proof.
  revert l0 tbl0. induction l as [|e l IH]; intros l0 tbl0 Ht Hnd; cbn [fold_left].
  - exists l0, tbl0. rewrite app_nil_r. auto.
  - assert (Hp : Permutation (l0 ++ e :: l) (e :: l0 ++ l)) by (symmetry; apply Permutation_middle).
    pose proof (Permutation_NoDup (Permutation_map id Hp) Hnd) as Hnd'. cbn [map] in Hnd'.
    apply NoDup_cons_iff in Hnd' as [Hni Hnd'].
    assert (Hnd0 : NoDup (map id l0)) by (rewrite map_app in Hnd'; now apply NoDup_app_remove_r in Hnd').
    destruct (insert_table n cnt l0 tbl0 e Ht Hnd0) as (a & c & tbl1 & E & El & T1). rewrite E.
    assert (Hp1 : Permutation (l0 ++ e :: l) ((a ++ e :: c) ++ l)).
    { rewrite Hp, El. rewrite <- !app_assoc. cbn [app]. apply Permutation_middle. }
    destruct (IH (a ++ e :: c) tbl1 T1) as (l' & tbl' & E' & P' & T').
    { apply (Permutation_NoDup (Permutation_map id Hp1)). exact Hnd. }
    exists l', tbl'. split; [exact E'|]. split; [|exact T']. now rewrite Hp1.
Qed.

Lemma NoDup_map_inj {A B} (f : A -> B) l x y : NoDup (map f l) -> In x l -> In y l -> f x = f y -> x = y.
Proof.
  intros Hn Hx Hy E. apply in_split in Hy as (a & c & ->). rewrite map_app in Hn. cbn [map] in Hn. apply NoDup_remove_2 in Hn.
  apply in_app_or in Hx as [Hx|[Hx|Hx]]; [exfalso|now symmetry|exfalso]; apply Hn, in_or_app; [left|right]; rewrite <- E; now apply in_map.
Qed.

Section Laws.
Variable malloc_size : Z -> option Z.
(** An allocation has room for what was asked. *)
Hypothesis malloc_enough : forall n m, malloc_size n = Some m -> n <= m.

Lemma hash_rehash_ok pH new_size : 0 < new_size -> NoDup (map id (first pH)) -> table_cond (htsize pH) (first pH) (ht pH) ->
  exists n l t, rehash malloc_size pH new_size = mkHash n (count pH) l t /\
    Permutation (first pH) l /\ table_cond n l t.
Proof.
  intros Hs Hnd Ht. unfold rehash. set (ns := if _ <? _ then _ else new_size).
  assert (Hns : 0 < ns) by (unfold ns; change (SQLITE_MALLOC_SOFT_LIMIT / sizeof_ht) with 64; destruct (_ <? _); lia).
  destruct (ns =? htsize pH); [exists (htsize pH), (first pH), (ht pH); destruct pH; auto|].
  destruct (malloc_size ns) as [m|] eqn:Em; [|exists (htsize pH), (first pH), (ht pH); destruct pH; auto].
  apply malloc_enough in Em.
  destruct (fold_insert m (count pH) (first pH) [] _ (empty_table m ltac:(lia)) Hnd) as (l & tbl & E & P & T).
  exists m, l, (Some tbl). rewrite E. auto.
Qed.

Lemma wf_perm l l' : Permutation l l' ->
  NoDup (map id l) /\ Forall (fun e => cstring (pKey e) /\ h e = strHash (pKey e) /\ data e <> 0) l /\
    NoDup (map (fun e => map lower (pKey e)) l) ->
  NoDup (map id l') /\ Forall (fun e => cstring (pKey e) /\ h e = strHash (pKey e) /\ data e <> 0) l' /\
    NoDup (map (fun e => map lower (pKey e)) l').
Proof.
  intros P (H1 & H2 & H3). repeat split.
  - exact (Permutation_NoDup (Permutation_map id P) H1).
  - rewrite Forall_forall in *. intros x Hx. apply H2. now apply (Permutation_in x (Permutation_sym P)).
  - exact (Permutation_NoDup (Permutation_map (fun e => map lower (pKey e)) P) H3).
Qed.

(** Linking a new element with a new key. *)
Lemma add_ok n cnt l t e : table_cond n l t -> cnt = Z.of_nat (length l) + 1 ->
  NoDup (map id (e :: l)) -> Forall (fun e => cstring (pKey e) /\ h e = strHash (pKey e) /\ data e <> 0) (e :: l) ->
  NoDup (map (fun e => map lower (pKey e)) (e :: l)) ->
  let pH := insertElement (mkHash n cnt l t) (match t with Some _ => Some (h e mod n) | None => None end) e in
  wf pH /\ Permutation (e :: l) (first pH).
Proof.
  intros Ht Hc H1 H2 H3. destruct t as [tbl|].
  - assert (Hnd : NoDup (map id l)) by (cbn in H1; now apply NoDup_cons_iff in H1).
    destruct (insert_table n cnt l tbl e Ht Hnd) as (a & c & tbl' & -> & El & T). cbn [first].
    assert (P : Permutation (e :: l) (a ++ e :: c)) by (rewrite El; apply Permutation_middle).
    split; [|exact P]. destruct (wf_perm _ _ P (conj H1 (conj H2 H3))) as (A1 & A2 & A3).
    constructor; cbn [first count ht htsize]; auto. rewrite <- (Permutation_length P). cbn [length]. lia.
  - cbn. split; [|reflexivity]. constructor; cbn [first count ht htsize]; auto. cbn [length]. lia.
Qed.

Lemma removeElement_ok pH e : wf pH -> In e (first pH) ->
  wf (removeElement pH e) /\ (forall x, In x (first (removeElement pH e)) <-> In x (first pH) /\ x <> e).
Proof.
  intros [H1 H2 H3 H4 H5] Hin. apply in_split in Hin as (a & c & El). unfold removeElement.
  assert (Ef : filter (fun x => negb (Nat.eqb (id x) (id e))) (first pH) = a ++ c) by (rewrite El in *; now apply filter_id_split).
  rewrite Ef. assert (Etl : tl (from_elem (id e) (first pH)) = c) by (rewrite El in *; now rewrite from_elem_split). rewrite Etl.
  assert (P : Permutation (first pH) (e :: a ++ c)) by (rewrite El; symmetry; apply Permutation_middle).
  assert (Hne : NoDup (first pH)) by now apply NoDup_map_inv in H1.
  assert (Hmem : forall x, In x (a ++ c) <-> In x (first pH) /\ x <> e).
  { intros x. rewrite El in *. apply NoDup_remove_2 in Hne. split.
    - intros Hx. split; [apply in_app_or in Hx as [Hx|Hx]; apply in_or_app; [now left|right; now right]|]. intros ->. contradiction.
    - intros [Hx Hxe]. apply in_app_or in Hx as [Hx|[Hx|Hx]]; apply in_or_app; [now left|congruence|now right]. }
  destruct (wf_perm _ _ P (conj H1 (conj H2 H3))) as (A1 & A2 & A3). cbn [map] in A1, A3.
  apply NoDup_cons_iff in A1 as [_ A1]. apply NoDup_cons_iff in A3 as [_ A3]. apply Forall_cons_iff in A2 as [_ A2].
  set (t := match ht pH with Some tbl => _ | None => None end). cbn [count].
  assert (Hlen : count pH - 1 = Z.of_nat (length (a ++ c))) by (rewrite H4, (Permutation_length P); cbn [length]; lia).
  destruct (Z.eqb_spec (count pH - 1) 0) as [E0|E0].
  - assert (Enil : a ++ c = []) by (apply length_zero_iff_nil; lia). split; [constructor; cbn; auto; constructor|].
    intros x. rewrite <- Hmem, Enil. cbn. tauto.
  - split; [|exact Hmem]. constructor; cbn [first count ht htsize]; auto.
    unfold t. destruct (ht pH) as [tbl|]; [|exact I]. exact (remove_table (htsize pH) (first pH) tbl e a c H5 H1 El).
Qed.

(** Replacing the data and the key of an element. *)
Lemma replace_ok pH e d key : wf pH -> In e (first pH) -> cstring key -> same (pKey e) key -> d <> 0 ->
  let upd := fun x => if Nat.eqb (id x) (id e) then mkElem (id x) d key (h x) else x in
  wf (mkHash (htsize pH) (count pH) (map upd (first pH)) (ht pH)).
Proof.
  intros [H1 H2 H3 H4 H5] Hin Hk Hs Hd upd.
  assert (Hu : forall x, In x (first pH) -> id (upd x) = id x /\ h (upd x) = h x /\ map lower (pKey (upd x)) = map lower (pKey x)).
  { intros x Hx. unfold upd. destruct (Nat.eqb_spec (id x) (id e)) as [E|E]; [|auto]. cbn. repeat split.
    assert (x = e); [|subst x; symmetry; exact Hs].
    apply in_split in Hin as (a & c & El). rewrite El in *. rewrite map_app in H1. cbn [map] in H1. apply NoDup_remove_2 in H1.
    apply in_app_or in Hx as [Hx|[Hx|Hx]]; [exfalso|now symmetry|exfalso]; apply H1, in_or_app; [left|right]; rewrite <- E; now apply in_map. }
  constructor; cbn [first count ht htsize].
  - rewrite map_map. rewrite (map_ext_in _ id) by (intros x Hx; apply Hu, Hx). exact H1.
  - apply Forall_forall. intros y Hy. apply in_map_iff in Hy as (x & <- & Hx). rewrite Forall_forall in H2.
    destruct (H2 x Hx) as (C1 & C2 & C3). destruct (Hu x Hx) as (_ & U2 & U3). rewrite U2.
    unfold upd in *. destruct (Nat.eqb (id x) (id e)); cbn [pKey data h id] in *; [|auto].
    repeat split; auto. rewrite C2. now apply same_hash.
  - rewrite map_map. rewrite (map_ext_in _ (fun x => map lower (pKey x))) by (intros x Hx; apply Hu, Hx). exact H3.
  - now rewrite length_map.
  - destruct (ht pH) as [tbl|]; [|exact I]. destruct H5 as (Hn & Hl & Hb).
    assert (Hseg : forall n b l, seg n b (map upd l) = map upd (seg n b l)).
    { intros n b. induction l as [|x l IH]; [reflexivity|]. cbn [map].
      assert (Eh : h (upd x) = h x) by (unfold upd; destruct (Nat.eqb _ _); reflexivity).
      destruct (Z.eq_dec (h x mod n) b) as [E|E].
      - rewrite !seg_cons_same by congruence. cbn [map]. now rewrite IH.
      - rewrite !seg_cons_other by congruence. exact IH. }
    split; [exact Hn|]. split; [exact Hl|]. intros b Hbr. destruct (Hb b Hbr) as (B1 & B2 & p & q & Ep).
    rewrite Hseg, length_map. split; [exact B1|]. split.
    + intros Hne. rewrite B2 by (intros E; rewrite E in Hne; now apply Hne).
      destruct (seg (htsize pH) b (first pH)) as [|y ys]; [reflexivity|]. cbn. f_equal. unfold upd. now destruct (Nat.eqb _ _).
    + exists (map upd p), (map upd q). rewrite Ep at 1. now rewrite !map_app.
Qed.

(** Insertion with a key that is not there. *)
Lemma insert_new pH key d i : wf pH -> cstring key -> d <> 0 -> ~ In i (map id (first pH)) ->
  find (hit key) (first pH) = None ->
  exists pH', sqlite3HashInsert malloc_size (Some i) pH key d = (0, pH') /\ wf pH' /\
    Permutation (mkElem i d key (strHash key) :: first pH) (first pH').
Proof.
  intros Hw Hk Hd Hi Ef. unfold sqlite3HashInsert. rewrite find_all, Ef by exact Hw. cbv beta iota zeta.
  destruct (Z.eqb_spec d 0) as [E|_]; [lia|]. set (e := mkElem i d key (strHash key)).
  pose proof Hw as [H1 H2 H3 H4 H5]. cbn [count htsize].
  set (pH1 := if _ && _ then _ else _).
  assert (Hr : exists n l t, pH1 = mkHash n (count pH + 1) l t /\ Permutation (first pH) l /\ table_cond n l t).
  { unfold pH1. destruct ((5 <=? count pH + 1) && _).
    - apply (hash_rehash_ok (mkHash (htsize pH) (count pH + 1) (first pH) (ht pH))); [lia|exact H1|exact H5].
    - exists (htsize pH), (first pH), (ht pH). auto. }
  destruct Hr as (n & l & t & -> & P & T). cbn [ht htsize].
  destruct (wf_perm _ _ P (conj H1 (conj H2 H3))) as (A1 & A2 & A3).
  assert (Hnew : ~ In (map lower key) (map (fun e => map lower (pKey e)) l)).
  { intros Hin. apply in_map_iff in Hin as (x & Ex & Hx). apply (Permutation_in x (Permutation_sym P)) in Hx.
    pose proof (find_none _ _ Ef x Hx) as Hf. assert (hit key x = true) by now apply (hit_same pH). congruence. }
  destruct (add_ok n (count pH + 1) l t e T) as [W' P'].
  - rewrite H4, (Permutation_length P). reflexivity.
  - cbn [map]. constructor; [|exact A1]. intros Hin. apply Hi. cbn [id e] in Hin.
    exact (Permutation_in i (Permutation_map id (Permutation_sym P)) Hin).
  - constructor; [now repeat split|exact A2].
  - cbn [map]. now constructor.
  - eexists. split; [reflexivity|]. split; [exact W'|]. rewrite P. exact P'.
Qed.

(** What the table holds after an insertion. *)
Definition after (d old : Z) (eq : bool) : Z := if eq then d else old.

Lemma hash_insert_new pH key d i k2 : wf pH -> cstring key -> d <> 0 -> ~ In i (map id (first pH)) ->
  find (hit key) (first pH) = None -> cstring k2 ->
  let '(r, pH') := sqlite3HashInsert malloc_size (Some i) pH key d in
  r = sqlite3HashFind pH key /\ wf pH' /\
  sqlite3HashFind pH' k2 = after d (sqlite3HashFind pH k2) (sqlite3StrICmp key k2 =? 0).
Proof.
  intros Hw Hk Hd Hi Ef Hk2. destruct (insert_new pH key d i Hw Hk Hd Hi Ef) as (pH' & -> & W' & P).
  split; [|split; [exact W'|]].
  - unfold sqlite3HashFind. rewrite find_all by exact Hw. cbn [fst]. now rewrite Ef.
  - destruct (Z.eqb_spec (sqlite3StrICmp key k2) 0) as [E|E]; cbn [after].
    + apply find_holds; auto. exists (mkElem i d key (strHash key)). split; [apply (Permutation_in _ P); now left|].
      split; [|reflexivity]. now apply stricmp_zero in E.
    + apply find_ext; auto. intros d'. split; intros (x & Hx & Hs & Hv).
      * apply (Permutation_in _ (Permutation_sym P)) in Hx as [<-|Hx]; [|now exists x].
        exfalso. apply E. now apply stricmp_zero.
      * exists x. split; [apply (Permutation_in _ P); now right|auto].
Qed.

Lemma hash_insert_old pH key d i e k2 : wf pH -> cstring key -> find (hit key) (first pH) = Some e -> cstring k2 ->
  let '(r, pH') := sqlite3HashInsert malloc_size i pH key d in
  r = sqlite3HashFind pH key /\ wf pH' /\
  sqlite3HashFind pH' k2 = after d (sqlite3HashFind pH k2) (sqlite3StrICmp key k2 =? 0).
Proof.
  intros Hw Hk Ef Hk2. unfold sqlite3HashInsert. rewrite find_all, Ef by exact Hw. cbv beta iota zeta.
  pose proof Ef as Hin. apply find_some in Hin as [Hin Hh]. apply (hit_same pH) in Hh; [|assumption..].
  assert (Hed : data e <> 0) by (destruct Hw as [_ He _ _ _]; rewrite Forall_forall in He; now apply He).
  destruct (Z.eqb_spec (data e) 0) as [|_]; [contradiction|]. split.
  { unfold sqlite3HashFind. rewrite find_all by exact Hw. cbn [fst]. now rewrite Ef. }
  destruct (Z.eqb_spec d 0) as [->|Hd].
  - destruct (removeElement_ok pH e Hw Hin) as [W' Hm]. split; [exact W'|].
    destruct (Z.eqb_spec (sqlite3StrICmp key k2) 0) as [E|E]; cbn [after].
    + apply find_not_holds; auto. intros d (x & Hx & Hs & _). apply Hm in Hx as [Hx Hne]. apply Hne.
      apply stricmp_zero in E; auto.
      assert (Hx' : find (hit key) (first pH) = Some x) by (apply find_hit; auto; unfold same in *; congruence). congruence.
    + apply find_ext; auto. intros d'. split; intros (x & Hx & Hs & Hv).
      * apply Hm in Hx as [Hx _]. now exists x.
      * exists x. split; [|auto]. apply Hm. split; [exact Hx|]. intros ->. apply E. apply stricmp_zero; auto.
        unfold same in *. congruence.
  - assert (W' := replace_ok pH e d key Hw Hin Hk Hh Hd). split; [exact W'|].
    set (upd := fun x => if Nat.eqb (id x) (id e) then mkElem (id x) d key (h x) else x) in *.
    destruct (Z.eqb_spec (sqlite3StrICmp key k2) 0) as [E|E]; cbn [after].
    + apply find_holds; auto. exists (upd e). split; [now apply in_map|]. unfold upd. rewrite Nat.eqb_refl.
      split; [|reflexivity]. now apply stricmp_zero in E.
    + assert (Hu : forall x, In x (first pH) -> same (pKey x) k2 -> upd x = x).
      { intros x Hx Hs. unfold upd. destruct (Nat.eqb_spec (id x) (id e)) as [Ei|]; [|reflexivity]. exfalso.
        assert (Exe : x = e) by (destruct Hw; eauto using NoDup_map_inj). subst x. apply E. apply stricmp_zero; auto.
        unfold same in *. congruence. }
      apply find_ext; auto. cbn [first]. intros d'. split; intros (x & Hx & Hs & Hv).
      * apply in_map_iff in Hx as (y & <- & Hy). destruct (Nat.eqb_spec (id y) (id e)) as [Ei|Ei].
        -- exfalso. apply E. apply stricmp_zero; auto. unfold upd in Hs. rewrite (proj2 (Nat.eqb_eq _ _) Ei) in Hs. exact Hs.
        -- unfold upd in *. apply Nat.eqb_neq in Ei. rewrite Ei in *. now exists y.
      * exists x. split; [|auto]. apply in_map_iff. exists x. auto.
Qed.

(** Insertion into a well-formed table keeps it well formed, returns
    what the table held for the key, and afterwards the table holds the new
    data for every spelling of the key (nothing when the data is null) and
    what it held before for every other key, whether or not the table was
    rehashed; when no element can be allocated for a new key, the data is
    returned and the table is unchanged. *)
Theorem hash_insert_correct pH key d new_id k2 :
  wf pH -> cstring key -> cstring k2 -> (forall i, new_id = Some i -> ~ In i (map id (first pH))) ->
  let '(r, pH') := sqlite3HashInsert malloc_size new_id pH key d in
  (new_id = None /\ sqlite3HashFind pH key = 0 /\ d <> 0 /\ r = d /\ pH' = pH) \/
  (r = sqlite3HashFind pH key /\ wf pH' /\
   sqlite3HashFind pH' k2 = if sqlite3StrICmp key k2 =? 0 then d else sqlite3HashFind pH k2).
Proof.
  intros Hw Hk Hk2 Hi. destruct (find (hit key) (first pH)) as [e|] eqn:Ef.
  - pose proof (hash_insert_old pH key d new_id e k2 Hw Hk Ef Hk2) as H.
    destruct (sqlite3HashInsert malloc_size new_id pH key d). now right.
  - assert (E0 : sqlite3HashFind pH key = 0) by (unfold sqlite3HashFind; rewrite find_all by exact Hw; cbn [fst]; now rewrite Ef).
    destruct (Z.eq_dec d 0) as [->|Hd].
    + unfold sqlite3HashInsert. rewrite find_all, Ef by exact Hw. cbn [Z.eqb]. right. split; [now symmetry|]. split; [exact Hw|].
      destruct (Z.eqb_spec (sqlite3StrICmp key k2) 0) as [E|E]; [|reflexivity]. rewrite <- E0.
      apply find_ext; auto. apply stricmp_zero in E; auto. intros d. split; intros (x & Hx & Hs & Hv); exists x; unfold same in *;
        repeat split; auto; congruence.
    + destruct new_id as [i|].
      * pose proof (hash_insert_new pH key d i k2 Hw Hk Hd (Hi i eq_refl) Ef Hk2) as H.
        destruct (sqlite3HashInsert malloc_size (Some i) pH key d). now right.
      * unfold sqlite3HashInsert. rewrite find_all, Ef by exact Hw. cbv beta iota zeta.
        destruct (Z.eqb_spec d 0) as [|_]; [contradiction|]. now left.
Qed.
End Laws.

Lemma wf_init : wf sqlite3HashInit.
Proof. constructor; cbn; auto; constructor. Qed.

Lemma hash_insert_correct_witness :
  let '(r, pH') := sqlite3HashInsert Some (Some 7%nat) sqlite3HashInit [65; 98] 5 in
  (Some 7%nat = None /\ sqlite3HashFind sqlite3HashInit [65; 98] = 0 /\ 5 <> 0 /\ r = 5 /\ pH' = sqlite3HashInit) \/
  (r = sqlite3HashFind sqlite3HashInit [65; 98] /\ wf pH' /\
   sqlite3HashFind pH' [97; 66] =
     if sqlite3StrICmp [65; 98] [97; 66] =? 0 then 5 else sqlite3HashFind sqlite3HashInit [97; 66]).
Proof.
  apply (hash_insert_correct Some); [intros n m [= ->]; lia|exact wf_init| | |intros i _ []];
    repeat constructor; unfold is_u8; lia.
Defined.
