(* ===== verification/UnixLock.v ===== *)
(** * SQLite: the file locks of the unix VFS

    Several threads of several processes open the same database file.  The
    module models the part of [os_unix.c] in [src/api-core/src/db/sqlite3.c]
    that keeps them apart: [unixFileLock], [unixLock], [posixUnlock],
    [unixCheckReservedLock], [findReusableFd], [findInodeInfo], [unixClose].

    A lock operation is a program of system calls ([prog]): it runs with the
    mutex [pLockMutex] of its process, but between two of its calls other
    processes run.  A run is any list of events ([event]), one system call or
    one section under the global mutex each; the sections of different threads
    under this mutex may interleave, which the code allows only partly, so that
    the theorem about all runs covers more.  The record locks of the operating
    system are a parameter with the laws of POSIX ([RecordLocks],
    [RecordLockLaws]): a lock belongs to a process, and closing any descriptor
    of the file releases all locks of the process.

    The proof: [safe] says of a program that at each of its calls the record
    locks of the process still back the levels of its other handles ([support]);
    every operation is safe and leaves the counters of [unixInodeInfo] in step
    with the handles ([Link], [Counts]); and locks of different processes never
    conflict. *)

From Stdlib Require Import ZArith List Lia Bool.
From S2P Require Import Prelude.
Import ListNotations.
#[local] Open Scope Z_scope.

(** ** Constants and structures *)

Definition NO_LOCK : Z := 0.
Definition SHARED_LOCK : Z := 1.
Definition RESERVED_LOCK : Z := 2.
Definition PENDING_LOCK : Z := 3.
Definition EXCLUSIVE_LOCK : Z := 4.
Definition PENDING_BYTE : Z := 1073741824.
Definition RESERVED_BYTE : Z := PENDING_BYTE + 1.
Definition SHARED_FIRST : Z := PENDING_BYTE + 2.
Definition SHARED_SIZE : Z := 510.
Definition UNIXFILE_EXCL : Z := 1.
Definition UNIXFILE_RDONLY : Z := 2.
Definition SQLITE_OK : Z := 0.
Definition SQLITE_PERM : Z := 3.
Definition SQLITE_BUSY : Z := 5.
Definition SQLITE_IOERR : Z := 10.
Definition SQLITE_IOERR_UNLOCK : Z := Z.lor SQLITE_IOERR (Z.shiftl 8 8).
Definition SQLITE_IOERR_RDLOCK : Z := Z.lor SQLITE_IOERR (Z.shiftl 9 8).
Definition SQLITE_IOERR_CHECKRESERVEDLOCK : Z := Z.lor SQLITE_IOERR (Z.shiftl 14 8).
Definition SQLITE_IOERR_LOCK : Z := Z.lor SQLITE_IOERR (Z.shiftl 15 8).
Definition SQLITE_OPEN_READONLY : Z := 1.
Definition SQLITE_OPEN_READWRITE : Z := 2.

(** The error numbers of Linux that the code distinguishes. *)
Definition sqliteErrorFromPosixError (posixError sqliteIOErr : Z) : Z :=
  let EPERM := 1 in let EINTR := 4 in let EAGAIN := 11 in let EACCES := 13 in
  let EBUSY := 16 in let ENOLCK := 37 in let ETIMEDOUT := 110 in
  if existsb (Z.eqb posixError) [EACCES; EAGAIN; ETIMEDOUT; EBUSY; EINTR; ENOLCK] then SQLITE_BUSY
  else if posixError =? EPERM then SQLITE_PERM
  else sqliteIOErr.

Inductive ltype := F_RDLCK | F_WRLCK | F_UNLCK.

(** [struct flock] with [l_whence = SEEK_SET]. *)
Record flock := { l_type : ltype; l_start : Z; l_len : Z }.

Record UnixUnusedFd := { fd : Z; flags : Z }.

(** The members of [unixInodeInfo] that [pLockMutex] protects. *)
Record unixInodeInfo := {
  nShared : Z;
  nLock : Z;
  iFileLock : Z;                        (* eFileLock of the inode *)
  bProcessLock : Z;
  pUnused : list UnixUnusedFd }.

Record unixFile := {
  h : Z;
  eFileLock : Z;
  ctrlFlags : Z;
  lastErrno : Z;
  openFlags : Z }.                      (* the flags of pPreallocatedUnused *)

Definition set_level (l : Z) (f : unixFile) : unixFile :=
  {| h := h f; eFileLock := l; ctrlFlags := ctrlFlags f; lastErrno := lastErrno f; openFlags := openFlags f |}.
Definition storeLastErrno (e : Z) (f : unixFile) : unixFile :=
  {| h := h f; eFileLock := eFileLock f; ctrlFlags := ctrlFlags f; lastErrno := e; openFlags := openFlags f |}.
Definition set_h (x : Z) (f : unixFile) : unixFile :=
  {| h := x; eFileLock := eFileLock f; ctrlFlags := ctrlFlags f; lastErrno := lastErrno f; openFlags := openFlags f |}.
Definition set_ilock (l : Z) (i : unixInodeInfo) : unixInodeInfo :=
  {| nShared := nShared i; nLock := nLock i; iFileLock := l; bProcessLock := bProcessLock i; pUnused := pUnused i |}.
Definition set_counts (s l : Z) (i : unixInodeInfo) : unixInodeInfo :=
  {| nShared := s; nLock := l; iFileLock := iFileLock i; bProcessLock := bProcessLock i; pUnused := pUnused i |}.
Definition set_process (i : unixInodeInfo) : unixInodeInfo :=
  {| nShared := nShared i; nLock := nLock i + 1; iFileLock := iFileLock i; bProcessLock := 1; pUnused := pUnused i |}.
Definition set_unused (u : list UnixUnusedFd) (i : unixInodeInfo) : unixInodeInfo :=
  {| nShared := nShared i; nLock := nLock i; iFileLock := iFileLock i; bProcessLock := bProcessLock i; pUnused := u |}.

(** ** Programs of system calls *)

(** An operation makes system calls on a descriptor of the database file; a
    call to [fcntl] answers 0 or an error number, [F_GETLK] also a lock type. *)
Inductive prog (A : Type) : Type :=
| Ret (a : A)
| Setlk (d : Z) (l : flock) (k : Z -> prog A)
| Getlk (d : Z) (l : flock) (k : Z -> ltype -> prog A)
| Close (d : Z) (k : prog A).
Arguments Ret {A} a.
Arguments Setlk {A} d l k.
Arguments Getlk {A} d l k.
Arguments Close {A} d k.

Fixpoint bind {A B} (m : prog A) (f : A -> prog B) : prog B :=
  match m with
  | Ret a => f a
  | Setlk d l k => Setlk d l (fun e => bind (k e) f)
  | Getlk d l k => Getlk d l (fun e t => bind (k e t) f)
  | Close d k => Close d (bind k f)
  end.

Declare Scope prog_scope.
Delimit Scope prog_scope with prog.
Notation "'do' x <- m ; k" := (bind m (fun x => k))
  (at level 10, x pattern, m at level 100, k at level 200) : prog_scope.
#[local] Open Scope prog_scope.

(** ** The operations *)

Definition lock_of (t : ltype) (start len : Z) : flock := {| l_type := t; l_start := start; l_len := len |}.

(** The answer is the error number, 0 on success. *)
Definition unixFileLock (pInode : unixInodeInfo) (pFile : unixFile) (pLock : flock) : prog (unixInodeInfo * Z) :=
  if Z.land (ctrlFlags pFile) (Z.lor UNIXFILE_EXCL UNIXFILE_RDONLY) =? UNIXFILE_EXCL then
    if bProcessLock pInode =? 0 then
      Setlk (h pFile) (lock_of F_WRLCK SHARED_FIRST SHARED_SIZE)
        (fun e => Ret (if e =? 0 then set_process pInode else pInode, e))
    else Ret (pInode, 0)
  else Setlk (h pFile) pLock (fun e => Ret (pInode, e)).

(** What every operation leaves: the inode, the file, the result code and the
    answer in [*pResOut]. *)
Definition result : Type := unixInodeInfo * unixFile * Z * bool.

Definition lock_failed (i : unixInodeInfo) (f : unixFile) (e : Z) : prog result :=
  let rc := sqliteErrorFromPosixError e SQLITE_IOERR_LOCK in
  Ret (i, if rc =? SQLITE_BUSY then f else storeLastErrno e f, rc, false).

(** The part of [unixLock] after the PENDING lock.  [sharing] is the answer of
    [unixIsSharingShmNode]. *)
Definition unixLock_os (sharing : bool) (i : unixInodeInfo) (f : unixFile) (l : Z) : prog result :=
  if l =? SHARED_LOCK then
    do (i, e1) <- unixFileLock i f (lock_of F_RDLCK SHARED_FIRST SHARED_SIZE);
    let rc1 := if e1 =? 0 then SQLITE_OK else sqliteErrorFromPosixError e1 SQLITE_IOERR_LOCK in
    do (i, e2) <- unixFileLock i f (lock_of F_UNLCK PENDING_BYTE 1);
    let (rc, tErrno) := if negb (e2 =? 0) && (rc1 =? SQLITE_OK) then (SQLITE_IOERR_UNLOCK, e2) else (rc1, e1) in
    if negb (rc =? SQLITE_OK) then Ret (i, if rc =? SQLITE_BUSY then f else storeLastErrno tErrno f, rc, false)
    else Ret (set_ilock l (set_counts 1 (nLock i + 1) i), set_level l f, rc, false)
  else if (l =? EXCLUSIVE_LOCK) && (1 <? nShared i) then Ret (i, f, SQLITE_BUSY, false)
  else if sharing then Ret (i, f, SQLITE_BUSY, false)
  else
    do (i, e) <- unixFileLock i f
      (if l =? RESERVED_LOCK then lock_of F_WRLCK RESERVED_BYTE 1 else lock_of F_WRLCK SHARED_FIRST SHARED_SIZE);
    if negb (e =? 0) then lock_failed i f e
    else Ret (set_ilock l i, set_level l f, SQLITE_OK, false).

Definition unixLock (sharing : bool) (i : unixInodeInfo) (f : unixFile) (l : Z) : prog result :=
  if l <=? eFileLock f then Ret (i, f, SQLITE_OK, false)
  else if negb (eFileLock f =? iFileLock i) && ((PENDING_LOCK <=? iFileLock i) || (SHARED_LOCK <? l)) then
    Ret (i, f, SQLITE_BUSY, false)
  else if (l =? SHARED_LOCK) && ((iFileLock i =? SHARED_LOCK) || (iFileLock i =? RESERVED_LOCK)) then
    Ret (set_counts (nShared i + 1) (nLock i + 1) i, set_level SHARED_LOCK f, SQLITE_OK, false)
  else if (l =? SHARED_LOCK) || ((l =? EXCLUSIVE_LOCK) && (eFileLock f =? RESERVED_LOCK)) then
    do (i, e) <- unixFileLock i f (lock_of (if l =? SHARED_LOCK then F_RDLCK else F_WRLCK) PENDING_BYTE 1);
    if negb (e =? 0) then lock_failed i f e
    else if l =? EXCLUSIVE_LOCK then unixLock_os sharing (set_ilock PENDING_LOCK i) (set_level PENDING_LOCK f) l
    else unixLock_os sharing i f l
  else unixLock_os sharing i f l.

(** [closePendingFds]: close every descriptor whose close was deferred. *)
Fixpoint close_all {A} (ds : list UnixUnusedFd) (k : prog A) : prog A :=
  match ds with [] => k | d :: ds => Close (fd d) (close_all ds k) end.
Definition closePendingFds (i : unixInodeInfo) : prog unixInodeInfo := close_all (pUnused i) (Ret (set_unused [] i)).

(** The end of [posixUnlock]: after [end_unlock] the level is set on success. *)
Definition end_unlock (i : unixInodeInfo) (f : unixFile) (l rc : Z) : prog result :=
  Ret (i, if rc =? SQLITE_OK then set_level l f else f, rc, false).

(** The part of [posixUnlock] for [NO_LOCK]: give up the SHARED lock. *)
Definition posixUnlock_shared (i : unixInodeInfo) (f : unixFile) (l : Z) : prog result :=
  let i := set_counts (nShared i - 1) (nLock i) i in
  do (i, f, rc) <- (if nShared i =? 0 then
      do (i, e) <- unixFileLock i f (lock_of F_UNLCK 0 0);
      if e =? 0 then Ret (set_ilock NO_LOCK i, f, SQLITE_OK)
      else Ret (set_ilock NO_LOCK i, set_level NO_LOCK (storeLastErrno e f), SQLITE_IOERR_UNLOCK)
    else Ret (i, f, SQLITE_OK));
  let i := set_counts (nShared i) (nLock i - 1) i in
  do i <- (if nLock i =? 0 then closePendingFds i else Ret i);
  end_unlock i f l rc.

(** The part of [posixUnlock] for levels above SHARED, on platforms other than
    Apple's: [Some] code on error. *)
Definition posixUnlock_high (i : unixInodeInfo) (f : unixFile) (l : Z) : prog (unixInodeInfo * unixFile * option Z) :=
  do (i, e1) <- (if l =? SHARED_LOCK then unixFileLock i f (lock_of F_RDLCK SHARED_FIRST SHARED_SIZE) else Ret (i, 0));
  if negb (e1 =? 0) then Ret (i, storeLastErrno e1 f, Some SQLITE_IOERR_RDLOCK)
  else
    do (i, e2) <- unixFileLock i f (lock_of F_UNLCK PENDING_BYTE 2);
    if e2 =? 0 then Ret (set_ilock SHARED_LOCK i, f, None)
    else Ret (i, storeLastErrno e2 f, Some SQLITE_IOERR_UNLOCK).

Definition posixUnlock (i : unixInodeInfo) (f : unixFile) (l : Z) : prog result :=
  if eFileLock f <=? l then Ret (i, f, SQLITE_OK, false)
  else
    do (i, f, err) <- (if SHARED_LOCK <? eFileLock f then posixUnlock_high i f l else Ret (i, f, None));
    match err with
    | Some rc => end_unlock i f l rc
    | None => if l =? NO_LOCK then posixUnlock_shared i f l else end_unlock i f l SQLITE_OK
    end.

Definition unixCheckReservedLock (i : unixInodeInfo) (f : unixFile) : prog result :=
  let reserved := SHARED_LOCK <? iFileLock i in
  if negb reserved && (bProcessLock i =? 0) then
    Getlk (h f) (lock_of F_WRLCK RESERVED_BYTE 1) (fun e t =>
      if negb (e =? 0) then Ret (i, storeLastErrno e f, SQLITE_IOERR_CHECKRESERVEDLOCK, reserved)
      else Ret (i, f, SQLITE_OK, match t with F_UNLCK => reserved | _ => true end))
  else Ret (i, f, SQLITE_OK, reserved).

(** [findReusableFd]: the first deferred descriptor with the flags wanted. *)
Fixpoint take_unused (fl : Z) (u : list UnixUnusedFd) : option UnixUnusedFd * list UnixUnusedFd :=
  match u with
  | [] => (None, [])
  | d :: u =>
    if flags d =? fl then (Some d, u)
    else let (r, u') := take_unused fl u in (r, d :: u')
  end.
Definition findReusableFd (fl : Z) (i : unixInodeInfo) : option UnixUnusedFd * unixInodeInfo :=
  let (r, u) := take_unused (Z.land fl (Z.lor SQLITE_OPEN_READONLY SQLITE_OPEN_READWRITE)) (pUnused i) in
  (r, set_unused u i).

(** [setPendingFd] *)
Definition setPendingFd (i : unixInodeInfo) (f : unixFile) : unixInodeInfo * unixFile :=
  (set_unused ({| fd := h f; flags := openFlags f |} :: pUnused i) i, set_h (-1) f).

(** ** The record locks of the operating system *)

(** [held k p b] is the lock that process [p] has on byte [b] of the database
    file.  The argument [env] of the calls is what else the system decides, such
    as a call interrupted by a signal. *)
Class RecordLocks (K : Type) := {
  held : K -> Z -> Z -> ltype;
  fcntl_setlk : K -> Z -> flock -> Z -> K * Z;
  fcntl_getlk : K -> Z -> flock -> Z -> Z * ltype;
  os_close : K -> Z -> K }.

(** The bytes of a lock; a length of 0 means to the end of the file. *)
Definition covers (l : flock) (b : Z) : bool := (l_start l <=? b) && ((l_len l =? 0) || (b <? l_start l + l_len l)).
Definition conflict (a b : ltype) : bool :=
  match a, b with F_UNLCK, _ | _, F_UNLCK | F_RDLCK, F_RDLCK => false | _, _ => true end.

(** What POSIX says of [fcntl] and [close], on a file system where unlocking
    does not fail. *)
Class RecordLockLaws (K : Type) `{RecordLocks K} : Prop := {
  setlk_ok k p l env k' b : fcntl_setlk k p l env = (k', 0) ->
    held k' p b = if covers l b then l_type l else held k p b;
  setlk_granted k p l env k' q b : fcntl_setlk k p l env = (k', 0) -> q <> p -> covers l b = true ->
    conflict (l_type l) (held k q b) = false;
  setlk_other k p l env q b : q <> p -> held (fst (fcntl_setlk k p l env)) q b = held k q b;
  setlk_failed k p l env k' e b : fcntl_setlk k p l env = (k', e) -> e <> 0 -> held k' p b = held k p b;
  setlk_unlock k p l env : l_type l = F_UNLCK -> snd (fcntl_setlk k p l env) = 0;
  getlk_free k p l env q b : fcntl_getlk k p l env = (0, F_UNLCK) -> q <> p -> covers l b = true ->
    conflict (l_type l) (held k q b) = false;
  close_own k p b : held (os_close k p) p b = F_UNLCK;
  close_other k p q b : q <> p -> held (os_close k p) q b = held k q b }.

(** ** Processes and runs *)

Inductive op := OpLock (l : Z) | OpUnlock (l : Z) | OpClose | OpCheckReserved.

(** The life of a handle: between [findReusableFd] and [findInodeInfo]; open;
    in [unixClose] after the unlock; and after the test of [nLock]. *)
Inductive phase := Opening | Open | Unlocked | Deferred.

Record handle := { file : unixFile; ph : phase; last_rc : Z; pResOut : bool }.

(** The operation that holds [pLockMutex]: its handle, its kind and the rest of
    its program. *)
Record proc := {
  nRef : Z;
  inode : unixInodeInfo;
  files : list (Z * handle);
  busy : option (Z * op * prog result) }.

Definition inode0 : unixInodeInfo := {| nShared := 0; nLock := 0; iFileLock := 0; bProcessLock := 0; pUnused := [] |}.
Definition proc0 : proc := {| nRef := 0; inode := inode0; files := []; busy := None |}.

Definition set_files (fs : list (Z * handle)) (s : proc) : proc :=
  {| nRef := nRef s; inode := inode s; files := fs; busy := busy s |}.
Definition set_inode (i : unixInodeInfo) (s : proc) : proc :=
  {| nRef := nRef s; inode := i; files := files s; busy := busy s |}.
Definition set_ref (n : Z) (s : proc) : proc :=
  {| nRef := n; inode := inode s; files := files s; busy := busy s |}.
Definition set_busy (b : option (Z * op * prog result)) (s : proc) : proc :=
  {| nRef := nRef s; inode := inode s; files := files s; busy := b |}.

Fixpoint lookup {A} (x : Z) (l : list (Z * A)) : option A :=
  match l with [] => None | (y, a) :: l => if x =? y then Some a else lookup x l end.
Fixpoint update {A} (x : Z) (a : A) (l : list (Z * A)) : list (Z * A) :=
  match l with [] => [] | (y, b) :: l => if x =? y then (y, a) :: l else (y, b) :: update x a l end.
Fixpoint remove {A} (x : Z) (l : list (Z * A)) : list (Z * A) :=
  match l with [] => [] | (y, b) :: l => if x =? y then l else (y, b) :: remove x l end.

Definition is_busy (s : proc) : bool := match busy s with Some _ => true | None => false end.

Definition start (o : op) (sharing : bool) (i : unixInodeInfo) (f : unixFile) : prog result :=
  match o with
  | OpLock l => unixLock sharing i f l
  | OpUnlock l => posixUnlock i f l
  | OpClose => posixUnlock i f NO_LOCK
  | OpCheckReserved => unixCheckReservedLock i f
  end.

(** The operation has reached program [m]; at its end the mutex is left. *)
Definition settle (s : proc) (x : Z) (o : op) (m : prog result) : proc :=
  match m with
  | Ret (i, f, rc, out) =>
    let p := match o with OpClose => Unlocked | _ => Open end in
    set_busy None (set_inode i (set_files (update x {| file := f; ph := p; last_rc := rc; pResOut := out |} (files s)) s))
  | _ => set_busy (Some (x, o, m)) s
  end.

(** [unixOpen] up to [fillInUnixFile]: a deferred descriptor or a new one. *)
Definition open_begin (x fl newfd : Z) (s : proc) : proc :=
  if is_busy s then s else
  match lookup x (files s) with
  | Some _ => s
  | None =>
    let (r, i) := findReusableFd fl (inode s) in
    let d := match r with Some u => fd u | None => newfd end in
    let f := {| h := d; eFileLock := NO_LOCK; ctrlFlags := 0; lastErrno := 0;
                openFlags := Z.land fl (Z.lor SQLITE_OPEN_READONLY SQLITE_OPEN_READWRITE) |} in
    set_files ((x, {| file := f; ph := Opening; last_rc := SQLITE_OK; pResOut := false |}) :: files s) (set_inode i s)
  end.

(** [fillInUnixFile] with [findInodeInfo]: [fstat_ok] and [malloc_ok] say
    whether these calls succeed.  An inode is allocated when there is none; on
    failure the descriptor is closed. *)
Definition findInodeInfo (fstat_ok malloc_ok : bool) (n : Z) : option Z :=
  if negb fstat_ok then None else if n =? 0 then if malloc_ok then Some 1 else None else Some (n + 1).

Inductive event :=
| EOpen (p x fl newfd : Z)
| EFill (p x ctrl : Z) (fstat_ok malloc_ok : bool)
| EStart (p x : Z) (o : op) (sharing : bool)
| ESys (p env : Z)
| EDefer (p x : Z)
| EClose (p x : Z).

Section World.
Context {K : Type} `{RecordLocks K}.

Record world := { kernel : K; procs : Z -> proc }.

Definition set_proc (p : Z) (s : proc) (w : world) : world :=
  {| kernel := kernel w; procs := fun q => if q =? p then s else procs w q |}.
Definition set_kernel (k : K) (w : world) : world := {| kernel := k; procs := procs w |}.

(** The next system call of the operation in progress in process [p]. *)
Definition sys (p env : Z) (w : world) : world :=
  let s := procs w p in
  match busy s with
  | Some (x, o, Setlk d l k) =>
    let (k', e) := fcntl_setlk (kernel w) p l env in set_proc p (settle s x o (k e)) (set_kernel k' w)
  | Some (x, o, Getlk d l k) =>
    let (e, t) := fcntl_getlk (kernel w) p l env in set_proc p (settle s x o (k e t)) w
  | Some (x, o, Close d k) => set_proc p (settle s x o k) (set_kernel (os_close (kernel w) p) w)
  | _ => w
  end.

Definition fill (p x ctrl : Z) (fstat_ok malloc_ok : bool) (w : world) : world :=
  let s := procs w p in
  match lookup x (files s) with
  | Some {| file := f; ph := Opening |} =>
    match findInodeInfo fstat_ok malloc_ok (nRef s) with
    | Some n =>
      let f := {| h := h f; eFileLock := eFileLock f; ctrlFlags := ctrl; lastErrno := 0; openFlags := openFlags f |} in
      set_proc p (set_ref n (set_files
        (update x {| file := f; ph := Open; last_rc := SQLITE_OK; pResOut := false |} (files s)) s)) w
    | None => set_kernel (os_close (kernel w) p) (set_proc p (set_files (remove x (files s)) s) w)
    end
  | _ => w
  end.

(** The first part of [unixClose] under the global mutex: descriptors are not
    closed while the process has locks. *)
Definition defer (p x : Z) (w : world) : world :=
  let s := procs w p in
  if is_busy s then w else
  match lookup x (files s) with
  | Some {| file := f; ph := Unlocked; last_rc := rc; pResOut := out |} =>
    let (i, f) := if nLock (inode s) =? 0 then (inode s, f) else setPendingFd (inode s) f in
    set_proc p (set_inode i (set_files
      (update x {| file := f; ph := Deferred; last_rc := rc; pResOut := out |} (files s)) s)) w
  | _ => w
  end.

Fixpoint close_each (n : nat) (p : Z) (k : K) : K := match n with O => k | S n => close_each n p (os_close k p) end.

(** The rest of [unixClose]: [releaseInodeInfo] and [closeUnixFile]. *)
Definition close_file (p x : Z) (w : world) : world :=
  let s := procs w p in
  match lookup x (files s) with
  | Some {| file := f; ph := Deferred |} =>
    let last := nRef s - 1 =? 0 in
    let k := if last then close_each (length (pUnused (inode s))) p (kernel w) else kernel w in
    let k := if 0 <=? h f then os_close k p else k in
    let s := if last then set_inode inode0 s else s in
    set_kernel k (set_proc p (set_ref (nRef s - 1) (set_files (remove x (files s)) s)) w)
  | _ => w
  end.

Definition step (w : world) (e : event) : world :=
  match e with
  | EOpen p x fl newfd => set_proc p (open_begin x fl newfd (procs w p)) w
  | EFill p x ctrl fs ms => fill p x ctrl fs ms w
  | EStart p x o sharing =>
    let s := procs w p in
    if is_busy s then w else
    match lookup x (files s) with
    | Some {| file := f; ph := Open |} => set_proc p (settle s x o (start o sharing (inode s) f)) w
    | _ => w
    end
  | ESys p env => sys p env w
  | EDefer p x => defer p x w
  | EClose p x => close_file p x w
  end.

Definition run (w : world) (es : list event) : world := fold_left step es w.

(** What [assert] in the operations demands of their callers; the VFS "unix",
    which does not set [UNIXFILE_EXCL]; and that [fstat] succeeds. *)
Definition legal (w : world) (e : event) : bool :=
  match e with
  | EFill p x ctrl fs ms => fs && (Z.land ctrl UNIXFILE_EXCL =? 0)
  | EStart p x o _ =>
    match lookup x (files (procs w p)) with
    | Some hd =>
      let now := eFileLock (file hd) in
      match o with
      | OpLock l => (l <=? now)
          || ((l =? SHARED_LOCK) || (l =? RESERVED_LOCK) || (l =? EXCLUSIVE_LOCK))
             && (negb (now =? NO_LOCK) || (l =? SHARED_LOCK)) && (negb (l =? RESERVED_LOCK) || (now =? SHARED_LOCK))
      | OpUnlock l => (l =? NO_LOCK) || (l =? SHARED_LOCK)
      | OpClose => true
      | OpCheckReserved => now <=? SHARED_LOCK
      end
    | None => true
    end
  | _ => true
  end.

(** No lock of the process is taken between the test of [nLock] in [unixClose]
    and the close of the descriptor. *)
Definition orderly (w : world) (e : event) : bool :=
  match e with
  | EClose p x =>
    match lookup x (files (procs w p)) with
    | Some hd => (h (file hd) <? 0) || (negb (is_busy (procs w p)) && (nLock (inode (procs w p)) =? 0))
    | None => true
    end
  | _ => true
  end.

Fixpoint along (good : world -> event -> bool) (w : world) (es : list event) : bool :=
  match es with [] => true | e :: es => good w e && along good (step w e) es end.

(** A handle that no operation is working on. *)
Definition at_rest (w : world) (p x : Z) (f : unixFile) : Prop :=
  (exists hd, lookup x (files (procs w p)) = Some hd /\ file hd = f) /\
  match busy (procs w p) with Some (y, _, _) => y <> x | None => True end.

End World.
Arguments world K : clear implicits.

(** ** What the counters of a process say *)

Definition locked (l : Z) : Z := if 0 <? l then 1 else 0.
Fixpoint cnt (ls : list Z) : Z := match ls with [] => 0 | l :: ls => locked l + cnt ls end.
Fixpoint maxl (ls : list Z) : Z := match ls with [] => 0 | l :: ls => Z.max l (maxl ls) end.

(** Levels that two handles of one process may have together. *)
Definition okpair (a b : Z) : Prop := (1 < a -> b <= 1) /\ (1 < b -> a <= 1) /\ (a = 4 -> b = 0) /\ (b = 4 -> a = 0).
Fixpoint pairwise (ls : list Z) : Prop := match ls with [] => True | l :: ls => Forall (okpair l) ls /\ pairwise ls end.

Definition level_ok (l : Z) : Prop := 0 <= l <= 4.

Lemma okpair_sym a b : okpair a b -> okpair b a.
Proof. unfold okpair. tauto. Qed.

Lemma cnt_app a b : cnt (a ++ b) = cnt a + cnt b.
Proof. induction a as [|x a IH]; cbn [app cnt]; lia. Qed.
Lemma maxl_nonneg ls : 0 <= maxl ls.
Proof. induction ls; cbn [maxl]; lia. Qed.
Lemma maxl_app a b : maxl (a ++ b) = Z.max (maxl a) (maxl b).
Proof. induction a as [|x a IH]; cbn [app maxl]; [pose proof (maxl_nonneg b)|]; lia. Qed.
Lemma cnt_mid a x b : cnt (a ++ x :: b) = locked x + cnt (a ++ b).
Proof. rewrite !cnt_app. cbn [cnt]. lia. Qed.
Lemma maxl_mid a x b : maxl (a ++ x :: b) = Z.max x (maxl (a ++ b)).
Proof. rewrite !maxl_app. cbn [maxl]. lia. Qed.

Lemma Forall_mid {A} (P : A -> Prop) a x b : Forall P (a ++ x :: b) <-> P x /\ Forall P (a ++ b).
Proof. rewrite !Forall_app, Forall_cons_iff. tauto. Qed.

Lemma pairwise_mid a x b : pairwise (a ++ x :: b) <-> Forall (okpair x) (a ++ b) /\ pairwise (a ++ b).
Proof.
  induction a as [|y a IH]; cbn [app pairwise]; [reflexivity|]. rewrite IH, Forall_mid, Forall_cons_iff.
  pose proof (okpair_sym x y). pose proof (okpair_sym y x). tauto.
Qed.

Lemma maxl_bounds ls : Forall level_ok ls -> level_ok (maxl ls).
Proof. unfold level_ok. induction 1; cbn [maxl]; lia. Qed.
Lemma cnt_nonneg ls : 0 <= cnt ls.
Proof. induction ls; cbn [cnt]; unfold locked; [lia|]. case (Z.ltb_spec 0 a); lia. Qed.
Lemma maxl_in ls x : In x ls -> x <= maxl ls.
Proof. induction ls as [|y ls IH]; cbn [In maxl]; [tauto|]. intros [->|H]; [lia|]. specialize (IH H). lia. Qed.
Lemma maxl_attained ls : 0 < maxl ls -> In (maxl ls) ls.
Proof.
  induction ls as [|y ls IH]; cbn [In maxl]; [lia|]. intros H. destruct (Z.max_spec y (maxl ls)) as [[Hl ->]|[Hl ->]]; [|auto].
  right. apply IH. lia.
Qed.
Lemma cnt_zero ls : Forall level_ok ls -> cnt ls = 0 <-> maxl ls = 0.
Proof.
  unfold level_ok. induction 1 as [|y ls Hy _ IH]; cbn [cnt maxl]; [split; reflexivity|]. pose proof (cnt_nonneg ls) as Hc. pose proof (maxl_nonneg ls) as Hm.
  unfold locked. case (Z.ltb_spec 0 y); lia.
Qed.

(** The counters as the handle of level [lv] sees them, with [n] other locked
    handles whose highest level is [o]. *)
Record Link (i : unixInodeInfo) (lv o n : Z) : Prop := {
  lk_shared : nShared i = locked lv + n;
  lk_lock : nLock i = nShared i;
  lk_max : iFileLock i = Z.max lv o;
  lk_high : 1 < lv -> o <= 1;
  lk_excl : lv = 4 -> n = 0;
  lk_others : o = 4 -> lv = 0;
  lk_none : n = 0 <-> o = 0;
  lk_lv : level_ok lv;
  lk_o : level_ok o;
  lk_n : 0 <= n }.

(** The counters describe a list of levels. *)
Record Counts (i : unixInodeInfo) (ls : list Z) : Prop := {
  ct_shared : nShared i = cnt ls;
  ct_lock : nLock i = nShared i;
  ct_max : iFileLock i = maxl ls;
  ct_pairs : pairwise ls;
  ct_levels : Forall level_ok ls }.

Lemma counts_link i a x b : Counts i (a ++ x :: b) -> Link i x (maxl (a ++ b)) (cnt (a ++ b)).
Proof.
  intros [Hs Hl Hm Hp Hv]. rewrite cnt_mid in Hs. rewrite maxl_mid in Hm. apply pairwise_mid in Hp as [Hx Hp].
  apply Forall_mid in Hv as [Hxv Hv]. pose proof (maxl_bounds _ Hv) as Hb.
  assert (Hat : 0 < maxl (a ++ b) -> okpair x (maxl (a ++ b))).
  { intros H. rewrite Forall_forall in Hx. now apply Hx, maxl_attained. }
  unfold okpair in Hat. unfold level_ok in Hb, Hxv. constructor; try (assumption || lia); try (now apply cnt_zero || apply cnt_nonneg).
  intros ->. apply cnt_zero; [exact Hv|]. lia.
Qed.

Lemma link_counts i a x b : Forall level_ok (a ++ b) -> pairwise (a ++ b) ->
  Link i x (maxl (a ++ b)) (cnt (a ++ b)) -> Counts i (a ++ x :: b).
Proof.
  intros Hv Hp [Hs Hl Hm Hh He Ho Hn Hx _ _]. constructor.
  - now rewrite cnt_mid.
  - exact Hl.
  - now rewrite maxl_mid.
  - apply pairwise_mid. split; [|exact Hp]. apply Forall_forall. intros y Hy. pose proof (maxl_in _ _ Hy) as Hle.
    pose proof (maxl_bounds _ Hv) as Hb. rewrite Forall_forall in Hv. specialize (Hv y Hy).
    unfold okpair, level_ok in *. lia.
  - apply Forall_mid. split; assumption.
Qed.

(** ** What the locks of a process support *)

Definition view : Type := Z -> ltype.
Definition in_shared (b : Z) : Prop := SHARED_FIRST <= b < SHARED_FIRST + SHARED_SIZE.

(** The record locks a process has when its highest level is [m]. *)
Record support (m : Z) (v : view) : Prop := {
  sp_shared : 1 <= m -> forall b, in_shared b -> v b <> F_UNLCK;
  sp_reserved : m = 2 \/ m = 3 -> v RESERVED_BYTE = F_WRLCK;
  sp_pending : m = 3 -> v PENDING_BYTE = F_WRLCK;
  sp_excl : m = 4 -> forall b, in_shared b -> v b = F_WRLCK }.

(** A view after a lock was set. *)
Definition locked_by (l : flock) (v v' : view) : Prop := forall b, v' b = if covers l b then l_type l else v b.
Definition same_view (v v' : view) : Prop := forall b, v' b = v b.

Lemma covers_spec l b : covers l b = true <-> l_start l <= b /\ (l_len l = 0 \/ b < l_start l + l_len l).
Proof. unfold covers. rewrite andb_true_iff, orb_true_iff, Z.leb_le, Z.eqb_eq, Z.ltb_lt. reflexivity. Qed.

Lemma locked_in l v v' b : locked_by l v v' -> l_start l <= b -> l_len l = 0 \/ b < l_start l + l_len l -> v' b = l_type l.
Proof. intros H H1 H2. rewrite H. now replace (covers l b) with true by (symmetry; apply covers_spec; split; assumption). Qed.

Lemma locked_out l v v' b : locked_by l v v' -> b < l_start l \/ l_len l <> 0 /\ l_start l + l_len l <= b -> v' b = v b.
Proof.
  intros H H1. rewrite H. replace (covers l b) with false; [reflexivity|]. symmetry. apply not_true_is_false.
  rewrite covers_spec. lia.
Qed.

Lemma support_ext m v v' : same_view v v' -> support m v -> support m v'.
Proof. intros H [H1 H2 H3 H4]. constructor; intros; rewrite H; auto. Qed.

Lemma support_none v : support 0 v.
Proof. constructor; lia. Qed.

Lemma support_down m v : 1 <= m <= 4 -> support m v -> support 1 v.
Proof. intros Hm [H1 H2 H3 H4]. constructor; intros; try lia. apply H1; [lia|assumption]. Qed.

Ltac lock_consts := unfold NO_LOCK, SHARED_LOCK, RESERVED_LOCK, PENDING_LOCK, EXCLUSIVE_LOCK in *.
Ltac byte_consts := unfold in_shared, SHARED_FIRST, RESERVED_BYTE, SHARED_SIZE, PENDING_BYTE in *; cbn [l_start l_len l_type lock_of] in *.
Ltac outside Hv := rewrite (locked_out _ _ _ _ Hv) by (byte_consts; lia).
Ltac inside Hv := rewrite (locked_in _ _ _ _ Hv) by (byte_consts; lia); cbn [l_type lock_of].

(** Locking the pending byte, or unlocking it, keeps the levels below PENDING. *)
Lemma support_pending m t v v' : m <= 2 -> locked_by (lock_of t PENDING_BYTE 1) v v' -> support m v -> support m v'.
Proof.
  intros Hm Hv [H1 H2 H3 H4]. constructor; intros; try lia; outside Hv; auto.
Qed.

Lemma support_pending_write v v' : locked_by (lock_of F_WRLCK PENDING_BYTE 1) v v' -> support 2 v -> support 3 v'.
Proof.
  intros Hv [H1 H2 H3 H4]. constructor; intros; try lia.
  - outside Hv. apply H1; [lia|assumption].
  - outside Hv. apply H2. lia.
  - inside Hv. reflexivity.
Qed.

Lemma support_reserve v v' : locked_by (lock_of F_WRLCK RESERVED_BYTE 1) v v' -> support 1 v -> support 2 v'.
Proof.
  intros Hv [H1 H2 H3 H4]. constructor; intros; try lia.
  - outside Hv. apply H1; [lia|assumption].
  - inside Hv. reflexivity.
Qed.

Lemma support_read t m v v' : m <= 1 -> t <> F_UNLCK -> locked_by (lock_of t SHARED_FIRST SHARED_SIZE) v v' -> support m v'.
Proof. intros Hm Ht Hv. constructor; intros; try lia. byte_consts. inside Hv. exact Ht. Qed.

Lemma support_write v v' : locked_by (lock_of F_WRLCK SHARED_FIRST SHARED_SIZE) v v' -> support 4 v'.
Proof. intros Hv. constructor; intros; try lia; byte_consts; inside Hv; congruence. Qed.

Lemma support_unlock2 m v v' : m <= 1 -> locked_by (lock_of F_UNLCK PENDING_BYTE 2) v v' -> support m v -> support m v'.
Proof. intros Hm Hv [H1 H2 H3 H4]. constructor; intros; try lia; outside Hv; auto. Qed.

Create HintDb locks.
#[export] Hint Resolve support_none support_pending support_pending_write support_reserve support_read support_write
  support_unlock2 : locks.

(** ** Programs that keep what other handles rely on *)

(** [safe R Q m v]: whatever the system answers to process with view [v], [R]
    holds at every call and [Q] at the end.  Unlocking does not fail. *)
Fixpoint safe {A} (R : view -> Prop) (Q : A -> view -> Prop) (m : prog A) (v : view) : Prop :=
  R v /\
  match m with
  | Ret a => Q a v
  | Setlk _ l k =>
    (forall v', locked_by l v v' -> safe R Q (k 0) v') /\
    (l_type l <> F_UNLCK -> forall e v', e <> 0 -> same_view v v' -> safe R Q (k e) v')
  | Getlk _ l k => forall e t, safe R Q (k e t) v
  | Close _ k => forall v', (forall b, v' b = F_UNLCK) -> safe R Q k v'
  end.

Lemma safe_now {A} R Q (m : prog A) v : safe R Q m v -> R v.
Proof. destruct m; cbn [safe]; tauto. Qed.

Lemma safe_ext {A} R Q (m : prog A) :
  (forall u u', same_view u u' -> R u -> R u') -> (forall a u u', same_view u u' -> Q a u -> Q a u') ->
  forall v v', same_view v v' -> safe R Q m v -> safe R Q m v'.
Proof.
  intros HR HQ. induction m as [a|d l k IH|d l k IH|d k IH]; intros v v' Hv [Hr H]; cbn [safe]; (split; [now apply (HR v)|]).
  - now apply (HQ a v).
  - destruct H as [H1 H2]. split.
    + intros u Hu. apply H1. intros b. rewrite Hu, Hv. reflexivity.
    + intros Ht e u He Hu. apply H2; [assumption..|]. intros b. now rewrite Hu, Hv.
  - intros e t. exact (IH e t v v' Hv (H e t)).
  - exact H.
Qed.

Lemma safe_bind {A B} R (Q : B -> view -> Prop) (m : prog A) (f : A -> prog B) v :
  safe R (fun a => safe R Q (f a)) m v -> safe R Q (bind m f) v.
Proof.
  revert v. induction m as [a|d l k IH|d l k IH|d k IH]; intros v; cbn [safe bind].
  - intros [_ H]. exact H.
  - intros [Hr [H1 H2]]. split; [exact Hr|]. split; eauto.
  - intros [Hr H]. eauto.
  - intros [Hr H]. eauto.
Qed.

Lemma safe_weaken {A} R (Q Q' : A -> view -> Prop) m v :
  (forall a u, R u -> Q a u -> Q' a u) -> safe R Q m v -> safe R Q' m v.
Proof.
  intros HQ. revert v. induction m as [a|d l k IH|d l k IH|d k IH]; intros v; cbn [safe].
  - intros [Hr H]. auto.
  - intros [Hr [H1 H2]]. split; [exact Hr|]. split; eauto.
  - intros [Hr H]. eauto.
  - intros [Hr H]. eauto.
Qed.

(** ** The operations keep the counters and the locks in step *)

Definition plain (f : unixFile) : Prop := Z.land (ctrlFlags f) UNIXFILE_EXCL = 0.

Lemma unixFileLock_plain i f l : plain f -> unixFileLock i f l = Setlk (h f) l (fun e => Ret (i, e)).
Proof.
  unfold plain, unixFileLock. intros H. case Z.eqb_spec; [|reflexivity]. intros E. exfalso.
  assert (E' : Z.land (Z.land (ctrlFlags f) (Z.lor UNIXFILE_EXCL UNIXFILE_RDONLY)) UNIXFILE_EXCL = 1) by now rewrite E.
  rewrite <- Z.land_assoc in E'. change (Z.land (Z.lor UNIXFILE_EXCL UNIXFILE_RDONLY) UNIXFILE_EXCL) with UNIXFILE_EXCL in E'.
  congruence.
Qed.

(** What an operation on a handle leaves, with [n] other locked handles of
    highest level [o]. *)
Definition Post (o n : Z) (r : result) (v : view) : Prop :=
  let '(i, f, _, _) := r in Link i (eFileLock f) o n /\ support (iFileLock i) v /\ plain f.

Lemma error_nonzero e : sqliteErrorFromPosixError e SQLITE_IOERR_LOCK <> 0.
Proof. unfold sqliteErrorFromPosixError. destruct existsb; [discriminate|]. destruct (e =? 1); discriminate. Qed.

Lemma safe_ret {A} (R : view -> Prop) (Q : A -> view -> Prop) a v : R v -> Q a v -> safe R Q (Ret a) v.
Proof. cbn [safe]. tauto. Qed.

Lemma safe_filelock {A} R Q i f l (k : unixInodeInfo * Z -> prog A) v : plain f -> R v ->
  (forall v', locked_by l v v' -> safe R Q (k (i, 0)) v') ->
  (l_type l <> F_UNLCK -> forall e v', e <> 0 -> same_view v v' -> safe R Q (k (i, e)) v') ->
  safe R Q (bind (unixFileLock i f l) k) v.
Proof. intros Hf Hr H1 H2. rewrite unixFileLock_plain by exact Hf. cbn [bind safe]. auto. Qed.

(** What the highest level of all handles needs covers the others. *)
Lemma link_support i lv o n v : Link i lv o n -> support (iFileLock i) v -> support o v.
Proof.
  intros [Hs Hl Hm Hh He Ho Hn Hlv Hov Hnn] H. rewrite Hm in H. unfold level_ok in *.
  destruct (Z.leb_spec lv o); [now rewrite Z.max_r in H by lia|]. rewrite Z.max_l in H by lia.
  assert (o = 0 \/ o = 1) as [->| ->] by lia; [apply support_none|]. apply (support_down lv); [lia|exact H].
Qed.

Lemma link_level i lv lv' o n v : Link i lv o n -> 1 <= lv -> 1 <= lv' <= 4 -> o <= 1 -> (lv' = 4 -> n = 0) ->
  support lv' v -> Link (set_ilock lv' i) lv' o n /\ support (iFileLock (set_ilock lv' i)) v.
Proof.
  intros [Hs Hl Hm Hh He Ho Hn Hlv Hov Hnn] H1 H2 H3 H4 H5. split; [|exact H5]. unfold level_ok, locked in *.
  constructor; cbn [set_ilock nShared nLock iFileLock]; unfold level_ok, locked in *; try lia; try assumption.
  destruct (Z.ltb_spec 0 lv), (Z.ltb_spec 0 lv'); lia.
Qed.

Lemma lock_failed_safe i f e o n v v' : Link i (eFileLock f) o n -> support (iFileLock i) v -> plain f -> same_view v v' ->
  safe (support o) (Post o n) (lock_failed i f e) v'.
Proof.
  intros HL Hs Hp Hv. apply (support_ext _ _ _ Hv) in Hs. apply safe_ret; [now apply (link_support i (eFileLock f) o n)|].
  unfold Post. destruct (_ =? _); (split; [exact HL|split; assumption]).
Qed.

Lemma busy_safe i f o n rc v : Link i (eFileLock f) o n -> support (iFileLock i) v -> plain f ->
  safe (support o) (Post o n) (Ret (i, f, rc, false)) v.
Proof. intros HL Hs Hp. apply safe_ret; [now apply (link_support i (eFileLock f) o n)|]. split; [exact HL|split; assumption]. Qed.

(** The first SHARED lock of the process. *)
Lemma lock_shared_safe sharing i f o n v : Link i (eFileLock f) o n -> iFileLock i = 0 -> eFileLock f = 0 -> plain f ->
  safe (support o) (Post o n) (unixLock_os sharing i f SHARED_LOCK) v.
Proof.
  intros HL Hi Hf Hp. pose proof HL as [Hs Hl Hm Hh He Ho Hn Hlv Hov Hnn].
  rewrite Hf in *. unfold level_ok, locked in *. cbn [Z.ltb Z.compare] in Hs. assert (o = 0) as -> by lia. assert (n = 0) as -> by lia.
  unfold unixLock_os. cbn [Z.eqb Pos.eqb SHARED_LOCK]. apply safe_filelock; [exact Hp|apply support_none| |].
  - intros v1 Hv1. cbn [Z.eqb]. apply safe_filelock; [exact Hp|apply support_none| |now intros []].
    intros v2 Hv2. cbn. split; [apply support_none|]. split; [|split].
    + constructor; cbn; unfold level_ok, SHARED_LOCK; lia.
    + cbn [iFileLock set_ilock]. apply (support_pending 1 F_UNLCK v1); [lia|exact Hv2|].
      apply (support_read F_RDLCK 1 v); [lia|discriminate|exact Hv1].
    + exact Hp.
  - intros _ e v1 He1 Hv1. apply Z.eqb_neq in He1. rewrite He1. apply safe_filelock; [exact Hp|apply support_none| |now intros []].
    intros v2 Hv2. cbn [Z.eqb negb andb]. pose proof (error_nonzero e) as Hz. apply Z.eqb_neq in Hz.
    unfold SQLITE_OK. rewrite Hz. cbn [negb].
    apply safe_ret; [apply support_none|]. split; [|split].
    + destruct (_ =? SQLITE_BUSY); cbn [storeLastErrno eFileLock]; rewrite Hf; exact HL.
    + rewrite Hi. apply support_none.
    + destruct (_ =? SQLITE_BUSY); exact Hp.
Qed.

(** RESERVED, and EXCLUSIVE from SHARED or PENDING. *)
Lemma lock_write_safe sharing i f l o n v : Link i (eFileLock f) o n -> support (iFileLock i) v -> plain f ->
  iFileLock i = eFileLock f -> 1 <= eFileLock f -> o <= 1 ->
  (l = RESERVED_LOCK /\ eFileLock f = SHARED_LOCK) \/ l = EXCLUSIVE_LOCK ->
  safe (support o) (Post o n) (unixLock_os sharing i f l) v.
Proof.
  intros HL Hs Hp Hi H1 Ho Hl. pose proof (link_support _ _ _ _ _ HL Hs) as HR. unfold unixLock_os.
  replace (l =? SHARED_LOCK) with false by (symmetry; apply Z.eqb_neq; lock_consts; lia).
  destruct ((l =? EXCLUSIVE_LOCK) && (1 <? nShared i)) eqn:Eb; [now apply busy_safe|]. destruct sharing; [now apply busy_safe|].
  apply safe_filelock; [exact Hp|exact HR| |].
  - intros v' Hv. cbn [Z.eqb negb]. assert (Hnew : support l v').
    { destruct Hl as [[-> Hf]| ->]; cbn [Z.eqb Pos.eqb RESERVED_LOCK EXCLUSIVE_LOCK] in Hv.
      - apply (support_reserve v); [exact Hv|]. unfold SHARED_LOCK in Hf. now rewrite Hi, Hf in Hs.
      - apply (support_write v). exact Hv. }
    destruct (link_level i (eFileLock f) l o n v' HL) as [HL' HS']; try assumption; [lock_consts; lia| |].
    { intros ->. cbn [Z.eqb Pos.eqb EXCLUSIVE_LOCK andb] in Eb. apply Z.ltb_ge in Eb. rewrite (lk_shared _ _ _ _ HL) in Eb.
      pose proof (lk_n _ _ _ _ HL). unfold locked in Eb. destruct (Z.ltb_spec 0 (eFileLock f)); lia. }
    apply safe_ret; [exact (link_support _ _ _ _ _ HL' HS')|]. split; [exact HL'|split; [exact HS'|exact Hp]].
  - intros _ e v' He Hv. apply Z.eqb_neq in He. rewrite He. now apply (lock_failed_safe i f e o n v v').
Qed.

(** What the callers of [unixLock] guarantee when the level is to rise. *)
Definition may_lock (now l : Z) : Prop := (l = 1 \/ l = 2 \/ l = 4) /\ (now <> 0 \/ l = 1) /\ (l <> 2 \/ now = 1).

Lemma unixLock_safe sharing i f l o n v : Link i (eFileLock f) o n -> support (iFileLock i) v -> plain f ->
  l <= eFileLock f \/ may_lock (eFileLock f) l -> safe (support o) (Post o n) (unixLock sharing i f l) v.
Proof.
  intros HL Hs Hp Hm. pose proof HL as [Hsh Hlo Hmx Hh He Ho Hn Hlv Hov Hnn]. pose proof (link_support _ _ _ _ _ HL Hs) as HR.
  unfold unixLock. case Z.leb_spec; intros Hle; [now apply busy_safe|]. destruct Hm as [Hm|Hm]; [lia|]. unfold may_lock, level_ok in *.
  destruct (negb _ && _) eqn:Eb; [now apply busy_safe|].
  rewrite andb_false_iff, negb_false_iff, orb_false_iff, Z.eqb_eq, Z.leb_gt, Z.ltb_ge in Eb. lock_consts.
  destruct ((l =? 1) && _) eqn:Ej.
  { rewrite andb_true_iff, orb_true_iff, !Z.eqb_eq in Ej. apply safe_ret; [exact HR|]. split; [|split; [exact Hs|exact Hp]].
    constructor; cbn [set_counts set_level nShared nLock iFileLock eFileLock]; unfold level_ok, locked in *; try lia.
    change (0 <? 1) with true. destruct (Z.ltb_spec 0 (eFileLock f)); lia. }
  rewrite andb_false_iff, orb_false_iff, !Z.eqb_neq in Ej. destruct (_ || _) eqn:Ep.
  - rewrite orb_true_iff, andb_true_iff, !Z.eqb_eq in Ep. apply safe_filelock; [exact Hp|exact HR| |].
    + intros v' Hv. cbn [Z.eqb negb]. destruct (Z.eqb_spec l 4) as [->|Hl4].
      * assert (Hf : eFileLock f = 2) by lia. assert (Hi : iFileLock i = 2) by lia. rewrite Hi in Hs.
        assert (HS3 : support 3 v') by (apply (support_pending_write v); assumption).
        destruct (link_level i (eFileLock f) 3 o n v' HL) as [HL' HS']; try assumption; try lia.
        apply lock_write_safe; try assumption; cbn [set_ilock set_level iFileLock eFileLock]; lock_consts; lia.
      * assert (l = 1) as -> by lia. apply lock_shared_safe; try assumption; lia.
    + intros _ e v' He' Hv. apply Z.eqb_neq in He'. rewrite He'. now apply (lock_failed_safe i f e o n v v').
  - rewrite orb_false_iff, andb_false_iff, !Z.eqb_neq in Ep. apply lock_write_safe; try assumption; lock_consts; lia.
Qed.

Lemma close_all_safe {A} (Q : A -> view -> Prop) ds k v : (forall u, safe (support 0) Q k u) -> safe (support 0) Q (close_all ds k) v.
Proof.
  intros H. revert v. induction ds as [|d ds IH]; intros v; cbn [close_all safe]; [apply H|].
  split; [apply support_none|]. intros v' _. apply IH.
Qed.

(** After giving up its lock a handle has none. *)
Definition Unlock_post (o n l : Z) (r : result) (v : view) : Prop :=
  Post o n r v /\ (l = 0 -> eFileLock (snd (fst (fst r))) = 0).

Lemma unlock_done i f o n l rc v : (rc =? SQLITE_OK) = true -> Link i l o n -> support (iFileLock i) v -> plain f ->
  safe (support o) (Unlock_post o n l) (end_unlock i f l rc) v.
Proof.
  intros Hrc HL Hs Hp. unfold end_unlock. rewrite Hrc. apply safe_ret; [exact (link_support _ _ _ _ _ HL Hs)|].
  split; [|intros E; exact E]. split; [exact HL|split; assumption].
Qed.

Lemma posixUnlock_shared_safe i f o n v : Link i 1 o n -> support (iFileLock i) v -> plain f ->
  safe (support o) (Unlock_post o n 0) (posixUnlock_shared i f 0) v.
Proof.
  intros HL Hs Hp. pose proof (link_support _ _ _ _ _ HL Hs) as HR. destruct HL as [Hsh Hlo Hmx Hh He Ho Hn Hlv Hov Hnn].
  unfold level_ok, locked in *. cbn [Z.ltb Z.compare] in Hsh.
  unfold posixUnlock_shared. cbn [nShared set_counts]. apply safe_bind. case Z.eqb_spec; intros Ez.
  - assert (n = 0) as -> by lia. assert (o = 0) as -> by lia. apply safe_filelock; [exact Hp|exact HR| |now intros []].
    intros v1 Hv1. cbn [Z.eqb]. apply safe_ret; [apply support_none|]. cbn [nShared nLock set_counts set_ilock].
    apply safe_bind. replace (nLock i - 1 =? 0) with true by (symmetry; apply Z.eqb_eq; lia).
    apply close_all_safe. intros u. apply safe_ret; [apply support_none|].
    apply unlock_done; [reflexivity| |apply support_none|exact Hp].
    constructor; cbn [nShared nLock iFileLock set_counts set_ilock set_unused]; unfold level_ok, locked, NO_LOCK; cbn; lia.
  - apply safe_ret; [exact HR|]. cbn [nShared nLock set_counts]. apply safe_bind.
    replace (nLock i - 1 =? 0) with false by (symmetry; apply Z.eqb_neq; lia). apply safe_ret; [exact HR|].
    apply unlock_done; [reflexivity| |exact Hs|exact Hp].
    constructor; cbn [nShared nLock iFileLock set_counts]; unfold level_ok, locked; cbn; lia.
Qed.

(** From a level above SHARED: SHARED remains, or an error of the downgrade. *)
Definition High_post (f : unixFile) (o n l : Z) (r : unixInodeInfo * unixFile * option Z) (v : view) : Prop :=
  let '(i, g, err) := r in
  match err with
  | None => g = f /\ Link i 1 o n /\ support (iFileLock i) v
  | Some rc => l = 1 /\ (rc =? SQLITE_OK) = false /\ Post o n (i, g, rc, false) v
  end.

Lemma unlock2_safe i f o n l v : Link i (eFileLock f) o n -> plain f -> 1 < eFileLock f -> support 1 v ->
  safe (support o) (High_post f o n l) (do (i, e2) <- unixFileLock i f (lock_of F_UNLCK PENDING_BYTE 2);
    if e2 =? 0 then Ret (set_ilock SHARED_LOCK i, f, None) else Ret (i, storeLastErrno e2 f, Some SQLITE_IOERR_UNLOCK)) v.
Proof.
  intros HL Hp Hf Hs. pose proof (lk_high _ _ _ _ HL Hf) as Ho. pose proof (lk_o _ _ _ _ HL) as Hov. unfold level_ok in Hov.
  assert (o = 0 \/ o = 1) as Ho' by lia. apply safe_filelock; [exact Hp| | |now intros []].
  { destruct Ho' as [->| ->]; [apply support_none|exact Hs]. }
  intros v' Hv. cbn [Z.eqb]. apply (support_unlock2 1 v v') in Hs; [|lia|exact Hv].
  destruct (link_level i (eFileLock f) 1 o n v' HL) as [HL' HS']; try assumption; try lia.
  apply safe_ret; [exact (link_support _ _ _ _ _ HL' HS')|]. now split.
Qed.

Lemma posixUnlock_high_safe i f l o n v : Link i (eFileLock f) o n -> support (iFileLock i) v -> plain f -> l = 0 \/ l = 1 ->
  1 < eFileLock f -> safe (support o) (High_post f o n l) (posixUnlock_high i f l) v.
Proof.
  intros HL Hs Hp Hl Hf. pose proof (link_support _ _ _ _ _ HL Hs) as HR. unfold posixUnlock_high.
  assert (Hlow : support 1 v).
  { pose proof (lk_max _ _ _ _ HL). pose proof (lk_lv _ _ _ _ HL). pose proof (lk_o _ _ _ _ HL). unfold level_ok in *.
    apply (support_down (iFileLock i)); [lia|exact Hs]. }
  destruct Hl as [->| ->]; unfold SHARED_LOCK at 1; cbn [Z.eqb Pos.eqb bind negb].
  - now apply unlock2_safe.
  - apply safe_filelock; [exact Hp|exact HR| |].
    + intros v' Hv. cbn [Z.eqb negb]. apply unlock2_safe; try assumption.
      apply (support_read F_RDLCK 1 v); [lia|discriminate|exact Hv].
    + intros _ e v' He Hv. apply Z.eqb_neq in He. rewrite He. cbn [negb]. apply (support_ext _ _ _ Hv) in Hs, HR.
      apply safe_ret; [exact HR|]. split; [reflexivity|split; [reflexivity|]]. split; [exact HL|split; assumption].
Qed.

Lemma posixUnlock_safe i f l o n v : Link i (eFileLock f) o n -> support (iFileLock i) v -> plain f -> l = 0 \/ l = 1 ->
  safe (support o) (Unlock_post o n l) (posixUnlock i f l) v.
Proof.
  intros HL Hs Hp Hl. pose proof (link_support _ _ _ _ _ HL Hs) as HR. unfold posixUnlock. case Z.leb_spec; intros Hle.
  { apply safe_ret; [exact HR|]. split; [split; [exact HL|split; assumption]|]. pose proof (lk_lv _ _ _ _ HL). unfold level_ok in *. cbn. lia. }
  assert (Hend : forall i g u, Link i 1 o n -> support (iFileLock i) u -> plain g -> safe (support o) (Unlock_post o n l)
      (if l =? NO_LOCK then posixUnlock_shared i g l else end_unlock i g l SQLITE_OK) u).
  { intros j g u Hj Hju Hg. destruct Hl as [->| ->]; [now apply posixUnlock_shared_safe|now apply unlock_done]. }
  apply safe_bind. case Z.ltb_spec; intros Hhigh; unfold SHARED_LOCK in Hhigh.
  - eapply safe_weaken; [|apply posixUnlock_high_safe; eassumption]. intros [[j g] [rc|]] u Hu; cbn [High_post].
    + intros (-> & Hrc & Hpost). unfold end_unlock. rewrite Hrc. apply safe_ret; [exact Hu|]. split; [exact Hpost|lia].
    + intros (-> & Hj & Hju). now apply Hend.
  - apply safe_ret; [exact HR|]. apply Hend; try assumption. now replace (eFileLock f) with 1 in HL by lia.
Qed.

Lemma unixCheckReservedLock_safe i f o n v : Link i (eFileLock f) o n -> support (iFileLock i) v -> plain f ->
  safe (support o) (Post o n) (unixCheckReservedLock i f) v.
Proof.
  intros HL Hs Hp. pose proof (link_support _ _ _ _ _ HL Hs) as HR. unfold unixCheckReservedLock.
  destruct (_ && _); [|apply safe_ret; [exact HR|split; [exact HL|split; assumption]]].
  cbn [safe]. split; [exact HR|]. intros e t. destruct (negb _); (apply safe_ret; [exact HR|]); (split; [exact HL|split; assumption]).
Qed.

(** ** Lists of handles *)

Definition level (e : Z * handle) : Z := eFileLock (file (snd e)).
Definition levels (fs : list (Z * handle)) : list Z := map level fs.

Lemma lookup_split {A} x (fs : list (Z * A)) a : lookup x fs = Some a ->
  exists l r, fs = l ++ (x, a) :: r /\ remove x fs = l ++ r /\ forall b, update x b fs = l ++ (x, b) :: r.
Proof.
  induction fs as [|[y b] fs IH]; cbn [lookup remove update]; [discriminate|]. case Z.eqb_spec.
  - intros -> [= ->]. now exists [], fs.
  - intros _ E. destruct (IH E) as (l & r & -> & -> & Hu). exists ((y, b) :: l), r. repeat split. intros c. cbn [app]. now rewrite Hu.
Qed.

Lemma lookup_update {A} x y (a : A) fs : lookup x (update y a fs) =
  if x =? y then match lookup y fs with Some _ => Some a | None => None end else lookup x fs.
Proof.
  induction fs as [|[z b] fs IH]; cbn [lookup update]; [now case (x =? y)|].
  destruct (Z.eqb_spec y z) as [->|Hyz]; cbn [lookup]; [now case (x =? z)|]. rewrite IH.
  destruct (Z.eqb_spec x y), (Z.eqb_spec x z); congruence.
Qed.

Lemma lookup_remove {A} x y (fs : list (Z * A)) : x <> y -> lookup x (remove y fs) = lookup x fs.
Proof.
  intros H. induction fs as [|[z b] fs IH]; cbn [lookup remove]; [reflexivity|].
  destruct (Z.eqb_spec y z) as [->|Hyz]; cbn [lookup]; [now destruct (Z.eqb_spec x z)|]. now rewrite IH.
Qed.

Lemma remove_comm {A} x y (fs : list (Z * A)) : x <> y -> remove x (remove y fs) = remove y (remove x fs).
Proof.
  intros H. induction fs as [|[z b] fs IH]; cbn [remove]; [reflexivity|].
  destruct (Z.eqb_spec y z) as [->|Hy], (Z.eqb_spec x z) as [->|Hx]; cbn [remove]; try congruence.
  - now rewrite Z.eqb_refl.
  - now rewrite Z.eqb_refl.
  - destruct (Z.eqb_spec x z), (Z.eqb_spec y z); congruence.
Qed.

Lemma remove_update {A} x y (a : A) fs : x <> y -> remove x (update y a fs) = update y a (remove x fs).
Proof.
  intros H. induction fs as [|[z b] fs IH]; cbn [remove update]; [reflexivity|].
  destruct (Z.eqb_spec y z) as [->|Hy], (Z.eqb_spec x z) as [->|Hx]; cbn [remove update]; try congruence.
  - destruct (Z.eqb_spec x z); [congruence|]. now rewrite Z.eqb_refl.
  - now rewrite Z.eqb_refl.
  - destruct (Z.eqb_spec x z), (Z.eqb_spec y z); congruence.
Qed.

Lemma levels_update y hd fs old : lookup y fs = Some old -> eFileLock (file hd) = eFileLock (file old) ->
  levels (update y hd fs) = levels fs.
Proof.
  intros E Hl. destruct (lookup_split _ _ _ E) as (l & r & -> & _ & ->). unfold levels. rewrite !map_app. cbn [map]. unfold level at 2 5.
  cbn [snd]. now rewrite Hl.
Qed.

Lemma Forall_update {A} (P : Z * A -> Prop) x a fs old : lookup x fs = Some old -> P (x, a) -> Forall P fs -> Forall P (update x a fs).
Proof. intros E Ha H. destruct (lookup_split _ _ _ E) as (l & r & -> & _ & ->). apply Forall_mid in H. apply Forall_mid. tauto. Qed.
Lemma Forall_remove {A} (P : Z * A -> Prop) x fs old : lookup x fs = Some old -> Forall P fs -> P (x, old) /\ Forall P (remove x fs).
Proof. intros E H. destruct (lookup_split _ _ _ E) as (l & r & -> & -> & _). now apply Forall_mid in H. Qed.

(** The handles that count in [nRef]. *)
Definition referring (hd : handle) : Z := match ph hd with Opening => 0 | _ => 1 end.
Fixpoint refs (fs : list (Z * handle)) : Z := match fs with [] => 0 | (_, hd) :: fs => referring hd + refs fs end.

Lemma refs_mid l x hd r : refs (l ++ (x, hd) :: r) = referring hd + refs (l ++ r).
Proof. induction l as [|[y b] l IH]; cbn [app refs]; [reflexivity|]. rewrite IH. lia. Qed.
Lemma refs_remove x fs old : lookup x fs = Some old -> refs fs = referring old + refs (remove x fs).
Proof. intros E. destruct (lookup_split _ _ _ E) as (l & r & -> & -> & _). apply refs_mid. Qed.
Lemma refs_update x hd fs old : lookup x fs = Some old -> refs (update x hd fs) = referring hd - referring old + refs fs.
Proof. intros E. destruct (lookup_split _ _ _ E) as (l & r & -> & _ & ->). rewrite !refs_mid. lia. Qed.
Lemma refs_nonneg fs : 0 <= refs fs.
Proof. induction fs as [|[x hd] fs IH]; cbn [refs]; [lia|]. unfold referring. destruct (ph hd); lia. Qed.

(** Levels [ls] with maximum [o], [n] of them locked. *)
Definition Others (ls : list Z) (o n : Z) : Prop := Forall level_ok ls /\ pairwise ls /\ maxl ls = o /\ cnt ls = n.

Lemma others_drop y fs hd o n : lookup y fs = Some hd -> eFileLock (file hd) = 0 ->
  Others (levels fs) o n -> Others (levels (remove y fs)) o n.
Proof.
  intros E H0. destruct (lookup_split _ _ _ E) as (l & r & -> & -> & _). unfold levels. rewrite !map_app. cbn [map].
  unfold level at 2. cbn [snd]. rewrite H0. intros (Hl & Hp & Hm & Hc). apply Forall_mid in Hl as [_ Hl]. apply pairwise_mid in Hp as [_ Hp].
  rewrite maxl_mid in Hm. rewrite cnt_mid in Hc. cbn in Hc. repeat split; try assumption.
  pose proof (maxl_nonneg (map level l ++ map level r)). lia.
Qed.

Lemma counts_others i ls : Counts i ls <-> nLock i = nShared i /\ Others ls (iFileLock i) (nShared i).
Proof. split; [intros [? ? ? ? ?]; repeat split; congruence|]. intros (H & Hl & Hp & Hm & Hc). now constructor. Qed.

(** ** The invariant of a process *)

Definition wf_handle (e : Z * handle) : Prop :=
  plain (file (snd e)) /\ (ph (snd e) <> Open -> eFileLock (file (snd e)) = 0).

(** The end of an operation; [unixClose] leaves the handle unlocked. *)
Definition OpPost (o : op) (m n : Z) (r : result) (v : view) : Prop :=
  Post m n r v /\ (o = OpClose -> eFileLock (snd (fst (fst r))) = 0).

Definition Doing (s : proc) (v : view) : Prop :=
  match busy s with
  | None => Counts (inode s) (levels (files s)) /\ support (iFileLock (inode s)) v
  | Some (x, o, m) => exists hd mx n, lookup x (files s) = Some hd /\ ph hd = Open /\
      Others (levels (remove x (files s))) mx n /\ safe (support mx) (OpPost o mx n) m v
  end.

Record ProcInv (s : proc) (v : view) : Prop := {
  pi_handles : Forall wf_handle (files s);
  pi_refs : nRef s = refs (files s);
  pi_doing : Doing s v }.

Lemma post_ext o mx n r u u' : same_view u u' -> OpPost o mx n r u -> OpPost o mx n r u'.
Proof.
  destruct r as [[[i f] rc] out]. intros Hv [(HL & Hs & Hp) Hc]. split; [|exact Hc]. split; [exact HL|].
  split; [exact (support_ext _ _ _ Hv Hs)|exact Hp].
Qed.

Lemma proc_ext s v v' : same_view v v' -> ProcInv s v -> ProcInv s v'.
Proof.
  intros Hv [H1 H2 H3]. constructor; try assumption. unfold Doing in *. destruct (busy s) as [[[x o] m]|].
  - destruct H3 as (hd & mx & n & E & Ho & HO & HS). exists hd, mx, n. repeat (split; [assumption|]).
    revert HS. apply safe_ext; [intros u u' Hu; apply (support_ext _ _ _ Hu)|intros r u u'; apply post_ext|exact Hv].
  - split; [apply H3|]. exact (support_ext _ _ _ Hv (proj2 H3)).
Qed.

(** The programs of all operations are safe. *)
Lemma start_safe o sharing i f mx n v : Link i (eFileLock f) mx n -> support (iFileLock i) v -> plain f ->
  match o with
  | OpLock l => l <= eFileLock f \/ may_lock (eFileLock f) l
  | OpUnlock l => l = 0 \/ l = 1
  | _ => True
  end -> safe (support mx) (OpPost o mx n) (start o sharing i f) v.
Proof.
  intros HL Hs Hp Hl. destruct o as [l|l| |]; cbn [start].
  - eapply safe_weaken; [|apply unixLock_safe; eassumption]. intros r u _ H. split; [exact H|discriminate].
  - eapply safe_weaken; [|apply posixUnlock_safe; eassumption]. intros r u _ [H _]. split; [exact H|discriminate].
  - eapply safe_weaken; [|apply posixUnlock_safe; [eassumption..|now left]]. intros r u _ [H H0]. split; [exact H|auto].
  - eapply safe_weaken; [|apply unixCheckReservedLock_safe; eassumption]. intros r u _ H. split; [exact H|discriminate].
Qed.

(** When an operation reaches a safe program the invariant holds, also when the
    program is at its end. *)
Lemma settle_inv s x o m v hd mx n : Forall wf_handle (files s) -> nRef s = refs (files s) ->
  lookup x (files s) = Some hd -> ph hd = Open -> Others (levels (remove x (files s))) mx n ->
  safe (support mx) (OpPost o mx n) m v -> ProcInv (settle s x o m) v.
Proof.
  intros Hw Hr E Ho HO HS. destruct m as [[[[i f] rc] out]|d l k|d l k|d k]; cbn [settle].
  2-4: constructor; cbn [set_busy files nRef]; try assumption; exists hd, mx, n; auto.
  destruct HS as [HR [(HL & Hs & Hp) Hc]]. cbn [snd fst] in Hc. set (hd' := {| file := f; ph := _; last_rc := rc; pResOut := out |}).
  constructor; cbn [set_busy set_inode set_files files nRef].
  - apply (Forall_update _ _ _ _ _ E); [|exact Hw]. split; [exact Hp|]. cbn. intros H. apply Hc. destruct o; congruence.
  - rewrite (refs_update _ _ _ _ E), Hr. unfold referring. rewrite Ho. destruct o; cbn; lia.
  - unfold Doing. cbn [busy set_busy set_inode set_files inode files]. split; [|exact Hs].
    destruct (lookup_split _ _ _ E) as (a & b & Efs & Er & Eu). rewrite Eu. rewrite Er in HO. destruct HO as (H1 & H2 & H3 & H4).
    unfold levels in *. rewrite map_app in *. cbn [map]. apply link_counts; try assumption. now rewrite H3, H4.
Qed.

(** A process with no operation in progress and handle [x]. *)
Lemma idle_link s v x hd : ProcInv s v -> busy s = None -> lookup x (files s) = Some hd ->
  exists mx n, Others (levels (remove x (files s))) mx n /\ Link (inode s) (eFileLock (file hd)) mx n /\ support (iFileLock (inode s)) v.
Proof.
  intros [Hw Hr Hd] Hb E. unfold Doing in Hd. rewrite Hb in Hd. destruct Hd as [Hc Hs].
  destruct (lookup_split _ _ _ E) as (a & b & Efs & -> & _). unfold levels in *. rewrite Efs, map_app in Hc. cbn [map] in Hc.
  rewrite map_app. eexists _, _. split; [|split; [exact (counts_link _ _ _ _ Hc)|exact Hs]].
  destruct Hc as [_ _ _ Hp Hl]. apply pairwise_mid in Hp as [_ Hp]. apply Forall_mid in Hl as [_ Hl]. now repeat split.
Qed.

(** Changes to a handle without a lock. *)
Lemma replace_inv s v y old hd n i : ProcInv s v -> lookup y (files s) = Some old -> ph old <> Open -> wf_handle (y, hd) ->
  eFileLock (file hd) = 0 -> n = referring hd - referring old + nRef s ->
  (inode s = i \/ busy s = None /\ nShared i = nShared (inode s) /\ nLock i = nLock (inode s) /\ iFileLock i = iFileLock (inode s)) ->
  ProcInv (set_ref n (set_inode i (set_files (update y hd (files s)) s))) v.
Proof.
  intros [Hw Hr Hd] E Hph Hwf H0 Hn Hi. rewrite Forall_forall in Hw.
  constructor; cbn [set_ref set_inode set_files files nRef].
  - apply (Forall_update _ _ _ _ _ E Hwf). now apply Forall_forall.
  - rewrite (refs_update _ _ _ _ E), Hn, Hr. reflexivity.
  - assert (Hold : eFileLock (file old) = 0).
    { apply (Hw (y, old)); [|exact Hph]. destruct (lookup_split _ _ _ E) as (a & b & -> & _). apply in_elt. }
    unfold Doing in *. cbn [busy set_ref set_inode set_files files inode]. destruct (busy s) as [[[x o] m]|].
    + destruct Hi as [<-|[Hi _]]; [|discriminate]. destruct Hd as (hx & mx & k & Ex & Hx & HO & HS).
      destruct (Z.eqb_spec x y) as [->|Hxy]; [congruence|]. exists hx, mx, k. rewrite lookup_update.
      apply Z.eqb_neq in Hxy as Hb. rewrite Hb, remove_update by exact Hxy. repeat (split; [assumption|]). split; [|exact HS].
      rewrite (levels_update _ _ _ old); [exact HO|now rewrite lookup_remove by congruence|congruence].
    + rewrite (levels_update _ _ _ old E) by congruence. destruct Hi as [<-|(_ & Hs & Hl & Hm)]; [exact Hd|].
      destruct Hd as [Hc Hsup]. apply counts_others in Hc as [Hc HO]. rewrite counts_others, Hm, Hs, Hl. now split.
Qed.

Lemma remove_inv s v y old n : ProcInv s v -> lookup y (files s) = Some old -> ph old <> Open ->
  n = nRef s - referring old -> ProcInv (set_ref n (set_files (remove y (files s)) s)) v.
Proof.
  intros [Hw Hr Hd] E Hph Hn. destruct (Forall_remove _ _ _ _ E Hw) as [[_ Hold] Hw']. specialize (Hold Hph). cbn [snd] in Hold.
  constructor; cbn [set_ref set_files files nRef].
  - exact Hw'.
  - rewrite (refs_remove _ _ _ E) in Hr. lia.
  - unfold Doing in *. cbn [busy set_ref set_files files inode]. destruct (busy s) as [[[x o] m]|].
    + destruct Hd as (hx & mx & k & Ex & Hx & HO & HS). destruct (Z.eqb_spec x y) as [->|Hxy]; [congruence|].
      exists hx, mx, k. rewrite lookup_remove, remove_comm by exact Hxy. repeat (split; [assumption|]). split; [|exact HS].
      apply (others_drop y _ old); [now rewrite lookup_remove by congruence|exact Hold|exact HO].
    + destruct Hd as [Hc Hsup]. split; [|exact Hsup]. apply counts_others in Hc as [Hc HO]. apply counts_others. split; [exact Hc|].
      now apply (others_drop y _ old).
Qed.

(** ** The invariant of all processes *)

Lemma unlocked_inv s v v' : ProcInv s v -> busy s = None -> nLock (inode s) = 0 -> ProcInv s v'.
Proof.
  intros [Hw Hr Hd] Hb Hn. constructor; try assumption. unfold Doing in *. rewrite Hb in *. destruct Hd as [Hc _]. split; [exact Hc|].
  destruct Hc as [H1 H2 H3 _ H5]. replace (iFileLock (inode s)) with 0; [apply support_none|].
  symmetry. rewrite H3. apply cnt_zero; [exact H5|]. congruence.
Qed.

Lemma unreferenced s v : ProcInv s v -> refs (files s) = 0 -> busy s = None /\ Counts inode0 (levels (files s)).
Proof.
  intros [Hw Hr Hd] H0.
  assert (Hz : forall x hd, lookup x (files s) = Some hd -> ph hd = Opening).
  { intros x hd E. rewrite (refs_remove _ _ _ E) in H0. pose proof (refs_nonneg (remove x (files s))). unfold referring in H0.
    destruct (ph hd); [reflexivity|lia..]. }
  assert (Hb : busy s = None).
  { unfold Doing in Hd. destruct (busy s) as [[[x o] m]|]; [|reflexivity]. destruct Hd as (hd & mx & n & E & Ho & _).
    rewrite (Hz _ _ E) in Ho. discriminate. }
  assert (Hl : Forall (fun l => l = 0) (levels (files s))).
  { clear Hd Hr Hz Hb. unfold levels. revert H0. induction Hw as [|[x hd] fs [_ Hf] _ IH]; cbn [refs map]; intros H0; [constructor|].
    pose proof (refs_nonneg fs). unfold referring in H0. constructor; [|apply IH; destruct (ph hd); lia].
    apply Hf. cbn [snd]. destruct (ph hd); [discriminate|lia..]. }
  split; [exact Hb|]. induction Hl as [|l ls -> _ IH]; [now constructor|]. apply (link_counts inode0 [] 0 ls); cbn [app]; try apply IH.
  destruct IH as [I1 I2 I3 _ I5]. rewrite <- I3, <- I1. constructor; cbn; unfold level_ok; lia.
Qed.

(** A process whose handles refer to no inode has no locks to lose. *)
Lemma unreferenced_inv s v v' : ProcInv s v -> refs (files s) = 0 -> ProcInv s v' /\ ProcInv (set_inode inode0 s) v'.
Proof.
  intros HP H0. destruct (unreferenced _ _ HP H0) as [Hb Hc]. split.
  - apply (unlocked_inv s v v' HP Hb). destruct HP as [_ _ Hd]. unfold Doing in Hd. rewrite Hb in Hd. destruct Hd as [[H1 H2 _ _ _] _].
    rewrite H2, H1. symmetry. apply Hc.
  - destruct HP as [Hw Hr _]. constructor; try assumption. unfold Doing. cbn [busy set_inode inode files]. rewrite Hb.
    split; [exact Hc|apply support_none].
Qed.

Section Exclusion.
Context {K : Type} {RL : RecordLocks K} {Laws : RecordLockLaws K}.
Implicit Types (k : K) (w : world K).

(** No two processes have conflicting locks on a byte. *)
Definition consistent (k : K) : Prop := forall p q b, p <> q -> conflict (held k p b) (held k q b) = false.

Definition others_kept (p : Z) (k k' : K) : Prop := forall q, q <> p -> same_view (held k q) (held k' q).
(** Process [p] has the locks it had, or fewer. *)
Definition drops (p : Z) (k k' : K) : Prop :=
  others_kept p k k' /\ forall b, held k' p b = held k p b \/ held k' p b = F_UNLCK.

Record Inv (w : world K) : Prop := {
  iv_kernel : consistent (kernel w);
  iv_procs : forall p, ProcInv (procs w p) (held (kernel w) p) }.

Lemma conflict_sym a b : conflict a b = conflict b a.
Proof. now destruct a, b. Qed.
Lemma conflict_unlocked a : conflict a F_UNLCK = false.
Proof. now destruct a. Qed.

Lemma drops_refl p k : drops p k k.
Proof. split; [intros q _ b; reflexivity|auto]. Qed.
Lemma drops_trans p k1 k2 k3 : drops p k1 k2 -> drops p k2 k3 -> drops p k1 k3.
Proof.
  intros [H1 H2] [H3 H4]. split; [intros q Hq b; now rewrite H3, H1|]. intros b.
  destruct (H4 b) as [->|H]; [apply H2|now right].
Qed.
Lemma drops_close p k : drops p k (os_close k p).
Proof. split; [intros q Hq b; now apply close_other|]. intros b. right. apply close_own. Qed.
Lemma drops_close_each n p k : drops p k (close_each n p k).
Proof.
  revert k. induction n as [|n IH]; intros k; cbn [close_each]; [apply drops_refl|].
  exact (drops_trans _ _ _ _ (drops_close p k) (IH _)).
Qed.

Lemma own_consistent p k k' : consistent k -> others_kept p k k' ->
  (forall q b, q <> p -> conflict (held k' p b) (held k q b) = false) -> consistent k'.
Proof.
  intros Hk Ho Hp a b c Hab. destruct (Z.eqb_spec a p) as [->|Ha].
  - rewrite (Ho b) by congruence. apply Hp. congruence.
  - rewrite (Ho a Ha). destruct (Z.eqb_spec b p) as [->|Hb]; [rewrite conflict_sym; now apply Hp|]. rewrite (Ho b Hb). now apply Hk.
Qed.

Lemma drops_consistent p k k' : consistent k -> drops p k k' -> consistent k'.
Proof.
  intros Hk [Ho Hp]. apply (own_consistent p k); try assumption. intros q b Hq. destruct (Hp b) as [->| ->]; [|reflexivity].
  apply Hk. congruence.
Qed.

Lemma setlk_consistent p k l env : consistent k -> consistent (fst (fcntl_setlk k p l env)).
Proof.
  intros Hk. assert (Ho : others_kept p k (fst (fcntl_setlk k p l env))) by (intros q Hq b; now apply setlk_other).
  destruct (fcntl_setlk k p l env) as [k' e] eqn:E. cbn [fst] in *. apply (own_consistent p k); try assumption. intros q b Hq.
  destruct (Z.eqb_spec e 0) as [->|He].
  - rewrite (setlk_ok _ _ _ _ _ b E). destruct (covers l b) eqn:Ec; [exact (setlk_granted _ _ _ _ _ _ _ E Hq Ec)|]. apply Hk. congruence.
  - rewrite (setlk_failed _ _ _ _ _ _ b E He). apply Hk. congruence.
Qed.

(** A step changes one process and its own locks. *)
Lemma inv_change w w' p s : Inv w -> consistent (kernel w') -> others_kept p (kernel w) (kernel w') ->
  (forall q, procs w' q = if q =? p then s else procs w q) -> ProcInv s (held (kernel w') p) -> Inv w'.
Proof.
  intros [Hk Hp] Hk' Ho Hs H. constructor; [exact Hk'|]. intros q. rewrite Hs. destruct (Z.eqb_spec q p) as [->|Hq]; [exact H|].
  apply (proc_ext _ (held (kernel w) q)); [now apply Ho|apply Hp].
Qed.

Lemma inv_memory w p s : Inv w -> ProcInv s (held (kernel w) p) -> Inv (set_proc p s w).
Proof. intros H Hs. apply (inv_change w _ p s); [exact H|apply H|intros q _ b; reflexivity|reflexivity|exact Hs]. Qed.

Lemma inv_drops w w' p s : Inv w -> drops p (kernel w) (kernel w') ->
  (forall q, procs w' q = if q =? p then s else procs w q) -> ProcInv s (held (kernel w') p) -> Inv w'.
Proof. intros H Hd. apply (inv_change w w' p s); [exact H|exact (drops_consistent _ _ _ (iv_kernel _ H) Hd)|apply Hd]. Qed.

Lemma sys_inv w p env : Inv w -> Inv (sys p env w).
Proof.
  intros HI. pose proof (iv_procs _ HI p) as [Hw Hr Hd]. unfold sys. unfold Doing in Hd.
  destruct (busy (procs w p)) as [[[x o] m]|]; [|exact HI]. destruct Hd as (hd & mx & n & E & Ho & HO & HS).
  destruct m as [r|d l m|d l m|d m]; [exact HI|..]; cbn [safe] in HS; destruct HS as [_ HS].
  - pose proof (setlk_consistent p (kernel w) l env (iv_kernel _ HI)) as Hk.
    assert (Hok : others_kept p (kernel w) (fst (fcntl_setlk (kernel w) p l env))) by (intros q Hq b; now apply setlk_other).
    destruct (fcntl_setlk (kernel w) p l env) as [k' e] eqn:Es. cbn [fst] in *.
    eapply (inv_change w _ p); [exact HI|exact Hk|exact Hok|reflexivity|].
    apply (settle_inv _ _ _ _ _ hd mx n); try assumption. cbn [kernel set_proc set_kernel]. destruct HS as [HS1 HS2].
    destruct (Z.eqb_spec e 0) as [->|He]; [apply HS1; intros b; exact (setlk_ok _ _ _ _ _ b Es)|].
    apply HS2; [|exact He|intros b; exact (setlk_failed _ _ _ _ _ _ b Es He)].
    intros Hu. pose proof (setlk_unlock (kernel w) p l env Hu) as H0. rewrite Es in H0. contradiction.
  - destruct (fcntl_getlk (kernel w) p l env) as [e t]. apply inv_memory; [exact HI|]. now apply (settle_inv _ _ _ _ _ hd mx n).
  - eapply (inv_drops w _ p); [exact HI|apply drops_close|reflexivity|]. apply (settle_inv _ _ _ _ _ hd mx n); try assumption.
    apply HS. intros b. apply close_own.
Qed.

Lemma open_inv w p x fl newfd : Inv w -> Inv (set_proc p (open_begin x fl newfd (procs w p)) w).
Proof.
  intros HI. apply inv_memory; [exact HI|]. pose proof (iv_procs _ HI p) as HP. unfold open_begin, is_busy.
  destruct (busy (procs w p)) eqn:Eb; [exact HP|]. destruct (lookup x (files (procs w p))); [exact HP|].
  unfold findReusableFd. destruct (take_unused _ _) as [r u]. destruct HP as [Hw Hr Hd].
  constructor; cbn [set_files set_inode files nRef].
  - constructor; [|exact Hw]. split; reflexivity.
  - exact Hr.
  - unfold Doing in *. cbn [busy set_files set_inode inode files]. rewrite Eb in *. destruct Hd as [Hc Hs]. split; [|exact Hs].
    destruct Hc as [H1 H2 H3 H4 H5]. cbn [levels map]. apply (link_counts _ [] _ (levels (files (procs w p)))); [exact H5|exact H4|].
    cbn [app]. rewrite <- H3, <- H1. pose proof (maxl_bounds _ H5) as Hb. pose proof (cnt_zero _ H5) as Hz. pose proof (cnt_nonneg (levels (files (procs w p)))).
    constructor; cbn [set_unused nShared nLock iFileLock level snd file eFileLock]; unfold level_ok, NO_LOCK, locked in *; cbn [Z.ltb Z.compare]; try lia.
Qed.

Lemma begin_inv w p x o sharing : Inv w -> legal w (EStart p x o sharing) = true -> Inv (step w (EStart p x o sharing)).
Proof.
  intros HI Hleg. pose proof (iv_procs _ HI p) as HP. cbn [step legal] in *. unfold is_busy.
  destruct (busy (procs w p)) eqn:Eb; [exact HI|]. destruct (lookup x (files (procs w p))) as [hd|] eqn:E; [|exact HI].
  destruct (idle_link _ _ _ _ HP Eb E) as (mx & n & HO & HL & Hs). destruct HP as [Hw Hr _].
  destruct (Forall_remove _ _ _ _ E Hw) as [[Hp _] _]. destruct hd as [f ph rc out] eqn:Ehd. cbn [file snd] in *.
  destruct ph eqn:Eph; try exact HI. apply inv_memory; [exact HI|].
  apply (settle_inv _ _ _ _ _ hd mx n); try assumption; [congruence|now rewrite Ehd|].
  apply start_safe; try assumption. destruct o as [l|l| |]; try exact I; lock_consts; unfold may_lock.
  - rewrite orb_true_iff, !andb_true_iff, !orb_true_iff, !negb_true_iff, !Z.eqb_eq, !Z.eqb_neq, Z.leb_le in Hleg. tauto.
  - now rewrite orb_true_iff, !Z.eqb_eq in Hleg.
Qed.

Lemma fill_inv w p x ctrl fs ms : Inv w -> legal w (EFill p x ctrl fs ms) = true -> Inv (fill p x ctrl fs ms w).
Proof.
  intros HI Hleg. pose proof (iv_procs _ HI p) as HP. cbn [legal] in Hleg. apply andb_true_iff in Hleg as [-> Hc]. apply Z.eqb_eq in Hc.
  unfold fill, findInodeInfo. destruct (lookup x (files (procs w p))) as [hd|] eqn:E; [|exact HI].
  pose proof (pi_handles _ _ HP) as Hw. destruct (Forall_remove _ _ _ _ E Hw) as [[_ H0] _]. pose proof (pi_refs _ _ HP) as Hr.
  destruct hd as [f ph rc out] eqn:Ehd. cbn [file snd UnixLock.ph] in H0. destruct ph eqn:Eph; try exact HI. cbn [negb].
  specialize (H0 ltac:(discriminate)).
  assert (Hgood : forall n, n = nRef (procs w p) + 1 -> Inv (set_proc p (set_ref n (set_files (update x
      {| file := {| h := h f; eFileLock := eFileLock f; ctrlFlags := ctrl; lastErrno := 0; openFlags := openFlags f |};
         ph := Open; last_rc := SQLITE_OK; pResOut := false |} (files (procs w p))) (procs w p))) w)).
  { intros n Hn. apply inv_memory; [exact HI|]. apply (replace_inv _ _ _ hd _ n (inode (procs w p)) HP).
    - congruence.
    - rewrite Ehd. discriminate.
    - split; [exact Hc|]. now intros [].
    - exact H0.
    - rewrite Ehd. cbn [referring UnixLock.ph]. lia.
    - now left. }
  case Z.eqb_spec; intros Hn; [destruct ms|]; [apply Hgood; lia| |apply Hgood; lia].
  eapply (inv_drops w _ p); [exact HI|apply drops_close|reflexivity|].
  pose proof (remove_inv _ _ x hd (nRef (procs w p)) HP ltac:(congruence) ltac:(now rewrite Ehd) ltac:(rewrite Ehd; cbn; lia)) as HR.
  apply (unreferenced_inv _ _ _ HR). rewrite <- (pi_refs _ _ HR). exact Hn.
Qed.

Lemma defer_inv w p x : Inv w -> Inv (defer p x w).
Proof.
  intros HI. pose proof (iv_procs _ HI p) as HP. unfold defer, is_busy. destruct (busy (procs w p)) eqn:Eb; [exact HI|].
  destruct (lookup x (files (procs w p))) as [hd|] eqn:E; [|exact HI].
  destruct (Forall_remove _ _ _ _ E (pi_handles _ _ HP)) as [[Hp H0] _]. destruct hd as [f ph rc out] eqn:Ehd. cbn [file snd UnixLock.ph] in Hp, H0.
  destruct ph eqn:Eph; try exact HI. specialize (H0 ltac:(discriminate)). destruct (if _ =? 0 then _ else _) as [i g] eqn:Ei.
  assert (Hg : plain g /\ eFileLock g = 0 /\ nShared i = nShared (inode (procs w p)) /\ nLock i = nLock (inode (procs w p))
    /\ iFileLock i = iFileLock (inode (procs w p))).
  { destruct (_ =? 0); injection Ei as <- <-; repeat split; assumption. }
  destruct Hg as (Hg & Hg0 & Hi). apply inv_memory; [exact HI|].
  apply (replace_inv _ _ _ hd _ (nRef (procs w p)) i HP); [congruence|now rewrite Ehd|now split|exact Hg0|rewrite Ehd; cbn; lia|].
  right. split; [exact Eb|exact Hi].
Qed.

Lemma close_inv w p x : Inv w -> orderly w (EClose p x) = true -> Inv (close_file p x w).
Proof.
  intros HI Hord. pose proof (iv_procs _ HI p) as HP. cbn [orderly] in Hord. unfold close_file.
  destruct (lookup x (files (procs w p))) as [hd|] eqn:E; [|exact HI]. destruct hd as [f ph rc out] eqn:Ehd. cbn [file] in Hord.
  destruct ph eqn:Eph; try exact HI.
  pose proof (remove_inv _ _ x hd (nRef (procs w p) - 1) HP ltac:(congruence) ltac:(now rewrite Ehd) ltac:(rewrite Ehd; cbn; lia)) as HR.
  destruct (Z.eqb_spec (nRef (procs w p) - 1) 0) as [Hlast|Hmore].
  - eapply (inv_drops w _ p); [exact HI| |reflexivity|].
    + cbn [kernel set_kernel]. destruct (0 <=? h f); [|apply drops_close_each].
      exact (drops_trans _ _ _ _ (drops_close_each _ _ _) (drops_close _ _)).
    + apply (unreferenced_inv _ _ _ HR). rewrite <- (pi_refs _ _ HR). exact Hlast.
  - destruct (Z.leb_spec 0 (h f)) as [Hh|Hh].
    + apply orb_true_iff in Hord as [Hord|Hord]; [apply Z.ltb_lt in Hord; lia|].
      apply andb_true_iff in Hord as [Hb Hn]. apply Z.eqb_eq in Hn. unfold is_busy in Hb.
      eapply (inv_drops w _ p); [exact HI|apply drops_close|reflexivity|].
      apply (unlocked_inv _ _ _ HR); [|exact Hn]. cbn [busy set_ref set_files]. now destruct (busy (procs w p)).
    + eapply (inv_drops w _ p); [exact HI|apply drops_refl|reflexivity|exact HR].
Qed.

Lemma step_inv w e : Inv w -> legal w e = true -> orderly w e = true -> Inv (step w e).
Proof.
  intros HI Hl Ho. destruct e; [apply open_inv|apply fill_inv|apply begin_inv|apply sys_inv|apply defer_inv|apply close_inv]; assumption.
Qed.

Lemma lock_run_inv es : forall w, Inv w -> along legal w es = true -> along orderly w es = true -> Inv (run w es).
Proof.
  induction es as [|e es IH]; intros w HI; cbn [along run fold_left]; [auto|]. rewrite !andb_true_iff. intros [Hl Hls] [Ho Hos].
  apply IH; [now apply step_inv|assumption..].
Qed.

(** Nobody has opened the file, and no locks are set. *)
Definition initial (w : world K) : Prop := (forall p b, held (kernel w) p b = F_UNLCK) /\ forall p, procs w p = proc0.

Lemma initial_inv w : initial w -> Inv w.
Proof.
  intros [Hk Hp]. constructor; [intros p q b _; now rewrite Hk|]. intros p. rewrite Hp.
  constructor; [constructor|reflexivity|]. split; [now constructor|apply support_none].
Qed.

(** The level of a handle that is not worked on is backed by record locks. *)
Lemma level_support ls o v x : Others ls o (cnt ls) -> In x ls -> support o v -> support x v.
Proof.
  intros (Hl & Hp & <- & _) Hx Hs. apply in_split in Hx as (a & b & ->). rewrite maxl_mid in Hs.
  apply pairwise_mid in Hp as [Hp _]. apply Forall_mid in Hl as [Hx Hl]. pose proof (maxl_bounds _ Hl) as Hb. unfold level_ok in *.
  destruct (Z.leb_spec (maxl (a ++ b)) x); [now rewrite Z.max_l in Hs by lia|]. rewrite Z.max_r in Hs by lia.
  rewrite Forall_forall in Hp. specialize (Hp _ (maxl_attained (a ++ b) ltac:(lia))). unfold okpair in Hp.
  assert (x = 0 \/ x = 1) as [->| ->] by lia; [apply support_none|]. apply (support_down (maxl (a ++ b))); [lia|exact Hs].
Qed.

Lemma lookup_in x fs hd : lookup x fs = Some hd -> In (eFileLock (file hd)) (levels fs).
Proof.
  intros E. destruct (lookup_split _ _ _ E) as (l & r & -> & _). unfold levels. rewrite map_app. apply in_elt.
Qed.

(** The handles at rest of a process: their levels, and one level that backs
    them all. *)
Lemma rest_support s v x hd : ProcInv s v -> lookup x (files s) = Some hd ->
  match busy s with Some (y, _, _) => y <> x | None => True end -> support (eFileLock (file hd)) v /\ level_ok (eFileLock (file hd)).
Proof.
  intros [_ _ Hd] E Hr. unfold Doing in Hd. destruct (busy s) as [[[y o] m]|].
  - destruct Hd as (hy & mx & n & _ & _ & (H1 & H2 & H3 & H4) & HS). apply safe_now in HS.
    assert (Hin : In (eFileLock (file hd)) (levels (remove y (files s)))) by (apply (lookup_in x); now rewrite lookup_remove by congruence).
    split; [|rewrite Forall_forall in H1; now apply H1]. now apply (level_support _ mx v _ (conj H1 (conj H2 (conj H3 eq_refl)))).
  - destruct Hd as [Hc Hs]. pose proof (lookup_in _ _ _ E) as Hin. destruct Hc as [H1 H2 H3 H4 H5].
    split; [|rewrite Forall_forall in H5; now apply H5].
    now apply (level_support _ _ v _ (conj H5 (conj H4 (conj (eq_sym H3) eq_refl)))).
Qed.

Lemma rest_pair s v x y hx hy : ProcInv s v -> x <> y -> lookup x (files s) = Some hx -> lookup y (files s) = Some hy ->
  match busy s with Some (z, _, _) => z <> x /\ z <> y | None => True end -> okpair (eFileLock (file hx)) (eFileLock (file hy)).
Proof.
  intros [_ _ Hd] Hxy Ex Ey Hr.
  assert (H : forall fs, pairwise (levels fs) -> lookup x fs = Some hx -> lookup y fs = Some hy -> okpair (eFileLock (file hx)) (eFileLock (file hy))).
  { intros fs Hp Fx Fy. destruct (lookup_split _ _ _ Fx) as (a & b & Efs & Er & _). unfold levels in Hp. rewrite Efs, map_app in Hp. cbn [map] in Hp.
    apply pairwise_mid in Hp as [Hp _]. rewrite Forall_forall in Hp. apply Hp. rewrite <- map_app, <- Er. apply (lookup_in y).
    now rewrite lookup_remove by congruence. }
  unfold Doing in Hd. destruct (busy s) as [[[z o] m]|].
  - destruct Hd as (hz & mx & n & _ & _ & (_ & H2 & _) & _). apply (H _ H2); now rewrite lookup_remove by (destruct Hr; congruence).
  - apply (H (files s)); [apply Hd|assumption..].
Qed.

(** What two processes with consistent locks may have. *)
Lemma levels_apart k p q a b : consistent k -> p <> q -> support a (held k p) -> support b (held k q) -> level_ok a -> level_ok b ->
  (a = 4 -> b = 0) /\ (2 <= a -> b <= 1).
Proof.
  intros Hk Hpq [A1 A2 A3 A4] [B1 B2 B3 B4] La Lb. unfold level_ok in *.
  assert (Hin : in_shared SHARED_FIRST) by (byte_consts; lia).
  pose proof (Hk p q SHARED_FIRST Hpq) as Hs. pose proof (Hk p q RESERVED_BYTE Hpq) as Hr.
  assert (Ha4 : a = 4 -> b = 0).
  { intros E. destruct (Z.eq_dec b 0) as [|Hb]; [assumption|]. rewrite (A4 E _ Hin) in Hs.
    specialize (B1 ltac:(lia) _ Hin). destruct (held k q SHARED_FIRST); try discriminate. congruence. }
  assert (Hb4 : b = 4 -> a = 0).
  { intros E. destruct (Z.eq_dec a 0) as [|Ha]; [assumption|]. rewrite (B4 E _ Hin) in Hs.
    specialize (A1 ltac:(lia) _ Hin). destruct (held k p SHARED_FIRST); try discriminate. congruence. }
  split; [exact Ha4|]. intros Ha. destruct (Z.leb_spec b 1); [assumption|]. exfalso.
  rewrite A2, B2 in Hr by lia. discriminate.
Qed.

End Exclusion.

(** ** A system with the laws of POSIX *)

Definition posix : Type := list (Z * view).
Definition posix_held (k : posix) (p : Z) (b : Z) : ltype := match lookup p k with Some v => v b | None => F_UNLCK end.
Definition posix_put (p : Z) (v : view) (k : posix) : posix := (p, v) :: remove p k.
Definition lock_bytes (l : flock) : list Z := map (fun i => l_start l + Z.of_nat i) (seq 0 (Z.to_nat (l_len l))).
Definition posix_blocked (k : posix) (p : Z) (l : flock) : bool :=
  existsb (fun e => negb (fst e =? p) && existsb (fun b => conflict (l_type l) (snd e b)) (lock_bytes l)) k.
Definition EAGAIN : Z := 11.
Definition EINVAL : Z := 22.

Definition posix_setlk (k : posix) (p : Z) (l : flock) (env : Z) : posix * Z :=
  let k' := posix_put p (fun b => if covers l b then l_type l else posix_held k p b) k in
  match l_type l with
  | F_UNLCK => (k', 0)
  | _ =>
    if negb (env =? 0) then (k, env) else if l_len l <=? 0 then (k, EINVAL)
    else if posix_blocked k p l then (k, EAGAIN) else (k', 0)
  end.
Definition posix_getlk (k : posix) (p : Z) (l : flock) (env : Z) : Z * ltype :=
  if negb (env =? 0) then (env, F_UNLCK) else if l_len l <=? 0 then (EINVAL, F_UNLCK)
  else (0, if posix_blocked k p l then F_WRLCK else F_UNLCK).

#[export] Instance posix_locks : RecordLocks posix := {|
  held := posix_held;
  fcntl_setlk := posix_setlk;
  fcntl_getlk := posix_getlk;
  os_close k p := posix_put p (fun _ => F_UNLCK) k |}.

Lemma put_own p v k b : posix_held (posix_put p v k) p b = v b.
Proof. unfold posix_held, posix_put. cbn [lookup]. now rewrite Z.eqb_refl. Qed.
Lemma put_other p v k q b : q <> p -> posix_held (posix_put p v k) q b = posix_held k q b.
Proof.
  intros H. unfold posix_held, posix_put. cbn [lookup]. apply Z.eqb_neq in H as E. rewrite E. now rewrite lookup_remove.
Qed.

Lemma not_blocked k p l q b : posix_blocked k p l = false -> 0 < l_len l -> q <> p -> covers l b = true ->
  conflict (l_type l) (posix_held k q b) = false.
Proof.
  intros Hb Hl Hq Hc. unfold posix_held. destruct (lookup q k) as [v|] eqn:E; [|apply conflict_unlocked].
  apply not_true_is_false. intros Hx. apply not_true_iff_false in Hb. apply Hb. apply existsb_exists. exists (q, v). split.
  - destruct (lookup_split _ _ _ E) as (m & r & -> & _). apply in_elt.
  - cbn [fst snd]. apply Z.eqb_neq in Hq. rewrite Hq. apply existsb_exists. exists b. split; [|exact Hx].
    apply covers_spec in Hc. apply in_map_iff. exists (Z.to_nat (b - l_start l)). rewrite in_seq. lia.
Qed.

Lemma posix_setlk_cases k p l env k' e : posix_setlk k p l env = (k', e) ->
  (e = 0 /\ k' = posix_put p (fun b => if covers l b then l_type l else posix_held k p b) k /\
    (l_type l = F_UNLCK \/ posix_blocked k p l = false /\ 0 < l_len l)) \/
  (e <> 0 /\ k' = k /\ l_type l <> F_UNLCK).
Proof.
  unfold posix_setlk. assert (H : forall t, t = l_type l -> t <> F_UNLCK ->
    (if negb (env =? 0) then (k, env) else if l_len l <=? 0 then (k, EINVAL) else if posix_blocked k p l then (k, EAGAIN)
     else (posix_put p (fun b => if covers l b then t else posix_held k p b) k, 0)) = (k', e) ->
    (e = 0 /\ k' = posix_put p (fun b => if covers l b then t else posix_held k p b) k /\
      (t = F_UNLCK \/ posix_blocked k p l = false /\ 0 < l_len l)) \/ (e <> 0 /\ k' = k /\ t <> F_UNLCK)).
  { intros t _ Ht. destruct (Z.eqb_spec env 0) as [->|He]; cbn [negb]; [|intros [= <- <-]; right; auto].
    case Z.leb_spec; intros Hl; [intros [= <- <-]; right; unfold EINVAL; auto with zarith|].
    destruct (posix_blocked k p l); intros [= <- <-]; [right; unfold EAGAIN|left]; auto with zarith. }
  destruct (l_type l) eqn:Et; [apply H; congruence..|]. intros [= <- <-]. left. auto.
Qed.

#[export] Instance posix_laws : RecordLockLaws posix.
Proof.
  constructor; cbn [held fcntl_setlk fcntl_getlk os_close posix_locks].
  - intros k p l env k' b E. apply posix_setlk_cases in E as [(_ & -> & _)|[E _]]; [|congruence]. apply put_own.
  - intros k p l env k' q b E Hq Hc. apply posix_setlk_cases in E as [(_ & _ & [->|[Hb Hl]])|[E _]]; [reflexivity| |congruence].
    now apply (not_blocked k p).
  - intros k p l env q b Hq. destruct (posix_setlk k p l env) as [k' e] eqn:E.
    apply posix_setlk_cases in E as [(_ & -> & _)|(_ & -> & _)]; [now apply put_other|reflexivity].
  - intros k p l env k' e b E He. apply posix_setlk_cases in E as [[E _]|(_ & -> & _)]; [congruence|reflexivity].
  - intros k p l env Hu. unfold posix_setlk. now rewrite Hu.
  - intros k p l env q b E Hq Hc. unfold posix_getlk in E. destruct (Z.eqb_spec env 0) as [->|He]; cbn [negb] in E; [|congruence].
    destruct (Z.leb_spec (l_len l) 0); [discriminate|]. destruct (posix_blocked k p l) eqn:Eb; [discriminate|]. now apply (not_blocked k p).
  - intros k p b. apply put_own.
  - intros k p q b. apply put_other.
Qed.

Definition posix0 : world posix := {| kernel := []; procs := fun _ => proc0 |}.

(** Process [p] opens handle [x] as descriptor [d]; it starts an operation that
    makes [n] system calls; it closes the handle. *)
Definition open_file (p x d : Z) : list event := [EOpen p x 2 d; EFill p x 0 true true].
Definition do_op (p x : Z) (o : op) (n : nat) : list event := EStart p x o false :: repeat (ESys p 0) n.
Definition go_exclusive (p x : Z) : list event :=
  do_op p x (OpLock SHARED_LOCK) 3 ++ do_op p x (OpLock RESERVED_LOCK) 1 ++ do_op p x (OpLock EXCLUSIVE_LOCK) 2.

Definition level_of {K} (w : world K) (p x : Z) : option (Z * Z) :=
  match lookup x (files (procs w p)) with Some hd => Some (eFileLock (file hd), last_rc hd) | None => None end.

Section Claims.
Context {K : Type} {RL : RecordLocks K} {Laws : RecordLockLaws K}.

(** C10: For all processes and threads that open, lock, unlock and close the same
    database file, in every [orderly] interleaving of their system calls: of two
    handles that no operation is working on, if one is EXCLUSIVE the other has no
    lock, and at most one is RESERVED or higher.  Orderly means that within a
    process no lock is taken between the test of [nLock] in [unixClose] and the
    close of the descriptor, which the code does not ensure: [unix_close_race] is
    a run without it.  The callers follow the sequence that the operations assert,
    and [fstat] succeeds when a file is opened ([legal]); every other answer of the
    system is arbitrary. *)
Theorem unix_lock_exclusion (w : world K) es p x f q y g :
  initial w -> along legal w es = true -> along orderly w es = true ->
  at_rest (run w es) p x f -> at_rest (run w es) q y g -> (p, x) <> (q, y) ->
  (eFileLock f = EXCLUSIVE_LOCK -> eFileLock g = NO_LOCK) /\ (RESERVED_LOCK <= eFileLock f -> eFileLock g <= SHARED_LOCK).
Proof.
  intros Hi Hl Ho [(hx & Ex & <-) Hx] [(hy & Ey & <-) Hy] Hne.
  pose proof (lock_run_inv es w (initial_inv w Hi) Hl Ho) as [Hk HP]. lock_consts. destruct (Z.eqb_spec p q) as [<-|Hpq].
  - assert (Hxy : x <> y) by congruence. pose proof (rest_pair _ _ x y hx hy (HP p) Hxy Ex Ey) as H. unfold okpair in H.
    destruct (busy _) as [[[z o] m]|]; intuition lia.
  - destruct (rest_support _ _ _ _ (HP p) Ex Hx) as [Sx Lx]. destruct (rest_support _ _ _ _ (HP q) Ey Hy) as [Sy Ly].
    now apply (levels_apart (kernel (run w es)) p q).
Qed.

End Claims.

(** One process becomes EXCLUSIVE; another is refused. *)
Definition two_processes : list event :=
  open_file 1 10 3 ++ open_file 2 20 5 ++ go_exclusive 1 10 ++ do_op 2 20 (OpLock SHARED_LOCK) 1.

Lemma unix_lock_exclusion_witness :
  let f := {| h := 3; eFileLock := 4; ctrlFlags := 0; lastErrno := 0; openFlags := 2 |} in
  let g := {| h := 5; eFileLock := 0; ctrlFlags := 0; lastErrno := 0; openFlags := 2 |} in
  (eFileLock f = EXCLUSIVE_LOCK -> eFileLock g = NO_LOCK) /\ (RESERVED_LOCK <= eFileLock f -> eFileLock g <= SHARED_LOCK).
Proof.
  intros f g. apply (unix_lock_exclusion posix0 two_processes 1 10 f 2 20 g).
  - split; reflexivity.
  - vm_compute. reflexivity.
  - vm_compute. reflexivity.
  - split; [eexists; split; [vm_compute; reflexivity|reflexivity]|exact I].
  - split; [eexists; split; [vm_compute; reflexivity|reflexivity]|exact I].
  - discriminate.
Defined.

(** Process 1 closes handle 10: no locks, so the descriptor is to be closed; then
    its other thread makes handle 11 EXCLUSIVE, and only then is the descriptor
    of handle 10 closed, which releases all locks of process 1. *)
Definition close_race : list event :=
  open_file 1 10 3 ++ open_file 1 11 4 ++ open_file 2 20 5 ++ do_op 1 10 OpClose 0 ++ [EDefer 1 10] ++
  go_exclusive 1 11 ++ [EClose 1 10] ++ go_exclusive 2 20.

(** The proviso of the exclusion is needed, and the code does not ensure it:
    [unixClose] leaves [pLockMutex] after the test of [nLock] and before the
    close, and [unixLock] takes only this mutex.  In a run with correct callers,
    handles of two processes are both EXCLUSIVE. *)
Theorem unix_close_race :
  along legal posix0 close_race = true /\
  exists f g, at_rest (run posix0 close_race) 1 11 f /\ at_rest (run posix0 close_race) 2 20 g /\
    eFileLock f = EXCLUSIVE_LOCK /\ eFileLock g = EXCLUSIVE_LOCK.
Proof.
  split; [vm_compute; reflexivity|]. eexists _, _.
  split; [split; [eexists; split; [vm_compute; reflexivity|reflexivity]|exact I]|].
  split; [split; [eexists; split; [vm_compute; reflexivity|reflexivity]|exact I]|]. split; reflexivity.
Qed.
