(* ===== verification/WalIndex.v ===== *)
(** * SQLite: the index of the write-ahead log

    A database in WAL mode finds the newest copy of a page in the log through
    the wal-index: shared memory with, for each block of frames, an array of
    page numbers and a hash table from page numbers to frames.  The module
    models [walHash], [walNextHash], [walHashGet], [walFramePage],
    [walFramePgno], [walCleanupHash], [walIndexAppend], [walFindFrame],
    [sqlite3WalUndo], [sqlite3WalSavepointUndo] and the order in which writers
    call them, from [src/api-core/src/db/sqlite3.c].

    Arrays of the shared memory are functions of the index.  The memory of a log
    that was just reset is arbitrary: the code clears a block when its first
    frame is added.  A reader loads from memory that a writer changes meanwhile;
    [walFindFrame] therefore takes the memory at each of its loads.  A writer's
    append, commit, rollback or crash is one event between such loads; the
    stores of one append are not separated. *)

From Stdlib Require Import ZArith List Lia Bool FinFun.
From S2P Require Import Prelude.
Import ListNotations.
#[local] Open Scope Z_scope.

(** ** Constants and structures *)

Definition SQLITE_OK : Z := 0.
Definition SQLITE_CORRUPT : Z := 11.
Definition WALINDEX_HDR_SIZE : Z := 136.
Definition HASHTABLE_NPAGE : Z := 4096.
Definition HASHTABLE_HASH_1 : Z := 383.
Definition HASHTABLE_NSLOT : Z := HASHTABLE_NPAGE * 2.
Definition HASHTABLE_NPAGE_ONE : Z := HASHTABLE_NPAGE - WALINDEX_HDR_SIZE / 4.

(** One page of the wal-index: page numbers and hash slots. *)
Record WalPage := { aPgno : Z -> Z; aHash : Z -> Z }.

(** The shared memory, by number of the page. *)
Definition Shm : Type := Z -> WalPage.

(** The members of [Wal] that the index uses; [map_rc] is what [walIndexPage]
    returns for a page. *)
Record Wal := {
  mxFrame : Z;
  minFrame : Z;
  readLock : Z;
  bShmUnreliable : Z;
  map_rc : Z -> Z }.

Definition set_mxFrame (n : Z) (w : Wal) : Wal :=
  {| mxFrame := n; minFrame := minFrame w; readLock := readLock w; bShmUnreliable := bShmUnreliable w; map_rc := map_rc w |}.

Definition set_page (h : Z) (p : WalPage) (m : Shm) : Shm := fun i => if i =? h then p else m i.
Definition set_slot (k v : Z) (p : WalPage) : WalPage := {| aPgno := aPgno p; aHash := fun i => if i =? k then v else aHash p i |}.
Definition set_pgno (j v : Z) (p : WalPage) : WalPage := {| aPgno := fun i => if i =? j then v else aPgno p i; aHash := aHash p |}.

(** ** Hashing and blocks *)

Definition walHash (iPage : Z) : Z := Z.land (u32 (iPage * HASHTABLE_HASH_1)) (HASHTABLE_NSLOT - 1).
Definition walNextHash (iPriorHash : Z) : Z := Z.land (iPriorHash + 1) (HASHTABLE_NSLOT - 1).

(** [iZero] of a page. *)
Definition iZero (iHash : Z) : Z := if iHash =? 0 then 0 else u32 (HASHTABLE_NPAGE_ONE + (iHash - 1) * HASHTABLE_NPAGE).

Definition walFramePage (iFrame : Z) : Z := u32 (iFrame + HASHTABLE_NPAGE - HASHTABLE_NPAGE_ONE - 1) / HASHTABLE_NPAGE.

Definition walFramePgno (m : Shm) (iFrame : Z) : Z :=
  let iHash := walFramePage iFrame in
  if iHash =? 0 then aPgno (m 0) (iFrame - 1)
  else aPgno (m iHash) (u32 (iFrame - 1 - HASHTABLE_NPAGE_ONE) mod HASHTABLE_NPAGE).

(** ** The writer *)

(** Clear the slots and page numbers of frames after [mxFrame]. *)
Definition walCleanupHash (w : Wal) (m : Shm) : Shm :=
  if mxFrame w =? 0 then m
  else
    let h := walFramePage (mxFrame w) in
    if negb (map_rc w h =? 0) then m
    else
      let iLimit := mxFrame w - iZero h in
      let p := m h in
      set_page h {| aPgno := fun i => if iLimit <=? i then 0 else aPgno p i;
                    aHash := fun i => if iLimit <? aHash p i then 0 else aHash p i |} m.

(** The search for an empty slot; [None] after too many collisions. *)
Fixpoint find_empty (nCollide : nat) (p : WalPage) (iKey : Z) : option Z :=
  if aHash p iKey =? 0 then Some iKey
  else match nCollide with
       | O => None
       | S n => find_empty n p (walNextHash iKey)
       end.

Definition walIndexAppend (w : Wal) (m : Shm) (iFrame iPage : Z) : Shm * Z :=
  let h := walFramePage iFrame in
  let rc := map_rc w h in
  if negb (rc =? SQLITE_OK) then (m, rc)
  else
    let idx := iFrame - iZero h in
    let m := if idx =? 1 then set_page h {| aPgno := fun _ => 0; aHash := fun _ => 0 |} m else m in
    let m := if negb (aPgno (m h) (idx - 1) =? 0) then walCleanupHash w m else m in
    match find_empty (Z.to_nat idx) (m h) (walHash iPage) with
    | None => (m, SQLITE_CORRUPT)
    | Some iKey => (set_page h (set_slot iKey idx (set_pgno (idx - 1) iPage (m h))) m, rc)
    end.

(** [sqlite3WalUndo] restores [mxFrame] from the shared header ([live]). *)
Definition sqlite3WalUndo (w : Wal) (m : Shm) (live : Z) : Wal * Shm :=
  let iMax := mxFrame w in
  let w := set_mxFrame live w in
  (w, if negb (iMax =? live) then walCleanupHash w m else m).

(** [sqlite3WalSavepointUndo] to the frame saved in [aWalData[0]], in the same
    generation of the log. *)
Definition sqlite3WalSavepointUndo (w : Wal) (m : Shm) (saved : Z) : Wal * Shm :=
  if saved <? mxFrame w then let w := set_mxFrame saved w in (w, walCleanupHash w m) else (w, m).

(** ** The reader *)

(** One hash table: [t] counts the loads.  Answers the time and the frame found;
    [None] when there are too many collisions. *)
Fixpoint probe (nCollide : nat) (mem : nat -> Shm) (w : Wal) (pgno h : Z) (t : nat) (iKey iRead : Z) : nat * option Z :=
  let iH := aHash (mem t h) iKey in
  if iH =? 0 then (S t, Some iRead)
  else
    let iFrame := u32 (iH + iZero h) in
    let iRead := if (iFrame <=? mxFrame w) && (minFrame w <=? iFrame) && (aPgno (mem (S t) h) (iH - 1) =? pgno)
                 then iFrame else iRead in
    match nCollide with
    | O => (S (S t), None)
    | S n => probe n mem w pgno h (S (S t)) (walNextHash iKey) iRead
    end.

(** The hash tables [iHash], [iHash - 1], ..., [n] of them. *)
Fixpoint find_tables (n : nat) (mem : nat -> Shm) (w : Wal) (pgno iHash : Z) (t : nat) : Z * Z :=
  match n with
  | O => (0, SQLITE_OK)
  | S n =>
    let rc := map_rc w iHash in
    if negb (rc =? SQLITE_OK) then (0, rc)
    else
      let (t, r) := probe (Z.to_nat HASHTABLE_NSLOT) mem w pgno iHash t (walHash pgno) 0 in
      match r with
      | None => (0, SQLITE_CORRUPT)
      | Some iRead => if negb (iRead =? 0) then (iRead, SQLITE_OK) else find_tables n mem w pgno (iHash - 1) t
      end
  end.

(** The frame (or 0) and the result code. *)
Definition walFindFrame (mem : nat -> Shm) (w : Wal) (pgno : Z) : Z * Z :=
  let iLast := mxFrame w in
  if (iLast =? 0) || ((readLock w =? 0) && (bShmUnreliable w =? 0)) then (0, SQLITE_OK)
  else
    let iMinHash := walFramePage (minFrame w) in
    find_tables (Z.to_nat (walFramePage iLast - iMinHash + 1)) mem w pgno (walFramePage iLast) 0.

(** Memory that does not change while it is read. *)
Definition still (m : Shm) : nat -> Shm := fun _ => m.

(** ** Writers *)

(** The writer of the moment: its handle, the last frame it has appended, the
    [mxFrame] of the shared header and the shared memory. *)
Record Writer := { wal : Wal; appended : Z; live : Z; shm : Shm }.

(** One event is one pass of the loop of [walFrames] over the pages, the end of
    this loop, a commit, a rollback, or the end of the process in the middle of
    its work, after which another writer starts from the shared header. *)
Inductive event := Append (pgno : Z) | Publish | Commit | Undo | SavepointUndo (saved : Z) | Crash.

Definition step (s : Writer) (e : event) : Writer :=
  match e with
  | Append pgno =>
    let (m, rc) := walIndexAppend (wal s) (shm s) (appended s + 1) pgno in
    {| wal := wal s; appended := if rc =? SQLITE_OK then appended s + 1 else mxFrame (wal s); live := live s; shm := m |}
  | Publish => {| wal := set_mxFrame (appended s) (wal s); appended := appended s; live := live s; shm := shm s |}
  | Commit => if appended s =? mxFrame (wal s)
      then {| wal := wal s; appended := appended s; live := mxFrame (wal s); shm := shm s |} else s
  | Undo => if appended s =? mxFrame (wal s)
      then let (w, m) := sqlite3WalUndo (wal s) (shm s) (live s) in {| wal := w; appended := mxFrame w; live := live s; shm := m |} else s
  | SavepointUndo saved => if (appended s =? mxFrame (wal s)) && (live s <=? saved)
      then let (w, m) := sqlite3WalSavepointUndo (wal s) (shm s) saved in {| wal := w; appended := mxFrame w; live := live s; shm := m |} else s
  | Crash => {| wal := set_mxFrame (live s) (wal s); appended := live s; live := live s; shm := shm s |}
  end.
Definition run (s : Writer) (es : list event) : Writer := fold_left step es s.

(** ** The specification: a log is the page number of each frame *)

(** The newest frame of page [pgno] among [lo .. hi], or 0. *)
Fixpoint newest_nat (log : Z -> Z) (pgno lo : Z) (hi : nat) : Z :=
  match hi with
  | O => 0
  | S n => if (lo <=? Z.of_nat hi) && (log (Z.of_nat hi) =? pgno) then Z.of_nat hi else newest_nat log pgno lo n
  end.
Definition newest (log : Z -> Z) (pgno lo hi : Z) : Z := newest_nat log pgno lo (Z.to_nat hi).

(** The pages of the frames appended, the frames in the private and in the
    shared header. *)
Record Log := { pages : list Z; private : Z; shared : Z }.

Definition keep (n : Z) (l : Log) : Log := {| pages := firstn (Z.to_nat n) (pages l); private := n; shared := shared l |}.
Definition len (l : Log) : Z := Z.of_nat (length (pages l)).

Definition spec_step (l : Log) (e : event) : Log :=
  match e with
  | Append pgno => {| pages := pages l ++ [pgno]; private := private l; shared := shared l |}
  | Publish => {| pages := pages l; private := len l; shared := shared l |}
  | Commit => if len l =? private l then {| pages := pages l; private := private l; shared := private l |} else l
  | Undo => if len l =? private l then keep (shared l) l else l
  | SavepointUndo saved => if (len l =? private l) && (shared l <=? saved) && (saved <? private l) then keep saved l else l
  | Crash => keep (shared l) l
  end.
Definition spec_run (l : Log) (es : list event) : Log := fold_left spec_step es l.
Definition empty_log : Log := {| pages := []; private := 0; shared := 0 |}.

(** The page of frame [f]. *)
Definition page_of (l : Log) (f : Z) : Z := nth (Z.to_nat (f - 1)) (pages l) 0.

(** ** Blocks of frames *)

Definition cap (h : Z) : Z := if h =? 0 then 4062 else 4096.
Definition zero_of (h : Z) : Z := if h =? 0 then 0 else 4062 + (h - 1) * 4096.

(** Frame numbers stay far from the limit of their type. *)
Definition frame_ok (f : Z) : Prop := 0 <= f < 2 ^ 31.

Lemma walFramePage_eq f : frame_ok f -> walFramePage f = (f + 33) / 4096.
Proof.
  unfold frame_ok, walFramePage, u32. intros H.
  change (HASHTABLE_NPAGE_ONE) with 4062. change HASHTABLE_NPAGE with 4096.
  rewrite Z.mod_small by lia. f_equal. lia.
Qed.

Lemma iZero_eq h : 0 <= h <= 2 ^ 19 -> iZero h = zero_of h.
Proof.
  intros H. unfold iZero, zero_of, u32. change HASHTABLE_NPAGE_ONE with 4062. change HASHTABLE_NPAGE with 4096.
  case Z.eqb_spec; intros Hh; [reflexivity|]. apply Z.mod_small. lia.
Qed.

Lemma page_block f : 1 <= f -> frame_ok f ->
  let h := walFramePage f in 0 <= h <= 2 ^ 19 /\ zero_of h < f <= zero_of h + cap h.
Proof.
  intros H1 Hf. cbv zeta. rewrite walFramePage_eq by assumption. unfold frame_ok, zero_of, cap in *.
  change (2 ^ 31) with 2147483648 in Hf. change (2 ^ 19) with 524288.
  case Z.eqb_spec; intros; Z.div_mod_to_equations; lia.
Qed.

Lemma page_unique f h : 0 <= h -> frame_ok f -> zero_of h < f <= zero_of h + cap h -> walFramePage f = h.
Proof.
  intros Hh Hf. rewrite walFramePage_eq by assumption. unfold zero_of, cap, frame_ok in *.
  change (2 ^ 31) with 2147483648 in Hf. case Z.eqb_spec; intros; Z.div_mod_to_equations; lia.
Qed.

Lemma zero_of_next h : 0 <= h -> zero_of (h + 1) = zero_of h + cap h.
Proof. intros H. unfold zero_of, cap. do 2 case Z.eqb_spec; lia. Qed.
Lemma zero_of_mono h h' : 0 <= h <= h' -> zero_of h <= zero_of h'.
Proof. intros H. unfold zero_of. do 2 case Z.eqb_spec; lia. Qed.
Lemma cap_bounds h : 4062 <= cap h <= 4096.
Proof. unfold cap. case Z.eqb_spec; lia. Qed.
Lemma zero_of_nonneg h : 0 <= h -> 0 <= zero_of h.
Proof. unfold zero_of. case Z.eqb_spec; lia. Qed.

(** ** Probe sequences *)

Lemma land_slots x : Z.land x (HASHTABLE_NSLOT - 1) = x mod 8192.
Proof. exact (land_low 13 x ltac:(lia)). Qed.

(** The slot [d] steps after the first one of page [p]. *)
Definition path (p d : Z) : Z := (walHash p + d) mod 8192.

Lemma path_range p d : 0 <= path p d < 8192.
Proof. apply Z.mod_pos_bound. lia. Qed.
Lemma walHash_range p : 0 <= walHash p < 8192.
Proof. unfold walHash. rewrite land_slots. apply Z.mod_pos_bound. lia. Qed.
Lemma path_0 p : path p 0 = walHash p.
Proof. unfold path. rewrite Z.add_0_r. apply Z.mod_small, walHash_range. Qed.
Lemma path_next p d : walNextHash (path p d) = path p (d + 1).
Proof. unfold walNextHash, path. rewrite land_slots, Zplus_mod_idemp_l. f_equal. lia. Qed.
Lemma path_inj p d d' : 0 <= d < 8192 -> 0 <= d' < 8192 -> path p d = path p d' -> d = d'.
Proof. unfold path. intros. Z.div_mod_to_equations. lia. Qed.

(** [n + 1] places cannot have distinct values among [1 .. n]. *)
Lemma pigeonhole (n : Z) (f : Z -> Z) : 0 <= n -> (forall d, 0 <= d <= n -> 1 <= f d <= n) ->
  (forall d d', 0 <= d <= n -> 0 <= d' <= n -> f d = f d' -> d = d') -> False.
Proof.
  intros Hn Hr Hi. set (ds := map Z.of_nat (seq 0 (S (Z.to_nat n)))).
  assert (Hds : forall d, In d ds -> 0 <= d <= n).
  { intros d Hd. apply in_map_iff in Hd as (k & <- & Hk). apply in_seq in Hk. lia. }
  assert (Hnd : NoDup (map f ds)).
  { apply Injective_map_NoDup_in.
    - intros x y Hx Hy. apply Hi; auto.
    - apply Injective_map_NoDup; [intros x y; lia|apply seq_NoDup]. }
  assert (Hincl : incl (map f ds) (map Z.of_nat (seq 1 (Z.to_nat n)))).
  { intros v Hv. apply in_map_iff in Hv as (d & <- & Hd). specialize (Hr d (Hds d Hd)). apply in_map_iff.
    exists (Z.to_nat (f d)). rewrite in_seq. lia. }
  pose proof (NoDup_incl_length Hnd Hincl) as Hl. unfold ds in Hl. rewrite !length_map, !length_seq in Hl. lia.
Qed.

(** ** What a block says of its frames *)

(** The first [n] frames of a block, of pages [log (z + 1) .. log (z + n)]: each
    is in the slot [dist] steps from its hash, behind older frames only. *)
Record Entries (log dist : Z -> Z) (z n : Z) (p : WalPage) : Prop := {
  en_pgno : forall i, 1 <= i <= n -> aPgno p (i - 1) = log (z + i);
  en_dist : forall i, 1 <= i <= n -> 0 <= dist i < 8192;
  en_slot : forall i, 1 <= i <= n -> aHash p (path (log (z + i)) (dist i)) = i;
  en_path : forall i d, 1 <= i <= n -> 0 <= d < dist i -> 0 < aHash p (path (log (z + i)) d) < i;
  en_uniq : forall k, 0 <= k < 8192 -> 0 < aHash p k <= n -> k = path (log (z + aHash p k)) (dist (aHash p k)) }.

(** A block of [c] frames with [n] frames and nothing else. *)
Record Filled (log dist : Z -> Z) (z n c : Z) (p : WalPage) : Prop := {
  fl_entries : Entries log dist z n p;
  fl_range : forall k, 0 <= k < 8192 -> 0 <= aHash p k <= n;
  fl_rest : forall j, n <= j < c -> aPgno p j = 0 }.

Lemma entries_less log dist z n n' p : n' <= n -> Entries log dist z n p -> Entries log dist z n' p.
Proof. intros H [H1 H2 H3 H4 H5]. constructor; intros; auto with zarith. Qed.

Lemma entries_log log log' dist z n p : (forall i, 1 <= i <= n -> log' (z + i) = log (z + i)) ->
  Entries log dist z n p -> Entries log' dist z n p.
Proof.
  intros H [H1 H2 H3 H4 H5]. constructor; intros; rewrite ?H by lia; auto.
Qed.

(** Frames of the same page are met in the order in which they were added. *)
Lemma entries_order log dist z n p i j : Entries log dist z n p -> 1 <= i < j -> j <= n -> log (z + i) = log (z + j) -> dist i < dist j.
Proof.
  intros [H1 H2 H3 H4 H5] Hi Hj E. destruct (Z.ltb_spec (dist i) (dist j)) as [|Hge]; [assumption|]. exfalso.
  assert (Hd := H3 j ltac:(lia)). assert (Hdj := H2 j ltac:(lia)). assert (Hdi := H2 i ltac:(lia)). destruct (Z.eq_dec (dist i) (dist j)) as [Ed|Hne].
  - specialize (H3 i ltac:(lia)). rewrite E, Ed, Hd in H3. lia.
  - specialize (H4 i (dist j) ltac:(lia) ltac:(lia)). rewrite E, Hd in H4. lia.
Qed.

(** A probe meets an empty slot within [n + 1] steps. *)
Lemma empty_near log dist z n c p pg : Filled log dist z n c p -> 0 <= n <= 4096 ->
  exists d, 0 <= d <= n /\ aHash p (path pg d) = 0 /\ forall d', 0 <= d' < d -> 0 < aHash p (path pg d') <= n.
Proof.
  intros [He Hr _] Hn.
  assert (Hfirst : forall m, (m <= Z.to_nat n)%nat -> (exists d, 0 <= d <= Z.of_nat m /\ aHash p (path pg d) = 0 /\
      forall d', 0 <= d' < d -> 0 < aHash p (path pg d') <= n) \/ (forall d, 0 <= d <= Z.of_nat m -> 0 < aHash p (path pg d) <= n)).
  { induction m as [|m IH]; intros Hm.
    - pose proof (Hr (path pg 0) (path_range _ _)). destruct (Z.eq_dec (aHash p (path pg 0)) 0).
      + left. exists 0. repeat split; try lia; try assumption.
      + right. intros d Hd. replace d with 0 by lia. lia.
    - destruct (IH ltac:(lia)) as [(d & Hd & E & Hb)|Hall]; [left; exists d; repeat split; try lia; try assumption; apply Hb; assumption|].
      pose proof (Hr (path pg (Z.of_nat (S m))) (path_range _ _)). destruct (Z.eq_dec (aHash p (path pg (Z.of_nat (S m)))) 0).
      + left. exists (Z.of_nat (S m)). split; [lia|]. split; [assumption|]. intros d' Hd'. apply Hall. lia.
      + right. intros d Hd. destruct (Z.eq_dec d (Z.of_nat (S m))) as [->|]; [lia|]. apply Hall. lia. }
  destruct (Hfirst (Z.to_nat n) ltac:(lia)) as [(d & Hd & E & Hb)|Hall]; [exists d; repeat split; try lia; try assumption; apply Hb; assumption|].
  exfalso. apply (pigeonhole n (fun d => aHash p (path pg d))); [lia| |].
  - intros d Hd. specialize (Hall d ltac:(lia)). lia.
  - intros d d' Hd Hd' E. apply (path_inj pg); try lia.
    rewrite (en_uniq _ _ _ _ _ He (path pg d) (path_range _ _) (Hall d ltac:(lia))).
    rewrite (en_uniq _ _ _ _ _ He (path pg d') (path_range _ _) (Hall d' ltac:(lia))). now rewrite E.
Qed.

(** ** Adding and removing frames of a block *)

Definition upd (f : Z -> Z) (i v : Z) : Z -> Z := fun j => if j =? i then v else f j.

Lemma upd_same f i v : upd f i v i = v.
Proof. unfold upd. now rewrite Z.eqb_refl. Qed.
Lemma upd_other f i v j : j <> i -> upd f i v j = f j.
Proof. intros H. unfold upd. apply Z.eqb_neq in H. now rewrite H. Qed.

Lemma find_empty_path p pg d : aHash p (path pg d) = 0 -> forall m d0, 0 <= d0 <= d ->
  (forall d', d0 <= d' < d -> aHash p (path pg d') <> 0) -> d - d0 <= Z.of_nat m -> find_empty m p (path pg d0) = Some (path pg d).
Proof.
  intros E m. induction m as [|m IH]; intros d0 Hd Hb Hm; cbn [find_empty].
  - replace d0 with d by lia. now rewrite E.
  - destruct (Z.eq_dec d0 d) as [->|Hne]; [now rewrite E|].
    assert (Hz := Hb d0 ltac:(lia)). apply Z.eqb_neq in Hz. rewrite Hz, path_next. apply IH; [lia| |lia]. intros d' Hd'. apply Hb. lia.
Qed.

Lemma filled_empty log dist z c : Filled log dist z 0 c {| aPgno := fun _ => 0; aHash := fun _ => 0 |}.
Proof. constructor; [constructor; cbn; lia| |]; cbn; lia. Qed.

Definition cleaned (l : Z) (p : WalPage) : WalPage :=
  {| aPgno := fun i => if l <=? i then 0 else aPgno p i; aHash := fun i => if l <? aHash p i then 0 else aHash p i |}.

Lemma filled_cleaned log dist z n c l p : 0 <= l <= n -> Filled log dist z n c p -> Filled log dist z l c (cleaned l p).
Proof.
  intros Hl [[H1 H2 H3 H4 H5] Hr Hz].
  assert (Hk : forall v, 0 < v <= l -> (if l <? v then 0 else v) = v) by (intros v Hv; case Z.ltb_spec; lia).
  constructor; [constructor|..]; cbn [cleaned aPgno aHash].
  - intros i Hi. replace (l <=? i - 1) with false by (symmetry; apply Z.leb_gt; lia). apply H1. lia.
  - intros i Hi. apply H2. lia.
  - intros i Hi. rewrite H3 by lia. apply Hk. lia.
  - intros i d Hi Hd. specialize (H4 i d ltac:(lia) Hd). rewrite Hk; lia.
  - intros k Hk0. case Z.ltb_spec; intros Hlt; [lia|]. intros Hv. apply H5; [exact Hk0|lia].
  - intros k Hk0. specialize (Hr k Hk0). case Z.ltb_spec; lia.
  - intros j Hj. case Z.leb_spec; intros; [reflexivity|lia].
Qed.

Lemma filled_insert log dist z n c p pg d : Filled log dist z n c p -> 0 <= n -> n < c -> 0 <= d < 8192 ->
  aHash p (path pg d) = 0 -> (forall d', 0 <= d' < d -> 0 < aHash p (path pg d') <= n) ->
  Filled (upd log (z + (n + 1)) pg) (upd dist (n + 1) d) z (n + 1) c (set_slot (path pg d) (n + 1) (set_pgno n pg p)).
Proof.
  intros [[H1 H2 H3 H4 H5] Hr Hz] Hn Hc Hd E Hb.
  assert (Hlog : forall i, 1 <= i <= n -> upd log (z + (n + 1)) pg (z + i) = log (z + i)) by (intros; apply upd_other; lia).
  assert (Hdist : forall i, 1 <= i <= n -> upd dist (n + 1) d i = dist i) by (intros; apply upd_other; lia).
  assert (Hold : forall k, aHash p k <> 0 -> (if k =? path pg d then n + 1 else aHash p k) = aHash p k)
    by (intros k Hk; case Z.eqb_spec; congruence).
  constructor; [constructor|..]; cbn [set_slot set_pgno aPgno aHash].
  - intros i Hi. destruct (Z.eq_dec i (n + 1)) as [->|]; [rewrite upd_same; replace (n + 1 - 1 =? n) with true by (symmetry; apply Z.eqb_eq; lia); reflexivity|].
    rewrite Hlog by lia. replace (i - 1 =? n) with false by (symmetry; apply Z.eqb_neq; lia). apply H1. lia.
  - intros i Hi. destruct (Z.eq_dec i (n + 1)) as [->|]; [rewrite upd_same; lia|]. rewrite Hdist by lia. apply H2. lia.
  - intros i Hi. destruct (Z.eq_dec i (n + 1)) as [->|]; [rewrite !upd_same, Z.eqb_refl; reflexivity|].
    rewrite Hlog, Hdist, Hold by (rewrite ?H3; lia). apply H3. lia.
  - intros i d' Hi. destruct (Z.eq_dec i (n + 1)) as [->|].
    + rewrite !upd_same. intros Hd'. specialize (Hb d' Hd'). rewrite Hold; lia.
    + rewrite Hlog, Hdist by lia. intros Hd'. specialize (H4 i d' ltac:(lia) Hd'). rewrite Hold; lia.
  - intros k Hk. case Z.eqb_spec; intros Hkd Hv; [now rewrite !upd_same|].
    specialize (Hr k Hk). rewrite Hlog, Hdist by lia. apply H5; lia.
  - intros k Hk. specialize (Hr k Hk). case Z.eqb_spec; lia.
  - intros j Hj. replace (j =? n) with false by (symmetry; apply Z.eqb_neq; lia). apply Hz. lia.
Qed.

(** ** The whole index *)

(** The index of a log of [s] frames. *)
Definition IndexOk (log : Z -> Z) (dist : Z -> Z -> Z) (s : Z) (m : Shm) : Prop :=
  forall h, 0 <= h -> zero_of h < s ->
    Filled log (dist h) (zero_of h) (Z.min (cap h) (s - zero_of h)) (cap h) (m h).

Definition end_of (h : Z) : Z := zero_of h + cap h.

(** Frames of later blocks can be forgotten. *)
Lemma index_cut log dist s h m : 0 <= h -> IndexOk log dist s m -> IndexOk log dist (Z.min s (end_of h)) m.
Proof.
  intros Hh H h' Hh' Hz. unfold end_of in *. specialize (H h' Hh' ltac:(lia)).
  assert (Hle : h' <= h).
  { destruct (Z.leb_spec h' h); [assumption|]. pose proof (zero_of_mono (h + 1) h' ltac:(lia)). rewrite zero_of_next in * by lia. lia. }
  destruct (Z.eq_dec h' h) as [->|Hne].
  - replace (Z.min (cap h) (Z.min s (zero_of h + cap h) - zero_of h)) with (Z.min (cap h) (s - zero_of h)) by lia. exact H.
  - pose proof (zero_of_mono (h' + 1) h ltac:(lia)). rewrite zero_of_next in * by lia.
    replace (Z.min (cap h') (Z.min s (zero_of h + cap h) - zero_of h')) with (Z.min (cap h') (s - zero_of h'));
      [exact H|]. pose proof (cap_bounds h). lia.
Qed.

Lemma index_none log dist m : IndexOk log dist 0 m.
Proof. intros h Hh Hz. pose proof (zero_of_nonneg h Hh). lia. Qed.

(** Removing the frames after [l]. *)
Lemma cleanup_ok w log dist s m : frame_ok (mxFrame w) -> mxFrame w <= s -> map_rc w (walFramePage (mxFrame w)) = 0 ->
  IndexOk log dist s m -> IndexOk log dist (mxFrame w) (walCleanupHash w m).
Proof.
  intros Hf Hs Hrc H. unfold walCleanupHash. case Z.eqb_spec; intros H0; [rewrite H0; apply index_none|].
  assert (H1 : 1 <= mxFrame w) by (unfold frame_ok in Hf; lia). pose proof (page_block _ H1 Hf) as Hb. cbv zeta in Hb.
  set (h := walFramePage (mxFrame w)) in *. rewrite Hrc. cbn [Z.eqb negb]. rewrite iZero_eq by lia.
  intros h' Hh' Hz. specialize (H h' Hh' ltac:(lia)). unfold set_page. case Z.eqb_spec; intros Hc.
  - subst h'. rewrite Z.min_r by lia. apply (filled_cleaned _ _ _ (Z.min (cap h) (s - zero_of h))); [lia|exact H].
  - assert (Hlt : h' < h).
    { destruct (Z.ltb_spec h' h); [assumption|]. pose proof (zero_of_mono (h + 1) h' ltac:(lia)). rewrite zero_of_next in * by lia. lia. }
    pose proof (zero_of_mono (h' + 1) h ltac:(lia)). rewrite zero_of_next in * by lia.
    replace (Z.min (cap h') (mxFrame w - zero_of h')) with (Z.min (cap h') (s - zero_of h')) by lia. exact H.
Qed.

Definition upd2 (f : Z -> Z -> Z) (h i v : Z) : Z -> Z -> Z := fun h' => if h' =? h then upd (f h) i v else f h'.

Lemma filled_log log log' dist z n c p : (forall i, 1 <= i <= n -> log' (z + i) = log (z + i)) ->
  Filled log dist z n c p -> Filled log' dist z n c p.
Proof. intros H [H1 H2 H3]. constructor; try assumption. exact (entries_log _ _ _ _ _ _ H H1). Qed.

(** Adding a frame to a block that has the earlier ones. *)
Lemma slot_insert_ok log dist app m h pg : 0 <= h -> zero_of h <= app < end_of h ->
  IndexOk log dist app m -> Filled log (dist h) (zero_of h) (app - zero_of h) (cap h) (m h) ->
  exists d, find_empty (Z.to_nat (app + 1 - zero_of h)) (m h) (walHash pg) = Some (path pg d) /\
    IndexOk (upd log (app + 1) pg) (upd2 dist h (app + 1 - zero_of h) d) (app + 1)
      (set_page h (set_slot (path pg d) (app + 1 - zero_of h) (set_pgno (app - zero_of h) pg (m h))) m).
Proof.
  intros Hh Ha HI HF. unfold end_of in Ha. pose proof (cap_bounds h) as Hc. set (n := app - zero_of h) in *.
  replace (app + 1 - zero_of h) with (n + 1) by lia.
  destruct (empty_near _ _ _ _ _ _ pg HF ltac:(lia)) as (d & Hd & E & Hb). exists d. split.
  - rewrite <- path_0. apply find_empty_path; [exact E|lia| |lia]. intros d' Hd'. specialize (Hb d' ltac:(lia)). lia.
  - intros h' Hh' Hz. unfold set_page, upd2. case Z.eqb_spec; intros Hhh.
    + subst h'. replace (Z.min (cap h) (app + 1 - zero_of h)) with (n + 1) by lia.
      replace (app + 1) with (zero_of h + (n + 1)) by lia. apply filled_insert; try assumption; lia.
    + assert (Hlt : h' < h).
      { destruct (Z.ltb_spec h' h); [assumption|]. pose proof (zero_of_mono (h + 1) h' ltac:(lia)). rewrite zero_of_next in * by lia. lia. }
      pose proof (zero_of_mono (h' + 1) h ltac:(lia)). rewrite zero_of_next in * by lia. pose proof (cap_bounds h').
      specialize (HI h' Hh' ltac:(lia)). replace (Z.min (cap h') (app + 1 - zero_of h')) with (Z.min (cap h') (app - zero_of h')) by lia.
      apply (filled_log log); [|exact HI]. intros i Hi. apply upd_other. lia.
Qed.

(** A writer that has appended up to frame [app] while the header says [mx]; the
    index has [s] frames, more than [app] only when an earlier writer left them. *)
Record Batch (mx app s : Z) : Prop := {
  bt_mx : 0 <= mx <= app;
  bt_app : app <= s;
  bt_own : app = mx \/ s = app;
  bt_block : s = 0 \/ 1 <= app /\ s <= end_of (walFramePage app) }.

Definition mapped (w : Wal) : Prop := forall h, map_rc w h = 0.

Lemma index_set_above log dist app m h p : zero_of h = app -> 0 <= h -> IndexOk log dist app m -> IndexOk log dist app (set_page h p m).
Proof.
  intros Hz Hh H h' Hh' Hz'. unfold set_page. case Z.eqb_spec; intros Hc; [subst; lia|]. now apply H.
Qed.

Lemma set_page_same h p m : set_page h p m h = p.
Proof. unfold set_page. now rewrite Z.eqb_refl. Qed.

Lemma append_ok w log dist s m app pg : mapped w -> IndexOk log dist s m -> (forall f, 1 <= f <= s -> 0 < log f) ->
  Batch (mxFrame w) app s -> frame_ok (app + 1) ->
  exists d m', walIndexAppend w m (app + 1) pg = (m', SQLITE_OK) /\
    IndexOk (upd log (app + 1) pg) (upd2 dist (walFramePage (app + 1)) (app + 1 - zero_of (walFramePage (app + 1))) d) (app + 1) m'.
Proof.
  intros Hmap HI Hpos [Hmx Happ Hown Hblk] Hf. pose proof (page_block (app + 1) ltac:(lia) Hf) as Hb. cbv zeta in Hb.
  unfold walIndexAppend. set (h := walFramePage (app + 1)) in *. rewrite (Hmap h). unfold SQLITE_OK. cbn [Z.eqb negb].
  rewrite iZero_eq by lia.
  assert (Hins : forall m', IndexOk log dist app m' -> Filled log (dist h) (zero_of h) (app - zero_of h) (cap h) (m' h) ->
    exists d m'', match find_empty (Z.to_nat (app + 1 - zero_of h)) (m' h) (walHash pg) with
      | Some iKey => (set_page h (set_slot iKey (app + 1 - zero_of h) (set_pgno (app + 1 - zero_of h - 1) pg (m' h))) m', 0)
      | None => (m', SQLITE_CORRUPT) end = (m'', 0) /\
      IndexOk (upd log (app + 1) pg) (upd2 dist h (app + 1 - zero_of h) d) (app + 1) m'').
  { intros m' HI' HF. destruct (slot_insert_ok log dist app m' h pg) as (d & E & HI''); try assumption; [lia|unfold end_of; lia|].
    exists d. rewrite E. replace (app + 1 - zero_of h - 1) with (app - zero_of h) by lia. eexists. split; [reflexivity|exact HI'']. }
  destruct (Z.eqb_spec (app + 1 - zero_of h) 1) as [Hidx|Hidx].
  - assert (Es : s = app).
    { destruct Hblk as [->|[H1 Hs]]; [lia|]. pose proof (page_block app H1 ltac:(unfold frame_ok in *; lia)) as Hb'. cbv zeta in Hb'.
      assert (Hp : walFramePage app < h).
      { destruct (Z.ltb_spec (walFramePage app) h); [assumption|]. pose proof (zero_of_mono h (walFramePage app) ltac:(lia)). lia. }
      pose proof (zero_of_mono (walFramePage app + 1) h ltac:(lia)) as Hm. rewrite zero_of_next in Hm by lia. unfold end_of in Hs. lia. }
    subst s. set (m0 := set_page h _ m). assert (E0 : m0 h = {| aPgno := fun _ => 0; aHash := fun _ => 0 |}) by apply set_page_same.
    replace (aPgno (m0 h) (app + 1 - zero_of h - 1)) with 0 by now rewrite E0. cbn [Z.eqb negb]. apply Hins.
    + apply index_set_above; [lia|lia|exact HI].
    + rewrite E0. replace (app - zero_of h) with 0 by lia. apply filled_empty.
  - assert (Hpa : walFramePage app = h) by (apply page_unique; unfold frame_ok in *; lia).
    assert (Hs1 : s <= end_of h).
    { destruct Hblk as [->|[_ Hs]]; [pose proof (zero_of_nonneg h); lia|]. now rewrite <- Hpa. }
    unfold end_of in Hs1.
    pose proof (HI h ltac:(lia) ltac:(lia)) as HF. rewrite Z.min_r in HF by lia.
    destruct (Z.leb_spec (app + 1) s) as [Hst|Hst].
    + assert (Em : mxFrame w = app) by lia. destruct HF as [[HP _ _ _ _] _ _].
      replace (aPgno (m h) (app + 1 - zero_of h - 1)) with (log (app + 1)) by (rewrite HP by lia; f_equal; lia).
      replace (log (app + 1) =? 0) with false by (symmetry; apply Z.eqb_neq; specialize (Hpos (app + 1) ltac:(lia)); lia).
      cbn [negb]. assert (HC : IndexOk log dist app (walCleanupHash w m)).
      { rewrite <- Em at 1. apply (cleanup_ok w log dist s); [unfold frame_ok in *; lia|lia|apply Hmap|exact HI]. }
      apply Hins; [exact HC|]. specialize (HC h ltac:(lia) ltac:(lia)). now rewrite Z.min_r in HC by lia.
    + assert (s = app) by lia. subst s. rewrite (fl_rest _ _ _ _ _ _ HF) by lia. cbn [Z.eqb negb]. now apply Hins.
Qed.

(** ** Reading *)

(** What is true of the answer [r] for the frames [lo .. hi]. *)
Definition Newest (log : Z -> Z) (pgno lo hi r : Z) : Prop :=
  (r = 0 /\ forall f, 1 <= f <= hi -> lo <= f -> log f <> pgno) \/
  (1 <= r <= hi /\ lo <= r /\ log r = pgno /\ forall f, r < f <= hi -> log f <> pgno).

Lemma newest_char log pgno lo hi r : 0 <= hi -> Newest log pgno lo hi r -> newest log pgno lo hi = r.
Proof.
  intros Hhi. unfold newest. rewrite <- (Z2Nat.id hi) at 1 by lia. generalize (Z.to_nat hi) as n. clear hi Hhi.
  induction n as [|n IH]; intros H; cbn [newest_nat]; [destruct H as [[-> _]|H]; [reflexivity|lia]|].
  destruct ((lo <=? Z.of_nat (S n)) && (log (Z.of_nat (S n)) =? pgno)) eqn:E.
  - rewrite andb_true_iff, Z.leb_le, Z.eqb_eq in E. destruct E as [E1 E2]. destruct H as [[-> H]|(Hr & _ & _ & H)].
    + exfalso. exact (H (Z.of_nat (S n)) ltac:(lia) E1 E2).
    + destruct (Z.eq_dec r (Z.of_nat (S n))); [congruence|]. exfalso. exact (H (Z.of_nat (S n)) ltac:(lia) E2).
  - apply IH. destruct H as [[-> H]|(Hr & Hl & El & H)].
    + left. split; [reflexivity|]. intros f Hf. apply H. lia.
    + right. assert (r <> Z.of_nat (S n)).
      { intros ->. rewrite andb_false_iff, Z.leb_gt, Z.eqb_neq in E. lia. }
      repeat split; try assumption; try lia. intros f Hf. apply H. lia.
Qed.

Lemma newest_ext log log' pgno lo n : (forall f, 1 <= f <= Z.of_nat n -> log f = log' f) -> newest_nat log pgno lo n = newest_nat log' pgno lo n.
Proof.
  induction n as [|n IH]; intros H; cbn [newest_nat]; [reflexivity|]. rewrite H by lia. rewrite IH; [reflexivity|].
  intros f Hf. apply H. lia.
Qed.

Lemma newest_is log p lo hi : 0 <= hi -> Newest log p lo hi (newest log p lo hi).
Proof.
  intros Hhi. unfold newest. rewrite <- (Z2Nat.id hi) at 1 by lia. generalize (Z.to_nat hi) as n. clear hi Hhi.
  induction n as [|n IH]; cbn [newest_nat]; [left; split; [reflexivity|lia]|].
  destruct ((lo <=? Z.of_nat (S n)) && (log (Z.of_nat (S n)) =? p)) eqn:E.
  - rewrite andb_true_iff, Z.leb_le, Z.eqb_eq in E. right. split; [lia|]. split; [lia|]. split; [tauto|lia].
  - assert (Hn : lo <= Z.of_nat (S n) -> log (Z.of_nat (S n)) <> p) by (rewrite andb_false_iff, Z.leb_gt, Z.eqb_neq in E; lia).
    destruct IH as [[-> H]|(H1 & H2 & H3 & H4)]; [left|right].
    + split; [reflexivity|]. intros f Hf Hl. destruct (Z.eq_dec f (Z.of_nat (S n))) as [->|]; [auto|]. apply H; lia.
    + split; [lia|]. split; [exact H2|]. split; [exact H3|]. intros f Hf. destruct (Z.eq_dec f (Z.of_nat (S n))) as [->|]; [apply Hn; lia|]. apply H4. lia.
Qed.

Lemma newest_none log p lo m : Z.of_nat m < lo -> newest_nat log p lo m = 0.
Proof.
  induction m as [|m IH]; intros H; cbn [newest_nat]; [reflexivity|]. replace (lo <=? Z.of_nat (S m)) with false by (symmetry; apply Z.leb_gt; lia).
  apply IH. lia.
Qed.
(** A frame that is found from a later first frame is the newest. *)
Lemma newest_low log p lo n : 1 <= lo -> 0 < newest log p lo n -> newest log p 1 n = newest log p lo n.
Proof.
  intros Hlo. unfold newest. induction (Z.to_nat n) as [|m IH]; cbn [newest_nat]; [reflexivity|].
  replace (1 <=? Z.of_nat (S m)) with true by (symmetry; apply Z.leb_le; lia). destruct (Z.leb_spec lo (Z.of_nat (S m))) as [H|H]; cbn [andb].
  - destruct (_ =? p); [reflexivity|exact IH].
  - rewrite newest_none by lia. lia.
Qed.

Section Reading.
Variables (log : Z -> Z) (dist : Z -> Z -> Z) (w : Wal) (mem : nat -> Shm) (pgno : Z).

(** The memory at all loads has the frames up to [mxFrame], each in its place. *)
Definition Reads : Prop := forall t h, 0 <= h -> zero_of h < mxFrame w ->
  Entries log (dist h) (zero_of h) (Z.min (cap h) (mxFrame w - zero_of h)) (mem t h) /\
  forall k, 0 <= k < 8192 -> 0 <= aHash (mem t h) k <= cap h.

Hypothesis HR : Reads.
Hypothesis Hlast : frame_ok (mxFrame w).

(** Frame [i] of block [h] is one the reader looks for. *)
Definition wanted (h i : Z) : Prop :=
  1 <= i <= Z.min (cap h) (mxFrame w - zero_of h) /\ log (zero_of h + i) = pgno /\ minFrame w <= zero_of h + i.

(** The answer after [d] slots of block [h]. *)
Definition Seen (h d r : Z) : Prop :=
  (r = 0 /\ forall i, wanted h i -> d <= dist h i) \/
  (exists i, wanted h i /\ r = zero_of h + i /\ dist h i < d /\ forall j, wanted h j -> dist h j < d -> j <= i).

Lemma seen_step h d r t : 0 <= h <= 2 ^ 19 -> zero_of h < mxFrame w -> 0 <= d < 8192 -> Seen h d r ->
  let iH := aHash (mem t h) (path pgno d) in let iFrame := u32 (iH + iZero h) in iH <> 0 ->
  Seen h (d + 1) (if (iFrame <=? mxFrame w) && (minFrame w <=? iFrame) && (aPgno (mem (S t) h) (iH - 1) =? pgno) then iFrame else r).
Proof.
  intros Hh Hz Hd HS iH iFrame H0. destruct (HR t h ltac:(lia) Hz) as [HE Hr]. destruct (HR (S t) h ltac:(lia) Hz) as [HE' _].
  specialize (Hr (path pgno d) (path_range _ _)). pose proof (cap_bounds h) as Hc. pose proof (zero_of_nonneg h ltac:(lia)) as Hzn.
  assert (Ef : iFrame = zero_of h + iH).
  { unfold iFrame. rewrite iZero_eq by lia. unfold u32, frame_ok in *. rewrite Z.mod_small by (fold iH in Hr; lia). lia. }
  rewrite Ef. set (n := Z.min (cap h) (mxFrame w - zero_of h)) in *. fold iH in Hr.
  assert (Hdist : forall i, wanted h i -> 0 <= dist h i < 8192) by (intros i [Hi _]; now apply (en_dist _ _ _ _ _ HE)).
  destruct (_ && _) eqn:Ec.
  - rewrite !andb_true_iff, !Z.leb_le, Z.eqb_eq in Ec. destruct Ec as [[Ec1 Ec2] Ec3].
    rewrite (en_pgno _ _ _ _ _ HE') in Ec3 by lia.
    assert (Hw : wanted h iH) by (split; [lia|split; [exact Ec3|lia]]).
    assert (Ed : dist h iH = d).
    { pose proof (en_uniq _ _ _ _ _ HE (path pgno d) (path_range _ _) ltac:(fold iH; lia)) as E. fold iH in E. rewrite Ec3 in E.
      symmetry. apply (path_inj pgno); [lia|now apply Hdist|exact E]. }
    right. exists iH. split; [exact Hw|]. split; [lia|]. split; [lia|]. intros j Hj Hlt.
    destruct (Z.leb_spec j iH) as [|Hgt]; [assumption|]. exfalso.
    pose proof (entries_order _ _ _ _ _ iH j HE ltac:(destruct Hw; lia) ltac:(destruct Hj; lia) ltac:(destruct Hj as (_ & -> & _); exact Ec3)). lia.
  - assert (Hno : forall i, wanted h i -> dist h i <> d).
    { intros i (Hi & Hp & Hm) Ed. pose proof (en_slot _ _ _ _ _ HE i Hi) as E. rewrite Hp, Ed in E. fold iH in E. subst i.
      rewrite !andb_false_iff, !Z.leb_gt, Z.eqb_neq in Ec. rewrite (en_pgno _ _ _ _ _ HE') in Ec by lia. lia. }
    destruct HS as [[-> H]|(i & Hi & -> & Hlt & H)].
    + left. split; [reflexivity|]. intros i Hi. specialize (H i Hi). specialize (Hno i Hi). lia.
    + right. exists i. split; [exact Hi|]. split; [reflexivity|]. split; [lia|]. intros j Hj Hlj. specialize (Hno j Hj). apply H; [exact Hj|lia].
Qed.

(** An empty slot ends the search: the frames wanted were all met. *)
Lemma seen_empty h d t i : 0 <= h -> zero_of h < mxFrame w -> aHash (mem t h) (path pgno d) = 0 -> 0 <= d -> wanted h i -> dist h i < d.
Proof.
  intros Hh Hz E Hd (Hi & Hp & _). destruct (HR t h Hh Hz) as [HE _].
  destruct (Z.ltb_spec (dist h i) d) as [|Hge]; [assumption|]. exfalso.
  pose proof (en_slot _ _ _ _ _ HE i Hi) as Es. destruct (Z.eq_dec (dist h i) d) as [Ed|Hne].
  - rewrite Hp, Ed, E in Es. lia.
  - pose proof (en_path _ _ _ _ _ HE i d Hi ltac:(lia)) as Hl. rewrite Hp, E in Hl. lia.
Qed.

(** The answer of one block. *)
Definition InBlock (h r : Z) : Prop :=
  (r = 0 /\ forall i, ~ wanted h i) \/ (exists i, wanted h i /\ r = zero_of h + i /\ forall j, wanted h j -> j <= i).

Lemma probe_sound h : 0 <= h <= 2 ^ 19 -> zero_of h < mxFrame w -> forall fuel d t r t' r', d + Z.of_nat fuel = 8192 -> 0 <= d -> Seen h d r ->
  probe fuel mem w pgno h t (path pgno d) r = (t', Some r') -> InBlock h r'.
Proof.
  intros Hh Hz. induction fuel as [|fuel IH]; intros d t r t' r' Hf Hd HS; cbn [probe]; case Z.eqb_spec; intros E.
  1, 3: intros [= _ <-]; destruct HS as [[-> H]|(i & Hi & -> & Hlt & H)];
    [ left; split; [reflexivity|]; intros i Hi; pose proof (seen_empty h d t i ltac:(lia) Hz E Hd Hi); specialize (H i Hi); lia
    | right; exists i; split; [exact Hi|]; split; [reflexivity|]; intros j Hj; apply H; [exact Hj|]; exact (seen_empty h d t j ltac:(lia) Hz E Hd Hj) ].
  - discriminate.
  - rewrite path_next. apply IH; [lia|lia|]. apply seen_step; [lia|exact Hz|lia|exact HS|exact E].
Qed.

(** The search ends when some slot is empty at all times. *)
Lemma probe_total h e : (forall t, aHash (mem t h) (path pgno e) = 0) -> forall fuel d t r, 0 <= d <= e -> e - d <= Z.of_nat fuel ->
  exists t' r', probe fuel mem w pgno h t (path pgno d) r = (t', Some r').
Proof.
  intros He. induction fuel as [|fuel IH]; intros d t r Hd Hf; cbn [probe].
  - replace d with e by lia. rewrite He. cbn. eauto.
  - destruct (Z.eq_dec d e) as [->|Hne]; [rewrite He; cbn; eauto|]. case Z.eqb_spec; intros E; [eauto|].
    rewrite path_next. apply IH; lia.
Qed.

(** All blocks from [iHash] down to the one of [minFrame]. *)
Lemma tables_sound top n : mapped w -> 0 <= top <= 2 ^ 19 -> zero_of top < mxFrame w -> 0 <= walFramePage (minFrame w) ->
  (forall f, 1 <= f -> minFrame w <= f -> zero_of (walFramePage (minFrame w)) < f) ->
  forall iHash t r, Z.of_nat n = iHash - walFramePage (minFrame w) + 1 -> iHash <= top ->
  (forall f, zero_of (iHash + 1) < f <= mxFrame w -> minFrame w <= f -> log f <> pgno) ->
  find_tables n mem w pgno iHash t = (r, SQLITE_OK) -> Newest log pgno (minFrame w) (mxFrame w) r.
Proof.
  intros Hmap Ht Hz Hm0 Hlo. induction n as [|n IH]; intros iHash t r Hn Htop Hup; cbn [find_tables].
  - intros [= <-]. left. split; [reflexivity|]. intros f Hf Hmf. apply Hup; [|exact Hmf]. replace (iHash + 1) with (walFramePage (minFrame w)) by lia.
    specialize (Hlo f ltac:(lia) Hmf). lia.
  - rewrite Hmap. cbn [Z.eqb negb SQLITE_OK]. destruct (probe _ _ _ _ _ _ _ _) as [t' [r'|]] eqn:Ep; [|discriminate].
    pose proof (zero_of_mono iHash top ltac:(lia)) as Hzm. pose proof (zero_of_nonneg iHash ltac:(lia)) as Hzn.
    assert (HB : InBlock iHash r').
    { refine (probe_sound iHash _ _ (Z.to_nat HASHTABLE_NSLOT) 0 t 0 t' r' _ _ _ _); [lia|lia|reflexivity|lia| |now rewrite path_0].
      left. split; [reflexivity|]. intros i [Hi _]. destruct (HR t iHash ltac:(lia) ltac:(lia)) as [HE _]. now apply (en_dist _ _ _ _ _ HE). }
    assert (Hin : forall f, zero_of iHash < f <= zero_of (iHash + 1) -> f <= mxFrame w -> minFrame w <= f -> log f = pgno ->
        wanted iHash (f - zero_of iHash)).
    { intros f Hf Hl Hmf Ef. rewrite zero_of_next in Hf by lia. split; [lia|].
      replace (zero_of iHash + (f - zero_of iHash)) with f by lia. auto. }
    destruct HB as [[-> Hnone]|(i & (Hi & Hp & Hmi) & -> & Hmax)].
    + cbn [Z.eqb negb]. apply IH; [lia|lia|]. replace (iHash - 1 + 1) with iHash by lia. intros f Hf Hmf Ef.
      destruct (Z.leb_spec f (zero_of (iHash + 1))) as [Hle|Hgt]; [|exact (Hup f ltac:(lia) Hmf Ef)].
      exact (Hnone _ (Hin f ltac:(lia) ltac:(lia) Hmf Ef)).
    + replace (zero_of iHash + i =? 0) with false by (symmetry; apply Z.eqb_neq; lia). cbn [negb]. intros [= <-]. right.
      split; [lia|]. split; [exact Hmi|]. split; [exact Hp|]. intros f Hf Ef.
      destruct (Z.leb_spec f (zero_of (iHash + 1))) as [Hle|Hgt]; [|exact (Hup f ltac:(lia) ltac:(lia) Ef)].
      specialize (Hmax _ (Hin f ltac:(lia) ltac:(lia) ltac:(lia) Ef)). lia.
Qed.

Definition reads_wal : Prop := readLock w <> 0 \/ bShmUnreliable w <> 0.

Lemma find_sound r : mapped w -> frame_ok (minFrame w) -> reads_wal ->
  walFindFrame mem w pgno = (r, SQLITE_OK) -> r = newest log pgno (minFrame w) (mxFrame w).
Proof.
  intros Hmap Hmin Hrl E. symmetry. apply newest_char; [unfold frame_ok in Hlast; lia|]. unfold walFindFrame in E.
  destruct (Z.eqb_spec (mxFrame w) 0) as [H0|H0]; cbn [orb] in E.
  { injection E as <-. left. split; [reflexivity|]. intros f Hf. lia. }
  replace ((readLock w =? 0) && (bShmUnreliable w =? 0)) with false in E
    by (symmetry; apply andb_false_iff; rewrite !Z.eqb_neq; exact Hrl).
  pose proof (page_block (mxFrame w) ltac:(unfold frame_ok in Hlast; lia) Hlast) as Hb. cbv zeta in Hb.
  assert (Hm0 : 0 <= walFramePage (minFrame w)) by (rewrite walFramePage_eq by exact Hmin; apply Z.div_pos; unfold frame_ok in Hmin; lia).
  assert (Hlo : forall f, 1 <= f -> minFrame w <= f -> zero_of (walFramePage (minFrame w)) < f).
  { intros f Hf Hmf. destruct (Z.eq_dec (minFrame w) 0) as [Em|Em]; [rewrite Em; change (zero_of (walFramePage 0)) with 0; lia|].
    pose proof (page_block (minFrame w) ltac:(unfold frame_ok in Hmin; lia) Hmin) as Hb'. cbv zeta in Hb'. lia. }
  destruct (Z.leb_spec 0 (walFramePage (mxFrame w) - walFramePage (minFrame w) + 1)) as [Hge|Hlt].
  - refine (tables_sound (walFramePage (mxFrame w)) _ Hmap _ _ Hm0 Hlo _ 0%nat r _ _ _ E); [lia|lia|lia|lia|].
    intros f Hf. rewrite zero_of_next in Hf by lia. lia.
  - replace (Z.to_nat (walFramePage (mxFrame w) - walFramePage (minFrame w) + 1)) with O in E by lia. injection E as <-.
    left. split; [reflexivity|]. intros f Hf Hmf Ef. specialize (Hlo f ltac:(lia) Hmf).
    pose proof (zero_of_mono (walFramePage (mxFrame w) + 1) (walFramePage (minFrame w)) ltac:(lia)) as Hzz. rewrite zero_of_next in Hzz by lia. lia.
Qed.

End Reading.

(** Memory at rest: the search ends without an error. *)
Lemma tables_total log dist s w m pgno top n : mapped w -> IndexOk log dist s m -> zero_of top < s ->
  forall iHash t, Z.of_nat n <= iHash + 1 -> iHash <= top -> snd (find_tables n (still m) w pgno iHash t) = SQLITE_OK.
Proof.
  intros Hmap HI Ht. induction n as [|n IH]; intros iHash t Hn Htop; cbn [find_tables]; [reflexivity|].
  rewrite Hmap. cbn [Z.eqb negb SQLITE_OK]. pose proof (zero_of_mono iHash top ltac:(lia)) as Hz. pose proof (cap_bounds iHash) as Hc.
  destruct (empty_near _ _ _ _ _ _ pgno (HI iHash ltac:(lia) ltac:(lia)) ltac:(lia)) as (e & He & E & _).
  destruct (probe_total w (still m) pgno iHash e (fun _ => E) (Z.to_nat HASHTABLE_NSLOT) 0 t 0) as (t' & r' & Ep); [lia|cbn; lia|].
  rewrite path_0 in Ep. rewrite Ep. destruct (negb _); [reflexivity|]. apply IH; lia.
Qed.

Lemma find_total log dist s w m pgno : mapped w -> IndexOk log dist s m -> frame_ok (mxFrame w) -> mxFrame w <= s -> frame_ok (minFrame w) ->
  snd (walFindFrame (still m) w pgno) = SQLITE_OK.
Proof.
  intros Hmap HI Hf Hs Hm. unfold walFindFrame. destruct (Z.eqb_spec (mxFrame w) 0); [reflexivity|]. cbn [orb].
  destruct (_ && _); [reflexivity|]. pose proof (page_block (mxFrame w) ltac:(unfold frame_ok in Hf; lia) Hf) as Hb. cbv zeta in Hb.
  assert (Hm0 : 0 <= walFramePage (minFrame w)) by (rewrite walFramePage_eq by exact Hm; apply Z.div_pos; unfold frame_ok in Hm; lia).
  apply (tables_total log dist s w m pgno (walFramePage (mxFrame w))); try assumption; lia.
Qed.

(** ** The writers refine the log *)

Lemma page_of_keep n l f : 1 <= f <= n -> page_of (keep n l) f = page_of l f.
Proof.
  intros H. unfold page_of, keep. cbn [pages]. rewrite nth_firstn. replace (Z.to_nat (f - 1) <? Z.to_nat n)%nat with true; [reflexivity|].
  symmetry. apply Nat.ltb_lt. lia.
Qed.
Lemma len_keep n l : 0 <= n <= len l -> len (keep n l) = n.
Proof. intros H. unfold len, keep in *. cbn [pages]. rewrite firstn_length_le; lia. Qed.
Lemma page_of_snoc l pg f : 1 <= f <= len l + 1 ->
  page_of {| pages := pages l ++ [pg]; private := private l; shared := shared l |} f = upd (page_of l) (len l + 1) pg f.
Proof.
  intros H. unfold page_of, upd, len in *. cbn [pages]. case Z.eqb_spec; intros Hf.
  - subst f. rewrite app_nth2 by lia. replace (Z.to_nat _ - length (pages l))%nat with O by lia. reflexivity.
  - rewrite app_nth1 by lia. reflexivity.
Qed.

Record Rel (log : Z -> Z) (dist : Z -> Z -> Z) (s : Z) (l : Log) (st : Writer) : Prop := {
  r_index : IndexOk log dist s (shm st);
  r_log : forall f, 1 <= f <= appended st -> log f = page_of l f;
  r_pos : forall f, 1 <= f <= s -> 0 < log f;
  r_len : len l = appended st;
  r_private : private l = mxFrame (wal st);
  r_shared : shared l = live st;
  r_order : 0 <= live st <= mxFrame (wal st) /\ mxFrame (wal st) <= appended st <= s;
  r_own : appended st = mxFrame (wal st) \/ s = appended st;
  r_map : mapped (wal st);
  r_bound : frame_ok (appended st) }.

(** Two descriptions of the index that agree on the first [b] frames. *)
Definition agree (b : Z) (log : Z -> Z) (dist : Z -> Z -> Z) (log' : Z -> Z) (dist' : Z -> Z -> Z) : Prop :=
  (forall f, 1 <= f <= b -> log' f = log f) /\
  (forall h i, 0 <= h -> 1 <= i <= cap h -> zero_of h + i <= b -> dist' h i = dist h i).

Lemma log_agree_refl b log dist : agree b log dist log dist.
Proof. split; reflexivity. Qed.
Lemma log_agree_trans b b' l1 d1 l2 d2 l3 d3 : b <= b' -> agree b l1 d1 l2 d2 -> agree b' l2 d2 l3 d3 -> agree b l1 d1 l3 d3.
Proof. intros Hb [A1 A2] [B1 B2]. split; intros; [rewrite B1, A1 by lia|rewrite B2, A2 by lia]; reflexivity. Qed.

(** What an event needs: pages have positive numbers, frames are in range. *)
Definition event_ok (st : Writer) (e : event) : Prop :=
  match e with Append pg => 0 < pg /\ frame_ok (appended st + 1) | _ => True end.

Lemma append_rel log dist s l st pg : Rel log dist s l st -> event_ok st (Append pg) ->
  exists log' dist' s', Rel log' dist' s' (spec_step l (Append pg)) (step st (Append pg)) /\ agree (appended st) log dist log' dist' /\
    live (step st (Append pg)) = live st.
Proof.
  intros [HI Hlog Hpos Hlen Hpr Hsh Hord Hown Hmap Hbd] [Hpg Hf]. set (app := appended st) in *.
  assert (Hcut : exists s', s' <= s /\ IndexOk log dist s' (shm st) /\ Batch (mxFrame (wal st)) app s').
  { destruct (Z.eq_dec app 0) as [E0|E0].
    - exists 0. split; [lia|]. split; [apply index_none|]. constructor; lia.
    - pose proof (page_block app ltac:(lia) Hbd) as Hb. cbv zeta in Hb.
      exists (Z.min s (end_of (walFramePage app))). split; [lia|]. split; [apply index_cut; [lia|exact HI]|].
      unfold end_of in *. constructor; [lia|lia| |right; unfold end_of; lia]. destruct Hown as [->| ->]; [now left|right; lia]. }
  destruct Hcut as (s' & Hs' & HI' & HB).
  destruct (append_ok (wal st) log dist s' (shm st) app pg Hmap HI' ltac:(intros f Hfs; apply Hpos; lia) HB Hf) as (d & m' & E & HI'').
  cbn [step spec_step]. fold app. rewrite E. cbn [Z.eqb SQLITE_OK]. do 3 eexists. split; [|split].
  - constructor; cbn [wal appended live shm private shared].
    + exact HI''.
    + intros f Hff. rewrite page_of_snoc by lia. rewrite Hlen. unfold upd. case Z.eqb_spec; intros; [reflexivity|]. apply Hlog. lia.
    + intros f Hff. unfold upd. case Z.eqb_spec; intros; [exact Hpg|]. apply Hpos. lia.
    + unfold len in *. cbn [pages]. rewrite length_app. cbn [length]. lia.
    + exact Hpr.
    + exact Hsh.
    + lia.
    + now right.
    + exact Hmap.
    + exact Hf.
  - pose proof (page_block (app + 1) ltac:(lia) Hf) as Hb. cbv zeta in Hb. split; [intros f Hff; apply upd_other; lia|].
    intros h i Hh Hi Hz. unfold upd2. case Z.eqb_spec; intros Eh; [|reflexivity]. subst h. apply upd_other. lia.
  - reflexivity.
Qed.

(** Going back to frame [n], with or without a cleanup. *)
Lemma back_rel log dist s s' l st n w m : Rel log dist s l st -> live st <= n <= appended st -> wal st = w ->
  IndexOk log dist s' m -> n <= s' <= s -> 
  Rel log dist s' (keep n l) {| wal := set_mxFrame n w; appended := n; live := live st; shm := m |}.
Proof.
  intros [HI Hlog Hpos Hlen Hpr Hsh Hord Hown Hmap Hbd] Hn <- HI' Hs'.
  constructor; cbn [wal appended live shm set_mxFrame mxFrame].
  - exact HI'.
  - intros f Hf. rewrite page_of_keep by lia. apply Hlog. lia.
  - intros f Hf. apply Hpos. lia.
  - apply len_keep. lia.
  - reflexivity.
  - exact Hsh.
  - lia.
  - now left.
  - exact Hmap.
  - unfold frame_ok in *. lia.
Qed.

Lemma keep_all l : private l = len l -> keep (private l) l = l.
Proof. intros H. destruct l as [ps pr sh]. unfold keep, len in *. cbn [pages private shared] in *. f_equal. apply firstn_all2. lia. Qed.

Lemma step_rel log dist s l st e : Rel log dist s l st -> event_ok st e ->
  exists log' dist' s', Rel log' dist' s' (spec_step l e) (step st e) /\ agree (live st) log dist log' dist' /\ live st <= live (step st e).
Proof.
  intros HR He. pose proof HR as [HI Hlog Hpos Hlen Hpr Hsh Hord Hown Hmap Hbd].
  assert (Hclean : forall n, live st <= n <= mxFrame (wal st) ->
    IndexOk log dist n (walCleanupHash (set_mxFrame n (wal st)) (shm st))).
  { intros n Hn. apply (cleanup_ok (set_mxFrame n (wal st)) log dist s); cbn [set_mxFrame mxFrame];
      [unfold frame_ok in *; lia|lia|apply Hmap|exact HI]. }
  destruct e as [pg| | | |saved|].
  - destruct (append_rel log dist s l st pg HR He) as (log' & dist' & s' & HR' & [A1 A2] & El). exists log', dist', s'.
    split; [exact HR'|]. split; [|lia]. split; intros; [apply A1|apply A2]; lia.
  - exists log, dist, s. split; [|split; [apply log_agree_refl|cbn; lia]].
    constructor; cbn [step spec_step wal appended live shm set_mxFrame mxFrame private shared]; try assumption; try lia.
  - exists log, dist, s. cbn [step spec_step]. rewrite Hlen, Hpr. destruct (Z.eqb_spec (appended st) (mxFrame (wal st))) as [E|E].
    + split; [|split; [apply log_agree_refl|cbn [live]; lia]]. constructor; cbn [wal appended live shm private shared]; try assumption; try lia.
    + split; [exact HR|]. split; [apply log_agree_refl|lia].
  - cbn [step spec_step]. rewrite Hlen, Hpr. destruct (Z.eqb_spec (appended st) (mxFrame (wal st))) as [E|E].
    2: { exists log, dist, s. split; [exact HR|]. split; [apply log_agree_refl|lia]. }
    unfold sqlite3WalUndo. cbn [set_mxFrame mxFrame live]. rewrite Hsh. exists log, dist.
    destruct (Z.eqb_spec (mxFrame (wal st)) (live st)) as [El|El]; cbn [negb].
    + exists s. split; [|split; [apply log_agree_refl|lia]]. apply (back_rel log dist s s l st); try assumption; try lia. reflexivity.
    + exists (live st). split; [|split; [apply log_agree_refl|lia]].
      apply (back_rel log dist s); try assumption; try lia; [reflexivity|]. apply Hclean. lia.
  - cbn [step spec_step]. rewrite Hlen, Hpr, Hsh. destruct ((appended st =? mxFrame (wal st)) && (live st <=? saved)) eqn:E; cbn [andb].
    2: { exists log, dist, s. split; [exact HR|]. split; [apply log_agree_refl|lia]. }
    rewrite andb_true_iff, Z.eqb_eq, Z.leb_le in E. unfold sqlite3WalSavepointUndo. exists log, dist.
    destruct (Z.ltb_spec saved (mxFrame (wal st))) as [Hlt|Hge]; cbn [live set_mxFrame mxFrame].
    + exists saved. split; [|split; [apply log_agree_refl|lia]].
      apply (back_rel log dist s); try assumption; try lia; [reflexivity|]. apply Hclean. lia.
    + exists s. split; [|split; [apply log_agree_refl|lia]]. destruct E as [E _]. rewrite <- E. destruct st as [w ap lv sm]. exact HR.
  - exists log, dist, s. cbn [step spec_step]. rewrite Hsh. split; [|split; [apply log_agree_refl|cbn [live]; lia]].
    apply (back_rel log dist s s l st); try assumption; try lia. reflexivity.
Qed.

(** Events that are in order along a run. *)
Fixpoint events_ok (st : Writer) (es : list event) : Prop :=
  match es with [] => True | e :: es => event_ok st e /\ events_ok (step st e) es end.

Lemma run_rel es : forall log dist s l st, Rel log dist s l st -> events_ok st es ->
  exists log' dist' s', Rel log' dist' s' (spec_run l es) (run st es) /\ agree (live st) log dist log' dist' /\ live st <= live (run st es).
Proof.
  induction es as [|e es IH]; intros log dist s l st HR Hok; cbn [spec_run run fold_left].
  - exists log, dist, s. split; [exact HR|]. split; [apply log_agree_refl|lia].
  - destruct Hok as [He Hok]. destruct (step_rel _ _ _ _ _ _ HR He) as (l1 & d1 & s1 & HR1 & A1 & L1).
    destruct (IH _ _ _ _ _ HR1 Hok) as (l2 & d2 & s2 & HR2 & A2 & L2). exists l2, d2, s2. split; [exact HR2|].
    split; [exact (log_agree_trans _ _ _ _ _ _ _ _ L1 A1 A2)|]. unfold run in L2. lia.
Qed.

Lemma run_app st es es' : run st (es ++ es') = run (run st es) es'.
Proof. apply fold_left_app. Qed.
Lemma events_ok_app es es' : forall st, events_ok st (es ++ es') <-> events_ok st es /\ events_ok (run st es) es'.
Proof. induction es as [|e es IH]; intros st; cbn [app events_ok run fold_left]; [tauto|]. rewrite IH. unfold run. tauto. Qed.
Lemma events_ok_firstn n es st : events_ok st es -> events_ok st (firstn n es).
Proof. intros H. rewrite <- (firstn_skipn n es) in H. now apply events_ok_app in H. Qed.

(** A log that was reset: no frames, any memory. *)
Definition fresh (w : Wal) (m : Shm) : Writer := {| wal := set_mxFrame 0 w; appended := 0; live := 0; shm := m |}.

Lemma fresh_rel w m : mapped w -> Rel (fun _ => 0) (fun _ _ => 0) 0 empty_log (fresh w m).
Proof.
  intros Hm. constructor; cbn [fresh wal appended live shm set_mxFrame mxFrame]; unfold frame_ok; try lia; try assumption.
  1: apply index_none.
  all: reflexivity.
Qed.

(** The memory as a reader of the first frames sees it. *)
Lemma reads_of log dist log' dist' s l st b w : Rel log' dist' s l st -> agree b log dist log' dist' -> mxFrame w <= b -> b <= s ->
  forall h, 0 <= h -> zero_of h < mxFrame w ->
  Entries log (dist h) (zero_of h) (Z.min (cap h) (mxFrame w - zero_of h)) (shm st h) /\ forall k, 0 <= k < 8192 -> 0 <= aHash (shm st h) k <= cap h.
Proof.
  intros HR [A1 A2] Hw Hb h Hh Hz. pose proof (zero_of_nonneg h Hh) as Hzn.
  destruct (r_index _ _ _ _ _ HR h Hh ltac:(lia)) as [HE Hr _]. split.
  - apply (entries_less _ _ _ _ (Z.min (cap h) (mxFrame w - zero_of h))) in HE; [|lia]. destruct HE as [H1 H2 H3 H4 H5].
    assert (Hl : forall i, 1 <= i <= Z.min (cap h) (mxFrame w - zero_of h) -> log (zero_of h + i) = log' (zero_of h + i))
      by (intros i Hi; symmetry; apply A1; lia).
    assert (Hd : forall i, 1 <= i <= Z.min (cap h) (mxFrame w - zero_of h) -> dist h i = dist' h i)
      by (intros i Hi; symmetry; apply A2; lia).
    constructor; intros; rewrite ?Hl, ?Hd in * by lia; auto.
  - intros k Hk. specialize (Hr k Hk). lia.
Qed.

(** A reader's handle on a snapshot of the log. *)
Record Snapshot (w : Wal) (b : Z) : Prop := {
  sn_frames : 0 <= mxFrame w <= b;
  sn_min : frame_ok (minFrame w);
  sn_map : mapped w;
  sn_reads : reads_wal w }.

(** C32: The wal-index refines the log.  Start from any memory and let writers
    append, publish, commit, roll back and crash in any order: a search through
    the hash tables ends without an error and finds exactly the newest frame of
    the page among those of the snapshot. *)
Theorem wal_index_refines w0 m0 es w pgno : mapped w0 -> events_ok (fresh w0 m0) es ->
  Snapshot w (len (spec_run empty_log es)) ->
  walFindFrame (still (shm (run (fresh w0 m0) es))) w pgno =
    (newest (page_of (spec_run empty_log es)) pgno (minFrame w) (mxFrame w), SQLITE_OK).
Proof.
  intros Hm Hok [Hf Hmin Hmap Hrd]. destruct (run_rel es _ _ _ _ _ (fresh_rel w0 m0 Hm) Hok) as (log & dist & s & HR & _).
  pose proof HR as [HI Hlog _ Hlen _ _ Hord _ _ Hbd]. rewrite Hlen in Hf.
  assert (Hl : frame_ok (mxFrame w)) by (unfold frame_ok in *; lia).
  pose proof (find_total log dist s w _ pgno Hmap HI Hl ltac:(lia) Hmin) as Hrc.
  destruct (walFindFrame _ _ _) as [r rc] eqn:E. cbn [snd] in Hrc. subst rc. f_equal.
  assert (HRd : Reads log dist w (still (shm (run (fresh w0 m0) es)))).
  { intros t h Hh Hz. apply (reads_of log dist log dist s _ _ (mxFrame w) w HR); try lia. apply log_agree_refl. }
  rewrite (find_sound _ _ _ _ _ HRd Hl r Hmap Hmin Hrd E). apply newest_ext. intros f Hff. apply Hlog. lia.
Qed.

(** A reader is not disturbed by writers.  Let a reader have a snapshot of
    committed frames and let each of its loads see the memory after any of the
    following events of the writers (appends, commits, rollbacks, crashes): when
    it ends without an error, it has found exactly the newest frame of the page
    in its snapshot. *)
Theorem wal_reader_concurrent w0 m0 es later at_load w pgno r : mapped w0 -> events_ok (fresh w0 m0) (es ++ later) ->
  Snapshot w (live (run (fresh w0 m0) es)) ->
  walFindFrame (fun t => shm (run (fresh w0 m0) (es ++ firstn (at_load t) later))) w pgno = (r, SQLITE_OK) ->
  r = newest (page_of (spec_run empty_log es)) pgno (minFrame w) (mxFrame w).
Proof.
  intros Hm Hok [Hf Hmin Hmap Hrd] E. apply events_ok_app in Hok as [Hok1 Hok2].
  destruct (run_rel es _ _ _ _ _ (fresh_rel w0 m0 Hm) Hok1) as (log & dist & s & HR & _).
  pose proof HR as [HI Hlog _ Hlen _ _ Hord _ _ Hbd].
  assert (HRd : Reads log dist w (fun t => shm (run (fresh w0 m0) (es ++ firstn (at_load t) later)))).
  { intros t h Hh Hz. destruct (run_rel (firstn (at_load t) later) _ _ _ _ _ HR (events_ok_firstn _ _ _ Hok2)) as (log' & dist' & s' & HR' & HA & HL).
    rewrite run_app.
    apply (reads_of log dist log' dist' s' _ _ (live (run (fresh w0 m0) es)) w HR'); try assumption; [lia|].
    pose proof (r_order _ _ _ _ _ HR'). lia. }
  assert (Hl : frame_ok (mxFrame w)) by (unfold frame_ok in *; lia).
  rewrite (find_sound _ _ _ _ _ HRd Hl r Hmap Hmin Hrd E). apply newest_ext. intros f Hff. apply Hlog. lia.
Qed.

(** ** A run with garbage in memory, a crash and a rollback *)

Definition garbage : Shm := fun h => {| aPgno := fun j => j + 5; aHash := fun k => k mod 4000 |}.
Definition handle (mx mn : Z) : Wal := {| mxFrame := mx; minFrame := mn; readLock := 1; bShmUnreliable := 0; map_rc := fun _ => 0 |}.
Definition demo : list event :=
  [Append 3; Append 9; Publish; Commit; Append 7; Append 3; Publish; Crash; Append 8195; Publish; SavepointUndo 2; Append 3; Publish; Commit].
Definition more : list event := [Append 9; Publish; Undo; Append 9; Publish].

Lemma wal_index_refines_witness : walFindFrame (still (shm (run (fresh (handle 0 0) garbage) demo))) (handle 3 1) 3 = (3, SQLITE_OK).
Proof.
  rewrite (wal_index_refines (handle 0 0) garbage demo (handle 3 1) 3).
  - reflexivity.
  - intros h. reflexivity.
  - vm_compute. intuition congruence.
  - constructor; [vm_compute; intuition congruence|split; reflexivity || discriminate|intros h; reflexivity|left; discriminate].
Defined.

Lemma wal_reader_concurrent_witness : 2 = newest (page_of (spec_run empty_log demo)) 9 1 3.
Proof.
  apply (wal_reader_concurrent (handle 0 0) garbage demo more (fun t => (t - 1)%nat) (handle 3 1) 9 2).
  - intros h. reflexivity.
  - vm_compute. intuition congruence.
  - constructor; [vm_compute; intuition congruence|split; reflexivity || discriminate|intros h; reflexivity|left; discriminate].
  - vm_compute. reflexivity.
Defined.
