(* ===== verification/Wal.v ===== *)
(** * SQLite: the write-ahead log

    A transaction in WAL mode is appended to a log file as frames, each with a
    page and a checksum over everything before it; the last frame of a
    transaction has a commit mark.  After a crash the log is read again and its
    committed part is used.  The module models [walChecksumBytes],
    [walEncodeFrame], [walDecodeFrame], [walFrames] with
    [walRewriteChecksums], [sqlite3WalReadFrame], [sqlite3WalUndo] and
    [walIndexRecover] of [src/api-core/src/db/sqlite3.c], on the index of
    [WalIndex].

    The machine is little-endian.  The file is a list of bytes; writes succeed.
    Handles read through the log ([readLock] is not 0), so that the log is not
    restarted; syncs do not change the file and are left out. *)

From Stdlib Require Import ZArith List Lia Bool.
From S2P Require Import Prelude Varint WalIndex.
Import ListNotations.
#[local] Open Scope Z_scope.

(** ** Constants *)

Definition WAL_FRAME_HDRSIZE : Z := 24.
Definition WAL_HDRSIZE : Z := 32.
Definition WAL_MAGIC : Z := 931071618.
Definition WAL_MAX_VERSION : Z := 3007000.
Definition SQLITE_BIGENDIAN : Z := 0.
Definition SQLITE_MAX_PAGE_SIZE : Z := 65536.
Definition SQLITE_CANTOPEN : Z := 14.

Definition walFrameOffset (iFrame szPage : Z) : Z := WAL_HDRSIZE + (iFrame - 1) * (szPage + WAL_FRAME_HDRSIZE).

(** ** Files *)

Definition size (f : list Z) : Z := Z.of_nat (length f).
Definition slice (off n : Z) (f : list Z) : list Z := firstn (Z.to_nat n) (skipn (Z.to_nat off) f).
(** [sqlite3OsWrite]: a gap is filled with zeros. *)
Definition os_write (c : list Z) (off : Z) (f : list Z) : list Z :=
  firstn (Z.to_nat off) (f ++ repeat 0 (Z.to_nat off - length f)) ++ c ++ skipn (Z.to_nat off + length c) f.
Definition os_truncate (n : Z) (f : list Z) : list Z := firstn (Z.to_nat n) f.

(** ** Checksums *)

(** The words of a buffer, in the byte order of the machine. *)
Fixpoint words (l : list Z) : list Z :=
  match l with
  | a :: b :: c :: d :: l => (a + Z.shiftl b 8 + Z.shiftl c 16 + Z.shiftl d 24) :: words l
  | _ => []
  end.

Definition BYTESWAP32 (x : Z) : Z :=
  u32 (Z.shiftl (Z.land x 255) 24 + Z.shiftl (Z.land x 65280) 8 + Z.shiftr (Z.land x 16711680) 8 + Z.shiftr (Z.land x 4278190080) 24).

Definition cksum_pair (s : Z * Z) (x y : Z) : Z * Z :=
  let s1 := u32 (fst s + u32 (x + snd s)) in
  let s2 := u32 (snd s + u32 (y + s1)) in
  (s1, s2).

Fixpoint cksum_loop (conv : Z -> Z) (ws : list Z) (s : Z * Z) : Z * Z :=
  match ws with
  | x :: y :: ws => cksum_loop conv ws (cksum_pair s (conv x) (conv y))
  | _ => s
  end.

(** The loop over 64 bytes. *)
Fixpoint cksum_unrolled (ws : list Z) (s : Z * Z) : Z * Z :=
  match ws with
  | x1 :: y1 :: x2 :: y2 :: x3 :: y3 :: x4 :: y4 :: x5 :: y5 :: x6 :: y6 :: x7 :: y7 :: x8 :: y8 :: ws =>
    let s := cksum_pair s x1 y1 in let s := cksum_pair s x2 y2 in let s := cksum_pair s x3 y3 in let s := cksum_pair s x4 y4 in
    let s := cksum_pair s x5 y5 in let s := cksum_pair s x6 y6 in let s := cksum_pair s x7 y7 in let s := cksum_pair s x8 y8 in
    cksum_unrolled ws s
  | _ => s
  end.

Definition walChecksumBytes (nativeCksum : bool) (a : list Z) (aIn : Z * Z) : Z * Z :=
  if negb nativeCksum then cksum_loop BYTESWAP32 (words a) aIn
  else if size a mod 64 =? 0 then cksum_unrolled (words a) aIn
  else cksum_loop (fun x => x) (words a) aIn.

(** ** Frames *)

Definition be4 (v : Z) : list Z := sqlite3Put4byte [0; 0; 0; 0] v.
Definition get4 (off : Z) (l : list Z) : Z := sqlite3Get4byte (slice off 4 l).

(** The members of [WalIndexHdr] besides [mxFrame], which [WalIndex] has. *)
Record WalHdr := { nPage : Z; hdr_szPage : Z; aFrameCksum : Z * Z; aSalt : list Z; bigEndCksum : Z }.

(** The frame header and the running checksum. *)
Definition walEncodeFrame (iReCksum : Z) (hd : WalHdr) (iPage nTruncate : Z) (aData : list Z) : list Z * (Z * Z) :=
  let h8 := be4 iPage ++ be4 nTruncate in
  if iReCksum =? 0 then
    let native := bigEndCksum hd =? SQLITE_BIGENDIAN in
    let c := walChecksumBytes native h8 (aFrameCksum hd) in
    let c := walChecksumBytes native aData c in
    (h8 ++ aSalt hd ++ be4 (fst c) ++ be4 (snd c), c)
  else (h8 ++ repeat 0 16, aFrameCksum hd).

Definition bytes_eqb (a b : list Z) : bool := if list_eq_dec Z.eq_dec a b then true else false.

(** Page number and size of the database, if the frame is valid, and the running
    checksum, which is advanced also when it does not match. *)
Definition walDecodeFrame (hd : WalHdr) (aData aFrame : list Z) : option (Z * Z) * (Z * Z) :=
  if negb (bytes_eqb (aSalt hd) (slice 8 8 aFrame)) then (None, aFrameCksum hd)
  else
    let pgno := get4 0 aFrame in
    if pgno =? 0 then (None, aFrameCksum hd)
    else
      let native := bigEndCksum hd =? SQLITE_BIGENDIAN in
      let c := walChecksumBytes native (slice 0 8 aFrame) (aFrameCksum hd) in
      let c := walChecksumBytes native aData c in
      if negb (fst c =? get4 16 aFrame) || negb (snd c =? get4 20 aFrame) then (None, c)
      else (Some (pgno, get4 4 aFrame), c).

(** ** The handle *)

(** [ix] has the index, [mxFrame] and the [mxFrame] of the shared header; [hdr]
    and [shared_hdr] the rest of the private and of the shared header. *)
Record Handle := {
  ix : Writer;
  hdr : WalHdr;
  shared_hdr : WalHdr;
  szPage : Z;
  iReCksum : Z;
  nCkpt : Z;
  truncateOnCommit : bool;
  mxWalSize : Z;
  file : list Z }.

Definition set_ix (x : Writer) (w : Handle) : Handle :=
  {| ix := x; hdr := hdr w; shared_hdr := shared_hdr w; szPage := szPage w; iReCksum := iReCksum w; nCkpt := nCkpt w;
     truncateOnCommit := truncateOnCommit w; mxWalSize := mxWalSize w; file := file w |}.
Definition set_hdr (x : WalHdr) (w : Handle) : Handle :=
  {| ix := ix w; hdr := x; shared_hdr := shared_hdr w; szPage := szPage w; iReCksum := iReCksum w; nCkpt := nCkpt w;
     truncateOnCommit := truncateOnCommit w; mxWalSize := mxWalSize w; file := file w |}.
Definition set_shared (x : WalHdr) (w : Handle) : Handle :=
  {| ix := ix w; hdr := hdr w; shared_hdr := x; szPage := szPage w; iReCksum := iReCksum w; nCkpt := nCkpt w;
     truncateOnCommit := truncateOnCommit w; mxWalSize := mxWalSize w; file := file w |}.
Definition set_re (x : Z) (w : Handle) : Handle :=
  {| ix := ix w; hdr := hdr w; shared_hdr := shared_hdr w; szPage := szPage w; iReCksum := x; nCkpt := nCkpt w;
     truncateOnCommit := truncateOnCommit w; mxWalSize := mxWalSize w; file := file w |}.
Definition set_file (x : list Z) (w : Handle) : Handle :=
  {| ix := ix w; hdr := hdr w; shared_hdr := shared_hdr w; szPage := szPage w; iReCksum := iReCksum w; nCkpt := nCkpt w;
     truncateOnCommit := truncateOnCommit w; mxWalSize := mxWalSize w; file := x |}.
Definition set_first (sz : Z) (w : Handle) : Handle :=
  {| ix := ix w; hdr := hdr w; shared_hdr := shared_hdr w; szPage := sz; iReCksum := iReCksum w; nCkpt := nCkpt w;
     truncateOnCommit := true; mxWalSize := mxWalSize w; file := file w |}.
Definition set_truncate (b : bool) (w : Handle) : Handle :=
  {| ix := ix w; hdr := hdr w; shared_hdr := shared_hdr w; szPage := szPage w; iReCksum := iReCksum w; nCkpt := nCkpt w;
     truncateOnCommit := b; mxWalSize := mxWalSize w; file := file w |}.

Definition with_cksum (c : Z * Z) (hd : WalHdr) : WalHdr :=
  {| nPage := nPage hd; hdr_szPage := hdr_szPage hd; aFrameCksum := c; aSalt := aSalt hd; bigEndCksum := bigEndCksum hd |}.
Definition with_size (n sz : Z) (hd : WalHdr) : WalHdr :=
  {| nPage := n; hdr_szPage := sz; aFrameCksum := aFrameCksum hd; aSalt := aSalt hd; bigEndCksum := bigEndCksum hd |}.

(** [(u16)((szPage&0xff00) | (szPage>>16))] *)
Definition szPage16 (sz : Z) : Z := u16 (Z.lor (Z.land sz 65280) (Z.shiftr sz 16)).

(** ** Writing *)

(** The header of the log file, before the first frame; [rnd] is what
    [sqlite3_randomness] yields for the salt. *)
Definition wal_header (sz nCkpt : Z) (salt : list Z) : list Z :=
  let b := be4 (Z.lor WAL_MAGIC SQLITE_BIGENDIAN) ++ be4 WAL_MAX_VERSION ++ be4 sz ++ be4 nCkpt ++ salt in
  let c := walChecksumBytes true b (0, 0) in
  b ++ be4 (fst c) ++ be4 (snd c).
Definition header_cksum (sz nCkpt : Z) (salt : list Z) : Z * Z :=
  walChecksumBytes true (be4 (Z.lor WAL_MAGIC SQLITE_BIGENDIAN) ++ be4 WAL_MAX_VERSION ++ be4 sz ++ be4 nCkpt ++ salt) (0, 0).

Definition start_log (sz : Z) (rnd : list Z) (w : Handle) : Handle :=
  let salt := if nCkpt w =? 0 then rnd else aSalt (hdr w) in
  let hd := {| nPage := nPage (hdr w); hdr_szPage := hdr_szPage (hdr w); aFrameCksum := header_cksum sz (nCkpt w) salt;
               aSalt := salt; bigEndCksum := SQLITE_BIGENDIAN |} in
  set_file (os_write (wal_header sz (nCkpt w) salt) 0 (file w)) (set_hdr hd (set_first sz w)).

(** [walWriteOneFrame] *)
Definition write_frame (pgno : Z) (data : list Z) (nTruncate iOffset : Z) (w : Handle) : Handle :=
  let (fh, c) := walEncodeFrame (iReCksum w) (hdr w) pgno nTruncate data in
  set_file (os_write data (iOffset + WAL_FRAME_HDRSIZE) (os_write fh iOffset (file w))) (set_hdr (with_cksum c (hdr w)) w).

(** The loop of [walFrames] over the dirty pages: the handle, the last frame, the
    pages that got a new frame and the last of these. *)
Fixpoint write_pages (iFirst nTruncate : Z) (isCommit : bool) (ps : list (Z * list Z)) (w : Handle) (iFrame : Z)
    (added : list Z) (pLast : option (Z * list Z)) : Handle * Z * list Z * option (Z * list Z) :=
  match ps with
  | [] => (w, iFrame, added, pLast)
  | (pgno, data) :: ps =>
    let more := match ps with [] => false | _ => true end in
    let iWrite := if negb (iFirst =? 0) && (more || negb isCommit)
                  then fst (walFindFrame (still (shm (ix w))) (wal (ix w)) pgno) else 0 in
    if negb (iFirst =? 0) && (more || negb isCommit) && (iFirst <=? iWrite) then
      let iOff := walFrameOffset iWrite (szPage w) + WAL_FRAME_HDRSIZE in
      let re := if (iReCksum w =? 0) || (iWrite <? iReCksum w) then iWrite else iReCksum w in
      write_pages iFirst nTruncate isCommit ps (set_file (os_write data iOff (file w)) (set_re re w)) iFrame added pLast
    else
      let iFrame := iFrame + 1 in
      let nDbSize := if isCommit && negb more then nTruncate else 0 in
      write_pages iFirst nTruncate isCommit ps (write_frame pgno data nDbSize (walFrameOffset iFrame (szPage w)) w)
        iFrame (added ++ [pgno]) (Some (pgno, data))
  end.

(** The loop of [walRewriteChecksums]: [n] frames from [iRead]. *)
Fixpoint rewrite_loop (n : nat) (iRead : Z) (w : Handle) : Handle :=
  match n with
  | O => w
  | S n =>
    let iOff := walFrameOffset iRead (szPage w) in
    let aBuf := slice iOff (szPage w + WAL_FRAME_HDRSIZE) (file w) in
    let (fh, c) := walEncodeFrame 0 (hdr w) (get4 0 aBuf) (get4 4 aBuf) (skipn (Z.to_nat WAL_FRAME_HDRSIZE) aBuf) in
    rewrite_loop n (iRead + 1) (set_file (os_write fh iOff (file w)) (set_hdr (with_cksum c (hdr w)) w))
  end.
Definition walRewriteChecksums (iLast : Z) (w : Handle) : Handle :=
  let iCksumOff := if iReCksum w =? 1 then 24 else walFrameOffset (iReCksum w - 1) (szPage w) + 16 in
  let aBuf := slice iCksumOff 8 (file w) in
  let iRead := iReCksum w in
  rewrite_loop (Z.to_nat (iLast - iRead + 1)) iRead (set_re 0 (set_hdr (with_cksum (get4 0 aBuf, get4 4 aBuf) (hdr w)) w)).

(** Padding to the next sector: the last frame again, until [iSyncPoint]. *)
Fixpoint pad_frames (fuel : nat) (pLast : Z * list Z) (nTruncate iOffset iSyncPoint : Z) (w : Handle) (nExtra : nat) : Handle * nat :=
  match fuel with
  | O => (w, nExtra)
  | S fuel =>
    if iOffset <? iSyncPoint then
      pad_frames fuel pLast nTruncate (iOffset + (szPage w + WAL_FRAME_HDRSIZE)) iSyncPoint
        (write_frame (fst pLast) (snd pLast) nTruncate iOffset w) (S nExtra)
    else (w, nExtra)
  end.
(** [sectorSize] is 0 when there is no padding. *)
Definition pad_sector (sectorSize : Z) (pLast : option (Z * list Z)) (nTruncate iFrame : Z) (w : Handle) : Handle * nat :=
  match pLast with
  | Some p =>
    if sectorSize =? 0 then (w, O)
    else
      let iOffset := walFrameOffset (iFrame + 1) (szPage w) in
      pad_frames (Z.to_nat sectorSize) p nTruncate iOffset ((iOffset + sectorSize - 1) / sectorSize * sectorSize) w O
  | None => (w, O)
  end.

(** The new frames enter the index. *)
Fixpoint index_pages (s : Writer) (ps : list Z) : Writer * Z :=
  match ps with
  | [] => (s, SQLITE_OK)
  | p :: ps =>
    let rc := snd (walIndexAppend (wal s) (shm s) (appended s + 1) p) in
    if rc =? SQLITE_OK then index_pages (step s (Append p)) ps else (step s (Append p), rc)
  end.

Definition wal_hdr_eqb (a b : WalHdr) : bool :=
  (nPage a =? nPage b) && (hdr_szPage a =? hdr_szPage b) && (fst (aFrameCksum a) =? fst (aFrameCksum b))
  && (snd (aFrameCksum a) =? snd (aFrameCksum b)) && bytes_eqb (aSalt a) (aSalt b) && (bigEndCksum a =? bigEndCksum b).

Definition walLimitSize (nMax : Z) (w : Handle) : Handle :=
  if nMax <? size (file w) then set_file (os_truncate nMax (file w)) w else w.

(** The end of [walFrames]: the index, the private header and, on commit, the
    shared one ([walIndexWriteHdr]). *)
Definition publish (sz nTruncate : Z) (isCommit : bool) (added : list Z) (w : Handle) : Handle * Z :=
  let (x, rc) := index_pages (ix w) added in
  let w := set_ix x w in
  if rc =? SQLITE_OK then
    let w := set_ix (step (ix w) Publish) w in
    let w := set_hdr (with_size (if isCommit then nTruncate else nPage (hdr w)) (szPage16 sz) (hdr w)) w in
    (if isCommit then set_shared (hdr w) (set_ix (step (ix w) Commit) w) else w, SQLITE_OK)
  else (w, rc).

(** The first frame that the transaction may overwrite, or 0. *)
Definition first_frame (w : Handle) : Z :=
  let same := (mxFrame (wal (ix w)) =? live (ix w)) && wal_hdr_eqb (hdr w) (shared_hdr w) in
  if same then 0 else live (ix w) + 1.

(** [walFrames] for a handle that reads through the log, for which
    [walRestartLog] does nothing. *)
Definition append_frames (sz : Z) (rnd : list Z) (pList : list (Z * list Z)) (nTruncate : Z) (isCommit : bool) (sectorSize : Z) (w : Handle) : Handle * Z :=
  let iFirst := first_frame w in
  let iFrame := mxFrame (wal (ix w)) in
  let w := if iFrame =? 0 then start_log sz rnd w else w in
  if negb (szPage w =? sz) then (w, SQLITE_CORRUPT)
  else
    let '(w, iFrame, added, pLast) := write_pages iFirst nTruncate isCommit pList w iFrame [] None in
    let w := if isCommit && negb (iReCksum w =? 0) then walRewriteChecksums iFrame w else w in
    let (w, nExtra) := if isCommit then pad_sector sectorSize pLast nTruncate iFrame w else (w, O) in
    let w := if isCommit && truncateOnCommit w && (0 <=? mxWalSize w)
             then set_truncate false (walLimitSize (Z.max (mxWalSize w) (walFrameOffset (iFrame + Z.of_nat nExtra + 1) sz)) w) else w in
    publish sz nTruncate isCommit (added ++ repeat (match pLast with Some p => fst p | None => 0 end) nExtra) w.

(** [sqlite3WalUndo] *)
Definition undo (w : Handle) : Handle := set_re 0 (set_hdr (shared_hdr w) (set_ix (step (ix w) Undo) w)).

(** ** Reading *)

(** The frame that has page [pgno] for this handle, and its content
    ([sqlite3WalFindFrame], [sqlite3WalReadFrame]). *)
Definition sqlite3WalReadFrame (iRead nOut : Z) (w : Handle) : list Z :=
  let sz := hdr_szPage (hdr w) in
  let sz := Z.land sz 65024 + Z.shiftl (Z.land sz 1) 16 in
  slice (walFrameOffset iRead sz + WAL_FRAME_HDRSIZE) (if sz <? nOut then sz else nOut) (file w).
Definition read_page (pgno : Z) (w : Handle) : option (list Z) :=
  let (iRead, rc) := walFindFrame (still (shm (ix w))) (wal (ix w)) pgno in
  if iRead =? 0 then None else Some (sqlite3WalReadFrame iRead (szPage w) w).

(** ** Recovery *)

(** The frames of one block of the index: [n] frames from [iFrame].  The state is
    the index, the header, and the header at the last commit; [stop] is set at a
    frame that is not valid. *)
Record Scan := { sc_ix : Writer; sc_hdr : WalHdr; sc_mx : Z; sc_commit : WalHdr; sc_stop : bool; sc_rc : Z }.

Fixpoint recover_frames (n : nat) (sz iFrame : Z) (f : list Z) (s : Scan) : Scan :=
  match n with
  | O => s
  | S n =>
    let aFrame := slice (walFrameOffset iFrame sz) (sz + WAL_FRAME_HDRSIZE) f in
    let aData := skipn (Z.to_nat WAL_FRAME_HDRSIZE) aFrame in
    let (d, c) := walDecodeFrame (sc_hdr s) aData aFrame in
    let hd := with_cksum c (sc_hdr s) in
    match d with
    | None => {| sc_ix := sc_ix s; sc_hdr := hd; sc_mx := sc_mx s; sc_commit := sc_commit s; sc_stop := true; sc_rc := SQLITE_OK |}
    | Some (pgno, nTruncate) =>
      let w := set_mxFrame (sc_mx s) (wal (sc_ix s)) in
      let (m, rc) := walIndexAppend w (shm (sc_ix s)) iFrame pgno in
      let x := {| wal := w; appended := iFrame; live := 0; shm := m |} in
      if negb (rc =? SQLITE_OK) then
        {| sc_ix := x; sc_hdr := hd; sc_mx := sc_mx s; sc_commit := sc_commit s; sc_stop := true; sc_rc := rc |}
      else
        recover_frames n sz (iFrame + 1) f
          (if negb (nTruncate =? 0)
           then {| sc_ix := x; sc_hdr := hd; sc_mx := iFrame; sc_commit := with_size nTruncate (szPage16 sz) hd;
                   sc_stop := false; sc_rc := SQLITE_OK |}
           else {| sc_ix := x; sc_hdr := hd; sc_mx := sc_mx s; sc_commit := sc_commit s; sc_stop := false; sc_rc := SQLITE_OK |})
    end
  end.

(** The blocks of the index, each built in private memory ([priv], arbitrary at
    first) and copied. *)
Fixpoint recover_blocks (n : nat) (sz iPg iLastFrame : Z) (priv : Z -> WalPage) (f : list Z) (s : Scan) : Scan :=
  match n with
  | O => s
  | S n =>
    let iLast := Z.min iLastFrame (u32 (HASHTABLE_NPAGE_ONE + iPg * HASHTABLE_NPAGE)) in
    let iFirst := 1 + iZero iPg in
    let x := sc_ix s in
    let rc := map_rc (wal x) iPg in
    if negb (rc =? SQLITE_OK) then
      {| sc_ix := x; sc_hdr := sc_hdr s; sc_mx := sc_mx s; sc_commit := sc_commit s; sc_stop := true; sc_rc := rc |} else
    let x := {| wal := wal x; appended := appended x; live := live x; shm := set_page iPg (priv iPg) (shm x) |} in
    let s := recover_frames (Z.to_nat (iLast - iFirst + 1)) sz iFirst f
               {| sc_ix := x; sc_hdr := sc_hdr s; sc_mx := sc_mx s; sc_commit := sc_commit s; sc_stop := false; sc_rc := SQLITE_OK |} in
    if sc_stop s then s else recover_blocks n sz (iPg + 1) iLastFrame priv f s
  end.

Definition hdr0 : WalHdr := {| nPage := 0; hdr_szPage := 0; aFrameCksum := (0, 0); aSalt := repeat 0 8; bigEndCksum := 0 |}.

(** The handle after recovery with the frames up to [mx]: the private and the
    shared header are the same. *)
Definition recovered (hd : WalHdr) (mx sz ckpt : Z) (x : Writer) (w : Handle) : Handle :=
  {| ix := {| wal := set_mxFrame mx (wal x); appended := mx; live := mx; shm := shm x |}; hdr := hd; shared_hdr := hd;
     szPage := sz; iReCksum := iReCksum w; nCkpt := ckpt; truncateOnCommit := truncateOnCommit w; mxWalSize := mxWalSize w; file := file w |}.

(** When recovery fails the shared header is not written. *)
Definition failed (hd : WalHdr) (mx sz ckpt : Z) (x : Writer) (w : Handle) : Handle :=
  {| ix := {| wal := set_mxFrame mx (wal x); appended := mx; live := live (ix w); shm := shm x |}; hdr := hd; shared_hdr := shared_hdr w;
     szPage := sz; iReCksum := iReCksum w; nCkpt := ckpt; truncateOnCommit := truncateOnCommit w; mxWalSize := mxWalSize w; file := file w |}.

(** What the header of the log file says: byte order, page size, checkpoint
    number, salt and checksum. *)
Definition read_header (f : list Z) : Z * Z * Z * WalHdr :=
  let aBuf := slice 0 WAL_HDRSIZE f in
  let magic := get4 0 aBuf in
  let big := Z.land magic 1 in
  (magic, get4 8 aBuf, get4 12 aBuf,
   {| nPage := 0; hdr_szPage := 0; aFrameCksum := walChecksumBytes (big =? SQLITE_BIGENDIAN) (slice 0 24 aBuf) (0, 0);
      aSalt := slice 16 8 aBuf; bigEndCksum := big |}).

(** [walIndexRecover], once it has its locks and its memory; the marks of the
    readers are not modelled. *)
Definition walIndexRecover (priv : Z -> WalPage) (w : Handle) : Handle * Z :=
  let f := file w in
  let nothing := recovered hdr0 0 (szPage w) (nCkpt w) (ix w) w in
  if size f <=? WAL_HDRSIZE then (nothing, SQLITE_OK)
  else
    let aBuf := slice 0 WAL_HDRSIZE f in
    let '(magic, sz, ckpt, hd) := read_header f in
    if negb (Z.land magic 4294967294 =? WAL_MAGIC) || negb (Z.land sz (sz - 1) =? 0) || (SQLITE_MAX_PAGE_SIZE <? sz) || (sz <? 512)
    then (nothing, SQLITE_OK)
    else if negb (fst (aFrameCksum hd) =? get4 24 aBuf) || negb (snd (aFrameCksum hd) =? get4 28 aBuf)
    then (recovered (with_cksum (0, 0) hd) 0 sz ckpt (ix w) w, SQLITE_OK)
    else if negb (get4 4 aBuf =? WAL_MAX_VERSION) then (failed hd 0 sz ckpt (ix w) w, SQLITE_CANTOPEN)
    else
      let iLastFrame := (size f - WAL_HDRSIZE) / (sz + WAL_FRAME_HDRSIZE) in
      let s := recover_blocks (Z.to_nat (walFramePage iLastFrame + 1)) sz 0 iLastFrame priv f
        {| sc_ix := ix w; sc_hdr := hd; sc_mx := 0; sc_commit := with_cksum (0, 0) hd; sc_stop := false; sc_rc := SQLITE_OK |} in
      if sc_rc s =? SQLITE_OK then (recovered (sc_commit s) (sc_mx s) sz ckpt (sc_ix s) w, SQLITE_OK)
      else (failed (sc_hdr s) (sc_mx s) sz ckpt (sc_ix s) w, sc_rc s).

(** ** The specification of recovery *)

Record Frame := { f_pgno : Z; f_trunc : Z; f_data : list Z }.

(** The valid frames from frame [iFrame] on, at most [n]. *)
Fixpoint scan (n : nat) (sz iFrame : Z) (f : list Z) (hd : WalHdr) : list Frame :=
  match n with
  | O => []
  | S n =>
    let b := slice (walFrameOffset iFrame sz) (sz + WAL_FRAME_HDRSIZE) f in
    let aData := skipn (Z.to_nat WAL_FRAME_HDRSIZE) b in
    match walDecodeFrame hd aData b with
    | (Some (pgno, trunc), c) => {| f_pgno := pgno; f_trunc := trunc; f_data := aData |} :: scan n sz (iFrame + 1) f (with_cksum c hd)
    | (None, _) => []
    end
  end.

(** The header of a log file is whole; it is also of the version that recovery
    knows. *)
Definition whole_header (f : list Z) : bool :=
  let '(magic, sz, _, hd) := read_header f in
  (Z.land magic 4294967294 =? WAL_MAGIC) && (Z.land sz (sz - 1) =? 0) && (sz <=? SQLITE_MAX_PAGE_SIZE) && (512 <=? sz)
  && (fst (aFrameCksum hd) =? get4 24 f) && (snd (aFrameCksum hd) =? get4 28 f).
Definition accepted_header (f : list Z) : bool := (WAL_HDRSIZE <? size f) && whole_header f.
Definition usable_header (f : list Z) : bool := accepted_header f && (get4 4 f =? WAL_MAX_VERSION).

(** The frames of a log file: the longest sequence of valid ones. *)
Definition valid_frames (f : list Z) : list Frame :=
  if usable_header f then
    let '(_, sz, _, hd) := read_header f in
    scan (Z.to_nat ((size f - WAL_HDRSIZE) / (sz + WAL_FRAME_HDRSIZE))) sz 1 f hd
  else [].

(** The number of frames up to the last commit. *)
Fixpoint last_commit (l : list Frame) : nat :=
  match l with
  | [] => O
  | fr :: l => match last_commit l with O => if f_trunc fr =? 0 then O else 1%nat | S n => S (S n) end
  end.

(** The content of the pages that a list of frames gives. *)
Definition put (p : Z) (d : list Z) (c : Z -> option (list Z)) : Z -> option (list Z) := fun q => if q =? p then Some d else c q.
Definition content (l : list Frame) : Z -> option (list Z) := fold_left (fun c fr => put (f_pgno fr) (f_data fr) c) l (fun _ => None).

(** The frames that recovery keeps. *)
Definition committed_frames (f : list Z) : list Frame := firstn (last_commit (valid_frames f)) (valid_frames f).

(** ** Slices of a file *)

Lemma size_app a b : size (a ++ b) = size a + size b.
Proof. unfold size. rewrite length_app. lia. Qed.
Lemma size_nonneg f : 0 <= size f.
Proof. unfold size. lia. Qed.
Lemma size_slice a n f : 0 <= a -> 0 <= n -> a + n <= size f -> size (slice a n f) = n.
Proof. unfold size, slice. intros. rewrite length_firstn, length_skipn. lia. Qed.
Lemma slice_0 a f : slice a 0 f = [].
Proof. reflexivity. Qed.

Lemma slice_split a n m f : 0 <= a -> 0 <= n -> 0 <= m -> slice a (n + m) f = slice a n f ++ slice (a + n) m f.
Proof.
  intros Ha Hn Hm. unfold slice. rewrite !Z2Nat.inj_add by lia. rewrite (Nat.add_comm (Z.to_nat a)), <- skipn_skipn.
  rewrite <- (firstn_skipn (Z.to_nat n) (skipn (Z.to_nat a) f)) at 1. rewrite firstn_app, firstn_firstn, length_firstn.
  replace (Nat.min (Z.to_nat n + Z.to_nat m) (Z.to_nat n)) with (Z.to_nat n) by lia. f_equal.
  destruct (Nat.le_gt_cases (Z.to_nat n) (length (skipn (Z.to_nat a) f))).
  - f_equal. lia.
  - rewrite !skipn_all2 with (l := skipn (Z.to_nat a) f) by lia. now rewrite !firstn_nil.
Qed.

Lemma slice_slice a n b m f : 0 <= a -> 0 <= b -> 0 <= n -> a + n <= m -> slice a n (slice b m f) = slice (b + a) n f.
Proof.
  intros. unfold slice. rewrite skipn_firstn_comm, firstn_firstn, skipn_skipn. f_equal; [lia|]. f_equal. lia.
Qed.

Lemma slice_skipn k a n f : 0 <= k -> 0 <= a -> slice a n (skipn (Z.to_nat k) f) = slice (k + a) n f.
Proof. intros. unfold slice. rewrite skipn_skipn. do 2 f_equal. lia. Qed.

Lemma skipn_slice k a n f : 0 <= a -> 0 <= k <= n -> skipn (Z.to_nat k) (slice a n f) = slice (a + k) (n - k) f.
Proof.
  intros. unfold slice. rewrite skipn_firstn_comm, skipn_skipn. f_equal; [lia|]. f_equal. lia.
Qed.

Lemma slice_app_at a c t n off : off = size a -> n = size c -> slice off n (a ++ c ++ t) = c.
Proof.
  unfold slice, size. intros -> ->. rewrite !Nat2Z.id, skipn_app, skipn_all, Nat.sub_diag. cbn [app skipn].
  now rewrite firstn_app, firstn_all, Nat.sub_diag, app_nil_r.
Qed.

Lemma app_inj_length {A} (a b c d : list A) : length a = length c -> a ++ b = c ++ d -> a = c /\ b = d.
Proof. revert c. induction a as [|x a IH]; intros [|y c] H E; try discriminate; [auto|]. injection E as -> E. destruct (IH c); auto; now subst. Qed.

Lemma slice_parts a n k x y f : 0 <= a -> 0 <= k <= n -> size x = k -> slice a n f = x ++ y -> slice a k f = x /\ slice (a + k) (n - k) f = y.
Proof.
  intros Ha Hk Hx E. replace n with (k + (n - k)) in E by lia. rewrite slice_split in E by lia.
  assert (Hl : (size (slice a k f) <= k)%Z) by (unfold size, slice; rewrite length_firstn; lia).
  assert (H : length (slice a k f) = length x).
  { destruct (Z.eq_dec (size (slice a k f)) k) as [Hs|Hs]; [unfold size in *; lia|]. exfalso.
    assert (Hn : slice (a + k) (n - k) f = []).
    { unfold slice, size in *. rewrite length_firstn, length_skipn in *. rewrite skipn_all2 by lia. apply firstn_nil. }
    rewrite Hn, app_nil_r in E. rewrite E, size_app in Hl, Hs. pose proof (size_nonneg y). lia. }
  now apply app_inj_length.
Qed.

Lemma slice_all f n : n = size f -> slice 0 n f = f.
Proof. intros ->. unfold slice, size. rewrite Nat2Z.id. apply firstn_all. Qed.

Lemma slice_app_l a n l r : 0 <= a -> 0 <= n -> a + n <= size l -> slice a n (l ++ r) = slice a n l.
Proof.
  unfold slice, size. intros. rewrite skipn_app, firstn_app, length_skipn. replace (Z.to_nat n - (length l - Z.to_nat a))%nat with O by lia.
  apply app_nil_r.
Qed.
Lemma slice_app_r a n l r : size l <= a -> slice a n (l ++ r) = slice (a - size l) n r.
Proof.
  unfold slice, size. intros. rewrite skipn_app, skipn_all2 by lia. cbn [app]. do 2 f_equal. lia.
Qed.

Section Write.
Variables (c f : list Z) (off : Z).
Hypothesis Hoff : 0 <= off.

Lemma prefix_size : size (firstn (Z.to_nat off) (f ++ repeat 0 (Z.to_nat off - length f))) = off.
Proof. unfold size. rewrite length_firstn, length_app, repeat_length. lia. Qed.

Lemma size_write : size (os_write c off f) = Z.max (size f) (off + size c).
Proof. unfold os_write. rewrite !size_app, prefix_size. unfold size. rewrite length_skipn. lia. Qed.

Lemma slice_write_same n : n = size c -> slice off n (os_write c off f) = c.
Proof. intros ->. unfold os_write. apply slice_app_at; [symmetry; apply prefix_size|reflexivity]. Qed.

Lemma slice_write_before a n : 0 <= a -> 0 <= n -> a + n <= off -> a + n <= size f -> slice a n (os_write c off f) = slice a n f.
Proof.
  intros. unfold os_write. rewrite slice_app_l by (rewrite ?prefix_size; lia).
  transitivity (slice (0 + a) n (f ++ repeat 0 (Z.to_nat off - length f))).
  - apply (slice_slice a n 0 off); lia.
  - apply slice_app_l; lia.
Qed.

Lemma slice_write_after a n : off + size c <= a -> slice a n (os_write c off f) = slice a n f.
Proof.
  intros H. pose proof (size_nonneg c). unfold os_write. rewrite app_assoc, slice_app_r; rewrite size_app, prefix_size; [|lia].
  replace (Z.to_nat off + length c)%nat with (Z.to_nat (off + size c)) by (unfold size; lia).
  rewrite slice_skipn by lia. f_equal. lia.
Qed.

End Write.

Lemma slice_truncate k a n f : 0 <= a -> 0 <= n -> a + n <= k -> slice a n (os_truncate k f) = slice a n f.
Proof. intros. apply (slice_slice a n 0 k f); lia. Qed.
Lemma size_truncate k f : 0 <= k <= size f -> size (os_truncate k f) = k.
Proof. intros. unfold os_truncate, size in *. rewrite length_firstn. lia. Qed.

(** Files that agree up to [k] agree on every slice below [k]. *)
Lemma slice_agree k f g a n : os_truncate k f = os_truncate k g -> 0 <= a -> 0 <= n -> a + n <= k -> slice a n f = slice a n g.
Proof. intros E Ha Hn Hk. rewrite <- (slice_truncate k a n f), <- (slice_truncate k a n g) by lia. now rewrite E. Qed.

Lemma bytes_slice a n f : bytes f -> bytes (slice a n f).
Proof.
  unfold bytes, slice. intros H. rewrite <- (firstn_skipn (Z.to_nat a) f) in H. apply Forall_app in H as [_ H].
  rewrite <- (firstn_skipn (Z.to_nat n) _) in H. now apply Forall_app in H as [H _].
Qed.

(** ** Integers in files *)

Lemma size_be4 v : size (be4 v) = 4.
Proof. unfold size, be4, sqlite3Put4byte. now rewrite !length_wr. Qed.

Lemma get4_be4 off v l : is_u32 v -> slice off 4 l = be4 v -> get4 off l = v.
Proof.
  intros Hv E. unfold get4. rewrite E. apply fourbyte_roundtrip; [exact Hv| |cbn; lia]. repeat constructor; unfold is_u8; lia.
Qed.

Lemma be4_get4 off l : bytes l -> 0 <= off -> off + 4 <= size l -> be4 (get4 off l) = slice off 4 l /\ is_u32 (get4 off l).
Proof.
  intros Hb Ho Hs. unfold get4. pose proof (bytes_slice off 4 l Hb) as Hb'. pose proof (size_slice off 4 l Ho ltac:(lia) Hs) as Hl.
  destruct (slice off 4 l) as [|a [|b [|c [|d [|]]]]]; unfold size in Hl; cbn in Hl; try lia.
  destruct (fourbyte_roundtrip [a; b; c; d] 0 ltac:(unfold is_u32; lia) Hb' ltac:(cbn; lia)) as (_ & E & Hu). split; [|exact Hu].
  rewrite <- E at 2. reflexivity.
Qed.

Lemma get4_slice off b m l : 0 <= off -> 0 <= b -> off + 4 <= m -> get4 off (slice b m l) = get4 (b + off) l.
Proof. intros. unfold get4. now rewrite slice_slice by lia. Qed.

Lemma get4_agree f g a : slice a 4 f = slice a 4 g -> get4 a f = get4 a g.
Proof. unfold get4. congruence. Qed.

(** ** Checksums *)

Definition pair_u32 (c : Z * Z) : Prop := is_u32 (fst c) /\ is_u32 (snd c).

Lemma u32_is x : is_u32 (u32 x).
Proof. unfold is_u32, u32. apply Z.mod_pos_bound. lia. Qed.
Lemma cksum_pair_u32 s x y : pair_u32 (cksum_pair s x y).
Proof. split; apply u32_is. Qed.

Lemma list_pairs (P : list Z -> Prop) : P [] -> (forall x, P [x]) -> (forall x y l, P l -> P (x :: y :: l)) -> forall l, P l.
Proof.
  intros H0 H1 H2 l. enough (P l /\ forall x, P (x :: l)) by tauto. induction l as [|y l [IH IH']]; split; auto.
Qed.

Lemma cksum_loop_u32 conv ws : forall s, pair_u32 s -> pair_u32 (cksum_loop conv ws s).
Proof.
  induction ws as [|x|x y ws IH] using list_pairs; intros s Hs; cbn [cksum_loop]; try exact Hs. apply IH, cksum_pair_u32.
Qed.

(** The unrolled loop computes the same checksum. *)
Lemma words_length l : forall n, length l = (4 * n)%nat -> length (words l) = n.
Proof.
  intros n. revert l. induction n as [|n IH]; intros l H; [destruct l; [reflexivity|discriminate]|].
  destruct l as [|a [|b [|c [|d l]]]]; cbn in H; try lia. cbn [words length]. rewrite IH; lia.
Qed.
Lemma unrolled_loop n : forall ws s, length ws = (16 * n)%nat -> cksum_unrolled ws s = cksum_loop (fun x => x) ws s.
Proof.
  induction n as [|n IH]; intros ws s H; [destruct ws; [reflexivity|discriminate]|].
  do 16 (destruct ws as [|? ws]; [cbn in H; lia|]). cbn [cksum_unrolled cksum_loop]. apply IH. cbn in H. lia.
Qed.

Lemma checksum_loop native a s : walChecksumBytes native a s = cksum_loop (if native then fun x => x else BYTESWAP32) (words a) s.
Proof.
  unfold walChecksumBytes. destruct native; cbn [negb]; [|reflexivity]. destruct (Z.eqb_spec (size a mod 64) 0) as [E|E]; [|reflexivity].
  apply (unrolled_loop (Z.to_nat (size a / 64))), words_length. unfold size in *. apply Z.mod_divide in E as [q E]; [|lia].
  rewrite E, Z.div_mul by lia. lia.
Qed.

Lemma checksum_u32 native a s : pair_u32 s -> pair_u32 (walChecksumBytes native a s).
Proof. rewrite checksum_loop. apply cksum_loop_u32. Qed.

(** ** Frames *)

Definition header8 (fr : Frame) : list Z := be4 (f_pgno fr) ++ be4 (f_trunc fr).
(** The checksum of a frame and the header after it. *)
Definition frame_cksum (hd : WalHdr) (fr : Frame) : Z * Z :=
  let native := bigEndCksum hd =? SQLITE_BIGENDIAN in walChecksumBytes native (f_data fr) (walChecksumBytes native (header8 fr) (aFrameCksum hd)).
Definition next (hd : WalHdr) (fr : Frame) : WalHdr := with_cksum (frame_cksum hd fr) hd.
Definition after (hd : WalHdr) (l : list Frame) : WalHdr := fold_left next l hd.
Definition signature (hd : WalHdr) (fr : Frame) : list Z :=
  aSalt hd ++ be4 (fst (frame_cksum hd fr)) ++ be4 (snd (frame_cksum hd fr)).

Definition frame_wf (sz : Z) (fr : Frame) : Prop :=
  is_u32 (f_pgno fr) /\ 0 < f_pgno fr /\ is_u32 (f_trunc fr) /\ size (f_data fr) = sz.
Definition hdr_wf (hd : WalHdr) : Prop := size (aSalt hd) = 8 /\ pair_u32 (aFrameCksum hd).

Lemma size_header8 fr : size (header8 fr) = 8.
Proof. unfold header8. rewrite size_app, !size_be4. reflexivity. Qed.
Lemma size_signature hd fr : size (aSalt hd) = 8 -> size (signature hd fr) = 16.
Proof. intros H. unfold signature. rewrite !size_app, !size_be4, H. reflexivity. Qed.
Lemma frame_cksum_u32 hd fr : hdr_wf hd -> pair_u32 (frame_cksum hd fr).
Proof. intros [_ H]. now apply checksum_u32, checksum_u32. Qed.
Lemma next_wf hd fr : hdr_wf hd -> hdr_wf (next hd fr).
Proof. intros H. split; [apply H|]. now apply frame_cksum_u32. Qed.
Lemma after_wf l : forall hd, hdr_wf hd -> hdr_wf (after hd l).
Proof. induction l as [|fr l IH]; intros hd H; [exact H|]. now apply IH, next_wf. Qed.
Lemma after_app hd l l' : after hd (l ++ l') = after (after hd l) l'.
Proof. apply fold_left_app. Qed.
Lemma after_const l : forall hd, aSalt (after hd l) = aSalt hd /\ bigEndCksum (after hd l) = bigEndCksum hd /\
  nPage (after hd l) = nPage hd /\ hdr_szPage (after hd l) = hdr_szPage hd.
Proof. induction l as [|fr l IH]; intros hd; [auto|]. exact (IH (next hd fr)). Qed.

(** Frame [i] of the file has the page of [fr], and is signed by [hd]. *)
Definition placed (sz : Z) (f : list Z) (i : Z) (fr : Frame) : Prop :=
  slice (walFrameOffset i sz) 8 f = header8 fr /\ slice (walFrameOffset i sz + 24) sz f = f_data fr.
Definition signed (sz : Z) (f : list Z) (i : Z) (hd : WalHdr) (fr : Frame) : Prop := slice (walFrameOffset i sz + 8) 16 f = signature hd fr.

(** Frames from [i] on, each signed by the header after the ones before. *)
Fixpoint chained (sz : Z) (f : list Z) (i : Z) (hd : WalHdr) (l : list Frame) : Prop :=
  match l with [] => True | fr :: l => placed sz f i fr /\ signed sz f i hd fr /\ chained sz f (i + 1) (next hd fr) l end.

Lemma offset_pos i sz : 1 <= i -> 0 <= sz -> 32 <= walFrameOffset i sz.
Proof. unfold walFrameOffset, WAL_HDRSIZE, WAL_FRAME_HDRSIZE. nia. Qed.
Lemma offset_next i sz : walFrameOffset (i + 1) sz = walFrameOffset i sz + (sz + 24).
Proof. unfold walFrameOffset, WAL_HDRSIZE, WAL_FRAME_HDRSIZE. ring. Qed.
Lemma offset_mono i j sz : 0 <= sz -> i < j -> walFrameOffset i sz + (sz + 24) <= walFrameOffset j sz.
Proof. unfold walFrameOffset, WAL_HDRSIZE, WAL_FRAME_HDRSIZE. nia. Qed.

Section Decode.
Variables (sz : Z) (f : list Z) (i : Z) (hd : WalHdr).
Hypothesis Hsz : 0 <= sz.
Hypothesis Hi : 1 <= i.
Hypothesis Hhd : hdr_wf hd.
Let b := slice (walFrameOffset i sz) (sz + WAL_FRAME_HDRSIZE) f.

Lemma frame_part a n : 0 <= a -> 0 <= n -> a + n <= sz + 24 -> slice a n b = slice (walFrameOffset i sz + a) n f.
Proof. intros. pose proof (offset_pos i sz Hi Hsz). apply slice_slice; unfold WAL_FRAME_HDRSIZE; lia. Qed.
Lemma frame_data : skipn (Z.to_nat WAL_FRAME_HDRSIZE) b = slice (walFrameOffset i sz + 24) sz f.
Proof.
  pose proof (offset_pos i sz Hi Hsz). unfold b. rewrite skipn_slice by (unfold WAL_FRAME_HDRSIZE; lia). unfold WAL_FRAME_HDRSIZE. f_equal. lia.
Qed.
Lemma frame_int a : 0 <= a -> a + 4 <= sz + 24 -> get4 a b = get4 (walFrameOffset i sz + a) f.
Proof. intros. unfold get4. now rewrite frame_part by lia. Qed.

Lemma bytes_eqb_eq a c : bytes_eqb a c = true <-> a = c.
Proof. unfold bytes_eqb. destruct (list_eq_dec _ _ _); split; congruence. Qed.

(** A signed frame is valid. *)
Lemma decode_signed fr : frame_wf sz fr -> placed sz f i fr -> signed sz f i hd fr ->
  walDecodeFrame hd (skipn (Z.to_nat WAL_FRAME_HDRSIZE) b) b = (Some (f_pgno fr, f_trunc fr), frame_cksum hd fr).
Proof.
  intros (Hp & Hp0 & Ht & Hl) [P1 P2] S. destruct Hhd as [Hs Hc]. pose proof (frame_cksum_u32 hd fr Hhd) as [C1 C2].
  unfold signed in S. assert (Ho : 32 <= walFrameOffset i sz) by now apply offset_pos.
  apply (slice_parts _ _ 8) in S as [S1 S2]; [|lia|lia|exact Hs]. apply (slice_parts _ _ 4) in S2 as [S2 S3]; [|lia|lia|apply size_be4].
  assert (P' := P1). apply (slice_parts _ _ 4) in P' as [P3 P4]; [|lia|lia|apply size_be4].
  unfold walDecodeFrame. rewrite !frame_data, !frame_int, !frame_part by lia. rewrite S1, !Z.add_0_r, P1, P2.
  rewrite (get4_be4 _ _ _ Hp P3), (get4_be4 _ _ _ Ht P4).
  replace (get4 (walFrameOffset i sz + 16) f) with (fst (frame_cksum hd fr))
    by (symmetry; apply get4_be4; [exact C1|]; rewrite <- S2; f_equal; lia).
  replace (get4 (walFrameOffset i sz + 20) f) with (snd (frame_cksum hd fr))
    by (symmetry; apply get4_be4; [exact C2|]; rewrite <- S3; f_equal; lia).
  replace (bytes_eqb (aSalt hd) (aSalt hd)) with true by (symmetry; now apply bytes_eqb_eq). cbn [negb].
  replace (f_pgno fr =? 0) with false by (symmetry; apply Z.eqb_neq; lia).
  fold (frame_cksum hd fr). now rewrite !Z.eqb_refl.
Qed.

(** A valid frame is signed. *)
Lemma decode_inv pgno trunc c : bytes f -> walFrameOffset (i + 1) sz <= size f ->
  walDecodeFrame hd (skipn (Z.to_nat WAL_FRAME_HDRSIZE) b) b = (Some (pgno, trunc), c) ->
  let fr := {| f_pgno := pgno; f_trunc := trunc; f_data := slice (walFrameOffset i sz + 24) sz f |} in
  frame_wf sz fr /\ placed sz f i fr /\ signed sz f i hd fr /\ c = frame_cksum hd fr.
Proof.
  intros Hb Hf E fr. rewrite offset_next in Hf. pose proof (offset_pos i sz Hi Hsz) as Ho.
  unfold walDecodeFrame in E. rewrite !frame_data, !frame_int, !frame_part in E by lia. rewrite !Z.add_0_r in E.
  destruct (be4_get4 (walFrameOffset i sz) f Hb ltac:(lia) ltac:(lia)) as [B1 U1].
  destruct (be4_get4 (walFrameOffset i sz + 4) f Hb ltac:(lia) ltac:(lia)) as [B2 U2].
  destruct (be4_get4 (walFrameOffset i sz + 16) f Hb ltac:(lia) ltac:(lia)) as [B3 _].
  destruct (be4_get4 (walFrameOffset i sz + 20) f Hb ltac:(lia) ltac:(lia)) as [B4 _].
  assert (H8 : slice (walFrameOffset i sz) 8 f = be4 (get4 (walFrameOffset i sz) f) ++ be4 (get4 (walFrameOffset i sz + 4) f))
    by (rewrite B1, B2, <- slice_split by lia; reflexivity).
  destruct (bytes_eqb _ _) eqn:Es; cbn [negb] in E; [|discriminate]. apply bytes_eqb_eq in Es.
  destruct (Z.eqb_spec (get4 (walFrameOffset i sz) f) 0) as [|H0]; [discriminate|].
  destruct (_ || _) eqn:Ec; [discriminate|]. rewrite orb_false_iff, !negb_false_iff, !Z.eqb_eq in Ec. destruct Ec as [E1 E2].
  injection E as Ep Et Ecc. subst pgno trunc.
  assert (EF : c = frame_cksum hd fr) by (rewrite <- Ecc, H8; reflexivity). rewrite Ecc, EF in E1, E2.
  split; [|split; [|split]].
  - split; [exact U1|]. split; [unfold is_u32 in U1; cbn [f_pgno fr]; lia|]. split; [exact U2|]. apply size_slice; lia.
  - split; [exact H8|reflexivity].
  - unfold signed, signature. rewrite Es, E1, E2, B3, B4. change 16 with (8 + (4 + 4)) at 1. rewrite !slice_split by lia.
    replace (walFrameOffset i sz + 8 + 8) with (walFrameOffset i sz + 16) by lia.
    replace (walFrameOffset i sz + 16 + 4) with (walFrameOffset i sz + 20) by lia. reflexivity.
  - exact EF.
Qed.

End Decode.

Lemma chained_app sz f l l' : forall i hd, chained sz f i hd (l ++ l') <-> chained sz f i hd l /\ chained sz f (i + Z.of_nat (length l)) (after hd l) l'.
Proof.
  induction l as [|fr l IH]; intros i hd; cbn [app chained length after fold_left].
  - rewrite Z.add_0_r. tauto.
  - rewrite IH. replace (i + Z.of_nat (S (length l))) with (i + 1 + Z.of_nat (length l)) by lia. fold (after (next hd fr) l). tauto.
Qed.

(** Scanning a chain finds its frames, then goes on. *)
Lemma scan_chain sz f m : 0 <= sz -> forall l i hd, 1 <= i -> hdr_wf hd -> Forall (frame_wf sz) l -> chained sz f i hd l ->
  scan (length l + m) sz i f hd = l ++ scan m sz (i + Z.of_nat (length l)) f (after hd l).
Proof.
  intros Hsz. induction l as [|fr l IH]; intros i hd Hi Hhd Hwf Hc; cbn [length Nat.add scan app].
  - rewrite Z.add_0_r. reflexivity.
  - inversion_clear Hwf as [|? ? Hfr Hl]. destruct Hc as (P & S & Hc). rewrite (decode_signed sz f i hd Hsz Hi Hhd fr Hfr P S).
    rewrite frame_data by assumption. fold (next hd fr). rewrite (IH (i + 1) (next hd fr)); [|lia|now apply next_wf|exact Hl|exact Hc].
    rewrite (proj2 P). destruct fr; cbn [f_pgno f_trunc f_data after fold_left].
    replace (i + Z.of_nat (Datatypes.S (length l))) with (i + 1 + Z.of_nat (length l)) by lia. reflexivity.
Qed.

(** What a scan finds is a chain of frames. *)
Lemma scan_inv sz f : 0 <= sz -> bytes f -> forall n i hd, 1 <= i -> hdr_wf hd -> walFrameOffset (i + Z.of_nat n) sz <= size f ->
  chained sz f i hd (scan n sz i f hd) /\ Forall (frame_wf sz) (scan n sz i f hd) /\ (length (scan n sz i f hd) <= n)%nat.
Proof.
  intros Hsz Hb. induction n as [|n IH]; intros i hd Hi Hhd Hf; cbn [scan]; [cbn; auto|].
  replace (i + Z.of_nat (S n)) with (i + 1 + Z.of_nat n) in Hf by lia.
  destruct (walDecodeFrame _ _ _) as [[[pgno trunc]|] c] eqn:E; [|cbn; repeat split; [constructor|lia]].
  apply decode_inv in E; try assumption.
  2: { destruct n; [now rewrite Z.add_0_r in Hf|]. pose proof (offset_mono (i + 1) (i + 1 + Z.of_nat (S n)) sz Hsz ltac:(lia)). lia. }
  rewrite frame_data by assumption. destruct E as (Hw & P & S & ->).
  destruct (IH (i + 1) (next hd {| f_pgno := pgno; f_trunc := trunc; f_data := slice (walFrameOffset i sz + 24) sz f |})) as (C & W & L);
    [lia|now apply next_wf|exact Hf|].
  cbn [chained length]. split; [auto|]. split; [now constructor|]. unfold next in L. lia.
Qed.

Lemma scan_stop sz f b : forall a i hd, (length (scan a sz i f hd) < a)%nat -> scan (a + b) sz i f hd = scan a sz i f hd.
Proof.
  induction a as [|a IH]; intros i hd; cbn [scan Nat.add]; [cbn; lia|]. destruct (walDecodeFrame _ _ _) as [[[p t]|] c]; [|reflexivity].
  cbn [length]. intros H. f_equal. apply IH. lia.
Qed.

(** ** Commits *)

Lemma last_commit_snoc l fr : last_commit (l ++ [fr]) = if f_trunc fr =? 0 then last_commit l else S (length l).
Proof.
  induction l as [|x l IH]; cbn [app last_commit length]; [destruct (f_trunc fr =? 0); reflexivity|]. rewrite IH.
  destruct (f_trunc fr =? 0); reflexivity.
Qed.
Lemma last_commit_le l : (last_commit l <= length l)%nat.
Proof. induction l as [|x l IH]; cbn [last_commit length]; [lia|]. destruct (last_commit l); [destruct (_ =? _)|]; lia. Qed.

Definition frame0 : Frame := {| f_pgno := 0; f_trunc := 0; f_data := [] |}.

(** The header of the last commit. *)
Definition commit_hdr (sz : Z) (base : WalHdr) (l : list Frame) : WalHdr :=
  match last_commit l with
  | O => with_cksum (0, 0) base
  | S n => with_size (f_trunc (nth n l frame0)) (szPage16 sz) (after base (firstn (S n) l))
  end.

Lemma commit_hdr_snoc sz base l fr : commit_hdr sz base (l ++ [fr]) =
  if f_trunc fr =? 0 then commit_hdr sz base l else with_size (f_trunc fr) (szPage16 sz) (after base (l ++ [fr])).
Proof.
  unfold commit_hdr. rewrite last_commit_snoc. destruct (f_trunc fr =? 0).
  - pose proof (last_commit_le l). destruct (last_commit l) as [|n]; [reflexivity|]. rewrite app_nth1 by lia. do 2 f_equal.
    rewrite firstn_app. replace (S n - length l)%nat with O by lia. apply app_nil_r.
  - rewrite app_nth2, Nat.sub_diag by lia. cbn [nth]. now rewrite firstn_all2 by (rewrite length_app; cbn [length]; lia).
Qed.

(** ** Recovery builds the index of the valid frames *)

(** The page of frame [g]. *)
Definition page_at (l : list Frame) (g : Z) : Z := nth (Z.to_nat (g - 1)) (map f_pgno l) 0.
Definition count (l : list Frame) : Z := Z.of_nat (length l).

Lemma count_app l l' : count (l ++ l') = count l + count l'.
Proof. unfold count. rewrite length_app. lia. Qed.

Lemma page_at_snoc l fr g : 1 <= g <= count l + 1 -> page_at (l ++ [fr]) g = upd (page_at l) (count l + 1) (f_pgno fr) g.
Proof.
  intros H. unfold page_at, upd, count in *. rewrite map_app. case Z.eqb_spec; intros Hg.
  - subst g. rewrite app_nth2; rewrite length_map; [|lia]. replace (Z.to_nat _ - length l)%nat with O by lia. reflexivity.
  - rewrite app_nth1 by (rewrite length_map; lia). reflexivity.
Qed.

Lemma page_at_pos sz l g : Forall (frame_wf sz) l -> 1 <= g <= count l -> 0 < page_at l g.
Proof.
  intros H Hg. unfold page_at, count in *. rewrite (nth_indep _ 0 (f_pgno frame0)) by (rewrite length_map; lia). rewrite map_nth.
  rewrite Forall_forall in H. apply (H (nth _ l frame0)). apply nth_In. lia.
Qed.

Section Recover.
Variables (sz : Z) (f : list Z) (base : WalHdr) (w0 : Wal) (priv : Z -> WalPage).
Hypothesis Hsz : 0 <= sz.
Hypothesis Hbytes : bytes f.
Hypothesis Hbase : hdr_wf base.
Hypothesis Hmap : mapped w0.

Record Found (l : list Frame) (s : Scan) : Prop := {
  fd_index : exists log dist, IndexOk log dist (count l) (shm (sc_ix s)) /\ forall g, 1 <= g <= count l -> log g = page_at l g;
  fd_wal : exists x, wal (sc_ix s) = set_mxFrame x w0;
  fd_mx : sc_mx s = Z.of_nat (last_commit l);
  fd_commit : sc_commit s = commit_hdr sz base l;
  fd_rc : sc_rc s = SQLITE_OK;
  fd_hdr : sc_stop s = false -> sc_hdr s = after base l;
  fd_wf : Forall (frame_wf sz) l }.

Lemma mapped_set x w : mapped w -> mapped (set_mxFrame x w).
Proof. intros H h. apply H. Qed.

Lemma set_same w : w = set_mxFrame (mxFrame w) w.
Proof. now destruct w. Qed.

Lemma found_append l s fr : Found l s -> frame_wf sz fr -> frame_ok (count l + 1) ->
  exists m, walIndexAppend (set_mxFrame (sc_mx s) (wal (sc_ix s))) (shm (sc_ix s)) (count l + 1) (f_pgno fr) = (m, SQLITE_OK) /\
    exists log dist, IndexOk log dist (count (l ++ [fr])) m /\ forall g, 1 <= g <= count (l ++ [fr]) -> log g = page_at (l ++ [fr]) g.
Proof.
  intros [(log & dist & HI & Hlog) (x & Hw) Hmx _ _ _ Hwf] Hfr Hok. rewrite Hw. pose proof (last_commit_le l) as Hlc.
  assert (HB : Batch (mxFrame (set_mxFrame (sc_mx s) (set_mxFrame x w0))) (count l) (count l)).
  { cbn [set_mxFrame mxFrame]. rewrite Hmx. unfold count in *. constructor; [lia|lia|now right|].
    destruct (Z.eq_dec (Z.of_nat (length l)) 0) as [|Hne]; [now left|right]. split; [lia|]. unfold end_of.
    pose proof (page_block (Z.of_nat (length l)) ltac:(lia) ltac:(unfold frame_ok in *; lia)) as Hb. cbv zeta in Hb. lia. }
  destruct (append_ok _ log dist (count l) (shm (sc_ix s)) (count l) (f_pgno fr) (mapped_set (sc_mx s) _ (mapped_set x w0 Hmap)) HI) as (d & m & E & HI').
  - intros g Hg. rewrite Hlog by lia. now apply (page_at_pos sz).
  - exact HB.
  - exact Hok.
  - exists m. split; [exact E|]. do 2 eexists. rewrite count_app. change (count [fr]) with 1. split; [exact HI'|].
    intros g Hg. rewrite page_at_snoc by lia. unfold upd. case Z.eqb_spec; intros; [reflexivity|]. apply Hlog. lia.
Qed.

Lemma recover_frames_found n : forall l s, Found l s -> sc_stop s = false -> frame_ok (count l + Z.of_nat n) ->
  walFrameOffset (count l + 1 + Z.of_nat n) sz <= size f ->
  let g := scan n sz (count l + 1) f (after base l) in
  let s' := recover_frames n sz (count l + 1) f s in Found (l ++ g) s' /\ sc_stop s' = (length g <? n)%nat.
Proof.
  induction n as [|n IH]; intros l s HF Hs Hok Hf; cbv zeta; cbn [scan recover_frames].
  - rewrite app_nil_r. split; [exact HF|exact Hs].
  - rewrite (fd_hdr _ _ HF Hs). destruct (walDecodeFrame _ _ _) as [[[pgno trunc]|] c] eqn:E.
    2: { rewrite app_nil_r. split; [|reflexivity]. destruct HF. constructor; cbn [sc_ix sc_mx sc_commit sc_rc sc_stop]; auto. discriminate. }
    assert (Hend : walFrameOffset (count l + 1 + 1) sz <= size f).
    { destruct n; [exact Hf|]. pose proof (offset_mono (count l + 1 + 1) (count l + 1 + Z.of_nat (S (S n))) sz Hsz ltac:(lia)). lia. }
    apply decode_inv in E; try assumption; [|unfold count; lia]. rewrite frame_data by (assumption || unfold count; lia).
    set (fr := {| f_pgno := pgno; f_trunc := trunc; f_data := _ |}) in *. destruct E as (Hw & P & Sg & ->).
    destruct (found_append l s fr HF Hw ltac:(unfold frame_ok, count in *; lia)) as (m & Ea & Hix). cbn [f_pgno fr] in Ea. rewrite Ea.
    cbn [Z.eqb SQLITE_OK negb]. fold (next (after base l) fr). change (next (after base l) fr) with (after (after base l) [fr]). rewrite <- after_app.
    set (s1 := if negb (trunc =? 0) then _ else _).
    assert (HF1 : Found (l ++ [fr]) s1 /\ sc_stop s1 = false).
    { destruct HF as [_ (x & Hx) Hmx Hc Hrc Hh Hwf]. unfold s1.
      split; [|destruct (negb _); reflexivity].
      constructor; rewrite ?commit_hdr_snoc, ?last_commit_snoc; cbn [f_trunc fr];
        destruct (trunc =? 0); cbn [negb sc_ix sc_mx sc_commit sc_rc sc_hdr shm wal]; try reflexivity; try assumption.
      all: try (rewrite Hx; eexists; reflexivity).
      - unfold count. lia.
      - apply Forall_app. auto.
      - apply Forall_app. auto. }
    destruct HF1 as [HF1 Hs1]. specialize (IH (l ++ [fr]) s1 HF1 Hs1).
    rewrite count_app in IH. change (count [fr]) with 1 in IH. cbv zeta in IH. destruct IH as [IH1 IH2].
    + unfold frame_ok in *. lia.
    + replace (count l + 1 + 1 + Z.of_nat n) with (count l + 1 + Z.of_nat (S n)) by lia. exact Hf.
    + rewrite <- app_assoc in IH1. cbn [app] in IH1. split; [exact IH1|]. rewrite IH2. reflexivity.
Qed.
Lemma scan_full a b i hd : 1 <= i -> hdr_wf hd -> walFrameOffset (i + Z.of_nat a) sz <= size f -> length (scan a sz i f hd) = a ->
  scan (a + b) sz i f hd = scan a sz i f hd ++ scan b sz (i + Z.of_nat a) f (after hd (scan a sz i f hd)).
Proof.
  intros Hi Hhd Hf Hl. destruct (scan_inv sz f Hsz Hbytes a i hd Hi Hhd Hf) as (C & W & _).
  pose proof (scan_chain sz f b Hsz _ i hd Hi Hhd W C) as E. now rewrite Hl in E.
Qed.

Lemma found_page l s h p : Found l s -> 0 <= h -> zero_of h = count l ->
  let x := sc_ix s in
  Found l {| sc_ix := {| wal := wal x; appended := appended x; live := live x; shm := set_page h p (shm x) |};
             sc_hdr := sc_hdr s; sc_mx := sc_mx s; sc_commit := sc_commit s; sc_stop := sc_stop s; sc_rc := SQLITE_OK |}.
Proof.
  intros [(log & dist & HI & Hlog) Hx Hmx Hc Hrc Hh Hwf] Hh0 Hz. constructor; cbn [sc_ix sc_hdr sc_mx sc_commit sc_stop sc_rc wal shm]; auto.
  exists log, dist. split; [|exact Hlog]. now apply index_set_above.
Qed.

Lemma block_last iPg iLastFrame : 0 <= iPg <= 2 ^ 19 ->
  Z.min iLastFrame (u32 (HASHTABLE_NPAGE_ONE + iPg * HASHTABLE_NPAGE)) = Z.min iLastFrame (zero_of (iPg + 1)).
Proof.
  intros H. f_equal. rewrite zero_of_next by lia. unfold u32, zero_of, cap. change HASHTABLE_NPAGE_ONE with 4062. change HASHTABLE_NPAGE with 4096.
  rewrite Z.mod_small by lia. case Z.eqb_spec; lia.
Qed.

Lemma recover_blocks_found n L : frame_ok L -> walFrameOffset (L + 1) sz <= size f -> forall iPg l s,
  0 <= iPg -> Z.of_nat n = walFramePage L + 1 - iPg -> count l = Z.min L (zero_of iPg) -> Found l s -> sc_stop s = false ->
  Found (l ++ scan (Z.to_nat (L - count l)) sz (count l + 1) f (after base l)) (recover_blocks n sz iPg L priv f s).
Proof.
  intros HL Hf.
  assert (Hpg : 0 <= walFramePage L <= 2 ^ 19 /\ zero_of (walFramePage L) <= L <= zero_of (walFramePage L + 1)).
  { destruct (Z.eq_dec L 0) as [->|Hne]; [cbn; lia|]. pose proof (page_block L ltac:(unfold frame_ok in HL; lia) HL) as Hb. cbv zeta in Hb.
    rewrite zero_of_next by lia. lia. }
  induction n as [|n IH]; intros iPg l s Hp Hn Hc HF Hs; cbn [recover_blocks].
  - replace iPg with (walFramePage L + 1) in Hc by lia. replace (L - count l) with 0 by lia. now rewrite app_nil_r.
  - pose proof (zero_of_mono iPg (walFramePage L) ltac:(lia)) as Hm. pose proof (cap_bounds iPg) as Hcap. pose proof (zero_of_next iPg Hp) as Hzn.
    rewrite block_last, iZero_eq by lia. destruct (fd_wal _ _ HF) as (x & Hx).
    replace (map_rc (wal (sc_ix s)) iPg) with 0 by (rewrite Hx; symmetry; apply Hmap). cbn [Z.eqb SQLITE_OK negb].
    pose proof (found_page l s iPg (priv iPg) HF Hp ltac:(lia)) as HP. cbv zeta in HP. rewrite Hs in HP. set (s1 := {| sc_ix := _ |}) in *.
    set (a := Z.to_nat (Z.min L (zero_of (iPg + 1)) - (1 + zero_of iPg) + 1)). replace (1 + zero_of iPg) with (count l + 1) by lia.
    assert (Ha : Z.of_nat a = Z.min L (zero_of (iPg + 1)) - count l) by lia.
    assert (Hend : walFrameOffset (count l + 1 + Z.of_nat a) sz <= size f).
    { destruct (Z.eq_dec (count l + Z.of_nat a) L) as [E|E]; [replace (count l + 1 + Z.of_nat a) with (L + 1) by lia; exact Hf|].
      pose proof (offset_mono (count l + 1 + Z.of_nat a) (L + 1) sz Hsz ltac:(lia)). lia. }
    destruct (recover_frames_found a l s1 HP eq_refl ltac:(unfold frame_ok, count in *; lia) Hend) as [HF1 Hs1].
    destruct (scan_inv sz f Hsz Hbytes a (count l + 1) (after base l) ltac:(unfold count; lia) ltac:(now apply after_wf) Hend) as (_ & _ & Hle).
    replace (Z.to_nat (L - count l)) with (a + Z.to_nat (L - count l - Z.of_nat a))%nat by lia. rewrite Hs1.
    destruct (Nat.ltb_spec (length (scan a sz (count l + 1) f (after base l))) a) as [Hlt|Hge].
    + rewrite scan_stop by exact Hlt. exact HF1.
    + assert (El : length (scan a sz (count l + 1) f (after base l)) = a) by lia.
      rewrite scan_full; [|unfold count; lia|now apply after_wf|exact Hend|exact El]. rewrite app_assoc.
      assert (Ec : count (l ++ scan a sz (count l + 1) f (after base l)) = count l + Z.of_nat a) by (rewrite count_app; unfold count at 2; lia).
      specialize (IH (iPg + 1) _ _ ltac:(lia) ltac:(lia) ltac:(rewrite Ec; lia) HF1 Hs1).
      rewrite Ec, after_app in IH. replace (L - (count l + Z.of_nat a)) with (L - count l - Z.of_nat a) in IH by lia.
      replace (count l + Z.of_nat a + 1) with (count l + 1 + Z.of_nat a) in IH by lia. exact IH.
Qed.
End Recover.

(** ** Reading a page through the index *)

(** The newest frame of a page has its content. *)
Lemma newest_snoc l fr p : newest (page_at (l ++ [fr])) p 1 (count l + 1) = if f_pgno fr =? p then count l + 1 else newest (page_at l) p 1 (count l).
Proof.
  unfold newest. replace (Z.to_nat (count l + 1)) with (S (length l)) by (unfold count; lia).
  replace (Z.to_nat (count l)) with (length l) by (unfold count; lia). cbn [newest_nat].
  replace (Z.of_nat (S (length l))) with (count l + 1) by (unfold count; lia). replace (1 <=? count l + 1) with true by (symmetry; apply Z.leb_le; unfold count; lia).
  rewrite page_at_snoc by (unfold count; lia). rewrite upd_same. cbn [andb]. destruct (f_pgno fr =? p); [reflexivity|].
  apply newest_ext. intros g Hg. rewrite page_at_snoc by (unfold count; lia). apply upd_other. unfold count. lia.
Qed.

Lemma content_snoc l fr : content (l ++ [fr]) = put (f_pgno fr) (f_data fr) (content l).
Proof. unfold content. now rewrite fold_left_app. Qed.

Lemma content_newest l p : 
  (newest (page_at l) p 1 (count l) = 0 /\ content l p = None) \/
  (1 <= newest (page_at l) p 1 (count l) <= count l /\ content l p = Some (f_data (nth (Z.to_nat (newest (page_at l) p 1 (count l) - 1)) l frame0)) /\
   f_pgno (nth (Z.to_nat (newest (page_at l) p 1 (count l) - 1)) l frame0) = p).
Proof.
  induction l as [|fr l IH] using rev_ind; [now left|]. rewrite count_app. change (count [fr]) with 1. rewrite newest_snoc, content_snoc. unfold put.
  rewrite (Z.eqb_sym p). destruct (Z.eqb_spec (f_pgno fr) p) as [E|E].
  - right. split; [unfold count; lia|]. rewrite app_nth2 by (unfold count; lia). replace (Z.to_nat _ - length l)%nat with O by (unfold count; lia). auto.
  - destruct IH as [IH|(H & E1 & E2)]; [now left|right]. split; [lia|]. rewrite app_nth1 by (unfold count in *; lia). auto.
Qed.

(** Page sizes. *)
Definition page_size (sz : Z) : Prop := In sz [512; 1024; 2048; 4096; 8192; 16384; 32768; 65536].

Lemma page_size_pow2 sz : 512 <= sz <= 65536 -> Z.land sz (sz - 1) = 0 -> page_size sz.
Proof.
  intros H E. set (k := Z.log2 sz). destruct (Z.log2_spec sz ltac:(lia)) as [H1 H2]. fold k in H1, H2.
  assert (Hk : 9 <= k <= 16) by (split; [change 9 with (Z.log2 512)|change 16 with (Z.log2 65536)]; apply Z.log2_le_mono; lia).
  assert (Ek : sz = 2 ^ k).
  { destruct (Z.eq_dec sz (2 ^ k)) as [|Hne]; [assumption|]. exfalso.
    assert (El : Z.log2 (sz - 1) = k) by (apply Z.log2_unique; lia).
    apply (f_equal (fun x => Z.testbit x k)) in E. rewrite Z.land_spec, Z.testbit_0_l in E.
    rewrite <- El in E at 2. unfold k in E. rewrite !Z.bit_log2 in E by lia. discriminate. }
  assert (Hc : k = 9 \/ k = 10 \/ k = 11 \/ k = 12 \/ k = 13 \/ k = 14 \/ k = 15 \/ k = 16) by lia.
  clearbody k. subst sz. unfold page_size. repeat destruct Hc as [->|Hc]; try (subst k); cbn; tauto.
Qed.

Lemma page_size_16 sz : page_size sz -> let z := szPage16 sz in Z.land z 65024 + Z.shiftl (Z.land z 1) 16 = sz.
Proof. intros H. repeat destruct H as [<-|H]; try reflexivity. destruct H. Qed.
Lemma page_size_pos sz : page_size sz -> 512 <= sz <= 65536.
Proof. intros H. repeat destruct H as [<-|H]; try lia. destruct H. Qed.

(** The log of the index, with [c] frames committed. *)
Definition log_of (l : list Frame) (c : Z) : Log := {| pages := map f_pgno l; private := count l; shared := c |}.

(** What a handle needs to read the frames [l] of its file. *)
Record Readable (sz : Z) (l : list Frame) (c : Z) (w : Handle) : Prop := {
  rd_rel : exists log dist s, Rel log dist s (log_of l c) (ix w);
  rd_size : 1 <= count l -> szPage w = sz /\ hdr_szPage (hdr w) = szPage16 sz;
  rd_data : forall g, 1 <= g <= count l -> slice (walFrameOffset g sz + 24) sz (file w) = f_data (nth (Z.to_nat (g - 1)) l frame0) }.

(** A handle in a read transaction that uses the log. *)
Definition Reading (c : Z) (x : Wal) : Prop := 1 <= minFrame x <= c + 1 /\ frame_ok (minFrame x) /\ reads_wal x.
(** All but [mxFrame] is the same. *)
Definition same_wal (x y : Wal) : Prop := exists n, y = set_mxFrame n x.

Lemma same_wal_refl x : same_wal x x.
Proof. exists (mxFrame x). now destruct x. Qed.
Lemma same_wal_trans x y z : same_wal x y -> same_wal y z -> same_wal x z.
Proof. intros [n ->] [m ->]. now exists m. Qed.
Lemma same_wal_reading c c' x y : same_wal x y -> c <= c' -> Reading c x -> Reading c' y.
Proof. intros [n ->] Hc ([H1 H2] & H3 & H4). split; [|split; [exact H3|exact H4]]. cbn [set_mxFrame minFrame]. lia. Qed.
Lemma same_wal_min x y : same_wal x y -> minFrame y = minFrame x.
Proof. now intros [n ->]. Qed.

Lemma find_frame log dist s l c x p : Rel log dist s (log_of l c) x -> Reading c (wal x) ->
  walFindFrame (still (shm x)) (wal x) p = (newest (page_at l) p (minFrame (wal x)) (count l), SQLITE_OK).
Proof.
  intros [HI Hlog _ Hlen Hn _ Hord _ Hmap Hok] (_ & Hmin & Hr). cbn [log_of private shared] in *.
  assert (Hc : appended x = count l) by (rewrite <- Hlen; unfold len, count; cbn [log_of pages]; now rewrite length_map).
  assert (Hmx : frame_ok (mxFrame (wal x))) by (unfold frame_ok in *; lia).
  pose proof (find_total log dist s (wal x) _ p Hmap HI Hmx ltac:(lia) Hmin) as Hrc.
  destruct (walFindFrame _ _ _) as [r rc] eqn:E. cbn [snd] in Hrc. subst rc. f_equal.
  assert (HRd : Reads log dist (wal x) (still (shm x))).
  { intros t h Hh Hz. destruct (HI h Hh ltac:(lia)) as [HE Hrg _]. split.
    - apply (entries_less _ _ _ (Z.min (cap h) (s - zero_of h))); [lia|exact HE].
    - intros k Hk. specialize (Hrg k Hk). unfold still. lia. }
  rewrite (find_sound log dist _ _ _ HRd Hmx r Hmap Hmin Hr E), <- Hn. apply newest_ext. intros g Hg.
  rewrite Hlog by (unfold count in *; lia). reflexivity.
Qed.

Lemma read_content sz l c w p : page_size sz -> Readable sz l c w -> Reading c (wal (ix w)) -> minFrame (wal (ix w)) = 1 -> read_page p w = content l p.
Proof.
  intros Hsz HR Hr Hm. unfold read_page. destruct (rd_rel _ _ _ _ HR) as (log & dist & s & HL).
  rewrite (find_frame log dist s l c _ p HL Hr), Hm. destruct (content_newest l p) as [[-> ->]|(H & -> & _)]; [reflexivity|].
  set (r := newest _ _ _ _) in *. replace (r =? 0) with false by (symmetry; apply Z.eqb_neq; lia). f_equal. unfold sqlite3WalReadFrame.
  destruct (rd_size _ _ _ _ HR ltac:(lia)) as [-> ->]. rewrite (page_size_16 sz Hsz), Z.ltb_irrefl. now apply (rd_data _ _ _ _ HR).
Qed.

(** ** Recovery *)

Lemma chained_nth sz f l : forall i hd k, chained sz f i hd l -> (k < length l)%nat -> placed sz f (i + Z.of_nat k) (nth k l frame0).
Proof.
  induction l as [|fr l IH]; intros i hd k Hc Hk; cbn [length] in Hk; [lia|]. destruct Hc as (P & _ & Hc).
  destruct k as [|k]; cbn [nth]; [now rewrite Z.add_0_r|]. replace (i + Z.of_nat (S k)) with (i + 1 + Z.of_nat k) by lia.
  apply (IH _ (next hd fr)); [exact Hc|lia].
Qed.

Lemma page_at_firstn k l g : 1 <= g <= Z.of_nat k -> page_at (firstn k l) g = page_at l g.
Proof.
  intros H. unfold page_at. rewrite <- firstn_map, nth_firstn. replace (Z.to_nat (g - 1) <? k)%nat with true; [reflexivity|]. symmetry. apply Nat.ltb_lt. lia.
Qed.
Lemma nth_first k (l : list Frame) g : 1 <= g <= Z.of_nat k -> nth (Z.to_nat (g - 1)) (firstn k l) frame0 = nth (Z.to_nat (g - 1)) l frame0.
Proof.
  intros H. rewrite nth_firstn. replace (Z.to_nat (g - 1) <? k)%nat with true; [reflexivity|]. symmetry. apply Nat.ltb_lt. lia.
Qed.

(** A handle that recovery can use. *)
Record Opened (w : Handle) : Prop := {
  op_map : mapped (wal (ix w));
  op_min : minFrame (wal (ix w)) = 1;
  op_reads : reads_wal (wal (ix w));
  op_bytes : bytes (file w);
  op_size : size (file w) < 2 ^ 40 }.

Lemma opened_reading w x c : Opened w -> same_wal (wal (ix w)) x -> 0 <= c -> Reading c x.
Proof. intros [_ Hm Hr _ _] Hs Hc. apply (same_wal_reading 0 c _ _ Hs Hc). split; [lia|]. rewrite Hm. split; [unfold frame_ok; lia|exact Hr]. Qed.

Lemma recovered_none hd sz sz' ckpt w : Opened w -> Readable sz [] 0 (recovered hd 0 sz' ckpt (ix w) w).
Proof.
  intros [H1 H2 H3 _ _]. constructor; cbn [recovered ix wal set_mxFrame mxFrame minFrame file]; try assumption; try (unfold count; cbn [length]; lia).
  exists (fun _ => 0), (fun _ _ => 0), 0. exact (fresh_rel (wal (ix w)) (shm (ix w)) H1).
Qed.

(** The frames, and the header of the file, of a log with a usable header. *)
Definition base_of (f : list Z) : WalHdr := snd (read_header f).
Definition size_of (f : list Z) : Z := snd (fst (fst (read_header f))).
Definition ckpt_of (f : list Z) : Z := snd (fst (read_header f)).

Lemma base_wf f : 32 <= size f -> hdr_wf (base_of f).
Proof.
  intros H. split; cbn [base_of read_header snd aSalt aFrameCksum].
  - rewrite slice_slice by (unfold WAL_HDRSIZE; lia). apply size_slice; lia.
  - apply checksum_u32. split; unfold is_u32; cbn; lia.
Qed.

Lemma accepted_size f : accepted_header f = true -> page_size (size_of f) /\ 32 < size f.
Proof.
  unfold accepted_header, whole_header. change (read_header f) with (fst (fst (fst (read_header f))), size_of f, ckpt_of f, base_of f). cbv iota.
  rewrite !andb_true_iff, Z.ltb_lt, !Z.leb_le, !Z.eqb_eq. unfold WAL_HDRSIZE, SQLITE_MAX_PAGE_SIZE. intros H. split; [|lia]. apply page_size_pow2; lia.
Qed.

(** The four ends of [walIndexRecover]. *)
Lemma recover_cases priv w : let f := file w in let L := (size f - WAL_HDRSIZE) / (size_of f + WAL_FRAME_HDRSIZE) in
  walIndexRecover priv w =
  if negb (accepted_header f) then
    (if (WAL_HDRSIZE <? size f) && (Z.land (get4 0 f) 4294967294 =? WAL_MAGIC) && (Z.land (size_of f) (size_of f - 1) =? 0)
        && (size_of f <=? SQLITE_MAX_PAGE_SIZE) && (512 <=? size_of f)
     then (recovered (with_cksum (0, 0) (base_of f)) 0 (size_of f) (ckpt_of f) (ix w) w, SQLITE_OK)
     else (recovered hdr0 0 (szPage w) (nCkpt w) (ix w) w, SQLITE_OK))
  else if negb (get4 4 f =? WAL_MAX_VERSION) then (failed (base_of f) 0 (size_of f) (ckpt_of f) (ix w) w, SQLITE_CANTOPEN)
  else
    let s := recover_blocks (Z.to_nat (walFramePage L + 1)) (size_of f) 0 L priv f
        {| sc_ix := ix w; sc_hdr := base_of f; sc_mx := 0; sc_commit := with_cksum (0, 0) (base_of f); sc_stop := false; sc_rc := SQLITE_OK |} in
      if sc_rc s =? SQLITE_OK then (recovered (sc_commit s) (sc_mx s) (size_of f) (ckpt_of f) (sc_ix s) w, SQLITE_OK)
      else (failed (sc_hdr s) (sc_mx s) (size_of f) (ckpt_of f) (sc_ix s) w, sc_rc s).
Proof.
  cbv zeta. unfold walIndexRecover, accepted_header, whole_header. set (f := file w).
  change (read_header f) with (get4 0 (slice 0 WAL_HDRSIZE f), size_of f, ckpt_of f, base_of f). cbv iota zeta.
  rewrite !get4_slice by (unfold WAL_HDRSIZE; lia). cbn [Z.add]. rewrite !Z.leb_antisym, Z.ltb_antisym.
  destruct (size f <=? WAL_HDRSIZE); cbn [negb andb]; [reflexivity|].
  destruct (Z.land (get4 0 f) 4294967294 =? WAL_MAGIC); cbn [negb andb orb]; [|reflexivity].
  destruct (Z.land (size_of f) (size_of f - 1) =? 0); cbn [negb andb orb]; [|reflexivity].
  destruct (SQLITE_MAX_PAGE_SIZE <? size_of f); cbn [negb andb orb]; [reflexivity|].
  destruct (size_of f <? 512); cbn [negb andb orb]; [reflexivity|].
  destruct (fst (aFrameCksum (base_of f)) =? get4 24 f); cbn [negb andb orb]; [|reflexivity].
  destruct (snd (aFrameCksum (base_of f)) =? get4 28 f); cbn [negb andb orb]; reflexivity.
Qed.

Definition recovered_ok (f : list Z) : bool := negb (accepted_header f) || (get4 4 f =? WAL_MAX_VERSION).

Lemma valid_frames_eq f : usable_header f = true ->
  valid_frames f = scan (Z.to_nat ((size f - WAL_HDRSIZE) / (size_of f + WAL_FRAME_HDRSIZE))) (size_of f) 1 f (base_of f).
Proof.
  intros H. unfold valid_frames. rewrite H.
  change (read_header f) with (fst (fst (fst (read_header f))), size_of f, ckpt_of f, base_of f). reflexivity.
Qed.

(** The number of frames that fit in the file. *)
Lemma frames_fit f sz : 512 <= sz -> 32 <= size f < 2 ^ 40 ->
  let L := (size f - WAL_HDRSIZE) / (sz + WAL_FRAME_HDRSIZE) in frame_ok L /\ walFrameOffset (L + 1) sz <= size f.
Proof.
  intros Hsz Hf L. unfold frame_ok, walFrameOffset, L, WAL_HDRSIZE, WAL_FRAME_HDRSIZE in *.
  pose proof (Z.mul_div_le (size f - 32) (sz + 24) ltac:(lia)) as H1.
  assert (H0 : 0 <= (size f - 32) / (sz + 24)) by (apply Z.div_pos; lia). split; [|lia]. split; [exact H0|]. nia.
Qed.

Lemma valid_chained f : bytes f -> size f < 2 ^ 40 -> usable_header f = true ->
  chained (size_of f) f 1 (base_of f) (valid_frames f) /\ Forall (frame_wf (size_of f)) (valid_frames f) /\
  walFrameOffset (count (valid_frames f) + 1) (size_of f) <= size f /\ frame_ok (count (valid_frames f)).
Proof.
  intros Hb Hf Hu. assert (Ha : accepted_header f = true) by (unfold usable_header in Hu; now apply andb_true_iff in Hu).
  destruct (accepted_size f Ha) as [Hps H32]. apply page_size_pos in Hps. rewrite (valid_frames_eq f Hu).
  pose proof (frames_fit f (size_of f) ltac:(lia) ltac:(lia)) as [Hok Hfit]. set (L := _ / _) in *.
  destruct (scan_inv (size_of f) f ltac:(lia) Hb (Z.to_nat L) 1 (base_of f)) as (C & W & Hl).
  - lia.
  - apply base_wf. lia.
  - unfold frame_ok in Hok. replace (1 + Z.of_nat (Z.to_nat L)) with (L + 1) by lia. exact Hfit.
  - unfold frame_ok in *. split; [exact C|]. split; [exact W|]. split; [|unfold count; lia].
    destruct (Z.eq_dec (count (scan (Z.to_nat L) (size_of f) 1 f (base_of f))) L) as [->|Hne]; [exact Hfit|].
    pose proof (offset_mono (count (scan (Z.to_nat L) (size_of f) 1 f (base_of f)) + 1) (L + 1) (size_of f) ltac:(lia) ltac:(unfold count in *; lia)). lia.
Qed.

Lemma count_committed f : count (committed_frames f) = Z.of_nat (last_commit (valid_frames f)).
Proof. unfold count, committed_frames. rewrite firstn_length_le; [reflexivity|apply last_commit_le]. Qed.

Lemma found_rel sz base w0 l s : mapped w0 -> frame_ok (count l) -> Found sz base w0 l s ->
  let k := last_commit l in exists log dist s', Rel log dist s' (log_of (firstn k l) (Z.of_nat k))
    {| wal := set_mxFrame (sc_mx s) (wal (sc_ix s)); appended := sc_mx s; live := sc_mx s; shm := shm (sc_ix s) |}.
Proof.
  intros Hmap Hok [(log & dist & HI & Hlog) (x & Hx) Hmx _ _ _ Hwf] k. pose proof (last_commit_le l) as Hk. fold k in Hk, Hmx.
  assert (Hcnt : count (firstn k l) = Z.of_nat k) by (unfold count; rewrite firstn_length_le; lia).
  exists log, dist, (count l). rewrite Hx, Hmx. constructor; cbn [wal appended live shm set_mxFrame mxFrame log_of private shared]; try lia.
  - exact HI.
  - intros g Hg. rewrite Hlog by (unfold count; lia). symmetry. now apply page_at_firstn.
  - intros g Hg. rewrite Hlog by exact Hg. now apply (page_at_pos sz).
  - unfold len. cbn [pages log_of]. rewrite length_map. exact Hcnt.
  - unfold count. lia.
  - exact Hmap.
  - unfold frame_ok, count in *. lia.
Qed.

Record Recovery (f : list Z) (w : Handle) : Prop := {
  rv_file : file w = f;
  rv_read : forall sz, (usable_header f = true -> sz = size_of f) -> Readable sz (committed_frames f) (count (committed_frames f)) w;
  rv_shared : shared_hdr w = hdr w;
  rv_salt : size (aSalt (hdr w)) = 8;
  rv_usable : usable_header f = true -> szPage w = size_of f /\ hdr w = commit_hdr (size_of f) (base_of f) (valid_frames f) }.

Lemma committed_none f : usable_header f = false -> committed_frames f = [].
Proof. intros H. unfold committed_frames, valid_frames. now rewrite H. Qed.

Lemma recovery_none hd sz' ckpt w : Opened w -> usable_header (file w) = false -> size (aSalt hd) = 8 ->
  Recovery (file w) (recovered hd 0 sz' ckpt (ix w) w).
Proof.
  intros Ho Hu Hs. constructor; rewrite ?(committed_none _ Hu); try reflexivity; try congruence; try assumption.
  intros sz _. now apply recovered_none.
Qed.

Lemma commit_hdr_salt sz base l : aSalt (commit_hdr sz base l) = aSalt base /\ bigEndCksum (commit_hdr sz base l) = bigEndCksum base.
Proof.
  unfold commit_hdr. destruct (last_commit l) as [|n]; [auto|]. cbn [with_size aSalt bigEndCksum].
  destruct (after_const (firstn (S n) l) base) as (E1 & E2 & _). auto.
Qed.

Lemma recover_ok priv w : Opened w -> recovered_ok (file w) = true ->
  exists w', walIndexRecover priv w = (w', SQLITE_OK) /\ Recovery (file w) w' /\ iReCksum w' = iReCksum w /\ same_wal (wal (ix w)) (wal (ix w')).
Proof.
  intros Ho Hr. rewrite recover_cases. unfold recovered_ok in Hr. set (f := file w) in *.
  destruct (accepted_header f) eqn:Ha; cbn [negb orb] in *.
  2: { assert (Hu : usable_header f = false) by (unfold usable_header; now rewrite Ha).
       destruct (_ && _) eqn:E; eexists; (split; [reflexivity|]); (split; [|split; [reflexivity|now exists 0]]); apply recovery_none; try assumption; [|reflexivity].
       apply base_wf. rewrite !andb_true_iff, Z.ltb_lt in E. unfold WAL_HDRSIZE in E. lia. }
  rewrite Hr. cbn [negb]. assert (Hu : usable_header f = true) by (unfold usable_header; now rewrite Ha, Hr).
  destruct (accepted_size f Ha) as [Hps H32]. pose proof (page_size_pos _ Hps) as Hsz. destruct Ho as [Hmap Hmin Hrd Hb Hlt]. fold f in Hb, Hlt.
  pose proof (base_wf f ltac:(lia)) as Hbase. destruct (valid_chained f Hb Hlt Hu) as (C & W & _ & Hok).
  destruct (frames_fit f (size_of f) ltac:(lia) ltac:(lia)) as [HLok Hfit].
  set (s0 := {| sc_ix := ix w; sc_hdr := base_of f; sc_mx := 0; sc_commit := _; sc_stop := false; sc_rc := _ |}).
  assert (HF0 : Found (size_of f) (base_of f) (wal (ix w)) [] s0).
  { constructor; try reflexivity.
    - exists (fun _ => 0), (fun _ _ => 0). split; [apply index_none|]. intros g Hg. cbn in Hg. lia.
    - exists (mxFrame (wal (ix w))). exact (set_same _).
    - constructor. }
  set (L := (size f - WAL_HDRSIZE) / (size_of f + WAL_FRAME_HDRSIZE)) in *.
  assert (HF : Found (size_of f) (base_of f) (wal (ix w)) (valid_frames f) (recover_blocks (Z.to_nat (walFramePage L + 1)) (size_of f) 0 L priv f s0)).
  { rewrite (valid_frames_eq f Hu). fold L. unfold frame_ok in HLok.
    assert (Hp : 0 <= walFramePage L) by (rewrite walFramePage_eq by exact HLok; apply Z.div_pos; lia).
    pose proof (recover_blocks_found (size_of f) f (base_of f) (wal (ix w)) priv ltac:(lia) Hb Hbase Hmap (Z.to_nat (walFramePage L + 1)) L HLok Hfit
      0 [] s0 ltac:(lia) ltac:(lia) ltac:(cbn; lia) HF0 eq_refl) as H.
    change (count []) with 0 in H. rewrite Z.sub_0_r in H. exact H. }
  set (s := recover_blocks _ _ _ _ _ _ _) in *. rewrite (fd_rc _ _ _ _ _ HF). cbn [Z.eqb SQLITE_OK].
  destruct (found_rel _ _ _ _ _ Hmap Hok HF) as (log & dist & s' & HR). destruct (fd_wal _ _ _ _ _ HF) as (x & Hx).
  eexists. split; [reflexivity|]. split; [|split; [reflexivity|exists (sc_mx s); cbn [recovered ix wal]; now rewrite Hx]].
  constructor; cbn [recovered file shared_hdr hdr szPage]; try reflexivity.
  - intros sz Es. rewrite (Es Hu), count_committed. constructor; cbn [recovered ix wal hdr szPage file].
    + exists log, dist, s'. exact HR.
    + rewrite count_committed. intros Hc. split; [reflexivity|]. rewrite (fd_commit _ _ _ _ _ HF). unfold commit_hdr.
      destruct (last_commit (valid_frames f)) eqn:El; [lia|]. reflexivity.
    + rewrite count_committed. intros g Hg. unfold committed_frames. rewrite nth_first by exact Hg.
      pose proof (last_commit_le (valid_frames f)). pose proof (chained_nth _ _ _ _ _ (Z.to_nat (g - 1)) C ltac:(lia)) as [_ P].
      replace (1 + Z.of_nat (Z.to_nat (g - 1))) with g in P by lia. exact P.
  - rewrite (fd_commit _ _ _ _ _ HF). rewrite (proj1 (commit_hdr_salt _ _ _)). apply Hbase.
  - intros _. split; [reflexivity|]. apply (fd_commit _ _ _ _ _ HF).
Qed.

(** C31: Recovery of any log file.  Whatever the bytes of the file and of the
    memory are, recovery ends without an error (or reports a version it does not
    know, and leaves the shared header alone); the log then consists of the
    longest sequence of frames with valid checksums, up to its last commit, and
    every page is read from its newest frame among these. *)
Theorem recovery_exact priv w : Opened w ->
  let f := file w in let (w', rc) := walIndexRecover priv w in
  (recovered_ok f = true -> rc = SQLITE_OK /\ mxFrame (wal (ix w')) = count (committed_frames f) /\ live (ix w') = mxFrame (wal (ix w')) /\
     forall p, read_page p w' = content (committed_frames f) p) /\
  (recovered_ok f = false -> rc = SQLITE_CANTOPEN /\ shared_hdr w' = shared_hdr w /\ live (ix w') = live (ix w)).
Proof.
  intros Ho f. destruct (recovered_ok f) eqn:Hr.
  - destruct (recover_ok priv w Ho Hr) as (w' & -> & HV & _ & Hsame). split; [|discriminate]. intros _. split; [reflexivity|]. fold f in HV.
    pose proof (rv_read _ _ HV (if usable_header f then size_of f else 512) ltac:(intros E; now rewrite E)) as HR. pose proof HR as [(log & dist & s & HL) _ _].
    pose proof (r_private _ _ _ _ _ HL) as Hp. pose proof (r_shared _ _ _ _ _ HL) as Hs. cbn [log_of private shared] in Hp, Hs.
    split; [congruence|]. split; [congruence|]. intros p. pose proof (same_wal_min _ _ Hsame) as Hm. rewrite (op_min _ Ho) in Hm.
    refine (read_content _ _ _ w' p _ HR (opened_reading _ _ _ Ho Hsame _) Hm); [|unfold count; lia]. destruct (usable_header f) eqn:Hu.
    + unfold usable_header in Hu. rewrite andb_true_iff in Hu. now apply accepted_size.
    + now left.
  - rewrite recover_cases. unfold recovered_ok in Hr. apply orb_false_iff in Hr as [Ha Hv]. fold f. rewrite Ha, Hv. cbn [negb].
    split; [discriminate|]. intros _. split; [reflexivity|]. split; reflexivity.
Qed.

(** ** A log file with two transactions and half of a third *)

Definition noise : Shm := fun h => {| aPgno := fun j => j + 5; aHash := fun k => k mod 4000 |}.
(** A handle on a file, before it knows the log. *)
Definition reopened (f : list Z) (m : Shm) (w : Wal) (limit : Z) : Handle :=
  {| ix := {| wal := set_mxFrame 0 w; appended := 0; live := 0; shm := m |}; hdr := hdr0; shared_hdr := hdr0; szPage := 0; iReCksum := 0;
     nCkpt := 0; truncateOnCommit := false; mxWalSize := limit; file := f |}.
Definition small_wal : Wal := {| mxFrame := 0; minFrame := 1; readLock := 1; bShmUnreliable := 0; map_rc := fun _ => 0 |}.
Definition page (x : Z) : list Z := repeat x 512.
Definition demo_handle : Handle :=
  let rnd := [1; 2; 3; 4; 5; 6; 7; 8] in
  let w := reopened [] noise small_wal (-1) in
  let w := fst (append_frames 512 rnd [(2, page 17); (5, page 18)] 9 true 0 w) in
  let w := fst (append_frames 512 rnd [(5, page 19)] 0 false 0 w) in
  let w := fst (append_frames 512 rnd [(5, page 20); (7, page 21)] 9 true 0 w) in
  fst (append_frames 512 rnd [(2, page 22)] 0 false 0 w).

Lemma bytes_check l : forallb (fun x => (0 <=? x) && (x <? 256)) l = true -> bytes l.
Proof.
  intros H. apply Forall_forall. intros x Hx. rewrite forallb_forall in H. specialize (H x Hx).
  rewrite andb_true_iff, Z.leb_le, Z.ltb_lt in H. unfold is_u8. lia.
Qed.

Lemma demo_opened : Opened (reopened (file demo_handle) noise small_wal 0).
Proof.
  constructor; [intros h; reflexivity|reflexivity|left; discriminate|apply bytes_check; vm_compute; reflexivity|vm_compute; reflexivity].
Qed.

Lemma recovery_exact_witness : let w := fst (walIndexRecover (fun _ => noise 0) (reopened (file demo_handle) noise small_wal 0)) in
  mxFrame (wal (ix w)) = 4 /\ read_page 5 w = Some (page 20) /\ read_page 2 w = Some (page 17).
Proof.
  pose proof (recovery_exact (fun _ => noise 0) _ demo_opened) as H. cbv zeta in H. destruct (walIndexRecover _ _) as [w rc]. cbn [fst].
  destruct H as [H _]. destruct H as (_ & Hm & _ & Hr); [vm_compute; reflexivity|]. rewrite Hm, !Hr.
  split; [|split]; vm_compute; reflexivity.
Defined.
