(* ===== verification/WalDurable.v ===== *)
(** * SQLite: transactions in the write-ahead log

    Any sequence of calls of [walFrames] (spills and commits), of rollbacks
    ([sqlite3WalUndo]) and of crashes followed by recovery, on the handle of
    [Wal].  The specification is a map from pages to their content, once as the
    transaction sees it and once as it is durable; the log implements it. *)

From Stdlib Require Import ZArith List Lia Bool.
From S2P Require Import Prelude Varint WalIndex Wal.
Import ListNotations.
#[local] Open Scope Z_scope.

(** ** Events *)

(** [Frames]: the dirty pages, the size of the database (not 0 when the
    transaction commits), the sector size for padding or 0, and the random salt.
    [Restart]: the process or the machine stopped; the file is now [f] and has
    the transactions [extra] after those that were committed; another handle
    with other memory recovers. *)
Inductive wal_event :=
| Frames (ps : list (Z * list Z)) (nTruncate sectorSize : Z) (rnd : list Z)
| Rollback
| Restart (f : list Z) (extra : list Frame) (m : Shm) (priv : Z -> WalPage).

Definition wal_step (sz : Z) (w : Handle) (e : wal_event) : Handle * Z :=
  match e with
  | Frames ps nTruncate sectorSize rnd => append_frames sz rnd ps nTruncate (negb (nTruncate =? 0)) sectorSize w
  | Rollback => (undo w, SQLITE_OK)
  | Restart f _ m priv => walIndexRecover priv (reopened f m (wal (ix w)) (mxWalSize w))
  end.

(** Events in order, until one fails. *)
Fixpoint wal_run (sz : Z) (w : Handle) (es : list wal_event) : Handle * Z :=
  match es with
  | [] => (w, SQLITE_OK)
  | e :: es => let (w, rc) := wal_step sz w e in if rc =? SQLITE_OK then wal_run sz w es else (w, rc)
  end.

(** ** Specification *)

Definition Pages : Type := Z -> option (list Z).
Record Db := { working : Pages; durable : Pages }.

Definition put_pages (ps : list (Z * list Z)) (c : Pages) : Pages := fold_left (fun c p => put (fst p) (snd p) c) ps c.
Definition put_frames (l : list Frame) (c : Pages) : Pages := fold_left (fun c fr => put (f_pgno fr) (f_data fr) c) l c.

Definition db_step (d : Db) (e : wal_event) : Db :=
  match e with
  | Frames ps nTruncate _ _ =>
    let c := put_pages ps (working d) in {| working := c; durable := if nTruncate =? 0 then durable d else c |}
  | Rollback => {| working := durable d; durable := durable d |}
  | Restart _ extra _ _ => let c := put_frames extra (durable d) in {| working := c; durable := c |}
  end.
Definition db_run (d : Db) (es : list wal_event) : Db := fold_left db_step es d.
Definition empty_db : Db := {| working := fun _ => None; durable := fun _ => None |}.

(** ** The written part of the file *)

(** The header of the file gives the page size and [base]. *)
Record Head (sz : Z) (base : WalHdr) (f : list Z) : Prop := {
  hd_size : 32 <= size f;
  hd_whole : whole_header f = true;
  hd_version : get4 4 f = WAL_MAX_VERSION;
  hd_page : size_of f = sz;
  hd_base : base_of f = base }.

Lemma head_agree sz base f g : slice 0 32 f = slice 0 32 g -> 32 <= size g -> Head sz base f -> Head sz base g.
Proof.
  intros E Hg [H1 H2 H3 H4 H5].
  assert (Hr : read_header g = read_header f) by (unfold read_header, WAL_HDRSIZE; now rewrite E).
  assert (Hi : forall a, 0 <= a -> a + 4 <= 32 -> get4 a g = get4 a f).
  { intros a Ha1 Ha2. apply get4_agree. change a with (0 + a). rewrite <- (slice_slice a 4 0 32 g), <- (slice_slice a 4 0 32 f) by lia. now rewrite E. }
  constructor; [exact Hg| | | |].
  - unfold whole_header in *. now rewrite Hr, !Hi by lia.
  - now rewrite Hi by lia.
  - unfold size_of in *. now rewrite Hr.
  - unfold base_of in *. now rewrite Hr.
Qed.

(** The frames [l] are in the file, the first [k] of them signed. *)
Record Written (sz : Z) (base : WalHdr) (k : Z) (l : list Frame) (w : Handle) : Prop := {
  wr_head : Head sz base (file w);
  wr_wf : Forall (frame_wf sz) l;
  wr_placed : forall g, 1 <= g <= count l -> placed sz (file w) g (nth (Z.to_nat (g - 1)) l frame0);
  wr_signed : forall g, 1 <= g <= k -> signed sz (file w) g (after base (firstn (Z.to_nat (g - 1)) l)) (nth (Z.to_nat (g - 1)) l frame0);
  wr_k : 0 <= k <= count l;
  wr_salt : aSalt (hdr w) = aSalt base /\ bigEndCksum (hdr w) = bigEndCksum base;
  wr_size : walFrameOffset (count l + 1) sz <= size (file w);
  wr_szPage : szPage w = sz }.

(** Frames before [iReCksum] are signed, and all when it is 0. *)
Record Logged (sz : Z) (base : WalHdr) (l : list Frame) (w : Handle) : Prop := {
  lg_written : Written sz base (if iReCksum w =? 0 then count l else iReCksum w - 1) l w;
  lg_re : 0 <= iReCksum w <= count l;
  lg_cksum : iReCksum w = 0 -> aFrameCksum (hdr w) = aFrameCksum (after base l) }.

Lemma head_wf sz base f : Head sz base f -> hdr_wf base.
Proof. intros [H1 _ _ _ <-]. now apply base_wf. Qed.
Lemma head_page sz base f : Head sz base f -> page_size sz.
Proof.
  intros [_ H _ <- _]. unfold whole_header in H. change (read_header f) with (fst (fst (fst (read_header f))), size_of f, ckpt_of f, base_of f) in H.
  cbv iota in H. rewrite !andb_true_iff, !Z.leb_le, !Z.eqb_eq in H. unfold SQLITE_MAX_PAGE_SIZE in H. apply page_size_pow2; lia.
Qed.

Lemma signature_ext hd hd' fr : aSalt hd = aSalt hd' -> bigEndCksum hd = bigEndCksum hd' -> aFrameCksum hd = aFrameCksum hd' ->
  signature hd fr = signature hd' fr /\ frame_cksum hd fr = frame_cksum hd' fr.
Proof. intros E1 E2 E3. unfold signature, frame_cksum. now rewrite E1, E2, E3. Qed.

(** A file whose first frames are those of [f]. *)
Lemma placed_ext sz f f' g fr : slice (walFrameOffset g sz) (sz + 24) f' = slice (walFrameOffset g sz) (sz + 24) f -> 0 <= sz -> 1 <= g ->
  (placed sz f g fr -> placed sz f' g fr) /\ forall hd, signed sz f g hd fr -> signed sz f' g hd fr.
Proof.
  intros E Hsz Hg. pose proof (offset_pos g sz Hg Hsz) as Ho.
  assert (Hs : forall a n, 0 <= a -> 0 <= n -> a + n <= sz + 24 -> slice (walFrameOffset g sz + a) n f' = slice (walFrameOffset g sz + a) n f).
  { intros a n Ha Hn Han. rewrite <- (slice_slice a n _ (sz + 24) f'), <- (slice_slice a n _ (sz + 24) f) by lia. now rewrite E. }
  unfold placed, signed. split.
  - intros [P1 P2]. rewrite <- P1, <- P2. split; [|apply Hs; lia]. rewrite <- (Z.add_0_r (walFrameOffset g sz)). apply Hs; lia.
  - intros hd S. rewrite <- S. apply Hs; lia.
Qed.

(** Another handle on a file that agrees with the old one on the frames. *)
Lemma written_file sz base k l w w' : Written sz base k l w ->
  (forall a n, 0 <= a -> 0 <= n -> a + n <= walFrameOffset (count l + 1) sz -> slice a n (file w') = slice a n (file w)) ->
  walFrameOffset (count l + 1) sz <= size (file w') -> aSalt (hdr w') = aSalt (hdr w) -> bigEndCksum (hdr w') = bigEndCksum (hdr w) ->
  szPage w' = szPage w -> Written sz base k l w'.
Proof.
  intros [H1 H2 H3 H4 H5 H6 H7 H8] Hs Hn E1 E2 E3. pose proof (page_size_pos _ (head_page _ _ _ H1)) as Hsz.
  assert (H32 : 32 <= walFrameOffset (count l + 1) sz) by (apply offset_pos; unfold count; lia).
  assert (He : forall g, 1 <= g <= count l -> slice (walFrameOffset g sz) (sz + 24) (file w') = slice (walFrameOffset g sz) (sz + 24) (file w)).
  { intros g Hg. pose proof (offset_pos g sz ltac:(lia) ltac:(lia)). pose proof (offset_mono g (count l + 1) sz ltac:(lia) ltac:(lia)). apply Hs; lia. }
  constructor; try assumption; try congruence.
  - apply (head_agree sz base (file w)); [symmetry; apply Hs; lia|lia|exact H1].
  - intros g Hg. apply (placed_ext sz (file w) (file w') g _ (He g Hg)); [lia|lia|]. now apply H3.
  - intros g Hg. apply (placed_ext sz (file w) (file w') g _ (He g ltac:(lia))); [lia|lia|]. now apply H4.
Qed.

(** ** Appending a frame *)

Lemma write_two fh d o f : size fh = 24 -> 0 <= o <= size f ->
  let f' := os_write d (o + 24) (os_write fh o f) in
  (forall a n, 0 <= a -> 0 <= n -> a + n <= o -> slice a n f' = slice a n f) /\ slice o 24 f' = fh /\ slice (o + 24) (size d) f' = d /\
  o + 24 + size d <= size f'.
Proof.
  intros Hh Ho f'. unfold f'. pose proof (size_nonneg d). split; [|split; [|split]].
  - intros a n Ha Hn Han. rewrite slice_write_before by (try (rewrite size_write by lia); lia). apply slice_write_before; lia.
  - rewrite slice_write_before by (try (rewrite size_write by lia); lia). apply slice_write_same; lia.
  - apply slice_write_same; lia.
  - rewrite !size_write by lia. lia.
Qed.

Lemma nth_snoc_last (l : list Frame) fr : nth (Z.to_nat (count l + 1 - 1)) (l ++ [fr]) frame0 = fr.
Proof. replace (Z.to_nat (count l + 1 - 1)) with (length l) by (unfold count; lia). rewrite app_nth2, Nat.sub_diag by lia. reflexivity. Qed.
Lemma nth_snoc_old (l : list Frame) fr g : 1 <= g <= count l -> nth (Z.to_nat (g - 1)) (l ++ [fr]) frame0 = nth (Z.to_nat (g - 1)) l frame0.
Proof. intros H. unfold count in H. now rewrite app_nth1 by lia. Qed.
Lemma firstn_app_old (l l' : list Frame) n : (n <= length l)%nat -> firstn n (l ++ l') = firstn n l.
Proof. intros H. rewrite firstn_app. replace (n - length l)%nat with O by lia. apply app_nil_r. Qed.

Lemma write_frame_ok sz base l w fr : Logged sz base l w -> frame_wf sz fr ->
  let w' := write_frame (f_pgno fr) (f_data fr) (f_trunc fr) (walFrameOffset (count l + 1) sz) w in
  Logged sz base (l ++ [fr]) w' /\ ix w' = ix w /\ shared_hdr w' = shared_hdr w /\ iReCksum w' = iReCksum w.
Proof.
  intros [HW Hre Hck] Hfr. pose proof HW as [H1 H2 H3 H4 H5 [Hs1 Hs2] H7 H8].
  pose proof (page_size_pos _ (head_page _ _ _ H1)) as Hsz. pose proof (head_wf _ _ _ H1) as Hb.
  unfold write_frame. destruct (walEncodeFrame _ _ _ _ _) as [fh c] eqn:E. cbv zeta. split; [|now destruct w].
  set (o := walFrameOffset (count l + 1) sz) in *. assert (Ho : 32 <= o) by (apply offset_pos; unfold count; lia).
  assert (Hfh : exists x, fh = header8 fr ++ x /\ size x = 16 /\
    (iReCksum w = 0 -> x = signature (after base l) fr /\ c = frame_cksum (after base l) fr)).
  { unfold walEncodeFrame in E. destruct (after_const l base) as (A1 & A2 & _).
    destruct (Z.eqb_spec (iReCksum w) 0) as [Hz|Hz]; injection E as <- <-.
    - destruct (signature_ext (hdr w) (after base l) fr ltac:(congruence) ltac:(congruence) (Hck Hz)) as [E1 E2].
      exists (signature (after base l) fr). split; [|split; [|]].
      + rewrite <- E1. reflexivity.
      + apply size_signature. rewrite A1. apply Hb.
      + intros _. split; [reflexivity|]. rewrite <- E2. reflexivity.
    - exists (repeat 0 16). split; [reflexivity|]. split; [reflexivity|lia]. }
  destruct Hfh as (x & -> & Hx & Hsig). pose proof Hfr as (F1 & F2 & F3 & F4).
  destruct (write_two (header8 fr ++ x) (f_data fr) o (file w)) as (W1 & W2 & W3 & W4); [rewrite size_app, size_header8; lia|lia|].
  set (f' := os_write _ _ _) in *. rewrite F4 in W3, W4.
  apply (slice_parts _ _ 8) in W2 as [W2 W2']; [|lia|lia|apply size_header8].
  assert (HW' : Written sz base (if iReCksum w =? 0 then count l else iReCksum w - 1) l (set_file f' (set_hdr (with_cksum c (hdr w)) w))).
  { apply (written_file sz base _ l w); try assumption; try reflexivity. cbn [set_file file]. fold o. lia. }
  destruct HW' as [K1 K2 K3 K4 K5 K6 K7 K8]. cbn [set_file set_hdr file hdr szPage iReCksum] in *.
  assert (Hc1 : count (l ++ [fr]) = count l + 1) by apply count_app.
  constructor; cbn [set_file set_hdr file hdr szPage iReCksum with_cksum aFrameCksum].
  - constructor; cbn [set_file set_hdr file hdr szPage iReCksum]; try assumption.
    + apply Forall_app. split; [assumption|]. constructor; [exact Hfr|constructor].
    + rewrite Hc1. intros g Hg. destruct (Z.eq_dec g (count l + 1)) as [->|Hne].
      * rewrite nth_snoc_last. split; [exact W2|exact W3].
      * rewrite nth_snoc_old by lia. apply K3. lia.
    + rewrite Hc1. intros g Hg. destruct (Z.eq_dec g (count l + 1)) as [->|Hne].
      * destruct (Z.eqb_spec (iReCksum w) 0) as [Hz|Hz]; [|lia]. destruct (Hsig Hz) as [-> _]. rewrite nth_snoc_last.
        replace (Z.to_nat (count l + 1 - 1)) with (length l) by (unfold count; lia). rewrite firstn_app_old, firstn_all by lia. exact W2'.
      * assert (Hgl : 1 <= g <= (if iReCksum w =? 0 then count l else iReCksum w - 1)) by (destruct (iReCksum w =? 0); lia).
        rewrite nth_snoc_old, firstn_app_old by (unfold count in *; lia). apply K4. exact Hgl.
    + rewrite Hc1. destruct (Z.eqb_spec (iReCksum w) 0); lia.
    + rewrite Hc1, offset_next. fold o. lia.
  - rewrite Hc1. lia.
  - intros Hz. destruct (Hsig Hz) as [_ ->]. rewrite after_app. reflexivity.
Qed.

(** ** Overwriting the page of a frame *)

Definition set_data (r : Z) (d : list Z) (l : list Frame) : list Frame :=
  let k := Z.to_nat (r - 1) in
  firstn k l ++ {| f_pgno := f_pgno (nth k l frame0); f_trunc := f_trunc (nth k l frame0); f_data := d |} :: skipn (S k) l.

Section SetData.
Variables (r : Z) (d : list Z) (l : list Frame).
Hypothesis Hr : 1 <= r <= count l.

Lemma set_data_split : exists a x b, l = a ++ x :: b /\ count a = r - 1 /\
  set_data r d l = a ++ {| f_pgno := f_pgno x; f_trunc := f_trunc x; f_data := d |} :: b.
Proof.
  unfold count in *. destruct (split_at_nat (Z.to_nat (r - 1)) l ltac:(lia)) as (x & E). exists (firstn (Z.to_nat (r - 1)) l), x, (skipn (S (Z.to_nat (r - 1))) l).
  split; [exact E|]. assert (Hl : length (firstn (Z.to_nat (r - 1)) l) = Z.to_nat (r - 1)) by (rewrite firstn_length_le; lia).
  split; [lia|]. unfold set_data. replace (nth (Z.to_nat (r - 1)) l frame0) with x; [reflexivity|].
  rewrite E, app_nth2, Hl, Nat.sub_diag by lia. reflexivity.
Qed.

Lemma set_data_pages : map f_pgno (set_data r d l) = map f_pgno l.
Proof. destruct set_data_split as (a & x & b & -> & _ & ->). now rewrite !map_app. Qed.
Lemma set_data_count : count (set_data r d l) = count l.
Proof. destruct set_data_split as (a & x & b & -> & _ & ->). now rewrite !count_app. Qed.
Lemma set_data_commit : last_commit (set_data r d l) = last_commit l.
Proof.
  destruct set_data_split as (a & x & b & -> & _ & ->). clear Hr. induction a as [|y a IH]; cbn [app last_commit]; [reflexivity|]. now rewrite IH.
Qed.
Lemma set_data_first n : (n < Z.to_nat r)%nat -> firstn n (set_data r d l) = firstn n l.
Proof. intros H. destruct set_data_split as (a & x & b & -> & Ha & ->). unfold count in Ha. now rewrite !firstn_app_old by lia. Qed.
Lemma set_data_same : nth (Z.to_nat (r - 1)) (set_data r d l) frame0 =
  {| f_pgno := f_pgno (nth (Z.to_nat (r - 1)) l frame0); f_trunc := f_trunc (nth (Z.to_nat (r - 1)) l frame0); f_data := d |}.
Proof.
  destruct set_data_split as (a & x & b & -> & Ha & ->). unfold count in Ha. replace (Z.to_nat (r - 1)) with (length a) by lia.
  rewrite !app_nth2, !Nat.sub_diag by lia. reflexivity.
Qed.
Lemma set_data_other g : 1 <= g -> g <> r -> nth (Z.to_nat (g - 1)) (set_data r d l) frame0 = nth (Z.to_nat (g - 1)) l frame0.
Proof.
  intros Hg Hne. destruct set_data_split as (a & x & b & -> & Ha & ->). unfold count in Ha. destruct (Z.ltb_spec g r).
  - now rewrite !app_nth1 by lia.
  - rewrite !app_nth2 by lia. replace (Z.to_nat (g - 1) - length a)%nat with (S (Z.to_nat (g - 1) - length a - 1)) by lia. reflexivity.
Qed.

Lemma set_data_content p : newest (page_at l) p 1 (count l) = r -> forall q, content (set_data r d l) q = put p d (content l) q.
Proof.
  intros Hn q. pose proof (content_newest l p) as Hp. rewrite Hn in Hp. destruct Hp as [[Hp _]|(_ & _ & Hp)]; [lia|].
  assert (Epg : page_at (set_data r d l) = page_at l) by (unfold page_at; now rewrite set_data_pages).
  pose proof (content_newest (set_data r d l) q) as H'. pose proof (content_newest l q) as H. rewrite Epg, set_data_count in H'. unfold put.
  destruct (Z.eqb_spec q p) as [->|Hq].
  - rewrite Hn in H'. destruct H' as [[H' _]|(_ & -> & _)]; [lia|]. now rewrite set_data_same.
  - destruct H as [[H0 ->]|(Hg & -> & Eg)].
    + destruct H' as [[_ H']|(H' & _)]; [exact H'|lia].
    + destruct H' as [[H' _]|(_ & -> & _)]; [lia|]. rewrite set_data_other; [reflexivity|lia|]. intros E. rewrite E in Eg. congruence.
Qed.

End SetData.

Lemma overwrite_ok sz base l w r d : Logged sz base l w -> 1 <= r <= count l -> size d = sz ->
  Logged sz base (set_data r d l)
    (set_file (os_write d (walFrameOffset r sz + WAL_FRAME_HDRSIZE) (file w))
       (set_re (if (iReCksum w =? 0) || (r <? iReCksum w) then r else iReCksum w) w)).
Proof.
  intros [[H1 H2 H3 H4 H5 H6 H7 H8] Hre _] Hr Hd. set (re := if _ || _ then _ else _).
  assert (Hre' : 0 < re <= r /\ (iReCksum w = 0 \/ re <= iReCksum w)).
  { unfold re. destruct (Z.eqb_spec (iReCksum w) 0); cbn [orb]; [lia|]. destruct (Z.ltb_spec r (iReCksum w)); lia. }
  pose proof (page_size_pos _ (head_page _ _ _ H1)) as Hsz. pose proof (set_data_count r d l Hr) as Hc.
  pose proof (offset_pos r sz ltac:(lia) ltac:(lia)) as Ho. pose proof (offset_mono r (count l + 1) sz ltac:(lia) ltac:(lia)) as Ho'.
  unfold WAL_FRAME_HDRSIZE. set (f' := os_write _ _ _).
  assert (Hb : forall a n, 0 <= a -> 0 <= n -> a + n <= walFrameOffset r sz + 24 -> slice a n f' = slice a n (file w))
    by (intros; apply slice_write_before; lia).
  assert (Ha : forall a n, walFrameOffset r sz + 24 + sz <= a -> slice a n f' = slice a n (file w))
    by (intros; apply slice_write_after; lia).
  assert (He : forall g, 1 <= g -> g <> r -> slice (walFrameOffset g sz) (sz + 24) f' = slice (walFrameOffset g sz) (sz + 24) (file w)).
  { intros g Hg Hne. pose proof (offset_pos g sz Hg ltac:(lia)). destruct (Z.ltb_spec g r).
    - pose proof (offset_mono g r sz ltac:(lia) ltac:(lia)). apply Hb; lia.
    - pose proof (offset_mono r g sz ltac:(lia) ltac:(lia)). apply Ha; lia. }
  constructor; cbn [set_file set_re iReCksum file hdr]; [|lia|lia]. replace (re =? 0) with false by (symmetry; apply Z.eqb_neq; lia).
  constructor; cbn [set_file set_re iReCksum file hdr szPage]; rewrite ?Hc; try assumption; try lia.
  - apply (head_agree sz base (file w)); [symmetry; apply Hb; lia| |exact H1]. unfold f'. rewrite size_write by lia. pose proof (hd_size _ _ _ H1). lia.
  - destruct (set_data_split r d l Hr) as (a & x & b & El & _ & ->). rewrite El, !Forall_app in *. destruct H2 as [Ha2 Hb2].
    inversion_clear Hb2 as [|? ? Hx Hb3]. destruct Hx as (X1 & X2 & X3 & _). split; [exact Ha2|]. constructor; [|exact Hb3].
    split; [exact X1|]. split; [exact X2|]. split; [exact X3|exact Hd].
  - intros g Hg. destruct (Z.eq_dec g r) as [->|Hne].
    + rewrite set_data_same by exact Hr. destruct (H3 r Hg) as [P1 _]. split; cbn [header8 f_pgno f_trunc f_data].
      * unfold header8 in *. cbn [f_pgno f_trunc]. rewrite <- P1. apply Hb; lia.
      * apply slice_write_same; lia.
    + rewrite set_data_other by lia. apply (placed_ext sz (file w) f' g _ (He g ltac:(lia) Hne)); [lia|lia|]. now apply H3.
  - intros g Hg. rewrite set_data_other by lia. rewrite set_data_first by lia.
    apply (placed_ext sz (file w) f' g _ (He g ltac:(lia) ltac:(lia))); [lia|lia|]. apply H4. destruct (Z.eqb_spec (iReCksum w) 0); lia.
  - unfold f'. rewrite size_write by lia. lia.
Qed.

(** ** Signing the frames again *)

(** One pass: frame [g], the first that is not signed. *)
Lemma resign_ok sz base l w g : Written sz base (g - 1) l w -> 1 <= g <= count l ->
  aFrameCksum (hdr w) = aFrameCksum (after base (firstn (Z.to_nat (g - 1)) l)) ->
  let b := slice (walFrameOffset g sz) (sz + WAL_FRAME_HDRSIZE) (file w) in
  exists fh c, walEncodeFrame 0 (hdr w) (get4 0 b) (get4 4 b) (skipn (Z.to_nat WAL_FRAME_HDRSIZE) b) = (fh, c) /\
    Written sz base g l (set_file (os_write fh (walFrameOffset g sz) (file w)) (set_hdr (with_cksum c (hdr w)) w)) /\
    c = aFrameCksum (after base (firstn (Z.to_nat g) l)).
Proof.
  intros [H1 H2 H3 H4 H5 [Hs1 Hs2] H7 H8] Hg Hck b. pose proof (page_size_pos _ (head_page _ _ _ H1)) as Hsz. pose proof (head_wf _ _ _ H1) as Hwf.
  set (k := Z.to_nat (g - 1)) in *. set (fr := nth k l frame0). destruct (H3 g Hg) as [P1 P2]. fold k fr in P1, P2.
  pose proof (offset_pos g sz ltac:(lia) ltac:(lia)) as Ho. pose proof (offset_mono g (count l + 1) sz ltac:(lia) ltac:(lia)) as Ho'.
  assert (Hfr : frame_wf sz fr) by (rewrite Forall_forall in H2; apply H2, nth_In; unfold k, count in *; lia).
  destruct Hfr as (F1 & F2 & F3 & F4). assert (P1' := P1). apply (slice_parts _ _ 4) in P1' as [Q1 Q2]; [|lia|lia|apply size_be4].
  unfold b. rewrite !frame_int, frame_data, P2, Z.add_0_r by lia. rewrite (get4_be4 _ _ _ F1 Q1), (get4_be4 _ _ _ F3 Q2).
  destruct (after_const (firstn k l) base) as (A1 & A2 & _).
  destruct (signature_ext (hdr w) (after base (firstn k l)) fr ltac:(congruence) ltac:(congruence) Hck) as [E1 E2].
  exists (header8 fr ++ signature (after base (firstn k l)) fr), (frame_cksum (after base (firstn k l)) fr). split; [|split].
  - rewrite <- E1, <- E2. reflexivity.
  - set (f' := os_write _ _ _).
    assert (Hsg : size (signature (after base (firstn k l)) fr) = 16) by (apply size_signature; rewrite A1; apply Hwf).
    assert (Hh : size (header8 fr ++ signature (after base (firstn k l)) fr) = 24) by (rewrite size_app, size_header8; lia).
    assert (Hb : forall a n, 0 <= a -> 0 <= n -> a + n <= walFrameOffset g sz -> slice a n f' = slice a n (file w))
      by (intros; apply slice_write_before; lia).
    assert (Ha : forall a n, walFrameOffset g sz + 24 <= a -> slice a n f' = slice a n (file w)) by (intros; apply slice_write_after; lia).
    assert (He : forall j, 1 <= j -> j <> g -> slice (walFrameOffset j sz) (sz + 24) f' = slice (walFrameOffset j sz) (sz + 24) (file w)).
    { intros j Hj Hne. pose proof (offset_pos j sz Hj ltac:(lia)). destruct (Z.ltb_spec j g).
      - pose proof (offset_mono j g sz ltac:(lia) ltac:(lia)). apply Hb; lia.
      - pose proof (offset_mono g j sz ltac:(lia) ltac:(lia)). apply Ha; lia. }
    assert (Hw : slice (walFrameOffset g sz) 24 f' = header8 fr ++ signature (after base (firstn k l)) fr) by (apply slice_write_same; lia).
    apply (slice_parts _ _ 8) in Hw as [Hw1 Hw2]; [|lia|lia|apply size_header8].
    constructor; cbn [set_file set_hdr file hdr szPage with_cksum aSalt bigEndCksum]; try assumption; try lia.
    + apply (head_agree sz base (file w)); [symmetry; apply Hb; lia| |exact H1]. unfold f'. rewrite size_write by lia. pose proof (hd_size _ _ _ H1). lia.
    + intros j Hj. destruct (Z.eq_dec j g) as [->|Hne].
      * fold k fr. split; [exact Hw1|]. rewrite <- P2. apply Ha. lia.
      * apply (placed_ext sz (file w) f' j _ (He j ltac:(lia) Hne)); [lia|lia|]. now apply H3.
    + intros j Hj. destruct (Z.eq_dec j g) as [->|Hne]; [exact Hw2|].
      apply (placed_ext sz (file w) f' j _ (He j ltac:(lia) Hne)); [lia|lia|]. apply H4. lia.
    + split; assumption.
    + unfold f'. rewrite size_write by lia. lia.
  - replace (Z.to_nat g) with (S k) by lia. rewrite <- (firstn_snoc l k frame0) by (unfold k, count in *; lia). now rewrite after_app.
Qed.

Lemma rewrite_loop_ok sz base l n : forall g w, Written sz base (g - 1) l w -> 1 <= g -> Z.of_nat n = count l - g + 1 -> iReCksum w = 0 ->
  aFrameCksum (hdr w) = aFrameCksum (after base (firstn (Z.to_nat (g - 1)) l)) ->
  let w' := rewrite_loop n g w in
  Logged sz base l w' /\ ix w' = ix w /\ shared_hdr w' = shared_hdr w /\ iReCksum w' = 0.
Proof.
  induction n as [|n IH]; intros g w HW Hg Hn Hre Hck; cbn [rewrite_loop].
  - replace (g - 1) with (count l) in * by lia. split; [|auto]. constructor.
    + now rewrite Hre.
    + unfold count. lia.
    + intros _. rewrite Hck. unfold count. now rewrite Nat2Z.id, firstn_all.
  - rewrite (wr_szPage _ _ _ _ _ HW). destruct (resign_ok sz base l w g HW ltac:(lia) Hck) as (fh & c & E & HW' & Hc). rewrite E.
    destruct (IH (g + 1) (set_file (os_write fh (walFrameOffset g sz) (file w)) (set_hdr (with_cksum c (hdr w)) w))) as (HL & E1 & E2 & E3).
    + replace (g + 1 - 1) with g by lia. exact HW'.
    + lia.
    + lia.
    + exact Hre.
    + replace (g + 1 - 1) with g by lia. exact Hc.
    + split; [exact HL|]. split; [exact E1|]. split; [exact E2|exact E3].
Qed.

Lemma rewrite_ok sz base l w : Logged sz base l w -> iReCksum w <> 0 ->
  let w' := walRewriteChecksums (count l) w in
  Logged sz base l w' /\ ix w' = ix w /\ shared_hdr w' = shared_hdr w /\ iReCksum w' = 0.
Proof.
  intros [HW Hre _] Hne. replace (iReCksum w =? 0) with false in HW by (symmetry; apply Z.eqb_neq; exact Hne).
  pose proof HW as [H1 H2 H3 H4 H5 H6 H7 H8]. pose proof (page_size_pos _ (head_page _ _ _ H1)) as Hsz. pose proof (head_wf _ _ _ H1) as Hwf.
  unfold walRewriteChecksums. set (off := if _ =? 1 then _ else _). set (r := iReCksum w) in *.
  assert (Hc : (get4 0 (slice off 8 (file w)), get4 4 (slice off 8 (file w))) = aFrameCksum (after base (firstn (Z.to_nat (r - 1)) l))).
  { assert (Hoff : 0 <= off).
    { unfold off. rewrite H8. destruct (Z.eqb_spec r 1); [lia|]. pose proof (offset_pos (r - 1) sz ltac:(lia) ltac:(lia)). lia. }
    rewrite !get4_slice by lia. rewrite Z.add_0_r. unfold off. rewrite H8. destruct (Z.eqb_spec r 1) as [Er|Er].
    - rewrite Er. change (firstn (Z.to_nat (1 - 1)) l) with (@nil Frame). change (after base []) with base. pose proof (hd_whole _ _ _ H1) as Hh. unfold whole_header in Hh.
      change (read_header (file w)) with (fst (fst (fst (read_header (file w)))), size_of (file w), ckpt_of (file w), base_of (file w)) in Hh. cbv iota in Hh.
      rewrite !andb_true_iff, !Z.eqb_eq, (hd_base _ _ _ H1) in Hh. destruct Hh as [[_ E1] E2].
      change (24 + 4) with 28. rewrite <- E1, <- E2. now destruct (aFrameCksum base).
    - assert (Hs := H4 (r - 1) ltac:(lia)). unfold signed, signature in Hs. set (k := Z.to_nat (r - 1 - 1)) in *.
      set (fr := nth k l frame0) in *. pose proof (offset_pos (r - 1) sz ltac:(lia) ltac:(lia)) as Ho.
      pose proof (frame_cksum_u32 _ fr (after_wf (firstn k l) base Hwf)) as [U1 U2]. destruct (after_const (firstn k l) base) as (A1 & _).
      apply (slice_parts _ _ 8) in Hs as [_ Hs]; [|lia|lia|rewrite A1; apply Hwf]. apply (slice_parts _ _ 4) in Hs as [S1 S2]; [|lia|lia|apply size_be4].
      replace (Z.to_nat (r - 1)) with (S k) by lia. rewrite <- (firstn_snoc l k frame0), after_app by (unfold k, count in *; lia).
      cbn [after fold_left]. unfold next. cbn [with_cksum aFrameCksum]. fold fr. fold (after base (firstn k l)).
      rewrite (surjective_pairing (frame_cksum (after base (firstn k l)) fr)). f_equal; apply get4_be4; try assumption.
      + rewrite <- S1. f_equal. lia.
      + rewrite <- S2. f_equal; lia. }
  rewrite Hc. refine (rewrite_loop_ok sz base l _ r (set_re 0 (set_hdr (with_cksum _ (hdr w)) w)) _ _ _ _ _); try reflexivity; try lia.
  apply (written_file sz base _ l w); try assumption; reflexivity.
Qed.

(** ** The loop over the dirty pages *)

Definition page_ok (sz : Z) (p : Z * list Z) : Prop := is_u32 (fst p) /\ 0 < fst p /\ size (snd p) = sz.

Lemma put_ext p d (c c' : Pages) : (forall q, c q = c' q) -> forall q, put p d c q = put p d c' q.
Proof. intros H q. unfold put. destruct (q =? p); auto. Qed.
Lemma put_pages_ext ps : forall c c' : Pages, (forall q, c q = c' q) -> forall q, put_pages ps c q = put_pages ps c' q.
Proof. induction ps as [|p ps IH]; intros c c' H q; [apply H|]. apply IH, put_ext, H. Qed.
Lemma put_frames_ext l : forall c c' : Pages, (forall q, c q = c' q) -> forall q, put_frames l c q = put_frames l c' q.
Proof. induction l as [|fr l IH]; intros c c' H q; [apply H|]. apply IH, put_ext, H. Qed.
Lemma content_app l l' : content (l ++ l') = put_frames l' (content l).
Proof. apply fold_left_app. Qed.

Lemma count_pages (l l' : list Frame) ps : map f_pgno l = map f_pgno l' ++ ps -> count l = count l' + Z.of_nat (length ps).
Proof. intros E. apply (f_equal (@length Z)) in E. rewrite length_app, !length_map in E. unfold count. lia. Qed.

Lemma newest_skip l0 p added : forall l, map f_pgno l = map f_pgno l0 ++ added -> ~ In p added ->
  newest (page_at l) p 1 (count l) = newest (page_at l0) p 1 (count l0).
Proof.
  induction added as [|a added IH] using rev_ind; intros l E Hn.
  - rewrite app_nil_r in E. rewrite (count_pages l l0 []) by now rewrite app_nil_r. cbn [length]. rewrite Z.add_0_r. unfold page_at. now rewrite E.
  - destruct (exists_last (l := l)) as (l1 & fr & ->).
    { intros ->. symmetry in E. apply app_eq_nil in E as [_ E]. now apply app_eq_nil in E as [_ E]. }
    rewrite map_app, app_assoc in E. apply app_inj_tail in E as [E <-]. rewrite in_app_iff in Hn. cbn [In] in Hn.
    rewrite count_app. change (count [fr]) with 1. rewrite newest_snoc. destruct (Z.eqb_spec (f_pgno fr) p) as [Ep|Ep]; [tauto|]. apply IH; tauto.
Qed.

Section Loop.
Variables (sz : Z) (base : WalHdr) (l0 : list Frame) (c : Z) (x0 : Writer) (sh : WalHdr) (nTruncate iFirst : Z).
Let isCommit := negb (nTruncate =? 0).
Hypothesis Hrel : exists log dist s, Rel log dist s (log_of l0 c) x0.
Hypothesis Hreads : Reading c (wal x0).
Hypothesis Hc : 0 <= c <= count l0.
Hypothesis Hfirst : iFirst = 0 \/ iFirst = c + 1.
Hypothesis Htrunc : is_u32 nTruncate.

(** The frames are the old ones, perhaps with other data, then the added ones. *)
Record Loop (l : list Frame) (added : list Z) (w : Handle) : Prop := {
  lp_logged : Logged sz base l w;
  lp_pages : map f_pgno l = map f_pgno l0 ++ added;
  lp_first : firstn (Z.to_nat c) l = firstn (Z.to_nat c) l0;
  lp_re : iReCksum w = 0 \/ c < iReCksum w;
  lp_ix : ix w = x0;
  lp_shared : shared_hdr w = sh }.

(** The frames after the loop: the last one has the commit mark. *)
Definition Ended (l : list Frame) (pLast : option (Z * list Z)) : Prop :=
  if isCommit then exists l' p d, l = l' ++ [{| f_pgno := p; f_trunc := nTruncate; f_data := d |}] /\ pLast = Some (p, d)
  else last_commit l = Z.to_nat c.

Lemma loop_append l added w p d t : Loop l added w -> page_ok sz (p, d) -> is_u32 t ->
  Loop (l ++ [{| f_pgno := p; f_trunc := t; f_data := d |}]) (added ++ [p]) (write_frame p d t (walFrameOffset (count l + 1) (szPage w)) w).
Proof.
  intros [H1 H2 H3 H4 H5 H6] (P1 & P2 & P3) Ht. set (fr := {| f_pgno := p; f_trunc := t; f_data := d |}).
  rewrite (wr_szPage _ _ _ _ _ (lg_written _ _ _ _ H1)).
  destruct (write_frame_ok sz base l w fr H1) as (L & E1 & E2 & E3); [split; [exact P1|split; [exact P2|split; [exact Ht|exact P3]]]|].
  pose proof (count_pages _ _ _ H2) as Hcp. constructor; cbn [f_pgno f_data f_trunc fr] in *.
  - exact L.
  - rewrite map_app, H2, <- app_assoc. reflexivity.
  - rewrite firstn_app_old by (unfold count in *; lia). exact H3.
  - rewrite E3. exact H4.
  - congruence.
  - congruence.
Qed.

Lemma loop_overwrite l added w p d : Loop l added w -> size d = sz -> ~ In p added ->
  let r := newest (page_at l0) p 1 (count l0) in c < r ->
  let w' := set_file (os_write d (walFrameOffset r (szPage w) + WAL_FRAME_HDRSIZE) (file w))
       (set_re (if (iReCksum w =? 0) || (r <? iReCksum w) then r else iReCksum w) w) in
  Loop (set_data r d l) added w' /\ count (set_data r d l) = count l /\ last_commit (set_data r d l) = last_commit l /\
  forall q, content (set_data r d l) q = put p d (content l) q.
Proof.
  intros [H1 H2 H3 H4 H5 H6] Hd Hp r Hr w'. pose proof (newest_skip l0 p added l H2 Hp) as Hn. fold r in Hn.
  assert (Hrl : 1 <= r <= count l) by (destruct (content_newest l p) as [[E _]|[E _]]; rewrite Hn in E; lia).
  split; [|split; [now apply set_data_count|split; [now apply set_data_commit|now apply set_data_content]]].
  constructor; cbn [w' set_file set_re iReCksum ix shared_hdr]; try assumption.
  - unfold w'. rewrite (wr_szPage _ _ _ _ _ (lg_written _ _ _ _ H1)). now apply overwrite_ok.
  - now rewrite set_data_pages.
  - rewrite set_data_first by lia. exact H3.
  - destruct (Z.eqb_spec (iReCksum w) 0); cbn [orb]; [lia|]. destruct (Z.ltb_spec r (iReCksum w)); lia.
Qed.

Lemma write_pages_ok ps : forall l added pLast w, Loop l added w -> NoDup (map fst ps) -> (forall p, In p (map fst ps) -> ~ In p added) ->
  Forall (page_ok sz) ps -> last_commit l = Z.to_nat c -> ps <> [] ->
  exists w' l' added' pLast', write_pages iFirst nTruncate isCommit ps w (count l) added pLast = (w', count l', added', pLast') /\
    Loop l' added' w' /\ (forall q, content l' q = put_pages ps (content l) q) /\ count l' <= count l + Z.of_nat (length ps) /\ Ended l' pLast'.
Proof.
  induction ps as [|[p d] ps IH]; intros l added pLast w HL Hnd Hin Hok Hlc Hne; [congruence|]. clear Hne.
  cbn [map fst] in Hnd, Hin. apply NoDup_cons_iff in Hnd as [Hnp Hnd]. inversion_clear Hok as [|? ? Hpd Hps]. cbn [write_pages].
  rewrite (lp_ix _ _ _ HL). destruct Hrel as (log & dist & s & HR). rewrite (find_frame log dist s l0 c x0 p HR Hreads). cbn [fst].
  set (more := match ps with [] => false | _ => true end). set (r := newest (page_at l0) p (minFrame (wal x0)) (count l0)).
  assert (Hgo : forall w1 l1 added1 pLast1, Loop l1 added1 w1 -> (forall q, content l1 q = put p d (content l) q) ->
      (forall q, In q (map fst ps) -> ~ In q added1) -> count l1 <= count l + 1 ->
      (if more then last_commit l1 = Z.to_nat c else Ended l1 pLast1) ->
      exists w' l' added' pLast', write_pages iFirst nTruncate isCommit ps w1 (count l1) added1 pLast1 = (w', count l', added', pLast') /\
        Loop l' added' w' /\ (forall q, content l' q = put_pages ((p, d) :: ps) (content l) q) /\
        count l' <= count l + Z.of_nat (length ((p, d) :: ps)) /\ Ended l' pLast').
  { intros w1 l1 added1 pLast1 HL1 Hct Hin1 Hcnt He. cbn [length]. destruct ps as [|p' ps'] eqn:Eps.
    - exists w1, l1, added1, pLast1. cbn [write_pages]. split; [reflexivity|]. split; [exact HL1|]. split; [exact Hct|]. split; [cbn [length]; lia|exact He].
    - rewrite <- Eps in *. destruct (IH l1 added1 pLast1 w1 HL1 Hnd Hin1 Hps He ltac:(rewrite Eps; discriminate)) as (w' & l' & a' & pl' & E & R1 & R2 & R3 & R4).
      exists w', l', a', pl'. split; [exact E|]. split; [exact R1|]. split; [|split; [lia|exact R4]].
      intros q. rewrite R2. change (put_pages ((p, d) :: ps) (content l)) with (put_pages ps (put p d (content l))). now apply put_pages_ext. }
  set (t := if isCommit && negb more then nTruncate else 0). set (fr := {| f_pgno := p; f_trunc := t; f_data := d |}).
  assert (Ht : is_u32 t) by (unfold t; destruct (_ && _); [exact Htrunc|unfold is_u32; lia]).
  assert (Happ : exists w' l' added' pLast', write_pages iFirst nTruncate isCommit ps (write_frame p d t (walFrameOffset (count l + 1) (szPage w)) w)
      (count l + 1) (added ++ [p]) (Some (p, d)) = (w', count l', added', pLast') /\
    Loop l' added' w' /\ (forall q, content l' q = put_pages ((p, d) :: ps) (content l) q) /\
    count l' <= count l + Z.of_nat (length ((p, d) :: ps)) /\ Ended l' pLast').
  { assert (Ec : count (l ++ [fr]) = count l + 1) by apply count_app.
    pose proof (Hgo _ (l ++ [fr]) _ (Some (p, d)) (loop_append l added w p d t HL Hpd Ht)) as Hg. rewrite Ec in Hg.
    apply Hg; [intros q; rewrite content_snoc; reflexivity| |lia|]; clear Hg.
    - intros q Hq. rewrite in_app_iff. intros [Hi|[<-|[]]]; [exact (Hin q (or_intror Hq) Hi)|contradiction].
    - unfold t, Ended, more in *. rewrite last_commit_snoc. cbn [f_trunc fr]. destruct ps; cbn [negb andb] in *; rewrite ?andb_true_r, ?andb_false_r in *.
      + destruct isCommit eqn:Ei; [exists l, p, d; auto|]. exact Hlc.
      + exact Hlc. }
  destruct (negb (iFirst =? 0) && (more || negb isCommit)) eqn:Eg; cbn [andb]; [destruct (Z.leb_spec iFirst r) as [Hle|Hgt]|].
  - rewrite andb_true_iff, negb_true_iff, Z.eqb_neq in Eg. destruct Eg as [Eg1 Eg2].
    assert (Er : newest (page_at l0) p 1 (count l0) = r) by (apply newest_low; [apply Hreads|unfold r in Hle; lia]).
    pose proof (loop_overwrite l added w p d HL (proj2 (proj2 Hpd)) (Hin p (or_introl eq_refl))) as Hov. cbv zeta in Hov. rewrite Er in Hov.
    destruct (Hov ltac:(lia)) as (L & E1 & E2 & E3).
    pose proof (Hgo _ (set_data r d l) _ pLast L E3) as Hg. rewrite E1 in Hg. apply Hg; [intros q Hq; apply Hin; now right|lia|]; clear Hg.
    unfold more, Ended in *. destruct ps; [|congruence]. destruct isCommit; [discriminate|congruence].
  - apply Happ.
  - apply Happ.
Qed.
End Loop.

(** ** The header of a new log *)

Lemma new_head sz ckpt salt f : page_size sz -> size salt = 8 -> slice 0 32 f = wal_header sz ckpt salt -> 32 <= size f ->
  Head sz {| nPage := 0; hdr_szPage := 0; aFrameCksum := header_cksum sz ckpt salt; aSalt := salt; bigEndCksum := 0 |} f.
Proof.
  intros Hsz Hs E Hf. pose proof (page_size_pos sz Hsz) as Hb. set (ck := header_cksum sz ckpt salt).
  assert (Hck : pair_u32 ck) by (apply checksum_u32; split; unfold is_u32; cbn; lia). unfold wal_header in E. fold (header_cksum sz ckpt salt) ck in E.
  set (b := be4 _ ++ be4 _ ++ be4 _ ++ be4 _ ++ salt) in E.
  assert (Hb24 : size b = 24) by (unfold b; rewrite !size_app, !size_be4, Hs; reflexivity).
  apply (slice_parts _ _ 24) in E as [E Ec]; [|lia|lia|exact Hb24]. apply (slice_parts _ _ 4) in Ec as [C1 C2]; [|lia|lia|apply size_be4].
  assert (Eb := E). unfold b in Eb. apply (slice_parts _ _ 4) in Eb as [B1 Eb]; [|lia|lia|apply size_be4].
  apply (slice_parts _ _ 4) in Eb as [B2 Eb]; [|lia|lia|apply size_be4]. apply (slice_parts _ _ 4) in Eb as [B3 Eb]; [|lia|lia|apply size_be4].
  apply (slice_parts _ _ 4) in Eb as [B4 B5]; [|lia|lia|apply size_be4].
  change (slice 24 4 f = be4 (fst ck)) in C1. change (slice 28 4 f = be4 (snd ck)) in C2.
  change (slice 4 4 f = be4 WAL_MAX_VERSION) in B2. change (slice 8 4 f = be4 sz) in B3. change (slice 16 8 f = salt) in B5.
  apply get4_be4 in B1; [|vm_compute; intuition discriminate]. apply get4_be4 in B2; [|unfold is_u32, WAL_MAX_VERSION; lia].
  apply get4_be4 in B3; [|unfold is_u32; lia]. apply get4_be4 in C1; [|apply Hck]. apply get4_be4 in C2; [|apply Hck].
  assert (Er : read_header f = (WAL_MAGIC, sz, get4 12 f, {| nPage := 0; hdr_szPage := 0; aFrameCksum := ck; aSalt := salt; bigEndCksum := 0 |})).
  { unfold read_header. rewrite !get4_slice, !slice_slice by (unfold WAL_HDRSIZE; lia). cbn [Z.add]. rewrite B1. change (8 + 0) with 8.
    rewrite E, B3. change (Z.land (Z.lor WAL_MAGIC SQLITE_BIGENDIAN) 1) with 0.
    now rewrite B5. }
  constructor; [exact Hf| |exact B2| |].
  - unfold whole_header. rewrite Er. cbn [aFrameCksum]. rewrite C1, C2, !Z.eqb_refl.
    unfold SQLITE_MAX_PAGE_SIZE. replace (sz <=? 65536) with true by (symmetry; apply Z.leb_le; lia).
    replace (512 <=? sz) with true by (symmetry; apply Z.leb_le; lia).
    replace (Z.land sz (sz - 1)) with 0 by (clear - Hsz; repeat destruct Hsz as [<-|Hsz]; try reflexivity; destruct Hsz). reflexivity.
  - unfold size_of. now rewrite Er.
  - unfold base_of. now rewrite Er.
Qed.

Lemma start_ok sz rnd w : page_size sz -> size rnd = 8 -> size (aSalt (hdr w)) = 8 -> iReCksum w = 0 ->
  let w' := start_log sz rnd w in
  exists base, Logged sz base [] w' /\ ix w' = ix w /\ shared_hdr w' = shared_hdr w /\ iReCksum w' = 0.
Proof.
  intros Hsz Hr Hs Hre w'. unfold w', start_log. set (salt := if nCkpt w =? 0 then rnd else aSalt (hdr w)).
  assert (Hsalt : size salt = 8) by (unfold salt; destruct (_ =? _); assumption).
  assert (Hh : size (wal_header sz (nCkpt w) salt) = 32) by (unfold wal_header; rewrite !size_app, !size_be4, Hsalt; reflexivity).
  exists {| nPage := 0; hdr_szPage := 0; aFrameCksum := header_cksum sz (nCkpt w) salt; aSalt := salt; bigEndCksum := 0 |}.
  split; [|split; [reflexivity|split; [reflexivity|exact Hre]]].
  assert (Hsize : 32 <= size (os_write (wal_header sz (nCkpt w) salt) 0 (file w))) by (rewrite size_write by lia; lia).
  constructor; cbn [set_file set_hdr set_first iReCksum hdr aFrameCksum after fold_left count length]; [|rewrite Hre; cbn; lia|reflexivity].
  rewrite Hre. cbn [Z.eqb]. constructor; cbn [set_file set_hdr set_first file hdr szPage aSalt bigEndCksum]; try (unfold count; cbn [length]; lia).
  - apply new_head; [exact Hsz|exact Hsalt| |exact Hsize]. apply slice_write_same; lia.
  - constructor.
  - split; reflexivity.
  - exact Hsize.
Qed.

(** ** Padding and truncating *)

Lemma logged_file sz base l w w' : Logged sz base l w ->
  (forall a n, 0 <= a -> 0 <= n -> a + n <= walFrameOffset (count l + 1) sz -> slice a n (file w') = slice a n (file w)) ->
  walFrameOffset (count l + 1) sz <= size (file w') -> hdr w' = hdr w -> szPage w' = szPage w -> iReCksum w' = iReCksum w ->
  Logged sz base l w'.
Proof.
  intros [HW Hre Hck] Hs Hn E1 E2 E3. constructor; rewrite ?E1, ?E3; try assumption. apply (written_file sz base _ l w); try assumption; congruence.
Qed.

Lemma logged_hdr sz base l w w' : Logged sz base l w -> file w' = file w -> aFrameCksum (hdr w') = aFrameCksum (hdr w) ->
  aSalt (hdr w') = aSalt (hdr w) -> bigEndCksum (hdr w') = bigEndCksum (hdr w) -> szPage w' = szPage w -> iReCksum w' = iReCksum w -> Logged sz base l w'.
Proof.
  intros [HW Hre Hck] E0 E1 E2 E3 E4 E5. constructor; rewrite ?E1, ?E5; try assumption.
  apply (written_file sz base _ l w); rewrite ?E0; try assumption; [reflexivity|apply HW].
Qed.

Lemma limit_ok sz base l w n : Logged sz base l w -> walFrameOffset (count l + 1) sz <= n -> Logged sz base l (walLimitSize n w).
Proof.
  intros HL Hn. unfold walLimitSize. destruct (Z.ltb_spec n (size (file w))) as [Hlt|Hge]; [|exact HL].
  pose proof (lg_written _ _ _ _ HL) as HW. pose proof (page_size_pos _ (head_page _ _ _ (wr_head _ _ _ _ _ HW))) as Hsz.
  pose proof (offset_pos (count l + 1) sz ltac:(unfold count; lia) ltac:(lia)).
  apply (logged_file sz base l w); try assumption; try reflexivity; cbn [set_file file].
  - intros. apply slice_truncate; lia.
  - rewrite size_truncate; lia.
Qed.

Lemma pad_frames_ok sz base fr sync fuel : frame_wf sz fr -> forall l w nExtra, Logged sz base l w ->
  exists k w', pad_frames fuel (f_pgno fr, f_data fr) (f_trunc fr) (walFrameOffset (count l + 1) sz) sync w nExtra = (w', (nExtra + k)%nat) /\
    (k <= fuel)%nat /\ Logged sz base (l ++ repeat fr k) w' /\ ix w' = ix w /\ shared_hdr w' = shared_hdr w /\ iReCksum w' = iReCksum w.
Proof.
  intros Hfr. induction fuel as [|fuel IH]; intros l w nExtra HL; cbn [pad_frames].
  all: assert (Hstop : forall n', exists k w', (w, nExtra) = (w', (nExtra + k)%nat) /\ (k <= n')%nat /\ Logged sz base (l ++ repeat fr k) w' /\
    ix w' = ix w /\ shared_hdr w' = shared_hdr w /\ iReCksum w' = iReCksum w)
    by (intros n'; exists O, w; cbn [repeat]; rewrite app_nil_r, Nat.add_0_r; split; [reflexivity|split; [lia|auto]]).
  - apply Hstop.
  - destruct (_ <? sync); [|apply Hstop]. clear Hstop.
    rewrite (wr_szPage _ _ _ _ _ (lg_written _ _ _ _ HL)). destruct (write_frame_ok sz base l w fr HL Hfr) as (L & E1 & E2 & E3).
    change (sz + WAL_FRAME_HDRSIZE) with (sz + 24). rewrite <- offset_next. cbn [fst snd].
    destruct (IH (l ++ [fr]) _ (S nExtra) L) as (k & w' & E & Hk & HL' & E1' & E2' & E3').
    rewrite count_app in E. change (count [fr]) with 1 in E. exists (S k), w'. rewrite E. cbn [repeat]. rewrite <- app_assoc in HL'. cbn [app] in HL'.
    split; [f_equal; lia|]. split; [lia|]. split; [exact HL'|]. split; [congruence|]. split; congruence.
Qed.

(** The padding ends at the sector: more fuel changes nothing. *)
Lemma pad_frames_fuel p t sync fuel more : forall iOffset w n, 0 <= szPage w -> sync - iOffset <= Z.of_nat fuel ->
  pad_frames (fuel + more) p t iOffset sync w n = pad_frames fuel p t iOffset sync w n.
Proof.
  induction fuel as [|fuel IH]; intros iOffset w n Hsz Hf; cbn [Nat.add pad_frames].
  - destruct more; cbn [pad_frames]; [reflexivity|]. replace (iOffset <? sync) with false by (symmetry; apply Z.ltb_ge; lia). reflexivity.
  - destruct (iOffset <? sync); [|reflexivity]. unfold WAL_FRAME_HDRSIZE. apply IH; [|lia].
    unfold write_frame. destruct (walEncodeFrame _ _ _ _ _). exact Hsz.
Qed.

Lemma content_repeat l fr k : forall q, content ((l ++ [fr]) ++ repeat fr k) q = content (l ++ [fr]) q.
Proof.
  induction k as [|k IH]; intros q; cbn [repeat]; [now rewrite app_nil_r|].
  replace (fr :: repeat fr k) with (repeat fr k ++ [fr]) by now rewrite <- repeat_cons. rewrite app_assoc, content_snoc.
  rewrite (put_ext _ _ _ _ IH). rewrite !content_snoc. unfold put. destruct (q =? f_pgno fr); reflexivity.
Qed.
Lemma last_commit_repeat l fr k : f_trunc fr <> 0 -> last_commit ((l ++ [fr]) ++ repeat fr k) = length ((l ++ [fr]) ++ repeat fr k).
Proof.
  intros H. assert (Hs : forall l', last_commit (l' ++ [fr]) = length (l' ++ [fr])).
  { intros l'. rewrite last_commit_snoc, length_app. apply Z.eqb_neq in H. rewrite H. cbn [length]. lia. }
  destruct k as [|k]; [rewrite app_nil_r; apply Hs|]. replace (repeat fr (S k)) with (repeat fr k ++ [fr]) by now rewrite <- repeat_cons.
  rewrite app_assoc. apply Hs.
Qed.

(** ** The new frames enter the index *)

Lemma index_pages_ok ps : forall log dist s x P pr c, Rel log dist s {| pages := P; private := pr; shared := c |} x ->
  Forall (fun p => 0 < p) ps -> frame_ok (appended x + Z.of_nat (length ps)) ->
  exists x' log' dist' s', index_pages x ps = (x', SQLITE_OK) /\ wal x' = wal x /\
    Rel log' dist' s' {| pages := P ++ ps; private := pr; shared := c |} x'.
Proof.
  induction ps as [|p ps IH]; intros log dist s x P pr c HR Hp Hok; cbn [index_pages].
  - exists x, log, dist, s. rewrite app_nil_r. auto.
  - inversion_clear Hp as [|? ? Hp0 Hps]. cbn [length] in Hok. pose proof (r_order _ _ _ _ _ HR) as Hord.
    destruct (append_rel log dist s _ x p HR) as (log1 & dist1 & s1 & HR1 & _ & _); [split; [exact Hp0|unfold frame_ok in *; lia]|].
    assert (Happ : appended (step x (Append p)) = appended x + 1).
    { pose proof (r_len _ _ _ _ _ HR1) as H1. pose proof (r_len _ _ _ _ _ HR) as H0. unfold len in *. cbn [spec_step pages] in *.
      rewrite length_app in H1. cbn [length] in H1. lia. }
    assert (Hwal : wal (step x (Append p)) = wal x) by (cbn [step]; destruct (walIndexAppend _ _ _ _); reflexivity).
    assert (Hrc : snd (walIndexAppend (wal x) (shm x) (appended x + 1) p) = SQLITE_OK).
    { cbn [step] in Happ. destruct (walIndexAppend _ _ _ _) as [m rc]. cbn [appended snd] in *.
      destruct (Z.eqb_spec rc SQLITE_OK) as [|]; [assumption|lia]. }
    rewrite Hrc. cbn [Z.eqb SQLITE_OK]. cbn [spec_step pages private shared] in HR1.
    destruct (IH _ _ _ _ _ _ _ HR1 Hps) as (x' & log' & dist' & s' & E & Ew & HR'); [rewrite Happ; unfold frame_ok in *; lia|].
    exists x', log', dist', s'. split; [exact E|]. split; [congruence|]. rewrite <- app_assoc in HR'. exact HR'.
Qed.

Lemma commit_wal x : wal (step x Commit) = wal x.
Proof. cbn [step]. destruct (_ =? _); reflexivity. Qed.

(** The private header, and on commit the shared one. *)
Lemma publish_ok sz base l0 l c w nTruncate added : let isCommit := negb (nTruncate =? 0) in
  (exists log dist s, Rel log dist s (log_of l0 c) (ix w)) -> Logged sz base l w -> map f_pgno l = map f_pgno l0 ++ added -> frame_ok (count l) ->
  exists w', publish sz nTruncate isCommit added w = (w', SQLITE_OK) /\ Logged sz base l w' /\
    Readable sz l (if isCommit then count l else c) w' /\ live (ix w') = (if isCommit then count l else c) /\
    shared_hdr w' = (if isCommit then hdr w' else shared_hdr w) /\ hdr_szPage (hdr w') = szPage16 sz /\ iReCksum w' = iReCksum w /\
    same_wal (wal (ix w)) (wal (ix w')).
Proof.
  intros isCommit (log & dist & s & HR) HL Hpg Hok. pose proof (count_pages _ _ _ Hpg) as Hcp.
  assert (Happ : appended (ix w) = count l0).
  { pose proof (r_len _ _ _ _ _ HR) as H. unfold len, log_of in H. cbn [pages] in H. rewrite length_map in H. unfold count. lia. }
  pose proof (lg_written _ _ _ _ HL) as HW.
  assert (Hpos : Forall (fun p => 0 < p) added).
  { apply Forall_forall. intros p Hp. assert (Hi : In p (map f_pgno l)) by (rewrite Hpg, in_app_iff; now right).
    apply in_map_iff in Hi as (fr & <- & Hfr). pose proof (wr_wf _ _ _ _ _ HW) as Hwf. rewrite Forall_forall in Hwf. apply (Hwf fr Hfr). }
  destruct (index_pages_ok added log dist s (ix w) _ _ _ HR Hpos) as (x & log1 & dist1 & s1 & E & Ew & HR1); [rewrite Happ, <- Hcp; exact Hok|].
  rewrite <- Hpg in HR1.
  destruct (step_rel _ _ _ _ _ Publish HR1 I) as (log2 & dist2 & s2 & HR2 & _).
  assert (Hlen : len {| pages := map f_pgno l; private := count l0; shared := c |} = count l) by (unfold len, count; cbn [pages]; now rewrite length_map).
  assert (El : spec_step {| pages := map f_pgno l; private := count l0; shared := c |} Publish = log_of l c)
    by (cbn [spec_step pages shared]; rewrite Hlen; reflexivity). rewrite El in HR2.
  unfold publish. rewrite E. cbn [Z.eqb SQLITE_OK]. change (ix (set_ix x w)) with x.
  assert (Hlive : live (step x Publish) = c) by (symmetry; exact (r_shared _ _ _ _ _ HR2)).
  assert (Hwal : same_wal (wal (ix w)) (wal (step x Publish))) by (cbn [step wal]; rewrite Ew; eexists; reflexivity).
  destruct isCommit.
  - destruct (step_rel _ _ _ _ _ Commit HR2 I) as (log3 & dist3 & s3 & HR3 & _).
    assert (Ec : spec_step (log_of l c) Commit = log_of l (count l)).
    { cbn [spec_step log_of private pages shared]. unfold len. cbn [log_of pages]. rewrite length_map. fold (count l). now rewrite Z.eqb_refl. }
    rewrite Ec in HR3. eexists. split; [reflexivity|].
    pose proof (commit_wal (step x Publish)) as Hw3.
    split; [|split; [|split; [|split; [reflexivity|split; [reflexivity|split; [reflexivity|]]]]]].
    + apply (logged_hdr sz base l w); try reflexivity. exact HL.
    + constructor; cbn [set_shared set_hdr set_ix ix hdr szPage file with_size hdr_szPage].
      * exists log3, dist3, s3. exact HR3.
      * intros _. split; [exact (wr_szPage _ _ _ _ _ HW)|reflexivity].
      * intros g Hg. apply (wr_placed _ _ _ _ _ HW g Hg).
    + symmetry. exact (r_shared _ _ _ _ _ HR3).
    + cbn [set_shared set_hdr set_ix ix]. rewrite Hw3. exact Hwal.
  - eexists. split; [reflexivity|]. split; [|split; [|split; [|split; [reflexivity|split; [reflexivity|split; [reflexivity|exact Hwal]]]]]].
    + apply (logged_hdr sz base l w); try reflexivity. exact HL.
    + constructor; cbn [set_shared set_hdr set_ix ix hdr szPage file with_size hdr_szPage].
      * exists log2, dist2, s2. exact HR2.
      * intros _. split; [exact (wr_szPage _ _ _ _ _ HW)|reflexivity].
      * intros g Hg. apply (wr_placed _ _ _ _ _ HW g Hg).
    + exact Hlive.
Qed.

(** ** One call of [walFrames] *)

Lemma seal_ok sz base l fr sector w : Logged sz base (l ++ [fr]) w -> 0 <= sector ->
  let n := count (l ++ [fr]) in
  let wa := if negb (iReCksum w =? 0) then walRewriteChecksums n w else w in
  let (wb, nExtra) := pad_sector sector (Some (f_pgno fr, f_data fr)) (f_trunc fr) n wa in
  let wc := if truncateOnCommit wb && (0 <=? mxWalSize wb)
            then set_truncate false (walLimitSize (Z.max (mxWalSize wb) (walFrameOffset (n + Z.of_nat nExtra + 1) sz)) wb) else wb in
  Logged sz base ((l ++ [fr]) ++ repeat fr nExtra) wc /\ ix wc = ix w /\ shared_hdr wc = shared_hdr w /\ iReCksum wc = 0 /\ Z.of_nat nExtra <= sector.
Proof.
  intros HL Hs n wa.
  assert (Ha : Logged sz base (l ++ [fr]) wa /\ ix wa = ix w /\ shared_hdr wa = shared_hdr w /\ iReCksum wa = 0).
  { unfold wa. destruct (Z.eqb_spec (iReCksum w) 0) as [E|E]; cbn [negb]; [auto|now apply rewrite_ok]. }
  destruct Ha as (La & A1 & A2 & A3).
  assert (Hfr : frame_wf sz fr).
  { pose proof (wr_wf _ _ _ _ _ (lg_written _ _ _ _ La)) as Hwf. apply Forall_app in Hwf as [_ Hwf]. now inversion Hwf. }
  assert (Hp : exists k wb, pad_sector sector (Some (f_pgno fr, f_data fr)) (f_trunc fr) n wa = (wb, k) /\ Z.of_nat k <= sector /\
    Logged sz base ((l ++ [fr]) ++ repeat fr k) wb /\ ix wb = ix w /\ shared_hdr wb = shared_hdr w /\ iReCksum wb = 0).
  { unfold pad_sector. destruct (Z.eqb_spec sector 0) as [E|E].
    - exists O, wa. cbn [repeat]. rewrite app_nil_r. split; [reflexivity|]. split; [lia|]. auto.
    - rewrite (wr_szPage _ _ _ _ _ (lg_written _ _ _ _ La)).
      destruct (pad_frames_ok sz base fr ((walFrameOffset (n + 1) sz + sector - 1) / sector * sector) (Z.to_nat sector) Hfr _ wa 0%nat La)
        as (k & wb & Ek & Hk & Lb & B1 & B2 & B3).
      exists k, wb. split; [exact Ek|]. split; [lia|]. split; [exact Lb|]. split; [congruence|]. split; congruence. }
  destruct Hp as (k & wb & -> & Hk & Lb & B1 & B2 & B3). cbv zeta.
  destruct (truncateOnCommit wb && (0 <=? mxWalSize wb)); [|auto].
  assert (Hc : count ((l ++ [fr]) ++ repeat fr k) = n + Z.of_nat k) by (rewrite count_app; unfold n, count; rewrite repeat_length; reflexivity).
  split; [|unfold walLimitSize; destruct (_ <? _); auto].
  apply (logged_hdr sz base _ (walLimitSize (Z.max (mxWalSize wb) (walFrameOffset (n + Z.of_nat k + 1) sz)) wb)); try reflexivity.
  apply limit_ok; [exact Lb|]. rewrite Hc. lia.
Qed.

(** The shared header is that of the committed frames. *)
Definition Shared (sz : Z) (base : WalHdr) (l : list Frame) (h : WalHdr) : Prop :=
  aFrameCksum h = aFrameCksum (after base l) /\ aSalt h = aSalt base /\ bigEndCksum h = bigEndCksum base /\ hdr_szPage h = szPage16 sz.

(** The handle between two events, with the frames [l]. *)
Record Inv (sz : Z) (l : list Frame) (w : Handle) : Prop := {
  in_read : Readable sz l (live (ix w)) w;
  in_commit : live (ix w) = Z.of_nat (last_commit l);
  in_re : iReCksum w = 0 \/ l <> [] /\ live (ix w) < iReCksum w;
  in_salt : size (aSalt (hdr w)) = 8 /\ size (aSalt (shared_hdr w)) = 8;
  in_logged : l <> [] -> exists base, Logged sz base l w /\ (0 < live (ix w) -> Shared sz base (firstn (last_commit l) l) (shared_hdr w)) }.

Definition frames_ok (sz : Z) (w : Handle) (ps : list (Z * list Z)) (nTruncate sectorSize : Z) (rnd : list Z) : Prop :=
  ps <> [] /\ NoDup (map fst ps) /\ Forall (page_ok sz) ps /\ is_u32 nTruncate /\ 0 <= sectorSize /\ size rnd = 8 /\
  frame_ok (mxFrame (wal (ix w)) + Z.of_nat (length ps) + sectorSize).

Lemma inv_frames sz l w : Inv sz l w -> mxFrame (wal (ix w)) = count l.
Proof. intros [[(log & dist & s & HR) _ _] _ _ _ _]. symmetry. exact (r_private _ _ _ _ _ HR). Qed.

Lemma logged_salt sz base l w : Logged sz base l w -> size (aSalt (hdr w)) = 8.
Proof. intros HL. destruct (lg_written _ _ _ _ HL) as [H1 _ _ _ _ [-> _] _ _]. apply (head_wf _ _ _ H1). Qed.

(** The log is begun, if it is empty. *)
Lemma begin_ok sz l w rnd : page_size sz -> Inv sz l w -> size rnd = 8 ->
  let w1 := if mxFrame (wal (ix w)) =? 0 then start_log sz rnd w else w in
  exists base, Logged sz base l w1 /\ ix w1 = ix w /\ shared_hdr w1 = shared_hdr w /\ (iReCksum w1 = 0 \/ live (ix w) < iReCksum w1) /\
    (0 < live (ix w) -> Shared sz base (firstn (last_commit l) l) (shared_hdr w)).
Proof.
  intros Hsz HI Hr. rewrite (inv_frames _ _ _ HI). destruct HI as [Hread Hcm Hre [Hs1 Hs2] Hlog].
  destruct (Z.eqb_spec (count l) 0) as [E|E].
  - destruct l as [|? ?]; [|unfold count in E; cbn [length] in E; lia]. destruct Hre as [Hre|[Hre _]]; [|congruence].
    destruct (start_ok sz rnd w Hsz Hr Hs1 Hre) as (base & L & E1 & E2 & E3). exists base. split; [exact L|]. split; [exact E1|]. split; [exact E2|].
    split; [now left|]. intros H. cbn in Hcm. lia.
  - destruct Hlog as (base & L & Sh); [intros ->; now apply E|]. exists base. split; [exact L|]. split; [reflexivity|]. split; [reflexivity|].
    split; [|exact Sh]. destruct Hre as [Hre|[_ Hre]]; auto.
Qed.

Lemma map_repeat_pgno fr k : map f_pgno (repeat fr k) = repeat (f_pgno fr) k.
Proof. induction k as [|k IH]; cbn [repeat map]; congruence. Qed.

(** The frames after a call: those of before, some of them not committed and with
    other data, and new ones. *)
Definition Grown (l l' : list Frame) : Prop :=
  (exists added, map f_pgno l' = map f_pgno l ++ added) /\ firstn (last_commit l) l' = firstn (last_commit l) l.

Lemma append_frames_ok sz l w ps nTruncate sector rnd : page_size sz -> Inv sz l w -> Reading (live (ix w)) (wal (ix w)) -> frames_ok sz w ps nTruncate sector rnd ->
  exists w' l', append_frames sz rnd ps nTruncate (negb (nTruncate =? 0)) sector w = (w', SQLITE_OK) /\ Inv sz l' w' /\
    (forall q, content l' q = put_pages ps (content l) q) /\
    (if nTruncate =? 0 then firstn (last_commit l') l' = firstn (last_commit l) l else last_commit l' = length l') /\
    Grown l l' /\ same_wal (wal (ix w)) (wal (ix w')).
Proof.
  intros Hsz HI Hrd (Hne & Hnd & Hps & Ht & Hsec & Hrnd & Hok). pose proof (inv_frames _ _ _ HI) as Hmx. rewrite Hmx in Hok.
  destruct (begin_ok sz l w rnd Hsz HI Hrnd) as (base & L1 & Eix & Esh & Hre1 & Hshared). destruct HI as [Hread Hcm Hre [Hs1 Hs2] Hlog].
  unfold append_frames, first_frame. set (iFirst := if _ && _ then 0 else _). set (w1 := if mxFrame _ =? 0 then _ else _) in *.
  rewrite (wr_szPage _ _ _ _ _ (lg_written _ _ _ _ L1)), Z.eqb_refl, Hmx. cbn [negb].
  destruct Hread as [Hrel _ _]. set (c := live (ix w)) in *. pose proof (last_commit_le l) as Hlc.
  assert (Hc : 0 <= c <= count l) by (unfold count; lia).
  assert (HL1 : Loop sz base l c (ix w) (shared_hdr w) l [] w1).
  { constructor; try assumption; [now rewrite app_nil_r|reflexivity]. }
  assert (Hif : iFirst = 0 \/ iFirst = c + 1) by (unfold iFirst; destruct (_ && _); auto).
  destruct (write_pages_ok sz base l c (ix w) (shared_hdr w) nTruncate iFirst Hrel Hrd Hc Hif Ht ps l [] None w1 HL1 Hnd) as
    (w2 & l2 & added & pLast & E2 & HL2 & Hct2 & Hcnt2 & Hend); try assumption; [intros p _ []|lia|]. rewrite E2.
  destruct HL2 as [L2 Hpg Hfst Hre2 Eix2 Esh2]. unfold Ended in Hend. destruct (Z.eqb_spec nTruncate 0) as [Et|Et]; cbn [negb andb] in *.
  - destruct (publish_ok sz base l l2 c w2 nTruncate added) as (w' & E & L' & R' & Hlive & Hsh' & _ & Hre' & Hsame); try (rewrite Eix2); try assumption.
    { unfold frame_ok, count in *. lia. }
    rewrite Et in E, R', Hlive, Hsh'. cbn [Z.eqb negb] in *. exists w', l2. subst nTruncate. cbn [repeat] in *. rewrite app_nil_r. split; [exact E|].
    assert (Hf2 : firstn (last_commit l2) l2 = firstn (last_commit l) l).
    { rewrite Hend. replace (Z.to_nat c) with (last_commit l) in * by lia. exact Hfst. }
    rewrite Eix2 in Hsame. split; [|split; [exact Hct2|split; [exact Hf2|split; [|exact Hsame]]]].
    2: { split; [exists added; exact Hpg|]. replace (Z.to_nat c) with (last_commit l) in Hfst by lia. exact Hfst. }
    constructor; rewrite ?Hlive; [exact R'|lia| | |].
    + rewrite Hre'. destruct Hre2 as [Hz|Hz]; [now left|right]. split; [|exact Hz]. intros ->. pose proof (lg_re _ _ _ _ L2). cbn in H. lia.
    + rewrite Hsh', Esh2. split; [exact (logged_salt _ _ _ _ L')|exact Hs2].
    + intros _. exists base. split; [exact L'|]. rewrite Hsh', Esh2, Hf2. exact Hshared.
  - destruct Hend as (l3 & p & d & -> & ->). set (fr := {| f_pgno := p; f_trunc := nTruncate; f_data := d |}) in *.
    pose proof (seal_ok sz base l3 fr sector w2 L2 Hsec) as Hseal. cbv zeta in Hseal. cbn [f_pgno f_data f_trunc fr] in Hseal. fold fr in Hseal.
    destruct (pad_sector _ _ _ _ _) as [wb nExtra]. set (wc := if truncateOnCommit wb && _ then _ else _) in *.
    destruct Hseal as (Lc & C1 & C2 & C3 & Hx).
    destruct (publish_ok sz base l ((l3 ++ [fr]) ++ repeat fr nExtra) c wc nTruncate (added ++ repeat p nExtra)) as
      (w' & E & L' & R' & Hlive & Hsh' & Hsz' & Hre' & Hsame); try (rewrite C1, Eix2); try assumption.
    { rewrite map_app, Hpg, map_repeat_pgno, app_assoc. reflexivity. }
    { rewrite count_app. unfold frame_ok, count in *. rewrite repeat_length. lia. }
    replace (nTruncate =? 0) with false in * by (symmetry; now apply Z.eqb_neq). cbn [negb fst] in *. exists w', ((l3 ++ [fr]) ++ repeat fr nExtra).
    split; [exact E|]. pose proof (last_commit_repeat l3 fr nExtra Et) as Hall. rewrite C1, Eix2 in Hsame. split; [|split; [|split; [exact Hall|split; [|exact Hsame]]]].
    3: { split; [eexists; rewrite map_app, Hpg, <- app_assoc; reflexivity|]. replace (Z.to_nat c) with (last_commit l) in Hfst by lia.
         rewrite firstn_app_old; [exact Hfst|]. rewrite <- (firstn_length_le l Hlc), <- Hfst, length_firstn. lia. }
    + constructor; rewrite ?Hlive; [exact R'|now rewrite Hall| | |].
      * left. congruence.
      * rewrite Hsh'. split; exact (logged_salt _ _ _ _ L').
      * intros _. exists base. split; [exact L'|]. intros _. rewrite Hall, firstn_all, Hsh'. destruct (lg_written _ _ _ _ L') as [_ _ _ _ _ [K1 K2] _ _].
        split; [apply (lg_cksum _ _ _ _ L'); congruence|]. split; [exact K1|]. split; [exact K2|exact Hsz'].
    + intros q. rewrite content_repeat. apply Hct2.
Qed.

(** ** Rollback *)

Lemma last_commit_app a b : last_commit (a ++ b) = match last_commit b with O => last_commit a | S n => (length a + S n)%nat end.
Proof.
  induction a as [|x a IH]; cbn [app last_commit length Nat.add]; [now destruct (last_commit b)|]. rewrite IH. destruct (last_commit b) as [|n]; [reflexivity|].
  rewrite Nat.add_succ_r. reflexivity.
Qed.
Lemma last_commit_first l : last_commit (firstn (last_commit l) l) = last_commit l.
Proof.
  induction l as [|x l IH]; cbn [last_commit]; [reflexivity|]. destruct (last_commit l) as [|n] eqn:E.
  - destruct (f_trunc x =? 0) eqn:Ex; cbn [firstn last_commit]; [reflexivity|]. now rewrite Ex.
  - rewrite firstn_cons. cbn [last_commit]. now rewrite IH.
Qed.

Lemma count_first n (l : list Frame) : (n <= length l)%nat -> count (firstn n l) = Z.of_nat n.
Proof. intros H. unfold count. now rewrite firstn_length_le. Qed.

(** The first frames alone, when they are signed. *)
Lemma written_first sz base k l w n : Written sz base k l w -> Z.of_nat n <= k -> Written sz base (Z.of_nat n) (firstn n l) w.
Proof.
  intros [H1 H2 H3 H4 H5 H6 H7 H8] Hn. assert (Hc : count (firstn n l) = Z.of_nat n) by (apply count_first; unfold count in *; lia).
  pose proof (page_size_pos _ (head_page _ _ _ H1)) as Hsz. constructor; rewrite ?Hc; try assumption; try lia.
  - rewrite <- (firstn_skipn n l) in H2. now apply Forall_app in H2.
  - intros g Hg. rewrite nth_first by exact Hg. apply H3. lia.
  - intros g Hg. rewrite nth_first, firstn_firstn, Nat.min_l by lia. apply H4. lia.
  - destruct (Z.eq_dec (Z.of_nat n) (count l)) as [->|Hne]; [exact H7|].
    pose proof (offset_mono (Z.of_nat n + 1) (count l + 1) sz ltac:(lia) ltac:(lia)). lia.
Qed.

Lemma kept_first log dist s l c x : Rel log dist s (log_of l c) x -> 0 <= c <= count l ->
  spec_step (log_of l c) Undo = log_of (firstn (Z.to_nat c) l) c.
Proof.
  intros HR Hc. cbn [spec_step log_of private shared]. unfold len. cbn [log_of pages]. rewrite length_map. fold (count l). rewrite Z.eqb_refl.
  unfold keep, log_of. cbn [pages shared]. rewrite firstn_map. f_equal. rewrite count_first by (unfold count in Hc; lia). lia.
Qed.

Lemma undo_wal x : exists n, wal (step x Undo) = set_mxFrame n (wal x).
Proof.
  cbn [step sqlite3WalUndo]. unfold sqlite3WalUndo. destruct (_ =? _); cbn [wal]; [now exists (live x)|]. exists (mxFrame (wal x)). now destruct (wal x).
Qed.

Lemma undo_ok sz l w : Inv sz l w -> Inv sz (firstn (last_commit l) l) (undo w).
Proof.
  intros [[(log & dist & s & HR) Hsize Hdata] Hcm Hre [Hs1 Hs2] Hlog]. pose proof (last_commit_le l) as Hle. set (n := last_commit l) in *.
  destruct (step_rel _ _ _ _ _ Undo HR I) as (log1 & dist1 & s1 & HR1 & _).
  rewrite (kept_first _ _ _ _ _ _ HR) in HR1 by (unfold count; lia). rewrite Hcm, Nat2Z.id in HR1.
  assert (Hlive : live (ix (undo w)) = Z.of_nat n) by (symmetry; exact (r_shared _ _ _ _ _ HR1)).
  destruct (undo_wal (ix w)) as (m & Hm). pose proof (count_first n l Hle) as Hcn.
  assert (Hsh : (0 < n)%nat -> exists base, Logged sz base l w /\ Shared sz base (firstn n l) (shared_hdr w)).
  { intros Hn. destruct Hlog as (base & L & Sh); [intros ->; cbn in *; lia|]. exists base. split; [exact L|]. apply Sh. lia. }
  constructor; rewrite ?Hlive.
  - constructor; unfold undo; cbn [set_re set_hdr set_ix ix hdr szPage file].
    + exists log1, dist1, s1. exact HR1.
    + rewrite Hcn. intros H1. destruct (Hsh ltac:(lia)) as (base & L & (_ & _ & _ & Sh)). split; [exact (wr_szPage _ _ _ _ _ (lg_written _ _ _ _ L))|exact Sh].
    + rewrite Hcn. intros g Hg. rewrite nth_first by exact Hg. apply Hdata. unfold count. lia.
  - unfold n. now rewrite last_commit_first.
  - now left.
  - split; exact Hs2.
  - intros Hne. assert (Hn : (0 < n)%nat) by (destruct n; [now cbn in Hne|lia]). destruct (Hsh Hn) as (base & L & (S1 & S2 & S3 & S4)). exists base.
    assert (Hfn : firstn (last_commit (firstn n l)) (firstn n l) = firstn n l) by (unfold n; rewrite last_commit_first; now rewrite firstn_firstn, Nat.min_id).
    rewrite Hfn. split; [|now intros _]. pose proof (lg_written _ _ _ _ L) as HW.
    constructor; unfold undo; cbn [set_re set_hdr set_ix iReCksum hdr Z.eqb]; [|unfold count; lia|now intros _].
    rewrite Hcn. apply (written_first sz base _ l w n) in HW; [|destruct (Z.eqb_spec (iReCksum w) 0); [unfold count; lia|destruct Hre as [Hre|[_ Hre]]; lia]].
    destruct (wr_salt _ _ _ _ _ HW) as [W1 W2]. apply (written_file sz base _ _ w); try assumption; try reflexivity; cbn [set_re set_hdr set_ix hdr file].
    + apply (wr_size _ _ _ _ _ HW).
    + congruence.
    + congruence.
Qed.

(** ** Crash and recovery *)

Lemma chained_signed sz f l : forall i hd, chained sz f i hd l -> forall g, (g < length l)%nat ->
  signed sz f (i + Z.of_nat g) (after hd (firstn g l)) (nth g l frame0).
Proof.
  induction l as [|fr l IH]; intros i hd Hc g Hg; cbn [length] in Hg; [lia|]. destruct Hc as (_ & S & Hc).
  destruct g as [|g]; cbn [nth firstn after fold_left]; [now rewrite Z.add_0_r|]. replace (i + Z.of_nat (Datatypes.S g)) with (i + 1 + Z.of_nat g) by lia.
  apply (IH (i + 1) (next hd fr) Hc). lia.
Qed.

Lemma chained_of sz f base l : (forall g, 1 <= g <= count l -> placed sz f g (nth (Z.to_nat (g - 1)) l frame0) /\
    signed sz f g (after base (firstn (Z.to_nat (g - 1)) l)) (nth (Z.to_nat (g - 1)) l frame0)) -> chained sz f 1 base l.
Proof.
  induction l as [|fr l IH] using rev_ind; intros H; [exact I|]. assert (Hc : count (l ++ [fr]) = count l + 1) by apply count_app. rewrite Hc in H.
  apply chained_app. split.
  - apply IH. intros g Hg. specialize (H g ltac:(lia)). rewrite nth_snoc_old, firstn_app_old in H by (unfold count in *; lia). exact H.
  - specialize (H (count l + 1) ltac:(unfold count; lia)). rewrite nth_snoc_last in H.
    replace (Z.to_nat (count l + 1 - 1)) with (length l) in H by (unfold count; lia). rewrite firstn_app_old, firstn_all in H by lia.
    replace (1 + Z.of_nat (length l)) with (count l + 1) by (unfold count; lia). destruct H as [P S]. split; [exact P|]. split; [exact S|exact I].
Qed.

(** What a crash leaves: at least the committed frames. *)
Definition restart_ok (sz : Z) (w : Handle) (f : list Z) (extra : list Frame) : Prop :=
  let c := live (ix w) in let n := walFrameOffset (c + 1) sz in
  bytes f /\ size f < 2 ^ 40 /\ recovered_ok f = true /\ (usable_header f = true -> size_of f = sz) /\
  (0 < c -> os_truncate n f = os_truncate n (file w)) /\ extra = skipn (Z.to_nat c) (committed_frames f).

Lemma usable_head f : usable_header f = true -> Head (size_of f) (base_of f) f.
Proof.
  unfold usable_header, accepted_header. rewrite !andb_true_iff, Z.ltb_lt, Z.eqb_eq. unfold WAL_HDRSIZE. intros [[H1 H2] H3].
  constructor; [lia|exact H2|exact H3|reflexivity|reflexivity].
Qed.

Lemma recovered_inv sz f w : bytes f -> size f < 2 ^ 40 -> (usable_header f = true -> size_of f = sz) -> Recovery f w -> iReCksum w = 0 ->
  Inv sz (committed_frames f) w.
Proof.
  intros Hb Hf Hsz HV Hre. pose proof (rv_read _ _ HV sz ltac:(intros; symmetry; auto)) as HR.
  assert (Hlive : live (ix w) = count (committed_frames f)) by (destruct (rd_rel _ _ _ _ HR) as (log & dist & s & HL); symmetry; exact (r_shared _ _ _ _ _ HL)).
  assert (Hlc : last_commit (committed_frames f) = last_commit (valid_frames f)) by apply last_commit_first. pose proof (count_committed f) as Hcc.
  constructor; rewrite ?Hlive; [exact HR|congruence|now left|rewrite (rv_shared _ _ HV); split; apply (rv_salt _ _ HV)|].
  intros Hne. destruct (usable_header f) eqn:Hu; [|now rewrite (committed_none f Hu) in Hne]. pose proof (Hsz eq_refl) as Es.
  destruct (valid_chained f Hb Hf Hu) as (C & W & Hfit & _). destruct (rv_usable _ _ HV Hu) as [Esz Eh]. rewrite Es in *.
  pose proof (last_commit_le (valid_frames f)) as Hle. set (n := last_commit (valid_frames f)) in *. exists (base_of f).
  assert (Hh : Shared sz (base_of f) (committed_frames f) (hdr w)).
  { rewrite Eh. destruct (commit_hdr_salt sz (base_of f) (valid_frames f)) as [S1 S2]. unfold Shared. rewrite S1, S2. unfold commit_hdr, committed_frames in *.
    fold n in Hne |- *. destruct n as [|m]; [now cbn in Hne|]. auto. }
  split.
  - assert (HW : Written sz (base_of f) (count (valid_frames f)) (valid_frames f) w).
    { constructor; rewrite ?(rv_file _ _ HV); try assumption.
      - rewrite <- Es. now apply usable_head.
      - intros g Hg. pose proof (chained_nth _ _ _ _ _ (Z.to_nat (g - 1)) C ltac:(unfold count in Hg; lia)) as P.
        replace (1 + Z.of_nat (Z.to_nat (g - 1))) with g in P by lia. exact P.
      - intros g Hg. pose proof (chained_signed sz f _ _ _ C (Z.to_nat (g - 1)) ltac:(unfold count in Hg; lia)) as S.
        replace (1 + Z.of_nat (Z.to_nat (g - 1))) with g in S by lia. exact S.
      - unfold count. lia.
      - split; apply Hh. }
    apply (written_first sz (base_of f) _ _ w n) in HW; [|unfold count; lia]. fold (committed_frames f) in HW.
    constructor; rewrite ?Hre; cbn [Z.eqb]; [rewrite Hcc; exact HW|unfold count; lia|intros _; apply Hh].
  - intros _. rewrite (rv_shared _ _ HV), Hlc. unfold committed_frames. fold n. rewrite firstn_firstn, Nat.min_id. exact Hh.
Qed.

(** The committed frames are found again. *)
Lemma durable_frames sz l w f extra : Inv sz l w -> restart_ok sz w f extra ->
  committed_frames f = firstn (last_commit l) l ++ extra.
Proof.
  intros [Hread Hcm Hre _ Hlog] (Hb & Hf & Hok & Hsz & Hkeep & ->). rewrite Hcm, Nat2Z.id in *. set (n := last_commit l) in *. pose proof (last_commit_le l) as Hle. fold n in Hle.
  destruct (Nat.eq_dec n 0) as [E0|Hn]; [now rewrite E0|]. specialize (Hkeep ltac:(lia)).
  destruct Hlog as (base & L & _); [intros ->; cbn in *; lia|]. pose proof (lg_written _ _ _ _ L) as HW.
  apply (written_first sz base _ l w n) in HW; [|destruct (Z.eqb_spec (iReCksum w) 0); [unfold count; lia|destruct Hre as [Hre|[_ Hre]]; lia]].
  destruct HW as [H1 H2 H3 H4 H5 H6 H7 H8]. rewrite (count_first n l Hle) in *. pose proof (page_size_pos _ (head_page _ _ _ H1)) as Hps.
  set (K := walFrameOffset (Z.of_nat n + 1) sz) in *. assert (HK : 32 + Z.of_nat n * (sz + 24) = K) by (unfold K, walFrameOffset, WAL_HDRSIZE, WAL_FRAME_HDRSIZE; ring).
  assert (HsK : K <= size f).
  { apply (f_equal size) in Hkeep. rewrite (size_truncate K (file w)) in Hkeep by nia. unfold os_truncate, size in *. rewrite length_firstn in Hkeep. lia. }
  assert (Hag : forall a m, 0 <= a -> 0 <= m -> a + m <= K -> slice a m f = slice a m (file w)) by (intros; apply (slice_agree K); assumption).
  assert (HH : Head sz base f) by (apply (head_agree sz base (file w)); [symmetry; apply Hag; nia|nia|exact H1]).
  assert (Hu : usable_header f = true).
  { unfold usable_header, accepted_header. rewrite (hd_whole _ _ _ HH), (hd_version _ _ _ HH), Z.eqb_refl.
    replace (WAL_HDRSIZE <? size f) with true; [reflexivity|]. symmetry. apply Z.ltb_lt. unfold WAL_HDRSIZE. nia. }
  assert (HC : chained sz f 1 base (firstn n l)).
  { apply chained_of. rewrite (count_first n l Hle). intros g Hg. pose proof (offset_pos g sz ltac:(lia) ltac:(lia)).
    pose proof (offset_mono g (Z.of_nat n + 1) sz ltac:(lia) ltac:(lia)) as Hm. fold K in Hm.
    assert (He : slice (walFrameOffset g sz) (sz + 24) f = slice (walFrameOffset g sz) (sz + 24) (file w)) by (apply Hag; lia).
    split; apply (placed_ext sz (file w) f g _ He); try lia; [now apply H3|now apply H4]. }
  assert (Hv : exists rest, valid_frames f = firstn n l ++ rest).
  { rewrite (valid_frames_eq f Hu), (hd_page _ _ _ HH), (hd_base _ _ _ HH). set (L' := _ / _).
    assert (HL' : Z.of_nat n <= L') by (apply Z.div_le_lower_bound; unfold WAL_HDRSIZE, WAL_FRAME_HDRSIZE; nia).
    replace (Z.to_nat L') with (length (firstn n l) + (Z.to_nat L' - n))%nat by (rewrite firstn_length_le; lia).
    rewrite (scan_chain sz f _ ltac:(lia) (firstn n l) 1 base ltac:(lia) (head_wf _ _ _ HH) H2 HC). eexists. reflexivity. }
  destruct Hv as (rest & Hv). unfold committed_frames. rewrite Hv, last_commit_app. fold n. unfold n. rewrite last_commit_first. fold n.
  assert (Hln : length (firstn n l) = n) by (apply firstn_length_le; lia).
  destruct (last_commit rest) as [|m].
  - rewrite firstn_app_old by lia. rewrite firstn_all2 with (l := firstn n l), skipn_all2 by lia. now rewrite app_nil_r.
  - rewrite Hln, firstn_app, firstn_all2, Hln by lia. rewrite skipn_app, Hln, skipn_all2, Nat.sub_diag by lia. reflexivity.
Qed.

Lemma reopened_opened f m x limit : bytes f -> size f < 2 ^ 40 -> mapped x -> minFrame x = 1 -> reads_wal x -> Opened (reopened f m x limit).
Proof. intros. constructor; assumption. Qed.

(** A handle that uses the whole log. *)
Definition whole_log (x : Wal) : Prop := minFrame x = 1 /\ reads_wal x.
Lemma whole_same x y : same_wal x y -> whole_log x -> whole_log y.
Proof. intros [n ->] H. exact H. Qed.
Lemma whole_reading c x : 0 <= c -> whole_log x -> Reading c x.
Proof. intros Hc [H1 H2]. unfold Reading. rewrite H1. split; [lia|]. split; [unfold frame_ok; lia|exact H2]. Qed.

Lemma restart_step_ok sz l w f extra m priv : Inv sz l w -> whole_log (wal (ix w)) -> restart_ok sz w f extra ->
  exists w', walIndexRecover priv (reopened f m (wal (ix w)) (mxWalSize w)) = (w', SQLITE_OK) /\ Inv sz (committed_frames f) w' /\
    committed_frames f = firstn (last_commit l) l ++ extra /\ same_wal (wal (ix w)) (wal (ix w')).
Proof.
  intros HI [Hmin Hrd] HR. pose proof (durable_frames _ _ _ _ _ HI HR) as Hd. destruct HR as (Hb & Hf & Hok & Hsz & _). destruct HI as [[(log & dist & s & HRel) _ _] _ _ _ _].
  destruct (recover_ok priv (reopened f m (wal (ix w)) (mxWalSize w))) as (w' & E & HV & Hre & Hsame).
  - apply reopened_opened; try assumption. exact (r_map _ _ _ _ _ HRel).
  - exact Hok.
  - exists w'. split; [exact E|]. split; [now apply recovered_inv|]. split; [exact Hd|]. destruct Hsame as [n Hn]. exists n. rewrite Hn. reflexivity.
Qed.

(** ** All sequences of events *)

Definition wal_event_ok (sz : Z) (w : Handle) (e : wal_event) : Prop :=
  match e with
  | Frames ps nTruncate sectorSize rnd => frames_ok sz w ps nTruncate sectorSize rnd
  | Rollback => True
  | Restart f extra _ _ => restart_ok sz w f extra
  end.
Fixpoint wal_events_ok (sz : Z) (w : Handle) (es : list wal_event) : Prop :=
  match es with [] => True | e :: es => wal_event_ok sz w e /\ wal_events_ok sz (fst (wal_step sz w e)) es end.

(** The frames have the content of the database. *)
Definition Holds (l : list Frame) (d : Db) : Prop :=
  (forall q, content l q = working d q) /\ (forall q, content (firstn (last_commit l) l) q = durable d q).

Lemma wal_step_ok sz l w d e : page_size sz -> Inv sz l w -> whole_log (wal (ix w)) -> Holds l d -> wal_event_ok sz w e ->
  exists w' l', wal_step sz w e = (w', SQLITE_OK) /\ Inv sz l' w' /\ whole_log (wal (ix w')) /\ Holds l' (db_step d e).
Proof.
  intros Hsz HI Hx [Hw Hd] He. destruct e as [ps nTruncate sectorSize rnd| |f extra m priv]; cbn [wal_step db_step wal_event_ok] in *.
  - destruct (append_frames_ok sz l w ps nTruncate sectorSize rnd Hsz HI) as (w' & l' & E & HI' & Hc & Hl & _ & Hsame); [apply whole_reading; [rewrite (in_commit _ _ _ HI); lia|exact Hx]|exact He|].
    exists w', l'. split; [exact E|]. split; [exact HI'|]. split; [exact (whole_same _ _ Hsame Hx)|].
    assert (Hput : forall q, content l' q = put_pages ps (working d) q) by (intros q; rewrite Hc; apply put_pages_ext, Hw).
    split; cbn [working durable]; [exact Hput|]. destruct (nTruncate =? 0).
    + rewrite Hl. exact Hd.
    + rewrite Hl, firstn_all. exact Hput.
  - exists (undo w), (firstn (last_commit l) l). split; [reflexivity|]. split; [now apply undo_ok|]. split; [exact (whole_same _ _ (undo_wal (ix w)) Hx)|].
    split; cbn [working durable]; [exact Hd|]. rewrite last_commit_first, firstn_firstn, Nat.min_id. exact Hd.
  - destruct (restart_step_ok sz l w f extra m priv HI Hx He) as (w' & E & HI' & Hc & Hsame). exists w', (committed_frames f). split; [exact E|]. split; [exact HI'|].
    split; [exact (whole_same _ _ Hsame Hx)|].
    assert (Hall : firstn (last_commit (committed_frames f)) (committed_frames f) = committed_frames f).
    { apply firstn_all2. unfold committed_frames. rewrite last_commit_first, firstn_length_le; [lia|apply last_commit_le]. }
    assert (Hput : forall q, content (committed_frames f) q = put_frames extra (durable d) q)
      by (intros q; rewrite Hc, content_app; apply put_frames_ext, Hd).
    split; cbn [working durable]; [exact Hput|]. rewrite Hall. exact Hput.
Qed.

Lemma wal_run_ok sz es : page_size sz -> forall l w d, Inv sz l w -> whole_log (wal (ix w)) -> Holds l d -> wal_events_ok sz w es ->
  exists w' l', wal_run sz w es = (w', SQLITE_OK) /\ Inv sz l' w' /\ whole_log (wal (ix w')) /\ Holds l' (db_run d es).
Proof.
  intros Hsz. induction es as [|e es IH]; intros l w d HI Hx Hd Hes; cbn [wal_run db_run fold_left].
  - exists w, l. auto.
  - destruct Hes as [He Hes]. destruct (wal_step_ok sz l w d e Hsz HI Hx Hd He) as (w1 & l1 & E & HI1 & Hx1 & Hd1). rewrite E in Hes |- *. cbn [Z.eqb SQLITE_OK fst] in *.
    exact (IH l1 w1 _ HI1 Hx1 Hd1 Hes).
Qed.

(** A handle that can read through the log. *)
Definition can_read (x : Wal) : Prop := mapped x /\ minFrame x = 1 /\ readLock x <> 0.

Lemma reopened_inv sz m x limit : can_read x -> Inv sz [] (reopened [] m x limit) /\ whole_log (wal (ix (reopened [] m x limit))) /\ Holds [] empty_db.
Proof.
  intros (Hm & Hmin & Hr). apply (or_introl (B := bShmUnreliable x <> 0)) in Hr. split; [|split; [split; [exact Hmin|exact Hr]|split; reflexivity]]. constructor; cbn [reopened ix live iReCksum hdr shared_hdr]; try (now left); try reflexivity; try congruence.
  - constructor; cbn [reopened ix wal set_mxFrame minFrame]; try assumption; try (unfold count; cbn [length]; lia).
    exists (fun _ => 0), (fun _ _ => 0), 0. exact (fresh_rel x m Hm).
  - split; reflexivity.
Qed.

(** C13: The write-ahead log refines a map of pages.  Start from a log file with
    any bytes and let transactions spill and commit pages (some of which
    overwrite frames of their own transaction), roll back, and let crashes happen
    that leave the committed part of the file and anything after it: every call
    ends without an error and a page is read as the transaction left it; after a
    rollback as it was committed; after a crash with all committed transactions,
    and those that the rest of the file has with valid checksums. *)
Theorem wal_refines sz x m limit es : page_size sz -> can_read x -> wal_events_ok sz (reopened [] m x limit) es ->
  let (w, rc) := wal_run sz (reopened [] m x limit) es in
  rc = SQLITE_OK /\ forall p, read_page p w = working (db_run empty_db es) p.
Proof.
  intros Hsz Hx Hes. destruct (reopened_inv sz m x limit Hx) as (HI & Hx0 & Hd).
  destruct (wal_run_ok sz es Hsz [] _ _ HI Hx0 Hd Hes) as (w & l & -> & [HR Hcm _ _ _] & Hx' & [Hw _]). split; [reflexivity|].
  intros p. rewrite (read_content sz l _ w p Hsz HR (whole_reading (live (ix w)) _ ltac:(lia) Hx') (proj1 Hx')). apply Hw.
Qed.

(** C12: Transactions are durable and atomic.  After any sequence of events let
    the machine stop and leave a file that has the bytes up to the last commit,
    then anything with no further valid commit: recovery gives exactly the
    committed pages. *)
Theorem crash_keeps_commits sz x m limit es f m' priv : page_size sz -> can_read x -> wal_events_ok sz (reopened [] m x limit) es ->
  let (w, rc) := wal_run sz (reopened [] m x limit) es in
  restart_ok sz w f [] ->
  let (w', rc') := walIndexRecover priv (reopened f m' (wal (ix w)) limit) in
  rc' = SQLITE_OK /\ forall p, read_page p w' = durable (db_run empty_db es) p.
Proof.
  intros Hsz Hx Hes. destruct (reopened_inv sz m x limit Hx) as (HI & Hx0 & Hd).
  destruct (wal_run_ok sz es Hsz [] _ _ HI Hx0 Hd Hes) as (w & l & -> & HI' & Hx' & [_ Hdur]). intros Hf. pose proof Hf as (Hb & Hsize & Hok & Hps & _).
  pose proof (durable_frames _ _ _ _ _ HI' Hf) as Hc. rewrite app_nil_r in Hc. destruct HI' as [[(log & dist & s & HRel) _ _] _ _ _ _]. destruct Hx' as [Hmin Hrd].
  destruct (recover_ok priv (reopened f m' (wal (ix w)) limit)) as (w' & -> & HV & Hre & Hsame).
  - apply reopened_opened; try assumption. exact (r_map _ _ _ _ _ HRel).
  - exact Hok.
  - split; [reflexivity|]. intros p. destruct (recovered_inv sz f w' Hb Hsize Hps HV Hre) as [HR Hcm' _ _ _].
    assert (Hx' : whole_log (wal (ix w'))) by (apply (whole_same _ _ Hsame); split; [exact Hmin|exact Hrd]).
    rewrite (read_content sz _ _ w' p Hsz HR (whole_reading (live (ix w')) _ ltac:(lia) Hx') (proj1 Hx')), Hc. apply Hdur.
Qed.

(** ** A run with a rollback, an overwritten frame, padding and a torn write *)

Definition salt8 : list Z := [1; 2; 3; 4; 5; 6; 7; 8].
Definition start : Handle := reopened [] noise small_wal (-1).
Definition before_crash : list wal_event :=
  [ Frames [(2, page 17); (5, page 18)] 9 0 salt8;
    Frames [(5, page 19); (2, page 40)] 0 0 salt8;
    Rollback;
    Frames [(5, page 20)] 0 0 salt8;
    Frames [(5, page 21); (7, page 22)] 9 1024 salt8;
    Frames [(2, page 23)] 0 0 salt8 ].
(** The last frame is torn. *)
Definition torn : list Z := firstn 3400 (file (fst (wal_run 512 start before_crash))).
Definition crash : wal_event := Restart torn [] noise (fun _ => noise 0).
Definition after_crash : list wal_event := before_crash ++ [crash; Frames [(7, page 24)] 0 0 salt8].

Ltac check_frames :=
  split; [discriminate|]; split; [repeat constructor; cbn; intuition congruence|];
  split; [repeat constructor; vm_compute; intuition discriminate|]; vm_compute; intuition discriminate.

Lemma before_crash_ok : wal_events_ok 512 start before_crash.
Proof. split; [check_frames|]. split; [check_frames|]. split; [exact I|]. split; [check_frames|]. split; [check_frames|]. split; [check_frames|exact I]. Qed.

Lemma small_can_read : can_read small_wal.
Proof. split; [intros h; reflexivity|]. split; [reflexivity|discriminate]. Qed.

Lemma torn_ok : restart_ok 512 (fst (wal_run 512 start before_crash)) torn [].
Proof.
  split; [apply bytes_check; vm_compute; reflexivity|]. split; [vm_compute; reflexivity|]. split; [vm_compute; reflexivity|].
  split; [intros _; vm_compute; reflexivity|]. split; [intros _; vm_compute; reflexivity|vm_compute; reflexivity].
Qed.

Lemma wal_events_app sz es es' : forall w, wal_events_ok sz w es -> snd (wal_run sz w es) = SQLITE_OK -> wal_events_ok sz (fst (wal_run sz w es)) es' ->
  wal_events_ok sz w (es ++ es').
Proof.
  induction es as [|e es IH]; intros w H E H'; [exact H'|]. destruct H as [He H]. split; [exact He|]. cbn [wal_run] in E, H'.
  destruct (wal_step sz w e) as [w1 rc]. cbn [fst]. destruct (Z.eqb_spec rc SQLITE_OK) as [|Hne]; [now apply IH|]. cbn [snd] in E. congruence.
Qed.

Lemma after_crash_ok : wal_events_ok 512 start after_crash.
Proof.
  apply wal_events_app; [exact before_crash_ok|vm_compute; reflexivity|]. split; [exact torn_ok|]. split; [check_frames|exact I].
Qed.

Lemma wal_refines_witness : let w := fst (wal_run 512 start after_crash) in
  read_page 2 w = Some (page 17) /\ read_page 5 w = Some (page 21) /\ read_page 7 w = Some (page 24).
Proof.
  pose proof (wal_refines 512 small_wal noise (-1) after_crash ltac:(now left) small_can_read after_crash_ok) as H. fold start in H.
  destruct (wal_run 512 start after_crash) as [w rc]. destruct H as [_ H]. cbn [fst]. rewrite !H. split; [|split]; vm_compute; reflexivity.
Defined.

Lemma crash_keeps_commits_witness :
  read_page 2 (fst (walIndexRecover (fun _ => noise 0) (reopened torn noise (wal (ix (fst (wal_run 512 start before_crash)))) (-1)))) = Some (page 17).
Proof.
  pose proof (crash_keeps_commits 512 small_wal noise (-1) before_crash torn noise (fun _ => noise 0) ltac:(now left) small_can_read before_crash_ok) as H.
  fold start in H. pose proof torn_ok as Ht. destruct (wal_run 512 start before_crash) as [w rc]. cbn [fst] in *. specialize (H Ht).
  destruct (walIndexRecover _ _) as [w' rc']. destruct H as [_ H]. cbn [fst]. rewrite H. vm_compute. reflexivity.
Defined.
