(* ===== verification/WalCheckpoint.v ===== *)
(** * SQLite: checkpoints of the write-ahead log

    A checkpoint copies the newest frame of each page from the log to the
    database file, as far as the readers of older snapshots allow, in the order
    of the pages.  The module models [walMerge], [walMergesort],
    [walIteratorInit], [walIteratorNext], [walRestartHdr] and [walCheckpoint] of
    [src/api-core/src/db/sqlite3.c], on the handle of [Wal].

    The sublists of the sort are parts of one array that do not overlap; here they
    are lists.  The results of the locks, of the busy handler and of the check for
    an interrupt are parameters; file operations succeed. *)

From Stdlib Require Import ZArith List Lia Bool Sorted.
From S2P Require Import Prelude Varint WalIndex Wal WalDurable.
Import ListNotations.
#[local] Open Scope Z_scope.

(** ** Sorting the frames of a block by page *)

(** The loop of [walMerge]; [aContent] gives the page of a frame. *)
Fixpoint merge_loop (fuel : nat) (aContent : Z -> Z) (aLeft aRight : list Z) : list Z :=
  match fuel with
  | O => []
  | S fuel =>
    match aLeft, aRight with
    | [], [] => []
    | _, _ =>
      let left := match aLeft, aRight with
                  | [], _ => false
                  | _ :: _, [] => true
                  | a :: _, b :: _ => aContent a <? aContent b
                  end in
      let logpage := if left then hd 0 aLeft else hd 0 aRight in
      let aLeft := if left then tl aLeft else aLeft in
      let aRight := if left then aRight else tl aRight in
      let aLeft := match aLeft with a :: l => if aContent a =? aContent logpage then l else aLeft | [] => [] end in
      logpage :: merge_loop fuel aContent aLeft aRight
    end
  end.
Definition walMerge (aContent : Z -> Z) (aLeft aRight : list Z) : list Z := merge_loop (length aLeft + length aRight) aContent aLeft aRight.

(** The sublists [aSub], by number. *)
Definition Sub : Type := Z -> list Z.
Definition set_sub (i : Z) (l : list Z) (aSub : Sub) : Sub := fun j => if j =? i then l else aSub j.
Definition ArraySize : nat := 13.

(** The loop over the low bits of [iList]. *)
Fixpoint carry (fuel : nat) (aContent : Z -> Z) (aSub : Sub) (iList iSub : Z) (aMerge : list Z) : Z * list Z :=
  match fuel with
  | O => (iSub, aMerge)
  | S fuel =>
    if Z.testbit iList iSub then carry fuel aContent aSub iList (iSub + 1) (walMerge aContent (aSub iSub) aMerge)
    else (iSub, aMerge)
  end.

(** The loop over the list: the sublists, and the last one with its number. *)
Fixpoint sort_loop (aContent : Z -> Z) (aList : list Z) (iList : Z) (aSub : Sub) (iSub : Z) (aMerge : list Z) : Sub * Z * list Z :=
  match aList with
  | [] => (aSub, iSub, aMerge)
  | x :: aList =>
    let (iSub, aMerge) := carry ArraySize aContent aSub iList 0 [x] in
    sort_loop aContent aList (iList + 1) (set_sub iSub aMerge aSub) iSub aMerge
  end.

(** The last loop: the larger sublists. *)
Fixpoint finish (fuel : nat) (aContent : Z -> Z) (aSub : Sub) (nList iSub : Z) (aMerge : list Z) : list Z :=
  match fuel with
  | O => aMerge
  | S fuel =>
    if iSub <? Z.of_nat ArraySize then
      finish fuel aContent aSub nList (iSub + 1) (if Z.testbit nList iSub then walMerge aContent (aSub iSub) aMerge else aMerge)
    else aMerge
  end.

Definition walMergesort (aContent : Z -> Z) (aList : list Z) : list Z :=
  let '(aSub, iSub, aMerge) := sort_loop aContent aList 0 (fun _ => []) 0 [] in
  finish ArraySize aContent aSub (Z.of_nat (length aList)) (iSub + 1) aMerge.

(** ** What the sort is for *)

Section Sort.
Variable key : Z -> Z.

Definition key_lt (x y : Z) : Prop := key x < key y.

(** [out] has, for each key, the largest element of [xs] with it, in order. *)
Record Best (xs out : list Z) : Prop := {
  best_sorted : StronglySorted key_lt out;
  best_in : forall x, In x out <-> In x xs /\ forall y, In y xs -> key y = key x -> y <= x }.

Lemma best_key xs out y : Best xs out -> In y xs -> exists x, In x out /\ key x = key y.
Proof.
  intros [_ Hin] Hy.
  assert (Hmax : forall l, (forall z, In z l -> In z xs) -> exists x, In x (y :: l) /\ key x = key y /\ forall z, In z (y :: l) -> key z = key y -> z <= x).
  { induction l as [|a l IH]; intros Hl.
    - exists y. split; [now left|]. split; [reflexivity|]. intros z [<-|[]]. lia.
    - destruct IH as (x & Hx & Ex & Hm); [intros z Hz; apply Hl; now right|]. destruct (Z.eq_dec (key a) (key y)) as [Ea|Ea].
      + exists (Z.max a x). split; [destruct (Z.max_spec a x) as [[_ ->]|[_ ->]]; [destruct Hx; [now left|right; now right]|right; now left]|].
        split; [destruct (Z.max_spec a x) as [[_ ->]|[_ ->]]; assumption|].
        intros z [Hz|[Hz|Hz]] Ez; [specialize (Hm z (or_introl Hz) Ez)|subst z|specialize (Hm z (or_intror Hz) Ez)]; lia.
      + exists x. split; [destruct Hx; [now left|right; now right]|]. split; [exact Ex|].
        intros z [Hz|[Hz|Hz]] Ez; [exact (Hm z (or_introl Hz) Ez)|congruence|exact (Hm z (or_intror Hz) Ez)]. }
  destruct (Hmax xs ltac:(auto)) as (x & Hx & Ex & Hm). exists x. split; [|exact Ex]. apply Hin. split.
  - destruct Hx as [<-|Hx]; assumption.
  - intros z Hz Ez. apply Hm; [now right|congruence].
Qed.

Lemma sorted_head a l : StronglySorted key_lt (a :: l) -> StronglySorted key_lt l /\ forall y, In y l -> key a < key y.
Proof. intros H. apply StronglySorted_inv in H as [H1 H2]. split; [exact H1|]. now apply Forall_forall. Qed.

Lemma merge_loop_spec fuel : forall l r, (length l + length r <= fuel)%nat -> StronglySorted key_lt l -> StronglySorted key_lt r ->
  let out := merge_loop fuel key l r in
  StronglySorted key_lt out /\ forall x, In x out <-> In x r \/ In x l /\ forall y, In y r -> key y <> key x.
Proof.
  induction fuel as [|fuel IH]; intros l r Hf Hl Hr.
  - destruct l, r; cbn in Hf; try lia. cbn. split; [constructor|]. intros x. tauto.
  - cbv zeta. cbn [merge_loop]. destruct l as [|a l], r as [|b r].
    + split; [constructor|]. cbn. intros x. tauto.
    + cbn [hd tl]. destruct (sorted_head b r Hr) as [Hr' Hb]. destruct (IH [] r ltac:(cbn in *; lia) Hl Hr') as [S1 S2]. split.
      * constructor; [exact S1|]. apply Forall_forall. intros y Hy. apply S2 in Hy. apply Hb. cbn in Hy. tauto.
      * intros x. cbn [In]. rewrite S2. cbn [In]. tauto.
    + cbn [hd tl]. destruct (sorted_head a l Hl) as [Hl' Ha].
      assert (El : match l with [] => [] | a0 :: l0 => if key a0 =? key a then l0 else l end = l).
      { destruct l as [|a0 l0]; [reflexivity|]. specialize (Ha a0 (or_introl eq_refl)). replace (key a0 =? key a) with false by (symmetry; apply Z.eqb_neq; lia). reflexivity. }
      rewrite El. destruct (IH l [] ltac:(cbn in *; lia) Hl' Hr) as [S1 S2]. split.
      * constructor; [exact S1|]. apply Forall_forall. intros y Hy. apply S2 in Hy. apply Ha. cbn in Hy. tauto.
      * intros x. cbn [In]. rewrite S2. cbn [In]. intuition.
    + destruct (sorted_head a l Hl) as [Hl' Ha]. destruct (sorted_head b r Hr) as [Hr' Hb]. cbn [hd tl].
      destruct (Z.ltb_spec (key a) (key b)) as [Hab|Hab].
      * assert (El : match l with [] => [] | a0 :: l0 => if key a0 =? key a then l0 else l end = l).
        { destruct l as [|a0 l0]; [reflexivity|]. specialize (Ha a0 (or_introl eq_refl)). replace (key a0 =? key a) with false by (symmetry; apply Z.eqb_neq; lia). reflexivity. }
        rewrite El. destruct (IH l (b :: r) ltac:(cbn in *; lia) Hl' Hr) as [S1 S2]. split.
        { constructor; [exact S1|]. apply Forall_forall. intros y Hy. apply S2 in Hy. unfold key_lt. destruct Hy as [[<-|Hy]|[Hy _]]; [lia|specialize (Hb y Hy); lia|now apply Ha]. }
        intros x. cbn [In]. rewrite S2. cbn [In]. split.
        { intros [<-|H]; [|tauto]. right. split; [now left|]. intros y [<-|Hy]; [lia|specialize (Hb y Hy); lia]. }
        { intuition. }
      * destruct (Z.eqb_spec (key a) (key b)) as [Eab|Eab].
        { destruct (IH l r ltac:(cbn in *; lia) Hl' Hr') as [S1 S2]. split.
          - constructor; [exact S1|]. apply Forall_forall. intros y Hy. apply S2 in Hy. unfold key_lt. destruct Hy as [Hy|[Hy _]]; [now apply Hb|]. rewrite <- Eab. now apply Ha.
          - intros x. cbn [In]. rewrite S2. cbn [In]. split.
            + intros [H|[H|[H H']]]; [tauto|tauto|]. right. split; [now right|]. intros y [<-|Hy]; [specialize (Ha x H); lia|now apply H'].
            + intros [H|[[<-|H] H']]; [tauto| |]; [exfalso; apply (H' b (or_introl eq_refl)); congruence|]. right. right. split; [exact H|]. intros y Hy. apply H'. now right. }
        { destruct (IH (a :: l) r ltac:(cbn in *; lia) Hl Hr') as [S1 S2]. split.
          - constructor; [exact S1|]. apply Forall_forall. intros y Hy. apply S2 in Hy. unfold key_lt. destruct Hy as [Hy|[[<-|Hy] _]]; [now apply Hb|lia|specialize (Ha y Hy); lia].
          - intros x. cbn [In]. rewrite S2. cbn [In]. split.
            + intros [H|[H|[H H']]]; [tauto|tauto|]. right. split; [exact H|]. intros y [<-|Hy]; [|now apply H'].
              destruct H as [<-|H]; [lia|specialize (Ha x H); lia].
            + intros [H|[H H']]; [tauto|]. right. right. split; [exact H|]. intros y Hy. apply H'. now right. }
Qed.

(** Merging what came before with what came after. *)
Lemma merge_best xs ys l r : Best xs l -> Best ys r -> (forall x y, In x xs -> In y ys -> x < y) -> Best (xs ++ ys) (walMerge key l r).
Proof.
  intros Hl Hr Hlt. destruct (merge_loop_spec (length l + length r) l r (Nat.le_refl _) (best_sorted _ _ Hl) (best_sorted _ _ Hr)) as [S1 S2].
  constructor; [exact S1|]. intros x. unfold walMerge. rewrite S2, (best_in _ _ Hl), (best_in _ _ Hr). split.
  - intros [[H1 H2]|[[H1 H2] H3]].
    + split; [apply in_or_app; now right|]. intros y Hy E. apply in_app_iff in Hy as [Hy|Hy]; [specialize (Hlt y x Hy H1); lia|now apply H2].
    + split; [apply in_or_app; now left|]. intros y Hy E. apply in_app_iff in Hy as [Hy|Hy]; [now apply H2|]. exfalso.
      destruct (best_key ys r y Hr Hy) as (z & Hz & Ez). apply (H3 z Hz). congruence.
  - intros [H1 H2]. apply in_app_iff in H1 as [H1|H1].
    + right. split; [split; [exact H1|intros y Hy; apply H2, in_or_app; now left]|]. intros y Hy E. apply (best_in _ _ Hr) in Hy as [Hy _].
      specialize (H2 y (in_or_app _ _ _ (or_intror Hy)) E). specialize (Hlt x y H1 Hy). lia.
    + left. split; [exact H1|]. intros y Hy. apply H2, in_or_app. now right.
Qed.

Lemma best_single x : Best [x] [x].
Proof.
  constructor; [repeat constructor|]. intros y. cbn [In]. split; [|tauto]. intros H. split; [exact H|]. intros z [<-|[]] _. destruct H as [<-|[]]. lia.
Qed.

End Sort.

(** ** The binary counter of the sort *)

Lemma bit_div k i : 0 <= i -> Z.testbit k i = (k / 2 ^ i mod 2 =? 1).
Proof.
  intros Hi. destruct (Z.testbit k i) eqn:E; symmetry.
  - apply Z.eqb_eq. now apply Z.testbit_true.
  - apply Z.eqb_neq. apply Z.testbit_false in E; [|exact Hi]. lia.
Qed.

(** The start of the sublist of bit [i], for the first [k] elements. *)
Definition base_at (k i : Z) : Z := k / 2 ^ (i + 1) * 2 ^ (i + 1).

Lemma pow_succ i : 0 <= i -> 2 ^ (i + 1) = 2 * 2 ^ i.
Proof. intros H. now rewrite Z.pow_add_r, Z.mul_comm by lia. Qed.

Lemma carry_on k i : 0 <= k -> 0 <= i -> (k + 1) mod 2 ^ i = 0 -> Z.testbit k i = true ->
  (k + 1) mod 2 ^ (i + 1) = 0 /\ base_at k i = k + 1 - 2 ^ (i + 1) /\ 2 ^ (i + 1) <= k + 1.
Proof.
  intros Hk Hi Hm Hb. rewrite bit_div, Z.eqb_eq in Hb by exact Hi. pose proof (Z.pow_pos_nonneg 2 i ltac:(lia) Hi) as Hp. unfold base_at.
  rewrite pow_succ by exact Hi. set (P := 2 ^ i) in *. clearbody P. apply Z.mod_divide in Hm as [q Hq]; [|lia].
  assert (Ed : k / P = q - 1) by (symmetry; apply (Z.div_unique k P (q - 1) (P - 1)); lia). rewrite Ed in Hb.
  assert (Eq : q = 2 * ((q - 1) / 2 + 1)) by (Z.div_mod_to_equations; lia). set (h := (q - 1) / 2) in *. clearbody h.
  assert (E2 : k / (2 * P) = h) by (symmetry; apply (Z.div_unique k (2 * P) h (2 * P - 1)); nia).
  split; [|split].
  - rewrite Hq, Eq. replace (2 * (h + 1) * P) with ((h + 1) * (2 * P)) by ring. apply Z.mod_mul. lia.
  - rewrite E2. nia.
  - assert (0 <= h) by nia. nia.
Qed.

Lemma carry_off k i : 0 <= k -> 0 <= i -> (k + 1) mod 2 ^ i = 0 -> Z.testbit k i = false ->
  base_at (k + 1) i = k + 1 - 2 ^ i /\ (forall j, 0 <= j < i -> Z.testbit (k + 1) j = false) /\
  (forall j, i < j -> Z.testbit (k + 1) j = Z.testbit k j /\ base_at (k + 1) j = base_at k j).
Proof.
  intros Hk Hi Hm Hb. rewrite bit_div, Z.eqb_neq in Hb by exact Hi. pose proof (Z.pow_pos_nonneg 2 i ltac:(lia) Hi) as Hp.
  assert (Hlow : forall j, 0 <= j < i -> Z.testbit (k + 1) j = false).
  { intros j Hj. rewrite <- (Z.mod_pow2_bits_low (k + 1) i j) by lia. now rewrite Hm, Z.testbit_0_l. }
  assert (Hhalf : (k + 1) / 2 ^ (i + 1) = k / 2 ^ (i + 1) /\ (k + 1) / 2 ^ (i + 1) * 2 ^ (i + 1) = k + 1 - 2 ^ i).
  { rewrite pow_succ by exact Hi. set (P := 2 ^ i) in *. clearbody P. apply Z.mod_divide in Hm as [q Hq]; [|lia].
    assert (Ed : k / P = q - 1) by (symmetry; apply (Z.div_unique k P (q - 1) (P - 1)); lia). rewrite Ed in Hb.
    assert (Eq : q = 2 * (q / 2) + 1) by (Z.div_mod_to_equations; lia). set (h := q / 2) in *. clearbody h.
    assert (E1 : (k + 1) / (2 * P) = h) by (symmetry; apply (Z.div_unique _ _ h P); nia).
    assert (E2 : k / (2 * P) = h) by (symmetry; apply (Z.div_unique _ _ h (P - 1)); nia). rewrite E1, E2. split; [reflexivity|nia]. }
  destruct Hhalf as [H1 H2]. split; [exact H2|]. split; [exact Hlow|]. intros j Hj.
  assert (Hd : forall m, 0 <= m -> (k + 1) / 2 ^ (i + 1 + m) = k / 2 ^ (i + 1 + m)).
  { intros m Hm'. rewrite Z.pow_add_r, <- !Z.div_div by lia. now rewrite H1. }
  split.
  - rewrite !bit_div by lia. replace j with (i + 1 + (j - i - 1)) by lia. now rewrite Hd by lia.
  - unfold base_at. replace (j + 1) with (i + 1 + (j - i)) by lia. now rewrite Hd by lia.
Qed.

Section SortAll.
Variables (key : Z -> Z) (xs : list Z).
Hypothesis Hxs : StronglySorted Z.lt xs.

Lemma sorted_app_lt (l l' : list Z) : StronglySorted Z.lt (l ++ l') -> forall x y, In x l -> In y l' -> x < y.
Proof.
  induction l as [|a l IH]; intros H x y Hx Hy; [destruct Hx|]. apply StronglySorted_inv in H as [H1 H2]. destruct Hx as [<-|Hx].
  - rewrite Forall_forall in H2. apply H2, in_or_app. now right.
  - now apply IH.
Qed.
Lemma sorted_skip (l l' : list Z) : StronglySorted Z.lt (l ++ l') -> StronglySorted Z.lt l'.
Proof. induction l as [|a l IH]; intros H; [exact H|]. apply StronglySorted_inv in H as [H _]. now apply IH. Qed.

Lemma slice_lt a m k : 0 <= a -> 0 <= m -> 0 <= k -> forall x y, In x (slice a m xs) -> In y (slice (a + m) k xs) -> x < y.
Proof.
  intros Ha Hm Hk. apply sorted_app_lt. rewrite <- slice_split by lia. pose proof Hxs as H. rewrite <- (firstn_skipn (Z.to_nat a) xs) in H.
  apply sorted_skip in H. unfold slice. rewrite <- (firstn_skipn (Z.to_nat (m + k)) _) in H.
  set (l1 := firstn _ _) in *. set (l2 := skipn _ _) in H. clearbody l1 l2. induction l1 as [|b l IH]; [constructor|].
  cbn [app] in H. apply StronglySorted_inv in H as [H1 H2]. constructor; [now apply IH|]. apply Forall_app in H2. apply H2.
Qed.

Lemma merge_slices a m k l r : 0 <= a -> 0 <= m -> 0 <= k -> Best key (slice a m xs) l -> Best key (slice (a + m) k xs) r ->
  Best key (slice a (m + k) xs) (walMerge key l r).
Proof. intros. rewrite slice_split by lia. apply merge_best; try assumption. now apply slice_lt. Qed.

(** The sublists after [k] elements. *)
Definition Counted (k : Z) (aSub : Sub) : Prop := forall i, 0 <= i -> Z.testbit k i = true -> Best key (slice (base_at k i) (2 ^ i) xs) (aSub i).

Lemma carry_ok fuel k aSub : 0 <= k < 4096 -> Counted k aSub -> forall i l, 0 <= i -> Z.of_nat fuel + i = 13 -> (k + 1) mod 2 ^ i = 0 ->
  2 ^ i <= k + 1 -> Best key (slice (k + 1 - 2 ^ i) (2 ^ i) xs) l ->
  let (i', l') := carry fuel key aSub k i l in
  0 <= i' < 13 /\ (k + 1) mod 2 ^ i' = 0 /\ Z.testbit k i' = false /\ 2 ^ i' <= k + 1 /\ Best key (slice (k + 1 - 2 ^ i') (2 ^ i') xs) l'.
Proof.
  intros Hk HC. induction fuel as [|fuel IH]; intros i l Hi Hf Hm Hle HB; cbn [carry].
  - exfalso. replace i with 13 in Hle by lia. change (2 ^ 13) with 8192 in Hle. lia.
  - destruct (Z.testbit k i) eqn:Hb; [|split; [lia|auto]].
    destruct (carry_on k i ltac:(lia) Hi Hm Hb) as (Hm' & Hbase & Hle'). pose proof (pow_succ i Hi) as Hp. pose proof (Z.pow_pos_nonneg 2 i ltac:(lia) Hi).
    apply IH; [lia|lia|exact Hm'|exact Hle'|]. specialize (HC i Hi Hb). rewrite Hbase in HC.
    replace (2 ^ (i + 1)) with (2 ^ i + 2 ^ i) at 2 by lia. apply merge_slices; try lia; [exact HC|].
    replace (k + 1 - 2 ^ (i + 1) + 2 ^ i) with (k + 1 - 2 ^ i) by lia. exact HB.
Qed.

Lemma counted_next k aSub i l : 0 <= k -> Counted k aSub -> 0 <= i -> (k + 1) mod 2 ^ i = 0 -> Z.testbit k i = false ->
  Best key (slice (k + 1 - 2 ^ i) (2 ^ i) xs) l -> Counted (k + 1) (set_sub i l aSub).
Proof.
  intros Hk HC Hi Hm Hb HB j Hj Hbj. destruct (carry_off k i Hk Hi Hm Hb) as (Hbase & Hlow & Hhigh). unfold set_sub.
  destruct (Z.eqb_spec j i) as [->|Hne]; [now rewrite Hbase|]. destruct (Z.ltb_spec j i) as [Hlt|Hge]; [rewrite Hlow in Hbj by lia; discriminate|].
  destruct (Hhigh j ltac:(lia)) as [E1 E2]. rewrite E2. apply HC; [exact Hj|congruence].
Qed.

(** The last sublist, before the last loop. *)
Definition Last (n i : Z) (l : list Z) : Prop :=
  0 <= i < 13 /\ base_at n i = n - 2 ^ i /\ 2 ^ i <= n /\ Best key (slice (n - 2 ^ i) (2 ^ i) xs) l.

Lemma merge_levels_ok : forall ys k aSub i l, skipn (Z.to_nat k) xs = ys -> 0 <= k -> size xs <= 4096 -> Counted k aSub -> ys <> [] ->
  let '(aSub', i', l') := sort_loop key ys k aSub i l in Counted (size xs) aSub' /\ Last (size xs) i' l'.
Proof.
  induction ys as [|x ys IH]; intros k aSub i l Hys Hk Hn HC Hne; [congruence|]. clear Hne. cbn [sort_loop].
  assert (Hlen : size xs = k + size (x :: ys)) by (rewrite <- Hys; unfold size; rewrite length_skipn; apply (f_equal (@length Z)) in Hys; rewrite length_skipn in Hys; cbn [length] in Hys; lia).
  assert (Hx : slice (k + 1 - 2 ^ 0) (2 ^ 0) xs = [x]) by (change (2 ^ 0) with 1; replace (k + 1 - 1) with k by lia; unfold slice; rewrite Hys; reflexivity).
  unfold size in Hlen. cbn [length] in Hlen. unfold size in Hn.
  pose proof (carry_ok ArraySize k aSub ltac:(lia) HC 0 [x] ltac:(lia) ltac:(reflexivity) ltac:(apply Z.mod_1_r) ltac:(cbn; lia)) as Hcar.
  rewrite Hx in Hcar. specialize (Hcar (best_single key x)). destruct (carry _ _ _ _ _ _) as [i' l']. destruct Hcar as (Hi' & Hm & Hb & Hle & HB).
  pose proof (counted_next k aSub i' l' Hk HC ltac:(lia) Hm Hb HB) as HC'. destruct (carry_off k i' Hk ltac:(lia) Hm Hb) as (Hbase & _ & _).
  destruct ys as [|y ys'] eqn:Eys.
  - cbn [sort_loop]. unfold size. cbn [length] in Hlen. replace (Z.of_nat (length xs)) with (k + 1) by lia. split; [exact HC'|].
    split; [exact Hi'|]. split; [exact Hbase|]. split; [exact Hle|exact HB].
  - rewrite <- Eys in *. apply IH; [|lia|exact Hn|exact HC'|rewrite Eys; discriminate].
    replace (Z.to_nat (k + 1)) with (1 + Z.to_nat k)%nat by lia. rewrite <- skipn_skipn, Hys. reflexivity.
Qed.

Lemma finish_ok n aSub : n = size xs -> n <= 4096 -> Counted n aSub -> forall fuel i l, 0 <= i -> 13 <= Z.of_nat fuel + i ->
  Best key (slice (n / 2 ^ i * 2 ^ i) (n - n / 2 ^ i * 2 ^ i) xs) l -> Best key xs (finish fuel key aSub n i l).
Proof.
  intros En Hn HC. pose proof (size_nonneg xs) as Hn0. rewrite <- En in Hn0.
  assert (Hdone : forall i l, 13 <= i -> Best key (slice (n / 2 ^ i * 2 ^ i) (n - n / 2 ^ i * 2 ^ i) xs) l -> Best key xs l).
  { intros i l Hi HB. pose proof (Z.pow_le_mono_r 2 13 i ltac:(lia) Hi) as Hp. change (2 ^ 13) with 8192 in Hp.
    rewrite Z.div_small in HB by lia. rewrite Z.mul_0_l, Z.sub_0_r, (slice_all xs) in HB by exact En. exact HB. }
  induction fuel as [|fuel IH]; intros i l Hi Hf HB; cbn [finish]; [apply (Hdone i); [lia|exact HB]|].
  change (Z.of_nat ArraySize) with 13. destruct (Z.ltb_spec i 13) as [Hlt|Hge]; [|exact (Hdone i l Hge HB)].
  apply IH; [lia|lia|]. pose proof (pow_succ i Hi) as Hp. pose proof (Z.pow_pos_nonneg 2 i ltac:(lia) Hi) as Hpos.
  assert (Hq : n / 2 ^ (i + 1) = n / 2 ^ i / 2) by (rewrite Hp, (Z.mul_comm 2), Z.div_div by lia; reflexivity).
  pose proof (Z.mul_div_le n (2 ^ i) Hpos) as Hml. pose proof (Z.div_pos n (2 ^ i) Hn0 Hpos) as Hdp.
  pose proof (bit_div n i Hi) as Hbit. pose proof (HC i Hi) as HCi. unfold base_at in HCi. rewrite Hq, Hp in *. set (P := 2 ^ i) in *. set (q := n / P) in *.
  destruct (Z.testbit n i) eqn:Hb.
  - symmetry in Hbit. apply Z.eqb_eq in Hbit. assert (Eq : q = 2 * (q / 2) + 1) by (clear - Hbit; Z.div_mod_to_equations; lia). set (h := q / 2) in *. clearbody h.
    assert (Hh : 0 <= h) by lia.
    replace (n - h * (2 * P)) with (P + (n - q * P)) by nia. apply merge_slices; [nia|lia|nia|apply HCi; reflexivity|].
    replace (h * (2 * P) + P) with (q * P) by nia. exact HB.
  - symmetry in Hbit. apply Z.eqb_neq in Hbit. assert (Eq : q = 2 * (q / 2)) by (clear - Hbit; Z.div_mod_to_equations; lia). set (h := q / 2) in *. clearbody h.
    replace (h * (2 * P)) with (q * P) by nia. exact HB.
Qed.

Lemma mergesort_best : size xs <= 4096 -> Best key xs (walMergesort key xs).
Proof.
  intros Hn. unfold walMergesort. destruct (list_eq_dec Z.eq_dec xs []) as [E|E].
  - rewrite E. cbn. constructor; [constructor|]. intros y. cbn [In]. tauto.
  - pose proof (merge_levels_ok xs 0 (fun _ => []) 0 [] eq_refl ltac:(lia) Hn) as H.
    destruct (sort_loop _ _ _ _ _ _) as [[aSub i] l]. destruct H as (HC & Hi & Hb & Hle & HB).
    + intros i' Hi' Hb'. now rewrite Z.testbit_0_l in Hb'.
    + exact E.
    + change (Z.of_nat (length xs)) with (size xs). apply finish_ok; [reflexivity|exact Hn|exact HC|lia|change (Z.of_nat ArraySize) with 13; lia|].
      unfold base_at in Hb. rewrite Hb. replace (size xs - (size xs - 2 ^ i)) with (2 ^ i) by lia. exact HB.
Qed.

End SortAll.

(** ** The sort is an insertion sort *)

(** A simple definition: later elements replace earlier ones of the same page. *)
Fixpoint insert_key (key : Z -> Z) (x : Z) (l : list Z) : list Z :=
  match l with
  | [] => [x]
  | y :: l' => if key x <? key y then x :: l else if key x =? key y then x :: l' else y :: insert_key key x l'
  end.
Definition insertion (key : Z -> Z) (xs : list Z) : list Z := fold_left (fun l x => insert_key key x l) xs [].

Lemma insert_key_spec key x l : StronglySorted (key_lt key) l ->
  StronglySorted (key_lt key) (insert_key key x l) /\ forall z, In z (insert_key key x l) <-> z = x \/ In z l /\ key z <> key x.
Proof.
  induction l as [|y l IH]; intros Hs; cbn [insert_key].
  - split; [repeat constructor|]. cbn [In]. intros z. intuition.
  - destruct (sorted_head key y l Hs) as [Hs' Hy]. destruct (IH Hs') as [S1 S2]. destruct (Z.ltb_spec (key x) (key y)) as [Hlt|Hge].
    + split.
      * constructor; [exact Hs|]. apply Forall_forall. intros z [<-|Hz]; unfold key_lt; [lia|specialize (Hy z Hz); lia].
      * intros z. cbn [In]. split; [|intuition]. intros [->|[<-|Hz]]; [auto|right; split; [auto|lia]|right]. specialize (Hy z Hz). split; [auto|lia].
    + destruct (Z.eqb_spec (key x) (key y)) as [E|E].
      * split.
        -- constructor; [exact Hs'|]. apply Forall_forall. intros z Hz. specialize (Hy z Hz). unfold key_lt. lia.
        -- intros z. cbn [In]. split.
           ++ intros [->|Hz]; [auto|right]. specialize (Hy z Hz). split; [auto|lia].
           ++ intros [->|[[<-|Hz] Hne]]; [auto|congruence|auto].
      * split.
        -- constructor; [exact S1|]. apply Forall_forall. intros z Hz. apply S2 in Hz. unfold key_lt. destruct Hz as [->|[Hz _]]; [lia|now apply Hy].
        -- intros z. cbn [In]. rewrite S2. split.
           ++ intros [<-|[->|[Hz Hne]]]; [right; split; [auto|lia]|auto|auto].
           ++ intros [->|[[<-|Hz] Hne]]; auto.
Qed.

Lemma insertion_best key xs : StronglySorted Z.lt xs -> Best key xs (insertion key xs).
Proof.
  induction xs as [|x xs IH] using rev_ind; intros Hs; [constructor; [constructor|cbn; tauto]|].
  assert (Hlt : forall y, In y xs -> y < x) by (intros y Hy; apply (sorted_app_lt xs [x] Hs); [exact Hy|now left]).
  assert (Hs' : StronglySorted Z.lt xs).
  { clear - Hs. induction xs as [|a xs IH]; [constructor|]. cbn [app] in Hs. apply StronglySorted_inv in Hs as [H1 H2]. constructor; [now apply IH|].
    apply Forall_app in H2. apply H2. }
  destruct (IH Hs') as [S1 S2]. unfold insertion. rewrite fold_left_app. cbn [fold_left]. fold (insertion key xs). destruct (insert_key_spec key x _ S1) as [T1 T2].
  constructor; [exact T1|]. intros z. rewrite T2, S2, in_app_iff. cbn [In]. split.
  - intros [->|[[H1 H2] H3]].
    + split; [auto|]. intros y Hy _. apply in_app_iff in Hy as [Hy|[<-|[]]]; [specialize (Hlt y Hy); lia|lia].
    + split; [auto|]. intros y Hy E. apply in_app_iff in Hy as [Hy|[<-|[]]]; [now apply H2|congruence].
  - intros [[H1|[<-|[]]] H2]; [|auto]. right. split; [split; [exact H1|]|].
    + intros y Hy. apply H2, in_or_app. now left.
    + intros E. specialize (H2 x ltac:(apply in_or_app; right; now left) ltac:(congruence)). specialize (Hlt z H1). lia.
Qed.

(** The specification has one solution. *)
Lemma best_unique key xs : forall a b, Best key xs a -> Best key xs b -> a = b.
Proof.
  intros a b [A1 A2] [B1 B2]. assert (Hin : forall x, In x a <-> In x b) by (intros x; rewrite A2, B2; tauto). clear A2 B2. revert b B1 Hin.
  induction a as [|x a IH]; intros b B1 Hin.
  - destruct b as [|y b]; [reflexivity|]. destruct (proj2 (Hin y)). now left.
  - destruct b as [|y b]; [destruct (proj1 (Hin x)); now left|]. destruct (sorted_head key x a A1) as [A1' Ha]. destruct (sorted_head key y b B1) as [B1' Hb].
    assert (E : x = y).
    { destruct (proj1 (Hin x) (or_introl eq_refl)) as [|Hx]; [congruence|]. destruct (proj2 (Hin y) (or_introl eq_refl)) as [|Hy]; [congruence|].
      specialize (Ha y Hy). specialize (Hb x Hx). lia. }
    subst y. f_equal. apply IH; [exact A1'|exact B1'|]. intros z. split; intros Hz.
    + destruct (proj1 (Hin z) (or_intror Hz)) as [<-|]; [specialize (Ha _ Hz); lia|assumption].
    + destruct (proj2 (Hin z) (or_intror Hz)) as [<-|]; [specialize (Hb _ Hz); lia|assumption].
Qed.

(** The merge sort of a checkpoint, with its sublists of sizes 1, 2, 4, ...,
    is the insertion sort by page in which a later frame replaces an earlier one
    of its page; its thirteen sublists suffice for a block of frames. *)
Theorem mergesort_insertion key xs : StronglySorted Z.lt xs -> size xs <= HASHTABLE_NPAGE -> walMergesort key xs = insertion key xs.
Proof. intros Hs Hn. apply (best_unique key xs); [now apply mergesort_best|now apply insertion_best]. Qed.

Lemma mergesort_insertion_witness : walMergesort (fun x => rd [9; 4; 9; 7; 4; 2; 7] x) [0; 1; 2; 3; 4; 5; 6] = [5; 4; 6; 2].
Proof.
  rewrite mergesort_insertion; [reflexivity| |vm_compute; discriminate]. repeat constructor; lia.
Defined.

(** ** The iterator over pages *)

Definition NO_PAGE : Z := 4294967295.

(** [rest] has the entries of [aIndex] from [iNext] on. *)
Record WalSegment := { rest : list Z; seg_pgno : Z -> Z; seg_zero : Z }.

(** The segments are in the order in which they are visited, the last one first. *)
Record WalIterator := { iPrior : Z; aSegment : list WalSegment }.

Definition iota (n : Z) : list Z := map Z.of_nat (seq 0 (Z.to_nat n)).

(** The number of entries of segment [i]. *)
Definition nEntry (iLast nSegment i : Z) : Z :=
  if i + 1 =? nSegment then iLast - iZero i else if i =? 0 then HASHTABLE_NPAGE_ONE else HASHTABLE_NPAGE.

Definition empty_segment : WalSegment := {| rest := []; seg_pgno := fun _ => 0; seg_zero := 0 |}.

Fixpoint init_segments (n : nat) (w : Wal) (m : Shm) (first nSegment i : Z) (acc : list WalSegment) : list WalSegment * Z :=
  match n with
  | O => (acc, SQLITE_OK)
  | S n =>
    if i <? first then init_segments n w m first nSegment (i + 1) (empty_segment :: acc)
    else
      let rc := map_rc w i in
      if negb (rc =? SQLITE_OK) then ([], rc)
      else
        let aIndex := walMergesort (aPgno (m i)) (iota (nEntry (mxFrame w) nSegment i)) in
        init_segments n w m first nSegment (i + 1) ({| rest := aIndex; seg_pgno := aPgno (m i); seg_zero := iZero i + 1 |} :: acc)
  end.

Definition walIteratorInit (w : Wal) (m : Shm) (nBackfill : Z) : WalIterator * Z :=
  let nSegment := walFramePage (mxFrame w) + 1 in
  let (segs, rc) := init_segments (Z.to_nat nSegment) w m (walFramePage (nBackfill + 1)) nSegment 0 [] in
  ({| iPrior := 0; aSegment := segs |}, rc).

(** Entries of pages that were already returned are skipped. *)
Fixpoint skip_seen (aPgno : Z -> Z) (iMin : Z) (l : list Z) : list Z :=
  match l with
  | [] => []
  | j :: l' => if iMin <? aPgno j then l else skip_seen aPgno iMin l'
  end.

Fixpoint visit (iMin : Z) (segs : list WalSegment) (iRet piFrame : Z) : list WalSegment * Z * Z :=
  match segs with
  | [] => ([], iRet, piFrame)
  | sg :: segs =>
    let l := skip_seen (seg_pgno sg) iMin (rest sg) in
    let (iRet, piFrame) := match l with
                           | j :: _ => if seg_pgno sg j <? iRet then (seg_pgno sg j, seg_zero sg + j) else (iRet, piFrame)
                           | [] => (iRet, piFrame)
                           end in
    let '(segs, iRet, piFrame) := visit iMin segs iRet piFrame in
    ({| rest := l; seg_pgno := seg_pgno sg; seg_zero := seg_zero sg |} :: segs, iRet, piFrame)
  end.

(** The next page and its frame. *)
Definition walIteratorNext (p : WalIterator) : WalIterator * option (Z * Z) :=
  let '(segs, iRet, piFrame) := visit (iPrior p) (aSegment p) NO_PAGE 0 in
  ({| iPrior := iRet; aSegment := segs |}, if iRet =? NO_PAGE then None else Some (iRet, piFrame)).

(** All pages, in the order of the calls. *)
Fixpoint iterate (fuel : nat) (p : WalIterator) : list (Z * Z) * bool :=
  match fuel with
  | O => ([], false)
  | S fuel =>
    match walIteratorNext p with
    | (_, None) => ([], true)
    | (p, Some x) => let (l, e) := iterate fuel p in (x :: l, e)
    end
  end.

Lemma iota_in n x : In x (iota n) <-> 0 <= x < n.
Proof.
  unfold iota. rewrite in_map_iff. split.
  - intros (k & <- & Hk). apply in_seq in Hk. lia.
  - intros H. exists (Z.to_nat x). rewrite in_seq. lia.
Qed.
Lemma iota_sorted n : StronglySorted Z.lt (iota n).
Proof.
  unfold iota. generalize (Z.to_nat n) as k, O as a. induction k as [|k IH]; intros a; cbn [seq map]; constructor; [apply IH|].
  apply Forall_forall. intros x Hx. apply in_map_iff in Hx as (j & <- & Hj). apply in_seq in Hj. lia.
Qed.
Lemma iota_size n : 0 <= n -> size (iota n) = n.
Proof. intros H. unfold size, iota. rewrite length_map, length_seq. lia. Qed.

Lemma best_ext k k' xs out : (forall x, In x xs -> k x = k' x) -> Best k xs out -> Best k' xs out.
Proof.
  intros E [S1 S2].
  assert (Hin : forall x, In x out -> In x xs) by (intros x Hx; now apply S2).
  constructor.
  - clear S2. induction S1 as [|a l S1 IH Hf]; constructor; [apply IH; intros x Hx; apply Hin; now right|]. rewrite Forall_forall in *.
    intros y Hy. specialize (Hf y Hy). unfold key_lt in *. rewrite <- !E by (apply Hin; cbn; auto). exact Hf.
  - intros x. rewrite S2. split; intros [H1 H2]; (split; [exact H1|]); intros y Hy Ey; apply H2; try assumption; rewrite !E in * by assumption; assumption.
Qed.

(** ** The iterator yields the newest frame of each page *)

Section Iterator.
Variables (log : Z -> Z) (w : Wal) (m : Shm) (first : Z).
Let L := mxFrame w.
Let top := walFramePage L.
Hypothesis Hlast : frame_ok L.
Hypothesis Hfirst : 0 <= first <= top.
Hypothesis Hlog : forall h j, 0 <= h <= top -> 0 <= j -> zero_of h + 1 + j <= Z.min L (zero_of (h + 1)) -> aPgno (m h) j = log (zero_of h + 1 + j).
Hypothesis Hpages : forall g, 1 <= g <= L -> 0 < log g < NO_PAGE.
Hypothesis HL : 1 <= L.

(** The frames the iterator covers. *)
Definition covered (g : Z) : Prop := zero_of first < g <= L.

(** Frame [g] of block [h] is the newest of its page there. *)
Definition in_block (h g : Z) : Prop := zero_of h < g <= Z.min L (zero_of (h + 1)).
Definition winner (h x : Z) : Prop :=
  first <= h /\ in_block h (zero_of h + 1 + x) /\ forall g, in_block h g -> log g = log (zero_of h + 1 + x) -> g <= zero_of h + 1 + x.

(** A segment of the iterator, when pages up to [P] were returned. *)
Record Seg (P h : Z) (sg : WalSegment) : Prop := {
  sg_sorted : StronglySorted (key_lt (fun x => log (zero_of h + 1 + x))) (rest sg);
  sg_zero : first <= h -> seg_zero sg = zero_of h + 1;
  sg_pgno : forall x, In x (rest sg) -> seg_pgno sg x = log (zero_of h + 1 + x);
  sg_in : forall x, In x (rest sg) -> winner h x;
  sg_all : forall x, winner h x -> P < log (zero_of h + 1 + x) -> In x (rest sg) }.

(** Segments of the blocks [h], [h - 1], ..., 0. *)
Fixpoint Segs (P : Z) (h : Z) (segs : list WalSegment) : Prop :=
  match segs with [] => h = -1 | sg :: segs => 0 <= h /\ Seg P h sg /\ Segs P (h - 1) segs end.

Lemma block_winner h g : first <= h -> in_block h g -> exists x, winner h x /\ log (zero_of h + 1 + x) = log g.
Proof.
  intros Hh Hg. unfold in_block in Hg.
  assert (Hstep : forall n g, (Z.to_nat (Z.min L (zero_of (h + 1)) - g) <= n)%nat -> in_block h g -> exists x, winner h x /\ log (zero_of h + 1 + x) = log g).
  { clear g Hg. induction n as [|n IH]; intros g Hn Hg.
    all: destruct (existsb (fun k => log (g + 1 + Z.of_nat k) =? log g) (seq 0 (Z.to_nat (Z.min L (zero_of (h + 1)) - g)))) eqn:E.
    1, 3: apply existsb_exists in E as (k & Hk & Ek); apply in_seq in Hk; apply Z.eqb_eq in Ek; unfold in_block in Hg.
    - lia.
    - destruct (IH (g + 1 + Z.of_nat k)) as (x & Hx & Ex); [lia|unfold in_block; lia|]. exists x. split; [exact Hx|congruence].
    - exists (g - zero_of h - 1). replace (zero_of h + 1 + (g - zero_of h - 1)) with g by lia. split; [|reflexivity]. split; [exact Hh|].
      replace (zero_of h + 1 + (g - zero_of h - 1)) with g by lia. split; [exact Hg|]. unfold in_block. intros g' Hg' _. unfold in_block in Hg. lia.
    - exists (g - zero_of h - 1). replace (zero_of h + 1 + (g - zero_of h - 1)) with g by lia. split; [|reflexivity]. split; [exact Hh|].
      replace (zero_of h + 1 + (g - zero_of h - 1)) with g by lia. split; [exact Hg|]. unfold in_block in *. intros g' Hg' Eg.
      destruct (Z.leb_spec g' g) as [|Hgt]; [assumption|]. exfalso. apply Bool.not_true_iff_false in E. apply E. apply existsb_exists.
      exists (Z.to_nat (g' - g - 1)). split; [apply in_seq; lia|]. apply Z.eqb_eq. rewrite Z2Nat.id by lia. replace (g + 1 + (g' - g - 1)) with g' by lia. exact Eg. }
  exact (Hstep _ g (Nat.le_refl _) Hg).
Qed.

Lemma skip_spec key pg P l : StronglySorted (key_lt key) l -> (forall x, In x l -> pg x = key x) ->
  let l' := skip_seen pg P l in
  StronglySorted (key_lt key) l' /\ (forall x, In x l' <-> In x l /\ P < key x).
Proof.
  intros Hs Hp. induction l as [|j l IH]; cbn [skip_seen]; [split; [constructor|cbn; tauto]|].
  destruct (sorted_head key j l Hs) as [Hs' Hj]. rewrite (Hp j (or_introl eq_refl)). destruct (Z.ltb_spec P (key j)) as [Hlt|Hge].
  - split; [exact Hs|]. intros x. cbn [In]. split; [|tauto]. intros [<-|Hx]; [auto|]. specialize (Hj x Hx). split; [auto|lia].
  - destruct (IH Hs' (fun x Hx => Hp x (or_intror Hx))) as [S1 S2]. split; [exact S1|]. intros x. rewrite S2. cbn [In]. split; [tauto|].
    intros [[<-|Hx] Hlt]; [lia|auto].
Qed.

(** What is known of the answer after the frames above [lo]. *)
Definition Answer (P lo iRet fr : Z) : Prop :=
  (iRet = NO_PAGE /\ forall g, covered g -> lo < g -> log g <= P) \/
  (P < iRet < NO_PAGE /\ covered fr /\ lo < fr /\ log fr = iRet /\ (forall g, fr < g <= L -> log g <> iRet) /\
   forall g, covered g -> lo < g -> P < log g -> iRet <= log g).

(** The answer after block [h], whose pages after [P] are those of [l]. *)
Definition take (sg : WalSegment) (l : list Z) (iRet fr : Z) : Z * Z :=
  match l with
  | j :: _ => if seg_pgno sg j <? iRet then (seg_pgno sg j, seg_zero sg + j) else (iRet, fr)
  | [] => (iRet, fr)
  end.

Lemma answer_keep P lo lo' iRet fr : lo' <= lo -> Answer P lo iRet fr ->
  (forall g, covered g -> lo' < g <= lo -> P < log g -> iRet <= log g /\ iRet < NO_PAGE) -> Answer P lo' iRet fr.
Proof.
  intros Hlo HA Hmin. destruct HA as [[E H]|(H1 & H2 & H3 & H4 & H5 & H6)]; [left|right].
  - split; [exact E|]. intros g Hg Hl. destruct (Z.leb_spec g lo) as [Hle|Hgt]; [|now apply H].
    destruct (Z.leb_spec (log g) P) as [|Hgp]; [assumption|]. destruct (Hmin g Hg ltac:(lia) Hgp). lia.
  - split; [exact H1|]. split; [exact H2|]. split; [lia|]. split; [exact H4|]. split; [exact H5|]. intros g Hg Hl Hpg.
    destruct (Z.leb_spec g lo) as [Hle|Hgt]; [now apply Hmin|now apply H6].
Qed.

Lemma block_answer P h sg l iRet fr : 0 <= h -> Seg P h sg -> l = skip_seen (seg_pgno sg) P (rest sg) ->
  Answer P (zero_of (h + 1)) iRet fr -> Answer P (zero_of h) (fst (take sg l iRet fr)) (snd (take sg l iRet fr)).
Proof.
  intros Hh0 [G1 G2 G3 G4 G5] -> HA. destruct (skip_spec _ _ P _ G1 G3) as [K1 K2]. set (l := skip_seen (seg_pgno sg) P (rest sg)) in *.
  pose proof (zero_of_next h Hh0) as Hz. pose proof (cap_bounds h) as Hc. pose proof (zero_of_nonneg h Hh0) as Hz0.
  assert (Hblk : forall g, covered g -> zero_of h < g <= zero_of (h + 1) -> P < log g -> exists x, In x l /\ log (zero_of h + 1 + x) = log g).
  { intros g Hg Hgb Hpg. unfold covered in Hg. destruct (Z.leb_spec first h) as [Hfh|Hfh].
    - destruct (block_winner h g Hfh) as (x & Hx & Ex); [unfold in_block; lia|]. exists x. split; [|exact Ex]. apply K2. split; [apply G5; [exact Hx|lia]|lia].
    - exfalso. pose proof (zero_of_mono (h + 1) first ltac:(lia)). lia. }
  unfold take. destruct l as [|j l'].
  { cbn [fst snd]. apply (answer_keep P (zero_of (h + 1))); [lia|exact HA|]. intros g Hg Hgb Hpg. destruct (Hblk g Hg Hgb Hpg) as (x & [] & _). }
  assert (Hj : In j (j :: l')) by now left. apply K2 in Hj as [Hj Hpj]. pose proof (G4 j Hj) as (W1 & W2 & W3). rewrite (G3 j Hj), (G2 W1).
  set (gj := zero_of h + 1 + j) in *. unfold in_block in W2.
  assert (Hmin : forall g, covered g -> zero_of h < g <= zero_of (h + 1) -> P < log g -> log gj <= log g).
  { intros g Hg Hgb Hpg. destruct (Hblk g Hg Hgb Hpg) as (x & Hx & <-). destruct Hx as [<-|Hx]; [unfold gj; lia|].
    destruct (sorted_head _ j l' K1) as [_ Hs]. specialize (Hs x Hx). fold gj in Hs. lia. }
  assert (Hcov : covered gj) by (unfold covered; pose proof (zero_of_mono first h ltac:(lia)); lia).
  assert (Hlt : log gj < NO_PAGE) by (apply Hpages; lia).
  destruct (Z.ltb_spec (log gj) iRet) as [Hlt'|Hge]; cbn [fst snd].
  - assert (Hup : forall g, covered g -> zero_of (h + 1) < g -> P < log g -> log gj < log g).
    { intros g Hg Hgt Hpg. destruct HA as [[E H]|(_ & _ & _ & _ & _ & H6)]; [specialize (H g Hg Hgt); lia|]. specialize (H6 g Hg Hgt Hpg). lia. }
    right. split; [lia|]. split; [exact Hcov|]. split; [lia|]. split; [reflexivity|]. split.
    + intros g Hg Eg. destruct (Z.leb_spec g (zero_of (h + 1))) as [Hle|Hgt].
      * specialize (W3 g ltac:(unfold in_block; lia) Eg). lia.
      * specialize (Hup g ltac:(unfold covered in *; lia) Hgt ltac:(lia)). lia.
    + intros g Hg Hlo Hpg. destruct (Z.leb_spec g (zero_of (h + 1))) as [Hle|Hgt]; [apply Hmin; [exact Hg|lia|exact Hpg]|].
      specialize (Hup g Hg Hgt Hpg). lia.
  - apply (answer_keep P (zero_of (h + 1))); [lia|exact HA|]. intros g Hg Hgb Hpg. specialize (Hmin g Hg Hgb Hpg).
    destruct HA as [[E H]|(H1 & _)]; lia.
Qed.

Lemma seg_skip P P' h sg : Seg P h sg -> P <= P' ->
  Seg P' h {| rest := skip_seen (seg_pgno sg) P (rest sg); seg_pgno := seg_pgno sg; seg_zero := seg_zero sg |}.
Proof.
  intros [G1 G2 G3 G4 G5] HP'. destruct (skip_spec _ _ P _ G1 G3) as [K1 K2]. constructor; cbn [rest seg_pgno seg_zero]; try assumption.
  - intros x Hx. apply G3. now apply K2.
  - intros x Hx. apply G4. now apply K2.
  - intros x Hx Hlt. apply K2. split; [apply G5; [exact Hx|lia]|lia].
Qed.

Lemma visit_ok P : 0 <= P -> forall segs h iRet fr, Segs P h segs -> Answer P (zero_of (h + 1)) iRet fr ->
  let '(segs', iRet', fr') := visit P segs iRet fr in
  Answer P 0 iRet' fr' /\ (forall P', P <= P' -> Segs P' h segs').
Proof.
  intros HP. induction segs as [|sg segs IH]; intros h iRet fr HS HA; cbn [visit].
  - cbn [Segs] in HS. subst h. split; [exact HA|]. intros P' _. reflexivity.
  - destruct HS as (Hh0 & HG & HS). pose proof (block_answer P h sg _ iRet fr Hh0 HG eq_refl HA) as Hq. fold (take sg (skip_seen (seg_pgno sg) P (rest sg)) iRet fr).
    destruct (take _ _ _ _) as [iRet1 fr1]. cbn [fst snd] in Hq. specialize (IH (h - 1) iRet1 fr1 HS). replace (h - 1 + 1) with h in IH by lia. specialize (IH Hq).
    destruct (visit P segs iRet1 fr1) as [[segs' iRet'] fr']. destruct IH as [IH1 IH2]. split; [exact IH1|]. intros P' HP'. cbn [Segs].
    split; [exact Hh0|]. split; [now apply seg_skip|now apply IH2].
Qed.

(** An entry of the iteration: a page and its newest frame. *)
Definition newest_entry (P : Z) (e : Z * Z) : Prop :=
  P < fst e < NO_PAGE /\ covered (snd e) /\ log (snd e) = fst e /\ forall g, snd e < g <= L -> log g <> fst e.

Lemma next_ok it : 0 <= iPrior it -> Segs (iPrior it) top (aSegment it) ->
  let (it', r) := walIteratorNext it in
  match r with
  | None => forall g, covered g -> log g <= iPrior it
  | Some e => newest_entry (iPrior it) e /\ (forall g, covered g -> iPrior it < log g -> fst e <= log g) /\
              iPrior it' = fst e /\ Segs (fst e) top (aSegment it')
  end.
Proof.
  intros HP HS. unfold walIteratorNext. pose proof (page_block L HL Hlast) as Hb. cbv zeta in Hb. fold top in Hb.
  assert (HA : Answer (iPrior it) (zero_of (top + 1)) NO_PAGE 0).
  { left. split; [reflexivity|]. unfold covered. intros g Hg Hlo. rewrite zero_of_next in Hlo by lia. lia. }
  pose proof (visit_ok (iPrior it) HP (aSegment it) top NO_PAGE 0 HS HA) as H. destruct (visit _ _ _ _) as [[segs iRet] fr]. destruct H as [H1 H2].
  pose proof (zero_of_nonneg first) as Hz.
  destruct H1 as [[-> H]|(H1 & H3 & H4 & H5 & H6 & H7)].
  - rewrite Z.eqb_refl. intros g Hg. apply H; [exact Hg|]. unfold covered in Hg. lia.
  - replace (iRet =? NO_PAGE) with false by (symmetry; apply Z.eqb_neq; lia). cbn [fst snd iPrior aSegment].
    split; [split; [exact H1|split; [exact H3|split; [exact H5|exact H6]]]|]. split; [|split; [reflexivity|apply H2; lia]].
    intros g Hg Hpg. apply H7; [exact Hg| |exact Hpg]. unfold covered in Hg. lia.
Qed.

Definition page_lt (a b : Z * Z) : Prop := fst a < fst b.

Lemma iterate_spec fuel : forall it, 0 <= iPrior it -> Segs (iPrior it) top (aSegment it) ->
  let (l, e) := iterate fuel it in
  StronglySorted page_lt l /\ (forall x, In x l -> newest_entry (iPrior it) x) /\
  (if e then forall g, covered g -> iPrior it < log g -> exists f, In (log g, f) l else length l = fuel).
Proof.
  induction fuel as [|fuel IH]; intros it HP HS; cbn [iterate].
  - split; [constructor|]. split; [intros x []|reflexivity].
  - pose proof (next_ok it HP HS) as Hn. destruct (walIteratorNext it) as [it' [x|]].
    + destruct Hn as (N1 & N2 & N3 & N4). pose proof N1 as ([N5 N6] & _). specialize (IH it'). rewrite N3 in IH. specialize (IH ltac:(lia) N4).
      destruct (iterate fuel it') as [l e]. destruct IH as (S1 & S2 & S3). split; [|split].
      * constructor; [exact S1|]. apply Forall_forall. intros y Hy. destruct (S2 y Hy) as [[H _] _]. exact H.
      * intros y [<-|Hy]; [exact N1|]. destruct (S2 y Hy) as ([H1 H2] & H3). split; [lia|exact H3].
      * destruct e; [|cbn [length]; now rewrite S3]. intros g Hg Hpg. specialize (N2 g Hg Hpg).
        destruct (Z.eq_dec (log g) (fst x)) as [E|E]; [exists (snd x); left; rewrite E; now destruct x|].
        destruct (S3 g Hg ltac:(lia)) as (f & Hf). exists f. now right.
    + split; [constructor|]. split; [intros x []|]. intros g Hg Hpg. specialize (Hn g Hg). lia.
Qed.

(** Enough calls reach the end. *)
Lemma iterate_ends it : 0 <= iPrior it -> Segs (iPrior it) top (aSegment it) -> snd (iterate (S (Z.to_nat L)) it) = true.
Proof.
  intros HP HS. pose proof (iterate_spec (S (Z.to_nat L)) it HP HS) as H. destruct (iterate _ it) as [l e]. destruct H as (S1 & S2 & S3).
  destruct e; [reflexivity|]. exfalso.
  assert (Hnd : NoDup (map fst l)).
  { clear S2 S3. induction S1 as [|x l S1 IH Hx]; cbn [map]; constructor; [|exact IH]. intros Hi. apply in_map_iff in Hi as (y & Ey & Hy).
    rewrite Forall_forall in Hx. specialize (Hx y Hy). unfold page_lt in Hx. lia. }
  assert (Hinc : incl (map fst l) (map log (map Z.of_nat (seq 1 (Z.to_nat L))))).
  { intros p Hp. apply in_map_iff in Hp as (x & <- & Hx). destruct (S2 x Hx) as (_ & Hc & El & _). rewrite <- El. apply in_map. unfold covered in Hc.
    pose proof (zero_of_nonneg first ltac:(lia)). apply in_map_iff. exists (Z.to_nat (snd x)). rewrite in_seq. lia. }
  apply (NoDup_incl_length Hnd) in Hinc. rewrite !length_map, length_seq in Hinc. lia.
Qed.

(** ** The segments at the start *)

Lemma segment_ok h : first <= h <= top ->
  Seg 0 h {| rest := walMergesort (aPgno (m h)) (iota (nEntry L (top + 1) h)); seg_pgno := aPgno (m h); seg_zero := iZero h + 1 |}.
Proof.
  intros Hh. pose proof (page_block L HL Hlast) as Hb. cbv zeta in Hb. fold top in Hb. pose proof (zero_of_next h ltac:(lia)) as Hz. pose proof (cap_bounds h) as Hc.
  set (n := nEntry L (top + 1) h).
  assert (Hn : n = Z.min L (zero_of (h + 1)) - zero_of h).
  { unfold n, nEntry. rewrite iZero_eq by lia. change HASHTABLE_NPAGE_ONE with 4062. change HASHTABLE_NPAGE with 4096.
    destruct (Z.eqb_spec (h + 1) (top + 1)) as [E|E]; [replace h with top in * by lia; lia|].
    pose proof (zero_of_mono (h + 1) top ltac:(lia)). replace (if h =? 0 then 4062 else 4096) with (cap h) by reflexivity. lia. }
  assert (H0 : zero_of h < L).
  { destruct (Z.eq_dec h top) as [->|]; [lia|]. pose proof (zero_of_mono (h + 1) top ltac:(lia)). lia. }
  pose proof (mergesort_best (aPgno (m h)) (iota n) (iota_sorted n) ltac:(rewrite iota_size; lia)) as HB.
  assert (Hkey : forall x, In x (iota n) -> aPgno (m h) x = log (zero_of h + 1 + x)) by (intros x Hx; apply iota_in in Hx; apply Hlog; lia).
  pose proof (best_ext _ _ _ _ Hkey HB) as [S1 S2].
  assert (Hw : forall x, In x (walMergesort (aPgno (m h)) (iota n)) <-> winner h x).
  { intros x. rewrite S2, iota_in. unfold winner, in_block. split.
    - intros [H1 H2]. split; [lia|]. split; [lia|]. intros g Hg Eg. specialize (H2 (g - zero_of h - 1)).
      rewrite iota_in in H2. replace (zero_of h + 1 + (g - zero_of h - 1)) with g in H2 by lia. specialize (H2 ltac:(lia) Eg). lia.
    - intros (_ & H1 & H2). split; [lia|]. intros y Hy Ey. apply iota_in in Hy. specialize (H2 (zero_of h + 1 + y) ltac:(lia) Ey). lia. }
  constructor; cbn [rest seg_pgno seg_zero].
  - exact S1.
  - intros _. now rewrite iZero_eq by lia.
  - intros x Hx. apply Hkey. now apply S2.
  - intros x Hx. now apply Hw.
  - intros x Hx _. now apply Hw.
Qed.

Lemma init_ok n : mapped w -> forall h acc, Z.of_nat n = top + 1 - h -> 0 <= h -> Segs 0 (h - 1) acc ->
  exists segs, init_segments n w m first (top + 1) h acc = (segs, SQLITE_OK) /\ Segs 0 top segs.
Proof.
  intros Hmap. induction n as [|n IH]; intros h acc Hn Hh HS; cbn [init_segments].
  - exists acc. split; [reflexivity|]. replace top with (h - 1) by lia. exact HS.
  - destruct (Z.ltb_spec h first) as [Hlt|Hge].
    + apply IH; [lia|lia|]. replace (h + 1 - 1) with h by lia. split; [exact Hh|]. split; [|exact HS].
      constructor; cbn [empty_segment rest]; [constructor|lia|intros x []|intros x []|]. intros x [Hx _]. lia.
    + rewrite Hmap. cbn [Z.eqb SQLITE_OK negb]. apply IH; [lia|lia|]. replace (h + 1 - 1) with h by lia. split; [exact Hh|]. split; [|exact HS].
      apply segment_ok. lia.
Qed.

End Iterator.

(** ** The checkpoint *)

Definition SQLITE_BUSY : Z := 5.
Definition WAL_NREADER : nat := 5.
Definition READMARK_NOT_USED : Z := 4294967295.
Definition SQLITE_CHECKPOINT_PASSIVE : Z := 0.
Definition SQLITE_CHECKPOINT_RESTART : Z := 2.
Definition SQLITE_CHECKPOINT_TRUNCATE : Z := 3.

Record WalCkptInfo := { nBackfill : Z; aReadMark : list Z; nBackfillAttempted : Z }.

(** The handle, the shared checkpoint data and the database file. *)
Record Store := { handle_of : Handle; info : WalCkptInfo; db : list Z }.

(** What the checkpoint meets: the result of the lock on each read mark, of the
    lock on all of them, of the check for interrupts before each page, and random
    bytes. *)
Record World := { read_lock : Z -> Z; all_locks : Z; interrupt : nat -> Z; salt1 : list Z }.

(** [walPagesize] *)
Definition walPagesize (h : WalHdr) : Z := Z.land (hdr_szPage h) 65024 + Z.shiftl (Z.land (hdr_szPage h) 1) 16.

(** The last frame that no reader stands in the way of: [n] marks from [i]. *)
Fixpoint safe_frames (n : nat) (i : Z) (e : World) (marks : list Z) (mxSafeFrame : Z) : Z * list Z * Z :=
  match n with
  | O => (mxSafeFrame, marks, SQLITE_OK)
  | S n =>
    let y := rd marks i in
    if y <? mxSafeFrame then
      let rc := read_lock e i in
      if rc =? SQLITE_OK then safe_frames n (i + 1) e (wr marks i (if i =? 1 then mxSafeFrame else READMARK_NOT_USED)) mxSafeFrame
      else if rc =? SQLITE_BUSY then safe_frames n (i + 1) e marks y
      else (mxSafeFrame, marks, rc)
    else safe_frames n (i + 1) e marks mxSafeFrame
  end.

(** The loop over the pages; [k] counts them. *)
Fixpoint copy_loop (fuel : nat) (it : WalIterator) (e : World) (nBackfill mxSafeFrame mxPage sz : Z) (log : list Z) (k : nat) (d : list Z) : list Z * Z :=
  match fuel with
  | O => (d, SQLITE_OK)
  | S fuel =>
    match walIteratorNext it with
    | (_, None) => (d, SQLITE_OK)
    | (it, Some (iDbpage, iFrame)) =>
      let rc := interrupt e k in
      if negb (rc =? SQLITE_OK) then (d, rc)
      else if (iFrame <=? nBackfill) || (mxSafeFrame <? iFrame) || (mxPage <? iDbpage)
      then copy_loop fuel it e nBackfill mxSafeFrame mxPage sz log (S k) d
      else
        let zBuf := slice (walFrameOffset iFrame sz + WAL_FRAME_HDRSIZE) sz log in
        copy_loop fuel it e nBackfill mxSafeFrame mxPage sz log (S k) (os_write zBuf ((iDbpage - 1) * sz) d)
    end
  end.

(** [sqlite3OsTruncate] may also extend the file. *)
Definition db_truncate (n : Z) (d : list Z) : list Z := firstn (Z.to_nat n) (d ++ repeat 0 (Z.to_nat n - length d)).

Definition set_info (b : Z) (marks : list Z) (att : Z) : WalCkptInfo := {| nBackfill := b; aReadMark := marks; nBackfillAttempted := att |}.

(** Copying the frames, under the lock on mark 0. *)
Definition backfill (e : World) (it : WalIterator) (mxSafeFrame : Z) (marks : list Z) (s : Store) : Store * Z :=
  let w := handle_of s in
  let sz := walPagesize (hdr w) in
  let b := nBackfill (info s) in
  let mxPage := nPage (hdr w) in
  let s := {| handle_of := w; info := set_info b marks mxSafeFrame; db := db s |} in
  if (size (db s) <? mxPage * sz) && (size (db s) + 65536 + mxFrame (wal (ix w)) * sz <? mxPage * sz) then (s, SQLITE_CORRUPT)
  else
    let (d, rc) := copy_loop (S (Z.to_nat (mxFrame (wal (ix w))))) it e b mxSafeFrame mxPage sz (file w) 0 (db s) in
    if rc =? SQLITE_OK then
      let d := if mxSafeFrame =? live (ix w) then db_truncate (nPage (hdr w) * sz) d else d in
      ({| handle_of := w; info := set_info mxSafeFrame marks mxSafeFrame; db := d |}, SQLITE_OK)
    else ({| handle_of := w; info := set_info b marks mxSafeFrame; db := d |}, rc).

(** The first half of [walCheckpoint]. *)
Definition copy_back (e : World) (s : Store) : Store * Z :=
  let w := handle_of s in
  if nBackfill (info s) <? mxFrame (wal (ix w)) then
    let '(mxSafeFrame, marks, rc) := safe_frames (WAL_NREADER - 1) 1 e (aReadMark (info s)) (mxFrame (wal (ix w))) in
    let s := {| handle_of := w; info := set_info (nBackfill (info s)) marks (nBackfillAttempted (info s)); db := db s |} in
    if negb (rc =? SQLITE_OK) then (s, rc)
    else if nBackfill (info s) <? mxSafeFrame then
      let (it, rc) := walIteratorInit (wal (ix w)) (shm (ix w)) (nBackfill (info s)) in
      if negb (rc =? SQLITE_OK) then (s, rc)
      else
        let rc := read_lock e 0 in
        let (s, rc) := if rc =? SQLITE_OK then backfill e it mxSafeFrame marks s else (s, rc) in
        (s, if rc =? SQLITE_BUSY then SQLITE_OK else rc)
    else (s, SQLITE_OK)
  else (s, SQLITE_OK).

(** [walRestartHdr] *)
Definition walRestartHdr (salt1 : list Z) (s : Store) : Store :=
  let w := handle_of s in
  let x := ix w in
  let h := {| nPage := nPage (hdr w); hdr_szPage := hdr_szPage (hdr w); aFrameCksum := aFrameCksum (hdr w);
              aSalt := be4 (u32 (1 + get4 0 (aSalt (hdr w)))) ++ salt1; bigEndCksum := bigEndCksum (hdr w) |} in
  {| handle_of := {| ix := {| wal := set_mxFrame 0 (wal x); appended := 0; live := 0; shm := shm x |}; hdr := h; shared_hdr := h; szPage := szPage w;
       iReCksum := iReCksum w; nCkpt := u32 (nCkpt w + 1); truncateOnCommit := truncateOnCommit w; mxWalSize := mxWalSize w; file := file w |};
     info := set_info 0 (rd (aReadMark (info s)) 0 :: 0 :: repeat READMARK_NOT_USED (WAL_NREADER - 2)) 0;
     db := db s |}.

Definition walCheckpoint (e : World) (eMode : Z) (s : Store) : Store * Z :=
  let (s, rc) := copy_back e s in
  if (rc =? SQLITE_OK) && negb (eMode =? SQLITE_CHECKPOINT_PASSIVE) then
    if nBackfill (info s) <? mxFrame (wal (ix (handle_of s))) then (s, SQLITE_BUSY)
    else if SQLITE_CHECKPOINT_RESTART <=? eMode then
      let rc := all_locks e in
      if rc =? SQLITE_OK then
        if eMode =? SQLITE_CHECKPOINT_TRUNCATE then
          let s := walRestartHdr (salt1 e) s in
          ({| handle_of := set_file [] (handle_of s); info := info s; db := db s |}, SQLITE_OK)
        else (s, SQLITE_OK)
      else (s, rc)
    else (s, SQLITE_OK)
  else (s, rc).

(** ** What readers see *)

(** A page of the database file; what is after the end reads as zeros. *)
Definition db_page (sz p : Z) (d : list Z) : list Z := map (fun k => rd d ((p - 1) * sz + k)) (iota sz).

(** A page for a reader of frames [mn .. mx] of the log. *)
Definition view (sz mn mx : Z) (w : Handle) (d : list Z) (p : Z) : list Z :=
  let x := {| mxFrame := mx; minFrame := mn; readLock := 1; bShmUnreliable := 0; map_rc := map_rc (wal (ix w)) |} in
  let (iRead, _) := walFindFrame (still (shm (ix w))) x p in
  if iRead =? 0 then db_page sz p d else slice (walFrameOffset iRead sz + WAL_FRAME_HDRSIZE) sz (file w).

(** A page for a new reader with the header of the handle. *)
Definition current (sz : Z) (s : Store) (p : Z) : list Z :=
  view sz (nBackfill (info s) + 1) (mxFrame (wal (ix (handle_of s)))) (handle_of s) (db s) p.

(** ** Pages of the database file *)

Lemma rd_write c off f i : 0 <= off -> 0 <= i ->
  rd (os_write c off f) i = if (off <=? i) && (i <? off + size c) then rd c (i - off) else rd f i.
Proof.
  intros Ho Hi. unfold os_write. pose proof (prefix_size f off Ho) as Hp. set (A := firstn (Z.to_nat off) _) in *. unfold rd, size in *.
  destruct (Z.leb_spec off i) as [Hge|Hlt]; cbn [andb].
  - rewrite app_nth2 by lia. destruct (Z.ltb_spec i (off + Z.of_nat (length c))) as [Hlt|Hge'].
    + rewrite app_nth1 by lia. f_equal. lia.
    + rewrite app_nth2 by lia. rewrite nth_skipn. f_equal. lia.
  - rewrite app_nth1 by lia. unfold A. rewrite nth_firstn. replace (Z.to_nat i <? Z.to_nat off)%nat with true by (symmetry; apply Nat.ltb_lt; lia).
    destruct (Nat.ltb_spec (Z.to_nat i) (length f)) as [Hf|Hf]; [now rewrite app_nth1 by lia|].
    rewrite app_nth2, nth_repeat, nth_overflow by lia. reflexivity.
Qed.

Lemma rd_db_truncate n d i : 0 <= i < n -> rd (db_truncate n d) i = rd d i.
Proof.
  intros H. unfold rd, db_truncate. rewrite nth_firstn. replace (Z.to_nat i <? Z.to_nat n)%nat with true by (symmetry; apply Nat.ltb_lt; lia).
  destruct (Nat.ltb_spec (Z.to_nat i) (length d)) as [Hf|Hf]; [now rewrite app_nth1 by lia|].
  rewrite app_nth2, nth_repeat, nth_overflow by lia. reflexivity.
Qed.

Lemma map_rd_iota c n : size c = n -> map (rd c) (iota n) = c.
Proof.
  intros <-. unfold iota, size, rd. rewrite Nat2Z.id, map_map. rewrite (map_ext _ (fun k => nth k c 0)) by (intros k; now rewrite Nat2Z.id).
  induction c as [|x c IH]; [reflexivity|]. cbn [length seq map nth]. f_equal. rewrite <- seq_shift, map_map. exact IH.
Qed.

Lemma db_page_write sz c p q d : 0 < sz -> 1 <= p -> 1 <= q -> size c = sz ->
  db_page sz q (os_write c ((p - 1) * sz) d) = if q =? p then c else db_page sz q d.
Proof.
  intros Hsz Hp Hq Hc. unfold db_page. destruct (Z.eqb_spec q p) as [->|Hne].
  - transitivity (map (rd c) (iota sz)); [|now apply map_rd_iota]. apply map_ext_in. intros k Hk. apply iota_in in Hk. rewrite rd_write, Hc by nia.
    replace ((p - 1) * sz <=? (p - 1) * sz + k) with true by (symmetry; apply Z.leb_le; lia).
    replace ((p - 1) * sz + k <? (p - 1) * sz + sz) with true by (symmetry; apply Z.ltb_lt; lia). cbn [andb]. f_equal. lia.
  - apply map_ext_in. intros k Hk. apply iota_in in Hk. rewrite rd_write, Hc by nia.
    destruct (Z.leb_spec ((p - 1) * sz) ((q - 1) * sz + k)) as [H1|H1]; cbn [andb]; [|reflexivity].
    destruct (Z.ltb_spec ((q - 1) * sz + k) ((p - 1) * sz + sz)) as [H2|H2]; [|reflexivity]. exfalso. assert (q < p \/ p < q) as [H|H] by lia; nia.
Qed.

Lemma db_page_truncate sz n q d : 0 < sz -> 1 <= q <= n -> db_page sz q (db_truncate (n * sz) d) = db_page sz q d.
Proof. intros Hsz Hq. apply map_ext_in. intros k Hk. apply iota_in in Hk. apply rd_db_truncate. nia. Qed.

(** ** The copied pages *)

Section Copy.
Variables (e : World) (b top_safe mxPage sz : Z) (log : list Z).
Hypothesis Hsz : 0 < sz.

Definition frame_data_at (f : Z) : list Z := slice (walFrameOffset f sz + WAL_FRAME_HDRSIZE) sz log.
Definition copied (x : Z * Z) : Prop := b < snd x <= top_safe /\ fst x <= mxPage.

(** Each page is as before or has the content of its frame; when the loop ends
    well, all pages in question were copied. *)
Lemma page_copy_spec fuel : forall it k d, let l := fst (iterate fuel it) in
  StronglySorted page_lt l -> (forall x, In x l -> 1 <= fst x /\ size (frame_data_at (snd x)) = sz) ->
  let (d', rc) := copy_loop fuel it e b top_safe mxPage sz log k d in
  (forall q, 1 <= q -> db_page sz q d' = db_page sz q d \/ exists f, In (q, f) l /\ copied (q, f) /\ db_page sz q d' = frame_data_at f) /\
  (rc = SQLITE_OK -> forall q f, In (q, f) l -> copied (q, f) -> db_page sz q d' = frame_data_at f).
Proof.
  induction fuel as [|fuel IH]; intros it k d; cbn [iterate copy_loop fst].
  - intros _ _. split; [auto|intros _ q f []].
  - destruct (walIteratorNext it) as [it' [[p f]|]]; [|intros _ _; split; [auto|intros _ q f []]].
    specialize (IH it' (S k)). destruct (iterate fuel it') as [l en]. cbn [fst] in *. intros Hs Hok.
    apply StronglySorted_inv in Hs as [Hs Hlt]. rewrite Forall_forall in Hlt.
    destruct (Hok (p, f) (or_introl eq_refl)) as [Hp Hd]. cbn [fst snd] in Hp, Hd.
    destruct (Z.eqb_spec (interrupt e k) SQLITE_OK) as [Hi|Hi]; cbn [negb]; [|split; [auto|congruence]].
    assert (Hcp : copied (p, f) <-> (f <=? b) || (top_safe <? f) || (mxPage <? p) = false).
    { rewrite !orb_false_iff, Z.leb_gt, !Z.ltb_ge. unfold copied. cbn [fst snd]. lia. }
    assert (Hno : forall g, ~ In (p, g) l) by (intros g Hg; specialize (Hlt (p, g) Hg); unfold page_lt in Hlt; cbn in Hlt; lia).
    destruct ((f <=? b) || (top_safe <? f) || (mxPage <? p)) eqn:Ec.
    + specialize (IH d Hs (fun x Hx => Hok x (or_intror Hx))). destruct (copy_loop _ _ _ _ _ _ _ _ _ _) as [d' rc]. destruct IH as [IH1 IH2]. split.
      * intros q Hq. destruct (IH1 q Hq) as [H|(g & H1 & H2)]; [now left|right]. exists g. split; [now right|exact H2].
      * intros Hrc q g [[= <- <-]|Hg] Hcg; [apply Hcp in Hcg; congruence|now apply IH2].
    + specialize (IH (os_write (frame_data_at f) ((p - 1) * sz) d) Hs (fun x Hx => Hok x (or_intror Hx))). unfold frame_data_at at 1 in IH.
      destruct (copy_loop _ _ _ _ _ _ _ _ _ _) as [d' rc]. destruct IH as [IH1 IH2].
      assert (Hpage : db_page sz p d' = frame_data_at f).
      { destruct (IH1 p Hp) as [H|(g & H1 & _)]; [|now destruct (Hno g)]. rewrite H, db_page_write by assumption. now rewrite Z.eqb_refl. }
      split.
      * intros q Hq. destruct (Z.eq_dec q p) as [->|Hne]; [right; exists f; split; [now left|split; [now apply Hcp|exact Hpage]]|].
        destruct (IH1 q Hq) as [H|(g & H1 & H2)]; [left|right; exists g; split; [now right|exact H2]].
        rewrite H, db_page_write by assumption. apply Z.eqb_neq in Hne. now rewrite Hne.
      * intros Hrc q g [[= <- <-]|Hg] Hcg; [exact Hpage|now apply IH2].
Qed.
End Copy.

(** ** Views of a log that is committed *)

(** The frames [l] are committed and indexed; the handle knows some of them. *)
Record Logs (sz : Z) (l : list Frame) (w : Handle) : Prop := {
  lo_index : exists log dist s, IndexOk log dist s (shm (ix w)) /\ (forall g, 1 <= g <= count l -> log g = page_at l g) /\ count l <= s;
  lo_map : mapped (wal (ix w));
  lo_mx : 0 <= mxFrame (wal (ix w)) <= count l;
  lo_live : live (ix w) = count l;
  lo_ok : frame_ok (count l + 1);
  lo_wf : Forall (frame_wf sz) l;
  lo_pages : forall g, 1 <= g <= count l -> page_at l g < NO_PAGE;
  lo_data : forall g, 1 <= g <= count l -> slice (walFrameOffset g sz + WAL_FRAME_HDRSIZE) sz (file w) = f_data (nth (Z.to_nat (g - 1)) l frame0);
  lo_size : walPagesize (hdr w) = sz;
  lo_pos : 0 < sz }.

Section Views.
Variables (sz : Z) (l : list Frame) (w : Handle).
Hypothesis HL : Logs sz l w.
Let new p lo hi := newest (page_at l) p lo hi.

Lemma view_eq mn mx d p : 0 <= mx <= count l -> frame_ok mn ->
  view sz mn mx w d p = if new p mn mx =? 0 then db_page sz p d else slice (walFrameOffset (new p mn mx) sz + WAL_FRAME_HDRSIZE) sz (file w).
Proof.
  intros Hmx Hmn. destruct (lo_index _ _ _ HL) as (log & dist & s & HI & Hlog & Hs). pose proof (lo_ok _ _ _ HL) as Hok. unfold view.
  set (x := {| mxFrame := mx; minFrame := mn; readLock := 1; bShmUnreliable := 0; map_rc := map_rc (wal (ix w)) |}).
  assert (Hmap : mapped x) by exact (lo_map _ _ _ HL). assert (Hmxo : frame_ok (mxFrame x)) by (unfold frame_ok in *; cbn; lia).
  pose proof (find_total log dist s x _ p Hmap HI Hmxo ltac:(cbn; lia) Hmn) as Hrc.
  destruct (walFindFrame _ _ _) as [r rc] eqn:E. cbn [snd] in Hrc. subst rc.
  assert (HRd : Reads log dist x (still (shm (ix w)))).
  { intros t h Hh Hz. cbn [mxFrame x] in *. destruct (HI h Hh ltac:(lia)) as [HE Hrg _]. split.
    - apply (entries_less _ _ _ (Z.min (cap h) (s - zero_of h))); [lia|exact HE].
    - intros k Hk. specialize (Hrg k Hk). unfold still. lia. }
  assert (Er : r = new p mn mx).
  { rewrite (find_sound log dist x _ p HRd Hmxo r Hmap Hmn ltac:(left; discriminate) E). unfold new. cbn [mxFrame minFrame x]. apply newest_ext.
    intros g Hg. apply Hlog. unfold count in *. lia. }
  now rewrite Er.
Qed.

Lemma frame_size g : 1 <= g <= count l -> size (slice (walFrameOffset g sz + WAL_FRAME_HDRSIZE) sz (file w)) = sz.
Proof.
  intros Hg. rewrite (lo_data _ _ _ HL g Hg). pose proof (lo_wf _ _ _ HL) as Hwf. rewrite Forall_forall in Hwf. apply (Hwf (nth _ l frame0)), nth_In.
  unfold count in Hg. lia.
Qed.

(** The iterator of the handle. *)
Lemma iterator_ok b : 0 <= b < mxFrame (wal (ix w)) ->
  exists it, walIteratorInit (wal (ix w)) (shm (ix w)) b = (it, SQLITE_OK) /\
  let mx := mxFrame (wal (ix w)) in let (es, done) := iterate (S (Z.to_nat mx)) it in
  done = true /\ StronglySorted page_lt es /\ (forall x, In x es -> 1 <= fst x /\ 1 <= snd x <= mx) /\
  forall p f, b < f -> (In (p, f) es <-> f = new p 1 mx).
Proof.
  intros Hb. destruct (lo_index _ _ _ HL) as (log & dist & s & HI & Hlog & Hs). pose proof (lo_ok _ _ _ HL) as Hok. pose proof (lo_mx _ _ _ HL) as Hmx.
  set (mx := mxFrame (wal (ix w))) in *. set (first := walFramePage (b + 1)).
  assert (Hmo : frame_ok mx) by (unfold frame_ok in *; lia).
  pose proof (page_block (b + 1) ltac:(lia) ltac:(unfold frame_ok in *; lia)) as Hb1. cbv zeta in Hb1. fold first in Hb1.
  pose proof (page_block mx ltac:(lia) Hmo) as Hb2. cbv zeta in Hb2.
  assert (Hf : 0 <= first <= walFramePage mx).
  { split; [lia|]. destruct (Z.leb_spec first (walFramePage mx)); [assumption|]. pose proof (zero_of_mono (walFramePage mx + 1) first ltac:(lia)) as Hm.
    rewrite zero_of_next in Hm by lia. lia. }
  assert (Hkey : forall h j, 0 <= h <= walFramePage mx -> 0 <= j -> zero_of h + 1 + j <= Z.min mx (zero_of (h + 1)) -> aPgno (shm (ix w) h) j = page_at l (zero_of h + 1 + j)).
  { intros h j Hh Hj Hle. rewrite zero_of_next in Hle by lia. pose proof (zero_of_nonneg h ltac:(lia)). rewrite <- Hlog by lia.
    destruct (HI h ltac:(lia) ltac:(lia)) as [HE _ _]. replace j with (j + 1 - 1) at 1 by lia. rewrite (en_pgno _ _ _ _ _ HE (j + 1)) by lia. f_equal. lia. }
  assert (Hpg : forall g, 1 <= g <= mx -> 0 < page_at l g < NO_PAGE).
  { intros g Hg. split; [apply (page_at_pos sz); [apply (lo_wf _ _ _ HL)|lia]|apply (lo_pages _ _ _ HL); lia]. }
  unfold walIteratorInit. fold mx. fold first.
  destruct (init_ok (page_at l) (wal (ix w)) (shm (ix w)) first Hmo Hf Hkey ltac:(fold mx; lia) (Z.to_nat (walFramePage mx + 1)) (lo_map _ _ _ HL) 0 []) as
    (segs & Ei & HS); [fold mx; lia|lia|reflexivity|]. fold mx in Ei, HS. rewrite Ei.
  exists {| iPrior := 0; aSegment := segs |}. split; [reflexivity|]. cbv zeta.
  pose proof (iterate_ends (page_at l) (wal (ix w)) first Hmo Hf Hpg ltac:(fold mx; lia) {| iPrior := 0; aSegment := segs |} ltac:(cbn; lia) HS) as Hend.
  pose proof (iterate_spec (page_at l) (wal (ix w)) first Hmo Hf Hpg ltac:(fold mx; lia) (S (Z.to_nat mx)) {| iPrior := 0; aSegment := segs |} ltac:(cbn; lia) HS) as Hit.
  fold mx in Hend. destruct (iterate _ _) as [es done]. cbn [snd iPrior] in *. subst done. destruct Hit as (S1 & S2 & S3).
  split; [reflexivity|]. split; [exact S1|].
  pose proof (zero_of_nonneg first ltac:(lia)) as Hz0. unfold newest_entry, covered in S2, S3. fold mx in S2, S3.
  split; [intros x Hx; destruct (S2 x Hx) as (H1 & H2 & _); lia|]. intros p f Hbf. split.
  - intros Hi. destruct (S2 _ Hi) as (H1 & H2 & H3 & H4). cbn [fst snd] in *. symmetry. apply newest_char; [lia|]. right.
    split; [lia|]. split; [lia|]. split; [exact H3|exact H4].
  - intros Ef. destruct (newest_is (page_at l) p 1 mx ltac:(lia)) as [[E _]|(H1 & H2 & H3 & H4)]; [unfold new in Ef; lia|]. unfold new in Ef. rewrite <- Ef in *.
    destruct (S3 f ltac:(lia) ltac:(rewrite H3; apply Hpg in H1; lia)) as (g & Hg). rewrite H3 in Hg.
    destruct (S2 _ Hg) as (K1 & K2 & K3 & K4). cbn [fst snd] in *. replace f with g; [exact Hg|].
    destruct (Z.lt_trichotomy f g) as [Hlt|[Heq|Hgt]]; [|congruence|]; [exfalso; now apply (H4 g)|exfalso; apply (K4 f); [lia|exact H3]].
Qed.

Lemma backfill_ok e it S marks st : handle_of st = w -> 0 <= nBackfill (info st) < S -> S <= mxFrame (wal (ix w)) ->
  walIteratorInit (wal (ix w)) (shm (ix w)) (nBackfill (info st)) = (it, SQLITE_OK) ->
  let b := nBackfill (info st) in let mx := mxFrame (wal (ix w)) in
  let data f := slice (walFrameOffset f sz + WAL_FRAME_HDRSIZE) sz (file w) in
  let (st', rc) := backfill e it S marks st in
  handle_of st' = w /\ nBackfill (info st') = (if rc =? SQLITE_OK then S else b) /\
  (forall q, 1 <= q -> q <= nPage (hdr w) \/ S <> live (ix w) -> db_page sz q (db st') = db_page sz q (db st) \/
     exists f, f = new q 1 mx /\ b < f <= S /\ db_page sz q (db st') = data f) /\
  (rc = SQLITE_OK -> forall q, 1 <= q <= nPage (hdr w) -> b < new q 1 mx <= S -> db_page sz q (db st') = data (new q 1 mx)).
Proof.
  intros Hw Hb HS Hi b mx data. unfold backfill. rewrite Hw, (lo_size _ _ _ HL). fold b mx. cbn [db info set_info nBackfill].
  destruct (iterator_ok b ltac:(fold mx; lia)) as (it' & Hi' & Hit). fold b in Hi. rewrite Hi in Hi'. injection Hi' as <-. cbv zeta in Hit. fold mx in Hit.
  destruct ((size (db st) <? _) && _).
  { split; [reflexivity|]. split; [reflexivity|]. split; [now left|discriminate]. }
  pose proof (page_copy_spec e b S (nPage (hdr w)) sz (file w) (lo_pos _ _ _ HL) (Datatypes.S (Z.to_nat mx)) it 0 (db st)) as Hc.
  destruct (iterate _ it) as [es done]. cbn [fst] in Hc. destruct Hit as (_ & Hs & Hin & Hnew). pose proof (lo_mx _ _ _ HL) as Hmx. fold mx in Hmx.
  specialize (Hc Hs). destruct (copy_loop _ _ _ _ _ _ _ _ _ _) as [d rc]. destruct Hc as [C1 C2].
  { intros x Hx. destruct (Hin x Hx) as [H1 H2]. split; [exact H1|]. apply frame_size. lia. }
  assert (C1' : forall q, 1 <= q -> db_page sz q d = db_page sz q (db st) \/ exists f, f = new q 1 mx /\ b < f <= S /\ db_page sz q d = data f).
  { intros q Hq. destruct (C1 q Hq) as [H|(f & H1 & [H2 _] & H3)]; [now left|right]. cbn [fst snd] in H2. exists f. split; [apply Hnew; [lia|exact H1]|]. auto. }
  destruct (Z.eqb_spec rc SQLITE_OK) as [Hrc|Hrc]; cbn [handle_of info set_info nBackfill db]; (split; [reflexivity|]).
  - split; [reflexivity|].
    assert (Ht : forall q, 1 <= q -> q <= nPage (hdr w) \/ S <> live (ix w) ->
      db_page sz q (if S =? live (ix w) then db_truncate (nPage (hdr w) * sz) d else d) = db_page sz q d).
    { intros q Hq Hor. destruct (Z.eqb_spec S (live (ix w))) as [E|E]; [|reflexivity]. apply db_page_truncate; [apply (lo_pos _ _ _ HL)|lia]. }
    split.
    + intros q Hq Hor. rewrite Ht by assumption. now apply C1'.
    + intros _ q Hq Hf. rewrite Ht by (auto; lia). apply (C2 Hrc); [apply Hnew; [lia|reflexivity]|]. split; cbn [fst snd]; lia.
  - apply Z.eqb_neq in Hrc as Hrc'. rewrite Hrc'. split; [reflexivity|]. split; [intros q Hq _; now apply C1'|congruence].
Qed.

(** Copying frames of pages whose newest frame is copied changes no view. *)
Lemma view_keep b S d d' mn mx0 p : let mx := mxFrame (wal (ix w)) in
  db_page sz p d' = db_page sz p d \/ (exists f, f = new p 1 mx /\ b < f <= S /\ db_page sz p d' = slice (walFrameOffset f sz + WAL_FRAME_HDRSIZE) sz (file w)) ->
  0 <= b <= count l -> 1 <= mn <= b + 1 -> 0 <= mx0 <= count l -> S <= mx0 -> S <= mx -> view sz mn mx0 w d' p = view sz mn mx0 w d p.
Proof.
  intros mx Hd Hb Hmn Hmx0 HS0 HS. pose proof (lo_ok _ _ _ HL) as Hok. pose proof (lo_mx _ _ _ HL) as Hmx. fold mx in Hmx.
  destruct Hd as [Hd|(f & Ef & Hf & _)].
  - rewrite !view_eq by (unfold frame_ok in *; lia). now rewrite Hd.
  - rewrite !view_eq by (unfold frame_ok in *; lia).
    destruct (newest_is (page_at l) p mn mx0 ltac:(lia)) as [[E H]|(H1 & _)]; fold (new p mn mx0) in *.
    + exfalso. destruct (newest_is (page_at l) p 1 mx ltac:(lia)) as [[E' _]|(K1 & _ & K3 & _)]; fold (new p 1 mx) in *; [lia|].
      rewrite <- Ef in *. apply (H f); [lia|lia|exact K3].
    + replace (new p mn mx0 =? 0) with false by (symmetry; apply Z.eqb_neq; lia). reflexivity.
Qed.

(** A new reader skips the frames that were copied. *)
Lemma view_next b S d d' p : let mx := mxFrame (wal (ix w)) in
  db_page sz p d' = db_page sz p d \/ (exists f, f = new p 1 mx /\ b < f <= S /\ db_page sz p d' = slice (walFrameOffset f sz + WAL_FRAME_HDRSIZE) sz (file w)) ->
  (b < new p 1 mx <= S -> db_page sz p d' = slice (walFrameOffset (new p 1 mx) sz + WAL_FRAME_HDRSIZE) sz (file w)) ->
  0 <= b <= S -> S <= mx -> view sz (S + 1) mx w d' p = view sz (b + 1) mx w d p.
Proof.
  intros mx Hd Hc Hb HS. pose proof (lo_ok _ _ _ HL) as Hok. pose proof (lo_mx _ _ _ HL) as Hmx. fold mx in Hmx. rewrite !view_eq by (unfold frame_ok in *; lia).
  destruct (newest_is (page_at l) p 1 mx ltac:(lia)) as [[E H]|(H1 & _ & H3 & H4)]; fold (new p 1 mx) in *.
  - assert (Hz : forall lo, 1 <= lo -> new p lo mx = 0) by (intros lo Hlo; apply newest_char; [lia|]; left; split; [reflexivity|]; intros f Hf _; apply H; lia).
    rewrite !Hz by lia. cbn [Z.eqb]. destruct Hd as [Hd|(f & Ef & Hf & _)]; [exact Hd|lia].
  - set (f := new p 1 mx) in *.
    assert (Hhi : forall lo, lo <= f -> new p lo mx = f).
    { intros lo Hlo. apply newest_char; [lia|]. right. split; [lia|]. split; [exact Hlo|]. split; [exact H3|exact H4]. }
    assert (Hlo : forall lo, f < lo -> new p lo mx = 0).
    { intros lo Hlo. apply newest_char; [lia|]. left. split; [reflexivity|]. intros g Hg Hgl. apply H4. lia. }
    destruct (Z.ltb_spec S f) as [HSf|HSf].
    + rewrite !Hhi by lia. replace (f =? 0) with false by (symmetry; apply Z.eqb_neq; lia). reflexivity.
    + rewrite (Hlo (S + 1)) by lia. cbn [Z.eqb]. destruct (Z.ltb_spec b f) as [Hbf|Hbf].
      * rewrite Hhi by lia. replace (f =? 0) with false by (symmetry; apply Z.eqb_neq; lia). apply Hc. lia.
      * rewrite Hlo by lia. cbn [Z.eqb]. destruct Hd as [Hd|(g & Eg & Hg & _)]; [exact Hd|lia].
Qed.
End Views.

(** ** The readers in the way *)

Lemma safe_frames_ok e n : forall i marks S, 0 <= i -> Z.of_nat n + i <= Z.of_nat (length marks) ->
  let '(S', marks', rc) := safe_frames n i e marks S in
  S' <= S /\ (rc = SQLITE_OK -> forall j, i <= j < i + Z.of_nat n -> read_lock e j = SQLITE_BUSY -> S' <= rd marks j) /\
  ((forall j, i <= j < i + Z.of_nat n -> read_lock e j = SQLITE_OK) -> S' = S /\ rc = SQLITE_OK).
Proof.
  induction n as [|n IH]; intros i marks S Hi Hl; cbn [safe_frames].
  - split; [lia|]. split; [intros _ j Hj; lia|auto].
  - destruct (Z.ltb_spec (rd marks i) S) as [Hlt|Hge].
    + destruct (Z.eqb_spec (read_lock e i) SQLITE_OK) as [E|E]; [|destruct (Z.eqb_spec (read_lock e i) SQLITE_BUSY) as [E'|E']].
      * specialize (IH (i + 1) (wr marks i (if i =? 1 then S else READMARK_NOT_USED)) S ltac:(lia) ltac:(rewrite length_wr; lia)).
        destruct (safe_frames _ _ _ _ _) as [[S' marks'] rc]. destruct IH as (H1 & H2 & H3). split; [exact H1|]. split.
        -- intros Hrc j Hj Hb. destruct (Z.eq_dec j i) as [->|Hne]; [rewrite E in Hb; discriminate|]. specialize (H2 Hrc j ltac:(lia) Hb).
           rewrite rd_wr in H2 by lia. apply Z.eqb_neq in Hne. now rewrite Hne in H2.
        -- intros Hall. apply H3. intros j Hj. apply Hall. lia.
      * specialize (IH (i + 1) marks (rd marks i) ltac:(lia) ltac:(lia)). destruct (safe_frames _ _ _ _ _) as [[S' marks'] rc]. destruct IH as (H1 & H2 & H3).
        split; [lia|]. split; [|intros Hall; specialize (Hall i ltac:(lia)); congruence].
        intros Hrc j Hj Hb. destruct (Z.eq_dec j i) as [->|Hne]; [exact H1|]. apply H2; [exact Hrc|lia|exact Hb].
      * split; [lia|]. split; [congruence|]. intros Hall. specialize (Hall i ltac:(lia)). congruence.
    + specialize (IH (i + 1) marks S ltac:(lia) ltac:(lia)). destruct (safe_frames _ _ _ _ _) as [[S' marks'] rc]. destruct IH as (H1 & H2 & H3).
      split; [exact H1|]. split; [|intros Hall; apply H3; intros j Hj; apply Hall; lia].
      intros Hrc j Hj Hb. destruct (Z.eq_dec j i) as [->|Hne]; [lia|]. apply H2; [exact Hrc|lia|exact Hb].
Qed.

(** A reader that holds the lock of mark [i], and reads frames [mn .. mx]. *)
Record Reader (e : World) (l : list Frame) (s : Store) (i mn mx : Z) : Prop := {
  rr_lock : 1 <= i < Z.of_nat WAL_NREADER /\ read_lock e i = SQLITE_BUSY;
  rr_mark : rd (aReadMark (info s)) i <= mx;
  rr_frames : 0 <= mx <= count l;
  rr_min : 1 <= mn <= nBackfill (info s) + 1 }.

(** What a checkpoint keeps: the page of every reader, and of a new one. *)
Record Preserved (sz : Z) (l : list Frame) (e : World) (s s' : Store) : Prop := {
  pv_handle : handle_of s' = handle_of s;
  pv_backfill : nBackfill (info s) <= nBackfill (info s') <= Z.max (nBackfill (info s)) (mxFrame (wal (ix (handle_of s))));
  pv_current : forall p, 1 <= p <= nPage (hdr (handle_of s)) -> current sz s' p = current sz s p;
  pv_readers : forall i mn mx p, Reader e l s i mn mx -> 1 <= p -> p <= nPage (hdr (handle_of s)) \/ mx < live (ix (handle_of s)) ->
    nBackfill (info s) <= count l -> view sz mn mx (handle_of s') (db s') p = view sz mn mx (handle_of s) (db s) p }.

Lemma preserved_same sz l e s s' : handle_of s' = handle_of s -> nBackfill (info s') = nBackfill (info s) -> db s' = db s -> Preserved sz l e s s'.
Proof. intros E1 E2 E3. constructor; rewrite ?E1, ?E2, ?E3; try reflexivity; [lia|]. intros p _. unfold current. now rewrite E1, E2, E3. Qed.

Lemma copy_back_ok sz l e s : Logs sz l (handle_of s) -> 0 <= nBackfill (info s) -> length (aReadMark (info s)) = WAL_NREADER ->
  Preserved sz l e s (fst (copy_back e s)).
Proof.
  intros HL Hb Hlen. unfold copy_back. set (w := handle_of s) in *. set (b := nBackfill (info s)) in *. set (mx := mxFrame (wal (ix w))).
  destruct (Z.ltb_spec b mx) as [Hbm|Hbm]; [|now apply preserved_same].
  pose proof (safe_frames_ok e (WAL_NREADER - 1) 1 (aReadMark (info s)) mx ltac:(lia) ltac:(rewrite Hlen; cbn; lia)) as Hsafe.
  destruct (safe_frames _ _ _ _ _) as [[S marks] rc]. destruct Hsafe as (HS & Hread & _).
  destruct (Z.eqb_spec rc SQLITE_OK) as [Hrc|Hrc]; cbn [negb info set_info nBackfill]; [|now apply preserved_same].
  destruct (Z.ltb_spec b S) as [HbS|HbS]; [|now apply preserved_same].
  destruct (iterator_ok sz l w HL b ltac:(fold mx; lia)) as (it & Hi & _). rewrite Hi. cbn [Z.eqb SQLITE_OK negb].
  set (s1 := {| handle_of := w; info := set_info b marks (nBackfillAttempted (info s)); db := db s |}) in *.
  destruct (Z.eqb_spec (read_lock e 0) SQLITE_OK) as [Hl0|Hl0]; [|now apply preserved_same].
  pose proof (backfill_ok sz l w HL e it S marks s1 eq_refl ltac:(cbn; lia) ltac:(fold mx; lia) Hi) as HB. cbv zeta in HB.
  cbn [info set_info nBackfill s1 db] in HB. fold s1 mx in HB.
  destruct (backfill e it S marks s1) as [s2 rc2]. destruct HB as (B1 & B2 & B3 & B4). pose proof (lo_mx _ _ _ HL) as Hmx. fold mx in Hmx. cbn [fst].
  constructor; fold w b mx.
  - exact B1.
  - rewrite B2. destruct (rc2 =? SQLITE_OK); lia.
  - intros p Hp. unfold current. rewrite B1, B2. fold b w mx. destruct (Z.eqb_spec rc2 SQLITE_OK) as [E2|E2].
    + apply (view_next sz l w HL b S); [apply B3; lia|intros Hf; now apply B4|lia|fold mx; lia].
    + apply (view_keep sz l w HL b S); [apply B3; lia|lia|lia|fold mx; lia|fold mx; lia|fold mx; lia].
  - intros i mn mx0 p [[R1 R1'] R2 R3 R4] Hp Hor Hbc. specialize (Hread Hrc i ltac:(cbn in *; lia) R1'). rewrite B1.
    apply (view_keep sz l w HL b S); [apply B3; [exact Hp|]|lia|exact R4|exact R3|lia|fold mx; lia]. destruct Hor as [Hor|Hor]; [now left|right; lia].
Qed.

(** ** Checkpoints in all modes *)

Lemma find_none m x p : mxFrame x = 0 -> walFindFrame m x p = (0, SQLITE_OK).
Proof. intros E. unfold walFindFrame. now rewrite E. Qed.

(** A reader whose frames are all copied reads the database. *)
Lemma current_copied sz l s p : Logs sz l (handle_of s) -> mxFrame (wal (ix (handle_of s))) <= nBackfill (info s) -> frame_ok (nBackfill (info s) + 1) ->
  current sz s p = db_page sz p (db s).
Proof.
  intros HL Hb Hok. pose proof (lo_mx _ _ _ HL) as Hmx. unfold current. rewrite (view_eq sz l) by (try assumption; lia).
  replace (newest _ _ _ _) with 0; [reflexivity|]. symmetry. apply newest_char; [lia|]. left. split; [reflexivity|]. intros f Hf Hl. lia.
Qed.

(** C29: A checkpoint does not change what is read of the log that its own header
    describes.  Whatever locks it gets and wherever it is interrupted, a new reader
    with the header of the checkpointer finds every page up to the size of the
    database in that header as before, although it now skips the frames that were
    copied; and a reader of a prefix of the same log, whose read mark is locked
    and lets the frames of its snapshot be seen, finds as before every page up to
    that size, and beyond it when a commit follows its snapshot.  The log must
    be the one that this header describes, though frames may have been appended
    ([Logs]): when it was restarted after the checkpointer had read the header
    this is false, as [WalShared.wal_reset_race] shows. *)
Theorem checkpoint_preserves sz l e eMode s : Logs sz l (handle_of s) -> 0 <= nBackfill (info s) -> frame_ok (nBackfill (info s) + 1) ->
  length (aReadMark (info s)) = WAL_NREADER ->
  let (s', rc) := walCheckpoint e eMode s in
  (forall p, 1 <= p <= nPage (hdr (handle_of s)) -> current sz s' p = current sz s p) /\
  (forall i mn mx p, Reader e l s i mn mx -> all_locks e <> SQLITE_OK -> 1 <= p -> p <= nPage (hdr (handle_of s)) \/ mx < live (ix (handle_of s)) ->
     nBackfill (info s) <= count l -> view sz mn mx (handle_of s') (db s') p = view sz mn mx (handle_of s) (db s) p).
Proof.
  intros HL Hb Hok Hlen. pose proof (copy_back_ok sz l e s HL Hb Hlen) as [P1 P2 P3 P4]. unfold walCheckpoint. destruct (copy_back e s) as [s1 rc]. cbn [fst] in *.
  assert (Hdone : (forall p, 1 <= p <= nPage (hdr (handle_of s)) -> current sz s1 p = current sz s p) /\
    (forall i mn mx p, Reader e l s i mn mx -> all_locks e <> SQLITE_OK -> 1 <= p -> p <= nPage (hdr (handle_of s)) \/ mx < live (ix (handle_of s)) ->
       nBackfill (info s) <= count l -> view sz mn mx (handle_of s1) (db s1) p = view sz mn mx (handle_of s) (db s) p))
    by (split; [exact P3|intros i mn mx p HR _; now apply (P4 i)]).
  destruct ((rc =? SQLITE_OK) && _); [|exact Hdone]. destruct (Z.ltb_spec (nBackfill (info s1)) (mxFrame (wal (ix (handle_of s1))))) as [Hlt|Hge]; [exact Hdone|].
  destruct (_ <=? eMode); [|exact Hdone]. destruct (Z.eqb_spec (all_locks e) SQLITE_OK) as [Ha|Ha]; [|exact Hdone]. destruct (eMode =? _); [|exact Hdone].
  split; [|intros; contradiction]. intros p Hp. rewrite <- (P3 p Hp). rewrite (current_copied sz l s1); [|now rewrite P1|lia|].
  - unfold current, view. rewrite find_none by reflexivity. reflexivity.
  - pose proof (lo_ok _ _ _ HL). pose proof (lo_mx _ _ _ HL). unfold frame_ok in *. lia.
Qed.

(** ** Full checkpoints *)

(** No reader is in the way and nothing interrupts. *)
Record Quiet (e : World) : Prop := {
  qu_locks : forall i, 0 <= i < Z.of_nat WAL_NREADER -> read_lock e i = SQLITE_OK;
  qu_all : all_locks e = SQLITE_OK;
  qu_interrupt : forall k, interrupt e k = SQLITE_OK }.

Lemma copy_loop_rc e b S n sz log : (forall k, interrupt e k = SQLITE_OK) -> forall fuel it k d, snd (copy_loop fuel it e b S n sz log k d) = SQLITE_OK.
Proof.
  intros H. induction fuel as [|fuel IH]; intros it k d; cbn [copy_loop]; [reflexivity|]. destruct (walIteratorNext it) as [it' [[p f]|]]; [|reflexivity].
  rewrite H. cbn [Z.eqb SQLITE_OK negb]. destruct (_ || _); apply IH.
Qed.

Lemma copy_back_full sz l e s : Logs sz l (handle_of s) -> 0 <= nBackfill (info s) <= mxFrame (wal (ix (handle_of s))) -> length (aReadMark (info s)) = WAL_NREADER ->
  Quiet e -> nPage (hdr (handle_of s)) * sz <= size (db s) + 65536 + mxFrame (wal (ix (handle_of s))) * sz ->
  let (s', rc) := copy_back e s in rc = SQLITE_OK /\ nBackfill (info s') = mxFrame (wal (ix (handle_of s))).
Proof.
  intros HL Hb Hlen [Hq _ Hi] Hsize. unfold copy_back. set (mx := mxFrame (wal (ix (handle_of s)))) in *.
  destruct (Z.ltb_spec (nBackfill (info s)) mx) as [Hlt|Hge]; [|split; [reflexivity|lia]].
  pose proof (safe_frames_ok e (WAL_NREADER - 1) 1 (aReadMark (info s)) mx ltac:(lia) ltac:(rewrite Hlen; cbn; lia)) as Hsafe.
  destruct (safe_frames _ _ _ _ _) as [[S marks] rc]. destruct Hsafe as (_ & _ & Hsafe). destruct Hsafe as [-> ->]; [intros j Hj; apply Hq; cbn in *; lia|].
  cbn [Z.eqb SQLITE_OK negb info set_info nBackfill]. replace (nBackfill (info s) <? mx) with true by (symmetry; now apply Z.ltb_lt).
  destruct (iterator_ok sz l _ HL (nBackfill (info s)) ltac:(fold mx; lia)) as (it & -> & _). cbn [Z.eqb SQLITE_OK negb]. rewrite (Hq 0) by (cbn; lia). cbn [Z.eqb SQLITE_OK].
  unfold backfill. cbn [handle_of info set_info nBackfill db]. fold mx. rewrite (lo_size _ _ _ HL).
  replace (size (db s) + 65536 + mx * sz <? nPage (hdr (handle_of s)) * sz) with false by (symmetry; apply Z.ltb_ge; lia). rewrite andb_false_r.
  pose proof (copy_loop_rc e (nBackfill (info s)) mx (nPage (hdr (handle_of s))) sz (file (handle_of s)) Hi (Datatypes.S (Z.to_nat mx)) it 0 (db s)) as Hrc.
  destruct (copy_loop _ _ _ _ _ _ _ _ _ _) as [d rc]. cbn [snd] in Hrc. subst rc. cbn [Z.eqb SQLITE_OK info set_info nBackfill]. split; reflexivity.
Qed.

(** The database file after a full checkpoint. *)
Lemma checkpoint_full sz l e eMode s p : Logs sz l (handle_of s) -> 0 <= nBackfill (info s) <= mxFrame (wal (ix (handle_of s))) ->
  length (aReadMark (info s)) = WAL_NREADER -> Quiet e ->
  nPage (hdr (handle_of s)) * sz <= size (db s) + 65536 + mxFrame (wal (ix (handle_of s))) * sz -> 1 <= p <= nPage (hdr (handle_of s)) ->
  let (s', rc) := walCheckpoint e eMode s in rc = SQLITE_OK /\ db_page sz p (db s') = current sz s p.
Proof.
  intros HL Hb Hlen HQ Hsize Hp. pose proof (copy_back_ok sz l e s HL ltac:(lia) Hlen) as [P1 P2 P3 _].
  pose proof (copy_back_full sz l e s HL Hb Hlen HQ Hsize) as Hf. unfold walCheckpoint. destruct (copy_back e s) as [s1 rc]. destruct Hf as [-> Hn]. cbn [fst Z.eqb SQLITE_OK andb] in *.
  pose proof (lo_ok _ _ _ HL) as Hok. pose proof (lo_mx _ _ _ HL) as Hmx.
  assert (Hpage : db_page sz p (db s1) = current sz s p).
  { rewrite <- (P3 p Hp). symmetry. apply (current_copied sz l); [now rewrite P1|rewrite P1; lia|unfold frame_ok in *; lia]. }
  rewrite P1, Hn, Z.ltb_irrefl, (qu_all _ HQ). cbn [Z.eqb SQLITE_OK].
  destruct (negb _); [|auto]. destruct (_ <=? eMode); [|auto]. destruct (eMode =? _); auto.
Qed.

(** ** Checkpoints of a log that was written by transactions *)

Lemma inv_logs sz l w : page_size sz -> Inv sz l w -> last_commit l = length l -> l <> [] -> frame_ok (count l + 1) -> content l NO_PAGE = None -> Logs sz l w.
Proof.
  intros Hsz [[(log & dist & s & HR) Hsize Hdata] Hcm _ _ Hlog] Hall Hne Hok Hno. destruct (Hlog Hne) as (base & L & _).
  pose proof (lg_written _ _ _ _ L) as HW. pose proof (r_order _ _ _ _ _ HR) as Hord. pose proof (r_private _ _ _ _ _ HR) as Hpr. cbn [log_of private] in Hpr.
  assert (Hlen : count l = appended (ix w)) by (rewrite <- (r_len _ _ _ _ _ HR); unfold len, count; cbn [log_of pages]; now rewrite length_map).
  assert (Hpos : 1 <= count l) by (destruct l; [congruence|unfold count; cbn [length]; lia]). pose proof (page_size_pos sz Hsz).
  constructor.
  - exists log, dist, s. split; [exact (r_index _ _ _ _ _ HR)|]. split; [|lia]. intros g Hg. apply (r_log _ _ _ _ _ HR). lia.
  - exact (r_map _ _ _ _ _ HR).
  - lia.
  - rewrite Hcm, Hall. reflexivity.
  - exact Hok.
  - exact (wr_wf _ _ _ _ _ HW).
  - intros g Hg. assert (Hin : In (nth (Z.to_nat (g - 1)) l frame0) l) by (apply nth_In; unfold count in Hg; lia).
    assert (Ep : page_at l g = f_pgno (nth (Z.to_nat (g - 1)) l frame0)).
    { unfold page_at. rewrite (nth_indep _ 0 (f_pgno frame0)) by (rewrite length_map; unfold count in Hg; lia). apply map_nth. }
    pose proof (wr_wf _ _ _ _ _ HW) as Hwf. rewrite Forall_forall in Hwf. destruct (Hwf _ Hin) as ([_ Hu] & _).
    assert (page_at l g <> NO_PAGE); [|unfold NO_PAGE in *; rewrite Ep in *; lia]. intros E.
    destruct (content_newest l NO_PAGE) as [[H0 _]|(_ & H1 & _)]; [|congruence].
    destruct (newest_is (page_at l) NO_PAGE 1 (count l) ltac:(lia)) as [[_ H1]|(H1 & _)]; [|lia]. exact (H1 g Hg ltac:(lia) E).
  - exact Hdata.
  - unfold walPagesize. destruct (Hsize Hpos) as [_ ->]. now apply page_size_16.
  - lia.
Qed.

(** The store before its first checkpoint. *)
Definition unchecked (w : Handle) (marks : list Z) (d : list Z) : Store := {| handle_of := w; info := set_info 0 marks 0; db := d |}.

Lemma current_content sz l w marks d p : Logs sz l w -> mxFrame (wal (ix w)) = count l ->
  current sz (unchecked w marks d) p = match content l p with Some c => c | None => db_page sz p d end.
Proof.
  intros HL Hmx. unfold current, unchecked. cbn [info set_info nBackfill handle_of db]. rewrite (view_eq sz l) by (try assumption; try (unfold frame_ok; lia); rewrite Hmx; unfold count; lia).
  rewrite Hmx. change (0 + 1) with 1. destruct (content_newest l p) as [[-> ->]|(H & -> & _)]; [reflexivity|].
  set (r := newest _ _ _ _) in *. replace (r =? 0) with false by (symmetry; apply Z.eqb_neq; lia). now apply (lo_data _ _ _ HL).
Qed.

(** The log that a run leaves, when it ends with a commit. *)
Lemma run_logs sz x m limit es : page_size sz -> can_read x -> wal_events_ok sz (reopened [] m x limit) es -> working (db_run empty_db es) NO_PAGE = None ->
  exists w l, wal_run sz (reopened [] m x limit) es = (w, SQLITE_OK) /\ mxFrame (wal (ix w)) = count l /\
    (forall q, content l q = working (db_run empty_db es) q) /\
    (0 < mxFrame (wal (ix w)) -> mxFrame (wal (ix w)) = live (ix w) -> frame_ok (mxFrame (wal (ix w)) + 1) -> Logs sz l w).
Proof.
  intros Hsz Hx Hes Hno. destruct (reopened_inv sz m x limit Hx) as (HI & Hx0 & Hd).
  destruct (wal_run_ok sz es Hsz [] _ _ HI Hx0 Hd Hes) as (w & l & E & HI' & _ & [Hw _]). exists w, l. pose proof (inv_frames _ _ _ HI') as Hmx.
  split; [exact E|]. split; [exact Hmx|]. split; [exact Hw|]. intros H0 Hlive Hok. pose proof (in_commit _ _ _ HI') as Hcm. rewrite Hmx in *.
  apply inv_logs; [exact Hsz|exact HI'|unfold count in *; lia|intros ->; cbn in *; lia|exact Hok|now rewrite Hw].
Qed.

(** C30: A full checkpoint writes the committed pages.  Let transactions, rollbacks
    and crashes run on the log so that it ends with a commit and no frame of it
    was copied yet, with no reader in the way and no interrupt, and let the
    database file not be smaller than the size that the code takes for a sign of
    corruption: the checkpoint ends without an error, in every mode that does
    work (passive, full, restart and truncate), and every page of the database
    file is the one that the transactions left, or is as it was when they did not
    touch it. *)
Theorem checkpoint_complete sz x m limit es e eMode marks d p : page_size sz -> can_read x -> wal_events_ok sz (reopened [] m x limit) es -> Quiet e ->
  SQLITE_CHECKPOINT_PASSIVE <= eMode <= SQLITE_CHECKPOINT_TRUNCATE -> length marks = WAL_NREADER -> working (db_run empty_db es) NO_PAGE = None ->
  let (w, _) := wal_run sz (reopened [] m x limit) es in
  0 < mxFrame (wal (ix w)) -> mxFrame (wal (ix w)) = live (ix w) -> frame_ok (mxFrame (wal (ix w)) + 1) -> nPage (hdr w) * sz <= size d + 65536 + mxFrame (wal (ix w)) * sz ->
  1 <= p <= nPage (hdr w) ->
  let (s', rc) := walCheckpoint e eMode (unchecked w marks d) in
  rc = SQLITE_OK /\ db_page sz p (db s') = match working (db_run empty_db es) p with Some c => c | None => db_page sz p d end.
Proof.
  intros Hsz Hx Hes HQ _ Hlen Hno. destruct (run_logs sz x m limit es Hsz Hx Hes Hno) as (w & l & -> & Hmx & Hw & HL). intros H0 Hlive Hok Hsize Hp.
  specialize (HL H0 Hlive Hok). pose proof (lo_mx _ _ _ HL) as Hm.
  pose proof (checkpoint_full sz l e eMode (unchecked w marks d) p HL ltac:(cbn; lia) Hlen HQ Hsize Hp) as H.
  destruct (walCheckpoint _ _ _) as [s' rc]. destruct H as [H1 H2]. split; [exact H1|]. rewrite H2, (current_content sz l) by assumption. now rewrite Hw.
Qed.

(** ** A checkpoint with a reader in the way, and a full one *)

Definition committed_run : list wal_event := firstn 5 before_crash.
Definition end_handle : Handle := fst (wal_run 512 start committed_run).
(** A reader of the first two frames holds mark 1. *)
Definition blocked : World :=
  {| read_lock := fun i => if i =? 1 then SQLITE_BUSY else 0; all_locks := SQLITE_BUSY; interrupt := fun _ => 0; salt1 := [1; 1; 1; 1] |}.
Definition free : World := {| read_lock := fun _ => 0; all_locks := 0; interrupt := fun _ => 0; salt1 := [1; 1; 1; 1] |}.
Definition two_frames : Store := unchecked end_handle [0; 2; READMARK_NOT_USED; READMARK_NOT_USED; READMARK_NOT_USED] (repeat 3 1024).

Lemma committed_run_ok : wal_events_ok 512 start committed_run.
Proof. pose proof before_crash_ok as H. unfold committed_run. cbn [firstn before_crash wal_events_ok] in *. tauto. Qed.

Lemma end_logs : exists l, wal_run 512 start committed_run = (end_handle, SQLITE_OK) /\ mxFrame (wal (ix end_handle)) = count l /\ Logs 512 l end_handle.
Proof.
  destruct (run_logs 512 small_wal noise (-1) committed_run ltac:(now left) small_can_read committed_run_ok ltac:(vm_compute; reflexivity)) as (w & l & E & Hm & _ & HL).
  fold start in E. exists l. unfold end_handle. rewrite E. split; [reflexivity|]. split; [exact Hm|]. cbn [fst].
  replace w with end_handle in * by (unfold end_handle; now rewrite E). apply HL; vm_compute; intuition congruence.
Qed.

Lemma checkpoint_preserves_witness :
  current 512 (fst (walCheckpoint blocked 0 two_frames)) 5 = page 21 /\ current 512 (fst (walCheckpoint blocked 0 two_frames)) 1 = page 3 /\
  view 512 1 2 end_handle (db (fst (walCheckpoint blocked 0 two_frames))) 5 = page 18.
Proof.
  destruct end_logs as (l & _ & Hm & HL).
  pose proof (checkpoint_preserves 512 l blocked 0 two_frames HL ltac:(cbn; lia) ltac:(cbn; unfold frame_ok; lia) eq_refl) as H.
  assert (Hr : Reader blocked l two_frames 1 1 2).
  { constructor; [split; [cbn; lia|reflexivity]|vm_compute; discriminate| |cbn; lia]. rewrite <- Hm. vm_compute. intuition discriminate. }
  assert (Eh : handle_of (fst (walCheckpoint blocked 0 two_frames)) = end_handle) by (vm_compute; reflexivity).
  destruct (walCheckpoint blocked 0 two_frames) as [s' rc]. cbn [fst] in *. destruct H as [H1 H2].
  rewrite !H1 by (vm_compute; intuition discriminate). split; [vm_compute; reflexivity|]. split; [vm_compute; reflexivity|].
  rewrite <- Eh at 1. rewrite (H2 1 1 2 5 Hr); [vm_compute; reflexivity|discriminate|lia|left; vm_compute; discriminate|].
  rewrite <- Hm. vm_compute. discriminate.
Defined.

Lemma checkpoint_complete_witness : db_page 512 5 (db (fst (walCheckpoint free 3 two_frames))) = page 21 /\
  db_page 512 2 (db (fst (walCheckpoint free 3 two_frames))) = page 17.
Proof.
  assert (HQ : Quiet free) by (constructor; intros; reflexivity).
  assert (H : forall p, 1 <= p <= 9 -> db_page 512 p (db (fst (walCheckpoint free 3 two_frames))) =
    match working (db_run empty_db committed_run) p with Some c => c | None => db_page 512 p (repeat 3 1024) end).
  { intros p Hp. pose proof (checkpoint_complete 512 small_wal noise (-1) committed_run free 3 [0; 2; READMARK_NOT_USED; READMARK_NOT_USED; READMARK_NOT_USED]
      (repeat 3 1024) p ltac:(now left) small_can_read committed_run_ok HQ
      ltac:(unfold SQLITE_CHECKPOINT_PASSIVE, SQLITE_CHECKPOINT_TRUNCATE; lia) eq_refl ltac:(vm_compute; reflexivity)) as H. fold start in H.
    destruct end_logs as (_ & E & _). rewrite E in H. fold two_frames in H.
    specialize (H ltac:(vm_compute; reflexivity) ltac:(vm_compute; reflexivity) ltac:(vm_compute; intuition discriminate) ltac:(vm_compute; discriminate)).
    specialize (H ltac:(replace (nPage (hdr end_handle)) with 9 by (vm_compute; reflexivity); exact Hp)).
    destruct (walCheckpoint free 3 two_frames) as [s' rc]. exact (proj2 H). }
  rewrite !H by lia. split; vm_compute; reflexivity.
Defined.
