(* ===== verification/WalShared.v ===== *)
(** * SQLite: connections that share a write-ahead log

    Several connections, in one or more processes, read, write and checkpoint
    one database at the same time.  They share the wal-index header, the number
    of frames that are copied ([nBackfill]), the marks of the readers and the
    locks of the shared memory.  The module models how they go together:
    [walTryBeginRead], [sqlite3WalBeginWriteTransaction], [walRestartLog],
    [walRestartHdr], the commit of [walFrames], [sqlite3WalCheckpoint] and
    [walCheckpoint] of [src/api-core/src/db/sqlite3.c].

    Each of them is a program ([prog]) of accesses to what is shared ([op]); a
    run is any list of events, one access of one connection each, so that all
    interleavings are covered; a connection may also end in the middle of a
    program.  The wal-index header is read and written in one access (in the
    code two copies with a checksum detect a read that meets a write).  The
    content of a page is one number, since nothing looks inside; the frames of
    the log and the lookup in the index are those of [Wal] and [WalIndex], where
    the log is a function from frames to pages.  A transaction writes its pages
    with one call of [walFrames]; spills that overwrite frames are in
    [WalDurable].

    Two runs show that the code does not keep the connections apart in all
    cases ([wal_reset_race], [restart_killed]); [WalIsolation] proves that it does
    in all others. *)

From Stdlib Require Import ZArith List Lia Bool.
From S2P Require Import Prelude WalIndex.
Import ListNotations.
#[local] Open Scope Z_scope.

(** ** What is shared *)

Definition SQLITE_BUSY : Z := 5.
Definition SQLITE_PROTOCOL : Z := 15.
Definition SQLITE_BUSY_SNAPSHOT : Z := Z.lor SQLITE_BUSY (Z.shiftl 2 8).
Definition SQLITE_READONLY_CANTINIT : Z := Z.lor 8 (Z.shiftl 5 8).
Definition WAL_RETRY : Z := -1.
Definition WAL_RETRY_PROTOCOL_LIMIT : Z := 100.
Definition WAL_WRITE_LOCK : Z := 0.
Definition WAL_CKPT_LOCK : Z := 1.
Definition WAL_READ_LOCK (i : Z) : Z := 3 + i.
Definition WAL_NREADER : Z := 5.
Definition READMARK_NOT_USED : Z := 4294967295.
Definition SQLITE_CHECKPOINT_NOOP : Z := -1.
Definition SQLITE_CHECKPOINT_PASSIVE : Z := 0.
Definition SQLITE_CHECKPOINT_RESTART : Z := 2.
Definition SQLITE_CHECKPOINT_TRUNCATE : Z := 3.

(** [WalIndexHdr], as far as transactions change it. *)
Record WalIndexHdr := { iChange : Z; hdr_mxFrame : Z; hdr_nPage : Z; hdr_aSalt : Z * Z }.

(** [memcmp] of two headers. *)
Definition hdr_eqb (a b : WalIndexHdr) : bool :=
  (iChange a =? iChange b) && (hdr_mxFrame a =? hdr_mxFrame b) && (hdr_nPage a =? hdr_nPage b)
  && (fst (hdr_aSalt a) =? fst (hdr_aSalt b)) && (snd (hdr_aSalt a) =? snd (hdr_aSalt b)).

(** A lock of the shared memory. *)
Inductive lock_state := Free | Shared (cs : list Z) | Exclusive (c : Z).

(** A read transaction: [readLock], the header and [minFrame] of the handle. *)
Record Trans := { readLock : Z; hdr : WalIndexHdr; minFrame : Z }.

Definition Pages : Type := Z -> option Z.

(** The shared memory and the files; [trans] has the transaction of each
    connection.  [hist] is the specification: the headers so far, each with the
    pages of the database at that time, the newest one first. *)
Record Sys := {
  header : WalIndexHdr;
  nBackfill : Z;
  aReadMark : Z -> Z;
  locks : Z -> lock_state;
  frame_page : Z -> Z;
  frame_data : Z -> Z;
  db : Z -> Z;
  trans : Z -> option Trans;
  hist : list (WalIndexHdr * Pages) }.

Definition upd {A} (i : Z) (a : A) (f : Z -> A) : Z -> A := fun j => if j =? i then a else f j.

Definition set_header (x : WalIndexHdr) (pages : Pages) (s : Sys) : Sys :=
  {| header := x; nBackfill := nBackfill s; aReadMark := aReadMark s; locks := locks s; frame_page := frame_page s; frame_data := frame_data s;
     db := db s; trans := trans s; hist := (x, pages) :: hist s |}.
Definition set_backfill (x : Z) (s : Sys) : Sys :=
  {| header := header s; nBackfill := x; aReadMark := aReadMark s; locks := locks s; frame_page := frame_page s; frame_data := frame_data s;
     db := db s; trans := trans s; hist := hist s |}.
Definition set_marks (x : Z -> Z) (s : Sys) : Sys :=
  {| header := header s; nBackfill := nBackfill s; aReadMark := x; locks := locks s; frame_page := frame_page s; frame_data := frame_data s;
     db := db s; trans := trans s; hist := hist s |}.
Definition set_locks (x : Z -> lock_state) (s : Sys) : Sys :=
  {| header := header s; nBackfill := nBackfill s; aReadMark := aReadMark s; locks := x; frame_page := frame_page s; frame_data := frame_data s;
     db := db s; trans := trans s; hist := hist s |}.
Definition set_frames (x y : Z -> Z) (s : Sys) : Sys :=
  {| header := header s; nBackfill := nBackfill s; aReadMark := aReadMark s; locks := locks s; frame_page := x; frame_data := y;
     db := db s; trans := trans s; hist := hist s |}.
Definition set_db (x : Z -> Z) (s : Sys) : Sys :=
  {| header := header s; nBackfill := nBackfill s; aReadMark := aReadMark s; locks := locks s; frame_page := frame_page s; frame_data := frame_data s;
     db := x; trans := trans s; hist := hist s |}.
Definition set_trans (x : Z -> option Trans) (s : Sys) : Sys :=
  {| header := header s; nBackfill := nBackfill s; aReadMark := aReadMark s; locks := locks s; frame_page := frame_page s; frame_data := frame_data s;
     db := db s; trans := x; hist := hist s |}.

(** ** Locks *)

Definition is_in (c : Z) (cs : list Z) : bool := existsb (Z.eqb c) cs.
Definition is_free (l : lock_state) : bool := match l with Free => true | _ => false end.

Definition lock_shared (c : Z) (l : lock_state) : option lock_state :=
  match l with
  | Free => Some (Shared [c])
  | Shared cs => Some (Shared (if is_in c cs then cs else c :: cs))
  | Exclusive _ => None
  end.
Definition unlock_shared (c : Z) (l : lock_state) : lock_state :=
  match l with
  | Shared cs => match filter (fun x => negb (x =? c)) cs with [] => Free | cs => Shared cs end
  | l => l
  end.
Definition unlock_exclusive (c : Z) (l : lock_state) : lock_state :=
  match l with Exclusive x => if x =? c then Free else l | l => l end.
(** The locks of a connection that has ended. *)
Definition drop (c : Z) (l : lock_state) : lock_state := unlock_shared c (unlock_exclusive c l).

Definition range (i n : Z) : list Z := map (fun k => i + Z.of_nat k) (seq 0 (Z.to_nat n)).
Definition in_range (i n j : Z) : bool := (i <=? j) && (j <? i + n).

(** ** Accesses *)

(** The pages of frames [1 .. n], each with its newest frame, in the order of the
    pages ([walIteratorInit], [walIteratorNext]). *)
Fixpoint put_entry (p f : Z) (l : list (Z * Z)) : list (Z * Z) :=
  match l with
  | [] => [(p, f)]
  | (q, g) :: l' => if p <? q then (p, f) :: l else if p =? q then (p, f) :: l' else (q, g) :: put_entry p f l'
  end.
Fixpoint iterator (log : Z -> Z) (n : nat) : list (Z * Z) :=
  match n with O => [] | S m => put_entry (log (Z.of_nat n)) (Z.of_nat n) (iterator log m) end.

(** The database after a commit. *)
Definition put_all (ps : list (Z * Z)) (m : Pages) : Pages :=
  fold_left (fun m p => fun q => if q =? fst p then Some (snd p) else m q) ps m.
Definition cut (n : Z) (m : Pages) : Pages := fun q => if q <=? n then m q else None.

Inductive op : Type -> Type :=
| ReadHdr : op WalIndexHdr
| CommitHdr (h : WalIndexHdr) (ps : list (Z * Z)) : op unit
| RestartHdr (h : WalIndexHdr) : op unit
| LoadBackfill : op Z
| StoreBackfill (n : Z) : op unit
| LoadMark (i : Z) : op Z
| StoreMark (i v : Z) : op unit
| LockShared (i : Z) : op Z
| UnlockShared (i : Z) : op unit
| LockExclusive (i n : Z) : op Z
| UnlockExclusive (i n : Z) : op unit
| Enter (i : Z) (h : WalIndexHdr) (mn : Z) : op bool
| Leave : op unit
| FindFrame (p mn mx : Z) : op Z
| Iterator (mx : Z) : op (list (Z * Z))
| ReadFrame (f : Z) : op Z
| WriteFrame (f p d : Z) : op unit
| TruncateLog : op unit
| ReadDb (p : Z) : op Z
| WriteDb (p d : Z) : op unit
| TruncateDb (n : Z) : op unit
| Interrupted : op Z.

Definition no_frames : Z -> Z := fun _ => 0.
(** The database of the newest header. *)
Definition current (s : Sys) : Pages := match hist s with (_, m) :: _ => m | [] => fun _ => None end.
(** The header of a handle in a transaction. *)
Definition set_snapshot (c : Z) (h : WalIndexHdr) (s : Sys) : Sys :=
  match trans s c with
  | Some t => set_trans (upd c (Some {| readLock := readLock t; hdr := h; minFrame := minFrame t |}) (trans s)) s
  | None => s
  end.

(** One access of connection [c].  [env] is the error with which a lock fails for
    another reason than a lock of someone else, or the flag for an interrupt. *)
Definition exec (c env : Z) {B} (o : op B) (s : Sys) : B * Sys :=
  match o in op B return B * Sys with
  | ReadHdr => (header s, s)
  | CommitHdr h ps => (tt, set_snapshot c h (set_header h (cut (hdr_nPage h) (put_all ps (current s))) s))
  | RestartHdr h => (tt, set_snapshot c h (set_header h (current s) s))
  | LoadBackfill => (nBackfill s, s)
  | StoreBackfill n => (tt, set_backfill n s)
  | LoadMark i => (aReadMark s i, s)
  | StoreMark i v => (tt, set_marks (upd i v (aReadMark s)) s)
  | LockShared i =>
    if negb (env =? 0) then (env, s)
    else match lock_shared c (locks s i) with
         | Some l => (SQLITE_OK, set_locks (upd i l (locks s)) s)
         | None => (SQLITE_BUSY, s)
         end
  | UnlockShared i => (tt, set_locks (upd i (unlock_shared c (locks s i)) (locks s)) s)
  | LockExclusive i n =>
    if negb (env =? 0) then (env, s)
    else if forallb (fun j => is_free (locks s j)) (range i n)
         then (SQLITE_OK, set_locks (fun j => if in_range i n j then Exclusive c else locks s j) s)
         else (SQLITE_BUSY, s)
  | UnlockExclusive i n => (tt, set_locks (fun j => if in_range i n j then unlock_exclusive c (locks s j) else locks s j) s)
  | Enter i h mn =>
    if hdr_eqb (header s) h then (true, set_trans (upd c (Some {| readLock := i; hdr := h; minFrame := mn |}) (trans s)) s) else (false, s)
  | Leave =>
    match trans s c with
    | Some t => let i := WAL_READ_LOCK (readLock t) in
                (tt, set_trans (upd c None (trans s)) (set_locks (upd i (unlock_shared c (locks s i)) (locks s)) s))
    | None => (tt, s)
    end
  | FindFrame p mn mx => (newest (frame_page s) p mn mx, s)
  | Iterator mx => (iterator (frame_page s) (Z.to_nat mx), s)
  | ReadFrame f => (frame_data s f, s)
  | WriteFrame f p d => (tt, set_frames (upd f p (frame_page s)) (upd f d (frame_data s)) s)
  | TruncateLog => (tt, set_frames no_frames no_frames s)
  | ReadDb p => (db s p, s)
  | WriteDb p d => (tt, set_db (upd p d (db s)) s)
  | TruncateDb n => (tt, set_db (fun p => if p <=? n then db s p else 0) s)
  | Interrupted => (env, s)
  end.

(** ** Programs *)

Inductive prog (A : Type) : Type :=
| Ret (a : A)
| Vis {B : Type} (o : op B) (k : B -> prog A).
Arguments Ret {A} a.
Arguments Vis {A B} o k.

Fixpoint bind {A B} (m : prog A) (f : A -> prog B) : prog B :=
  match m with Ret a => f a | Vis o k => Vis o (fun x => bind (k x) f) end.

Declare Scope wal_scope.
Delimit Scope wal_scope with wal.
Notation "x <- o ;; k" := (Vis o (fun x => k)) (at level 61, o at next level, right associativity) : wal_scope.
Notation "o ;; k" := (Vis o (fun _ => k)) (at level 61, right associativity) : wal_scope.
Notation "'do' x <- m ;; k" := (bind m (fun x => k)) (at level 61, x pattern, m at next level, right associativity) : wal_scope.
#[local] Open Scope wal_scope.

(** *** Read transactions *)

(** The largest mark that is not above [mxFrame], and its index: [n] marks from [i]. *)
Fixpoint best_mark (n : nat) (i mxFrame mxReadMark mxI : Z) : prog (Z * Z) :=
  match n with
  | O => Ret (mxReadMark, mxI)
  | S n =>
    thisMark <- LoadMark i ;;
    if (mxReadMark <=? thisMark) && (thisMark <=? mxFrame) then best_mark n (i + 1) mxFrame thisMark i
    else best_mark n (i + 1) mxFrame mxReadMark mxI
  end.

(** The first mark that can be locked is set to [mxFrame]. *)
Fixpoint set_mark (n : nat) (i mxFrame mxReadMark mxI rc : Z) : prog (Z * Z * Z) :=
  match n with
  | O => Ret (rc, mxReadMark, mxI)
  | S n =>
    rc <- LockExclusive (WAL_READ_LOCK i) 1 ;;
    if rc =? SQLITE_OK then StoreMark i mxFrame ;; UnlockExclusive (WAL_READ_LOCK i) 1 ;; Ret (SQLITE_OK, mxFrame, i)
    else if negb (rc =? SQLITE_BUSY) then Ret (rc, mxReadMark, mxI)
    else set_mark n (i + 1) mxFrame mxReadMark mxI rc
  end.

(** [walTryBeginRead], from the choice of a mark on.  [rc] is the code so far. *)
Definition read_mark (h : WalIndexHdr) (rc : Z) : prog Z :=
  let mxFrame := hdr_mxFrame h in
  do (mxReadMark, mxI) <- best_mark 4 1 mxFrame 0 0 ;;
  do (rc, mxReadMark, mxI) <- (if (mxReadMark <? mxFrame) || (mxI =? 0) then set_mark 4 1 mxFrame mxReadMark mxI rc else Ret (rc, mxReadMark, mxI)) ;;
  if negb (rc =? SQLITE_OK) && negb (rc =? SQLITE_BUSY) then Ret rc
  else if mxI =? 0 then Ret (if rc =? SQLITE_BUSY then WAL_RETRY else SQLITE_READONLY_CANTINIT)
  else
    rc <- LockShared (WAL_READ_LOCK mxI) ;;
    if negb (rc =? SQLITE_OK) then Ret (if Z.land rc 255 =? SQLITE_BUSY then WAL_RETRY else rc)
    else
      nBackfill <- LoadBackfill ;;
      mark <- LoadMark mxI ;;
      if negb (mark =? mxReadMark) then UnlockShared (WAL_READ_LOCK mxI) ;; Ret WAL_RETRY
      else
        same <- Enter mxI h (nBackfill + 1) ;;
        if same : bool then Ret SQLITE_OK else UnlockShared (WAL_READ_LOCK mxI) ;; Ret WAL_RETRY.

(** [walTryBeginRead]; with [useWal] the header [h] is the one of the handle. *)
Definition walTryBeginRead (useWal : bool) (h : WalIndexHdr) : prog Z :=
  if useWal then read_mark h SQLITE_OK
  else
    h <- ReadHdr ;;
    nBackfill <- LoadBackfill ;;
    if nBackfill =? hdr_mxFrame h then
      rc <- LockShared (WAL_READ_LOCK 0) ;;
      if rc =? SQLITE_OK then
        same <- Enter 0 h 0 ;;
        if same : bool then Ret SQLITE_OK else UnlockShared (WAL_READ_LOCK 0) ;; Ret WAL_RETRY
      else if negb (rc =? SQLITE_BUSY) then Ret rc
      else read_mark h rc
    else read_mark h SQLITE_OK.

(** The loop around it, with the number of attempts. *)
Fixpoint begin_loop (fuel : nat) (useWal : bool) (h : WalIndexHdr) (cnt : Z) : prog Z :=
  match fuel with
  | O => Ret SQLITE_PROTOCOL
  | S fuel =>
    let cnt := cnt + 1 in
    if (5 <? cnt) && (WAL_RETRY_PROTOCOL_LIMIT <? cnt) then Ret SQLITE_PROTOCOL
    else
      do rc <- walTryBeginRead useWal h ;;
      if rc =? WAL_RETRY then begin_loop fuel useWal h cnt else Ret rc
  end.
Definition walBeginReadTransaction : prog Z :=
  begin_loop 101 false {| iChange := 0; hdr_mxFrame := 0; hdr_nPage := 0; hdr_aSalt := (0, 0) |} 0.

(** A page of the transaction ([walFindFrame], [sqlite3WalReadFrame]). *)
Definition read_page (t : Trans) (p : Z) : prog Z :=
  if readLock t =? 0 then d <- ReadDb p ;; Ret d
  else
    iRead <- FindFrame p (minFrame t) (hdr_mxFrame (hdr t)) ;;
    if iRead =? 0 then d <- ReadDb p ;; Ret d else d <- ReadFrame iRead ;; Ret d.

(** *** Write transactions *)

Definition walRestartHdr (h : WalIndexHdr) (salt1 : Z) (k : WalIndexHdr -> prog Z) : prog Z :=
  let h := {| iChange := iChange h; hdr_mxFrame := 0; hdr_nPage := hdr_nPage h; hdr_aSalt := (u32 (1 + fst (hdr_aSalt h)), salt1) |} in
  RestartHdr h ;;
  StoreBackfill 0 ;;
  StoreMark 1 0 ;;
  StoreMark 2 READMARK_NOT_USED ;;
  StoreMark 3 READMARK_NOT_USED ;;
  StoreMark 4 READMARK_NOT_USED ;;
  k h.

(** The rest of [walRestartLog]: from the lock on the database alone to a lock on
    a mark. *)
Definition reenter (h : WalIndexHdr) (k : WalIndexHdr -> Z -> prog Z) : prog Z :=
  Leave ;; do rc <- begin_loop 101 true h 0 ;; k h rc.

Definition walRestartLog (t : Trans) (salt1 : Z) (k : WalIndexHdr -> Z -> prog Z) : prog Z :=
  if readLock t =? 0 then
    nBackfill <- LoadBackfill ;;
    if 0 <? nBackfill then
      rc <- LockExclusive (WAL_READ_LOCK 1) (WAL_NREADER - 1) ;;
      if rc =? SQLITE_OK then
        walRestartHdr (hdr t) salt1 (fun h => UnlockExclusive (WAL_READ_LOCK 1) (WAL_NREADER - 1) ;; reenter h k)
      else if negb (rc =? SQLITE_BUSY) then k (hdr t) rc
      else reenter (hdr t) k
    else reenter (hdr t) k
  else k (hdr t) SQLITE_OK.

Fixpoint write_frames (iFrame : Z) (ps : list (Z * Z)) (k : prog Z) : prog Z :=
  match ps with
  | [] => k
  | (p, d) :: ps => WriteFrame (iFrame + 1) p d ;; write_frames (iFrame + 1) ps k
  end.

(** [sqlite3WalEndWriteTransaction] *)
Definition end_write (rc : Z) : prog Z := UnlockExclusive WAL_WRITE_LOCK 1 ;; Ret rc.

(** A write transaction with the pages [ps]: it is begun, the pages are written
    and committed with the size [nTruncate], or rolled back. *)
Definition write_transaction (t : Trans) (ps : list (Z * Z)) (nTruncate salt1 : Z) (isCommit : bool) : prog Z :=
  rc <- LockExclusive WAL_WRITE_LOCK 1 ;;
  if negb (rc =? SQLITE_OK) then Ret rc
  else
    live <- ReadHdr ;;
    if negb (hdr_eqb (hdr t) live) then end_write SQLITE_BUSY_SNAPSHOT
    else
      walRestartLog t salt1 (fun h rc =>
        if negb (rc =? SQLITE_OK) then end_write rc
        else
          write_frames (hdr_mxFrame h) ps
            (if isCommit then
               CommitHdr {| iChange := u32 (iChange h + 1); hdr_mxFrame := hdr_mxFrame h + Z.of_nat (length ps); hdr_nPage := nTruncate;
                            hdr_aSalt := hdr_aSalt h |} ps ;;
               end_write SQLITE_OK
             else end_write SQLITE_OK)).

(** *** Checkpoints *)

(** The last frame that no reader stands in the way of: [n] marks from [i]. *)
Fixpoint safe_frames (n : nat) (i mxSafeFrame : Z) (k : Z -> Z -> prog Z) : prog Z :=
  match n with
  | O => k mxSafeFrame SQLITE_OK
  | S n =>
    y <- LoadMark i ;;
    if y <? mxSafeFrame then
      rc <- LockExclusive (WAL_READ_LOCK i) 1 ;;
      if rc =? SQLITE_OK then
        StoreMark i (if i =? 1 then mxSafeFrame else READMARK_NOT_USED) ;;
        UnlockExclusive (WAL_READ_LOCK i) 1 ;;
        safe_frames n (i + 1) mxSafeFrame k
      else if rc =? SQLITE_BUSY then safe_frames n (i + 1) y k
      else k mxSafeFrame rc
    else safe_frames n (i + 1) mxSafeFrame k
  end.

Fixpoint copy_pages (es : list (Z * Z)) (b mxSafeFrame mxPage : Z) (k : Z -> prog Z) : prog Z :=
  match es with
  | [] => k SQLITE_OK
  | (iDbpage, iFrame) :: es =>
    rc <- Interrupted ;;
    if negb (rc =? 0) then k rc
    else if (iFrame <=? b) || (mxSafeFrame <? iFrame) || (mxPage <? iDbpage) then copy_pages es b mxSafeFrame mxPage k
    else d <- ReadFrame iFrame ;; WriteDb iDbpage d ;; copy_pages es b mxSafeFrame mxPage k
  end.

(** Copying, under the lock on mark 0. *)
Definition backfill (h : WalIndexHdr) (es : list (Z * Z)) (mxSafeFrame : Z) (k : Z -> prog Z) : prog Z :=
  nBackfill <- LoadBackfill ;;
  copy_pages es nBackfill mxSafeFrame (hdr_nPage h) (fun rc =>
    if rc =? SQLITE_OK then
      live <- ReadHdr ;;
      if mxSafeFrame =? hdr_mxFrame live then
        TruncateDb (hdr_nPage h) ;; StoreBackfill mxSafeFrame ;; UnlockExclusive (WAL_READ_LOCK 0) 1 ;; k SQLITE_OK
      else StoreBackfill mxSafeFrame ;; UnlockExclusive (WAL_READ_LOCK 0) 1 ;; k SQLITE_OK
    else UnlockExclusive (WAL_READ_LOCK 0) 1 ;; k rc).

(** The first half of [walCheckpoint]. *)
Definition copy_back (h : WalIndexHdr) (k : Z -> prog Z) : prog Z :=
  nBackfill <- LoadBackfill ;;
  if nBackfill <? hdr_mxFrame h then
    safe_frames 4 1 (hdr_mxFrame h) (fun mxSafeFrame rc =>
      if negb (rc =? SQLITE_OK) then k rc
      else
        nBackfill <- LoadBackfill ;;
        if nBackfill <? mxSafeFrame then
          es <- Iterator (hdr_mxFrame h) ;;
          rc <- LockExclusive (WAL_READ_LOCK 0) 1 ;;
          if rc =? SQLITE_OK then backfill h es mxSafeFrame (fun rc => k (if rc =? SQLITE_BUSY then SQLITE_OK else rc))
          else k (if rc =? SQLITE_BUSY then SQLITE_OK else rc)
        else k SQLITE_OK)
  else k SQLITE_OK.

Definition walCheckpoint (eMode : Z) (h : WalIndexHdr) (salt1 : Z) (k : Z -> prog Z) : prog Z :=
  copy_back h (fun rc =>
    if (rc =? SQLITE_OK) && negb (eMode =? SQLITE_CHECKPOINT_PASSIVE) then
      nBackfill <- LoadBackfill ;;
      if nBackfill <? hdr_mxFrame h then k SQLITE_BUSY
      else if SQLITE_CHECKPOINT_RESTART <=? eMode then
        rc <- LockExclusive (WAL_READ_LOCK 1) (WAL_NREADER - 1) ;;
        if rc =? SQLITE_OK then
          if eMode =? SQLITE_CHECKPOINT_TRUNCATE then
            walRestartHdr h salt1 (fun _ => TruncateLog ;; UnlockExclusive (WAL_READ_LOCK 1) (WAL_NREADER - 1) ;; k SQLITE_OK)
          else UnlockExclusive (WAL_READ_LOCK 1) (WAL_NREADER - 1) ;; k SQLITE_OK
        else k rc
      else k SQLITE_OK
    else k rc).

(** [sqlite3WalCheckpoint], with the locks of the checkpointer; the mode that does
    no work takes no lock and only reads the header.  Without the lock
    of the writer the checkpoint is passive. *)
Definition sqlite3WalCheckpoint (eMode salt1 : Z) : prog Z :=
  if eMode =? SQLITE_CHECKPOINT_NOOP then _ <- ReadHdr ;; Ret SQLITE_OK
  else
  rc <- LockExclusive WAL_CKPT_LOCK 1 ;;
  if negb (rc =? SQLITE_OK) then Ret rc
  else
    let finish (wr : bool) (eMode2 rc : Z) :=
      let rc := if (rc =? SQLITE_OK) && negb (eMode =? eMode2) then SQLITE_BUSY else rc in
      if wr then UnlockExclusive WAL_WRITE_LOCK 1 ;; UnlockExclusive WAL_CKPT_LOCK 1 ;; Ret rc
      else UnlockExclusive WAL_CKPT_LOCK 1 ;; Ret rc in
    let passive := h <- ReadHdr ;; walCheckpoint SQLITE_CHECKPOINT_PASSIVE h salt1 (finish false SQLITE_CHECKPOINT_PASSIVE) in
    if eMode =? SQLITE_CHECKPOINT_PASSIVE then passive
    else
      rc <- LockExclusive WAL_WRITE_LOCK 1 ;;
      if rc =? SQLITE_OK then h <- ReadHdr ;; walCheckpoint eMode h salt1 (finish true eMode)
      else if rc =? SQLITE_BUSY then passive
      else finish false eMode rc.

(** ** Runs *)

Inductive request :=
| Begin
| End
| Read (p : Z)
| Write (ps : list (Z * Z)) (nTruncate salt1 : Z) (isCommit : bool)
| Checkpoint (eMode salt1 : Z).

(** The program of each connection that is at work, and the pages that were read,
    each with the header of its transaction. *)
Record world := { sys : Sys; busy : Z -> option (request * prog Z); reads : list (WalIndexHdr * Z * Z) }.

Definition is_busy (w : world) (c : Z) : bool := match busy w c with Some _ => true | None => false end.

Definition program (r : request) (t : option Trans) : option (prog Z) :=
  match r, t with
  | Begin, None => Some walBeginReadTransaction
  | End, Some _ => Some (Leave ;; Ret SQLITE_OK)
  | Read p, Some t => Some (read_page t p)
  | Write ps n salt1 isCommit, Some t => match ps with [] => None | _ => Some (write_transaction t ps n salt1 isCommit) end
  | Checkpoint eMode salt1, None => Some (sqlite3WalCheckpoint eMode salt1)
  | _, _ => None
  end.

Definition finish (c : Z) (r : request) (m : prog Z) (s : Sys) (w : world) : world :=
  match m with
  | Vis _ _ => {| sys := s; busy := upd c (Some (r, m)) (busy w); reads := reads w |}
  | Ret v =>
    {| sys := s; busy := upd c None (busy w);
       reads := match r, trans s c with Read p, Some t => (hdr t, p, v) :: reads w | _, _ => reads w end |}
  end.

Inductive event := Start (c : Z) (r : request) | Access (c env : Z) | Kill (c : Z).

Definition step (w : world) (e : event) : world :=
  match e with
  | Start c r =>
    match busy w c, program r (trans (sys w) c) with
    | None, Some m => finish c r m (sys w) w
    | _, _ => w
    end
  | Access c env =>
    match busy w c with
    | Some (r, Vis o k) => let (x, s) := exec c env o (sys w) in finish c r (k x) s w
    | _ => w
    end
  | Kill c =>
    let s := sys w in
    {| sys := set_trans (upd c None (trans s)) (set_locks (fun i => drop c (locks s i)) s); busy := upd c None (busy w); reads := reads w |}
  end.
Definition run (w : world) (es : list event) : world := fold_left step es w.

(** At first no one has a lock, the log is empty and the database file has the
    pages of the database. *)
Definition initial (h : WalIndexHdr) (marks pages : Z -> Z) : world :=
  {| sys := {| header := h; nBackfill := 0; aReadMark := marks; locks := fun _ => Free; frame_page := no_frames; frame_data := no_frames;
               db := pages; trans := fun _ => None; hist := [(h, cut (hdr_nPage h) (fun p => Some (pages p)))] |};
     busy := fun _ => None; reads := [] |}.

(** ** Two connections that are not kept apart *)

Definition first_hdr : WalIndexHdr := {| iChange := 0; hdr_mxFrame := 0; hdr_nPage := 2; hdr_aSalt := (7, 8) |}.
Definition empty_log : world := initial first_hdr (fun i => if i =? 1 then 0 else READMARK_NOT_USED) (fun p => p).
Definition all (c : Z) (r : request) (n : nat) : list event := Start c r :: repeat (Access c 0) n.
Definition write_and_end (c : Z) (ps : list (Z * Z)) (n : Z) : list event := all c Begin 30 ++ all c (Write ps n 1 true) 60 ++ all c End 2.

(** Connection 1 commits two pages and connection 2 copies them.  Connection 2
    begins another passive checkpoint and has read the header when connection 1
    restarts the log and commits three pages; then connection 2 goes on. *)
Definition reset_run : list event :=
  write_and_end 1 [(1, 11); (2, 12)] 2 ++ all 2 (Checkpoint SQLITE_CHECKPOINT_PASSIVE 5) 40
  ++ all 2 (Checkpoint SQLITE_CHECKPOINT_PASSIVE 5) 2
  ++ write_and_end 1 [(1, 21); (3, 23); (2, 22)] 3
  ++ repeat (Access 2 0) 40
  ++ all 3 Begin 30 ++ all 3 (Read 3) 2.

(** Connection 1 is ended by the operating system in [walRestartHdr], after the new
    header and before [nBackfill] is set to 0; then connection 2 commits a page. *)
Definition killed_run : list event :=
  write_and_end 1 [(1, 11); (2, 12)] 2 ++ all 2 (Checkpoint SQLITE_CHECKPOINT_PASSIVE 5) 40
  ++ all 1 Begin 30 ++ all 1 (Write [(1, 21)] 2 1 true) 5 ++ [Kill 1]
  ++ write_and_end 2 [(1, 31)] 2
  ++ all 3 Begin 30 ++ all 3 (Read 1) 2.

(** A log is restarted under a checkpoint.  No connection ends and no lock fails;
    the database of the last header has page 3 with content 23, and a transaction
    with this header reads 0. *)
Theorem wal_reset_race : let w := run empty_log reset_run in
  current (sys w) 3 = Some 23 /\ reads w = [(header (sys w), 3, 0)].
Proof. vm_compute. split; reflexivity. Qed.

(** A connection ends inside [walRestartHdr].  The database of the last header has
    page 1 with content 31, and a transaction with this header reads the content
    before. *)
Theorem restart_killed : let w := run empty_log killed_run in
  current (sys w) 1 = Some 31 /\ reads w = [(header (sys w), 1, 11)].
Proof. vm_compute. split; reflexivity. Qed.
