(* ===== verification/WalIsolation.v ===== *)
(** * SQLite: transactions on a shared write-ahead log are isolated

    For all interleavings of the accesses of [WalShared], every page that a
    transaction reads is the page of the database at the commit that its header
    belongs to ([wal_snapshot_isolation]).  Excluded are the restart of the log
    while another connection runs a checkpoint, and the end of a connection
    between the two writes of [walRestartHdr], which are the runs [wal_reset_race]
    and [restart_killed].

    The proof is by rely and guarantee.  [Inv] holds between any two accesses;
    [Pre] is what an access of a connection needs to keep it; [Rely] is what a
    connection knows of an access of another one.  A program is [safe] when each of
    its accesses has its [Pre], from assertions that are stable under [Rely]. *)

From Stdlib Require Import ZArith List Lia Bool Sorted.
From S2P Require Import Prelude WalIndex WalShared.
Import ListNotations.
#[local] Open Scope Z_scope.

(** ** Headers *)

Definition mx (s : Sys) : Z := hdr_mxFrame (header s).

Lemma hdr_eqb_eq a b : hdr_eqb a b = true <-> a = b.
Proof.
  destruct a as [a1 a2 a3 [a4 a5]], b as [b1 b2 b3 [b4 b5]]. unfold hdr_eqb. cbn. rewrite !andb_true_iff, !Z.eqb_eq. split.
  - intros ((((-> & ->) & ->) & ->) & ->). reflexivity.
  - intros [= -> -> -> -> ->]. auto.
Qed.

Lemma u32_id x : is_u32 x -> u32 x = x.
Proof. apply Z.mod_small. Qed.
Lemma u32_add_l a b : u32 (u32 a + b) = u32 (a + b).
Proof. apply Zplus_mod_idemp_l. Qed.
Lemma u32_steps x n : is_u32 x -> 0 <= n < 2 ^ 32 -> x = u32 (x + n) -> n = 0.
Proof.
  unfold is_u32, u32. intros Hx Hn E. pose proof (Z.div_mod (x + n) (2 ^ 32) ltac:(lia)) as D.
  pose proof (Z.mod_pos_bound (x + n) (2 ^ 32) ltac:(lia)). nia.
Qed.

(** What a commit and a restart of the log make of the header. *)
Definition committed_hdr (h h' : WalIndexHdr) : Prop :=
  iChange h' = u32 (iChange h + 1) /\ hdr_aSalt h' = hdr_aSalt h /\ hdr_mxFrame h < hdr_mxFrame h'.
Definition restarted_hdr (h h' : WalIndexHdr) : Prop :=
  iChange h' = iChange h /\ fst (hdr_aSalt h') = u32 (1 + fst (hdr_aSalt h)) /\ hdr_mxFrame h' = 0.

Definition hdr_wf (h : WalIndexHdr) : Prop := is_u32 (iChange h) /\ is_u32 (fst (hdr_aSalt h)) /\ 0 <= hdr_mxFrame h.

Fixpoint chain (l : list (WalIndexHdr * Pages)) : Prop :=
  match l with
  | [] => False
  | (h, _) :: r => hdr_wf h /\ match r with [] => True | (h0, _) :: _ => (committed_hdr h0 h \/ restarted_hdr h0 h) /\ chain r end
  end.

(** Between two headers lie [c] commits and [r] restarts. *)
Lemma chain_counts h m l : chain ((h, m) :: l) -> forall h0 m0, In (h0, m0) l ->
  exists c r, 0 <= c /\ 0 <= r /\ 1 <= c + r <= Z.of_nat (length l) /\ iChange h = u32 (iChange h0 + c) /\
    fst (hdr_aSalt h) = u32 (fst (hdr_aSalt h0) + r) /\ (r = 0 -> hdr_aSalt h = hdr_aSalt h0 /\ hdr_mxFrame h0 < hdr_mxFrame h).
Proof.
  revert h m. induction l as [|[h1 m1] l IH]; intros h m Hc h0 m0 Hin; [destruct Hin|]. destruct Hc as (Hw & Hn & Hc).
  assert (Hone : exists c r, 0 <= c /\ 0 <= r /\ c + r = 1 /\ iChange h = u32 (iChange h1 + c) /\ fst (hdr_aSalt h) = u32 (fst (hdr_aSalt h1) + r) /\
    (r = 0 -> hdr_aSalt h = hdr_aSalt h1 /\ hdr_mxFrame h1 < hdr_mxFrame h)).
  { assert (Hw1 : hdr_wf h1) by (destruct l as [|[? ?] ?]; apply Hc). destruct Hw1 as (W1 & W2 & _). destruct Hn as [(A1 & A2 & A3)|(A1 & A2 & A3)].
    - exists 1, 0. rewrite (Z.add_0_r (fst _)), (u32_id (fst _)) by exact W2. rewrite A2. repeat split; try lia; auto.
    - exists 0, 1. rewrite (Z.add_0_r (iChange _)), (u32_id (iChange h1)) by exact W1. rewrite (Z.add_comm (fst _) 1). repeat split; try lia; auto. }
  destruct Hone as (c1 & r1 & C1 & R1 & E1 & I1 & S1 & Z1). cbn [length]. destruct Hin as [[= <- <-]|Hin].
  - exists c1, r1. split; [exact C1|]. split; [exact R1|]. split; [lia|]. auto.
  - destruct (IH h1 m1 Hc h0 m0 Hin) as (c & r & C & R & E & I & S & Z). exists (c + c1), (r + r1). split; [lia|]. split; [lia|]. split; [lia|].
    split; [rewrite I1, I, u32_add_l; f_equal; lia|]. split; [rewrite S1, S, u32_add_l; f_equal; lia|].
    intros E0. destruct (Z ltac:(lia)) as [Za Zb], (Z1 ltac:(lia)) as [Zc Zd]. split; [congruence|lia].
Qed.

Lemma chain_wf l : chain l -> forall h m, In (h, m) l -> hdr_wf h.
Proof.
  induction l as [|[h1 m1] l IH]; intros Hc h m Hin; [destruct Hin|]. destruct Hc as [Hw Hc]. destruct Hin as [E|Hin]; [injection E as <- <-; exact Hw|].
  destruct l as [|[h2 m2] l]; [destruct Hin|]. exact (IH (proj2 Hc) _ _ Hin).
Qed.
Lemma chain_tail e l : chain (e :: l) -> l <> [] -> chain l.
Proof. destruct e as [h m], l as [|[h1 m1] l]; [congruence|]. intros [_ [_ H]] _. exact H. Qed.

(** A header does not come back. *)
Lemma chain_fresh h m l m0 : chain ((h, m) :: l) -> Z.of_nat (length l) < 2 ^ 32 -> ~ In (h, m0) l.
Proof.
  intros Hc Hl Hin. destruct (chain_counts h m l Hc h m0 Hin) as (c & r & C & R & E & I & S & _). destruct (chain_wf _ Hc h m (or_introl eq_refl)) as (W1 & W2 & _).
  apply u32_steps in I; [|exact W1|lia]. apply u32_steps in S; [|exact W2|lia]. lia.
Qed.
Lemma chain_pages l : chain l -> Z.of_nat (length l) < 2 ^ 32 -> forall h m m', In (h, m) l -> In (h, m') l -> m = m'.
Proof.
  induction l as [|[h1 m1] l IH]; intros Hc Hl h m m' H1 H2; [destruct H1|]. cbn [length] in Hl.
  assert (Hf : forall m0, ~ In (h1, m0) l) by (intros m0; apply (chain_fresh h1 m1); [exact Hc|lia]).
  destruct H1 as [E1|H1], H2 as [E2|H2]; [congruence|injection E1 as -> ->; now destruct (Hf m')|injection E2 as -> ->; now destruct (Hf m)|].
  apply (IH (chain_tail _ _ Hc ltac:(now intros ->)) ltac:(lia) h); assumption.
Qed.
(** Headers of one log are in the order of their frames. *)
Lemma chain_salt h m l h0 m0 : chain ((h, m) :: l) -> Z.of_nat (length l) < 2 ^ 32 -> In (h0, m0) l -> hdr_aSalt h0 = hdr_aSalt h -> hdr_mxFrame h0 < hdr_mxFrame h.
Proof.
  intros Hc Hl Hin Hs. destruct (chain_counts h m l Hc h0 m0 Hin) as (c & r & C & R & E & I & S & Z). apply Z.
  destruct (chain_wf _ Hc h0 m0 (or_intror Hin)) as (_ & W2 & _). rewrite <- Hs in S. apply u32_steps in S; [exact S|exact W2|lia].
Qed.

(** ** The invariant *)

Definition has (c : Z) (l : lock_state) : Prop := match l with Shared cs => In c cs | _ => False end.
Definition held (c i : Z) (s : Sys) : Prop := has c (locks s i).
Definition owned (c i : Z) (s : Sys) : Prop := locks s i = Exclusive c.
Definition bounded (s : Sys) : Prop := Z.of_nat (length (hist s)) < 2 ^ 32.
(** The headers of the log of now. *)
Definition version (s : Sys) (h : WalIndexHdr) (m : Pages) : Prop := In (h, m) (hist s) /\ hdr_aSalt h = hdr_aSalt (header s).
Definition new (s : Sys) (p lo hi : Z) : Z := newest (frame_page s) p lo hi.

(** A transaction with a lock on mark 0 finds its pages in the database file; one
    with a lock on another mark finds them there when they have no frame. *)
Record Reader (c : Z) (t : Trans) (s : Sys) : Prop := {
  rd_lock : 0 <= readLock t <= 4 /\ held c (WAL_READ_LOCK (readLock t)) s;
  rd_pages : exists m, In (hdr t, m) (hist s) /\ forall p d, m p = Some d ->
    readLock t = 0 \/ new s p (minFrame t) (hdr_mxFrame (hdr t)) = 0 -> db s p = d;
  rd_zero : readLock t = 0 -> hdr t = header s -> mx s <= nBackfill s;
  rd_log : 1 <= readLock t -> hdr_aSalt (hdr t) = hdr_aSalt (header s) /\ aReadMark s (readLock t) <= hdr_mxFrame (hdr t) /\ 1 <= minFrame t <= nBackfill s + 1 }.

Record Inv (s : Sys) : Prop := {
  iv_hist : exists m r, hist s = (header s, m) :: r;
  iv_chain : chain (hist s);
  iv_backfill : 0 <= nBackfill s;
  iv_write : (forall c, ~ owned c WAL_WRITE_LOCK s) -> nBackfill s <= mx s;
  iv_frames : forall h m p d, version s h m -> m p = Some d -> let f := new s p 1 (hdr_mxFrame h) in f <> 0 -> frame_data s f = d;
  iv_older : forall h m h' m' p d, version s h m -> version s h' m' -> hdr_mxFrame h <= hdr_mxFrame h' -> m' p = Some d ->
    new s p 1 (hdr_mxFrame h') <= hdr_mxFrame h -> m p = Some d;
  iv_size : forall h m p d, In (h, m) (hist s) -> m p = Some d -> p <= hdr_nPage h;
  iv_db : forall p d, current s p = Some d -> new s p 1 (mx s) <= nBackfill s -> db s p = d;
  iv_readers : forall c t, trans s c = Some t -> Reader c t s }.

Definition marks_owned (c : Z) (s : Sys) : Prop := forall i, 1 <= i <= 4 -> owned c (WAL_READ_LOCK i) s.
(** The frames after the last one of the header have the pages [ps]. *)
Fixpoint placed (s : Sys) (f : Z) (ps : list (Z * Z)) : Prop :=
  match ps with [] => True | (p, d) :: ps => frame_page s f = p /\ frame_data s f = d /\ placed s (f + 1) ps end.

(** What connection [c] needs for an access. *)
Definition Pre (c : Z) {B} (o : op B) (s : Sys) : Prop :=
  match o with
  | CommitHdr h ps => owned c WAL_WRITE_LOCK s /\ nBackfill s <= mx s /\ ps <> [] /\ placed s (mx s + 1) ps /\ iChange h = u32 (iChange (header s) + 1) /\
      hdr_aSalt h = hdr_aSalt (header s) /\ hdr_mxFrame h = mx s + Z.of_nat (length ps) /\ exists t, trans s c = Some t /\ 1 <= readLock t /\ hdr t = header s
  | RestartHdr h => owned c WAL_WRITE_LOCK s /\ marks_owned c s /\ mx s <= nBackfill s /\ restarted_hdr (header s) h /\ hdr_nPage h = hdr_nPage (header s) /\
      forall t, trans s c = Some t -> readLock t = 0
  | StoreBackfill n =>
      (owned c WAL_CKPT_LOCK s /\ owned c (WAL_READ_LOCK 0) s /\ nBackfill s <= n <= mx s /\ 0 < mx s /\
         forall p d, current s p = Some d -> new s p 1 (mx s) <= n -> db s p = d) \/
      (n = 0 /\ mx s = 0 /\ owned c WAL_WRITE_LOCK s /\ marks_owned c s)
  | StoreMark i _ => 1 <= i <= 4 /\ owned c (WAL_READ_LOCK i) s
  | UnlockShared i => forall t, trans s c = Some t -> i <> WAL_READ_LOCK (readLock t)
  | UnlockExclusive i n => in_range i n WAL_WRITE_LOCK = true -> nBackfill s <= mx s
  | Enter i h mn => header s = h -> 0 <= i <= 4 /\ held c (WAL_READ_LOCK i) s /\ (i = 0 -> mx s <= nBackfill s) /\
      (1 <= i -> aReadMark s i <= mx s /\ 1 <= mn <= nBackfill s + 1)
  | WriteFrame f _ _ => owned c WAL_WRITE_LOCK s /\ mx s < f
  | TruncateLog => owned c WAL_WRITE_LOCK s /\ mx s = 0
  | WriteDb p _ => owned c WAL_CKPT_LOCK s /\ owned c (WAL_READ_LOCK 0) s /\
      exists f, frame_page s f = p /\ nBackfill s < f <= mx s /\ forall c' t, trans s c' = Some t -> 1 <= readLock t -> f <= hdr_mxFrame (hdr t)
  | TruncateDb n => owned c WAL_CKPT_LOCK s /\ owned c (WAL_READ_LOCK 0) s /\
      (forall p d, n < p -> current s p = Some d -> nBackfill s < new s p 1 (mx s)) /\
      forall c' t m p d, trans s c' = Some t -> 1 <= readLock t -> In (hdr t, m) (hist s) -> m p = Some d -> n < p -> new s p (minFrame t) (hdr_mxFrame (hdr t)) <> 0
  | _ => True
  end.

(** The log is not restarted under the checkpoint of another connection. *)
Definition Orderly (c : Z) {B} (o : op B) (s : Sys) : Prop :=
  match o with RestartHdr _ => forall c', owned c' WAL_CKPT_LOCK s -> c' = c | _ => True end.

(** ** The newest frame of a page *)

Lemma newest_range log p lo hi : 0 <= hi -> 0 <= newest log p lo hi <= hi.
Proof. intros H. destruct (newest_is log p lo hi H) as [[-> _]|(H1 & _)]; lia. Qed.
Lemma newest_ge log p lo hi f : 0 <= hi -> 1 <= f <= hi -> lo <= f -> log f = p -> f <= newest log p lo hi.
Proof.
  intros Hhi Hf Hlo E. destruct (newest_is log p lo hi Hhi) as [[_ H]|(_ & _ & _ & H)]; [now destruct (H f Hf Hlo)|].
  destruct (Z.le_gt_cases f (newest log p lo hi)) as [|Hgt]; [assumption|]. now destruct (H f ltac:(lia)).
Qed.
Lemma newest_below log p lo hi : 0 <= hi -> 1 <= lo -> newest log p lo hi = 0 -> newest log p 1 hi < lo.
Proof.
  intros Hhi Hlo E. destruct (newest_is log p 1 hi Hhi) as [[-> _]|(H1 & _ & H3 & _)]; [lia|].
  destruct (Z.lt_ge_cases (newest log p 1 hi) lo) as [|Hge]; [assumption|]. pose proof (newest_ge log p lo hi _ Hhi H1 Hge H3). lia.
Qed.
Lemma newest_same log p hi hi' : 0 <= hi <= hi' -> newest log p 1 hi' <= hi -> newest log p 1 hi = newest log p 1 hi'.
Proof.
  intros Hhi H. apply newest_char; [lia|]. destruct (newest_is log p 1 hi' ltac:(lia)) as [[-> K]|(H1 & H2 & H3 & H4)].
  - left. split; [reflexivity|]. intros f Hf. apply K. lia.
  - right. split; [lia|]. split; [exact H2|]. split; [exact H3|]. intros f Hf. apply H4. lia.
Qed.
Lemma newest_step log p a : 0 <= a -> newest log p 1 (a + 1) = if log (a + 1) =? p then a + 1 else newest log p 1 a.
Proof.
  intros Ha. unfold newest. replace (Z.to_nat (a + 1)) with (S (Z.to_nat a)) by lia. cbn [newest_nat].
  replace (Z.of_nat (S (Z.to_nat a))) with (a + 1) by lia. replace (1 <=? a + 1) with true by (symmetry; apply Z.leb_le; lia). reflexivity.
Qed.
Lemma newest_agree log log' p lo hi : (forall f, 1 <= f <= hi -> log f = log' f) -> newest log p lo hi = newest log' p lo hi.
Proof. intros H. apply newest_ext. intros f Hf. apply H. lia. Qed.

(** The pages of a transaction are in its frames. *)
Lemma placed_put s ps : forall a m p, 0 <= a -> placed s (a + 1) ps ->
  (put_all ps m p = m p /\ new s p 1 (a + Z.of_nat (length ps)) = new s p 1 a) \/
  (a < new s p 1 (a + Z.of_nat (length ps)) /\ put_all ps m p = Some (frame_data s (new s p 1 (a + Z.of_nat (length ps))))).
Proof.
  induction ps as [|[q d] ps IH]; intros a m p Ha Hp; [left; cbn [length]; now rewrite Z.add_0_r|]. destruct Hp as (P1 & P2 & Hp).
  change (put_all ((q, d) :: ps) m) with (put_all ps (fun x => if x =? q then Some d else m x)). cbn [length].
  replace (a + Z.of_nat (S (length ps))) with (a + 1 + Z.of_nat (length ps)) by lia.
  destruct (IH (a + 1) (fun x => if x =? q then Some d else m x) p ltac:(lia) Hp) as [[E1 E2]|[E1 E2]]; [|right; split; [lia|exact E2]].
  rewrite E1, E2. unfold new. rewrite newest_step, P1 by lia. rewrite (Z.eqb_sym q p). destruct (p =? q); [right|left; auto].
  split; [lia|]. now rewrite P2.
Qed.

(** ** Accesses keep the invariant *)

Lemma held_owned c c' i s : held c i s -> owned c' i s -> False.
Proof. unfold held, owned, has. intros H E. now rewrite E in H. Qed.

Section Keep.
Variables (c : Z) (s : Sys).
Hypothesis HI : Inv s.

Lemma now_version : version s (header s) (current s).
Proof. destruct (iv_hist _ HI) as (m & r & E). split; [|reflexivity]. unfold current. rewrite E. now left. Qed.
Lemma mx_pos : 0 <= mx s.
Proof. apply (chain_wf _ (iv_chain _ HI) _ _ (proj1 now_version)). Qed.
Lemma version_le h m : bounded s -> version s h m -> 0 <= hdr_mxFrame h <= mx s.
Proof.
  intros Hb [Hin Hs]. split; [apply (chain_wf _ (iv_chain _ HI) _ _ Hin)|]. destruct (iv_hist _ HI) as (m0 & r & E). pose proof (iv_chain _ HI) as Hc.
  unfold bounded in Hb. rewrite E in *. cbn [length] in Hb. destruct Hin as [[= <- _]|Hin]; [unfold mx; lia|].
  pose proof (chain_salt _ _ _ _ _ Hc ltac:(lia) Hin Hs). unfold mx. lia.
Qed.

(** Locks and ended transactions. *)
Lemma inv_locks L T : (forall c t, T c = Some t -> trans s c = Some t) ->
  (forall c t, T c = Some t -> held c (WAL_READ_LOCK (readLock t)) s -> held c (WAL_READ_LOCK (readLock t)) (set_locks L s)) ->
  ((forall c, L WAL_WRITE_LOCK <> Exclusive c) -> nBackfill s <= mx s) -> Inv (set_trans T (set_locks L s)).
Proof.
  intros HT Hh Hw. destruct HI as [H1 H2 H3 _ H5 H6 H7 H8 H9]. constructor; try assumption.
  intros c' t Ht. destruct (H9 c' t (HT _ _ Ht)) as [[R1 R1'] R2 R3 R4]. constructor; try assumption. split; [exact R1|]. now apply (Hh c' t).
Qed.

Lemma inv_mark i v : 1 <= i <= 4 -> owned c (WAL_READ_LOCK i) s -> Inv (set_marks (upd i v (aReadMark s)) s).
Proof.
  intros Hi Ho. destruct HI as [H1 H2 H3 H4 H5 H6 H7 H8 H9]. constructor; try assumption.
  intros c' t Ht. destruct (H9 c' t Ht) as [[R1 R1'] R2 R3 R4]. constructor; try assumption; [now split|].
  intros Hr. destruct (R4 Hr) as (K1 & K2 & K3). split; [exact K1|]. split; [|exact K3]. cbn [set_marks aReadMark]. unfold upd.
  destruct (Z.eqb_spec (readLock t) i) as [E|E]; [|exact K2]. rewrite E in R1'. destruct (held_owned _ _ _ _ R1' Ho).
Qed.

Lemma inv_backfill n : nBackfill s <= n <= mx s -> (forall p d, current s p = Some d -> new s p 1 (mx s) <= n -> db s p = d) -> Inv (set_backfill n s).
Proof.
  intros Hn Hd. destruct HI as [H1 H2 H3 H4 H5 H6 H7 H8 H9]. constructor; try assumption; cbn [set_backfill nBackfill]; [lia|intros _; apply Hn|].
  intros c' t Ht. destruct (H9 c' t Ht) as [R1 R2 R3 R4]. constructor; try assumption; unfold mx in *; cbn [set_backfill nBackfill header] in *.
  - intros Hr E. specialize (R3 Hr E). lia.
  - intros Hr. destruct (R4 Hr) as (K1 & K2 & K3). split; [exact K1|]. split; [exact K2|lia].
Qed.

Lemma no_reader c' t : marks_owned c s -> trans s c' = Some t -> readLock t = 0.
Proof.
  intros Hm Ht. destruct (iv_readers _ HI c' t Ht) as [[R1 R1'] _ _ _]. destruct (Z.eq_dec (readLock t) 0) as [|Hne]; [assumption|].
  destruct (held_owned _ _ _ _ R1' (Hm (readLock t) ltac:(lia))).
Qed.

Lemma inv_backfill_zero : mx s = 0 -> owned c WAL_WRITE_LOCK s -> marks_owned c s -> Inv (set_backfill 0 s).
Proof.
  intros H0 Hw Hm. pose proof (no_reader) as Hno. destruct HI as [H1 H2 H3 H4 H5 H6 H7 H8 H9]. constructor; try assumption; cbn [set_backfill nBackfill]; [lia|intros _; change (mx (set_backfill 0 s)) with (mx s); lia| |].
  - intros p d Hp _. apply (H8 p d Hp). rewrite H0. unfold new. destruct (newest_range (frame_page s) p 1 0); lia.
  - intros c' t Ht. pose proof (Hno c' t Hm Ht) as Hr. destruct (H9 c' t Ht) as [R1 R2 R3 R4]. constructor; try assumption; [|intros; exfalso; lia].
    intros _ _. change (mx s <= 0). lia.
Qed.

Lemma inv_log x y : bounded s -> (forall f, 1 <= f <= mx s -> x f = frame_page s f /\ y f = frame_data s f) -> Inv (set_frames x y s).
Proof.
  intros Hb Hxy. assert (Hnew : forall p lo hi, hi <= mx s -> new (set_frames x y s) p lo hi = new s p lo hi)
    by (intros p lo hi Hhi; apply newest_agree; intros f Hf; apply Hxy; lia).
  assert (Hv : forall h m, version s h m -> 0 <= hdr_mxFrame h <= mx s) by (intros h m; now apply version_le).
  destruct HI as [H1 H2 H3 H4 H5 H6 H7 H8 H9]. constructor; try assumption.
  - intros h m p d V Hp f. unfold f. rewrite Hnew by (apply (Hv h m V)). cbn [set_frames frame_data]. intros Hf. pose proof (newest_range (frame_page s) p 1 (hdr_mxFrame h)) as Hr.
    destruct (Hv h m V) as [V1 V2]. specialize (Hr V1). change (newest _ _ _ _) with (new s p 1 (hdr_mxFrame h)) in Hr.
    rewrite (proj2 (Hxy (new s p 1 (hdr_mxFrame h)) ltac:(lia))). exact (H5 h m p d V Hp Hf).
  - intros h m h' m' p d V V' Hle Hp. rewrite Hnew by (apply (Hv h' m' V')). exact (H6 h m h' m' p d V V' Hle Hp).
  - intros p d Hp. change (mx (set_frames x y s)) with (mx s). rewrite Hnew by lia. now apply H8.
  - intros c' t Ht. destruct (H9 c' t Ht) as [R1 (m & Rm & Rp) R3 R4]. constructor; try assumption. exists m. split; [exact Rm|]. intros p d Hp Hor.
    destruct (Z.eq_dec (readLock t) 0) as [Hr|Hr]; [apply (Rp p d Hp); now left|]. destruct Hor as [Hz|Hz]; [contradiction|]. apply (Rp p d Hp). right. rewrite Hnew in Hz; [exact Hz|].
    apply (Hv (hdr t) m). split; [exact Rm|]. apply R4. lia.
Qed.

Lemma inv_db y : owned c (WAL_READ_LOCK 0) s ->
  (forall q, y q = db s q \/ (forall d, current s q = Some d -> nBackfill s < new s q 1 (mx s)) /\
     forall c' t m d, trans s c' = Some t -> 1 <= readLock t -> In (hdr t, m) (hist s) -> m q = Some d -> new s q (minFrame t) (hdr_mxFrame (hdr t)) <> 0) ->
  Inv (set_db y s).
Proof.
  intros Ho Hy. destruct HI as [H1 H2 H3 H4 H5 H6 H7 H8 H9]. constructor; try assumption.
  - intros p d Hp Hn. cbn [set_db db]. destruct (Hy p) as [->|[K _]]; [now apply H8|]. specialize (K d Hp). unfold mx, new in *. cbn [set_db header frame_page nBackfill] in Hn. lia.
  - intros c' t Ht. destruct (H9 c' t Ht) as [[R1 R1'] (m & Rm & Rp) R3 R4]. constructor; try assumption; [now split|]. exists m. split; [exact Rm|]. intros p d Hp Hz. cbn [set_db db].
    assert (Hr : 1 <= readLock t).
    { destruct (Z.eq_dec (readLock t) 0) as [E|]; [|lia]. rewrite E in R1'. destruct (held_owned _ _ _ _ R1' Ho). }
    destruct (Hy p) as [->|[_ K]]; [now apply Rp|]. destruct Hz as [Hz|Hz]; [lia|]. now destruct (K c' t m d Ht Hr Rm Hp).
Qed.

(** A commit. *)
Lemma inv_commit h ps t : bounded (set_header h (cut (hdr_nPage h) (put_all ps (current s))) s) -> owned c WAL_WRITE_LOCK s -> nBackfill s <= mx s -> ps <> [] ->
  placed s (mx s + 1) ps -> iChange h = u32 (iChange (header s) + 1) -> hdr_aSalt h = hdr_aSalt (header s) -> hdr_mxFrame h = mx s + Z.of_nat (length ps) ->
  trans s c = Some t -> 1 <= readLock t -> hdr t = header s ->
  Inv (set_trans (upd c (Some {| readLock := readLock t; hdr := h; minFrame := minFrame t |}) (trans s)) (set_header h (cut (hdr_nPage h) (put_all ps (current s))) s)).
Proof.
  set (m' := cut (hdr_nPage h) (put_all ps (current s))). intros Hb Ho Hnb Hne Hpl Hch Hsalt Hmx Ht Hr Et.
  assert (Hbs : bounded s) by (unfold bounded in *; cbn [set_header hist length] in Hb; lia).
  assert (Hgt : mx s < hdr_mxFrame h) by (rewrite Hmx; destruct ps; [congruence|cbn [length]; lia]). pose proof mx_pos as Hpos.
  pose proof now_version as [Hcur _]. pose proof (chain_wf _ (iv_chain _ HI) _ _ Hcur) as (W1 & W2 & W3).
  assert (Hchain : chain ((h, m') :: hist s)).
  { split; [split; [rewrite Hch; apply Z.mod_pos_bound; lia|]; split; [now rewrite Hsalt|lia]|]. destruct (iv_hist _ HI) as (m & r & E). pose proof (iv_chain _ HI) as Hc.
    rewrite E in Hc |- *. split; [left; split; [exact Hch|split; [exact Hsalt|exact Hgt]]|exact Hc]. }
  assert (Hfresh : forall m0, ~ In (h, m0) (hist s)) by (intros m0; apply (chain_fresh h m'); [exact Hchain|exact Hbs]).
  assert (Hput : forall p d, m' p = Some d -> let f := new s p 1 (hdr_mxFrame h) in
    (f <= mx s /\ current s p = Some d /\ new s p 1 (mx s) = f) \/ (mx s < f /\ frame_data s f = d)).
  { intros p d Hp f. unfold m', cut in Hp. destruct (p <=? _); [|discriminate]. unfold f. rewrite Hmx.
    destruct (placed_put s ps (mx s) (current s) p Hpos Hpl) as [[E1 E2]|[E1 E2]]; [left|right; split; [exact E1|congruence]].
    rewrite E2. split; [apply (proj2 (newest_range (frame_page s) p 1 (mx s) Hpos))|]. split; [now rewrite <- E1|reflexivity]. }
  assert (Hold : forall h0 m0, version s h0 m0 -> 0 <= hdr_mxFrame h0 <= mx s) by (intros h0 m0; now apply version_le).
  assert (Hin' : forall h0 m0, In (h0, m0) ((h, m') :: hist s) -> hdr_aSalt h0 = hdr_aSalt h -> (h0 = h /\ m0 = m') \/ version s h0 m0).
  { intros h0 m0 [E|Hin] Hs; [left; injection E as <- <-; split; reflexivity|right]. split; [exact Hin|]. rewrite Hs. exact Hsalt. }
  assert (Hdb : forall p d, m' p = Some d -> new s p 1 (hdr_mxFrame h) <= nBackfill s -> db s p = d).
  { intros p d Hp Hn. destruct (Hput p d Hp) as [(_ & K2 & K3)|[K _]]; [|lia]. apply (iv_db _ HI p d K2). lia. }
  constructor; try assumption.
  - exists m', (hist s). reflexivity.
  - exact (iv_backfill _ HI).
  - intros Hno. now destruct (Hno c).
  - intros h0 m0 p d [V Vs] Hp f Hf. destruct (Hin' h0 m0 V Vs) as [[-> ->]|V0]; [|exact (iv_frames _ HI h0 m0 p d V0 Hp Hf)].
    destruct (Hput p d Hp) as [(K1 & K2 & K3)|[_ K]]; [|exact K]. change (frame_data s (new s p 1 (hdr_mxFrame h)) = d). cbv zeta in K3.
    rewrite <- K3. apply (iv_frames _ HI (header s) (current s) p d now_version K2). fold (mx s). rewrite K3. exact Hf.
  - intros h1 m1 h2 m2 p d [V1 S1] [V2 S2] Hle Hp Hn. destruct (Hin' h2 m2 V2 S2) as [[-> ->]|V2'].
    + destruct (Hin' h1 m1 V1 S1) as [[_ ->]|V1']; [exact Hp|]. destruct (Hput p d Hp) as [(K1 & K2 & K3)|[K _]]; [|pose proof (Hold _ _ V1'); unfold new in *; cbn in Hn; lia].
      refine (iv_older _ HI h1 m1 (header s) (current s) p d V1' now_version _ K2 _); [apply (Hold _ _ V1')|]. fold (mx s). rewrite K3. exact Hn.
    + destruct (Hin' h1 m1 V1 S1) as [[-> ->]|V1']; [pose proof (Hold _ _ V2'); lia|]. exact (iv_older _ HI h1 m1 h2 m2 p d V1' V2' Hle Hp Hn).
  - intros h0 m0 p d [E|Hin] Hp; [injection E as <- <-|exact (iv_size _ HI h0 m0 p d Hin Hp)]. unfold m', cut in Hp. destruct (Z.leb_spec p (hdr_nPage h)); [assumption|discriminate].
  - intros c' t' Ht'. cbn [set_trans trans] in Ht'. unfold upd in Ht'. destruct (Z.eqb_spec c' c) as [->|Hc].
    + injection Ht' as <-. destruct (iv_readers _ HI c t Ht) as [R1 R2 R3 R4]. destruct (R4 Hr) as (K1 & K2 & K3). constructor; cbn [readLock hdr minFrame].
      * exact R1.
      * exists m'. split; [now left|]. intros p d Hp [Hz|Hz]; [lia|]. apply (Hdb p d Hp).
        pose proof (newest_below (frame_page s) p (minFrame t) (hdr_mxFrame h) ltac:(lia) ltac:(lia) Hz). unfold new. lia.
      * lia.
      * intros _. split; [reflexivity|]. split; [|exact K3]. cbn. rewrite Et in K2. unfold mx in Hgt. lia.
    + destruct (iv_readers _ HI c' t' Ht') as [R1 (m & Rm & Rp) R3 R4]. constructor.
      * exact R1.
      * exists m. split; [now right|exact Rp].
      * intros _ E. cbn in E. rewrite E in Rm. destruct (Hfresh m Rm).
      * intros Hr'. destruct (R4 Hr') as (K1 & K2 & K3). split; [cbn; congruence|]. split; [exact K2|exact K3].
Qed.

(** A restart of the log. *)
Lemma inv_restart h T : bounded (set_header h (current s) s) -> owned c WAL_WRITE_LOCK s -> marks_owned c s -> mx s <= nBackfill s ->
  restarted_hdr (header s) h -> hdr_nPage h = hdr_nPage (header s) ->
  (forall c' t, T c' = Some t -> trans s c' = Some t \/ (c' = c /\ hdr t = h /\ exists t0, trans s c = Some t0 /\ readLock t0 = readLock t)) ->
  Inv (set_trans T (set_header h (current s) s)).
Proof.
  intros Hb Ho Hm Hnb (Hch & Hsalt & Hmx) Hnp HT. assert (Hbs : bounded s) by (unfold bounded in *; cbn [set_header hist length] in Hb; lia).
  pose proof mx_pos as Hpos. pose proof now_version as [Hcur _]. pose proof (chain_wf _ (iv_chain _ HI) _ _ Hcur) as (W1 & W2 & W3).
  assert (Hchain : chain ((h, current s) :: hist s)).
  { split; [split; [now rewrite Hch|]; split; [rewrite Hsalt; apply Z.mod_pos_bound; lia|lia]|]. destruct (iv_hist _ HI) as (m & r & E). pose proof (iv_chain _ HI) as Hc.
    rewrite E in Hc |- *. split; [right; split; [exact Hch|split; [exact Hsalt|exact Hmx]]|exact Hc]. }
  assert (Hfresh : forall m0, ~ In (h, m0) (hist s)) by (intros m0; apply (chain_fresh h (current s)); [exact Hchain|exact Hbs]).
  assert (Honly : forall h0 m0, In (h0, m0) ((h, current s) :: hist s) -> hdr_aSalt h0 = hdr_aSalt h -> h0 = h /\ m0 = current s).
  { intros h0 m0 [E|Hin] Hs; [injection E as <- <-; split; reflexivity|]. pose proof (chain_salt h (current s) (hist s) h0 m0 Hchain Hbs Hin Hs).
    pose proof (chain_wf _ (iv_chain _ HI) h0 m0 Hin) as (_ & _ & W). lia. }
  assert (Hdb : forall p d, current s p = Some d -> db s p = d).
  { intros p d Hp. apply (iv_db _ HI p d Hp). unfold new. destruct (newest_range (frame_page s) p 1 (mx s) Hpos). lia. }
  assert (H0 : mx (set_trans T (set_header h (current s) s)) = 0) by exact Hmx.
  constructor; try assumption.
  - exists (current s), (hist s). reflexivity.
  - exact (iv_backfill _ HI).
  - intros Hno. now destruct (Hno c).
  - intros h0 m0 p d [V Vs] Hp f Hf. destruct (Honly h0 m0 V Vs) as [-> ->]. exfalso. apply Hf. unfold f, new. rewrite Hmx. change (newest (frame_page s) p 1 0 = 0).
    destruct (newest_range (frame_page s) p 1 0); lia.
  - intros h1 m1 h2 m2 p d [V1 S1] [V2 S2] _ Hp _. destruct (Honly h1 m1 V1 S1) as [-> ->], (Honly h2 m2 V2 S2) as [-> ->]. exact Hp.
  - intros h0 m0 p d [E|Hin] Hp; [injection E as <- <-|exact (iv_size _ HI h0 m0 p d Hin Hp)]. rewrite Hnp. exact (iv_size _ HI _ _ p d Hcur Hp).
  - intros p d Hp _. exact (Hdb p d Hp).
  - intros c' t Ht. cbn [set_trans trans] in Ht. destruct (HT c' t Ht) as [Ht0|(-> & Eh & t0 & Ht0 & Er)].
    + pose proof (no_reader c' t Hm Ht0) as Hr. destruct (iv_readers _ HI c' t Ht0) as [R1 (m & Rm & Rp) R3 R4]. constructor.
      * exact R1.
      * exists m. split; [now right|exact Rp].
      * intros _ E. cbn in E. rewrite E in Rm. destruct (Hfresh m Rm).
      * lia.
    + pose proof (no_reader c t0 Hm Ht0) as Hr. destruct (iv_readers _ HI c t0 Ht0) as [R1 _ _ _]. rewrite Er in *. constructor.
      * exact R1.
      * exists (current s). split; [left; now rewrite Eh|]. intros p d Hp _. exact (Hdb p d Hp).
      * intros _ _. rewrite H0. apply (iv_backfill _ HI).
      * lia.
Qed.
End Keep.

Lemma is_in_spec c cs : is_in c cs = true <-> In c cs.
Proof. unfold is_in. rewrite existsb_exists. split; [intros (x & H & E); apply Z.eqb_eq in E; now subst|intros H; exists c; split; [exact H|apply Z.eqb_refl]]. Qed.
Lemma has_shared c c' l l' : lock_shared c l = Some l' -> (has c' l' <-> has c' l \/ c' = c) /\ (forall x, l <> Exclusive x) /\ forall x, l' <> Exclusive x.
Proof.
  destruct l as [|cs|x]; cbn [lock_shared]; [intros [= <-]|intros [= <-]|discriminate]; (split; [|split; discriminate]); cbn [has].
  - cbn [In]. split; [intros [->|[]]; now right|intros [[]| ->]; now left].
  - destruct (is_in c cs) eqn:E; [apply is_in_spec in E|]; cbn [In].
    + split; [now left|intros [H| ->]; assumption].
    + split; [intros [->|H]; auto|intros [H| ->]; auto].
Qed.
Lemma has_unlock_shared c c' l : (has c' (unlock_shared c l) <-> has c' l /\ c' <> c) /\ forall x, unlock_shared c l = Exclusive x <-> l = Exclusive x.
Proof.
  destruct l as [|cs|y]; cbn [unlock_shared has]; [split; [tauto|reflexivity]| |split; [tauto|reflexivity]].
  assert (Hf : forall z, In z (filter (fun x => negb (x =? c)) cs) <-> In z cs /\ z <> c) by (intros z; rewrite filter_In, negb_true_iff, Z.eqb_neq; reflexivity).
  destruct (filter _ cs) as [|z zs]; (split; [rewrite <- Hf; reflexivity|split; discriminate]).
Qed.
Lemma has_unlock_exclusive c c' l : (has c' (unlock_exclusive c l) <-> has c' l) /\ forall x, unlock_exclusive c l = Exclusive x <-> l = Exclusive x /\ x <> c.
Proof.
  destruct l as [|cs|y]; cbn [unlock_exclusive]; try (split; [reflexivity|intros x; split; [discriminate|intros [H _]; discriminate]]).
  destruct (Z.eqb_spec y c) as [->|Hne]; (split; [reflexivity|]); intros x; split; try discriminate.
  - intros [[= <-] H]. now destruct H.
  - intros [= <-]. auto.
  - now intros [H _].
Qed.

Lemma in_range_spec i n j : in_range i n j = true <-> i <= j < i + n.
Proof. unfold in_range. rewrite andb_true_iff, Z.leb_le, Z.ltb_lt. reflexivity. Qed.
Lemma range_free i n (L : Z -> lock_state) : forallb (fun j => is_free (L j)) (range i n) = true -> forall j, in_range i n j = true -> L j = Free.
Proof.
  intros H j Hj. apply in_range_spec in Hj. rewrite forallb_forall in H. specialize (H j). destruct (L j); [reflexivity| |]; exfalso; apply Bool.diff_false_true, H;
    unfold range; apply in_map_iff; exists (Z.to_nat (j - i)); (split; [lia|apply in_seq; lia]).
Qed.

(** A shared lock is given back. *)
Lemma inv_unlock c s i T : Inv s -> (forall c' t, T c' = Some t -> trans s c' = Some t) -> (forall t, T c = Some t -> i <> WAL_READ_LOCK (readLock t)) ->
  Inv (set_trans T (set_locks (upd i (unlock_shared c (locks s i)) (locks s)) s)).
Proof.
  intros HI HT Hc. apply (inv_locks s HI); [exact HT| |].
  - intros c' t Ht Hh. unfold held in *. cbn [set_locks locks]. unfold upd. destruct (Z.eqb_spec (WAL_READ_LOCK (readLock t)) i) as [Ei|]; [|exact Hh].
    apply has_unlock_shared. rewrite <- Ei. split; [exact Hh|]. intros ->. now destruct (Hc t Ht).
  - intros Hno. apply (iv_write _ HI). intros c' Ho. unfold upd in Hno. destruct (Z.eqb_spec WAL_WRITE_LOCK i) as [Ei|]; [|exact (Hno c' Ho)].
    apply (Hno c'). apply (proj2 (has_unlock_shared c 0 _)). unfold owned in Ho. now rewrite Ei in Ho.
Qed.

(** A read transaction is begun. *)
Lemma inv_enter c s i mn : Inv s -> Pre c (Enter i (header s) mn) s -> Inv (set_trans (upd c (Some {| readLock := i; hdr := header s; minFrame := mn |}) (trans s)) s).
Proof.
  intros HI HP. destruct (HP eq_refl) as (P1 & P2 & P3 & P4). pose proof (now_version s HI) as HV. pose proof (mx_pos s HI) as Hpos.
  destruct HI as [H1 H2 H3 H4 H5 H6 H7 H8 H9]. constructor; try assumption. intros c' t Ht. cbn [set_trans trans] in Ht. unfold upd in Ht.
  destruct (Z.eqb_spec c' c) as [->|]; [|destruct (H9 c' t Ht) as [R1 R2 R3 R4]; now constructor]. injection Ht as <-. constructor; cbn [readLock hdr minFrame].
  - auto.
  - exists (current s). split; [apply HV|]. intros p d Hp Hz. apply (H8 p d Hp). destruct (Z.eq_dec i 0) as [Hi|Hi].
    + pose proof (newest_range (frame_page s) p 1 (mx s) Hpos). unfold new. specialize (P3 Hi). lia.
    + destruct Hz as [Hz|Hz]; [contradiction|]. destruct (P4 ltac:(lia)) as [_ Hm]. pose proof (newest_below (frame_page s) p mn (mx s) Hpos ltac:(lia) Hz). unfold new. lia.
  - intros Hi _. exact (P3 Hi).
  - intros Hi. split; [reflexivity|]. exact (P4 Hi).
Qed.

(** A page is copied that all readers find in the log. *)
Lemma inv_copy c s p d : Inv s -> Pre c (WriteDb p d) s -> Inv (set_db (upd p d (db s)) s).
Proof.
  intros HI (P1 & P2 & f & P3 & P4 & P5). apply (inv_db c); [exact HI|exact P2|]. pose proof (mx_pos s HI) as Hpos. pose proof (iv_backfill _ HI).
  intros q. unfold upd. destruct (Z.eqb_spec q p) as [->|]; [right|now left]. split.
  - intros _ _. pose proof (newest_ge (frame_page s) p 1 (mx s) f Hpos ltac:(lia) ltac:(lia) P3). unfold new. lia.
  - intros c' t m d' Ht Hr _ _ Hz. destruct (rd_log _ _ _ (iv_readers _ HI c' t Ht) Hr) as (_ & _ & Hm). pose proof (P5 c' t Ht Hr) as Hle.
    pose proof (newest_ge (frame_page s) p (minFrame t) (hdr_mxFrame (hdr t)) f ltac:(lia) ltac:(lia) ltac:(lia) P3). unfold new in Hz. lia.
Qed.

Lemma exec_inv c env B (o : op B) s x s' : Inv s -> bounded s' -> Pre c o s -> exec c env o s = (x, s') -> Inv s'.
Proof.
  intros HI Hb HP E. destruct o; cbn [exec Pre] in *; try (injection E as <- <-; exact HI).
  - injection E as <- <-. destruct HP as (P1 & P2 & P3 & P4 & P5 & P6 & P7 & t & P8 & P9 & P10). unfold set_snapshot in *. cbn [set_header trans] in *. rewrite P8 in *.
    apply (inv_commit c); assumption.
  - injection E as <- <-. destruct HP as (P1 & P2 & P3 & P4 & P5 & P6). unfold set_snapshot in *. cbn [set_header trans] in *. destruct (trans s c) as [t|] eqn:Et.
    + apply (inv_restart c); try assumption. intros c' t' Ht'. unfold upd in Ht'. destruct (Z.eqb_spec c' c) as [->|]; [|now left]. injection Ht' as <-.
      right. split; [reflexivity|]. split; [reflexivity|]. exists t. split; [exact Et|reflexivity].
    + apply (inv_restart c s HI h (trans s)); try assumption. now left.
  - injection E as <- <-. destruct HP as [(P1 & P2 & P3 & P4 & P5)|(-> & P2 & P3 & P4)]; [now apply inv_backfill|now apply (inv_backfill_zero c)].
  - injection E as <- <-. destruct HP as [P1 P2]. now apply (inv_mark c).
  - destruct (negb (env =? 0)); [injection E as <- <-; exact HI|]. destruct (lock_shared c (locks s i)) as [l|] eqn:El; [|injection E as <- <-; exact HI]. injection E as <- <-.
    apply (inv_locks s HI _ (trans s)); [auto| |].
    + intros c' t _ Hh. unfold held in *. cbn [set_locks locks]. unfold upd. destruct (Z.eqb_spec (WAL_READ_LOCK (readLock t)) i) as [Ei|]; [|exact Hh].
      rewrite Ei in Hh. apply (has_shared _ c' _ _ El). now left.
    + intros Hno. apply (iv_write _ HI). intros c' Ho. unfold upd in Hno. destruct (Z.eqb_spec WAL_WRITE_LOCK i) as [Ei|]; [|exact (Hno c' Ho)].
      apply (proj1 (proj2 (has_shared _ c' _ _ El)) c'). rewrite <- Ei. exact Ho.
  - injection E as <- <-. apply (inv_unlock c s i (trans s)); auto.
  - destruct (negb (env =? 0)); [injection E as <- <-; exact HI|]. destruct (forallb _ _) eqn:Ef; [|injection E as <- <-; exact HI]. injection E as <- <-.
    pose proof (range_free _ _ _ Ef) as Hfree. apply (inv_locks s HI _ (trans s)); [auto| |].
    + intros c' t _ Hh. unfold held in *. cbn [set_locks locks]. destruct (in_range _ _ _) eqn:Ei; [|exact Hh]. now rewrite (Hfree _ Ei) in Hh.
    + intros Hno. apply (iv_write _ HI). intros c' Ho. destruct (in_range i n WAL_WRITE_LOCK) eqn:Ei; [now destruct (Hno c)|exact (Hno c' Ho)].
  - injection E as <- <-. apply (inv_locks s HI _ (trans s)); [auto| |].
    + intros c' t _ Hh. unfold held in *. cbn [set_locks locks]. destruct (in_range i n (WAL_READ_LOCK (readLock t))); [now apply has_unlock_exclusive|exact Hh].
    + intros Hno. destruct (in_range i n WAL_WRITE_LOCK) eqn:Ei; [now apply HP|]. now apply (iv_write _ HI).
  - destruct (hdr_eqb (header s) h) eqn:Eh; injection E as <- <-; [|exact HI]. apply hdr_eqb_eq in Eh. subst h. now apply inv_enter.
  - destruct (trans s c) as [t|] eqn:Et; injection E as <- <-; [|exact HI]. apply inv_unlock; [exact HI| |].
    + intros c' t' Ht'. unfold upd in Ht'. destruct (c' =? c); [discriminate|exact Ht'].
    + unfold upd. rewrite Z.eqb_refl. discriminate.
  - injection E as <- <-. destruct HP as [P1 P2]. apply inv_log; [exact HI|exact Hb|]. intros g Hg. unfold upd. replace (g =? f) with false by (symmetry; apply Z.eqb_neq; lia). auto.
  - injection E as <- <-. destruct HP as [P1 P2]. apply inv_log; [exact HI|exact Hb|]. lia.
  - injection E as <- <-. now apply (inv_copy c).
  - injection E as <- <-. destruct HP as (P1 & P2 & P3 & P4). apply (inv_db c); [exact HI|exact P2|]. intros q. destruct (Z.leb_spec q n) as [|Hq]; [now left|right]. split.
    + intros d. now apply P3.
    + intros c' t m d Ht Hr Hm Hd. now apply (P4 c' t m q d).
Qed.

(** ** What a connection knows of the accesses of others *)

Record Rely (c : Z) (s s' : Sys) : Prop := {
  re_hist : (header s' = header s /\ hist s' = hist s) \/ exists m, hist s' = (header s', m) :: hist s;
  re_trans : trans s' c = trans s c;
  re_owned : forall i, owned c i s -> owned c i s';
  re_held : forall i, held c i s -> held c i s';
  re_write : owned c WAL_WRITE_LOCK s -> header s' = header s /\ (forall f, frame_page s' f = frame_page s f /\ frame_data s' f = frame_data s f) /\
    nBackfill s <= nBackfill s' /\ (nBackfill s <= mx s -> nBackfill s' <= mx s');
  re_ckpt : owned c WAL_CKPT_LOCK s -> hdr_aSalt (header s') = hdr_aSalt (header s) /\ (0 < mx s -> nBackfill s' = nBackfill s);
  re_frames : forall f, 1 <= f <= mx s -> frame_page s' f = frame_page s f /\ frame_data s' f = frame_data s f;
  re_mark : forall i, 1 <= i <= 4 -> held c (WAL_READ_LOCK i) s \/ owned c (WAL_READ_LOCK i) s -> aReadMark s' i = aReadMark s i;
  re_db : owned c (WAL_READ_LOCK 0) s -> forall p, db s' p = db s p;
  re_shared : forall i, 1 <= i <= 4 -> held c (WAL_READ_LOCK i) s -> hdr_aSalt (header s') = hdr_aSalt (header s) /\ nBackfill s <= nBackfill s';
  re_zero : header s' = header s -> mx s <= nBackfill s -> mx s' <= nBackfill s';
  re_readers : forall c' t, trans s' c' = Some t -> trans s c' = Some t \/ hdr t = header s' }.

Lemma owned_same c c' i s : owned c i s -> owned c' i s -> c = c'.
Proof. unfold owned. intros -> [= <-]. reflexivity. Qed.

(** Changes of other things than the header and [nBackfill]. *)
Lemma rely_change c s s' : header s' = header s -> hist s' = hist s -> nBackfill s' = nBackfill s -> trans s' c = trans s c ->
  (forall i, owned c i s -> owned c i s') -> (forall i, held c i s -> held c i s') ->
  (forall f, owned c WAL_WRITE_LOCK s \/ 1 <= f <= mx s -> frame_page s' f = frame_page s f /\ frame_data s' f = frame_data s f) ->
  (forall i, held c (WAL_READ_LOCK i) s \/ owned c (WAL_READ_LOCK i) s -> aReadMark s' i = aReadMark s i) ->
  (owned c (WAL_READ_LOCK 0) s -> forall p, db s' p = db s p) ->
  (forall c' t, trans s' c' = Some t -> trans s c' = Some t \/ hdr t = header s') -> Rely c s s'.
Proof.
  intros H1 H2 H3 H4 H5 H6 H7 H8 H9 H10. unfold mx in *. constructor; unfold mx; rewrite ?H1, ?H3; try assumption.
  - left. split; reflexivity || assumption.
  - intros Ho. split; [reflexivity|]. split; [intros f; apply H7; now left|]. split; [apply Z.le_refl|auto].
  - intros _. split; reflexivity.
  - intros f Hf. apply H7. now right.
  - intros i _. apply H8.
  - intros i _ _. split; [reflexivity|apply Z.le_refl].
  - auto.
  - rewrite <- H1. exact H10.
Qed.
Lemma rely_refl c s : Rely c s s.
Proof. apply rely_change; auto. Qed.
Lemma rely_locks c s L T : (forall i, owned c i s -> L i = Exclusive c) -> (forall i, held c i s -> has c (L i)) -> T c = trans s c ->
  (forall c' t, T c' = Some t -> trans s c' = Some t \/ hdr t = header s) -> Rely c s (set_trans T (set_locks L s)).
Proof. intros Ho Hh Hc HT. apply rely_change; auto. Qed.

Section Others.
Variables (c c0 : Z) (s : Sys).
Hypothesis Hne : c <> c0.
Hypothesis HI : Inv s.

Lemma not_both i : owned c i s -> owned c0 i s -> False.
Proof. intros H1 H2. now destruct (Hne (owned_same _ _ _ _ H1 H2)). Qed.
Lemma upd_else A (a : A) f : upd c0 a f c = f c.
Proof. unfold upd. now rewrite (proj2 (Z.eqb_neq c c0) Hne). Qed.
Lemma upd_trans h c' t t0 : upd c0 (Some t) (trans s) c' = Some t0 -> hdr t = h -> trans s c' = Some t0 \/ hdr t0 = h.
Proof. unfold upd. destruct (c' =? c0); [intros [= <-]; now right|now left]. Qed.

Lemma rely_commit h m t : owned c0 WAL_WRITE_LOCK s -> nBackfill s <= mx s -> hdr_aSalt h = hdr_aSalt (header s) -> mx s < hdr_mxFrame h -> hdr t = h ->
  Rely c s (set_trans (upd c0 (Some t) (trans s)) (set_header h m s)).
Proof.
  intros P1 P2 P3 P4 P5. constructor; try (intros; split; reflexivity); try (intros; assumption); try reflexivity.
  - right. eexists. reflexivity.
  - apply upd_else.
  - intros Ho. destruct (not_both _ Ho P1).
  - intros _. split; [exact P3|reflexivity].
  - intros i _ _. split; [exact P3|apply Z.le_refl].
  - intros E _. cbn in E. unfold mx in P4. rewrite E in P4. lia.
  - intros c' t0 Ht. now apply (upd_trans h c' t).
Qed.

Lemma rely_restart h m T : owned c0 WAL_WRITE_LOCK s -> marks_owned c0 s -> hdr_mxFrame h = 0 -> (forall c', owned c' WAL_CKPT_LOCK s -> c' = c0) ->
  T c = trans s c -> (forall c' t, T c' = Some t -> trans s c' = Some t \/ hdr t = h) -> Rely c s (set_trans T (set_header h m s)).
Proof.
  intros P1 P2 P3 P4 HT1 HT2. constructor; try (intros; split; reflexivity); try (intros; assumption); try reflexivity; try assumption.
  - right. eexists. reflexivity.
  - intros Ho. destruct (not_both _ Ho P1).
  - intros Ho. now destruct (Hne (P4 _ Ho)).
  - intros i Hi Hh. destruct (held_owned _ _ _ _ Hh (P2 i Hi)).
  - intros _ _. change (hdr_mxFrame h <= nBackfill s). rewrite P3. apply (iv_backfill _ HI).
Qed.

Lemma rely_backfill n : Pre c0 (StoreBackfill n) s -> Rely c s (set_backfill n s).
Proof.
  intros HP. constructor; try (intros; split; reflexivity); try (intros; assumption); try reflexivity; try (now left).
  - intros Ho. destruct HP as [(P1 & P2 & P3 & P4 & P5)|(-> & P2 & P3 & P4)]; [|destruct (not_both _ Ho P3)]. split; [reflexivity|]. split; [split; reflexivity|].
    split; [apply P3|intros _; apply P3].
  - intros Ho. destruct HP as [(P1 & _)|(-> & P2 & P3 & P4)]; [destruct (not_both _ Ho P1)|]. split; [reflexivity|]. lia.
  - intros i Hi Hh. destruct HP as [(P1 & P2 & P3 & P4 & P5)|(-> & P2 & P3 & P4)]; [split; [reflexivity|apply P3]|destruct (held_owned _ _ _ _ Hh (P4 i Hi))].
  - intros _ Hle. change (mx s <= n). destruct HP as [(P1 & P2 & P3 & P4 & P5)|(-> & P2 & P3 & P4)]; lia.
Qed.

Lemma exec_rely env B (o : op B) x s' : Pre c0 o s -> Orderly c0 o s -> exec c0 env o s = (x, s') -> Rely c s s'.
Proof.
  intros HP HO E. destruct o; cbn [exec Pre Orderly] in *; try (injection E as <- <-; apply rely_refl).
  - injection E as <- <-. destruct HP as (P1 & P2 & P3 & _ & _ & P6 & P7 & t & P8 & _). unfold set_snapshot. cbn [set_header trans]. rewrite P8.
    apply rely_commit; try assumption; [|reflexivity]. rewrite P7. destruct ps; [congruence|cbn [length]; lia].
  - injection E as <- <-. destruct HP as (P1 & P2 & P3 & (_ & _ & P4) & P5 & P6). unfold set_snapshot. cbn [set_header trans]. destruct (trans s c0) as [t|] eqn:Et.
    + apply rely_restart; try assumption; [apply upd_else|]. intros c' t0 Ht. exact (upd_trans h c' _ t0 Ht eq_refl).
    + apply (rely_restart h _ (trans s)); try assumption; [reflexivity|]. intros c' t Ht. now left.
  - injection E as <- <-. now apply rely_backfill.
  - injection E as <- <-. destruct HP as [P1 P2]. apply rely_change; auto. intros j Hor. cbn [set_marks aReadMark]. unfold upd. destruct (Z.eqb_spec j i) as [->|]; [|reflexivity].
    destruct Hor as [Hh|Ho]; [destruct (held_owned _ _ _ _ Hh P2)|destruct (not_both _ Ho P2)].
  - destruct (negb (env =? 0)); [injection E as <- <-; apply rely_refl|]. destruct (lock_shared c0 (locks s i)) as [l|] eqn:El; injection E as <- <-; [|apply rely_refl].
    destruct (has_shared _ c _ _ El) as (K1 & K2 & K3). apply (rely_locks c s _ (trans s)); auto; intros j Hj; unfold upd; destruct (Z.eqb_spec j i) as [->|];
      [destruct (K2 c Hj)|exact Hj|apply K1; now left|exact Hj].
  - injection E as <- <-. destruct (has_unlock_shared c0 c (locks s i)) as [K1 K2]. apply (rely_locks c s _ (trans s)); auto; intros j Hj; unfold upd; destruct (Z.eqb_spec j i) as [->|];
      [apply K2, Hj|exact Hj|apply K1; auto|exact Hj].
  - destruct (negb (env =? 0)); [injection E as <- <-; apply rely_refl|]. destruct (forallb _ _) eqn:Ef; injection E as <- <-; [|apply rely_refl].
    pose proof (range_free _ _ _ Ef) as Hfree. apply (rely_locks c s _ (trans s)); auto; intros j Hj; destruct (in_range i n j) eqn:Ei; try exact Hj;
      unfold owned, held in Hj; now rewrite (Hfree j Ei) in Hj.
  - injection E as <- <-. apply (rely_locks c s _ (trans s)); auto; intros j Hj; destruct (in_range i n j); try exact Hj; [|now apply has_unlock_exclusive].
    apply (proj2 (has_unlock_exclusive c0 c _)). auto.
  - destruct (hdr_eqb (header s) h) eqn:Eh; injection E as <- <-; [|apply rely_refl]. apply hdr_eqb_eq in Eh.
    apply (rely_locks c s (locks s)); [auto|auto|apply upd_else|]. intros c' t0 Ht. apply (upd_trans _ c' _ t0 Ht). now symmetry.
  - destruct (trans s c0) as [t|] eqn:Et; injection E as <- <-; [|apply rely_refl]. destruct (has_unlock_shared c0 c (locks s (WAL_READ_LOCK (readLock t)))) as [K1 K2].
    apply rely_locks; [| |apply upd_else|].
    + intros j Ho. unfold upd. destruct (Z.eqb_spec j (WAL_READ_LOCK (readLock t))) as [->|]; [apply K2, Ho|exact Ho].
    + intros j Hh. unfold upd. destruct (Z.eqb_spec j (WAL_READ_LOCK (readLock t))) as [->|]; [apply K1; auto|exact Hh].
    + intros c' t' Ht'. unfold upd in Ht'. destruct (c' =? c0); [discriminate|now left].
  - injection E as <- <-. destruct HP as [P1 P2]. apply rely_change; auto. intros g [Ho|Hg]; [destruct (not_both _ Ho P1)|]. cbn [set_frames frame_page frame_data]. unfold upd.
    replace (g =? f) with false by (symmetry; apply Z.eqb_neq; lia). auto.
  - injection E as <- <-. destruct HP as [P1 P2]. apply rely_change; auto. intros g [Ho|Hg]; [destruct (not_both _ Ho P1)|lia].
  - injection E as <- <-. destruct HP as (_ & P2 & _). apply rely_change; auto. intros Ho. destruct (not_both _ Ho P2).
  - injection E as <- <-. destruct HP as (_ & P2 & _). apply rely_change; auto. intros Ho. destruct (not_both _ Ho P2).
Qed.
End Others.

(** ** Safe programs *)

(** An assertion that the accesses of other connections keep. *)
Definition stable (c : Z) (A : Sys -> Prop) : Prop := forall s s', Inv s -> Inv s' -> bounded s' -> Rely c s s' -> A s -> A s'.

Fixpoint safe (c : Z) {T} (Q : T -> Sys -> Prop) (m : prog T) (A : Sys -> Prop) : Prop :=
  match m with
  | Ret v => forall s, Inv s -> bounded s -> A s -> Q v s
  | Vis o k =>
    (forall s, Inv s -> bounded s -> A s -> Pre c o s) /\
    forall x, exists A', stable c A' /\ (forall s env s', Inv s -> bounded s -> Inv s' -> bounded s' -> A s -> exec c env o s = (x, s') -> A' s') /\ safe c Q (k x) A'
  end.

Section Rules.
Context {T : Type} (c : Z) (Q : T -> Sys -> Prop).

Lemma safe_weak m : forall A A', (forall s, Inv s -> bounded s -> A s -> A' s) -> safe c Q m A' -> safe c Q m A.
Proof.
  destruct m as [v|B o k]; intros A A' H Hm; cbn [safe] in *; [auto|]. destruct Hm as [H1 H2]. split; [auto|].
  intros x. destruct (H2 x) as (R & R1 & R2 & R3). exists R. split; [exact R1|]. split; [|exact R3]. intros s env s' K1 K2 K3 K4 K5. apply R2; auto.
Qed.

Lemma safe_post (Q' : T -> Sys -> Prop) m : forall A, (forall v s, Q v s -> Q' v s) -> safe c Q m A -> safe c Q' m A.
Proof.
  induction m as [v|B o k IH]; intros A H Hm; cbn [safe] in *; [auto|]. destruct Hm as [H1 H2]. split; [exact H1|].
  intros x. destruct (H2 x) as (R & R1 & R2 & R3). exists R. auto.
Qed.

(** A fact that does not depend on the state can be taken out of the assertion. *)
Lemma safe_ex m : forall (I : Type) (A : I -> Sys -> Prop), (forall i, safe c Q m (A i)) -> safe c Q m (fun s => exists i, A i s).
Proof.
  induction m as [v|B o k IH]; intros I A H; cbn [safe] in *; [intros s H1 H2 [i Hi]; now apply (H i)|]. split; [intros s H1 H2 [i Hi]; now apply (H i)|].
  intros x. exists (fun s => exists R : {R | stable c R /\ safe c Q (k x) R}, proj1_sig R s). split; [|split].
  - intros s s' H1 H2 H3 H4 [[R [R1 R2]] HR]. exists (exist _ R (conj R1 R2)). now apply (R1 s).
  - intros s env s' H1 H2 H3 H4 [i Hi] E. destruct (proj2 (H i) x) as (R & R1 & R2 & R3). exists (exist _ R (conj R1 R3)). now apply (R2 s env).
  - apply IH. intros [R [R1 R2]]. exact R2.
Qed.
Lemma safe_pure (P : Prop) A m : (P -> safe c Q m A) -> safe c Q m (fun s => A s /\ P).
Proof.
  intros H. apply (safe_weak m _ (fun s => exists i : {b : bool | P}, A s)); [intros s _ _ [HA HP]; now exists (exist _ true HP)|].
  apply safe_ex. intros [_ HP]. auto.
Qed.

Lemma safe_vis {B} (o : op B) k A R : (forall x, stable c (R x)) -> (forall s, Inv s -> bounded s -> A s -> Pre c o s) ->
  (forall s env x s', Inv s -> bounded s -> Inv s' -> bounded s' -> A s -> exec c env o s = (x, s') -> R x s') -> (forall x, safe c Q (k x) (R x)) -> safe c Q (Vis o k) A.
Proof. intros H1 H2 H3 H4. split; [exact H2|]. intros x. exists (R x). split; [apply H1|]. split; [|apply H4]. intros s env s'. apply H3. Qed.

Lemma safe_load {B} (o : op B) (val : Sys -> B) k A R : (forall env s, exec c env o s = (val s, s)) -> (forall s, Pre c o s) -> (forall x, stable c (R x)) ->
  (forall s, Inv s -> bounded s -> A s -> R (val s) s) -> (forall x, safe c Q (k x) (R x)) -> safe c Q (Vis o k) A.
Proof. intros E HP HS HR Hk. apply (safe_vis o k A R); auto. intros s env x s' H1 H2 _ _ HA Ex. rewrite E in Ex. injection Ex as <- <-. auto. Qed.
End Rules.

Lemma safe_seq {T U} c (Q : U -> Sys -> Prop) (R : T -> Sys -> Prop) f m : forall A, safe c R m A -> (forall v, safe c Q (f v) (R v)) -> safe c Q (bind m f) A.
Proof.
  induction m as [v|B o k IH]; intros A Hm Hf; cbn [bind safe] in *.
  - apply (safe_weak c Q (f v) A (R v)); [exact Hm|apply Hf].
  - destruct Hm as [H1 H2]. split; [exact H1|]. intros x. destruct (H2 x) as (A' & K1 & K2 & K3). exists A'. split; [exact K1|]. split; [exact K2|]. now apply IH.
Qed.

(** *** Stable assertions *)

Section Stable.
Variable c : Z.

Lemma stable_and A B : stable c A -> stable c B -> stable c (fun s => A s /\ B s).
Proof. intros HA HB s s' H1 H2 H3 H4 [K1 K2]. split; [now apply (HA s)|now apply (HB s)]. Qed.
Lemma stable_imp (P : Prop) A : stable c A -> stable c (fun s => P -> A s).
Proof. intros HA s s' H1 H2 H3 H4 K HP. apply (HA s); auto. Qed.
Lemma stable_pure (P : Prop) : stable c (fun _ => P).
Proof. intros s s' _ _ _ _ H. exact H. Qed.
Lemma stable_trans t : stable c (fun s => trans s c = t).
Proof. intros s s' _ _ _ HR <-. apply (re_trans _ _ _ HR). Qed.
Lemma stable_owned i : stable c (owned c i).
Proof. intros s s' _ _ _ HR. apply (re_owned _ _ _ HR). Qed.
Lemma stable_held i : stable c (held c i).
Proof. intros s s' _ _ _ HR. apply (re_held _ _ _ HR). Qed.
Lemma stable_marks : stable c (marks_owned c).
Proof. intros s s' _ _ _ HR H i Hi. apply (re_owned _ _ _ HR), H, Hi. Qed.
Lemma stable_hist h m : stable c (fun s => In (h, m) (hist s)).
Proof. intros s s' _ _ _ HR H. destruct (re_hist _ _ _ HR) as [[_ ->]|(m' & ->)]; [exact H|now right]. Qed.
End Stable.
Create HintDb wal.
#[local] Hint Resolve stable_and stable_imp stable_pure stable_trans stable_owned stable_held stable_marks stable_hist : wal.

(** ** Reading *)

Lemma rely_bounded c s s' : Rely c s s' -> bounded s' -> bounded s.
Proof. intros HR Hb. unfold bounded in *. destruct (re_hist _ _ _ HR) as [[_ E]|(m & E)]; rewrite E in Hb; cbn [length] in Hb; lia. Qed.

(** What is read is the page of the transaction. *)
Definition Answer (c : Z) (t : Trans) (p v : Z) (s : Sys) : Prop := trans s c = Some t /\ exists m, In (hdr t, m) (hist s) /\ forall d, m p = Some d -> v = d.

Lemma stable_answer c t p v : stable c (Answer c t p v).
Proof. intros s s' H1 H2 H3 HR (Ht & m & Hm & Hd). split; [now rewrite (re_trans _ _ _ HR)|]. exists m. split; [|exact Hd]. now apply (stable_hist c (hdr t) m s). Qed.
#[local] Hint Resolve stable_answer : wal.

Lemma reader_log c t s : Inv s -> bounded s -> trans s c = Some t -> 1 <= readLock t ->
  exists m, version s (hdr t) m /\ 0 <= hdr_mxFrame (hdr t) <= mx s /\ 1 <= minFrame t /\
    forall p d, m p = Some d -> new s p (minFrame t) (hdr_mxFrame (hdr t)) = 0 -> db s p = d.
Proof.
  intros HI Hb Ht Hr. destruct (iv_readers _ HI c t Ht) as [_ (m & Hm & Hd) _ HL]. destruct (HL Hr) as (K1 & _ & K3). exists m.
  assert (HV : version s (hdr t) m) by (split; assumption). split; [exact HV|]. split; [now apply (version_le s HI _ m)|]. split; [apply K3|].
  intros p d Hp Hz. apply (Hd p d Hp). now right.
Qed.

Lemma stable_new c t p x : 1 <= readLock t -> stable c (fun s => trans s c = Some t /\ new s p (minFrame t) (hdr_mxFrame (hdr t)) = x).
Proof.
  intros Hr s s' HI HI' Hb HR [Ht Hx]. split; [now rewrite (re_trans _ _ _ HR)|]. rewrite <- Hx.
  destruct (reader_log c t s HI (rely_bounded _ _ _ HR Hb) Ht Hr) as (m & _ & Hle & _). apply newest_agree. intros f Hf. apply (re_frames _ _ _ HR). lia.
Qed.

Lemma read_db_safe c t p : safe c (Answer c t p) (d <- ReadDb p ;; Ret d)%wal
  (fun s => trans s c = Some t /\ (1 <= readLock t -> new s p (minFrame t) (hdr_mxFrame (hdr t)) = 0)).
Proof.
  apply (safe_load c (Answer c t p) (ReadDb p) (fun s => db s p) _ _ (Answer c t p)); cbn [Pre safe]; auto with wal.
  intros s HI Hb [Ht Hz]. destruct (iv_readers _ HI c t Ht) as [[Hl _] (m & Hm & Hd) _ _]. split; [exact Ht|]. exists m. split; [exact Hm|]. intros d Hp. apply (Hd p d Hp).
  destruct (Z.eq_dec (readLock t) 0); [now left|right]. apply Hz. lia.
Qed.

Lemma read_page_safe c t p : 0 <= readLock t -> safe c (Answer c t p) (read_page t p) (fun s => trans s c = Some t).
Proof.
  intros H0. unfold read_page. destruct (Z.eqb_spec (readLock t) 0) as [E|E].
  - eapply safe_weak; [|apply read_db_safe]. intros s _ _ Ht. split; [exact Ht|lia].
  - assert (Hr : 1 <= readLock t) by lia.
    apply (safe_load c _ (FindFrame p (minFrame t) (hdr_mxFrame (hdr t))) (fun s => new s p (minFrame t) (hdr_mxFrame (hdr t))) _ _
      (fun x s => trans s c = Some t /\ new s p (minFrame t) (hdr_mxFrame (hdr t)) = x)); cbn [Pre]; auto; [intros x; now apply stable_new|].
    intros x. destruct (Z.eqb_spec x 0) as [->|Hx].
    + eapply safe_weak; [|apply read_db_safe]. intros s _ _ [Ht Hn]. auto.
    + apply (safe_load c _ (ReadFrame x) (fun s => frame_data s x) _ _ (Answer c t p)); cbn [Pre safe]; auto with wal.
      intros s HI Hb [Ht Hn]. destruct (reader_log c t s HI Hb Ht Hr) as (m & HV & Hle & Hmn & _). split; [exact Ht|]. exists m. split; [apply HV|]. intros d Hp.
      pose proof (newest_range (frame_page s) p (minFrame t) (hdr_mxFrame (hdr t)) ltac:(lia)) as Hrg. change (newest _ _ _ _) with (new s p (minFrame t) (hdr_mxFrame (hdr t))) in Hrg.
      assert (E1 : new s p 1 (hdr_mxFrame (hdr t)) = x) by (unfold new in *; rewrite (newest_low _ _ (minFrame t)); [exact Hn|exact Hmn|lia]).
      rewrite <- E1. apply (iv_frames _ HI _ m p d HV Hp). now rewrite E1.
Qed.

(** ** Read transactions *)

Lemma exec_exclusive c env i n s x s' : exec c env (LockExclusive i n) s = (x, s') ->
  (x = SQLITE_OK /\ (forall j, in_range i n j = true -> locks s j = Free) /\ s' = set_locks (fun j => if in_range i n j then Exclusive c else locks s j) s) \/
  (x <> SQLITE_OK /\ s' = s).
Proof.
  cbn [exec]. destruct (Z.eqb_spec env 0) as [->|He]; cbn [negb]; [|intros [= <- <-]; now right]. destruct (forallb _ _) eqn:Ef; intros [= <- <-]; [left|now right].
  split; [reflexivity|]. split; [now apply range_free|reflexivity].
Qed.
Lemma exec_shared c env i s x s' : exec c env (LockShared i) s = (x, s') ->
  (x = SQLITE_OK /\ held c i s' /\ exists L, s' = set_locks L s) \/ (x <> SQLITE_OK /\ s' = s).
Proof.
  cbn [exec]. destruct (Z.eqb_spec env 0) as [->|He]; cbn [negb]; [|intros [= <- <-]; now right]. destruct (lock_shared c (locks s i)) as [l|] eqn:El; intros [= <- <-]; [left|now right].
  split; [reflexivity|]. split; [|eexists; reflexivity]. unfold held. cbn [set_locks locks]. unfold upd. rewrite Z.eqb_refl. apply (has_shared _ c _ _ El). now right.
Qed.

(** Accesses of the programs that begin a transaction. *)
Definition quiet {B} (o : op B) : bool :=
  match o with
  | ReadHdr | LoadBackfill | LoadMark _ | StoreMark _ _ | Enter _ _ _ | Leave => true
  | LockShared i | UnlockShared i | LockExclusive i _ | UnlockExclusive i _ => 3 <=? i
  | _ => false
  end.
(** What these accesses, and those of other connections, keep. *)
Definition Kept (c : Z) (F : Sys -> Prop) : Prop :=
  stable c F /\ forall B (o : op B) env s x s', quiet o = true -> F s -> exec c env o s = (x, s') -> F s'.

Section Begin.
Variables (c : Z) (F : Sys -> Prop).
Hypothesis HF : Kept c F.

Definition Outside (s : Sys) : Prop := F s /\ trans s c = None.
Definition mark_ok (mxFrame r i : Z) : Prop := i = 0 \/ (1 <= i <= 4 /\ r <= mxFrame).

Lemma stable_outside : stable c Outside.
Proof. apply stable_and; [apply HF|apply stable_trans]. Qed.
Hint Resolve stable_outside : wal.

Lemma best_mark_safe n : forall i mxFrame r j, i + Z.of_nat n = 5 -> 1 <= i -> mark_ok mxFrame r j ->
  safe c (fun v s => Outside s /\ mark_ok mxFrame (fst v) (snd v)) (best_mark n i mxFrame r j) Outside.
Proof.
  induction n as [|n IH]; intros i mxFrame r j Hn Hi Hm; cbn [best_mark safe]; [auto|].
  apply (safe_load c _ (LoadMark i) (fun s => aReadMark s i) _ _ (fun _ => Outside)); cbn [Pre]; auto with wal.
  intros y. destruct (Z.leb_spec r y), (Z.leb_spec y mxFrame); cbn [andb]; apply IH; try lia; try exact Hm. right. lia.
Qed.

Lemma set_mark_safe n : forall i mxFrame r j rc, i + Z.of_nat n = 5 -> 1 <= i -> mark_ok mxFrame r j ->
  safe c (fun v s => Outside s /\ mark_ok mxFrame (snd (fst v)) (snd v)) (set_mark n i mxFrame r j rc) Outside.
Proof.
  induction n as [|n IH]; intros i mxFrame r j rc Hn Hi Hm; cbn [set_mark safe]; [auto|].
  assert (Hq : (3 <=? WAL_READ_LOCK i) = true) by (apply Z.leb_le; unfold WAL_READ_LOCK; lia).
  apply (safe_vis c _ (LockExclusive (WAL_READ_LOCK i) 1) _ _ (fun x s => Outside s /\ (x = SQLITE_OK -> owned c (WAL_READ_LOCK i) s))); cbn [Pre]; auto with wal.
  - intros s env x s' _ _ _ _ [H1 H2] E. assert (HF' : F s') by (exact (proj2 HF _ (LockExclusive (WAL_READ_LOCK i) 1) _ _ _ _ Hq H1 E)).
    destruct (exec_exclusive _ _ _ _ _ _ _ E) as [(-> & _ & ->)|[Hx ->]]; (split; [split; [exact HF'|exact H2]|]); [intros _|contradiction].
    unfold owned. cbn [set_locks locks]. rewrite (proj2 (in_range_spec _ _ _)); [reflexivity|lia].
  - intros x. destruct (Z.eqb_spec x SQLITE_OK) as [->|Hx].
    + apply (safe_vis c _ (StoreMark i mxFrame) _ _ (fun _ s => Outside s)); cbn [Pre]; auto with wal.
      * intros s _ _ [_ Ho]. split; [lia|auto].
      * intros s env y s' _ _ _ _ [[H1 H2] _] E. split; [exact (proj2 HF _ (StoreMark i mxFrame) _ _ _ _ eq_refl H1 E)|]. cbn [exec] in E. injection E as <- <-. exact H2.
      * intros _. apply (safe_vis c _ (UnlockExclusive (WAL_READ_LOCK i) 1) _ _ (fun _ s => Outside s)); cbn [Pre]; auto with wal.
        -- intros s _ _ _ E. apply in_range_spec in E. unfold WAL_WRITE_LOCK, WAL_READ_LOCK in E. lia.
        -- intros s env y s' _ _ _ _ [H1 H2] E. split; [exact (proj2 HF _ (UnlockExclusive (WAL_READ_LOCK i) 1) _ _ _ _ Hq H1 E)|]. cbn [exec] in E. injection E as <- <-. exact H2.
        -- intros _. cbn [safe fst snd]. intros s _ _ H. split; [exact H|]. right. lia.
    + destruct (negb (x =? SQLITE_BUSY)); cbn [safe]; [intros s _ _ [H _]; auto|]. eapply safe_weak; [|apply IH]; try lia; [|exact Hm]. intros s _ _ [H _]. exact H.
Qed.

(** The result of the program: a transaction, or none. *)
Definition Began (useWal : bool) (h : WalIndexHdr) (v : Z) (s : Sys) : Prop :=
  (v = SQLITE_OK -> F s /\ exists t, trans s c = Some t /\ (useWal = true -> 1 <= readLock t /\ hdr t = h)) /\ (v <> SQLITE_OK -> Outside s).

Lemma stable_began u h v : stable c (Began u h v).
Proof.
  apply stable_and; apply stable_imp; [|apply stable_outside]. apply stable_and; [apply HF|]. intros s s' _ _ _ HR (t & Ht & H). exists t.
  split; [now rewrite (re_trans _ _ _ HR)|exact H].
Qed.
Lemma began_none u h v s : v <> SQLITE_OK -> Outside s -> Began u h v s.
Proof. intros Hv Hs. split; [contradiction|auto]. Qed.

(** A lock that is given back. *)
Lemma retreat_safe u h i : 3 <= i -> safe c (Began u h) (UnlockShared i ;; Ret WAL_RETRY)%wal Outside.
Proof.
  intros Hi. assert (Hq : (3 <=? i) = true) by (now apply Z.leb_le). apply (safe_vis c _ (UnlockShared i) _ _ (fun _ => Outside)); cbn [Pre]; auto with wal.
  - intros s _ _ [_ H] t Ht. congruence.
  - intros s env x s' _ _ _ _ [H1 H2] E. split; [exact (proj2 HF _ (UnlockShared i) _ _ _ _ Hq H1 E)|]. cbn [exec] in E. injection E as <- <-. exact H2.
  - intros _. cbn [safe]. intros s _ _ H. now apply began_none.
Qed.

Definition Locked (i : Z) (s : Sys) : Prop := Outside s /\ held c (WAL_READ_LOCK i) s.
Definition Loaded (i b : Z) (s : Sys) : Prop := Locked i s /\ 0 <= b <= nBackfill s.
Lemma stable_locked i : stable c (Locked i).
Proof. apply stable_and; [apply stable_outside|apply stable_held]. Qed.
Lemma stable_loaded i b : 1 <= i <= 4 -> stable c (Loaded i b).
Proof.
  intros Hi s s' H1 H2 H3 HR [HL Hb]. split; [now apply (stable_locked i s)|]. destruct (re_shared _ _ _ HR i Hi (proj2 HL)). lia.
Qed.
Lemma stable_checked i b v : 1 <= i <= 4 -> stable c (fun s => Loaded i b s /\ aReadMark s i = v).
Proof.
  intros Hi s s' H1 H2 H3 HR [HL Hv]. split; [now apply (stable_loaded i b Hi s)|]. rewrite (re_mark _ _ _ HR i Hi); [exact Hv|]. left. apply HL.
Qed.

Lemma lock_and_safe G i k (Q : Z -> Sys -> Prop) : 0 <= i <= 4 -> stable c G -> (forall L s, G s -> G (set_locks L s)) ->
  (forall x, x <> SQLITE_OK -> safe c Q (k x) Outside) -> safe c Q (k SQLITE_OK) (fun s => Locked i s /\ G s) ->
  safe c Q (x <- LockShared (WAL_READ_LOCK i) ;; k x)%wal (fun s => Outside s /\ G s).
Proof.
  intros Hi HG HL H1 H2. assert (Hq : (3 <=? WAL_READ_LOCK i) = true) by (apply Z.leb_le; unfold WAL_READ_LOCK; lia).
  apply (safe_vis c _ (LockShared (WAL_READ_LOCK i)) _ _ (fun x s => (Outside s /\ G s) /\ (x = SQLITE_OK -> held c (WAL_READ_LOCK i) s))); cbn [Pre]; auto with wal.
  - intros s env x s' _ _ _ _ [[HF' Ht] Hs'] E. pose proof (proj2 HF _ (LockShared (WAL_READ_LOCK i)) _ _ _ _ Hq HF' E) as Hs.
    destruct (exec_shared _ _ _ _ _ _ E) as [(-> & Hh & L & ->)|[Hx ->]]; (split; [split; [split; [exact Hs|exact Ht]|auto]|]); [auto|contradiction].
  - intros x. destruct (Z.eq_dec x SQLITE_OK) as [->|Hx]; [apply (safe_weak c Q _ _ (fun s => Locked i s /\ G s))|apply (safe_weak c Q _ _ Outside)]; auto.
    + intros s _ _ [[K1 K2] K3]. split; [split; auto|exact K2].
    + intros s _ _ [[K1 _] _]. exact K1.
Qed.
Lemma lock_mark_safe i k (Q : Z -> Sys -> Prop) : 0 <= i <= 4 -> (forall x, x <> SQLITE_OK -> safe c Q (k x) Outside) -> safe c Q (k SQLITE_OK) (Locked i) ->
  safe c Q (x <- LockShared (WAL_READ_LOCK i) ;; k x)%wal Outside.
Proof.
  intros Hi H1 H2. apply (safe_weak c Q _ _ (fun s => Outside s /\ True)); [auto|]. apply lock_and_safe; auto with wal.
  apply (safe_weak c Q _ _ (Locked i)); [intros s _ _ [H _]; exact H|exact H2].
Qed.

Lemma enter_safe u i h mn : 0 <= i <= 4 -> (u = true -> 1 <= i) -> forall A, stable c A -> (forall s, Inv s -> bounded s -> A s -> Locked i s /\ Pre c (Enter i h mn) s) ->
  safe c (Began u h) (same <- Enter i h mn ;; if same : bool then Ret SQLITE_OK else UnlockShared (WAL_READ_LOCK i) ;; Ret WAL_RETRY)%wal A.
Proof.
  intros Hi Hu A HA Hpre.
  apply (safe_vis c _ (Enter i h mn) _ _ (fun x s => if x : bool then Began u h SQLITE_OK s else Outside s)).
  - intros [|]; [apply stable_began|apply stable_outside].
  - intros s H1 H2 H3. now apply Hpre.
  - intros s env x s' H1 H2 _ _ H3 E. destruct (Hpre s H1 H2 H3) as [[[K1 K2] _] _]. pose proof (proj2 HF _ (Enter i h mn) _ _ _ _ eq_refl K1 E) as Hs.
    cbn [exec] in E. destruct (hdr_eqb (header s) h) eqn:Eh; injection E as <- <-; [|now split]. split; [|congruence]. intros _. split; [exact Hs|].
    eexists. split; [cbn [set_trans trans]; unfold upd; rewrite Z.eqb_refl; reflexivity|]. intros Hut. split; [apply (Hu Hut)|reflexivity].
  - intros [|]; [cbn [safe]; auto|]. apply retreat_safe. unfold WAL_READ_LOCK. lia.
Qed.

Lemma read_mark_safe h rc : safe c (Began true h) (read_mark h rc) Outside.
Proof.
  unfold read_mark. eapply safe_seq; [apply (best_mark_safe 4 1); [reflexivity|lia|now left]|]. intros [r j]. cbn [fst snd]. apply safe_pure. intros Hm.
  apply (safe_seq c _ (fun v s => Outside s /\ mark_ok (hdr_mxFrame h) (snd (fst v)) (snd v))).
  { destruct (_ || _); [now apply (set_mark_safe 4 1)|]. cbn [safe fst snd]. auto. }
  clear r j Hm. intros [[rc' r] j]. cbn [fst snd]. apply safe_pure. intros Hm.
  destruct (negb (rc' =? SQLITE_OK) && negb (rc' =? SQLITE_BUSY)) eqn:Er.
  { cbn [safe]. intros s _ _ Hs. apply began_none; [|exact Hs]. intros ->. discriminate. }
  destruct (Z.eqb_spec j 0) as [Ej|Ej]; [cbn [safe]; intros s _ _ Hs; apply began_none; [destruct (rc' =? SQLITE_BUSY); intro; discriminate|exact Hs]|].
  destruct Hm as [|[Hj Hr]]; [contradiction|]. apply lock_mark_safe; [lia| |].
  - intros x Hx. rewrite (proj2 (Z.eqb_neq _ _) Hx). cbn [negb safe]. intros s _ _ Hs. apply began_none; [|exact Hs]. destruct (Z.land x 255 =? _); [discriminate|exact Hx].
  - cbn [Z.eqb SQLITE_OK negb]. apply (safe_load c _ LoadBackfill nBackfill _ _ (Loaded j)); cbn [Pre]; auto.
    + intros b. now apply stable_loaded.
    + intros s HI _ Hs. split; [exact Hs|]. pose proof (iv_backfill _ HI). lia.
    + intros b. apply (safe_load c _ (LoadMark j) (fun s => aReadMark s j) _ _ (fun v s => Loaded j b s /\ aReadMark s j = v)); cbn [Pre]; auto.
      * intros v. now apply stable_checked.
      * intros v. destruct (Z.eqb_spec v r) as [->|Hv]; cbn [negb].
        -- apply enter_safe; [lia|lia|now apply stable_checked|]. intros s HI _ [[HL Hb] Hv]. split; [exact HL|]. cbn [Pre]. intros Eh. unfold mx. rewrite Eh.
           split; [lia|]. split; [apply HL|]. lia.
        -- apply (safe_weak c _ _ _ Outside); [intros s _ _ [[[HL _] _] _]; exact HL|]. apply retreat_safe. unfold WAL_READ_LOCK. lia.
Qed.

(** The header that was read, all of whose frames were copied. *)
Definition Copied (h : WalIndexHdr) (s : Sys) : Prop := (exists m, In (h, m) (hist s)) /\ (header s = h -> mx s <= nBackfill s).
Lemma stable_copied h : stable c (Copied h).
Proof.
  intros s s' HI HI' Hb HR [(m & Hm) Hz]. split; [exists m; now apply (stable_hist c h m s)|]. intros E. destruct (re_hist _ _ _ HR) as [[E' _]|(m' & E')].
  - apply (re_zero _ _ _ HR E'). apply Hz. congruence.
  - exfalso. pose proof (iv_chain _ HI') as Hc. unfold bounded in Hb. rewrite E' in Hc, Hb. cbn [length] in Hb. apply (chain_fresh _ _ _ m Hc); [lia|]. now rewrite E.
Qed.
Lemma stable_header h : stable c (fun s => exists m, In (h, m) (hist s)).
Proof. intros s s' H1 H2 H3 HR (m & Hm). exists m. now apply (stable_hist c h m s). Qed.
Hint Resolve stable_copied stable_header : wal.

Lemma walTryBeginRead_safe u h : safe c (Began u h) (walTryBeginRead u h) Outside.
Proof.
  unfold walTryBeginRead. destruct u; [apply read_mark_safe|]. apply (safe_load c _ ReadHdr header _ _ (fun h s => Outside s /\ exists m, In (h, m) (hist s))); cbn [Pre]; auto with wal.
  { intros s HI _ Hs. split; [exact Hs|]. exists (current s). apply (now_version s HI). }
  intros h0.
  assert (HM : forall A rc, (forall s, A s -> Outside s) -> safe c (Began false h) (read_mark h0 rc) A).
  { intros A rc HA. apply (safe_weak c _ _ _ Outside); [auto|]. apply (safe_post c (Began true h0)); [|apply read_mark_safe]. intros v s [H1 H2]. split; [|exact H2].
    intros E. destruct (H1 E) as (K & t & Ht & _). split; [exact K|]. exists t. split; [exact Ht|discriminate]. }
  apply (safe_load c _ LoadBackfill nBackfill _ _ (fun b s => Outside s /\ (b = hdr_mxFrame h0 -> Copied h0 s))); cbn [Pre]; auto with wal.
  { intros s HI _ [H1 H2]. split; [exact H1|]. intros E. split; [exact H2|]. intros <-. unfold mx. lia. }
  intros b. destruct (Z.eqb_spec b (hdr_mxFrame h0)) as [Eb|]; [|apply HM; tauto].
  apply (safe_weak c _ _ _ (fun s => Outside s /\ Copied h0 s)); [intros s _ _ [K1 K2]; auto|]. apply lock_and_safe; [lia|apply stable_copied|auto| |].
  - intros x Hx. rewrite (proj2 (Z.eqb_neq _ _) Hx). destruct (negb (x =? SQLITE_BUSY)); [|now apply HM]. cbn [safe]. intros s _ _ Hs. now apply began_none.
  - cbn [Z.eqb SQLITE_OK]. apply (safe_post c (Began false h0)).
    { intros v s [H1 H2]. split; [|exact H2]. intros E. destruct (H1 E) as (K & t & Ht & _). split; [exact K|]. exists t. split; [exact Ht|discriminate]. }
    apply enter_safe; [lia|discriminate|apply stable_and; [apply stable_locked|apply stable_copied]|]. intros s _ _ [HL [_ HC]]. split; [exact HL|]. cbn [Pre]. intros Eh.
    split; [lia|]. split; [apply HL|]. split; [auto|lia].
Qed.

Lemma begin_loop_safe u h fuel : forall cnt, safe c (Began u h) (begin_loop fuel u h cnt) Outside.
Proof.
  induction fuel as [|fuel IH]; intros cnt; cbn [begin_loop]; [cbn [safe]; intros s _ _ Hs; now apply began_none|].
  destruct (_ && _); [cbn [safe]; intros s _ _ Hs; now apply began_none|]. apply (safe_seq c _ (Began u h)); [apply walTryBeginRead_safe|].
  intros v. destruct (Z.eqb_spec v WAL_RETRY) as [->|Hv]; [|cbn [safe]; auto]. apply (safe_weak c _ _ _ Outside); [|apply IH]. intros s _ _ [_ H]. now apply H.
Qed.
End Begin.

(** ** Write transactions *)

Lemma quiet_keeps c env {B} (o : op B) s x s' : quiet o = true -> exec c env o s = (x, s') ->
  header s' = header s /\ nBackfill s' = nBackfill s /\ forall i, i < 3 -> owned c i s -> owned c i s'.
Proof.
  intros Hq E. destruct o; cbn [quiet] in Hq; try discriminate Hq; try (cbn [exec] in E; injection E as <- <-; auto).
  - destruct (exec_shared _ _ _ _ _ _ E) as [(_ & _ & L & EL)|[_ ->]]; [|auto]. cbn [exec] in E. destruct (negb (env =? 0)); [injection E as <- <-; auto|].
    destruct (lock_shared c (locks s i)); injection E as <- <-; auto. apply Z.leb_le in Hq. split; [reflexivity|]. split; [reflexivity|]. intros j Hj. unfold owned. cbn [set_locks locks].
    unfold upd. rewrite (proj2 (Z.eqb_neq j i)) by lia. auto.
  - apply Z.leb_le in Hq. split; [reflexivity|]. split; [reflexivity|]. intros j Hj. unfold owned. cbn [set_locks locks]. unfold upd. rewrite (proj2 (Z.eqb_neq j i)) by lia. auto.
  - apply Z.leb_le in Hq. destruct (exec_exclusive _ _ _ _ _ _ _ E) as [(_ & _ & ->)|[_ ->]]; [|auto]. split; [reflexivity|]. split; [reflexivity|]. intros j Hj. unfold owned.
    cbn [set_locks locks]. destruct (in_range i n j) eqn:Ej; [apply in_range_spec in Ej; lia|auto].
  - apply Z.leb_le in Hq. split; [reflexivity|]. split; [reflexivity|]. intros j Hj. unfold owned. cbn [set_locks locks]. destruct (in_range i n j) eqn:Ej; [apply in_range_spec in Ej; lia|auto].
  - cbn [exec] in E. destruct (hdr_eqb _ _); injection E as <- <-; auto.
  - cbn [exec] in E. destruct (trans s c); injection E as <- <-; auto. split; [reflexivity|]. split; [reflexivity|]. intros j _ Ho. unfold owned in *. cbn [set_trans set_locks locks].
    unfold upd. destruct (Z.eqb_spec j (WAL_READ_LOCK (readLock t))) as [->|]; [now apply has_unlock_shared|exact Ho].
Qed.

Section Write.
Variable c : Z.

(** The connection has the lock of the writer; [h] is the header. *)
Definition Writer (s : Sys) : Prop := owned c WAL_WRITE_LOCK s /\ nBackfill s <= mx s.
Definition Writing (h : WalIndexHdr) (s : Sys) : Prop := Writer s /\ header s = h.

Lemma stable_writer : stable c Writer.
Proof. intros s s' _ _ _ HR [H1 H2]. split; [now apply (re_owned _ _ _ HR)|]. now apply (re_write _ _ _ HR H1). Qed.
Lemma stable_writing h : stable c (Writing h).
Proof. intros s s' HI HI' Hb HR [H1 H2]. split; [now apply (stable_writer s)|]. rewrite <- H2. apply (re_write _ _ _ HR), H1. Qed.
Lemma writing_kept h : Kept c (Writing h).
Proof.
  split; [apply stable_writing|]. intros B o env s x s' Hq [[H1 H2] H3] E. destruct (quiet_keeps _ _ _ _ _ _ Hq E) as (K1 & K2 & K3).
  split; [split; [now apply K3|]|congruence]. unfold mx in *. now rewrite K1, K2.
Qed.
Hint Resolve stable_writer stable_writing : wal.

(** No one else has the lock, and the header has all frames that were copied. *)
Lemma write_lock env s x s' : Inv s -> exec c env (LockExclusive WAL_WRITE_LOCK 1) s = (x, s') -> trans s' c = trans s c /\ (x = SQLITE_OK -> Writer s').
Proof.
  intros HI E. destruct (exec_exclusive _ _ _ _ _ _ _ E) as [(_ & Hf & ->)|[Hx ->]]; (split; [reflexivity|]); [intros _|contradiction]. split; [reflexivity|].
  apply (iv_write _ HI). intros c' Ho. unfold owned in Ho. now rewrite (Hf WAL_WRITE_LOCK eq_refl) in Ho.
Qed.

Definition done (v : Z) (s : Sys) : Prop := True.

Lemma end_write_safe rc A : (forall s, A s -> Writer s) -> safe c done (end_write rc) A.
Proof.
  intros HA. unfold end_write. apply (safe_vis c _ (UnlockExclusive WAL_WRITE_LOCK 1) _ _ (fun _ _ => True)); cbn [Pre]; auto with wal.
  - intros s _ _ Hs _. apply (HA s Hs).
  - cbn [safe]. intros. exact I.
Qed.

Lemma store_mark_safe i v k A : 1 <= i <= 4 -> stable c A -> (forall s, A s -> owned c (WAL_READ_LOCK i) s) -> (forall s f, A s -> A (set_marks f s)) ->
  safe c done k A -> safe c done (StoreMark i v ;; k)%wal A.
Proof.
  intros Hi HS Ho HA Hk. apply (safe_vis c _ (StoreMark i v) _ _ (fun _ => A)); cbn [Pre]; auto. intros s env x s' _ _ _ _ Hs E. cbn [exec] in E. injection E as _ <-. auto.
Qed.

(** A connection with the locks of the writer and of all marks restarts the log. *)
Lemma walRestartHdr_safe h T salt1 k : (forall t, T = Some t -> readLock t = 0) ->
  (forall h', hdr_mxFrame h' = 0 -> safe c done (k h') (fun s => Writing h' s /\ marks_owned c s)) ->
  safe c done (walRestartHdr h salt1 k) (fun s => (owned c WAL_WRITE_LOCK s /\ marks_owned c s) /\ (header s = h /\ mx s <= nBackfill s) /\ trans s c = T).
Proof.
  intros HT Hk. unfold walRestartHdr. set (h' := Build_WalIndexHdr _ _ _ _).
  apply (safe_vis c _ (RestartHdr h') _ _ (fun _ s => (owned c WAL_WRITE_LOCK s /\ marks_owned c s) /\ header s = h')); cbn [Pre].
  - intros _ s s' _ _ _ HR [[H1 H2] H3]. split; [|rewrite <- H3; apply (re_write _ _ _ HR H1)]. split; [now apply (re_owned _ _ _ HR)|]. intros i Hi. now apply (re_owned _ _ _ HR), H2.
  - intros s _ _ ((H1 & H2) & (H3 & H4) & H5). split; [exact H1|]. split; [exact H2|]. split; [exact H4|]. rewrite H3. split; [split; [reflexivity|split; reflexivity]|].
    split; [reflexivity|]. intros t. rewrite H5. apply HT.
  - intros s env x s' _ _ _ _ ((H1 & H2) & _) E. cbn [exec] in E. injection E as _ <-. unfold set_snapshot. destruct (trans _ _); (split; [split; [exact H1|exact H2]|reflexivity]).
  - intros _. apply (safe_vis c _ (StoreBackfill 0) _ _ (fun _ s => Writing h' s /\ marks_owned c s)); cbn [Pre]; auto with wal.
    + intros s _ _ ((H1 & H2) & H3). right. unfold mx. rewrite H3. auto.
    + intros s env x s' _ _ _ _ ((H1 & H2) & H3) E. cbn [exec] in E. injection E as _ <-. split; [split; [split; [exact H1|]|exact H3]|exact H2].
      unfold mx. cbn [set_backfill header nBackfill]. rewrite H3. cbn. lia.
    + intros _. do 4 (apply store_mark_safe; [lia|auto with wal|intros s [_ H]; apply H; lia|intros s f [H1 H2]; split; [exact H1|exact H2]|]). apply Hk. reflexivity.
Qed.

(** The state in which the pages are written. *)
Definition Open (h : WalIndexHdr) (s : Sys) : Prop := Writing h s /\ exists t, trans s c = Some t /\ 1 <= readLock t /\ hdr t = h.
Lemma stable_open h : stable c (Open h).
Proof.
  intros s s' HI HI' Hb HR [H1 (t & H2 & H3)]. split; [now apply (stable_writing h s)|]. exists t. split; [now rewrite (re_trans _ _ _ HR)|exact H3].
Qed.
Definition Opened (h : WalIndexHdr) (rc : Z) (s : Sys) : Prop := Writer s /\ (rc = SQLITE_OK -> Open h s).

Lemma reenter_safe h k A : (forall s, A s -> Writing h s) -> (forall rc, safe c done (k h rc) (Opened h rc)) -> safe c done (reenter h k) A.
Proof.
  intros HA Hk. unfold reenter. apply (safe_vis c _ Leave _ _ (fun _ => Outside c (Writing h))); cbn [Pre]; auto.
  - intros _. apply stable_outside, writing_kept.
  - intros s env x s' _ _ _ _ Hs E. split; [exact (proj2 (writing_kept h) _ Leave _ _ _ _ eq_refl (HA s Hs) E)|]. cbn [exec] in E.
    destruct (trans s c) eqn:Et; injection E as _ <-; [|exact Et]. cbn [set_trans trans]. unfold upd. now rewrite Z.eqb_refl.
  - intros _. apply (safe_seq c _ (Began c (Writing h) true h)); [apply begin_loop_safe, writing_kept|]. intros rc. apply (safe_weak c _ _ _ (Opened h rc)); [|apply Hk].
    intros s _ _ [H1 H2]. destruct (Z.eq_dec rc SQLITE_OK) as [->|Hr].
    + destruct (H1 eq_refl) as (K1 & t & K2 & K3). destruct (K3 eq_refl) as [K4 K5]. split; [apply K1|]. intros _. split; [exact K1|]. now exists t.
    + split; [apply (H2 Hr)|contradiction].
Qed.

Lemma marks_exclusive env s x s' : exec c env (LockExclusive (WAL_READ_LOCK 1) (WAL_NREADER - 1)) s = (x, s') -> x = SQLITE_OK -> marks_owned c s'.
Proof.
  intros E ->. destruct (exec_exclusive _ _ _ _ _ _ _ E) as [(_ & _ & ->)|[Hx _]]; [|contradiction]. intros i Hi. unfold owned. cbn [set_locks locks].
  rewrite (proj2 (in_range_spec _ _ _)); [reflexivity|]. unfold WAL_READ_LOCK, WAL_NREADER. lia.
Qed.

Lemma walRestartLog_safe t salt1 k : 0 <= readLock t -> (forall h rc, safe c done (k h rc) (Opened h rc)) ->
  safe c done (walRestartLog t salt1 k) (fun s => Writing (hdr t) s /\ trans s c = Some t).
Proof.
  intros H0 Hk. unfold walRestartLog. destruct (Z.eqb_spec (readLock t) 0) as [Ez|Ez].
  - apply (safe_load c _ LoadBackfill nBackfill _ _ (fun _ s => Writing (hdr t) s /\ trans s c = Some t)); cbn [Pre]; auto with wal.
    intros b. destruct (0 <? b); [|apply reenter_safe; [tauto|auto]].
    apply (safe_vis c _ (LockExclusive (WAL_READ_LOCK 1) (WAL_NREADER - 1)) _ _ (fun x s => (Writing (hdr t) s /\ trans s c = Some t) /\ (x = SQLITE_OK -> marks_owned c s)));
      cbn [Pre]; auto with wal.
    + intros s env x s' _ _ _ _ [H1 H2] E. split; [|now apply (marks_exclusive env s)]. split; [exact (proj2 (writing_kept (hdr t)) _ (LockExclusive (WAL_READ_LOCK 1) (WAL_NREADER - 1)) _ _ _ _ eq_refl H1 E)|].
      destruct (exec_exclusive _ _ _ _ _ _ _ E) as [(_ & _ & ->)|[_ ->]]; exact H2.
    + intros x. destruct (Z.eqb_spec x SQLITE_OK) as [->|Hx].
      * eapply safe_weak; [|apply (walRestartHdr_safe (hdr t) (Some t)); [intros t0 [= <-]; exact Ez|]].
        -- intros s HI _ [[[[H1 H2] H3] H4] H5]. split; [split; [exact H1|auto]|]. split; [|exact H4]. split; [exact H3|]. apply (rd_zero _ _ _ (iv_readers _ HI c t H4) Ez). now rewrite H3.
        -- intros h' Hh. apply (safe_vis c _ (UnlockExclusive (WAL_READ_LOCK 1) (WAL_NREADER - 1)) _ _ (fun _ => Writing h')); cbn [Pre]; auto with wal.
           ++ intros s _ _ [[H _] _] _. apply H.
           ++ intros s env x s' _ _ _ _ [H1 _] E. exact (proj2 (writing_kept h') _ (UnlockExclusive (WAL_READ_LOCK 1) (WAL_NREADER - 1)) _ _ _ _ eq_refl H1 E).
           ++ intros _. apply reenter_safe; auto.
      * destruct (negb (x =? SQLITE_BUSY)); [|apply reenter_safe; [tauto|auto]]. apply (safe_weak c _ _ _ (Opened (hdr t) x)); [|apply Hk]. intros s _ _ [[[H _] _] _]. split; [exact H|contradiction].
  - apply (safe_weak c _ _ _ (Opened (hdr t) SQLITE_OK)); [|apply Hk]. intros s _ _ [H1 H2]. split; [apply H1|]. intros _. split; [exact H1|]. exists t. split; [exact H2|]. split; [lia|reflexivity].
Qed.

Lemma placed_write p d s ps : forall f, placed s f ps -> let g := f + Z.of_nat (length ps) in
  placed (set_frames (upd g p (frame_page s)) (upd g d (frame_data s)) s) f (ps ++ [(p, d)]).
Proof.
  induction ps as [|[q e] ps IH]; intros f Hp; cbn [length app]; cbv zeta.
  - cbn [placed set_frames frame_page frame_data]. unfold upd. replace (f =? f + Z.of_nat 0) with true by (symmetry; apply Z.eqb_eq; lia). auto.
  - destruct Hp as (P1 & P2 & P3). cbn [placed set_frames frame_page frame_data]. unfold upd at 1 2. rewrite (proj2 (Z.eqb_neq f _)) by lia. split; [exact P1|]. split; [exact P2|].
    replace (f + Z.of_nat (S (length ps))) with (f + 1 + Z.of_nat (length ps)) by lia. now apply IH.
Qed.

Lemma placed_frames s s' ps : (forall f, frame_page s' f = frame_page s f /\ frame_data s' f = frame_data s f) -> forall f, placed s f ps -> placed s' f ps.
Proof.
  intros H. induction ps as [|[q e] ps IH]; intros f Hp; [exact I|]. destruct Hp as (P1 & P2 & P3). destruct (H f) as [E1 E2]. split; [congruence|]. split; [congruence|auto].
Qed.

(** The pages [ps] of the transaction are written. *)
Definition Placing (h : WalIndexHdr) (ps : list (Z * Z)) (s : Sys) : Prop := Open h s /\ placed s (mx s + 1) ps.
Lemma stable_placing h ps : stable c (Placing h ps).
Proof.
  intros s s' HI HI' Hb HR [H1 H2]. destruct (re_write _ _ _ HR (proj1 (proj1 (proj1 H1)))) as (E & Ef & _). split; [now apply (stable_open h s)|].
  unfold mx in *. rewrite E. now apply (placed_frames s).
Qed.

Lemma write_frames_safe h k qs : forall ps, safe c done k (Placing h (ps ++ qs)) -> safe c done (write_frames (hdr_mxFrame h + Z.of_nat (length ps)) qs k) (Placing h ps).
Proof.
  induction qs as [|[p d] qs IH]; intros ps Hk; cbn [write_frames]; [now rewrite app_nil_r in Hk|]. set (f := hdr_mxFrame h + Z.of_nat (length ps) + 1).
  apply (safe_vis c _ (WriteFrame f p d) _ _ (fun _ => Placing h (ps ++ [(p, d)]))); cbn [Pre].
  - intros _. apply stable_placing.
  - intros s _ _ [[[[H1 _] H2] _] _]. split; [exact H1|]. unfold mx. rewrite H2. unfold f. lia.
  - intros s env x s' _ _ _ _ [H1 H2] E. cbn [exec] in E. injection E as _ <-. split; [exact H1|]. change (mx (set_frames _ _ s)) with (mx s).
    replace f with (mx s + 1 + Z.of_nat (length ps)); [now apply placed_write|]. unfold f, mx. rewrite (proj2 (proj1 H1)). lia.
  - intros _. replace f with (hdr_mxFrame h + Z.of_nat (length (ps ++ [(p, d)]))) by (rewrite length_app; cbn [length]; unfold f; lia). apply IH. now rewrite <- app_assoc.
Qed.

Lemma commit_safe h ps n : ps <> [] -> safe c done
  (CommitHdr {| iChange := u32 (iChange h + 1); hdr_mxFrame := hdr_mxFrame h + Z.of_nat (length ps); hdr_nPage := n; hdr_aSalt := hdr_aSalt h |} ps ;; end_write SQLITE_OK)%wal (Placing h ps).
Proof.
  intros Hne. set (h' := Build_WalIndexHdr _ _ _ _). apply (safe_vis c _ (CommitHdr h' ps) _ _ (fun _ => Writer)); cbn [Pre]; auto with wal.
  - intros s _ _ [[[[H1 H2] H3] H4] H5]. split; [exact H1|]. split; [exact H2|]. split; [exact Hne|]. split; [exact H5|]. unfold mx. rewrite H3. split; [reflexivity|]. split; [reflexivity|].
    split; [reflexivity|exact H4].
  - intros s env x s' _ _ _ _ [[[[H1 H2] H3] (t & H4 & _)] H5] E. cbn [exec] in E. injection E as _ <-. unfold set_snapshot. cbn [set_header trans]. rewrite H4. split; [exact H1|].
    unfold mx in *. cbn [set_trans set_header header nBackfill h' hdr_mxFrame]. rewrite H3 in H2. lia.
  - intros _. apply end_write_safe. auto.
Qed.

Lemma write_transaction_safe t ps n salt1 isCommit : 0 <= readLock t -> ps <> [] -> safe c done (write_transaction t ps n salt1 isCommit) (fun s => trans s c = Some t).
Proof.
  intros H0 Hne. unfold write_transaction.
  apply (safe_vis c _ (LockExclusive WAL_WRITE_LOCK 1) _ _ (fun x s => trans s c = Some t /\ (x = SQLITE_OK -> Writer s))); cbn [Pre]; auto with wal.
  { intros s env x s' HI _ _ _ Ht E. apply write_lock in E; [|exact HI]. destruct E as [E1 E2]. split; [congruence|exact E2]. }
  intros x. destruct (Z.eqb_spec x SQLITE_OK) as [->|Hx]; cbn [negb]; [|cbn [safe]; intros; exact I].
  apply (safe_load c _ ReadHdr header _ _ (fun h s => Writing h s /\ trans s c = Some t)); cbn [Pre]; auto with wal.
  { intros s _ _ [H1 H2]. split; [split; [auto|reflexivity]|exact H1]. }
  intros live. destruct (hdr_eqb (hdr t) live) eqn:Eh; cbn [negb]; [|apply end_write_safe; intros s [[H _] _]; exact H]. apply hdr_eqb_eq in Eh as <-.
  apply walRestartLog_safe; [exact H0|]. intros h rc. destruct (Z.eqb_spec rc SQLITE_OK) as [->|Hr]; cbn [negb]; [|apply end_write_safe; intros s [H _]; exact H].
  apply (safe_weak c _ _ _ (Placing h [])); [intros s _ _ [_ H]; split; [auto|exact I]|].
  rewrite <- (Z.add_0_r (hdr_mxFrame h)) at 1. apply (write_frames_safe h _ ps []). cbn [app]. destruct isCommit; [now apply commit_safe|]. apply end_write_safe. intros s [[[H _] _] _]. exact H.
Qed.
End Write.

(** ** Checkpoints *)

Definition ordered (l : list (Z * Z)) : Prop := StronglySorted (fun a b => fst a < fst b) l.
Lemma put_entry_in p f q g l : ordered l -> In (q, g) (put_entry p f l) <-> (q = p /\ g = f) \/ (q <> p /\ In (q, g) l).
Proof.
  induction l as [|[p0 f0] l IH]; intros Hl; cbn [put_entry].
  - cbn [In]. split; [intros [E|[]]; injection E as -> ->; auto|intros [[-> ->]|[_ []]]; auto].
  - inversion_clear Hl as [|? ? Hl' Hx]. rewrite Forall_forall in Hx. assert (Hlow : forall y, In (p, y) l -> p0 < p) by (intros y Hy; exact (Hx _ Hy)).
    destruct (Z.ltb_spec p p0); [|destruct (Z.eqb_spec p p0) as [<-|Hne]]; cbn [In].
    + split; [intros [E|[E|Hin]]; [injection E as -> ->; auto|injection E as -> ->; right; split; [lia|auto]|]|intros [[-> ->]|[_ H']]; auto].
      right. split; [|auto]. intros ->. specialize (Hlow g Hin). lia.
    + split; [intros [E|Hin]; [injection E as -> ->; auto|]|intros [[-> ->]|[Hn [E|Hin]]]; auto; injection E as -> ->; contradiction].
      right. split; [|auto]. intros ->. specialize (Hlow g Hin). lia.
    + rewrite (IH Hl'). split; [intros [E|[K|[K1 K2]]]; [injection E as -> ->; right; split; [lia|auto]|auto|auto]|intros [K|[K1 [E|K2]]]; auto].
Qed.
Lemma put_entry_ordered p f l : ordered l -> ordered (put_entry p f l).
Proof.
  unfold ordered. induction l as [|[p0 f0] l IH]; intros Hl; cbn [put_entry]; [repeat constructor|]. inversion_clear Hl as [|? ? Hl' Hx].
  destruct (Z.ltb_spec p p0); [|destruct (Z.eqb_spec p p0) as [<-|Hne]].
  - constructor; [now constructor|]. constructor; [assumption|]. revert Hx. apply Forall_impl. intros a. cbn [fst]. lia.
  - now constructor.
  - constructor; [now apply IH|]. rewrite Forall_forall in *. intros [q g] Hin. apply put_entry_in in Hin; [|exact Hl']. destruct Hin as [[-> ->]|[_ Hin]]; [cbn [fst]; lia|now apply Hx].
Qed.

(** The entries are the pages, each with its newest frame. *)
Lemma iterator_spec log n : ordered (iterator log n) /\ forall q g, In (q, g) (iterator log n) <-> g = newest log q 1 (Z.of_nat n) /\ g <> 0.
Proof.
  induction n as [|n [IH1 IH2]]; [split; [constructor|]; intros q g; split; [intros []|intros [-> H]; now destruct H]|]. cbn [iterator]. split; [now apply put_entry_ordered|].
  intros q g. rewrite (put_entry_in _ _ _ _ _ IH1), IH2. replace (Z.of_nat (S n)) with (Z.of_nat n + 1) by lia. rewrite newest_step by lia.
  destruct (Z.eqb_spec (log (Z.of_nat n + 1)) q) as [<-|Hq].
  - split; [intros [[_ ->]|[Hn _]]; [split; [reflexivity|lia]|contradiction]|intros [-> _]; auto].
  - split; [intros [[-> _]|[_ H]]; [contradiction|exact H]|intros H; right; split; [congruence|exact H]].
Qed.
Lemma iterator_ext log log' n : (forall f, 1 <= f <= Z.of_nat n -> log f = log' f) -> iterator log n = iterator log' n.
Proof.
  induction n as [|n IH]; intros H; [reflexivity|]. cbn [iterator]. rewrite (H (Z.of_nat (S n)) ltac:(lia)), IH; [reflexivity|]. intros f Hf. apply H. lia.
Qed.

Section Checkpoint.
Variables (c : Z) (wr : bool) (h : WalIndexHdr).

(** The state of a checkpoint of header [h]; with [wr] it has the lock of the
    writer. *)
Definition Base (s : Sys) : Prop :=
  (owned c WAL_CKPT_LOCK s /\ trans s c = None) /\ (exists m, version s h m) /\ (wr = true -> Writing c h s).
Lemma stable_base : stable c Base.
Proof.
  intros s s' HI HI' Hb HR ((H1 & H2) & (m & H3 & H4) & H5). split; [split; [now apply (re_owned _ _ _ HR)|now rewrite (re_trans _ _ _ HR)]|]. split.
  - exists m. split; [now apply (stable_hist c h m s)|]. destruct (re_ckpt _ _ _ HR H1) as [-> _]. exact H4.
  - intros E. apply (stable_writing c h s); auto.
Qed.
Lemma base_le s : Inv s -> bounded s -> Base s -> 0 <= hdr_mxFrame h <= mx s.
Proof. intros HI Hb (_ & (m & H) & _). now apply (version_le s HI h m). Qed.

(** The readers of the first marks have frame [S]. *)
Definition Before (i S : Z) (s : Sys) : Prop :=
  Base s /\ forall c' t, trans s c' = Some t -> 1 <= readLock t < i -> S <= hdr_mxFrame (hdr t).
Lemma stable_before i S : S <= hdr_mxFrame h -> stable c (Before i S).
Proof.
  intros HS s s' HI HI' Hb HR [H1 H2]. assert (HB : Base s') by (now apply (stable_base s)). split; [exact HB|].
  intros c' t Ht Hi. destruct (re_readers _ _ _ HR c' t Ht) as [Ht'| ->]; [now apply (H2 c')|]. pose proof (base_le s' HI' Hb HB). unfold mx in *. lia.
Qed.
Lemma before_next i S y s : Inv s -> Before i S s -> (forall c' t, trans s c' = Some t -> readLock t = i -> Z.min y S <= hdr_mxFrame (hdr t)) -> Before (i + 1) (Z.min y S) s.
Proof.
  intros HI [H1 H2] H3. split; [exact H1|]. intros c' t Ht Hi. destruct (Z.eq_dec (readLock t) i) as [E|]; [now apply (H3 c')|]. specialize (H2 c' t Ht ltac:(lia)). lia.
Qed.

Lemma unlock_mark_safe i k A : 3 <= i -> stable c A -> (forall s L, L WAL_WRITE_LOCK = locks s WAL_WRITE_LOCK -> L WAL_CKPT_LOCK = locks s WAL_CKPT_LOCK -> A s -> A (set_locks L s)) ->
  forall n, safe c done k A -> safe c done (UnlockExclusive i n ;; k)%wal A.
Proof.
  intros Hi HS HA n Hk. assert (Hr : forall j, j < 3 -> in_range i n j = false) by (intros j Hj; apply not_true_is_false; rewrite in_range_spec; lia).
  apply (safe_vis c _ (UnlockExclusive i n) _ _ (fun _ => A)); cbn [Pre]; auto.
  - intros s _ _ _ E. rewrite Hr in E; [discriminate|]. unfold WAL_WRITE_LOCK. lia.
  - intros s env x s' _ _ _ _ Hs E. cbn [exec] in E. injection E as _ <-. apply HA; [| |exact Hs]; rewrite Hr; try reflexivity; unfold WAL_WRITE_LOCK, WAL_CKPT_LOCK; lia.
Qed.
Lemma base_locks s L : L WAL_WRITE_LOCK = locks s WAL_WRITE_LOCK -> L WAL_CKPT_LOCK = locks s WAL_CKPT_LOCK -> Base s -> Base (set_locks L s).
Proof.
  intros E1 E2 ((H1 & H2) & H3 & H4). split; [split; [unfold owned in *; cbn [set_locks locks]; congruence|exact H2]|]. split; [exact H3|].
  intros Hw. destruct (H4 Hw) as [[K1 K2] K3]. split; [split; [unfold owned in *; cbn [set_locks locks]; congruence|exact K2]|exact K3].
Qed.
Lemma before_locks i S s L : L WAL_WRITE_LOCK = locks s WAL_WRITE_LOCK -> L WAL_CKPT_LOCK = locks s WAL_CKPT_LOCK -> Before i S s -> Before i S (set_locks L s).
Proof. intros E1 E2 [H1 H2]. split; [now apply base_locks|exact H2]. Qed.

(** A lock on marks. *)
Lemma lock_marks_safe i n k A : 3 <= i -> stable c A ->
  (forall s L, L WAL_WRITE_LOCK = locks s WAL_WRITE_LOCK -> L WAL_CKPT_LOCK = locks s WAL_CKPT_LOCK -> A s -> A (set_locks L s)) ->
  (forall x, x <> SQLITE_OK -> safe c done (k x) A) -> safe c done (k SQLITE_OK) (fun s => A s /\ forall j, i <= j < i + n -> owned c j s) ->
  safe c done (x <- LockExclusive i n ;; k x)%wal A.
Proof.
  intros Hi HS HA H1 H2. assert (Hr : forall j, j < 3 -> in_range i n j = false) by (intros j Hj; apply not_true_is_false; rewrite in_range_spec; lia).
  apply (safe_vis c _ (LockExclusive i n) _ _ (fun x s => A s /\ (x = SQLITE_OK -> forall j, i <= j < i + n -> owned c j s))); cbn [Pre]; auto.
  - intros x. apply stable_and; [exact HS|]. apply stable_imp. intros s s' _ _ _ HR H j Hj. now apply (re_owned _ _ _ HR), H.
  - intros s env x s' _ _ _ _ Hs E. destruct (exec_exclusive _ _ _ _ _ _ _ E) as [(-> & _ & ->)|[Hx ->]]; [|split; [exact Hs|contradiction]]. split.
    + apply HA; [| |exact Hs]; rewrite Hr; try reflexivity; unfold WAL_WRITE_LOCK, WAL_CKPT_LOCK; lia.
    + intros _ j Hj. unfold owned. cbn [set_locks locks]. now rewrite (proj2 (in_range_spec _ _ _) Hj).
  - intros x. destruct (Z.eq_dec x SQLITE_OK) as [->|Hx]; (eapply safe_weak; [|eauto]); cbv beta; intros s _ _ [K1 K2]; auto.
Qed.

Lemma not_at_mark i s c' t : Inv s -> owned c (WAL_READ_LOCK i) s -> trans s c' = Some t -> readLock t <> i.
Proof. intros HI Ho Ht <-. exact (held_owned _ _ _ _ (proj2 (rd_lock _ _ _ (iv_readers _ HI c' t Ht))) Ho). Qed.

Lemma safe_frames_safe k n : forall i S, i + Z.of_nat n = 5 -> 1 <= i -> S <= hdr_mxFrame h ->
  (forall S rc, S <= hdr_mxFrame h -> safe c done (k S rc) (fun s => Base s /\ (rc = SQLITE_OK -> Before 5 S s))) -> safe c done (safe_frames n i S k) (Before i S).
Proof.
  induction n as [|n IH]; intros i S Hn Hi HS Hk; cbn [safe_frames].
  { replace i with 5 by lia. eapply safe_weak; [|apply Hk, HS]. intros s _ _ H. split; [apply H|auto]. }
  apply (safe_load c _ (LoadMark i) (fun s => aReadMark s i) _ _ (fun y s => Before i S s /\ Before (i + 1) (Z.min y S) s)); cbn [Pre]; auto.
  - intros y. apply stable_and; apply stable_before; lia.
  - intros s HI _ Hs. split; [exact Hs|]. apply before_next; [exact HI|exact Hs|]. intros c' t Ht <-. pose proof (rd_log _ _ _ (iv_readers _ HI c' t Ht) Hi). lia.
  - intros y. destruct (Z.ltb_spec y S) as [Hy|Hy].
    + apply lock_marks_safe; [unfold WAL_READ_LOCK; lia|apply stable_and; apply stable_before; lia| | |].
      * intros s L E1 E2 [H1 H2]. split; now apply before_locks.
      * intros x Hx. rewrite (proj2 (Z.eqb_neq _ _) Hx). destruct (x =? SQLITE_BUSY); [eapply safe_weak; [|apply (IH (i + 1) y); try lia; exact Hk]|eapply safe_weak; [|apply Hk, HS]].
        -- intros s _ _ [_ H]. now rewrite Z.min_l in H by lia.
        -- intros s _ _ [H _]. split; [apply H|contradiction].
      * cbn [Z.eqb SQLITE_OK]. eapply (safe_weak c _ _ _ (fun s => Before (i + 1) S s /\ owned c (WAL_READ_LOCK i) s)).
        { intros s HI _ [[H _] Ho]. assert (Ho' : owned c (WAL_READ_LOCK i) s) by (apply Ho; lia). split; [|exact Ho']. rewrite <- (Z.min_id S). apply before_next; [exact HI|exact H|].
          intros c' t Ht E. destruct (not_at_mark i s c' t HI Ho' Ht E). }
        apply store_mark_safe; [lia|apply stable_and; [now apply stable_before|apply stable_owned]|tauto| |].
        { intros s f [H1 H2]. split; [exact H1|exact H2]. }
        apply (safe_weak c _ _ _ (Before (i + 1) S)); [tauto|]. apply unlock_mark_safe; [unfold WAL_READ_LOCK; lia|now apply stable_before|intros s L; apply before_locks|].
        apply IH; auto; lia.
    + eapply safe_weak; [|apply (IH (i + 1) S); auto; lia]. intros s _ _ [_ H]. now rewrite Z.min_r in H by lia.
Qed.

(** Frames [b + 1 .. S] are copied. *)
Section Copy.
Variables b S : Z.
Hypothesis Hb : 0 <= b < S.
Hypothesis HS : S <= hdr_mxFrame h.

Definition Range (s : Sys) : Prop := Before 5 S s /\ nBackfill s = b.
Lemma stable_range : stable c Range.
Proof.
  intros s s' HI HI' Hbd HR [H1 H2]. split; [now apply (stable_before 5 S HS s)|]. pose proof (base_le s HI (rely_bounded _ _ _ HR Hbd) (proj1 H1)).
  destruct (re_ckpt _ _ _ HR (proj1 (proj1 (proj1 H1)))) as [_ ->]; [exact H2|lia].
Qed.
Lemma range_locks s L : L WAL_WRITE_LOCK = locks s WAL_WRITE_LOCK -> L WAL_CKPT_LOCK = locks s WAL_CKPT_LOCK -> Range s -> Range (set_locks L s).
Proof. intros E1 E2 [H1 H2]. split; [now apply before_locks|exact H2]. Qed.

Definition Listed (es : list (Z * Z)) (s : Sys) : Prop := Range s /\ es = iterator (frame_page s) (Z.to_nat (hdr_mxFrame h)).
Lemma stable_listed es : stable c (Listed es).
Proof.
  intros s s' HI HI' Hbd HR [H1 H2]. split; [now apply (stable_range s)|]. pose proof (base_le s HI (rely_bounded _ _ _ HR Hbd) (proj1 (proj1 H1))). rewrite H2.
  apply iterator_ext. intros f Hf. symmetry. apply (re_frames _ _ _ HR). lia.
Qed.
Lemma listed_in es s p f : Listed es s -> In (p, f) es <-> f = new s p 1 (hdr_mxFrame h) /\ f <> 0.
Proof. intros [_ ->]. rewrite (proj2 (iterator_spec _ _)). unfold new. now rewrite Z2Nat.id by lia. Qed.
Lemma listed_frame es s p f : Listed es s -> In (p, f) es -> frame_page s f = p /\ 1 <= f <= hdr_mxFrame h.
Proof.
  intros HL Hin. apply (listed_in es s p f HL) in Hin as [-> Hf]. unfold new in *. destruct (newest_is (frame_page s) p 1 (hdr_mxFrame h) ltac:(lia)) as [[E _]|(K1 & _ & K3 & _)]; [contradiction|auto].
Qed.

(** The pages of the entries [ds] are copied. *)
Definition Filling (es ds : list (Z * Z)) (s : Sys) : Prop :=
  (Listed es s /\ owned c (WAL_READ_LOCK 0) s) /\ forall p f, In (p, f) ds -> In (p, f) es /\ (b < f <= S -> p <= hdr_nPage h -> db s p = frame_data s f).
Lemma stable_filling es ds : stable c (Filling es ds).
Proof.
  intros s s' HI HI' Hbd HR [[H1 H2] H3]. split; [split; [now apply (stable_listed es s)|now apply (re_owned _ _ _ HR)]|]. intros p f Hin. destruct (H3 p f Hin) as [K1 K2]. split; [exact K1|].
  intros Hf Hp. pose proof (base_le s HI (rely_bounded _ _ _ HR Hbd) (proj1 (proj1 (proj1 H1)))). destruct (listed_frame es s p f H1 K1).
  destruct (re_frames _ _ _ HR f ltac:(lia)) as [_ ->]. rewrite (re_db _ _ _ HR H2). auto.
Qed.

Lemma filling_one es ds p f s : Filling es ds s -> In (p, f) es -> (b < f <= S -> p <= hdr_nPage h -> db s p = frame_data s f) -> Filling es (ds ++ [(p, f)]) s.
Proof. intros [H1 H2] H3 H4. split; [exact H1|]. intros q g Hin. apply in_app_iff in Hin as [Hin|[E|[]]]; [now apply H2|]. injection E as <- <-. auto. Qed.

(** One page. *)
Lemma copy_page_safe es ds p f k : In (p, f) es -> b < f <= S -> safe c done k (Filling es (ds ++ [(p, f)])) ->
  safe c done (d <- ReadFrame f ;; WriteDb p d ;; k)%wal (Filling es ds).
Proof.
  intros Hin Hf Hk. apply (safe_load c _ (ReadFrame f) (fun s => frame_data s f) _ _ (fun d s => Filling es ds s /\ frame_data s f = d)); cbn [Pre]; auto.
  - intros d s s' HI HI' Hbd HR [H1 H2]. split; [now apply (stable_filling es ds s)|]. pose proof (base_le s HI (rely_bounded _ _ _ HR Hbd) (proj1 (proj1 (proj1 (proj1 (proj1 H1)))))).
    rewrite <- H2. apply (re_frames _ _ _ HR). lia.
  - intros d. apply (safe_vis c _ (WriteDb p d) _ _ (fun _ => Filling es (ds ++ [(p, f)]))); cbn [Pre]; auto.
    + intros _. apply stable_filling.
    + intros s HI Hbd [[[H1 H2] _] _]. pose proof (proj1 (proj1 H1)) as HB. pose proof (base_le s HI Hbd (proj1 HB)). split; [apply HB|]. split; [exact H2|]. exists f.
      rewrite (proj2 (proj1 H1)). split; [apply (listed_frame es s p f H1 Hin)|]. split; [lia|]. intros c' t Ht Hr. pose proof (rd_lock _ _ _ (iv_readers _ HI c' t Ht)) as [Hl _].
      pose proof (proj2 HB c' t Ht ltac:(lia)). lia.
    + intros s env x s' _ _ _ _ [HF Hd] E. cbn [exec] in E. injection E as _ <-. assert (HL : Listed es s) by apply HF. split; [exact (proj1 HF)|]. intros q g Hq.
      assert (Hqe : In (q, g) es) by (apply in_app_iff in Hq as [Hq|[Eq|[]]]; [now apply (proj2 HF)|now injection Eq as <- <-]). split; [exact Hqe|]. cbn [set_db db frame_data]. unfold upd.
      destruct (Z.eqb_spec q p) as [->|Hn].
      * apply (listed_in es s p _ HL) in Hqe as [-> _]. apply (listed_in es s p _ HL) in Hin as [<- _]. auto.
      * apply in_app_iff in Hq as [Hq|[Eq|[]]]; [now apply (proj2 HF)|]. injection Eq as -> ->. contradiction.
Qed.

Lemma copy_pages_safe es k qs : forall ds, ds ++ qs = es -> safe c done (k SQLITE_OK) (Filling es es) -> (forall rc ds, rc <> SQLITE_OK -> safe c done (k rc) (Filling es ds)) ->
  safe c done (copy_pages qs b S (hdr_nPage h) k) (Filling es ds).
Proof.
  induction qs as [|[p f] qs IH]; intros ds E H1 H2; cbn [copy_pages]; [rewrite app_nil_r in E; now rewrite E|].
  apply (safe_vis c _ Interrupted _ _ (fun _ => Filling es ds)); cbn [Pre]; auto; [intros _; apply stable_filling|intros s env x s' _ _ _ _ Hs Ex; cbn [exec] in Ex; injection Ex as _ <-; exact Hs|].
  intros rc. destruct (Z.eqb_spec rc 0) as [->|Hr]; cbn [negb]; [|now apply H2]. assert (Hin : In (p, f) es) by (rewrite <- E; apply in_or_app; right; now left).
  assert (E' : (ds ++ [(p, f)]) ++ qs = es) by (now rewrite <- app_assoc). destruct (_ || _) eqn:Es.
  - apply (safe_weak c _ _ _ (Filling es (ds ++ [(p, f)]))); [|now apply IH]. intros s _ _ Hs. apply filling_one; [exact Hs|exact Hin|]. intros Hf Hp.
    rewrite !orb_true_iff, Z.leb_le, !Z.ltb_lt in Es. lia.
  - rewrite !orb_false_iff, Z.leb_gt, !Z.ltb_ge in Es. apply copy_page_safe; [exact Hin|lia|]. now apply IH.
Qed.

(** A page whose newest frame is not after [S] belongs to the checkpoint. *)
Lemma page_in_size s p d : Inv s -> bounded s -> Base s -> forall h' m', version s h' m' -> hdr_mxFrame h <= hdr_mxFrame h' -> m' p = Some d ->
  new s p 1 (hdr_mxFrame h') <= hdr_mxFrame h -> p <= hdr_nPage h.
Proof.
  intros HI Hbd (_ & (m & HV) & _) h' m' HV' Hle Hp Hn. apply (iv_size _ HI h m p d (proj1 HV)). exact (iv_older _ HI h m h' m' p d HV HV' Hle Hp Hn).
Qed.

Lemma filled_db es s : Inv s -> bounded s -> Filling es es s -> forall p d, current s p = Some d -> new s p 1 (mx s) <= S -> db s p = d.
Proof.
  intros HI Hbd [[HL _] HD] p d Hp Hn. pose proof (proj1 (proj1 (proj1 HL))) as HB. pose proof (base_le s HI Hbd HB) as Hle.
  destruct (Z.le_gt_cases (new s p 1 (mx s)) b) as [Hlow|Hhigh]; [apply (iv_db _ HI p d Hp); rewrite (proj2 (proj1 HL)); exact Hlow|].
  assert (En : new s p 1 (hdr_mxFrame h) = new s p 1 (mx s)) by (apply newest_same; [exact Hle|unfold new in Hn; lia]).
  assert (Hin : In (p, new s p 1 (mx s)) es) by (apply (listed_in es s p _ HL); rewrite En; split; [reflexivity|lia]).
  rewrite (proj2 (HD p _ Hin)); [|lia|].
  - apply (iv_frames _ HI (header s) (current s) p d (now_version s HI) Hp). unfold mx in Hhigh. lia.
  - apply (page_in_size s p d HI Hbd HB (header s) (current s) (now_version s HI)); [apply Hle|exact Hp|]. unfold mx in Hn. lia.
Qed.

Lemma unlock_zero_safe k A : (forall s, A s -> Base s) -> safe c done k Base -> safe c done (UnlockExclusive (WAL_READ_LOCK 0) 1 ;; k)%wal A.
Proof.
  intros HA Hk. apply (safe_weak c _ _ _ Base); [auto|]. apply unlock_mark_safe; [unfold WAL_READ_LOCK; lia|apply stable_base|intros s L; apply base_locks|exact Hk].
Qed.

Lemma store_backfill_safe es k : safe c done k Base -> safe c done (StoreBackfill S ;; UnlockExclusive (WAL_READ_LOCK 0) 1 ;; k)%wal (Filling es es).
Proof.
  intros Hk. apply (safe_vis c _ (StoreBackfill S) _ _ (fun _ => Base)); cbn [Pre].
  - intros _. apply stable_base.
  - intros s HI Hbd HF. left. pose proof (proj1 (proj1 HF)) as HL. pose proof (proj1 (proj1 (proj1 HL))) as HB. pose proof (base_le s HI Hbd HB). split; [apply HB|]. split; [apply HF|].
    rewrite (proj2 (proj1 HL)). split; [lia|]. split; [lia|]. now apply (filled_db es).
  - intros s env x s' HI Hbd _ _ HF E. cbn [exec] in E. injection E as _ <-. pose proof (proj1 (proj1 (proj1 (proj1 (proj1 HF))))) as HB. pose proof (base_le s HI Hbd HB).
    destruct HB as (K1 & K2 & K3). split; [exact K1|]. split; [exact K2|]. intros Hw. destruct (K3 Hw) as [[K4 K5] K6]. split; [split; [exact K4|]|exact K6]. unfold mx in *. cbn [set_backfill nBackfill header]. lia.
  - intros _. apply unlock_zero_safe; auto.
Qed.

Lemma truncate_safe es k : hdr_mxFrame h <= S -> safe c done k (Filling es es) -> safe c done (TruncateDb (hdr_nPage h) ;; k)%wal (Filling es es).
Proof.
  intros HSh Hk. apply (safe_vis c _ (TruncateDb (hdr_nPage h)) _ _ (fun _ => Filling es es)); cbn [Pre]; auto.
  - intros _. apply stable_filling.
  - intros s HI Hbd [[HL Ho] _]. pose proof (proj1 (proj1 HL)) as HBf. pose proof (proj1 HBf) as HB. pose proof (base_le s HI Hbd HB) as Hle. split; [apply HB|]. split; [exact Ho|]. rewrite (proj2 (proj1 HL)). split.
    + intros p d Hp Hc. destruct (Z.le_gt_cases (new s p 1 (mx s)) b) as [Hlow|]; [|assumption].
      pose proof (page_in_size s p d HI Hbd HB (header s) (current s) (now_version s HI) (proj2 Hle) Hc). unfold mx in Hlow. lia.
    + intros c' t m p d Ht Hr Hm Hp Hn Hz. pose proof (iv_readers _ HI c' t Ht) as [[Rl _] _ _ R4]. destruct (R4 Hr) as (K1 & _ & K3). pose proof (proj2 HBf c' t Ht ltac:(lia)) as HSt.
      pose proof (newest_below (frame_page s) p (minFrame t) (hdr_mxFrame (hdr t)) ltac:(lia) ltac:(lia) Hz) as Hlow. rewrite (proj2 (proj1 HL)) in K3.
      pose proof (page_in_size s p d HI Hbd HB (hdr t) m (conj Hm K1) ltac:(lia) Hp). unfold new in *. lia.
  - intros s env x s' _ _ _ _ [H1 H2] E. cbn [exec] in E. injection E as _ <-. split; [exact H1|]. intros p f Hin. destruct (H2 p f Hin) as [K1 K2]. split; [exact K1|]. intros Hf Hp.
    cbn [set_db db frame_data]. rewrite (proj2 (Z.leb_le _ _) Hp). auto.
Qed.

Lemma backfill_safe es k : (forall rc, safe c done (k rc) Base) -> safe c done (backfill h es S k) (Filling es []).
Proof.
  intros Hk. unfold backfill. apply (safe_load c _ LoadBackfill nBackfill _ _ (fun x s => Filling es [] s /\ x = b)); cbn [Pre]; auto.
  - intros x. apply stable_and; [apply stable_filling|apply stable_pure].
  - intros s _ _ HF. split; [exact HF|]. apply HF.
  - intros x. apply safe_pure. intros ->. apply copy_pages_safe; [reflexivity| |].
    + cbn [Z.eqb SQLITE_OK]. apply (safe_load c _ ReadHdr header _ _ (fun x s => Filling es es s /\ hdr_mxFrame h <= hdr_mxFrame x)); cbn [Pre]; auto.
      * intros x. apply stable_and; [apply stable_filling|apply stable_pure].
      * intros s HI Hbd HF. split; [exact HF|]. apply (base_le s HI Hbd). apply HF.
      * intros live. apply safe_pure. intros Hlive. destruct (Z.eqb_spec S (hdr_mxFrame live)); [apply truncate_safe; [lia|]|]; now apply store_backfill_safe.
    + intros rc ds Hr. rewrite (proj2 (Z.eqb_neq _ _) Hr). apply unlock_zero_safe; [|auto]. intros s HF. apply HF.
Qed.
End Copy.

Lemma copy_back_safe k : (forall rc, safe c done (k rc) Base) -> safe c done (copy_back h k) Base.
Proof.
  intros Hk. unfold copy_back. apply (safe_load c _ LoadBackfill nBackfill _ _ (fun x s => Base s /\ 0 <= x)); cbn [Pre]; auto.
  - intros x. apply stable_and; [apply stable_base|apply stable_pure].
  - intros s HI _ HB. split; [exact HB|apply (iv_backfill _ HI)].
  - intros b0. apply safe_pure. intros Hb0. destruct (Z.ltb_spec b0 (hdr_mxFrame h)); [|auto].
    apply (safe_weak c _ _ _ (Before 1 (hdr_mxFrame h))); [intros s _ _ HB; split; [exact HB|lia]|]. apply safe_frames_safe; [reflexivity|lia|lia|].
    intros S rc HS. destruct (Z.eqb_spec rc SQLITE_OK) as [->|Hr]; cbn [negb]; [|apply (safe_weak c _ _ _ Base); [tauto|auto]].
    apply (safe_load c _ LoadBackfill nBackfill _ _ (fun b s => (Base s /\ (0 <= b < S -> Range b S s)) /\ 0 <= b)); cbn [Pre]; auto.
    + intros b s s' HI HI' Hbd HR [[H1 H2] H3]. split; [|exact H3]. split; [now apply (stable_base s)|]. intros Hb. apply (stable_range b S Hb HS s); auto.
    + intros s HI _ [H1 H2]. split; [split; [exact H1|]|apply (iv_backfill _ HI)]. intros _. split; [auto|reflexivity].
    + intros b. apply safe_pure. intros Hb0'. destruct (Z.ltb_spec b S) as [Hlt|]; [|apply (safe_weak c _ _ _ Base); [tauto|auto]]. assert (Hb : 0 <= b < S) by lia.
      apply (safe_load c _ (Iterator (hdr_mxFrame h)) (fun s => iterator (frame_page s) (Z.to_nat (hdr_mxFrame h))) _ _ (Listed b S)); cbn [Pre]; auto.
      * intros es. now apply stable_listed.
      * intros s _ _ [_ HR]. split; [auto|reflexivity].
      * intros es. apply lock_marks_safe; [unfold WAL_READ_LOCK; lia|now apply stable_listed| | |].
        -- intros s L E1 E2 [H1 H2]. split; [now apply range_locks|exact H2].
        -- intros x Hx. rewrite (proj2 (Z.eqb_neq _ _) Hx). apply (safe_weak c _ _ _ Base); [intros s _ _ HL; apply HL|apply Hk].
        -- cbn [Z.eqb SQLITE_OK]. apply (safe_weak c _ _ _ (Filling b S es [])).
           ++ intros s _ _ [HL Ho]. split; [split; [exact HL|apply Ho; lia]|]. intros p f [].
           ++ apply backfill_safe; auto.
Qed.

(** What the end of a checkpoint needs. *)
Definition Unlocking (s : Sys) : Prop := wr = true -> Writer c s.
Lemma stable_unlocking : stable c Unlocking.
Proof. apply stable_imp, stable_writer. Qed.
Lemma base_unlocking s : Base s -> Unlocking s.
Proof. intros (_ & _ & H) E. apply (H E). Qed.
Lemma writer_locks s L : L WAL_WRITE_LOCK = locks s WAL_WRITE_LOCK -> Writer c s -> Writer c (set_locks L s).
Proof. intros E [H1 H2]. split; [unfold owned in *; cbn [set_locks locks]; congruence|exact H2]. Qed.

Lemma walCheckpoint_safe eMode salt1 k : (eMode <> SQLITE_CHECKPOINT_PASSIVE -> wr = true) -> (forall rc, safe c done (k rc) Unlocking) ->
  safe c done (walCheckpoint eMode h salt1 k) Base.
Proof.
  intros Hm Hk0. assert (Hk : forall rc, safe c done (k rc) Base) by (intros rc; apply (safe_weak c _ _ _ Unlocking); [intros s _ _; apply base_unlocking|apply Hk0]).
  assert (Hun : forall rc, safe c done (UnlockExclusive (WAL_READ_LOCK 1) (WAL_NREADER - 1) ;; k rc)%wal Unlocking).
  { intros rc. apply unlock_mark_safe; [unfold WAL_READ_LOCK; lia|apply stable_unlocking| |apply Hk0]. intros s L E _ H Hw. now apply writer_locks; [|apply H]. }
  unfold walCheckpoint. apply copy_back_safe. intros rc. destruct (_ && _) eqn:Ec; [|apply Hk]. apply andb_true_iff in Ec as [_ Ec]. apply negb_true_iff, Z.eqb_neq in Ec. specialize (Hm Ec).
  apply (safe_load c _ LoadBackfill nBackfill _ _ (fun b s => Base s /\ (hdr_mxFrame h <= b -> mx s <= nBackfill s))); cbn [Pre]; auto.
  - intros b s s' HI HI' Hbd HR [H1 H2]. split; [now apply (stable_base s)|]. intros Hle. destruct (proj2 (proj2 H1) Hm) as [[K1 _] _]. apply (re_zero _ _ _ HR); [|auto]. apply (re_write _ _ _ HR K1).
  - intros s _ _ HB. split; [exact HB|]. destruct (proj2 (proj2 HB) Hm) as [_ <-]. auto.
  - intros b. destruct (Z.ltb_spec b (hdr_mxFrame h)) as [|Hge]; [apply (safe_weak c _ _ _ Base); [tauto|auto]|].
    destruct (SQLITE_CHECKPOINT_RESTART <=? eMode); [|apply (safe_weak c _ _ _ Base); [tauto|auto]].
    set (A := fun s => Base s /\ mx s <= nBackfill s). apply (safe_weak c _ _ _ A); [intros s _ _ [H1 H2]; split; auto|]. apply lock_marks_safe.
    + unfold WAL_READ_LOCK. lia.
    + intros s s' HI HI' Hbd HR [H1 H2]. split; [now apply (stable_base s)|]. destruct (proj2 (proj2 H1) Hm) as [[K1 _] _]. apply (re_zero _ _ _ HR); [|auto]. apply (re_write _ _ _ HR K1).
    + intros s L E1 E2 [H1 H2]. split; [now apply base_locks|exact H2].
    + intros x Hx. rewrite (proj2 (Z.eqb_neq _ _) Hx). apply (safe_weak c _ _ _ Base); [intros s _ _ H; apply H|auto].
    + cbn [Z.eqb SQLITE_OK]. destruct (eMode =? SQLITE_CHECKPOINT_TRUNCATE); [|apply (safe_weak c _ _ _ Unlocking); [intros s _ _ [[H _] _]; now apply base_unlocking|apply Hun]].
      eapply safe_weak; [|apply (walRestartHdr_safe c h None); [discriminate|]].
      * intros s _ _ [[H1 H2] H3]. destruct (proj2 (proj2 H1) Hm) as [[K1 _] K2]. split; [split; [exact K1|]|split; [auto|apply H1]].
        intros i Hi. apply H3. unfold WAL_READ_LOCK, WAL_NREADER. lia.
      * intros h' Hh. apply (safe_vis c _ TruncateLog _ _ (fun _ => Unlocking)); cbn [Pre]; auto; [intros _; apply stable_unlocking| |].
        -- intros s _ _ [[[H1 _] H2] _]. split; [exact H1|]. unfold mx. now rewrite H2.
        -- intros s env x s' _ _ _ _ [[[H1 H2] H3] _] E _. cbn [exec] in E. injection E as _ <-. split; [exact H1|exact H2].
Qed.
End Checkpoint.

Section Checkpointer.
Variable c : Z.

(** The connection has the lock of the checkpointer. *)
Definition Alone (s : Sys) : Prop := owned c WAL_CKPT_LOCK s /\ trans s c = None.
Lemma stable_alone : stable c Alone.
Proof. apply stable_and; [apply stable_owned|apply stable_trans]. Qed.

Lemma unlock_safe i k A : (forall s, A s -> i = WAL_WRITE_LOCK -> Writer c s) -> safe c done k (fun _ => True) -> safe c done (UnlockExclusive i 1 ;; k)%wal A.
Proof.
  intros HA Hk. apply (safe_vis c _ (UnlockExclusive i 1) _ _ (fun _ _ => True)); cbn [Pre]; auto; [intros _; apply stable_pure|].
  intros s _ _ Hs E. apply in_range_spec in E. apply (HA s Hs). lia.
Qed.

Lemma read_base wr h s : Inv s -> Alone s -> (wr = true -> Writer c s) -> header s = h -> Base c wr h s.
Proof.
  intros HI HA Hw <-. split; [exact HA|]. split; [exists (current s); now apply now_version|]. intros E. split; [auto|reflexivity].
Qed.

Lemma sqlite3WalCheckpoint_safe eMode salt1 : safe c done (sqlite3WalCheckpoint eMode salt1) (fun s => trans s c = None).
Proof.
  unfold sqlite3WalCheckpoint. destruct (eMode =? SQLITE_CHECKPOINT_NOOP).
  { apply (safe_load c _ ReadHdr header _ _ (fun _ _ => True)); cbn [Pre]; auto; [intros _; apply stable_pure|]. intros h. now cbn [safe]. }
  apply (safe_vis c _ (LockExclusive WAL_CKPT_LOCK 1) _ _ (fun x s => trans s c = None /\ (x = SQLITE_OK -> owned c WAL_CKPT_LOCK s))); cbn [Pre]; auto.
  - intros x. apply stable_and; [apply stable_trans|apply stable_imp, stable_owned].
  - intros s env x s' _ _ _ _ Ht E. destruct (exec_exclusive _ _ _ _ _ _ _ E) as [(-> & _ & ->)|[Hx ->]]; (split; [exact Ht|]); [reflexivity|contradiction].
  - intros x. destruct (Z.eqb_spec x SQLITE_OK) as [->|Hx]; cbn [negb]; [|cbn [safe]; intros; exact I].
    apply (safe_weak c _ _ _ Alone); [intros s _ _ [H1 H2]; split; [auto|exact H1]|].
    assert (Hfin : forall v, safe c done (UnlockExclusive WAL_CKPT_LOCK 1 ;; Ret v)%wal (Unlocking c false)) by (intros v; apply unlock_safe; [discriminate|now cbn [safe]]).
    assert (Hfin' : forall v, safe c done (UnlockExclusive WAL_WRITE_LOCK 1 ;; UnlockExclusive WAL_CKPT_LOCK 1 ;; Ret v)%wal (Unlocking c true))
      by (intros v; apply unlock_safe; [intros s H _; now apply H|]; apply unlock_safe; [discriminate|now cbn [safe]]).
    set (passive := Vis ReadHdr _). assert (Hpas : safe c done passive Alone).
    { apply (safe_load c _ ReadHdr header _ _ (Base c false)); cbn [Pre]; auto; [intros h; apply stable_base|intros s HI _ HA; now apply read_base|]. intros h. now apply walCheckpoint_safe. }
    destruct (eMode =? SQLITE_CHECKPOINT_PASSIVE); [exact Hpas|].
    apply (safe_vis c _ (LockExclusive WAL_WRITE_LOCK 1) _ _ (fun x s => Alone s /\ (x = SQLITE_OK -> Writer c s))); cbn [Pre]; auto.
    + intros x. apply stable_and; [apply stable_alone|apply stable_imp, stable_writer].
    + intros s env x s' HI _ _ _ HA E. destruct (write_lock c env s x s' HI E) as [E1 E2]. split; [|exact E2]. split; [|rewrite E1; apply HA].
      destruct (exec_exclusive _ _ _ _ _ _ _ E) as [(_ & _ & ->)|[_ ->]]; apply HA.
    + intros x. destruct (Z.eqb_spec x SQLITE_OK) as [->|Hx].
      * apply (safe_load c _ ReadHdr header _ _ (Base c true)); cbn [Pre]; auto; [intros h; apply stable_base|intros s HI _ [HA HW]; now apply read_base; auto|].
        intros h. now apply walCheckpoint_safe.
      * destruct (x =? SQLITE_BUSY); [apply (safe_weak c _ _ _ Alone); [tauto|exact Hpas]|]. apply (safe_weak c _ _ _ (Unlocking c false)); [discriminate|apply Hfin].
Qed.
End Checkpointer.

(** ** Runs *)

Definition is_restart {B} (o : op B) : bool := match o with RestartHdr _ => true | _ => false end.
Definition owns (c : Z) (l : lock_state) : bool := match l with Exclusive x => x =? c | _ => false end.
Definition is_exclusive (l : lock_state) : bool := match l with Exclusive _ => true | _ => false end.

(** The log is not restarted while another connection has the lock of the
    checkpointer, and a writer does not end before [nBackfill] is set to 0. *)
Definition orderly (w : world) (e : event) : bool :=
  let s := sys w in
  match e with
  | Start _ _ => true
  | Access c _ =>
    match busy w c with
    | Some (_, Vis o _) => negb (is_restart o) || negb (is_exclusive (locks s WAL_CKPT_LOCK)) || owns c (locks s WAL_CKPT_LOCK)
    | _ => true
    end
  | Kill c => negb (owns c (locks s WAL_WRITE_LOCK)) || (nBackfill s <=? hdr_mxFrame (header s))
  end.
Fixpoint along (w : world) (es : list event) : bool :=
  match es with [] => true | e :: es => orderly w e && along (step w e) es end.

(** The result of a request. *)
Definition post (c : Z) (r : request) (v : Z) (s : Sys) : Prop :=
  match r with Read p => exists t, Answer c t p v s | _ => True end.

Lemma program_safe c r t m : program r t = Some m -> (forall t', t = Some t' -> 0 <= readLock t') -> safe c (post c r) m (fun s => trans s c = t).
Proof.
  assert (Hd : forall r m A, (forall p, r <> Read p) -> safe c done m A -> safe c (post c r) m A).
  { intros r0 m0 A Hr. apply safe_post. intros v s _. destruct r0; cbn [post]; try exact I. now destruct (Hr p). }
  intros E Ht. destruct r, t as [t|]; cbn [program] in E; try discriminate E; [| | |destruct ps as [|a ps]; [discriminate|]|]; injection E as <-.
  - apply Hd; [discriminate|]. apply (safe_post c (Began c (fun _ => True) false {| iChange := 0; hdr_mxFrame := 0; hdr_nPage := 0; hdr_aSalt := (0, 0) |})); [intros; exact I|].
    eapply safe_weak; [|apply begin_loop_safe; split; [apply stable_pure|auto]]. intros s _ _ Hs. split; [exact I|exact Hs].
  - apply Hd; [discriminate|]. apply (safe_vis c _ Leave _ _ (fun _ _ => True)); cbn [Pre safe]; try (intros; exact I). intros _. apply stable_pure.
  - apply (safe_post c (Answer c t p)); [intros v s Hs; now exists t|]. apply read_page_safe. auto.
  - apply Hd; [discriminate|]. apply write_transaction_safe; [auto|discriminate].
  - apply Hd; [discriminate|]. apply sqlite3WalCheckpoint_safe.
Qed.

Record Running (w : world) : Prop := {
  ru_inv : Inv (sys w);
  ru_safe : forall c r m, busy w c = Some (r, m) -> exists A, stable c A /\ A (sys w) /\ safe c (post c r) m A;
  ru_reads : forall hd p v, In (hd, p, v) (reads w) -> exists m, In (hd, m) (hist (sys w)) /\ forall d, m p = Some d -> v = d }.

Lemma read_kept c s s' (hd : WalIndexHdr) (p v : Z) : Rely c s s' -> (exists m, In (hd, m) (hist s) /\ forall d, m p = Some d -> v = d) ->
  exists m, In (hd, m) (hist s') /\ forall d, m p = Some d -> v = d.
Proof. intros HR (m & Hm & Hd). exists m. split; [|exact Hd]. destruct (re_hist _ _ _ HR) as [[_ ->]|(m' & ->)]; [exact Hm|now right]. Qed.

(** The others go on after an access or the end of [c]. *)
Lemma others_safe c w s' : Running w -> Inv s' -> bounded s' -> (forall c', c' <> c -> Rely c' (sys w) s') ->
  forall c' r m, c' <> c -> busy w c' = Some (r, m) -> exists A, stable c' A /\ A s' /\ safe c' (post c' r) m A.
Proof.
  intros HW HI Hb HR c' r m Hc Hm. destruct (ru_safe _ HW c' r m Hm) as (A & HA & Hs & Hsafe). exists A. split; [exact HA|]. split; [|exact Hsafe].
  apply (HA (sys w)); auto. apply (ru_inv _ HW).
Qed.

Lemma finish_running c r m s' w : Running w -> Inv s' -> bounded s' -> (forall c', c' <> c -> Rely c' (sys w) s') ->
  (exists A, stable c A /\ A s' /\ safe c (post c r) m A) -> Running (finish c r m s' w).
Proof.
  intros HW HI Hb HR (A & HA & Hs & Hsafe). pose proof (others_safe c w s' HW HI Hb HR) as Ho.
  assert (Hreads : forall hd p v, In (hd, p, v) (reads w) -> exists m, In (hd, m) (hist s') /\ forall d, m p = Some d -> v = d).
  { intros hd p v Hin. apply (read_kept (c + 1) (sys w)); [apply HR; lia|]. now apply (ru_reads _ HW). }
  destruct m as [v|B o k]; cbn [finish]; constructor; cbn [sys busy reads]; auto.
  - intros c' r' m'. unfold upd. destruct (Z.eqb_spec c' c); [discriminate|now apply Ho].
  - cbn [safe] in Hsafe. specialize (Hsafe s' HI Hb Hs). destruct r; try exact Hreads. destruct Hsafe as (t & Ht & m & Hm & Hd). rewrite Ht.
    intros hd q x [E|Hin]; [|now apply Hreads]. injection E as <- <- <-. now exists m.
  - intros c' r' m'. unfold upd. destruct (Z.eqb_spec c' c) as [->|]; [|now apply Ho]. intros [= <- <-]. now exists A.
Qed.

Lemma exec_hist c env B (o : op B) s x s' : exec c env o s = (x, s') -> (length (hist s) <= length (hist s'))%nat.
Proof.
  intros E. destruct o; cbn [exec] in E; try (injection E as _ <-; solve [auto|unfold set_snapshot; destruct (trans _ _); cbn; lia]).
  - destruct (negb (env =? 0)); [injection E as _ <-; auto|]. destruct (lock_shared _ _); injection E as _ <-; auto.
  - destruct (negb (env =? 0)); [injection E as _ <-; auto|]. destruct (forallb _ _); injection E as _ <-; auto.
  - destruct (hdr_eqb _ _); injection E as _ <-; auto.
  - destruct (trans _ _); injection E as _ <-; auto.
Qed.
Lemma finish_sys c r m s w : sys (finish c r m s w) = s.
Proof. now destruct m. Qed.
Lemma step_bounded w e : bounded (sys (step w e)) -> bounded (sys w).
Proof.
  assert (Hle : (length (hist (sys w)) <= length (hist (sys (step w e))))%nat); [|unfold bounded; lia].
  destruct e as [c r|c env|c]; cbn [step]; [| |auto].
  - destruct (busy w c) as [?|]; [auto|]. destruct (program r (trans (sys w) c)); rewrite ?finish_sys; auto.
  - destruct (busy w c) as [[r [v|B o k]]|]; auto. destruct (exec c env o (sys w)) as [x s'] eqn:E. rewrite finish_sys. now apply exec_hist in E.
Qed.
Lemma run_bounded es : forall w, bounded (sys (run w es)) -> bounded (sys w).
Proof. induction es as [|e es IH]; intros w Hb; [exact Hb|]. apply (step_bounded w e), IH, Hb. Qed.

Lemma has_drop c c' l : c' <> c -> (has c' (drop c l) <-> has c' l) /\ (drop c l = Exclusive c' <-> l = Exclusive c').
Proof.
  intros Hc. unfold drop. split.
  - rewrite (proj1 (has_unlock_shared c c' _)), (proj1 (has_unlock_exclusive c c' l)). tauto.
  - rewrite (proj2 (has_unlock_shared c c' _)), (proj2 (has_unlock_exclusive c c' l)). tauto.
Qed.

Lemma kill_running w c : Running w -> orderly w (Kill c) = true -> bounded (sys w) -> Running (step w (Kill c)).
Proof.
  intros HW Ho Hb. pose proof (ru_inv _ HW) as HI. cbn [step orderly] in *. set (s' := set_trans _ _).
  assert (HI' : Inv s').
  { apply inv_locks; [exact HI| | |].
    - intros c' t. unfold upd. destruct (c' =? c); [discriminate|auto].
    - intros c' t. unfold upd. destruct (Z.eqb_spec c' c) as [|Hc]; [discriminate|]. intros _ Hh. now apply (has_drop c c' _ Hc).
    - intros Hno. destruct (owns c (locks (sys w) WAL_WRITE_LOCK)) eqn:Eo; cbn [negb orb] in Ho; [now apply Z.leb_le in Ho|]. apply (iv_write _ HI). intros c' Hc'. apply (Hno c').
      apply (has_drop c c'); [|exact Hc']. intros ->. unfold owned in Hc'. rewrite Hc' in Eo. cbn [owns] in Eo. now rewrite Z.eqb_refl in Eo. }
  assert (HR : forall c', c' <> c -> Rely c' (sys w) s').
  { intros c' Hc. apply rely_locks.
    - intros i Hi. now apply (has_drop c c' _ Hc).
    - intros i Hi. now apply (has_drop c c' _ Hc).
    - unfold upd. now rewrite (proj2 (Z.eqb_neq _ _) Hc).
    - intros c1 t. unfold upd. destruct (c1 =? c); [discriminate|now left]. }
  constructor; cbn [sys busy reads]; [exact HI'| |].
  - intros c' r m. unfold upd. destruct (Z.eqb_spec c' c) as [|Hc]; [discriminate|]. now apply (others_safe c w s' HW HI' Hb HR).
  - exact (ru_reads _ HW).
Qed.

Lemma step_running w e : Running w -> orderly w e = true -> bounded (sys (step w e)) -> Running (step w e).
Proof.
  intros HW Ho Hb. pose proof (ru_inv _ HW) as HI. pose proof (step_bounded _ _ Hb) as Hb0. destruct e as [c r|c env|c]; cbn [step] in *.
  - destruct (busy w c) as [?|]; [exact HW|]. destruct (program r (trans (sys w) c)) as [m|] eqn:Em; [|exact HW]. apply finish_running; auto; [intros; apply rely_refl|].
    exists (fun s => trans s c = trans (sys w) c). split; [apply stable_trans|]. split; [reflexivity|]. apply program_safe; [exact Em|]. intros t Ht. apply (rd_lock _ _ _ (iv_readers _ HI c t Ht)).
  - destruct (busy w c) as [[r [v|B o k]]|] eqn:Eb; try exact HW. destruct (exec c env o (sys w)) as [x s'] eqn:E. rewrite finish_sys in Hb.
    destruct (ru_safe _ HW c r _ Eb) as (A & HA & Hs & Hsafe). cbn [safe] in Hsafe. destruct Hsafe as [Hpre Hk]. specialize (Hpre (sys w) HI Hb0 Hs).
    assert (HI' : Inv s') by exact (exec_inv c env B o (sys w) x s' HI Hb Hpre E). apply finish_running; auto.
    + intros c' Hc. apply (exec_rely c' c (sys w) Hc HI env B o x s' Hpre); [|exact E]. cbn [orderly] in Ho. rewrite Eb in Ho. destruct o; cbn [Orderly]; auto.
      intros c1 H1. unfold owned in H1. rewrite H1 in Ho. cbn [is_restart is_exclusive owns negb orb] in Ho. now apply Z.eqb_eq in Ho.
    + destruct (Hk x) as (A' & K1 & K2 & K3). exists A'. split; [exact K1|]. split; [now apply (K2 (sys w) env)|exact K3].
  - apply kill_running; assumption.
Qed.
Lemma run_running es : forall w, Running w -> along w es = true -> bounded (sys (run w es)) -> Running (run w es).
Proof.
  induction es as [|e es IH]; intros w HW Ha Hb; [exact HW|]. cbn [along] in Ha. apply andb_true_iff in Ha as [Ho Ha]. change (run w (e :: es)) with (run (step w e) es) in *.
  apply IH; [|exact Ha|exact Hb]. apply step_running; [exact HW|exact Ho|]. now apply (run_bounded es).
Qed.

Lemma initial_running h marks pages : hdr_wf h -> hdr_mxFrame h = 0 -> Running (initial h marks pages).
Proof.
  intros Hw H0. assert (Hn : forall p lo, newest no_frames p lo 0 = 0) by reflexivity. constructor; cbn [initial sys busy reads]; [|discriminate|intros hd p v []].
  constructor; unfold version, current, new, mx; cbn [header hist nBackfill frame_page frame_data db trans locks].
  - eexists. eexists. reflexivity.
  - split; [exact Hw|exact I].
  - lia.
  - intros _. lia.
  - intros h1 m1 p d [[E|[]] _] _. injection E as <- _. rewrite H0, Hn. now intros [].
  - intros h1 m1 h2 m2 p d [[E1|[]] _] [[E2|[]] _] _ Hp _. injection E1 as _ <-. injection E2 as _ <-. exact Hp.
  - intros h1 m1 p d [E|[]]. injection E as <- <-. unfold cut. destruct (Z.leb_spec p (hdr_nPage h)); [auto|discriminate].
  - intros p d Hp _. unfold cut in Hp. destruct (_ <=? _); [|discriminate]. now injection Hp as <-.
  - discriminate.
Qed.

(** C11: transactions are isolated.  Take any interleaving of the accesses of any
    number of connections that begin and end read transactions, read pages, write
    and commit or roll back, and checkpoint in any mode, where locks may fail with
    errors and connections may end at any point.  Every page that is read is the
    page of the database at the commit that the header of the transaction stands
    for, however many commits, checkpoints and restarts of the log came in between.
    Excluded are a restart of the log under the checkpoint of another connection
    and the end of a writer inside [walRestartHdr], which lose pages, and runs with
    2^32 commits and restarts, after which a header may come back. *)
Theorem wal_snapshot_isolation h marks pages es hd p v :
  hdr_wf h -> hdr_mxFrame h = 0 -> along (initial h marks pages) es = true ->
  let w := run (initial h marks pages) es in
  Z.of_nat (length (hist (sys w))) < 2 ^ 32 -> In (hd, p, v) (reads w) ->
  exists m, In (hd, m) (hist (sys w)) /\ (forall m', In (hd, m') (hist (sys w)) -> m' = m) /\ forall d, m p = Some d -> v = d.
Proof.
  intros Hw H0 Ha w Hb Hin. assert (HR : Running w) by (apply run_running; [now apply initial_running|exact Ha|exact Hb]).
  destruct (ru_reads _ HR hd p v Hin) as (m & Hm & Hd). exists m. split; [exact Hm|]. split; [|exact Hd]. intros m' Hm'.
  exact (chain_pages _ (iv_chain _ (ru_inv _ HR)) Hb hd m' m Hm' Hm).
Qed.

(** Two readers keep their snapshots through commits, checkpoints and a restart of
    the log. *)
Definition isolated_run : list event :=
  write_and_end 1 [(1, 11); (2, 12)] 2 ++ all 2 Begin 30
  ++ write_and_end 1 [(1, 21); (3, 23)] 3 ++ all 3 (Checkpoint SQLITE_CHECKPOINT_RESTART 5) 60
  ++ all 2 (Read 1) 2 ++ all 2 (Read 2) 2 ++ all 2 End 2 ++ all 3 (Checkpoint SQLITE_CHECKPOINT_PASSIVE 5) 60
  ++ all 4 Begin 30 ++ write_and_end 1 [(2, 32)] 3
  ++ all 4 (Read 3) 2 ++ all 4 (Read 2) 2 ++ all 5 Begin 30 ++ all 5 (Read 2) 2 ++ [Kill 4].
Definition second_hdr : WalIndexHdr := {| iChange := 2; hdr_mxFrame := 4; hdr_nPage := 3; hdr_aSalt := (7, 8) |}.

Lemma wal_snapshot_isolation_witness : along empty_log isolated_run = true /\
  let w := run empty_log isolated_run in
  In (second_hdr, 2, 12) (reads w) /\ exists m, In (second_hdr, m) (hist (sys w)) /\ (forall m', In (second_hdr, m') (hist (sys w)) -> m' = m) /\ forall d, m 2 = Some d -> 12 = d.
Proof.
  assert (Ha : along empty_log isolated_run = true) by (vm_compute; reflexivity).
  assert (Hin : In (second_hdr, 2, 12) (reads (run empty_log isolated_run))) by (vm_compute; right; left; reflexivity).
  split; [exact Ha|]. split; [exact Hin|].
  apply (wal_snapshot_isolation first_hdr (fun i => if i =? 1 then 0 else READMARK_NOT_USED) (fun p => p) isolated_run second_hdr 2 12); [|reflexivity|exact Ha| |exact Hin].
  - unfold hdr_wf, is_u32, first_hdr. cbn. lia.
  - vm_compute. reflexivity.
Defined.

(** The two runs that lose a page are not orderly. *)
Lemma excluded_runs : along empty_log reset_run = false /\ along empty_log killed_run = false.
Proof. vm_compute. split; reflexivity. Qed.
