(* ===== verification/Record.v ===== *)
(** * SQLite: the record format

    Rows of tables and entries of indexes are stored as records: the size of the
    header, one serial type for each field, and the data of the fields.  The module
    models how registers become a record (the opcode [OP_MakeRecord] of
    [sqlite3VdbeExec], after the affinities are applied) and how a record is read
    back ([sqlite3VdbeSerialGet], [sqlite3VdbeRecordUnpack]) in
    [src/api-core/src/db/sqlite3.c].

    A register ([Mem]) has the members of the C structure that the code uses; [u_r]
    is the bit pattern of the double.  [z] has the bytes from the pointer on, of
    which [n] belong to the value.  The record is written into a buffer at two
    positions, as in the code; what the buffer had before is arbitrary. *)

From Stdlib Require Import ZArith List Lia Bool.
From S2P Require Import Prelude Floats Varint.
From Stdlib Require Import SpecFloat.
Import ListNotations.
#[local] Open Scope Z_scope.
#[local] Open Scope ag_scope.

(** ** Registers *)

Definition MEM_Null : Z := 0x0001.
Definition MEM_Str : Z := 0x0002.
Definition MEM_Int : Z := 0x0004.
Definition MEM_Real : Z := 0x0008.
Definition MEM_Blob : Z := 0x0010.
Definition MEM_IntReal : Z := 0x0020.
Definition MEM_Term : Z := 0x0200.
Definition MEM_Zero : Z := 0x0400.
Definition MEM_Ephem : Z := 0x4000.

(** [sqlite3_value] *)
Record Mem := { u_i : Z; u_r : Z; nZero : Z; z : list Z; n : Z; flags : Z }.

Definition has (m : Mem) (f : Z) : bool := negb (Z.land (flags m) f =? 0).
Definition content (m : Mem) : list Z := firstn (Z.to_nat (n m)) (z m).

Definition set_flags (f : Z) (m : Mem) : Mem := {| u_i := u_i m; u_r := u_r m; nZero := nZero m; z := z m; n := n m; flags := f |}.
Definition set_int (i : Z) (m : Mem) : Mem := {| u_i := i; u_r := u_r m; nZero := nZero m; z := z m; n := n m; flags := MEM_Int |}.
Definition set_real (r f : Z) (m : Mem) : Mem := {| u_i := u_i m; u_r := r; nZero := nZero m; z := z m; n := n m; flags := f |}.
Definition set_bytes (b : list Z) (k f : Z) (m : Mem) : Mem := {| u_i := u_i m; u_r := u_r m; nZero := nZero m; z := b; n := k; flags := f |}.

(** ** Doubles as bit patterns *)

Definition EXP754 : Z := Z.shiftl 0x7ff 52.
Definition MAN754 : Z := Z.shiftl 1 52 - 1.
Definition IsNaN (x : Z) : bool := (Z.land x EXP754 =? EXP754) && negb (Z.land x MAN754 =? 0).

(** The number of a bit pattern. *)
Definition double_of_bits (x : Z) : spec_float :=
  let s := Z.testbit x 63 in
  let e := Z.shiftr x 52 mod 2048 in
  let m := x mod 2 ^ 52 in
  if e =? 2047 then (if m =? 0 then S754_infinity s else S754_nan)
  else if e =? 0 then match m with Zpos p => S754_finite s p (-1074) | _ => S754_zero s end
  else match m + 2 ^ 52 with Zpos p => S754_finite s p (e - 1075) | _ => S754_zero s end.

(** The bit pattern of a number. *)
Definition bits_of_double (x : spec_float) : Z :=
  let sign (s : bool) := if s then 2 ^ 63 else 0 in
  match x with
  | S754_zero s => sign s
  | S754_infinity s => sign s + EXP754
  | S754_nan => EXP754 + 2 ^ 51
  | S754_finite s m e => if Zpos m <? 2 ^ 52 then sign s + Zpos m else sign s + (e + 1075) * 2 ^ 52 + (Zpos m - 2 ^ 52)
  end.

(** ** Serial types *)

Definition sqlite3SmallTypeSizes : list Z :=
  [0; 1; 2; 3; 4; 6; 8; 8; 0; 0; 0; 0; 0; 0; 1; 1; 2; 2; 3; 3; 4; 4; 5; 5; 6; 6; 7; 7; 8; 8; 9; 9; 10; 10; 11; 11; 12; 12; 13; 13;
   14; 14; 15; 15; 16; 16; 17; 17; 18; 18; 19; 19; 20; 20; 21; 21; 22; 22; 23; 23; 24; 24; 25; 25; 26; 26; 27; 27; 28; 28; 29; 29;
   30; 30; 31; 31; 32; 32; 33; 33; 34; 34; 35; 35; 36; 36; 37; 37; 38; 38; 39; 39; 40; 40; 41; 41; 42; 42; 43; 43; 44; 44; 45; 45;
   46; 46; 47; 47; 48; 48; 49; 49; 50; 50; 51; 51; 52; 52; 53; 53; 54; 54; 55; 55; 56; 56; 57; 57].

Definition sqlite3VdbeSerialTypeLen (serial_type : Z) : Z :=
  if 128 <=? serial_type then (serial_type - 12) / 2 else nth (Z.to_nat serial_type) sqlite3SmallTypeSizes 0.

(** Big-endian integers in a buffer. *)
Definition ONE_BYTE_INT (x : list Z) : Z := i8 (rd x 0).
Definition TWO_BYTE_INT (x : list Z) : Z := Z.lor (256 * i8 (rd x 0)) (rd x 1).
Definition THREE_BYTE_INT (x : list Z) : Z := Z.lor (Z.lor (65536 * i8 (rd x 0)) (Z.shiftl (rd x 1) 8)) (rd x 2).
Definition FOUR_BYTE_UINT (x : list Z) : Z :=
  Z.lor (Z.lor (Z.lor (u32 (Z.shiftl (rd x 0) 24)) (Z.shiftl (rd x 1) 16)) (Z.shiftl (rd x 2) 8)) (rd x 3).
Definition FOUR_BYTE_INT (x : list Z) : Z :=
  Z.lor (Z.lor (Z.lor (16777216 * i8 (rd x 0)) (Z.shiftl (rd x 1) 16)) (Z.shiftl (rd x 2) 8)) (rd x 3).

(** [&buf[i]] *)
Definition at_ (i : Z) (buf : list Z) : list Z := skipn (Z.to_nat i) buf.

(** The eight bytes of a double or a 64-bit integer. *)
Definition EIGHT_BYTES (buf : list Z) : Z := u64 (u64 (Z.shiftl (FOUR_BYTE_UINT buf) 32) + FOUR_BYTE_UINT (at_ 4 buf)).

Definition serialGet (buf : list Z) (serial_type : Z) (pMem : Mem) : Mem :=
  let x := EIGHT_BYTES buf in
  if serial_type =? 6 then set_int (i64 x) pMem else set_real x (if IsNaN x then MEM_Null else MEM_Real) pMem.

Definition sqlite3VdbeSerialGet (buf : list Z) (serial_type : Z) (pMem : Mem) : Mem :=
  if serial_type =? 10 then {| u_i := u_i pMem; u_r := u_r pMem; nZero := 0; z := z pMem; n := 0; flags := Z.lor MEM_Null MEM_Zero |}
  else if (serial_type =? 11) || (serial_type =? 0) then set_flags MEM_Null pMem
  else if serial_type =? 1 then set_int (ONE_BYTE_INT buf) pMem
  else if serial_type =? 2 then set_int (TWO_BYTE_INT buf) pMem
  else if serial_type =? 3 then set_int (THREE_BYTE_INT buf) pMem
  else if serial_type =? 4 then set_int (FOUR_BYTE_INT buf) pMem
  else if serial_type =? 5 then set_int (FOUR_BYTE_UINT (at_ 2 buf) + Z.shiftl 1 32 * TWO_BYTE_INT buf) pMem
  else if (serial_type =? 6) || (serial_type =? 7) then serialGet buf serial_type pMem
  else if (serial_type =? 8) || (serial_type =? 9) then set_int (serial_type - 8) pMem
  else set_bytes buf ((serial_type - 12) / 2) (Z.lor (if Z.land serial_type 1 =? 0 then MEM_Blob else MEM_Str) MEM_Ephem) pMem.

(** ** Reading a record *)

(** The loop over the cells of the unpacked record: the cells that were filled and
    the offset after their data. *)
Fixpoint unpack_loop (nKey szHdr : Z) (aKey : list Z) (idx d : Z) (aMem : list Mem) : list Mem * Z :=
  match aMem with
  | [] => ([], d)
  | pMem :: aMem =>
    if (idx <? szHdr) && (d <=? nKey) then
      let (serial_type, k) := getVarint32 (at_ idx aKey) in
      let m := sqlite3VdbeSerialGet (at_ d aKey) serial_type (set_bytes [] (n pMem) (flags pMem) pMem) in
      let (ms, d') := unpack_loop nKey szHdr aKey (u32 (idx + k)) (u32 (d + sqlite3VdbeSerialTypeLen serial_type)) aMem in
      (m :: ms, d')
    else ([], d)
  end.

(** The last cell is set to NULL. *)
Definition null_last (ms : list Mem) : list Mem :=
  match rev ms with [] => [] | m :: r => rev (set_flags MEM_Null m :: r) end.

Definition sqlite3VdbeRecordUnpack (nKey : Z) (aKey : list Z) (aMem : list Mem) : list Mem :=
  let (szHdr, idx) := getVarint32 aKey in
  let (ms, d) := unpack_loop nKey szHdr aKey idx szHdr aMem in
  if nKey <? d then null_last ms else ms.

(** ** Making a record *)

(** [sqlite3VdbeMemExpandBlob]; [None] when there is no memory. *)
Definition sqlite3VdbeMemExpandBlob (malloc : Z -> bool) (pMem : Mem) : option Mem :=
  let nByte := n pMem + nZero pMem in
  if (nByte <=? 0) && negb (has pMem MEM_Blob) then Some pMem
  else
    let nByte := if nByte <=? 0 then 1 else nByte in
    if malloc nByte then
      Some {| u_i := u_i pMem; u_r := u_r pMem; nZero := nZero pMem; z := content pMem ++ repeat 0 (Z.to_nat (nZero pMem)); n := n pMem + nZero pMem;
              flags := Z.land (flags pMem) (Z.lnot (Z.lor MEM_Zero MEM_Term)) |}
    else None.

(** The sizes so far, from the last field to the first. *)
Record Sizes := { nData : Z; nHdr : Z; nZeros : Z }.

(** The serial type of an integer and the size of its data. *)
Definition int_type (file_format i : Z) : Z * Z :=
  let uu := if i <? 0 then Z.lnot i else i in
  if uu <=? 127 then (if (Z.land i 1 =? i) && (4 <=? file_format) then (8 + uu, 0) else (1, 1))
  else if uu <=? 32767 then (2, 2)
  else if uu <=? 8388607 then (3, 3)
  else if uu <=? 2147483647 then (4, 4)
  else if uu <=? 140737488355327 then (5, 6)
  else (6, 8).

(** A string or blob: the register, its serial type ([uTemp]) and the new sizes. *)
Definition size_bytes (malloc : Z -> bool) (pRec : Mem) (s : Sizes) : option (Mem * Z * Sizes) :=
  let len := n pRec in
  let t := u32 (len * 2 + 12 + (if has pRec MEM_Str then 1 else 0)) in
  if has pRec MEM_Zero then
    let t := u32 (t + nZero pRec * 2) in
    if negb (nData s =? 0) then
      match sqlite3VdbeMemExpandBlob malloc pRec with
      | Some pRec' => Some (pRec', t, {| nData := nData s + len + nZero pRec; nHdr := nHdr s + sqlite3VarintLen t; nZeros := nZeros s |})
      | None => None
      end
    else Some (pRec, t, {| nData := nData s + len; nHdr := nHdr s + sqlite3VarintLen t; nZeros := nZeros s + nZero pRec |})
  else Some (pRec, t, {| nData := nData s + len; nHdr := nHdr s + sqlite3VarintLen t; nZeros := nZeros s |}).

(** One field. *)
Definition size_field (file_format : Z) (malloc : Z -> bool) (pRec : Mem) (s : Sizes) : option (Mem * Z * Sizes) :=
  if has pRec MEM_Null then
    Some (pRec, (if has pRec MEM_Zero then 10 else 0), {| nData := nData s; nHdr := nHdr s + 1; nZeros := nZeros s |})
  else if has pRec (Z.lor MEM_Int MEM_IntReal) then
    let (t, k) := int_type file_format (u_i pRec) in
    let s := {| nData := nData s + k; nHdr := nHdr s + 1; nZeros := nZeros s |} in
    if (t =? 6) && has pRec MEM_IntReal then
      Some (set_real (bits_of_double (double_of_int (u_i pRec))) (Z.lor (Z.land (flags pRec) (Z.lnot MEM_IntReal)) MEM_Real) pRec, 7, s)
    else Some (pRec, t, s)
  else if has pRec MEM_Real then Some (pRec, 7, {| nData := nData s + 8; nHdr := nHdr s + 1; nZeros := nZeros s |})
  else size_bytes malloc pRec s.

Fixpoint size_fields (file_format : Z) (malloc : Z -> bool) (l : list Mem) : option (list (Mem * Z) * Sizes) :=
  match l with
  | [] => Some ([], {| nData := 0; nHdr := 0; nZeros := 0 |})
  | pRec :: l =>
    let* r := size_fields file_format malloc l in
    let* f := size_field file_format malloc pRec (snd r) in
    let '(m, t, s) := f in Some ((m, t) :: fst r, s)
  end.

(** The size of the header, with the varint that has this size. *)
Definition header_size (nHdr : Z) : Z :=
  if nHdr <=? 126 then nHdr + 1
  else
    let nVarint := sqlite3VarintLen nHdr in
    if nVarint <? sqlite3VarintLen (nHdr + nVarint) then nHdr + nVarint + 1 else nHdr + nVarint.

(** Bytes written at [&buf[i]]. *)
Definition poke (i : Z) (bs buf : list Z) : list Z := firstn (Z.to_nat i) buf ++ bs ++ skipn (Z.to_nat i + length bs) buf.
(** The bytes that [sqlite3PutVarint] writes. *)
Definition varint (v : Z) : list Z := let (p, k) := sqlite3PutVarint (repeat 0 9) v in firstn (Z.to_nat k) p.
(** The low [k] bytes of [v], the most significant first. *)
Fixpoint be_bytes (k : nat) (v : Z) : list Z :=
  match k with O => [] | S k => be_bytes k (Z.shiftr v 8) ++ [Z.land v 0xff] end.

(** What a field adds to the header and to the data. *)
Definition header_bytes (serial_type : Z) : list Z := if serial_type <? 0x80 then [serial_type] else varint serial_type.
Definition data_bytes (pRec : Mem) (serial_type : Z) : list Z :=
  if serial_type <=? 7 then
    if serial_type =? 0 then []
    else be_bytes (Z.to_nat (nth (Z.to_nat serial_type) sqlite3SmallTypeSizes 0)) (if serial_type =? 7 then u_r pRec else u64 (u_i pRec))
  else if serial_type <? 0x80 then (if (14 <=? serial_type) && (0 <? n pRec) then content pRec else [])
  else if negb (n pRec =? 0) then content pRec else [].

Fixpoint write_fields (l : list (Mem * Z)) (zHdr zPayload : Z) (buf : list Z) : list Z * Z * Z :=
  match l with
  | [] => (buf, zHdr, zPayload)
  | (pRec, t) :: l =>
    let h := header_bytes t in
    let p := data_bytes pRec t in
    write_fields l (zHdr + Z.of_nat (length h)) (zPayload + Z.of_nat (length p)) (poke zPayload p (poke zHdr h buf))
  end.

(** The result of the opcode: the output register, or an error. *)
Inductive Made := Stored (z : list Z) (nZero : Z) | TooBig | NoMem.

(** [OP_MakeRecord].  [buf] is the space of the output register, of [szMalloc]
    bytes, or what is allocated for it. *)
Definition OP_MakeRecord (file_format limit szMalloc : Z) (malloc : Z -> bool) (space : Z -> list Z) (fields : list Mem) : Made :=
  match size_fields file_format malloc fields with
  | None => NoMem
  | Some (l, s) =>
    let h := header_size (nHdr s) in
    let nByte := h + nData s in
    if (szMalloc <? nByte + nZeros s) && (limit <? nByte + nZeros s) then TooBig
    else if (szMalloc <? nByte + nZeros s) && (szMalloc <? nByte) && negb (malloc nByte) then NoMem
    else
      let hd := if h <? 0x80 then [h] else varint h in
      let '(buf, _, _) := write_fields l (Z.of_nat (length hd)) h (poke 0 hd (space nByte)) in
      Stored buf (nZeros s)
  end.

(** ** Specification *)

(** The value that a register has when it is stored. *)
Inductive value := VNull | VNoChange | VInt (i : Z) | VReal (bits : Z) | VText (b : list Z) | VBlob (b : list Z).

Definition value_of (m : Mem) : value :=
  if has m MEM_Null then (if has m MEM_Zero then VNoChange else VNull)
  else if has m (Z.lor MEM_Int MEM_IntReal) then
    if (fst (int_type 4 (u_i m)) =? 6) && has m MEM_IntReal then VReal (bits_of_double (double_of_int (u_i m))) else VInt (u_i m)
  else if has m MEM_Real then (if IsNaN (u_r m) then VNull else VReal (u_r m))
  else if has m MEM_Str then VText (content m)
  else VBlob (content m ++ repeat 0 (if has m MEM_Zero then Z.to_nat (nZero m) else O)).

(** Registers that hold a value. *)
Record mem_ok (m : Mem) : Prop := {
  ok_int : is_i64 (u_i m);
  ok_real : is_u64 (u_r m);
  ok_zero : 0 <= nZero m;
  ok_n : 0 <= n m <= Z.of_nat (length (z m));
  ok_z : bytes (z m);
  ok_kind : has m MEM_Zero = true -> has m MEM_Null = true \/ (has m MEM_Str = false /\ has m MEM_Blob = true) }.

(** *** How large a record is *)

(** The bytes of the varint of [v]: groups of seven bits. *)
Definition groups (v : Z) : Z := if v <=? 0 then 1 else Z.log2 v / 7 + 1.
(** The bytes of an integer: none for 0 and 1 in file format 4, else the smallest
    width in two's complement. *)
Definition int_width (file_format i : Z) : Z :=
  if (4 <=? file_format) && ((i =? 0) || (i =? 1)) then 0
  else match find (fun k => (- 2 ^ (8 * k - 1) <=? i) && (i <? 2 ^ (8 * k - 1))) [1; 2; 3; 4; 6] with Some k => k | None => 8 end.

Definition numeric (m : Mem) : bool := has m MEM_Null || has m (Z.lor MEM_Int MEM_IntReal) || has m MEM_Real.
Definition zero_blob (m : Mem) : bool := negb (numeric m) && has m MEM_Zero.
(** The bytes of a text or blob, with its tail of zeros. *)
Definition blob_bytes (m : Mem) : Z := n m + (if has m MEM_Zero then nZero m else 0).
Definition field_bytes (file_format : Z) (m : Mem) : Z :=
  if has m MEM_Null then 0
  else if has m (Z.lor MEM_Int MEM_IntReal) then int_width file_format (u_i m)
  else if has m MEM_Real then 8
  else blob_bytes m.
Definition type_bytes (m : Mem) : Z :=
  if numeric m then 1 else groups (2 * blob_bytes m + (if has m MEM_Str then 13 else 12)).

Definition data_total (file_format : Z) (fields : list Mem) : Z := fold_right (fun m a => field_bytes file_format m + a) 0 fields.
Definition types_total (fields : list Mem) : Z := fold_right (fun m a => type_bytes m + a) 0 fields.
(** The header counts its own varint. *)
Definition header_total (types : Z) : Z :=
  match find (fun h => h =? types + groups h) [types + 1; types + 2; types + 3; types + 4; types + 5] with Some h => h | None => types end.
Definition record_size (file_format : Z) (fields : list Mem) : Z := header_total (types_total fields) + data_total file_format fields.

(** The zeros that need no space: those of blobs with no other bytes after them. *)
Fixpoint tail_zeros (file_format : Z) (fields : list Mem) : Z :=
  match fields with
  | [] => 0
  | m :: l => (if zero_blob m && (data_total file_format l =? tail_zeros file_format l) then nZero m else 0) + tail_zeros file_format l
  end.

(** The allocations of [k] bytes that a record asks for: zeros written out because
    other bytes follow them, or the output register when it has no room. *)
Inductive requested (file_format szMalloc : Z) (fields : list Mem) : Z -> Prop :=
| ask_expand l1 m l2 : fields = l1 ++ m :: l2 -> zero_blob m = true -> data_total file_format l2 <> tail_zeros file_format l2 ->
    requested file_format szMalloc fields (Z.max 1 (blob_bytes m))
| ask_record : szMalloc < record_size file_format fields - tail_zeros file_format fields ->
    requested file_format szMalloc fields (record_size file_format fields - tail_zeros file_format fields).

(** ** Integers *)

Definition be_value (l : list Z) : Z := fold_left (fun a b => a * 256 + b) l 0.
Lemma be_value_snoc l b : be_value (l ++ [b]) = be_value l * 256 + b.
Proof. unfold be_value. now rewrite fold_left_app. Qed.
Lemma length_be_bytes k : forall v, length (be_bytes k v) = k.
Proof. induction k as [|k IH]; intros v; [reflexivity|]. cbn [be_bytes]. rewrite length_app, IH. cbn [length]. lia. Qed.
Lemma bytes_be_bytes k : forall v, bytes (be_bytes k v).
Proof.
  induction k as [|k IH]; intros v; [constructor|]. cbn [be_bytes]. apply bytes_app. split; [apply IH|]. constructor; [|constructor]. change 255 with (2 ^ 8 - 1). rewrite land_low by lia.
  apply Z.mod_pos_bound. lia.
Qed.
Lemma be_bytes_value k : forall v, be_value (be_bytes k v) = v mod 256 ^ Z.of_nat k.
Proof.
  induction k as [|k IH]; intros v; [symmetry; apply Z.mod_1_r|]. cbn [be_bytes]. rewrite be_value_snoc, IH. change 255 with (2 ^ 8 - 1). rewrite land_low, Z.shiftr_div_pow2 by lia.
  change (2 ^ 8) with 256. replace (256 ^ Z.of_nat (S k)) with (256 * 256 ^ Z.of_nat k) by (rewrite Nat2Z.inj_succ, Z.pow_succ_r by lia; reflexivity).
  rewrite Z.rem_mul_r by lia. lia.
Qed.

Lemma lor_mul a k b : 0 <= k -> 0 <= b < 2 ^ k -> Z.lor (a * 2 ^ k) b = a * 2 ^ k + b.
Proof. intros Hk Hb. rewrite <- (lor_shiftl_add a k b), Z.shiftl_mul_pow2 by assumption. reflexivity. Qed.
Lemma i8_sign b : is_u8 b -> i8 b = if b <? 128 then b else b - 256.
Proof. unfold is_u8. intros H. unfold i8. destruct (Z.ltb_spec b 128); [rewrite Z.mod_small; lia|]. replace (b + 2 ^ 7) with (b - 128 + 1 * 2 ^ 8) by lia. rewrite Z.mod_add, Z.mod_small by lia. lia. Qed.

Section Bytes.
Variables (b0 b1 b2 b3 : Z) (r : list Z).
Hypothesis H0 : is_u8 b0.
Hypothesis H1 : is_u8 b1.
Hypothesis H2 : is_u8 b2.
Hypothesis H3 : is_u8 b3.

Lemma two_bytes : TWO_BYTE_INT (b0 :: b1 :: r) = i8 b0 * 256 + b1.
Proof. unfold TWO_BYTE_INT. change (rd _ 0) with b0. change (rd _ 1) with b1. rewrite Z.mul_comm. now apply (lor_mul _ 8). Qed.
Lemma three_bytes : THREE_BYTE_INT (b0 :: b1 :: b2 :: r) = (i8 b0 * 256 + b1) * 256 + b2.
Proof.
  unfold THREE_BYTE_INT. change (rd _ 0) with b0. change (rd _ 1) with b1. change (rd _ 2) with b2. unfold is_u8 in *.
  rewrite <- (Z.lor_assoc _ _ b2), lor_shiftl_add by lia. rewrite (Z.mul_comm 65536). rewrite (lor_mul _ 16) by lia. lia.
Qed.
Lemma four_bytes : FOUR_BYTE_INT (b0 :: b1 :: b2 :: b3 :: r) = ((i8 b0 * 256 + b1) * 256 + b2) * 256 + b3.
Proof.
  unfold FOUR_BYTE_INT. change (rd _ 0) with b0. change (rd _ 1) with b1. change (rd _ 2) with b2. change (rd _ 3) with b3. unfold is_u8 in *.
  rewrite <- (Z.lor_assoc _ _ b3), lor_shiftl_add by lia. rewrite <- (Z.lor_assoc _ (Z.shiftl b1 16)), lor_shiftl_add by lia.
  rewrite (Z.mul_comm 16777216). rewrite (lor_mul _ 24) by lia. lia.
Qed.
Lemma four_unsigned : FOUR_BYTE_UINT (b0 :: b1 :: b2 :: b3 :: r) = ((b0 * 256 + b1) * 256 + b2) * 256 + b3.
Proof.
  unfold FOUR_BYTE_UINT. change (rd _ 0) with b0. change (rd _ 1) with b1. change (rd _ 2) with b2. change (rd _ 3) with b3. unfold is_u8 in *.
  rewrite <- (Z.lor_assoc _ _ b3), lor_shiftl_add by lia. rewrite <- (Z.lor_assoc _ (Z.shiftl b1 16)), lor_shiftl_add by lia.
  unfold u32. rewrite Z.shiftl_mul_pow2 by lia. rewrite Z.mod_small by lia. rewrite (lor_mul _ 24) by lia. lia.
Qed.
End Bytes.

(** The bytes of an integer, as a list. *)
Ltac byte_list k v :=
  let H := fresh "Hb" in let E := fresh "Ev" in
  pose proof (bytes_be_bytes k v) as H; pose proof (be_bytes_value k v) as E; cbn [be_bytes app] in *; unfold bytes in H;
  repeat match goal with H : Forall is_u8 (_ :: _) |- _ => apply Forall_cons_iff in H; destruct H end; unfold be_value in E; cbn [fold_left] in E;
  repeat match goal with |- context [Z.land ?x 255] => let b := fresh "b" in set (b := Z.land x 255) in *; clearbody b end.

Lemma signed_mod k i : 0 < k -> - 2 ^ (k - 1) <= i < 2 ^ (k - 1) -> (if i mod 2 ^ k <? 2 ^ (k - 1) then i mod 2 ^ k else i mod 2 ^ k - 2 ^ k) = i.
Proof.
  intros Hk Hi. assert (E : 2 ^ k = 2 * 2 ^ (k - 1)) by (replace k with (Z.succ (k - 1)) at 1 by lia; apply Z.pow_succ_r; lia).
  assert (Hm : i mod 2 ^ k = if i <? 0 then i + 2 ^ k else i).
  { destruct (Z.ltb_spec i 0); [|apply Z.mod_small; lia]. rewrite <- (Z.mod_add i 1 (2 ^ k)) by lia. rewrite Z.mod_small; lia. }
  rewrite Hm. destruct (Z.ltb_spec i 0).
  - destruct (Z.ltb_spec (i + 2 ^ k) (2 ^ (k - 1))); lia.
  - destruct (Z.ltb_spec i (2 ^ (k - 1))); lia.
Qed.
Lemma u64_mod i k : 0 <= k <= 64 -> u64 i mod 2 ^ k = i mod 2 ^ k.
Proof. intros Hk. unfold u64. apply Z.mod_mod_divide. exists (2 ^ (64 - k)). rewrite <- Z.pow_add_r by lia. f_equal. lia. Qed.

(** A signed integer of [8 * k] bits from its bytes. *)
Ltac signed_bytes k i :=
  match goal with Ev : _ = u64 i mod 256 ^ Z.of_nat _ |- _ =>
    let Hs := fresh "Hs" in pose proof (signed_mod (8 * k) i ltac:(lia) ltac:(lia)) as Hs;
    match type of Ev with _ = ?x => change x with (u64 i mod 2 ^ (8 * k)) in Ev end; rewrite (u64_mod i (8 * k)) in Ev by lia; rewrite <- Ev in Hs; clear Ev;
    cbn in Hs; unfold is_u8 in *; rewrite i8_sign by (unfold is_u8; lia);
    repeat match goal with |- context [?a <? ?b] => destruct (Z.ltb_spec a b) | Hs : context [?a <? ?b] |- _ => destruct (Z.ltb_spec a b) end; lia
  end.

Lemma get_one i r : - 2 ^ 7 <= i < 2 ^ 7 -> ONE_BYTE_INT (be_bytes 1 (u64 i) ++ r) = i.
Proof. intros Hi. byte_list 1%nat (u64 i). unfold ONE_BYTE_INT. rewrite rd_0. signed_bytes 1 i. Qed.
Lemma get_two i r : - 2 ^ 15 <= i < 2 ^ 15 -> TWO_BYTE_INT (be_bytes 2 (u64 i) ++ r) = i.
Proof. intros Hi. byte_list 2%nat (u64 i). rewrite two_bytes by assumption. signed_bytes 2 i. Qed.
Lemma get_three i r : - 2 ^ 23 <= i < 2 ^ 23 -> THREE_BYTE_INT (be_bytes 3 (u64 i) ++ r) = i.
Proof. intros Hi. byte_list 3%nat (u64 i). rewrite three_bytes by assumption. signed_bytes 3 i. Qed.
Lemma get_four i r : - 2 ^ 31 <= i < 2 ^ 31 -> FOUR_BYTE_INT (be_bytes 4 (u64 i) ++ r) = i.
Proof. intros Hi. byte_list 4%nat (u64 i). rewrite four_bytes by assumption. signed_bytes 4 i. Qed.
Lemma get_six i r : - 2 ^ 47 <= i < 2 ^ 47 ->
  let buf := be_bytes 6 (u64 i) ++ r in FOUR_BYTE_UINT (at_ 2 buf) + Z.shiftl 1 32 * TWO_BYTE_INT buf = i.
Proof.
  intros Hi buf. unfold buf. clear buf. byte_list 6%nat (u64 i). unfold at_. change (Z.to_nat 2) with 2%nat. cbn [skipn]. rewrite four_unsigned, two_bytes by assumption.
  change (Z.shiftl 1 32) with 4294967296. signed_bytes 6 i.
Qed.
Lemma get_eight v r : is_u64 v -> EIGHT_BYTES (be_bytes 8 v ++ r) = v.
Proof.
  intros Hv. byte_list 8%nat v. unfold EIGHT_BYTES, at_. change (Z.to_nat 4) with 4%nat. cbn [skipn]. rewrite !four_unsigned by assumption.
  change (256 ^ Z.of_nat 8) with (2 ^ 64) in Ev. rewrite Z.mod_small in Ev by exact Hv. unfold u64, is_u8 in *. rewrite Z.shiftl_mul_pow2 by lia.
  rewrite (Z.mod_small (_ * 2 ^ 32)) by lia. rewrite Z.mod_small by lia. lia.
Qed.
Lemma i64_u64 i : is_i64 i -> i64 (u64 i) = i.
Proof.
  unfold is_i64, i64, u64. intros Hi. destruct (Z.lt_ge_cases i 0).
  - rewrite <- (Z.mod_add i 1 (2 ^ 64)) by lia. rewrite (Z.mod_small (i + 1 * 2 ^ 64)) by lia. replace (i + 1 * 2 ^ 64 + 2 ^ 63) with (i + 2 ^ 63 + 1 * 2 ^ 64) by lia.
    rewrite Z.mod_add, Z.mod_small; lia.
  - rewrite (Z.mod_small i), Z.mod_small; lia.
Qed.

(** ** Doubles and their bit patterns *)

Section Fields.
Variables (s : bool) (e m : Z).
Hypothesis He : 0 <= e < 2048.
Hypothesis Hm : 0 <= m < 2 ^ 52.
Let x : Z := (if s then 2 ^ 63 else 0) + e * 2 ^ 52 + m.

Lemma pattern_parts : x / 2 ^ 52 = (if s then 2048 else 0) + e /\ x mod 2 ^ 52 = m.
Proof.
  assert (E : x = ((if s then 2048 else 0) + e) * 2 ^ 52 + m) by (unfold x; destruct s; lia).
  split; [symmetry; apply (Z.div_unique x (2 ^ 52) _ m)|symmetry; apply (Z.mod_unique x (2 ^ 52) ((if s then 2048 else 0) + e))]; lia.
Qed.
Lemma pattern_exp : Z.shiftr x 52 mod 2048 = e.
Proof. rewrite Z.shiftr_div_pow2 by lia. rewrite (proj1 pattern_parts). destruct s; [rewrite Z.add_comm; change 2048 with (1 * 2048) at 1; rewrite Z.mod_add by lia|]; apply Z.mod_small; lia. Qed.
Lemma pattern_sign : Z.testbit x 63 = s.
Proof.
  replace 63 with (11 + 52) by lia. rewrite <- Z.shiftr_spec by lia. rewrite Z.shiftr_div_pow2 by lia. rewrite (proj1 pattern_parts). rewrite Z.testbit_eqb by lia. change (2 ^ 11) with 2048.
  destruct s; [replace ((2048 + e) / 2048) with 1 by (apply (Z.div_unique _ _ 1 e); lia)|replace ((0 + e) / 2048) with 0 by (symmetry; apply Z.div_small; lia)]; reflexivity.
Qed.
Lemma pattern_nan : IsNaN x = (e =? 2047) && negb (m =? 0).
Proof.
  unfold IsNaN. f_equal.
  - replace (Z.land x EXP754) with (Z.shiftl e 52).
    + unfold EXP754. rewrite !Z.shiftl_mul_pow2 by lia. destruct (Z.eqb_spec e 2047) as [->|]; [apply Z.eqb_refl|apply Z.eqb_neq; lia].
    + rewrite <- pattern_exp at 1. change 2048 with (2 ^ 11). rewrite <- Z.land_ones, Z.shiftl_land by lia. apply Z.bits_inj'. intros k Hk. rewrite !Z.land_spec. change (Z.shiftl (Z.ones 11) 52) with EXP754.
      destruct (Z.lt_ge_cases k 52); [unfold EXP754; rewrite !Z.shiftl_spec_low by lia; now rewrite !andb_false_r|]. rewrite Z.shiftl_spec, Z.shiftr_spec by lia. do 2 f_equal. lia.
  - f_equal. f_equal. unfold MAN754. change (Z.shiftl 1 52) with (2 ^ 52). rewrite land_low by lia. apply pattern_parts.
Qed.
Lemma pattern_u64 : is_u64 x.
Proof. unfold is_u64, x. destruct s; lia. Qed.
End Fields.

(** The exponent and mantissa fields of a number that is not a NaN. *)
Lemma bits_pattern f : valid_binary 53 1024 f = true -> f <> S754_nan -> exists s e m, 0 <= e < 2048 /\ 0 <= m < 2 ^ 52 /\
  (e =? 2047) && negb (m =? 0) = false /\ bits_of_double f = (if s : bool then 2 ^ 63 else 0) + e * 2 ^ 52 + m /\
  (if e =? 2047 then S754_infinity s else if e =? 0 then match m with Zpos p => S754_finite s p (-1074) | _ => S754_zero s end
   else match m + 2 ^ 52 with Zpos p => S754_finite s p (e - 1075) | _ => S754_zero s end) = f.
Proof.
  intros Hv Hn. destruct f as [s|s| |s m e]; [exists s, 0, 0|exists s, 2047, 0|contradiction|].
  - repeat split; try lia; try reflexivity. cbn. lia.
  - repeat split; try lia; try reflexivity. cbn [bits_of_double]. unfold EXP754. rewrite Z.shiftl_mul_pow2 by lia. lia.
  - pose proof (valid_finite 53 1024 s m e Hv) as He. cbn [valid_binary] in Hv. unfold bounded in Hv. apply andb_true_iff in Hv as [_ Hx]. apply Z.leb_le in Hx.
    pose proof (Z.log2_spec (Zpos m) ltac:(lia)) as Hl. cbn [bits_of_double]. destruct (Z.ltb_spec (Zpos m) (2 ^ 52)) as [Hs|Hs].
    + assert (Z.log2 (Zpos m) < 52) by (apply Z.log2_lt_pow2; lia). exists s, 0, (Zpos m). repeat split; try lia. cbn [Z.eqb]. f_equal. lia.
    + assert (52 <= Z.log2 (Zpos m)) by (apply Z.log2_le_pow2; lia). assert (Hlt : Zpos m < 2 ^ 53).
      { apply Z.lt_le_trans with (2 ^ Z.succ (Z.log2 (Zpos m))); [apply Hl|]. apply Z.pow_le_mono_r; lia. }
      assert (Z.log2 (Zpos m) < 53) by (apply Z.log2_lt_pow2; lia). exists s, (e + 1075), (Zpos m - 2 ^ 52). split; [lia|]. split; [lia|]. split; [|split; [lia|]].
      * apply andb_false_iff. left. apply Z.eqb_neq. lia.
      * destruct (Z.eqb_spec (e + 1075) 2047); [lia|]. destruct (Z.eqb_spec (e + 1075) 0); [lia|]. replace (Zpos m - 2 ^ 52 + 2 ^ 52) with (Zpos m) by lia. f_equal. lia.
Qed.
Lemma bits_roundtrip f : valid_binary 53 1024 f = true -> f <> S754_nan -> is_u64 (bits_of_double f) /\ IsNaN (bits_of_double f) = false /\ double_of_bits (bits_of_double f) = f.
Proof.
  intros Hv Hn. destruct (bits_pattern f Hv Hn) as (s & e & m & He & Hm & Hz & -> & Hf). split; [now apply pattern_u64|]. split; [now rewrite pattern_nan|]. unfold double_of_bits.
  rewrite pattern_sign, pattern_exp, (proj2 (pattern_parts s e m Hm)) by assumption. destruct (e =? 2047); [|exact Hf]. cbn [andb] in Hz. apply negb_false_iff in Hz. now rewrite Hz.
Qed.
Lemma int_not_nan i : valid_binary 53 1024 (double_of_int i) = true /\ double_of_int i <> S754_nan.
Proof.
  split; [now apply normalize_valid|]. unfold double_of_int, binary_normalize.
  assert (Hp : forall sx p, binary_round 53 1024 sx p 0 <> S754_nan).
  { intros sx p. rewrite round_spec by lia. unfold normal, pack. destruct (_ =? _); destruct (_ : Z); try discriminate; destruct (_ <=? _); discriminate. }
  destruct i; [discriminate|apply Hp|apply Hp].
Qed.

(** ** Serial types and their data *)

Lemma varint_ok v : 0 <= v < 2 ^ 32 -> Z.of_nat (length (varint v)) = sqlite3VarintLen v /\ bytes (varint v) /\
  forall rest, bytes rest -> getVarint32 (varint v ++ rest) = (v, sqlite3VarintLen v).
Proof.
  intros Hv. assert (H64 : is_u64 v) by (unfold is_u64; lia). destruct (varintlen_correct (repeat 0 9) v H64 ltac:(cbn; lia)) as [Hlen _]. specialize (Hlen ltac:(lia)).
  destruct (sqlite3PutVarint_encodes (repeat 0 9) v H64 ltac:(cbn; lia)) as (k & Hk & E & Hlt & _). rewrite E in Hlen. cbn [snd] in Hlen.
  assert (Ev : varint v = encoding k v).
  { unfold varint. rewrite E, Nat2Z.id, firstn_app, length_encoding by exact Hk. rewrite Nat.sub_diag, firstn_O, app_nil_r. apply firstn_all2. rewrite length_encoding by exact Hk. lia. }
  rewrite Ev, length_encoding by exact Hk. split; [now symmetry|]. split; [apply bytes_encoding|]. intros rest Hr.
  assert (Hb : bytes (encoding k v ++ rest)) by (apply bytes_app; split; [apply bytes_encoding|exact Hr]). rewrite getVarint32_saturates, sqlite3GetVarint_ref by exact Hb.
  rewrite varint_ref_encoding by (try exact Hk; lia). rewrite Z.min_l by lia. now rewrite Hlen.
Qed.
Lemma varintlen_small t : 0 <= t < 128 -> sqlite3VarintLen t = 1.
Proof. intros H. unfold sqlite3VarintLen. cbn [varintlen_loop]. rewrite Z.shiftr_div_pow2, Z.div_small by lia. reflexivity. Qed.
Lemma byte_or_varint v : 0 <= v < 2 ^ 32 -> let l := if v <? 0x80 then [v] else varint v in
  Z.of_nat (length l) = sqlite3VarintLen v /\ bytes l /\ forall rest, bytes rest -> getVarint32 (l ++ rest) = (v, sqlite3VarintLen v).
Proof.
  intros Hv. destruct (Z.ltb_spec v 128); cbv zeta; [|now apply varint_ok]. rewrite varintlen_small by lia. split; [reflexivity|]. split; [constructor; [unfold is_u8; lia|constructor]|].
  intros rest _. unfold getVarint32. cbn [app]. rewrite rd_0. now rewrite (proj2 (Z.ltb_lt v 128)).
Qed.

Lemma small_sizes : forallb (fun k => nth k sqlite3SmallTypeSizes 0 =? (Z.of_nat k - 12) / 2) (seq 12 116) = true.
Proof. vm_compute. reflexivity. Qed.
Lemma type_len t : 12 <= t -> sqlite3VdbeSerialTypeLen t = (t - 12) / 2.
Proof.
  intros Ht. unfold sqlite3VdbeSerialTypeLen. destruct (Z.leb_spec 128 t); [reflexivity|]. pose proof small_sizes as H0. rewrite forallb_forall in H0.
  specialize (H0 (Z.to_nat t) ltac:(apply in_seq; lia)). rewrite Z.eqb_eq, Z2Nat.id in H0 by lia. exact H0.
Qed.

(** Data [F] of serial type [t] is read as value [v]. *)
Definition Reads (t : Z) (F : list Z) (v : value) : Prop :=
  0 <= t < 2 ^ 32 /\ Z.of_nat (length F) = sqlite3VdbeSerialTypeLen t /\ bytes F /\
  forall rest pMem, value_of (sqlite3VdbeSerialGet (F ++ rest) t pMem) = v.

Lemma value_int i m : value_of (set_int i m) = VInt i.
Proof. unfold value_of. change (has _ MEM_Null) with false. change (has (set_int i m) MEM_IntReal) with false. rewrite andb_false_r. reflexivity. Qed.

Lemma reads_int ff i : is_i64 i -> let (t, k) := int_type ff i in
  Reads t (be_bytes (Z.to_nat k) (u64 i)) (VInt i) /\ t <= 9 /\ t <> 7 /\ t <> 0 /\ k = sqlite3VdbeSerialTypeLen t.
Proof.
  intros Hi. unfold is_i64 in Hi.
  assert (Hcase : forall t k, In (t, k) [(1, 1); (2, 2); (3, 3); (4, 4); (5, 6); (6, 8)] ->
    - 2 ^ (8 * k - 1) <= i < 2 ^ (8 * k - 1) -> Reads t (be_bytes (Z.to_nat k) (u64 i)) (VInt i) /\ t <= 9 /\ t <> 7 /\ t <> 0 /\ k = sqlite3VdbeSerialTypeLen t).
  { intros t k Hin Hr. repeat (destruct Hin as [E|Hin]; [injection E as <- <-; change (8 * _ - 1) with 7 in Hr || cbn in Hr; (split; [|split; [lia|split; [lia|split; [lia|reflexivity]]]]); (split; [lia|]); (split; [rewrite length_be_bytes; reflexivity|]); (split; [apply bytes_be_bytes|]); intros rest pMem; unfold sqlite3VdbeSerialGet; cbn [Z.eqb orb Pos.eqb]|]); [..|destruct Hin].
    - rewrite get_one by lia. apply value_int.
    - rewrite get_two by lia. apply value_int.
    - rewrite get_three by lia. apply value_int.
    - rewrite get_four by lia. apply value_int.
    - rewrite get_six by lia. apply value_int.
    - unfold serialGet. cbn [Z.eqb Pos.eqb]. rewrite get_eight by (apply Z.mod_pos_bound; lia). rewrite i64_u64 by exact Hi. apply value_int. }
  unfold int_type. set (uu := if i <? 0 then Z.lnot i else i). assert (Hu : 0 <= uu /\ (- uu - 1 <= i <= uu)) by (unfold uu, Z.lnot; destruct (Z.ltb_spec i 0); lia).
  destruct (Z.leb_spec uu 127).
  - destruct ((Z.land i 1 =? i) && (4 <=? ff)) eqn:E; [|apply Hcase; cbn; [tauto|lia]]. apply andb_true_iff in E as [E _]. apply Z.eqb_eq in E. change 1 with (2 ^ 1 - 1) in E.
    rewrite land_low in E by lia. pose proof (Z.mod_pos_bound i (2 ^ 1) ltac:(lia)). assert (Eu : uu = i) by (unfold uu; destruct (Z.ltb_spec i 0); lia). rewrite Eu.
    assert (Hb : i = 0 \/ i = 1) by lia. destruct Hb as [-> | ->]; (split; [|repeat split; lia]); (split; [lia|]); (split; [reflexivity|]); (split; [constructor|]); intros; apply value_int.
  - destruct (Z.leb_spec uu 32767); [|destruct (Z.leb_spec uu 8388607); [|destruct (Z.leb_spec uu 2147483647); [|destruct (Z.leb_spec uu 140737488355327)]]];
      (apply Hcase; cbn; [tauto|lia]).
Qed.

Lemma reads_null : Reads 0 [] VNull /\ Reads 10 [] VNoChange.
Proof. split; (split; [lia|]); (split; [reflexivity|]); (split; [constructor|]); reflexivity. Qed.
Lemma reads_real r : is_u64 r -> Reads 7 (be_bytes 8 r) (if IsNaN r then VNull else VReal r).
Proof.
  intros Hr. split; [lia|]. split; [reflexivity|]. split; [apply bytes_be_bytes|]. intros rest pMem. unfold sqlite3VdbeSerialGet, serialGet. cbn [Z.eqb Pos.eqb orb]. rewrite get_eight by exact Hr.
  unfold value_of, set_real, has. cbn [flags u_r]. destruct (IsNaN r) eqn:E; cbn; now rewrite ?E.
Qed.
Lemma even_type k : Z.land (k * 2 + 12) 1 = 0 /\ Z.land (k * 2 + 13) 1 = 1.
Proof.
  assert (H : forall x, Z.land x 1 = x mod 2) by (intros x; exact (Z.land_ones x 1 ltac:(lia))). rewrite !H. split; Z.div_mod_to_equations; lia.
Qed.
Lemma reads_bytes b (text : bool) : bytes b -> let t := Z.of_nat (length b) * 2 + (if text then 13 else 12) in t < 2 ^ 32 -> Reads t b (if text then VText b else VBlob b).
Proof.
  intros Hb t Ht. set (k := Z.of_nat (length b)) in *. assert (Hl : (t - 12) / 2 = k) by (unfold t; destruct text; Z.div_mod_to_equations; lia).
  assert (H12 : 12 <= t) by (unfold t; destruct text; lia). split; [lia|]. rewrite type_len by lia. split; [now rewrite Hl|]. split; [exact Hb|]. intros rest pMem.
  unfold sqlite3VdbeSerialGet. repeat (rewrite (proj2 (Z.eqb_neq t _)) by lia). cbn [orb]. rewrite Hl.
  assert (Hc : content (set_bytes (b ++ rest) k (Z.lor (if Z.land t 1 =? 0 then MEM_Blob else MEM_Str) MEM_Ephem) pMem) = b).
  { unfold content. cbn [set_bytes n z]. unfold k. rewrite Nat2Z.id, firstn_app, Nat.sub_diag, firstn_O, app_nil_r. apply firstn_all. }
  destruct (even_type k) as [E1 E2]. unfold t in *. destruct text; rewrite ?E1, ?E2 in *; unfold value_of; rewrite Hc; [reflexivity|]. cbn. now rewrite app_nil_r.
Qed.

(** ** Sizes and layout *)

Definition lenz (l : list Z) : Z := Z.of_nat (length l).
Lemma length_content m : mem_ok m -> lenz (content m) = n m.
Proof. intros H. pose proof (ok_n _ H). unfold lenz, content. rewrite length_firstn. lia. Qed.
Lemma bytes_content m : mem_ok m -> bytes (content m).
Proof. intros H. unfold content. pose proof (ok_z _ H) as Hz. rewrite <- (firstn_skipn (Z.to_nat (n m)) (z m)) in Hz. now apply bytes_app in Hz. Qed.
Lemma bytes_zeros k : bytes (repeat 0 k).
Proof. unfold bytes. apply Forall_forall. intros x Hx. apply repeat_spec in Hx as ->. unfold is_u8. lia. Qed.

Lemma data_bytes_content m t : 12 <= t -> (0 < n m -> 14 <= t) -> 0 <= n m -> data_bytes m t = content m.
Proof.
  intros Ht Hn H0. unfold data_bytes. destruct (Z.leb_spec t 7); [lia|]. assert (Hz : n m = 0 -> content m = []) by (unfold content; intros ->; reflexivity).
  destruct (t <? 128); [destruct (Z.leb_spec 14 t), (Z.ltb_spec 0 (n m)); cbn [andb]; try reflexivity; symmetry; apply Hz; lia|].
  destruct (Z.eqb_spec (n m) 0) as [E|]; cbn [negb]; [symmetry; auto|reflexivity].
Qed.

Definition Fits (s : Sizes) : Prop := nData s + nZeros s < 2 ^ 31 - 16.

(** What one field adds. *)
Record Adds (m : Mem) (t : Z) (s s' : Sizes) (v : value) : Prop := {
  ad_hdr : nHdr s' = nHdr s + lenz (header_bytes t);
  ad_data : nData s' = nData s + lenz (data_bytes m t);
  ad_zero : nZeros s <= nZeros s' /\ (nData s <> 0 -> nZeros s' = nZeros s);
  ad_reads : Reads t (data_bytes m t ++ repeat 0 (Z.to_nat (nZeros s' - nZeros s))) v }.

Lemma adds_plain m t s k v : Reads t (data_bytes m t) v -> lenz (data_bytes m t) = k ->
  Adds m t s {| nData := nData s + k; nHdr := nHdr s + sqlite3VarintLen t; nZeros := nZeros s |} v.
Proof.
  intros HR Hk. destruct (byte_or_varint t (proj1 HR)) as (Hl & _ & _). constructor; cbn [nHdr nData nZeros].
  - unfold lenz, header_bytes. now rewrite Hl.
  - now rewrite Hk.
  - split; [lia|reflexivity].
  - rewrite Z.sub_diag. cbn [Z.to_nat repeat]. now rewrite app_nil_r.
Qed.

Lemma size_bytes_ok malloc pRec m t s s' : mem_ok pRec -> 0 <= nData s -> 0 <= nZeros s -> has pRec MEM_Null = false ->
  has pRec (Z.lor MEM_Int MEM_IntReal) = false -> has pRec MEM_Real = false -> size_bytes malloc pRec s = Some (m, t, s') ->
  Fits s' -> Adds m t s s' (value_of pRec).
Proof.
  intros Hok H0 Hz0 E1 E2 E3 E Hfit. pose proof (ok_n _ Hok) as Hn. pose proof (ok_zero _ Hok) as Hz. pose proof (length_content _ Hok) as Hl. pose proof (bytes_content _ Hok) as Hb.
  unfold value_of. rewrite E1, E2, E3. unfold size_bytes in E. cbv zeta in E. unfold Fits in Hfit. destruct (has pRec MEM_Zero) eqn:EZ.
  - destruct (ok_kind _ Hok EZ) as [|[ES EB]]; [congruence|]. rewrite ES in *. cbn [negb] in E.
    assert (Hbz : bytes (content pRec ++ repeat 0 (Z.to_nat (nZero pRec)))) by (apply bytes_app; split; [exact Hb|apply bytes_zeros]).
    assert (Hlz : lenz (content pRec ++ repeat 0 (Z.to_nat (nZero pRec))) = n pRec + nZero pRec) by (unfold lenz in *; rewrite length_app, repeat_length; lia).
    assert (Et : n pRec + nZero pRec < 2 ^ 31 - 16 -> u32 (u32 (n pRec * 2 + 12 + 0) + nZero pRec * 2) = lenz (content pRec ++ repeat 0 (Z.to_nat (nZero pRec))) * 2 + 12).
    { intros Hsm. rewrite Hlz. unfold u32. rewrite !Z.mod_small; try lia. rewrite Z.mod_small; lia. }
    destruct (Z.eqb_spec (nData s) 0) as [Ed|Ed]; cbn [negb] in E.
    + injection E as <- <- <-. cbn [nData nZeros] in Hfit. specialize (Et ltac:(lia)). rewrite Et in *. pose proof (reads_bytes _ false Hbz ltac:(unfold lenz in *; lia)) as HR.
      fold (lenz (content pRec ++ repeat 0 (Z.to_nat (nZero pRec)))) in HR. assert (Ed' : data_bytes pRec (lenz (content pRec ++ repeat 0 (Z.to_nat (nZero pRec))) * 2 + 12) = content pRec) by (apply data_bytes_content; lia).
      destruct (byte_or_varint _ (proj1 HR)) as (Hv & _ & _). constructor; cbn [nData nHdr nZeros]; rewrite ?Ed'.
      * unfold lenz at 2. unfold header_bytes. now rewrite Hv.
      * now rewrite Hl.
      * split; [lia|contradiction].
      * replace (nZeros s + nZero pRec - nZeros s) with (nZero pRec) by lia. exact HR.
    + unfold sqlite3VdbeMemExpandBlob in E. rewrite EB in E. cbn [negb] in E. rewrite andb_false_r in E. destruct (malloc _); [|discriminate]. injection E as <- <- <-. cbn [nData nZeros] in Hfit.
      specialize (Et ltac:(lia)). rewrite Et. pose proof (reads_bytes _ false Hbz ltac:(unfold lenz in *; lia)) as HR. fold (lenz (content pRec ++ repeat 0 (Z.to_nat (nZero pRec)))) in HR.
      set (m := {| u_i := _ |}). assert (Ed' : data_bytes m (lenz (content pRec ++ repeat 0 (Z.to_nat (nZero pRec))) * 2 + 12) = content pRec ++ repeat 0 (Z.to_nat (nZero pRec))).
      { rewrite data_bytes_content; unfold m; cbn [n]; try lia. unfold content at 1. cbn [n z]. rewrite firstn_all2; [reflexivity|]. unfold lenz in Hlz. lia. }
      replace (nData s + n pRec + nZero pRec) with (nData s + (n pRec + nZero pRec)) by lia. apply adds_plain; rewrite Ed'; [exact HR|exact Hlz].
  - injection E as <- <- <-. cbn [nData nZeros] in Hfit. set (x := if has pRec MEM_Str then 1 else 0) in *. assert (Et : u32 (n pRec * 2 + 12 + x) = n pRec * 2 + 12 + x) by (unfold u32; rewrite Z.mod_small; unfold x; destruct (has pRec MEM_Str); lia).
    rewrite Et. assert (Ed' : data_bytes pRec (n pRec * 2 + 12 + x) = content pRec) by (apply data_bytes_content; unfold x; destruct (has pRec MEM_Str); lia).
    apply adds_plain; rewrite Ed'; [|exact Hl]. pose proof (reads_bytes (content pRec) (has pRec MEM_Str) Hb) as HR. cbv zeta in HR. fold (lenz (content pRec)) in HR. rewrite Hl in HR.
    unfold x. cbn [repeat]. rewrite app_nil_r. destruct (has pRec MEM_Str); [replace (n pRec * 2 + 12 + 1) with (n pRec * 2 + 13) by lia|rewrite Z.add_0_r]; apply HR; lia.
Qed.

Lemma int_type_large ff i : (fst (int_type ff i) =? 6) = (fst (int_type 4 i) =? 6).
Proof.
  unfold int_type. set (uu := if i <? 0 then Z.lnot i else i). assert (0 <= uu) by (unfold uu, Z.lnot; destruct (Z.ltb_spec i 0); lia).
  destruct (uu <=? 127); [|reflexivity]. assert (E : forall b : bool, (fst (if b then (8 + uu, 0) else (1, 1)) =? 6) = false) by (intros []; cbn [fst]; apply Z.eqb_neq; lia).
  now rewrite !E.
Qed.
Lemma int_data m ff : is_i64 (u_i m) -> let (t, k) := int_type ff (u_i m) in data_bytes m t = be_bytes (Z.to_nat k) (u64 (u_i m)) /\ 0 <= k.
Proof.
  intros Hi. pose proof (reads_int ff (u_i m) Hi) as H. destruct (int_type ff (u_i m)) as [t k]. destruct H as (HR & H9 & H7 & H0 & Hk). pose proof (proj1 HR) as Ht.
  assert (Hk0 : 0 <= k) by (pose proof (proj1 (proj2 HR)); rewrite length_be_bytes in *; lia). split; [|exact Hk0]. unfold data_bytes. destruct (Z.leb_spec t 7).
  - rewrite (proj2 (Z.eqb_neq t 0)), (proj2 (Z.eqb_neq t 7)) by lia. f_equal. rewrite Hk. unfold sqlite3VdbeSerialTypeLen. now rewrite (proj2 (Z.leb_gt 128 t)) by lia.
  - assert (Hcase : t = 8 \/ t = 9) by lia. destruct Hcase as [-> | ->]; rewrite Hk; reflexivity.
Qed.

Lemma size_field_ok ff malloc pRec m t s s' : mem_ok pRec -> 0 <= nData s -> 0 <= nZeros s -> size_field ff malloc pRec s = Some (m, t, s') -> Fits s' ->
  Adds m t s s' (value_of pRec).
Proof.
  intros Hok H0 Hz E Hfit. unfold size_field in E. destruct (has pRec MEM_Null) eqn:E1.
  { unfold value_of. rewrite E1. destruct reads_null as [R0 R10].
    destruct (has pRec MEM_Zero); injection E as <- <- <-; rewrite <- (Z.add_0_r (nData s)); [exact (adds_plain pRec 10 s 0 VNoChange R10 eq_refl)|exact (adds_plain pRec 0 s 0 VNull R0 eq_refl)]. }
  destruct (has pRec (Z.lor MEM_Int MEM_IntReal)) eqn:E2.
  - unfold value_of. rewrite E1, E2. rewrite <- (int_type_large ff). pose proof (reads_int ff _ (ok_int _ Hok)) as HR. pose proof (int_data pRec ff (ok_int _ Hok)) as HD.
    destruct (int_type ff (u_i pRec)) as [t0 k]. cbn [fst]. destruct HR as (HR & H9 & H7 & Ht0 & Hk), HD as [HD Hk0]. destruct ((t0 =? 6) && has pRec MEM_IntReal) eqn:E6; injection E as <- <- <-.
    + apply andb_true_iff in E6 as [E6 _]. apply Z.eqb_eq in E6. subst t0. rewrite Hk. destruct (int_not_nan (u_i pRec)) as [V1 V2].
      destruct (bits_roundtrip _ V1 V2) as (B1 & B2 & _). set (r := bits_of_double _) in *. pose proof (reads_real r B1) as HR7. rewrite B2 in HR7.
      apply (adds_plain _ 7 s 8); [exact HR7|]. unfold lenz. cbn [data_bytes]. change (data_bytes (set_real r _ pRec) 7) with (be_bytes 8 r). now rewrite length_be_bytes.
    + rewrite <- (varintlen_small t0) by (pose proof (proj1 HR); lia). apply adds_plain; rewrite HD; [exact HR|]. unfold lenz. rewrite length_be_bytes. lia.
  - destruct (has pRec MEM_Real) eqn:E3; [|exact (size_bytes_ok malloc pRec m t s s' Hok H0 Hz E1 E2 E3 E Hfit)]. injection E as <- <- <-. unfold value_of. rewrite E1, E2, E3.
    apply (adds_plain _ 7 s 8); [exact (reads_real _ (ok_real _ Hok))|]. unfold lenz. change (data_bytes pRec 7) with (be_bytes 8 (u_r pRec)). now rewrite length_be_bytes.
Qed.

(** All fields: [l] has the registers with their serial types, [Fs] their data. *)
Inductive Encoded : list (Mem * Z) -> list (list Z) -> list value -> Prop :=
| enc_nil : Encoded [] [] []
| enc_cons m t F v l Fs vs : Reads t F v -> Encoded l Fs vs -> Encoded ((m, t) :: l) (F :: Fs) (v :: vs).

Definition headers (l : list (Mem * Z)) : list Z := concat (map (fun f => header_bytes (snd f)) l).
Definition payload (l : list (Mem * Z)) : list Z := concat (map (fun f => data_bytes (fst f) (snd f)) l).

Lemma size_field_grows ff malloc pRec m t s s' : mem_ok pRec -> size_field ff malloc pRec s = Some (m, t, s') -> nData s <= nData s' /\ nZeros s <= nZeros s'.
Proof.
  intros Hok E. pose proof (ok_n _ Hok). pose proof (ok_zero _ Hok). unfold size_field, size_bytes in E. destruct (has pRec MEM_Null); [injection E as <- <- <-; cbn; lia|].
  destruct (has pRec (Z.lor MEM_Int MEM_IntReal)).
  - pose proof (int_data pRec ff (ok_int _ Hok)) as HD. destruct (int_type ff (u_i pRec)) as [t0 k]. destruct (_ && _); injection E as <- <- <-; cbn; lia.
  - destruct (has pRec MEM_Real); [injection E as <- <- <-; cbn; lia|]. cbv zeta in E. destruct (has pRec MEM_Zero); [|injection E as <- <- <-; cbn; lia].
    destruct (negb _); [|injection E as <- <- <-; cbn; lia]. destruct (sqlite3VdbeMemExpandBlob malloc pRec); [injection E as <- <- <-; cbn; lia|discriminate].
Qed.

Lemma lenz_nil l : lenz l = 0 -> l = [].
Proof. unfold lenz. destruct l; [reflexivity|cbn [length]; lia]. Qed.
Lemma lenz_app a b : lenz (a ++ b) = lenz a + lenz b.
Proof. unfold lenz. rewrite length_app. lia. Qed.

Lemma size_fields_ok ff malloc fields : forall l s, Forall mem_ok fields -> size_fields ff malloc fields = Some (l, s) -> Fits s ->
  exists Fs, Encoded l Fs (map value_of fields) /\ nHdr s = lenz (headers l) /\ nData s = lenz (payload l) /\ 0 <= nZeros s /\
    payload l ++ repeat 0 (Z.to_nat (nZeros s)) = concat Fs.
Proof.
  induction fields as [|m fields IH]; intros l s Hok E Hfit; cbn [size_fields] in E.
  { injection E as <- <-. exists []. repeat split; try reflexivity; try lia. constructor. }
  apply Forall_cons_iff in Hok as [Hm Hok]. destruct (size_fields ff malloc fields) as [[l0 s0]|]; [|discriminate]. cbn [fst snd] in E.
  destruct (size_field ff malloc m s0) as [[[m' t] s']|] eqn:Ef; [|discriminate]. injection E as <- <-. destruct (size_field_grows _ _ _ _ _ _ _ Hm Ef).
  destruct (IH l0 s0 Hok eq_refl) as (Fs & H1 & H2 & H3 & H4 & H5); [unfold Fits in *; lia|]. pose proof (Nat2Z.is_nonneg (length (payload l0))) as Hp. fold (lenz (payload l0)) in Hp.
  destruct (size_field_ok ff malloc m m' t s0 s' Hm ltac:(lia) H4 Ef Hfit) as [A1 A2 [A3 A3'] A4].
  eexists. split; [cbn [map]; constructor; [exact A4|exact H1]|]. change (headers ((m', t) :: l0)) with (header_bytes t ++ headers l0). change (payload ((m', t) :: l0)) with (data_bytes m' t ++ payload l0).
  rewrite !lenz_app. split; [lia|]. split; [lia|]. split; [lia|]. cbn [concat]. rewrite <- H5, <- !app_assoc. f_equal. destruct (Z.eq_dec (nData s0) 0) as [Ed|Ed].
  - rewrite (lenz_nil (payload l0)) by lia. cbn [app]. rewrite <- repeat_app. f_equal. lia.
  - rewrite (A3' Ed), Z.sub_diag. reflexivity.
Qed.

Lemma poke_app H X Y bs i : lenz H = i -> length X = length bs -> poke i bs (H ++ X ++ Y) = H ++ bs ++ Y.
Proof.
  unfold lenz, poke. intros <- HX. rewrite Nat2Z.id, firstn_app, firstn_all, Nat.sub_diag, firstn_O, app_nil_r. f_equal. f_equal.
  rewrite app_assoc, <- HX, <- length_app, skipn_app, skipn_all, Nat.sub_diag. reflexivity.
Qed.
Lemma split_len (k : nat) (X : list Z) : (k <= length X)%nat -> exists X1 X2, X = X1 ++ X2 /\ length X1 = k.
Proof. intros Hk. exists (firstn k X), (skipn k X). split; [symmetry; apply firstn_skipn|]. rewrite length_firstn. lia. Qed.

Lemma write_fields_ok l : forall H X P Y zHdr zPayload, lenz H = zHdr -> lenz X = lenz (headers l) -> lenz Y = lenz (payload l) -> zPayload = zHdr + lenz X + lenz P ->
  write_fields l zHdr zPayload (H ++ X ++ P ++ Y) = (H ++ headers l ++ P ++ payload l, zHdr + lenz (headers l), zPayload + lenz (payload l)).
Proof.
  induction l as [|[m t] l IH]; intros H X P Y zHdr zPayload EH EX EY EP.
  - rewrite (lenz_nil X EX), (lenz_nil Y EY). cbn. now rewrite !Z.add_0_r.
  - change (headers ((m, t) :: l)) with (header_bytes t ++ headers l) in *. change (payload ((m, t) :: l)) with (data_bytes m t ++ payload l) in *. rewrite lenz_app in EX, EY. cbn [write_fields].
    destruct (split_len (length (header_bytes t)) X) as (X1 & X2 & -> & L1); [unfold lenz in EX; lia|]. destruct (split_len (length (data_bytes m t)) Y) as (Y1 & Y2 & -> & L2); [unfold lenz in EY; lia|].
    rewrite lenz_app in *. rewrite <- (app_assoc X1). rewrite poke_app by assumption. assert (E1 : lenz X1 = lenz (header_bytes t)) by (unfold lenz; now rewrite L1). assert (E2 : lenz Y1 = lenz (data_bytes m t)) by (unfold lenz; now rewrite L2).
    replace (H ++ header_bytes t ++ X2 ++ P ++ Y1 ++ Y2) with ((H ++ header_bytes t ++ X2 ++ P) ++ Y1 ++ Y2) by (now rewrite <- !app_assoc).
    rewrite poke_app; [|rewrite !lenz_app; lia|exact L2]. fold (lenz (header_bytes t)). fold (lenz (data_bytes m t)).
    replace ((H ++ header_bytes t ++ X2 ++ P) ++ data_bytes m t ++ Y2) with ((H ++ header_bytes t) ++ X2 ++ (P ++ data_bytes m t) ++ Y2) by (now rewrite <- !app_assoc).
    rewrite IH; rewrite ?lenz_app; try lia. rewrite <- !app_assoc, !Z.add_assoc. reflexivity.
Qed.

Lemma varintlen_cases v : 0 <= v < 2 ^ 32 ->
  sqlite3VarintLen v = if v <? 128 then 1 else if v <? 16384 then 2 else if v <? 2097152 then 3 else if v <? 268435456 then 4 else 5.
Proof.
  intros Hv. destruct (varintlen_loop_spec 10 1 v) as (k & Hk & E & Hlt & Hge); [change (128 ^ Z.of_nat 10) with (2 ^ 70); lia|lia|]. unfold sqlite3VarintLen. rewrite E.
  assert (Hl : forall j, (0 < j)%nat -> v < 128 ^ Z.of_nat j -> (k <= j)%nat) by (intros j Hj Hjl; apply (least_length_unique k j v); assumption).
  assert (Hg : forall j, 128 ^ Z.of_nat j <= v -> (j < k)%nat).
  { intros j Hj. destruct (Nat.lt_ge_cases j k); [assumption|]. pose proof (Z.pow_le_mono_r 128 (Z.of_nat k) (Z.of_nat j) ltac:(lia) ltac:(lia)). lia. }
  pose proof (Hl 1%nat). pose proof (Hl 2%nat). pose proof (Hl 3%nat). pose proof (Hl 4%nat). pose proof (Hl 5%nat). pose proof (Hg 1%nat). pose proof (Hg 2%nat). pose proof (Hg 3%nat). pose proof (Hg 4%nat).
  change (128 ^ Z.of_nat 1) with 128 in *. change (128 ^ Z.of_nat 2) with 16384 in *. change (128 ^ Z.of_nat 3) with 2097152 in *. change (128 ^ Z.of_nat 4) with 268435456 in *.
  change (128 ^ Z.of_nat 5) with 34359738368 in *. clear Hl Hg E Hge Hlt.
  destruct (Z.ltb_spec v 128); [lia|]. destruct (Z.ltb_spec v 16384); [lia|]. destruct (Z.ltb_spec v 2097152); [lia|]. destruct (Z.ltb_spec v 268435456); lia.
Qed.

(** The size of the header includes the bytes of the size itself. *)
Lemma header_size_ok k : 0 <= k < 2 ^ 31 -> let h := header_size k in k < h <= k + 6 /\ sqlite3VarintLen h + k = h.
Proof.
  intros Hk. cbv zeta. unfold header_size. destruct (Z.leb_spec k 126).
  - rewrite varintlen_small by lia. lia.
  - set (a := sqlite3VarintLen k). assert (Ea := varintlen_cases k ltac:(lia)). fold a in Ea. assert (Ha : 1 <= a <= 5) by (repeat (destruct (_ <? _) in Ea); lia).
    assert (Eb := varintlen_cases (k + a) ltac:(lia)). assert (Ec := varintlen_cases (k + a + 1) ltac:(lia)). destruct (Z.ltb_spec a (sqlite3VarintLen (k + a))); (split; [lia|]); [rewrite Ec|]; rewrite Eb in *; clear Eb Ec;
    repeat match goal with |- context [?x <? ?y] => destruct (Z.ltb_spec x y) | H : context [?x <? ?y] |- _ => destruct (Z.ltb_spec x y) end; lia.
Qed.

(** ** The round trip *)

Lemma at_add i k a : 0 <= i -> 0 <= k -> at_ (i + k) a = skipn (Z.to_nat k) (at_ i a).
Proof. intros Hi Hk. unfold at_. rewrite skipn_skipn. f_equal. lia. Qed.
Lemma skipn_lenz (a b : list Z) : skipn (Z.to_nat (lenz a)) (a ++ b) = b.
Proof. unfold lenz. rewrite Nat2Z.id, skipn_app, skipn_all, Nat.sub_diag. reflexivity. Qed.
Lemma header_bytes_ok t : 0 <= t < 2 ^ 32 -> lenz (header_bytes t) = sqlite3VarintLen t /\ 1 <= sqlite3VarintLen t /\ bytes (header_bytes t) /\
  forall rest, bytes rest -> getVarint32 (header_bytes t ++ rest) = (t, sqlite3VarintLen t).
Proof.
  intros Ht. destruct (byte_or_varint t Ht) as (H1 & H2 & H3). split; [exact H1|]. split; [|split; [exact H2|exact H3]]. rewrite varintlen_cases by exact Ht.
  repeat (destruct (_ <? _)); lia.
Qed.

Lemma unpack_ok nKey szHdr aKey : bytes aKey -> lenz aKey = nKey -> nKey < 2 ^ 32 -> forall l Fs vs, Encoded l Fs vs -> forall idx d aMem R1,
  0 <= idx -> 0 <= d -> at_ idx aKey = headers l ++ R1 -> szHdr = idx + lenz (headers l) -> szHdr < 2 ^ 32 -> at_ d aKey = concat Fs -> nKey = d + lenz (concat Fs) ->
  let (ms, d') := unpack_loop nKey szHdr aKey idx d aMem in map value_of ms = firstn (length aMem) vs /\ d' <= nKey.
Proof.
  intros Hb HK H32 l Fs vs HE. induction HE as [|m t F v l Fs vs HR HE IH]; intros idx d aMem R1 Hi Hd E1 Es Hs E2 En.
  - destruct aMem as [|pMem aMem]; cbn [unpack_loop]; [split; [reflexivity|cbn in En; lia]|]. change (lenz (headers [])) with 0 in Es.
    rewrite (proj2 (Z.ltb_ge idx szHdr)) by lia. cbn [andb]. split; [reflexivity|cbn in En; lia].
  - destruct aMem as [|pMem aMem]; cbn [unpack_loop]; [split; [reflexivity|cbn [concat] in En; unfold lenz in En; lia]|].
    change (headers ((m, t) :: l)) with (header_bytes t ++ headers l) in *. cbn [concat] in E2, En. rewrite lenz_app in Es, En. rewrite <- app_assoc in E1.
    destruct HR as (Ht & HF & HFb & HV). destruct (header_bytes_ok t Ht) as (Hh & Hh1 & Hhb & Hg). pose proof (Nat2Z.is_nonneg (length (headers l))) as Hp. fold (lenz (headers l)) in Hp.
    pose proof (Nat2Z.is_nonneg (length (concat Fs))) as Hq. fold (lenz (concat Fs)) in Hq. fold (lenz F) in HF. pose proof (Nat2Z.is_nonneg (length F)) as Hr. fold (lenz F) in Hr.
    rewrite (proj2 (Z.ltb_lt idx szHdr)), (proj2 (Z.leb_le d nKey)) by lia. cbn [andb].
    assert (Hrest : bytes (headers l ++ R1)) by (pose proof (bytes_skipn (Z.to_nat idx) aKey Hb) as K; fold (at_ idx aKey) in K; rewrite E1 in K; now apply bytes_app in K).
    rewrite E1, (Hg _ Hrest), E2. unfold u32. rewrite (Z.mod_small (idx + _)), (Z.mod_small (d + _)) by lia.
    assert (P1 : at_ (idx + sqlite3VarintLen t) aKey = headers l ++ R1) by (rewrite at_add, E1, <- Hh by lia; apply skipn_lenz).
    assert (P2 : at_ (d + sqlite3VdbeSerialTypeLen t) aKey = concat Fs) by (rewrite at_add, E2, <- HF by lia; apply skipn_lenz).
    pose proof (IH (idx + sqlite3VarintLen t) (d + sqlite3VdbeSerialTypeLen t) aMem R1 ltac:(lia) ltac:(lia) P1 ltac:(lia) Hs P2 ltac:(lia)) as K.
    destruct (unpack_loop _ _ _ _ _ aMem) as [ms d']. destruct K as [K1 K2]. split; [|exact K2]. cbn [map length firstn]. rewrite HV. f_equal. exact K1.
Qed.

Lemma encoded_bytes l Fs vs : Encoded l Fs vs -> bytes (headers l) /\ bytes (concat Fs).
Proof.
  induction 1 as [|m t F v l Fs vs HR _ [IH1 IH2]]; [split; constructor|]. destruct HR as (Ht & _ & HF & _). destruct (header_bytes_ok t Ht) as (_ & _ & Hh & _).
  split; [change (headers ((m, t) :: l)) with (header_bytes t ++ headers l)|cbn [concat]]; apply bytes_app; auto.
Qed.

(** *** The sizes that the opcode computes *)

Lemma groups_cases v : 0 <= v < 2 ^ 32 ->
  groups v = if v <? 128 then 1 else if v <? 16384 then 2 else if v <? 2097152 then 3 else if v <? 268435456 then 4 else 5.
Proof.
  intros Hv. unfold groups. destruct (Z.leb_spec v 0) as [H0|H0]; [now rewrite (proj2 (Z.ltb_lt v 128)) by lia|].
  assert (Hg : forall a b c, 2 ^ a <= v < 2 ^ b -> 7 * (c - 1) <= a -> b <= 7 * c -> 0 <= a -> Z.log2 v / 7 + 1 = c).
  { intros a b c [H1 H2] Ha Hb Hp. apply Z.log2_le_pow2 in H1; [|lia]. apply Z.log2_lt_pow2 in H2; [|lia]. Z.div_mod_to_equations. lia. }
  destruct (Z.ltb_spec v 128); [apply (Hg 0 7); lia|]. destruct (Z.ltb_spec v 16384); [apply (Hg 7 14); lia|].
  destruct (Z.ltb_spec v 2097152); [apply (Hg 14 21); lia|]. destruct (Z.ltb_spec v 268435456); [apply (Hg 21 28)|apply (Hg 28 32)]; lia.
Qed.
Lemma varintlen_groups v : 0 <= v < 2 ^ 32 -> sqlite3VarintLen v = groups v.
Proof. intros H. now rewrite varintlen_cases, groups_cases. Qed.

Lemma header_size_total k : 0 <= k < 2 ^ 20 -> header_size k = header_total k.
Proof.
  intros Hk. unfold header_total. cbn [find]. rewrite !groups_cases by lia. unfold header_size. rewrite (varintlen_cases k), (varintlen_cases (k + _)) by (repeat (destruct (_ <? _)); lia).
  repeat match goal with |- context [?x <? ?y] => destruct (Z.ltb_spec x y); try lia end;
    repeat match goal with |- context [?x <=? ?y] => destruct (Z.leb_spec x y); try lia end;
    repeat match goal with |- context [?x =? ?y] => destruct (Z.eqb_spec x y); try lia end; lia.
Qed.
Lemma header_total_pos k : 0 <= k -> 0 <= header_total k.
Proof. intros Hk. unfold header_total. destruct (find _ _) as [h|] eqn:E; [|exact Hk]. apply find_some in E as [Hi _]. cbn [In] in Hi. lia. Qed.

Lemma int_type_width ff i : is_i64 i -> snd (int_type ff i) = int_width ff i.
Proof.
  intros Hi. unfold is_i64 in Hi. unfold int_type, int_width. cbn [find].
  assert (Hl : Z.land i 1 = i mod 2) by exact (Z.land_ones i 1 ltac:(lia)). rewrite Hl.
  change (2 ^ (8 * 1 - 1)) with 128. change (2 ^ (8 * 2 - 1)) with 32768. change (2 ^ (8 * 3 - 1)) with 8388608.
  change (2 ^ (8 * 4 - 1)) with 2147483648. change (2 ^ (8 * 6 - 1)) with 140737488355328.
  assert (Hu : (if i <? 0 then Z.lnot i else i) = if i <? 0 then - i - 1 else i) by (destruct (i <? 0); [unfold Z.lnot; lia|reflexivity]). rewrite Hu. clear Hl Hu.
  assert (Hp : (i mod 2 =? i) = (i =? 0) || (i =? 1)).
  { destruct (Z.eqb_spec i 0), (Z.eqb_spec i 1), (Z.eqb_spec (i mod 2) i); cbn [orb]; try reflexivity; Z.div_mod_to_equations; lia. }
  rewrite Hp, (andb_comm _ (4 <=? ff)). destruct (4 <=? ff) eqn:Ef, (Z.ltb_spec i 0), (Z.eqb_spec i 0), (Z.eqb_spec i 1); cbn [andb orb]; try lia;
    repeat match goal with |- context [?x <=? ?y] => destruct (Z.leb_spec x y); try lia end;
    repeat match goal with |- context [?x <? ?y] => destruct (Z.ltb_spec x y); try lia end; cbn [snd andb]; try reflexivity; try lia.
Qed.

Lemma size_field_bytes ff malloc pRec m t s s' : mem_ok pRec -> size_field ff malloc pRec s = Some (m, t, s') ->
  nData s' + nZeros s' = nData s + nZeros s + field_bytes ff pRec /\
  nZeros s' = nZeros s + (if zero_blob pRec && (nData s =? 0) then nZero pRec else 0) /\
  nHdr s <= nHdr s' <= nHdr s + 5 /\ (field_bytes ff pRec < 2 ^ 31 - 16 -> nHdr s' = nHdr s + type_bytes pRec).
Proof.
  intros Hok E. pose proof (ok_n _ Hok). pose proof (ok_zero _ Hok).
  assert (Hv : forall x, 1 <= sqlite3VarintLen (u32 x) <= 5 /\ (0 <= x < 2 ^ 32 -> sqlite3VarintLen (u32 x) = groups x)).
  { intros x. split; [rewrite varintlen_cases by (apply Z.mod_pos_bound; lia); repeat (destruct (_ <? _)); lia|]. intros Hx. unfold u32. rewrite Z.mod_small by exact Hx. now apply varintlen_groups. }
  unfold size_field, size_bytes in E. unfold field_bytes, type_bytes, zero_blob, numeric. destruct (has pRec MEM_Null) eqn:En; [injection E as <- <- <-; cbn [nHdr nData nZeros orb negb andb]; lia|].
  destruct (has pRec (Z.lor MEM_Int MEM_IntReal)); cbn [orb negb andb].
  { pose proof (int_type_width ff (u_i pRec) (ok_int _ Hok)) as Hw. destruct (int_type ff (u_i pRec)) as [t0 k]. cbn [snd] in Hw. subst k.
    destruct (_ && _); injection E as <- <- <-; cbn [nHdr nData nZeros]; lia. }
  destruct (has pRec MEM_Real); cbn [orb negb andb]; [injection E as <- <- <-; cbn [nHdr nData nZeros]; lia|]. cbv zeta in E. unfold blob_bytes. destruct (has pRec MEM_Zero) eqn:Ez; cbn [andb].
  - destruct (ok_kind _ Hok Ez) as [K|[K _]]; [|rewrite K in *].
    + congruence.
    + replace (u32 (u32 (n pRec * 2 + 12 + 0) + nZero pRec * 2)) with (u32 (2 * (n pRec + nZero pRec) + 12)) in E by (unfold u32; rewrite Zplus_mod_idemp_l; f_equal; lia).
      destruct (Hv (2 * (n pRec + nZero pRec) + 12)) as [Hv1 Hv2]. remember (u32 (2 * (n pRec + nZero pRec) + 12)) as u eqn:Eu. clear Eu.
      destruct (nData s =? 0); cbn [negb] in E; [injection E as <- <- <-|destruct (sqlite3VdbeMemExpandBlob malloc pRec); [injection E as <- <- <-|discriminate]]; cbn [nHdr nData nZeros];
        (split; [lia|]; split; [lia|]; split; [lia|]; intros Hb; rewrite Hv2; lia).
  - destruct (Hv (n pRec * 2 + 12 + (if has pRec MEM_Str then 1 else 0))) as [Hv1 Hv2].
    remember (u32 (n pRec * 2 + 12 + (if has pRec MEM_Str then 1 else 0))) as u eqn:Eu. clear Eu. injection E as <- <- <-. cbn [nHdr nData nZeros]. split; [lia|]. split; [lia|]. split; [lia|]. intros Hb.
    rewrite Hv2 by (destruct (has pRec MEM_Str); lia). f_equal. f_equal. destruct (has pRec MEM_Str); lia.
Qed.

Lemma field_bytes_pos ff m : mem_ok m -> 0 <= field_bytes ff m.
Proof.
  intros Hok. pose proof (ok_n _ Hok). pose proof (ok_zero _ Hok). unfold field_bytes, blob_bytes. destruct (has m MEM_Null); [lia|]. destruct (has m (Z.lor _ _)).
  - unfold int_width. destruct (_ && _); [lia|]. destruct (find _ _) as [k|] eqn:E; [|lia]. apply find_some in E as [Hi _]. cbn [In] in Hi. lia.
  - destruct (has m MEM_Real); [lia|]. destruct (has m MEM_Zero); lia.
Qed.
Lemma data_total_pos ff fields : Forall mem_ok fields -> 0 <= data_total ff fields.
Proof. induction 1 as [|m l Hm _ IH]; cbn [data_total fold_right]; [lia|]. fold (data_total ff l). pose proof (field_bytes_pos ff m Hm). lia. Qed.
Lemma types_total_pos fields : 0 <= types_total fields.
Proof.
  induction fields as [|m l IH]; cbn [types_total fold_right]; [lia|]. fold (types_total l). enough (0 <= type_bytes m) by lia. unfold type_bytes, groups.
  destruct (numeric m); [lia|]. destruct (_ <=? _); [lia|]. pose proof (Z.log2_nonneg (2 * blob_bytes m + (if has m MEM_Str then 13 else 12))). Z.div_mod_to_equations. lia.
Qed.

(** The sizes are those of the specification. *)
Lemma size_fields_bytes ff malloc fields : forall l s, Forall mem_ok fields -> size_fields ff malloc fields = Some (l, s) ->
  nData s + nZeros s = data_total ff fields /\ nZeros s = tail_zeros ff fields /\ 0 <= nHdr s <= 5 * Z.of_nat (length fields) /\
  (data_total ff fields < 2 ^ 31 - 16 -> nHdr s = types_total fields).
Proof.
  induction fields as [|m fields IH]; intros l s Hok E; cbn [size_fields] in E; [injection E as <- <-; cbn; lia|].
  apply Forall_cons_iff in Hok as [Hm Hok]. destruct (size_fields ff malloc fields) as [[l0 s0]|]; [|discriminate]. cbn [fst snd] in E. destruct (IH l0 s0 Hok eq_refl) as (I1 & I2 & I3 & I4).
  destruct (size_field ff malloc m s0) as [[[m' t] s']|] eqn:Ef; [|discriminate]. injection E as <- <-. destruct (size_field_bytes _ _ _ _ _ _ _ Hm Ef) as (F1 & F2 & F3 & F4).
  pose proof (data_total_pos ff fields Hok). pose proof (field_bytes_pos ff m Hm).
  cbn [data_total types_total fold_right tail_zeros length]. fold (data_total ff fields). fold (types_total fields).
  replace (data_total ff fields =? tail_zeros ff fields) with (nData s0 =? 0) by (destruct (Z.eqb_spec (nData s0) 0), (Z.eqb_spec (data_total ff fields) (tail_zeros ff fields)); lia).
  split; [lia|]. split; [lia|]. split; [lia|]. intros Hb. rewrite F4, I4 by lia. lia.
Qed.
Lemma size_fields_pos ff malloc fields : forall l s, Forall mem_ok fields -> size_fields ff malloc fields = Some (l, s) -> 0 <= nData s.
Proof.
  induction fields as [|m fields IH]; intros l s Hok E; cbn [size_fields] in E; [injection E as <- <-; cbn; lia|].
  apply Forall_cons_iff in Hok as [Hm Hok]. destruct (size_fields ff malloc fields) as [[l0 s0]|]; [|discriminate]. cbn [fst snd] in E. specialize (IH l0 s0 Hok eq_refl).
  destruct (size_field ff malloc m s0) as [[[m' t] s']|] eqn:Ef; [|discriminate]. injection E as <- <-. pose proof (size_field_grows _ _ _ _ _ _ _ Hm Ef). lia.
Qed.
Lemma size_fields_none ff malloc fields : Forall mem_ok fields -> size_fields ff malloc fields = None ->
  exists l1 m l2, fields = l1 ++ m :: l2 /\ zero_blob m = true /\ data_total ff l2 <> tail_zeros ff l2 /\ malloc (Z.max 1 (blob_bytes m)) = false.
Proof.
  induction fields as [|m fields IH]; cbn [size_fields]; [discriminate|]. intros Hok. apply Forall_cons_iff in Hok as [Hm Hok].
  destruct (size_fields ff malloc fields) as [[l0 s0]|] eqn:Es; [|intros _; destruct (IH Hok eq_refl) as (l1 & m1 & l2 & -> & H); exists (m :: l1), m1, l2; auto]. cbn [fst snd].
  destruct (size_field ff malloc m s0) as [[[m' t] s']|] eqn:Ef; [discriminate|]. intros _. exists [], m, fields. split; [reflexivity|].
  destruct (size_fields_bytes _ _ _ _ _ Hok Es) as (H1 & H2 & _). pose proof (ok_n _ Hm). pose proof (ok_zero _ Hm).
  unfold size_field, size_bytes in Ef. unfold zero_blob, numeric, blob_bytes. destruct (has m MEM_Null) eqn:En; [discriminate|].
  destruct (has m (Z.lor MEM_Int MEM_IntReal)); [destruct (int_type _ _); destruct (_ && _); discriminate|]. destruct (has m MEM_Real); [discriminate|]. cbv zeta in Ef.
  destruct (has m MEM_Zero) eqn:Ez; [|discriminate]. destruct (Z.eqb_spec (nData s0) 0); cbn [negb] in Ef; [discriminate|]. split; [reflexivity|]. split; [lia|].
  destruct (ok_kind _ Hm Ez) as [K|[_ K]]; [congruence|]. unfold sqlite3VdbeMemExpandBlob in Ef. rewrite K, andb_false_r in Ef.
  replace (if n m + nZero m <=? 0 then 1 else n m + nZero m) with (Z.max 1 (n m + nZero m)) in Ef by (destruct (Z.leb_spec (n m + nZero m) 0); lia).
  destruct (malloc _); [discriminate|reflexivity].
Qed.

(** The most columns that a build of SQLite can allow. *)
Definition column_limit : Z := 32767.

(** The bytes [a] of a record: the size of the header, the serial types and the data
    of the fields. *)
Record Layout (a : list Z) (l : list (Mem * Z)) (Fs : list (list Z)) (vs : list value) (h : Z) : Prop := {
  lay_fields : Encoded l Fs vs;
  lay_bytes : a = header_bytes h ++ headers l ++ concat Fs;
  lay_header : h = lenz (header_bytes h) + lenz (headers l) }.

Lemma stored_layout ff malloc buf fields l s : Forall mem_ok fields -> size_fields ff malloc fields = Some (l, s) -> Z.of_nat (length fields) <= column_limit ->
  let h := header_size (nHdr s) in
  h + nData s + nZeros s < 2 ^ 31 - 16 -> lenz buf = h + nData s ->
  let hd := if h <? 0x80 then [h] else varint h in
  let '(rec, zHdr, zPayload) := write_fields l (lenz hd) h (poke 0 hd buf) in
  zHdr = h /\ zPayload = h + nData s /\ lenz rec = h + nData s /\
  exists Fs, Layout (rec ++ repeat 0 (Z.to_nat (nZeros s))) l Fs (map value_of fields) h /\ lenz (rec ++ repeat 0 (Z.to_nat (nZeros s))) = h + nData s + nZeros s.
Proof.
  intros Hok E Hc h Hsz Hbuf hd. destruct (size_fields_bytes _ _ _ _ _ Hok E) as (_ & _ & Hh0 & _). unfold column_limit in Hc. destruct (header_size_ok (nHdr s) ltac:(lia)) as [Hh1 Hh2]. fold h in Hh1, Hh2.
  destruct (size_fields_ok ff malloc fields l s Hok E) as (Fs & HE & EH & ED & Hz & EP); [unfold Fits; lia|]. pose proof (Nat2Z.is_nonneg (length (payload l))) as Hpl. fold (lenz (payload l)) in Hpl.
  destruct (byte_or_varint h ltac:(lia)) as (V1 & V2 & V3). fold hd in V1, V2, V3. fold (lenz hd) in V1.
  destruct (split_len (length hd) buf) as (B1 & B2 & -> & L1); [unfold lenz in *; lia|]. rewrite lenz_app in Hbuf. assert (LB : lenz B1 = lenz hd) by (unfold lenz; now rewrite L1).
  destruct (split_len (Z.to_nat (nHdr s)) B2) as (B3 & B4 & -> & L3); [unfold lenz in *; lia|]. rewrite lenz_app in Hbuf. assert (LB3 : lenz B3 = nHdr s) by (unfold lenz; lia).
  pose proof (poke_app [] B1 (B3 ++ B4) hd 0 eq_refl L1) as Ep. cbn [app] in Ep. rewrite Ep.
  rewrite (write_fields_ok l hd B3 [] B4) by (try reflexivity; try lia; cbn; lia). cbn [app]. rewrite <- EH, <- ED. split; [lia|]. split; [lia|]. split; [rewrite !lenz_app; lia|].
  exists Fs. split; [constructor; [exact HE| |change (header_bytes h) with hd; lia]|].
  - rewrite <- EP, <- !app_assoc. reflexivity.
  - rewrite !lenz_app. unfold lenz at 4. rewrite repeat_length. lia.
Qed.

(** A record in this layout is read back. *)
Lemma layout_bytes a l Fs vs h : Layout a l Fs vs h -> 0 <= h < 2 ^ 32 -> bytes a /\ lenz a = h + lenz (concat Fs) /\ getVarint32 a = (h, lenz (header_bytes h)) /\
  at_ (lenz (header_bytes h)) a = headers l ++ concat Fs /\ at_ h a = concat Fs.
Proof.
  intros [HE -> Hh] Hb. destruct (encoded_bytes _ _ _ HE) as [Hb1 Hb2]. destruct (byte_or_varint h Hb) as (V1 & V2 & V3). fold (header_bytes h) in V1, V2, V3. fold (lenz (header_bytes h)) in V1.
  split; [apply bytes_app; split; [exact V2|]; apply bytes_app; auto|]. split; [rewrite !lenz_app; lia|]. split; [rewrite V1; apply V3, bytes_app; auto|]. split; [apply skipn_lenz|].
  rewrite app_assoc. replace h with (lenz (header_bytes h ++ headers l)) at 1 by (rewrite lenz_app; lia). apply skipn_lenz.
Qed.
Lemma layout_read a l Fs vs h aMem : Layout a l Fs vs h -> lenz a < 2 ^ 32 -> map value_of (sqlite3VdbeRecordUnpack (lenz a) a aMem) = firstn (length aMem) vs.
Proof.
  intros HL Ha. pose proof (lay_header _ _ _ _ _ HL) as Hh. assert (Hl0 : 0 <= lenz (header_bytes h) /\ 0 <= lenz (headers l) /\ 0 <= lenz (concat Fs)) by (unfold lenz; lia).
  assert (Hb : 0 <= h < 2 ^ 32) by (pose proof (lay_bytes _ _ _ _ _ HL) as E; rewrite E, !lenz_app in Ha; lia). destruct (layout_bytes _ _ _ _ _ HL Hb) as (H1 & H2 & H3 & H4 & H5).
  unfold sqlite3VdbeRecordUnpack. rewrite H3.
  pose proof (unpack_ok (lenz a) h a H1 eq_refl Ha l Fs _ (lay_fields _ _ _ _ _ HL) (lenz (header_bytes h)) h aMem (concat Fs) ltac:(lia) ltac:(lia) H4 Hh ltac:(lia) H5 H2) as K.
  destruct (unpack_loop _ _ _ _ _ aMem) as [ms d']. destruct K as [K1 K2]. now rewrite (proj2 (Z.ltb_ge _ _) K2).
Qed.

(** What the opcode makes, and when it makes nothing. *)
Lemma make_record_ok ff limit szMalloc malloc space fields :
  Forall mem_ok fields -> Z.of_nat (length fields) <= column_limit -> limit < 2 ^ 31 - 16 -> szMalloc < 2 ^ 31 - 16 -> (forall k, 0 <= k -> lenz (space k) = k) ->
  match OP_MakeRecord ff limit szMalloc malloc space fields with
  | Stored rec zeros => let a := rec ++ repeat 0 (Z.to_nat zeros) in
    exists l s Fs h, size_fields ff malloc fields = Some (l, s) /\ Layout a l Fs (map value_of fields) h /\ lenz a <= Z.max limit szMalloc /\ lenz a = record_size ff fields
  | TooBig => Z.max limit szMalloc < record_size ff fields
  | NoMem => exists k, requested ff szMalloc fields k /\ malloc k = false
  end.
Proof.
  intros Hok Hc Hlim Hszm Hsp. unfold OP_MakeRecord. destruct (size_fields ff malloc fields) as [[l s]|] eqn:E.
  2:{ destruct (size_fields_none ff malloc fields Hok E) as (l1 & m & l2 & El & Hz & Hd & Hm). eauto using ask_expand. }
  destruct (size_fields_bytes _ _ _ _ _ Hok E) as (Hb & Hz & Hh0 & Hh). pose proof Hc as Hc'. unfold column_limit in Hc'. destruct (header_size_ok (nHdr s) ltac:(lia)) as [Hh1 _].
  assert (Hsize : data_total ff fields < 2 ^ 31 - 16 -> header_size (nHdr s) + nData s + nZeros s = record_size ff fields).
  { intros Hd. unfold record_size. rewrite <- (Hh Hd), <- header_size_total by lia. lia. }
  assert (Hpos : data_total ff fields <= record_size ff fields) by (unfold record_size; pose proof (header_total_pos _ (types_total_pos fields)); lia).
  set (h := header_size (nHdr s)) in *. cbv zeta. destruct ((szMalloc <? h + nData s + nZeros s) && (limit <? h + nData s + nZeros s)) eqn:Eb.
  - apply andb_true_iff in Eb as [Eb1 Eb2]. apply Z.ltb_lt in Eb1, Eb2. destruct (Z.lt_ge_cases (data_total ff fields) (2 ^ 31 - 16)) as [Hd|Hd]; [specialize (Hsize Hd)|]; lia.
  - assert (Hd : 0 <= nData s) by exact (size_fields_pos _ _ _ _ _ Hok E).
    assert (Hsz : h + nData s + nZeros s <= Z.max limit szMalloc) by (apply andb_false_iff in Eb as [Eb|Eb]; apply Z.ltb_ge in Eb; lia).
    specialize (Hsize ltac:(lia)). destruct ((szMalloc <? h + nData s + nZeros s) && (szMalloc <? h + nData s) && negb (malloc (h + nData s))) eqn:En.
    + apply andb_true_iff in En as [En1 En]. apply andb_true_iff in En1 as [_ En1]. apply Z.ltb_lt in En1. apply negb_true_iff in En.
      replace (h + nData s) with (record_size ff fields - tail_zeros ff fields) in * by lia. eauto using ask_record.
    + pose proof (stored_layout ff malloc (space (h + nData s)) fields l s Hok E Hc) as K. cbv zeta in K. fold h in K. specialize (K ltac:(lia) (Hsp (h + nData s) ltac:(lia))). unfold lenz at 1 in K.
      destruct (write_fields _ _ _ _) as [[rec zHdr] zPayload]. destruct K as (_ & _ & _ & Fs & KL & Ka). exists l, s, Fs, h. split; [reflexivity|]. split; [exact KL|lia].
Qed.

(** C16: a record is read back as it was written.  Whatever the registers hold (all
    kinds of values, integers and reals of all sizes, texts, blobs with a tail of
    zeros), the opcode makes a record whose fields are read back with their values,
    as many as there are cells for, and which has exactly the bytes that the format
    needs for its header and its data ([record_size]).  It reports that a record is
    too big only when this size exceeds the limit (and the space at hand), and that
    there is no memory only when one of the allocations that the record asks for
    fails ([requested]): the zeros of a blob that other bytes follow, or the space
    for the record without the zeros at its end. *)
Theorem record_roundtrip ff limit szMalloc malloc space fields aMem :
  Forall mem_ok fields -> Z.of_nat (length fields) <= column_limit -> limit < 2 ^ 31 - 16 -> szMalloc < 2 ^ 31 - 16 -> (forall k, 0 <= k -> lenz (space k) = k) ->
  match OP_MakeRecord ff limit szMalloc malloc space fields with
  | Stored rec zeros =>
    let a := rec ++ repeat 0 (Z.to_nat zeros) in
    map value_of (sqlite3VdbeRecordUnpack (lenz a) a aMem) = firstn (length aMem) (map value_of fields) /\
    lenz a = record_size ff fields /\ record_size ff fields <= Z.max limit szMalloc
  | TooBig => Z.max limit szMalloc < record_size ff fields
  | NoMem => exists k, requested ff szMalloc fields k /\ malloc k = false
  end.
Proof.
  intros Hok Hc Hlim Hszm Hsp. pose proof (make_record_ok ff limit szMalloc malloc space fields Hok Hc Hlim Hszm Hsp) as H.
  destruct (OP_MakeRecord _ _ _ _ _ _); [|exact H|exact H]. destruct H as (l & s & Fs & h & _ & HL & Ha & Hs).
  split; [apply (layout_read _ l Fs _ h); [exact HL|lia]|split; lia].
Qed.

Definition int_mem (i : Z) : Mem := {| u_i := i; u_r := 0; nZero := 0; z := []; n := 0; flags := MEM_Int |}.
Definition text_mem (b : list Z) : Mem := {| u_i := 0; u_r := 0; nZero := 0; z := b; n := lenz b; flags := MEM_Str |}.
Definition zero_mem (k : Z) : Mem := {| u_i := 0; u_r := 0; nZero := k; z := []; n := 0; flags := Z.lor MEM_Blob MEM_Zero |}.
Definition real_mem (i : Z) : Mem := {| u_i := i; u_r := 0; nZero := 0; z := []; n := 0; flags := MEM_IntReal |}.
Definition demo_fields : list Mem := [int_mem 0; int_mem (-300); text_mem (repeat 65 70); real_mem (2 ^ 60 + 1); zero_mem 3; int_mem 1; zero_mem 200].
Definition demo_space (k : Z) : list Z := repeat 77 (Z.to_nat k).
Definition demo_record : list Z :=
  match OP_MakeRecord 4 1000000000 0 (fun _ => true) demo_space demo_fields with Stored rec zeros => rec ++ repeat 0 (Z.to_nat zeros) | _ => [] end.

Lemma demo_fields_ok : Forall mem_ok demo_fields.
Proof.
  repeat apply Forall_cons; try apply Forall_nil; (constructor; cbn [u_i u_r nZero z n int_mem text_mem zero_mem real_mem];
    [unfold is_i64; lia|unfold is_u64; lia|lia|unfold lenz; cbn; lia|try apply Forall_nil|vm_compute; intros H; first [discriminate H|right; split; reflexivity]]).
  apply Forall_forall. intros x Hx. apply repeat_spec in Hx as ->. unfold is_u8. lia.
Qed.

Lemma record_roundtrip_witness :
  (map value_of (sqlite3VdbeRecordUnpack (lenz demo_record) demo_record (repeat (int_mem 5) 8)) = map value_of demo_fields /\
   lenz demo_record = record_size 4 demo_fields) /\
  record_size 4 demo_fields = 293 /\ 292 < record_size 4 demo_fields.
Proof.
  assert (Hsp : forall k, 0 <= k -> lenz (demo_space k) = k) by (intros k Hk; unfold lenz, demo_space; rewrite repeat_length; lia).
  split; [|split; [vm_compute; reflexivity|]].
  - pose proof (record_roundtrip 4 1000000000 0 (fun _ => true) demo_space demo_fields (repeat (int_mem 5) 8) demo_fields_ok) as H.
    specialize (H ltac:(vm_compute; discriminate) ltac:(lia) ltac:(lia) Hsp). unfold demo_record.
    assert (E : match OP_MakeRecord 4 1000000000 0 (fun _ => true) demo_space demo_fields with Stored _ _ => true | _ => false end = true) by (vm_compute; reflexivity).
    destruct (OP_MakeRecord _ _ _ _ _ demo_fields) as [rec zeros| |]; [|discriminate E..]. destruct H as (H1 & H2 & _). split; [exact H1|exact H2].
  - pose proof (record_roundtrip 4 292 0 (fun _ => true) demo_space demo_fields [] demo_fields_ok) as H.
    specialize (H ltac:(vm_compute; discriminate) ltac:(lia) ltac:(lia) Hsp).
    assert (E : match OP_MakeRecord 4 292 0 (fun _ => true) demo_space demo_fields with TooBig => true | _ => false end = true) by (vm_compute; reflexivity).
    destruct (OP_MakeRecord _ _ _ _ _ demo_fields); [discriminate E|exact H|discriminate E].
Defined.
