(* ===== verification/MemCompare.v ===== *)
(** * SQLite: comparing values

    How two registers are compared ([sqlite3MemCompare], with
    [sqlite3IntFloatCompare], [sqlite3BlobCompare] and the comparison of texts by a
    collating sequence) in [src/api-core/src/db/sqlite3.c], and the order of values
    that these routines implement: NULL first, then numbers by their exact value,
    then texts by the collating sequence, then blobs byte by byte.

    Registers are those of [Record].  Texts of both sides have the encoding of the
    database, [enc].  A collating sequence has the encoding in which it wants texts;
    [malloc] says for which texts there is memory for a translation. *)

From Stdlib Require Import ZArith List Lia Bool.
From S2P Require Import Prelude Floats Utf Varint Record.
From Stdlib Require Import SpecFloat.
Import ListNotations.
#[local] Open Scope Z_scope.

(** ** Bytes *)

(** [memcmp]: the difference of the first bytes that differ. *)
Fixpoint memcmp (a b : list Z) (k : nat) : Z :=
  match k with
  | O => 0
  | S k => let c := hd 0 a - hd 0 b in if c =? 0 then memcmp (tl a) (tl b) k else c
  end.

Definition isAllZero (z : list Z) (n : Z) : bool := forallb (fun b => b =? 0) (firstn (Z.to_nat n) z).

Definition sqlite3BlobCompare (pB1 pB2 : Mem) : Z :=
  let n1 := n pB1 in
  let n2 := n pB2 in
  if negb (Z.land (Z.lor (flags pB1) (flags pB2)) MEM_Zero =? 0) then
    if negb (Z.land (Z.land (flags pB1) (flags pB2)) MEM_Zero =? 0) then nZero pB1 - nZero pB2
    else if has pB1 MEM_Zero then (if negb (isAllZero (z pB2) n2) then -1 else nZero pB1 - n2)
    else if negb (isAllZero (z pB1) n1) then 1 else n1 - nZero pB2
  else
    let c := memcmp (z pB1) (z pB2) (Z.to_nat (if n2 <? n1 then n2 else n1)) in
    if negb (c =? 0) then c else n1 - n2.

(** ** Numbers *)

Definition double_lt (a b : Z) : bool := SFltb (double_of_bits a) (double_of_bits b).

Definition sqlite3IntFloatCompare (i r : Z) : Z :=
  if IsNaN r then 1
  else
    let d := double_of_bits r in
    if SFltb d (double_of_int (-9223372036854775808)) then 1
    else if SFleb (double_of_int 9223372036854775808) d then -1
    else
      let y := match truncate d with Some y => y | None => 0 end in
      if i <? y then -1
      else if y <? i then 1
      else if SFltb (double_of_int i) d then -1
      else if SFltb d (double_of_int i) then 1 else 0.

(** ** Texts *)

Record CollSeq := { coll_enc : Z; xCmp : list Z -> list Z -> Z }.

(** [sqlite3ValueText] of a text [s]; [None] when there is no memory. *)
Definition sqlite3ValueText (malloc : list Z -> bool) (enc : Z) (s : list Z) (desiredEnc : Z) : option (list Z) :=
  if enc =? desiredEnc then Some s
  else
    let m := snd (sqlite3VdbeMemTranslate (malloc s) (mkMem s Record.MEM_Str enc) desiredEnc) in
    if mem_enc m =? desiredEnc then Some (mem_z m) else None.

(** The result, and whether there was no memory. *)
Definition vdbeCompareMemStringWithEncodingChange (malloc : list Z -> bool) (enc : Z) (s1 s2 : list Z) (pColl : CollSeq) : Z * bool :=
  match sqlite3ValueText malloc enc s1 (coll_enc pColl), sqlite3ValueText malloc enc s2 (coll_enc pColl) with
  | Some v1, Some v2 => (xCmp pColl v1 v2, false)
  | _, _ => (0, true)
  end.

Definition vdbeCompareMemString (malloc : list Z -> bool) (enc : Z) (s1 s2 : list Z) (pColl : CollSeq) : Z * bool :=
  if enc =? coll_enc pColl then (xCmp pColl s1 s2, false) else vdbeCompareMemStringWithEncodingChange malloc enc s1 s2 pColl.

(** ** Registers *)

Definition int_compare (i j : Z) : Z := if i <? j then -1 else if j <? i then 1 else 0.

Definition sqlite3MemCompare (malloc : list Z -> bool) (enc : Z) (pMem1 pMem2 : Mem) (pColl : option CollSeq) : Z :=
  let f1 := flags pMem1 in
  let f2 := flags pMem2 in
  let combined_flags := Z.lor f1 f2 in
  let test f mask := negb (Z.land f mask =? 0) in
  let Ints := Z.lor MEM_Int MEM_IntReal in
  if test combined_flags MEM_Null then Z.land f2 MEM_Null - Z.land f1 MEM_Null
  else if test combined_flags (Z.lor (Z.lor MEM_Int MEM_Real) MEM_IntReal) then
    if test (Z.land f1 f2) Ints then int_compare (u_i pMem1) (u_i pMem2)
    else if test (Z.land f1 f2) MEM_Real then
      (if double_lt (u_r pMem1) (u_r pMem2) then -1 else if double_lt (u_r pMem2) (u_r pMem1) then 1 else 0)
    else if test f1 Ints then
      if test f2 MEM_Real then sqlite3IntFloatCompare (u_i pMem1) (u_r pMem2)
      else if test f2 Ints then int_compare (u_i pMem1) (u_i pMem2)
      else -1
    else if test f1 MEM_Real then
      if test f2 Ints then - sqlite3IntFloatCompare (u_i pMem2) (u_r pMem1) else -1
    else 1
  else if test combined_flags Record.MEM_Str && negb (test f1 Record.MEM_Str) then 1
  else if test combined_flags Record.MEM_Str && negb (test f2 Record.MEM_Str) then -1
  else
    match pColl with
    | Some c => if test combined_flags Record.MEM_Str then fst (vdbeCompareMemString malloc enc (content pMem1) (content pMem2) c) else sqlite3BlobCompare pMem1 pMem2
    | None => sqlite3BlobCompare pMem1 pMem2
    end.

(** ** Specification: the order of values *)

(** Numbers with infinities; [Fin q] is [q * 2 ^ -1074]. *)
Inductive ext := NegInf | Fin (q : Z) | PosInf.
Definition ext_compare (a b : ext) : comparison :=
  match a, b with
  | NegInf, NegInf | PosInf, PosInf => Eq
  | NegInf, _ | _, PosInf => Lt
  | _, NegInf | PosInf, _ => Gt
  | Fin p, Fin q => p ?= q
  end.

Definition exact (x : spec_float) : ext :=
  match x with
  | S754_infinity s => if s then NegInf else PosInf
  | S754_finite s m e => Fin (cond_Zopp s (Zpos m * 2 ^ (e + 1074)))
  | _ => Fin 0
  end.
Definition exact_int (i : Z) : ext := Fin (i * 2 ^ 1074).

(** The text as the collating sequence wants it. *)
Definition translated (enc desiredEnc : Z) (s : list Z) : list Z :=
  if enc =? desiredEnc then s else mem_z (snd (sqlite3VdbeMemTranslate true (mkMem s Record.MEM_Str enc) desiredEnc)).
Definition text_compare (enc : Z) (pColl : option CollSeq) (s1 s2 : list Z) : comparison :=
  match pColl with
  | None => lex s1 s2
  | Some c => xCmp c (translated enc (coll_enc c) s1) (translated enc (coll_enc c) s2) ?= 0
  end.

Definition number (v : value) : option ext :=
  match v with VInt i => Some (exact_int i) | VReal r => Some (exact (double_of_bits r)) | _ => None end.
Definition rank (v : value) : Z :=
  match v with VNull | VNoChange => 0 | VInt _ | VReal _ => 1 | VText _ => 2 | VBlob _ => 3 end.
Definition vcompare (enc : Z) (pColl : option CollSeq) (v w : value) : comparison :=
  match rank v ?= rank w with
  | Eq =>
    match v, w with
    | VText s, VText t => text_compare enc pColl s t
    | VBlob s, VBlob t => lex s t
    | _, _ => match number v, number w with Some x, Some y => ext_compare x y | _, _ => Eq end
    end
  | c => c
  end.

(** Registers that the routines are given: one type, no NaN, no blob that has both
    content and a tail of zeros, and [MEM_IntReal] only for integers that a double
    has exactly. *)
Record cell_ok (m : Mem) : Prop := {
  ck_mem : mem_ok m;
  ck_size : n m < 2 ^ 31 /\ nZero m < 2 ^ 31;
  ck_null : has m MEM_Null = true -> has m (Z.lor MEM_Int MEM_IntReal) = false /\ has m MEM_Real = false /\ has m Record.MEM_Str = false /\ has m MEM_Blob = false;
  ck_real : has m MEM_Real = true -> has m (Z.lor MEM_Int MEM_IntReal) = false /\ IsNaN (u_r m) = false;
  ck_intreal : has m MEM_IntReal = true -> (fst (int_type 4 (u_i m)) =? 6) = false;
  ck_zero : has m MEM_Zero = true -> n m = 0;
  ck_type : has m MEM_Null = false -> has m (Z.lor MEM_Int MEM_IntReal) = false -> has m MEM_Real = false -> has m Record.MEM_Str = false -> has m MEM_Blob = true }.

(** ** Doubles *)

Lemma bits_fields x : is_u64 x -> exists (s : bool) e m, 0 <= e < 2048 /\ 0 <= m < 2 ^ 52 /\ x = (if s then 2 ^ 63 else 0) + e * 2 ^ 52 + m.
Proof.
  intros Hx. unfold is_u64 in Hx. exists (2 ^ 63 <=? x), (x / 2 ^ 52 mod 2 ^ 11), (x mod 2 ^ 52). split; [apply Z.mod_pos_bound; lia|]. split; [apply Z.mod_pos_bound; lia|].
  change (2 ^ 63) with 9223372036854775808 in *. change (2 ^ 52) with 4503599627370496. change (2 ^ 11) with 2048. change (2 ^ 64) with 18446744073709551616 in Hx.
  destruct (Z.leb_spec 9223372036854775808 x); Z.div_mod_to_equations; lia.
Qed.
Lemma bits_valid x : is_u64 x -> IsNaN x = false -> valid_binary 53 1024 (double_of_bits x) = true /\ double_of_bits x <> S754_nan.
Proof.
  intros Hx Hn. destruct (bits_fields x Hx) as (s & e & m & He & Hm & ->). rewrite pattern_nan in Hn by assumption. unfold double_of_bits.
  rewrite pattern_sign, pattern_exp, (proj2 (pattern_parts s e m Hm)) by assumption. destruct (Z.eqb_spec e 2047) as [|H7].
  { cbn [andb] in Hn. apply negb_false_iff in Hn. rewrite Hn. split; [reflexivity|discriminate]. }
  assert (HP : forall k d, 0 <= k < 2 ^ 53 -> -1074 <= d <= 971 -> (d = -1074 \/ 2 ^ 52 <= k) ->
    let f := match k with Zpos p => S754_finite s p d | _ => S754_zero s end in valid_binary 53 1024 f = true /\ f <> S754_nan).
  { intros k d Hk Hd Hn'. cbv zeta. split; [|destruct k; discriminate].
    pose proof (pack_valid 53 1024 ltac:(lia) s k d Hk ltac:(lia) ltac:(lia)) as H. unfold pack in H. rewrite (proj2 (Z.leb_le d (1024 - 53))) in H by lia. exact H. }
  destruct (Z.eqb_spec e 0) as [->|H0]; [apply (HP m (-1074)); lia|apply (HP (m + 2 ^ 52) (e - 1075)); lia].
Qed.

(** Two finite numbers of the same sign. *)
Lemma finite_valid s m e : valid_binary 53 1024 (S754_finite s m e) = true -> -1074 <= e /\ Zpos m < 2 ^ 53 /\ (-1074 < e -> 2 ^ 52 <= Zpos m).
Proof.
  intros Hv. pose proof (valid_finite 53 1024 s m e Hv) as He. split; [lia|]. pose proof (Z.log2_spec (Zpos m) ltac:(lia)) as [Hl1 Hl2]. split.
  - apply Z.lt_le_trans with (2 ^ Z.succ (Z.log2 (Zpos m))); [exact Hl2|]. apply Z.pow_le_mono_r; lia.
  - intros H. apply Z.le_trans with (2 ^ Z.log2 (Zpos m)); [|exact Hl1]. apply Z.pow_le_mono_r; lia.
Qed.
Lemma magnitude_lt m1 e1 m2 e2 : 0 <= e1 + 1074 -> e1 < e2 -> m1 < 2 ^ 53 -> 2 ^ 52 <= m2 -> m1 * 2 ^ (e1 + 1074) < m2 * 2 ^ (e2 + 1074).
Proof.
  intros H1 He Hm1 Hm2. set (k := e1 + 1074) in *. replace (e2 + 1074) with (1 + (e2 - e1 - 1) + k) by lia. rewrite (Z.pow_add_r 2 _ k), (Z.pow_add_r 2 1) by lia.
  pose proof (Z.pow_pos_nonneg 2 k ltac:(lia) H1) as HA. pose proof (Z.pow_pos_nonneg 2 (e2 - e1 - 1) ltac:(lia) ltac:(lia)) as HB. set (A := 2 ^ k) in *. set (B := 2 ^ (e2 - e1 - 1)) in *.
  change (2 ^ 1) with 2. assert (m1 < m2 * (2 * B)) by nia. nia.
Qed.
Lemma magnitude_compare s1 s2 m1 e1 m2 e2 : valid_binary 53 1024 (S754_finite s1 m1 e1) = true -> valid_binary 53 1024 (S754_finite s2 m2 e2) = true ->
  match e1 ?= e2 with Lt => Lt | Gt => Gt | Eq => Pos.compare_cont Eq m1 m2 end = (Zpos m1 * 2 ^ (e1 + 1074) ?= Zpos m2 * 2 ^ (e2 + 1074)).
Proof.
  intros H1 H2. apply finite_valid in H1 as (A1 & A2 & A3), H2 as (B1 & B2 & B3). symmetry. destruct (Z.compare_spec e1 e2) as [->|He|He].
  - pose proof (Z.pow_pos_nonneg 2 (e2 + 1074) ltac:(lia) ltac:(lia)). rewrite <- Zmult_compare_compat_r by lia. reflexivity.
  - apply Z.compare_lt_iff, magnitude_lt; lia.
  - apply Z.compare_gt_iff, magnitude_lt; lia.
Qed.

(** The comparison of doubles is that of their exact values. *)
Lemma compare_exact x y : valid_binary 53 1024 x = true -> valid_binary 53 1024 y = true -> x <> S754_nan -> y <> S754_nan ->
  SFcompare x y = Some (ext_compare (exact x) (exact y)).
Proof.
  assert (Hp : forall m e, -1074 <= e -> 0 < Zpos m * 2 ^ (e + 1074)) by (intros m e He; pose proof (Z.pow_pos_nonneg 2 (e + 1074) ltac:(lia) ltac:(lia)); lia).
  intros Hx Hy Nx Ny. destruct x as [s|s| |s m e], y as [s'|s'| |s' m' e']; try contradiction; try (destruct s, s'; reflexivity); try (destruct s; reflexivity); try (destruct s'; reflexivity); cbn [SFcompare exact ext_compare].
  - apply finite_valid in Hy as [Hy _]. pose proof (Hp m' e' Hy). f_equal. destruct s'; cbn [cond_Zopp]; symmetry; [apply Z.compare_gt_iff|apply Z.compare_lt_iff]; lia.
  - apply finite_valid in Hx as [Hx _]. pose proof (Hp m e Hx). f_equal. destruct s; cbn [cond_Zopp]; symmetry; [apply Z.compare_lt_iff|apply Z.compare_gt_iff]; lia.
  - f_equal. pose proof (magnitude_compare _ _ _ _ _ _ Hx Hy) as HM. apply finite_valid in Hx as [Hx _], Hy as [Hy _]. pose proof (Hp m e Hx). pose proof (Hp m' e' Hy). destruct s, s'; cbn [cond_Zopp].
    + rewrite Z.compare_opp, (Z.compare_antisym (Zpos m * _)), <- HM. destruct (e ?= e'); reflexivity.
    + symmetry. apply Z.compare_lt_iff. lia.
    + symmetry. apply Z.compare_gt_iff. lia.
    + exact HM.
Qed.

Lemma exact_pack sx m e : 0 <= m -> e <= 971 -> exact (pack 53 1024 sx m e) = Fin (cond_Zopp sx (m * 2 ^ (e + 1074))).
Proof. intros Hm He. unfold pack. destruct m as [|p|p]; [now destruct sx| |lia]. rewrite (proj2 (Z.leb_le e (1024 - 53))) by lia. reflexivity. Qed.

(** An integer whose significant bits fit in a double is converted exactly. *)
Lemma normal_exact sx q j : 0 < q < 2 ^ 53 -> 0 <= j -> q * 2 ^ j <= 2 ^ 63 -> exact (normal 53 1024 sx (q * 2 ^ j) 0) = Fin (cond_Zopp sx (q * 2 ^ j * 2 ^ 1074)).
Proof.
  intros Hq Hj Hm. pose proof (Z.pow_pos_nonneg 2 j ltac:(lia) Hj) as Hp. set (m := q * 2 ^ j) in *. assert (Hm0 : 0 < m) by nia.
  pose proof (Z.log2_spec m Hm0) as [L1 L2]. assert (L3 : Z.log2 m <= 63) by (rewrite <- (Z.log2_pow2 63) by lia; apply Z.log2_le_mono; lia). pose proof (Z.log2_nonneg m) as L0.
  assert (Ee : exp_of 53 1024 m 0 = Z.log2 m - 52) by (unfold exp_of; lia). set (e := Z.log2 m - 52) in *.
  assert (HK : mantissa 53 1024 m 0 * 2 ^ (e + 1074) = m * 2 ^ 1074 /\ 0 <= mantissa 53 1024 m 0).
  { unfold mantissa. rewrite Ee. destruct (Z.leb_spec 0 e).
    - assert (He : e <= j).
      { destruct (Z.le_gt_cases e j) as [|Hgt]; [assumption|exfalso]. assert (q * 2 ^ j < 2 ^ (53 + j)) by (rewrite Z.pow_add_r by lia; nia).
        assert (2 ^ (53 + j) <= 2 ^ Z.log2 m) by (apply Z.pow_le_mono_r; unfold e in *; lia). unfold m in *. lia. }
      replace (rne m (e - 0)) with (q * 2 ^ (j - e)).
      + split; [|pose proof (Z.pow_pos_nonneg 2 (j - e)); nia]. unfold m. rewrite <- !Z.mul_assoc, <- !Z.pow_add_r by lia. do 2 f_equal. lia.
      + unfold m. replace (2 ^ j) with (2 ^ (j - e) * 2 ^ e) by (rewrite <- Z.pow_add_r by lia; f_equal; lia). rewrite Z.mul_assoc. replace (e - 0) with (0 + e) by lia. rewrite rne_scale by lia. symmetry. apply rne_0.
    - rewrite <- Z.mul_assoc, <- Z.pow_add_r by lia. split; [do 2 f_equal; lia|]. pose proof (Z.pow_pos_nonneg 2 (0 - e)). nia. }
  destruct HK as [HK HK0]. unfold normal. rewrite Ee. destruct (Z.eqb_spec (mantissa 53 1024 m 0) (2 ^ 53)) as [Em|Em].
  - exfalso. rewrite Em in HK. assert (m * 2 ^ 1074 < 2 ^ Z.succ (Z.log2 m) * 2 ^ 1074) by (apply Z.mul_lt_mono_pos_r; [apply Z.pow_pos_nonneg; lia|exact L2]).
    rewrite <- HK, <- !Z.pow_add_r in H by lia. replace (53 + (e + 1074)) with (Z.succ (Z.log2 m) + 1074) in H by (unfold e; lia). lia.
  - rewrite exact_pack by lia. now rewrite HK.
Qed.
Lemma int_exact i q j : Z.abs i = q * 2 ^ j -> 0 <= q < 2 ^ 53 -> 0 <= j -> Z.abs i <= 2 ^ 63 -> exact (double_of_int i) = exact_int i.
Proof.
  intros Ei Hq Hj Hi. destruct (Z.eq_dec q 0) as [->|Hq0]; [assert (i = 0) by lia; subst i; reflexivity|].
  assert (HN : forall sx, exact (normal 53 1024 sx (Z.abs i) 0) = Fin (cond_Zopp sx (Z.abs i * 2 ^ 1074))) by (intros sx; rewrite Ei in *; apply normal_exact; lia).
  unfold double_of_int, exact_int. destruct i as [|p|p]; [reflexivity| |]; cbn [binary_normalize]; rewrite round_spec by lia; [exact (HN false)|]. specialize (HN true). cbn [cond_Zopp Z.abs] in HN. rewrite HN. reflexivity.
Qed.

(** The conversion of a double to an integer drops the fraction. *)
Lemma truncate_exact d q : valid_binary 53 1024 d = true -> d <> S754_nan -> exact d = Fin q ->
  truncate d = Some (Z.quot q (2 ^ 1074)) /\ (Z.abs (Z.quot q (2 ^ 1074)) <= 2 ^ 63 -> exact (double_of_int (Z.quot q (2 ^ 1074))) = exact_int (Z.quot q (2 ^ 1074))).
Proof.
  intros Hv Hn E. assert (HS : 0 < 2 ^ 1074) by (apply Z.pow_pos_nonneg; lia). destruct d as [s|s| |s m e]; [|destruct s; discriminate E|contradiction|].
  - injection E as <-. rewrite Z.quot_0_l by lia. split; reflexivity.
  - assert (Eq : q = cond_Zopp s (Zpos m * 2 ^ (e + 1074))) by (injection E; auto). subst q. apply finite_valid in Hv as (He & Hm & _). set (k := if 0 <=? e then Zpos m * 2 ^ e else Zpos m / 2 ^ (- e)).
    assert (Hk : 0 <= k /\ Z.quot (Zpos m * 2 ^ (e + 1074)) (2 ^ 1074) = k /\ exists q j, k = q * 2 ^ j /\ 0 <= q < 2 ^ 53 /\ 0 <= j).
    { unfold k. destruct (Z.leb_spec 0 e).
      - pose proof (Z.pow_pos_nonneg 2 e ltac:(lia) ltac:(lia)). split; [lia|]. split; [|exists (Zpos m), e; lia]. rewrite Z.pow_add_r, Z.mul_assoc, Z.quot_mul by lia. reflexivity.
      - pose proof (Z.pow_pos_nonneg 2 (- e) ltac:(lia) ltac:(lia)) as H2. pose proof (Z.pow_pos_nonneg 2 (e + 1074) ltac:(lia) ltac:(lia)) as H3.
        assert (0 <= Zpos m / 2 ^ (- e) <= Zpos m) by (split; [apply Z.div_pos; lia|apply Z.div_le_upper_bound; nia]). split; [lia|]. split; [|exists (Zpos m / 2 ^ (- e)), 0; lia].
        replace (2 ^ 1074) with (2 ^ (- e) * 2 ^ (e + 1074)) by (rewrite <- Z.pow_add_r by lia; f_equal; lia). rewrite Z.quot_div_nonneg by nia. apply Z.div_mul_cancel_r; lia. }
    destruct Hk as (Hk0 & Hk1 & q & j & Hk2 & Hk3 & Hk4). assert (EQ : Z.quot (cond_Zopp s (Zpos m * 2 ^ (e + 1074))) (2 ^ 1074) = cond_Zopp s k) by (destruct s; cbn [cond_Zopp]; rewrite ?Z.quot_opp_l by lia; now rewrite Hk1).
    rewrite EQ. split; [reflexivity|]. intros Hb. apply (int_exact _ q j); try lia. destruct s; cbn [cond_Zopp]; lia.
Qed.

Lemma sgn_opp a : (- a ?= 0) = CompOpp (a ?= 0).
Proof. destruct a; reflexivity. Qed.
Lemma ext_antisym a b : ext_compare b a = CompOpp (ext_compare a b).
Proof. destruct a, b; try reflexivity. apply Z.compare_antisym. Qed.
Lemma ltb_exact x y : valid_binary 53 1024 x = true -> valid_binary 53 1024 y = true -> x <> S754_nan -> y <> S754_nan ->
  SFltb x y = match ext_compare (exact x) (exact y) with Lt => true | _ => false end /\ SFleb x y = match ext_compare (exact x) (exact y) with Gt => false | _ => true end.
Proof. intros. unfold SFltb, SFleb. rewrite compare_exact by assumption. destruct (ext_compare _ _); split; reflexivity. Qed.

Lemma int_float_compare i r : is_i64 i -> is_u64 r -> IsNaN r = false ->
  (sqlite3IntFloatCompare i r ?= 0) = ext_compare (exact_int i) (exact (double_of_bits r)) /\ -1 <= sqlite3IntFloatCompare i r <= 1.
Proof.
  intros Hi Hr Hn. unfold is_i64 in Hi. destruct (bits_valid r Hr Hn) as [V1 V2]. unfold sqlite3IntFloatCompare. rewrite Hn. set (d := double_of_bits r) in *.
  assert (EI : forall k, exact (double_of_int k) = exact_int k -> SFltb d (double_of_int k) = (match ext_compare (exact d) (exact_int k) with Lt => true | _ => false end) /\
    SFltb (double_of_int k) d = (match ext_compare (exact_int k) (exact d) with Lt => true | _ => false end) /\ SFleb (double_of_int k) d = (match ext_compare (exact_int k) (exact d) with Gt => false | _ => true end)).
  { intros k Hk. destruct (int_not_nan k) as [W1 W2]. rewrite <- Hk. split; [|split]; apply ltb_exact; assumption. }
  destruct (EI _ (int_exact (-9223372036854775808) 1 63 eq_refl ltac:(lia) ltac:(lia) ltac:(lia))) as [-> _].
  destruct (EI _ (int_exact 9223372036854775808 1 63 eq_refl ltac:(lia) ltac:(lia) ltac:(lia))) as (_ & _ & ->).
  assert (HS : 0 < 2 ^ 1074) by (apply Z.pow_pos_nonneg; lia). destruct (exact d) as [|q|] eqn:Ed; unfold exact_int; cbn [ext_compare]; [split; [reflexivity|lia]| |split; [reflexivity|lia]].
  destruct (truncate_exact d q V1 V2 Ed) as [-> HE]. revert EI HE HS. unfold exact_int. generalize (2 ^ 1074). intros S EI HE HS.
  pose proof (Z.quot_rem q S ltac:(lia)) as Q1. pose proof (Z.rem_bound_abs q S ltac:(lia)) as Q2. pose proof (Z.rem_sign_mul q S ltac:(lia)) as Q3.
  set (y := Z.quot q S) in *. set (t := Z.rem q S) in *.
  destruct (Z.compare_spec q (-9223372036854775808 * S)) as [H1|H1|H1]; [|split; [symmetry; apply Z.compare_gt_iff; nia|lia]|];
    (destruct (Z.compare_spec (9223372036854775808 * S) q) as [H2|H2|H2]; [split; [symmetry; apply Z.compare_lt_iff; nia|lia]|split; [symmetry; apply Z.compare_lt_iff; nia|lia]|]);
    (destruct (Z.ltb_spec i y) as [H3|H3]; [split; [symmetry; apply Z.compare_lt_iff; nia|lia]|]);
    (destruct (Z.ltb_spec y i) as [H4|H4]; [split; [symmetry; apply Z.compare_gt_iff; nia|lia]|]);
    (assert (i = y) by lia; subst i; destruct (EI y (HE ltac:(nia))) as (-> & -> & _); cbn [ext_compare];
     rewrite (Z.compare_antisym (y * S) q); destruct (y * S ?= q); split; (reflexivity || (cbn; lia))).
Qed.

(** ** Blobs *)

Lemma memcmp_lex a : forall b ra rb, bytes a -> bytes b ->
  let c := memcmp (a ++ ra) (b ++ rb) (Nat.min (length a) (length b)) in
  ((if negb (c =? 0) then c else lenz a - lenz b) ?= 0) = lex a b /\ -256 < c < 256.
Proof.
  unfold lenz. induction a as [|x a IH]; intros b ra rb Ha Hb; [destruct b; cbn; split; (reflexivity || lia)|]. destruct b as [|y b]; [cbn; split; (reflexivity || lia)|].
  apply Forall_cons_iff in Ha as [Hx Ha], Hb as [Hy Hb]. unfold is_u8 in Hx, Hy. specialize (IH b ra rb Ha Hb). cbn [length Nat.min memcmp app hd tl lex].
  destruct (Z.compare_spec x y) as [->|H|H].
  - rewrite Z.sub_diag. cbn [Z.eqb]. rewrite !Nat2Z.inj_succ. replace (Z.succ _ - Z.succ _) with (Z.of_nat (length a) - Z.of_nat (length b)) by lia. exact IH.
  - rewrite (proj2 (Z.eqb_neq (x - y) 0)) by lia. cbn [negb]. rewrite (proj2 (Z.eqb_neq (x - y) 0)) by lia. split; [apply Z.compare_lt_iff|]; cbn [negb]; lia.
  - rewrite (proj2 (Z.eqb_neq (x - y) 0)) by lia. cbn [negb]. rewrite (proj2 (Z.eqb_neq (x - y) 0)) by lia. split; [apply Z.compare_gt_iff|]; cbn [negb]; lia.
Qed.

Lemma lex_zeros k : forall b, bytes b -> lex (repeat 0 k) b = if forallb (fun x => x =? 0) b then Z.of_nat k ?= lenz b else Lt.
Proof.
  unfold lenz. induction k as [|k IH]; intros [|y b] Hb; [reflexivity|cbn; now destruct (_ && _)|reflexivity|]. apply Forall_cons_iff in Hb as [Hy Hb]. unfold is_u8 in Hy.
  cbn [repeat lex forallb length]. destruct (Z.eqb_spec y 0) as [->|Hn]; cbn [andb].
  - rewrite Z.compare_refl, IH by exact Hb. destruct (forallb _ b); [|reflexivity]. rewrite !Nat2Z.inj_succ. destruct (Z.compare_spec (Z.of_nat k) (Z.of_nat (length b))); symmetry; [apply Z.compare_eq_iff|apply Z.compare_lt_iff|apply Z.compare_gt_iff]; lia.
  - rewrite (proj2 (Z.compare_lt_iff 0 y)) by lia. reflexivity.
Qed.

(** ** Flags *)

Lemma land_pow2 f k : 0 <= k -> Z.land f (2 ^ k) = if Z.testbit f k then 2 ^ k else 0.
Proof.
  intros Hk. apply Z.bits_inj'. intros j Hj. rewrite Z.land_spec, Z.pow2_bits_eqb by lia. destruct (Z.eqb_spec k j) as [<-|Hn].
  - rewrite andb_true_r. destruct (Z.testbit f k); [now rewrite Z.pow2_bits_true|now rewrite Z.testbit_0_l].
  - rewrite andb_false_r. destruct (Z.testbit f k); [now rewrite Z.pow2_bits_false|now rewrite Z.testbit_0_l].
Qed.
Lemma has_testbit m k : 0 <= k -> has m (2 ^ k) = Z.testbit (flags m) k.
Proof. intros Hk. unfold has. rewrite land_pow2 by lia. pose proof (Z.pow_pos_nonneg 2 k). destruct (Z.testbit _ k); [|reflexivity]. rewrite (proj2 (Z.eqb_neq (2 ^ k) 0)) by lia. reflexivity. Qed.
Lemma lor_zero a b : (Z.lor a b =? 0) = (a =? 0) && (b =? 0).
Proof.
  destruct (Z.eqb_spec a 0) as [->|Ha]; [reflexivity|]. cbn [andb]. apply Z.eqb_neq. intros E. apply Z.lor_eq_0_iff in E. tauto.
Qed.
Lemma has_or a b k : negb (Z.land (Z.lor (flags a) (flags b)) k =? 0) = has a k || has b k.
Proof. unfold has. rewrite Z.land_lor_distr_l, lor_zero. now rewrite negb_andb. Qed.
Lemma has_mask m j k : has m (Z.lor j k) = has m j || has m k.
Proof. unfold has. rewrite Z.land_lor_distr_r, lor_zero. now rewrite negb_andb. Qed.
Lemma has_and a b k : 0 <= k -> negb (Z.land (Z.land (flags a) (flags b)) (2 ^ k) =? 0) = has a (2 ^ k) && has b (2 ^ k).
Proof.
  intros Hk. rewrite !has_testbit, land_pow2, Z.land_spec by lia. pose proof (Z.pow_pos_nonneg 2 k). destruct (_ && _); [|reflexivity]. rewrite (proj2 (Z.eqb_neq (2 ^ k) 0)) by lia. reflexivity.
Qed.
Lemma has_and_false a b k : has a k = false \/ has b k = false -> negb (Z.land (Z.land (flags a) (flags b)) k =? 0) = false.
Proof.
  unfold has. rewrite !negb_false_iff, !Z.eqb_eq. intros [H|H]; [rewrite (Z.land_comm (flags a))|]; rewrite <- Z.land_assoc, H, Z.land_0_r; reflexivity.
Qed.
Lemma null_bit m : Z.land (flags m) MEM_Null = if has m MEM_Null then 1 else 0.
Proof. change MEM_Null with (2 ^ 0). rewrite has_testbit, land_pow2 by lia. reflexivity. Qed.

(** What a register holds, with the flags that the routines test. *)
Inductive Holds (m : Mem) : value -> Prop :=
| holds_null v : has m MEM_Null = true -> has m (Z.lor MEM_Int MEM_IntReal) = false -> has m MEM_Real = false -> has m Record.MEM_Str = false -> has m MEM_Blob = false ->
    rank v = 0 -> Holds m v
| holds_int : has m MEM_Null = false -> has m (Z.lor MEM_Int MEM_IntReal) = true -> has m MEM_Real = false -> Holds m (VInt (u_i m))
| holds_real : has m MEM_Null = false -> has m (Z.lor MEM_Int MEM_IntReal) = false -> has m MEM_Real = true -> IsNaN (u_r m) = false -> Holds m (VReal (u_r m))
| holds_text : has m MEM_Null = false -> has m (Z.lor MEM_Int MEM_IntReal) = false -> has m MEM_Real = false -> has m Record.MEM_Str = true -> has m MEM_Zero = false -> Holds m (VText (content m))
| holds_blob : has m MEM_Null = false -> has m (Z.lor MEM_Int MEM_IntReal) = false -> has m MEM_Real = false -> has m Record.MEM_Str = false -> has m MEM_Blob = true -> has m MEM_Zero = false ->
    Holds m (VBlob (content m))
| holds_zeros : has m MEM_Null = false -> has m (Z.lor MEM_Int MEM_IntReal) = false -> has m MEM_Real = false -> has m Record.MEM_Str = false -> has m MEM_Blob = true -> has m MEM_Zero = true ->
    Holds m (VBlob (repeat 0 (Z.to_nat (nZero m)))).

Lemma cell_holds m : cell_ok m -> Holds m (value_of m).
Proof.
  intros [Hm _ HN HR HI HZ HT]. pose proof (ok_kind m Hm) as HK. unfold value_of. destruct (has m MEM_Null) eqn:E1.
  { destruct (HN eq_refl) as (A & B & C & D). apply holds_null; auto. now destruct (has m MEM_Zero). }
  destruct (has m (Z.lor MEM_Int MEM_IntReal)) eqn:E2.
  { replace ((fst (int_type 4 (u_i m)) =? 6) && has m MEM_IntReal) with false by (destruct (has m MEM_IntReal) eqn:E; [now rewrite HI|symmetry; apply andb_false_r]).
    apply holds_int; auto. destruct (has m MEM_Real) eqn:E3; [destruct (HR eq_refl); congruence|reflexivity]. }
  destruct (has m MEM_Real) eqn:E3; [destruct (HR eq_refl) as [_ E4]; rewrite E4; now apply holds_real|].
  destruct (has m Record.MEM_Str) eqn:E4.
  - apply holds_text; auto. destruct (has m MEM_Zero) eqn:E5; [|reflexivity]. destruct (HK eq_refl) as [|[? _]]; congruence.
  - destruct (has m MEM_Zero) eqn:E5; [|rewrite app_nil_r; apply holds_blob; auto]. unfold content. rewrite (HZ eq_refl). apply holds_zeros; auto.
Qed.

(** ** Comparing registers *)

Definition blob_bytes (m : Mem) : list Z := if has m MEM_Zero then repeat 0 (Z.to_nat (nZero m)) else content m.

Lemma content_prefix m : z m = content m ++ skipn (Z.to_nat (n m)) (z m).
Proof. symmetry. apply firstn_skipn. Qed.
Lemma memcmp_content a b ra rb : bytes a -> bytes b ->
  let c := memcmp (a ++ ra) (b ++ rb) (Z.to_nat (if lenz b <? lenz a then lenz b else lenz a)) in
  ((if negb (c =? 0) then c else lenz a - lenz b) ?= 0) = lex a b /\ -256 < c < 256.
Proof.
  intros Ha Hb. replace (Z.to_nat (if lenz b <? lenz a then lenz b else lenz a)) with (Nat.min (length a) (length b)); [exact (memcmp_lex a b ra rb Ha Hb)|].
  unfold lenz. destruct (Z.ltb_spec (Z.of_nat (length b)) (Z.of_nat (length a))); lia.
Qed.
Lemma sub_compare a b : (a - b ?= 0) = (a ?= b).
Proof. symmetry. apply Z.compare_sub. Qed.
Lemma all_zero_content m : isAllZero (z m) (n m) = forallb (fun x => x =? 0) (content m).
Proof. reflexivity. Qed.
Lemma lenz_zeros m : 0 <= nZero m -> lenz (repeat 0 (Z.to_nat (nZero m))) = nZero m.
Proof. intros H. unfold lenz. rewrite repeat_length. lia. Qed.
Lemma forallb_zeros k : forallb (fun x => x =? 0) (repeat 0 k) = true.
Proof. induction k as [|k IH]; [reflexivity|exact IH]. Qed.

Lemma blob_compare m1 m2 : cell_ok m1 -> cell_ok m2 ->
  (sqlite3BlobCompare m1 m2 ?= 0) = lex (blob_bytes m1) (blob_bytes m2) /\ - 2 ^ 31 < sqlite3BlobCompare m1 m2 < 2 ^ 31.
Proof.
  intros C1 C2. pose proof (ck_mem _ C1) as M1. pose proof (ck_mem _ C2) as M2. pose proof (ck_size _ C1) as S1. pose proof (ck_size _ C2) as S2. pose proof (ok_zero _ M1) as Z1. pose proof (ok_zero _ M2) as Z2.
  pose proof (ok_n _ M1) as N1. pose proof (ok_n _ M2) as N2. pose proof (length_content _ M1) as L1. pose proof (length_content _ M2) as L2. pose proof (bytes_content _ M1) as B1. pose proof (bytes_content _ M2) as B2.
  unfold sqlite3BlobCompare, blob_bytes. rewrite has_or. change MEM_Zero with (2 ^ 10). rewrite has_and by lia. change (2 ^ 10) with MEM_Zero. rewrite !all_zero_content.
  destruct (has m1 MEM_Zero), (has m2 MEM_Zero); cbn [orb andb].
  - rewrite lex_zeros, forallb_zeros, lenz_zeros, Z2Nat.id, sub_compare by (try apply bytes_zeros; lia). split; [reflexivity|lia].
  - rewrite lex_zeros, L2, Z2Nat.id by (assumption || lia). destruct (forallb _ (content m2)); cbn [negb]; [rewrite sub_compare|]; split; (reflexivity || lia).
  - rewrite lex_antisym, lex_zeros, L1, Z2Nat.id by (assumption || lia). destruct (forallb _ (content m1)); cbn [negb]; [rewrite sub_compare, (Z.compare_antisym (nZero m2))|]; split; (reflexivity || lia).
  - rewrite (content_prefix m1), (content_prefix m2), <- L1, <- L2. destruct (memcmp_content (content m1) (content m2) (skipn (Z.to_nat (n m1)) (z m1)) (skipn (Z.to_nat (n m2)) (z m2)) B1 B2) as [HC HB].
    rewrite <- L1, <- L2 in HC, HB. set (c := memcmp _ _ _) in *. split; [exact HC|]. destruct (negb (c =? 0)); lia.
Qed.

Lemma translate_enc m e : mem_enc (snd (sqlite3VdbeMemTranslate true m e)) = e.
Proof. unfold sqlite3VdbeMemTranslate. cbn [negb]. now destruct (_ && _). Qed.
(** With memory, texts are compared in the encoding of the collating sequence; without, the result is 0. *)
Lemma compare_string malloc enc s1 s2 c :
  vdbeCompareMemString malloc enc s1 s2 c =
    if (enc =? coll_enc c) || (malloc s1 && malloc s2) then (xCmp c (translated enc (coll_enc c) s1) (translated enc (coll_enc c) s2), false) else (0, true).
Proof.
  unfold vdbeCompareMemString, vdbeCompareMemStringWithEncodingChange, sqlite3ValueText, translated. destruct (Z.eqb_spec enc (coll_enc c)) as [|Hn]; [reflexivity|]. cbn [orb].
  assert (HF : forall s, mem_enc (snd (sqlite3VdbeMemTranslate false (mkMem s Record.MEM_Str enc) (coll_enc c))) = enc) by (intros s; unfold sqlite3VdbeMemTranslate; cbn [negb]; now destruct (_ && _)).
  destruct (malloc s1), (malloc s2); cbn [andb]; rewrite ?translate_enc, ?HF, ?Z.eqb_refl, ?(proj2 (Z.eqb_neq _ _) Hn); reflexivity.
Qed.

Lemma int_compare_exact i j : (int_compare i j ?= 0) = ext_compare (exact_int i) (exact_int j) /\ -1 <= int_compare i j <= 1.
Proof.
  assert (HS : 0 < 2 ^ 1074) by (apply Z.pow_pos_nonneg; lia). unfold exact_int. cbn [ext_compare]. rewrite <- Zmult_compare_compat_r by lia. unfold int_compare.
  destruct (Z.ltb_spec i j); [|destruct (Z.ltb_spec j i)]; split; try lia; symmetry; [apply Z.compare_lt_iff|apply Z.compare_gt_iff|apply Z.compare_eq_iff]; lia.
Qed.
Lemma double_compare_exact a b : is_u64 a -> is_u64 b -> IsNaN a = false -> IsNaN b = false ->
  ((if double_lt a b then -1 else if double_lt b a then 1 else 0) ?= 0) = ext_compare (exact (double_of_bits a)) (exact (double_of_bits b)).
Proof.
  intros Ha Hb Na Nb. destruct (bits_valid a Ha Na) as [A1 A2], (bits_valid b Hb Nb) as [B1 B2]. unfold double_lt.
  rewrite (proj1 (ltb_exact _ _ A1 B1 A2 B2)), (proj1 (ltb_exact _ _ B1 A1 B2 A2)), (ext_antisym (exact (double_of_bits a))). destruct (ext_compare _ _); reflexivity.
Qed.

Lemma mem_compare malloc enc m1 m2 c : cell_ok m1 -> cell_ok m2 -> (forall s, malloc s = true) ->
  (sqlite3MemCompare malloc enc m1 m2 c ?= 0) = vcompare enc c (value_of m1) (value_of m2).
Proof.
  intros C1 C2 Hm. pose proof (cell_holds m1 C1) as K1. pose proof (cell_holds m2 C2) as K2. destruct (blob_compare m1 m2 C1 C2) as [HB _]. unfold blob_bytes in HB.
  pose proof (ok_int _ (ck_mem _ C1)) as I1. pose proof (ok_int _ (ck_mem _ C2)) as I2. pose proof (ok_real _ (ck_mem _ C1)) as R1. pose proof (ok_real _ (ck_mem _ C2)) as R2.
  unfold sqlite3MemCompare. cbv zeta. rewrite !has_or, !null_bit. replace (Z.lor (Z.lor MEM_Int MEM_Real) MEM_IntReal) with (Z.lor (Z.lor MEM_Int MEM_IntReal) MEM_Real) by reflexivity.
  rewrite !(has_mask _ (Z.lor _ _) MEM_Real). change (Z.land (Z.land (flags m1) (flags m2)) MEM_Real) with (Z.land (Z.land (flags m1) (flags m2)) (2 ^ 3)). rewrite has_and by lia. change (2 ^ 3) with MEM_Real.
  fold (has m1 (Z.lor MEM_Int MEM_IntReal)) (has m2 (Z.lor MEM_Int MEM_IntReal)) (has m1 MEM_Real) (has m2 MEM_Real) (has m1 Record.MEM_Str) (has m2 Record.MEM_Str).
  assert (HC : forall s1 s2 k, (fst (vdbeCompareMemString malloc enc s1 s2 k) ?= 0) = text_compare enc (Some k) s1 s2) by (intros s1 s2 k; rewrite compare_string, !Hm, orb_true_r; reflexivity).
  destruct K1 as [v1 A1 A2 A3 A4 A5 A6|A1 A2 A3|A1 A2 A3 A4|A1 A2 A3 A4 A5|A1 A2 A3 A4 A5 A6|A1 A2 A3 A4 A5 A6], K2 as [v2 B1 B2 B3 B4 B5 B6|B1 B2 B3|B1 B2 B3 B4|B1 B2 B3 B4 B5|B1 B2 B3 B4 B5 B6|B1 B2 B3 B4 B5 B6];
    rewrite ?A1, ?B1, ?A2, ?B2, ?A3, ?B3, ?A4, ?B4, ?A5, ?B5, ?A6, ?B6 in *; cbn [orb andb negb] in *.
  all: try (destruct v1; try discriminate A6; destruct v2; try discriminate B6; reflexivity); try (destruct v1; try discriminate A6; reflexivity); try (destruct v2; try discriminate B6; reflexivity).
  all: try rewrite has_and_false by (rewrite ?A2, ?B2; auto).
  all: try reflexivity.
  - destruct (negb _); exact (proj1 (int_compare_exact (u_i m1) (u_i m2))).
  - exact (proj1 (int_float_compare _ _ I1 R2 B4)).
  - rewrite sgn_opp, (proj1 (int_float_compare _ _ I2 R1 A4)). symmetry. exact (ext_antisym (exact_int (u_i m2)) (exact (double_of_bits (u_r m1)))).
  - exact (double_compare_exact _ _ R1 R2 A4 B4).
  - destruct c as [k|]; [exact (HC _ _ k)|exact HB].
  - destruct c; exact HB.
  - destruct c; exact HB.
  - destruct c; exact HB.
  - destruct c; exact HB.
Qed.
