(* ===== verification/Collation.v ===== *)
(** * SQLite: collating sequences and the order of values

    The built-in collating functions ([binCollFunc], [rtrimCollFunc] and
    [nocaseCollatingFunc] of [src/api-core/src/db/sqlite3.c]), and what the sorters and
    B-trees need of a comparison: it is a total preorder.  [Collation] is what SQLite
    asks of a collating function; the three built-in functions have it, and for
    every collating sequence that has it the comparison of registers of [MemCompare]
    is a total preorder of values. *)

From Stdlib Require Import ZArith List Lia Bool.
From S2P Require Import Prelude Ctype IntArith IntText Utf Varint Record MemCompare.
Import ListNotations.
#[local] Open Scope Z_scope.

(** ** The built-in collating functions *)

Definition binCollFunc (nKey1 : Z) (pKey1 : list Z) (nKey2 : Z) (pKey2 : list Z) : Z :=
  let n := if nKey1 <? nKey2 then nKey1 else nKey2 in
  let rc := memcmp pKey1 pKey2 (Z.to_nat n) in
  if rc =? 0 then nKey1 - nKey2 else rc.

(** [while( nKey && pK[nKey-1]==' ' ) nKey--;] *)
Fixpoint trim_spaces (nKey : nat) (pK : list Z) : nat :=
  match nKey with
  | O => O
  | S k => if rd pK (Z.of_nat k) =? 32 then trim_spaces k pK else nKey
  end.
Definition rtrimCollFunc (nKey1 : Z) (pKey1 : list Z) (nKey2 : Z) (pKey2 : list Z) : Z :=
  binCollFunc (Z.of_nat (trim_spaces (Z.to_nat nKey1) pKey1)) pKey1 (Z.of_nat (trim_spaces (Z.to_nat nKey2) pKey2)) pKey2.

Definition nocaseCollatingFunc (nKey1 : Z) (pKey1 : list Z) (nKey2 : Z) (pKey2 : list Z) : Z :=
  let r := sqlite3_strnicmp (Some pKey1) (Some pKey2) (if nKey1 <? nKey2 then nKey1 else nKey2) in
  if 0 =? r then nKey1 - nKey2 else r.

Definition BINARY (enc : Z) : CollSeq := {| coll_enc := enc; xCmp := fun a b => binCollFunc (lenz a) a (lenz b) b |}.
Definition RTRIM : CollSeq := {| coll_enc := SQLITE_UTF8; xCmp := fun a b => rtrimCollFunc (lenz a) a (lenz b) b |}.
Definition NOCASE : CollSeq := {| coll_enc := SQLITE_UTF8; xCmp := fun a b => nocaseCollatingFunc (lenz a) a (lenz b) b |}.

(** ** Total preorders *)

Class Preorder {A} (P : A -> Prop) (cmp : A -> A -> comparison) : Prop := {
  pre_anti : forall a b, P a -> P b -> cmp b a = CompOpp (cmp a b);
  pre_trans : forall a b c, P a -> P b -> P c -> cmp a b <> Gt -> cmp b c <> Gt -> cmp a c <> Gt }.

(** What a collating function promises: a total preorder of texts, as an [int] whose
    opposite is an [int]. *)
Class Collation (c : CollSeq) : Prop := {
  collation_order : Preorder bytes (fun a b => xCmp c a b ?= 0);
  collation_int : forall a b, bytes a -> bytes b -> lenz a < 2 ^ 31 -> lenz b < 2 ^ 31 -> - 2 ^ 31 < xCmp c a b < 2 ^ 31 }.

(** Comparing first by [cmp], then by [cmp']. *)
Definition then_ (c d : comparison) : comparison := match c with Eq => d | _ => c end.

Section Preorders.
Context {A B : Type} (P : A -> Prop) (Q : B -> Prop).

Lemma pre_refl cmp a : Preorder P cmp -> P a -> cmp a a = Eq.
Proof. intros H Ha. pose proof (pre_anti a a Ha Ha) as E. destruct (cmp a a); [reflexivity|discriminate E|discriminate E]. Qed.
Lemma pre_weaken (P' : A -> Prop) cmp : (forall a, P' a -> P a) -> Preorder P cmp -> Preorder P' cmp.
Proof. intros HP [H1 H2]. split; eauto. Qed.
Lemma pre_ext cmp cmp' : (forall a b, P a -> P b -> cmp' a b = cmp a b) -> Preorder P cmp -> Preorder P cmp'.
Proof. intros E [H1 H2]. split; [intros a b Ha Hb|intros a b c Ha Hb Hc]; rewrite !E by assumption; eauto. Qed.
Lemma pre_map (f : A -> B) cmp : (forall a, P a -> Q (f a)) -> Preorder Q cmp -> Preorder P (fun a b => cmp (f a) (f b)).
Proof. intros Hf [H1 H2]. split; [intros a b Ha Hb; apply H1; auto|intros a b c Ha Hb Hc; apply H2; auto]. Qed.
Lemma pre_then cmp cmp' : Preorder P cmp -> Preorder P cmp' -> Preorder P (fun a b => then_ (cmp a b) (cmp' a b)).
Proof.
  intros H H'. split.
  - intros a b Ha Hb. rewrite (pre_anti (cmp := cmp) a b Ha Hb), (pre_anti (cmp := cmp') a b Ha Hb). destruct (cmp a b), (cmp' a b); reflexivity.
  - intros a b c Ha Hb Hc H1 H2. pose proof (pre_trans (cmp := cmp) a b c Ha Hb Hc) as T. pose proof (pre_trans (cmp := cmp') a b c Ha Hb Hc) as T'.
    pose proof (pre_trans (cmp := cmp) c a b Hc Ha Hb) as U. pose proof (pre_trans (cmp := cmp) b c a Hb Hc Ha) as V. rewrite (pre_anti (cmp := cmp) a c Ha Hc) in U, V.
    rewrite (pre_anti (cmp := cmp) b c Hb Hc) in U. rewrite (pre_anti (cmp := cmp) a b Ha Hb) in V.
    destruct (cmp a b), (cmp b c), (cmp a c); cbn in *; try discriminate; try (apply T'; assumption); try contradiction;
      (exfalso; solve [apply T; (discriminate || reflexivity)|apply U; (discriminate || reflexivity)|apply V; (discriminate || reflexivity)]).
Qed.
End Preorders.

#[export] Instance pre_Z : Preorder (fun _ : Z => True) Z.compare.
Proof. split; [intros a b _ _; apply Z.compare_antisym|intros a b c _ _ _; rewrite !Z.compare_le_iff; lia]. Qed.
#[export] Instance pre_lex : Preorder (fun _ : list Z => True) lex.
Proof.
  split; [intros a b _ _; apply lex_antisym|]. intros a b c _ _ _. revert b c. induction a as [|x a IH]; intros [|y b] [|w c]; cbn [lex]; try discriminate; try congruence.
  intros H1 H2. destruct (Z.compare_spec x y) as [->|Hxy|Hxy]; [|clear H1|congruence].
  - destruct (Z.compare_spec y w) as [->|Hyw|Hyw]; [exact (IH _ _ H1 H2)|discriminate|congruence].
  - destruct (Z.compare_spec y w) as [->|Hyw|Hyw]; [|clear H2|congruence]; destruct (Z.compare_spec x w); try lia; discriminate.
Qed.

(** ** The built-in functions are collating functions *)

Lemma bin_lex a b ra rb : bytes a -> bytes b ->
  (binCollFunc (lenz a) (a ++ ra) (lenz b) (b ++ rb) ?= 0) = lex a b /\ (binCollFunc (lenz a) (a ++ ra) (lenz b) (b ++ rb) = lenz a - lenz b \/ -256 < binCollFunc (lenz a) (a ++ ra) (lenz b) (b ++ rb) < 256).
Proof.
  intros Ha Hb. destruct (memcmp_lex a b ra rb Ha Hb) as [HL HR]. unfold binCollFunc.
  replace (Z.to_nat (if lenz a <? lenz b then lenz a else lenz b)) with (Nat.min (length a) (length b)) by (unfold lenz; destruct (Z.ltb_spec (Z.of_nat (length a)) (Z.of_nat (length b))); lia).
  destruct (memcmp _ _ _ =? 0); cbn [negb] in HL; auto.
Qed.
Lemma binary_lex enc a b : bytes a -> bytes b -> (xCmp (BINARY enc) a b ?= 0) = lex a b.
Proof. intros Ha Hb. destruct (bin_lex a b [] [] Ha Hb) as [H _]. rewrite !app_nil_r in H. exact H. Qed.

#[export] Instance binary_collation enc : Collation (BINARY enc).
Proof.
  split; [apply (pre_ext bytes lex); [apply binary_lex|]; now apply (pre_weaken (fun _ => True)); [|exact pre_lex]|]. intros a b Ha Hb La Lb.
  destruct (bin_lex a b [] [] Ha Hb) as [_ H]. rewrite !app_nil_r in H. unfold lenz in *. cbn [BINARY xCmp]. unfold lenz. lia.
Qed.

(** Without the spaces at the end. *)
Definition rtrimmed (a : list Z) : list Z := firstn (trim_spaces (length a) a) a.

Lemma trim_le k z : (trim_spaces k z <= k)%nat.
Proof. induction k as [|k IH]; cbn [trim_spaces]; [lia|]. destruct (_ =? 32); lia. Qed.
Lemma rtrim_lex a b : bytes a -> bytes b ->
  (xCmp RTRIM a b ?= 0) = lex (rtrimmed a) (rtrimmed b) /\ (xCmp RTRIM a b = lenz (rtrimmed a) - lenz (rtrimmed b) \/ -256 < xCmp RTRIM a b < 256).
Proof.
  assert (HS : forall a, bytes a -> bytes (rtrimmed a) /\ Z.of_nat (trim_spaces (length a) a) = lenz (rtrimmed a) /\ exists r, a = rtrimmed a ++ r).
  { intros c Hc. unfold rtrimmed. pose proof (trim_le (length c) c). split; [rewrite <- (firstn_skipn (trim_spaces (length c) c) c) in Hc; now apply bytes_app in Hc|]. split; [unfold lenz; rewrite length_firstn; lia|]. exists (skipn (trim_spaces (length c) c) c). symmetry. apply firstn_skipn. }
  intros Ha Hb. destruct (HS a Ha) as (A1 & A2 & ra & A3), (HS b Hb) as (B1 & B2 & rb & B3). cbn [RTRIM xCmp]. unfold rtrimCollFunc. assert (EL : forall c, Z.to_nat (lenz c) = length c) by (intros c; apply Nat2Z.id). rewrite !EL, A2, B2.
  generalize dependent (rtrimmed a). intros ta A1 _ ->. generalize dependent (rtrimmed b). intros tb B1 _ ->. now apply bin_lex.
Qed.
#[export] Instance rtrim_collation : Collation RTRIM.
Proof.
  split; [apply (pre_ext bytes (fun a b => lex (rtrimmed a) (rtrimmed b))); [intros a b Ha Hb; now apply rtrim_lex|]; now apply (pre_map bytes (fun _ => True)); [|exact pre_lex]|].
  intros a b Ha Hb La Lb. destruct (rtrim_lex a b Ha Hb) as [_ H]. assert (HL : forall c, 0 <= lenz (rtrimmed c) <= lenz c) by (intros c; unfold lenz, rtrimmed; rewrite length_firstn; lia).
  pose proof (HL a). pose proof (HL b). lia.
Qed.

(** Texts up to their first NUL, without the case of letters, and then their lengths. *)
Definition folded (a : list Z) : list Z := map lower (c_str a).

Lemma lower_nul x : is_u8 x -> lower x = 0 -> x = 0.
Proof. intros Hx E. destruct (Z.eq_dec x 0); [assumption|]. pose proof (lower_pos x Hx n). lia. Qed.
Lemma nocase_loop fuel : forall a b, bytes a -> bytes b -> (length a < fuel)%nat ->
  let '(N', a', b') := strnicmp_loop fuel (if lenz a <? lenz b then lenz a else lenz b) a b in
  let r := if N' <? 0 then 0 else rd sqlite3UpperToLower (rd a' 0) - rd sqlite3UpperToLower (rd b' 0) in
  ((if 0 =? r then lenz a - lenz b else r) ?= 0) = then_ (lex (folded a) (folded b)) (lenz a ?= lenz b).
Proof.
  unfold lenz, folded. induction fuel as [|fuel IH]; intros a b Ha Hb Hf; [lia|]. cbn [strnicmp_loop]. destruct a as [|x a].
  { replace (if _ <? _ then _ else _) with 0 by (cbn [length]; destruct (Z.ltb_spec (Z.of_nat 0) (Z.of_nat (length b))); lia). cbn [Z.ltb Z.compare andb Z.sub Z.add Z.opp Z.eqb]. rewrite sub_compare.
    cbn [c_str map length Z.of_nat]. destruct b as [|y b]; [reflexivity|]. cbn [c_str]. destruct (y =? 0); reflexivity. }
  apply Forall_cons_iff in Ha as [Hx Ha]. destruct b as [|y b].
  { cbn [length Z.of_nat]. destruct (Z.ltb_spec (Z.of_nat (S (length a))) 0); [lia|]. cbn [Z.ltb Z.compare andb Z.sub Z.add Z.opp Z.eqb]. cbn [c_str map]. destruct (x =? 0); [|cbn [map lex then_]]; reflexivity. }
  apply Forall_cons_iff in Hb as [Hy Hb]. specialize (IH a b Ha Hb ltac:(cbn in Hf; lia)).
  set (k := if Z.of_nat (length a) <? Z.of_nat (length b) then Z.of_nat (length a) else Z.of_nat (length b)) in *.
  assert (Ek : (if Z.of_nat (length (x :: a)) <? Z.of_nat (length (y :: b)) then Z.of_nat (length (x :: a)) else Z.of_nat (length (y :: b))) = k + 1 /\ 0 <= k).
  { unfold k. cbn [length]. rewrite !Nat2Z.inj_succ. destruct (Z.ltb_spec (Z.of_nat (length a)) (Z.of_nat (length b))), (Z.ltb_spec (Z.succ (Z.of_nat (length a))) (Z.succ (Z.of_nat (length b)))); lia. }
  destruct Ek as [-> Hk]. rewrite (proj2 (Z.ltb_lt 0 (k + 1))) by lia. change (rd (x :: a) 0) with x. change (rd (y :: b) 0) with y. rewrite (low_table x Hx), (low_table y Hy). cbn [andb c_str tl].
  replace (k + 1 - 1) with k by lia.
  destruct (Z.eqb_spec x 0) as [->|Hx0]; cbn [negb andb].
  - rewrite (proj2 (Z.ltb_ge k 0)) by lia. change (rd (0 :: a) 0) with 0. change (rd (y :: b) 0) with y. rewrite (low_table 0), (low_table y) by (assumption || (unfold is_u8; lia)).
    destruct (Z.eqb_spec y 0) as [->|Hy0]; [cbn [Z.eqb]; change (lower 0 - lower 0) with 0; cbn [Z.eqb map lex then_]; apply sub_compare|].
    pose proof (lower_pos y Hy Hy0). change (lower 0) with 0. rewrite (proj2 (Z.eqb_neq 0 (0 - lower y))) by lia. cbn [map lex then_]. apply Z.compare_lt_iff. lia.
  - destruct (Z.eqb_spec (lower x) (lower y)) as [El|El].
    + assert (Hy0 : y <> 0) by (intros ->; apply Hx0; exact (lower_nul x Hx El)). rewrite (proj2 (Z.eqb_neq y 0) Hy0). cbn [map lex length]. rewrite El, Z.compare_refl. rewrite !Nat2Z.inj_succ.
      destruct (strnicmp_loop fuel k a b) as [[N' a'] b']. cbv zeta in IH |- *. replace (Z.succ (Z.of_nat (length a)) - Z.succ (Z.of_nat (length b))) with (Z.of_nat (length a) - Z.of_nat (length b)) by lia. rewrite IH. f_equal.
      destruct (Z.compare_spec (Z.of_nat (length a)) (Z.of_nat (length b))); symmetry; [apply Z.compare_eq_iff|apply Z.compare_lt_iff|apply Z.compare_gt_iff]; lia.
    + rewrite (proj2 (Z.ltb_ge k 0)) by lia. change (rd (x :: a) 0) with x. change (rd (y :: b) 0) with y. rewrite (low_table x), (low_table y) by assumption. rewrite (proj2 (Z.eqb_neq 0 _)) by lia. rewrite sub_compare.
      pose proof (lower_pos x Hx Hx0). destruct (Z.eqb_spec y 0) as [->|Hy0]; cbn [map lex then_].
      * change (lower 0) with 0. apply Z.compare_gt_iff. lia.
      * destruct (Z.compare_spec (lower x) (lower y)); [contradiction|reflexivity|reflexivity].
Qed.
Lemma nocase_order a b : bytes a -> bytes b -> (xCmp NOCASE a b ?= 0) = then_ (lex (folded a) (folded b)) (lenz a ?= lenz b).
Proof.
  intros Ha Hb. pose proof (nocase_loop (S (length a)) a b Ha Hb ltac:(lia)) as H. cbn [NOCASE xCmp]. unfold nocaseCollatingFunc, sqlite3_strnicmp.
  destruct (strnicmp_loop _ _ _ _) as [[N' a'] b']. exact H.
Qed.
Lemma folding_table x : is_u8 (rd sqlite3UpperToLower x).
Proof. apply rd_u8. assert (H : forallb (fun b => (0 <=? b) && (b <? 256)) sqlite3UpperToLower = true) by (vm_compute; reflexivity). apply Forall_forall. rewrite forallb_forall in H. intros y Hy. specialize (H y Hy). unfold is_u8. lia. Qed.
#[export] Instance nocase_collation : Collation NOCASE.
Proof.
  split.
  - apply (pre_ext bytes (fun a b => then_ (lex (folded a) (folded b)) (lenz a ?= lenz b))); [apply nocase_order|].
    apply pre_then; [now apply (pre_map bytes (fun _ => True)); [|exact pre_lex]|now apply (pre_map bytes (fun _ => True)); [|exact pre_Z]].
  - intros a b _ _ La Lb. cbn [NOCASE xCmp]. unfold nocaseCollatingFunc, sqlite3_strnicmp, lenz in *. destruct (strnicmp_loop _ _ _ _) as [[N' a'] b'].
    pose proof (folding_table (rd a' 0)) as Ta. pose proof (folding_table (rd b' 0)) as Tb. unfold is_u8 in Ta, Tb. set (r := if N' <? 0 then 0 else _). assert (-256 < r < 256) by (unfold r; destruct (N' <? 0); lia). destruct (0 =? r); lia.
Qed.

(** ** Texts in the encoding of the collating sequence *)

Lemma utf_byte b k x m : 0 <= b -> 0 <= k -> b + 2 ^ k <= 256 -> m = 2 ^ k - 1 -> is_u8 (b + u8 (Z.land x m)).
Proof.
  intros Hb Hk H ->. rewrite land_low by lia. pose proof (Z.mod_pos_bound x (2 ^ k)). pose proof (Z.pow_pos_nonneg 2 k). unfold is_u8, u8. rewrite Z.mod_small; lia.
Qed.
Lemma u8_is_u8 x : is_u8 (u8 x).
Proof. apply Z.mod_pos_bound. lia. Qed.
Lemma write_bytes c : bytes (WRITE_UTF8 c) /\ bytes (WRITE_UTF16LE c) /\ bytes (WRITE_UTF16BE c).
Proof.
  split; [|split; unfold WRITE_UTF16LE, WRITE_UTF16BE; destruct (_ <=? _); repeat constructor; apply u8_is_u8].
  unfold WRITE_UTF8. repeat (destruct (_ <? _)); repeat (apply Forall_cons || apply Forall_nil); try apply u8_is_u8;
    first [apply (utf_byte _ 6); lia|apply (utf_byte _ 5); lia|apply (utf_byte _ 4); lia|apply (utf_byte _ 3); lia].
Qed.
Lemma swap_bytes_bytes z : bytes z -> bytes (swap_bytes z).
Proof.
  enough (H : forall k z, (length z <= k)%nat -> bytes z -> bytes (swap_bytes z)) by (apply (H (length z)); lia). clear z.
  induction k as [|k IH]; intros [|a [|b z]] Hl Hb; cbn [swap_bytes length] in *; try exact Hb; try lia. apply Forall_cons_iff in Hb as [Ha Hb]. apply Forall_cons_iff in Hb as [Hb' Hb].
  apply Forall_cons; [exact Hb'|]. apply Forall_cons; [exact Ha|]. apply IH; [lia|exact Hb].
Qed.
Lemma from_utf8_bytes write : (forall c, bytes (write c)) -> forall fuel z, bytes (from_utf8_loop fuel write z).
Proof. intros Hw fuel. induction fuel as [|fuel IH]; intros z; cbn [from_utf8_loop]; [constructor|]. destruct z as [|b z]; [constructor|]. destruct (READ_UTF8 _) as [c z']. apply bytes_app; auto. Qed.
Lemma from_utf16_bytes unit : forall fuel z, bytes (from_utf16_loop unit fuel z).
Proof.
  induction fuel as [|fuel IH]; intros z; cbn [from_utf16_loop]; [constructor|]. destruct z as [|b0 [|b1 z]]; try constructor.
  destruct (_ && _); [destruct z as [|b2 [|b3 z]]|]; apply bytes_app; split; auto; apply write_bytes.
Qed.
Lemma translated_ok enc e s : bytes s -> bytes (translated enc e s) /\ lenz (translated enc e s) <= 2 * lenz s.
Proof.
  intros Hb. unfold translated, lenz. destruct (enc =? e); [split; [exact Hb|lia]|]. unfold sqlite3VdbeMemTranslate. cbn [mem_enc mem_z negb].
  assert (Hf : bytes (firstn (length s - length s mod 2) s) /\ (length (firstn (length s - length s mod 2) s) <= length s)%nat).
  { split; [rewrite <- (firstn_skipn (length s - length s mod 2) s) in Hb; now apply bytes_app in Hb|rewrite length_firstn; lia]. }
  destruct (_ && _); cbn [snd mem_z]; [rewrite swap_bytes_length; split; [now apply swap_bytes_bytes|lia]|].
  set (w := if e =? SQLITE_UTF8 then firstn _ s else s). assert (Hw : bytes w /\ (length w <= length s)%nat) by (unfold w; destruct (e =? SQLITE_UTF8); auto).
  destruct Hw as [Hw Hl]. destruct (enc =? SQLITE_UTF8); [destruct (e =? SQLITE_UTF16LE)|destruct (enc =? SQLITE_UTF16LE)].
  - split; [apply from_utf8_bytes, write_bytes|]. pose proof (from_utf8_length WRITE_UTF16LE w (length s) Hw (fun c => proj1 (utf16_write_length c))). lia.
  - split; [apply from_utf8_bytes, write_bytes|]. pose proof (from_utf8_length WRITE_UTF16BE w (length s) Hw (fun c => proj2 (utf16_write_length c))). lia.
  - split; [apply from_utf16_bytes|]. pose proof (from_utf16_length unit_le (length s) w Hw (fun a b Ha Hb => proj1 (unit_bound a b Ha Hb))). lia.
  - split; [apply from_utf16_bytes|]. pose proof (from_utf16_length unit_be (length s) w Hw (fun a b Ha Hb => proj2 (unit_bound a b Ha Hb))). lia.
Qed.

(** ** The order of values *)

#[export] Instance pre_ext_compare : Preorder (fun _ : ext => True) ext_compare.
Proof.
  split; [intros a b _ _; apply ext_antisym|]. intros [|p|] [|q|] [|r|] _ _ _; cbn [ext_compare]; try discriminate; try congruence. rewrite !Z.compare_le_iff. lia.
Qed.

Definition value_ok (v : value) : Prop := match v with VText s | VBlob s => bytes s | _ => True end.
Definition coll_ok (pColl : option CollSeq) : Prop := match pColl with Some c => Collation c | None => True end.

Lemma text_preorder enc pColl : coll_ok pColl -> Preorder bytes (text_compare enc pColl).
Proof.
  intros Hc. destruct pColl as [c|]; [|now apply (pre_weaken (fun _ => True)); [|exact pre_lex]].
  exact (pre_map bytes bytes (translated enc (coll_enc c)) _ (fun s Hs => proj1 (translated_ok enc (coll_enc c) s Hs)) (@collation_order c Hc)).
Qed.

Lemma value_preorder enc pColl : coll_ok pColl -> Preorder value_ok (vcompare enc pColl).
Proof.
  intros Hc. pose proof (text_preorder enc pColl Hc) as HT. split.
  - intros [| |i|r|s|s] [| |j|q|t|t] Ha Hb; try reflexivity; try apply ext_antisym; [now apply (pre_anti (Preorder := HT))|apply lex_antisym].
  - intros v w u. unfold vcompare. destruct v as [| |i|r|s|s], w as [| |j|q|t|t]; cbn [rank number]; cbv [Z.compare Pos.compare Pos.compare_cont]; try congruence; destruct u as [| |k|p|x|x]; cbn [rank number]; cbv [Z.compare Pos.compare Pos.compare_cont]; try congruence; try discriminate; intros Ha Hb Hd.
    all: try exact (pre_trans (Preorder := pre_ext_compare) _ _ _ I I I).
    all: try exact (pre_trans (Preorder := HT) _ _ _ Ha Hb Hd).
    all: exact (pre_trans (Preorder := pre_lex) _ _ _ I I I).
Qed.

Lemma cell_value_ok m : cell_ok m -> value_ok (value_of m).
Proof.
  intros C. pose proof (bytes_content m (ck_mem m C)). destruct (cell_holds m C) as [v ? ? ? ? ? H0| | | | |]; cbn [value_ok]; auto; [now destruct v|apply bytes_zeros].
Qed.

(** C17: [sqlite3MemCompare] orders values.  Between any registers it gives the
    comparison of their values: NULL before numbers before texts before blobs,
    integers and reals by their exact numbers (an integer and a double are never
    confused because one was rounded), texts by the collating sequence in the
    encoding that it wants, blobs byte by byte, also those whose zeros are not
    stored.  With any collating function that orders texts this is a total
    preorder, as sorters and B-trees need: the comparison the other way round is the
    opposite, and it is transitive. *)
Theorem mem_compare_order malloc enc pColl a b c : cell_ok a -> cell_ok b -> cell_ok c -> (forall s, malloc s = true) -> coll_ok pColl ->
  let compare m m' := sqlite3MemCompare malloc enc m m' pColl in
  (compare a b ?= 0) = vcompare enc pColl (value_of a) (value_of b) /\
  (compare b a ?= 0) = CompOpp (compare a b ?= 0) /\
  (compare a b <= 0 -> compare b c <= 0 -> compare a c <= 0).
Proof.
  intros Ca Cb Cc Hm Hc compare. unfold compare. pose proof (value_preorder enc pColl Hc) as HP. rewrite <- !Z.compare_le_iff, !mem_compare by assumption. split; [reflexivity|]. split.
  - apply (pre_anti (Preorder := HP)); now apply cell_value_ok.
  - apply (pre_trans (Preorder := HP)); now apply cell_value_ok.
Qed.

Definition double_mem (r : Z) : Mem := {| u_i := 0; u_r := r; nZero := 0; z := []; n := 0; flags := MEM_Real |}.

Ltac concrete_cell :=
  constructor; [constructor; cbn [u_i u_r nZero z n int_mem text_mem zero_mem double_mem]; unfold is_i64, is_u64, lenz; cbn [length];
    [lia|lia|lia|lia|repeat constructor; unfold is_u8; lia|vm_compute; intros H; first [discriminate H|right; split; reflexivity]]
  |cbn; lia|vm_compute; intros H; first [discriminate H|repeat split]|vm_compute; intros H; first [discriminate H|repeat split]
  |vm_compute; intros H; first [discriminate H|repeat split]|vm_compute; intros H; first [discriminate H|repeat split]|vm_compute; intros; try reflexivity; try discriminate].

(** 9007199254740992.0 and the next integer; a text. *)
Lemma mem_compare_order_witness :
  let compare m m' := sqlite3MemCompare (fun _ => true) SQLITE_UTF16LE m m' (Some NOCASE) in
  compare (double_mem 4845873199050653696) (int_mem 9007199254740993) = -1 /\
  (compare (int_mem 9007199254740993) (double_mem 4845873199050653696) ?= 0) = CompOpp (compare (double_mem 4845873199050653696) (int_mem 9007199254740993) ?= 0) /\
  compare (double_mem 4845873199050653696) (text_mem [65; 0; 66; 0]) <= 0.
Proof.
  pose proof (mem_compare_order (fun _ => true) SQLITE_UTF16LE (Some NOCASE) (double_mem 4845873199050653696) (int_mem 9007199254740993) (text_mem [65; 0; 66; 0])
    ltac:(concrete_cell) ltac:(concrete_cell) ltac:(concrete_cell) (fun _ => eq_refl) nocase_collation) as (_ & H1 & H2).
  split; [vm_compute; reflexivity|]. split; [exact H1|]. apply H2; vm_compute; discriminate.
Defined.
