(* ===== verification/RecordCompare.v ===== *)
(** * SQLite: comparing records

    Searching an index or a sorter compares stored records with an unpacked key
    ([sqlite3VdbeRecordCompareWithSkip] and its two fast paths
    [vdbeRecordCompareInt] and [vdbeRecordCompareString], chosen by
    [sqlite3VdbeFindCompare], in [src/api-core/src/db/sqlite3.c]).  The records are
    those that [OP_MakeRecord] makes (see [Record]); the module shows that every one
    of these routines gives the lexicographic order of the values, with the sort
    order of each column, and that the reference comparison that the code runs in
    its assertions ([vdbeRecordCompareDebug]) agrees.

    A record is the list of its bytes; what the code reads past its end is 0 here.
    A result is the number that the routine returns and the key as it leaves it,
    with its error code and its flag for equality. *)

From Stdlib Require Import ZArith List Lia Bool.
From S2P Require Import Prelude Floats IntArith IntText Utf Varint Record MemCompare Collation.
From Stdlib Require Import SpecFloat.
Import ListNotations.
#[local] Open Scope Z_scope.

(** ** Keys *)

Definition KEYINFO_ORDER_DESC : Z := 0x01.
Definition KEYINFO_ORDER_BIGNULL : Z := 0x02.
Definition SQLITE_CORRUPT : Z := 11.
Definition SQLITE_NOMEM : Z := 7.

Record KeyInfo := { k_enc : Z; nAllField : Z; aColl : list (option CollSeq); aSortFlags : list Z }.

(** [u_i_] and [u_z] (a union in the code: a fast path uses the one that was set)
    and [u_n] are the copies of the first cell that the fast paths use; [nField] is
    the number of cells. *)
Record UnpackedRecord := {
  pKeyInfo : KeyInfo; aMem : list Mem; u_z : list Z; u_i_ : Z; u_n : Z; default_rc : Z; errCode : Z; r1 : Z; r2 : Z; eqSeen : bool }.
Definition nField (p : UnpackedRecord) : Z := Z.of_nat (length (aMem p)).

Definition set_errCode (e : Z) (p : UnpackedRecord) : UnpackedRecord :=
  {| pKeyInfo := pKeyInfo p; aMem := aMem p; u_z := u_z p; u_i_ := u_i_ p; u_n := u_n p; default_rc := default_rc p; errCode := e; r1 := r1 p; r2 := r2 p; eqSeen := eqSeen p |}.
Definition set_eqSeen (p : UnpackedRecord) : UnpackedRecord :=
  {| pKeyInfo := pKeyInfo p; aMem := aMem p; u_z := u_z p; u_i_ := u_i_ p; u_n := u_n p; default_rc := default_rc p; errCode := errCode p; r1 := r1 p; r2 := r2 p; eqSeen := true |}.
Definition set_cache (z : list Z) (i n r1 r2 : Z) (p : UnpackedRecord) : UnpackedRecord :=
  {| pKeyInfo := pKeyInfo p; aMem := aMem p; u_z := z; u_i_ := i; u_n := n; default_rc := default_rc p; errCode := errCode p; r1 := r1; r2 := r2; eqSeen := eqSeen p |}.

Definition coll (k : KeyInfo) (i : nat) : option CollSeq := nth i (aColl k) None.
Definition sort_flags (k : KeyInfo) (i : nat) : Z := nth i (aSortFlags k) 0.

(** [-rc] of an [int]. *)
Definition neg (rc : Z) : Z := i32 (- rc).

(** A register before anything is stored in it. *)
Definition mem0 : Mem := {| u_i := 0; u_r := 0; nZero := 0; z := []; n := 0; flags := 0 |}.

(** ** One field *)

Definition vdbeRecordDecodeInt (serial_type : Z) (aKey : list Z) : Z :=
  if (serial_type =? 0) || (serial_type =? 1) then ONE_BYTE_INT aKey
  else if serial_type =? 2 then TWO_BYTE_INT aKey
  else if serial_type =? 3 then THREE_BYTE_INT aKey
  else if serial_type =? 4 then i32 (FOUR_BYTE_UINT aKey)
  else if serial_type =? 5 then FOUR_BYTE_UINT (at_ 2 aKey) + Z.shiftl 1 32 * TWO_BYTE_INT aKey
  else if serial_type =? 6 then i64 (Z.lor (u64 (Z.shiftl (FOUR_BYTE_UINT aKey) 32)) (FOUR_BYTE_UINT (at_ 4 aKey)))
  else u32 (serial_type - 8).

(** The double at [buf], and whether it is a NaN. *)
Definition serialGet7 (buf : list Z) : Z * bool := let x := EIGHT_BYTES buf in (x, IsNaN x).

(** The field at the offsets [idx1] and [d1] against the cell [pRhs], number [i]:
    the result, the serial type and the error code; [None] when the record is
    corrupt. *)
Definition field_compare (malloc : list Z -> bool) (nKey1 : Z) (aKey1 : list Z) (k : KeyInfo) (i : nat) (idx1 d1 : Z) (pRhs : Mem) (err : Z) : option (Z * Z * Z) :=
  if has pRhs (Z.lor MEM_Int MEM_IntReal) then
    let serial_type := rd aKey1 idx1 in
    Some (if 10 <=? serial_type then (if serial_type =? 10 then -1 else 1)
          else if serial_type =? 0 then -1
          else if serial_type =? 7 then - sqlite3IntFloatCompare (u_i pRhs) (fst (serialGet7 (at_ d1 aKey1)))
          else int_compare (vdbeRecordDecodeInt serial_type (at_ d1 aKey1)) (u_i pRhs), serial_type, err)
  else if has pRhs MEM_Real then
    let serial_type := rd aKey1 idx1 in
    Some (if 10 <=? serial_type then (if serial_type =? 10 then -1 else 1)
          else if serial_type =? 0 then -1
          else if serial_type =? 7 then
            let (r, isnan) := serialGet7 (at_ d1 aKey1) in
            if isnan then -1 else if double_lt r (u_r pRhs) then -1 else if double_lt (u_r pRhs) r then 1 else 0
          else sqlite3IntFloatCompare (u_i (sqlite3VdbeSerialGet (at_ d1 aKey1) serial_type mem0)) (u_r pRhs), serial_type, err)
  else if has pRhs Record.MEM_Str then
    let serial_type := fst (getVarint32 (at_ idx1 aKey1)) in
    if serial_type <? 12 then Some (-1, serial_type, err)
    else if Z.land serial_type 1 =? 0 then Some (1, serial_type, err)
    else
      let n1 := (serial_type - 12) / 2 in
      if (nKey1 <? u32 (d1 + n1)) || (nAllField k <=? Z.of_nat i) then None
      else
        match coll k i with
        | Some c =>
          let (rc, nomem) := vdbeCompareMemString malloc (k_enc k) (firstn (Z.to_nat n1) (at_ d1 aKey1)) (content pRhs) c in
          Some (rc, serial_type, if nomem : bool then SQLITE_NOMEM else err)
        | None =>
          let nCmp := Z.min n1 (n pRhs) in
          let rc := memcmp (at_ d1 aKey1) (z pRhs) (Z.to_nat nCmp) in
          Some (if rc =? 0 then n1 - n pRhs else rc, serial_type, err)
        end
  else if has pRhs MEM_Blob then
    let serial_type := fst (getVarint32 (at_ idx1 aKey1)) in
    if (serial_type <? 12) || negb (Z.land serial_type 1 =? 0) then Some (-1, serial_type, err)
    else
      let nStr := (serial_type - 12) / 2 in
      if nKey1 <? u32 (d1 + nStr) then None
      else if has pRhs MEM_Zero then Some (if negb (isAllZero (at_ d1 aKey1) nStr) then 1 else nStr - nZero pRhs, serial_type, err)
      else
        let nCmp := Z.min nStr (n pRhs) in
        let rc := memcmp (at_ d1 aKey1) (z pRhs) (Z.to_nat nCmp) in
        Some (if rc =? 0 then nStr - n pRhs else rc, serial_type, err)
  else
    let serial_type := rd aKey1 idx1 in
    Some (if (serial_type =? 0) || (serial_type =? 10) || ((serial_type =? 7) && snd (serialGet7 (at_ d1 aKey1))) then 0 else 1, serial_type, err).

(** The sort order of the column applied to a result that is not 0. *)
Definition apply_sort_flags (sortFlags serial_type : Z) (pRhs : Mem) (rc : Z) : Z :=
  if negb (sortFlags =? 0)
     && ((Z.land sortFlags KEYINFO_ORDER_BIGNULL =? 0)
         || negb (Z.land sortFlags KEYINFO_ORDER_DESC =? Z.b2z ((serial_type =? 0) || has pRhs MEM_Null)))
  then neg rc else rc.

(** ** Records *)

(** The loop; [rhs] has the cells from [pRhs] on, at least one. *)
Fixpoint compare_loop (malloc : list Z -> bool) (nKey1 : Z) (aKey1 : list Z) (szHdr1 : Z) (p : UnpackedRecord) (rhs : list Mem) (i : nat) (idx1 d1 : Z) : Z * UnpackedRecord :=
  match rhs with
  | [] => (default_rc p, set_eqSeen p)
  | pRhs :: rest =>
    match field_compare malloc nKey1 aKey1 (pKeyInfo p) i idx1 d1 pRhs (errCode p) with
    | None => (0, set_errCode SQLITE_CORRUPT p)
    | Some (rc, serial_type, e) =>
      let p := set_errCode e p in
      if negb (rc =? 0) then (apply_sort_flags (sort_flags (pKeyInfo p) i) serial_type pRhs rc, p)
      else
        match rest with
        | [] => (default_rc p, set_eqSeen p)
        | _ :: _ =>
          let d1 := u32 (d1 + sqlite3VdbeSerialTypeLen serial_type) in
          if nKey1 <? d1 then (default_rc p, set_eqSeen p)
          else
            let idx1 := u32 (idx1 + sqlite3VarintLen serial_type) in
            if szHdr1 <=? idx1 then (0, set_errCode SQLITE_CORRUPT p)
            else compare_loop malloc nKey1 aKey1 szHdr1 p rest (S i) idx1 d1
        end
    end
  end.

Definition sqlite3VdbeRecordCompareWithSkip (malloc : list Z -> bool) (nKey1 : Z) (aKey1 : list Z) (p : UnpackedRecord) (bSkip : bool) : Z * UnpackedRecord :=
  if bSkip then
    let s1 := rd aKey1 1 in
    let (s1, idx1) := if s1 <? 0x80 then (s1, 2) else let (s, k) := sqlite3GetVarint32 (at_ 1 aKey1) in (s, 1 + k) in
    let szHdr1 := rd aKey1 0 in
    let d1 := u32 (szHdr1 + sqlite3VdbeSerialTypeLen s1) in
    if nKey1 <? d1 then (0, set_errCode SQLITE_CORRUPT p) else compare_loop malloc nKey1 aKey1 szHdr1 p (tl (aMem p)) 1 idx1 d1
  else
    let (szHdr1, idx1) := if rd aKey1 0 <? 0x80 then (rd aKey1 0, 1) else sqlite3GetVarint32 aKey1 in
    let d1 := szHdr1 in
    if nKey1 <? d1 then (0, set_errCode SQLITE_CORRUPT p) else compare_loop malloc nKey1 aKey1 szHdr1 p (aMem p) 0 idx1 d1.

Definition sqlite3VdbeRecordCompare (malloc : list Z -> bool) (nKey1 : Z) (aKey1 : list Z) (p : UnpackedRecord) : Z * UnpackedRecord :=
  sqlite3VdbeRecordCompareWithSkip malloc nKey1 aKey1 p false.

(** ** The fast paths *)

Definition vdbeRecordCompareInt (malloc : list Z -> bool) (nKey1 : Z) (pKey1 : list Z) (p : UnpackedRecord) : Z * UnpackedRecord :=
  let aKey := at_ (Z.land (rd pKey1 0) 0x3F) pKey1 in
  let serial_type := rd pKey1 1 in
  let compare lhs :=
    let v := u_i_ p in
    if lhs <? v then (r1 p, p)
    else if v <? lhs then (r2 p, p)
    else if 1 <? nField p then sqlite3VdbeRecordCompareWithSkip malloc nKey1 pKey1 p true
    else (default_rc p, set_eqSeen p) in
  if serial_type =? 1 then compare (ONE_BYTE_INT aKey)
  else if serial_type =? 2 then compare (TWO_BYTE_INT aKey)
  else if serial_type =? 3 then compare (THREE_BYTE_INT aKey)
  else if serial_type =? 4 then compare (i32 (FOUR_BYTE_UINT aKey))
  else if serial_type =? 5 then compare (FOUR_BYTE_UINT (at_ 2 aKey) + Z.shiftl 1 32 * TWO_BYTE_INT aKey)
  else if serial_type =? 6 then compare (i64 (Z.lor (u64 (Z.shiftl (FOUR_BYTE_UINT aKey) 32)) (FOUR_BYTE_UINT (at_ 4 aKey))))
  else if serial_type =? 8 then compare 0
  else if serial_type =? 9 then compare 1
  else sqlite3VdbeRecordCompare malloc nKey1 pKey1 p.

Definition vdbeRecordCompareString (malloc : list Z -> bool) (nKey1 : Z) (aKey1 : list Z) (p : UnpackedRecord) : Z * UnpackedRecord :=
  let serial_type := i8 (rd aKey1 1) in
  let serial_type := if serial_type <? 0 then i32 (fst (sqlite3GetVarint32 (at_ 1 aKey1))) else serial_type in
  if serial_type <? 12 then (r1 p, p)
  else if Z.land serial_type 1 =? 0 then (r2 p, p)
  else
    let szHdr := rd aKey1 0 in
    let nStr := (serial_type - 12) / 2 in
    if nKey1 <? szHdr + nStr then (0, set_errCode SQLITE_CORRUPT p)
    else
      let nCmp := Z.min (u_n p) nStr in
      let res := memcmp (at_ szHdr aKey1) (u_z p) (Z.to_nat nCmp) in
      if 0 <? res then (r2 p, p)
      else if res <? 0 then (r1 p, p)
      else
        let res := nStr - u_n p in
        if res =? 0 then
          if 1 <? nField p then sqlite3VdbeRecordCompareWithSkip malloc nKey1 aKey1 p true else (default_rc p, set_eqSeen p)
        else if 0 <? res then (r2 p, p)
        else (r1 p, p).

(** The comparison functions. *)
Inductive RecordCompareFn := CompareRecord | CompareInt | CompareString.
Definition run (f : RecordCompareFn) : (list Z -> bool) -> Z -> list Z -> UnpackedRecord -> Z * UnpackedRecord :=
  match f with CompareRecord => sqlite3VdbeRecordCompare | CompareInt => vdbeRecordCompareInt | CompareString => vdbeRecordCompareString end.

(** The function for a key, and the key with its copies. *)
Definition sqlite3VdbeFindCompare (p : UnpackedRecord) : RecordCompareFn * UnpackedRecord :=
  let k := pKeyInfo p in
  if nAllField k <=? 13 then
    let m := hd mem0 (aMem p) in
    let s := sort_flags k 0 in
    if negb (s =? 0) && negb (Z.land s KEYINFO_ORDER_BIGNULL =? 0) then (CompareRecord, p)
    else
      let '(a, b) := if negb (s =? 0) then (1, -1) else (-1, 1) in
      if has m MEM_Int then (CompareInt, set_cache (u_z p) (u_i m) (u_n p) a b p)
      else if (Z.land (flags m) (Z.lor (Z.lor (Z.lor MEM_Real MEM_IntReal) MEM_Null) MEM_Blob) =? 0) && (match coll k 0 with None => true | Some _ => false end)
      then (CompareString, set_cache (z m) (u_i_ p) (n m) a b p)
      else (CompareRecord, set_cache (u_z p) (u_i_ p) (u_n p) a b p)
  else (CompareRecord, p).

(** ** The reference comparison *)

(** The loop of [vdbeRecordCompareDebug]: its [rc]. *)
Fixpoint debug_loop (malloc : list Z -> bool) (nKey1 : Z) (aKey1 : list Z) (szHdr1 : Z) (p : UnpackedRecord) (mem1 : Mem) (rhs : list Mem) (i : nat) (idx1 d1 : Z) : Z :=
  match rhs with
  | [] => default_rc p
  | pRhs :: rest =>
    let (serial_type1, k) := getVarint32 (at_ idx1 aKey1) in
    let idx1 := u32 (idx1 + k) in
    let len := sqlite3VdbeSerialTypeLen serial_type1 in
    if (nKey1 <? d1 + serial_type1 + 2) && (nKey1 <? d1 + len) then default_rc p
    else
      let mem1 := sqlite3VdbeSerialGet (at_ d1 aKey1) serial_type1 mem1 in
      let d1 := u32 (d1 + len) in
      let c := if Z.of_nat i <? nAllField (pKeyInfo p) then coll (pKeyInfo p) i else None in
      let rc := sqlite3MemCompare malloc (k_enc (pKeyInfo p)) mem1 pRhs c in
      if negb (rc =? 0) then
        let s := sort_flags (pKeyInfo p) i in
        let rc := if negb (Z.land s KEYINFO_ORDER_BIGNULL =? 0) && (has mem1 MEM_Null || has pRhs MEM_Null) then neg rc else rc in
        if negb (Z.land s KEYINFO_ORDER_DESC =? 0) then neg rc else rc
      else if idx1 <? szHdr1 then debug_loop malloc nKey1 aKey1 szHdr1 p mem1 rest (S i) idx1 d1
      else default_rc p
  end.

(** [vdbeRecordCompareDebug] for a key of an open database that is not corrupt and
    has had no failed allocation: whether the reference comparison gives the sign of
    [desiredResult].  [mem1] is the register that is not initialised. *)
Definition vdbeRecordCompareDebug (malloc : list Z -> bool) (nKey1 : Z) (aKey1 : list Z) (p : UnpackedRecord) (mem1 : Mem) (desiredResult : Z) : Z :=
  let (szHdr1, idx1) := getVarint32 aKey1 in
  if 98307 <? szHdr1 then SQLITE_CORRUPT
  else
    let rc := debug_loop malloc nKey1 aKey1 szHdr1 p mem1 (aMem p) 0 idx1 szHdr1 in
    if (desiredResult =? 0) && (rc =? 0) then 1
    else if (desiredResult <? 0) && (rc <? 0) then 1
    else if (0 <? desiredResult) && (0 <? rc) then 1
    else 0.

(** ** Specification *)

Definition is_null (v : value) : bool := match v with VNull | VNoChange => true | _ => false end.

(** The column's order of two values. *)
Definition sorted (sortFlags : Z) (v w : value) (c : comparison) : comparison :=
  let desc := negb (Z.land sortFlags KEYINFO_ORDER_DESC =? 0) in
  let bignull := negb (Z.land sortFlags KEYINFO_ORDER_BIGNULL =? 0) in
  if xorb desc (bignull && (is_null v || is_null w)) then CompOpp c else c.

(** The order of a record and a key: lexicographic, over the columns of the key. *)
Fixpoint key_compare (k : KeyInfo) (i : nat) (vs ws : list value) : comparison :=
  match vs, ws with
  | v :: vs, w :: ws => then_ (sorted (sort_flags k i) v w (vcompare (k_enc k) (coll k i) v w)) (key_compare k (S i) vs ws)
  | _, _ => Eq
  end.

(** What a comparison function must return and leave behind. *)
Definition Compared (p : UnpackedRecord) (c : comparison) (r : Z * UnpackedRecord) : Prop :=
  match c with
  | Eq => r = (default_rc p, set_eqSeen p)
  | _ => (fst r ?= 0) = c /\ snd r = p
  end.

(** Registers of a record: not a NaN and not the mark of an unchanged column, which
    the engine does not store in indexes. *)
Definition plain (m : Mem) : Prop :=
  (has m MEM_Null = true -> has m MEM_Zero = false) /\
  (has m MEM_Null = false -> has m (Z.lor MEM_Int MEM_IntReal) = false -> has m MEM_Real = true -> IsNaN (u_r m) = false).

(** [SQLITE_MAX_LENGTH] *)
Definition SQLITE_MAX_LENGTH : Z := 1000000000.

(** ** The integer of a field *)

Ltac split_bytes Hb Hl F :=
  repeat match type of Hl with length F = S _ => let b := fresh "b" in destruct F as [|b F]; [discriminate Hl|]; cbn [length] in Hl; apply Nat.succ_inj in Hl; apply Forall_cons_iff in Hb as [? Hb] end;
  destruct F; [|discriminate Hl].

Lemma decode_int t F rest : bytes F -> lenz F = sqlite3VdbeSerialTypeLen t -> 1 <= t <= 9 -> t <> 7 ->
  u_i (sqlite3VdbeSerialGet (F ++ rest) t mem0) = vdbeRecordDecodeInt t (F ++ rest) /\ is_i64 (vdbeRecordDecodeInt t (F ++ rest)).
Proof.
  intros Hb Hl Ht H7. assert (HI : forall b, is_u8 b -> -128 <= i8 b <= 127 /\ (b < 128 -> i8 b = b) /\ (128 <= b -> i8 b = b - 256)) by (intros b Hb0; rewrite i8_sign by exact Hb0; unfold is_u8 in Hb0; destruct (Z.ltb_spec b 128); lia).
  assert (Hl' : length F = Z.to_nat (sqlite3VdbeSerialTypeLen t)) by (unfold lenz in Hl; lia). clear Hl.
  assert (Hcase : t = 1 \/ t = 2 \/ t = 3 \/ t = 4 \/ t = 5 \/ t = 6 \/ t = 8 \/ t = 9) by lia. unfold bytes, is_i64 in *. unfold vdbeRecordDecodeInt.
  destruct Hcase as [-> |[-> |[-> |[-> |[-> |[-> |[-> | ->]]]]]]]; match type of Hl' with _ = ?x => let y := eval cbv in x in change x with y in Hl' end; split_bytes Hb Hl' F; cbn [app Z.eqb Pos.eqb orb]; (split; [try reflexivity|]).
  - unfold ONE_BYTE_INT. rewrite rd_0. pose proof (HI b H). lia.
  - rewrite two_bytes by assumption. pose proof (HI b H). unfold is_u8 in *. lia.
  - rewrite three_bytes by assumption. pose proof (HI b H). unfold is_u8 in *. lia.
  - change (u_i _) with (FOUR_BYTE_INT (b :: b0 :: b1 :: b2 :: rest)). rewrite four_bytes, four_unsigned by assumption. pose proof (HI b H) as (_ & I1 & I2). unfold is_u8, i32 in *.
    destruct (Z.lt_ge_cases b 128); [rewrite I1, Z.mod_small by lia; lia|]. rewrite I2 by lia.
    apply (Z.add_cancel_r _ _ (2 ^ 31)). rewrite Z.sub_add. apply (Z.mod_unique _ _ 1); lia.
  - pose proof (Z.mod_pos_bound (FOUR_BYTE_UINT (b :: b0 :: b1 :: b2 :: rest) + 2 ^ 31) (2 ^ 32) ltac:(lia)). unfold i32. lia.
  - change (at_ 2 _) with (b1 :: b2 :: b3 :: b4 :: rest). rewrite four_unsigned, two_bytes by assumption. pose proof (HI b H). unfold is_u8 in *. change (Z.shiftl 1 32) with 4294967296. lia.
  - change (u_i _) with (i64 (EIGHT_BYTES (b :: b0 :: b1 :: b2 :: b3 :: b4 :: b5 :: b6 :: rest))). f_equal. unfold EIGHT_BYTES. change (at_ 4 _) with (b3 :: b4 :: b5 :: b6 :: rest).
    rewrite !four_unsigned by assumption. unfold is_u8 in *. unfold u64. rewrite Z.shiftl_mul_pow2 by lia. rewrite (Z.mod_small (_ * 2 ^ 32)) by lia. rewrite Z.mod_small by lia. symmetry. apply lor_mul; lia.
  - match goal with |- _ <= i64 ?x < _ => pose proof (Z.mod_pos_bound (x + 2 ^ 63) (2 ^ 64) ltac:(lia)) end. unfold i64. lia.
  - cbn. lia.
  - cbn. lia.
Qed.

(** ** What a field holds *)

(** Serial types that are made for plain registers: 0 and only 0 is NULL. *)
Definition type_ok (t : Z) (v : value) : Prop := (t =? 0) = is_null v /\ t <> 10 /\ t <> 11.

Inductive FieldView (t : Z) (F rest : list Z) : value -> Prop :=
| fv_null : t = 0 -> FieldView t F rest VNull
| fv_int : 1 <= t <= 9 -> t <> 7 -> is_i64 (vdbeRecordDecodeInt t (F ++ rest)) -> u_i (sqlite3VdbeSerialGet (F ++ rest) t mem0) = vdbeRecordDecodeInt t (F ++ rest) ->
    FieldView t F rest (VInt (vdbeRecordDecodeInt t (F ++ rest)))
| fv_real : t = 7 -> is_u64 (EIGHT_BYTES (F ++ rest)) -> IsNaN (EIGHT_BYTES (F ++ rest)) = false -> FieldView t F rest (VReal (EIGHT_BYTES (F ++ rest)))
| fv_text : 12 <= t -> Z.land t 1 = 1 -> FieldView t F rest (VText F)
| fv_blob : 12 <= t -> Z.land t 1 = 0 -> FieldView t F rest (VBlob F).

Lemma low_bit t : Z.land t 1 = 0 \/ Z.land t 1 = 1.
Proof. change 1 with (2 ^ 1 - 1). rewrite land_low by lia. pose proof (Z.mod_pos_bound t (2 ^ 1)). lia. Qed.

Lemma field_view t F v rest : Reads t F v -> type_ok t v -> FieldView t F rest v.
Proof.
  intros (Ht & Hl & Hb & HV) (T0 & T10 & T11). specialize (HV rest mem0). destruct (Z.le_gt_cases 12 t) as [H12|H12].
  - unfold sqlite3VdbeSerialGet in HV. repeat (rewrite (proj2 (Z.eqb_neq t _)) in HV by lia). cbn [orb] in HV. rewrite type_len in Hl by exact H12.
    assert (Hc : content (set_bytes (F ++ rest) ((t - 12) / 2) (Z.lor (if Z.land t 1 =? 0 then MEM_Blob else Record.MEM_Str) MEM_Ephem) mem0) = F).
    { unfold content. cbn [set_bytes n z]. rewrite <- Hl, Nat2Z.id, firstn_app, Nat.sub_diag, firstn_O, app_nil_r. apply firstn_all. }
    unfold value_of in HV. rewrite Hc in HV. destruct (low_bit t) as [E|E]; rewrite E in HV; cbn in HV; rewrite <- HV; [rewrite app_nil_r; now apply fv_blob|now apply fv_text].
  - destruct (Z.eq_dec t 0) as [->|N0]; [cbn in HV; rewrite <- HV; now apply fv_null|]. destruct (Z.eq_dec t 7) as [->|N7].
    + unfold sqlite3VdbeSerialGet, serialGet in HV. cbn [Z.eqb Pos.eqb orb] in HV. destruct (IsNaN (EIGHT_BYTES (F ++ rest))) eqn:E; cbn in HV; [rewrite <- HV in T0; discriminate T0|].
      unfold value_of in HV. cbn in HV. rewrite E in HV. rewrite <- HV. apply fv_real; auto. unfold EIGHT_BYTES. apply Z.mod_pos_bound. lia.
    + destruct (decode_int t F rest Hb Hl ltac:(lia) N7) as [D1 D2]. assert (Ei : exists i, sqlite3VdbeSerialGet (F ++ rest) t mem0 = set_int i mem0).
      { assert (Hcase : t = 1 \/ t = 2 \/ t = 3 \/ t = 4 \/ t = 5 \/ t = 6 \/ t = 8 \/ t = 9) by lia. destruct Hcase as [-> |[-> |[-> |[-> |[-> |[-> |[-> | ->]]]]]]]; eexists; reflexivity. }
      destruct Ei as [i Ei]. pose proof D1 as D1'. rewrite Ei in D1, HV. rewrite value_int in HV. cbn [u_i set_int] in D1. subst i v. apply fv_int; auto. lia.
Qed.

Lemma rd_at i a : 0 <= i -> rd (at_ i a) 0 = rd a i.
Proof. intros Hi. unfold rd, at_. rewrite nth_skipn. f_equal. lia. Qed.
Lemma first_byte t rest : 0 <= t < 2 ^ 32 -> bytes rest -> let b := rd (header_bytes t ++ rest) 0 in if t <? 128 then b = t else 128 <= b.
Proof.
  intros Ht Hr. destruct (header_bytes_ok t Ht) as (_ & _ & _ & HG). specialize (HG rest Hr). unfold getVarint32 in HG. cbv zeta. destruct (Z.ltb_spec t 128) as [Hs|Hs].
  - unfold header_bytes. rewrite (proj2 (Z.ltb_lt t 128) Hs). reflexivity.
  - destruct (Z.ltb_spec (rd (header_bytes t ++ rest) 0) 128) as [Hb|Hb]; [|exact Hb]. injection HG as HG _. lia.
Qed.

(** ** One field of a record and one cell *)

(** The result of a routine when the memory lasts, and what is left when it does
    not. *)
Definition no_memory (malloc : list Z -> bool) (e : Z) : Prop := e = SQLITE_NOMEM /\ exists s, malloc s = false.

Definition FieldResult (malloc : list Z -> bool) (k : KeyInfo) (i : nat) (t : Z) (v : value) (pRhs : Mem) (err : Z) (r : option (Z * Z * Z)) : Prop :=
  exists rc t' e, r = Some (rc, t', e) /\ - 2 ^ 31 < rc < 2 ^ 31 /\ (t' =? 0) = (t =? 0) /\ (rc = 0 -> t' = t) /\
    ((e = err /\ (rc ?= 0) = vcompare (k_enc k) (coll k i) v (value_of pRhs)) \/ (rc = 0 /\ no_memory malloc e)).

Lemma memcmp_min a b ra rb : bytes a -> bytes b ->
  let c := memcmp (a ++ ra) (b ++ rb) (Z.to_nat (Z.min (lenz a) (lenz b))) in
  ((if c =? 0 then lenz a - lenz b else c) ?= 0) = lex a b /\ -256 < c < 256.
Proof.
  intros Ha Hb. replace (Z.to_nat (Z.min (lenz a) (lenz b))) with (Nat.min (length a) (length b)) by (unfold lenz; lia). destruct (memcmp_lex a b ra rb Ha Hb) as [H1 H2]. cbv zeta in *.
  destruct (memcmp _ _ _ =? 0); cbn [negb] in H1; auto.
Qed.

Section Field.
Variables (malloc : list Z -> bool) (nKey : Z) (aKey : list Z) (k : KeyInfo) (i : nat) (idx d : Z) (pRhs : Mem) (err : Z) (t : Z) (F : list Z) (v : value) (H D : list Z).
Hypothesis HR : Reads t F v.
Hypothesis HT : type_ok t v.
Hypothesis HH : bytes H.
Hypothesis Hidx : 0 <= idx.
Hypothesis Hd : 0 <= d.
Hypothesis EH : at_ idx aKey = header_bytes t ++ H.
Hypothesis ED : at_ d aKey = F ++ D.
Hypothesis Hfit : d + lenz F <= nKey <= SQLITE_MAX_LENGTH.
Hypothesis HC : cell_ok pRhs.
Hypothesis Hsz : lenz (content pRhs) <= SQLITE_MAX_LENGTH.
Hypothesis Hi : Z.of_nat i < nAllField k.
Hypothesis Hcoll : coll_ok (coll k i).

(** The serial type as one byte. *)
Lemma raw_type : if t <? 128 then rd aKey idx = t else 128 <= rd aKey idx.
Proof. rewrite <- rd_at, EH by exact Hidx. apply first_byte; [apply HR|exact HH]. Qed.
(** The serial type. *)
Lemma full_type : fst (getVarint32 (at_ idx aKey)) = t.
Proof. destruct (header_bytes_ok t (proj1 HR)) as (_ & _ & _ & HG). rewrite EH, (HG H HH). reflexivity. Qed.

Lemma raw_large : 12 <= t -> 12 <= rd aKey idx.
Proof. intros H12. pose proof raw_type as HB. destruct (Z.ltb_spec t 128); lia. Qed.

Lemma compared_as rc t' : - 2 ^ 31 < rc < 2 ^ 31 -> (t' = t \/ (12 <= t' /\ 12 <= t /\ rc <> 0)) -> (rc ?= 0) = vcompare (k_enc k) (coll k i) v (value_of pRhs) ->
  FieldResult malloc k i t v pRhs err (Some (rc, t', err)).
Proof.
  intros H1 H2 H3. exists rc, t', err. split; [reflexivity|]. split; [exact H1|]. split; [|split; [intros ->; tauto|left; auto]].
  destruct H2 as [-> | (A & B & _)]; [reflexivity|]. now rewrite !(proj2 (Z.eqb_neq _ 0)) by lia.
Qed.

Lemma view : exists w, v = w /\ FieldView t F D w.
Proof. exists v. split; [reflexivity|]. now apply field_view. Qed.

(** The choice by serial type that the integer and the real cells make. *)
Definition by_type (b real int : Z) : Z := if 10 <=? b then (if b =? 10 then -1 else 1) else if b =? 0 then -1 else if b =? 7 then real else int.

Lemma by_type_result real int (w : value) : value_of pRhs = w -> rank w = 1 ->
  (t = 7 -> IsNaN (EIGHT_BYTES (F ++ D)) = false -> is_u64 (EIGHT_BYTES (F ++ D)) -> -1 <= real <= 1 /\ (real ?= 0) = vcompare (k_enc k) (coll k i) (VReal (EIGHT_BYTES (F ++ D))) w) ->
  (rd aKey idx = t -> is_i64 (vdbeRecordDecodeInt t (F ++ D)) -> u_i (sqlite3VdbeSerialGet (F ++ D) t mem0) = vdbeRecordDecodeInt t (F ++ D) ->
     -1 <= int <= 1 /\ (int ?= 0) = vcompare (k_enc k) (coll k i) (VInt (vdbeRecordDecodeInt t (F ++ D))) w) ->
  FieldResult malloc k i t v pRhs err (Some (by_type (rd aKey idx) real int, rd aKey idx, err)).
Proof.
  intros EV HW Hreal Hint. pose proof raw_type as HB. pose proof raw_large as HL. unfold by_type.
  assert (HM : 12 <= t -> 12 <= rd aKey idx /\ vcompare (k_enc k) (coll k i) v w = Gt -> FieldResult malloc k i t v pRhs err
    (Some (if 10 <=? rd aKey idx then if rd aKey idx =? 10 then -1 else 1 else if rd aKey idx =? 0 then -1 else if rd aKey idx =? 7 then real else int, rd aKey idx, err))).
  { intros T (HL' & HG). rewrite (proj2 (Z.leb_le 10 _)), (proj2 (Z.eqb_neq (rd aKey idx) 10)) by lia. apply compared_as; [lia|right; lia|]. now rewrite EV, HG. }
  destruct view as (w0 & Ev & HF). destruct HF as [T|T T7 I1 I2|T U N|T _|T _].
  - rewrite T in HB. cbv [Z.ltb Z.compare Pos.compare Pos.compare_cont] in HB. rewrite HB. change (10 <=? 0) with false; cbn [Z.eqb]. apply compared_as; [lia|left; lia|]. rewrite EV, Ev. unfold vcompare. rewrite HW. reflexivity.
  - rewrite (proj2 (Z.ltb_lt t 128)) in HB by lia. rewrite HB in *. destruct (Hint eq_refl I1 I2) as [J1 J2]. rewrite (proj2 (Z.leb_gt 10 t)), (proj2 (Z.eqb_neq t 0)), (proj2 (Z.eqb_neq t 7)) by lia. apply compared_as; [lia|left; lia|]. now rewrite EV, Ev.
  - destruct (Hreal T N U) as [J1 J2]. rewrite T in HB. cbv [Z.ltb Z.compare Pos.compare Pos.compare_cont] in HB. rewrite HB. change (10 <=? 7) with false; cbn [Z.eqb Pos.eqb]. apply compared_as; [lia|left; lia|]. now rewrite EV, Ev.
  - apply HM; [exact T|]. split; [auto|]. rewrite Ev. unfold vcompare. rewrite HW. reflexivity.
  - apply HM; [exact T|]. split; [auto|]. rewrite Ev. unfold vcompare. rewrite HW. reflexivity.
Qed.

Lemma field_int : has pRhs (Z.lor MEM_Int MEM_IntReal) = true -> value_of pRhs = VInt (u_i pRhs) -> FieldResult malloc k i t v pRhs err (field_compare malloc nKey aKey k i idx d pRhs err).
Proof.
  intros E EV. pose proof (ok_int _ (ck_mem _ HC)) as HI. unfold field_compare. rewrite E, ED. cbv zeta. apply (by_type_result _ _ _ EV eq_refl).
  - intros _ N U. cbn [serialGet7 fst]. destruct (int_float_compare (u_i pRhs) _ HI U N) as [C1 C2]. split; [lia|]. rewrite sgn_opp, C1. symmetry. exact (ext_antisym (exact_int (u_i pRhs)) (exact (double_of_bits (EIGHT_BYTES (F ++ D))))).
  - intros -> I1 _. destruct (int_compare_exact (vdbeRecordDecodeInt t (F ++ D)) (u_i pRhs)) as [C1 C2]. split; [exact C2|exact C1].
Qed.

Lemma field_real : has pRhs (Z.lor MEM_Int MEM_IntReal) = false -> has pRhs MEM_Real = true -> IsNaN (u_r pRhs) = false -> value_of pRhs = VReal (u_r pRhs) ->
  FieldResult malloc k i t v pRhs err (field_compare malloc nKey aKey k i idx d pRhs err).
Proof.
  intros E1 E2 N' EV. pose proof (ok_real _ (ck_mem _ HC)) as HI. unfold field_compare. rewrite E1, E2, ED. cbv zeta. apply (by_type_result _ _ _ EV eq_refl).
  - intros _ N U. unfold serialGet7. rewrite N. pose proof (double_compare_exact _ _ U HI N N') as C. split; [|exact C]. destruct (double_lt _ _); [lia|]. destruct (double_lt _ _); lia.
  - intros -> I1 ->. destruct (int_float_compare _ _ I1 HI N') as [C1 C2]. split; [exact C2|exact C1].
Qed.

Lemma field_null : rank (value_of pRhs) = 0 -> has pRhs (Z.lor MEM_Int MEM_IntReal) = false -> has pRhs MEM_Real = false -> has pRhs Record.MEM_Str = false -> has pRhs MEM_Blob = false ->
  FieldResult malloc k i t v pRhs err (field_compare malloc nKey aKey k i idx d pRhs err).
Proof.
  intros EV E1 E2 E3 E4. unfold field_compare. rewrite E1, E2, E3, E4, ED. cbv zeta. pose proof raw_type as HB. pose proof raw_large as HL.
  assert (HV : forall u, rank u = 0 -> vcompare (k_enc k) (coll k i) VNull u = Eq) by (intros [| | | | |]; (discriminate || reflexivity)).
  assert (HG : forall u w, rank u = 0 -> rank w <> 0 -> vcompare (k_enc k) (coll k i) w u = Gt) by (intros [| | | | |]; try discriminate; intros [| | | | |] _ Hn; try reflexivity; cbn in Hn; congruence).
  destruct view as (w0 & Ev & HF). destruct HF as [T|T T7 I1 I2|T U N|T _|T _].
  - rewrite T in HB. cbv [Z.ltb Z.compare Pos.compare Pos.compare_cont] in HB. rewrite HB. cbn [Z.eqb orb]. apply compared_as; [lia|left; lia|]. now rewrite Ev, HV.
  - rewrite (proj2 (Z.ltb_lt t 128)) in HB by lia. rewrite HB. rewrite (proj2 (Z.eqb_neq t 0)), (proj2 (Z.eqb_neq t 10)), (proj2 (Z.eqb_neq t 7)) by lia. cbn [orb andb]. apply compared_as; [lia|left; lia|]. rewrite Ev, HG; [reflexivity|exact EV|discriminate].
  - rewrite T in HB. cbv [Z.ltb Z.compare Pos.compare Pos.compare_cont] in HB. rewrite HB. cbn [Z.eqb Pos.eqb orb andb serialGet7 snd]. unfold serialGet7. cbn [snd]. rewrite N. apply compared_as; [lia|left; lia|]. rewrite Ev, HG; [reflexivity|exact EV|discriminate].
  - specialize (HL T). rewrite (proj2 (Z.eqb_neq _ 0)), (proj2 (Z.eqb_neq _ 10)), (proj2 (Z.eqb_neq _ 7)) by lia. cbn [orb andb]. apply compared_as; [lia|right; lia|]. rewrite Ev, HG; [reflexivity|exact EV|discriminate].
  - specialize (HL T). rewrite (proj2 (Z.eqb_neq _ 0)), (proj2 (Z.eqb_neq _ 10)), (proj2 (Z.eqb_neq _ 7)) by lia. cbn [orb andb]. apply compared_as; [lia|right; lia|]. rewrite Ev, HG; [reflexivity|exact EV|discriminate].
Qed.

Lemma data_length : 12 <= t -> (t - 12) / 2 = lenz F /\ u32 (d + lenz F) = d + lenz F /\ 0 <= lenz F.
Proof.
  intros H12. destruct HR as (_ & Hl & _). rewrite type_len in Hl by exact H12. unfold SQLITE_MAX_LENGTH in Hfit. unfold lenz in *. split; [now symmetry|]. split; [|lia]. unfold u32. rewrite Z.mod_small; lia.
Qed.

(** The bytes of the field and of the cell. *)
Lemma data_compare : 12 <= t ->
  let rc := memcmp (at_ d aKey) (z pRhs) (Z.to_nat (Z.min (lenz F) (n pRhs))) in
  let r := if rc =? 0 then lenz F - n pRhs else rc in
  (r ?= 0) = lex F (content pRhs) /\ - 2 ^ 31 < r < 2 ^ 31.
Proof.
  intros H12. destruct (data_length H12) as (_ & _ & L0). pose proof (bytes_content _ (ck_mem _ HC)) as HB. pose proof (length_content _ (ck_mem _ HC)) as HL. pose proof (ok_n _ (ck_mem _ HC)) as Hn. pose proof (ck_size _ HC) as [Hs _].
  destruct HR as (_ & _ & HF & _). cbv zeta. rewrite ED, (content_prefix pRhs), <- HL. destruct (memcmp_min F (content pRhs) D (skipn (Z.to_nat (n pRhs)) (z pRhs)) HF HB) as [H1 H2]. cbv zeta in H1, H2.
  rewrite <- HL in H1, H2. split; [exact H1|]. unfold SQLITE_MAX_LENGTH in *. destruct (_ =? 0); lia.
Qed.

Lemma field_text : has pRhs (Z.lor MEM_Int MEM_IntReal) = false -> has pRhs MEM_Real = false -> has pRhs Record.MEM_Str = true -> value_of pRhs = VText (content pRhs) ->
  FieldResult malloc k i t v pRhs err (field_compare malloc nKey aKey k i idx d pRhs err).
Proof.
  intros E1 E2 E3 EV. unfold field_compare. rewrite E1, E2, E3, full_type. cbv zeta.
  assert (HS : forall w, v = w -> rank w < 2 -> t < 12 -> FieldResult malloc k i t v pRhs err (Some (-1, t, err))).
  { intros w Ev Hw Ht. apply compared_as; [lia|left; reflexivity|]. rewrite EV, Ev. unfold vcompare. cbn [rank]. rewrite (proj2 (Z.compare_lt_iff (rank w) 2)) by exact Hw. reflexivity. }
  destruct view as (w & Ev & HF). destruct HF as [T|T T7 I1 I2|T U N|T B|T B].
  - rewrite (proj2 (Z.ltb_lt t 12)) by lia. apply (HS _ Ev); cbn; lia.
  - rewrite (proj2 (Z.ltb_lt t 12)) by lia. apply (HS _ Ev); cbn; lia.
  - rewrite (proj2 (Z.ltb_lt t 12)) by lia. apply (HS _ Ev); cbn; lia.
  - rewrite (proj2 (Z.ltb_ge t 12)), B by lia. cbn [Z.eqb]. destruct (data_length T) as (-> & L1 & L2). rewrite L1, (proj2 (Z.ltb_ge nKey _)), (proj2 (Z.leb_gt (nAllField k) _)) by lia. cbn [orb].
    destruct (coll k i) as [c|] eqn:Ec.
    + replace (firstn (Z.to_nat (lenz F)) (at_ d aKey)) with F by (rewrite ED; unfold lenz; rewrite Nat2Z.id, firstn_app, Nat.sub_diag, firstn_O, app_nil_r, firstn_all; reflexivity).
      rewrite compare_string. destruct (_ || _) eqn:Em.
      * destruct (translated_ok (k_enc k) (coll_enc c) F ltac:(apply HR)) as [A1 A2]. destruct (translated_ok (k_enc k) (coll_enc c) _ (bytes_content _ (ck_mem _ HC))) as [A3 A4]. unfold SQLITE_MAX_LENGTH in *.
        apply compared_as; [apply (@collation_int c Hcoll); (assumption || lia)|left; reflexivity|]. rewrite EV, Ev, Ec. reflexivity.
      * apply orb_false_iff in Em as [_ Em]. exists 0, t, SQLITE_NOMEM. split; [reflexivity|]. split; [lia|]. split; [reflexivity|]. split; [reflexivity|]. right. split; [reflexivity|]. split; [reflexivity|].
        apply andb_false_iff in Em as [Em|Em]; eauto.
    + destruct (data_compare T) as [J1 J2]. apply compared_as; [exact J2|left; reflexivity|]. rewrite EV, Ev, Ec. exact J1.
  - rewrite (proj2 (Z.ltb_ge t 12)), B by lia. cbn [Z.eqb]. apply compared_as; [lia|left; reflexivity|]. rewrite EV, Ev. reflexivity.
Qed.

Lemma field_blob : has pRhs (Z.lor MEM_Int MEM_IntReal) = false -> has pRhs MEM_Real = false -> has pRhs Record.MEM_Str = false -> has pRhs MEM_Blob = true -> value_of pRhs = VBlob (blob_bytes pRhs) ->
  FieldResult malloc k i t v pRhs err (field_compare malloc nKey aKey k i idx d pRhs err).
Proof.
  intros E1 E2 E3 E4 EV. unfold field_compare. rewrite E1, E2, E3, E4, full_type. cbv zeta.
  assert (HS : forall w, v = w -> rank w < 3 -> FieldResult malloc k i t v pRhs err (Some (-1, t, err))).
  { intros w Ev Hw. apply compared_as; [lia|left; reflexivity|]. rewrite EV, Ev. unfold vcompare. cbn [rank]. rewrite (proj2 (Z.compare_lt_iff (rank w) 3)) by exact Hw. reflexivity. }
  destruct view as (w & Ev & HF). destruct HF as [T|T T7 I1 I2|T U N|T B|T B].
  - rewrite (proj2 (Z.ltb_lt t 12)) by lia. apply (HS _ Ev); cbn; lia.
  - rewrite (proj2 (Z.ltb_lt t 12)) by lia. apply (HS _ Ev); cbn; lia.
  - rewrite (proj2 (Z.ltb_lt t 12)) by lia. apply (HS _ Ev); cbn; lia.
  - rewrite (proj2 (Z.ltb_ge t 12)), B by lia. cbn [Z.eqb negb orb]. apply (HS _ Ev); cbn; lia.
  - rewrite (proj2 (Z.ltb_ge t 12)), B by lia. cbn [Z.eqb negb orb]. destruct (data_length T) as (-> & L1 & L2). rewrite L1, (proj2 (Z.ltb_ge nKey _)) by lia.
    unfold blob_bytes in EV. destruct (has pRhs MEM_Zero).
    + assert (EA : isAllZero (at_ d aKey) (lenz F) = forallb (fun x => x =? 0) F) by (unfold isAllZero; rewrite ED; unfold lenz; rewrite Nat2Z.id, firstn_app, Nat.sub_diag, firstn_O, app_nil_r, firstn_all; reflexivity).
      pose proof (ok_zero _ (ck_mem _ HC)) as Hz. pose proof (ck_size _ HC) as [_ Hs]. unfold SQLITE_MAX_LENGTH in *.
      assert (EL : lex F (repeat 0 (Z.to_nat (nZero pRhs))) = if forallb (fun x => x =? 0) F then lenz F ?= nZero pRhs else Gt).
      { rewrite lex_antisym, lex_zeros, Z2Nat.id by (lia || apply HR). destruct (forallb _ F); [symmetry; apply Z.compare_antisym|reflexivity]. }
      rewrite EA. apply compared_as; [destruct (forallb _ F); cbn [negb]; lia|left; reflexivity|]. rewrite EV, Ev. change (vcompare _ _ _ _) with (lex F (repeat 0 (Z.to_nat (nZero pRhs)))). rewrite EL.
      destruct (forallb _ F); cbn [negb]; [apply sub_compare|reflexivity].
    + destruct (data_compare T) as [J1 J2]. apply compared_as; [exact J2|left; reflexivity|]. rewrite EV, Ev. exact J1.
Qed.

Lemma field_ok : FieldResult malloc k i t v pRhs err (field_compare malloc nKey aKey k i idx d pRhs err).
Proof.
  pose proof (cell_holds pRhs HC) as K. remember (value_of pRhs) as w eqn:Ew. destruct K as [w A1 A2 A3 A4 A5 A6|A1 A2 A3|A1 A2 A3 A4|A1 A2 A3 A4 A5|A1 A2 A3 A4 A5 A6|A1 A2 A3 A4 A5 A6]; symmetry in Ew.
  - apply field_null; auto. now rewrite Ew.
  - now apply field_int.
  - now apply field_real.
  - now apply field_text.
  - apply field_blob; auto. unfold blob_bytes. now rewrite A6.
  - apply field_blob; auto. unfold blob_bytes. now rewrite A6.
Qed.
End Field.

(** ** The loop over the fields *)

Lemma neg_opp rc : - 2 ^ 31 < rc < 2 ^ 31 -> neg rc = - rc.
Proof. intros H. unfold neg, i32. rewrite Z.mod_small; lia. Qed.
Lemma null_flag m : cell_ok m -> has m MEM_Null = is_null (value_of m).
Proof. intros C. destruct (cell_holds m C) as [v A _ _ _ _ R|A|A|A|A|A]; rewrite A; try reflexivity. now destruct v. Qed.
Lemma is_null_rank v : is_null v = (rank v =? 0).
Proof. now destruct v. Qed.

Lemma apply_sort_ok s t v m rc : 0 <= s < 4 -> cell_ok m -> - 2 ^ 31 < rc < 2 ^ 31 -> (t =? 0) = is_null v ->
  (apply_sort_flags s t m rc ?= 0) = sorted s v (value_of m) (rc ?= 0).
Proof.
  intros Hs C Hrc Ht. unfold apply_sort_flags, sorted. rewrite Ht, (null_flag m C). generalize (is_null v || is_null (value_of m)). intros nulls.
  assert (EB : negb (s =? 0) && ((Z.land s KEYINFO_ORDER_BIGNULL =? 0) || negb (Z.land s KEYINFO_ORDER_DESC =? Z.b2z nulls)) =
    xorb (negb (Z.land s KEYINFO_ORDER_DESC =? 0)) (negb (Z.land s KEYINFO_ORDER_BIGNULL =? 0) && nulls)).
  { assert (Hcase : s = 0 \/ s = 1 \/ s = 2 \/ s = 3) by lia. destruct Hcase as [-> |[-> |[-> | ->]]]; destruct nulls; reflexivity. }
  rewrite EB. destruct (xorb _ _); [|reflexivity]. rewrite neg_opp by exact Hrc. apply sgn_opp.
Qed.
Lemma apply_sort_nonzero s t m rc : - 2 ^ 31 < rc < 2 ^ 31 -> rc <> 0 -> apply_sort_flags s t m rc <> 0.
Proof. intros H H0. unfold apply_sort_flags. destruct (_ && _); rewrite ?neg_opp by exact H; lia. Qed.

Lemma key_same p : set_errCode (errCode p) p = p.
Proof. destruct p; reflexivity. Qed.

(** The outcome of a comparison.  A record with fewer fields than the key, equal so
    far, is taken for a corrupt one. *)
Definition Outcome (p : UnpackedRecord) (short : bool) (c : comparison) (r : Z * UnpackedRecord) : Prop :=
  match c with Eq => if short then r = (0, set_errCode SQLITE_CORRUPT p) else r = (default_rc p, set_eqSeen p) | _ => (fst r ?= 0) = c /\ snd r = p end.
Definition Exhausted (malloc : list Z -> bool) (short : bool) (r : Z * UnpackedRecord) : Prop :=
  (exists s, malloc s = false) /\ (errCode (snd r) = SQLITE_NOMEM \/ (short = true /\ errCode (snd r) = SQLITE_CORRUPT)).

Record cells_ok (k : KeyInfo) (i : nat) (rhs : list Mem) : Prop := {
  cl_cells : Forall cell_ok rhs;
  cl_sizes : Forall (fun m => lenz (content m) <= SQLITE_MAX_LENGTH) rhs;
  cl_fields : Z.of_nat (i + length rhs) <= nAllField k }.
Record keyinfo_ok (k : KeyInfo) : Prop := { ki_coll : forall i, coll_ok (coll k i); ki_flags : forall i, 0 <= sort_flags k i < 4 }.

(** The types of the fields [l] are those of their values [vs]. *)
Definition types_ok (l : list (Mem * Z)) (vs : list value) : Prop := Forall2 (fun f v => type_ok (snd f) v) l vs.

Lemma header_pos m t l : 0 <= t < 2 ^ 32 -> lenz (headers ((m, t) :: l)) = sqlite3VarintLen t + lenz (headers l) /\ 1 <= sqlite3VarintLen t /\ 0 <= lenz (headers l).
Proof.
  intros Ht. destruct (header_bytes_ok t Ht) as (H1 & H2 & _). change (headers ((m, t) :: l)) with (header_bytes t ++ headers l). rewrite lenz_app, H1. repeat split; try lia. unfold lenz. lia.
Qed.

Section Loop.
Variables (malloc : list Z -> bool) (nKey : Z) (aKey : list Z) (szHdr : Z) (k : KeyInfo).
Hypothesis Hk : keyinfo_ok k.
Hypothesis Hmax : nKey <= SQLITE_MAX_LENGTH.
Hypothesis Hhdr : szHdr <= nKey.

Lemma compare_loop_ok rhs : forall l Fs vs i idx d H p, Encoded l Fs vs -> types_ok l vs -> pKeyInfo p = k -> rhs <> [] -> l <> [] -> cells_ok k i rhs ->
  0 <= idx -> 0 <= d -> bytes (headers l ++ H) -> at_ idx aKey = headers l ++ H -> at_ d aKey = concat Fs -> szHdr = idx + lenz (headers l) -> nKey = d + lenz (concat Fs) ->
  let short := (length l <? length rhs)%nat in
  let r := compare_loop malloc nKey aKey szHdr p rhs i idx d in
  Outcome p short (key_compare k i vs (map value_of rhs)) r \/ Exhausted malloc short r.
Proof.
  induction rhs as [|pRhs rest IH]; intros l Fs vs i idx d H p HE HT Hp Hne Hl HC Hidx Hd HB EH ED Es En; [contradiction|]. destruct HE as [|m t F v l Fs vs HR HE]; [contradiction|].
  inversion HT as [|? ? ? ? T1 T2]; subst; cbn [snd] in T1. destruct HC as [C1 C2 C3]. apply Forall_cons_iff in C1 as [C1 C1'], C2 as [C2 C2']. cbn [length] in C3.
  destruct (header_pos m t l (proj1 HR)) as (L1 & L2 & L3). rewrite L1 in Hhdr. change (headers ((m, t) :: l)) with (header_bytes t ++ headers l) in EH, HB. cbn [concat] in ED, Hmax, Hhdr |- *. rewrite lenz_app in *. rewrite <- app_assoc in EH, HB. apply bytes_app in HB as [_ HB].
  pose proof (proj1 (proj2 HR)) as HF. fold (lenz F) in HF. assert (HF0 : 0 <= lenz F /\ 0 <= lenz (concat Fs)) by (unfold lenz; lia). unfold SQLITE_MAX_LENGTH in Hmax.
  pose proof (field_ok malloc (d + (lenz F + lenz (concat Fs))) aKey (pKeyInfo p) i idx d pRhs (errCode p) t F v (headers l ++ H) (concat Fs) HR T1 HB Hidx Hd EH ED ltac:(unfold SQLITE_MAX_LENGTH; lia) C1 C2 ltac:(lia) (ki_coll _ Hk i)) as HFR.
  destruct HFR as (rc & t' & e & EF & Hrc & Et & E0 & HRes). cbn [compare_loop]. rewrite L1, EF. cbv zeta. cbn [map key_compare].
  destruct (Z.eqb_spec rc 0) as [Ez|Ez]; cbn [negb].
  - specialize (E0 Ez). subst rc t'. assert (HP : exists p', set_errCode e p = p' /\ pKeyInfo p' = pKeyInfo p /\ ((p' = p /\ vcompare (k_enc (pKeyInfo p)) (coll (pKeyInfo p) i) v (value_of pRhs) = Eq) \/ no_memory malloc (errCode p'))).
    { exists (set_errCode e p). split; [reflexivity|]. split; [reflexivity|]. destruct HRes as [[-> HV]|[_ HN]]; [left; rewrite key_same; auto|right; exact HN]. }
    destruct HP as (p' & -> & Hp' & HP). assert (HS : forall vs' ws', p' = p /\ vcompare (k_enc (pKeyInfo p)) (coll (pKeyInfo p) i) v (value_of pRhs) = Eq ->
      then_ (sorted (sort_flags (pKeyInfo p) i) v (value_of pRhs) (vcompare (k_enc (pKeyInfo p)) (coll (pKeyInfo p) i) v (value_of pRhs))) (key_compare (pKeyInfo p) (S i) vs' ws') = key_compare (pKeyInfo p) (S i) vs' ws').
    { intros vs' ws' [_ ->]. unfold sorted. destruct (xorb _ _); reflexivity. }
    destruct rest as [|pRhs' rest].
    + destruct HP as [HP|HN]; [left; rewrite (HS _ _ HP); destruct HP as [-> _]; now destruct vs|right]. destruct HN as [HN1 HN2]. split; [exact HN2|left; exact HN1].
    + set (rest' := pRhs' :: rest) in *. rewrite <- HF. unfold u32. rewrite (Z.mod_small (d + lenz F)), (Z.mod_small (idx + _)) by lia. rewrite (proj2 (Z.ltb_ge _ (d + lenz F))) by lia.
      destruct l as [|[m2 t2] l2].
      * inversion HE; subst. change (lenz (headers [])) with 0. rewrite (proj2 (Z.leb_le _ (idx + sqlite3VarintLen t))) by lia. cbn [key_compare]. destruct HP as [HP|[HN1 HN2]].
        -- left. destruct HP as [-> HV]. rewrite HV. unfold sorted. destruct (xorb _ _); reflexivity.
        -- right. split; [exact HN2|right; split; reflexivity].
      * set (l := (m2, t2) :: l2) in *. assert (L4 : 1 <= lenz (headers l)) by (inversion HE as [|? ? ? ? ? ? ? R2 E2]; subst; destruct (header_pos m2 t2 l2 (proj1 R2)); unfold l; lia).
        rewrite (proj2 (Z.leb_gt _ (idx + sqlite3VarintLen t))) by lia. change (length ((m, t) :: l) <? length (pRhs :: rest'))%nat with (length l <? length rest')%nat.
        assert (G1 : at_ (idx + sqlite3VarintLen t) aKey = headers l ++ H) by (rewrite at_add, EH by lia; destruct (header_bytes_ok t (proj1 HR)) as [<- _]; apply skipn_lenz).
        assert (G2 : at_ (d + lenz F) aKey = concat Fs) by (rewrite at_add, ED by lia; apply skipn_lenz).
        pose proof (IH l Fs vs (S i) (idx + sqlite3VarintLen t) (d + lenz F) H p' HE T2 Hp' ltac:(discriminate) ltac:(discriminate)) as K.
        assert (LC : lenz (concat (F :: Fs)) = lenz F + lenz (concat Fs)) by (apply lenz_app). rewrite LC, L1 in K.
        specialize (K (Build_cells_ok (pKeyInfo p) (S i) rest' C1' C2' ltac:(lia)) ltac:(lia) ltac:(lia) HB G1 G2 ltac:(lia) ltac:(lia)).
        cbv zeta in K. destruct HP as [HP|[HN1 HN2]]; [rewrite (HS _ _ HP); destruct HP as [-> _]; exact K|right].
        destruct K as [K|K]; [|exact K]. split; [exact HN2|]. unfold Outcome in K. destruct (key_compare _ _ _ _); [|destruct K as [_ ->]; now left|destruct K as [_ ->]; now left].
        destruct (length l <? length rest')%nat; rewrite K; [right; split; reflexivity|left; exact HN1].
  - left. destruct HRes as [[-> HV]|[? _]]; [|contradiction]. rewrite key_same. rewrite <- HV. destruct T1 as [T1 _]. rewrite T1 in Et. pose proof (apply_sort_ok _ t' v pRhs rc (ki_flags _ Hk i) C1 Hrc Et) as HA.
    pose proof (apply_sort_nonzero (sort_flags (pKeyInfo p) i) t' pRhs rc Hrc Ez) as HN. rewrite <- HA. destruct (Z.compare_spec (apply_sort_flags (sort_flags (pKeyInfo p) i) t' pRhs rc) 0); [contradiction| |];
      (split; [cbn [fst]|reflexivity]); [now apply Z.compare_lt_iff|now apply Z.compare_gt_iff].
Qed.
End Loop.

(** ** Records that the opcode made *)

Lemma reads_type t F v : Reads t F v -> is_null v = false -> type_ok t v.
Proof.
  intros (Ht & _ & _ & HV) Hn. specialize (HV [] mem0). split; [|split]; [rewrite Hn; apply Z.eqb_neq|..]; intros ->; cbn in HV; rewrite <- HV in Hn; discriminate Hn.
Qed.
Lemma plain_null ff malloc m m' t s s' : plain m -> size_field ff malloc m s = Some (m', t, s') -> is_null (value_of m) = true -> t = 0 /\ value_of m = VNull.
Proof.
  intros [P1 P2] E Hn. unfold size_field, size_bytes in E. unfold value_of in *. destruct (has m MEM_Null); [rewrite (P1 eq_refl) in *; injection E as _ <- _; auto|].
  destruct (has m (Z.lor MEM_Int MEM_IntReal)); [destruct (_ && _) in Hn; discriminate Hn|]. destruct (has m MEM_Real); [rewrite P2 in Hn by reflexivity; discriminate Hn|].
  destruct (has m Record.MEM_Str); discriminate Hn.
Qed.
Lemma made_types ff malloc fields : forall l s Fs, Forall plain fields -> size_fields ff malloc fields = Some (l, s) -> Encoded l Fs (map value_of fields) -> types_ok l (map value_of fields) /\ length l = length fields.
Proof.
  induction fields as [|m fields IH]; intros l s Fs HP E HE; cbn [size_fields] in E; [injection E as <- _; split; [constructor|reflexivity]|]. apply Forall_cons_iff in HP as [Hm HP].
  destruct (size_fields ff malloc fields) as [[l0 s0]|]; [|discriminate]. cbn [fst snd] in E. destruct (size_field ff malloc m s0) as [[[m' t] s']|] eqn:Ef; [|discriminate]. injection E as <- _.
  cbn [map] in *. inversion HE as [|? ? F ? ? Fs' ? HR HE']; subst. destruct (IH l0 s0 Fs' HP eq_refl HE') as [H1 H2]. split; [constructor; [|exact H1]|cbn [length]; now rewrite H2]. cbn [snd].
  destruct (is_null (value_of m)) eqn:En; [|exact (reads_type t F _ HR En)]. destruct (plain_null _ _ _ _ _ _ _ Hm Ef En) as [-> ->]. split; [reflexivity|lia].
Qed.

(** A record made of plain registers, and keys that it is compared with. *)
Record record_ok (a : list Z) (vs : list value) (l : list (Mem * Z)) (Fs : list (list Z)) (h : Z) : Prop := {
  rk_layout : Layout a l Fs vs h; rk_types : types_ok l vs; rk_size : lenz a <= SQLITE_MAX_LENGTH; rk_fields : l <> [] }.
Record key_ok (p : UnpackedRecord) : Prop := { kk_info : keyinfo_ok (pKeyInfo p); kk_cells : cells_ok (pKeyInfo p) 0 (aMem p); kk_some : aMem p <> [] }.

Lemma record_bounds a vs l Fs h : record_ok a vs l Fs h -> 0 <= h < 2 ^ 32 /\ 1 <= lenz (header_bytes h) <= 5 /\ h <= lenz a /\ length l = length vs.
Proof.
  intros [HL HT HS HF]. pose proof (lay_header _ _ _ _ _ HL) as Hh. pose proof (lay_bytes _ _ _ _ _ HL) as E. assert (El : lenz a = lenz (header_bytes h) + (lenz (headers l) + lenz (concat Fs))) by (rewrite E, !lenz_app; reflexivity).
  assert (H0 : 0 <= lenz (header_bytes h) /\ 0 <= lenz (headers l) /\ 0 <= lenz (concat Fs)) by (unfold lenz; lia). unfold SQLITE_MAX_LENGTH in HS.
  assert (Hb : 0 <= h < 2 ^ 32) by lia. destruct (header_bytes_ok h Hb) as (V1 & V2 & _). split; [exact Hb|]. split; [|split; [lia|exact (Forall2_length HT)]].
  rewrite V1, varintlen_cases by exact Hb. repeat (destruct (_ <? _)); lia.
Qed.

(** The comparison from the first field on. *)
Lemma compare_ok malloc a vs l Fs h p : record_ok a vs l Fs h -> key_ok p ->
  let short := (length vs <? length (aMem p))%nat in
  let r := sqlite3VdbeRecordCompare malloc (lenz a) a p in
  Outcome p short (key_compare (pKeyInfo p) 0 vs (map value_of (aMem p))) r \/ Exhausted malloc short r.
Proof.
  intros HR [KI KC KS]. destruct (record_bounds _ _ _ _ _ HR) as (Hb & Hv & Hh & Hl). destruct HR as [HL HT HS HF]. destruct (layout_bytes _ _ _ _ _ HL Hb) as (B1 & B2 & B3 & B4 & B5).
  pose proof (lay_header _ _ _ _ _ HL) as Eh. unfold sqlite3VdbeRecordCompare, sqlite3VdbeRecordCompareWithSkip. change (if rd a 0 <? 128 then (rd a 0, 1) else sqlite3GetVarint32 a) with (getVarint32 a). rewrite B3.
  rewrite (proj2 (Z.ltb_ge (lenz a) h)) by lia. rewrite <- Hl.
  apply (compare_loop_ok malloc (lenz a) a h (pKeyInfo p) KI HS Hh (aMem p) l Fs vs 0 (lenz (header_bytes h)) h (concat Fs) p (lay_fields _ _ _ _ _ HL) HT eq_refl KS HF KC); try assumption; try lia.
  apply bytes_app. apply (encoded_bytes _ _ _ (lay_fields _ _ _ _ _ HL)).
Qed.

(** ** The fast paths *)

Lemma headers_length l Fs vs : Encoded l Fs vs -> lenz (headers l) <= 5 * Z.of_nat (length l).
Proof.
  induction 1 as [|m t F v l Fs vs HR HE IH]; [reflexivity|]. destruct (header_pos m t l (proj1 HR)) as (-> & _ & _). cbn [length]. assert (sqlite3VarintLen t <= 5); [|lia].
  rewrite varintlen_cases by apply HR. repeat (destruct (_ <? _)); lia.
Qed.

Section Fast.
Variables (malloc : list Z -> bool) (a : list Z) (m : Mem) (t : Z) (F : list Z) (v : value) (l : list (Mem * Z)) (Fs : list (list Z)) (vs : list value) (h : Z) (p : UnpackedRecord) (m0 : Mem) (rest : list Mem).
Hypothesis HR : record_ok a (v :: vs) ((m, t) :: l) (F :: Fs) h.
Hypothesis Hh : h < 128.
Hypothesis HK : key_ok p.
Hypothesis Hp : aMem p = m0 :: rest.
Hypothesis Hlong : (length rest <= length vs)%nat.

Lemma fast_field : Reads t F v /\ type_ok t v /\ Encoded l Fs vs /\ types_ok l vs.
Proof.
  destruct HR as [[HE _ _] HT _ _]. inversion HE; subst. inversion HT; subst. auto.
Qed.
Lemma fast_layout : rd a 0 = h /\ at_ 1 a = header_bytes t ++ headers l ++ F ++ concat Fs /\ at_ h a = F ++ concat Fs /\ h = 1 + sqlite3VarintLen t + lenz (headers l) /\
  lenz a = h + lenz F + lenz (concat Fs) /\ bytes (headers l ++ F ++ concat Fs) /\ 0 <= h /\ lenz F = sqlite3VdbeSerialTypeLen t.
Proof.
  destruct fast_field as (R & _ & E & _). destruct (record_bounds _ _ _ _ _ HR) as (Hb & _ & _ & _). pose proof (rk_layout _ _ _ _ _ HR) as HL. destruct (layout_bytes _ _ _ _ _ HL Hb) as (B1 & B2 & _ & B4 & B5).
  pose proof (lay_header _ _ _ _ _ HL) as Eh. pose proof (lay_bytes _ _ _ _ _ HL) as Ea. assert (E1 : header_bytes h = [h]) by (unfold header_bytes; now rewrite (proj2 (Z.ltb_lt h 128) Hh)). rewrite E1 in Eh, Ea, B4.
  destruct (header_pos m t l (proj1 R)) as (L1 & _). change (headers ((m, t) :: l)) with (header_bytes t ++ headers l) in B4. cbn [concat] in *. rewrite <- app_assoc in B4. rewrite lenz_app in B2. change (lenz [h]) with 1 in *.
  split; [rewrite Ea; reflexivity|]. split; [exact B4|]. split; [exact B5|]. split; [lia|]. split; [lia|]. split; [|split; [lia|exact (proj1 (proj2 R))]].
  destruct (encoded_bytes _ _ _ E). apply bytes_app. split; [assumption|]. apply bytes_app. split; [apply R|assumption].
Qed.
Lemma fast_type : getVarint32 (at_ 1 a) = (t, sqlite3VarintLen t).
Proof. destruct fast_field as (R & _). destruct fast_layout as (_ & E & _ & _ & _ & B & _). rewrite E. destruct (header_bytes_ok t (proj1 R)) as (_ & _ & _ & HG). now apply HG. Qed.

(** The comparison from the second field on. *)
Lemma skip_first_ok : rest <> [] ->
  let r := sqlite3VdbeRecordCompareWithSkip malloc (lenz a) a p true in
  Outcome p false (key_compare (pKeyInfo p) 1 vs (map value_of rest)) r \/ Exhausted malloc false r.
Proof.
  intros Hne. destruct fast_field as (R & T & E & Ts). destruct fast_layout as (L0 & L1 & L2 & L3 & L4 & L5 & L6 & L7). pose proof fast_type as HT. destruct HK as [KI KC KS]. rewrite Hp in KC.
  assert (E1 : (if rd a 1 <? 128 then (rd a 1, 2) else let (s, k) := sqlite3GetVarint32 (at_ 1 a) in (s, 1 + k)) = (t, 1 + sqlite3VarintLen t)).
  { unfold getVarint32 in HT. rewrite rd_at in HT by lia. destruct (rd a 1 <? 128); [injection HT as -> <-; reflexivity|now rewrite HT]. }
  unfold sqlite3VdbeRecordCompareWithSkip. cbv zeta. rewrite E1, L0, Hp, <- L7. assert (HN : 0 <= lenz F /\ 0 <= lenz (concat Fs) /\ 0 <= lenz (headers l)) by (unfold lenz; lia). pose proof (rk_size _ _ _ _ _ HR) as HS. unfold SQLITE_MAX_LENGTH in HS.
  unfold u32. rewrite Z.mod_small by lia. rewrite (proj2 (Z.ltb_ge (lenz a) _)) by lia. cbn [tl].
  assert (Hl : length l = length vs) by exact (Forall2_length Ts). replace false with (length l <? length rest)%nat by (apply Nat.ltb_ge; lia). destruct KC as [C1 C2 C3]. apply Forall_cons_iff in C1 as [_ C1], C2 as [_ C2].
  apply (compare_loop_ok malloc (lenz a) a h (pKeyInfo p) KI ltac:(unfold SQLITE_MAX_LENGTH; lia) ltac:(lia) rest l Fs vs 1 (1 + sqlite3VarintLen t) (h + lenz F) (F ++ concat Fs) p E Ts eq_refl Hne).
  - intros ->. cbn in Hl. destruct rest; [contradiction|]. cbn in Hlong. lia.
  - constructor; [exact C1|exact C2|]. cbn [length] in C3. lia.
  - destruct (header_bytes_ok t (proj1 R)) as (_ & ? & _). lia.
  - lia.
  - exact L5.
  - destruct (header_bytes_ok t (proj1 R)) as (<- & ? & _). rewrite at_add, L1 by (unfold lenz; lia). apply skipn_lenz.
  - rewrite at_add, L2 by lia. apply skipn_lenz.
  - lia.
  - lia.
Qed.

(** The first field decides, or the others do. *)
Lemma fast_compare (r : Z * UnpackedRecord) :
  let c := sorted (sort_flags (pKeyInfo p) 0) v (value_of m0) (vcompare (k_enc (pKeyInfo p)) (coll (pKeyInfo p) 0) v (value_of m0)) in
  (c <> Eq -> (fst r ?= 0) = c /\ snd r = p) ->
  (c = Eq -> r = if 1 <? nField p then sqlite3VdbeRecordCompareWithSkip malloc (lenz a) a p true else (default_rc p, set_eqSeen p)) ->
  Outcome p false (key_compare (pKeyInfo p) 0 (v :: vs) (map value_of (aMem p))) r \/ Exhausted malloc false r.
Proof.
  cbv zeta. intros H1 H2. rewrite Hp. cbn [map key_compare]. set (c := sorted _ _ _ _) in *. destruct c; cbn [then_]; [|left; apply H1; discriminate|left; apply H1; discriminate].
  rewrite (H2 eq_refl). unfold nField. rewrite Hp. assert (Hc : rest = [] \/ 1 < Z.of_nat (length (m0 :: rest)) /\ rest <> []) by (clear; destruct rest; [now left|right; cbn [length]; split; [lia|discriminate]]).
  destruct Hc as [Er|[Hl Hne]]; [left; rewrite Er; now destruct vs|]. rewrite (proj2 (Z.ltb_lt 1 _) Hl). exact (skip_first_ok Hne).
Qed.

(** The results for the order of the first column. *)
Hypothesis Hsort : (sort_flags (pKeyInfo p) 0 = 0 /\ r1 p = -1 /\ r2 p = 1) \/ (sort_flags (pKeyInfo p) 0 = 1 /\ r1 p = 1 /\ r2 p = -1).

Lemma fast_decide (r : Z * UnpackedRecord) :
  let c := vcompare (k_enc (pKeyInfo p)) (coll (pKeyInfo p) 0) v (value_of m0) in
  (c = Lt -> r = (r1 p, p)) -> (c = Gt -> r = (r2 p, p)) ->
  (c = Eq -> r = if 1 <? nField p then sqlite3VdbeRecordCompareWithSkip malloc (lenz a) a p true else (default_rc p, set_eqSeen p)) ->
  Outcome p false (key_compare (pKeyInfo p) 0 (v :: vs) (map value_of (aMem p))) r \/ Exhausted malloc false r.
Proof.
  cbv zeta. intros HL HG HE. destruct Hsort as [(S0 & S1 & S2)|(S0 & S1 & S2)]; apply fast_compare; rewrite S0; unfold sorted; (change (xorb _ _) with false || change (xorb _ _) with true);
    destruct (vcompare _ _ _ _); cbn [CompOpp]; try exact HE; try (intros; congruence); intros _; rewrite ?(HL eq_refl), ?(HG eq_refl); cbn [fst snd]; rewrite ?S1, ?S2; split; reflexivity.
Qed.

Lemma int_ok : h <= 63 -> value_of m0 = VInt (u_i_ p) ->
  let r := vdbeRecordCompareInt malloc (lenz a) a p in
  Outcome p false (key_compare (pKeyInfo p) 0 (v :: vs) (map value_of (aMem p))) r \/ Exhausted malloc false r.
Proof.
  intros H63 EV. destruct fast_field as (R & T & _). destruct fast_layout as (L0 & L1 & L2 & L3 & L4 & L5 & L6 & L7). assert (Hraw : if t <? 128 then rd a 1 = t else 128 <= rd a 1).
  { rewrite <- rd_at, L1 by lia. apply first_byte; [apply R|exact L5]. }
  assert (Hint : 1 <= t <= 9 /\ t <> 7 \/ ~ (1 <= rd a 1 <= 9 /\ rd a 1 <> 7)) by (destruct (Z.ltb_spec t 128); lia). cbv zeta.
  destruct Hint as [[H9 H7]|Hn].
  - assert (Er : vdbeRecordCompareInt malloc (lenz a) a p = let lhs := vdbeRecordDecodeInt t (at_ h a) in if lhs <? u_i_ p then (r1 p, p) else if u_i_ p <? lhs then (r2 p, p)
        else if 1 <? nField p then sqlite3VdbeRecordCompareWithSkip malloc (lenz a) a p true else (default_rc p, set_eqSeen p)).
    { rewrite (proj2 (Z.ltb_lt t 128)) in Hraw by lia. unfold vdbeRecordCompareInt. rewrite Hraw, L0. replace (Z.land h 63) with h by (change 63 with (2 ^ 6 - 1); rewrite land_low, Z.mod_small by lia; reflexivity).
      assert (Hcase : t = 1 \/ t = 2 \/ t = 3 \/ t = 4 \/ t = 5 \/ t = 6 \/ t = 8 \/ t = 9) by lia. clear - Hcase. destruct Hcase as [-> |[-> |[-> |[-> |[-> |[-> |[-> | ->]]]]]]]; unfold vdbeRecordDecodeInt; cbn [Z.eqb Pos.eqb orb]; try reflexivity. }
    rewrite Er, L2. cbv zeta. destruct (view t F v (concat Fs) R T) as (w & Ev & HF). destruct HF as [T0|_ _ I1 _|T7 _ _|T12 _|T12 _]; try lia.
    destruct (int_compare_exact (vdbeRecordDecodeInt t (F ++ concat Fs)) (u_i_ p)) as [HC _].
    assert (EC : vcompare (k_enc (pKeyInfo p)) (coll (pKeyInfo p) 0) v (value_of m0) = (int_compare (vdbeRecordDecodeInt t (F ++ concat Fs)) (u_i_ p) ?= 0)) by (rewrite Ev, EV; symmetry; exact HC).
    apply fast_decide; rewrite EC; unfold int_compare; destruct (_ <? u_i_ p); intros Hc; try discriminate Hc; try reflexivity; destruct (u_i_ p <? _); (discriminate Hc || reflexivity).
  - assert (Er : vdbeRecordCompareInt malloc (lenz a) a p = sqlite3VdbeRecordCompare malloc (lenz a) a p).
    { unfold vdbeRecordCompareInt. repeat (rewrite (proj2 (Z.eqb_neq (rd a 1) _)) by lia). reflexivity. }
    rewrite Er. pose proof (compare_ok malloc _ _ _ _ _ _ HR HK) as K. rewrite Hp in K. cbn [length] in K. rewrite (proj2 (Nat.ltb_ge (S (length vs)) _)) in K by lia. rewrite Hp. exact K.
Qed.

Lemma string_ok : coll (pKeyInfo p) 0 = None -> value_of m0 = VText (content m0) -> u_z p = z m0 -> u_n p = n m0 ->
  let r := vdbeRecordCompareString malloc (lenz a) a p in
  Outcome p false (key_compare (pKeyInfo p) 0 (v :: vs) (map value_of (aMem p))) r \/ Exhausted malloc false r.
Proof.
  intros EC EV EZ EN. destruct fast_field as (R & T & _). destruct fast_layout as (L0 & L1 & L2 & L3 & L4 & L5 & L6 & L7). pose proof fast_type as HT. cbv zeta.
  pose proof (kk_cells _ HK) as HC. rewrite Hp in HC. destruct HC as [C1 _ _]. apply Forall_cons_iff in C1 as [C1 _].
  assert (HN : 0 <= lenz F /\ 0 <= lenz (concat Fs)) by (unfold lenz; lia). pose proof (rk_size _ _ _ _ _ HR) as HS. unfold SQLITE_MAX_LENGTH in HS.
  assert (Ht : 0 <= t < 2 ^ 31).
  { pose proof (proj1 R). split; [lia|]. destruct (Z.lt_ge_cases t 12); [lia|]. rewrite type_len in L7 by lia. Z.div_mod_to_equations. lia. }
  assert (Et : (if i8 (rd a 1) <? 0 then i32 (fst (sqlite3GetVarint32 (at_ 1 a))) else i8 (rd a 1)) = t).
  { assert (Hu : is_u8 (rd a 1)) by (rewrite <- rd_at by lia; rewrite L1; apply rd_u8, bytes_app; destruct (header_bytes_ok t (proj1 R)) as (_ & _ & ? & _); auto).
    pose proof (first_byte t _ (proj1 R) L5) as HB. cbv zeta in HB. rewrite <- L1, rd_at in HB by lia. unfold getVarint32 in HT. rewrite rd_at in HT by lia. rewrite i8_sign by exact Hu. unfold is_u8 in Hu.
    destruct (Z.ltb_spec t 128).
    - rewrite HB in *. rewrite (proj2 (Z.ltb_lt t 128)), (proj2 (Z.ltb_ge t 0)) by lia. reflexivity.
    - rewrite (proj2 (Z.ltb_ge (rd a 1) 128)) in HT |- * by lia. rewrite HT, (proj2 (Z.ltb_lt _ 0)) by lia. cbn [fst]. unfold i32. rewrite Z.mod_small; lia. }
  unfold vdbeRecordCompareString. rewrite Et, L0, EZ, EN, L2. cbv zeta.
  assert (Hlt : rank v < 2 -> vcompare (k_enc (pKeyInfo p)) (coll (pKeyInfo p) 0) v (value_of m0) = Lt) by (intros Hr; unfold vcompare; rewrite EV; cbn [rank]; rewrite (proj2 (Z.compare_lt_iff (rank v) 2)) by exact Hr; reflexivity).
  destruct (view t F v (concat Fs) R T) as (w & Ev & HF). destruct HF as [T0|T9 _ _ _|T7 _ _|T12 B|T12 B].
  - rewrite (proj2 (Z.ltb_lt t 12)) by lia. apply fast_decide; rewrite Hlt by (rewrite Ev; cbn; lia); (reflexivity || discriminate).
  - rewrite (proj2 (Z.ltb_lt t 12)) by lia. apply fast_decide; rewrite Hlt by (rewrite Ev; cbn; lia); (reflexivity || discriminate).
  - rewrite (proj2 (Z.ltb_lt t 12)) by lia. apply fast_decide; rewrite Hlt by (rewrite Ev; cbn; lia); (reflexivity || discriminate).
  - rewrite (proj2 (Z.ltb_ge t 12)), B by lia. cbn [Z.eqb]. rewrite type_len in L7 by lia. rewrite <- L7, (proj2 (Z.ltb_ge (lenz a) _)) by lia.
    pose proof (bytes_content _ (ck_mem _ C1)) as HB. pose proof (length_content _ (ck_mem _ C1)) as HL. destruct (memcmp_min F (content m0) (concat Fs) (skipn (Z.to_nat (n m0)) (z m0)) ltac:(apply R) HB) as [HX _]. cbv zeta in HX.
    rewrite <- content_prefix, HL, Z.min_comm in HX. set (res := memcmp _ _ _) in *.
    assert (EX : vcompare (k_enc (pKeyInfo p)) (coll (pKeyInfo p) 0) v (value_of m0) = ((if res =? 0 then lenz F - n m0 else res) ?= 0)) by (rewrite Ev, EV, EC; symmetry; exact HX).
    apply fast_decide; rewrite EX; destruct (Z.eqb_spec res 0) as [E0|E0]; try rewrite E0; cbn [Z.ltb Z.compare]; intros Hc.
    + rewrite Z.compare_lt_iff in Hc. rewrite (proj2 (Z.eqb_neq (lenz F - n m0) 0)), (proj2 (Z.ltb_ge 0 (lenz F - n m0))) by lia. reflexivity.
    + rewrite Z.compare_lt_iff in Hc. rewrite (proj2 (Z.ltb_ge 0 res)), (proj2 (Z.ltb_lt res 0)) by lia. reflexivity.
    + rewrite Z.compare_gt_iff in Hc. rewrite (proj2 (Z.eqb_neq (lenz F - n m0) 0)), (proj2 (Z.ltb_lt 0 (lenz F - n m0))) by lia. reflexivity.
    + rewrite Z.compare_gt_iff in Hc. rewrite (proj2 (Z.ltb_lt 0 res)) by lia. reflexivity.
    + rewrite Z.compare_eq_iff in Hc. rewrite Hc. reflexivity.
    + rewrite Z.compare_eq_iff in Hc. contradiction.
  - rewrite (proj2 (Z.ltb_ge t 12)), B by lia. cbn [Z.eqb]. apply fast_decide; rewrite Ev, EV; (reflexivity || discriminate).
Qed.
End Fast.

(** ** The chosen function *)

Lemma cache_key_ok p a b c d e : key_ok p -> key_ok (set_cache a b c d e p).
Proof. intros [H1 H2 H3]. constructor; assumption. Qed.
Lemma text_cell m : cell_ok m -> has m MEM_Int = false -> Z.land (flags m) (Z.lor (Z.lor (Z.lor MEM_Real MEM_IntReal) MEM_Null) MEM_Blob) = 0 -> value_of m = VText (content m).
Proof.
  intros C HI HF. assert (Hm : has m MEM_Null = false /\ has m MEM_Real = false /\ has m MEM_IntReal = false /\ has m MEM_Blob = false).
  { assert (E : has m (Z.lor (Z.lor (Z.lor MEM_Real MEM_IntReal) MEM_Null) MEM_Blob) = false) by (unfold has; now rewrite HF). rewrite !has_mask in E. apply orb_false_iff in E as [E ?]. apply orb_false_iff in E as [E ?]. apply orb_false_iff in E as [? ?]. auto. }
  destruct Hm as (M1 & M2 & M3 & M4). assert (M5 : has m (Z.lor MEM_Int MEM_IntReal) = false) by (now rewrite has_mask, HI, M3).
  destruct (cell_holds m C) as [v A|A B|A B D|A B D E|A B D E G|A B D E G]; try congruence; reflexivity.
Qed.

Lemma find_ok malloc a vs l Fs h p : record_ok a vs l Fs h -> key_ok p -> (length (aMem p) <= length vs)%nat -> Z.of_nat (length vs) <= nAllField (pKeyInfo p) ->
  let (f, p') := sqlite3VdbeFindCompare p in
  let r := run f malloc (lenz a) a p' in
  Outcome p' false (key_compare (pKeyInfo p) 0 vs (map value_of (aMem p))) r \/ Exhausted malloc false r.
Proof.
  intros HR HK Hlong Hall. assert (Hgen : forall p', key_ok p' -> pKeyInfo p' = pKeyInfo p -> aMem p' = aMem p ->
    Outcome p' false (key_compare (pKeyInfo p) 0 vs (map value_of (aMem p))) (sqlite3VdbeRecordCompare malloc (lenz a) a p') \/ Exhausted malloc false (sqlite3VdbeRecordCompare malloc (lenz a) a p')).
  { intros p' K1 K2 K3. pose proof (compare_ok malloc a vs l Fs h p' HR K1) as K. cbv zeta in K. rewrite K2, K3, (proj2 (Nat.ltb_ge _ _) Hlong) in K. exact K. }
  unfold sqlite3VdbeFindCompare. destruct (Z.leb_spec (nAllField (pKeyInfo p)) 13) as [H13|_]; [|now apply Hgen]. cbv zeta.
  pose proof (ki_flags _ (kk_info _ HK) 0) as Hs. destruct (negb (sort_flags (pKeyInfo p) 0 =? 0) && negb (Z.land (sort_flags (pKeyInfo p) 0) KEYINFO_ORDER_BIGNULL =? 0)) eqn:EB; [now apply Hgen|].
  assert (Hsort : sort_flags (pKeyInfo p) 0 = 0 \/ sort_flags (pKeyInfo p) 0 = 1).
  { assert (Hcase : sort_flags (pKeyInfo p) 0 = 0 \/ sort_flags (pKeyInfo p) 0 = 1 \/ sort_flags (pKeyInfo p) 0 = 2 \/ sort_flags (pKeyInfo p) 0 = 3) by lia. destruct Hcase as [E|[E|[E|E]]]; rewrite E in EB; auto; discriminate EB. }
  destruct (aMem p) as [|m0 rest] eqn:Ep; [exfalso; now apply (kk_some _ HK)|]. cbn [hd].
  set (ab := if negb (sort_flags (pKeyInfo p) 0 =? 0) then (1, -1) else (-1, 1)).
  assert (Hab : sort_flags (pKeyInfo p) 0 = 0 /\ ab = (-1, 1) \/ sort_flags (pKeyInfo p) 0 = 1 /\ ab = (1, -1)) by (unfold ab; destruct Hsort as [-> | ->]; auto).
  destruct ab as [ra rb]. assert (Hab' : sort_flags (pKeyInfo p) 0 = 0 /\ ra = -1 /\ rb = 1 \/ sort_flags (pKeyInfo p) 0 = 1 /\ ra = 1 /\ rb = -1) by (destruct Hab as [[? E]|[? E]]; injection E; auto).
  pose proof (kk_cells _ HK) as HC. rewrite Ep in HC. destruct HC as [C1 _ _]. apply Forall_cons_iff in C1 as [C1 _].
  destruct vs as [|v vs]; [cbn in Hlong; lia|]. destruct l as [|[m t] l]; [exfalso; exact (rk_fields _ _ _ _ _ HR eq_refl)|].
  assert (HFs : exists F Fs', Fs = F :: Fs') by (pose proof (lay_fields _ _ _ _ _ (rk_layout _ _ _ _ _ HR)) as HE; inversion HE; eauto). destruct HFs as (F & Fs' & ->).
  pose proof (lay_header _ _ _ _ _ (rk_layout _ _ _ _ _ HR)) as Eh. pose proof (lay_fields _ _ _ _ _ (rk_layout _ _ _ _ _ HR)) as HE. pose proof (headers_length _ _ _ HE) as HL.
  destruct (record_bounds _ _ _ _ _ HR) as (Hb & Hv & _ & Hlen). cbn [length] in Hlong, Hall, Hlen, HL. assert (H128 : h < 128) by lia.
  assert (E1 : header_bytes h = [h]) by (unfold header_bytes; now rewrite (proj2 (Z.ltb_lt h 128) H128)). rewrite E1 in Eh. change (lenz [h]) with 1 in Eh.
  destruct (has m0 MEM_Int) eqn:EI.
  - set (p' := set_cache (u_z p) (u_i m0) (u_n p) ra rb p). cbn [run]. assert (EV : value_of m0 = VInt (u_i_ p')).
    { assert (HI : has m0 (Z.lor MEM_Int MEM_IntReal) = true) by (now rewrite has_mask, EI). destruct (cell_holds m0 C1) as [w A B|A B|A B|A B|A B|A B]; try congruence. reflexivity. }
    destruct (Z.le_gt_cases h 63) as [H63|H63].
    + pose proof (int_ok malloc a m t F v l Fs' vs h p' m0 rest HR H128 (cache_key_ok _ _ _ _ _ _ HK) Ep ltac:(lia) Hab' H63 EV) as K. cbv zeta in K. change (aMem p') with (aMem p) in K. rewrite Ep in K. exact K.
    + assert (Et : 128 <= t).
      { destruct (Z.lt_ge_cases t 128) as [Ht|]; [exfalso|assumption]. inversion HE as [|? ? ? ? ? ? ? R E2]; subst. pose proof (headers_length _ _ _ E2). destruct (header_pos m t l (proj1 R)) as (L1 & _). rewrite varintlen_small in L1 by (pose proof (proj1 R); lia). lia. }
      assert (Er : vdbeRecordCompareInt malloc (lenz a) a p' = sqlite3VdbeRecordCompare malloc (lenz a) a p').
      { destruct (fast_layout a m t F v l Fs' vs h rest HR H128 ltac:(lia)) as (_ & L1 & _ & _ & _ & L5 & _). inversion HE as [|? ? ? ? ? ? ? R _]; subst. pose proof (first_byte t _ (proj1 R) L5) as HB. cbv zeta in HB. rewrite <- L1, rd_at in HB by lia.
        rewrite (proj2 (Z.ltb_ge t 128) Et) in HB. unfold vdbeRecordCompareInt. repeat (rewrite (proj2 (Z.eqb_neq (rd a 1) _)) by lia). reflexivity. }
      rewrite Er. exact (Hgen p' (cache_key_ok _ _ _ _ _ _ HK) eq_refl Ep).
  - destruct (Z.eqb_spec (Z.land (flags m0) (Z.lor (Z.lor (Z.lor MEM_Real MEM_IntReal) MEM_Null) MEM_Blob)) 0) as [EF|_]; [|cbn [andb]; exact (Hgen _ (cache_key_ok _ _ _ _ _ _ HK) eq_refl Ep)].
    destruct (coll (pKeyInfo p) 0) eqn:EC; cbn [andb]; [exact (Hgen _ (cache_key_ok _ _ _ _ _ _ HK) eq_refl Ep)|].
    set (p' := set_cache (z m0) (u_i_ p) (n m0) ra rb p). cbn [run].
    pose proof (string_ok malloc a m t F v l Fs' vs h p' m0 rest HR H128 (cache_key_ok _ _ _ _ _ _ HK) Ep ltac:(lia) Hab' EC (text_cell m0 C1 EI EF) eq_refl eq_refl) as K.
    cbv zeta in K. change (aMem p') with (aMem p) in K. rewrite Ep in K. exact K.
Qed.

(** ** The reference comparison agrees *)

(** What is known of the register that values are read into. *)
Record idle (m : Mem) : Prop := { id_int : is_i64 (u_i m); id_real : is_u64 (u_r m); id_zero : 0 <= nZero m < 2 ^ 31; id_n : 0 <= n m <= SQLITE_MAX_LENGTH /\ n m <= lenz (z m); id_z : bytes (z m) }.

Lemma get_cell t F v rest m : Reads t F v -> type_ok t v -> bytes rest -> lenz F <= SQLITE_MAX_LENGTH -> idle m ->
  let m' := sqlite3VdbeSerialGet (F ++ rest) t m in cell_ok m' /\ idle m' /\ value_of m' = v /\ lenz (content m') <= SQLITE_MAX_LENGTH /\ has m' MEM_Null = is_null v.
Proof.
  intros R T Hr HF [I1 I2 I3 I4 I5] m'. assert (EV : value_of m' = v) by (apply R). unfold SQLITE_MAX_LENGTH in *.
  assert (Hmem : forall x, idle x -> has x MEM_Zero = false -> mem_ok x) by (intros x [J1 J2 J3 J4 J5] JZ; constructor; auto; try lia; [unfold lenz in J4; lia|rewrite JZ; discriminate]).
  assert (Hcell : forall x, idle x -> flags x = MEM_Null \/ flags x = MEM_Int \/ (flags x = MEM_Real /\ IsNaN (u_r x) = false) \/ flags x = Z.lor MEM_Str MEM_Ephem \/ flags x = Z.lor MEM_Blob MEM_Ephem -> cell_ok x).
  { intros x J Hf. pose proof (id_n x J). pose proof (id_zero x J). unfold SQLITE_MAX_LENGTH in *. constructor; [apply Hmem; [exact J|]|lia|..]; unfold has; destruct Hf as [E|[E|[[E EN]|[E|E]]]]; rewrite E; cbn; try reflexivity; try discriminate; auto. }
  assert (Hlc : forall x, idle x -> lenz (content x) = n x) by (intros x J; pose proof (id_n x J); unfold lenz, content in *; rewrite length_firstn; lia).
  enough (HI : idle m' /\ (flags m' = MEM_Null \/ flags m' = MEM_Int \/ (flags m' = MEM_Real /\ IsNaN (u_r m') = false) \/ flags m' = Z.lor MEM_Str MEM_Ephem \/ flags m' = Z.lor MEM_Blob MEM_Ephem)).
  { destruct HI as (J1 & J3). pose proof (Hcell m' J1 J3) as HC. split; [exact HC|]. split; [exact J1|]. split; [exact EV|]. split; [rewrite (Hlc m' J1); apply (id_n m' J1)|]. rewrite (null_flag m' HC). now rewrite EV. }
  clear EV Hcell Hmem Hlc. destruct (view t F v rest R T) as (w & Ev & HV). unfold m'. clear m'. destruct HV as [T0|T9 T7 D1 D2|T7 U N|T12 B|T12 B].
  - subst t. split; [constructor; assumption|]. left. reflexivity.
  - assert (Ei : sqlite3VdbeSerialGet (F ++ rest) t m = set_int (vdbeRecordDecodeInt t (F ++ rest)) m).
    { rewrite <- D2. clear - T9 T7. assert (Hcase : t = 1 \/ t = 2 \/ t = 3 \/ t = 4 \/ t = 5 \/ t = 6 \/ t = 8 \/ t = 9) by lia. destruct Hcase as [-> |[-> |[-> |[-> |[-> |[-> |[-> | ->]]]]]]]; unfold sqlite3VdbeSerialGet, serialGet; cbn [Z.eqb Pos.eqb orb u_i set_int]; reflexivity. }
    rewrite Ei. split; [constructor; assumption|]. right. left. reflexivity.
  - subst t. assert (Er : sqlite3VdbeSerialGet (F ++ rest) 7 m = set_real (EIGHT_BYTES (F ++ rest)) MEM_Real m) by (unfold sqlite3VdbeSerialGet, serialGet; cbn [Z.eqb Pos.eqb orb]; now rewrite N).
    rewrite Er. split; [constructor; assumption|]. right. right. left. split; [reflexivity|exact N].
  - destruct R as (_ & Hl & HFb & _). rewrite type_len in Hl by lia. fold (lenz F) in Hl.
    assert (Es : sqlite3VdbeSerialGet (F ++ rest) t m = set_bytes (F ++ rest) (lenz F) (Z.lor Record.MEM_Str MEM_Ephem) m) by (unfold sqlite3VdbeSerialGet; repeat (rewrite (proj2 (Z.eqb_neq t _)) by lia); cbn [orb]; rewrite B, Hl; reflexivity).
    rewrite Es. split; [constructor; cbn [set_bytes u_i u_r nZero n z]; auto; [unfold SQLITE_MAX_LENGTH; rewrite lenz_app; unfold lenz in *; lia|apply bytes_app; auto]|]. right. right. right. left. reflexivity.
  - destruct R as (_ & Hl & HFb & _). rewrite type_len in Hl by lia. fold (lenz F) in Hl.
    assert (Es : sqlite3VdbeSerialGet (F ++ rest) t m = set_bytes (F ++ rest) (lenz F) (Z.lor MEM_Blob MEM_Ephem) m) by (unfold sqlite3VdbeSerialGet; repeat (rewrite (proj2 (Z.eqb_neq t _)) by lia); cbn [orb]; rewrite B, Hl; reflexivity).
    rewrite Es. split; [constructor; cbn [set_bytes u_i u_r nZero n z]; auto; [unfold SQLITE_MAX_LENGTH; rewrite lenz_app; unfold lenz in *; lia|apply bytes_app; auto]|]. right. right. right. right. reflexivity.
Qed.

Lemma mem_compare_int malloc enc m1 m2 c : cell_ok m1 -> cell_ok m2 -> lenz (content m1) <= SQLITE_MAX_LENGTH -> lenz (content m2) <= SQLITE_MAX_LENGTH -> coll_ok c ->
  - 2 ^ 31 < sqlite3MemCompare malloc enc m1 m2 c < 2 ^ 31.
Proof.
  intros C1 C2 S1 S2 HC. destruct (blob_compare m1 m2 C1 C2) as [_ HB]. unfold SQLITE_MAX_LENGTH in *. unfold sqlite3MemCompare. cbv zeta. rewrite !null_bit.
  assert (HI : forall i j, -1 <= int_compare i j <= 1) by (intros i j; unfold int_compare; destruct (_ <? _); [lia|]; destruct (_ <? _); lia).
  assert (HF : forall i r, -1 <= sqlite3IntFloatCompare i r <= 1) by (intros i r; unfold sqlite3IntFloatCompare; destruct (IsNaN r); [lia|]; repeat (destruct (SFltb _ _) || destruct (SFleb _ _) || destruct (_ <? _)); lia).
  pose proof (HI (u_i m1) (u_i m2)). pose proof (HF (u_i m1) (u_r m2)). pose proof (HF (u_i m2) (u_r m1)).
  assert (HS : forall k, c = Some k -> - 2 ^ 31 < fst (vdbeCompareMemString malloc enc (content m1) (content m2) k) < 2 ^ 31).
  { intros k ->. rewrite compare_string. destruct (_ || _); cbn [fst]; [|lia]. pose proof (bytes_content _ (ck_mem _ C1)) as B1. pose proof (bytes_content _ (ck_mem _ C2)) as B2.
    destruct (translated_ok enc (coll_enc k) _ B1), (translated_ok enc (coll_enc k) _ B2). apply (@collation_int k HC); (assumption || lia). }
  destruct (negb _); [destruct (has m2 MEM_Null), (has m1 MEM_Null); lia|]. destruct (negb _).
  { repeat match goal with |- context [if ?b then _ else _] => destruct b end; lia. }
  destruct (_ && _); [lia|]. destruct (_ && _); [lia|]. destruct c as [k|]; [|exact HB]. destruct (negb _); [exact (HS k eq_refl)|exact HB].
Qed.

Section Debug.
Variables (malloc : list Z -> bool) (nKey : Z) (aKey : list Z) (szHdr : Z) (k : KeyInfo).
Hypothesis Hmalloc : forall s, malloc s = true.
Hypothesis Hk : keyinfo_ok k.
Hypothesis Hmax : nKey <= SQLITE_MAX_LENGTH.
Hypothesis Hhdr : szHdr <= nKey.

(** The reference result of one field with the order of its column. *)
Lemma debug_sort s v w c rc : 0 <= s < 4 -> - 2 ^ 31 < rc < 2 ^ 31 -> (rc ?= 0) = c ->
  let rc' := if negb (Z.land s KEYINFO_ORDER_BIGNULL =? 0) && (is_null v || is_null w) then neg rc else rc in
  ((if negb (Z.land s KEYINFO_ORDER_DESC =? 0) then neg rc' else rc') ?= 0) = sorted s v w c.
Proof.
  intros Hs Hrc <-. unfold sorted. generalize (is_null v || is_null w). intros nulls. cbv zeta. assert (Hcase : s = 0 \/ s = 1 \/ s = 2 \/ s = 3) by lia.
  assert (H1 : neg rc = - rc) by (now apply neg_opp). assert (H2 : neg (- rc) = rc) by (rewrite neg_opp by lia; lia). pose proof (sgn_opp rc) as H3.
  destruct Hcase as [-> |[-> |[-> | ->]]]; destruct nulls;
    repeat match goal with |- context [Z.land ?x ?y =? 0] => let b := eval cbv in (Z.land x y =? 0) in change (Z.land x y =? 0) with b end; cbn [negb andb xorb]; rewrite ?H1, ?H2; (reflexivity || exact H3).
Qed.

Lemma debug_loop_ok rhs : forall l Fs vs i idx d H p mem1, Encoded l Fs vs -> types_ok l vs -> pKeyInfo p = k -> (length rhs <= length l)%nat -> cells_ok k i rhs -> idle mem1 ->
  0 <= idx -> 0 <= d -> bytes (headers l ++ H) -> at_ idx aKey = headers l ++ H -> at_ d aKey = concat Fs -> szHdr = idx + lenz (headers l) -> nKey = d + lenz (concat Fs) ->
  (debug_loop malloc nKey aKey szHdr p mem1 rhs i idx d ?= 0) = match key_compare k i vs (map value_of rhs) with Eq => default_rc p ?= 0 | c => c end.
Proof.
  induction rhs as [|pRhs rest IH]; intros l Fs vs i idx d H p mem1 HE HT Hp Hl HC HI Hidx Hd HB EH ED Es En; [now destruct vs|]. destruct HE as [|m t F v l Fs vs HR HE]; [cbn in Hl; lia|].
  inversion HT as [|? ? ? ? T1 T2]; subst; cbn [snd] in T1. destruct HC as [C1 C2 C3]. apply Forall_cons_iff in C1 as [C1 C1'], C2 as [C2 C2']. cbn [length] in C3, Hl.
  destruct (header_pos m t l (proj1 HR)) as (L1 & L2 & L3). assert (LC : lenz (concat (F :: Fs)) = lenz F + lenz (concat Fs)) by (apply lenz_app). rewrite L1, LC in *.
  change (headers ((m, t) :: l)) with (header_bytes t ++ headers l) in EH, HB. cbn [concat] in ED. rewrite <- app_assoc in EH, HB. apply bytes_app in HB as [_ HB].
  pose proof (proj1 (proj2 HR)) as HF. fold (lenz F) in HF. assert (HF0 : 0 <= lenz F /\ 0 <= lenz (concat Fs)) by (unfold lenz; lia). pose proof Hmax as Hmax'. unfold SQLITE_MAX_LENGTH in Hmax'.
  destruct (header_bytes_ok t (proj1 HR)) as (V1 & _ & _ & V3). cbn [debug_loop]. rewrite EH, (V3 _ HB), ED, <- HF. cbv zeta. rewrite (proj2 (Z.ltb_ge _ (d + lenz F))), andb_false_r by lia.
  unfold u32. rewrite !(Z.mod_small (d + lenz F)), !(Z.mod_small (idx + sqlite3VarintLen t)) by lia. rewrite (proj2 (Z.ltb_lt (Z.of_nat i) _)) by lia.
  assert (HbF : bytes (concat Fs)) by (apply (encoded_bytes _ _ _ HE)). destruct (get_cell t F v (concat Fs) mem1 HR T1 HbF ltac:(unfold SQLITE_MAX_LENGTH; lia) HI) as (G1 & G2 & G3 & G4 & G5).
  set (mem2 := sqlite3VdbeSerialGet (F ++ concat Fs) t mem1) in *. pose proof (mem_compare malloc (k_enc (pKeyInfo p)) mem2 pRhs (coll (pKeyInfo p) i) G1 C1 Hmalloc) as HM. rewrite G3 in HM.
  pose proof (mem_compare_int malloc (k_enc (pKeyInfo p)) mem2 pRhs (coll (pKeyInfo p) i) G1 C1 G4 C2 (ki_coll _ Hk i)) as HN. set (rc := sqlite3MemCompare _ _ _ _ _) in *. rewrite G5, (null_flag pRhs C1). cbn [map key_compare].
  destruct (Z.eqb_spec rc 0) as [Ez|Ez]; cbn [negb].
  - rewrite Ez in HM. cbn in HM. rewrite <- HM. assert (ES : sorted (sort_flags (pKeyInfo p) i) v (value_of pRhs) Eq = Eq) by (unfold sorted; destruct (xorb _ _); reflexivity). rewrite ES. cbn [then_].
    destruct (Z.ltb_spec (idx + sqlite3VarintLen t) (idx + (sqlite3VarintLen t + lenz (headers l)))) as [Hlt|Hge].
    + assert (A1 : at_ (idx + sqlite3VarintLen t) aKey = headers l ++ H) by (rewrite at_add, EH, <- V1 by (unfold lenz; lia); apply skipn_lenz).
      assert (A2 : at_ (d + lenz F) aKey = concat Fs) by (rewrite at_add, ED by lia; apply skipn_lenz).
      pose proof (IH l Fs vs (S i) (idx + sqlite3VarintLen t) (d + lenz F) H p mem2 HE T2 eq_refl ltac:(lia) (Build_cells_ok (pKeyInfo p) (S i) rest C1' C2' ltac:(lia)) G2 ltac:(lia) ltac:(lia) HB A1 A2) as K.
      rewrite <- !Z.add_assoc in K. apply K; reflexivity.
    + assert (El : l = []) by (destruct l as [|[m2 t2] l]; [reflexivity|exfalso; inversion HE as [|? ? ? ? ? ? ? R2 E2]; subst; destruct (header_pos m2 t2 l (proj1 R2)); lia]). subst l. cbn [length] in Hl.
      assert (rest = []) by (destruct rest; [reflexivity|cbn in Hl; lia]). subst rest. now destruct vs.
  - rewrite (debug_sort _ _ _ _ rc (ki_flags _ Hk i) HN HM). assert (Hne : vcompare (k_enc (pKeyInfo p)) (coll (pKeyInfo p) i) v (value_of pRhs) <> Eq) by (rewrite <- HM; intros E; apply Z.compare_eq_iff in E; contradiction).
    destruct (vcompare _ _ _ _); [contradiction| |]; unfold sorted; destruct (xorb _ _); reflexivity.
Qed.
End Debug.

(** ** Correctness *)

(** [a] is the record that the opcode makes of the registers [fields]. *)
Inductive Made_record (fields : list Mem) : list Z -> Prop :=
| made_record ff limit szMalloc alloc space rec zeros : Forall mem_ok fields -> Forall plain fields -> fields <> [] -> Z.of_nat (length fields) <= column_limit ->
    limit <= SQLITE_MAX_LENGTH -> szMalloc <= SQLITE_MAX_LENGTH -> (forall j, 0 <= j -> lenz (space j) = j) ->
    OP_MakeRecord ff limit szMalloc alloc space fields = Stored rec zeros -> Made_record fields (rec ++ repeat 0 (Z.to_nat zeros)).

Lemma made_record_ok fields a : Made_record fields a -> exists l Fs h, record_ok a (map value_of fields) l Fs h.
Proof.
  intros [ff limit szMalloc alloc space rec zeros Hok HP Hne Hc Hlim Hszm Hsp E]. unfold SQLITE_MAX_LENGTH in *. pose proof (make_record_ok ff limit szMalloc alloc space fields Hok Hc ltac:(lia) ltac:(lia) Hsp) as H.
  rewrite E in H. destruct H as (l & s & Fs & h & Es & HL & Ha & _). exists l, Fs, h. destruct (made_types _ _ _ _ _ _ HP Es (lay_fields _ _ _ _ _ HL)) as [HT Hlen].
  constructor; [exact HL|exact HT|unfold SQLITE_MAX_LENGTH; lia|]. intros ->. destruct fields; [contradiction|discriminate Hlen].
Qed.

Lemma made_header fields a l Fs h : record_ok a (map value_of fields) l Fs h -> h <= 5 * Z.of_nat (length fields) + 5.
Proof.
  intros HR. destruct (record_bounds _ _ _ _ _ HR) as (_ & Hv & _ & Hl). pose proof (lay_header _ _ _ _ _ (rk_layout _ _ _ _ _ HR)). pose proof (headers_length _ _ _ (lay_fields _ _ _ _ _ (rk_layout _ _ _ _ _ HR))). rewrite length_map in Hl. lia.
Qed.


(** C15: the comparison function chosen for a key does what the general one does.  The
    fast paths for keys that start with an integer, or with a text in the binary
    collating sequence, are chosen only where they give the same results: the sign
    of the order of the values on records and keys of all kinds, and the key with
    the same error code and mark of equality. *)
Theorem find_compare_correct malloc fields a p : Made_record fields a -> key_ok p -> (length (aMem p) <= length fields)%nat -> Z.of_nat (length fields) <= nAllField (pKeyInfo p) ->
  let (f, p') := sqlite3VdbeFindCompare p in
  let r := run f malloc (lenz a) a p' in
  (Compared p' (key_compare (pKeyInfo p) 0 (map value_of fields) (map value_of (aMem p))) r \/ no_memory malloc (errCode (snd r))) /\
  default_rc p' = default_rc p /\ errCode p' = errCode p /\ eqSeen p' = eqSeen p /\ aMem p' = aMem p.
Proof.
  intros HM HK Hl Hn. destruct (made_record_ok _ _ HM) as (l & Fs & h & HR). pose proof (find_ok malloc a _ l Fs h p HR HK) as K. rewrite length_map in K. specialize (K Hl Hn).
  assert (HS : let (f, p') := sqlite3VdbeFindCompare p in default_rc p' = default_rc p /\ errCode p' = errCode p /\ eqSeen p' = eqSeen p /\ aMem p' = aMem p).
  { unfold sqlite3VdbeFindCompare. destruct (_ <=? 13); [|auto]. destruct (_ && _); [auto|]. destruct (if _ : bool then _ else _) as [ra rb]. destruct (has _ _); [auto|]. destruct (_ && _); auto. }
  destruct (sqlite3VdbeFindCompare p) as [f p']. split; [|exact HS]. destruct K as [K|[K1 [K2|[K2 _]]]]; [left; exact K|right; split; assumption|discriminate].
Qed.

Lemma same_sign x y : (x ?= 0) = (y ?= 0) -> (if (x =? 0) && (y =? 0) then 1 else if (x <? 0) && (y <? 0) then 1 else if (0 <? x) && (0 <? y) then 1 else 0) = 1.
Proof. destruct x, y; (reflexivity || discriminate). Qed.

(** The reference comparison that the code runs in its assertions agrees with the
    optimised one: reading each field back into a register and comparing it with the
    cell by [sqlite3MemCompare] gives a result of the same sign, whatever was in the
    register before. *)
Theorem compare_agrees_with_reference malloc fields a p mem1 : Made_record fields a -> key_ok p -> (length (aMem p) <= length fields)%nat -> Z.of_nat (length fields) <= 19000 ->
  (forall s, malloc s = true) -> idle mem1 ->
  vdbeRecordCompareDebug malloc (lenz a) a p mem1 (fst (sqlite3VdbeRecordCompare malloc (lenz a) a p)) = 1.
Proof.
  intros HM HK Hl Hn Hm HI. destruct (made_record_ok _ _ HM) as (l & Fs & h & HR). pose proof (made_header _ _ _ _ _ HR) as Hh. pose proof (compare_ok malloc a _ l Fs h p HR HK) as K. cbv zeta in K. rewrite length_map in K.
  rewrite (proj2 (Nat.ltb_ge _ _) Hl) in K. destruct K as [K|[[s Hs] _]]; [|rewrite Hm in Hs; discriminate]. set (r := sqlite3VdbeRecordCompare _ _ _ _) in *. clearbody r.
  destruct (record_bounds _ _ _ _ _ HR) as (Hb & Hv & Hha & Hlen). rewrite length_map in Hlen. destruct HR as [HL HT HS HF]. destruct (layout_bytes _ _ _ _ _ HL Hb) as (B1 & B2 & B3 & B4 & B5). destruct HK as [KI KC KS].
  pose proof (lay_header _ _ _ _ _ HL) as Eh. unfold vdbeRecordCompareDebug. rewrite B3. rewrite (proj2 (Z.ltb_ge 98307 h)) by lia.
  assert (HB : bytes (headers l ++ concat Fs)) by (apply bytes_app; apply (encoded_bytes _ _ _ (lay_fields _ _ _ _ _ HL))).
  pose proof (debug_loop_ok malloc (lenz a) a h (pKeyInfo p) Hm KI HS Hha (aMem p) l Fs _ 0 (lenz (header_bytes h)) h (concat Fs) p mem1 (lay_fields _ _ _ _ _ HL) HT eq_refl ltac:(lia) KC HI ltac:(lia) ltac:(lia) HB B4 B5 Eh B2) as D.
  set (rc := debug_loop _ _ _ _ _ _ _ _ _ _) in *. unfold Outcome in K. destruct (key_compare _ _ _ _).
  - apply same_sign. now rewrite K, D.
  - apply same_sign. destruct K as [-> _]. now rewrite D.
  - apply same_sign. destruct K as [-> _]. now rewrite D.
Qed.

Definition demo_key_fields : list Mem := [int_mem 7; text_mem [97; 98]; zero_mem 3; text_mem [98]].
Definition demo_index : KeyInfo := {| k_enc := SQLITE_UTF8; nAllField := 4; aColl := [None; Some NOCASE; None; Some (BINARY SQLITE_UTF16LE)]; aSortFlags := [0; 1; 2; 3] |}.
Definition demo_key (cells : list Mem) (dflt : Z) : UnpackedRecord :=
  {| pKeyInfo := demo_index; aMem := cells; u_z := []; u_i_ := 0; u_n := 0; default_rc := dflt; errCode := 0; r1 := 0; r2 := 0; eqSeen := false |}.
Definition demo_index_record : list Z :=
  match OP_MakeRecord 4 1000000000 0 (fun _ => true) demo_space demo_key_fields with Stored rec zeros => rec ++ repeat 0 (Z.to_nat zeros) | _ => [] end.

Lemma demo_made : Made_record demo_key_fields demo_index_record.
Proof.
  assert (HE : exists rec zeros, OP_MakeRecord 4 1000000000 0 (fun _ => true) demo_space demo_key_fields = Stored rec zeros /\ demo_index_record = rec ++ repeat 0 (Z.to_nat zeros)) by (eexists _, _; split; vm_compute; reflexivity).
  destruct HE as (rec & zeros & HE & ->). refine (made_record _ 4 1000000000 0 (fun _ => true) demo_space rec zeros _ _ _ _ _ _ _ HE).
  - repeat apply Forall_cons; try apply Forall_nil; (constructor; cbn [u_i u_r nZero z n int_mem text_mem zero_mem]; [unfold is_i64; lia|unfold is_u64; lia|lia|unfold lenz; cbn; lia|repeat constructor; unfold is_u8; lia|vm_compute; intros H; first [discriminate H|right; split; reflexivity]]).
  - repeat apply Forall_cons; try apply Forall_nil; split; vm_compute; intros; try reflexivity; discriminate.
  - discriminate.
  - vm_compute. discriminate.
  - unfold SQLITE_MAX_LENGTH. lia.
  - unfold SQLITE_MAX_LENGTH. lia.
  - intros j Hj. unfold demo_space, lenz. rewrite repeat_length. lia.
Qed.
Lemma demo_key_ok cells dflt : cells <> [] -> Forall (fun m => In m [int_mem 7; text_mem [65; 66]; zero_mem 3; text_mem [97]]) cells -> (length cells <= 4)%nat -> key_ok (demo_key cells dflt).
Proof.
  intros Hne HC Hl. constructor; [constructor| |exact Hne].
  - intros i. destruct i as [|[|[|[|i]]]]; cbn; try exact I; [exact nocase_collation|exact (binary_collation SQLITE_UTF16LE)|destruct i; exact I].
  - intros i. destruct i as [|[|[|[|i]]]]; cbn; try lia. destruct i; lia.
  - constructor; cbn [demo_key aMem pKeyInfo demo_index nAllField]; [| |lia]; (eapply Forall_impl; [|exact HC]); intros m Hm; cbn [In] in Hm; (destruct Hm as [<-|[<-|[<-|[<-|[]]]]]).
    all: try concrete_cell.
    all: vm_compute; discriminate.
Qed.

Ltac demo_cells := repeat apply Forall_cons; try apply Forall_nil; cbn [In]; tauto.


Lemma find_compare_correct_witness : fst (sqlite3VdbeFindCompare (demo_key [int_mem 7; text_mem [65; 66]] 1)) = CompareInt /\
  let p' := snd (sqlite3VdbeFindCompare (demo_key [int_mem 7; text_mem [65; 66]] 1)) in Compared p' Eq (vdbeRecordCompareInt (fun _ => true) (lenz demo_index_record) demo_index_record p').
Proof.
  split; [reflexivity|].
  destruct (find_compare_correct (fun _ => true) demo_key_fields demo_index_record (demo_key [int_mem 7; text_mem [65; 66]] 1) demo_made (demo_key_ok [int_mem 7; text_mem [65; 66]] 1 ltac:(discriminate) ltac:(demo_cells) ltac:(cbn; lia)) ltac:(cbn; lia) ltac:(cbn; lia)) as [[K|[_ [s Hs]]] _];
    [exact K|cbv beta in Hs; discriminate Hs].
Defined.

Lemma compare_agrees_with_reference_witness :
  vdbeRecordCompareDebug (fun _ => true) (lenz demo_index_record) demo_index_record (demo_key [int_mem 7; text_mem [65; 66]; zero_mem 3; text_mem [97]] 0) mem0
    (fst (sqlite3VdbeRecordCompare (fun _ => true) (lenz demo_index_record) demo_index_record (demo_key [int_mem 7; text_mem [65; 66]; zero_mem 3; text_mem [97]] 0))) = 1.
Proof.
  apply (compare_agrees_with_reference (fun _ => true) demo_key_fields demo_index_record _ mem0 demo_made (demo_key_ok [int_mem 7; text_mem [65; 66]; zero_mem 3; text_mem [97]] 0 ltac:(discriminate) ltac:(demo_cells) ltac:(cbn; lia)));
    [cbn; lia|cbn; lia|reflexivity|constructor; cbn; unfold is_i64, is_u64, SQLITE_MAX_LENGTH; try lia; constructor].
Defined.
