(* ===== verification/Keywords.v ===== *)
(** * Keywords: token codes, character classes and the keyword hash

    Models the tables at the head of [tokenize.c] in
    [src/api-core/src/db/sqlite3.c] (the token codes of [parse.h], the character
    classes, the perfect hash of keywords that [mkkeywordhash] generated) and
    [keywordCode], [sqlite3KeywordCode] and the [sqlite3_keyword] interface.
    The theorem: the hash finds exactly the 147 keywords, in any mixture of
    cases. *)

From Stdlib Require Import String ZArith List Lia Bool.
Import ListNotations.
From S2P Require Import Prelude Ctype.
#[local] Open Scope Z_scope.

(** ** Token codes *)

Definition TK_SEMI : Z := 1.
Definition TK_EXPLAIN : Z := 2.
Definition TK_QUERY : Z := 3.
Definition TK_PLAN : Z := 4.
Definition TK_BEGIN : Z := 5.
Definition TK_TRANSACTION : Z := 6.
Definition TK_DEFERRED : Z := 7.
Definition TK_IMMEDIATE : Z := 8.
Definition TK_EXCLUSIVE : Z := 9.
Definition TK_COMMIT : Z := 10.
Definition TK_END : Z := 11.
Definition TK_ROLLBACK : Z := 12.
Definition TK_SAVEPOINT : Z := 13.
Definition TK_RELEASE : Z := 14.
Definition TK_TO : Z := 15.
Definition TK_TABLE : Z := 16.
Definition TK_CREATE : Z := 17.
Definition TK_IF : Z := 18.
Definition TK_NOT : Z := 19.
Definition TK_EXISTS : Z := 20.
Definition TK_TEMP : Z := 21.
Definition TK_LP : Z := 22.
Definition TK_RP : Z := 23.
Definition TK_AS : Z := 24.
Definition TK_COMMA : Z := 25.
Definition TK_WITHOUT : Z := 26.
Definition TK_ABORT : Z := 27.
Definition TK_ACTION : Z := 28.
Definition TK_AFTER : Z := 29.
Definition TK_ANALYZE : Z := 30.
Definition TK_ASC : Z := 31.
Definition TK_ATTACH : Z := 32.
Definition TK_BEFORE : Z := 33.
Definition TK_BY : Z := 34.
Definition TK_CASCADE : Z := 35.
Definition TK_CAST : Z := 36.
Definition TK_CONFLICT : Z := 37.
Definition TK_DATABASE : Z := 38.
Definition TK_DESC : Z := 39.
Definition TK_DETACH : Z := 40.
Definition TK_EACH : Z := 41.
Definition TK_FAIL : Z := 42.
Definition TK_OR : Z := 43.
Definition TK_AND : Z := 44.
Definition TK_IS : Z := 45.
Definition TK_ISNOT : Z := 46.
Definition TK_MATCH : Z := 47.
Definition TK_LIKE_KW : Z := 48.
Definition TK_BETWEEN : Z := 49.
Definition TK_IN : Z := 50.
Definition TK_ISNULL : Z := 51.
Definition TK_NOTNULL : Z := 52.
Definition TK_NE : Z := 53.
Definition TK_EQ : Z := 54.
Definition TK_GT : Z := 55.
Definition TK_LE : Z := 56.
Definition TK_LT : Z := 57.
Definition TK_GE : Z := 58.
Definition TK_ESCAPE : Z := 59.
Definition TK_ID : Z := 60.
Definition TK_COLUMNKW : Z := 61.
Definition TK_DO : Z := 62.
Definition TK_FOR : Z := 63.
Definition TK_IGNORE : Z := 64.
Definition TK_INITIALLY : Z := 65.
Definition TK_INSTEAD : Z := 66.
Definition TK_NO : Z := 67.
Definition TK_KEY : Z := 68.
Definition TK_OF : Z := 69.
Definition TK_OFFSET : Z := 70.
Definition TK_PRAGMA : Z := 71.
Definition TK_RAISE : Z := 72.
Definition TK_RECURSIVE : Z := 73.
Definition TK_REPLACE : Z := 74.
Definition TK_RESTRICT : Z := 75.
Definition TK_ROW : Z := 76.
Definition TK_ROWS : Z := 77.
Definition TK_TRIGGER : Z := 78.
Definition TK_VACUUM : Z := 79.
Definition TK_VIEW : Z := 80.
Definition TK_VIRTUAL : Z := 81.
Definition TK_WITH : Z := 82.
Definition TK_NULLS : Z := 83.
Definition TK_FIRST : Z := 84.
Definition TK_LAST : Z := 85.
Definition TK_CURRENT : Z := 86.
Definition TK_FOLLOWING : Z := 87.
Definition TK_PARTITION : Z := 88.
Definition TK_PRECEDING : Z := 89.
Definition TK_RANGE : Z := 90.
Definition TK_UNBOUNDED : Z := 91.
Definition TK_EXCLUDE : Z := 92.
Definition TK_GROUPS : Z := 93.
Definition TK_OTHERS : Z := 94.
Definition TK_TIES : Z := 95.
Definition TK_GENERATED : Z := 96.
Definition TK_ALWAYS : Z := 97.
Definition TK_MATERIALIZED : Z := 98.
Definition TK_REINDEX : Z := 99.
Definition TK_RENAME : Z := 100.
Definition TK_CTIME_KW : Z := 101.
Definition TK_ANY : Z := 102.
Definition TK_BITAND : Z := 103.
Definition TK_BITOR : Z := 104.
Definition TK_LSHIFT : Z := 105.
Definition TK_RSHIFT : Z := 106.
Definition TK_PLUS : Z := 107.
Definition TK_MINUS : Z := 108.
Definition TK_STAR : Z := 109.
Definition TK_SLASH : Z := 110.
Definition TK_REM : Z := 111.
Definition TK_CONCAT : Z := 112.
Definition TK_PTR : Z := 113.
Definition TK_COLLATE : Z := 114.
Definition TK_BITNOT : Z := 115.
Definition TK_ON : Z := 116.
Definition TK_INDEXED : Z := 117.
Definition TK_STRING : Z := 118.
Definition TK_JOIN_KW : Z := 119.
Definition TK_CONSTRAINT : Z := 120.
Definition TK_DEFAULT : Z := 121.
Definition TK_NULL : Z := 122.
Definition TK_PRIMARY : Z := 123.
Definition TK_UNIQUE : Z := 124.
Definition TK_CHECK : Z := 125.
Definition TK_REFERENCES : Z := 126.
Definition TK_AUTOINCR : Z := 127.
Definition TK_INSERT : Z := 128.
Definition TK_DELETE : Z := 129.
Definition TK_UPDATE : Z := 130.
Definition TK_SET : Z := 131.
Definition TK_DEFERRABLE : Z := 132.
Definition TK_FOREIGN : Z := 133.
Definition TK_DROP : Z := 134.
Definition TK_UNION : Z := 135.
Definition TK_ALL : Z := 136.
Definition TK_EXCEPT : Z := 137.
Definition TK_INTERSECT : Z := 138.
Definition TK_SELECT : Z := 139.
Definition TK_VALUES : Z := 140.
Definition TK_DISTINCT : Z := 141.
Definition TK_DOT : Z := 142.
Definition TK_FROM : Z := 143.
Definition TK_JOIN : Z := 144.
Definition TK_USING : Z := 145.
Definition TK_ORDER : Z := 146.
Definition TK_GROUP : Z := 147.
Definition TK_HAVING : Z := 148.
Definition TK_LIMIT : Z := 149.
Definition TK_WHERE : Z := 150.
Definition TK_RETURNING : Z := 151.
Definition TK_INTO : Z := 152.
Definition TK_NOTHING : Z := 153.
Definition TK_FLOAT : Z := 154.
Definition TK_BLOB : Z := 155.
Definition TK_INTEGER : Z := 156.
Definition TK_VARIABLE : Z := 157.
Definition TK_CASE : Z := 158.
Definition TK_WHEN : Z := 159.
Definition TK_THEN : Z := 160.
Definition TK_ELSE : Z := 161.
Definition TK_INDEX : Z := 162.
Definition TK_ALTER : Z := 163.
Definition TK_ADD : Z := 164.
Definition TK_WINDOW : Z := 165.
Definition TK_OVER : Z := 166.
Definition TK_FILTER : Z := 167.
Definition TK_COLUMN : Z := 168.
Definition TK_AGG_FUNCTION : Z := 169.
Definition TK_AGG_COLUMN : Z := 170.
Definition TK_TRUEFALSE : Z := 171.
Definition TK_FUNCTION : Z := 172.
Definition TK_UPLUS : Z := 173.
Definition TK_UMINUS : Z := 174.
Definition TK_TRUTH : Z := 175.
Definition TK_REGISTER : Z := 176.
Definition TK_VECTOR : Z := 177.
Definition TK_SELECT_COLUMN : Z := 178.
Definition TK_IF_NULL_ROW : Z := 179.
Definition TK_ASTERISK : Z := 180.
Definition TK_SPAN : Z := 181.
Definition TK_ERROR : Z := 182.
Definition TK_QNUMBER : Z := 183.
Definition TK_SPACE : Z := 184.
Definition TK_COMMENT : Z := 185.
Definition TK_ILLEGAL : Z := 186.

(** ** Character classes *)

Definition CC_X : Z := 0.
Definition CC_KYWD0 : Z := 1.
Definition CC_KYWD : Z := 2.
Definition CC_DIGIT : Z := 3.
Definition CC_DOLLAR : Z := 4.
Definition CC_VARALPHA : Z := 5.
Definition CC_VARNUM : Z := 6.
Definition CC_SPACE : Z := 7.
Definition CC_QUOTE : Z := 8.
Definition CC_QUOTE2 : Z := 9.
Definition CC_PIPE : Z := 10.
Definition CC_MINUS : Z := 11.
Definition CC_LT : Z := 12.
Definition CC_GT : Z := 13.
Definition CC_EQ : Z := 14.
Definition CC_BANG : Z := 15.
Definition CC_SLASH : Z := 16.
Definition CC_LP : Z := 17.
Definition CC_RP : Z := 18.
Definition CC_SEMI : Z := 19.
Definition CC_PLUS : Z := 20.
Definition CC_STAR : Z := 21.
Definition CC_PERCENT : Z := 22.
Definition CC_COMMA : Z := 23.
Definition CC_AND : Z := 24.
Definition CC_TILDA : Z := 25.
Definition CC_DOT : Z := 26.
Definition CC_ID : Z := 27.
Definition CC_ILLEGAL : Z := 28.
Definition CC_NUL : Z := 29.
Definition CC_BOM : Z := 30.

Definition aiClass : list Z :=
  [29; 28; 28; 28; 28; 28; 28; 28; 28; 7; 7; 28; 7; 7; 28; 28;
   28; 28; 28; 28; 28; 28; 28; 28; 28; 28; 28; 28; 28; 28; 28; 28;
   7; 15; 8; 5; 4; 22; 24; 8; 17; 18; 21; 20; 23; 11; 26; 16;
   3; 3; 3; 3; 3; 3; 3; 3; 3; 3; 5; 19; 12; 14; 13; 6;
   5; 1; 1; 1; 1; 1; 1; 1; 1; 1; 1; 1; 1; 1; 1; 1;
   1; 1; 1; 1; 1; 1; 1; 1; 0; 2; 2; 9; 28; 28; 28; 2;
   8; 1; 1; 1; 1; 1; 1; 1; 1; 1; 1; 1; 1; 1; 1; 1;
   1; 1; 1; 1; 1; 1; 1; 1; 0; 2; 2; 28; 10; 28; 25; 28;
   27; 27; 27; 27; 27; 27; 27; 27; 27; 27; 27; 27; 27; 27; 27; 27;
   27; 27; 27; 27; 27; 27; 27; 27; 27; 27; 27; 27; 27; 27; 27; 27;
   27; 27; 27; 27; 27; 27; 27; 27; 27; 27; 27; 27; 27; 27; 27; 27;
   27; 27; 27; 27; 27; 27; 27; 27; 27; 27; 27; 27; 27; 27; 27; 27;
   27; 27; 27; 27; 27; 27; 27; 27; 27; 27; 27; 27; 27; 27; 27; 27;
   27; 27; 27; 27; 27; 27; 27; 27; 27; 27; 27; 27; 27; 27; 27; 27;
   27; 27; 27; 27; 27; 27; 27; 27; 27; 27; 27; 27; 27; 27; 27; 30;
   27; 27; 27; 27; 27; 27; 27; 27; 27; 27; 27; 27; 27; 27; 27; 27].

(** ** The keyword tables *)

Definition zKWText : list Z := Eval cbv in txt
  ("REINDEXEDESCAPEACHECKEYBEFOREIGNOREGEXPLAINSTEADDATABASELECTABLEFTHENDEF" ++
   "ERRABLELSEXCLUDELETEMPORARYISNULLSAVEPOINTERSECTIESNOTNULLIKEXCEPTRANSAC" ++
   "TIONATURALTERAISEXCLUSIVEXISTSCONSTRAINTOFFSETRIGGERANGENERATEDETACHAVIN" ++
   "GLOBEGINNEREFERENCESUNIQUERYWITHOUTERELEASEATTACHBETWEENOTHINGROUPSCASCA" ++
   "DEFAULTCASECOLLATECREATECURRENT_DATEIMMEDIATEJOINSERTMATCHPLANALYZEPRAGM" ++
   "ATERIALIZEDEFERREDISTINCTUPDATEVALUESVIRTUALWAYSWHENWHERECURSIVEABORTAFT" ++
   "ERENAMEANDROPARTITIONAUTOINCREMENTCASTCOLUMNCOMMITCONFLICTCROSSCURRENT_T" ++
   "IMESTAMPRECEDINGFAILASTFILTEREPLACEFIRSTFOLLOWINGFROMFULLIMITIFORDERESTR" ++
   "ICTOTHERSOVERETURNINGRIGHTROLLBACKROWSUNBOUNDEDUNIONUSINGVACUUMVIEWINDOW" ++
   "BYINITIALLYPRIMARY")%string.

Definition aKWHash : list Z :=
  [84; 92; 134; 82; 105; 29; 0; 0; 94; 0; 85; 72; 0; 53; 35; 86; 15; 0; 42; 97; 54; 89; 135;
   19; 0; 0; 140; 0; 40; 129; 0; 22; 107; 0; 9; 0; 0; 123; 80; 0; 78; 6; 0; 65; 103; 147; 0;
   136; 115; 0; 0; 48; 0; 90; 24; 0; 17; 0; 27; 70; 23; 26; 5; 60; 142; 110; 122; 0; 73; 91;
   71; 145; 61; 120; 74; 0; 49; 0; 11; 41; 0; 113; 0; 0; 0; 109; 10; 111; 116; 125; 14; 50;
   124; 0; 100; 0; 18; 121; 144; 56; 130; 139; 88; 83; 37; 30; 126; 0; 0; 108; 51; 131; 128; 0;
   34; 0; 0; 132; 0; 98; 38; 39; 0; 20; 45; 117; 93].

Definition aKWNext : list Z :=
  [0; 0; 0; 0; 0; 4; 0; 43; 0; 0; 106; 114; 0; 0; 0; 2; 0; 0; 143; 0; 0; 0; 13; 0; 0; 0; 0;
   141; 0; 0; 119; 52; 0; 0; 137; 12; 0; 0; 62; 0; 138; 0; 133; 0; 0; 36; 0; 0; 28; 77; 0; 0;
   0; 0; 59; 0; 47; 0; 0; 0; 0; 0; 0; 0; 0; 0; 0; 69; 0; 0; 0; 0; 0; 146; 3; 0; 58; 0; 1; 75;
   0; 0; 0; 31; 0; 0; 0; 0; 0; 127; 0; 104; 0; 64; 66; 63; 0; 0; 0; 0; 0; 46; 0; 16; 8; 0; 0;
   0; 0; 0; 0; 0; 0; 0; 0; 81; 101; 0; 112; 21; 7; 67; 0; 79; 96; 118; 0; 0; 68; 0; 0; 99; 44;
   0; 55; 0; 76; 0; 95; 32; 33; 57; 25; 0; 102; 0; 0; 87].

Definition aKWLen : list Z :=
  [0; 7; 7; 5; 4; 6; 4; 5; 3; 6; 7; 3; 6; 6; 7; 7; 3; 8; 2; 6; 5; 4; 4; 3; 10; 4; 7; 6; 9; 4;
   2; 6; 5; 9; 9; 4; 7; 3; 2; 4; 4; 6; 11; 6; 2; 7; 5; 5; 9; 6; 10; 4; 6; 2; 3; 7; 5; 9; 6; 6;
   4; 5; 5; 10; 6; 5; 7; 4; 5; 7; 6; 7; 7; 6; 5; 7; 3; 7; 4; 7; 6; 12; 9; 4; 6; 5; 4; 7; 6; 12;
   8; 8; 2; 6; 6; 7; 6; 4; 5; 9; 5; 5; 6; 3; 4; 9; 13; 2; 2; 4; 6; 6; 8; 5; 17; 12; 7; 9; 4; 4;
   6; 7; 5; 9; 4; 4; 5; 2; 5; 8; 6; 4; 9; 5; 8; 4; 3; 9; 5; 5; 6; 4; 6; 2; 2; 9; 3; 7].

Definition aKWOffset : list Z :=
  [0; 0; 2; 2; 8; 9; 14; 16; 20; 23; 25; 25; 29; 33; 36; 41; 46; 48; 53; 54; 59; 62; 65; 67;
   69; 78; 81; 86; 90; 90; 94; 99; 101; 105; 111; 119; 123; 123; 123; 126; 129; 132; 137; 142;
   146; 147; 152; 156; 160; 168; 174; 181; 184; 184; 187; 189; 195; 198; 206; 211; 216; 219;
   222; 226; 236; 239; 244; 244; 248; 252; 259; 265; 271; 277; 277; 283; 284; 288; 295; 299;
   306; 312; 324; 333; 335; 341; 346; 348; 355; 359; 370; 377; 378; 385; 391; 397; 402; 408;
   412; 415; 424; 429; 433; 439; 441; 444; 453; 455; 457; 466; 470; 476; 482; 490; 495; 495;
   495; 511; 520; 523; 527; 532; 539; 544; 553; 557; 560; 565; 567; 571; 579; 585; 588; 597;
   602; 610; 610; 614; 623; 628; 633; 639; 642; 645; 648; 650; 655; 659].

Definition aKWCode : list Z :=
  [0; TK_REINDEX; TK_INDEXED; TK_INDEX; TK_DESC; TK_ESCAPE; TK_EACH; TK_CHECK; TK_KEY;
   TK_BEFORE; TK_FOREIGN; TK_FOR; TK_IGNORE; TK_LIKE_KW; TK_EXPLAIN; TK_INSTEAD; TK_ADD;
   TK_DATABASE; TK_AS; TK_SELECT; TK_TABLE; TK_JOIN_KW; TK_THEN; TK_END; TK_DEFERRABLE;
   TK_ELSE; TK_EXCLUDE; TK_DELETE; TK_TEMP; TK_TEMP; TK_OR; TK_ISNULL; TK_NULLS; TK_SAVEPOINT;
   TK_INTERSECT; TK_TIES; TK_NOTNULL; TK_NOT; TK_NO; TK_NULL; TK_LIKE_KW; TK_EXCEPT;
   TK_TRANSACTION; TK_ACTION; TK_ON; TK_JOIN_KW; TK_ALTER; TK_RAISE; TK_EXCLUSIVE; TK_EXISTS;
   TK_CONSTRAINT; TK_INTO; TK_OFFSET; TK_OF; TK_SET; TK_TRIGGER; TK_RANGE; TK_GENERATED;
   TK_DETACH; TK_HAVING; TK_LIKE_KW; TK_BEGIN; TK_JOIN_KW; TK_REFERENCES; TK_UNIQUE; TK_QUERY;
   TK_WITHOUT; TK_WITH; TK_JOIN_KW; TK_RELEASE; TK_ATTACH; TK_BETWEEN; TK_NOTHING; TK_GROUPS;
   TK_GROUP; TK_CASCADE; TK_ASC; TK_DEFAULT; TK_CASE; TK_COLLATE; TK_CREATE; TK_CTIME_KW;
   TK_IMMEDIATE; TK_JOIN; TK_INSERT; TK_MATCH; TK_PLAN; TK_ANALYZE; TK_PRAGMA; TK_MATERIALIZED;
   TK_DEFERRED; TK_DISTINCT; TK_IS; TK_UPDATE; TK_VALUES; TK_VIRTUAL; TK_ALWAYS; TK_WHEN;
   TK_WHERE; TK_RECURSIVE; TK_ABORT; TK_AFTER; TK_RENAME; TK_AND; TK_DROP; TK_PARTITION;
   TK_AUTOINCR; TK_TO; TK_IN; TK_CAST; TK_COLUMNKW; TK_COMMIT; TK_CONFLICT; TK_JOIN_KW;
   TK_CTIME_KW; TK_CTIME_KW; TK_CURRENT; TK_PRECEDING; TK_FAIL; TK_LAST; TK_FILTER; TK_REPLACE;
   TK_FIRST; TK_FOLLOWING; TK_FROM; TK_JOIN_KW; TK_LIMIT; TK_IF; TK_ORDER; TK_RESTRICT;
   TK_OTHERS; TK_OVER; TK_RETURNING; TK_JOIN_KW; TK_ROLLBACK; TK_ROWS; TK_ROW; TK_UNBOUNDED;
   TK_UNION; TK_USING; TK_VACUUM; TK_VIEW; TK_WINDOW; TK_DO; TK_BY; TK_INITIALLY; TK_ALL;
   TK_PRIMARY].

(** ** Looking a keyword up *)

Definition charMap (x : Z) : Z := rd sqlite3UpperToLower (u8 x).

(** [while( j<n && (z[j]&~0x20)==zKW[j] ){ j++; }]: the final [j]. *)
Fixpoint kw_same (fuel : nat) (z zKW : list Z) (n j : Z) : Z :=
  match fuel with
  | O => j
  | S fuel' =>
      if (j <? n) && (Z.land (rd z j) (Z.lnot 0x20) =? rd zKW j) then kw_same fuel' z zKW n (j + 1) else j
  end.

(** The chain of one hash value; [None] when it ends without a match. *)
Fixpoint kw_chain (fuel : nat) (z : list Z) (n i : Z) : option Z :=
  match fuel with
  | O => None
  | S fuel' =>
      if negb (i >? 0) then None
      else
        let zKW := skipn (Z.to_nat (rd aKWOffset i)) zKWText in
        if negb (rd aKWLen i =? n) then kw_chain fuel' z n (rd aKWNext i)
        else if negb (Z.land (rd z 0) (Z.lnot 0x20) =? rd zKW 0) then kw_chain fuel' z n (rd aKWNext i)
        else if negb (Z.land (rd z 1) (Z.lnot 0x20) =? rd zKW 1) then kw_chain fuel' z n (rd aKWNext i)
        else if kw_same (Z.to_nat n) z zKW n 2 <? n then kw_chain fuel' z n (rd aKWNext i)
        else Some i
  end.

Definition kw_hash (z : list Z) (n : Z) : Z :=
  Z.lxor (Z.lxor (charMap (rd z 0) * 4) (charMap (rd z (n - 1)) * 3)) (n * 1) mod 127.

(** The value returned and [*pType] afterwards. *)
Definition keywordCode (z : list Z) (n : Z) (pType : Z) : Z * Z :=
  match kw_chain (length aKWNext) z n (rd aKWHash (kw_hash z n)) with
  | Some i => (n, rd aKWCode i)
  | None => (n, pType)
  end.

Definition sqlite3KeywordCode (z : list Z) (n : Z) : Z :=
  let id := TK_ID in if n >=? 2 then snd (keywordCode z n id) else id.

Definition SQLITE_N_KEYWORD : Z := 147.

(** [None] is [SQLITE_ERROR]. *)
Definition sqlite3_keyword_name (i : Z) : option (list Z * Z) :=
  if (i <? 0) || (i >=? SQLITE_N_KEYWORD) then None
  else
    let i := i + 1 in
    Some (skipn (Z.to_nat (rd aKWOffset i)) zKWText, rd aKWLen i).
Definition sqlite3_keyword_count : Z := SQLITE_N_KEYWORD.
Definition sqlite3_keyword_check (zName : list Z) (nName : Z) : bool :=
  negb (TK_ID =? sqlite3KeywordCode zName nName).

(** ** The keywords *)

(** The keywords, spelled as the code lists them, with their token codes. *)
Definition keyword_table : list (string * Z) :=
  [("REINDEX", TK_REINDEX); ("INDEXED", TK_INDEXED); ("INDEX", TK_INDEX); ("DESC", TK_DESC);
   ("ESCAPE", TK_ESCAPE); ("EACH", TK_EACH); ("CHECK", TK_CHECK); ("KEY", TK_KEY);
   ("BEFORE", TK_BEFORE); ("FOREIGN", TK_FOREIGN); ("FOR", TK_FOR); ("IGNORE", TK_IGNORE);
   ("REGEXP", TK_LIKE_KW); ("EXPLAIN", TK_EXPLAIN); ("INSTEAD", TK_INSTEAD); ("ADD", TK_ADD);
   ("DATABASE", TK_DATABASE); ("AS", TK_AS); ("SELECT", TK_SELECT); ("TABLE", TK_TABLE);
   ("LEFT", TK_JOIN_KW); ("THEN", TK_THEN); ("END", TK_END); ("DEFERRABLE", TK_DEFERRABLE);
   ("ELSE", TK_ELSE); ("EXCLUDE", TK_EXCLUDE); ("DELETE", TK_DELETE); ("TEMPORARY", TK_TEMP);
   ("TEMP", TK_TEMP); ("OR", TK_OR); ("ISNULL", TK_ISNULL); ("NULLS", TK_NULLS);
   ("SAVEPOINT", TK_SAVEPOINT); ("INTERSECT", TK_INTERSECT); ("TIES", TK_TIES);
   ("NOTNULL", TK_NOTNULL); ("NOT", TK_NOT); ("NO", TK_NO); ("NULL", TK_NULL);
   ("LIKE", TK_LIKE_KW); ("EXCEPT", TK_EXCEPT); ("TRANSACTION", TK_TRANSACTION);
   ("ACTION", TK_ACTION); ("ON", TK_ON); ("NATURAL", TK_JOIN_KW); ("ALTER", TK_ALTER);
   ("RAISE", TK_RAISE); ("EXCLUSIVE", TK_EXCLUSIVE); ("EXISTS", TK_EXISTS);
   ("CONSTRAINT", TK_CONSTRAINT); ("INTO", TK_INTO); ("OFFSET", TK_OFFSET); ("OF", TK_OF);
   ("SET", TK_SET); ("TRIGGER", TK_TRIGGER); ("RANGE", TK_RANGE); ("GENERATED", TK_GENERATED);
   ("DETACH", TK_DETACH); ("HAVING", TK_HAVING); ("GLOB", TK_LIKE_KW); ("BEGIN", TK_BEGIN);
   ("INNER", TK_JOIN_KW); ("REFERENCES", TK_REFERENCES); ("UNIQUE", TK_UNIQUE);
   ("QUERY", TK_QUERY); ("WITHOUT", TK_WITHOUT); ("WITH", TK_WITH); ("OUTER", TK_JOIN_KW);
   ("RELEASE", TK_RELEASE); ("ATTACH", TK_ATTACH); ("BETWEEN", TK_BETWEEN);
   ("NOTHING", TK_NOTHING); ("GROUPS", TK_GROUPS); ("GROUP", TK_GROUP);
   ("CASCADE", TK_CASCADE); ("ASC", TK_ASC); ("DEFAULT", TK_DEFAULT); ("CASE", TK_CASE);
   ("COLLATE", TK_COLLATE); ("CREATE", TK_CREATE); ("CURRENT_DATE", TK_CTIME_KW);
   ("IMMEDIATE", TK_IMMEDIATE); ("JOIN", TK_JOIN); ("INSERT", TK_INSERT); ("MATCH", TK_MATCH);
   ("PLAN", TK_PLAN); ("ANALYZE", TK_ANALYZE); ("PRAGMA", TK_PRAGMA);
   ("MATERIALIZED", TK_MATERIALIZED); ("DEFERRED", TK_DEFERRED); ("DISTINCT", TK_DISTINCT);
   ("IS", TK_IS); ("UPDATE", TK_UPDATE); ("VALUES", TK_VALUES); ("VIRTUAL", TK_VIRTUAL);
   ("ALWAYS", TK_ALWAYS); ("WHEN", TK_WHEN); ("WHERE", TK_WHERE); ("RECURSIVE", TK_RECURSIVE);
   ("ABORT", TK_ABORT); ("AFTER", TK_AFTER); ("RENAME", TK_RENAME); ("AND", TK_AND);
   ("DROP", TK_DROP); ("PARTITION", TK_PARTITION); ("AUTOINCREMENT", TK_AUTOINCR);
   ("TO", TK_TO); ("IN", TK_IN); ("CAST", TK_CAST); ("COLUMN", TK_COLUMNKW);
   ("COMMIT", TK_COMMIT); ("CONFLICT", TK_CONFLICT); ("CROSS", TK_JOIN_KW);
   ("CURRENT_TIMESTAMP", TK_CTIME_KW); ("CURRENT_TIME", TK_CTIME_KW); ("CURRENT", TK_CURRENT);
   ("PRECEDING", TK_PRECEDING); ("FAIL", TK_FAIL); ("LAST", TK_LAST); ("FILTER", TK_FILTER);
   ("REPLACE", TK_REPLACE); ("FIRST", TK_FIRST); ("FOLLOWING", TK_FOLLOWING);
   ("FROM", TK_FROM); ("FULL", TK_JOIN_KW); ("LIMIT", TK_LIMIT); ("IF", TK_IF);
   ("ORDER", TK_ORDER); ("RESTRICT", TK_RESTRICT); ("OTHERS", TK_OTHERS); ("OVER", TK_OVER);
   ("RETURNING", TK_RETURNING); ("RIGHT", TK_JOIN_KW); ("ROLLBACK", TK_ROLLBACK);
   ("ROWS", TK_ROWS); ("ROW", TK_ROW); ("UNBOUNDED", TK_UNBOUNDED); ("UNION", TK_UNION);
   ("USING", TK_USING); ("VACUUM", TK_VACUUM); ("VIEW", TK_VIEW); ("WINDOW", TK_WINDOW);
   ("DO", TK_DO); ("BY", TK_BY); ("INITIALLY", TK_INITIALLY); ("ALL", TK_ALL);
   ("PRIMARY", TK_PRIMARY)]%string.

(** What the comparison makes of a byte: small letters become capitals. *)
Definition fold_case (c : Z) : Z := Z.land c (Z.lnot 0x20).

Fixpoint find_in (table : list (string * Z)) (w : list Z) : option Z :=
  match table with
  | [] => None
  | (name, code) :: table' => if list_eq_dec Z.eq_dec (txt name) w then Some code else find_in table' w
  end.
Definition find_keyword (w : list Z) : option Z := find_in keyword_table w.

(** The text of the [i]-th keyword in the compressed table. *)
Definition keyword (i : Z) : list Z :=
  firstn (Z.to_nat (rd aKWLen i)) (skipn (Z.to_nat (rd aKWOffset i)) zKWText).
Definition indices : list Z := map Z.of_nat (seq 1 147).

(** ** Facts of the tables, by evaluation *)

Lemma keywords_spelled : map keyword indices = map (fun kc => txt (fst kc)) keyword_table.
Proof. vm_compute. reflexivity. Qed.

Lemma keywords_coded : forallb (fun i => match find_keyword (keyword i) with
  | Some c => c =? rd aKWCode i | None => false end) indices = true.
Proof. vm_compute. reflexivity. Qed.

Lemma keywords_shaped : forallb (fun i =>
  (rd aKWLen i =? Z.of_nat (length (keyword i))) && (2 <=? rd aKWLen i) &&
  (65 <=? rd (keyword i) 0) && (rd (keyword i) 0 <=? 90) &&
  (65 <=? rd (keyword i) (rd aKWLen i - 1)) && (rd (keyword i) (rd aKWLen i - 1) <=? 90)) indices = true.
Proof. vm_compute. reflexivity. Qed.

(** A chain of the hash, as a list. *)
Fixpoint chain (fuel : nat) (i : Z) : list Z :=
  match fuel with
  | O => []
  | S fuel' => if i >? 0 then i :: chain fuel' (rd aKWNext i) else []
  end.
Definition bucket (h : Z) : list Z := chain (length aKWNext) (rd aKWHash h).

Lemma keywords_hashed :
  forallb (fun i => existsb (Z.eqb i) (bucket (kw_hash (keyword i) (rd aKWLen i)))) indices = true.
Proof. vm_compute. reflexivity. Qed.

Lemma hash_in_range : forallb (fun i => (0 <=? i) && (i <=? 147)) aKWHash = true.
Proof. vm_compute. reflexivity. Qed.
Lemma next_in_range : forallb (fun i => (0 <=? i) && (i <=? 147)) aKWNext = true.
Proof. vm_compute. reflexivity. Qed.

Lemma table_range t i : forallb (fun i => (0 <=? i) && (i <=? 147)) t = true -> 0 <= rd t i <= 147.
Proof.
  rewrite forallb_forall. intros H. unfold rd. destruct (nth_in_or_default (Z.to_nat i) t 0) as [Hin| ->]; [|lia].
  specialize (H _ Hin). lia.
Qed.

Lemma in_indices i : 1 <= i <= 147 <-> In i indices.
Proof.
  unfold indices. rewrite in_map_iff. split.
  - intros H. exists (Z.to_nat i). split; [lia|]. apply in_seq. lia.
  - intros (k & <- & H). apply in_seq in H. lia.
Qed.

Lemma chain_indices fuel i : 0 <= i <= 147 -> Forall (fun i => In i indices) (chain fuel i).
Proof.
  revert i. induction fuel as [|fuel IH]; intros i Hi; cbn [chain]; [constructor|].
  destruct (Z.gtb_spec i 0); constructor; [apply in_indices; lia|]. apply IH, table_range, next_in_range.
Qed.

Lemma bucket_indices h : Forall (fun i => In i indices) (bucket h).
Proof. apply chain_indices, table_range, hash_in_range. Qed.

Lemma keyword_shape i : In i indices ->
  rd aKWLen i = Z.of_nat (length (keyword i)) /\ 2 <= rd aKWLen i /\
  65 <= rd (keyword i) 0 <= 90 /\ 65 <= rd (keyword i) (rd aKWLen i - 1) <= 90.
Proof.
  intros Hi. pose proof (proj1 (forallb_forall _ _) keywords_shaped i Hi) as H. cbv beta in H. lia.
Qed.

Lemma keyword_code i : In i indices -> find_keyword (keyword i) = Some (rd aKWCode i).
Proof.
  intros Hi. pose proof (proj1 (forallb_forall _ _) keywords_coded i Hi) as H. cbv beta in H.
  destruct (find_keyword (keyword i)); [|discriminate]. apply Z.eqb_eq in H. congruence.
Qed.

Lemma find_in_inv table w c : find_in table w = Some c -> In w (map (fun kc => txt (fst kc)) table).
Proof.
  induction table as [|[name code] table IH]; cbn; [discriminate|]. destruct list_eq_dec as [->|]; auto.
Qed.

Lemma keyword_found w c : find_keyword w = Some c -> exists i, In i indices /\ keyword i = w.
Proof.
  intros H. apply find_in_inv in H. rewrite <- keywords_spelled in H. apply in_map_iff in H as (i & E & Hi). eauto.
Qed.

(** ** The comparison *)

Lemma kw_same_le fuel z k n j : j <= n -> j <= kw_same fuel z k n j <= n.
Proof.
  revert j. induction fuel as [|fuel IH]; intros j Hj; cbn [kw_same]; [lia|].
  destruct (Z.ltb_spec j n); cbn [andb]; [|lia]. destruct (_ =? _); [|lia]. specialize (IH (j + 1)). lia.
Qed.

Lemma kw_same_all fuel z k n j : 0 <= j -> n - j <= Z.of_nat fuel ->
  (kw_same fuel z k n j <? n) = false <-> (forall m, j <= m < n -> fold_case (rd z m) = rd k m).
Proof.
  revert j. induction fuel as [|fuel IH]; intros j Hj Hf; cbn [kw_same].
  { rewrite Z.ltb_ge. split; [|lia]. intros; lia. }
  destruct (Z.ltb_spec j n); cbn [andb].
  2:{ rewrite Z.ltb_ge. split; [|lia]. intros; lia. }
  destruct (Z.eqb_spec (Z.land (rd z j) (Z.lnot 32)) (rd k j)) as [E|E].
  - rewrite IH by lia. split; intros HA m Hm; [|apply HA; lia].
    destruct (Z.eq_dec m j) as [->|]; [exact E|apply HA; lia].
  - rewrite Z.ltb_ge. split; [lia|]. intros HA. exfalso. apply E, HA. lia.
Qed.

Lemma rd_ext (a b : list Z) : length a = length b -> (forall m, 0 <= m < Z.of_nat (length a) -> rd a m = rd b m) -> a = b.
Proof.
  intros HL H. apply (nth_ext a b 0 0 HL). intros k Hk. specialize (H (Z.of_nat k)). unfold rd in H. rewrite Nat2Z.id in H. apply H. lia.
Qed.

Lemma rd_firstn (l : list Z) n m : 0 <= m < n -> rd (firstn (Z.to_nat n) l) m = rd l m.
Proof. intros H. unfold rd. rewrite nth_firstn. replace (Z.to_nat m <? Z.to_nat n)%nat with true by (symmetry; apply Nat.ltb_lt; lia). reflexivity. Qed.

Lemma rd_map_fold (l : list Z) m : rd (map fold_case l) m = fold_case (rd l m).
Proof. unfold rd. rewrite <- (map_nth fold_case). reflexivity. Qed.

(** The word a text holds, as the comparison sees it. *)
Definition word (z : list Z) (n : Z) : list Z := map fold_case (firstn (Z.to_nat n) z).

Lemma length_word z n : 0 <= n <= Z.of_nat (length z) -> Z.of_nat (length (word z n)) = n.
Proof. intros H. unfold word. rewrite length_map, length_firstn. lia. Qed.

Lemma rd_word z n m : 0 <= m < n -> rd (word z n) m = fold_case (rd z m).
Proof. intros H. unfold word. now rewrite rd_map_fold, rd_firstn. Qed.

(** The conditions of one round amount to equality with the keyword. *)
Lemma keyword_matches z n i : In i indices -> 2 <= n <= Z.of_nat (length z) ->
  (rd aKWLen i = n /\ forall m, 0 <= m < n -> fold_case (rd z m) = rd (skipn (Z.to_nat (rd aKWOffset i)) zKWText) m) <->
  keyword i = word z n.
Proof.
  intros Hi Hn. destruct (keyword_shape i Hi) as (HL & _). split.
  - intros [E H]. apply rd_ext.
    + apply Nat2Z.inj. rewrite length_word; lia.
    + intros m Hm. rewrite rd_word by lia. unfold keyword. rewrite rd_firstn by lia. symmetry. apply H. lia.
  - intros E. assert (EL : rd aKWLen i = n) by (rewrite HL, E; apply length_word; lia).
    split; [exact EL|]. intros m Hm. rewrite <- (rd_word z n m Hm), <- E. unfold keyword. apply rd_firstn. lia.
Qed.

Lemma kw_chain_find fuel z n i : 0 <= i <= 147 -> 2 <= n <= Z.of_nat (length z) ->
  kw_chain fuel z n i = find (fun i => if list_eq_dec Z.eq_dec (keyword i) (word z n) then true else false) (chain fuel i).
Proof.
  intros Hi Hn. revert i Hi. induction fuel as [|fuel IH]; intros i Hi; [reflexivity|].
  cbn [kw_chain chain]. destruct (Z.gtb_spec i 0) as [Hp|]; cbn [negb find]; [|reflexivity].
  pose proof (IH _ (table_range _ i next_in_range)) as Hnext.
  assert (Hin : In i indices) by (apply in_indices; lia).
  pose proof (keyword_matches z n i Hin Hn) as HM.
  set (k := skipn (Z.to_nat (rd aKWOffset i)) zKWText) in *.
  pose proof (kw_same_all (Z.to_nat n) z k n 2 ltac:(lia) ltac:(lia)) as HS.
  destruct list_eq_dec as [E|E].
  - apply HM in E as [EL EM].
    pose proof (EM 0 ltac:(lia)) as E0. pose proof (EM 1 ltac:(lia)) as E1. unfold fold_case in E0, E1.
    rewrite EL, E0, E1, !Z.eqb_refl. cbn [negb].
    replace (kw_same (Z.to_nat n) z k n 2 <? n) with false by (symmetry; apply HS; intros; apply EM; lia). reflexivity.
  - destruct (Z.eqb_spec (rd aKWLen i) n) as [EL|]; cbn [negb]; [|exact Hnext].
    destruct (Z.eqb_spec (Z.land (rd z 0) (Z.lnot 32)) (rd k 0)) as [E0|]; cbn [negb]; [|exact Hnext].
    destruct (Z.eqb_spec (Z.land (rd z 1) (Z.lnot 32)) (rd k 1)) as [E1|]; cbn [negb]; [|exact Hnext].
    destruct (kw_same (Z.to_nat n) z k n 2 <? n) eqn:ES; [exact Hnext|].
    exfalso. apply E, HM. split; [exact EL|]. intros m Hm.
    destruct (Z.eq_dec m 0) as [->|]; [exact E0|]. destruct (Z.eq_dec m 1) as [->|]; [exact E1|].
    apply (proj1 HS eq_refl). lia.
Qed.

(** ** The hash *)

Lemma charMap_fold x : is_u8 x -> 65 <= fold_case x <= 90 -> charMap x = charMap (fold_case x).
Proof.
  intros Hx HK. pose proof (byte_forall (fun x => implb ((65 <=? fold_case x) && (fold_case x <=? 90)) (charMap x =? charMap (fold_case x)))
    ltac:(vm_compute; reflexivity) x Hx) as H. cbv beta in H.
  replace ((65 <=? fold_case x) && (fold_case x <=? 90)) with true in H by lia. now apply Z.eqb_eq.
Qed.

Lemma hash_word z n i : bytes z -> In i indices -> 2 <= n <= Z.of_nat (length z) -> keyword i = word z n ->
  kw_hash z n = kw_hash (keyword i) (rd aKWLen i).
Proof.
  intros Hz Hi Hn E. destruct (keyword_shape i Hi) as (HL & _ & H0 & H1).
  assert (EL : rd aKWLen i = n) by (rewrite HL, E; apply length_word; lia).
  rewrite EL in *. unfold kw_hash. rewrite E, !rd_word in * by lia.
  rewrite (charMap_fold (rd z 0)), (charMap_fold (rd z (n - 1))) by (auto using rd_u8). reflexivity.
Qed.

Lemma hashed i : In i indices -> In i (bucket (kw_hash (keyword i) (rd aKWLen i))).
Proof.
  intros Hi. pose proof (proj1 (forallb_forall _ _) keywords_hashed i Hi) as H. cbv beta in H.
  apply existsb_exists in H as (j & Hj & E). apply Z.eqb_eq in E. congruence.
Qed.

Lemma bucket_find z n : 2 <= n <= Z.of_nat (length z) ->
  kw_chain (length aKWNext) z n (rd aKWHash (kw_hash z n)) =
  find (fun i => if list_eq_dec Z.eq_dec (keyword i) (word z n) then true else false) (bucket (kw_hash z n)).
Proof. intros Hn. unfold bucket. rewrite kw_chain_find by (try apply table_range, hash_in_range; lia). reflexivity. Qed.

Lemma kw_lookup z n : bytes z -> 2 <= n <= Z.of_nat (length z) ->
  option_map (rd aKWCode) (kw_chain (length aKWNext) z n (rd aKWHash (kw_hash z n))) = find_keyword (word z n).
Proof.
  intros Hz Hn. rewrite bucket_find by lia.
  destruct (find _ (bucket (kw_hash z n))) as [i|] eqn:F; cbn [option_map].
  - apply find_some in F as [Hin E]. destruct list_eq_dec as [<-|]; [|discriminate].
    symmetry. apply keyword_code. exact (proj1 (Forall_forall _ _) (bucket_indices (kw_hash z n)) i Hin).
  - destruct (find_keyword (word z n)) as [c|] eqn:K; [|reflexivity]. exfalso.
    destruct (keyword_found _ _ K) as (i & Hi & E).
    pose proof (hashed i Hi) as HB. rewrite <- (hash_word z n i Hz Hi Hn E) in HB.
    pose proof (find_none _ _ F i HB) as HN. cbv beta in HN. destruct list_eq_dec; congruence.
Qed.

(** The result depends on the word alone. *)
Lemma keyword_code_eq z n pType : bytes z -> 2 <= n <= Z.of_nat (length z) ->
  keywordCode z n pType = (n, match find_keyword (word z n) with Some code => code | None => pType end).
Proof.
  intros Hz Hn. rewrite <- (kw_lookup z n Hz Hn). unfold keywordCode. destruct (kw_chain _ _ _ _); reflexivity.
Qed.

Lemma keyword_code_prefix y z n pType : bytes y -> bytes z -> 2 <= n ->
  n <= Z.of_nat (length y) -> n <= Z.of_nat (length z) -> firstn (Z.to_nat n) y = firstn (Z.to_nat n) z ->
  keywordCode y n pType = keywordCode z n pType.
Proof. intros Hy Hz H2 H3 H4 E. rewrite !keyword_code_eq by (assumption || lia). unfold word. now rewrite E. Qed.

(** ** Case and the underscore *)

(** The letters of a word as capitals. *)
Definition capital (c : Z) : Z := if (97 <=? c) && (c <=? 122) then c - 32 else c.

(** The byte DEL, which the comparison takes for an underscore. *)
Definition del_as_underscore (c : Z) : Z := if c =? 127 then 95 else c.

Definition keyword_byte (k : Z) : bool := ((65 <=? k) && (k <=? 90)) || (k =? 95).

Lemma keyword_bytes : forallb (fun kc => forallb keyword_byte (txt (fst kc))) keyword_table = true.
Proof. vm_compute. reflexivity. Qed.

Lemma fold_capital c k : is_u8 c -> keyword_byte k = true -> k = fold_case c <-> k = capital (del_as_underscore c).
Proof.
  intros Hc Hk. pose proof (byte_forall (fun c =>
    implb (keyword_byte (fold_case c)) (capital (del_as_underscore c) =? fold_case c) &&
    implb (keyword_byte (capital (del_as_underscore c))) (capital (del_as_underscore c) =? fold_case c))
    ltac:(vm_compute; reflexivity) c Hc) as H. cbv beta in H. apply andb_true_iff in H as [H1 H2].
  split; intros ->; rewrite Hk in *; cbn [implb] in *; [apply Z.eqb_eq in H1|apply Z.eqb_eq in H2]; congruence.
Qed.

Lemma folded_word w name : bytes w -> forallb keyword_byte name = true ->
  name = map fold_case w <-> name = map capital (map del_as_underscore w).
Proof.
  intros Hw. revert name. induction Hw as [|c w Hc Hw IH]; intros [|k name] HN; cbn [map]; try tauto; try (split; discriminate).
  cbn [forallb] in HN. apply andb_true_iff in HN as [HK HN].
  split; intros [= E1 E2]; f_equal; [now apply fold_capital|now apply IH|now apply fold_capital|now apply IH].
Qed.

Lemma find_folded w : bytes w -> find_keyword (map fold_case w) = find_keyword (map capital (map del_as_underscore w)).
Proof.
  intros Hw. pose proof keyword_bytes as HB. unfold find_keyword. revert HB. induction keyword_table as [|[name code] table IH]; intros HB; [reflexivity|].
  cbn [forallb fst] in HB. apply andb_true_iff in HB as [HN HB]. cbn [find_in]. pose proof (folded_word w (txt name) Hw HN) as HF.
  do 2 destruct list_eq_dec; tauto || auto.
Qed.

(** C22: the generated perfect hash is right.  For every text of two bytes or
    more, [keywordCode] returns the length and stores the code of the keyword
    that the text spells in any mixture of capitals and small letters, and leaves
    the type alone when there is none.  The one exception is a defect that the
    statement spells out: the byte DEL is taken for an underscore. *)
Theorem keyword_code_correct z n pType : bytes z -> 2 <= n <= Z.of_nat (length z) ->
  keywordCode z n pType =
    (n, match find_keyword (map capital (map del_as_underscore (firstn (Z.to_nat n) z))) with Some code => code | None => pType end).
Proof.
  intros Hz Hn. rewrite keyword_code_eq by assumption. unfold word. rewrite find_folded; [reflexivity|].
  unfold bytes in *. rewrite <- (firstn_skipn (Z.to_nat n) z), Forall_app in Hz. apply Hz.
Qed.

Lemma keyword_code_correct_witness : keywordCode (txt "SeLect*") 6 TK_ID = (6, TK_SELECT).
Proof.
  rewrite (keyword_code_correct (txt "SeLect*") 6 TK_ID).
  - vm_compute. reflexivity.
  - repeat constructor; unfold is_u8; cbn; lia.
  - cbn. lia.
Defined.

(** The comparison clears bit 5 of every byte, so DEL (127) passes for the
    underscore: this text is reported to be the keyword CURRENT_DATE. *)
Lemma keyword_check_del :
  sqlite3_keyword_check (txt "CURRENT" ++ [127] ++ txt "DATE") 12 = true /\
  sqlite3StrICmp (txt "CURRENT" ++ [127] ++ txt "DATE") (txt "CURRENT_DATE") <> 0.
Proof. split; vm_compute; [reflexivity|discriminate]. Qed.
