(* ===== verification/Tokenizer.v ===== *)
(** * Tokenizer: the tokens of SQL text

    Models [sqlite3GetToken] of [tokenize.c] in [src/api-core/src/db/sqlite3.c].
    A text is the list of its bytes; in memory a terminating 0 and other bytes
    follow.  The theorems: the routine looks at nothing behind the terminator,
    always moves forward and never past the end; its shortcut for keywords is
    equivalent to taking the longest run of identifier characters and looking
    it up; a string that is quoted by doubling its quotes is one token, and
    dequoting it gives the string back. *)

From Stdlib Require Import String ZArith List Lia Bool.
Import ListNotations.
From S2P Require Import Prelude Ctype IntText Keywords.
#[local] Open Scope Z_scope.

Definition class_of (c : Z) : Z := rd aiClass (u8 c).

(** [for(i=k; P(z[i]); i++){}] gives [k + span P (from k z)]. *)
Definition from (k : Z) (z : list Z) : list Z := skipn (Z.to_nat k) z.
Fixpoint span (P : Z -> bool) (z : list Z) : Z :=
  match z with
  | [] => 0
  | c :: z' => if P c then 1 + span P z' else 0
  end.

Definition not_eol (c : Z) : bool := negb (c =? 0) && negb (c =? 10).

(** [for(; (c!='*' || z[i]!='/') && (c=z[i])!=0; i++){}], with [z] the text at
    [i]; the final [i] and [c]. *)
Fixpoint block_comment (c : Z) (z : list Z) (i : Z) : Z * Z :=
  match z with
  | [] => (i, 0)
  | d :: z' =>
      if negb (c =? 42) || negb (d =? 47) then
        if d =? 0 then (i, 0) else block_comment d z' (i + 1)
      else (i, c)
  end.

(** The loop over a quoted string; the final [i] and [c]. *)
Fixpoint quoted (delim : Z) (z : list Z) (i : Z) : Z * Z :=
  match z with
  | [] => (i, 0)
  | c :: z' =>
      if c =? 0 then (i, 0)
      else if c =? delim then
        match z' with
        | d :: z'' => if d =? delim then quoted delim z'' (i + 1 + 1) else (i, c)
        | [] => (i, c)
        end
      else quoted delim z' (i + 1)
  end.

Definition SQLITE_DIGIT_SEPARATOR : Z := 95.

(** Digits and separators; the final [i] and [*tokenType]. *)
Fixpoint digits (isdig : Z -> bool) (z : list Z) (i tokenType : Z) : Z * Z :=
  match z with
  | [] => (i, tokenType)
  | c :: z' =>
      if negb (isdig c) then
        if c =? SQLITE_DIGIT_SEPARATOR then digits isdig z' (i + 1) TK_QNUMBER else (i, tokenType)
      else digits isdig z' (i + 1) tokenType
  end.

Definition to_float (tokenType : Z) : Z := if tokenType =? TK_INTEGER then TK_FLOAT else tokenType.

(** The case [CC_DIGIT]. *)
Definition hex_prefix (z : list Z) : bool :=
  (rd z 0 =? 48) && ((rd z 1 =? 120) || (rd z 1 =? 88)) && sqlite3Isxdigit (rd z 2).
Definition exponent (z : list Z) (i : Z) : bool :=
  ((rd z i =? 101) || (rd z i =? 69)) &&
  (sqlite3Isdigit (rd z (i + 1)) ||
   (((rd z (i + 1) =? 43) || (rd z (i + 1) =? 45)) && sqlite3Isdigit (rd z (i + 2)))).
Definition fraction (z : list Z) (it : Z * Z) : Z * Z :=
  let '(i, t) := it in
  if rd z i =? 46 then digits sqlite3Isdigit (from (i + 1) z) (i + 1) (to_float t) else (i, t).
Definition power (z : list Z) (it : Z * Z) : Z * Z :=
  let '(i, t) := it in
  if exponent z i then digits sqlite3Isdigit (from (i + 2) z) (i + 2) (to_float t) else (i, t).
Definition number (z : list Z) : Z * Z :=
  let '(i, t) :=
    if hex_prefix z then digits sqlite3Isxdigit (from 3 z) 3 TK_INTEGER
    else power z (fraction z (digits sqlite3Isdigit z 0 TK_INTEGER)) in
  let n := span IdChar (from i z) in
  (i + n, if n >? 0 then TK_ILLEGAL else t).

Definition tcl_char (c : Z) : bool := negb (c =? 0) && negb (sqlite3Isspace c) && negb (c =? 41).

(** The loop of the case [CC_VARALPHA]; the final [i], [n] and [*tokenType]. *)
Fixpoint variable (z : list Z) (i n : Z) : Z * Z * Z :=
  match z with
  | [] => (i, n, TK_VARIABLE)
  | c :: z' =>
      if c =? 0 then (i, n, TK_VARIABLE)
      else if IdChar c then variable z' (i + 1) (n + 1)
      else if (c =? 40) && (n >? 0) then
        let k := span tcl_char z' in
        if rd z' k =? 41 then (i + 1 + k + 1, n, TK_VARIABLE) else (i + 1 + k, n, TK_ILLEGAL)
      else
        match z' with
        | d :: z'' => if (c =? 58) && (d =? 58) then variable z'' (i + 1 + 1) n else (i, n, TK_VARIABLE)
        | [] => (i, n, TK_VARIABLE)
        end
  end.

(** The end of the routine, reached by [break]. *)
Definition identifier (z : list Z) (i : Z) : Z * Z := (i + span IdChar (from i z), TK_ID).

Definition in_keyword (c : Z) : bool := class_of c <=? CC_KYWD.

(** The case [CC_KYWD0]. *)
Definition keyword_or_id (z : list Z) : Z * Z :=
  if class_of (rd z 1) >? CC_KYWD then identifier z 1
  else
    let i := 2 + span in_keyword (from 2 z) in
    if IdChar (rd z i) then identifier z (i + 1) else keywordCode z i TK_ID.

(** The case [CC_X] for [x'...']. *)
Definition not_quote (c : Z) : bool := negb (c =? 0) && negb (c =? 39).
Definition blob (z : list Z) : Z * Z :=
  let i := 2 + span sqlite3Isxdigit (from 2 z) in
  let '(i, t) :=
    if negb (rd z i =? 39) || negb (i mod 2 =? 0) then (i + span not_quote (from i z), TK_ILLEGAL)
    else (i, TK_BLOB) in
  (if negb (rd z i =? 0) then i + 1 else i, t).

(** The value returned and [*tokenType]. *)
Definition sqlite3GetToken (z : list Z) : Z * Z :=
  let cls := class_of (rd z 0) in
  if cls =? CC_SPACE then (1 + span sqlite3Isspace (from 1 z), TK_SPACE)
  else if cls =? CC_MINUS then
    if rd z 1 =? 45 then (2 + span not_eol (from 2 z), TK_COMMENT)
    else if rd z 1 =? 62 then (2 + Z.b2z (rd z 2 =? 62), TK_PTR)
    else (1, TK_MINUS)
  else if cls =? CC_LP then (1, TK_LP)
  else if cls =? CC_RP then (1, TK_RP)
  else if cls =? CC_SEMI then (1, TK_SEMI)
  else if cls =? CC_PLUS then (1, TK_PLUS)
  else if cls =? CC_STAR then (1, TK_STAR)
  else if cls =? CC_SLASH then
    if negb (rd z 1 =? 42) || (rd z 2 =? 0) then (1, TK_SLASH)
    else
      let '(i, c) := block_comment (rd z 2) (from 3 z) 3 in
      (if negb (c =? 0) then i + 1 else i, TK_COMMENT)
  else if cls =? CC_PERCENT then (1, TK_REM)
  else if cls =? CC_EQ then (1 + Z.b2z (rd z 1 =? 61), TK_EQ)
  else if cls =? CC_LT then
    let c := rd z 1 in
    if c =? 61 then (2, TK_LE) else if c =? 62 then (2, TK_NE) else if c =? 60 then (2, TK_LSHIFT) else (1, TK_LT)
  else if cls =? CC_GT then
    let c := rd z 1 in
    if c =? 61 then (2, TK_GE) else if c =? 62 then (2, TK_RSHIFT) else (1, TK_GT)
  else if cls =? CC_BANG then if negb (rd z 1 =? 61) then (1, TK_ILLEGAL) else (2, TK_NE)
  else if cls =? CC_PIPE then if negb (rd z 1 =? 124) then (1, TK_BITOR) else (2, TK_CONCAT)
  else if cls =? CC_COMMA then (1, TK_COMMA)
  else if cls =? CC_AND then (1, TK_BITAND)
  else if cls =? CC_TILDA then (1, TK_BITNOT)
  else if cls =? CC_QUOTE then
    let '(i, c) := quoted (rd z 0) (from 1 z) 1 in
    if c =? 39 then (i + 1, TK_STRING) else if negb (c =? 0) then (i + 1, TK_ID) else (i, TK_ILLEGAL)
  else if (cls =? CC_DOT) && negb (sqlite3Isdigit (rd z 1)) then (1, TK_DOT)
  else if (cls =? CC_DOT) || (cls =? CC_DIGIT) then number z
  else if cls =? CC_QUOTE2 then
    let k := span (fun c => negb (c =? 0) && negb (c =? 93)) (from 1 z) in
    if rd z (1 + k) =? 93 then (1 + k + 1, TK_ID) else (1 + k, TK_ILLEGAL)
  else if cls =? CC_VARNUM then (1 + span sqlite3Isdigit (from 1 z), TK_VARIABLE)
  else if (cls =? CC_DOLLAR) || (cls =? CC_VARALPHA) then
    let '(i, n, t) := variable (from 1 z) 1 0 in (i, if n =? 0 then TK_ILLEGAL else t)
  else if cls =? CC_KYWD0 then keyword_or_id z
  else if (cls =? CC_X) && (rd z 1 =? 39) then blob z
  else if (cls =? CC_X) || (cls =? CC_KYWD) || (cls =? CC_ID) then identifier z 1
  else if cls =? CC_BOM then
    if (rd z 1 =? 187) && (rd z 2 =? 191) then (3, TK_SPACE) else identifier z 1
  else if cls =? CC_NUL then (0, TK_ILLEGAL)
  else (1, TK_ILLEGAL).

(** ** Texts in memory

    [z ++ 0 :: junk] is a text with its terminator and what follows it. *)

Lemma span_range P z : 0 <= span P z <= Z.of_nat (length z).
Proof. induction z as [|c z IH]; cbn [span length]; [lia|]. destruct (P c); lia. Qed.

Lemma span_local P z junk : P 0 = false -> span P (z ++ 0 :: junk) = span P z.
Proof. intros H. induction z as [|c z IH]; cbn [app span]; [now rewrite H|]. now rewrite IH. Qed.

Lemma length_from k z : 0 <= k <= Z.of_nat (length z) -> Z.of_nat (length (from k z)) = Z.of_nat (length z) - k.
Proof. intros H. unfold from. rewrite length_skipn. lia. Qed.

Lemma from_local k z junk : 0 <= k <= Z.of_nat (length z) -> from k (z ++ 0 :: junk) = from k z ++ 0 :: junk.
Proof. intros H. unfold from. rewrite skipn_app. replace (Z.to_nat k - length z)%nat with O by lia. reflexivity. Qed.

Lemma rd_local z junk i : 0 <= i <= Z.of_nat (length z) -> rd (z ++ 0 :: junk) i = rd z i.
Proof.
  intros H. unfold rd. destruct (Z.eq_dec i (Z.of_nat (length z))) as [->|].
  - rewrite Nat2Z.id, app_nth2, Nat.sub_diag by lia. now rewrite (nth_overflow z) by lia.
  - apply app_nth1. lia.
Qed.

Lemma rd_end z i : rd z i <> 0 -> i < Z.of_nat (length z).
Proof. intros H. destruct (Z_lt_ge_dec i (Z.of_nat (length z))); [assumption|]. exfalso. apply H. unfold rd. apply nth_overflow. lia. Qed.

Lemma rd_from z k i : 0 <= k -> 0 <= i -> rd (from k z) i = rd z (k + i).
Proof. intros Hk Hi. unfold rd, from. rewrite nth_skipn. f_equal. lia. Qed.

Lemma span_from_range P z k : 0 <= k <= Z.of_nat (length z) -> k <= k + span P (from k z) <= Z.of_nat (length z).
Proof. intros H. pose proof (span_range P (from k z)) as HS. rewrite length_from in HS by lia. lia. Qed.

Lemma span_from_local P z junk k : P 0 = false -> 0 <= k <= Z.of_nat (length z) ->
  span P (from k (z ++ 0 :: junk)) = span P (from k z).
Proof. intros HP Hk. rewrite from_local by lia. now apply span_local. Qed.

Lemma block_comment_range c z i : let '(j, d) := block_comment c z i in
  i <= j <= i + Z.of_nat (length z) /\ (d <> 0 -> j < i + Z.of_nat (length z)).
Proof.
  revert c i. induction z as [|d z IH]; intros c i; cbn [block_comment length]; [lia|].
  destruct (_ || _); [|lia]. destruct (d =? 0); [lia|]. specialize (IH d (i + 1)). destruct block_comment. lia.
Qed.

Lemma block_comment_local c z junk i : block_comment c (z ++ 0 :: junk) i = block_comment c z i.
Proof.
  revert c i. induction z as [|d z IH]; intros c i; cbn [app block_comment].
  - replace (negb (0 =? 47)) with true by reflexivity. now rewrite orb_true_r.
  - now rewrite IH.
Qed.

Lemma quoted_range q z i : let '(j, d) := quoted q z i in
  i <= j <= i + Z.of_nat (length z) /\ (d <> 0 -> j < i + Z.of_nat (length z)).
Proof.
  revert i. induction z as [[|c [|d z]] IH] using (induction_ltof1 _ (@length Z)); unfold ltof in IH; intros i; cbn [quoted length].
  - lia.
  - destruct (c =? 0); [lia|]. destruct (c =? q); lia.
  - destruct (c =? 0); [lia|]. destruct (c =? q).
    + destruct (d =? q); [|lia]. specialize (IH z ltac:(cbn; lia) (i + 1 + 1)). destruct quoted. lia.
    + specialize (IH (d :: z) ltac:(cbn; lia) (i + 1)). cbn [quoted length] in *.
      destruct (if d =? 0 then _ else _). lia.
Qed.

Lemma quoted_local q z junk i : q <> 0 -> quoted q (z ++ 0 :: junk) i = quoted q z i.
Proof.
  intros Hq. revert i. induction z as [[|c [|d z]] IH] using (induction_ltof1 _ (@length Z)); unfold ltof in IH; intros i.
  - reflexivity.
  - cbn [app quoted]. destruct (c =? 0); [reflexivity|]. destruct (c =? q); [|reflexivity].
    destruct (Z.eqb_spec 0 q); [lia|reflexivity].
  - pose proof (IH (d :: z) ltac:(cbn; lia) (i + 1)) as I1. pose proof (IH z ltac:(cbn; lia) (i + 1 + 1)) as I2.
    cbn [app] in *. cbn [quoted] in I1 |- *. destruct (c =? 0); [reflexivity|]. destruct (c =? q); [now rewrite I2|exact I1].
Qed.

Lemma digits_range isdig z i t : let '(j, _) := digits isdig z i t in i <= j <= i + Z.of_nat (length z).
Proof.
  revert i t. induction z as [|c z IH]; intros i t; cbn [digits length]; [lia|].
  destruct (isdig c); cbn [negb].
  - specialize (IH (i + 1) t). destruct digits. lia.
  - destruct (c =? _); [|lia]. specialize (IH (i + 1) TK_QNUMBER). destruct digits. lia.
Qed.

Lemma digits_local isdig z junk i t : isdig 0 = false -> digits isdig (z ++ 0 :: junk) i t = digits isdig z i t.
Proof.
  intros H. revert i t. induction z as [|c z IH]; intros i t; cbn [app digits]; [now rewrite H|]. now rewrite !IH.
Qed.

Lemma variable_range z i n : let '(j, _, _) := variable z i n in i <= j <= i + Z.of_nat (length z).
Proof.
  revert i n. induction z as [[|c [|d z]] IH] using (induction_ltof1 _ (@length Z)); unfold ltof in IH; intros i n.
  - cbn. lia.
  - cbn [variable length span]. destruct (c =? 0); [lia|]. destruct (IdChar c); [cbn; lia|]. destruct (_ && _); [|lia]. cbn. lia.
  - pose proof (IH (d :: z) ltac:(cbn; lia) (i + 1) (n + 1)) as I1. pose proof (IH z ltac:(cbn; lia) (i + 1 + 1) n) as I2.
    pose proof (span_range tcl_char (d :: z)) as HS.
    pose proof (rd_end (d :: z) (span tcl_char (d :: z))) as HE.
    remember (d :: z) as z' eqn:Ez. cbn [variable length].
    assert (HL : Z.of_nat (length z') = Z.of_nat (length z) + 1) by (subst; cbn [length]; lia).
    destruct (c =? 0); [lia|]. destruct (IdChar c); [destruct (variable z' _ _) as [[? ?] ?]; lia|].
    destruct ((c =? 40) && _).
    + cbv zeta. destruct (Z.eqb_spec (rd z' (span tcl_char z')) 41); lia.
    + rewrite Ez. cbn [length]. destruct (_ && _); [destruct (variable z _ _) as [[? ?] ?]|]; lia.
Qed.

Lemma variable_local z junk i n : variable (z ++ 0 :: junk) i n = variable z i n.
Proof.
  revert i n. induction z as [[|c [|d z]] IH] using (induction_ltof1 _ (@length Z)); unfold ltof in IH; intros i n.
  - reflexivity.
  - cbn [app variable]. destruct (c =? 0); [reflexivity|]. destruct (IdChar c); [reflexivity|].
    destruct (_ && _); [reflexivity|]. cbn. now rewrite andb_false_r.
  - pose proof (IH (d :: z) ltac:(cbn; lia) (i + 1) (n + 1)) as I1. pose proof (IH z ltac:(cbn; lia) (i + 1 + 1) n) as I2.
    pose proof (span_local tcl_char (d :: z) junk eq_refl) as HS.
    pose proof (rd_local (d :: z) junk (span tcl_char (d :: z)) (span_range _ _)) as HR.
    cbn [app] in *. remember (d :: z) as z' eqn:Ez. remember (d :: z ++ 0 :: junk) as m eqn:Em.
    cbn [variable]. rewrite I1, HS, HR, Em, Ez, I2. reflexivity.
Qed.

Lemma rd_end_nonneg z i : 0 <= i -> rd z i <> 0 -> 0 <= i < Z.of_nat (length z).
Proof. intros Hi H. apply rd_end in H. lia. Qed.

(** [known_char z i H] turns a comparison of [rd z i] with a constant into a bound on [i]. *)
Ltac in_text z i := let H := fresh "HIn" in assert (H : i < Z.of_nat (length z)) by (apply rd_end; lia).

Lemma xdigit_nonzero c : sqlite3Isxdigit c = true -> c <> 0.
Proof. intros H ->. discriminate H. Qed.
Lemma digit_nonzero c : sqlite3Isdigit c = true -> c <> 0.
Proof. intros H ->. discriminate H. Qed.
Lemma idchar_nonzero c : IdChar c = true -> c <> 0.
Proof. intros H ->. discriminate H. Qed.

Lemma hex_prefix_end z : hex_prefix z = true -> 3 <= Z.of_nat (length z).
Proof.
  unfold hex_prefix. rewrite !andb_true_iff. intros [_ H]. apply xdigit_nonzero in H. apply rd_end in H. lia.
Qed.

Lemma hex_prefix_local z junk : z <> [] -> hex_prefix (z ++ 0 :: junk) = hex_prefix z.
Proof.
  intros Hz. assert (1 <= Z.of_nat (length z)) by (destruct z; [congruence|cbn [length]; lia]).
  unfold hex_prefix. rewrite (rd_local z junk 0), (rd_local z junk 1) by lia.
  destruct ((rd z 1 =? 120) || (rd z 1 =? 88)) eqn:E; [|now rewrite !andb_false_r].
  in_text z 1. now rewrite (rd_local z junk 2) by lia.
Qed.

Lemma exponent_end z i : 0 <= i -> exponent z i = true -> i + 2 <= Z.of_nat (length z).
Proof.
  intros Hi. unfold exponent. rewrite andb_true_iff, !orb_true_iff, andb_true_iff, orb_true_iff. intros [_ [H|[H _]]].
  - apply digit_nonzero, rd_end in H. lia.
  - in_text z (i + 1). lia.
Qed.

Lemma exponent_local z junk i : 0 <= i <= Z.of_nat (length z) -> exponent (z ++ 0 :: junk) i = exponent z i.
Proof.
  intros Hi. unfold exponent. rewrite (rd_local z junk i) by lia.
  destruct ((rd z i =? 101) || (rd z i =? 69)) eqn:E; [|reflexivity]. in_text z i.
  rewrite (rd_local z junk (i + 1)) by lia. f_equal.
  destruct ((rd z (i + 1) =? 43) || (rd z (i + 1) =? 45)) eqn:E1; [|reflexivity].
  in_text z (i + 1). now rewrite (rd_local z junk (i + 2)) by lia.
Qed.

(** The digits of a region of the text. *)
Lemma digits_from_range isdig z k t : 0 <= k <= Z.of_nat (length z) ->
  let '(j, _) := digits isdig (from k z) k t in k <= j <= Z.of_nat (length z).
Proof.
  intros Hk. pose proof (digits_range isdig (from k z) k t) as H. rewrite length_from in H by lia.
  destruct digits. lia.
Qed.

Lemma digits_from_local isdig z junk k t : isdig 0 = false -> 0 <= k <= Z.of_nat (length z) ->
  digits isdig (from k (z ++ 0 :: junk)) k t = digits isdig (from k z) k t.
Proof. intros H Hk. rewrite from_local by lia. now apply digits_local. Qed.

(** [grows z it f]: a loop that starts at [i] in the text stays in it. *)
Definition grows (z : list Z) (it jt : Z * Z) : Prop :=
  0 <= fst it <= Z.of_nat (length z) -> fst it <= fst jt <= Z.of_nat (length z).

Lemma fraction_grows z it : grows z it (fraction z it).
Proof.
  destruct it as [i t]. unfold grows, fraction. cbn [fst]. intros Hi. destruct (rd z i =? 46) eqn:E; [|cbn; lia].
  in_text z i. pose proof (digits_from_range sqlite3Isdigit z (i + 1) (to_float t) ltac:(lia)). destruct digits. cbn. lia.
Qed.

Lemma power_grows z it : grows z it (power z it).
Proof.
  destruct it as [i t]. unfold grows, power. cbn [fst]. intros Hi. destruct (exponent z i) eqn:E; [|cbn; lia].
  apply exponent_end in E; [|lia].
  pose proof (digits_from_range sqlite3Isdigit z (i + 2) (to_float t) ltac:(lia)). destruct digits. cbn. lia.
Qed.

Lemma fraction_local z junk it : 0 <= fst it <= Z.of_nat (length z) -> fraction (z ++ 0 :: junk) it = fraction z it.
Proof.
  destruct it as [i t]. unfold fraction. cbn [fst]. intros Hi. rewrite rd_local by lia.
  destruct (rd z i =? 46) eqn:E; [|reflexivity]. in_text z i. apply digits_from_local; [reflexivity|lia].
Qed.

Lemma power_local z junk it : 0 <= fst it <= Z.of_nat (length z) -> power (z ++ 0 :: junk) it = power z it.
Proof.
  destruct it as [i t]. unfold power. cbn [fst]. intros Hi. rewrite exponent_local by lia.
  destruct (exponent z i) eqn:E; [|reflexivity]. apply exponent_end in E; [|lia].
  apply digits_from_local; [reflexivity|lia].
Qed.

(** What [number] reaches before it looks for identifier characters. *)
Definition number_head (z : list Z) : Z * Z :=
  if hex_prefix z then digits sqlite3Isxdigit (from 3 z) 3 TK_INTEGER
  else power z (fraction z (digits sqlite3Isdigit z 0 TK_INTEGER)).

Lemma number_head_range z : 0 <= fst (number_head z) <= Z.of_nat (length z).
Proof.
  unfold number_head. destruct (hex_prefix z) eqn:EH.
  - pose proof (hex_prefix_end z EH). pose proof (digits_from_range sqlite3Isxdigit z 3 TK_INTEGER ltac:(lia)).
    destruct digits. cbn. lia.
  - pose proof (digits_range sqlite3Isdigit z 0 TK_INTEGER) as H0. destruct digits as [i t].
    pose proof (fraction_grows z (i, t) ltac:(cbn; lia)) as H1. cbn [fst] in H1.
    pose proof (power_grows z (fraction z (i, t)) ltac:(lia)). lia.
Qed.

Lemma number_head_local z junk : z <> [] -> number_head (z ++ 0 :: junk) = number_head z.
Proof.
  intros Hz. unfold number_head. rewrite hex_prefix_local by assumption. destruct (hex_prefix z) eqn:EH.
  - pose proof (hex_prefix_end z EH). apply digits_from_local; [reflexivity|lia].
  - rewrite (digits_local sqlite3Isdigit z junk 0) by reflexivity.
    pose proof (digits_range sqlite3Isdigit z 0 TK_INTEGER) as H0. destruct (digits _ z 0 _) as [i t].
    pose proof (fraction_grows z (i, t) ltac:(cbn; lia)) as H1. cbn [fst] in H1.
    rewrite fraction_local, power_local by (cbn [fst]; lia). reflexivity.
Qed.

Lemma number_range z : fst (number_head z) <= fst (number z) <= Z.of_nat (length z).
Proof.
  pose proof (number_head_range z) as H. unfold number. fold (number_head z). destruct (number_head z) as [i t].
  cbn [fst] in H. pose proof (span_from_range IdChar z i ltac:(lia)). cbn. lia.
Qed.

Lemma number_local z junk : z <> [] -> number (z ++ 0 :: junk) = number z.
Proof.
  intros Hz. pose proof (number_head_range z) as H. unfold number.
  fold (number_head z). fold (number_head (z ++ 0 :: junk)). rewrite number_head_local by assumption.
  destruct (number_head z) as [i t]. cbn [fst] in H. now rewrite span_from_local by (reflexivity || lia).
Qed.

(** A number has at least one character. *)
Lemma digits_first isdig z k t : isdig (rd z 0) = true -> z <> [] ->
  let '(j, _) := digits isdig z k t in k + 1 <= j.
Proof.
  intros H Hz. destruct z as [|c z]; [congruence|]. cbn [digits]. rewrite rd_0 in H. rewrite H. cbn [negb].
  pose proof (digits_range isdig z (k + 1) t). destruct digits. lia.
Qed.

Lemma number_pos z : z <> [] -> sqlite3Isdigit (rd z 0) = true \/ rd z 0 = 46 -> 1 <= fst (number z).
Proof.
  intros Hz H. enough (1 <= fst (number_head z)) by (pose proof (number_range z); lia).
  unfold number_head. destruct (hex_prefix z) eqn:EH.
  { pose proof (hex_prefix_end z EH). pose proof (digits_from_range sqlite3Isxdigit z 3 TK_INTEGER ltac:(lia)).
    destruct digits. cbn. lia. }
  pose proof (digits_range sqlite3Isdigit z 0 TK_INTEGER) as H0.
  assert (HF : 1 <= fst (fraction z (digits sqlite3Isdigit z 0 TK_INTEGER)) <= Z.of_nat (length z)).
  { destruct H as [H|H].
    - pose proof (digits_first sqlite3Isdigit z 0 TK_INTEGER H Hz). destruct digits as [i t].
      pose proof (fraction_grows z (i, t) ltac:(cbn; lia)) as H2. cbn [fst] in H2. lia.
    - destruct z as [|c z']; [congruence|]. rewrite rd_0 in H. subst c. cbn -[digits from Z.of_nat length].
      replace (digits sqlite3Isdigit (46 :: z') 0 TK_INTEGER) with (0, TK_INTEGER) by reflexivity.
      cbn -[digits from length].
      pose proof (digits_from_range sqlite3Isdigit (46 :: z') 1 TK_FLOAT ltac:(cbn [length]; lia)). destruct (digits _ _ 1 _). cbn [fst]. lia. }
  destruct (digits _ z 0 _) as [i t]. pose proof (power_grows z (fraction z (i, t)) ltac:(lia)). lia.
Qed.

(** Identifiers, keywords and blobs. *)

Lemma class_nul : class_of 0 = CC_NUL.
Proof. reflexivity. Qed.

Lemma identifier_range z i : 0 <= i <= Z.of_nat (length z) -> i <= fst (identifier z i) <= Z.of_nat (length z).
Proof. intros H. pose proof (span_from_range IdChar z i H). cbn. lia. Qed.

Lemma identifier_local z junk i : 0 <= i <= Z.of_nat (length z) -> identifier (z ++ 0 :: junk) i = identifier z i.
Proof. intros H. unfold identifier. now rewrite span_from_local by (reflexivity || lia). Qed.

Lemma keyword_code_fst z n t : fst (keywordCode z n t) = n.
Proof. unfold keywordCode. destruct (kw_chain _ _ _ _); reflexivity. Qed.

Lemma keyword_code_local z junk n t : cstring z -> bytes junk -> 2 <= n <= Z.of_nat (length z) ->
  keywordCode (z ++ 0 :: junk) n t = keywordCode z n t.
Proof.
  intros Hz Hj Hn. apply keyword_code_prefix; auto with width; try lia.
  - apply Forall_app. split; [exact (cstring_bytes z Hz)|]. constructor; [unfold is_u8; lia|exact Hj].
  - rewrite length_app. lia.
  - rewrite firstn_app. replace (Z.to_nat n - length z)%nat with O by lia. cbn [firstn]. now rewrite app_nil_r.
Qed.

(** The second character of a keyword is a character. *)
Lemma keyword_second z : (class_of (rd z 1) >? CC_KYWD) = false -> 2 <= Z.of_nat (length z).
Proof.
  intros H. assert (rd z 1 <> 0) as HN by (intros E; rewrite E in H; discriminate H). apply rd_end in HN. lia.
Qed.

Lemma keyword_or_id_range z : z <> [] -> 1 <= fst (keyword_or_id z) <= Z.of_nat (length z).
Proof.
  intros Hz. assert (1 <= Z.of_nat (length z)) by (destruct z; [congruence|cbn [length]; lia]).
  unfold keyword_or_id. destruct (_ >? _) eqn:E; [apply identifier_range; lia|].
  apply keyword_second in E. pose proof (span_from_range in_keyword z 2 ltac:(lia)) as HS.
  destruct (IdChar _) eqn:EI.
  - apply idchar_nonzero, rd_end in EI. pose proof (identifier_range z (2 + span in_keyword (from 2 z) + 1) ltac:(lia)). lia.
  - rewrite keyword_code_fst. lia.
Qed.

Lemma keyword_or_id_local z junk : cstring z -> bytes junk -> z <> [] ->
  keyword_or_id (z ++ 0 :: junk) = keyword_or_id z.
Proof.
  intros Hc Hj Hz. assert (1 <= Z.of_nat (length z)) by (destruct z; [congruence|cbn [length]; lia]).
  unfold keyword_or_id. rewrite rd_local by lia. destruct (_ >? _) eqn:E; [apply identifier_local; lia|].
  apply keyword_second in E. pose proof (span_from_range in_keyword z 2 ltac:(lia)) as HS.
  rewrite span_from_local by (reflexivity || lia). rewrite rd_local by lia. destruct (IdChar _) eqn:EI.
  - apply idchar_nonzero, rd_end in EI. apply identifier_local. lia.
  - apply keyword_code_local; auto; lia.
Qed.

Lemma blob_range z : rd z 1 = 39 -> 1 <= fst (blob z) <= Z.of_nat (length z).
Proof.
  intros H1. in_text z 1. unfold blob. pose proof (span_from_range sqlite3Isxdigit z 2 ltac:(lia)) as H2.
  set (i := 2 + span sqlite3Isxdigit (from 2 z)) in *. clearbody i.
  set (p := if _ || _ then _ else _). assert (HP : i <= fst p <= Z.of_nat (length z)).
  { subst p. destruct (_ || _); cbn [fst]; [|lia]. pose proof (span_from_range not_quote z i ltac:(lia)). lia. }
  destruct p as [j t]. cbn [fst] in *. destruct (rd z j =? 0) eqn:E; cbn; [lia|]. in_text z j. lia.
Qed.

Lemma blob_local z junk : rd z 1 = 39 -> blob (z ++ 0 :: junk) = blob z.
Proof.
  intros H1. in_text z 1. unfold blob. rewrite (span_from_local sqlite3Isxdigit) by (reflexivity || lia).
  pose proof (span_from_range sqlite3Isxdigit z 2 ltac:(lia)) as H2.
  set (i := 2 + span sqlite3Isxdigit (from 2 z)) in *. clearbody i.
  rewrite (rd_local z junk i), (span_from_local not_quote) by (reflexivity || lia).
  set (p := if _ || _ then _ else _). assert (HP : 0 <= fst p <= Z.of_nat (length z)).
  { subst p. destruct (_ || _); cbn [fst]; [|lia]. pose proof (span_from_range not_quote z i ltac:(lia)). lia. }
  destruct p as [j t]. cbn [fst] in HP. now rewrite rd_local by lia.
Qed.

(** ** The whole routine *)

Ltac cases_of_class := repeat match goal with |- context [if class_of ?c =? ?k then _ else _] =>
  destruct (Z.eqb_spec (class_of c) k) end.

(** The first character of a number. *)
Lemma class_digit c : is_u8 c -> class_of c = CC_DIGIT -> sqlite3Isdigit c = true.
Proof.
  intros Hc H. pose proof (byte_forall (fun c => implb (class_of c =? CC_DIGIT) (sqlite3Isdigit c)) ltac:(vm_compute; reflexivity) c Hc) as HB.
  cbv beta in HB. rewrite H in HB. exact HB.
Qed.
Lemma class_dot c : is_u8 c -> class_of c = CC_DOT -> c = 46.
Proof.
  intros Hc H. pose proof (byte_forall (fun c => implb (class_of c =? CC_DOT) (c =? 46)) ltac:(vm_compute; reflexivity) c Hc) as HB.
  cbv beta in HB. rewrite H in HB. now apply Z.eqb_eq.
Qed.
Lemma class_nul_only c : is_u8 c -> class_of c = CC_NUL -> c = 0.
Proof.
  intros Hc H. pose proof (byte_forall (fun c => implb (class_of c =? CC_NUL) (c =? 0)) ltac:(vm_compute; reflexivity) c Hc) as HB.
  cbv beta in HB. rewrite H in HB. now apply Z.eqb_eq.
Qed.

Lemma get_token_local z junk : cstring z -> bytes junk -> sqlite3GetToken (z ++ 0 :: junk) = sqlite3GetToken z.
Proof.
  intros Hz Hj. destruct z as [|a z']; [reflexivity|]. set (z := a :: z') in *.
  assert (HL : 1 <= Z.of_nat (length z)) by (subst z; cbn [length]; lia).
  assert (HN : z <> []) by discriminate.
  assert (R1 : rd (z ++ 0 :: junk) 1 = rd z 1) by (apply rd_local; lia).
  assert (R2 : rd z 1 <> 0 -> rd (z ++ 0 :: junk) 2 = rd z 2) by (intros H; apply rd_end in H; apply rd_local; lia).
  assert (H0 : rd z 0 <> 0) by (inversion Hz as [|? ? [_ H] _]; exact H).
  unfold sqlite3GetToken. rewrite (rd_local z junk 0), R1 by lia. cbv zeta.
  rewrite !(span_from_local sqlite3Isspace), !(span_from_local sqlite3Isdigit),
    !(span_from_local (fun c => negb (c =? 0) && negb (c =? 93))) by (reflexivity || lia).
  rewrite number_local, keyword_or_id_local, identifier_local by (assumption || lia).
  rewrite (from_local 1 z junk), variable_local, quoted_local by (assumption || lia).
  rewrite (rd_local z junk (1 + _)) by (pose proof (span_from_range (fun c => negb (c =? 0) && negb (c =? 93)) z 1 ltac:(lia)); lia).
  destruct (Z.eqb_spec (class_of (rd z 0)) CC_SPACE); [reflexivity|].
  destruct (Z.eqb_spec (class_of (rd z 0)) CC_MINUS).
  { destruct (Z.eqb_spec (rd z 1) 45).
    - in_text z 1. now rewrite span_from_local by (reflexivity || lia).
    - destruct (Z.eqb_spec (rd z 1) 62); [|reflexivity]. now rewrite R2 by lia. }
  destruct (Z.eqb_spec (rd z 1) 42).
  2:{ cbn [negb orb].
      destruct (Z.eqb_spec (rd z 1) 39); [rewrite blob_local by assumption|rewrite !andb_false_r];
      (destruct (Z.eqb_spec (rd z 1) 187); [rewrite R2 by lia; reflexivity|reflexivity]). }
  rewrite R2 by lia. replace (rd z 1 =? 39) with false by lia. replace (rd z 1 =? 187) with false by lia.
  rewrite !andb_false_r. cbn [negb orb andb]. destruct (Z.eqb_spec (rd z 2) 0); [reflexivity|].
  in_text z 2. rewrite from_local, block_comment_local by lia. reflexivity.
Qed.

Lemma get_token_range z : cstring z -> z <> [] -> 1 <= fst (sqlite3GetToken z) <= Z.of_nat (length z).
Proof.
  intros Hz HN. assert (HL : 1 <= Z.of_nat (length z)) by (destruct z; [congruence|cbn [length]; lia]).
  assert (H8 : is_u8 (rd z 0) /\ rd z 0 <> 0) by (destruct z as [|a z']; [congruence|]; inversion Hz; assumption).
  destruct H8 as [H8 H0]. unfold sqlite3GetToken. cbv zeta.
  pose proof (span_from_range sqlite3Isspace z 1 ltac:(lia)). pose proof (span_from_range sqlite3Isdigit z 1 ltac:(lia)).
  pose proof (span_from_range (fun c => negb (c =? 0) && negb (c =? 93)) z 1 ltac:(lia)).
  pose proof (identifier_range z 1 ltac:(lia)). pose proof (keyword_or_id_range z HN). pose proof (number_range z) as HNR.
  assert (HB2 : rd z 1 <> 0 -> 2 <= Z.of_nat (length z)) by (intros H'; apply rd_end in H'; lia).
  assert (HB3 : rd z 2 <> 0 -> 3 <= Z.of_nat (length z)) by (intros H'; apply rd_end in H'; lia).
  destruct (_ =? CC_SPACE); [cbn [fst negb Z.b2z]; lia|].
  destruct (_ =? CC_MINUS).
  { destruct (Z.eqb_spec (rd z 1) 45).
    - pose proof (span_from_range not_eol z 2 ltac:(lia)). cbn [fst negb Z.b2z]. lia.
    - destruct (Z.eqb_spec (rd z 1) 62); cbn [fst]; [|lia]. destruct (Z.eqb_spec (rd z 2) 62); cbn [fst negb Z.b2z]; lia. }
  do 5 (destruct (_ =? _); [cbn [fst negb Z.b2z]; lia|]).
  destruct (_ =? CC_SLASH).
  { destruct (_ || _) eqn:E; [cbn [fst negb Z.b2z]; lia|]. apply orb_false_iff in E as [E1 E2]. in_text z 2.
    pose proof (block_comment_range (rd z 2) (from 3 z) 3) as HC. rewrite length_from in HC by lia.
    destruct block_comment as [i c]. cbn [fst]. destruct (Z.eqb_spec c 0); cbn [fst negb]; lia. }
  destruct (_ =? CC_PERCENT); [cbn [fst negb Z.b2z]; lia|].
  destruct (_ =? CC_EQ); [destruct (Z.eqb_spec (rd z 1) 61); cbn [fst negb Z.b2z]; lia|].
  destruct (_ =? CC_LT); [destruct (Z.eqb_spec (rd z 1) 61), (Z.eqb_spec (rd z 1) 62), (Z.eqb_spec (rd z 1) 60); cbn [fst negb Z.b2z]; lia|].
  destruct (_ =? CC_GT); [destruct (Z.eqb_spec (rd z 1) 61), (Z.eqb_spec (rd z 1) 62); cbn [fst negb Z.b2z]; lia|].
  destruct (_ =? CC_BANG); [destruct (Z.eqb_spec (rd z 1) 61); cbn [fst negb Z.b2z]; lia|].
  destruct (_ =? CC_PIPE); [destruct (Z.eqb_spec (rd z 1) 124); cbn [fst negb Z.b2z]; lia|].
  do 3 (destruct (_ =? _); [cbn [fst negb Z.b2z]; lia|]).
  destruct (_ =? CC_QUOTE).
  { pose proof (quoted_range (rd z 0) (from 1 z) 1) as HQ. rewrite length_from in HQ by lia.
    destruct quoted as [i c]. destruct (Z.eqb_spec c 39); cbn [fst]; [lia|]. destruct (Z.eqb_spec c 0); cbn [fst negb]; lia. }
  destruct ((_ =? CC_DOT) && _) eqn:ED; [cbn [fst negb Z.b2z]; lia|].
  destruct ((_ =? CC_DOT) || _) eqn:EN.
  { split; [|lia]. apply number_pos; [assumption|]. apply orb_true_iff in EN as [EN|EN]; apply Z.eqb_eq in EN.
    - right. now apply class_dot.
    - left. now apply class_digit. }
  destruct (_ =? CC_QUOTE2); [destruct (Z.eqb_spec (rd z (1 + span (fun c => negb (c =? 0) && negb (c =? 93)) (from 1 z))) 93) as [E|]; cbn [fst]; [|lia]|].
  { in_text z (1 + span (fun c => negb (c =? 0) && negb (c =? 93)) (from 1 z)). lia. }
  destruct (_ =? CC_VARNUM); [cbn [fst negb Z.b2z]; lia|].
  destruct ((_ =? CC_DOLLAR) || _).
  { pose proof (variable_range (from 1 z) 1 0) as HV. rewrite length_from in HV by lia. destruct (variable _ _ _) as [[i n] t]. cbn [fst negb Z.b2z]. lia. }
  destruct (_ =? CC_KYWD0); [lia|].
  destruct ((_ =? CC_X) && _) eqn:EX; [apply blob_range; lia|].
  destruct ((_ =? CC_X) || _ || _); [lia|].
  destruct (_ =? CC_BOM).
  { destruct (Z.eqb_spec (rd z 1) 187), (Z.eqb_spec (rd z 2) 191); cbn [andb fst]; lia. }
  destruct (Z.eqb_spec (class_of (rd z 0)) CC_NUL) as [E|]; [|cbn [fst negb Z.b2z]; lia].
  exfalso. apply H0. now apply class_nul_only.
Qed.

(** C21: the tokenizer stays in the text.  Whatever follows the terminator, the
    result is the same; the token has at least one character and ends at the
    terminator at the latest; the empty text alone gives the length 0. *)
Theorem get_token_safe z junk : cstring z -> bytes junk ->
  sqlite3GetToken (z ++ 0 :: junk) = sqlite3GetToken z /\
  (z = [] -> sqlite3GetToken z = (0, TK_ILLEGAL)) /\
  (z <> [] -> 1 <= fst (sqlite3GetToken z) <= Z.of_nat (length z)).
Proof.
  intros Hz Hj. split; [now apply get_token_local|]. split; [now intros ->|]. now apply get_token_range.
Qed.

Lemma get_token_safe_witness : sqlite3GetToken (txt "x1 " ++ 0 :: [113; 200]) = sqlite3GetToken (txt "x1 ").
Proof.
  apply (get_token_safe (txt "x1 ") [113; 200]); repeat constructor; unfold is_u8; cbn; lia.
Defined.

(** ** Words *)

Lemma span_split (P Q : Z -> bool) z : (forall c, P c = true -> Q c = true) ->
  span Q z = span P z + span Q (from (span P z) z).
Proof.
  intros H. induction z as [|c z IH]; [reflexivity|]. cbn [span]. destruct (P c) eqn:E.
  - rewrite (H c E), IH. unfold from. pose proof (span_range P z).
    replace (Z.to_nat (1 + span P z)) with (S (Z.to_nat (span P z))) by lia. cbn [skipn]. lia.
  - reflexivity.
Qed.

Lemma span_prefix P z : Forall (fun c => P c = true) (firstn (Z.to_nat (span P z)) z).
Proof.
  induction z as [|c z IH]; cbn [span]; [constructor|]. destruct (P c) eqn:E; [|constructor].
  pose proof (span_range P z). replace (Z.to_nat (1 + span P z)) with (S (Z.to_nat (span P z))) by lia.
  cbn [firstn]. now constructor.
Qed.

Lemma span_stop P z : P 0 = false -> P (rd z (span P z)) = false.
Proof.
  intros H0. induction z as [|c z IH]; cbn [span]; [exact H0|]. destruct (P c) eqn:E; [|exact E].
  pose proof (span_range P z). unfold rd in *. replace (Z.to_nat (1 + span P z)) with (S (Z.to_nat (span P z))) by lia. exact IH.
Qed.

(** The reference: the longest run of identifier characters, looked up in the
    list of keywords. *)
Definition word_token (z : list Z) : Z * Z :=
  let n := span IdChar z in
  (n, match find_keyword (map fold_case (firstn (Z.to_nat n) z)) with Some code => code | None => TK_ID end).

(** Where a word can start: letters, the underscore and bytes over 127, but
    for a byte order mark and the beginning of a blob. *)
Definition starts_word (z : list Z) : bool :=
  let cls := class_of (rd z 0) in
  (cls =? CC_KYWD0) || (cls =? CC_KYWD) || (cls =? CC_ID) || ((cls =? CC_X) && negb (rd z 1 =? 39)) ||
  ((cls =? CC_BOM) && negb ((rd z 1 =? 187) && (rd z 2 =? 191))).

Lemma starts_idchar c : is_u8 c ->
  class_of c = CC_KYWD0 \/ class_of c = CC_KYWD \/ class_of c = CC_ID \/ class_of c = CC_X \/ class_of c = CC_BOM -> IdChar c = true.
Proof.
  intros Hc H. pose proof (byte_forall (fun c => implb ((class_of c =? CC_KYWD0) || (class_of c =? CC_KYWD) || (class_of c =? CC_ID) ||
    (class_of c =? CC_X) || (class_of c =? CC_BOM)) (IdChar c)) ltac:(vm_compute; reflexivity) c Hc) as HB. cbv beta in HB.
  replace (_ || _) with true in HB by (symmetry; lia). exact HB.
Qed.

Lemma in_keyword_idchar c : in_keyword c = true -> IdChar c = true.
Proof.
  intros H. pose proof (byte_forall (fun c => implb (in_keyword c) (IdChar c)) ltac:(vm_compute; reflexivity) (u8 c)) as HB.
  assert (Hu : u8 (u8 c) = u8 c) by (apply u8_small; unfold is_u8, u8; apply Z.mod_pos_bound; lia).
  unfold in_keyword, class_of, IdChar in *. rewrite Hu, H in HB. apply HB. unfold is_u8, u8. apply Z.mod_pos_bound. lia.
Qed.

(** A word that is a keyword has keyword characters only, and starts with one
    of the letters that start keywords. *)
Lemma keyword_letters : forallb (fun i => (class_of (rd (keyword i) 0) =? CC_KYWD0) && (65 <=? rd (keyword i) 0) && (rd (keyword i) 0 <=? 90) &&
  forallb (fun c => (65 <=? c) && (c <=? 90) || (c =? 95)) (keyword i)) indices = true.
Proof. vm_compute. reflexivity. Qed.

Lemma keyword_char c : is_u8 c -> IdChar c = true ->
  (65 <=? fold_case c) && (fold_case c <=? 90) || (fold_case c =? 95) = true -> in_keyword c = true.
Proof.
  intros Hc HI HF. pose proof (byte_forall (fun c => implb (IdChar c && ((65 <=? fold_case c) && (fold_case c <=? 90) || (fold_case c =? 95)))
    (in_keyword c)) ltac:(vm_compute; reflexivity) c Hc) as HB. cbv beta in HB. rewrite HI, HF in HB. exact HB.
Qed.

Lemma keyword_start c : is_u8 c -> 65 <= fold_case c <= 90 -> class_of (fold_case c) = CC_KYWD0 -> class_of c = CC_KYWD0.
Proof.
  intros Hc HF HK. pose proof (byte_forall (fun c => implb ((65 <=? fold_case c) && (fold_case c <=? 90) && (class_of (fold_case c) =? CC_KYWD0))
    (class_of c =? CC_KYWD0)) ltac:(vm_compute; reflexivity) c Hc) as HB. cbv beta in HB.
  replace (_ && _) with true in HB by (symmetry; rewrite HK; lia). now apply Z.eqb_eq.
Qed.

Lemma keyword_word w code : bytes w -> Forall (fun c => IdChar c = true) w -> find_keyword (map fold_case w) = Some code ->
  2 <= Z.of_nat (length w) /\ class_of (rd w 0) = CC_KYWD0 /\ Forall (fun c => in_keyword c = true) w.
Proof.
  intros Hw HI HF. apply keyword_found in HF as (i & Hi & E).
  pose proof (keyword_shape i Hi) as (HL & H2 & _). rewrite HL, E, length_map in H2.
  pose proof (proj1 (forallb_forall _ _) keyword_letters i Hi) as HK. cbv beta in HK.
  apply andb_true_iff in HK as [H0 HK]. rewrite E in H0, HK. rewrite rd_map_fold in H0.
  assert (H8 : is_u8 (rd w 0)) by now apply rd_u8.
  split; [exact H2|]. split.
  - apply keyword_start; [exact H8|lia|lia].
  - rewrite forallb_forall in HK. unfold bytes in Hw. rewrite Forall_forall in *. intros c Hc. apply keyword_char; auto.
    apply (HK (fold_case c)). now apply in_map.
Qed.

Lemma rd_firstn_Forall (P : Z -> Prop) z n m : Forall P (firstn (Z.to_nat n) z) -> 0 <= m < n -> n <= Z.of_nat (length z) -> P (rd z m).
Proof.
  intros H Hm Hn. rewrite <- (rd_firstn z n m Hm). rewrite Forall_forall in H. apply H, rd_In. rewrite length_firstn. lia.
Qed.

Lemma firstn_bytes z n : cstring z -> bytes (firstn n z).
Proof. intros H. apply cstring_bytes. unfold cstring in *. rewrite Forall_forall in *. intros c Hc. apply H. rewrite <- (firstn_skipn n z). apply in_or_app. now left. Qed.

(** The word is no keyword when one of its first characters cannot be in one. *)
Lemma not_keyword z k : cstring z -> 0 <= k < span IdChar z -> in_keyword (rd z k) = false ->
  find_keyword (map fold_case (firstn (Z.to_nat (span IdChar z)) z)) = None.
Proof.
  intros Hz Hk HN. pose proof (span_range IdChar z). destruct (find_keyword _) eqn:F; [exfalso|reflexivity].
  apply keyword_word in F as (_ & _ & HF); [|now apply firstn_bytes|apply span_prefix].
  pose proof (rd_firstn_Forall _ z _ k HF ltac:(lia) ltac:(lia)). congruence.
Qed.

Lemma identifier_span z i : 0 <= i <= span IdChar z -> identifier z i = (span IdChar z, TK_ID).
Proof.
  intros H. unfold identifier. f_equal. revert i H. induction z as [|c z IH]; intros i H; cbn [span] in *.
  { unfold from. rewrite skipn_nil. cbn. lia. }
  destruct (Z.eq_dec i 0) as [->|]; [unfold from; cbn [skipn Z.to_nat span]; reflexivity|].
  destruct (IdChar c) eqn:E; [|lia]. specialize (IH (i - 1) ltac:(lia)). unfold from in *.
  replace (Z.to_nat i) with (S (Z.to_nat (i - 1))) by lia. cbn [skipn]. lia.
Qed.

Lemma keyword_or_id_word z : cstring z -> class_of (rd z 0) = CC_KYWD0 -> keyword_or_id z = word_token z.
Proof.
  intros Hz HC. destruct z as [|a z']; [discriminate HC|]. set (z := a :: z') in *.
  assert (Ha : is_u8 a /\ a <> 0) by (inversion Hz; assumption).
  assert (HI : IdChar a = true) by (apply starts_idchar; [tauto|left; exact HC]).
  assert (HS1 : 1 <= span IdChar z) by (subst z; cbn [span]; rewrite HI; pose proof (span_range IdChar z'); lia).
  assert (HK0 : in_keyword (rd z 0) = true) by (unfold in_keyword; rewrite HC; reflexivity).
  unfold keyword_or_id, word_token. destruct (class_of (rd z 1) >? CC_KYWD) eqn:E1.
  - rewrite identifier_span by lia. f_equal. destruct (Z.eq_dec (span IdChar z) 1) as [E|].
    + rewrite E. destruct (find_keyword _) eqn:F; [exfalso|reflexivity].
      apply keyword_word in F as (HL & _); [|now apply firstn_bytes|rewrite <- E; apply span_prefix].
      rewrite length_firstn in HL. lia.
    + rewrite (not_keyword z 1); [reflexivity|assumption|lia|]. unfold in_keyword. lia.
  - pose proof (keyword_second z E1) as HL2.
    assert (HK1 : in_keyword (rd z 1) = true) by (unfold in_keyword; lia).
    assert (HS : 2 + span in_keyword (from 2 z) = span in_keyword z).
    { subst z. destruct z' as [|b z'']; [cbn [length] in HL2; lia|]. cbn [span].
      change (rd (a :: b :: z'') 0) with a in HK0. change (rd (a :: b :: z'') 1) with b in HK1. rewrite HK0, HK1.
      change (from 2 (a :: b :: z'')) with z''. lia. }
    pose proof (span_range in_keyword (from 2 z)). rewrite HS. pose proof (span_split in_keyword IdChar z in_keyword_idchar) as HP.
    pose proof (span_stop in_keyword z eq_refl) as HStop. pose proof (span_range in_keyword z) as HR.
    pose proof (span_range IdChar z) as HRI.
    destruct (from (span in_keyword z) z) as [|x r] eqn:EF.
    { cbn [span] in HP. assert (EL : span in_keyword z = Z.of_nat (length z)) by (pose proof (length_from (span in_keyword z) z ltac:(lia)); rewrite EF in *; cbn [length] in *; lia).
      replace (rd z (span in_keyword z)) with 0 by (symmetry; unfold rd; apply nth_overflow; lia).
      change (IdChar 0) with false. cbv iota. rewrite keyword_code_eq by (auto with width; lia). unfold word. rewrite HP, Z.add_0_r. reflexivity. }
    assert (EX : rd z (span in_keyword z) = x) by (rewrite <- (Z.add_0_r (span in_keyword z)), <- rd_from, EF by lia; reflexivity).
    rewrite EX in *. cbn [span] in HP. destruct (IdChar x) eqn:EI.
    + pose proof (span_range IdChar r). rewrite identifier_span by lia. f_equal. symmetry.
      rewrite (not_keyword z (span in_keyword z)); [reflexivity|assumption|lia|congruence].
    + rewrite keyword_code_eq by (auto with width; lia). unfold word. rewrite HP, Z.add_0_r. reflexivity.
Qed.

Lemma starts_word_cases z : starts_word z = true ->
  class_of (rd z 0) = CC_KYWD0 \/
  (class_of (rd z 0) <> CC_KYWD0 /\ sqlite3GetToken z = identifier z 1 /\
   (class_of (rd z 0) = CC_KYWD \/ class_of (rd z 0) = CC_ID \/ class_of (rd z 0) = CC_X \/ class_of (rd z 0) = CC_BOM)).
Proof.
  unfold starts_word, sqlite3GetToken. cbv zeta. intros H. destruct (Z.eqb_spec (class_of (rd z 0)) CC_KYWD0) as [|N0]; [now left|right].
  split; [assumption|]. cbn [orb] in H.
  destruct (Z.eqb_spec (class_of (rd z 0)) CC_KYWD) as [->|N1]; [split; [reflexivity|tauto]|].
  destruct (Z.eqb_spec (class_of (rd z 0)) CC_ID) as [->|N2]; [split; [reflexivity|tauto]|].
  destruct (Z.eqb_spec (class_of (rd z 0)) CC_X) as [->|N3].
  { split; [|tauto]. destruct (rd z 1 =? 39); [discriminate H|reflexivity]. }
  destruct (Z.eqb_spec (class_of (rd z 0)) CC_BOM) as [->|N4]; [|discriminate H].
  split; [|tauto]. destruct ((rd z 1 =? 187) && (rd z 2 =? 191)); [discriminate H|reflexivity].
Qed.

Lemma get_token_kywd0 z : class_of (rd z 0) = CC_KYWD0 -> sqlite3GetToken z = keyword_or_id z.
Proof. intros H. unfold sqlite3GetToken. cbv zeta. rewrite H. reflexivity. Qed.

(** C23: the fast path for words is right.  Where a word starts, the routine, with
    its table of classes, its early exits and its hash, returns the longest
    run of identifier characters, and as its type the keyword it spells in
    any mixture of cases, or [TK_ID]. *)
Theorem get_token_word z : cstring z -> starts_word z = true -> sqlite3GetToken z = word_token z.
Proof.
  intros Hz HS. destruct (starts_word_cases z HS) as [H0|(H0 & HT & HC)].
  { rewrite get_token_kywd0 by assumption. now apply keyword_or_id_word. }
  rewrite HT. destruct z as [|a z']; [destruct HC as [H|[H|[H|H]]]; discriminate H|]. set (z := a :: z') in *.
  assert (Ha : is_u8 a /\ a <> 0) by (inversion Hz; assumption).
  assert (HI : IdChar a = true) by (apply starts_idchar; [tauto|change a with (rd z 0); tauto]).
  assert (HS1 : 1 <= span IdChar z) by (subst z; cbn [span]; rewrite HI; pose proof (span_range IdChar z'); lia).
  rewrite identifier_span by lia. unfold word_token. cbv zeta. f_equal.
  destruct (find_keyword _) eqn:F; [exfalso|reflexivity].
  apply keyword_word in F as (_ & HF & _); [|now apply firstn_bytes|apply span_prefix].
  rewrite rd_firstn in HF by lia. contradiction.
Qed.

Lemma get_token_word_witness : sqlite3GetToken (txt "Select_1 x") = word_token (txt "Select_1 x") /\
  sqlite3GetToken (txt "sElEcT*") = (6, TK_SELECT).
Proof.
  split; [|rewrite (get_token_word (txt "sElEcT*")); [vm_compute; reflexivity| |reflexivity]];
    [apply (get_token_word (txt "Select_1 x")); [|reflexivity]|]; repeat constructor; unfold is_u8; cbn; lia.
Defined.

(** ** Quoted strings *)

Lemma quoted_escape q s rest i : cstring s -> q <> 0 -> rd rest 0 <> q ->
  quoted q (escape q s ++ q :: rest) i = (i + Z.of_nat (length (escape q s)), q).
Proof.
  intros Hs Hq Hr. revert i. induction Hs as [|c s [Hc Hc0] Hs IH]; intros i; cbn [escape app length].
  - replace (i + Z.of_nat 0) with i by lia. cbn [quoted]. replace (q =? 0) with false by lia. rewrite Z.eqb_refl.
    destruct rest as [|d rest]; [reflexivity|]. change (rd (d :: rest) 0) with d in Hr. now replace (d =? q) with false by lia.
  - destruct (Z.eqb_spec c q) as [->|Hne]; cbn [app length quoted].
    + replace (q =? 0) with false by lia. rewrite Z.eqb_refl, IH. f_equal. lia.
    + replace (c =? 0) with false by lia. replace (c =? q) with false by lia. rewrite IH. f_equal. lia.
Qed.

(** Quoting is safe.  A text that is quoted by doubling its quotes is one
    token to the tokenizer, a string for the single quote and an identifier
    for the double quote and the grave accent, whatever bytes it has and
    whatever follows but another quote; and dequoting the token gives the
    text back. *)
Theorem quoted_token q s rest : In q [39; 34; 96] -> cstring s -> rd rest 0 <> q ->
  let literal := q :: escape q s ++ [q] in
  sqlite3GetToken (literal ++ rest) = (Z.of_nat (length literal), if q =? 39 then TK_STRING else TK_ID) /\
  sqlite3Dequote (Some literal) = Some s.
Proof.
  intros Hq Hs Hr literal. split.
  - assert (E : literal ++ rest = q :: escape q s ++ q :: rest) by (subst literal; cbn; now rewrite <- app_assoc).
    rewrite E. unfold sqlite3GetToken. rewrite rd_0.
    assert (HC : class_of q = CC_QUOTE) by (cbn in Hq; destruct Hq as [<-|[<-|[<-|[]]]]; reflexivity).
    assert (Hq0 : q <> 0) by (cbn in Hq; destruct Hq as [<-|[<-|[<-|[]]]]; discriminate).
    assert (HE : quoted q (from 1 (q :: escape q s ++ q :: rest)) 1 = (1 + Z.of_nat (length (escape q s)), q)) by now apply quoted_escape.
    cbv zeta. rewrite HC, HE. replace (negb (q =? 0)) with true by lia.
    assert (HL : Z.of_nat (length literal) = 1 + Z.of_nat (length (escape q s)) + 1) by (subst literal; cbn [length]; rewrite length_app; cbn [length]; lia).
    rewrite HL. destruct (q =? 39); reflexivity.
  - assert (closing q = q) as EC by (cbn in Hq; destruct Hq as [<-|[<-|[<-|[]]]]; reflexivity).
    destruct (sqlite3Dequote_correct q s) as [H _]. rewrite EC in H. apply H. cbn in *. tauto.
Qed.

Lemma quoted_token_witness :
  sqlite3GetToken (txt "'it''s';") = (7, TK_STRING) /\ sqlite3Dequote (Some (txt "'it''s'")) = Some (txt "it's").
Proof.
  apply (quoted_token 39 (txt "it's") (txt ";")); [cbn; tauto| |cbn; lia]. repeat constructor; unfold is_u8; cbn; lia.
Defined.
