(* ===== verification/ParserCheck.v ===== *)
(** * ParserCheck: a validated certificate for the parser's automaton

    The generated tables of [ParserTables] are not trusted: this file gives,
    for each state, the LR items that its reductions rest on ([items_table])
    and a rank ([rank_table]), and checks them against the tables by
    evaluation ([automaton_checked]).  The lemmas after it restate the check as
    facts of [edge], the transitions of the automaton, for [Lalr]. *)

From Stdlib Require Import ZArith List Lia Bool.
Import ListNotations.
From S2P Require Import Prelude Keywords ParserTables.
#[local] Open Scope Z_scope.

(** ** The rows of the tables *)

(** The entries of a table whose lookahead is the symbol expected there. *)
Fixpoint scan (x : Z) (n : nat) (la ac : list Z) : list (Z * Z) :=
  match n, la, ac with
  | S n', l :: la', a :: ac' =>
      if l =? x then (x, a) :: scan (x + 1) n' la' ac' else scan (x + 1) n' la' ac'
  | _, _, _ => []
  end.

Definition from (k : Z) (l : list Z) : list Z := skipn (Z.to_nat k) l.

Definition shift_entries (p : Z) : list (Z * Z) :=
  let i := rd yy_shift_ofst p in scan 0 187 (from i yy_lookahead) (from i yy_action).

Definition goto_entries (p : Z) : list (Z * Z) :=
  if p >? YY_REDUCE_COUNT then []
  else
    let i := rd yy_reduce_ofst p in
    let x := Z.max 187 (- i) in
    scan x (Z.to_nat (323 - x)) (from (i + x) yy_lookahead) (from (i + x) yy_action).

(** ** Rules *)

Definition rule_lhs (r : Z) : Z := fst (nth (Z.to_nat r) grammar (YYNOCODE, [])).
Definition rule_rhs (r : Z) : list (list Z) := snd (nth (Z.to_nat r) grammar (YYNOCODE, [])).
Definition rule_len (r : Z) : Z := Z.of_nat (length (rule_rhs r)).

Definition sym_input : Z := 187.
Definition sym_cmdx : Z := 190.
Definition rule_input : Z := 344.
Definition rule_cmdx : Z := 2.
Definition rule_explain_cmdx : Z := 349.

(** The unit rules that are performed by the transition on their symbol. *)
Definition units : list (Z * Z) :=
  flat_map (fun r => map (fun y => (y, rule_lhs r)) (concat (rule_rhs r))) optimized_out.

(** The symbol [x] may stand where one of [ys] is expected. *)
Definition matches (x : Z) (ys : list Z) : bool :=
  existsb (fun y => (x =? y) || existsb (fun u => (fst u =? x) && (snd u =? y)) units) ys.

(** The state that a shift pushes; for a shift with a reduction, the pending
    reduction. *)
Definition pending (act : Z) : Z :=
  if act >? YY_MAX_SHIFT then act + (YY_MIN_REDUCE - YY_MIN_SHIFTREDUCE) else act.

(** ** The certificate *)

Definition items_table : list (list (Z * Z)) :=
  [[]; [(344, 1); (345, 1)]; [(349, 1)]; [(223, 3); (225, 3)]; [(179, 1); (196, 1); (224, 1)];
   [(114, 2); (115, 2)]; [(276, 1); (278, 1)]; [(322, 1); (323, 1)]; [(323, 4)]; [(323, 2)]; [(113, 4)];
   [(238, 1)]; [(189, 3); (190, 3); (192, 3); (193, 3)]; [(164, 5); (165, 5)]; [(276, 5)]; [(82, 8)];
   [(20, 1)]; [(310, 4)]; [(227, 2)];
   [(137, 1); (187, 1); (197, 1); (198, 1); (199, 1); (200, 1); (201, 1); (202, 1); (203, 1); (204, 1); (206, 1); (207, 1); (208, 1); (209, 1); (210, 1); (211, 1); (212, 1); (213, 1); (217, 1); (220, 1); (223, 1); (225, 1); (226, 1)];
   [(136, 3); (187, 1); (197, 1); (198, 1); (199, 1); (200, 1); (201, 1); (202, 1); (203, 1); (204, 1); (206, 1); (207, 1); (208, 1); (209, 1); (210, 1); (211, 1); (212, 1); (213, 1); (217, 1); (220, 1); (223, 1); (225, 1); (226, 1)];
   [(187, 1); (197, 1); (198, 1); (199, 1); (200, 1); (201, 1); (202, 1); (203, 1); (204, 1); (206, 1); (207, 1); (208, 1); (209, 1); (210, 1); (211, 1); (212, 1); (213, 1); (217, 1); (220, 1); (223, 1); (225, 1); (226, 1); (285, 5)];
   [(102, 3); (187, 1); (197, 1); (198, 1); (199, 1); (200, 1); (201, 1); (202, 1); (203, 1); (204, 1); (206, 1); (207, 1); (208, 1); (209, 1); (210, 1); (211, 1); (212, 1); (213, 1); (217, 1); (220, 1); (223, 1); (225, 1); (226, 1)];
   [(168, 3); (169, 3)]; [(239, 9)]; [(69, 2)]; [(68, 3)]; [(190, 6); (193, 6)]; [(145, 2)]; [(318, 2)];
   [(319, 3)]; [(317, 3)]; [(316, 2)]; [(135, 2)]; [(97, 3)]; [(228, 1)]; [(94, 2)]; [(96, 3)];
   [(255, 4); (257, 4)]; [(254, 4); (256, 4)]; [(340, 2)]; [(315, 3)]; [(357, 2); (370, 1)];
   [(85, 1); (86, 1); (305, 1); (306, 1)]; [(85, 1); (86, 1)]; [(86, 2); (306, 2)]; [(86, 2)];
   [(86, 3); (306, 3); (313, 1)]; [(85, 2); (305, 2); (313, 1)]; [(86, 3); (313, 1)]; [(85, 2); (313, 1)];
   [(187, 1); (197, 1); (198, 1); (199, 1); (200, 1); (201, 1); (202, 1); (203, 1); (204, 1); (206, 1); (207, 1); (208, 1); (209, 1); (210, 1); (211, 1); (212, 1); (213, 1); (217, 1); (220, 1); (223, 1); (225, 1); (226, 1); (329, 1)];
   [(149, 2); (150, 2); (151, 2); (187, 1); (197, 1); (198, 1); (199, 1); (200, 1); (201, 1); (202, 1); (203, 1); (204, 1); (206, 1); (207, 1); (208, 1); (209, 1); (210, 1); (211, 1); (212, 1); (213, 1); (217, 1); (220, 1); (223, 1); (225, 1); (226, 1)];
   [(187, 1); (197, 1); (198, 1); (199, 1); (200, 1); (201, 1); (202, 1); (203, 1); (204, 1); (206, 1); (207, 1); (208, 1); (209, 1); (210, 1); (211, 1); (212, 1); (213, 1); (217, 1); (220, 1); (223, 1); (225, 1); (226, 1); (285, 3)];
   [(156, 2); (158, 2); (187, 1); (197, 1); (198, 1); (199, 1); (200, 1); (201, 1); (202, 1); (203, 1); (204, 1); (206, 1); (207, 1); (208, 1); (209, 1); (210, 1); (211, 1); (212, 1); (213, 1); (217, 1); (220, 1); (223, 1); (225, 1); (226, 1)];
   [(70, 3); (187, 1); (197, 1); (198, 1); (199, 1); (200, 1); (201, 1); (202, 1); (203, 1); (204, 1); (206, 1); (207, 1); (208, 1); (209, 1); (210, 1); (211, 1); (212, 1); (213, 1); (217, 1); (220, 1); (223, 1); (225, 1); (226, 1)];
   [(45, 2); (46, 2); (187, 1); (197, 1); (198, 1); (199, 1); (200, 1); (201, 1); (202, 1); (203, 1); (204, 1); (206, 1); (207, 1); (208, 1); (209, 1); (210, 1); (211, 1); (212, 1); (213, 1); (217, 1); (220, 1); (223, 1); (225, 1); (226, 1)];
   [(41, 3); (187, 1); (197, 1); (198, 1); (199, 1); (200, 1); (201, 1); (202, 1); (203, 1); (204, 1); (206, 1); (207, 1); (208, 1); (209, 1); (210, 1); (211, 1); (212, 1); (213, 1); (217, 1); (220, 1); (223, 1); (225, 1); (226, 1)];
   [(34, 3); (187, 1); (197, 1); (198, 1); (199, 1); (200, 1); (201, 1); (202, 1); (203, 1); (204, 1); (206, 1); (207, 1); (208, 1); (209, 1); (210, 1); (211, 1); (212, 1); (213, 1); (217, 1); (220, 1); (223, 1); (225, 1); (226, 1)];
   [(187, 1); (197, 1); (198, 1); (199, 1); (200, 1); (201, 1); (202, 1); (203, 1); (204, 1); (206, 1); (207, 1); (208, 1); (209, 1); (210, 1); (211, 1); (212, 1); (213, 1); (217, 1); (220, 1); (223, 1); (225, 1); (226, 1); (342, 4)];
   [(187, 1); (196, 4); (197, 1); (198, 1); (199, 1); (200, 1); (201, 1); (202, 1); (203, 1); (204, 1); (206, 1); (207, 1); (208, 1); (209, 1); (210, 1); (211, 1); (212, 1); (213, 1); (217, 1); (220, 1); (223, 1); (225, 1); (226, 1); (235, 3)];
   [(179, 2); (187, 1); (197, 1); (198, 1); (199, 1); (200, 1); (201, 1); (202, 1); (203, 1); (204, 1); (206, 1); (207, 1); (208, 1); (209, 1); (210, 1); (211, 1); (212, 1); (213, 1); (217, 1); (220, 1); (223, 1); (225, 1); (226, 1); (236, 1)];
   [(187, 1); (197, 1); (198, 1); (199, 1); (200, 1); (201, 1); (202, 1); (203, 1); (204, 1); (206, 1); (207, 1); (208, 1); (209, 1); (210, 1); (211, 1); (212, 1); (213, 1); (217, 1); (220, 1); (223, 1); (225, 1); (226, 1); (230, 2)];
   [(187, 1); (197, 1); (198, 1); (199, 1); (200, 1); (201, 1); (202, 1); (203, 1); (204, 1); (206, 1); (207, 1); (208, 1); (209, 1); (210, 1); (211, 1); (212, 1); (213, 1); (217, 1); (220, 1); (223, 1); (225, 1); (226, 1); (280, 5)];
   [(187, 1); (197, 1); (198, 1); (199, 1); (200, 1); (201, 1); (202, 1); (203, 1); (204, 1); (206, 1); (207, 1); (208, 1); (209, 1); (210, 1); (211, 1); (212, 1); (213, 1); (217, 1); (220, 1); (223, 1); (225, 1); (226, 1); (229, 3)];
   [(187, 1); (188, 3); (197, 1); (198, 1); (199, 1); (200, 1); (201, 1); (202, 1); (203, 1); (204, 1); (206, 1); (207, 1); (208, 1); (209, 1); (210, 1); (211, 1); (212, 1); (213, 1); (217, 1); (220, 1); (223, 1); (225, 1); (226, 1)];
   [(187, 1); (197, 1); (198, 1); (199, 1); (200, 1); (201, 1); (202, 1); (203, 1); (204, 1); (206, 1); (207, 1); (208, 1); (209, 1); (210, 1); (211, 1); (212, 1); (213, 1); (217, 1); (220, 1); (223, 1); (225, 1); (226, 1); (286, 3)];
   [(187, 1); (197, 1); (198, 1); (199, 1); (200, 1); (201, 1); (202, 1); (203, 1); (204, 1); (206, 1); (207, 1); (208, 1); (209, 1); (210, 1); (211, 1); (212, 1); (213, 1); (217, 1); (220, 1); (223, 1); (225, 1); (226, 1); (288, 2)];
   [(187, 1); (197, 1); (198, 1); (199, 1); (200, 1); (201, 1); (202, 1); (203, 1); (204, 1); (206, 1); (207, 1); (208, 1); (209, 1); (210, 1); (211, 1); (212, 1); (213, 1); (217, 1); (220, 1); (223, 1); (225, 1); (226, 1); (251, 2)];
   [(163, 5); (187, 1); (197, 1); (198, 1); (199, 1); (200, 1); (201, 1); (202, 1); (203, 1); (204, 1); (206, 1); (207, 1); (208, 1); (209, 1); (210, 1); (211, 1); (212, 1); (213, 1); (217, 1); (220, 1); (223, 1); (225, 1); (226, 1)];
   [(162, 3); (187, 1); (197, 1); (198, 1); (199, 1); (200, 1); (201, 1); (202, 1); (203, 1); (204, 1); (206, 1); (207, 1); (208, 1); (209, 1); (210, 1); (211, 1); (212, 1); (213, 1); (217, 1); (220, 1); (223, 1); (225, 1); (226, 1)];
   [(161, 7); (187, 1); (197, 1); (198, 1); (199, 1); (200, 1); (201, 1); (202, 1); (203, 1); (204, 1); (206, 1); (207, 1); (208, 1); (209, 1); (210, 1); (211, 1); (212, 1); (213, 1); (217, 1); (220, 1); (223, 1); (225, 1); (226, 1)];
   [(160, 5); (187, 1); (197, 1); (198, 1); (199, 1); (200, 1); (201, 1); (202, 1); (203, 1); (204, 1); (206, 1); (207, 1); (208, 1); (209, 1); (210, 1); (211, 1); (212, 1); (213, 1); (217, 1); (220, 1); (223, 1); (225, 1); (226, 1)];
   [(187, 1); (197, 1); (198, 1); (199, 1); (200, 1); (201, 1); (202, 1); (203, 1); (204, 1); (206, 1); (207, 1); (208, 1); (209, 1); (210, 1); (211, 1); (212, 1); (213, 1); (217, 1); (220, 1); (223, 1); (225, 1); (226, 1); (269, 2)];
   [(128, 2); (187, 1); (197, 1); (198, 1); (199, 1); (200, 1); (201, 1); (202, 1); (203, 1); (204, 1); (206, 1); (207, 1); (208, 1); (209, 1); (210, 1); (211, 1); (212, 1); (213, 1); (217, 1); (220, 1); (223, 1); (225, 1); (226, 1)];
   [(154, 2); (187, 1); (197, 1); (198, 1); (199, 1); (200, 1); (201, 1); (202, 1); (203, 1); (204, 1); (206, 1); (207, 1); (208, 1); (209, 1); (210, 1); (211, 1); (212, 1); (213, 1); (217, 1); (220, 1); (223, 1); (225, 1); (226, 1)];
   [(147, 2); (187, 1); (197, 1); (198, 1); (199, 1); (200, 1); (201, 1); (202, 1); (203, 1); (204, 1); (206, 1); (207, 1); (208, 1); (209, 1); (210, 1); (211, 1); (212, 1); (213, 1); (217, 1); (220, 1); (223, 1); (225, 1); (226, 1)];
   [(151, 4); (187, 1); (197, 1); (198, 1); (199, 1); (200, 1); (201, 1); (202, 1); (203, 1); (204, 1); (206, 1); (207, 1); (208, 1); (209, 1); (210, 1); (211, 1); (212, 1); (213, 1); (217, 1); (220, 1); (223, 1); (225, 1); (226, 1)];
   [(187, 1); (197, 1); (198, 1); (199, 1); (200, 1); (201, 1); (202, 1); (203, 1); (204, 1); (206, 1); (207, 1); (208, 1); (209, 1); (210, 1); (211, 1); (212, 1); (213, 1); (217, 1); (220, 1); (223, 1); (225, 1); (226, 1); (230, 4)];
   [(187, 1); (197, 1); (198, 1); (199, 1); (200, 1); (201, 1); (202, 1); (203, 1); (204, 1); (206, 1); (207, 1); (208, 1); (209, 1); (210, 1); (211, 1); (212, 1); (213, 1); (217, 1); (220, 1); (223, 1); (225, 1); (226, 1); (231, 2)];
   [(187, 1); (197, 1); (198, 1); (199, 1); (200, 1); (201, 1); (202, 1); (203, 1); (204, 1); (206, 1); (207, 1); (208, 1); (209, 1); (210, 1); (211, 1); (212, 1); (213, 1); (217, 1); (220, 1); (223, 1); (225, 1); (226, 1); (229, 5)];
   [(187, 1); (197, 1); (198, 1); (199, 1); (200, 1); (201, 1); (202, 1); (203, 1); (204, 1); (206, 1); (207, 1); (208, 1); (209, 1); (210, 1); (211, 1); (212, 1); (213, 1); (217, 1); (220, 1); (223, 1); (225, 1); (226, 1); (384, 1)];
   [(187, 1); (197, 1); (198, 1); (199, 1); (200, 1); (201, 1); (202, 1); (203, 1); (204, 1); (206, 1); (207, 1); (208, 1); (209, 1); (210, 1); (211, 1); (212, 1); (213, 1); (217, 1); (220, 1); (223, 1); (225, 1); (226, 1); (236, 1)];
   [(187, 1); (197, 1); (198, 1); (199, 1); (200, 1); (201, 1); (202, 1); (203, 1); (204, 1); (206, 1); (207, 1); (208, 1); (209, 1); (210, 1); (211, 1); (212, 1); (213, 1); (217, 1); (220, 1); (223, 1); (225, 1); (226, 1); (235, 3)];
   [(187, 1); (198, 1); (199, 1); (200, 1); (201, 1); (202, 1); (203, 1); (204, 1); (206, 1); (207, 1); (208, 1); (209, 1); (210, 1); (211, 1); (212, 1); (213, 1); (217, 1); (220, 1); (220, 3); (223, 1); (225, 1); (226, 1)];
   [(150, 4); (187, 1); (197, 1); (198, 1); (199, 1); (200, 1); (201, 1); (202, 1); (203, 1); (204, 1); (206, 1); (207, 1); (208, 1); (209, 1); (210, 1); (211, 1); (212, 1); (213, 1); (217, 1); (220, 1); (223, 1); (225, 1); (226, 1)];
   [(187, 1); (197, 1); (198, 3); (199, 1); (200, 1); (201, 1); (202, 1); (203, 1); (204, 1); (206, 1); (207, 1); (208, 1); (209, 1); (210, 1); (211, 1); (212, 1); (213, 1); (217, 1); (220, 1); (223, 1); (225, 1); (226, 1)];
   [(187, 1); (199, 1); (200, 1); (201, 1); (202, 1); (203, 1); (204, 1); (206, 1); (207, 1); (208, 1); (209, 1); (210, 1); (211, 1); (212, 1); (213, 1); (214, 2); (217, 1); (220, 1); (223, 1); (225, 1); (226, 1)];
   [(187, 1); (197, 3); (199, 1); (200, 1); (201, 1); (202, 1); (203, 1); (204, 1); (206, 1); (207, 1); (208, 1); (209, 1); (210, 1); (211, 1); (212, 1); (213, 1); (217, 1); (220, 1); (223, 1); (225, 1); (226, 1)];
   [(102, 2); (103, 2); (104, 2)]; [(211, 3); (212, 3)]; [(210, 2); (211, 2); (212, 2); (213, 2)];
   [(286, 2)]; [(288, 1)]; [(285, 4)]; [(285, 2)]; [(251, 1)]; [(156, 1); (158, 1)]; [(163, 4)]; [(162, 2)];
   [(161, 6)]; [(160, 4)]; [(269, 1)]; [(70, 2)]; [(45, 1); (46, 1)]; [(41, 2)]; [(342, 3)];
   [(196, 3); (235, 2)]; [(128, 1)]; [(154, 1)]; [(147, 1)]; [(136, 2)]; [(151, 3)]; [(213, 4)]; [(212, 5)];
   [(230, 3)]; [(230, 1)]; [(231, 1)]; [(280, 4)]; [(229, 4)]; [(229, 2)]; [(216, 1)]; [(215, 1)];
   [(214, 1)]; [(188, 2)]; [(235, 2)]; [(220, 4)]; [(220, 2)]; [(217, 2)]; [(207, 4)]; [(206, 2); (207, 2)];
   [(204, 2)]; [(203, 2)]; [(202, 2)]; [(201, 2)]; [(200, 2)]; [(199, 2)]; [(198, 2)]; [(197, 2)];
   [(150, 3)]; [(149, 1); (150, 1); (151, 1)]; [(34, 2)];
   [(187, 1); (199, 1); (201, 1); (202, 1); (203, 1); (204, 1); (206, 1); (206, 3); (207, 1); (207, 3); (217, 1); (220, 1); (223, 1); (225, 1); (226, 1)];
   [(187, 1); (199, 1); (201, 1); (202, 1); (203, 1); (204, 1); (206, 1); (207, 1); (213, 5); (217, 1); (220, 1); (223, 1); (225, 1); (226, 1)];
   [(187, 1); (199, 1); (201, 1); (202, 1); (203, 1); (204, 1); (206, 1); (207, 1); (212, 6); (217, 1); (220, 1); (223, 1); (225, 1); (226, 1)];
   [(187, 1); (199, 1); (201, 1); (202, 1); (203, 1); (204, 1); (206, 1); (207, 1); (211, 4); (217, 1); (220, 1); (223, 1); (225, 1); (226, 1)];
   [(187, 1); (199, 1); (201, 1); (202, 1); (203, 1); (204, 1); (206, 1); (207, 1); (217, 1); (220, 1); (220, 5); (223, 1); (225, 1); (226, 1)];
   [(187, 1); (199, 1); (201, 1); (202, 1); (203, 1); (204, 1); (206, 1); (207, 1); (210, 3); (217, 1); (220, 1); (223, 1); (225, 1); (226, 1)];
   [(187, 1); (199, 1); (201, 1); (202, 1); (203, 1); (204, 1); (206, 1); (207, 1); (207, 5); (217, 1); (220, 1); (223, 1); (225, 1); (226, 1)];
   [(187, 1); (199, 1); (200, 3); (201, 1); (202, 1); (203, 1); (204, 1); (206, 1); (207, 1); (217, 1); (220, 1); (223, 1); (225, 1); (226, 1)];
   [(187, 1); (199, 3); (201, 1); (202, 1); (203, 1); (204, 1); (206, 1); (207, 1); (217, 1); (220, 1); (223, 1); (225, 1); (226, 1)];
   [(187, 1); (201, 3); (202, 1); (203, 1); (204, 1); (206, 1); (207, 1); (217, 1); (220, 1); (223, 1); (225, 1); (226, 1)];
   [(187, 1); (202, 3); (203, 1); (204, 1); (206, 1); (207, 1); (217, 1); (220, 1); (223, 1); (225, 1); (226, 1)];
   [(19, 4)]; [(293, 2); (294, 2); (295, 2); (297, 2)]; [(13, 1); (82, 1); (239, 1); (260, 1); (300, 1)];
   [(50, 1); (71, 9)]; [(313, 2)]; [(336, 1)]; [(28, 4)]; [(27, 2); (28, 2)]; [(19, 1)];
   [(187, 1); (203, 3); (204, 1); (206, 1); (207, 1); (217, 1); (220, 1); (223, 1); (225, 1); (226, 1)];
   [(260, 3)]; [(191, 4); (194, 4)]; [(190, 8); (193, 8)]; [(189, 5); (192, 5)]; [(88, 2)];
   [(187, 1); (206, 1); (207, 1); (217, 3); (220, 1); (223, 1); (225, 1); (226, 1)];
   [(187, 1); (204, 3); (206, 1); (207, 1); (220, 1); (223, 1); (225, 1); (226, 1)];
   [(206, 1); (207, 1); (216, 2); (220, 1); (223, 1); (225, 1); (226, 1)];
   [(206, 1); (207, 1); (215, 2); (220, 1); (223, 1); (225, 1); (226, 1)]; [(294, 7); (365, 1)];
   [(358, 2); (365, 1)]; [(357, 4); (365, 1)]; [(249, 1); (250, 1)]; [(159, 6)]; [(171, 5)]; [(168, 9)];
   [(275, 5)]; [(76, 1)]; [(74, 2)]; [(317, 1); (319, 1); (320, 1)]; [(22, 2)]; [(400, 1); (402, 1)];
   [(401, 3); (402, 1)]; [(294, 5)]; [(164, 3); (165, 3)]; [(159, 3)]; [(152, 3)]; [(284, 3)]; [(248, 3)];
   [(83, 3)]; [(79, 3)]; [(277, 2)]; [(176, 1)]; [(276, 3)]; [(163, 1)]; [(161, 3)]; [(275, 2)]; [(267, 2)];
   [(261, 8)]; [(71, 3)]; [(243, 1)]; [(129, 2)]; [(111, 4); (112, 4)]; [(136, 1); (318, 3)];
   [(136, 1); (319, 4)]; [(314, 2)]; [(260, 4); (270, 1)]; [(317, 5)]; [(316, 4)]; [(159, 4)]; [(152, 4)];
   [(25, 1)]; [(188, 4)]; [(92, 7); (93, 7)]; [(299, 2)]; [(157, 1)]; [(158, 3)]; [(172, 1)]; [(167, 1)];
   [(108, 1)]; [(92, 2); (93, 2)]; [(33, 2); (37, 2)]; [(36, 3)]; [(35, 3)]; [(160, 2); (161, 2)];
   [(371, 2)]; [(340, 1); (341, 1)]; [(104, 4); (181, 2); (182, 2)];
   [(111, 1); (112, 1); (113, 1); (114, 1); (115, 1)]; [(126, 2); (127, 2)]; [(125, 1); (126, 1); (127, 1)];
   [(223, 2); (225, 2); (226, 2)]; [(295, 5)]; [(297, 7)]; [(297, 5)]; [(293, 5)]; [(291, 1); (292, 1)];
   [(289, 1); (290, 1)]; [(253, 1); (254, 1); (255, 1); (256, 1); (257, 1)]; [(123, 2)]; [(122, 4)];
   [(121, 2); (122, 2)]; [(152, 1); (159, 1); (164, 1); (165, 1)]; [(300, 7)]; [(300, 4)]; [(273, 2)];
   [(272, 2)]; [(239, 7)]; [(239, 4)]; [(119, 2)]; [(261, 3)]; [(82, 4)]; [(13, 4)]; [(71, 6)]; [(67, 1)];
   [(54, 2)]; [(53, 2)]; [(52, 2)]; [(51, 1)]; [(42, 1)]; [(244, 2)]; [(109, 1); (115, 3)]; [(132, 2)];
   [(177, 2)]; [(105, 1)]; [(111, 3); (112, 3); (113, 3)]; [(332, 1)]; [(117, 1)]; [(279, 2); (280, 2)];
   [(182, 4)]; [(181, 2); (182, 2)]; [(32, 1)]; [(23, 1)]; [(11, 2)]; [(10, 1)]; [(12, 4)];
   [(351, 1); (352, 1)]; [(261, 6)]; [(261, 5)]; [(86, 4); (88, 1)]; [(102, 4)]; [(114, 4)]; [(115, 4)];
   [(113, 6)]; [(108, 2); (109, 1)]; [(87, 1); (88, 1)]; [(85, 3); (88, 1)];
   [(189, 2); (190, 2); (191, 2); (192, 2); (193, 2); (194, 2)];
   [(33, 1); (34, 1); (35, 1); (36, 1); (37, 1)]; [(3, 1)]; [(293, 4); (297, 4)]; [(164, 6)]; [(159, 8)];
   [(159, 7); (160, 1); (161, 1)]; [(152, 5)]; [(277, 3)]; [(160, 1); (161, 1); (171, 6)]; [(169, 8)];
   [(168, 11)]; [(160, 1); (161, 1); (168, 10)]; [(276, 6)]; [(160, 1); (161, 1); (275, 6)]; [(275, 3)];
   [(68, 4); (136, 1)]; [(370, 2); (371, 1)]; [(42, 4); (50, 1)]; [(39, 2)]; [(245, 2)]; [(244, 4)];
   [(114, 5)]; [(115, 5)]; [(113, 7)]; [(112, 5)]; [(235, 1); (317, 4)]; [(235, 1); (316, 3)];
   [(228, 3); (229, 1)]; [(92, 3); (93, 3); (378, 1)]; [(92, 1); (93, 1)]; [(355, 1)]; [(294, 4)];
   [(295, 4)]; [(292, 2)]; [(290, 2)]; [(286, 1)]; [(285, 1)];
   [(253, 2); (254, 2); (255, 2); (256, 2); (257, 2)]; [(250, 2)]; [(165, 7)]; [(164, 4); (165, 4)];
   [(159, 2)]; [(284, 2)]; [(248, 2)]; [(83, 2)]; [(79, 2)]; [(300, 5)]; [(300, 3)]; [(277, 4)]; [(171, 7)];
   [(170, 4)]; [(168, 5); (169, 5)]; [(276, 4)]; [(173, 1)]; [(275, 7)]; [(275, 1)]; [(239, 11)]; [(239, 5)];
   [(239, 3)]; [(261, 10)]; [(261, 9)]; [(261, 4)]; [(261, 2)]; [(82, 6)]; [(82, 5)]; [(82, 3)]; [(13, 5)];
   [(13, 3)]; [(71, 7)]; [(70, 4)]; [(69, 4)]; [(68, 6)]; [(61, 1)]; [(369, 1)]; [(368, 3)]; [(42, 2)];
   [(40, 1)]; [(39, 4)]; [(39, 3)]; [(60, 2)]; [(38, 2)]; [(367, 1)]; [(337, 1); (339, 1)]; [(310, 2)];
   [(245, 1)]; [(244, 3)]; [(310, 1)]; [(111, 2); (112, 2); (113, 2)]; [(323, 5)]; [(322, 2)]; [(137, 2)];
   [(136, 4)]; [(93, 9)]; [(93, 8)]; [(226, 4)]; [(226, 3)]; [(228, 2)]; [(92, 8)]; [(92, 6); (93, 6)];
   [(92, 5); (93, 5)]; [(92, 4); (93, 4)]; [(19, 2); (357, 1)]; [(11, 1)]; [(12, 3)]; [(9, 1); (12, 1)];
   [(8, 1)]; [(3, 2)]; [(404, 2)]; [(303, 1)]; [(401, 2)]; [(294, 6)]; [(277, 5)]; [(278, 2)]; [(276, 7)];
   [(275, 8)]; [(358, 1)]; [(71, 8)]; [(42, 3)]; [(36, 2)]; [(35, 2)]; [(102, 1); (103, 1); (104, 1)];
   [(357, 3)]; [(205, 1); (209, 2); (219, 1); (222, 1)]; [(79, 1); (83, 1); (248, 1); (284, 1)];
   [(404, 1); (404, 3); (405, 1)]; [(303, 2); (404, 1); (405, 1)]; [(13, 2); (82, 2); (261, 1)];
   [(52, 1); (53, 1); (54, 1)]; [(27, 1); (28, 1); (29, 1); (361, 1)]; [(299, 3); (401, 1)];
   [(293, 3); (295, 3); (296, 1); (297, 3)]; [(253, 3); (254, 3); (255, 3); (256, 3); (257, 3)];
   [(120, 1); (121, 1); (122, 1); (123, 1)]; [(170, 3); (171, 3)]; [(168, 7); (169, 7)];
   [(136, 1); (168, 4); (169, 4)]; [(168, 2); (169, 2); (170, 2); (171, 2)]; [(176, 2); (177, 1)];
   [(163, 2); (177, 1)]; [(161, 4); (177, 1)]; [(136, 1); (239, 10)]; [(71, 4); (244, 1)];
   [(69, 3); (136, 1)]; [(44, 1)]; [(55, 1); (56, 1)]; [(63, 1); (64, 1)]; [(38, 1); (60, 1)];
   [(136, 1); (190, 7); (193, 7)]; [(189, 4); (190, 4); (192, 4); (193, 4)]; [(307, 1); (308, 1); (309, 1)];
   [(247, 1)]; [(243, 2); (244, 1)]; [(129, 3); (177, 1)]; [(141, 1); (142, 1)]; [(97, 4); (235, 1)];
   [(94, 3); (235, 1)]; [(259, 1)]; [(258, 1)]; [(27, 3); (28, 3)]; [(96, 4); (235, 1)]; [(187, 2)];
   [(180, 1); (189, 1); (190, 1); (191, 1); (192, 1); (193, 1); (194, 1); (359, 1)]; [(1, 2)];
   [(0, 1); (1, 1)]; [(298, 1); (299, 1)]; [(294, 3)]; [(297, 6)]; [(293, 1); (294, 1); (295, 1); (297, 1)];
   [(257, 5)]; [(255, 5)]; [(165, 6)]; [(164, 2); (165, 2)]; [(159, 5)]; [(157, 2); (378, 1)];
   [(158, 4); (378, 1)]; [(121, 3); (122, 3)]; [(152, 2)]; [(80, 1)]; [(300, 6)]; [(300, 2)]; [(271, 1)];
   [(277, 1)]; [(171, 4)]; [(172, 2); (378, 1)]; [(168, 8)]; [(168, 6); (169, 6)];
   [(168, 1); (169, 1); (170, 1); (171, 1)]; [(167, 2); (378, 1)]; [(276, 2)]; [(163, 3)]; [(162, 1)];
   [(161, 5)]; [(160, 3)]; [(275, 4)]; [(274, 1)]; [(273, 1)]; [(272, 1); (394, 1)]; [(270, 2)]; [(260, 2)];
   [(239, 8)]; [(239, 6)]; [(239, 2)]; [(263, 1)]; [(177, 1); (267, 3)]; [(266, 1); (267, 1)]; [(393, 2)];
   [(393, 1)]; [(118, 1); (119, 1)]; [(261, 7)]; [(82, 7)]; [(16, 2)]; [(16, 1)]; [(60, 1)]; [(71, 5)];
   [(71, 2)]; [(71, 1)]; [(70, 1)]; [(69, 1)]; [(68, 5)]; [(68, 2)]; [(68, 1)]; [(45, 3); (46, 3)];
   [(368, 2)]; [(368, 1)]; [(59, 1)]; [(41, 1)]; [(39, 1)]; [(74, 1)]; [(191, 3); (194, 3)];
   [(190, 5); (193, 5)]; [(342, 2)]; [(342, 1)]; [(340, 3)]; [(224, 2)]; [(196, 2); (235, 1)]; [(310, 5)];
   [(310, 3)]; [(309, 2)]; [(104, 3); (181, 1); (182, 1)]; [(114, 3)]; [(113, 5)]; [(133, 1)]; [(132, 1)];
   [(129, 1)]; [(127, 3)]; [(145, 3); (235, 1)]; [(145, 1)]; [(318, 1)]; [(319, 2)]; [(317, 2)]; [(326, 1)];
   [(330, 1)]; [(328, 1)]; [(323, 3)]; [(334, 1)]; [(333, 1)]; [(316, 1)]; [(315, 4)]; [(315, 2)];
   [(315, 1)]; [(314, 1); (336, 2)]; [(135, 3); (136, 1)]; [(135, 1)]; [(213, 3)]; [(212, 4)]; [(238, 2)];
   [(235, 1); (385, 1)]; [(225, 4)]; [(223, 4)]; [(227, 3)]; [(97, 2)]; [(95, 1); (97, 1)]; [(280, 3)];
   [(279, 3)]; [(279, 1); (280, 1)]; [(228, 4)]; [(94, 1)]; [(227, 1)]; [(188, 5)]; [(28, 5)]; [(188, 1)];
   [(96, 2)]; [(96, 1); (377, 1)]; [(89, 1); (90, 1)]; [(181, 3); (182, 3)]; [(181, 1); (182, 1)];
   [(184, 1); (360, 1)]; [(19, 5); (22, 1)]; [(19, 3)]; [(9, 2); (12, 2)]; [(349, 2)]; [(348, 1)]].

Definition rank_table : list Z :=
  [2; 2; 2; 2; 0; 2; 0; 0; 0; 0; 2; 2; 2; 0; 0; 0; 0; 0; 0; 5; 4; 2; 13; 0; 0; 0; 0; 0; 0; 0;
   0; 0; 0; 0; 0; 2; 0; 0; 0; 0; 2; 2; 0; 0; 0; 0; 0; 0; 0; 0; 0; 0; 0; 0; 0; 0; 0; 0; 0; 0; 4;
   6; 0; 0; 0; 0; 0; 0; 1; 3; 5; 1; 3; 0; 7; 8; 4; 0; 0; 0; 0; 1; 6; 4; 0; 0; 12; 13; 12; 0; 0;
   0; 0; 0; 0; 0; 0; 0; 0; 0; 0; 0; 0; 0; 0; 0; 0; 0; 0; 0; 0; 0; 0; 0; 0; 0; 0; 0; 0; 0; 0; 0;
   0; 0; 0; 0; 0; 0; 0; 0; 0; 0; 0; 0; 0; 0; 0; 0; 0; 0; 0; 0; 12; 10; 9; 11; 10; 12; 10; 12;
   12; 12; 12; 2; 0; 2; 2; 0; 0; 0; 0; 0; 12; 2; 11; 7; 10; 0; 12; 12; 13; 13; 0; 2; 0; 3; 0;
   0; 0; 0; 0; 0; 2; 0; 1; 0; 0; 0; 0; 0; 0; 0; 0; 0; 0; 0; 0; 0; 0; 0; 0; 0; 0; 0; 0; 9; 2; 2;
   0; 2; 2; 2; 2; 4; 6; 2; 4; 3; 4; 4; 4; 4; 2; 4; 0; 0; 0; 0; 0; 0; 0; 0; 0; 0; 0; 0; 0; 0; 0;
   2; 2; 0; 0; 0; 0; 0; 0; 0; 0; 0; 0; 0; 0; 0; 0; 0; 0; 0; 0; 0; 0; 0; 0; 0; 0; 0; 0; 0; 11;
   0; 0; 0; 0; 0; 0; 0; 0; 0; 0; 2; 0; 2; 2; 11; 10; 10; 8; 10; 5; 3; 4; 2; 4; 2; 2; 2; 4; 2;
   6; 4; 2; 2; 4; 4; 6; 2; 2; 2; 0; 6; 2; 2; 8; 8; 6; 8; 4; 4; 2; 12; 6; 0; 2; 2; 2; 2; 2; 2;
   2; 2; 2; 2; 2; 2; 2; 2; 2; 2; 2; 4; 2; 2; 2; 2; 2; 4; 2; 2; 2; 2; 2; 4; 4; 2; 2; 4; 2; 2; 2;
   6; 2; 2; 2; 5; 0; 0; 4; 4; 2; 4; 4; 3; 4; 11; 0; 4; 4; 2; 13; 2; 2; 3; 2; 2; 4; 12; 14; 0;
   2; 6; 8; 10; 2; 2; 2; 3; 3; 2; 2; 2; 2; 2; 2; 2; 2; 2; 4; 4; 2; 2; 2; 2; 2; 0; 0; 0; 0; 0;
   0; 5; 0; 1; 0; 5; 0; 0; 0; 0; 0; 0; 0; 0; 0; 0; 0; 0; 0; 0; 0; 0; 1; 0; 0; 0; 0; 0; 0; 0; 0;
   0; 0; 0; 15; 0; 3; 2; 0; 0; 0; 0; 0; 0; 0; 0; 0; 0; 3; 0; 0; 0; 0; 0; 0; 0; 0; 0; 0; 0; 2;
   0; 0; 0; 0; 0; 0; 0; 0; 7; 0; 0; 0; 0; 0; 0; 0; 1; 0; 0; 5; 0; 0; 0; 0; 0; 0; 0; 0; 0; 0; 0;
   0; 0; 1; 0; 0; 0; 0; 0; 0; 0; 0; 0; 0; 0; 0; 0; 0; 0; 0; 0; 0; 0; 0; 0; 0; 0; 5; 0; 0; 0; 0;
   0; 0; 0; 0; 0; 0; 0; 0; 0; 0; 4; 1; 0; 0; 0; 0; 1; 0; 0; 0; 0; 6; 0; 0; 0; 0; 0; 0; 0; 0; 0;
   0; 6; 1; 12; 0; 15; 0; 0; 1; 0; 0].

Definition goto_rank : list Z :=
  [0; 2; 2; 0; 2; 1; 2; 1; 14; 0; 0; 1; 2; 0; 0; 12; 2; 0; 0; 4; 0; 4; 2; 4; 5; 0; 0; 0; 11; 0;
   2; 13; 13; 2; 4; 0; 4; 2; 3; 2; 2; 1; 3; 2; 0; 2; 2; 0; 0; 0; 1; 1; 0; 4; 5; 5; 0; 0; 4; 12;
   10; 8; 6; 4; 2; 0; 4; 6; 5; 6; 2; 9; 10; 0; 0; 7; 8; 0; 4; 0; 2; 1; 0; 0; 6; 0; 0; 2; 0; 10;
   0; 0; 0; 10; 0; 2; 0; 0; 2; 1; 0; 0; 2; 0; 0; 2; 0; 0; 6; 4; 0; 0; 0; 0; 2; 0; 1; 1; 2; 0;
   1; 0; 2; 4; 4; 0; 0; 0; 11; 11; 0; 3; 2; 2; 0; 0].

(** The items [(r, d)], rule [r] read up to its [d]-th symbol, of a state. *)
Definition items_of (s : Z) : list (Z * Z) :=
  if s <=? YY_MAX_SHIFT then nth (Z.to_nat s) items_table []
  else if s >=? YY_MIN_REDUCE then [(s - YY_MIN_REDUCE, rule_len (s - YY_MIN_REDUCE))]
  else [].

(** Ranks: every reduction lowers the rank of the state on top by more than
    it raises the stack. *)
Definition lhs_rank (a : Z) : Z := rd goto_rank (a - 187).
Definition rank (s : Z) : Z :=
  if s <=? YY_MAX_SHIFT then rd rank_table s
  else if s >=? YY_MIN_REDUCE then Z.max 0 (lhs_rank (rule_lhs (s - YY_MIN_REDUCE)) + 2 - rule_len (s - YY_MIN_REDUCE))
  else 0.

(** ** The check *)

Definition goto_in (g : list (Z * Z)) (x : Z) : bool := existsb (fun e => fst e =? x) g.
Definition item_in (its : list (Z * Z)) (r d : Z) : bool := existsb (fun it => (fst it =? r) && (snd it =? d)) its.

(** An item after a transition on [x] from a state with items [its] and gotos
    [g]: [x] is the symbol read last, and the item is in the state before or
    the rule starts there. *)
Definition check_item (its g : list (Z * Z)) (x : Z) (it : Z * Z) : bool :=
  let '(r, d) := it in
  (1 <=? d) && matches x (nth (Z.to_nat (d - 1)) (rule_rhs r) []) &&
  (if d =? 1 then goto_in g (rule_lhs r) else item_in its r (d - 1)).

Definition rule_ok (r : Z) : bool := (0 <=? r) && (r <? YYNRULE) && negb (existsb (Z.eqb r) optimized_out).

(** A pending reduction after a transition on [x]. *)
Definition check_pending (its g : list (Z * Z)) (x r : Z) : bool :=
  rule_ok r && (1 <=? rule_len r) && negb (r =? rule_input) && check_item its g x (r, rule_len r).

(** A reduction in the state itself. *)
Definition check_reduce (its g : list (Z * Z)) (s r : Z) : bool :=
  rule_ok r && negb (r =? rule_explain_cmdx) &&
  (if rule_len r =? 0
   then existsb (fun e => (fst e =? rule_lhs r) && (rank (snd e) + 2 <=? rank s)) g
   else item_in its r (rule_len r) && (lhs_rank (rule_lhs r) + 2 <=? rank s + rule_len r)).

Definition check_shift (its g : list (Z * Z)) (s : Z) (e : Z * Z) : bool :=
  let '(x, a) := e in
  if a <=? YY_MAX_SHIFT then (0 <? a) && forallb (check_item its g x) (items_of a)
  else if (YY_MIN_SHIFTREDUCE <=? a) && (a <=? YY_MAX_SHIFTREDUCE) then
    check_pending its g x (a - YY_MIN_SHIFTREDUCE) &&
    (negb (a - YY_MIN_SHIFTREDUCE =? rule_explain_cmdx) || (s =? 581))
  else
    (YY_MIN_REDUCE <=? a) && check_reduce its g s (a - YY_MIN_REDUCE) &&
    (negb (a - YY_MIN_REDUCE =? rule_input) || (x =? 0)).

Definition check_default (its g : list (Z * Z)) (s : Z) : bool :=
  let a := rd yy_default s in
  (a =? YY_ERROR_ACTION) ||
  ((YY_MIN_REDUCE <=? a) && check_reduce its g s (a - YY_MIN_REDUCE) && negb (a - YY_MIN_REDUCE =? rule_input)).

(** No reduction is possible in a state, and no nonterminal is expected. *)
Definition quiet (s : Z) : bool :=
  (s <=? YY_MAX_SHIFT) && (match goto_entries s with [] => true | _ => false end) && (rd yy_default s =? YY_ERROR_ACTION) && forallb (fun e => snd e <=? YY_MAX_SHIFTREDUCE) (shift_entries s).

Definition check_goto (its g : list (Z * Z)) (s : Z) (e : Z * Z) : bool :=
  let '(x, a) := e in
  (rank a <=? lhs_rank x) && (0 <=? rank a) &&
  (if a <=? YY_MAX_SHIFT then (0 <? a) && forallb (check_item its g x) (items_of a)
   else if a =? YY_ACCEPT_ACTION then (s =? 0) && (x =? sym_input)
   else (YY_MIN_REDUCE <=? a) && check_pending its g x (a - YY_MIN_REDUCE) && negb (a - YY_MIN_REDUCE =? rule_explain_cmdx)) &&
  (if x =? sym_cmdx then quiet a else negb (a =? 581)).

Definition check_state (s : Z) : bool :=
  let its := items_of s in
  let g := goto_entries s in
  (0 <=? rank s) && (rank s <=? 15) &&
  forallb (check_shift its g s) (shift_entries s) && check_default its g s && forallb (check_goto its g s) g &&
  forallb (fun e => negb (snd e =? 581)) (shift_entries s).

Definition states : list Z := map Z.of_nat (seq 0 583).

Lemma automaton_checked : forallb check_state states = true.
Proof. vm_compute. reflexivity. Qed.

(** ** Facts of the tables *)

Lemma in_states p : 0 <= p <= YY_MAX_SHIFT <-> In p states.
Proof.
  unfold states, YY_MAX_SHIFT. rewrite in_map_iff. split.
  - intros H. exists (Z.to_nat p). split; [lia|]. apply in_seq. lia.
  - intros (k & <- & H). apply in_seq in H. lia.
Qed.

Definition rules : list Z := map Z.of_nat (seq 0 409).
Lemma in_rules r : 0 <= r < YYNRULE <-> In r rules.
Proof.
  unfold rules, YYNRULE. rewrite in_map_iff. split.
  - intros H. exists (Z.to_nat r). split; [lia|]. apply in_seq. lia.
  - intros (k & <- & H). apply in_seq in H. lia.
Qed.

(** The rules as the tables have them are the rules of the grammar. *)
Definition rule_agrees (r : Z) : bool :=
  (rd yyRuleInfoLhs r =? rule_lhs r) && (rd yyRuleInfoNRhs r =? - rule_len r) &&
  (187 <=? rule_lhs r) && (rule_lhs r <? YYNOCODE) &&
  (negb (rule_lhs r =? sym_input) || (r =? rule_input)) && (negb (rule_lhs r =? sym_cmdx) || (r =? rule_cmdx)).

Lemma rules_agree r : 0 <= r < YYNRULE ->
  rd yyRuleInfoLhs r = rule_lhs r /\ rd yyRuleInfoNRhs r = - rule_len r /\ 187 <= rule_lhs r < YYNOCODE /\
  (rule_lhs r = sym_input -> r = rule_input) /\ (rule_lhs r = sym_cmdx -> r = rule_cmdx).
Proof.
  intros Hr. apply in_rules in Hr.
  assert (H : forallb rule_agrees rules = true) by (vm_compute; reflexivity).
  pose proof (proj1 (forallb_forall _ _) H r Hr) as HA. unfold rule_agrees in HA.
  rewrite !andb_true_iff, !orb_true_iff, !negb_true_iff, !Z.eqb_eq, !Z.eqb_neq, Z.leb_le, Z.ltb_lt in HA. intuition lia.
Qed.

Lemma rule_ok_spec r : rule_ok r = true -> 0 <= r < YYNRULE /\ ~ In r optimized_out.
Proof.
  unfold rule_ok. rewrite !andb_true_iff, negb_true_iff. intros [H1 H2]. split; [lia|]. intros HI.
  assert (existsb (Z.eqb r) optimized_out = true) by (apply existsb_exists; exists r; split; [exact HI|apply Z.eqb_refl]). congruence.
Qed.

(** ** Rows *)

Lemma scan_in x n la ac y a : In (y, a) (scan x n la ac) ->
  x <= y < x + Z.of_nat n /\ y - x < Z.of_nat (length la) /\ y - x < Z.of_nat (length ac) /\ rd la (y - x) = y /\ rd ac (y - x) = a.
Proof.
  revert x la ac. induction n as [|n IH]; intros x la ac H; [destruct H|].
  destruct la as [|l la]; [destruct H|]. destruct ac as [|b ac]; [destruct H|]. cbn [scan] in H.
  assert (HT : In (y, a) (scan (x + 1) n la ac) ->
    x <= y < x + Z.of_nat (S n) /\ y - x < Z.of_nat (length (l :: la)) /\ y - x < Z.of_nat (length (b :: ac)) /\
    rd (l :: la) (y - x) = y /\ rd (b :: ac) (y - x) = a).
  { intros H'. apply IH in H' as (H1 & H2 & H3 & H4 & H5). unfold rd in *.
    replace (Z.to_nat (y - x)) with (S (Z.to_nat (y - (x + 1)))) by lia. cbn [length nth]. repeat split; try lia; assumption. }
  destruct (Z.eqb_spec l x) as [->|]; [|auto]. destruct H as [E|H]; [|auto]. injection E as -> ->.
  rewrite Z.sub_diag. cbn. repeat split; lia.
Qed.

Lemma in_scan x n la ac y : x <= y < x + Z.of_nat n -> y - x < Z.of_nat (length la) -> y - x < Z.of_nat (length ac) ->
  rd la (y - x) = y -> In (y, rd ac (y - x)) (scan x n la ac).
Proof.
  revert x la ac. induction n as [|n IH]; intros x la ac H1 H2 H3 H4; [lia|].
  destruct la as [|l la]; [cbn in H2; lia|]. destruct ac as [|b ac]; [cbn in H3; lia|]. cbn [scan].
  destruct (Z.eq_dec y x) as [->|Hne].
  - rewrite Z.sub_diag in *. unfold rd in *. cbn in H4 |- *. subst l. rewrite Z.eqb_refl. now left.
  - assert (HT : In (y, rd (b :: ac) (y - x)) (scan (x + 1) n la ac)).
    { unfold rd in *. replace (Z.to_nat (y - x)) with (S (Z.to_nat (y - (x + 1)))) in * by lia. cbn [nth length] in *. apply IH; lia. }
    destruct (l =? x); [now right|assumption].
Qed.

Lemma rd_tail k l i : 0 <= k -> 0 <= i -> rd (from k l) i = rd l (k + i).
Proof. intros Hk Hi. unfold rd, from. rewrite nth_skipn. f_equal. lia. Qed.

Lemma length_tail k l : 0 <= k <= Z.of_nat (length l) -> Z.of_nat (length (from k l)) = Z.of_nat (length l) - k.
Proof. intros H. unfold from. rewrite length_skipn. lia. Qed.

(** ** The transitions *)

Inductive edge : Z -> Z -> Z -> Prop :=
| edge_shift p x a : 0 <= p <= YY_MAX_SHIFT -> In (x, a) (shift_entries p) -> a <= YY_MAX_SHIFTREDUCE -> edge p x (pending a)
| edge_goto p x a : 0 <= p <= YY_MAX_SHIFT -> In (x, a) (goto_entries p) -> edge p x a.

Lemma state_checked p : 0 <= p <= YY_MAX_SHIFT -> check_state p = true.
Proof. intros H. apply in_states in H. exact (proj1 (forallb_forall _ _) automaton_checked p H). Qed.

Lemma state_facts p : 0 <= p <= YY_MAX_SHIFT ->
  0 <= rank p <= 15 /\
  (forall e, In e (shift_entries p) -> check_shift (items_of p) (goto_entries p) p e = true /\ snd e <> 581) /\
  check_default (items_of p) (goto_entries p) p = true /\
  (forall e, In e (goto_entries p) -> check_goto (items_of p) (goto_entries p) p e = true).
Proof.
  intros H. apply state_checked in H. unfold check_state in H. cbv zeta in H. rewrite !andb_true_iff, !forallb_forall in H.
  destruct H as [[[[[H1 H2] H3] H4] H5] H6]. split; [lia|]. split; [|exact (conj H4 H5)].
  intros e He. split; [exact (H3 e He)|]. intros E. specialize (H6 e He). rewrite E in H6. discriminate H6.
Qed.

Lemma shift_symbol p x a : In (x, a) (shift_entries p) -> 0 <= x < 187.
Proof. unfold shift_entries. cbv zeta. intros H. apply scan_in in H. lia. Qed.

Lemma goto_symbol p x a : In (x, a) (goto_entries p) -> 187 <= x < 323.
Proof.
  unfold goto_entries. destruct (p >? YY_REDUCE_COUNT); [intros []|]. cbv zeta. intros H. apply scan_in in H. lia.
Qed.

Definition check_items (p x s : Z) : Prop := forall it, In it (items_of s) -> check_item (items_of p) (goto_entries p) x it = true.

Lemma pending_items p x r : check_pending (items_of p) (goto_entries p) x r = true -> 0 <= r < YYNRULE /\ check_items p x (r + YY_MIN_REDUCE).
Proof.
  unfold check_pending. rewrite !andb_true_iff. intros [[[H1 H2] _] H4]. apply rule_ok_spec in H1 as [Hr _]. split; [exact Hr|].
  intros it. unfold items_of, YY_MIN_REDUCE, YY_MAX_SHIFT. replace (r + 1257 <=? 582) with false by lia.
  replace (r + 1257 >=? 1257) with true by lia. replace (r + 1257 - 1257) with r by lia. intros [<-|[]]. exact H4.
Qed.

(** What a transition leads to. *)
Definition pending_ok (p s : Z) : Prop :=
  let r := s - YY_MIN_REDUCE in
  YY_MIN_REDUCE <= s /\ rule_ok r = true /\ 1 <= rule_len r /\ r <> rule_input /\ (r = rule_explain_cmdx -> p = 581).

Lemma check_pending_ok p x r : check_pending (items_of p) (goto_entries p) x r = true ->
  (r = rule_explain_cmdx -> p = 581) -> pending_ok p (r + YY_MIN_REDUCE).
Proof.
  unfold check_pending, pending_ok. cbv zeta. replace (r + YY_MIN_REDUCE - YY_MIN_REDUCE) with r by lia.
  rewrite !andb_true_iff. intros [[[H1 H2] H3] _] HE. pose proof (proj1 (rule_ok_spec r H1)).
  split; [lia|]. split; [exact H1|]. split; [lia|]. split; [|exact HE]. intros ->. discriminate H3.
Qed.

Lemma edge_target p x s : edge p x s ->
  (0 < s <= YY_MAX_SHIFT /\ check_items p x s) \/ (s = YY_ACCEPT_ACTION /\ p = 0 /\ x = sym_input) \/
  (pending_ok p s /\ check_items p x s).
Proof.
  intros [p' x' a Hp HI Ha|p' x' a Hp HI].
  - destruct (state_facts p' Hp) as (_ & HS & _ & _). destruct (HS _ HI) as [HC _]. unfold check_shift in HC.
    unfold pending. destruct (Z.leb_spec a YY_MAX_SHIFT) as [H|H].
    + replace (a >? YY_MAX_SHIFT) with false by lia. left. apply andb_true_iff in HC as [H0 HC].
      rewrite forallb_forall in HC. split; [lia|exact HC].
    + replace (a >? YY_MAX_SHIFT) with true by lia. right; right.
      destruct (_ && _) eqn:EA.
      * apply andb_true_iff in HC as [HC HE].
        replace (a + (YY_MIN_REDUCE - YY_MIN_SHIFTREDUCE)) with (a - YY_MIN_SHIFTREDUCE + YY_MIN_REDUCE) by lia.
        split; [|now apply pending_items]. apply (check_pending_ok p' x'); [exact HC|]. intros E. rewrite E in HE.
        cbn [negb orb] in HE. rewrite Z.eqb_refl in HE. cbn [negb orb] in HE. now apply Z.eqb_eq.
      * exfalso. unfold YY_MIN_REDUCE, YY_MIN_SHIFTREDUCE, YY_MAX_SHIFTREDUCE, YY_MAX_SHIFT in *.
        rewrite !andb_true_iff in HC. destruct HC as [[HC _] _]. lia.
  - destruct (state_facts p' Hp) as (_ & _ & _ & HG). specialize (HG _ HI). unfold check_goto in HG.
    rewrite !andb_true_iff in HG. destruct HG as [[_ HG] _]. destruct (Z.leb_spec a YY_MAX_SHIFT) as [H|H].
    + left. apply andb_true_iff in HG as [H0 HC]. rewrite forallb_forall in HC. split; [lia|exact HC].
    + destruct (Z.eqb_spec a YY_ACCEPT_ACTION) as [->|]; right; [left|right].
      * apply andb_true_iff in HG as [H1 H2]. split; [reflexivity|]. split; now apply Z.eqb_eq.
      * rewrite !andb_true_iff in HG. destruct HG as [[H1 H2] H3].
        replace a with (a - YY_MIN_REDUCE + YY_MIN_REDUCE) by lia.
        split; [|now apply pending_items]. apply (check_pending_ok p' x'); [exact H2|]. intros E. rewrite E in H3. discriminate H3.
Qed.

(** The states around a complete statement. *)
Lemma edge_581 p x : edge p x 581 -> x = sym_cmdx.
Proof.
  intros H. remember 581 as s eqn:Es. destruct H as [p' x' a Hp HI Ha|p' x' a Hp HI].
  - exfalso. destruct (state_facts p' Hp) as (_ & HS & _ & _). destruct (HS _ HI) as [HC HN]. cbn [snd] in HN.
    unfold pending in Es. destruct (a >? YY_MAX_SHIFT) eqn:E; [|lia].
    unfold check_shift in HC. replace (a <=? YY_MAX_SHIFT) with false in HC by lia.
    unfold YY_MIN_REDUCE, YY_MIN_SHIFTREDUCE, YY_MAX_SHIFT in *. lia.
  - destruct (state_facts p' Hp) as (_ & _ & _ & HG). specialize (HG _ HI). unfold check_goto in HG.
    rewrite !andb_true_iff in HG. destruct HG as [_ HG]. destruct (Z.eqb_spec x' sym_cmdx); [assumption|].
    rewrite Es in HG. discriminate HG.
Qed.

Lemma edge_cmdx p s : edge p sym_cmdx s -> quiet s = true.
Proof.
  intros H. remember sym_cmdx as x eqn:Ex. destruct H as [p' x' a Hp HI Ha|p' x' a Hp HI].
  - apply shift_symbol in HI. subst x'. unfold sym_cmdx in HI. lia.
  - destruct (state_facts p' Hp) as (_ & _ & _ & HG). specialize (HG _ HI). unfold check_goto in HG.
    rewrite !andb_true_iff in HG. destruct HG as [_ HG]. rewrite Ex, Z.eqb_refl in HG. exact HG.
Qed.

Lemma goto_rank_ok p x a : 0 <= p <= YY_MAX_SHIFT -> In (x, a) (goto_entries p) -> 0 <= rank a <= lhs_rank x.
Proof.
  intros Hp HI. destruct (state_facts p Hp) as (_ & _ & _ & HG). specialize (HG _ HI). unfold check_goto in HG.
  rewrite !andb_true_iff in HG. lia.
Qed.

Lemma pending_ranks : forallb (fun r => (rule_len r =? 0) || (rank (r + YY_MIN_REDUCE) <=? 15)) rules = true.
Proof. vm_compute. reflexivity. Qed.

Lemma pending_rank p s : pending_ok p s -> 0 <= rank s <= 15.
Proof.
  intros (H1 & H2 & H3 & _). destruct (rule_ok_spec _ H2) as [Hr _]. apply in_rules in Hr.
  pose proof (proj1 (forallb_forall _ _) pending_ranks _ Hr) as HR. cbv beta in HR.
  replace (s - YY_MIN_REDUCE + YY_MIN_REDUCE) with s in HR by lia.
  split; [|lia]. unfold rank. replace (s <=? YY_MAX_SHIFT) with false by (unfold YY_MIN_REDUCE, YY_MAX_SHIFT in *; lia).
  replace (s >=? YY_MIN_REDUCE) with true by lia. lia.
Qed.
