(* ===== verification/Lalr.v ===== *)
(** * Lalr: the push-down automaton of the SQL parser

    Models the parser engine that Lemon left in [parse.c] of
    [src/api-core/src/db/sqlite3.c]: the lookup of actions, the stack with its
    growth and its destructors, shift, reduce and [sqlite3Parser].  Every
    [assert] of the code and every access to a table is checked: a routine
    returns [None] when one fails.  The semantic actions, which call the code
    generator, and the allocator are operations of the class [ParserEnv].

    The theorem, for every token and every stack the parser can reach: the
    call returns, no assertion fails, no table is read out of bounds, the stack
    is never popped below its bottom and never written above its end, and the
    symbols on the stack derive, by the rules of the grammar, exactly the tokens
    consumed so far. *)

From Stdlib Require Import ZArith List Lia Bool.
Import ListNotations.
From S2P Require Import Prelude Keywords ParserTables ParserCheck.
#[local] Open Scope Z_scope.
#[local] Open Scope ag_scope.

(** ** Looking an action up *)

Definition get (t : list Z) (i : Z) : option Z :=
  if (0 <=? i) && (i <? Z.of_nat (length t)) then Some (rd t i) else None.

(** An assertion of the code. *)
Notation "'assert*' b 'in' k" := (if b then k else None)
  (at level 10, b at level 200, k at level 200) : ag_scope.

(** The [do{ ... }while(1)] of [yy_find_shift_action]: a fallback token has no
    fallback, so there are two rounds at most. *)
Fixpoint find_shift_loop (fuel : nat) (iLookAhead stateno : Z) : option Z :=
  match fuel with
  | O => None
  | S fuel' =>
      let* i := get yy_shift_ofst stateno in
      assert* (0 <=? i) && (i <=? YY_ACTTAB_COUNT) && (i + YYNTOKEN <=? YY_NLOOKAHEAD) in
      assert* negb (iLookAhead =? YYNOCODE) && (iLookAhead <? YYNTOKEN) in
      let i := i + iLookAhead in
      assert* i <? YY_NLOOKAHEAD in
      let* l := get yy_lookahead i in
      if negb (l =? iLookAhead) then
        let* iFallback := get yyFallback iLookAhead in
        if negb (iFallback =? 0) then
          let* f := get yyFallback iFallback in
          assert* f =? 0 in
          find_shift_loop fuel' iFallback stateno
        else
          let j := i - iLookAhead + YYWILDCARD in
          let* w := get yy_lookahead j in
          if (w =? YYWILDCARD) && (iLookAhead >? 0) then get yy_action j else get yy_default stateno
      else get yy_action i
  end.

Definition yy_find_shift_action (iLookAhead stateno : Z) : option Z :=
  if stateno >? YY_MAX_SHIFT then Some stateno
  else assert* stateno <=? YY_SHIFT_COUNT in find_shift_loop 2 iLookAhead stateno.

Definition yy_find_reduce_action (stateno iLookAhead : Z) : option Z :=
  assert* stateno <=? YY_REDUCE_COUNT in
  let* i := get yy_reduce_ofst stateno in
  assert* negb (iLookAhead =? YYNOCODE) in
  let i := i + iLookAhead in
  assert* (0 <=? i) && (i <? YY_ACTTAB_COUNT) in
  let* l := get yy_lookahead i in
  assert* l =? iLookAhead in
  get yy_action i.

Definition sqlite3ParserFallback (iToken : Z) : option Z := get yyFallback iToken.

(** ** Destructors *)

Inductive destructor :=
  | SelectDelete | ExprDelete | ExprListDelete | SrcListDelete | WithDelete | WindowListDelete
  | IdListDelete | WindowDelete | DeleteTriggerStep | TrigEventDelete | FrameBoundDelete.

(** The [switch] of [yy_destructor]. *)
Definition destructor_of (yymajor : Z) : option destructor :=
  let among := existsb (Z.eqb yymajor) in
  if among [206; 241; 242; 254; 256] then Some SelectDelete
  else if among [218; 219; 248; 250; 270; 281; 283; 286; 293; 298; 315] then Some ExprDelete
  else if among [223; 233; 234; 246; 249; 251; 255; 257; 264; 271; 280; 282; 314] then Some ExprListDelete
  else if among [240; 247; 259; 260; 265] then Some SrcListDelete
  else if among [243] then Some WithDelete
  else if among [253; 310] then Some WindowListDelete
  else if among [266; 273] then Some IdListDelete
  else if among [276; 311; 312; 313; 316] then Some WindowDelete
  else if among [289; 294] then Some DeleteTriggerStep
  else if among [291] then Some TrigEventDelete
  else if among [318; 319; 320] then Some FrameBoundDelete
  else None.

(** ** The environment

    [M] is [YYMINORTYPE], the union of the semantic values; [T] is [Token]; [C] is
    the rest of the world ([Parse], the connection, the heap). *)
Class ParserEnv (M T C : Type) := {
  yy0 : T -> M;                          (* a token as a semantic value *)
  action : Z -> list M -> Z -> T -> C -> M * C;
    (* the C code of a rule: its values, the lookahead and its token *)
  stale : C -> M;                        (* what an unused slot of the stack holds *)
  delete : destructor -> M -> C -> C;
  yyrealloc : Z -> C -> bool * C;        (* [YYREALLOC] for so many entries *)
  oomFault : C -> C;                     (* [sqlite3OomFault] *)
  syntaxError : T -> C -> C              (* [yy_syntax_error] *)
}.

Section Engine.
Context {M T C : Type} {env : ParserEnv M T C}.

Record yyStackEntry := { stateno : Z; major : Z; minor : M }.

(** [yystack], the entry at [yytos] first and the one at [yystack[0]] last; the
    index of [yystackEnd]; whether the stack is on the heap. *)
Record yyParser := { yystack : list yyStackEntry; yystackEnd : Z; yyheap : bool }.

Definition yytos (p : yyParser) : Z := Z.of_nat (length (yystack p)) - 1.

Definition sqlite3ParserInit (c : C) : yyParser :=
  {| yystack := [{| stateno := 0; major := 0; minor := stale c |}]; yystackEnd := YYSTACKDEPTH - 1; yyheap := false |}.

(** The number of errors, the parser and the world afterwards. *)
Definition yyGrowStack (p : yyParser) (c : C) : Z * yyParser * C :=
  let oldSize := 1 + yystackEnd p in
  let newSize := oldSize * 2 + 100 in
  let '(ok, c) := yyrealloc newSize c in
  if negb ok then (1, p, c)
  else (0, {| yystack := yystack p; yystackEnd := newSize - 1; yyheap := true |}, c).

Definition yy_destructor (yymajor : Z) (yypminor : M) (c : C) : C :=
  match destructor_of yymajor with Some d => delete d yypminor c | None => c end.

Definition yy_pop_parser_stack (p : yyParser) (c : C) : option (yyParser * C) :=
  assert* yytos p >? 0 in
  match yystack p with
  | e :: st => Some ({| yystack := st; yystackEnd := yystackEnd p; yyheap := yyheap p |}, yy_destructor (major e) (minor e) c)
  | [] => None
  end.

(** [while( yytos>yystack ) yy_pop_parser_stack();] *)
Fixpoint pop_all (fuel : nat) (p : yyParser) (c : C) : option (yyParser * C) :=
  if yytos p >? 0 then
    match fuel with
    | O => None
    | S fuel' => match yy_pop_parser_stack p c with Some (p, c) => pop_all fuel' p c | None => None end
    end
  else Some (p, c).

Definition yyStackOverflow (p : yyParser) (c : C) : option (yyParser * C) :=
  match pop_all (length (yystack p)) p c with Some (p, c) => Some (p, oomFault c) | None => None end.

(** The loop of [sqlite3ParserFinalize] over the entries above the bottom; the
    second component is the heap block to free. *)
Fixpoint finalize_loop (st : list yyStackEntry) (c : C) : C :=
  match st with
  | e :: st' =>
      match st' with
      | [] => c
      | _ => finalize_loop st' (if major e >=? YY_MIN_DSTRCTR then yy_destructor (major e) (minor e) c else c)
      end
  | [] => c
  end.
Definition sqlite3ParserFinalize (p : yyParser) (c : C) : C * bool := (finalize_loop (yystack p) c, yyheap p).

(** How a call of [sqlite3Parser] ended. *)
Inductive outcome := Shifted | Accepted | Rejected | Overflowed.

Definition yy_shift (p : yyParser) (yyNewState yyMajor : Z) (yyMinor : T) (c : C) : option (outcome * yyParser * C) :=
  let '(full, p, c) := if yytos p + 1 >? yystackEnd p then yyGrowStack p c else (0, p, c) in
  if negb (full =? 0) then
    match yyStackOverflow p c with Some (p, c) => Some (Overflowed, p, c) | None => None end
  else
    assert* yytos p + 1 <=? yystackEnd p in
    let yyNewState := if yyNewState >? YY_MAX_SHIFT then yyNewState + (YY_MIN_REDUCE - YY_MIN_SHIFTREDUCE) else yyNewState in
    Some (Shifted,
      {| yystack := {| stateno := yyNewState; major := yyMajor; minor := yy0 yyMinor |} :: yystack p;
         yystackEnd := yystackEnd p; yyheap := yyheap p |}, c).

(** The value of the left-hand side: what the rule's code computes or, for a
    rule without code, what the slot held before. *)
Definition reduce_minor (yyruleno : Z) (args : list M) (yyLookahead : Z) (yyLookaheadToken : T) (c : C) : M * C :=
  if yyruleno <? YYNRULE_WITH_ACTION then action yyruleno args yyLookahead yyLookaheadToken c
  else (hd (stale c) args, c).

Definition yy_reduce (p : yyParser) (yyruleno yyLookahead : Z) (yyLookaheadToken : T) (c : C) : option (Z * yyParser * C) :=
  assert* negb (existsb (Z.eqb yyruleno) never_reduces) in
  let* yygoto := get yyRuleInfoLhs yyruleno in
  let* yysize := get yyRuleInfoNRhs yyruleno in
  let n := Z.to_nat (- yysize) in
  let '(m, c) := reduce_minor yyruleno (rev (map minor (firstn n (yystack p)))) yyLookahead yyLookaheadToken c in
  match skipn n (yystack p) with
  | [] => None
  | u :: st =>
      let* yyact := yy_find_reduce_action (stateno u) yygoto in
      assert* negb ((yyact >? YY_MAX_SHIFT) && (yyact <=? YY_MAX_SHIFTREDUCE)) in
      assert* negb (yyact =? YY_ERROR_ACTION) in
      let p := {| yystack := {| stateno := yyact; major := yygoto; minor := m |} :: u :: st;
                  yystackEnd := yystackEnd p; yyheap := yyheap p |} in
      assert* yytos p <=? yystackEnd p in
      Some (yyact, p, c)
  end.

(** The [while(1)] of [sqlite3Parser]. *)
Fixpoint parse_loop (fuel : nat) (p : yyParser) (yyact yymajor : Z) (yyminor : T) (c : C) : option (outcome * yyParser * C) :=
  match fuel with
  | O => None
  | S fuel' =>
      assert* match yystack p with e :: _ => yyact =? stateno e | [] => false end in
      let* yyact := yy_find_shift_action yymajor yyact in
      if yyact >=? YY_MIN_REDUCE then
        let yyruleno := yyact - YY_MIN_REDUCE in
        let* n := get yyRuleInfoNRhs yyruleno in
        let '(full, p, c) := if (n =? 0) && (yytos p >=? yystackEnd p) then yyGrowStack p c else (0, p, c) in
        if negb (full =? 0) then
          match yyStackOverflow p c with Some (p, c) => Some (Overflowed, p, c) | None => None end
        else
          match yy_reduce p yyruleno yymajor yyminor c with
          | Some (yyact, p, c) => parse_loop fuel' p yyact yymajor yyminor c
          | None => None
          end
      else if yyact <=? YY_MAX_SHIFTREDUCE then yy_shift p yyact yymajor yyminor c
      else if yyact =? YY_ACCEPT_ACTION then
        match yystack p with
        | _ :: [b] => Some (Accepted, {| yystack := [b]; yystackEnd := yystackEnd p; yyheap := yyheap p |}, c)
        | _ => None
        end
      else
        assert* yyact =? YY_ERROR_ACTION in
        Some (Rejected, p, yy_destructor yymajor (yy0 yyminor) (syntaxError yyminor c))
  end.

(** As many rounds as the stack has entries, and sixteen more, are enough. *)
Definition sqlite3Parser (p : yyParser) (yymajor : Z) (yyminor : T) (c : C) : option (outcome * yyParser * C) :=
  match yystack p with
  | e :: _ => parse_loop (16 + length (yystack p)) p (stateno e) yymajor yyminor c
  | [] => None
  end.

End Engine.
Arguments yyStackEntry M : clear implicits.
Arguments yyParser M : clear implicits.

(** ** Conditions on the world that every operation keeps *)

Class Keeping {M T C : Type} (env : ParserEnv M T C) (kept : C -> Prop) := {
  action_kept : forall r args la t c, kept c -> kept (snd (action r args la t c));
  delete_kept : forall d m c, kept c -> kept (delete d m c);
  realloc_kept : forall n c, kept c -> kept (snd (yyrealloc n c));
  oom_kept : forall c, kept c -> kept (oomFault c);
  syntax_kept : forall t c, kept c -> kept (syntaxError t c)
}.

Section Kept.
Context {M T C : Type} {env : ParserEnv M T C} {kept : C -> Prop} {keeping : Keeping env kept}.

Lemma destructor_kept j m c : kept c -> kept (yy_destructor j m c).
Proof. unfold yy_destructor. destruct (destructor_of j); [apply delete_kept|auto]. Qed.

Lemma pop_all_kept fuel : forall p c p' c', kept c -> pop_all fuel p c = Some (p', c') -> kept c'.
Proof.
  induction fuel as [|fuel IH]; intros p c p' c' HK; cbn [pop_all]; destruct (yytos p >? 0); try discriminate; try congruence.
  unfold yy_pop_parser_stack. destruct (yytos p >? 0); [|discriminate]. destruct (yystack p); [discriminate|].
  apply IH. now apply destructor_kept.
Qed.

Lemma overflow_kept p c p' c' : kept c -> yyStackOverflow p c = Some (p', c') -> kept c'.
Proof.
  intros HK. unfold yyStackOverflow. destruct (pop_all _ p c) as [[p1 c1]|] eqn:E; [|discriminate].
  intros [= _ <-]. apply oom_kept, (pop_all_kept _ _ _ _ _ HK E).
Qed.

Lemma grow_kept (b : bool) p c : kept c -> kept (snd (if b then yyGrowStack p c else (0, p, c))).
Proof.
  intros HK. destruct b; [|exact HK]. unfold yyGrowStack. set (n := (1 + yystackEnd p) * 2 + 100). cbv zeta. fold n.
  pose proof (realloc_kept n c HK) as H. destruct (yyrealloc n c) as [ok c']. destruct ok; exact H.
Qed.

Lemma reduce_kept p r la t c act p' c' : kept c -> yy_reduce p r la t c = Some (act, p', c') -> kept c'.
Proof.
  intros HK. unfold yy_reduce, reduce_minor. destruct (negb _); [|discriminate]. destruct (get yyRuleInfoLhs r); [|discriminate].
  destruct (get yyRuleInfoNRhs r) as [sz|]; [|discriminate]. cbv zeta. set (args := rev _).
  assert (HA : kept (snd (if r <? YYNRULE_WITH_ACTION then action r args la t c else (hd (stale c) args, c)))).
  { destruct (r <? _); [now apply action_kept|exact HK]. }
  destruct (if r <? _ then _ else _) as [m c1]. cbn [snd] in HA.
  destruct (skipn _ (yystack p)); [discriminate|]. destruct (yy_find_reduce_action _ _); [|discriminate].
  destruct (negb _); [|discriminate]. destruct (negb _); [|discriminate]. destruct (_ <=? _); [|discriminate]. now intros [= _ _ <-].
Qed.

Lemma shift_kept p act a t c o p' c' : kept c -> yy_shift p act a t c = Some (o, p', c') -> kept c'.
Proof.
  intros HK. unfold yy_shift. pose proof (grow_kept (yytos p + 1 >? yystackEnd p) p c HK) as HG.
  destruct (if _ >? _ then _ else _) as [[full q] d]. cbn [snd] in HG. destruct (negb _).
  - destruct (yyStackOverflow q d) as [[q' d']|] eqn:E; [|discriminate]. intros [= _ _ <-]. exact (overflow_kept _ _ _ _ HG E).
  - destruct (_ <=? _); [|discriminate]. now intros [= _ _ <-].
Qed.

Lemma loop_kept fuel : forall p act a t c o p' c', kept c -> parse_loop fuel p act a t c = Some (o, p', c') -> kept c'.
Proof.
  induction fuel as [|fuel IH]; intros p act a t c o p' c' HK; [discriminate|]. cbn [parse_loop].
  destruct (match yystack p with [] => false | e :: _ => act =? stateno e end); [|discriminate].
  destruct (yy_find_shift_action a act) as [x|]; [|discriminate]. destruct (x >=? YY_MIN_REDUCE).
  - cbv zeta. destruct (get yyRuleInfoNRhs _) as [n|]; [|discriminate].
    pose proof (grow_kept ((n =? 0) && (yytos p >=? yystackEnd p)) p c HK) as HG.
    destruct (if _ && _ then _ else _) as [[full q] d]. cbn [snd] in HG. destruct (negb _).
    + destruct (yyStackOverflow q d) as [[q' d']|] eqn:E; [|discriminate]. intros [= _ _ <-]. exact (overflow_kept _ _ _ _ HG E).
    + destruct (yy_reduce q _ a t d) as [[[x' q'] d']|] eqn:E; [|discriminate]. apply IH. exact (reduce_kept _ _ _ _ _ _ _ _ HG E).
  - destruct (x <=? YY_MAX_SHIFTREDUCE); [apply shift_kept, HK|]. destruct (x =? YY_ACCEPT_ACTION).
    + destruct (yystack p) as [|? [|? [|]]]; try discriminate. now intros [= _ _ <-].
    + destruct (x =? YY_ERROR_ACTION); [|discriminate]. intros [= _ _ <-]. now apply destructor_kept, syntax_kept.
Qed.

Lemma parser_kept p a t c o p' c' : kept c -> sqlite3Parser p a t c = Some (o, p', c') -> kept c'.
Proof. intros HK. unfold sqlite3Parser. destruct (yystack p); [discriminate|]. now apply loop_kept. Qed.

Lemma finalize_kept p c : kept c -> kept (fst (sqlite3ParserFinalize p c)).
Proof.
  unfold sqlite3ParserFinalize. cbn [fst]. generalize (yystack p) as st. intros st. revert c.
  induction st as [|e st IH]; intros c HK; [exact HK|]. cbn [finalize_loop]. destruct st as [|f st]; [exact HK|].
  apply IH. destruct (_ >=? _); [now apply destructor_kept|exact HK].
Qed.

End Kept.

(** ** Accesses to the tables *)

Lemma get_rd t i : 0 <= i < Z.of_nat (length t) -> get t i = Some (rd t i).
Proof. intros H. unfold get. replace ((0 <=? i) && (i <? Z.of_nat (length t))) with true by lia. reflexivity. Qed.

Lemma table_lengths :
  Z.of_nat (length yy_action) = 2207 /\ Z.of_nat (length yy_lookahead) = 2394 /\ Z.of_nat (length yy_shift_ofst) = 583 /\
  Z.of_nat (length yy_reduce_ofst) = 413 /\ Z.of_nat (length yy_default) = 583 /\ Z.of_nat (length yyFallback) = 187 /\
  Z.of_nat (length yyRuleInfoLhs) = 409 /\ Z.of_nat (length yyRuleInfoNRhs) = 409.
Proof. vm_compute. tauto. Qed.

Lemma shift_ofst_checked : forallb (fun i => (0 <=? i) && (i <=? 2207)) yy_shift_ofst = true.
Proof. vm_compute. reflexivity. Qed.
Lemma reduce_ofst_checked : forallb (fun i => (-277 <=? i) && (i <=? 1772)) yy_reduce_ofst = true.
Proof. vm_compute. reflexivity. Qed.
Lemma fallback_checked : forallb (fun f => (f =? 0) || ((0 <? f) && (f <? 187) && (rd yyFallback f =? 0))) yyFallback = true.
Proof. vm_compute. reflexivity. Qed.
Lemma lookahead_tail_checked : forallb (fun x => 187 <=? x) (from 2207 yy_lookahead) = true.
Proof. vm_compute. reflexivity. Qed.
Lemma no_fallback_for_end : rd yyFallback 0 = 0.
Proof. reflexivity. Qed.

#[local] Opaque yy_action yy_lookahead yy_shift_ofst yy_reduce_ofst yy_default yyFallback yyRuleInfoLhs yyRuleInfoNRhs items_table grammar.

Lemma rd_checked (f : Z -> bool) t i : forallb f t = true -> 0 <= i < Z.of_nat (length t) -> f (rd t i) = true.
Proof. intros H Hi. rewrite forallb_forall in H. apply H, rd_In, Hi. Qed.

(** The symbols that the table may have for a token: itself, its fallback, or
    the wildcard. *)
Definition token_as (a x : Z) : Prop :=
  x = a \/ (x = rd yyFallback a /\ x <> 0) \/ (x = YYWILDCARD /\ 0 < a).

Lemma shift_ofst_range p : 0 <= p <= YY_MAX_SHIFT -> 0 <= rd yy_shift_ofst p <= 2207.
Proof.
  intros H. destruct table_lengths as (_ & _ & HL & _). unfold YY_MAX_SHIFT in H.
  pose proof (rd_checked _ _ p shift_ofst_checked ltac:(lia)) as HC. cbv beta in HC. lia.
Qed.

Lemma fallback_range a : 0 <= a < YYNTOKEN -> rd yyFallback a = 0 \/ (0 < rd yyFallback a < 187 /\ rd yyFallback (rd yyFallback a) = 0).
Proof.
  intros H. destruct table_lengths as (_ & _ & _ & _ & _ & HL & _). unfold YYNTOKEN in H.
  pose proof (rd_checked _ _ a fallback_checked ltac:(lia)) as HC. cbv beta in HC. lia.
Qed.

(** An entry of the row of a state. *)
Lemma shift_entry p x : 0 <= p <= YY_MAX_SHIFT -> 0 <= x < 187 -> rd yy_lookahead (rd yy_shift_ofst p + x) = x ->
  rd yy_shift_ofst p + x < 2207 /\ In (x, rd yy_action (rd yy_shift_ofst p + x)) (shift_entries p).
Proof.
  intros Hp Hx HE. pose proof (shift_ofst_range p Hp) as HO. destruct table_lengths as (HA & HL & _).
  assert (HI : rd yy_shift_ofst p + x < 2207).
  { destruct (Z_lt_ge_dec (rd yy_shift_ofst p + x) 2207); [assumption|exfalso].
    pose proof (rd_checked _ _ (rd yy_shift_ofst p + x - 2207) lookahead_tail_checked) as HT. cbv beta in HT.
    rewrite length_tail, rd_tail in HT by lia. replace (2207 + (rd yy_shift_ofst p + x - 2207)) with (rd yy_shift_ofst p + x) in HT by lia.
    rewrite HE in HT. lia. }
  split; [exact HI|]. unfold shift_entries. cbv zeta.
  replace (rd yy_action (rd yy_shift_ofst p + x)) with (rd (from (rd yy_shift_ofst p) yy_action) (x - 0)).
  - apply in_scan; rewrite ?length_tail, ?rd_tail by lia; try lia. now replace (rd yy_shift_ofst p + (x - 0)) with (rd yy_shift_ofst p + x) by lia.
  - rewrite rd_tail by lia. f_equal. lia.
Qed.

Lemma find_shift_cases a p : 0 <= a < YYNTOKEN -> 0 <= p <= YY_MAX_SHIFT ->
  exists act, yy_find_shift_action a p = Some act /\
    ((exists x, token_as a x /\ In (x, act) (shift_entries p)) \/ act = rd yy_default p).
Proof.
  intros Ha Hp. destruct table_lengths as (HA & HL & HS & _ & HD & HF & _). pose proof (shift_ofst_range p Hp) as HO.
  unfold YYNTOKEN in Ha. unfold YY_MAX_SHIFT in Hp.
  assert (HR : forall fuel x, 0 <= x < 187 -> find_shift_loop (S fuel) x p =
    if negb (rd yy_lookahead (rd yy_shift_ofst p + x) =? x) then
      if negb (rd yyFallback x =? 0) then find_shift_loop fuel (rd yyFallback x) p
      else if (rd yy_lookahead (rd yy_shift_ofst p + YYWILDCARD) =? YYWILDCARD) && (x >? 0)
        then get yy_action (rd yy_shift_ofst p + YYWILDCARD) else get yy_default p
    else get yy_action (rd yy_shift_ofst p + x)).
  { intros fuel x Hx. cbn [find_shift_loop]. rewrite get_rd by lia. unfold YY_NLOOKAHEAD, YY_ACTTAB_COUNT, YYNTOKEN, YYNOCODE. rewrite HL.
    replace (_ && _ && _) with true by lia. replace (negb (x =? 323) && (x <? 187)) with true by lia.
    replace (_ <? 2394) with true by lia. rewrite (get_rd yy_lookahead) by lia.
    destruct (negb (_ =? x)); [|reflexivity]. rewrite (get_rd yyFallback) by lia.
    destruct (fallback_range x ltac:(unfold YYNTOKEN; lia)) as [E|[E1 E2]].
    - rewrite E. cbn [negb Z.eqb].
      replace (rd yy_shift_ofst p + x - x + YYWILDCARD) with (rd yy_shift_ofst p + YYWILDCARD) by lia.
      rewrite (get_rd yy_lookahead) by (unfold YYWILDCARD; lia). reflexivity.
    - replace (rd yyFallback x =? 0) with false by lia. cbn [negb]. rewrite (get_rd yyFallback) by lia. rewrite E2. reflexivity. }
  assert (HW : forall x, 0 < x -> rd yy_lookahead (rd yy_shift_ofst p + YYWILDCARD) = YYWILDCARD ->
    exists act, get yy_action (rd yy_shift_ofst p + YYWILDCARD) = Some act /\ In (YYWILDCARD, act) (shift_entries p)).
  { intros x Hx E. destruct (shift_entry p YYWILDCARD ltac:(unfold YY_MAX_SHIFT; lia) ltac:(unfold YYWILDCARD; lia) E) as [HI HIn].
    rewrite get_rd by (unfold YYWILDCARD in *; lia). eauto. }
  assert (HD' : get yy_default p = Some (rd yy_default p)) by (apply get_rd; lia).
  unfold yy_find_shift_action. unfold YY_MAX_SHIFT, YY_SHIFT_COUNT. replace (p >? 582) with false by lia. replace (p <=? 582) with true by lia.
  rewrite HR by lia. destruct (Z.eqb_spec (rd yy_lookahead (rd yy_shift_ofst p + a)) a) as [E|_]; cbn [negb].
  { destruct (shift_entry p a ltac:(unfold YY_MAX_SHIFT; lia) ltac:(lia) E) as [HI HIn]. rewrite get_rd by lia.
    eexists. split; [reflexivity|]. left. exists a. split; [now left|exact HIn]. }
  destruct (fallback_range a ltac:(unfold YYNTOKEN; lia)) as [EF|[EF1 EF2]].
  - rewrite EF. cbn [negb Z.eqb]. destruct (_ && (a >? 0)) eqn:EW; [|eauto].
    apply andb_true_iff in EW as [EW Ha0]. apply Z.eqb_eq in EW. destruct (HW a ltac:(lia) EW) as (act & EA & HIn).
    exists act. split; [exact EA|]. left. exists YYWILDCARD. split; [right; right; split; [reflexivity|lia]|exact HIn].
  - replace (rd yyFallback a =? 0) with false by lia. cbn [negb]. set (f := rd yyFallback a) in *. rewrite HR by lia.
    assert (Hap : 0 < a) by (destruct (Z.eq_dec a 0) as [->|]; [|lia]; subst f; rewrite no_fallback_for_end in EF1; lia).
    destruct (Z.eqb_spec (rd yy_lookahead (rd yy_shift_ofst p + f)) f) as [E|_]; cbn [negb].
    { destruct (shift_entry p f ltac:(unfold YY_MAX_SHIFT; lia) ltac:(lia) E) as [HI HIn]. rewrite get_rd by lia.
      eexists. split; [reflexivity|]. left. exists f. split; [right; left; split; [reflexivity|lia]|exact HIn]. }
    rewrite EF2. cbn [negb Z.eqb]. destruct (_ && (f >? 0)) eqn:EW; [|eauto].
    apply andb_true_iff in EW as [EW _]. apply Z.eqb_eq in EW. destruct (HW a Hap EW) as (act & EA & HIn).
    exists act. split; [exact EA|]. left. exists YYWILDCARD. split; [right; right; split; [reflexivity|lia]|exact HIn].
Qed.

Lemma find_reduce_entry p x act : 0 <= p <= YY_MAX_SHIFT -> In (x, act) (goto_entries p) -> yy_find_reduce_action p x = Some act.
Proof.
  intros Hp HI. pose proof (goto_symbol p x act HI) as Hx. unfold goto_entries in HI.
  destruct (Z.gtb_spec p YY_REDUCE_COUNT) as [|HC]; [destruct HI|]. cbv zeta in HI.
  destruct table_lengths as (HA & HL & _ & HR & _). unfold YY_REDUCE_COUNT in HC.
  pose proof (rd_checked _ _ p reduce_ofst_checked ltac:(lia)) as HO. cbv beta in HO.
  set (i := rd yy_reduce_ofst p) in *. set (x0 := Z.max 187 (- i)) in *.
  apply scan_in in HI as (H1 & H2 & H3 & H4 & H5). rewrite length_tail in H2, H3 by lia.
  rewrite rd_tail in H4, H5 by lia. replace (i + x0 + (x - x0)) with (i + x) in * by lia.
  unfold yy_find_reduce_action, YY_REDUCE_COUNT, YYNOCODE, YY_ACTTAB_COUNT. replace (p <=? 412) with true by lia.
  rewrite get_rd by lia. fold i. replace (negb (x =? 323)) with true by lia.
  replace ((0 <=? i + x) && (i + x <? 2207)) with true by lia.
  rewrite get_rd by lia. rewrite H4, Z.eqb_refl, get_rd by lia. now rewrite H5.
Qed.

(** ** Derivations *)

(** What a symbol of the grammar derives; a token counts as its fallback and
    as the wildcard as well. *)
Inductive derives : Z -> list Z -> Prop :=
| derives_token a x : 0 <= a < YYNTOKEN -> token_as a x -> derives x [a]
| derives_rule r w : 0 <= r < YYNRULE -> derives_all (rule_rhs r) w -> derives (rule_lhs r) w
with derives_all : list (list Z) -> list Z -> Prop :=
| derives_nil : derives_all [] []
| derives_cons ys y rhs u v : In y ys -> derives y u -> derives_all rhs v -> derives_all (ys :: rhs) (u ++ v).

Lemma derives_all_places rhs (ws : list (list Z)) :
  Forall2 (fun ys w => exists y, In y ys /\ derives y w) rhs ws -> derives_all rhs (concat ws).
Proof. induction 1 as [|ys w rhs ws (y & Hy & Hw) _ IH]; cbn [concat]; [constructor|]. now apply (derives_cons ys y). Qed.

(** ** The invariant of the stack *)

(** What an environment promises.  [means] relates a symbol, the tokens it
    derives and its semantic value: the tokens, the actions and the unit rules
    respect it. *)
Class Meaning {M T C : Type} (env : ParserEnv M T C) (means : Z -> list Z -> M -> Prop) := {
  token_means : forall a x t, 0 <= a < YYNTOKEN -> token_as a x -> means x [a] (yy0 t);
  unit_means : forall x y w m, In (x, y) units -> means x w m -> means y w m;
  rule_means : forall r wms la t c, rule_ok r = true ->
    Forall2 (fun ys wm => exists y, In y ys /\ means y (fst wm) (snd wm)) (rule_rhs r) wms ->
    means (rule_lhs r) (concat (map fst wms)) (fst (reduce_minor r (map snd wms) la t c))
}.

(** [done] is a condition that the end of a statement ([cmdx ::= cmd]) brings
    about and that nothing undoes in the same call. *)
Class Finishing {M T C : Type} (env : ParserEnv M T C) (done : C -> Prop) := {
  finish_done : forall args la t c, done (snd (reduce_minor rule_cmdx args la t c));
  delete_done : forall d m c, done c -> done (delete d m c);
  realloc_done : forall n c, done c -> done (snd (yyrealloc n c));
  oom_done : forall c, done c -> done (oomFault c);
  syntax_done : forall t c, done c -> done (syntaxError t c)
}.

Section Sound.
Context {M T C : Type} {env : ParserEnv M T C}.
Context (means : Z -> list Z -> M -> Prop) {meaning : Meaning env means}.
Context (done : C -> Prop) {finishing : Finishing env done}.

Inductive linked : list (yyStackEntry M) -> list (list Z) -> Prop :=
| linked_bottom b : stateno b = 0 -> major b = 0 -> linked [b] []
| linked_push e u st w ws x : linked (u :: st) ws -> edge (stateno u) x (stateno e) -> means x w (minor e) ->
    (187 <= x -> major e = x) -> (x < 187 -> w = [major e] /\ major e < 187) -> linked (e :: u :: st) (w :: ws).

Lemma linked_states e st ws : linked (e :: st) ws -> Forall (fun u => 0 <= stateno u <= YY_MAX_SHIFT) st.
Proof.
  remember (e :: st) as l eqn:El. intros H. revert e st El. induction H as [b H0 H1|e u st w ws x H IH HE HM HN HT]; intros e' st' El.
  - injection El as <- <-. constructor.
  - injection El as <- <-. constructor; [|now apply (IH u st)]. inversion HE; assumption.
Qed.

(** The place of the right-hand side that a transition on [x] fills. *)
Definition place (ys : list Z) (wm : list Z * M) : Prop := exists y, In y ys /\ means y (fst wm) (snd wm).

Lemma check_item_spec its g x r d : check_item its g x (r, d) = true ->
  1 <= d /\ (exists y, In y (nth (Z.to_nat (d - 1)) (rule_rhs r) []) /\ (x = y \/ In (x, y) units)) /\
  (d = 1 -> goto_in g (rule_lhs r) = true) /\ (d <> 1 -> In (r, d - 1) its).
Proof.
  unfold check_item. rewrite !andb_true_iff. intros [[H1 H2] H3]. split; [lia|]. split.
  - unfold matches in H2. apply existsb_exists in H2 as (y & Hy & H2). exists y. split; [exact Hy|].
    apply orb_true_iff in H2 as [H2|H2]; [left; lia|right]. apply existsb_exists in H2 as ([a b] & Hu & H2). cbn [fst snd] in H2.
    replace (x, y) with (a, b) by (f_equal; lia). exact Hu.
  - split; intros Hd.
    + subst d. exact H3.
    + replace (d =? 1) with false in H3 by lia. unfold item_in in H3. apply existsb_exists in H3 as ([a b] & Hi & H3).
      cbn [fst snd] in H3. replace (r, d - 1) with (a, b) by (f_equal; lia). exact Hi.
Qed.

Lemma edge_item p x s r d : edge p x s -> In (r, d) (items_of s) -> check_item (items_of p) (goto_entries p) x (r, d) = true.
Proof.
  intros HE HI. destruct (edge_target p x s HE) as [[_ H]|[(-> & _)|[_ H]]]; [exact (H _ HI)|destruct HI|exact (H _ HI)].
Qed.

Lemma place_means x ys w m : means x w m -> (exists y, In y ys /\ (x = y \/ In (x, y) units)) -> place ys (w, m).
Proof. intros Hm (y & Hy & [->|Hu]); exists y; (split; [exact Hy|]); [exact Hm|exact (unit_means x y w m Hu Hm)]. Qed.

Lemma Forall2_last {A B} (R : A -> B -> Prop) l a k b : Forall2 R l k -> R a b -> Forall2 R (l ++ [a]) (k ++ [b]).
Proof. intros H Hab. apply Forall2_app; auto. Qed.

(** The values of a stretch of the stack, first symbol first. *)
Definition values (ws : list (list Z)) (es : list (yyStackEntry M)) : list (list Z * M) := rev (combine ws (map minor es)).

(** A state over which an item has been read up to its [d]-th symbol: [d]
    entries stand for these symbols, and the entry below has a transition on
    the left-hand side. *)
Lemma read_item d : forall e st ws r, linked (e :: st) ws -> In (r, Z.of_nat (S d)) (items_of (stateno e)) ->
  exists es u rest vs us, e :: st = es ++ u :: rest /\ ws = vs ++ us /\ length es = S d /\ length vs = S d /\
    linked (u :: rest) us /\ Forall2 place (firstn (S d) (rule_rhs r)) (values vs es) /\
    goto_in (goto_entries (stateno u)) (rule_lhs r) = true.
Proof.
  induction d as [|d IH]; intros e st ws r HL HI;
    (inversion HL as [b H0 H1|e' u st' w ws' x HL' HE HM HN HT]; subst; [rewrite H0 in HI; destruct HI|]);
    pose proof (check_item_spec _ _ _ _ _ (edge_item _ _ _ _ _ HE HI)) as (_ & HP & HG & HJ);
    pose proof (place_means _ _ _ _ HM HP) as HW.
  - replace (Z.to_nat (Z.of_nat 1 - 1)) with O in * by lia. exists [e], u, st', [w], ws'. do 4 (split; [reflexivity|]). split; [exact HL'|]. split; [|now apply HG].
    destruct (rule_rhs r) as [|ys rhs]; [destruct HP as (y & [] & _)|]. cbn. now repeat constructor.
  - replace (Z.to_nat (Z.of_nat (S (S d)) - 1)) with (S d) in * by lia. specialize (HJ ltac:(lia)). replace (Z.of_nat (S (S d)) - 1) with (Z.of_nat (S d)) in HJ by lia.
    destruct (IH u st' ws' r HL' HJ) as (es & v & rest & vs & us & E1 & E2 & L1 & L2 & HL2 & HF & HG2).
    exists (e :: es), v, rest, (w :: vs), us. rewrite E1, E2. cbn [length app]. rewrite L1, L2. do 4 (split; [reflexivity|]).
    split; [exact HL2|]. split; [|exact HG2].
    assert (HLn : (S d < length (rule_rhs r))%nat).
    { destruct (Nat.ltb_spec (S d) (length (rule_rhs r))) as [|HO]; [assumption|]. exfalso. destruct HP as (y & Hy & _).
      rewrite nth_overflow in Hy by exact HO. destruct Hy. }
    rewrite <- (firstn_snoc (rule_rhs r) (S d) [] HLn). unfold values. cbn [combine map rev]. now apply Forall2_last.
Qed.

(** ** Reductions *)

(** A reduction that the certificate covers: the handle is on the stack, and
    the rank pays for the new state. *)
Definition handle (st : list (yyStackEntry M)) (ws : list (list Z)) (r : Z) : Prop :=
  exists es u rest vs us act, st = es ++ u :: rest /\ ws = vs ++ us /\ Z.of_nat (length es) = rule_len r /\ length vs = length es /\
    linked (u :: rest) us /\ Forall2 place (rule_rhs r) (values vs es) /\
    0 <= stateno u <= YY_MAX_SHIFT /\ In (rule_lhs r, act) (goto_entries (stateno u)) /\
    (forall e st', st = e :: st' -> rank act + 2 <= rank (stateno e) + rule_len r).

Lemma goto_in_entry g x : goto_in g x = true -> exists act, In (x, act) g.
Proof.
  intros H. apply existsb_exists in H as ([y act] & HI & E). cbn [fst] in E. exists act. now replace x with y by lia.
Qed.

Lemma handle_long e st ws r : linked (e :: st) ws -> 1 <= rule_len r -> In (r, rule_len r) (items_of (stateno e)) ->
  lhs_rank (rule_lhs r) + 2 <= rank (stateno e) + rule_len r -> handle (e :: st) ws r.
Proof.
  intros HL Hn HI HR. remember (Z.to_nat (rule_len r - 1)) as d eqn:Ed.
  assert (HS : rule_len r = Z.of_nat (S d)) by lia. rewrite HS in HI.
  destruct (read_item d e st ws r HL HI) as (es & u & rest & vs & us & E1 & E2 & L1 & L2 & HL2 & HF & HG).
  apply goto_in_entry in HG as [act HA].
  assert (Hu : 0 <= stateno u <= YY_MAX_SHIFT).
  { pose proof (linked_states e st ws HL) as HU. rewrite Forall_forall in HU. apply HU.
    destruct es as [|e0 es]; [discriminate L1|]. injection E1 as -> ->. apply in_or_app. right. now left. }
  exists es, u, rest, vs, us, act. do 2 (split; [assumption|]). split; [lia|]. split; [congruence|]. split; [exact HL2|].
  split. { rewrite <- (firstn_all (rule_rhs r)). replace (length (rule_rhs r)) with (S d); [exact HF|]. unfold rule_len in HS. lia. }
  split; [exact Hu|]. split; [exact HA|]. intros e0 st0 E0. injection E0 as <- <-.
  pose proof (goto_rank_ok _ _ _ Hu HA). lia.
Qed.

Lemma handle_empty e st ws r : linked (e :: st) ws -> 0 <= stateno e <= YY_MAX_SHIFT -> rule_len r = 0 ->
  existsb (fun g => (fst g =? rule_lhs r) && (rank (snd g) + 2 <=? rank (stateno e))) (goto_entries (stateno e)) = true ->
  handle (e :: st) ws r.
Proof.
  intros HL He Hn HG. apply existsb_exists in HG as ([y act] & HI & E). cbn [fst snd] in E. apply andb_true_iff in E as [E1 E2].
  exists [], e, st, [], ws, act. split; [reflexivity|]. split; [reflexivity|]. split; [cbn; lia|]. split; [reflexivity|].
  split; [exact HL|]. split.
  { unfold rule_len in Hn. destruct (rule_rhs r); [constructor|cbn [length] in Hn; lia]. }
  split; [exact He|]. split; [now replace (rule_lhs r) with y by lia|]. intros e0 st0 E0. injection E0 as <- <-. lia.
Qed.

Lemma check_reduce_handle e st ws r : linked (e :: st) ws -> 0 <= stateno e <= YY_MAX_SHIFT ->
  check_reduce (items_of (stateno e)) (goto_entries (stateno e)) (stateno e) r = true ->
  rule_ok r = true /\ r <> rule_explain_cmdx /\ handle (e :: st) ws r.
Proof.
  intros HL He HC. unfold check_reduce in HC. rewrite !andb_true_iff in HC. destruct HC as [[H1 H2] H3].
  split; [exact H1|]. split; [intros ->; discriminate H2|].
  destruct (Z.eqb_spec (rule_len r) 0) as [E|E]; [now apply handle_empty|].
  apply andb_true_iff in H3 as [H3 H4]. apply handle_long; [exact HL|unfold rule_len in *; lia| |lia].
  unfold item_in in H3. apply existsb_exists in H3 as ([a b] & Hi & H3). cbn [fst snd] in H3.
  replace (r, rule_len r) with (a, b) by (f_equal; lia). exact Hi.
Qed.

Lemma pending_handle e u st ws : linked (e :: u :: st) ws -> YY_MIN_REDUCE <= stateno e ->
  let r := stateno e - YY_MIN_REDUCE in
  rule_ok r = true /\ r <> rule_input /\ (r = rule_explain_cmdx -> stateno u = 581) /\ handle (e :: u :: st) ws r.
Proof.
  intros HL He r. inversion HL as [|e' u' st' w ws' x HL' HE HM HN HT]; subst.
  destruct (edge_target _ _ _ HE) as [[H _]|[(H & _)|[HP _]]].
  1,2: unfold YY_MIN_REDUCE, YY_MAX_SHIFT, YY_ACCEPT_ACTION in *; lia.
  unfold pending_ok in HP. cbv zeta in HP. fold r in HP. destruct HP as (_ & H1 & H2 & H3 & H4).
  do 3 (split; [assumption|]).
  assert (HS : (stateno e <=? YY_MAX_SHIFT) = false) by (unfold YY_MIN_REDUCE, YY_MAX_SHIFT in *; lia).
  assert (HS2 : (stateno e >=? YY_MIN_REDUCE) = true) by lia.
  apply handle_long; [exact HL|exact H2| |].
  - unfold items_of. rewrite HS, HS2. now left.
  - unfold rank. rewrite HS, HS2. fold r. lia.
Qed.

(** The stack is in order. *)
Definition stack_ok (p : yyParser M) (ws : list (list Z)) : Prop := linked (yystack p) ws /\ yytos p <= yystackEnd p.

Lemma firstn_skipn_app {A} (l k : list A) n : length l = n -> firstn n (l ++ k) = l /\ skipn n (l ++ k) = k.
Proof. intros <-. rewrite firstn_app, skipn_app, firstn_all, skipn_all, Nat.sub_diag. cbn. now rewrite app_nil_r. Qed.

Lemma values_split vs es : length vs = length es -> map fst (values vs es) = rev vs /\ map snd (values vs es) = rev (map minor es).
Proof.
  intros H. unfold values. rewrite !map_rev. split; f_equal; revert es H; induction vs as [|v vs IH]; intros [|e es] H; try discriminate H; cbn; [reflexivity| |reflexivity|];
    injection H as H; f_equal; now apply IH.
Qed.

Lemma concat_rev_app {A} (vs us : list (list A)) : concat (rev (concat (rev vs) :: us)) = concat (rev (vs ++ us)).
Proof. cbn [rev]. rewrite rev_app_distr, !concat_app. cbn [concat]. now rewrite app_nil_r. Qed.

(** [yy_reduce] where there is a handle and, for an empty rule, room. *)
Lemma reduce_ok p ws r la t c : stack_ok p ws -> rule_ok r = true -> r <> rule_explain_cmdx -> handle (yystack p) ws r ->
  (rule_len r = 0 -> yytos p < yystackEnd p) ->
  exists act p' c' e u rest ws', yy_reduce p r la t c = Some (act, p', c') /\ yystack p' = e :: u :: rest /\
    stateno e = act /\ major e = rule_lhs r /\ incl (u :: rest) (yystack p) /\
    stack_ok p' ws' /\ concat (rev ws') = concat (rev ws) /\ yystackEnd p' = yystackEnd p /\
    In (rule_lhs r, act) (goto_entries (stateno u)) /\ 0 <= stateno u <= YY_MAX_SHIFT /\
    Z.of_nat (length (yystack p')) = Z.of_nat (length (yystack p)) - rule_len r + 1 /\
    (forall e0 st0, yystack p = e0 :: st0 -> rank act + 2 <= rank (stateno e0) + rule_len r) /\
    c' = snd (reduce_minor r (rev (map minor (firstn (Z.to_nat (rule_len r)) (yystack p)))) la t c).
Proof.
  intros [HL HE] Hr H349 (es & u & rest & vs & us & act & E1 & E2 & L1 & L2 & HL2 & HF & Hu & HA & HK) HZ.
  destruct (rule_ok_spec r Hr) as [Hr1 Hr2]. destruct (rules_agree r Hr1) as (A1 & A2 & A3 & _).
  destruct table_lengths as (_ & _ & _ & _ & _ & _ & TL & TN). unfold YYNRULE in Hr1.
  assert (Ln : length es = Z.to_nat (rule_len r)) by lia.
  destruct (firstn_skipn_app es (u :: rest) _ Ln) as [F1 F2]. rewrite <- E1 in F1, F2.
  set (mc := reduce_minor r (rev (map minor es)) la t c).
  set (e := {| stateno := act; major := rule_lhs r; minor := fst mc |}).
  exists act, {| yystack := e :: u :: rest; yystackEnd := yystackEnd p; yyheap := yyheap p |}, (snd mc), e, u, rest, (concat (rev vs) :: us).
  assert (Hedge : edge (stateno u) (rule_lhs r) act) by now apply edge_goto.
  assert (Hact : act <= YY_MAX_SHIFT \/ YY_ACCEPT_ACTION <= act).
  { destruct (edge_target _ _ _ Hedge) as [[H _]|[(H & _)|[[H _] _]]]; unfold YY_MIN_REDUCE, YY_ACCEPT_ACTION, YY_MAX_SHIFT in *; lia. }
  assert (HLen : Z.of_nat (length (e :: u :: rest)) = Z.of_nat (length (yystack p)) - rule_len r + 1).
  { rewrite E1, length_app. cbn [length]. lia. }
  split.
  { unfold yy_reduce.
    replace (existsb (Z.eqb r) never_reduces) with false.
    2:{ symmetry. apply Bool.not_true_is_false. intros HX. apply existsb_exists in HX as (y & Hy & EY). apply Z.eqb_eq in EY. subst y.
        destruct Hy as [Hy|Hy]; [apply H349; symmetry; exact Hy|exact (Hr2 Hy)]. }
    cbn [negb]. rewrite !get_rd by lia. rewrite A1, A2. replace (Z.to_nat (- - rule_len r)) with (Z.to_nat (rule_len r)) by lia.
    rewrite F1, F2. fold mc. destruct mc as [m c'] eqn:Emc. rewrite (find_reduce_entry _ _ _ Hu HA).
    replace (negb ((act >? YY_MAX_SHIFT) && (act <=? YY_MAX_SHIFTREDUCE))) with true by (unfold YY_MAX_SHIFT, YY_MAX_SHIFTREDUCE, YY_ACCEPT_ACTION in *; lia).
    replace (negb (act =? YY_ERROR_ACTION)) with true by (unfold YY_MAX_SHIFT, YY_ERROR_ACTION, YY_ACCEPT_ACTION in *; lia).
    cbv zeta. unfold yytos at 1. cbn [yystack yystackEnd]. subst e. cbn [fst] in *.
    replace (_ <=? yystackEnd p) with true; [reflexivity|]. symmetry. apply Z.leb_le. unfold yytos in HE, HZ. lia. }
  do 3 (split; [reflexivity|]). split; [rewrite E1; apply incl_appr, incl_refl|]. split.
  { split.
    - cbn [yystack]. apply (linked_push e u rest _ us (rule_lhs r)); [exact HL2|exact Hedge| |intros _; reflexivity|lia].
      cbn [minor e]. subst e. cbn [minor]. destruct (values_split vs es L2) as [V1 V2]. subst mc. rewrite <- V1, <- V2. now apply rule_means.
    - unfold yytos in *. cbn [yystack yystackEnd]. lia. }
  split; [rewrite E2; apply concat_rev_app|]. split; [reflexivity|]. split; [exact HA|]. split; [exact Hu|]. split; [exact HLen|].
  split; [exact HK|]. rewrite F1. reflexivity.
Qed.

(** ** Growth and overflow of the stack *)

Definition room (p : yyParser M) : Prop := 0 <= yytos p <= yystackEnd p.

Lemma stack_room p ws : stack_ok p ws -> room p.
Proof.
  intros [HL HE]. unfold room, yytos in *. assert (length (yystack p) <> O) by (destruct HL; discriminate). lia.
Qed.

Lemma grow_cases p c : room p -> exists full p' c', yyGrowStack p c = (full, p', c') /\ (done c -> done c') /\
  yystack p' = yystack p /\ (full = 0 -> yystackEnd p < yystackEnd p') /\ (full <> 0 -> p' = p).
Proof.
  intros HR. unfold yyGrowStack. destruct (yyrealloc ((1 + yystackEnd p) * 2 + 100) c) as [ok c'] eqn:E.
  assert (HD : done c -> done c') by (intros H; apply (realloc_done ((1 + yystackEnd p) * 2 + 100)) in H; now rewrite E in H).
  destruct ok; cbn [negb].
  - do 3 eexists. split; [reflexivity|]. split; [exact HD|]. split; [reflexivity|]. split; [|congruence].
    intros _. cbn [yystackEnd]. unfold room in HR. lia.
  - do 3 eexists. split; [reflexivity|]. split; [exact HD|]. split; [reflexivity|]. split; [discriminate|reflexivity].
Qed.

Lemma destructor_done j m c : done c -> done (yy_destructor j m c).
Proof. unfold yy_destructor. destruct (destructor_of j); [apply delete_done|auto]. Qed.

Definition at_bottom (p : yyParser M) : Prop := exists b, yystack p = [b] /\ stateno b = 0 /\ major b = 0.

Lemma pop_all_ok fuel : forall p ws c, linked (yystack p) ws -> (length (yystack p) <= S fuel)%nat ->
  exists p' c', pop_all fuel p c = Some (p', c') /\ at_bottom p' /\ yystackEnd p' = yystackEnd p /\ (done c -> done c').
Proof.
  induction fuel as [|fuel IH]; intros p ws c HL HN; destruct p as [st en hp]; cbn [yystack yystackEnd] in *;
    (inversion HL as [b H0 H1|e u st' w ws' x HL' HE HM HT1 HT2]; subst;
     [exists {| yystack := [b]; yystackEnd := en; yyheap := hp |}, c; split; [reflexivity|]; split; [now exists b|]; split; [reflexivity|auto]|]);
    [cbn [length] in HN; lia|].
  cbn [pop_all]. unfold yytos at 1. cbn [yystack].
  assert (HP : (Z.of_nat (length (e :: u :: st')) - 1 >? 0) = true) by (rewrite Z.gtb_lt; cbn [length]; lia). rewrite HP.
  unfold yy_pop_parser_stack. unfold yytos. cbn [yystack]. rewrite HP.
  destruct (IH {| yystack := u :: st'; yystackEnd := en; yyheap := hp |} ws' (yy_destructor (major e) (minor e) c)) as (p' & c' & E & HB & HN2 & HD).
  - exact HL'.
  - cbn [yystack length] in *. lia.
  - exists p', c'. split; [exact E|]. split; [exact HB|]. split; [exact HN2|]. intros H. now apply HD, destructor_done.
Qed.

Lemma overflow_ok p ws c : stack_ok p ws -> exists p' c', yyStackOverflow p c = Some (p', c') /\ at_bottom p' /\
  yystackEnd p' = yystackEnd p /\ (done c -> done c').
Proof.
  intros [HL HE]. destruct (pop_all_ok (length (yystack p)) p ws c HL ltac:(lia)) as (p' & c' & E & HB & HN & HD).
  unfold yyStackOverflow. rewrite E. exists p', (oomFault c'). split; [reflexivity|]. split; [exact HB|]. split; [exact HN|]. intros H. now apply oom_done, HD.
Qed.

(** ** Shifts *)

Lemma shift_ok p ws e st act a t c x : stack_ok p ws -> yystack p = e :: st -> 0 <= a < YYNTOKEN -> 0 <= stateno e <= YY_MAX_SHIFT ->
  token_as a x -> In (x, act) (shift_entries (stateno e)) -> act <= YY_MAX_SHIFTREDUCE ->
  exists o p' c', yy_shift p act a t c = Some (o, p', c') /\ (done c -> done c') /\
    ((o = Shifted /\ stack_ok p' ([a] :: ws) /\ exists e', yystack p' = e' :: yystack p /\ stateno e' = pending act /\ major e' = a) \/
     (o = Overflowed /\ at_bottom p' /\ yytos p' <= yystackEnd p')).
Proof.
  intros HO Est Ha He HX HI Hact. pose proof (stack_room p ws HO) as HR. pose proof HO as [HL HE]. unfold yy_shift.
  assert (HG : exists full q d, (if yytos p + 1 >? yystackEnd p then yyGrowStack p c else (0, p, c)) = (full, q, d) /\ (done c -> done d) /\
    yystack q = yystack p /\ (full = 0 -> yytos q + 1 <= yystackEnd q) /\ (full <> 0 -> q = p)).
  { destruct (Z.gtb_spec (yytos p + 1) (yystackEnd p)) as [HF|HF].
    - destruct (grow_cases p c HR) as (full & q & d & E & HD & HS & HF0 & HF1). exists full, q, d.
      split; [exact E|]. split; [exact HD|]. split; [exact HS|]. split; [|exact HF1]. intros H. specialize (HF0 H).
      unfold yytos in *. rewrite HS. lia.
    - exists 0, p, c. split; [reflexivity|]. split; [auto|]. split; [reflexivity|]. split; [lia|congruence]. }
  destruct HG as (full & q & d & -> & HD & HS & HF0 & HF1). destruct (Z.eqb_spec full 0) as [H0|H0]; cbn [negb].
  - specialize (HF0 H0). replace (yytos q + 1 <=? yystackEnd q) with true by lia.
    do 3 eexists. split; [reflexivity|]. split; [exact HD|]. left. split; [reflexivity|]. split.
    + split.
      * cbn [yystack]. rewrite HS, Est. rewrite Est in HL. apply (linked_push _ e st [a] ws x); cbn [stateno major minor]; [exact HL| |now apply token_means| |].
        -- apply edge_shift; assumption.
        -- apply shift_symbol in HI. lia.
        -- intros _. split; [reflexivity|]. unfold YYNTOKEN in Ha. lia.
      * unfold yytos in *. cbn [yystack yystackEnd length]. lia.
    + eexists. cbn [yystack]. rewrite HS. split; [reflexivity|]. split; reflexivity.
  - rewrite (HF1 H0). destruct (overflow_ok p ws d HO) as (p' & c' & E & HB & HN & HD2). rewrite E.
    exists Overflowed, p', c'. split; [reflexivity|]. split; [auto|]. right. split; [reflexivity|]. split; [exact HB|].
    destruct HB as (b & Eb & _). unfold yytos. rewrite Eb, HN. cbn [length]. unfold room in HR. lia.
Qed.

(** ** Actions *)

Lemma token_as_end a : token_as a 0 -> a = 0.
Proof. intros [H|[[_ H]|[H _]]]; [lia|lia|discriminate H]. Qed.

Lemma action_cases e st ws a : linked (e :: st) ws -> 0 <= a < YYNTOKEN -> 0 <= stateno e <= YY_MAX_SHIFT ->
  exists act, yy_find_shift_action a (stateno e) = Some act /\
   ((exists x, token_as a x /\ In (x, act) (shift_entries (stateno e)) /\ act <= YY_MAX_SHIFTREDUCE) \/
    act = YY_ERROR_ACTION \/
    (YY_MIN_REDUCE <= act /\ quiet (stateno e) = false /\
     let r := act - YY_MIN_REDUCE in rule_ok r = true /\ r <> rule_explain_cmdx /\ handle (e :: st) ws r /\ (r = rule_input -> a = 0))).
Proof.
  intros HL Ha He. destruct (find_shift_cases a (stateno e) Ha He) as (act & EA & HC). exists act. split; [exact EA|].
  destruct (state_facts (stateno e) He) as (_ & HS & HD & _). destruct HC as [(x & HX & HI)|HC].
  - destruct (Z_le_gt_dec act YY_MAX_SHIFTREDUCE) as [H|H]; [left; eauto|]. right; right.
    destruct (HS _ HI) as [HK _]. unfold check_shift in HK.
    replace (act <=? YY_MAX_SHIFT) with false in HK by (unfold YY_MAX_SHIFT, YY_MAX_SHIFTREDUCE in *; lia).
    replace (act <=? YY_MAX_SHIFTREDUCE) with false in HK by lia. rewrite andb_false_r in HK. rewrite !andb_true_iff in HK.
    destruct HK as [[K1 K2] K3]. split; [lia|]. split.
    { unfold quiet. rewrite <- Bool.not_true_iff_false, !andb_true_iff, forallb_forall. intros [_ HQ]. specialize (HQ _ HI). cbn [snd] in HQ. lia. }
    destruct (check_reduce_handle e st ws _ HL He K2) as (R1 & R2 & R3). cbv zeta. do 3 (split; [assumption|]). intros E.
    rewrite E, Z.eqb_refl in K3. cbn [negb orb] in K3. apply Z.eqb_eq in K3. subst x. now apply token_as_end.
  - right. unfold check_default in HD. cbv zeta in HD. rewrite <- HC in HD. destruct (Z.eqb_spec act YY_ERROR_ACTION) as [|HN]; [now left|right].
    cbn [orb] in HD. rewrite !andb_true_iff in HD. destruct HD as [[K1 K2] K3]. split; [lia|]. split.
    { unfold quiet. rewrite <- HC. replace (act =? YY_ERROR_ACTION) with false by lia. now rewrite andb_false_r. }
    destruct (check_reduce_handle e st ws _ HL He K2) as (R1 & R2 & R3). cbv zeta. do 3 (split; [assumption|]). intros E.
    rewrite E in K3. discriminate K3.
Qed.

(** ** The loop *)

Definition no_cmdx (st : list (yyStackEntry M)) : Prop := Forall (fun e => major e <> sym_cmdx) st.

(** A complete statement is on the stack only when the parse is done. *)
Definition phase (p : yyParser M) (c : C) : Prop :=
  no_cmdx (yystack p) \/ (done c /\ exists e st, yystack p = e :: st /\ major e = sym_cmdx).

(** A complete statement, with at most one token after it. *)
Definition statement_end (st : list (yyStackEntry M)) : Prop :=
  exists e rest, major e = sym_cmdx /\ (st = e :: rest \/ exists f, st = f :: e :: rest).

(** A parser between two tokens, after the tokens [ts]. *)
Definition parser_ok (p : yyParser M) (ts : list Z) : Prop :=
  exists ws, stack_ok p ws /\ concat (rev ws) = ts /\ (forall e st, yystack p = e :: st -> stateno e <> YY_ACCEPT_ACTION).

Definition result_ok (ts : list Z) (a : Z) (o : outcome) (p : yyParser M) (c : C) : Prop :=
  match o with
  | Shifted => parser_ok p (ts ++ [a])
  | Accepted => a = 0 /\ at_bottom p /\ yytos p <= yystackEnd p /\ exists m, means sym_input ts m
  | Rejected => parser_ok p ts
  | Overflowed => at_bottom p /\ yytos p <= yystackEnd p
  end /\ (no_cmdx (yystack p) \/ (done c /\ statement_end (yystack p))).

(** The symbol under which an entry with the number of [cmdx] was pushed. *)
Lemma cmdx_symbol x w j : j = sym_cmdx -> (187 <= x -> j = x) -> (x < 187 -> w = [j] /\ j < 187) -> x = sym_cmdx.
Proof.
  intros -> HN HT. destruct (Z_lt_ge_dec x 187) as [H|H]; [destruct (HT H) as [_ H']; unfold sym_cmdx in H'; lia|].
  symmetry. apply HN. lia.
Qed.

(** The state over a complete statement. *)
Lemma cmdx_quiet e st ws : linked (e :: st) ws -> major e = sym_cmdx -> quiet (stateno e) = true.
Proof.
  intros HL HM. inversion HL as [b H0 H1|e' u st' w ws' x HL' HE HMe HN1 HT]; subst; [rewrite H1 in HM; discriminate HM|].
  apply edge_cmdx with (p := stateno u). now rewrite <- (cmdx_symbol x w (major e) HM HN1 HT).
Qed.

Lemma phase_quiet e st ws p c : linked (e :: st) ws -> yystack p = e :: st -> phase p c -> ~ no_cmdx (yystack p) -> quiet (stateno e) = true.
Proof.
  intros HL E [H|[_ (e' & st' & E' & HM)]] HN; [contradiction|]. rewrite E in E'. injection E' as <- <-. now apply (cmdx_quiet e st ws).
Qed.

(** Entered from 581, the state is under a complete statement. *)
Lemma under_581 e u st ws : linked (e :: u :: st) ws -> stateno u = 581 -> major u = sym_cmdx.
Proof.
  intros HL E. inversion HL as [|e' u' st' w ws' x HL' HE HM HN HT]; subst.
  inversion HL' as [b H0 H1|e' u' st' w' ws'' x' HL'' HE' HM' HN' HT']; subst; [rewrite E in H0; discriminate H0|].
  rewrite E in HE'. apply edge_581 in HE'. subst x'. apply HN'. unfold sym_cmdx. lia.
Qed.

Lemma rank_range e st ws : linked (e :: st) ws -> 0 <= rank (stateno e) <= 15.
Proof.
  intros HL. inversion HL as [b H0 H1|e' u st' w ws' x HL' HE HM HN HT]; subst.
  - rewrite H0. vm_compute. split; discriminate.
  - destruct (edge_target _ _ _ HE) as [[H _]|[(-> & _)|[[H1 [H2 [H3 [H4 H5]]]] _]]].
    + apply state_facts. unfold YY_MAX_SHIFT in *. lia.
    + vm_compute. split; discriminate.
    + apply (pending_rank (stateno u)). unfold pending_ok. tauto.
Qed.

(** What a shift or a reduction leaves on the stack. *)
Lemma no_cmdx_incl st st' : incl st st' -> no_cmdx st' -> no_cmdx st.
Proof. unfold no_cmdx. rewrite !Forall_forall. auto. Qed.

Lemma goto_not_accept p x act : 0 <= p <= YY_MAX_SHIFT -> In (x, act) (goto_entries p) -> act = YY_ACCEPT_ACTION -> x = sym_input.
Proof.
  intros Hp HI ->. destruct (edge_target _ _ _ (edge_goto p x _ Hp HI)) as [[H _]|[(_ & _ & H)|[[H _] _]]]; [| exact H |];
    unfold YY_ACCEPT_ACTION, YY_MAX_SHIFT, YY_MIN_REDUCE in *; lia.
Qed.

(** The reduction step of the loop. *)
Definition continues (fuel : nat) (a : Z) (t : T) (ts : list Z) (n : Z) (p : yyParser M) (c : C) : Prop :=
  exists ws e st, stack_ok p ws /\ concat (rev ws) = ts /\ yystack p = e :: st /\ (stateno e = YY_ACCEPT_ACTION -> a = 0) /\ phase p c /\
    Z.of_nat (length (yystack p)) + rank (stateno e) < n.

Lemma reduce_step p ws e st r a t c : stack_ok p ws -> yystack p = e :: st -> rule_ok r = true -> r <> rule_explain_cmdx ->
  handle (yystack p) ws r -> (r = rule_input -> a = 0) -> no_cmdx (yystack p) -> (rule_len r = 0 -> yytos p < yystackEnd p) ->
  exists act p' c' e' st' ws', yy_reduce p r a t c = Some (act, p', c') /\ yystack p' = e' :: st' /\ stateno e' = act /\
    stack_ok p' ws' /\ concat (rev ws') = concat (rev ws) /\ (act = YY_ACCEPT_ACTION -> a = 0) /\ phase p' c' /\
    Z.of_nat (length (yystack p')) + rank act < Z.of_nat (length (yystack p)) + rank (stateno e).
Proof.
  intros HO Est Hr H349 HH Hin HC HZ.
  destruct (reduce_ok p ws r a t c HO Hr H349 HH HZ) as (act & p' & c' & e' & u & rest & ws' & E & E1 & E2 & E3 & HI & HO' & EW & _ & HA & Hu & HLen & HK & Ec).
  exists act, p', c', e', (u :: rest), ws'. do 5 (split; [assumption|]).
  destruct (rule_ok_spec r Hr) as [Hr1 _]. destruct (rules_agree r Hr1) as (_ & _ & _ & A4 & A5).
  split; [intros Hacc; apply Hin, A4; now apply (goto_not_accept (stateno u) _ act)|]. split.
  - destruct (Z.eq_dec (rule_lhs r) sym_cmdx) as [Ecx|Ncx].
    + right. split; [|exists e', (u :: rest); split; [exact E1|congruence]]. rewrite Ec. rewrite (A5 Ecx). apply finish_done.
    + left. rewrite E1. constructor; [congruence|]. apply (no_cmdx_incl _ _ HI HC).
  - rewrite HLen. specialize (HK e st Est). lia.
Qed.

Lemma loop_S fuel p e st a t c : yystack p = e :: st -> parse_loop (S fuel) p (stateno e) a t c =
  match yy_find_shift_action a (stateno e) with
  | None => None
  | Some yyact =>
      if yyact >=? YY_MIN_REDUCE then
        let yyruleno := yyact - YY_MIN_REDUCE in
        let* n := get yyRuleInfoNRhs yyruleno in
        let '(full, p, c) := if (n =? 0) && (yytos p >=? yystackEnd p) then yyGrowStack p c else (0, p, c) in
        if negb (full =? 0) then
          match yyStackOverflow p c with Some (p, c) => Some (Overflowed, p, c) | None => None end
        else
          match yy_reduce p yyruleno a t c with
          | Some (yyact, p, c) => parse_loop fuel p yyact a t c
          | None => None
          end
      else if yyact <=? YY_MAX_SHIFTREDUCE then yy_shift p yyact a t c
      else if yyact =? YY_ACCEPT_ACTION then
        match yystack p with
        | _ :: [b] => Some (Accepted, {| yystack := [b]; yystackEnd := yystackEnd p; yyheap := yyheap p |}, c)
        | _ => None
        end
      else
        assert* yyact =? YY_ERROR_ACTION in
        Some (Rejected, p, yy_destructor a (yy0 t) (syntaxError t c))
  end.
Proof. intros E. cbn [parse_loop]. rewrite E, Z.eqb_refl. reflexivity. Qed.

Section Loop.
Variables (a : Z) (t : T).
Hypothesis a_token : 0 <= a < YYNTOKEN.

(** What the loop promises for stacks of a measure. *)
Definition loop_ok (fuel : nat) : Prop := forall p ws c e st, stack_ok p ws -> yystack p = e :: st ->
  (stateno e = YY_ACCEPT_ACTION -> a = 0) -> phase p c ->
  Z.of_nat (length (yystack p)) + rank (stateno e) <= Z.of_nat fuel ->
  exists o p' c', parse_loop fuel p (stateno e) a t c = Some (o, p', c') /\ result_ok (concat (rev ws)) a o p' c'.

(** The part of a round after a reduction has been chosen. *)
Lemma loop_reduce fuel p ws e st r c : loop_ok fuel -> stack_ok p ws -> yystack p = e :: st -> rule_ok r = true -> r <> rule_explain_cmdx ->
  handle (yystack p) ws r -> (r = rule_input -> a = 0) -> no_cmdx (yystack p) ->
  Z.of_nat (length (yystack p)) + rank (stateno e) <= Z.of_nat (S fuel) ->
  exists o p' c',
    (let* n := get yyRuleInfoNRhs r in
     let '(full, p, c) := if (n =? 0) && (yytos p >=? yystackEnd p) then yyGrowStack p c else (0, p, c) in
     if negb (full =? 0) then
       match yyStackOverflow p c with Some (p, c) => Some (Overflowed, p, c) | None => None end
     else
       match yy_reduce p r a t c with
       | Some (yyact, p, c) => parse_loop fuel p yyact a t c
       | None => None
       end) = Some (o, p', c') /\ result_ok (concat (rev ws)) a o p' c'.
Proof.
  intros IH HO Est Hr H349 HH Hin HC HF. pose proof (stack_room p ws HO) as HR.
  destruct (rule_ok_spec r Hr) as [Hr1 _]. destruct (rules_agree r Hr1) as (_ & A2 & _).
  destruct table_lengths as (_ & _ & _ & _ & _ & _ & _ & TN). unfold YYNRULE in Hr1.
  rewrite get_rd by lia. rewrite A2.
  assert (HG : exists full q d, (if (- rule_len r =? 0) && (yytos p >=? yystackEnd p) then yyGrowStack p c else (0, p, c)) = (full, q, d) /\
    (full <> 0 -> q = p) /\ yystack q = yystack p /\ (full = 0 -> yystackEnd p <= yystackEnd q /\ (rule_len r = 0 -> yytos q < yystackEnd q))).
  { destruct (_ && _) eqn:EB.
    - destruct (grow_cases p c HR) as (full & q & d & E & _ & HS & H0 & H1). exists full, q, d. split; [exact E|]. split; [exact H1|].
      split; [exact HS|]. intros Hf. specialize (H0 Hf). unfold room, yytos in *. rewrite HS. lia.
    - exists 0, p, c. split; [reflexivity|]. split; [congruence|]. split; [reflexivity|]. intros _. unfold room in HR. lia. }
  destruct HG as (full & q & d & -> & H1 & HS & H0). destruct (Z.eqb_spec full 0) as [Hf|Hf]; cbn [negb].
  2:{ rewrite (H1 Hf) in *. destruct (overflow_ok p ws d HO) as (p' & c' & E & HB & HN & _). rewrite E.
      exists Overflowed, p', c'. split; [reflexivity|]. destruct HB as (b & Eb & B0 & B1). split.
      - split; [now exists b|]. unfold yytos. rewrite Eb, HN. cbn [length]. unfold room in HR. lia.
      - left. unfold no_cmdx. rewrite Eb. constructor; [rewrite B1; discriminate|constructor]. }
  destruct (H0 Hf) as [HE HZ].
  assert (HOq : stack_ok q ws) by (destruct HO as [HL HLe]; split; [now rewrite HS|unfold yytos in *; rewrite HS; lia]).
  destruct (reduce_step q ws e st r a t d HOq ltac:(congruence) Hr H349 ltac:(now rewrite HS) Hin ltac:(now rewrite HS) HZ)
    as (act & p' & c' & e' & st' & ws' & E & E1 & E2 & HO' & EW & Hacc & HP & HM).
  rewrite E. rewrite HS in HM. destruct (IH p' ws' c' e' st' HO' E1 ltac:(now rewrite E2) HP ltac:(rewrite E2; lia)) as (o & p2 & c2 & EL & HRes).
  rewrite E2 in EL. exists o, p2, c2. split; [exact EL|]. now rewrite <- EW.
Qed.

Lemma loop_all fuel : loop_ok fuel.
Proof.
  induction fuel as [|fuel IH]; intros p ws c e st HO Est Hacc HP HF.
  { pose proof HO as [HL _]. rewrite Est in HL. pose proof (rank_range e st ws HL). rewrite Est in HF. cbn [length] in HF. lia. }
  pose proof HO as [HL HE]. rewrite Est in HL. rewrite (loop_S fuel p e st a t c Est).
  destruct (Z_le_gt_dec (stateno e) YY_MAX_SHIFT) as [Hs|Hs].
  - assert (He : 0 <= stateno e <= YY_MAX_SHIFT).
    { inversion HL as [b H0 H1|e' u st' w ws' x HL' HE' HM HN HT]; subst; [rewrite H0; unfold YY_MAX_SHIFT; lia|].
      destruct (edge_target _ _ _ HE') as [[H _]|[(H & _)|[[H _] _]]]; unfold YY_ACCEPT_ACTION, YY_MIN_REDUCE, YY_MAX_SHIFT in *; lia. }
    destruct (action_cases e st ws a HL a_token He) as (act & EA & [(x & HX & HI & HA)|[->|(HA & HQ & Hr & H349 & HH & Hin)]]); rewrite EA.
    + replace (act >=? YY_MIN_REDUCE) with false by (unfold YY_MIN_REDUCE, YY_MAX_SHIFTREDUCE in *; lia). replace (act <=? YY_MAX_SHIFTREDUCE) with true by lia.
      destruct (shift_ok p ws e st act a t c x HO Est a_token He HX HI HA) as (o & p' & c' & E & HD & [(-> & HO' & e' & E' & ES & EM)|(-> & HB & HT)]).
      * exists Shifted, p', c'. split; [exact E|]. split.
        -- exists ([a] :: ws). split; [exact HO'|]. split; [cbn [rev]; now rewrite concat_app|].
           intros e0 st0 E0. rewrite E' in E0. injection E0 as <- <-. rewrite ES.
           apply shift_symbol in HI as HX2. destruct (edge_target _ _ _ (edge_shift _ _ _ He HI HA)) as [[H _]|[(_ & _ & H)|[[H _] _]]];
             unfold sym_input, YY_ACCEPT_ACTION, YY_MIN_REDUCE, YY_MAX_SHIFT in *; lia.
        -- rewrite E'. destruct HP as [HC|(HC & e1 & st1 & E1 & M1)]; [left|right].
           ++ constructor; [|exact HC]. rewrite EM. unfold sym_cmdx, YYNTOKEN in *. lia.
           ++ split; [auto|]. exists e1, st1. split; [exact M1|]. right. exists e'. now rewrite E1.
      * exists Overflowed, p', c'. split; [exact E|]. split; [split; assumption|]. left. destruct HB as (b & Eb & _ & B1). unfold no_cmdx. rewrite Eb.
        constructor; [rewrite B1; discriminate|constructor].
    + exists Rejected, p, (yy_destructor a (yy0 t) (syntaxError t c)). split; [reflexivity|]. split.
      * exists ws. split; [exact HO|]. split; [reflexivity|]. intros e0 st0 E0. rewrite Est in E0. injection E0 as <- <-.
        unfold YY_ACCEPT_ACTION, YY_MAX_SHIFT in *. lia.
      * destruct HP as [HC|(HC & e1 & st1 & E1 & M1)]; [now left|right]. split; [now apply destructor_done, syntax_done|].
        exists e1, st1. split; [exact M1|now left].
    + replace (act >=? YY_MIN_REDUCE) with true by lia. cbv zeta.
      assert (HC : no_cmdx (yystack p)).
      { destruct HP as [HC|HC2]; [exact HC|]. exfalso.
        assert (HNC : ~ no_cmdx (yystack p)) by (destruct HC2 as [_ (e' & st' & E' & HM)]; intros HC; rewrite E' in HC; inversion HC; contradiction).
        pose proof (phase_quiet e st ws p c HL Est (or_intror HC2) HNC). congruence. }
      apply (loop_reduce fuel p ws e st); auto. now rewrite Est.
  - unfold yy_find_shift_action. replace (stateno e >? YY_MAX_SHIFT) with true by lia.
    inversion HL as [b H0 H1|e' u st' w ws' x HL' HE' HM HN HT]; subst; [rewrite H0 in Hs; unfold YY_MAX_SHIFT in Hs; lia|].
    destruct (edge_target _ _ _ HE') as [[H _]|[(HA & Hu & Hx)|[[HA _] _]]]; [lia| |].
    + rewrite HA. change (YY_ACCEPT_ACTION >=? YY_MIN_REDUCE) with false. change (YY_ACCEPT_ACTION <=? YY_MAX_SHIFTREDUCE) with false.
      rewrite Z.eqb_refl. rewrite Est.
      inversion HL' as [b H0 H1|e' u' st'' w' ws'' x' HL'' HE'' HM' HN' HT']; subst.
      2:{ destruct (edge_target _ _ _ HE'') as [[H _]|[(H & _)|[[H _] _]]]; rewrite Hu in H; unfold YY_ACCEPT_ACTION, YY_MIN_REDUCE in H; lia. }
      do 3 eexists. split; [reflexivity|]. split; [|left; constructor; [rewrite H1; discriminate|constructor]].
      split; [auto|]. split; [now exists u|]. split; [unfold yytos in *; rewrite Est in HE; cbn [yystack yystackEnd length] in *; lia|].
      exists (minor e). cbn [rev concat app]. now rewrite app_nil_r.
    + replace (stateno e >=? YY_MIN_REDUCE) with true by lia. cbv zeta.
      destruct (pending_handle e u st' (w :: ws') HL HA) as (Hr & Hin & H581 & HH).
      assert (HC : no_cmdx (yystack p)).
      { destruct HP as [HC|HC2]; [exact HC|]. exfalso.
        assert (HNC : ~ no_cmdx (yystack p)) by (destruct HC2 as [_ (e' & st2 & E' & HMj)]; intros HC; rewrite E' in HC; inversion HC; contradiction).
        pose proof (phase_quiet e (u :: st') (w :: ws') p c HL Est (or_intror HC2) HNC) as HQ. unfold quiet in HQ. rewrite !andb_true_iff in HQ. destruct HQ as [[[HQ _] _] _]. lia. }
      apply (loop_reduce fuel p (w :: ws') e (u :: st')); auto.
      * intros E. pose proof (under_581 e u st' (w :: ws') HL (H581 E)) as HM5. rewrite Est in HC. inversion HC as [|? ? _ HC']. inversion HC'. contradiction.
      * now rewrite Est.
      * intros E. contradiction.
Qed.

Lemma parser_call p ts c : parser_ok p ts -> no_cmdx (yystack p) ->
  exists o p' c', sqlite3Parser p a t c = Some (o, p', c') /\ result_ok ts a o p' c'.
Proof.
  intros (ws & HO & EW & HI) HC. pose proof HO as [HL HE]. unfold sqlite3Parser.
  destruct (yystack p) as [|e st] eqn:Est; [inversion HL|]. pose proof (rank_range e st ws HL) as HR.
  destruct (loop_all (16 + length (e :: st)) p ws c e st HO Est) as (o & p' & c' & E & H).
  - intros HA. exfalso. exact (HI e st eq_refl HA).
  - left. now rewrite Est.
  - rewrite Est. lia.
  - exists o, p', c'. split; [exact E|]. now rewrite <- EW.
Qed.

End Loop.

Lemma parser_init_ok c : parser_ok (sqlite3ParserInit c) [] /\ no_cmdx (yystack (sqlite3ParserInit c)).
Proof.
  split.
  - exists []. split; [split; [now constructor|cbn; lia]|]. split; [reflexivity|]. intros e st E. injection E as <- <-. discriminate.
  - constructor; [discriminate|constructor].
Qed.

(** A statement on the stack: the tokens it derives are the last of those
    consumed, but for one at most. *)
Lemma statement_means p ts : parser_ok p ts -> statement_end (yystack p) ->
  exists u w v m, ts = u ++ w ++ v /\ means sym_cmdx w m /\ (length v <= 1)%nat.
Proof.
  intros (ws & [HL _] & EW & _) (e & rest & HM & [E|(f & E)]); rewrite E in HL.
  - inversion HL as [b H0 H1|e' u st w ws' x HL' HE HMe HN HT]; subst; [rewrite H1 in HM; discriminate HM|].
    exists (concat (rev ws')), w, [], (minor e). cbn [rev]. rewrite concat_app. cbn [concat app length].
    split; [reflexivity|]. split; [|lia]. now rewrite <- (cmdx_symbol x w (major e) HM HN HT).
  - inversion HL as [|f' u st w ws' x HL' HE HMe HN HT]; subst.
    inversion HL' as [b H0 H1|e' u' st' w' ws'' x' HL'' HE' HMe' HN' HT']; subst; [rewrite H1 in HM; discriminate HM|].
    exists (concat (rev ws'')), w', w, (minor e). cbn [rev]. rewrite !concat_app. cbn [concat]. rewrite !app_nil_r.
    split; [now rewrite app_assoc|]. split; [now rewrite <- (cmdx_symbol x' w' (major e) HM HN' HT')|].
    pose proof (cmdx_quiet e (u' :: st') (w' :: ws'') HL' HM) as HQ. unfold quiet in HQ. rewrite !andb_true_iff in HQ. destruct HQ as [[[_ HQ] _] _].
    assert (HX : x < 187).
    { inversion HE as [? ? ? ? HI _|? ? ? ? HI]; subst; [apply shift_symbol in HI; lia|].
      destruct (goto_entries (stateno e)); [destruct HI|discriminate HQ]. }
    destruct (HT HX) as [-> _]. reflexivity.
Qed.

End Sound.

(** ** Meanings *)

Lemma units_checked : forallb (fun r => (length (rule_rhs r) =? 1)%nat && (0 <=? r) && (r <? YYNRULE)) optimized_out = true.
Proof. vm_compute. reflexivity. Qed.

Lemma unit_rule x y : In (x, y) units -> exists r ys, 0 <= r < YYNRULE /\ rule_lhs r = y /\ rule_rhs r = [ys] /\ In x ys.
Proof.
  unfold units. rewrite in_flat_map. intros (r & Hr & HI). apply in_map_iff in HI as (z & E & Hz). injection E as -> <-.
  pose proof (proj1 (forallb_forall _ _) units_checked r Hr) as HC. cbv beta in HC. rewrite !andb_true_iff in HC. destruct HC as [[HC H0] H1].
  exists r. destruct (rule_rhs r) as [|ys [|]]; try discriminate HC. exists ys. cbn [concat] in Hz. rewrite app_nil_r in Hz.
  split; [lia|]. auto.
Qed.

(** Symbols derive the tokens they stand for. *)
#[export] Instance derives_meaning {M T C} (env : ParserEnv M T C) : Meaning env (fun x w _ => derives x w).
Proof.
  constructor.
  - intros a x _ Ha HX. now apply derives_token.
  - intros x y w _ HU HD. destruct (unit_rule x y HU) as (r & ys & Hr & <- & ER & HI). apply derives_rule; [exact Hr|]. rewrite ER.
    rewrite <- (app_nil_r w). now apply (derives_cons ys x); [| |constructor].
  - intros r wms la t c Hr HF. apply derives_rule; [now apply rule_ok_spec|]. apply derives_all_places.
    clear - HF. induction HF as [|ys [w m] rhs wms (y & Hy & Hw) _ IH]; cbn [map]; constructor; eauto.
Qed.

(** C18: the SQL parser is safe and sound.  A new parser is in order; and from a
    parser in order, with no complete statement on its stack, every call of
    [sqlite3Parser] with a token returns: no assertion of the code fails, no
    table is read outside its bounds, the stack is neither popped below its
    bottom nor written past its end, and there are at most sixteen more
    reductions than the stack has entries.  Afterwards it is in order again:
    its symbols stand, with the values the actions computed for them, for the
    tokens consumed, by the rules of the grammar and for every meaning [means] of
    values that the actions respect; it accepts only at the end of the input
    and only a sentence; and a complete statement is on the stack only when the
    parse is done. *)
Theorem parser_correct {M T C : Type} (env : ParserEnv M T C) (means : Z -> list Z -> M -> Prop) (done : C -> Prop) :
  Meaning env means -> Finishing env done ->
  (forall c, parser_ok means (sqlite3ParserInit c) [] /\ no_cmdx (yystack (sqlite3ParserInit c))) /\
  (forall p ts a t c, parser_ok means p ts -> no_cmdx (yystack p) -> 0 <= a < YYNTOKEN ->
     exists o p' c', sqlite3Parser p a t c = Some (o, p', c') /\ result_ok means done ts a o p' c').
Proof.
  intros HM HF. split; [intros c; apply parser_init_ok|]. intros p ts a t c HP HN Ha. now apply parser_call.
Qed.

(** An environment that keeps a result code only. *)
Definition code_env : ParserEnv unit unit Z := {|
  yy0 := fun _ => tt;
  action := fun r _ _ _ c => (tt, if r =? rule_cmdx then 101 else c);
  stale := fun _ => tt;
  delete := fun _ _ c => c;
  yyrealloc := fun _ c => (true, c);
  oomFault := fun _ => 7;
  syntaxError := fun _ _ => 1 |}.

Lemma code_env_finishing : Finishing code_env (fun c => c <> 0).
Proof. constructor; cbn; intros; congruence || discriminate. Qed.

Lemma parser_correct_witness : exists o p' c', @sqlite3Parser unit unit Z code_env (@sqlite3ParserInit unit unit Z code_env 0) TK_SELECT tt 0 = Some (o, p', c') /\
  result_ok (fun x w _ => derives x w) (fun c => c <> 0) [] TK_SELECT o p' c'.
Proof.
  destruct (parser_correct code_env (fun x w _ => derives x w) (fun c => c <> 0) (derives_meaning code_env) code_env_finishing) as [HI HC].
  destruct (HI 0) as [HP HN]. apply HC; [exact HP|exact HN|]. unfold TK_SELECT, YYNTOKEN. lia.
Defined.

(** [SELECT x FROM y;] is shifted token by token; [SELECT FROM] is not. *)
Fixpoint feed {M T C} {env : ParserEnv M T C} (p : yyParser M) (toks : list Z) (t : T) (c : C) : option (list outcome * C) :=
  match toks with
  | [] => Some ([], c)
  | a :: toks =>
      match sqlite3Parser p a t c with
      | Some (o, p, c) => match feed p toks t c with Some (os, c) => Some (o :: os, c) | None => None end
      | None => None
      end
  end.

Example feed_select : @feed unit unit Z code_env (@sqlite3ParserInit unit unit Z code_env 0) [TK_SELECT; TK_ID; TK_FROM; TK_ID; TK_SEMI] tt 0 =
  Some ([Shifted; Shifted; Shifted; Shifted; Shifted], 101).
Proof. vm_compute. reflexivity. Qed.

Example feed_error : @feed unit unit Z code_env (@sqlite3ParserInit unit unit Z code_env 0) [TK_SELECT; TK_FROM] tt 0 =
  Some ([Shifted; Rejected], 1).
Proof. vm_compute. reflexivity. Qed.

Example feed_empty : @feed unit unit Z code_env (@sqlite3ParserInit unit unit Z code_env 0) [TK_SEMI; TK_SEMI; 0] tt 0 =
  Some ([Shifted; Shifted; Accepted], 0).
Proof. vm_compute. reflexivity. Qed.

(** ** Destructors at the end *)

Lemma destructors_checked : forallb (fun x => match destructor_of x with Some _ => (YY_MIN_DSTRCTR <=? x) && (x <=? YY_MAX_DSTRCTR) | None => true end)
  (map Z.of_nat (seq 0 323)) = true.
Proof. vm_compute. reflexivity. Qed.
