(* ===== verification/RunParser.v ===== *)
(** * RunParser: from SQL text to the parser

    Models the rest of [tokenize.c] of [src/api-core/src/db/sqlite3.c]: the
    lookahead that decides whether WINDOW, OVER and FILTER are keywords, and
    [sqlite3RunParser], which reads tokens with [Tokenizer], skips space and
    comments, feeds the automaton of [Lalr] and ends with the tokens SEMI
    and 0; with the error routines it uses.

    The theorems: for every text the run ends, with no assertion failed; the
    tokens fed are exactly those of the text, in order; and the statement that
    ends the run is a sentence of the grammar.  The semantic actions are a
    parameter ([Actions]); of them the theorems assume what the code generator
    promises outside nested parses ([ActionLaws]). *)

From Stdlib Require Import String ZArith List Lia Bool.
Import ListNotations.
From S2P Require Import Prelude Ctype Keywords Tokenizer ParserTables ParserCheck Lalr.
#[local] Open Scope Z_scope.
#[local] Open Scope ag_scope.

Definition SQLITE_OK : Z := 0.
Definition SQLITE_ERROR : Z := 1.
Definition SQLITE_NOMEM : Z := 7.
Definition SQLITE_INTERRUPT : Z := 9.
Definition SQLITE_TOOBIG : Z := 18.
Definition SQLITE_DONE : Z := 101.

(** ** Keywords that depend on what follows *)

(** Each round but the last skips space or a comment, so as many rounds as the
    text has bytes, and one, are enough. *)
Fixpoint getToken (fuel : nat) (z : list Z) : option (Z * list Z) :=
  match fuel with
  | O => None
  | S fuel' =>
      let '(n, t) := sqlite3GetToken z in
      let z := Tokenizer.from n z in
      if (t =? TK_SPACE) || (t =? TK_COMMENT) then getToken fuel' z
      else
        let* f := sqlite3ParserFallback t in
        let t :=
          if (t =? TK_ID) || (t =? TK_STRING) || (t =? TK_JOIN_KW) || (t =? TK_WINDOW) || (t =? TK_OVER) || (f =? TK_ID)
          then TK_ID else t in
        Some (t, z)
  end.
Definition next_token (z : list Z) : option (Z * list Z) := getToken (S (length z)) z.

Definition analyzeWindowKeyword (z : list Z) : option Z :=
  match next_token z with
  | None => None
  | Some (t, z) =>
      if negb (t =? TK_ID) then Some TK_ID
      else
        match next_token z with
        | None => None
        | Some (t, z) => if negb (t =? TK_AS) then Some TK_ID else Some TK_WINDOW
        end
  end.

Definition analyzeOverKeyword (z : list Z) (lastToken : Z) : option Z :=
  if lastToken =? TK_RP then
    match next_token z with
    | None => None
    | Some (t, _) => if (t =? TK_LP) || (t =? TK_ID) then Some TK_OVER else Some TK_ID
    end
  else Some TK_ID.

Definition analyzeFilterKeyword (z : list Z) (lastToken : Z) : option Z :=
  if lastToken =? TK_RP then
    match next_token z with
    | None => None
    | Some (t, _) => if t =? TK_LP then Some TK_FILTER else Some TK_ID
    end
  else Some TK_ID.

(** ** The parse context *)

Record Token := { tz : list Z; tn : Z }.

Inductive message :=
  | NearToken (t : Token)            (* near %T: syntax error *)
  | IncompleteInput                  (* incomplete input *)
  | UnrecognizedToken (t : Token)    (* unrecognized token: %T *)
  | OutOfMemory                      (* out of memory *)
  | ErrStr (rc : Z)                  (* sqlite3ErrStr(rc) *)
  | OtherMessage (s : list Z).

(** [Parse] and the fields of [sqlite3] that the routines here use; [interrupts]
    has the values that the reads of [u1.isInterrupted], which other threads
    write, will give. *)
Record Parse (X : Type) := {
  rc : Z; nErr : Z; zErrMsg : option message;
  mallocFailed : bool; bBenignMalloc : bool; suppressErr : bool;
  interrupts : list bool; init_busy : bool; comments_on : bool; limit_sql_length : Z;
  rest : X
}.
Arguments rc {X}. Arguments nErr {X}. Arguments zErrMsg {X}. Arguments mallocFailed {X}. Arguments bBenignMalloc {X}.
Arguments suppressErr {X}. Arguments interrupts {X}. Arguments init_busy {X}. Arguments comments_on {X}.
Arguments limit_sql_length {X}. Arguments rest {X}.

(** What [sqlite3VMPrintf] makes of a message: the text, or nothing when memory
    is short or the text would be longer than a string may be. *)
Inductive printed := Formatted | NoMemory | TooLong.

(** The semantic actions of the grammar and the allocator. *)
Class Actions (M X : Type) := {
  token_value : Token -> M;
  semantic_action : Z -> list M -> Z -> Token -> Parse X -> M * Parse X;
  stale_value : Parse X -> M;
  delete_value : destructor -> M -> Parse X -> Parse X;
  parserStackRealloc : Z -> Parse X -> bool * Parse X;
  format_message : message -> Parse X -> printed * X;
  drop_with : X -> X                 (* [pParse->pWith = 0] *)
}.

Section Run.
Context {M X : Type} {acts : Actions M X}.

Definition set_rc (c : Parse X) (r : Z) : Parse X :=
  {| rc := r; nErr := nErr c; zErrMsg := zErrMsg c; mallocFailed := mallocFailed c; bBenignMalloc := bBenignMalloc c;
     suppressErr := suppressErr c; interrupts := interrupts c; init_busy := init_busy c; comments_on := comments_on c;
     limit_sql_length := limit_sql_length c; rest := rest c |}.
Definition add_error (c : Parse X) (r : Z) (m : option message) : Parse X :=
  {| rc := r; nErr := nErr c + 1; zErrMsg := m; mallocFailed := mallocFailed c; bBenignMalloc := bBenignMalloc c;
     suppressErr := suppressErr c; interrupts := interrupts c; init_busy := init_busy c; comments_on := comments_on c;
     limit_sql_length := limit_sql_length c; rest := rest c |}.
Definition set_rest (c : Parse X) (r : X) : Parse X :=
  {| rc := rc c; nErr := nErr c; zErrMsg := zErrMsg c; mallocFailed := mallocFailed c; bBenignMalloc := bBenignMalloc c;
     suppressErr := suppressErr c; interrupts := interrupts c; init_busy := init_busy c; comments_on := comments_on c;
     limit_sql_length := limit_sql_length c; rest := r |}.
Definition set_zErrMsg (c : Parse X) (m : option message) : Parse X :=
  {| rc := rc c; nErr := nErr c; zErrMsg := m; mallocFailed := mallocFailed c; bBenignMalloc := bBenignMalloc c;
     suppressErr := suppressErr c; interrupts := interrupts c; init_busy := init_busy c; comments_on := comments_on c;
     limit_sql_length := limit_sql_length c; rest := rest c |}.
Definition set_mallocFailed (c : Parse X) : Parse X :=
  {| rc := rc c; nErr := nErr c; zErrMsg := zErrMsg c; mallocFailed := true; bBenignMalloc := bBenignMalloc c;
     suppressErr := suppressErr c; interrupts := interrupts c; init_busy := init_busy c; comments_on := comments_on c;
     limit_sql_length := limit_sql_length c; rest := rest c |}.

(** [AtomicLoad(&db->u1.isInterrupted)] *)
Definition load_interrupted (c : Parse X) : bool * Parse X :=
  (hd false (interrupts c),
   {| rc := rc c; nErr := nErr c; zErrMsg := zErrMsg c; mallocFailed := mallocFailed c; bBenignMalloc := bBenignMalloc c;
      suppressErr := suppressErr c; interrupts := tl (interrupts c); init_busy := init_busy c; comments_on := comments_on c;
      limit_sql_length := limit_sql_length c; rest := rest c |}).

Definition sqlite3ErrorToParser (c : Parse X) (errCode : Z) : Parse X := add_error c errCode (zErrMsg c).

(** What [sqlite3ErrorMsg] does with the formatted text, without the offset of
    the error in the statement ([errByteOffset]). *)
Definition report_error (c : Parse X) (zMsg : option message) : Parse X :=
  if suppressErr c then
    if mallocFailed c then add_error c SQLITE_NOMEM (zErrMsg c) else c
  else
    let c := add_error c SQLITE_ERROR zMsg in
    set_rest c (drop_with (rest c)).

(** [sqlite3VMPrintf]; [oom] is [sqlite3OomFault]. *)
Definition vmprintf (oom : Parse X -> Parse X) (c : Parse X) (m : message) : option message * Parse X :=
  let '(r, x) := format_message m c in
  let c := set_rest c x in
  match r with
  | Formatted => (Some m, c)
  | NoMemory => (None, oom c)
  | TooLong => (None, sqlite3ErrorToParser c SQLITE_TOOBIG)
  end.

(** For a parse with no outer one; what the flag [isInterrupted] is set to is
    among the values of [interrupts].  The call of [sqlite3ErrorMsg] comes when
    [mallocFailed] is set, so that a fault within it does nothing. *)
Definition sqlite3OomFault (c : Parse X) : Parse X :=
  if negb (mallocFailed c) && negb (bBenignMalloc c) then
    let c := set_mallocFailed c in
    let '(zMsg, c) := vmprintf (fun c => c) c OutOfMemory in
    let c := report_error c zMsg in
    set_rc c SQLITE_NOMEM
  else c.

Definition sqlite3VMPrintf : Parse X -> message -> option message * Parse X := vmprintf sqlite3OomFault.

Definition sqlite3ErrorMsg (c : Parse X) (m : message) : Parse X :=
  let '(zMsg, c) := sqlite3VMPrintf c m in report_error c zMsg.

Definition parserSyntaxError (c : Parse X) (p : Token) : Parse X := sqlite3ErrorMsg c (NearToken p).

Definition yy_syntax_error (yyminor : Token) (c : Parse X) : Parse X :=
  if negb (rd (tz yyminor) 0 =? 0) then parserSyntaxError c yyminor else sqlite3ErrorMsg c IncompleteInput.

Definition run_env : ParserEnv M Token (Parse X) := {|
  yy0 := token_value;
  action := semantic_action;
  stale := stale_value;
  delete := delete_value;
  yyrealloc := parserStackRealloc;
  oomFault := sqlite3OomFault;
  syntaxError := yy_syntax_error |}.
#[local] Existing Instance run_env.

(** ** sqlite3RunParser *)

(** What the loop does with a token before the parser sees it. *)
Inductive verdict :=
  | Break (c : Parse X)                          (* leave the loop *)
  | Skip (c : Parse X)                           (* [continue] after [zSql += n] *)
  | Feed (tokenType n : Z) (c : Parse X).        (* call the parser *)

Definition is_special (t : Z) : bool :=
  existsb (Z.eqb t) [TK_SPACE; TK_OVER; TK_FILTER; TK_ILLEGAL; TK_WINDOW; TK_QNUMBER; TK_COMMENT].

(** The body of the loop up to the call, for the token [(n, tokenType)]. *)
Definition judge (zSql : list Z) (n tokenType lastTokenParsed : Z) (c : Parse X) : option verdict :=
  if tokenType >=? TK_WINDOW then
    assert* is_special tokenType in
    let '(intr, c) := load_interrupted c in
    if intr then Some (Break (add_error c SQLITE_INTERRUPT (zErrMsg c)))
    else if tokenType =? TK_SPACE then Some (Skip c)
    else if rd zSql 0 =? 0 then
      if lastTokenParsed =? TK_SEMI then Some (Feed 0 0 c)
      else if lastTokenParsed =? 0 then Some (Break c)
      else Some (Feed TK_SEMI 0 c)
    else if tokenType =? TK_WINDOW then
      assert* n =? 6 in
      let* t := analyzeWindowKeyword (Tokenizer.from 6 zSql) in Some (Feed t n c)
    else if tokenType =? TK_OVER then
      assert* n =? 4 in
      let* t := analyzeOverKeyword (Tokenizer.from 4 zSql) lastTokenParsed in Some (Feed t n c)
    else if tokenType =? TK_FILTER then
      assert* n =? 6 in
      let* t := analyzeFilterKeyword (Tokenizer.from 6 zSql) lastTokenParsed in Some (Feed t n c)
    else if (tokenType =? TK_COMMENT) && (init_busy c || comments_on c) then Some (Skip c)
    else if negb (tokenType =? TK_QNUMBER) then
      Some (Break (sqlite3ErrorMsg c (UnrecognizedToken {| tz := zSql; tn := n |})))
    else Some (Feed tokenType n c)
  else Some (Feed tokenType n c).

(** A call of the parser: the token, how the call ended, and the result code
    that it left. *)
Record call := { ktype : Z; ktoken : Token; koutcome : outcome; krc : Z }.

Definition run_end : Type := list call * list Z * yyParser M * Parse X.

(** The call of the parser and what follows it in a round; [next] is the rest of
    the loop. *)
Definition call_parser (startedWithOom : bool) (next : list Z -> Z -> yyParser M -> Parse X -> option run_end)
    (zSql : list Z) (tokenType n : Z) (p : yyParser M) (c : Parse X) : option run_end :=
  let sLastToken := {| tz := zSql; tn := n |} in
  match sqlite3Parser p tokenType sLastToken c with
  | None => None
  | Some (o, p, c) =>
      let k := {| ktype := tokenType; ktoken := sLastToken; koutcome := o; krc := rc c |} in
      let lastTokenParsed := tokenType in
      let zSql := Tokenizer.from n zSql in
      assert* negb (mallocFailed c) || negb (rc c =? SQLITE_OK) || startedWithOom in
      if negb (rc c =? SQLITE_OK) then Some ([k], zSql, p, c)
      else
        match next zSql lastTokenParsed p c with
        | None => None
        | Some (calls, z, p, c) => Some (k :: calls, z, p, c)
        end
  end.

(** The [while( 1 )]: the calls of [sqlite3Parser], the text left, the parser
    and the context when the loop is left. *)
Fixpoint run_loop (fuel : nat) (startedWithOom : bool) (zSql : list Z) (mxSqlLen lastTokenParsed : Z) (p : yyParser M) (c : Parse X)
    : option run_end :=
  match fuel with
  | O => None
  | S fuel' =>
      let '(n, tokenType) := sqlite3GetToken zSql in
      let mxSqlLen := mxSqlLen - n in
      if mxSqlLen <? 0 then Some ([], zSql, p, add_error c SQLITE_TOOBIG (zErrMsg c))
      else
        match judge zSql n tokenType lastTokenParsed c with
        | None => None
        | Some (Break c) => Some ([], zSql, p, c)
        | Some (Skip c) => run_loop fuel' startedWithOom (Tokenizer.from n zSql) mxSqlLen lastTokenParsed p c
        | Some (Feed tokenType n c) =>
            call_parser startedWithOom (fun zSql => run_loop fuel' startedWithOom zSql mxSqlLen) zSql tokenType n p c
        end
  end.

(** One round for each byte of the text at most, and three at its end. *)
Definition run_calls (zSql : list Z) (c : Parse X) : option run_end :=
  let startedWithOom := mallocFailed c in
  let c := set_rc c SQLITE_OK in
  run_loop (length zSql + 3) startedWithOom zSql (limit_sql_length c) (-1) (sqlite3ParserInit c) c.

(** The number of errors, [zTail] and the context.  The log and the release of
    what the actions left in the context are not here. *)
Definition sqlite3RunParser (c : Parse X) (zSql : list Z) : option (Z * list Z * Parse X) :=
  match run_calls zSql c with
  | None => None
  | Some (_, zTail, p, c) =>
      let '(c, _) := sqlite3ParserFinalize p c in
      let c := if mallocFailed c then set_rc c SQLITE_NOMEM else c in
      let failed := (match zErrMsg c with Some _ => true | None => false end) ||
        (negb (rc c =? SQLITE_OK) && negb (rc c =? SQLITE_DONE)) in
      let c := if failed then match zErrMsg c with
                 | Some _ => c
                 | None => let '(m, c) := sqlite3VMPrintf c (ErrStr (rc c)) in set_zErrMsg c m
                 end else c in
      let nErr := if failed then 1 else 0 in
      assert* (nErr =? 0) || negb (rc c =? SQLITE_OK) in
      Some (nErr, zTail, c)
  end.

(** ** The types of tokens *)

(** The type is a terminal; those from [TK_WINDOW] on are the ones the loop
    knows; and the lengths of the three keywords are as asserted. *)
Definition plain (t : Z) : bool :=
  (1 <=? t) && (t <? YYNTOKEN) && ((t <? TK_WINDOW) || is_special t) &&
  negb ((t =? TK_WINDOW) || (t =? TK_OVER) || (t =? TK_FILTER)).
Definition token_ok (nt : Z * Z) : bool :=
  let '(n, t) := nt in
  plain t || ((t =? TK_WINDOW) && (n =? 6)) || ((t =? TK_OVER) && (n =? 4)) || ((t =? TK_FILTER) && (n =? 6)).

Lemma plain_ok n t : plain t = true -> token_ok (n, t) = true.
Proof. intros H. unfold token_ok. now rewrite H. Qed.

Lemma keywords_ok : forallb (fun kc => token_ok (Z.of_nat (length (txt (fst kc))), snd kc)) keyword_table = true.
Proof. vm_compute. reflexivity. Qed.

Lemma find_in_entry table w code : find_in table w = Some code -> exists name, In (name, code) table /\ txt name = w.
Proof.
  induction table as [|[name k] table IH]; cbn; [discriminate|]. destruct list_eq_dec as [<-|].
  - intros [= <-]. exists name. auto.
  - intros H. destruct (IH H) as (nm & HI & E). exists nm. auto.
Qed.

Lemma keyword_code_ok z n : bytes z -> 2 <= n <= Z.of_nat (length z) -> token_ok (keywordCode z n TK_ID) = true.
Proof.
  intros Hz Hn. rewrite keyword_code_eq by assumption. destruct (find_keyword (word z n)) as [code|] eqn:F; [|reflexivity].
  apply find_in_entry in F as (name & HI & E). pose proof (proj1 (forallb_forall _ _) keywords_ok _ HI) as HK. cbv beta in HK. cbn [fst snd] in HK.
  rewrite E, length_word in HK by lia. exact HK.
Qed.

Lemma digits_plain isdig z i t : plain t = true -> plain (snd (digits isdig z i t)) = true.
Proof.
  revert i t. induction z as [|c z IH]; intros i t H; cbn [digits]; [exact H|].
  destruct (isdig c); cbn [negb]; [now apply IH|]. destruct (c =? _); [now apply IH|exact H].
Qed.

Lemma to_float_plain t : plain t = true -> plain (to_float t) = true.
Proof. unfold to_float. destruct (t =? TK_INTEGER); [reflexivity|auto]. Qed.

Lemma number_plain z : plain (snd (number z)) = true.
Proof.
  unfold number. fold (number_head z). assert (H : plain (snd (number_head z)) = true).
  { unfold number_head. destruct (hex_prefix z); [now apply digits_plain|].
    pose proof (digits_plain sqlite3Isdigit z 0 TK_INTEGER eq_refl) as H0. destruct (digits _ z 0 _) as [i t]. cbn [snd] in H0.
    unfold fraction. assert (H1 : plain (snd (if rd z i =? 46 then digits sqlite3Isdigit (Tokenizer.from (i + 1) z) (i + 1) (to_float t) else (i, t))) = true).
    { destruct (rd z i =? 46); [|exact H0]. now apply digits_plain, to_float_plain. }
    destruct (if rd z i =? 46 then _ else _) as [i1 t1]. cbn [snd] in H1. unfold power.
    destruct (exponent z i1); [|exact H1]. now apply digits_plain, to_float_plain. }
  destruct (number_head z) as [i t]. cbn [snd] in *. destruct (_ >? 0); [reflexivity|exact H].
Qed.

Lemma variable_plain z i n : plain (snd (variable z i n)) = true.
Proof.
  revert i n. induction z as [[|c [|d z]] IH] using (induction_ltof1 _ (@length Z)); unfold ltof in IH; intros i n.
  - reflexivity.
  - cbn [variable span]. destruct (c =? 0); [reflexivity|]. destruct (IdChar c); [reflexivity|]. destruct (_ && _); [|reflexivity].
    cbn [snd]. destruct (_ =? 41); reflexivity.
  - pose proof (IH (d :: z) ltac:(cbn; lia) (i + 1) (n + 1)) as I1. pose proof (IH z ltac:(cbn; lia) (i + 1 + 1) n) as I2.
    remember (d :: z) as z' eqn:Ez. cbn [variable]. destruct (c =? 0); [reflexivity|]. destruct (IdChar c); [exact I1|].
    destruct ((c =? 40) && _); [cbv zeta; destruct (_ =? 41); reflexivity|]. rewrite Ez. destruct (_ && _); [exact I2|reflexivity].
Qed.

Lemma snd_plain_ok nt : plain (snd nt) = true -> token_ok nt = true.
Proof. destruct nt. apply plain_ok. Qed.

Lemma keyword_or_id_ok z : cstring z -> token_ok (keyword_or_id z) = true.
Proof.
  intros Hz. unfold keyword_or_id. destruct (_ >? _) eqn:E; [reflexivity|]. apply keyword_second in E.
  cbv zeta. destruct (IdChar _); [reflexivity|]. pose proof (span_from_range in_keyword z 2 ltac:(lia)).
  apply keyword_code_ok; [now apply cstring_bytes|]. pose proof (span_range in_keyword (Tokenizer.from 2 z)). lia.
Qed.

Lemma get_token_ok z : cstring z -> token_ok (sqlite3GetToken z) = true.
Proof.
  intros Hz. pose proof (keyword_or_id_ok z Hz) as HK. pose proof (snd_plain_ok _ (number_plain z)) as HN.
  pose proof (variable_plain (Tokenizer.from 1 z) 1 0) as HV.
  unfold sqlite3GetToken, identifier, blob. cbv zeta.
  destruct (block_comment (rd z 2) (Tokenizer.from 3 z) 3) as [bi bc]. destruct (quoted (rd z 0) (Tokenizer.from 1 z) 1) as [qi qc].
  destruct (variable (Tokenizer.from 1 z) 1 0) as [[vi vn] vt]. cbn [snd] in HV. apply plain_ok with (n := vi) in HV.
  repeat match goal with |- context [if ?b then _ else _] => first [destruct b; [solve [reflexivity | assumption]|] | destruct b] end; solve [reflexivity | assumption].
Qed.

(** ** Lookahead *)

Lemma token_code t n : token_ok (n, t) = true -> 1 <= t < YYNTOKEN.
Proof.
  unfold token_ok, plain, YYNTOKEN. rewrite !orb_true_iff, !andb_true_iff. intros [[[H|[H _]]|[H _]]|[H _]]; [lia| | |];
    apply Z.eqb_eq in H; subst t; split; reflexivity || discriminate.
Qed.

Lemma get_token_code z : cstring z -> 1 <= snd (sqlite3GetToken z) < YYNTOKEN.
Proof. intros Hz. pose proof (get_token_ok z Hz) as H. destruct (sqlite3GetToken z) as [n t]. now apply (token_code t n). Qed.

Lemma from_cstring n z : cstring z -> cstring (Tokenizer.from n z).
Proof.
  unfold cstring, Tokenizer.from. rewrite !Forall_forall. intros H c Hc. apply H. rewrite <- (firstn_skipn (Z.to_nat n) z).
  apply in_or_app. now right.
Qed.

Lemma get_token_next z : cstring z -> z <> [] -> (length (Tokenizer.from (fst (sqlite3GetToken z)) z) < length z)%nat.
Proof.
  intros Hz HN. pose proof (get_token_range z Hz HN). unfold Tokenizer.from. rewrite length_skipn. lia.
Qed.

(** What [getToken] is for: the next token that is neither space nor a comment,
    and the text after it. *)
Definition blank (t : Z) : bool := (t =? TK_SPACE) || (t =? TK_COMMENT).
Inductive next_is : list Z -> Z -> list Z -> Prop :=
| next_here z n t : sqlite3GetToken z = (n, t) -> blank t = false -> next_is z t (Tokenizer.from n z)
| next_blank z n t t' z' : sqlite3GetToken z = (n, t) -> blank t = true -> next_is (Tokenizer.from n z) t' z' -> next_is z t' z'.

Lemma next_is_unique z t1 z1 t2 z2 : next_is z t1 z1 -> next_is z t2 z2 -> t1 = t2 /\ z1 = z2.
Proof.
  intros H. revert t2 z2. induction H as [z n t E B|z n t t' z' E B _ IH]; intros t2 z2 H2;
    (inversion H2 as [? n' t'' E' B'|? n' t'' ? ? E' B' H']; subst; rewrite E in E'; injection E' as <- <-; try congruence); auto.
Qed.

(** The tokens that can be names. *)
Definition names (t : Z) : bool :=
  existsb (Z.eqb t) [TK_ID; TK_STRING; TK_JOIN_KW; TK_WINDOW; TK_OVER] || (rd yyFallback t =? TK_ID).

Lemma getToken_ok fuel : forall z, cstring z -> (length z < fuel)%nat ->
  exists t z', getToken fuel z = Some (if names t then TK_ID else t, z') /\ next_is z t z' /\ cstring z'.
Proof.
  induction fuel as [|fuel IH]; intros z Hz HF; [lia|]. cbn [getToken].
  pose proof (get_token_code z Hz) as HC. pose proof (from_cstring (fst (sqlite3GetToken z)) z Hz) as HZ.
  assert (HN : z = [] \/ (length (Tokenizer.from (fst (sqlite3GetToken z)) z) < length z)%nat).
  { destruct z as [|a z']; [now left|right]. apply get_token_next; [exact Hz|discriminate]. }
  assert (HE : z = [] -> snd (sqlite3GetToken z) = TK_ILLEGAL) by (intros ->; reflexivity).
  destruct (sqlite3GetToken z) as [n t] eqn:EG. cbn [fst snd] in *. fold (blank t).
  destruct (blank t) eqn:E.
  { destruct HN as [->|HN]; [rewrite HE in E by reflexivity; discriminate E|].
    destruct (IH (Tokenizer.from n z) HZ ltac:(lia)) as (t' & z' & -> & H1 & H2). exists t', z'. split; [reflexivity|].
    split; [now apply (next_blank z n t)|exact H2]. }
  unfold sqlite3ParserFallback. destruct table_lengths as (_ & _ & _ & _ & _ & HL & _). unfold YYNTOKEN in HC. rewrite get_rd by lia.
  exists t, (Tokenizer.from n z). split; [|split; [now constructor|exact HZ]]. unfold names. cbn [existsb]. rewrite orb_false_r, !orb_assoc. reflexivity.
Qed.

Lemma next_token_ok z : cstring z -> exists t z', next_token z = Some (if names t then TK_ID else t, z') /\ next_is z t z' /\ cstring z'.
Proof. intros Hz. apply getToken_ok; [exact Hz|lia]. Qed.

Lemma names_eqb t k : names k = false -> ((if names t then TK_ID else t) =? k) = (t =? k).
Proof.
  intros HK. destruct (names t) eqn:E; [|reflexivity]. destruct (Z.eqb_spec t k) as [->|]; [congruence|].
  destruct (Z.eqb_spec TK_ID k) as [<-|]; [discriminate HK|reflexivity].
Qed.
Lemma names_id t : ((if names t then TK_ID else t) =? TK_ID) = names t.
Proof. destruct (names t) eqn:E; [reflexivity|]. destruct (Z.eqb_spec t TK_ID) as [->|]; [discriminate E|reflexivity]. Qed.

(** When the three words are keywords. *)
Definition window_keyword (z : list Z) : Prop := exists t z1 z2, next_is z t z1 /\ names t = true /\ next_is z1 TK_AS z2.
Definition over_keyword (last : Z) (z : list Z) : Prop := last = TK_RP /\ exists t z1, next_is z t z1 /\ (t = TK_LP \/ names t = true).
Definition filter_keyword (last : Z) (z : list Z) : Prop := last = TK_RP /\ exists z1, next_is z TK_LP z1.

(** [t'] is the keyword [t] when [P] holds and a name otherwise. *)
Definition keyword_if (P : Prop) (t t' : Z) : Prop := (P /\ t' = t) \/ (~ P /\ t' = TK_ID).

Lemma window_ok z : cstring z -> exists t, analyzeWindowKeyword z = Some t /\ keyword_if (window_keyword z) TK_WINDOW t.
Proof.
  intros Hz. unfold analyzeWindowKeyword. destruct (next_token_ok z Hz) as (t & z' & -> & H1 & Hz'). rewrite names_id.
  destruct (names t) eqn:E; cbn [negb].
  2:{ eexists. split; [reflexivity|]. right. split; [|reflexivity]. intros (t2 & z1 & z2 & H2 & N & _).
      destruct (next_is_unique _ _ _ _ _ H1 H2) as [<- _]. congruence. }
  destruct (next_token_ok z' Hz') as (t' & z2 & -> & H2 & _). rewrite names_eqb by reflexivity.
  destruct (Z.eqb_spec t' TK_AS) as [->|N]; cbn [negb]; (eexists; split; [reflexivity|]).
  - left. split; [|reflexivity]. now exists t, z', z2.
  - right. split; [|reflexivity]. intros (t3 & z3 & z4 & H3 & _ & H4). destruct (next_is_unique _ _ _ _ _ H1 H3) as [_ <-].
    destruct (next_is_unique _ _ _ _ _ H2 H4) as [-> _]. contradiction.
Qed.

Lemma over_ok z l : cstring z -> exists t, analyzeOverKeyword z l = Some t /\ keyword_if (over_keyword l z) TK_OVER t.
Proof.
  intros Hz. unfold analyzeOverKeyword. destruct (Z.eqb_spec l TK_RP) as [->|N].
  2:{ eexists. split; [reflexivity|]. right. split; [|reflexivity]. intros [E _]. contradiction. }
  destruct (next_token_ok z Hz) as (t & z' & -> & H1 & _). rewrite names_id, names_eqb by reflexivity.
  destruct ((t =? TK_LP) || names t) eqn:E; (eexists; split; [reflexivity|]).
  - left. split; [|reflexivity]. split; [reflexivity|]. exists t, z'. split; [exact H1|]. apply orb_true_iff in E as [E|E]; [left; lia|now right].
  - right. split; [|reflexivity]. apply orb_false_iff in E as [E1 E2]. intros (_ & t2 & z2 & H2 & H3).
    destruct (next_is_unique _ _ _ _ _ H1 H2) as [<- _]. destruct H3; [lia|congruence].
Qed.

Lemma filter_ok z l : cstring z -> exists t, analyzeFilterKeyword z l = Some t /\ keyword_if (filter_keyword l z) TK_FILTER t.
Proof.
  intros Hz. unfold analyzeFilterKeyword. destruct (Z.eqb_spec l TK_RP) as [->|N].
  2:{ eexists. split; [reflexivity|]. right. split; [|reflexivity]. intros [E _]. contradiction. }
  destruct (next_token_ok z Hz) as (t & z' & -> & H1 & _). rewrite names_eqb by reflexivity.
  destruct (Z.eqb_spec t TK_LP) as [->|N]; (eexists; split; [reflexivity|]).
  - left. split; [|reflexivity]. split; [reflexivity|]. now exists z'.
  - right. split; [|reflexivity]. intros (_ & z2 & H2). destruct (next_is_unique _ _ _ _ _ H1 H2) as [-> _]. contradiction.
Qed.

(** ** The judgement on a token *)

(** The type that the parser sees for a token of type [t] at the front of [z],
    after a token of type [last]. *)
Definition read_as (last : Z) (z : list Z) (t t' : Z) : Prop :=
  ((1 <= t < TK_WINDOW \/ t = TK_QNUMBER) /\ t' = t) \/
  (t = TK_WINDOW /\ keyword_if (window_keyword (Tokenizer.from 6 z)) TK_WINDOW t') \/
  (t = TK_OVER /\ keyword_if (over_keyword last (Tokenizer.from 4 z)) TK_OVER t') \/
  (t = TK_FILTER /\ keyword_if (filter_keyword last (Tokenizer.from 6 z)) TK_FILTER t').

Lemma read_as_code last z t t' : read_as last z t t' -> 1 <= t' < YYNTOKEN.
Proof.
  unfold read_as, keyword_if, YYNTOKEN. intros [[H ->]|[[_ [[_ ->]|[_ ->]]]|[[_ [[_ ->]|[_ ->]]]|[_ [[_ ->]|[_ ->]]]]]];
    try (split; reflexivity || discriminate). destruct H as [H| ->]; [unfold TK_WINDOW in H; lia|split; reflexivity || discriminate].
Qed.

(** Comments are skipped in a schema and when the connection allows them. *)
Definition skips (c : Parse X) : bool := init_busy c || comments_on c.
Definition skipped (sk : bool) (t : Z) : Prop := t = TK_SPACE \/ (t = TK_COMMENT /\ sk = true).
Definition unknown (sk : bool) (t : Z) : Prop := t = TK_ILLEGAL \/ (t = TK_COMMENT /\ sk = false).

(** A context after at most one look at [isInterrupted]. *)
Definition seen (c c' : Parse X) : Prop := c' = c \/ c' = snd (load_interrupted c).

Lemma judge_end last c : exists c1, seen c c1 /\
  (judge [] 0 TK_ILLEGAL last c = Some (Break (add_error c1 SQLITE_INTERRUPT (zErrMsg c1))) \/
   (last = 0 /\ judge [] 0 TK_ILLEGAL last c = Some (Break c1)) \/
   (last = TK_SEMI /\ judge [] 0 TK_ILLEGAL last c = Some (Feed 0 0 c1)) \/
   (last <> TK_SEMI /\ last <> 0 /\ judge [] 0 TK_ILLEGAL last c = Some (Feed TK_SEMI 0 c1))).
Proof.
  exists (snd (load_interrupted c)). split; [now right|]. unfold judge. destruct (load_interrupted c) as [i c1]. cbn [snd].
  change (rd [] 0 =? 0) with true. change (TK_ILLEGAL >=? TK_WINDOW) with true. change (is_special TK_ILLEGAL) with true.
  change (TK_ILLEGAL =? TK_SPACE) with false. cbv iota.
  destruct i; [now left|right]. destruct (Z.eqb_spec last TK_SEMI) as [E|E]; [right; left; now split|].
  destruct (Z.eqb_spec last 0) as [E0|E0]; [left; now split|]. right; right. now repeat split.
Qed.

Lemma special_ok n t : token_ok (n, t) = true -> TK_WINDOW <= t -> is_special t = true.
Proof.
  unfold token_ok, plain. rewrite !orb_true_iff, !andb_true_iff, !orb_true_iff. intros HT HW.
  destruct HT as [[[[[_ [HT|HT]] _]|[HT _]]|[HT _]]|[HT _]]; [lia|exact HT| | |]; apply Z.eqb_eq in HT; subst t; reflexivity.
Qed.

Lemma judge_ok z last c : cstring z -> z <> [] ->
  let '(n, t) := sqlite3GetToken z in
  exists c1, seen c c1 /\
    ((TK_WINDOW <= t /\ judge z n t last c = Some (Break (add_error c1 SQLITE_INTERRUPT (zErrMsg c1)))) \/
     (skipped (skips c) t /\ judge z n t last c = Some (Skip c1)) \/
     (exists t', read_as last z t t' /\ judge z n t last c = Some (Feed t' n c1)) \/
     (unknown (skips c) t /\ judge z n t last c = Some (Break (sqlite3ErrorMsg c1 (UnrecognizedToken {| tz := z; tn := n |}))))).
Proof.
  intros Hz HN. pose proof (get_token_ok z Hz) as HT. destruct (sqlite3GetToken z) as [n t]. unfold judge.
  assert (H0 : (rd z 0 =? 0) = false).
  { destruct z as [|a z']; [congruence|]. inversion Hz as [|? ? [_ Ha] _]. rewrite rd_0. lia. }
  pose proof (fun k => from_cstring k z Hz) as HF.
  destruct (Z.geb_spec t TK_WINDOW) as [HW|HW].
  2:{ apply token_code in HT. exists c. split; [now left|]. right; right; left. exists t. split; [|reflexivity]. left. split; [left; lia|reflexivity]. }
  exists (snd (load_interrupted c)). split; [now right|]. rewrite (special_ok n t HT HW).
  assert (HSK : skips c = skips (snd (load_interrupted c))) by reflexivity.
  destruct (load_interrupted c) as [i c1]. cbn [snd] in *. destruct i; [left; split; [exact HW|reflexivity]|].
  destruct (Z.eqb_spec t TK_SPACE) as [->|N1]; [right; left; split; [now left|reflexivity]|]. rewrite H0.
  destruct (Z.eqb_spec t TK_WINDOW) as [->|N2].
  { replace n with 6 by (unfold token_ok in HT; cbn in HT; lia). cbn [Z.eqb Pos.eqb].
    destruct (window_ok _ (HF 6)) as (t' & -> & HR). right; right; left. exists t'. split; [unfold read_as; auto|reflexivity]. }
  destruct (Z.eqb_spec t TK_OVER) as [->|N3].
  { replace n with 4 by (unfold token_ok in HT; cbn in HT; lia). cbn [Z.eqb Pos.eqb].
    destruct (over_ok _ last (HF 4)) as (t' & -> & HR). right; right; left. exists t'. split; [unfold read_as; auto|reflexivity]. }
  destruct (Z.eqb_spec t TK_FILTER) as [->|N4].
  { replace n with 6 by (unfold token_ok in HT; cbn in HT; lia). cbn [Z.eqb Pos.eqb].
    destruct (filter_ok _ last (HF 6)) as (t' & -> & HR). right; right; left. exists t'. split; [unfold read_as; auto|reflexivity]. }
  fold (skips c1). rewrite HSK. destruct (Z.eqb_spec t TK_COMMENT) as [->|N5]; cbn [andb].
  { destruct (skips c1) eqn:EK; [right; left; split; [right; now split|reflexivity]|].
    right; right; right. split; [right; now split|reflexivity]. }
  destruct (Z.eqb_spec t TK_QNUMBER) as [->|N6]; cbn [negb].
  { right; right; left. exists TK_QNUMBER. split; [left; auto|reflexivity]. }
  right; right; right. split; [left|reflexivity]. pose proof (special_ok n t HT HW) as HS.
  unfold is_special in HS. cbn [existsb] in HS. lia.
Qed.

(** ** Conditions that hold of every context *)

(** A failed allocation is reported unless the run began with one, and so is a
    message; comments are skipped throughout or not at all. *)
Definition sound (started sk : bool) (c : Parse X) : Prop :=
  (mallocFailed c = true -> started = true \/ rc c <> SQLITE_OK) /\ (zErrMsg c <> None -> rc c <> SQLITE_OK) /\ skips c = sk.

(** What the code generator and the allocators promise outside nested parses:
    the end of a statement sets a result code, freeing and growing do not clear
    one, every operation keeps [sound], and the fixed messages are shorter than
    the buffer of [sqlite3VMPrintf]. *)
Class ActionLaws := {
  finish_law : forall args la t c, rc (snd (semantic_action rule_cmdx args la t c)) <> SQLITE_OK;
  delete_law : forall d m c, rc c <> SQLITE_OK -> rc (delete_value d m c) <> SQLITE_OK;
  realloc_law : forall n c, rc c <> SQLITE_OK -> rc (snd (parserStackRealloc n c)) <> SQLITE_OK;
  action_sound : forall started sk r args la t c, sound started sk c -> sound started sk (snd (semantic_action r args la t c));
  delete_sound : forall started sk d m c, sound started sk c -> sound started sk (delete_value d m c);
  realloc_sound : forall started sk n c, sound started sk c -> sound started sk (snd (parserStackRealloc n c));
  short_law : forall r c, fst (format_message (ErrStr r) c) <> TooLong
}.
Context {laws : ActionLaws}.

Definition failed_or_done (c : Parse X) : Prop := rc c <> SQLITE_OK.

Lemma failing_sound started sk c : failed_or_done c -> skips c = sk -> sound started sk c.
Proof. unfold failed_or_done, sound. auto. Qed.

Lemma report_done c m : failed_or_done c -> failed_or_done (report_error c m).
Proof. unfold failed_or_done, report_error. intros H. destruct (suppressErr c); [destruct (mallocFailed c)|]; [discriminate|exact H|discriminate]. Qed.

Lemma report_skips c m : skips (report_error c m) = skips c.
Proof. unfold report_error. destruct (suppressErr c); [destruct (mallocFailed c)|]; reflexivity. Qed.

Lemma report_sound started sk c m : sound started sk c -> sound started sk (report_error c m).
Proof.
  intros HS. pose proof (report_skips c m) as HK. assert (H3 : skips c = sk) by apply HS. unfold report_error in *.
  destruct (suppressErr c); [destruct (mallocFailed c)|]; [apply failing_sound; [discriminate|congruence]|exact HS|apply failing_sound; [discriminate|congruence]].
Qed.

Lemma report_suppress c m : suppressErr (report_error c m) = suppressErr c.
Proof. unfold report_error. destruct (suppressErr c) eqn:E; [destruct (mallocFailed c)|]; exact E. Qed.

Lemma oom_suppress c : suppressErr (sqlite3OomFault c) = suppressErr c.
Proof.
  unfold sqlite3OomFault. destruct (_ && _); [|reflexivity]. unfold vmprintf. destruct (format_message _ _) as [r x].
  destruct r; cbv zeta; unfold set_rc; cbn [suppressErr]; rewrite report_suppress; reflexivity.
Qed.

Lemma oom_skips c : skips (sqlite3OomFault c) = skips c.
Proof.
  unfold sqlite3OomFault. destruct (_ && _); [|reflexivity]. unfold vmprintf. destruct (format_message _ _) as [r x].
  destruct r; cbv zeta; match goal with |- skips (set_rc ?d _) = _ => change (skips d = skips c) end; rewrite report_skips; reflexivity.
Qed.

(** The fault either changes nothing or leaves NOMEM. *)
Lemma oom_cases c : sqlite3OomFault c = c /\ (mallocFailed c = true \/ bBenignMalloc c = true) \/
  (rc (sqlite3OomFault c) = SQLITE_NOMEM /\ mallocFailed (sqlite3OomFault c) = true).
Proof.
  unfold sqlite3OomFault. destruct (mallocFailed c); cbn [negb andb]; [now left; auto|]. destruct (bBenignMalloc c); cbn [negb]; [now left; auto|].
  right. unfold vmprintf. destruct (format_message _ _) as [r x].
  destruct r; cbv zeta; (split; [reflexivity|]); unfold report_error; cbn; destruct (suppressErr c); reflexivity.
Qed.

Lemma oom_done c : failed_or_done c -> failed_or_done (sqlite3OomFault c).
Proof. unfold failed_or_done. destruct (oom_cases c) as [[-> _]|[-> _]]; [auto|discriminate]. Qed.

Lemma oom_sound started sk c : sound started sk c -> sound started sk (sqlite3OomFault c).
Proof.
  intros HS. destruct (oom_cases c) as [[-> _]|[E _]]; [exact HS|]. apply failing_sound; [unfold failed_or_done; now rewrite E|].
  rewrite oom_skips. apply HS.
Qed.

Lemma format_cases c m : (exists x, sqlite3VMPrintf c m = (Some m, set_rest c x)) \/
  (exists x, sqlite3VMPrintf c m = (None, sqlite3OomFault (set_rest c x))) \/
  (exists x, fst (format_message m c) = TooLong /\ sqlite3VMPrintf c m = (None, sqlite3ErrorToParser (set_rest c x) SQLITE_TOOBIG)).
Proof. unfold sqlite3VMPrintf, vmprintf. destruct (format_message m c) as [[] x]; eauto 6. Qed.

Lemma error_msg_done m c : failed_or_done c -> failed_or_done (sqlite3ErrorMsg c m).
Proof.
  intros H. unfold sqlite3ErrorMsg. destruct (format_cases c m) as [[x ->]|[[x ->]|(x & _ & ->)]]; apply report_done;
    [exact H|now apply oom_done|discriminate].
Qed.

Lemma error_msg_sound started sk m c : sound started sk c -> sound started sk (sqlite3ErrorMsg c m).
Proof.
  intros H. unfold sqlite3ErrorMsg. destruct (format_cases c m) as [[x ->]|[[x ->]|(x & _ & ->)]]; apply report_sound;
    [exact H|now apply oom_sound|]. apply failing_sound; [discriminate|]. apply H.
Qed.

(** An error is suppressed or sets ERROR. *)
Lemma error_msg_code c m : suppressErr (sqlite3ErrorMsg c m) = true \/ rc (sqlite3ErrorMsg c m) = SQLITE_ERROR.
Proof.
  unfold sqlite3ErrorMsg. destruct (sqlite3VMPrintf c m) as [zMsg d]. rewrite report_suppress. unfold report_error.
  destruct (suppressErr d); [now left|now right].
Qed.

#[local] Instance run_finishing : Finishing run_env failed_or_done.
Proof.
  constructor.
  - intros args la t c. unfold reduce_minor. replace (rule_cmdx <? YYNRULE_WITH_ACTION) with true by reflexivity. apply finish_law.
  - intros d m c. apply delete_law.
  - intros n c. apply realloc_law.
  - exact oom_done.
  - intros t c H. cbn [syntaxError run_env]. unfold yy_syntax_error, parserSyntaxError. destruct (negb _); now apply error_msg_done.
Qed.

#[local] Instance run_keeping started sk : Keeping run_env (sound started sk).
Proof.
  constructor.
  - intros r args la t c. apply action_sound.
  - intros d m c. apply delete_sound.
  - intros n c. apply realloc_sound.
  - apply oom_sound.
  - intros t c H. cbn [syntaxError run_env]. unfold yy_syntax_error, parserSyntaxError. destruct (negb _); now apply error_msg_sound.
Qed.

(** ** The run *)

(** The tokens that are fed, with what is left of the limit on the length, the
    type of the last token and the text: space and, when they are allowed,
    comments are skipped, every other token is fed as [read_as] says, and after
    the end of the text come SEMI, unless it was the last, and 0. *)
Inductive lexed (sk : bool) : Z -> Z -> list Z -> list (Z * Token) -> Z -> Z -> list Z -> Prop :=
| lexed_none mx last z : lexed sk mx last z [] mx last z
| lexed_skip mx last z n t ts mx' last' z' : z <> [] -> sqlite3GetToken z = (n, t) -> n <= mx -> skipped sk t ->
    lexed sk (mx - n) last (Tokenizer.from n z) ts mx' last' z' -> lexed sk mx last z ts mx' last' z'
| lexed_token mx last z n t t' ts mx' last' z' : z <> [] -> sqlite3GetToken z = (n, t) -> n <= mx -> read_as last z t t' ->
    lexed sk (mx - n) t' (Tokenizer.from n z) ts mx' last' z' ->
    lexed sk mx last z ((t', {| tz := z; tn := n |}) :: ts) mx' last' z'
| lexed_semi mx last ts mx' last' z' : last <> TK_SEMI -> last <> 0 -> lexed sk mx TK_SEMI [] ts mx' last' z' ->
    lexed sk mx last [] ((TK_SEMI, {| tz := []; tn := 0 |}) :: ts) mx' last' z'
| lexed_end mx ts mx' last' z' : lexed sk mx 0 [] ts mx' last' z' ->
    lexed sk mx TK_SEMI [] ((0, {| tz := []; tn := 0 |}) :: ts) mx' last' z'.

(** Why the loop is left when no call of the parser has set a result code: all
    is fed, the text is too long, the run is interrupted, or a token is unknown,
    which is an error unless errors are suppressed. *)
Inductive stopped (sk : bool) : Z -> Z -> list Z -> Parse X -> Prop :=
| stopped_end mx c : rc c = SQLITE_OK -> stopped sk mx 0 [] c
| stopped_long mx last z n t c : sqlite3GetToken z = (n, t) -> mx < n -> rc c = SQLITE_TOOBIG -> stopped sk mx last z c
| stopped_interrupted mx last z n t c : sqlite3GetToken z = (n, t) -> TK_WINDOW <= t -> rc c = SQLITE_INTERRUPT -> stopped sk mx last z c
| stopped_unknown mx last z n t c : z <> [] -> sqlite3GetToken z = (n, t) -> unknown sk t ->
    suppressErr c = true \/ rc c = SQLITE_ERROR -> stopped sk mx last z c.

Definition went_on (k : call) : Prop := krc k = SQLITE_OK.

(** The loop ends with the first call that leaves a result code, or as [stopped]
    says. *)
Definition ends (sk : bool) (calls : list call) (mx last : Z) (z : list Z) (c : Parse X) : Prop :=
  (exists pre k, calls = pre ++ [k] /\ Forall went_on pre /\ krc k = rc c /\ rc c <> SQLITE_OK) \/
  (Forall went_on calls /\ stopped sk mx last z c).

(** What the outcomes of the calls say: the tokens shifted since the parser was
    empty, before and after the calls. *)
Inductive replay : list Z -> list call -> list Z -> Prop :=
| replay_nil ts : replay ts [] ts
| replay_shift ts k calls ts' : koutcome k = Shifted -> replay (ts ++ [ktype k]) calls ts' -> replay ts (k :: calls) ts'
| replay_reject ts k calls ts' : koutcome k = Rejected -> replay ts calls ts' -> replay ts (k :: calls) ts'
| replay_overflow ts k calls ts' : koutcome k = Overflowed -> replay [] calls ts' -> replay ts (k :: calls) ts'
| replay_accept ts k calls ts' : koutcome k = Accepted -> ktype k = 0 -> derives sym_input ts -> replay [] calls ts' -> replay ts (k :: calls) ts'.

Definition stands (p : yyParser M) (ts : list Z) : Prop := parser_ok (fun x w _ => derives x w) p ts.

Lemma bottom_stands p : at_bottom p -> yytos p <= yystackEnd p -> stands p [] /\ no_cmdx (yystack p).
Proof.
  intros (b & E & H0 & H1) HE. split.
  - exists []. split; [split; [rewrite E; now constructor|exact HE]|]. split; [reflexivity|].
    intros e st E2. rewrite E in E2. injection E2 as <- _. rewrite H0. discriminate.
  - unfold no_cmdx. rewrite E. constructor; [now rewrite H1|constructor].
Qed.

(** One call: what stands afterwards, and whether a statement is complete. *)
Lemma run_call p ts a t c : stands p ts -> no_cmdx (yystack p) -> 0 <= a < YYNTOKEN ->
  exists o p' c', sqlite3Parser p a t c = Some (o, p', c') /\
    (exists ts', stands p' ts' /\ forall k calls ts2, koutcome k = o -> ktype k = a -> replay ts' calls ts2 -> replay ts (k :: calls) ts2) /\
    (no_cmdx (yystack p') \/ (failed_or_done c' /\ statement_end (yystack p'))).
Proof.
  intros HS HN Ha. destruct (parser_call (fun x w _ => derives x w) failed_or_done a t Ha p ts c HS HN) as (o & p' & c' & E & HR & HD).
  exists o, p', c'. split; [exact E|]. split; [|exact HD]. destruct o.
  - exists (ts ++ [a]). split; [exact HR|]. intros k calls ts2 HO <-. now apply replay_shift.
  - destruct HR as (-> & HB & HE & _ & HI). exists []. split; [now apply bottom_stands|]. intros k calls ts2 HO HT. now apply replay_accept.
  - exists ts. split; [exact HR|]. intros k calls ts2 HO _. now apply replay_reject.
  - destruct HR as [HB HE]. exists []. split; [now apply bottom_stands|]. intros k calls ts2 HO _. now apply replay_overflow.
Qed.

(** The rounds that are left. *)
Definition rounds (z : list Z) (last : Z) : nat :=
  (length z + if Nat.eqb (length z) 0 then if (last =? TK_SEMI)%Z then 2 else if (last =? 0)%Z then 1 else 3 else 3)%nat.

Lemma rounds_bound z last : (rounds z last <= length z + 3)%nat.
Proof. unfold rounds. destruct (Nat.eqb _ 0); [destruct (_ =? _); [|destruct (_ =? _)]|]; lia. Qed.

Lemma rounds_next z n last last' : z <> [] -> (length (Tokenizer.from n z) < length z)%nat -> (rounds (Tokenizer.from n z) last' < rounds z last)%nat.
Proof.
  intros HN HL. pose proof (rounds_bound (Tokenizer.from n z) last') as HB. unfold rounds at 2.
  destruct (Nat.eqb_spec (length z) 0) as [E|_]; [destruct z; [congruence|discriminate E]|]. lia.
Qed.

Section Invariant.
Variables (started sk : bool).

Definition fed_token (k : call) : Z * Token := (ktype k, ktoken k).

(** What a run from a parser that stands for [ts] ends with. *)
Definition run_result (mx last : Z) (z ts : list Z) (r : run_end) : Prop :=
  let '(calls, z', p, c) := r in
  sound started sk c /\
  (exists mx' last', lexed sk mx last z (map fed_token calls) mx' last' z' /\ ends sk calls mx' last' z' c) /\
  exists ts', replay ts calls ts' /\ stands p ts' /\ (no_cmdx (yystack p) \/ (failed_or_done c /\ statement_end (yystack p))).

Lemma run_stop mx last z ts p c : sound started sk c -> stands p ts -> no_cmdx (yystack p) -> stopped sk mx last z c ->
  run_result mx last z ts ([], z, p, c).
Proof.
  intros HC HS HN HE. split; [exact HC|]. split.
  - exists mx, last. split; [constructor|]. right. split; [constructor|exact HE].
  - exists ts. split; [constructor|]. auto.
Qed.

Lemma add_error_sound c r m : r <> SQLITE_OK -> skips c = sk -> sound started sk (add_error c r m).
Proof. intros H HK. now apply failing_sound. Qed.

Lemma seen_sound c c1 : seen c c1 -> sound started sk c -> sound started sk c1 /\ rc c1 = rc c.
Proof. intros [->| ->] H; split; exact H || reflexivity. Qed.

(** A token fed and the rest of the run. *)
Lemma run_feed next z n a ts p c mx mx0 last : sound started sk c -> stands p ts -> no_cmdx (yystack p) -> 0 <= a < YYNTOKEN ->
  (forall l m' l' z', lexed sk mx a (Tokenizer.from n z) l m' l' z' -> lexed sk mx0 last z ((a, {| tz := z; tn := n |}) :: l) m' l' z') ->
  (forall ts p c, sound started sk c -> rc c = SQLITE_OK -> stands p ts -> no_cmdx (yystack p) ->
     exists r, next (Tokenizer.from n z) a p c = Some r /\ run_result mx a (Tokenizer.from n z) ts r) ->
  exists r, call_parser started next z a n p c = Some r /\ run_result mx0 last z ts r.
Proof.
  intros HC HS HN Ha HL HI. unfold call_parser.
  destruct (run_call p ts a {| tz := z; tn := n |} c HS HN Ha) as (o & p' & c' & E & (ts' & HS' & HR) & HD). rewrite E.
  pose proof (parser_kept (kept := sound started sk) p a _ c o p' c' HC E) as HC'. pose proof HC' as (HM & _ & _).
  set (k := {| ktype := a; ktoken := _; koutcome := o; krc := rc c' |}). cbv zeta.
  assert (HA : negb (mallocFailed c') || negb (rc c' =? SQLITE_OK) || started = true).
  { destruct (mallocFailed c'); [|reflexivity]. destruct (HM eq_refl) as [->|HF]; [now rewrite orb_true_r|].
    apply Z.eqb_neq in HF. rewrite HF. reflexivity. }
  rewrite HA. destruct (Z.eqb_spec (rc c') SQLITE_OK) as [EO|EO]; cbn [negb].
  - assert (HN' : no_cmdx (yystack p')) by (destruct HD as [HD|[HD _]]; [exact HD|contradiction]).
    destruct (HI ts' p' c' HC' EO HS' HN') as ([[[calls z'] p2] c2] & -> & HC2 & (m' & l' & HX & HE) & ts2 & HP & HS2).
    eexists. split; [reflexivity|]. split; [exact HC2|]. split.
    + exists m', l'. split; [now apply HL|]. destruct HE as [(pre & k2 & -> & HF & HK)|[HF HE]].
      * left. exists (k :: pre), k2. split; [reflexivity|]. split; [now constructor|exact HK].
      * right. split; [now constructor|exact HE].
    + exists ts2. split; [now apply HR|exact HS2].
  - eexists. split; [reflexivity|]. split; [exact HC'|]. split.
    + exists mx, a. split; [apply HL; constructor|]. left. exists [], k. auto.
    + exists ts'. split; [apply HR; [reflexivity|reflexivity|constructor]|auto].
Qed.

Lemma run_loop_ok fuel : forall z mx last p c ts, cstring z -> 0 <= mx -> (rounds z last <= fuel)%nat -> sound started sk c -> rc c = SQLITE_OK ->
  stands p ts -> no_cmdx (yystack p) ->
  exists r, run_loop fuel started z mx last p c = Some r /\ run_result mx last z ts r.
Proof.
  induction fuel as [|fuel IH]; intros z mx last p c ts Hz Hmx HF HC HO HS HN.
  { exfalso. unfold rounds in HF. destruct (Nat.eqb _ 0); [destruct (_ =? _); [|destruct (_ =? _)]|]; lia. }
  pose proof HC as (_ & _ & HSK). cbn [run_loop]. destruct z as [|b z1].
  - change (sqlite3GetToken []) with (0, TK_ILLEGAL). cbv beta iota zeta. replace (mx - 0) with mx by lia.
    replace (mx <? 0) with false by lia.
    destruct (judge_end last c) as (c1 & Hc1 & HJ). destruct (seen_sound c c1 Hc1 HC) as [HC1 HO1]. rewrite HO in HO1.
    destruct HJ as [->|[(-> & ->)|[(-> & ->)|(NS & NO & ->)]]].
    + eexists. split; [reflexivity|]. apply run_stop; [apply add_error_sound; [discriminate|apply HC1]|exact HS|exact HN|].
      apply (stopped_interrupted sk mx last [] 0 TK_ILLEGAL); [reflexivity|discriminate|reflexivity].
    + eexists. split; [reflexivity|]. apply run_stop; [exact HC1|exact HS|exact HN|now constructor].
    + apply (run_feed _ _ _ _ _ _ _ mx); [assumption|assumption|assumption|unfold YYNTOKEN; lia|intros l m' l' z'; apply lexed_end|].
      intros ts2 p2 c2 HC2 HO2 HS2 HN2. apply IH; [exact Hz|exact Hmx| |assumption..]. cbv in HF |- *. lia.
    + apply (run_feed _ _ _ _ _ _ _ mx); [assumption|assumption|assumption|now split|intros l m' l' z'; now apply lexed_semi|].
      intros ts2 p2 c2 HC2 HO2 HS2 HN2. apply IH; [exact Hz|exact Hmx| |assumption..].
      unfold rounds in HF. cbn [length Nat.eqb] in HF. replace (last =? TK_SEMI) with false in HF by lia. replace (last =? 0) with false in HF by lia.
      cbv. lia.
  - set (z := b :: z1) in *. assert (HNE : z <> []) by discriminate. clearbody z.
    pose proof (judge_ok z last c Hz HNE) as HJ. pose proof (get_token_next z Hz HNE) as HL. pose proof (fun k => from_cstring k z Hz) as HZ.
    destruct (sqlite3GetToken z) as [n t] eqn:EG. cbn [fst] in HL. cbv zeta. destruct (Z.ltb_spec (mx - n) 0) as [HLong|HLong].
    { eexists. split; [reflexivity|]. apply run_stop; [now apply add_error_sound|exact HS|exact HN|]. apply (stopped_long sk mx last z n t); [exact EG|lia|reflexivity]. }
    destruct HJ as (c1 & Hc1 & HJ). destruct (seen_sound c c1 Hc1 HC) as [HC1 HO1]. rewrite HO in HO1. rewrite HSK in HJ.
    destruct HJ as [(HW & ->)|[(HSp & ->)|[(t' & HR & ->)|(HU & ->)]]].
    + eexists. split; [reflexivity|]. apply run_stop; [apply add_error_sound; [discriminate|apply HC1]|exact HS|exact HN|].
      now apply (stopped_interrupted sk mx last z n t).
    + destruct (IH (Tokenizer.from n z) (mx - n) last p c1 ts (HZ n)) as ([[[calls z'] p2] c2] & E & HC2 & (m' & l' & HX & HE) & HY); [lia| |assumption..|].
      { pose proof (rounds_next z n last last HNE HL). lia. }
      exists (calls, z', p2, c2). split; [exact E|]. split; [exact HC2|]. split; [|exact HY]. exists m', l'. split; [|exact HE].
      apply (lexed_skip sk mx last z n t); [assumption|assumption|lia|assumption|exact HX].
    + apply (run_feed _ _ _ _ _ _ _ (mx - n)); [assumption|assumption|assumption|pose proof (read_as_code last z t t' HR); lia| |].
      { intros l m' l' z' HX. apply (lexed_token sk mx last z n t); [assumption|assumption|lia|assumption|exact HX]. }
      intros ts2 p2 c2 HC2 HO2 HS2 HN2. apply IH; [apply HZ|lia| |assumption..].
      pose proof (rounds_next z n last t' HNE HL). lia.
    + eexists. split; [reflexivity|]. apply run_stop; [now apply error_msg_sound|exact HS|exact HN|].
      apply (stopped_unknown sk mx last z n t); [assumption..|apply error_msg_code].
Qed.

End Invariant.

Lemma lexed_suffix sk mx last z ts mx' last' z' : lexed sk mx last z ts mx' last' z' -> exists pre, z = pre ++ z'.
Proof.
  induction 1 as [mx last z|mx last z n t ts mx' last' z' _ _ _ _ _ [pre E]|mx last z n t t' ts mx' last' z' _ _ _ _ _ [pre E]|mx last ts mx' last' z' _ _ _ [pre E]|mx ts mx' last' z' _ [pre E]];
    [now exists []| | |now exists pre|now exists pre];
    exists (firstn (Z.to_nat n) z ++ pre); rewrite <- app_assoc, <- E; symmetry; apply firstn_skipn.
Qed.

Lemma run_calls_ok z c : cstring z -> 0 <= limit_sql_length c -> zErrMsg c = None ->
  exists r, run_calls z c = Some r /\ run_result (mallocFailed c) (skips c) (limit_sql_length c) (-1) z [] r.
Proof.
  intros Hz Hl Hm. unfold run_calls. destruct (parser_init_ok (env := run_env) (fun x w _ => derives x w) (set_rc c SQLITE_OK)) as [HS HN].
  apply run_loop_ok; [exact Hz|exact Hl|apply rounds_bound| |reflexivity|exact HS|exact HN].
  split; [now left|]. split; [|reflexivity]. cbn [zErrMsg set_rc]. congruence.
Qed.

(** What the result of a run says. *)
Definition reported (nErr : Z) (c : Parse X) : Prop :=
  (nErr = 0 /\ zErrMsg c = None /\ (rc c = SQLITE_OK \/ rc c = SQLITE_DONE) /\ mallocFailed c = false) \/
  (nErr = 1 /\ rc c <> SQLITE_OK /\ (mallocFailed c = true -> rc c = SQLITE_NOMEM) /\
   (zErrMsg c <> None \/ mallocFailed c = true \/ bBenignMalloc c = true)).

Lemma short_message c r : exists x, sqlite3VMPrintf c (ErrStr r) = (Some (ErrStr r), set_rest c x) \/
  sqlite3VMPrintf c (ErrStr r) = (None, sqlite3OomFault (set_rest c x)).
Proof.
  destruct (format_cases c (ErrStr r)) as [[x E]|[[x E]|(x & E & _)]]; [exists x; auto|exists x; auto|]. now apply short_law in E.
Qed.

Lemma run_report z c : cstring z -> 0 <= limit_sql_length c -> zErrMsg c = None ->
  exists e zTail c', sqlite3RunParser c z = Some (e, zTail, c') /\ (exists pre, z = pre ++ zTail) /\ reported e c'.
Proof.
  intros Hz Hl Hm. destruct (run_calls_ok z c Hz Hl Hm) as ([[[calls z'] p] c1] & E & HC & (m' & l' & HX & _) & _).
  unfold sqlite3RunParser. rewrite E. pose proof (finalize_kept (kept := sound (mallocFailed c) (skips c)) p c1 HC) as HC2.
  destruct (sqlite3ParserFinalize p c1) as [c2 h]. cbn [fst] in HC2.
  set (c3 := if mallocFailed c2 then set_rc c2 SQLITE_NOMEM else c2).
  assert (H3 : (mallocFailed c3 = true -> rc c3 = SQLITE_NOMEM) /\ (zErrMsg c3 <> None -> rc c3 <> SQLITE_OK)).
  { subst c3. destruct HC2 as (_ & H2 & _). destruct (mallocFailed c2) eqn:EM; [split; [reflexivity|discriminate]|].
    split; [rewrite EM; discriminate|exact H2]. }
  clearbody c3. destruct H3 as [HM HR]. apply lexed_suffix in HX. cbv zeta.
  destruct (zErrMsg c3) as [m|] eqn:EZ; cbn [orb].
  - assert (HN : rc c3 <> SQLITE_OK) by (apply HR; discriminate). replace ((1 =? 0) || negb (rc c3 =? SQLITE_OK)) with true by lia.
    do 3 eexists. split; [reflexivity|]. split; [exact HX|]. right. rewrite EZ. split; [reflexivity|]. split; [exact HN|]. split; [exact HM|].
    left; discriminate.
  - destruct (Z.eqb_spec (rc c3) SQLITE_OK) as [EO|EO]; cbn [negb andb].
    { do 3 eexists. split; [reflexivity|]. split; [exact HX|]. left. rewrite EZ. repeat split; [now left|].
      destruct (mallocFailed c3); [|reflexivity]. rewrite HM in EO by reflexivity. discriminate EO. }
    destruct (Z.eqb_spec (rc c3) SQLITE_DONE) as [ED|ED]; cbn [negb].
    { cbn [orb]. do 3 eexists. split; [reflexivity|]. split; [exact HX|]. left. rewrite EZ. repeat split; [now right|].
      destruct (mallocFailed c3); [|reflexivity]. rewrite HM in ED by reflexivity. discriminate ED. }
    destruct (short_message c3 (rc c3)) as (x & [EF|EF]); rewrite EF.
    + cbn [rc set_zErrMsg set_rest]. replace ((1 =? 0) || negb (rc c3 =? SQLITE_OK)) with true by lia.
      do 3 eexists. split; [reflexivity|]. split; [exact HX|]. right. cbn. repeat split; [exact EO|exact HM|left; discriminate].
    + cbn [rc set_zErrMsg]. set (c4 := set_rest c3 x).
      assert (H4 : rc (sqlite3OomFault c4) <> SQLITE_OK /\ (mallocFailed (sqlite3OomFault c4) = true -> rc (sqlite3OomFault c4) = SQLITE_NOMEM) /\
        (mallocFailed (sqlite3OomFault c4) = true \/ bBenignMalloc (sqlite3OomFault c4) = true)).
      { destruct (oom_cases c4) as [[-> HB]|[E1 E2]]; [split; [exact EO|split; [exact HM|exact HB]]|]. rewrite E1, E2. split; [discriminate|auto]. }
      destruct H4 as (H41 & H42 & H43). replace ((1 =? 0) || negb (rc (sqlite3OomFault c4) =? SQLITE_OK)) with true by lia.
      do 3 eexists. split; [reflexivity|]. split; [exact HX|]. right. cbn [rc mallocFailed bBenignMalloc zErrMsg set_zErrMsg]. auto.
Qed.

End Run.

(** C20: for every text and whatever the semantic actions and the allocators do,
    as long as they keep [ActionLaws], a run of the parser from a context without
    a message ends, and no assertion fails on the way, those of [sqlite3Parser]
    and of [sqlite3RunParser] included.  What it leaves unread is an end of the
    text.  It returns 0 with no message, a result code of OK or DONE and no failed
    allocation, or 1 with another result code than OK, which is NOMEM when an
    allocation failed, and then with a message unless memory for it was short. *)
Theorem run_parser_terminates {M X : Type} {acts : Actions M X} {laws : ActionLaws} (c : Parse X) (z : list Z) :
  cstring z -> 0 <= limit_sql_length c -> zErrMsg c = None ->
  exists e zTail c', sqlite3RunParser c z = Some (e, zTail, c') /\ (exists pre, z = pre ++ zTail) /\ reported e c'.
Proof. apply run_report. Qed.

(** C19: what a run feeds to the parser is the text ([lexed]): the calls have, in
    order, the tokens that [sqlite3GetToken] finds, up to the limit on the length;
    space is skipped, and comments where they are allowed; WINDOW, OVER and FILTER
    are keywords exactly where the tokens around them say so; after the end of the
    text come SEMI and 0.  The run is left only with the first call that leaves a
    result code, or when all is fed, the limit is exceeded, the run is
    interrupted, or a token is unknown ([ends]).  When it is left, the symbols
    on the stack stand, by the rules of the grammar, for all the tokens shifted
    since the parser was empty; every input that was accepted is a sentence of
    the grammar; and a complete statement on the stack derives the last of these
    tokens but for one at most. *)
Theorem run_parser_sound {M X : Type} {acts : Actions M X} {laws : ActionLaws} (c : Parse X) (z : list Z) :
  cstring z -> 0 <= limit_sql_length c -> zErrMsg c = None ->
  exists calls zTail p c', run_calls z c = Some (calls, zTail, p, c') /\
    (exists mx last, lexed (skips c) (limit_sql_length c) (-1) z (map fed_token calls) mx last zTail /\ ends (skips c) calls mx last zTail c') /\
    exists ts, replay [] calls ts /\ stands p ts /\
      (no_cmdx (yystack p) \/ rc c' <> SQLITE_OK /\ exists u w v, ts = u ++ w ++ v /\ derives sym_cmdx w /\ (length v <= 1)%nat).
Proof.
  intros Hz Hl Hm. destruct (run_calls_ok z c Hz Hl Hm) as ([[[calls z'] p] c'] & E & _ & HX & ts & HR & HS & HD).
  exists calls, z', p, c'. split; [exact E|]. split; [exact HX|]. exists ts. split; [exact HR|]. split; [exact HS|].
  destruct HD as [HN|[HF HE]]; [now left|right]. split; [exact HF|].
  destruct (statement_means (fun x w _ => derives x w) p ts HS HE) as (u & w & v & _ & HT & HW & HV). eauto 6.
Qed.

(** Actions that compute nothing and end a statement with DONE. *)
#[export] Instance plain_actions : Actions unit unit := {|
  token_value := fun _ => tt;
  semantic_action := fun r _ _ _ c => (tt, if r =? rule_cmdx then set_rc c SQLITE_DONE else c);
  stale_value := fun _ => tt;
  delete_value := fun _ _ c => c;
  parserStackRealloc := fun _ c => (true, c);
  format_message := fun _ c => (Formatted, rest c);
  drop_with := fun r => r |}.

#[export] Instance plain_laws : ActionLaws (M := unit) (X := unit).
Proof.
  constructor; cbn; try discriminate; try auto.
  intros started sk r args la t c HS. destruct (r =? rule_cmdx); [|exact HS]. apply failing_sound; [discriminate|apply HS].
Qed.

Definition plain_parse : Parse unit :=
  {| rc := 0; nErr := 0; zErrMsg := None; mallocFailed := false; bBenignMalloc := false; suppressErr := false;
     interrupts := []; init_busy := false; comments_on := true; limit_sql_length := 1000000; rest := tt |}.

(** [SELECT over(x) OVER w /* c */ FROM y; z] *)
Definition plain_sql : list Z := txt "SELECT over(x) OVER w /* c */ FROM y; z".

Lemma plain_sql_cstring : cstring plain_sql.
Proof.
  assert (H : forallb (fun c => (0 <? c) && (c <? 256)) plain_sql = true) by (vm_compute; reflexivity).
  unfold cstring. rewrite Forall_forall. rewrite forallb_forall in H. intros c Hc. specialize (H c Hc). unfold is_u8. lia.
Qed.

Lemma run_parser_terminates_witness : cstring plain_sql /\
  exists e zTail c', sqlite3RunParser plain_parse plain_sql = Some (e, zTail, c') /\ (exists pre, plain_sql = pre ++ zTail) /\ reported e c'.
Proof.
  split; [exact plain_sql_cstring|].
  apply (run_parser_terminates plain_parse plain_sql plain_sql_cstring); [discriminate|reflexivity].
Defined.

(** The run of [plain_sql] ends with DONE at the semicolon; its last token but
    one is a name after FROM, and [over] is read in both ways. *)
Lemma run_parser_sound_witness : cstring plain_sql /\
  exists calls zTail p c', run_calls plain_sql plain_parse = Some (calls, zTail, p, c') /\
    (exists mx last, lexed (skips plain_parse) (limit_sql_length plain_parse) (-1) plain_sql (map fed_token calls) mx last zTail /\
       ends (skips plain_parse) calls mx last zTail c') /\
    exists ts, replay [] calls ts /\ stands p ts /\
      (no_cmdx (yystack p) \/ rc c' <> SQLITE_OK /\ exists u w v, ts = u ++ w ++ v /\ derives sym_cmdx w /\ (length v <= 1)%nat).
Proof.
  split; [exact plain_sql_cstring|].
  apply (run_parser_sound plain_parse plain_sql plain_sql_cstring); [discriminate|reflexivity].
Defined.

Definition types_of (sql : list Z) : option (list (Z * outcome) * list Z * Z) :=
  match run_calls sql plain_parse with
  | Some (calls, z, _, c) => Some (map (fun k => (ktype k, koutcome k)) calls, z, rc c)
  | None => None
  end.

(** The first [over] is an identifier, the second a keyword; the run stops
    after the statement. *)
Example run_over : types_of plain_sql = Some
  (map (fun t => (t, Shifted)) [TK_SELECT; TK_ID; TK_LP; TK_ID; TK_RP; TK_OVER; TK_ID; TK_FROM; TK_ID; TK_SEMI], txt " z", SQLITE_DONE).
Proof. vm_compute. reflexivity. Qed.

(** Without a semicolon the run feeds one. *)
Example run_no_semi : types_of (txt "DROP TABLE t -- gone") = Some
  (map (fun t => (t, Shifted)) [TK_DROP; TK_TABLE; TK_ID; TK_SEMI], [], SQLITE_DONE).
Proof. vm_compute. reflexivity. Qed.

Example run_empty : types_of (txt " ; ") = Some ([(TK_SEMI, Shifted); (0, Accepted)], [], SQLITE_OK).
Proof. vm_compute. reflexivity. Qed.

Example run_rejected : types_of (txt "SELECT FROM") = Some ([(TK_SELECT, Shifted); (TK_FROM, Rejected)], [], SQLITE_ERROR).
Proof. vm_compute. reflexivity. Qed.

Example run_unknown : types_of (txt "SELECT #") = Some ([(TK_SELECT, Shifted)], txt "#", SQLITE_ERROR).
Proof. vm_compute. reflexivity. Qed.
